(* ===== verification/_CoqProject ===== *)
-Q . S2P
Prelude.v
Addr.v
Float.v
Text.v
Siit.v
Vpn.v
NetStats.v
Ingress.v
Dns.v
Delta.v
Frame.v
Policy.v
Config.v
Invite.v
Auth.v
Registry.v
DocStore.v
Acl.v
Dispatch.v
Netdoc.v
NetAuth.v
Fs.v
Listing.v
Negotiate.v
Receiver.v
Confine.v
Sender.v
Sync.v
Steps.v
Converge.v
Session.v
TreeWf.v
Table.v
Datastore.v
Cron.v
Scheduler.v
Fleet.v
Admin.v
Privsep.v
Quality.v
Agent.v
AgentTasks.v
Vt.v
Extensions.v
ExtDispatch.v
Enforce.v
Broker.v
Paste.v
Shell.v
ShellInput.v
ShellOutput.v
Directory.v
Egress.v
Import.v
Checkpoint.v
Health.v
LogSearch.v
Socket.v
