(* ===== verification/Prelude.v ===== *)
(** * WireHop: a verification development

    WireHop (the crates under src/crates) is a peer-to-peer remote-access system: a
    host daemon admits clients by invite or membership, gives them shells, commands,
    transfers and tunnels under a sandbox, and joins hosts to a private layer-3 network
    whose membership is a replicated document.  This library models the parts that carry
    its own logic and proves what they promise.

    ** How the parts interact

    A connection's first message goes to authentication, which consults the peers file,
    the pending invites and the network document, within an attempt limiter.  An
    authorized request goes to dispatch, which applies the role's capability gate and
    starts a session; persistent shells live in the session registry.  Messages travel in
    length-prefixed frames.  A transfer request is checked against the peer's sandbox and
    served by copying or synchronising trees in either direction, in the daemon or in a
    helper process.  Independently, VPN datagrams
    arrive on their own protocol and pass the ingress pump, which authenticates the
    sender, translates 4via6 packets and writes to the TUN device; names are answered by
    a small DNS responder, and reach is decided by a Cedar engine built from the roles.
    Administrative requests change the host's stores and are propagated to the document;
    the embedded datastore holds settings, metrics, secrets, the audit log and the jobs a
    scheduler runs, and local programs reach all of these over the daemon's socket.
    Outgoing packets are routed by the directory the document keeps (owners and endpoints
    of addresses, names, routes), over connections that are renewed when they fall silent.
    A shell session is a loop on either side that survives reconnects; its screen is
    repainted when a client returns, and checkpoints start it again after a restart.  What
    a restricted session runs is confined by the kernel, or asks a broker outside the
    sandbox.  The daemon's worker has no privileges and asks a root monitor; a local agent
    pools the client's connections; extensions serve requests of their own; watchdogs
    restart what does not answer.

    ** Files, and what they model (sources under src/crates/hop-core/src unless named)

    - Prelude.v: Rust results with panics, machine integers as [Z] with explicit
      wrap-around, byte buffers, shared lemmas and tactics.  Addr.v: std::net addresses.
      Float.v: IEEE doubles.  Text.v: the str operations used (a str is its UTF-8 bytes).
    - Siit.v: vpn/siit.rs.  Every function, on byte lists, every index checked.  Theorems:
      both translators produce well-formed packets with verifying checksums and change
      nothing else, never panic, and round-trip ordinary packets.
    - Vpn.v: vpn/mod.rs.  Address parsing, the 4via6 codec and names, CIDR routes, gateway
      authorization, the SIIT client pool ([SiitState]).  Theorems: the codec is a
      bijection, route selection is longest-prefix and first-wins, the pool stays a
      bijection and its exact capacity.
    - NetStats.v: netstats.rs counters and histograms.
    - Ingress.v: vpn/mod.rs, pump_vpn_datagrams and VpnInbound::accept.  [Pump] is the
      state one connection's loop touches, [Datagram] carries the environment it reads.
      Theorems: of IPv4, exactly the admitted packets are written, none from another node's
      address, for one datagram and for runs; counters are conserved on the IPv4 path; the
      4via6 path does not authenticate.
    - Dns.v: vpn/dns.rs and vpn/resolver.rs.  Theorems: no panic, answers follow the
      policy, responses parse back and a stub resolver reads them off.
    - Delta.v: transfer/delta.rs.  Theorems: rolling equals recomputing, applying a delta
      reproduces the new file, for a positive block size, full reads and no collision of
      the strong hash; a short read while signing breaks it.
    - Frame.v: proto/mod.rs framing.  Theorems: round trip for all writers; the
      cancellable reader refines read_message under any chunking and cancellation, and
      delivers.
    - Policy.v: sandbox/policy.rs and validator.rs.  Theorems: path confinement is by
      resolution; where merging and the lexical walk are too permissive.
    - Config.v: config/mod.rs stores and unix_user.rs.  Invite.v: invite/mod.rs.  Theorems:
      an invite is honoured exactly as often as minted, tokens carry no capability,
      revocation and refusals.
    - Auth.v: auth/mod.rs, the limiter (IEEE doubles through SpecFloat) and
      authenticate_client over [World], the stores it reads and writes; [authenticate_io]
      adds the exits on failing I/O.  Theorems: every outcome is justified; admission takes
      effect; an I/O error admits nobody; bursts and bans; a lost update.
    - Registry.v: shell/session_registry.rs.  [SessionRegistry], [handle_command] is one
      iteration of the actor, [run] interleaves commands with what the PTY tasks do to
      shared cells, with a fresh map order per command.  Theorems: whatever leaves is torn
      down, its processes signalled unless their exit was reported, and only that; a superseded client is inert; attach, view, insert and reap
      exactly as specified.
    - Acl.v: vpn/acl.rs, vpn/cedar.rs, the session gate of hop-cli/src/main.rs and the
      packet gate of netdoc/mod.rs.  Theorems: the Cedar engine agrees with role_reaches;
      the capability ladder; the packet gate fails open.
    - Dispatch.v: dispatch_session of hop-cli/src/main.rs and the opening of persistent
      shells of shell/mod.rs.  Theorems: without execution rights only read-only work is
      started, a resumed session excepted; an opened shell is the peer's; resuming escapes
      the gate.
    - DocStore.v: the vendored replicated store (src/vendor/iroh-docs) as far as the network
      document uses it: record order, insertion and its prefix clearing, the two queries.
    - Netdoc.v: netdoc/mod.rs.  [Netdoc] is one node's replica with its trust state, [M] the
      fallible operations on it: author validation, peers, roles, revocations, address and
      site claims, admission, reconciliation, admin propagation.  Theorems: forged records
      are inert for listings; revocation takes effect and can be undone; claims are sound;
      a newer forged record masks a revocation; keys that are prefixes of others erase them.
    - NetAuth.v: the instance showing that such a replica implements the document interface
      authentication is verified against, and that re-admission takes effect.
    - Fs.v: std::path and std::fs as the transfer code uses them: components, a tree of
      files, directories and links, POSIX resolution.
    - Listing.v: transfer/listing.rs and the listing messages of transfer/mod.rs.  Theorems:
      a walk terminates with exactly what can be read of the tree (which directories,
      entries and contents can is a parameter), the plan is exactly the difference, listings
      and plans round-trip in both encodings.
    - Negotiate.v: transfer/negotiation.rs and the capability exchange.  [T] is the monad of
      a transfer session: a file system, the messages to read, the frames written.
      Theorems: the chunk size stays inside the read buffer; two peers agree.
    - Receiver.v, Confine.v: transfer/receiver.rs.  Theorems: nothing outside a link-free
      destination changes, whatever is sent but links and empty paths; with those it does.
    - Sender.v: transfer/sender.rs.  Sync.v: the sessions of transfer/mod.rs, both sides of
      copy and sync, the modes of transfer/helper.rs, the dispatch of a request, and the
      exchange of two sides ([exchange], [settles]).  The class [Timing] says what time-outs
      and cancelled reads take, a read cut inside a message included.
    - Steps.v, Converge.v: what receiving one entry does, and that a push sync comes to its
      end with the destination a copy of the source, deltas included, as long as no read is
      cut inside a message; where cut reads, links, dry runs through the helper and error
      reports go wrong.
    - Session.v: a read-only peer's session changes nothing, a scoped peer's push nothing
      outside its paths.  TreeWf.v: the supporting invariant that the tree stays one.
    - Table.v: the ordered tables of the embedded database and their range scans.
    - Datastore.v: datastore/kv.rs, timeseries.rs, retention.rs, secrets.rs, audit.rs and
      audit.rs.  [Datastore] is the database's tables of encoded rows.  Theorems: the
      operations refine finite maps of decoded entries, one user's secrets are out of
      another's reach, the audit log loses nothing; a listing whose range is empty.
    - Cron.v: datastore/cron.rs.  Theorems: every layout of the job record is read, the run
      history is bounded.  Scheduler.v: hop-mcp/src/cron.rs, [sched_step] interleaves polls
      with the ends of runs and of the scripts abandoned at their deadline.  Theorems: one
      instance per job but for those, due jobs are started; a notification that panics.
    - Fleet.v: fleet/mod.rs.  [HostDir] is the config directory with unreadable files and
      failing writes.  Theorems: roles are a finite map, what fleet and aggregate invites
      grant, when a member is online, what a torn write leaves.
    - Admin.v: admin/mod.rs, the admin branch of dispatch_session and the pruning of
      netdoc/mod.rs.  [AdminState] is directory, metrics and document.  Theorems: stores
      stay well-formed, errors change nothing, a removed peer is revoked; an ambiguous
      prefix and an unreadable roster.
    - Privsep.v: privsep/mod.rs, the root monitor of a Linux host: [handle_request] for
      every request, the loop over a worker's life, the control channel.  Theorems: what a
      worker can have done as root is limited, with two exceptions that are stated: session
      requests and host routes.
    - Quality.v: conn_quality.rs.  Theorems: the bounded tracker says what the whole
      history says, the ladder's actions are exactly those of its rounds.
    - Agent.v, AgentTasks.v: hop-cli/src/agent.rs.  The pool's actor, its clients step by
      step, dialing with hedges, the watchdog and the main loop.  Theorems: everyone is
      answered, connections in use are not closed; the idle shutdown that never comes.
    - Vt.v: hop-vt/src/lib.rs.  The emulator is a parameter; a repaint is what the code
      writes.  Theorems: a terminal that receives it shows the captured screen, but for
      combining characters and the kind and colour of underlines, which are lost.
    - Extensions.v, ExtDispatch.v: extensions/.  Manifests, bootstrap files and
      the registry; the dispatcher and its demultiplexers as interleaving tasks.  Theorems:
      the answers of honest extensions go to the request they belong to; a disconnect cancels
      others' requests.
    - Enforce.v: sandbox/mod.rs, linux.rs and macos.rs, the commands started under them.
      Theorems: what a restricted session runs is confined, on Linux to its paths, or is not
      run; the exception on macOS.
      Broker.v: sandbox/broker.rs.  Theorems: when the relay finishes with its client there, that sees the command's
      output and status, only listed programs are started; what is lost on a cancelled read.
    - Paste.v, Shell.v, ShellInput.v, ShellOutput.v: shell/mod.rs and
      hop-cli/src/reconnect.rs.  The bracketed-paste tracker, both loops of a session with
      their timers, and the ways of keystrokes and of output as interleaving tasks.
      Theorems: the shell is given the keystrokes in order through any reconnects, the
      client that resumes misses no output it is not repainted; what the first client of a
      session and one whose shell exits can miss.
    - Directory.v: netdoc/mod.rs, members' own documents, owners and endpoints of addresses,
      the refresh of the data plane's tables, names, tags, posture, routes.  Theorems: the
      ingress map is vouched for, but for the grace the code gives unbound owners; a forged claim that crashes every node, a forged record
      that intercepts.  Egress.v: vpn_outbound_loop of the same file.  Theorems: every
      datagram is justified by the directory, dead paths are replaced, kernel routes follow.
    - Import.v: vpn/tailscale_import.rs and the command that applies it.  Theorems: a role
      reaches exactly what the policy grants; comments go and nothing else; a role of the
      same name is overwritten.
    - Checkpoint.v: shell/checkpoint.rs.  Theorems: a shell reads in a restored session's
      line what the session ran ([sh_lex] is the part of POSIX quoting that needs), with
      arguments that are text and no agent; with room and brokers restoring starts nothing
      twice, an unrestored checkpoint is kept.
    - Health.v: health.rs, net/health.rs, net/netmon.rs and net/mod.rs.  Theorems: the
      daemon is restarted exactly when it was unreachable, the relay's watcher likewise,
      records of dials say what their history says.
    - LogSearch.v: logsearch/mod.rs.  Theorems: a search emits exactly the first matches of
      what it reads; a line that is not UTF-8 hides the rest.
    - Socket.v: datastore/socket.rs and protocol.rs, over Datastore, Cron, Admin, Registry,
      Checkpoint and Netdoc.  Theorems: a client sees the daemon's own answers, the socket
      administers like the network; an answer too large for a frame.

    ** Conventions

    Fallible code returns [rust E A], so an error, a value and a panic are different; code
    that cannot panic returns plain values.  Third-party crates (bincode, zstd, xxh3, sha2,
    argon2, base64, serde_json, Cedar, the AEAD cipher, cron expressions), the file system, the Unicode tables and the order
    a hash map iterates in are type classes or parameters with their
    documented laws; each class that a theorem assumes laws of has a concrete instance in
    the witness.  Wall clocks and monotonic clocks are arguments.

    ** Fuel and bounds

    The delta scan runs with fuel linear in the new file's length and [delta_roundtrip]
    shows it is enough for a positive block size.  The pool probe is the source's
    loop of 65 535 steps, an address claim the source's 256 probes.  Deduplicating names tries one more suffix than there are hosts.
    A walk has one more level of fuel than there are entries, a message loop as much as there
    are messages to read: out of fuel, the stream has ended.  A read loop has as much as
    there are bytes.  Link resolution stops after forty links, as the system does.
    Decimal printing has twenty digits, which holds every u64.  Splitting at white space,
    scanning for markers, cutting a stream into lines or frames and trimming a suffix have
    one more step than there are bytes; the client of the broker has one more than there are
    frames.  Everything else is
    structural recursion.  Counters and epochs wrap at 64 bits; theorems that need no
    wrap-around say so.

    ** Not modelled

    System I/O: terminals, the TUN device, QUIC, opening files, databases and sockets, the
    kernel's side of Landlock and Seatbelt, passing descriptors and dropping privileges.
    These are parameters, effects or the environment of a step.  The terminal emulator, the
    Cedar engine's parser, iroh and the vendored crates but for the store the document
    uses.  Joining a network, bringing the VPN up and synchronising documents, which are
    sequences of calls into iroh.  The command line's argument parsing and most of its
    commands (status screens, tables, OAuth, services), which format what the modelled
    parts answer; adopting sessions after a restart, read-only views and tunnels; discovery
    on the local network; posture probes; the MCP server's tools, skills and scripting
    runtime, whose behaviour is that of a JavaScript engine, and its policy file, which
    nothing consults.  A database transaction is atomic and does not fail. *)

From stdpp Require Export base gmap strings list numbers sorting.
From Stdlib Require Export ZArith Lia.

(** ** Rust results and panics

    A Rust function that returns [Option<A>] or [Result<A, E>] has three
    outcomes: a value, an error value, or a panic (an index or slice out of
    range).  [rust E A] keeps them apart, so that "never panics" is a theorem
    about the code and not a property of the encoding. *)
Inductive rust (E A : Type) : Type :=
| Ok (a : A)
| Err (e : E)
| Panic.
Arguments Ok {E A} a.
Arguments Err {E A} e.
Arguments Panic {E A}.

#[export] Instance rust_ret E : MRet (rust E) := fun A a => Ok a.
#[export] Instance rust_bind E : MBind (rust E) := fun A B f m =>
  match m with Ok a => f a | Err e => Err e | Panic => Panic end.

Lemma Ok_inj {E A} (a b : A) : @Ok E A a = Ok b -> a = b.
Proof. by injection 1. Qed.

(** [Option]-returning code: the error carries nothing. *)
Abbreviation ropt := (rust unit).
Definition none {A} : ropt A := Err tt.

(** Rust's [?] on an [Option]. *)
Definition try_opt {A} (o : option A) : ropt A :=
  match o with Some a => Ok a | None => none end.

(** [l[i]]: panics out of range. *)
Definition idx {E A} (l : list A) (i : nat) : rust E A :=
  match l !! i with Some x => Ok x | None => Panic end.

(** [l.get(a..b)] and [l[a..b]]. *)
Definition get_range {A} (l : list A) (a b : nat) : option (list A) :=
  if decide (a <= b /\ b <= length l)%nat then Some (take (b - a) (drop a l)) else None.
Definition slice {E A} (l : list A) (a b : nat) : rust E (list A) :=
  match get_range l a b with Some s => Ok s | None => Panic end.

(** [l[a..b].copy_from_slice(&src)] on an in-range window. *)
Definition copy_at {A} (l : list A) (a : nat) (src : list A) : list A :=
  take a l ++ src ++ drop (a + length src) l.

Declare Scope rust_scope.
Delimit Scope rust_scope with rust.
Notation "x .& y" := (Z.land x y) (at level 40, left associativity) : rust_scope.
Notation "x .| y" := (Z.lor x y) (at level 50, left associativity) : rust_scope.
Notation "x .^ y" := (Z.lxor x y) (at level 50, left associativity) : rust_scope.
Notation "x .>> n" := (Z.shiftr x n) (at level 37, left associativity) : rust_scope.
Notation "x .<< n" := (Z.shiftl x n) (at level 37, left associativity) : rust_scope.
Open Scope rust_scope.

(** ** Machine integers: a [w]-bit unsigned integer is a [Z] in range *)
Definition u8 (x : Z) : Z := x mod 2 ^ 8.
Definition u16 (x : Z) : Z := x mod 2 ^ 16.
Definition u32 (x : Z) : Z := x mod 2 ^ 32.
Definition u64 (x : Z) : Z := x mod 2 ^ 64.

Definition is_u8 (x : Z) : Prop := (0 <= x < 2 ^ 8)%Z.
Definition is_u16 (x : Z) : Prop := (0 <= x < 2 ^ 16)%Z.
Definition is_u32 (x : Z) : Prop := (0 <= x < 2 ^ 32)%Z.
Definition is_u64 (x : Z) : Prop := (0 <= x < 2 ^ 64)%Z.
Abbreviation bytes := (list Z).
Definition is_bytes (l : bytes) : Prop := Forall is_u8 l.

#[export] Instance is_u8_dec x : Decision (is_u8 x).
Proof. unfold is_u8. apply _. Defined.
#[export] Instance is_u16_dec x : Decision (is_u16 x).
Proof. unfold is_u16. apply _. Defined.
#[export] Instance is_u32_dec x : Decision (is_u32 x).
Proof. unfold is_u32. apply _. Defined.
#[export] Instance is_bytes_dec l : Decision (is_bytes l).
Proof. unfold is_bytes. apply _. Defined.

(** [u16::to_be_bytes], [u16::from_be_bytes] and their 32-bit versions. *)
Definition to_be16 (x : Z) : bytes := [u8 (x .>> 8); u8 x].
Definition from_be16 (a b : Z) : Z := (a .<< 8) .| b.
Definition to_be32 (x : Z) : bytes := [u8 (x .>> 24); u8 (x .>> 16); u8 (x .>> 8); u8 x].
Definition from_be32 (a b c d : Z) : Z :=
  (a .<< 24) .| (b .<< 16) .| (c .<< 8) .| d.

(** [saturating_sub] on unsigned integers. *)
Definition sat_sub (a b : Z) : Z := Z.max 0 (a - b).
(** [saturating_add] on [u64]. *)
Definition sat_add64 (a b : Z) : Z := Z.min (2 ^ 64 - 1) (a + b).

(** ** Automation

    [wirehop] holds the range and length facts the components share;
    [zbytes] is the arithmetic closer for goals about bytes and words. *)
Create HintDb wirehop.
Ltac zbytes :=
  unfold is_u8, is_u16, is_u32, is_u64, u8, u16, u32, u64 in *;
  Z.div_mod_to_equations; lia.
(** Concrete byte lists. *)
Ltac solve_bytes :=
  unfold is_bytes; repeat (apply Forall_cons_2; [first [done | zbytes]|]); apply Forall_nil_2.
(** Split every [match]/[if] scrutinee in the goal or a hypothesis. *)
Ltac case_all := repeat (case_match || case_decide || simplify_eq/=).
(** Invert a successful monadic computation hypothesis. *)
Ltac rust_inv H :=
  repeat match type of H with
  | mbind _ ?m = _ => let E := fresh "E" in destruct m eqn:E; simpl in H; try discriminate H
  end.

Section MachineIntegers.
Local Open Scope Z_scope.

Lemma shiftr8 x : x .>> 8 = x / 256.
Proof. by rewrite Z.shiftr_div_pow2. Qed.
Lemma shiftl8 x : x .<< 8 = x * 256.
Proof. by rewrite Z.shiftl_mul_pow2. Qed.

Lemma lor_disjoint a b n : 0 <= n -> 0 <= b < 2 ^ n -> (a .<< n) .| b = a * 2 ^ n + b.
Proof.
  intros Hn Hb. rewrite Z.shiftl_mul_pow2 by done.
  rewrite <-Z.add_lor_land.
  enough (Z.land (a * 2 ^ n) b = 0) as -> by lia.
  apply Z.bits_inj'. intros i Hi. rewrite Z.land_spec, Z.bits_0.
  destruct (decide (i < n)).
  - by rewrite Z.mul_pow2_bits_low.
  - rewrite <-(Z.mod_small b (2 ^ n)) by done.
    rewrite Z.mod_pow2_bits_high by lia. apply andb_false_r.
Qed.

Lemma from_be16_eq a b : is_u8 b -> from_be16 a b = a * 256 + b.
Proof. intros. unfold from_be16. by rewrite lor_disjoint. Qed.

Lemma is_u16_from_be16 a b : is_u8 a -> is_u8 b -> is_u16 (from_be16 a b).
Proof. intros ? Hb. rewrite (from_be16_eq _ _ Hb). zbytes. Qed.

Lemma from_to_be16 x : is_u16 x ->
  exists a b, to_be16 x = [a; b] /\ is_u8 a /\ is_u8 b /\ from_be16 a b = x.
Proof.
  intros Hx. exists (u8 (x .>> 8)), (u8 x). split; [done|].
  assert (is_u8 (u8 x)) by zbytes. assert (is_u8 (u8 (x .>> 8))) by zbytes.
  split; [done|]. split; [done|]. rewrite from_be16_eq by done.
  rewrite shiftr8. zbytes.
Qed.

Lemma to_from_be16 a b : is_u8 a -> is_u8 b -> to_be16 (from_be16 a b) = [a; b].
Proof.
  intros Ha Hb. rewrite from_be16_eq by done. unfold to_be16. rewrite shiftr8.
  repeat f_equal; zbytes.
Qed.

Lemma from_be32_eq a b c d : is_u8 b -> is_u8 c -> is_u8 d ->
  from_be32 a b c d = a * 2 ^ 24 + b * 2 ^ 16 + c * 2 ^ 8 + d.
Proof.
  intros Hb Hc Hd. unfold from_be32. unfold is_u8 in *.
  rewrite (lor_disjoint a (b .<< 16) 24); [|lia|rewrite Z.shiftl_mul_pow2; lia].
  rewrite (Z.shiftl_mul_pow2 b) by lia.
  replace (a * 2 ^ 24 + b * 2 ^ 16) with ((a * 2 ^ 8 + b) .<< 16)
    by (rewrite Z.shiftl_mul_pow2; lia).
  rewrite (lor_disjoint _ (c .<< 8) 16); [|lia|rewrite Z.shiftl_mul_pow2; lia].
  rewrite (Z.shiftl_mul_pow2 c) by lia.
  replace ((a * 2 ^ 8 + b) * 2 ^ 16 + c * 2 ^ 8) with (((a * 2 ^ 8 + b) * 2 ^ 8 + c) .<< 8)
    by (rewrite Z.shiftl_mul_pow2; lia).
  rewrite (lor_disjoint _ d 8) by lia. rewrite Z.shiftl_mul_pow2 by lia. lia.
Qed.

Lemma to_from_be32 a b c d : is_u8 a -> is_u8 b -> is_u8 c -> is_u8 d ->
  to_be32 (from_be32 a b c d) = [a; b; c; d].
Proof.
  intros Ha Hb Hc Hd. rewrite from_be32_eq by done. unfold to_be32.
  rewrite !Z.shiftr_div_pow2 by lia. repeat f_equal; zbytes.
Qed.

Lemma from_to_be32 x : is_u32 x ->
  from_be32 (u8 (x .>> 24)) (u8 (x .>> 16)) (u8 (x .>> 8)) (u8 x) = x.
Proof.
  intros Hx. rewrite from_be32_eq by zbytes.
  rewrite !Z.shiftr_div_pow2 by lia. zbytes.
Qed.

Lemma is_bytes_to_be16 x : is_bytes (to_be16 x).
Proof. repeat constructor; zbytes. Qed.
Lemma is_bytes_to_be32 x : is_bytes (to_be32 x).
Proof. repeat constructor; zbytes. Qed.

Lemma is_u16_u16 x : is_u16 (u16 x).
Proof. zbytes. Qed.
Lemma is_u8_u8 x : is_u8 (u8 x).
Proof. zbytes. Qed.
Lemma u16_small x : is_u16 x -> u16 x = x.
Proof. zbytes. Qed.
Lemma u8_small x : is_u8 x -> u8 x = x.
Proof. zbytes. Qed.
Lemma u32_small x : is_u32 x -> u32 x = x.
Proof. zbytes. Qed.
End MachineIntegers.

#[export] Hint Resolve is_bytes_to_be16 is_bytes_to_be32 is_u16_u16 is_u8_u8
  is_u16_from_be16 : wirehop.

(** ** Lists as buffers *)
Section Buffers.
Context {A : Type}.
Implicit Types l s : list A.

Lemma idx_ok {E} l i x : l !! i = Some x -> idx (E:=E) l i = Ok x.
Proof. unfold idx. by intros ->. Qed.

Lemma idx_total {E} `{!Inhabited A} l i : (i < length l)%nat -> idx (E:=E) l i = Ok (l !!! i).
Proof. intros. apply idx_ok. by apply list_lookup_lookup_total_lt. Qed.

Lemma get_range_Some l a b :
  (a <= b)%nat -> (b <= length l)%nat -> get_range l a b = Some (take (b - a) (drop a l)).
Proof. intros. unfold get_range. by rewrite decide_True. Qed.

Lemma get_range_inv l a b s : get_range l a b = Some s ->
  (a <= b <= length l)%nat /\ s = take (b - a) (drop a l).
Proof. unfold get_range. intros H. case_decide; simplify_eq; split; [lia|done]. Qed.

Lemma slice_Ok {E} l a b :
  (a <= b)%nat -> (b <= length l)%nat -> slice (E:=E) l a b = Ok (take (b - a) (drop a l)).
Proof. intros. unfold slice. by rewrite get_range_Some. Qed.

Lemma length_copy_at l a s :
  (a + length s <= length l)%nat -> length (copy_at l a s) = length l.
Proof.
  intros. unfold copy_at. rewrite !length_app, length_take, length_drop. lia.
Qed.

Lemma copy_at_app l1 old l2 s :
  length s = length old -> copy_at (l1 ++ old ++ l2) (length l1) s = l1 ++ s ++ l2.
Proof.
  intros Hs. unfold copy_at. rewrite take_app_length. f_equal. f_equal.
  rewrite <-drop_drop, drop_app_length, Hs. apply drop_app_length.
Qed.

Lemma copy_at_copy_at l a s s' :
  (a + length s <= length l)%nat -> length s' = length s ->
  copy_at (copy_at l a s) a s' = copy_at l a s'.
Proof.
  intros Hl Hs. unfold copy_at at 2.
  replace a with (length (take a l)) at 3 by (rewrite length_take; lia).
  rewrite copy_at_app by done. unfold copy_at. by rewrite Hs.
Qed.

Lemma copy_at_self l a n :
  (a + n <= length l)%nat -> copy_at l a (take n (drop a l)) = l.
Proof.
  intros. unfold copy_at. rewrite length_take, length_drop.
  replace (n `min` (length l - a))%nat with n by lia.
  rewrite <-(take_drop a l) at 4. f_equal.
  rewrite <-(take_drop n (drop a l)) at 2. by rewrite drop_drop.
Qed.

Lemma insert2_copy_at l a x y :
  (a + 2 <= length l)%nat -> <[(a + 1)%nat:=y]> (<[a:=x]> l) = copy_at l a [x; y].
Proof.
  intros. unfold copy_at. simpl.
  rewrite (insert_take_drop l a x) by lia.
  rewrite insert_app_r_alt by (rewrite length_take; lia).
  f_equal. rewrite length_take. replace (a + 1 - a `min` length l)%nat with 1%nat by lia.
  simpl. f_equal. destruct (lookup_lt_is_Some_2 l (S a)) as [z Hz]; [lia|].
  rewrite (drop_S l z (S a)) by done. simpl. by replace (a + 2)%nat with (S (S a)) by lia.
Qed.

Lemma take_drop_copy_at l a s :
  (a + length s <= length l)%nat -> take (length s) (drop a (copy_at l a s)) = s.
Proof.
  intros. unfold copy_at.
  rewrite drop_app_ge by (rewrite length_take; lia).
  rewrite length_take. replace (a - a `min` length l)%nat with 0%nat by lia.
  by rewrite drop_0, take_app_length.
Qed.

Lemma lookup_copy_at_ne l a s i :
  (a + length s <= length l)%nat -> (i < a \/ a + length s <= i)%nat ->
  copy_at l a s !! i = l !! i.
Proof.
  intros Hl Hi. unfold copy_at. destruct Hi as [Hi|Hi].
  - rewrite lookup_app_l by (rewrite length_take; lia). by rewrite lookup_take_lt.
  - rewrite lookup_app_r; rewrite length_take; [|lia].
    rewrite lookup_app_r by lia. rewrite lookup_drop. f_equal. lia.
Qed.
End Buffers.

Lemma is_bytes_app l1 l2 : is_bytes (l1 ++ l2) <-> is_bytes l1 /\ is_bytes l2.
Proof. apply Forall_app. Qed.
Lemma is_bytes_take n l : is_bytes l -> is_bytes (take n l).
Proof. apply Forall_take. Qed.
Lemma is_bytes_drop n l : is_bytes l -> is_bytes (drop n l).
Proof. apply Forall_drop. Qed.
Lemma is_bytes_copy_at l a s : is_bytes l -> is_bytes s -> is_bytes (copy_at l a s).
Proof.
  intros. unfold copy_at. rewrite !is_bytes_app.
  auto using is_bytes_take, is_bytes_drop.
Qed.
Lemma is_bytes_lookup l i x : is_bytes l -> l !! i = Some x -> is_u8 x.
Proof. intros H. apply Forall_lookup_1. done. Qed.
#[export] Hint Resolve is_bytes_take is_bytes_drop is_bytes_copy_at is_bytes_lookup : wirehop.

(** ** Reachability: an invariant of every step holds in every reachable state *)
Lemma rtc_invariant {A} (R : A -> A -> Prop) (P : A -> Prop) x y :
  P x -> (forall a b, P a -> R a b -> P b) -> rtc R x y -> P y.
Proof. intros Hx Hstep Hr. induction Hr; eauto. Qed.

(** In a list whose second components are distinct, a second component names its pair. *)
Lemma NoDup_snd_fst {A B} (l : list (A * B)) a a' b :
  NoDup l.*2 -> (a, b) ∈ l -> (a', b) ∈ l -> a = a'.
Proof.
  induction l as [|[x y] l IH]; cbn; [by intros _ ?%elem_of_nil|].
  intros [Hn Hd]%NoDup_cons [H1|H1]%elem_of_cons [H2|H2]%elem_of_cons.
  - congruence.
  - destruct Hn. injection H1 as -> ->. by apply (list_elem_of_fmap_2 snd _ (a', y)).
  - destruct Hn. injection H2 as -> ->. by apply (list_elem_of_fmap_2 snd _ (a, y)).
  - by apply IH.
Qed.

Lemma filter_all {A} (P : A -> Prop) `{!forall x, Decision (P x)} (l : list A) :
  Forall P l -> base.filter P l = l.
Proof. induction 1; [done|]. rewrite filter_cons_True by done. by f_equal. Qed.

Lemma idx_out {E A} (l : list A) i : (length l <= i)%nat -> idx (E:=E) l i = Panic.
Proof. intros. unfold idx. by rewrite lookup_ge_None_2. Qed.

(** A list without repeated keys has one element per key. *)
Lemma NoDup_map_inj {A B} (g : A -> B) (l : list A) x y :
  NoDup (map g l) -> x ∈ l -> y ∈ l -> g x = g y -> x = y.
Proof.
  induction l as [|a l IH]; [by intros _ ?%elem_of_nil|]. cbn.
  intros [Ha Hn]%NoDup_cons [->|Hx]%elem_of_cons [->|Hy]%elem_of_cons E; [done|..|by apply IH];
    destruct Ha; [rewrite E|rewrite <-E]; by apply list_elem_of_fmap_2.
Qed.
