(* ===== verification/Addr.v ===== *)
(** * Addr: the [std::net] address types the data plane uses

    [Ipv4Addr] and [Ipv6Addr] with their octets and integer views, as Rust's
    standard library defines them. *)
From S2P Require Import Prelude.
Local Open Scope Z_scope.

Inductive Ipv4Addr : Type := V4 (a b c d : Z).
Inductive Ipv6Addr : Type := V6 (o : bytes).
Inductive IpAddr : Type := IpV4 (a : Ipv4Addr) | IpV6 (a : Ipv6Addr).

#[export] Instance Ipv4Addr_eq_dec : EqDecision Ipv4Addr.
Proof. solve_decision. Defined.
#[export] Instance Ipv6Addr_eq_dec : EqDecision Ipv6Addr.
Proof. solve_decision. Defined.
#[export] Instance IpAddr_eq_dec : EqDecision IpAddr.
Proof. solve_decision. Defined.
#[export] Instance Ipv4Addr_countable : Countable Ipv4Addr.
Proof.
  by apply (inj_countable' (fun '(V4 a b c d) => (a, b, c, d)) (fun '(a, b, c, d) => V4 a b c d));
    intros [].
Defined.
#[export] Instance Ipv6Addr_countable : Countable Ipv6Addr.
Proof. by apply (inj_countable' (fun '(V6 o) => o) V6); intros []. Defined.

Definition octets4 (ip : Ipv4Addr) : bytes := let '(V4 a b c d) := ip in [a; b; c; d].
Definition octets6 (ip : Ipv6Addr) : bytes := let '(V6 o) := ip in o.

(** [u32::from(Ipv4Addr)] and [Ipv4Addr::from(u32)]. *)
Definition u32_of_v4 (ip : Ipv4Addr) : Z := let '(V4 a b c d) := ip in from_be32 a b c d.
Definition v4_of_u32 (x : Z) : Ipv4Addr :=
  V4 (u8 (x .>> 24)) (u8 (x .>> 16)) (u8 (x .>> 8)) (u8 x).

(** The values these Rust types can hold. *)
Definition wf4 (ip : Ipv4Addr) : Prop := is_bytes (octets4 ip).
Definition wf6 (ip : Ipv6Addr) : Prop := length (octets6 ip) = 16%nat /\ is_bytes (octets6 ip).

#[export] Instance wf4_dec ip : Decision (wf4 ip).
Proof. unfold wf4. apply _. Defined.
#[export] Instance wf6_dec ip : Decision (wf6 ip).
Proof. unfold wf6. apply _. Defined.

Lemma length_octets4 ip : length (octets4 ip) = 4%nat.
Proof. by destruct ip. Qed.

Lemma wf4_V4 a b c d : wf4 (V4 a b c d) <-> is_u8 a /\ is_u8 b /\ is_u8 c /\ is_u8 d.
Proof. unfold wf4, is_bytes. simpl. rewrite !Forall_cons, Forall_nil. tauto. Qed.

Lemma wf4_v4_of_u32 x : wf4 (v4_of_u32 x).
Proof. apply wf4_V4. auto with wirehop. Qed.

Lemma v4_of_u32_of_v4 ip : wf4 ip -> v4_of_u32 (u32_of_v4 ip) = ip.
Proof.
  destruct ip as [a b c d]. rewrite wf4_V4. intros (?&?&?&?).
  assert (to_be32 (from_be32 a b c d) = [a; b; c; d]) as Heq by (by apply to_from_be32).
  unfold to_be32 in Heq. unfold v4_of_u32, u32_of_v4. congruence.
Qed.

Lemma u32_of_v4_of_u32 x : is_u32 x -> u32_of_v4 (v4_of_u32 x) = x.
Proof. apply from_to_be32. Qed.

Lemma is_u32_u32_of_v4 ip : wf4 ip -> is_u32 (u32_of_v4 ip).
Proof.
  destruct ip as [a b c d]. rewrite wf4_V4. intros (?&?&?&?).
  unfold u32_of_v4. rewrite from_be32_eq by done. zbytes.
Qed.
#[export] Hint Resolve wf4_v4_of_u32 is_u32_u32_of_v4 : wirehop.
