(* ===== verification/Float.v ===== *)
(** * Float: IEEE doubles

    The [f64] operations the program uses, through the Standard Library's
    specification of binary64, and the casts between them and integers. *)
From S2P Require Import Prelude.
From Stdlib Require Import SpecFloat.
Local Open Scope Z_scope.

Definition f64 := spec_float.
Definition f64_of_Z (n : Z) : f64 := binary_normalize 53 1024 n 0 false.
Definition f64_add : f64 -> f64 -> f64 := SFadd 53 1024.
Definition f64_sub : f64 -> f64 -> f64 := SFsub 53 1024.
Definition f64_mul : f64 -> f64 -> f64 := SFmul 53 1024.
Definition f64_div : f64 -> f64 -> f64 := SFdiv 53 1024.
(** [f64::min]: the other argument when one is not a number. *)
Definition f64_min (a b : f64) : f64 :=
  match SFcompare a b with
  | Some Lt | Some Eq => a
  | Some Gt => b
  | None => match a with S754_nan => b | _ => a end
  end.
Definition f64_ge (a b : f64) : bool := SFleb b a.
(** [Duration::as_secs_f64], of nanoseconds. *)
Definition as_secs_f64 (nanos : Z) : f64 :=
  f64_add (f64_of_Z (nanos / 10 ^ 9)) (f64_div (f64_of_Z (nanos mod 10 ^ 9)) (f64_of_Z (10 ^ 9))).
Definition f64_gt (a b : f64) : bool := SFltb b a.
Definition f64_lt (a b : f64) : bool := SFltb a b.
(** [as usize]: towards zero, saturating; not-a-number is 0. *)
Definition f64_to_u64 (x : f64) : Z :=
  match x with
  | S754_zero _ | S754_nan | S754_finite true _ _ | S754_infinity true => 0
  | S754_infinity false => 2 ^ 64 - 1
  | S754_finite false m e =>
      Z.min (2 ^ 64 - 1) (if 0 <=? e then Z.shiftl (Z.pos m) e else Z.shiftr (Z.pos m) (- e))
  end.
