(* ===== verification/Text.v ===== *)
(** * Text: the [str] operations of Rust's standard library the sources use

    A Rust [str] is modelled by Stdlib's [string], read as its UTF-8 bytes.
    Integer parsing and printing, splitting, trimming (with every character of
    Unicode's White_Space property), prefixes and dotted-quad parsing follow
    the standard library's documented behaviour. *)
From S2P Require Import Prelude Addr.
From Stdlib Require Import Ascii String.
Local Open Scope Z_scope.

Definition chr (n : Z) : ascii := ascii_of_nat (Z.to_nat n).
Definition ord (c : ascii) : Z := Z.of_nat (nat_of_ascii c).

(** [str::as_bytes] and its inverse. *)
Fixpoint str_bytes (s : string) : bytes :=
  match s with EmptyString => [] | String c s' => ord c :: str_bytes s' end.
Fixpoint bytes_str (l : bytes) : string :=
  match l with [] => EmptyString | b :: l' => String (chr b) (bytes_str l') end.

Fixpoint sdrop (n : nat) (s : string) : string :=
  match n, s with
  | O, _ => s
  | S n', String _ s' => sdrop n' s'
  | S _, EmptyString => EmptyString
  end.
Fixpoint srev_app (s acc : string) : string :=
  match s with EmptyString => acc | String c s' => srev_app s' (String c acc) end.
Definition srev (s : string) : string := srev_app s EmptyString.

(** [str::starts_with] and [str::strip_prefix] for a string pattern. *)
Definition starts_with (p s : string) : bool := String.prefix p s.
Definition strip_prefix (p s : string) : option string :=
  if starts_with p s then Some (sdrop (String.length p) s) else None.
Definition ends_with (p s : string) : bool := starts_with (srev p) (srev s).
Definition strip_suffix (p s : string) : option string :=
  if ends_with p s then Some (srev (sdrop (String.length p) (srev s))) else None.

(** [str::split(c)]: always at least one piece. *)
Fixpoint split_char (c : ascii) (s : string) : list string :=
  match s with
  | EmptyString => [EmptyString]
  | String d s' =>
      if Ascii.eqb c d then EmptyString :: split_char c s'
      else match split_char c s' with
           | [] => [String d EmptyString]
           | p :: ps => String d p :: ps
           end
  end.

(** [str::split_once(c)]: at the first occurrence. *)
Fixpoint split_once (c : ascii) (s : string) : option (string * string) :=
  match s with
  | EmptyString => None
  | String d s' =>
      if Ascii.eqb c d then Some (EmptyString, s')
      else match split_once c s' with
           | Some (l, r) => Some (String d l, r)
           | None => None
           end
  end.

(** [str::rsplit_once(pat)] for a nonempty pattern: at the last occurrence. *)
Fixpoint rsplit_once (pat s : string) : option (string * string) :=
  match s with
  | EmptyString => None
  | String d s' =>
      match rsplit_once pat s' with
      | Some (l, r) => Some (String d l, r)
      | None => if starts_with pat s then Some (EmptyString, sdrop (String.length pat) s) else None
      end
  end.

Arguments split_char c%_char s%_string.
Arguments split_once c%_char s%_string.
Arguments rsplit_once (pat s)%_string.

(** [slice::join(sep)]. *)
Definition join (sep : string) (l : list string) : string := String.concat sep l.

(** [str::trim]: the UTF-8 encodings of the White_Space characters. *)
Definition whitespace : list string :=
  map bytes_str
    ([[9]; [10]; [11]; [12]; [13]; [32]; [194; 133]; [194; 160]; [225; 154; 128];
      [226; 128; 168]; [226; 128; 169]; [226; 128; 175]; [226; 129; 159]; [227; 128; 128]]
     ++ map (fun b => [226; 128; b]) [128;129;130;131;132;133;134;135;136;137;138]).
Fixpoint trim_start_with (ws : list string) (fuel : nat) (s : string) : string :=
  match fuel with
  | O => s
  | S f => match find (fun w => starts_with w s) ws with
           | Some w => trim_start_with ws f (sdrop (String.length w) s)
           | None => s
           end
  end.
Definition trim_start (s : string) : string := trim_start_with whitespace (String.length s) s.
Definition trim_end (s : string) : string :=
  srev (trim_start_with (map srev whitespace) (String.length s) (srev s)).
Definition trim (s : string) : string := trim_end (trim_start s).

(** ** Integers *)
Definition digit_of (c : ascii) : option Z :=
  let n := ord c in if (48 <=? n) && (n <=? 57) then Some (n - 48) else None.

(** The checked multiply-and-add loop of the integer [FromStr]. *)
Fixpoint digits_value (max acc : Z) (s : string) : option Z :=
  match s with
  | EmptyString => Some acc
  | String c s' =>
      match digit_of c with
      | None => None
      | Some d => let acc' := acc * 10 + d in
                  if acc' <=? max then digits_value max acc' s' else None
      end
  end.
(** [str::parse::<uN>()]: a leading '+' is accepted, an empty number is not. *)
Definition parse_uint (max : Z) (s : string) : option Z :=
  match s with
  | EmptyString => None
  | String c s' =>
      if Ascii.eqb c "+" then match s' with EmptyString => None | _ => digits_value max 0 s' end
      else digits_value max 0 s
  end.
Definition parse_u8 : string -> option Z := parse_uint 255.
Definition parse_u32 : string -> option Z := parse_uint (2 ^ 32 - 1).

(** [to_string] of an unsigned integer: decimal, no leading zero. *)
Fixpoint dec_digits (fuel : nat) (n : Z) (acc : string) : string :=
  match fuel with
  | O => acc
  | S f => let acc' := String (chr (48 + n mod 10)) acc in
           if n / 10 =? 0 then acc' else dec_digits f (n / 10) acc'
  end.
(** Twenty digits hold every [u64]. *)
Definition print_uint (n : Z) : string := dec_digits 20 n EmptyString.

(** One octet of [Ipv4Addr::from_str]: one to three digits, no leading zero,
    at most 255. *)
Definition parse_octet (s : string) : option Z :=
  match s with
  | EmptyString => None
  | String c s' =>
      if (3 <? String.length s)%nat then None
      else if Ascii.eqb c "0" && negb (String.eqb s' EmptyString) then None
      else digits_value 255 0 s
  end.
Definition parse_ipv4 (s : string) : option Ipv4Addr :=
  match split_char "." s with
  | [a; b; c; d] =>
      a ← parse_octet a; b ← parse_octet b; c ← parse_octet c; d ← parse_octet d;
      Some (V4 a b c d)
  | _ => None
  end.

Example parse_ipv4_ex : parse_ipv4 "192.168.1.50" = Some (V4 192 168 1 50).
Proof. reflexivity. Qed.
Example parse_ipv4_ex_leading_zero : parse_ipv4 "192.168.01.50" = None.
Proof. reflexivity. Qed.
Example print_uint_ex : print_uint 4294967295 = "4294967295"%string.
Proof. reflexivity. Qed.
Example trim_ex : trim "  a b	 " = "a b"%string.
Proof. reflexivity. Qed.

(** ** Lemmas *)
Lemma ord_chr n : is_u8 n -> ord (chr n) = n.
Proof.
  unfold is_u8, ord, chr. intros. rewrite nat_ascii_embedding by lia. lia.
Qed.

Lemma chr_ord c : chr (ord c) = c.
Proof. unfold chr, ord. by rewrite Nat2Z.id, ascii_nat_embedding. Qed.

Lemma is_u8_ord c : is_u8 (ord c).
Proof. unfold is_u8, ord. pose proof (nat_ascii_bounded c). lia. Qed.

Lemma bytes_str_bytes s : bytes_str (str_bytes s) = s.
Proof. induction s; simpl; [done|]. by rewrite chr_ord, IHs. Qed.

Lemma str_bytes_str l : is_bytes l -> str_bytes (bytes_str l) = l.
Proof. induction 1; simpl; [done|]. by rewrite ord_chr, IHForall. Qed.

Lemma is_bytes_str_bytes s : is_bytes (str_bytes s).
Proof. induction s; constructor; auto using is_u8_ord. Qed.

Lemma digit_of_chr d : 0 <= d < 10 -> digit_of (chr (48 + d)) = Some d.
Proof.
  intros. unfold digit_of. rewrite ord_chr by (unfold is_u8; lia).
  destruct (Z.leb_spec 48 (48 + d)); [|lia]. destruct (Z.leb_spec (48 + d) 57); [|lia].
  simpl. f_equal. lia.
Qed.

Lemma digits_value_dec_digits max fuel n acc :
  0 <= n < 10 ^ Z.of_nat fuel -> n <= max ->
  digits_value max 0 (dec_digits fuel n acc) = digits_value max n acc.
Proof.
  revert n acc. induction fuel as [|f IH]; intros n acc Hn Hm.
  - change (10 ^ Z.of_nat 0) with 1 in Hn. by replace n with 0 by lia.
  - rewrite Nat2Z.inj_succ, Z.pow_succ_r in Hn by lia.
    cbn [dec_digits].
    assert (0 <= n mod 10 < 10) by (apply Z.mod_pos_bound; lia).
    assert (forall a, a = n / 10 -> digits_value max a (String (chr (48 + n mod 10)) acc)
                    = digits_value max n acc) as Hstep.
    { intros a ->. cbn [digits_value]. rewrite digit_of_chr by done.
      replace (n / 10 * 10 + n mod 10) with n by (Z.div_mod_to_equations; lia).
      by destruct (Z.leb_spec n max); [|lia]. }
    destruct (Z.eqb_spec (n / 10) 0); [by apply Hstep|].
    rewrite IH; [by apply Hstep|Z.div_mod_to_equations; nia|Z.div_mod_to_equations; lia].
Qed.

(** Every character of a printed number is a digit, and there is one. *)
Fixpoint all_digits (s : string) : bool :=
  match s with
  | EmptyString => true
  | String c s' => bool_decide (is_Some (digit_of c)) && all_digits s'
  end.

Lemma all_digits_dec fuel n acc : all_digits acc = true -> all_digits (dec_digits fuel n acc) = true.
Proof.
  revert n acc. induction fuel as [|f IH]; intros n acc Ha; [done|].
  assert (all_digits (String (chr (48 + n mod 10)) acc) = true).
  { simpl. rewrite digit_of_chr by (apply Z.mod_pos_bound; lia). done. }
  cbn [dec_digits]. case_match; auto.
Qed.

Lemma dec_digits_cons fuel n acc : exists c s, dec_digits (S fuel) n acc = String c s.
Proof.
  revert n acc. induction fuel as [|f IH]; intros n acc; cbn [dec_digits]; case_match; eauto.
Qed.

Lemma parse_print_uint max n : 0 <= n <= max -> n < 10 ^ 20 -> parse_uint max (print_uint n) = Some n.
Proof.
  intros. unfold print_uint, parse_uint.
  pose proof (all_digits_dec 20 n EmptyString eq_refl) as Hd.
  pose proof (digits_value_dec_digits max 20 n EmptyString) as Hv.
  destruct (dec_digits_cons 19 n EmptyString) as (c & s & E). rewrite E in *.
  destruct (Ascii.eqb_spec c "+") as [->|]; [simpl in Hd; discriminate|].
  apply Hv; [|lia]. change (10 ^ Z.of_nat 20) with (10 ^ 20). lia.
Qed.

Lemma print_uint_digits n : all_digits (print_uint n) = true.
Proof. by apply all_digits_dec. Qed.

Lemma starts_with_nil s : starts_with EmptyString s = true.
Proof. by destruct s. Qed.
Lemma starts_with_cons a p b s :
  starts_with (String a p) (String b s) = Ascii.eqb a b && starts_with p s.
Proof.
  unfold starts_with. cbn [String.prefix].
  by destruct (ascii_dec a b), (Ascii.eqb_spec a b).
Qed.

(** A piece without the separator is one piece. *)
Fixpoint no_char (c : ascii) (s : string) : bool :=
  match s with EmptyString => true | String d s' => negb (Ascii.eqb c d) && no_char c s' end.

Lemma all_digits_no_char c s : digit_of c = None -> all_digits s = true -> no_char c s = true.
Proof.
  intros Hc. induction s as [|d s IH]; [done|]. simpl. intros [Hd Hs]%andb_true_iff.
  rewrite IH by done. destruct (Ascii.eqb_spec c d) as [->|]; [|done].
  rewrite Hc in Hd. apply bool_decide_eq_true in Hd as [? ?]. done.
Qed.

Lemma split_char_no_char c s : no_char c s = true -> split_char c s = [s].
Proof.
  induction s as [|d s IH]; [done|]. simpl. intros [Hd Hs]%andb_true_iff.
  rewrite IH by done. by destruct (Ascii.eqb c d).
Qed.

Lemma split_char_app c s t : no_char c s = true ->
  split_char c (s +:+ String c t) = s :: split_char c t.
Proof.
  induction s as [|d s IH]; simpl.
  - by rewrite Ascii.eqb_refl.
  - intros [Hd Hs]%andb_true_iff. rewrite IH by done. by destruct (Ascii.eqb c d).
Qed.

Lemma split_char_sep c s t : no_char c s = true ->
  split_char c (s +:+ (String c EmptyString +:+ t)) = s :: split_char c t.
Proof. apply split_char_app. Qed.

Lemma rsplit_once_no_char c pat s :
  no_char c s = true -> rsplit_once (String c pat) s = None.
Proof.
  induction s as [|d s IH]; [done|]. simpl. intros [Hd Hs]%andb_true_iff.
  rewrite IH by done. unfold starts_with. simpl. destruct (ascii_dec c d) as [->|]; [|done].
  by rewrite Ascii.eqb_refl in Hd.
Qed.

Lemma rsplit_once_app pat a s l r :
  rsplit_once pat s = Some (l, r) -> rsplit_once pat (a +:+ s) = Some (a +:+ l, r).
Proof. intros H. induction a as [|c a IH]; [done|]. simpl. by rewrite IH. Qed.

(** ** Suffixes *)
Lemma sapp_assoc (a b c : string) : (a +:+ b) +:+ c = a +:+ (b +:+ c).
Proof. induction a as [|x a IH]; [done|]. exact (f_equal (String x) IH). Qed.
Lemma sapp_nil_r (a : string) : a +:+ "" = a.
Proof. induction a as [|x a IH]; [done|]. exact (f_equal (String x) IH). Qed.

Lemma srev_app_eq s acc : srev_app s acc = srev s +:+ acc.
Proof.
  unfold srev. revert acc. induction s as [|c s IH]; intros acc; [done|]. cbn [srev_app].
  rewrite (IH (String c acc)), (IH (String c EmptyString)), sapp_assoc. done.
Qed.
Lemma srev_cons c s : srev (String c s) = srev s +:+ String c EmptyString.
Proof. unfold srev. cbn [srev_app]. apply srev_app_eq. Qed.
Lemma srev_sapp a b : srev (a +:+ b) = srev b +:+ srev a.
Proof.
  induction a as [|c a IH]; cbn [String.append]; [by rewrite sapp_nil_r|].
  change (String c a +:+ b) with (String c (a +:+ b)).
  by rewrite !srev_cons, IH, sapp_assoc.
Qed.
Lemma srev_involutive s : srev (srev s) = s.
Proof. induction s as [|c s IH]; [done|]. rewrite srev_cons, srev_sapp, IH. done. Qed.

Lemma length_sapp a b : String.length (a +:+ b) = (String.length a + String.length b)%nat.
Proof. induction a as [|c a IH]; [done|]. exact (f_equal S IH). Qed.
Lemma length_srev s : String.length (srev s) = String.length s.
Proof. induction s as [|c s IH]; [done|]. rewrite srev_cons, length_sapp, IH. cbn. lia. Qed.

Lemma starts_with_spec p s : starts_with p s = true <-> exists t, s = p +:+ t.
Proof.
  revert s. induction p as [|a p IH]; intros s.
  { rewrite starts_with_nil. split; [by exists s|done]. }
  destruct s as [|b s]; [split; [done|by intros [? ?]]|].
  rewrite starts_with_cons, andb_true_iff, IH. destruct (Ascii.eqb_spec a b) as [->|Hne].
  - split; [intros [_ [t ->]]; by exists t|intros [t [= ->]]; eauto].
  - split; [by intros [? _]|intros [t [= <- _]]; done].
Qed.

Lemma starts_with_refl s : starts_with s s = true.
Proof. apply starts_with_spec. exists EmptyString. by rewrite sapp_nil_r. Qed.
Lemma starts_with_trans a b c : starts_with a b = true -> starts_with b c = true -> starts_with a c = true.
Proof.
  rewrite !starts_with_spec. intros [s ->] [t ->]. exists (s +:+ t)%string. by rewrite sapp_assoc.
Qed.
Lemma starts_with_sapp a b : starts_with a (a +:+ b) = true.
Proof. apply starts_with_spec. by exists b. Qed.

Lemma starts_with_app_l p a b : starts_with (p +:+ a) (p +:+ b) = starts_with a b.
Proof.
  apply eq_true_iff_eq. rewrite !starts_with_spec. split.
  - intros [t Ht]. exists t. rewrite sapp_assoc in Ht. revert Ht. induction p as [|c p IH]; [done|].
    intros Ht. apply IH. by injection Ht.
  - intros [t ->]. exists t. by rewrite sapp_assoc.
Qed.
Lemma sdrop_app p t : sdrop (String.length p) (p +:+ t) = t.
Proof. induction p as [|a p IH]; [by destruct t|exact IH]. Qed.

Lemma strip_prefix_spec p s t : strip_prefix p s = Some t <-> s = p +:+ t.
Proof.
  unfold strip_prefix. destruct (starts_with p s) eqn:E.
  - apply starts_with_spec in E as [t' ->]. rewrite sdrop_app. split; [by intros [= ->]|].
    intros Heq. f_equal. induction p as [|a p IH]; [exact Heq|]. injection Heq as Heq. by apply IH.
  - split; [done|]. intros ->. assert (starts_with p (p +:+ t) = true) by (apply starts_with_spec; by exists t).
    congruence.
Qed.

Lemma strip_suffix_spec p s h : strip_suffix p s = Some h <-> s = h +:+ p.
Proof.
  assert (strip_suffix p s = srev <$> strip_prefix (srev p) (srev s)) as ->.
  { unfold strip_suffix, strip_prefix, ends_with. rewrite length_srev. by case_match. }
  rewrite fmap_Some. split.
  - intros (t & H%strip_prefix_spec & ->). rewrite <-(srev_involutive s), H, srev_sapp, srev_involutive. done.
  - intros ->. exists (srev h). rewrite srev_involutive. split; [|done].
    apply strip_prefix_spec. by rewrite srev_sapp.
Qed.

Lemma length_str_bytes s : List.length (str_bytes s) = String.length s.
Proof. induction s as [|c s IH]; [done|]. exact (f_equal S IH). Qed.

(** [split] undoes [join] on separator-free pieces. *)
Lemma split_char_join c (l : list string) : l <> [] -> Forall (fun s => no_char c s = true) l ->
  split_char c (join (String c EmptyString) l) = l.
Proof.
  intros Hl Hf. destruct l as [|a l]; [done|]. clear Hl. revert a Hf.
  induction l as [|b l IH]; intros a [Ha Hf]%Forall_cons; [by apply split_char_no_char|].
  unfold join in *. cbn [String.concat].
  change (a ++ String c "" ++ String.concat (String c "") (b :: l))%string
    with (a +:+ (String c EmptyString +:+ String.concat (String c "") (b :: l))).
  rewrite split_char_sep by done. f_equal. by apply IH.
Qed.

Lemma no_char_bytes c s : ord c ∉ str_bytes s -> no_char c s = true.
Proof.
  induction s as [|d s IH]; [done|]. cbn [str_bytes no_char]. rewrite not_elem_of_cons. intros [Hd Hs].
  rewrite IH by done. destruct (Ascii.eqb_spec c d) as [->|]; done.
Qed.

(** Every byte of a string is a separator or lies in one of the pieces. *)
Lemma split_char_bytes c s b : b ∈ str_bytes s ->
  b = ord c \/ exists l, l ∈ split_char c s /\ b ∈ str_bytes l.
Proof.
  induction s as [|d s IH]; [by intros ?%elem_of_nil|]. cbn [str_bytes split_char].
  destruct (Ascii.eqb_spec c d) as [->|Hne]; rewrite elem_of_cons.
  - intros [->|Hb]; [by left|]. destruct (IH Hb) as [->|(l & Hl & Hbl)]; [by left|].
    right. exists l. split; [by right|done].
  - destruct (split_char c s) as [|p ps] eqn:E.
    + intros [->|Hb]; [right; exists (String d EmptyString); split; left|].
      destruct (IH Hb) as [->|(l & Hl%elem_of_nil & _)]; [by left|done].
    + intros [->|Hb]; [right; exists (String d p); split; left|].
      destruct (IH Hb) as [->|(l & [->|Hl]%elem_of_cons & Hbl)]; [by left|..].
      * right. exists (String d p). split; [left|by right].
      * right. exists l. split; [by right|done].
Qed.

(** ** UTF-8 validity ([str::from_utf8]): the well-formed byte sequences *)
Definition in_range (lo hi b : Z) : bool := (lo <=? b) && (b <=? hi).
Definition is_cont (b : Z) : bool := in_range 128 191 b.
Fixpoint utf8_valid (l : bytes) : bool :=
  match l with
  | [] => true
  | b :: l1 =>
      if in_range 0 127 b then utf8_valid l1
      else if in_range 194 223 b then
        match l1 with c1 :: l2 => is_cont c1 && utf8_valid l2 | _ => false end
      else if in_range 224 239 b then
        match l1 with
        | c1 :: c2 :: l3 =>
            (if b =? 224 then in_range 160 191 c1 else if b =? 237 then in_range 128 159 c1 else is_cont c1)
            && is_cont c2 && utf8_valid l3
        | _ => false
        end
      else if in_range 240 244 b then
        match l1 with
        | c1 :: c2 :: c3 :: l4 =>
            (if b =? 240 then in_range 144 191 c1 else if b =? 244 then in_range 128 143 c1 else is_cont c1)
            && is_cont c2 && is_cont c3 && utf8_valid l4
        | _ => false
        end
      else false
  end.
Definition from_utf8 (l : bytes) : option string := if utf8_valid l then Some (bytes_str l) else None.

Lemma utf8_valid_ascii l : Forall (fun b => in_range 0 127 b = true) l -> utf8_valid l = true.
Proof. induction 1 as [|b l Hb Hl IH]; [done|]. cbn [utf8_valid]. by rewrite Hb. Qed.

(** [String::from_utf8_lossy]: each maximal ill-formed part becomes U+FFFD *)
Definition replacement_char : bytes := [239; 191; 189].
Fixpoint from_utf8_lossy (fuel : nat) (l : bytes) : bytes :=
  match fuel with
  | O => []
  | S f =>
  match l with
  | [] => []
  | b :: l1 =>
      if in_range 0 127 b then b :: from_utf8_lossy f l1
      else if in_range 194 223 b then
        match l1 with
        | c1 :: l2 => if is_cont c1 then b :: c1 :: from_utf8_lossy f l2 else replacement_char ++ from_utf8_lossy f l1
        | [] => replacement_char
        end
      else if in_range 224 239 b then
        match l1 with
        | c1 :: l2 =>
            if (if b =? 224 then in_range 160 191 c1 else if b =? 237 then in_range 128 159 c1 else is_cont c1) then
              match l2 with
              | c2 :: l3 => if is_cont c2 then b :: c1 :: c2 :: from_utf8_lossy f l3
                            else replacement_char ++ from_utf8_lossy f l2
              | [] => replacement_char
              end
            else replacement_char ++ from_utf8_lossy f l1
        | [] => replacement_char
        end
      else if in_range 240 244 b then
        match l1 with
        | c1 :: l2 =>
            if (if b =? 240 then in_range 144 191 c1 else if b =? 244 then in_range 128 143 c1 else is_cont c1) then
              match l2 with
              | c2 :: l3 =>
                  if is_cont c2 then
                    match l3 with
                    | c3 :: l4 => if is_cont c3 then b :: c1 :: c2 :: c3 :: from_utf8_lossy f l4
                                  else replacement_char ++ from_utf8_lossy f l3
                    | [] => replacement_char
                    end
                  else replacement_char ++ from_utf8_lossy f l2
              | [] => replacement_char
              end
            else replacement_char ++ from_utf8_lossy f l1
        | [] => replacement_char
        end
      else replacement_char ++ from_utf8_lossy f l1
  end
  end.
Definition utf8_lossy (l : bytes) : string := bytes_str (from_utf8_lossy (List.length l) l).

(** What is UTF-8 already stays as it is. *)
Lemma lossy_valid f l : (List.length l <= f)%nat -> utf8_valid l = true -> from_utf8_lossy f l = l.
Proof.
  revert l. induction f as [|f IH]; intros l Hf Hv; [by destruct l; cbn in Hf; [|lia]|].
  destruct l as [|b l1]; [done|]. cbn [utf8_valid] in Hv. cbn [List.length] in Hf. cbn [from_utf8_lossy].
  destruct (in_range 0 127 b); [f_equal; apply IH; [lia|done]|]. destruct (in_range 194 223 b).
  { destruct l1 as [|c1 l2]; [done|]. apply andb_true_iff in Hv as [-> Hv]. cbn in Hf. do 2 f_equal. apply IH; [lia|done]. }
  destruct (in_range 224 239 b).
  { destruct l1 as [|c1 [|c2 l3]]; [done..|]. apply andb_true_iff in Hv as [[-> ->]%andb_true_iff Hv]. cbn in Hf.
    do 3 f_equal. apply IH; [lia|done]. }
  destruct (in_range 240 244 b); [|done]. destruct l1 as [|c1 [|c2 [|c3 l4]]]; [done..|].
  apply andb_true_iff in Hv as [[[-> ->]%andb_true_iff ->]%andb_true_iff Hv]. cbn in Hf. do 4 f_equal. apply IH; [lia|done].
Qed.
Lemma utf8_lossy_same s : utf8_valid (str_bytes s) = true -> utf8_lossy (str_bytes s) = s.
Proof. intros Hv. unfold utf8_lossy. rewrite lossy_valid by done. apply bytes_str_bytes. Qed.

(** [hex::encode]. *)
Definition hex_digit (n : Z) : Z := if n <? 10 then 48 + n else 87 + n.
Definition hex_bytes (l : bytes) : bytes := List.concat (map (fun b => [hex_digit (b .>> 4); hex_digit (b .& 15)]) l).
Definition hex_encode (l : bytes) : string := bytes_str (hex_bytes l).

Lemma hex_bytes_ascii l : is_bytes l -> Forall (fun b => in_range 0 127 b = true) (hex_bytes l).
Proof.
  intros Hl. apply Forall_concat, Forall_fmap. eapply Forall_impl; [exact Hl|]. intros b Hb. unfold is_u8 in Hb.
  assert (0 <= b .& 15 < 16) by (change 15 with (Z.ones 4); rewrite Z.land_ones by lia; apply Z.mod_pos_bound; lia).
  assert (0 <= b .>> 4 < 16) by (rewrite Z.shiftr_div_pow2 by lia; change (2 ^ 4) with 16; zbytes).
  assert (forall n, 0 <= n < 16 -> in_range 0 127 (hex_digit n) = true) as Hd.
  { intros n Hn. unfold hex_digit, in_range. case_match; apply andb_true_iff; rewrite !Z.leb_le; lia. }
  cbn. repeat constructor; by apply Hd.
Qed.

(** A prefix of a string, [&s[..n]] within range. *)
Fixpoint stake (n : nat) (s : string) : string :=
  match n, s with S n, String c s => String c (stake n s) | _, _ => EmptyString end.

(** [&s[..n]]: panics past the end and inside a character. *)
Definition is_char_boundary (s : string) (n : nat) : bool :=
  match n with
  | O => true
  | _ => match str_bytes s !! n with
         | Some b => negb (is_cont b)
         | None => Nat.eqb n (String.length s)
         end
  end.
Definition str_slice_to {E} (s : string) (n : nat) : rust E string :=
  if is_char_boundary s n then Ok (stake n s) else Panic.

(** [str::split_whitespace]. *)
Fixpoint until_ws (s : string) : string :=
  match s with
  | EmptyString => EmptyString
  | String c r => if existsb (fun w => starts_with w s) whitespace then EmptyString else String c (until_ws r)
  end.
Fixpoint split_ws (fuel : nat) (s : string) : list string :=
  match fuel with
  | O => []
  | S f => match until_ws (trim_start s) with
           | EmptyString => []
           | w => w :: split_ws f (sdrop (String.length w) (trim_start s))
           end
  end.
Definition split_whitespace (s : string) : list string := split_ws (S (String.length s)) s.

(** ** The order of byte strings ([Ord] on slices, strings and ids) *)
Fixpoint lex_leb (a b : list Z) : bool :=
  match a, b with
  | [], _ => true
  | _ :: _, [] => false
  | x :: a', y :: b' => (x <? y) || ((x =? y) && lex_leb a' b')
  end.
Definition str_leb (a b : string) : bool := lex_leb (str_bytes a) (str_bytes b).

Lemma lex_leb_total a b : lex_leb a b = true \/ lex_leb b a = true.
Proof.
  revert b. induction a as [|x a IH]; intros [|y b]; cbn; auto.
  destruct (Z.lt_trichotomy x y) as [H|[->|H]].
  - left. by apply orb_true_iff; left; apply Z.ltb_lt.
  - rewrite Z.ltb_irrefl, Z.eqb_refl. apply IH.
  - right. by apply orb_true_iff; left; apply Z.ltb_lt.
Qed.
Lemma lex_leb_cons x a y b : lex_leb (x :: a) (y :: b) = true <-> x < y \/ x = y /\ lex_leb a b = true.
Proof. cbn. by rewrite orb_true_iff, andb_true_iff, Z.ltb_lt, Z.eqb_eq. Qed.
Lemma lex_leb_trans a b c : lex_leb a b = true -> lex_leb b c = true -> lex_leb a c = true.
Proof.
  revert b c. induction a as [|x a IH]; intros [|y b] [|z c]; try done.
  rewrite !lex_leb_cons. intros [?|[-> ?]] [?|[-> ?]]; [left; lia|left; lia|left; lia|]. right. eauto.
Qed.
Lemma lex_leb_antisym a b : lex_leb a b = true -> lex_leb b a = true -> a = b.
Proof.
  revert b. induction a as [|x a IH]; intros [|y b]; try done.
  rewrite !lex_leb_cons. intros [?|[-> ?]] [?|[? ?]]; try lia. f_equal. by apply IH.
Qed.
Lemma str_leb_antisym a b : str_leb a b = true -> str_leb b a = true -> a = b.
Proof. intros Ha Hb. rewrite <-(bytes_str_bytes a), <-(bytes_str_bytes b). f_equal. by apply lex_leb_antisym. Qed.
