(* ===== verification/Siit.v ===== *)
(** * Siit: stateless IP/ICMP translation (hop-core/src/vpn/siit.rs)

    The packet rewriter of the 4via6 gateway: RFC 1071 checksums, the two
    pseudo-headers, the upper-layer and ICMP translations, and the two packet
    translators.  Packets are byte lists; every index and slice is checked, so
    a panic of the Rust code would be the [Panic] outcome of the model. *)
From S2P Require Import Prelude Addr.
Local Open Scope Z_scope.

Definition IP_PROTO_ICMPV4 : Z := 1.
Definition IP_PROTO_TCP : Z := 6.
Definition IP_PROTO_UDP : Z := 17.
Definition IP_PROTO_ICMPV6 : Z := 58.
Definition IPV6_HEADER_LEN : nat := 40.
Definition IPV4_MIN_HEADER_LEN : nat := 20.

(** The [while sum >> 16 != 0] loop.  A 32-bit sum is folded after at most two
    rounds ([csum_fold_loop_done]), so three units of fuel are enough. *)
Fixpoint csum_fold_loop (fuel : nat) (sum : Z) : Z :=
  match fuel with
  | O => sum
  | S f => if (sum .>> 16) =? 0 then sum
           else csum_fold_loop f (u32 ((sum .& 65535) + (sum .>> 16)))
  end.
Definition csum_fold (sum : Z) : Z := 65535 - u16 (csum_fold_loop 3 sum).

Fixpoint csum_add (sum : Z) (data : bytes) : Z :=
  match data with
  | a :: b :: rest => csum_add (u32 (sum + from_be16 a b)) rest
  | [last] => u32 (sum + (last .<< 8))
  | [] => sum
  end.

Definition checksum (data : bytes) : Z := csum_fold (csum_add 0 data).

Definition pseudo_v6_sum (src dst : Ipv6Addr) (upper_len next_header : Z) : Z :=
  let sum := csum_add 0 (octets6 src) in
  let sum := csum_add sum (octets6 dst) in
  let sum := csum_add sum (to_be32 upper_len) in
  csum_add sum [0; 0; 0; next_header].

Definition pseudo_v4_sum (src dst : Ipv4Addr) (upper_len protocol : Z) : Z :=
  let sum := csum_add 0 (octets4 src) in
  let sum := csum_add sum (octets4 dst) in
  let sum := csum_add sum [0; protocol] in
  csum_add sum (to_be16 upper_len).

Definition icmp6_unreach_to_v4_code (code : Z) : Z :=
  if code =? 0 then 1
  else if code =? 1 then 10
  else if code =? 3 then 1
  else if code =? 4 then 3
  else 1.

Definition icmp4_unreach_to_v6_code (code : Z) : Z :=
  if (code =? 0) || (code =? 1) then 0
  else if code =? 3 then 4
  else if (code =? 9) || (code =? 10) || (code =? 13) then 1
  else 0.

(** The [match (ty, code)] of [translate_icmp_v6_to_v4] and of its converse. *)
Definition icmp_types_v6_to_v4 (ty code : Z) : option (Z * Z) :=
  if ty =? 128 then Some (8, code)
  else if ty =? 129 then Some (0, code)
  else if ty =? 1 then Some (3, icmp6_unreach_to_v4_code code)
  else if ty =? 3 then Some (11, code)
  else if ty =? 2 then Some (3, 4)
  else None.

Definition icmp_types_v4_to_v6 (ty code : Z) : option (Z * Z) :=
  if ty =? 8 then Some (128, code)
  else if ty =? 0 then Some (129, code)
  else if (ty =? 3) && (code =? 4) then Some (2, 0)
  else if ty =? 3 then Some (1, icmp4_unreach_to_v6_code code)
  else if ty =? 11 then Some (3, code)
  else None.

Definition translate_icmp_v6_to_v4 (payload : bytes) : ropt bytes :=
  if (length payload <? 4)%nat then none else
  ty ← idx payload 0; code ← idx payload 1;
  '(new_ty, new_code) ← try_opt (icmp_types_v6_to_v4 ty code);
  let msg := <[3%nat:=0]> (<[2%nat:=0]> (<[1%nat:=new_code]> (<[0%nat:=new_ty]> payload))) in
  let c := checksum msg in
  Ok (copy_at msg 2 (to_be16 c)).

Definition translate_icmp_v4_to_v6 (payload : bytes) (v6_src v6_dst : Ipv6Addr) : ropt bytes :=
  if (length payload <? 4)%nat then none else
  ty ← idx payload 0; code ← idx payload 1;
  '(new_ty, new_code) ← try_opt (icmp_types_v4_to_v6 ty code);
  let msg := <[3%nat:=0]> (<[2%nat:=0]> (<[1%nat:=new_code]> (<[0%nat:=new_ty]> payload))) in
  let pseudo := pseudo_v6_sum v6_src v6_dst (u32 (Z.of_nat (length msg))) IP_PROTO_ICMPV6 in
  let c := csum_fold (csum_add pseudo msg) in
  Ok (copy_at msg 2 (to_be16 c)).

Definition is_transport (p : Z) : bool := (p =? IP_PROTO_TCP) || (p =? IP_PROTO_UDP).
Definition cksum_off (p : Z) : nat := if p =? IP_PROTO_TCP then 16%nat else 6%nat.

Definition translate_upper_v6_to_v4 (next_header : Z) (payload : bytes)
    (_v6_src _v6_dst : Ipv6Addr) (v4_src v4_dst : Ipv4Addr) : ropt bytes :=
  if is_transport next_header then
    let off := cksum_off next_header in
    if (length payload <? off + 2)%nat then none else
    let seg := <[(off + 1)%nat:=0]> (<[off:=0]> payload) in
    let pseudo := pseudo_v4_sum v4_src v4_dst (u16 (Z.of_nat (length seg))) next_header in
    let c := csum_fold (csum_add pseudo seg) in
    let c := if (next_header =? IP_PROTO_UDP) && (c =? 0) then 65535 else c in
    Ok (copy_at seg off (to_be16 c))
  else if next_header =? IP_PROTO_ICMPV6 then translate_icmp_v6_to_v4 payload
  else none.

Definition translate_upper_v4_to_v6 (v4_proto : Z) (payload : bytes)
    (_v4_src _v4_dst : Ipv4Addr) (v6_src v6_dst : Ipv6Addr) : ropt bytes :=
  if is_transport v4_proto then
    let off := cksum_off v4_proto in
    if (length payload <? off + 2)%nat then none else
    let seg := <[(off + 1)%nat:=0]> (<[off:=0]> payload) in
    let pseudo := pseudo_v6_sum v6_src v6_dst (u32 (Z.of_nat (length seg))) v4_proto in
    let c := csum_fold (csum_add pseudo seg) in
    let c := if (v4_proto =? IP_PROTO_UDP) && (c =? 0) then 65535 else c in
    Ok (copy_at seg off (to_be16 c))
  else if v4_proto =? IP_PROTO_ICMPV4 then translate_icmp_v4_to_v6 payload v6_src v6_dst
  else none.

Definition translate_v6_to_v4 (pkt : bytes) (new_src new_dst : Ipv4Addr) : ropt bytes :=
  if (length pkt <? IPV6_HEADER_LEN)%nat then none else
  b0 ← idx pkt 0;
  if negb ((b0 .>> 4) =? 6) then none else
  b1 ← idx pkt 1;
  let traffic_class := u8 ((b0 .& 15) .<< 4) .| (b1 .>> 4) in
  b4 ← idx pkt 4; b5 ← idx pkt 5;
  let payload_len := Z.to_nat (from_be16 b4 b5) in
  next_header ← idx pkt 6;
  hop_limit ← idx pkt 7;
  src_octets ← slice pkt 8 24;
  dst_octets ← slice pkt 24 40;
  let v6_src := V6 src_octets in
  let v6_dst := V6 dst_octets in
  payload ← try_opt (get_range pkt IPV6_HEADER_LEN (IPV6_HEADER_LEN + payload_len));
  v4_proto ← (if is_transport next_header then Ok next_header
              else if next_header =? IP_PROTO_ICMPV6 then Ok IP_PROTO_ICMPV4
              else none);
  new_payload ← translate_upper_v6_to_v4 next_header payload v6_src v6_dst new_src new_dst;
  let total_len := (IPV4_MIN_HEADER_LEN + length new_payload)%nat in
  if (65535 <? Z.of_nat total_len) then none else
  let out := [69; traffic_class] ++ to_be16 (u16 (Z.of_nat total_len)) ++ to_be16 0
             ++ to_be16 16384 ++ [hop_limit; v4_proto] ++ to_be16 0
             ++ octets4 new_src ++ octets4 new_dst in
  header ← slice out 0 IPV4_MIN_HEADER_LEN;
  let hc := checksum header in
  Ok (copy_at out 10 (to_be16 hc) ++ new_payload).

Definition translate_v4_to_v6 (pkt : bytes) (new_src new_dst : Ipv6Addr) : ropt bytes :=
  if (length pkt <? IPV4_MIN_HEADER_LEN)%nat then none else
  b0 ← idx pkt 0;
  if negb ((b0 .>> 4) =? 4) then none else
  let ihl := (Z.to_nat (b0 .& 15) * 4)%nat in
  if (ihl <? IPV4_MIN_HEADER_LEN)%nat || (length pkt <? ihl)%nat then none else
  dscp_ecn ← idx pkt 1;
  b2 ← idx pkt 2; b3 ← idx pkt 3;
  let total_len := Z.to_nat (from_be16 b2 b3) in
  b6 ← idx pkt 6; b7 ← idx pkt 7;
  let flags_frag := from_be16 b6 b7 in
  if negb ((flags_frag .& 8192) =? 0) || negb ((flags_frag .& 8191) =? 0) then none else
  ttl ← idx pkt 8;
  v4_proto ← idx pkt 9;
  s0 ← idx pkt 12; s1 ← idx pkt 13; s2 ← idx pkt 14; s3 ← idx pkt 15;
  d0 ← idx pkt 16; d1 ← idx pkt 17; d2 ← idx pkt 18; d3 ← idx pkt 19;
  if (total_len <? ihl)%nat || (length pkt <? total_len)%nat then none else
  payload ← slice pkt ihl total_len;
  v6_next ← (if is_transport v4_proto then Ok v4_proto
             else if v4_proto =? IP_PROTO_ICMPV4 then Ok IP_PROTO_ICMPV6
             else none);
  new_payload ← translate_upper_v4_to_v6 v4_proto payload (V4 s0 s1 s2 s3) (V4 d0 d1 d2 d3)
                  new_src new_dst;
  Ok ([96 .| (dscp_ecn .>> 4); u8 (dscp_ecn .<< 4) .& 240; 0; 0]
      ++ to_be16 (u16 (Z.of_nat (length new_payload))) ++ [v6_next; ttl]
      ++ octets6 new_src ++ octets6 new_dst ++ new_payload).

(** RFC 1071's worked example, as in the repository's unit test. *)
Example checksum_known_vector : checksum [0; 1; 242; 3; 244; 245; 246; 247] = 8717.
Proof. reflexivity. Qed.

(** ** One's-complement arithmetic *)

(** The 16-bit word sum a checksum is the fold of, without machine width. *)
Fixpoint wsum (data : bytes) : Z :=
  match data with
  | a :: b :: rest => a * 256 + b + wsum rest
  | [last] => last * 256
  | [] => 0
  end.

(** Induction two bytes at a time, the way [csum_add] consumes its input. *)
Lemma pairs_ind (P : bytes -> Prop) :
  P [] -> (forall a, P [a]) -> (forall a b l, P l -> P (a :: b :: l)) -> forall l, P l.
Proof.
  intros Hnil Hone Hpair l. enough (P l /\ forall a, P (a :: l)) as [? _] by done.
  induction l as [|x l [IH1 IH2]]; [by split|]. split; [apply IH2|].
  intros a. by apply Hpair.
Qed.

Lemma wsum_bound data : is_bytes data ->
  0 <= wsum data <= 65535 * ((Z.of_nat (length data) + 1) / 2).
Proof.
  unfold is_bytes. induction data as [|a|a b l IH] using pairs_ind; simpl wsum; intros Hd.
  - done.
  - inversion_clear Hd. simpl length. zbytes.
  - inversion_clear Hd as [|?? Ha Hl']. inversion_clear Hl' as [|?? Hb Hl].
    specialize (IH Hl). simpl length. rewrite !Nat2Z.inj_succ.
    replace (Z.succ (Z.succ (Z.of_nat (length l))) + 1)
      with (Z.of_nat (length l) + 1 + 1 * 2) by lia.
    rewrite Z.div_add by lia. unfold is_u8 in *. lia.
Qed.

Lemma csum_add_wsum data sum : is_bytes data -> is_u32 sum ->
  csum_add sum data = u32 (sum + wsum data).
Proof.
  unfold is_bytes. revert sum.
  induction data as [|a|a b l IH] using pairs_ind; simpl; intros sum Hd Hs.
  - rewrite Z.add_0_r. by rewrite u32_small.
  - by rewrite shiftl8.
  - inversion_clear Hd as [|?? Ha Hl']. inversion_clear Hl' as [|?? Hb Hl].
    rewrite from_be16_eq by done. rewrite IH by (done || zbytes).
    unfold u32. rewrite Z.add_mod_idemp_l by lia. f_equal. lia.
Qed.

Lemma wsum_app l1 l2 : Nat.even (length l1) = true -> wsum (l1 ++ l2) = wsum l1 + wsum l2.
Proof.
  induction l1 as [|a|a b l IH] using pairs_ind; intros He; simpl in *; [done|done|].
  rewrite IH by done. lia.
Qed.

(** One loop round replaces the sum by a smaller one congruent modulo 65535. *)
Lemma fold_round s : 0 <= s < 2 ^ 32 ->
  u32 ((s .& 65535) + (s .>> 16)) = s mod 65536 + s / 65536.
Proof.
  intros. replace 65535 with (Z.ones 16) by done. rewrite Z.land_ones by lia.
  rewrite Z.shiftr_div_pow2 by lia. change (2 ^ 16) with 65536.
  apply u32_small. zbytes.
Qed.

(** The loop's result: the canonical representative of the sum modulo 65535,
    with 65535 standing for a nonzero multiple. *)
Definition ones_norm (s : Z) : Z := if s =? 0 then 0 else 1 + (s - 1) mod 65535.

Lemma csum_fold_loop_done s : is_u32 s -> csum_fold_loop 3 s = ones_norm s.
Proof.
  unfold is_u32, ones_norm. intros Hs.
  assert (Hsr : forall x, x .>> 16 = x / 65536) by (intros; by rewrite Z.shiftr_div_pow2).
  cbn [csum_fold_loop]. rewrite !fold_round by (rewrite ?fold_round; zbytes).
  rewrite !Hsr.
  destruct (s / 65536 =? 0) eqn:E1.
  { destruct (s =? 0) eqn:E0; [lia|]. rewrite Z.mod_small; zbytes. }
  set (s1 := s mod 65536 + s / 65536).
  assert (0 < s1 <= 131070 /\ (s - s1) mod 65535 = 0) as [Hs1 Hc].
  { unfold s1. split; [zbytes|]. rewrite (Z.div_mod s 65536) at 1 by lia.
    replace (65536 * (s / 65536) + s mod 65536 - (s mod 65536 + s / 65536))
      with (s / 65536 * 65535) by lia. by apply Z_mod_mult. }
  destruct (s =? 0) eqn:E0; [zbytes|].
  destruct (s1 / 65536 =? 0) eqn:E2.
  - zbytes.
  - destruct ((s1 mod 65536 + s1 / 65536) / 65536 =? 0) eqn:E3; zbytes.
Qed.

Lemma csum_fold_norm s : is_u32 s -> csum_fold s = 65535 - ones_norm s.
Proof.
  intros Hs. unfold csum_fold. rewrite csum_fold_loop_done by done.
  rewrite u16_small; [done|]. unfold ones_norm. case_match; zbytes.
Qed.

Lemma is_u16_csum_fold s : is_u32 s -> is_u16 (csum_fold s).
Proof. intros. rewrite csum_fold_norm by done. unfold ones_norm. case_match; zbytes. Qed.

(** A receiver's check: adding the checksum (or, where it is 0, the
    equivalent 0xffff that UDP sends) to the sum it covers folds to 0. *)
Lemma csum_fold_complete s c : 0 <= s -> s + 65535 < 2 ^ 32 ->
  c = csum_fold s \/ (csum_fold s = 0 /\ c = 65535) -> csum_fold (s + c) = 0.
Proof.
  intros Hs Hs' Hc. assert (is_u32 s) by zbytes.
  assert (is_u16 c) by (destruct Hc as [->|[_ ->]]; [by apply is_u16_csum_fold|done]).
  rewrite csum_fold_norm in * by (done || zbytes).
  unfold ones_norm in *. case_match; case_match; zbytes.
Qed.

(** ** Pseudo-headers never overflow their 32-bit accumulator *)
Definition pseudo_ok (p : Z) : Prop := 0 <= p <= 65535 * 20.

Lemma csum_add_exact data sum n : is_bytes data -> 0 <= sum <= 65535 * n ->
  n + (Z.of_nat (length data) + 1) / 2 <= 40000 ->
  csum_add sum data = sum + wsum data /\
  0 <= csum_add sum data <= 65535 * (n + (Z.of_nat (length data) + 1) / 2).
Proof.
  intros Hd Hs Hn. pose proof (wsum_bound data Hd) as Hw.
  assert (0 <= (Z.of_nat (length data) + 1) / 2) by (apply Z.div_pos; lia).
  assert (sum <= 65535 * 40000 /\ sum + wsum data <= 65535 * 40000) by lia.
  rewrite csum_add_wsum by (done || unfold is_u32; lia).
  rewrite u32_small by (unfold is_u32; lia). split; [done|]. lia.
Qed.

Lemma pseudo_v6_ok src dst len nh : wf6 src -> wf6 dst -> is_u8 nh ->
  pseudo_ok (pseudo_v6_sum src dst len nh).
Proof.
  intros [Ls Hs] [Ld Hd] Hnh. unfold pseudo_v6_sum, pseudo_ok.
  destruct (csum_add_exact (octets6 src) 0 0) as [_ H1]; [done|lia|by rewrite Ls|].
  rewrite Ls in H1. change (0 + (Z.of_nat 16 + 1) / 2) with 8 in H1.
  destruct (csum_add_exact (octets6 dst) _ _ Hd H1) as [_ H2]; [by rewrite Ld|].
  rewrite Ld in H2. change (8 + (Z.of_nat 16 + 1) / 2) with 16 in H2.
  destruct (csum_add_exact (to_be32 len) _ _ (is_bytes_to_be32 len) H2) as [_ H3]; [done|].
  change (16 + (Z.of_nat (length (to_be32 len)) + 1) / 2) with 18 in H3.
  assert (is_bytes [0; 0; 0; nh]) as Hb by solve_bytes.
  destruct (csum_add_exact _ _ _ Hb H3) as [_ H4]; [done|exact H4].
Qed.

Lemma pseudo_v4_ok src dst len p : wf4 src -> wf4 dst -> is_u8 p ->
  pseudo_ok (pseudo_v4_sum src dst len p).
Proof.
  intros Hs Hd Hp. unfold pseudo_v4_sum, pseudo_ok.
  destruct (csum_add_exact (octets4 src) 0 0) as [_ H1];
    [done|lia|by rewrite length_octets4|].
  rewrite length_octets4 in H1. change (0 + (Z.of_nat 4 + 1) / 2) with 2 in H1.
  destruct (csum_add_exact (octets4 dst) _ _ Hd H1) as [_ H2]; [by rewrite length_octets4|].
  rewrite length_octets4 in H2. change (2 + (Z.of_nat 4 + 1) / 2) with 4 in H2.
  assert (is_bytes [0; p]) as Hb by solve_bytes.
  destruct (csum_add_exact _ _ _ Hb H2) as [_ H3]; [done|].
  change (4 + (Z.of_nat (length [0; p]) + 1) / 2) with 5 in H3.
  destruct (csum_add_exact (to_be16 len) _ _ (is_bytes_to_be16 len) H3) as [_ H4]; [done|].
  change (5 + (Z.of_nat (length (to_be16 len)) + 1) / 2) with 6 in H4. lia.
Qed.

(** ** Filling a checksum field *)

(** Storing a word at an even offset whose bytes were zero adds it to the sum. *)
Lemma wsum_copy_at l off c : (off + 2 <= length l)%nat -> Nat.even off = true -> is_u16 c ->
  wsum (copy_at (copy_at l off [0; 0]) off (to_be16 c)) = wsum (copy_at l off [0; 0]) + c.
Proof.
  intros Hl He Hc. rewrite copy_at_copy_at by done.
  unfold copy_at. rewrite !(wsum_app (take off l))
    by (rewrite length_take; by replace (off `min` length l)%nat with off by lia).
  simpl. rewrite shiftr8. zbytes.
Qed.

(** The general fact behind every checksum the translator writes: the field
    makes the covered data (pseudo-header plus segment) verify. *)
Lemma checksum_field_valid pseudo seg off c :
  pseudo_ok pseudo -> is_bytes seg -> Z.of_nat (length seg) <= 65535 ->
  (off + 2 <= length seg)%nat -> Nat.even off = true ->
  let s := csum_fold (csum_add pseudo (copy_at seg off [0; 0])) in
  c = s \/ (s = 0 /\ c = 65535) ->
  csum_fold (csum_add pseudo (copy_at (copy_at seg off [0; 0]) off (to_be16 c))) = 0.
Proof.
  intros Hp Hb Hlen Hoff He s Hc.
  assert (is_bytes (copy_at seg off [0; 0])) as Hz by (apply is_bytes_copy_at; [done|solve_bytes]).
  assert (length (copy_at seg off [0; 0]) = length seg) as Hlz by (by apply length_copy_at).
  assert ((Z.of_nat (length seg) + 1) / 2 <= 32768) by zbytes.
  destruct (csum_add_exact (copy_at seg off [0; 0]) pseudo 20) as [Hz1 Hz2];
    [done|exact Hp|by rewrite Hlz; lia|].
  rewrite Hlz in Hz2.
  assert (is_u16 c) as Hc16.
  { destruct Hc as [->|[_ ->]]; [|done]. apply is_u16_csum_fold. unfold is_u32. lia. }
  destruct (csum_add_exact (copy_at (copy_at seg off [0; 0]) off (to_be16 c)) pseudo 20)
    as [Hf1 _]; [by auto with wirehop|exact Hp| |].
  { rewrite length_copy_at by (rewrite Hlz; simpl; lia). rewrite Hlz. lia. }
  rewrite Hf1, wsum_copy_at, Z.add_assoc, <-Hz1 by done.
  apply csum_fold_complete; [lia|lia|]. exact Hc.
Qed.

Lemma checksum_as_pseudo seg : checksum seg = csum_fold (csum_add 0 seg).
Proof. done. Qed.

Lemma pseudo_ok_0 : pseudo_ok 0.
Proof. done. Qed.

Lemma zero_icmp_header payload t c : (4 <= length payload)%nat ->
  <[3%nat:=0]> (<[2%nat:=0]> (<[1%nat:=c]> (<[0%nat:=t]> payload)))
  = copy_at ([t; c] ++ drop 2 payload) 2 [0; 0].
Proof. do 4 (destruct payload as [|? payload]; [simpl; lia|]). done. Qed.

(** ** What a translated packet must look like *)
Definition same_except (P : nat -> Prop) (l l' : bytes) : Prop :=
  length l' = length l /\ forall i, ~ P i -> l' !! i = l !! i.

(** The segment verifies against the pseudo-header of its new family. *)
Definition v4_upper_checksum_valid (src dst : Ipv4Addr) (proto : Z) (seg : bytes) : Prop :=
  if proto =? IP_PROTO_ICMPV4 then checksum seg = 0
  else csum_fold (csum_add (pseudo_v4_sum src dst (Z.of_nat (length seg)) proto) seg) = 0.
Definition v6_upper_checksum_valid (src dst : Ipv6Addr) (nh : Z) (seg : bytes) : Prop :=
  csum_fold (csum_add (pseudo_v6_sum src dst (Z.of_nat (length seg)) nh) seg) = 0.

(** A transport segment differs only in its checksum field; an ICMP message
    only in its type, code and checksum. *)
Definition upper_rewritten (types : Z -> Z -> option (Z * Z)) (p_in : Z) (seg seg' : bytes) : Prop :=
  if is_transport p_in
  then same_except (fun i => i = cksum_off p_in \/ i = S (cksum_off p_in)) seg seg'
  else same_except (fun i => (i < 4)%nat) seg seg' /\
       exists ty code ty' code', seg !! 0%nat = Some ty /\ seg !! 1%nat = Some code /\
         seg' !! 0%nat = Some ty' /\ seg' !! 1%nat = Some code' /\
         types ty code = Some (ty', code').

Lemma is_bytes_icmp_msg t c payload :
  is_bytes payload -> is_u8 t -> is_u8 c ->
  is_bytes ([t; c] ++ drop 2 payload).
Proof. intros. apply is_bytes_app. split; [solve_bytes|auto with wirehop]. Qed.

Lemma icmp_types_v6_to_v4_u8 ty code t c :
  is_u8 code -> icmp_types_v6_to_v4 ty code = Some (t, c) -> is_u8 t /\ is_u8 c.
Proof.
  unfold icmp_types_v6_to_v4, icmp6_unreach_to_v4_code. intros.
  repeat case_match; simplify_eq; by split.
Qed.
Lemma icmp_types_v4_to_v6_u8 ty code t c :
  is_u8 code -> icmp_types_v4_to_v6 ty code = Some (t, c) -> is_u8 t /\ is_u8 c.
Proof.
  unfold icmp_types_v4_to_v6, icmp4_unreach_to_v6_code. intros.
  repeat case_match; simplify_eq; by split.
Qed.

Lemma same_except_copy_at2 l off x y : (off + 2 <= length l)%nat ->
  same_except (fun i => i = off \/ i = S off) l (copy_at l off [x; y]).
Proof.
  intros. split; [by apply length_copy_at|]. intros i Hi.
  apply lookup_copy_at_ne; simpl; lia.
Qed.

Lemma length_icmp_msg (t c x y : Z) payload : (4 <= length payload)%nat ->
  length (copy_at ([t; c] ++ drop 2 payload) 2 [x; y]) = length payload.
Proof. intros. rewrite length_copy_at; simpl; rewrite length_drop; lia. Qed.

Lemma icmp_rewritten (types : Z -> Z -> option (Z * Z)) ty code t c payload x y :
  (4 <= length payload)%nat -> payload !! 0%nat = Some ty -> payload !! 1%nat = Some code ->
  types ty code = Some (t, c) ->
  same_except (fun i => (i < 4)%nat) payload (copy_at ([t; c] ++ drop 2 payload) 2 [x; y]) /\
  exists ty code ty' code', payload !! 0%nat = Some ty /\ payload !! 1%nat = Some code /\
    copy_at ([t; c] ++ drop 2 payload) 2 [x; y] !! 0%nat = Some ty' /\
    copy_at ([t; c] ++ drop 2 payload) 2 [x; y] !! 1%nat = Some code' /\
    types ty code = Some (ty', code').
Proof.
  intros Hl H0 H1 Ht. split.
  - split; [by apply length_icmp_msg|]. intros i Hi.
    rewrite lookup_copy_at_ne; [|simpl; rewrite length_drop; lia|simpl; lia].
    rewrite lookup_app_r by (simpl; lia). rewrite lookup_drop. f_equal. simpl. lia.
  - by exists ty, code, t, c.
Qed.

(** ** The upper-layer translations *)
Lemma cksum_off_even p : Nat.even (cksum_off p) = true.
Proof. unfold cksum_off. by case_match. Qed.

Lemma transport_cases p : is_transport p = true -> p = IP_PROTO_TCP \/ p = IP_PROTO_UDP.
Proof. unfold is_transport. intros [?%Z.eqb_eq|?%Z.eqb_eq]%orb_true_iff; auto. Qed.

Lemma is_bytes_zero_field l off : is_bytes l -> is_bytes (copy_at l off [0; 0]).
Proof. intros. apply is_bytes_copy_at; [done|solve_bytes]. Qed.

(** The UDP exception of the code keeps the field valid for the receiver. *)
Lemma udp_field_cases (b : bool) s :
  let c := if b && (s =? 0) then 65535 else s in c = s \/ (s = 0 /\ c = 65535).
Proof. destruct b; simpl; [|auto]. case_match; [right|auto]. split; [lia|done]. Qed.

(** The transport segment both directions compute, for a pseudo-header sum. *)
Definition fill_transport (pseudo : Z) (p : Z) (payload : bytes) : bytes :=
  let seg := copy_at payload (cksum_off p) [0; 0] in
  let c := csum_fold (csum_add pseudo seg) in
  copy_at seg (cksum_off p) (to_be16 (if (p =? IP_PROTO_UDP) && (c =? 0) then 65535 else c)).

Section FillTransport.
Context (pseudo p : Z) (payload : bytes).
Hypothesis Hlen : (cksum_off p + 2 <= length payload)%nat.
Hypothesis Hpseudo : pseudo_ok pseudo.
Hypothesis Hbytes : is_bytes payload.
Hypothesis Hmax : Z.of_nat (length payload) <= 65535.

Lemma length_fill_transport : length (fill_transport pseudo p payload) = length payload.
Proof. unfold fill_transport. by rewrite !length_copy_at by (rewrite ?length_copy_at; simpl; lia). Qed.

Lemma is_bytes_fill_transport : is_bytes (fill_transport pseudo p payload).
Proof. unfold fill_transport. auto using is_bytes_copy_at, is_bytes_zero_field, is_bytes_to_be16. Qed.

Lemma fill_transport_same :
  same_except (fun i => i = cksum_off p \/ i = S (cksum_off p)) payload
    (fill_transport pseudo p payload).
Proof.
  unfold fill_transport. rewrite copy_at_copy_at by done. by apply same_except_copy_at2.
Qed.

Lemma fill_transport_valid : csum_fold (csum_add pseudo (fill_transport pseudo p payload)) = 0.
Proof.
  apply checksum_field_valid; [done..|apply cksum_off_even|apply udp_field_cases].
Qed.

Lemma fill_transport_idem pseudo' :
  fill_transport pseudo' p (fill_transport pseudo p payload) = fill_transport pseudo' p payload.
Proof.
  assert (copy_at (fill_transport pseudo p payload) (cksum_off p) [0; 0]
          = copy_at payload (cksum_off p) [0; 0]) as Hz.
  { unfold fill_transport. by rewrite !copy_at_copy_at by (rewrite ?length_copy_at; done). }
  unfold fill_transport at 1. by rewrite Hz.
Qed.
End FillTransport.

Lemma icmp_header_again (payload : bytes) t c t' c' x y : (4 <= length payload)%nat ->
  copy_at ([t'; c'] ++ drop 2 (copy_at ([t; c] ++ drop 2 payload) 2 [x; y])) 2 [0; 0]
  = copy_at ([t'; c'] ++ drop 2 payload) 2 [0; 0].
Proof. intros. do 4 (destruct payload as [|? payload]; [simpl in *; lia|]). done. Qed.

(** The ICMP message both directions compute. *)
Definition fill_icmp (pseudo t c : Z) (payload : bytes) : bytes :=
  let msg := copy_at ([t; c] ++ drop 2 payload) 2 [0; 0] in
  copy_at msg 2 (to_be16 (csum_fold (csum_add pseudo msg))).

Section FillIcmp.
Context (pseudo t c : Z) (payload : bytes).
Hypothesis Hlen : (4 <= length payload)%nat.
Hypothesis Hpseudo : pseudo_ok pseudo.
Hypothesis Hbytes : is_bytes payload.
Hypothesis Ht : is_u8 t.
Hypothesis Hc : is_u8 c.
Hypothesis Hmax : Z.of_nat (length payload) <= 65535.

Lemma length_fill_icmp : length (fill_icmp pseudo t c payload) = length payload.
Proof.
  unfold fill_icmp. rewrite copy_at_copy_at by (simpl; rewrite ?length_drop; done || lia).
  by apply length_icmp_msg.
Qed.

Lemma is_bytes_fill_icmp : is_bytes (fill_icmp pseudo t c payload).
Proof.
  unfold fill_icmp.
  auto using is_bytes_copy_at, is_bytes_zero_field, is_bytes_to_be16, is_bytes_icmp_msg.
Qed.

Lemma fill_icmp_valid : csum_fold (csum_add pseudo (fill_icmp pseudo t c payload)) = 0.
Proof.
  assert (length ([t; c] ++ drop 2 payload) = length payload) as Hl
    by (simpl; rewrite length_drop; lia).
  apply checksum_field_valid; [done|by apply is_bytes_icmp_msg|lia|lia|done|by left].
Qed.

Lemma fill_icmp_eq : exists x y,
  fill_icmp pseudo t c payload = copy_at ([t; c] ++ drop 2 payload) 2 [x; y].
Proof.
  unfold fill_icmp. rewrite copy_at_copy_at by (simpl; rewrite ?length_drop; done || lia).
  unfold to_be16. eauto.
Qed.

Lemma fill_icmp_idem pseudo' t' c' :
  fill_icmp pseudo' t' c' (fill_icmp pseudo t c payload) = fill_icmp pseudo' t' c' payload.
Proof.
  destruct fill_icmp_eq as (x & y & ->). unfold fill_icmp.
  assert (copy_at ([t'; c'] ++ drop 2 (copy_at ([t; c] ++ drop 2 payload) 2 [x; y])) 2 [0; 0]
          = copy_at ([t'; c'] ++ drop 2 payload) 2 [0; 0]) as ->; [|done].
  by apply icmp_header_again.
Qed.
End FillIcmp.

(** ** Panic-free equations of the translators *)
Ltac idx_all := repeat (rewrite idx_total by lia; cbn [mbind rust_bind]).

Lemma translate_upper_v6_to_v4_eq nh payload s6 d6 src dst :
  translate_upper_v6_to_v4 nh payload s6 d6 src dst =
  if is_transport nh then
    if (length payload <? cksum_off nh + 2)%nat then none
    else Ok (fill_transport (pseudo_v4_sum src dst (u16 (Z.of_nat (length payload))) nh) nh payload)
  else if nh =? IP_PROTO_ICMPV6 then
    if (length payload <? 4)%nat then none
    else match icmp_types_v6_to_v4 (payload !!! 0%nat) (payload !!! 1%nat) with
         | Some (t, c) => Ok (fill_icmp 0 t c payload)
         | None => none
         end
  else none.
Proof.
  unfold translate_upper_v6_to_v4, translate_icmp_v6_to_v4.
  destruct (is_transport nh).
  - destruct (Nat.ltb_spec (length payload) (cksum_off nh + 2)); [done|].
    by rewrite !length_insert, insert2_copy_at by lia.
  - destruct (nh =? _); [|done].
    destruct (Nat.ltb_spec (length payload) 4); [done|]. idx_all.
    destruct (icmp_types_v6_to_v4 _ _) as [[t c]|]; cbn [try_opt mbind rust_bind]; [|done].
    by rewrite zero_icmp_header.
Qed.

Lemma translate_upper_v4_to_v6_eq p payload s4 d4 src dst :
  translate_upper_v4_to_v6 p payload s4 d4 src dst =
  if is_transport p then
    if (length payload <? cksum_off p + 2)%nat then none
    else Ok (fill_transport (pseudo_v6_sum src dst (u32 (Z.of_nat (length payload))) p) p payload)
  else if p =? IP_PROTO_ICMPV4 then
    if (length payload <? 4)%nat then none
    else match icmp_types_v4_to_v6 (payload !!! 0%nat) (payload !!! 1%nat) with
         | Some (t, c) =>
             Ok (fill_icmp (pseudo_v6_sum src dst (u32 (Z.of_nat (length payload))) IP_PROTO_ICMPV6)
                   t c payload)
         | None => none
         end
  else none.
Proof.
  unfold translate_upper_v4_to_v6, translate_icmp_v4_to_v6.
  destruct (is_transport p).
  - destruct (Nat.ltb_spec (length payload) (cksum_off p + 2)); [done|].
    by rewrite !length_insert, insert2_copy_at by lia.
  - destruct (p =? _); [|done].
    destruct (Nat.ltb_spec (length payload) 4); [done|]. idx_all.
    destruct (icmp_types_v4_to_v6 _ _) as [[t c]|]; cbn [try_opt mbind rust_bind]; [|done].
    by rewrite !length_insert, zero_icmp_header.
Qed.

Definition v4_header_base (tc len ttl proto : Z) (src dst : Ipv4Addr) : bytes :=
  [69; tc] ++ to_be16 len ++ to_be16 0 ++ to_be16 16384 ++ [ttl; proto] ++ to_be16 0
  ++ octets4 src ++ octets4 dst.
Definition v4_header (tc len ttl proto : Z) (src dst : Ipv4Addr) : bytes :=
  copy_at (v4_header_base tc len ttl proto src dst) 10
    (to_be16 (checksum (v4_header_base tc len ttl proto src dst))).
Definition v6_header (tc len nh hop : Z) (src dst : Ipv6Addr) : bytes :=
  [96 .| (tc .>> 4); u8 (tc .<< 4) .& 240; 0; 0] ++ to_be16 len ++ [nh; hop]
  ++ octets6 src ++ octets6 dst.

Definition v4_proto_of (nh : Z) : option Z :=
  if is_transport nh then Some nh
  else if nh =? IP_PROTO_ICMPV6 then Some IP_PROTO_ICMPV4 else None.
Definition v6_next_of (p : Z) : option Z :=
  if is_transport p then Some p
  else if p =? IP_PROTO_ICMPV4 then Some IP_PROTO_ICMPV6 else None.

Lemma v4_proto_of_ret nh :
  (if is_transport nh then Ok nh
   else if nh =? IP_PROTO_ICMPV6 then Ok IP_PROTO_ICMPV4 else none) = try_opt (v4_proto_of nh).
Proof. unfold v4_proto_of. by repeat case_match. Qed.
Lemma v6_next_of_ret p :
  (if is_transport p then Ok p
   else if p =? IP_PROTO_ICMPV4 then Ok IP_PROTO_ICMPV6 else none) = try_opt (v6_next_of p).
Proof. unfold v6_next_of. by repeat case_match. Qed.

(** The fields the translators read from an input packet. *)
Definition v6_tclass (pkt : bytes) : Z :=
  u8 (((pkt !!! 0%nat) .& 15) .<< 4) .| ((pkt !!! 1%nat) .>> 4).
Definition v6_plen (pkt : bytes) : nat := Z.to_nat (from_be16 (pkt !!! 4%nat) (pkt !!! 5%nat)).
Definition v6_payload (pkt : bytes) : bytes := take (v6_plen pkt) (drop 40 pkt).
Definition v6_src_of (pkt : bytes) : Ipv6Addr := V6 (take 16 (drop 8 pkt)).
Definition v6_dst_of (pkt : bytes) : Ipv6Addr := V6 (take 16 (drop 24 pkt)).

Lemma length_v4_header_base tc len ttl p src dst :
  length (v4_header_base tc len ttl p src dst) = 20%nat.
Proof. unfold v4_header_base. by destruct src, dst. Qed.
Lemma length_v4_header tc len ttl p src dst : length (v4_header tc len ttl p src dst) = 20%nat.
Proof. unfold v4_header. by rewrite length_copy_at; rewrite length_v4_header_base; [|simpl; lia]. Qed.

Lemma translate_v6_to_v4_eq pkt src dst :
  translate_v6_to_v4 pkt src dst =
  if (length pkt <? 40)%nat || negb (((pkt !!! 0%nat) .>> 4) =? 6)
     || (length pkt <? 40 + v6_plen pkt)%nat then none else
  match v4_proto_of (pkt !!! 6%nat) with
  | None => none
  | Some proto =>
      seg ← translate_upper_v6_to_v4 (pkt !!! 6%nat) (v6_payload pkt)
              (v6_src_of pkt) (v6_dst_of pkt) src dst;
      if 65535 <? Z.of_nat (20 + length seg) then none
      else Ok (v4_header (v6_tclass pkt) (u16 (Z.of_nat (20 + length seg))) (pkt !!! 7%nat) proto
                 src dst ++ seg)
  end.
Proof.
  unfold translate_v6_to_v4, IPV6_HEADER_LEN, IPV4_MIN_HEADER_LEN.
  destruct (Nat.ltb_spec (length pkt) 40); [done|]. cbn [orb].
  idx_all. case_match; [done|]. idx_all. cbn [orb].
  rewrite !slice_Ok by lia. cbn [mbind rust_bind].
  unfold get_range. fold (v6_plen pkt).
  destruct (Nat.ltb_spec (length pkt) (40 + v6_plen pkt)).
  { rewrite decide_False by lia. done. }
  rewrite decide_True by lia. cbn [try_opt mbind rust_bind].
  replace (40 + v6_plen pkt - 40)%nat with (v6_plen pkt) by lia. fold (v6_payload pkt).
  rewrite v4_proto_of_ret.
  change (24 - 8)%nat with 16%nat. change (40 - 24)%nat with 16%nat.
  fold (v6_src_of pkt) (v6_dst_of pkt) (v6_tclass pkt).
  destruct (v4_proto_of _) as [proto|]; cbn [try_opt mbind rust_bind]; [|done].
  destruct (translate_upper_v6_to_v4 _ _ _ _ _ _) as [seg|e|]; cbn [mbind rust_bind];
    [|reflexivity..].
  case_match; [done|].
  match goal with |- context [slice ?o 0 20] =>
    change o with (v4_header_base (v6_tclass pkt) (u16 (Z.of_nat (20 + length seg)))
      (pkt !!! 7%nat) proto src dst) end.
  rewrite slice_Ok by (rewrite ?length_v4_header_base; lia). cbn [mbind rust_bind].
  rewrite drop_0, take_ge by (rewrite length_v4_header_base; lia). done.
Qed.

Definition v4_ihl (pkt : bytes) : nat := (Z.to_nat ((pkt !!! 0%nat) .& 15) * 4)%nat.
Definition v4_tlen (pkt : bytes) : nat := Z.to_nat (from_be16 (pkt !!! 2%nat) (pkt !!! 3%nat)).
Definition v4_flags_frag (pkt : bytes) : Z := from_be16 (pkt !!! 6%nat) (pkt !!! 7%nat).
Definition v4_is_fragment (pkt : bytes) : bool :=
  negb ((v4_flags_frag pkt .& 8192) =? 0) || negb ((v4_flags_frag pkt .& 8191) =? 0).
Definition v4_payload (pkt : bytes) : bytes := take (v4_tlen pkt - v4_ihl pkt) (drop (v4_ihl pkt) pkt).
Definition v4_src_of (pkt : bytes) : Ipv4Addr :=
  V4 (pkt !!! 12%nat) (pkt !!! 13%nat) (pkt !!! 14%nat) (pkt !!! 15%nat).
Definition v4_dst_of (pkt : bytes) : Ipv4Addr :=
  V4 (pkt !!! 16%nat) (pkt !!! 17%nat) (pkt !!! 18%nat) (pkt !!! 19%nat).

Lemma translate_v4_to_v6_eq pkt src dst :
  translate_v4_to_v6 pkt src dst =
  if (length pkt <? 20)%nat || negb (((pkt !!! 0%nat) .>> 4) =? 4)
     || ((v4_ihl pkt <? 20)%nat || (length pkt <? v4_ihl pkt)%nat) || v4_is_fragment pkt
     || ((v4_tlen pkt <? v4_ihl pkt)%nat || (length pkt <? v4_tlen pkt)%nat) then none else
  match v6_next_of (pkt !!! 9%nat) with
  | None => none
  | Some next =>
      seg ← translate_upper_v4_to_v6 (pkt !!! 9%nat) (v4_payload pkt)
              (v4_src_of pkt) (v4_dst_of pkt) src dst;
      Ok (v6_header (pkt !!! 1%nat) (u16 (Z.of_nat (length seg))) next (pkt !!! 8%nat)
            src dst ++ seg)
  end.
Proof.
  unfold translate_v4_to_v6, IPV4_MIN_HEADER_LEN.
  destruct (Nat.ltb_spec (length pkt) 20); [done|]. cbn [orb].
  idx_all. case_match; [done|]. cbn [orb]. idx_all. fold (v4_ihl pkt).
  case_match; [done|]. cbn [orb]. fold (v4_flags_frag pkt). fold (v4_is_fragment pkt).
  case_match; [done|]. cbn [orb]. fold (v4_tlen pkt) (v4_src_of pkt) (v4_dst_of pkt).
  destruct (Nat.ltb_spec (v4_tlen pkt) (v4_ihl pkt)); [done|].
  destruct (Nat.ltb_spec (length pkt) (v4_tlen pkt)); [done|]. cbn [orb].
  rewrite slice_Ok by lia. cbn [mbind rust_bind]. rewrite v6_next_of_ret.
  destruct (v6_next_of _) as [next|]; cbn [try_opt mbind rust_bind]; [|done].
  fold (v4_payload pkt).
  destruct (translate_upper_v4_to_v6 _ _ _ _ _ _) as [seg|e|]; cbn [mbind rust_bind];
    [|reflexivity..].
  unfold v6_header. by rewrite <-!(assoc_L (++)).
Qed.

Lemma translate_upper_no_panic nh payload s6 d6 s4 d4 s6' d6' :
  translate_upper_v6_to_v4 nh payload s6 d6 s4 d4 <> Panic /\
  translate_upper_v4_to_v6 nh payload s4 d4 s6' d6' <> Panic.
Proof.
  rewrite translate_upper_v6_to_v4_eq, translate_upper_v4_to_v6_eq.
  split; repeat case_match; discriminate.
Qed.

(** ** Field ranges *)
Lemma is_u8_total (pkt : bytes) i : is_bytes pkt -> is_u8 (pkt !!! i).
Proof.
  intros Hb. destruct (pkt !! i) as [x|] eqn:E.
  - rewrite (list_lookup_total_correct _ _ _ E). eauto with wirehop.
  - rewrite list_lookup_total_alt, E. done.
Qed.
#[export] Hint Resolve is_u8_total : wirehop.

Lemma land15 x : x .& 15 = x mod 16.
Proof. change 15 with (Z.ones 4). by rewrite Z.land_ones by lia. Qed.

Lemma tclass_eq b0 b1 : is_u8 b0 -> is_u8 b1 ->
  u8 ((b0 .& 15) .<< 4) .| (b1 .>> 4) = b0 mod 16 * 16 + b1 / 16.
Proof.
  intros H0 H1. rewrite land15. rewrite u8_small by (rewrite Z.shiftl_mul_pow2 by lia; zbytes).
  rewrite Z.shiftr_div_pow2 by lia. rewrite lor_disjoint; zbytes.
Qed.

Lemma is_u8_tclass pkt : is_bytes pkt -> is_u8 (v6_tclass pkt).
Proof.
  intros. unfold v6_tclass. rewrite tclass_eq by auto with wirehop.
  assert (is_u8 (pkt !!! 0%nat)) by auto with wirehop.
  assert (is_u8 (pkt !!! 1%nat)) by auto with wirehop. zbytes.
Qed.

Lemma v6_payload_ok pkt : is_bytes pkt ->
  is_bytes (v6_payload pkt) /\ Z.of_nat (length (v6_payload pkt)) <= 65535.
Proof.
  intros. unfold v6_payload, v6_plen. split; [auto with wirehop|].
  assert (is_u16 (from_be16 (pkt !!! 4%nat) (pkt !!! 5%nat))) as Hp by auto with wirehop.
  rewrite length_take. unfold is_u16 in Hp. lia.
Qed.

Lemma v4_payload_ok pkt : is_bytes pkt ->
  is_bytes (v4_payload pkt) /\ Z.of_nat (length (v4_payload pkt)) <= 65535.
Proof.
  intros. unfold v4_payload, v4_tlen. split; [auto with wirehop|].
  assert (is_u16 (from_be16 (pkt !!! 2%nat) (pkt !!! 3%nat))) as Hp by auto with wirehop.
  rewrite length_take. unfold is_u16 in Hp. lia.
Qed.

Lemma is_bytes_v4_header_base tc len ttl p src dst :
  is_u8 tc -> is_u8 ttl -> is_u8 p -> wf4 src -> wf4 dst ->
  is_bytes (v4_header_base tc len ttl p src dst).
Proof.
  intros. unfold v4_header_base. rewrite !is_bytes_app.
  repeat split; try done; try solve_bytes; apply is_bytes_to_be16.
Qed.

Lemma v4_header_checksum tc len ttl p src dst :
  is_u8 tc -> is_u8 ttl -> is_u8 p -> wf4 src -> wf4 dst ->
  checksum (v4_header tc len ttl p src dst) = 0.
Proof.
  intros. unfold v4_header. set (base := v4_header_base _ _ _ _ _ _).
  assert (copy_at base 10 [0; 0] = base) as Hz by (by destruct src, dst).
  rewrite <-Hz at 1. rewrite checksum_as_pseudo.
  assert (length base = 20%nat) as Hl by apply length_v4_header_base.
  apply checksum_field_valid; rewrite ?Hl; [done|by apply is_bytes_v4_header_base|lia|lia|done|].
  left. by rewrite Hz.
Qed.

Lemma list_lookup_total_0_1 (l : bytes) : (4 <= length l)%nat ->
  l !! 0%nat = Some (l !!! 0%nat) /\ l !! 1%nat = Some (l !!! 1%nat).
Proof. intros. split; apply list_lookup_lookup_total_lt; lia. Qed.

(** What the upper-layer translations guarantee, in each direction. *)
Lemma translate_upper_v6_to_v4_correct nh payload s6 d6 src dst proto seg :
  is_bytes payload -> Z.of_nat (length payload) <= 65535 -> wf4 src -> wf4 dst ->
  v4_proto_of nh = Some proto ->
  translate_upper_v6_to_v4 nh payload s6 d6 src dst = Ok seg ->
  is_bytes seg /\ length seg = length payload /\ is_u8 proto /\
  upper_rewritten icmp_types_v6_to_v4 nh payload seg /\ v4_upper_checksum_valid src dst proto seg.
Proof.
  rewrite translate_upper_v6_to_v4_eq.
  unfold v4_proto_of, upper_rewritten, v4_upper_checksum_valid. intros Hb Hl Hs Hd Hp.
  destruct (is_transport nh) eqn:Etr.
  - injection Hp as <-. destruct (Nat.ltb_spec (length payload) (cksum_off nh + 2)); [done|].
    intros [= <-]. assert (is_u8 nh /\ (nh =? IP_PROTO_ICMPV4) = false) as [Hnh ->].
    { by destruct (transport_cases nh Etr) as [-> | ->]. }
    rewrite u16_small by (unfold is_u16; lia). rewrite length_fill_transport by done.
    auto 8 using is_bytes_fill_transport, fill_transport_same, fill_transport_valid, pseudo_v4_ok.
  - destruct (nh =? IP_PROTO_ICMPV6); [|done]. injection Hp as <-.
    destruct (Nat.ltb_spec (length payload) 4); [done|].
    destruct (icmp_types_v6_to_v4 _ _) as [[t c]|] eqn:Et; intros [= <-].
    destruct (icmp_types_v6_to_v4_u8 _ _ _ _ (is_u8_total _ _ Hb) Et) as [Ht Hc].
    split; [by apply is_bytes_fill_icmp|]. split; [by apply length_fill_icmp|]. split; [done|].
    split; [|by apply (fill_icmp_valid 0 t c payload)].
    destruct (fill_icmp_eq 0 t c payload) as (x & y & ->); [done|].
    destruct (list_lookup_total_0_1 payload) as [E0 E1]; [done|].
    by eapply icmp_rewritten.
Qed.

Lemma translate_upper_v4_to_v6_correct p payload s4 d4 src dst next seg :
  is_bytes payload -> Z.of_nat (length payload) <= 65535 -> wf6 src -> wf6 dst ->
  v6_next_of p = Some next ->
  translate_upper_v4_to_v6 p payload s4 d4 src dst = Ok seg ->
  is_bytes seg /\ length seg = length payload /\ is_u8 next /\
  upper_rewritten icmp_types_v4_to_v6 p payload seg /\ v6_upper_checksum_valid src dst next seg.
Proof.
  rewrite translate_upper_v4_to_v6_eq.
  unfold v6_next_of, upper_rewritten, v6_upper_checksum_valid. intros Hb Hl Hs Hd Hp.
  rewrite u32_small by (unfold is_u32; lia).
  destruct (is_transport p) eqn:Etr.
  - injection Hp as <-. destruct (Nat.ltb_spec (length payload) (cksum_off p + 2)); [done|].
    intros [= <-]. assert (is_u8 p) by (by destruct (transport_cases p Etr) as [-> | ->]).
    rewrite length_fill_transport by done.
    auto 8 using is_bytes_fill_transport, fill_transport_same, fill_transport_valid, pseudo_v6_ok.
  - destruct (p =? IP_PROTO_ICMPV4); [|done]. injection Hp as <-.
    destruct (Nat.ltb_spec (length payload) 4); [done|].
    destruct (icmp_types_v4_to_v6 _ _) as [[t c]|] eqn:Et; intros [= <-].
    destruct (icmp_types_v4_to_v6_u8 _ _ _ _ (is_u8_total _ _ Hb) Et) as [Ht Hc].
    rewrite length_fill_icmp by done.
    split; [by apply is_bytes_fill_icmp|]. split; [done|]. split; [done|].
    split; [|apply fill_icmp_valid; try done; by apply pseudo_v6_ok].
    destruct (fill_icmp_eq (pseudo_v6_sum src dst (Z.of_nat (length payload)) IP_PROTO_ICMPV6)
                t c payload) as (x & y & ->); [done|].
    destruct (list_lookup_total_0_1 payload) as [E0 E1]; [done|].
    by eapply icmp_rewritten.
Qed.

(** ** Theorems *)

(** C2.  The header and checksums of a v6-to-v4 translation: whatever the input,
    a packet that is produced is an IPv4 packet without options whose total
    length is its length, whose header checksum verifies, which carries the v6
    traffic class and hop limit, the requested addresses and DF, and whose
    upper layer is the input's, changed only in its checksum (for ICMP also in
    type and code, by the RFC 6145 tables) and verifying against the IPv4
    pseudo-header. *)
Theorem translate_v6_to_v4_correct pkt src dst out :
  is_bytes pkt -> wf4 src -> wf4 dst ->
  translate_v6_to_v4 pkt src dst = Ok out ->
  exists proto seg,
    v4_proto_of (pkt !!! 6%nat) = Some proto /\
    out = v4_header (v6_tclass pkt) (Z.of_nat (length out)) (pkt !!! 7%nat) proto src dst ++ seg /\
    Z.of_nat (length out) <= 65535 /\
    checksum (take 20 out) = 0 /\
    upper_rewritten icmp_types_v6_to_v4 (pkt !!! 6%nat) (v6_payload pkt) seg /\
    v4_upper_checksum_valid src dst proto seg.
Proof.
  intros Hb Hs Hd. rewrite translate_v6_to_v4_eq. case_match; [done|].
  destruct (v4_proto_of _) as [proto|] eqn:Ep; [|done].
  destruct (translate_upper_v6_to_v4 _ _ _ _ _ _) as [seg| |] eqn:Eu; cbn [mbind rust_bind]; [|done..].
  destruct (v6_payload_ok pkt Hb) as [Hpb Hpl].
  destruct (translate_upper_v6_to_v4_correct _ _ _ _ _ _ _ _ Hpb Hpl Hs Hd Ep Eu)
    as (Hsb & Hsl & Hproto & Hrw & Hck).
  destruct (Z.ltb_spec 65535 (Z.of_nat (20 + length seg))); [done|]. intros <-%Ok_inj.
  rewrite u16_small by (unfold is_u16; lia).
  rewrite length_app, length_v4_header. exists proto, seg. split_and!; try done.
  rewrite take_app_length' by (by rewrite length_v4_header).
  by apply v4_header_checksum; auto using is_u8_tclass with wirehop.
Qed.

(** C12.  The same for a v4-to-v6 translation: the output is an IPv6 packet with
    flow label 0, the v4 DSCP/ECN and TTL, the requested addresses, a payload
    length equal to the payload's length, and an upper layer that is the
    input's up to checksum (and ICMP type and code) and that verifies against
    the IPv6 pseudo-header; a fragment is never translated. *)
Theorem translate_v4_to_v6_correct pkt src dst out :
  is_bytes pkt -> wf6 src -> wf6 dst ->
  translate_v4_to_v6 pkt src dst = Ok out ->
  v4_is_fragment pkt = false /\
  exists next seg,
    v6_next_of (pkt !!! 9%nat) = Some next /\
    out = v6_header (pkt !!! 1%nat) (Z.of_nat (length seg)) next (pkt !!! 8%nat) src dst ++ seg /\
    length out = (40 + length seg)%nat /\
    upper_rewritten icmp_types_v4_to_v6 (pkt !!! 9%nat) (v4_payload pkt) seg /\
    v6_upper_checksum_valid src dst next seg.
Proof.
  intros Hb Hs Hd. rewrite translate_v4_to_v6_eq.
  destruct (v4_is_fragment pkt) eqn:Ef; [by rewrite !orb_true_r|].
  case_match; [done|]. intros Hout. split; [done|].
  destruct (v6_next_of _) as [next|] eqn:Ep; [|done].
  destruct (translate_upper_v4_to_v6 _ _ _ _ _ _) as [seg| |] eqn:Eu; cbn [mbind rust_bind] in Hout;
    [|done..].
  apply Ok_inj in Hout as <-.
  destruct (v4_payload_ok pkt Hb) as [Hpb Hpl].
  destruct (translate_upper_v4_to_v6_correct _ _ _ _ _ _ _ _ Hpb Hpl Hs Hd Ep Eu)
    as (Hsb & Hsl & Hnext & Hrw & Hck).
  rewrite u16_small by (unfold is_u16; lia).
  exists next, seg. split_and!; try done. unfold v6_header.
  rewrite !length_app. destruct Hs as [-> _], Hd as [-> _]. simpl. lia.
Qed.

Lemma translate_v6_to_v4_no_panic pkt s4 d4 : translate_v6_to_v4 pkt s4 d4 <> Panic.
Proof.
  rewrite translate_v6_to_v4_eq. case_match; [done|]. case_match; [|done].
  pose proof (proj1 (translate_upper_no_panic (pkt !!! 6%nat) (v6_payload pkt)
    (v6_src_of pkt) (v6_dst_of pkt) s4 d4 (v6_src_of pkt) (v6_dst_of pkt))).
  destruct (translate_upper_v6_to_v4 _ _ _ _ _ _); cbn [mbind rust_bind]; [case_match| |]; done.
Qed.

Lemma translate_v4_to_v6_no_panic pkt s6 d6 : translate_v4_to_v6 pkt s6 d6 <> Panic.
Proof.
  rewrite translate_v4_to_v6_eq. case_match; [done|]. case_match; [|done].
  pose proof (proj2 (translate_upper_no_panic (pkt !!! 9%nat) (v4_payload pkt)
    s6 d6 (v4_src_of pkt) (v4_dst_of pkt) s6 d6)).
  destruct (translate_upper_v4_to_v6 _ _ _ _ _ _); cbn [mbind rust_bind]; done.
Qed.

(** Neither translator ever panics: no index or slice of the Rust code is
    out of range, for any input bytes and any addresses. *)
Theorem translate_no_panic pkt s4 d4 s6 d6 :
  translate_v6_to_v4 pkt s4 d4 <> Panic /\ translate_v4_to_v6 pkt s6 d6 <> Panic.
Proof. split; [apply translate_v6_to_v4_no_panic|apply translate_v4_to_v6_no_panic]. Qed.

(** ** Round trip v6 -> v4 -> v6 *)

(** The packet of an ordinary sender: IPv6, no flow label, no bytes after the
    payload, and the checksum field holds the checksum the sender computed. *)
Definition sender_checksummed (src dst : Ipv6Addr) (nh : Z) (seg : bytes) : Prop :=
  let pseudo := pseudo_v6_sum src dst (Z.of_nat (length seg)) nh in
  if is_transport nh then fill_transport pseudo nh seg = seg
  else fill_icmp pseudo (seg !!! 0%nat) (seg !!! 1%nat) seg = seg.
Record sender_packet (pkt : bytes) : Prop := {
  sp_bytes : is_bytes pkt;
  sp_flow : (pkt !!! 1%nat) mod 16 = 0 /\ pkt !!! 2%nat = 0 /\ pkt !!! 3%nat = 0;
  sp_length : length pkt = (40 + v6_plen pkt)%nat;
  sp_checksum : sender_checksummed (v6_src_of pkt) (v6_dst_of pkt) (pkt !!! 6%nat) (v6_payload pkt);
}.
(** ICMP errors lose their code in translation; echo does not. *)
Definition is_echo_or_transport (pkt : bytes) : Prop :=
  is_transport (pkt !!! 6%nat) = true \/ v6_payload pkt !!! 0%nat ∈ [128; 129].

#[export] Instance sender_checksummed_dec src dst nh seg : Decision (sender_checksummed src dst nh seg).
Proof. unfold sender_checksummed. destruct (is_transport nh); apply _. Defined.

Section V4Output.
Context (tc len ttl proto : Z) (src dst : Ipv4Addr) (seg : bytes).
Let out := v4_header tc len ttl proto src dst ++ seg.

Lemma v4_out_fields : out !!! 0%nat = 69 /\ out !!! 1%nat = tc /\ out !!! 2%nat = u8 (len .>> 8) /\
  out !!! 3%nat = u8 len /\ out !!! 8%nat = ttl /\ out !!! 9%nat = proto /\
  v4_is_fragment out = false.
Proof. subst out. destruct src, dst. split_and!; reflexivity. Qed.

Lemma v4_out_drop : drop 20 out = seg.
Proof. apply drop_app_length'. by rewrite length_v4_header. Qed.

Lemma translate_v4_out s6 d6 : is_u16 len -> len = Z.of_nat (length out) ->
  translate_v4_to_v6 out s6 d6 =
  match v6_next_of proto with
  | None => none
  | Some next =>
      seg' ← translate_upper_v4_to_v6 proto seg (v4_src_of out) (v4_dst_of out) s6 d6;
      Ok (v6_header tc (u16 (Z.of_nat (length seg'))) next ttl s6 d6 ++ seg')
  end.
Proof.
  intros Hlen Hl. rewrite translate_v4_to_v6_eq.
  destruct v4_out_fields as (E0 & E1 & E2 & E3 & E8 & E9 & Ef).
  assert (length out = (20 + length seg)%nat) as Hlo
    by (subst out; by rewrite length_app, length_v4_header).
  assert (v4_ihl out = 20%nat) as Hihl by (unfold v4_ihl; by rewrite E0).
  assert (v4_tlen out = length out) as Htl.
  { unfold v4_tlen. rewrite E2, E3, from_be16_eq, shiftr8 by auto with wirehop.
    rewrite Hl. unfold is_u16 in Hlen. zbytes. }
  unfold v4_payload. rewrite Ef, E0, E1, E8, E9, Hihl, Htl, Hlo, v4_out_drop.
  replace (20 + length seg - 20)%nat with (length seg) by lia. rewrite take_ge by done.
  rewrite (proj2 (Nat.ltb_ge (20 + length seg) 20)) by lia.
  rewrite (proj2 (Nat.ltb_ge (20 + length seg) (20 + length seg))) by lia. done.
Qed.
End V4Output.

(** Splitting a packet at its header. *)
Lemma v6_split pkt : (40 <= length pkt)%nat ->
  pkt = [pkt !!! 0%nat; pkt !!! 1%nat; pkt !!! 2%nat; pkt !!! 3%nat; pkt !!! 4%nat;
         pkt !!! 5%nat; pkt !!! 6%nat; pkt !!! 7%nat]
        ++ octets6 (v6_src_of pkt) ++ octets6 (v6_dst_of pkt) ++ drop 40 pkt.
Proof.
  intros. do 8 (destruct pkt as [|? pkt]; [simpl in *; lia|]).
  simpl in *. do 8 f_equal.
  rewrite <-(take_drop 16 pkt) at 1. f_equal.
  rewrite <-(take_drop 16 (drop 16 pkt)) at 1. by rewrite drop_drop.
Qed.

Lemma v6_header_of_sender pkt : is_bytes pkt -> (40 <= length pkt)%nat ->
  (pkt !!! 0%nat) .>> 4 = 6 ->
  (pkt !!! 1%nat) mod 16 = 0 /\ pkt !!! 2%nat = 0 /\ pkt !!! 3%nat = 0 ->
  v6_header (v6_tclass pkt) (from_be16 (pkt !!! 4%nat) (pkt !!! 5%nat)) (pkt !!! 6%nat)
    (pkt !!! 7%nat) (v6_src_of pkt) (v6_dst_of pkt)
  = [pkt !!! 0%nat; pkt !!! 1%nat; pkt !!! 2%nat; pkt !!! 3%nat; pkt !!! 4%nat;
     pkt !!! 5%nat; pkt !!! 6%nat; pkt !!! 7%nat] ++ octets6 (v6_src_of pkt) ++ octets6 (v6_dst_of pkt).
Proof.
  intros Hb Hl Hv (H1 & -> & ->). unfold v6_header, v6_tclass.
  assert (is_u8 (pkt !!! 0%nat)) as Hb0 by auto with wirehop.
  assert (is_u8 (pkt !!! 1%nat)) as Hb1 by auto with wirehop.
  rewrite to_from_be16 by auto with wirehop. rewrite tclass_eq by done.
  set (b0 := pkt !!! 0%nat) in *. set (b1 := pkt !!! 1%nat) in *.
  rewrite Z.shiftr_div_pow2 in Hv by lia.
  rewrite Z.shiftr_div_pow2, Z.shiftl_mul_pow2 by lia.
  assert (96 .| (b0 mod 16 * 16 + b1 / 16) / 2 ^ 4 = b0) as ->.
  { change 96 with (6 .<< 4). rewrite lor_disjoint; zbytes. }
  assert (u8 ((b0 mod 16 * 16 + b1 / 16) * 2 ^ 4) .& 240 = b1) as ->; [|done].
  replace (u8 ((b0 mod 16 * 16 + b1 / 16) * 2 ^ 4)) with b1 by zbytes.
  change 240 with (15 .<< 4). replace b1 with ((b1 / 16) .<< 4) at 1
    by (rewrite Z.shiftl_mul_pow2 by lia; zbytes).
  rewrite <-Z.shiftl_land, land15, Z.shiftl_mul_pow2 by lia. zbytes.
Qed.

(** Going back over the upper layer restores a sender's segment. *)
Lemma upper_roundtrip nh payload s6 d6 s4 d4 s4' d4' proto seg :
  sender_checksummed s6 d6 nh payload -> Z.of_nat (length payload) <= 65535 -> is_bytes payload ->
  is_transport nh = true \/ payload !!! 0%nat ∈ [128; 129] ->
  v4_proto_of nh = Some proto ->
  translate_upper_v6_to_v4 nh payload s6 d6 s4 d4 = Ok seg ->
  v6_next_of proto = Some nh /\
  translate_upper_v4_to_v6 proto seg s4' d4' s6 d6 = Ok payload.
Proof.
  unfold sender_checksummed, v4_proto_of, v6_next_of.
  rewrite translate_upper_v6_to_v4_eq, translate_upper_v4_to_v6_eq.
  intros Hck Hl Hb He Hp. destruct (is_transport nh) eqn:Etr.
  - injection Hp as <-. rewrite Etr.
    destruct (Nat.ltb_spec (length payload) (cksum_off nh + 2)); [done|]. intros <-%Ok_inj.
    rewrite length_fill_transport by done. rewrite u32_small by (unfold is_u32; lia).
    rewrite (proj2 (Nat.ltb_ge _ _)) by done.
    rewrite fill_transport_idem, Hck by done. done.
  - destruct (Z.eqb_spec nh IP_PROTO_ICMPV6) as [->|]; [|done]. injection Hp as <-.
    destruct He as [He|He]; [done|].
    destruct (Nat.ltb_spec (length payload) 4); [done|].
    destruct (icmp_types_v6_to_v4 _ _) as [[t c]|] eqn:Et; intros H'; [|done].
    apply Ok_inj in H' as <-. cbn [is_transport].
    assert (t <> 3 /\ icmp_types_v4_to_v6 t c = Some (payload !!! 0%nat, payload !!! 1%nat)) as [Hne Hback].
    { unfold icmp_types_v6_to_v4 in Et.
      apply elem_of_cons in He as [E|E%list_elem_of_singleton]; rewrite E in Et |- *;
        by injection Et as <- <-. }
    rewrite length_fill_icmp by done. rewrite u32_small by (unfold is_u32; lia).
    change (is_transport IP_PROTO_ICMPV4) with false. cbn [Z.eqb IP_PROTO_ICMPV4].
    change (1 =? 1) with true. cbn match.
    rewrite (proj2 (Nat.ltb_ge _ _)) by done.
    assert (fill_icmp 0 t c payload !!! 0%nat = t /\ fill_icmp 0 t c payload !!! 1%nat = c) as [-> ->].
    { by destruct (fill_icmp_eq 0 t c payload) as (x & y & ->). }
    rewrite Hback, fill_icmp_idem, Hck by done. done.
Qed.

(** Round trip: a packet an ordinary sender emits (TCP, UDP or ICMPv6 echo)
    that is translated to IPv4 and back with its own addresses is reproduced
    bit for bit. *)
Theorem siit_roundtrip pkt s4 d4 p4 :
  sender_packet pkt -> is_echo_or_transport pkt ->
  translate_v6_to_v4 pkt s4 d4 = Ok p4 ->
  translate_v4_to_v6 p4 (v6_src_of pkt) (v6_dst_of pkt) = Ok pkt.
Proof.
  intros [Hb Hflow Hlen Hck] He. rewrite translate_v6_to_v4_eq.
  destruct (Nat.ltb_spec (length pkt) 40); [done|].
  destruct (Z.eqb_spec ((pkt !!! 0%nat) .>> 4) 6) as [Hv|]; [|done].
  rewrite Hlen at 1. rewrite Nat.ltb_irrefl. cbn [orb negb].
  destruct (v4_proto_of _) as [proto|] eqn:Ep; [|done].
  destruct (translate_upper_v6_to_v4 _ _ _ _ _ _) as [seg| |] eqn:Eu; cbn [mbind rust_bind]; [|done..].
  destruct (Z.ltb_spec 65535 (Z.of_nat (20 + length seg))); [done|]. intros <-%Ok_inj.
  destruct (v6_payload_ok pkt Hb) as [Hpb Hpl].
  rewrite u16_small by (unfold is_u16; lia).
  rewrite translate_v4_out; [|unfold is_u16; lia|by rewrite length_app, length_v4_header].
  edestruct upper_roundtrip as [-> ->]; [done..|]. cbn [mbind rust_bind]. f_equal.
  rewrite u16_small by (unfold is_u16; lia).
  assert (v6_payload pkt = drop 40 pkt) as Hpay
    by (unfold v6_payload; rewrite take_ge; [done|rewrite length_drop; lia]).
  assert (Z.of_nat (length (v6_payload pkt)) = from_be16 (pkt !!! 4%nat) (pkt !!! 5%nat)) as ->.
  { rewrite Hpay, length_drop, Hlen.
    assert (is_u16 (from_be16 (pkt !!! 4%nat) (pkt !!! 5%nat))) as [Hu _] by auto with wirehop.
    unfold v6_plen. lia. }
  rewrite v6_header_of_sender by done. rewrite Hpay, <-!(assoc_L (++)). symmetry. by apply v6_split.
Qed.

(** ** Witnesses: a UDP datagram, an ICMPv4 echo, and a malformed packet *)
Definition demo_src : Ipv6Addr := V6 [253;104;111;112;118;105;97;53;0;0;0;0;100;64;0;2].
Definition demo_dst : Ipv6Addr := V6 [253;104;111;112;118;105;97;54;0;0;0;7;192;168;1;50].
Definition demo_udp : bytes :=
  fill_transport (pseudo_v6_sum demo_src demo_dst 12 17) 17 [17;92;0;53;0;12;0;0;1;2;3;4].
Definition demo_pkt : bytes :=
  [96;0;0;0;0;12;17;64] ++ octets6 demo_src ++ octets6 demo_dst ++ demo_udp.
Definition demo_v4 : bytes :=
  v4_header 0 40 64 1 (V4 192 168 1 50) (V4 100 127 0 1)
  ++ fill_icmp 0 8 0 [8;0;0;0;18;52;0;1;1;2;3;4;5;6;7;8;9;10;11;12].

Definition ropt_get (r : ropt bytes) : bytes := match r with Ok b => b | _ => [] end.

Lemma translate_v6_to_v4_correct_witness :
  exists proto seg, v4_proto_of (demo_pkt !!! 6%nat) = Some proto /\
    checksum (take 20 (ropt_get (translate_v6_to_v4 demo_pkt (V4 100 127 0 1) (V4 192 168 1 50)))) = 0 /\
    v4_upper_checksum_valid (V4 100 127 0 1) (V4 192 168 1 50) proto seg.
Proof.
  destruct (translate_v6_to_v4_correct demo_pkt (V4 100 127 0 1) (V4 192 168 1 50)
    (ropt_get (translate_v6_to_v4 demo_pkt (V4 100 127 0 1) (V4 192 168 1 50))))
    as (proto & seg & H1 & _ & _ & H2 & _ & H3).
  - apply (bool_decide_unpack _). vm_compute. exact I.
  - apply (bool_decide_unpack _). vm_compute. exact I.
  - apply (bool_decide_unpack _). vm_compute. exact I.
  - vm_compute. reflexivity.
  - exists proto, seg. split; [exact H1|]. split; [exact H2|exact H3].
Defined.

Lemma translate_v4_to_v6_correct_witness :
  v4_is_fragment demo_v4 = false /\
  exists next seg, v6_next_of (demo_v4 !!! 9%nat) = Some next /\
    v6_upper_checksum_valid demo_dst demo_src next seg.
Proof.
  destruct (translate_v4_to_v6_correct demo_v4 demo_dst demo_src
    (ropt_get (translate_v4_to_v6 demo_v4 demo_dst demo_src)))
    as (H0 & next & seg & H1 & _ & _ & _ & H3).
  - apply (bool_decide_unpack _). vm_compute. exact I.
  - apply (bool_decide_unpack _). vm_compute. exact I.
  - apply (bool_decide_unpack _). vm_compute. exact I.
  - vm_compute. reflexivity.
  - split; [exact H0|]. exists next, seg. split; [exact H1|exact H3].
Defined.

Lemma siit_roundtrip_witness :
  translate_v4_to_v6 (ropt_get (translate_v6_to_v4 demo_pkt (V4 100 127 0 1) (V4 192 168 1 50)))
    (v6_src_of demo_pkt) (v6_dst_of demo_pkt) = Ok demo_pkt.
Proof.
  apply (siit_roundtrip demo_pkt (V4 100 127 0 1) (V4 192 168 1 50)).
  - split.
    + apply (bool_decide_unpack _). vm_compute. exact I.
    + vm_compute. auto.
    + vm_compute. reflexivity.
    + apply (bool_decide_unpack _). vm_compute. exact I.
  - left. reflexivity.
  - vm_compute. reflexivity.
Defined.
