(* ===== verification/Vpn.v ===== *)
(** * Vpn: the routing core of the VPN data plane (hop-core/src/vpn/mod.rs)

    Packet address parsing, the 4via6 address and name codecs, CIDR matching
    with longest-prefix selection, the gateway's forwarding rule, and the
    gateway's SIIT client pool ([SiitState]). *)
From S2P Require Import Prelude Addr Text.
From Stdlib Require Import Ascii.
Local Open Scope Z_scope.

(** ** Parsing addresses out of raw packets *)
Definition VPN_KEEPALIVE : bytes := [255; 104; 75; 65; 49].

Definition parse_dest_ipv4 (packet : bytes) : ropt Ipv4Addr :=
  if (length packet <? 20)%nat then none else
  b0 ← idx packet 0;
  if negb ((b0 .>> 4) =? 4) then none else
  a ← idx packet 16; b ← idx packet 17; c ← idx packet 18; d ← idx packet 19;
  Ok (V4 a b c d).

Definition parse_dest_port (packet : bytes) : ropt Z :=
  if (length packet <? 24)%nat then none else
  b0 ← idx packet 0;
  if negb ((b0 .>> 4) =? 4) then none else
  let ihl := (Z.to_nat (b0 .& 15) * 4)%nat in
  proto ← idx packet 9;
  if negb ((proto =? 6) || (proto =? 17)) || (length packet <? ihl + 4)%nat then none else
  hi ← idx packet (ihl + 2); lo ← idx packet (ihl + 3);
  Ok (from_be16 hi lo).

Definition parse_src_ipv4 (packet : bytes) : ropt Ipv4Addr :=
  if (length packet <? 20)%nat then none else
  b0 ← idx packet 0;
  if negb ((b0 .>> 4) =? 4) then none else
  a ← idx packet 12; b ← idx packet 13; c ← idx packet 14; d ← idx packet 15;
  Ok (V4 a b c d).

Definition parse_dest_ipv6 (packet : bytes) : ropt Ipv6Addr :=
  if (length packet <? 40)%nat then none else
  b0 ← idx packet 0;
  if negb ((b0 .>> 4) =? 6) then none else
  o ← slice packet 24 40;
  Ok (V6 o).

Definition is_virtual_addr (addr : Ipv4Addr) : bool :=
  let '(V4 a b _ _) := addr in (a =? 100) && ((64 <=? b) && (b <=? 127)).
Definition SIIT_POOL_BASE : Ipv4Addr := V4 100 127 0 0.
Definition is_siit_pool_addr (addr : Ipv4Addr) : bool :=
  let '(V4 a b _ _) := addr in (a =? 100) && (b =? 127).

(** ** 4via6 addresses and names *)
Definition VIA6_PREFIX : bytes := [253; 104; 111; 112; 118; 105; 97; 54].
Definition CLIENT_V6_PREFIX : bytes := [253; 104; 111; 112; 118; 105; 97; 53].

Definition client_v6 (vip : Ipv4Addr) : Ipv6Addr :=
  let o := replicate 16 0 in
  let o := copy_at o 0 CLIENT_V6_PREFIX in
  V6 (copy_at o 12 (octets4 vip)).

Definition is_client_v6 (addr : Ipv6Addr) : bool :=
  bool_decide (take 8 (octets6 addr) = CLIENT_V6_PREFIX).

Definition via6_encode (site_id : Z) (ipv4 : Ipv4Addr) : Ipv6Addr :=
  let o := replicate 16 0 in
  let o := copy_at o 0 VIA6_PREFIX in
  let o := copy_at o 8 (to_be32 site_id) in
  V6 (copy_at o 12 (octets4 ipv4)).

(** [octets()] of an [Ipv6Addr] has 16 bytes, so the indices are constants in
    range ([via6_decode] has no panic to model). *)
Definition via6_decode (addr : Ipv6Addr) : option (Z * Ipv4Addr) :=
  let o := octets6 addr in
  if bool_decide (take 8 o = VIA6_PREFIX) then
    Some (from_be32 (o !!! 8%nat) (o !!! 9%nat) (o !!! 10%nat) (o !!! 11%nat),
          V4 (o !!! 12%nat) (o !!! 13%nat) (o !!! 14%nat) (o !!! 15%nat))
  else None.

Definition via_name (site_id : Z) (ipv4 : Ipv4Addr) : string :=
  let '(V4 a b c d) := ipv4 in
  (print_uint a +:+ "-" +:+ print_uint b +:+ "-" +:+ print_uint c +:+ "-" +:+ print_uint d
   +:+ "-via-" +:+ print_uint site_id)%string.

Definition parse_via_name (host : string) : option (Z * Ipv4Addr) :=
  '(ip_part, site_part) ← rsplit_once "-via-" host;
  site_id ← parse_u32 site_part;
  match split_char "-" ip_part with
  | [a; b; c; d] =>
      a ← parse_u8 a; b ← parse_u8 b; c ← parse_u8 c; d ← parse_u8 d;
      Some (site_id, V4 a b c d)
  | _ => None (* fewer than four octets, or trailing junk after them *)
  end.

(** ** CIDR routes *)
Definition cidr_mask (len : Z) : Z :=
  if len =? 0 then 0 else u32 ((2 ^ 32 - 1) .<< (32 - len)).

Definition parse_cidr_v4 (s : string) : option (Ipv4Addr * Z) :=
  '(ip, len) ← split_once "/" s;
  ip ← parse_ipv4 (trim ip);
  len ← parse_u8 (trim len);
  if 32 <? len then None else
  let mask := cidr_mask len in
  Some (v4_of_u32 (u32_of_v4 ip .& mask), len).

Definition cidr_contains_v4 (cidr : string) (ip : Ipv4Addr) : bool :=
  match parse_cidr_v4 cidr with
  | None => false
  | Some (net, len) =>
      let mask := cidr_mask len in
      (u32_of_v4 ip .& mask) =? u32_of_v4 net
  end.

(** One step of the loop: the best match so far, and the next route. *)
Definition lpm_step {T} (ip : Ipv4Addr) (best : option (Z * T)) (route : string * T) :
    option (Z * T) :=
  let '(cidr, value) := route in
  match parse_cidr_v4 cidr with
  | Some (_, len) =>
      if cidr_contains_v4 cidr ip &&
         (match best with None => true | Some (blen, _) => blen <? len end)
      then Some (len, value) else best
  | None => best
  end.
Definition longest_prefix_match {T} (routes : list (string * T)) (ip : Ipv4Addr) : option T :=
  snd <$> foldl (lpm_step ip) None routes.

(** [candidates.iter().position(is_live).unwrap_or(0)]. *)
Definition select_live {T} (candidates : list T) (is_live : T -> bool) : nat :=
  match list_find (fun c => is_live c = true) candidates with Some (i, _) => i | None => 0%nat end.

(** ** Gateway routes *)
Record GatewayRouteEntry := {
  gr_cidr : string;
  gr_tags : list string;
  gr_allowed_vips : gset Ipv4Addr;
}.

Definition gateway_forwards (routes : list GatewayRouteEntry) (src_vip dst : Ipv4Addr) : bool :=
  existsb (fun r => cidr_contains_v4 (gr_cidr r) dst &&
             (bool_decide (gr_tags r = []) || bool_decide (src_vip ∈ gr_allowed_vips r))) routes.

(** ** The gateway's SIIT client pool *)
Record SiitState := {
  my_site : option Z;
  next : Z;
  by_client : gmap Ipv6Addr Ipv4Addr;
  by_pool : gmap Ipv4Addr Ipv6Addr;
}.
Definition siit_default : SiitState :=
  {| my_site := None; next := 0; by_client := ∅; by_pool := ∅ |}.

(** The [for _ in 0..0xffff] probe loop; [self.next] persists when it fails. *)
Fixpoint map_client_probe (fuel : nat) (st : SiitState) (client : Ipv6Addr) :
    SiitState * option Ipv4Addr :=
  match fuel with
  | O => (st, None)
  | S f =>
      let n := u32 (next st + 1) .& 65535 in
      let st := {| my_site := my_site st; next := n; by_client := by_client st; by_pool := by_pool st |} in
      if n =? 0 then map_client_probe f st client
      else
        let cand := v4_of_u32 (u32_of_v4 SIIT_POOL_BASE + n) in
        match by_pool st !! cand with
        | Some _ => map_client_probe f st client
        | None => ({| my_site := my_site st; next := n;
                      by_client := <[client := cand]> (by_client st);
                      by_pool := <[cand := client]> (by_pool st) |}, Some cand)
        end
  end.
Definition map_client (st : SiitState) (client : Ipv6Addr) : SiitState * option Ipv4Addr :=
  match by_client st !! client with
  | Some v4 => (st, Some v4)
  | None => map_client_probe (Z.to_nat 65535) st client
  end.
Definition client_for_pool (st : SiitState) (pooled : Ipv4Addr) : option Ipv6Addr :=
  by_pool st !! pooled.

Example cidr_ex : parse_cidr_v4 "192.168.1.77/24" = Some (V4 192 168 1 0, 24).
Proof. reflexivity. Qed.

(** ** 4via6 round trips *)

(** The 4via6 codec is a bijection between (site, IPv4) pairs and the
    addresses under hop's prefix: decoding an encoded pair gives it back, and
    any address that decodes is the encoding of what it decodes to. *)
Theorem via6_roundtrip :
  (forall site ip, is_u32 site -> wf4 ip -> via6_decode (via6_encode site ip) = Some (site, ip)) /\
  (forall a site ip, wf6 a -> via6_decode a = Some (site, ip) ->
     is_u32 site /\ wf4 ip /\ via6_encode site ip = a).
Proof.
  split.
  - intros site [a b c d] Hs Hip. unfold via6_decode.
    replace (octets6 (via6_encode site (V4 a b c d)))
      with (VIA6_PREFIX ++ to_be32 site ++ [a; b; c; d]) by reflexivity.
    rewrite bool_decide_true by done. cbn. by rewrite from_to_be32.
  - intros [o] site ip [Hl Hb]. unfold via6_decode. cbn [octets6] in *.
    case_bool_decide as Hp; [|done]. intros [= <- <-].
    do 16 (destruct o as [|? o]; [done|]). destruct o; [|done].
    unfold is_bytes in Hb. rewrite !Forall_cons in Hb. destruct_and!. cbn in Hp |- *.
    split; [|split; [by apply wf4_V4|]].
    + rewrite from_be32_eq by done. zbytes.
    + injection Hp as -> -> -> -> -> -> -> ->. unfold via6_encode. rewrite to_from_be32 by done. done.
Qed.

Lemma via6_roundtrip_witness :
  via6_decode (via6_encode 7 (V4 192 168 1 50)) = Some (7, V4 192 168 1 50) /\
  via6_encode 7 (V4 192 168 1 50) = V6 [253;104;111;112;118;105;97;54;0;0;0;7;192;168;1;50].
Proof.
  destruct via6_roundtrip as [H1 H2]. split.
  - apply H1; apply (bool_decide_unpack _); vm_compute; exact I.
  - eapply (H2 (V6 [253;104;111;112;118;105;97;54;0;0;0;7;192;168;1;50]));
      [apply (bool_decide_unpack _); vm_compute; exact I|vm_compute; reflexivity].
Defined.

Lemma string_app_assoc (a b c : string) : (a +:+ b) +:+ c = a +:+ (b +:+ c).
Proof. induction a as [|x a IH]; [done|]. exact (f_equal (String x) IH). Qed.

Lemma via_tail_split site : rsplit_once "-via-" ("-via-" +:+ print_uint site) = Some (""%string, print_uint site).
Proof.
  assert (no_char "-" (print_uint site) = true) as Hn
    by (apply all_digits_no_char; [done|apply print_uint_digits]).
  pose proof (rsplit_once_no_char "-" "via-" _ Hn) as Hr.
  pose proof (print_uint_digits site) as Hd.
  change ("-via-" +:+ print_uint site)
    with (String "-" (String "v" (String "i" (String "a" (String "-" (print_uint site)))))).
  cbn [rsplit_once]. rewrite Hr.
  destruct (print_uint site) as [|c s]; [done|].
  simpl in Hd. apply andb_true_iff in Hd as [[d Hc]%bool_decide_eq_true _].
  rewrite !starts_with_cons, starts_with_nil.
  destruct (Ascii.eqb_spec "v" c) as [<-|]; [by vm_compute in Hc|]. done.
Qed.

(** MagicDNS via-names round-trip: the name printed for a device parses
    back to its site and address. *)
Theorem via_name_roundtrip site ip : is_u32 site -> wf4 ip ->
  parse_via_name (via_name site ip) = Some (site, ip).
Proof.
  destruct ip as [a b c d]. rewrite wf4_V4. unfold is_u8, is_u32. intros Hs (Ha & Hb & Hc & Hd).
  unfold parse_via_name, via_name.
  assert (forall n, no_char "-" (print_uint n) = true) as Hn
    by (intros; apply all_digits_no_char; [done|apply print_uint_digits]).
  assert (forall n, 0 <= n < 2 ^ 8 -> parse_u8 (print_uint n) = Some n) as Hp
    by (intros; apply parse_print_uint; lia).
  set (ip := print_uint a +:+ "-" +:+ print_uint b +:+ "-" +:+ print_uint c +:+ "-" +:+ print_uint d).
  replace (print_uint a +:+ "-" +:+ print_uint b +:+ "-" +:+ print_uint c +:+ "-" +:+ print_uint d
    +:+ "-via-" +:+ print_uint site) with (ip +:+ ("-via-" +:+ print_uint site))
    by (subst ip; by rewrite !string_app_assoc).
  rewrite (rsplit_once_app _ _ _ _ _ (via_tail_split site)). cbn [mbind option_bind].
  assert (ip +:+ "" = ip) as ->.
  { clear. induction ip as [|x s IH]; [done|]. exact (f_equal (String x) IH). }
  unfold parse_u32. rewrite parse_print_uint by lia. cbn [mbind option_bind].
  assert (split_char "-" ip = [print_uint a; print_uint b; print_uint c; print_uint d]) as ->.
  { subst ip. by rewrite !(split_char_sep "-"), split_char_no_char by apply Hn. }
  by rewrite !Hp by done.
Qed.

Lemma via_name_roundtrip_witness :
  parse_via_name (via_name 4294967295 (V4 10 0 0 255)) = Some (4294967295, V4 10 0 0 255).
Proof.
  apply (via_name_roundtrip 4294967295 (V4 10 0 0 255)); apply (bool_decide_unpack _); vm_compute; exact I.
Defined.

(** ** CIDR matching *)
Lemma cidr_mask_spec len x : 0 <= len <= 32 -> is_u32 x ->
  x .& cidr_mask len = x / 2 ^ (32 - len) * 2 ^ (32 - len).
Proof.
  intros Hlen Hx. unfold cidr_mask. destruct (Z.eqb_spec len 0) as [->|].
  { rewrite Z.land_0_r. unfold is_u32 in Hx. change (2 ^ (32 - 0)) with (2 ^ 32).
    rewrite Z.div_small by lia. done. }
  rewrite <-Z.shiftr_div_pow2, <-Z.shiftl_mul_pow2 by lia.
  apply Z.bits_inj'. intros i Hi. rewrite Z.land_spec. unfold u32.
  destruct (decide (i < 32)).
  - rewrite Z.mod_pow2_bits_low by lia. rewrite !Z.shiftl_spec by lia.
    destruct (decide (i < 32 - len)).
    + rewrite (Z.testbit_neg_r (2 ^ 32 - 1)), (Z.testbit_neg_r (x .>> (32 - len))) by lia.
      apply andb_false_r.
    + rewrite Z.shiftr_spec by lia.
      replace (2 ^ 32 - 1) with (Z.ones 32) by done. rewrite Z.ones_spec_low by lia.
      rewrite andb_true_r. f_equal. lia.
  - rewrite Z.mod_pow2_bits_high by lia. rewrite andb_false_r.
    symmetry. rewrite Z.shiftl_spec, Z.shiftr_spec by lia.
    replace (i - (32 - len) + (32 - len)) with i by lia.
    rewrite <-(Z.mod_small x (2 ^ 32)) by done. apply Z.mod_pow2_bits_high. lia.
Qed.

Lemma digits_value_bound max acc s v : 0 <= acc <= max -> digits_value max acc s = Some v -> 0 <= v <= max.
Proof.
  revert acc. induction s as [|c s IH]; intros acc Ha; simpl; [by intros [= <-]|].
  destruct (digit_of c) as [d|] eqn:Ed; [|done].
  destruct (Z.leb_spec (acc * 10 + d) max); [|done]. apply IH.
  unfold digit_of in Ed. case_match; simplify_eq.
  apply andb_true_iff in H0 as [?%Z.leb_le _]. lia.
Qed.

Lemma parse_uint_bound max s v : 0 <= max -> parse_uint max s = Some v -> 0 <= v <= max.
Proof.
  intros Hm. unfold parse_uint. destruct s as [|c s]; [done|].
  destruct (Ascii.eqb c "+"); [destruct s; [done|]|]; apply digits_value_bound; lia.
Qed.

Lemma parse_octet_bound s v : parse_octet s = Some v -> is_u8 v.
Proof.
  unfold parse_octet. destruct s as [|c s]; [done|]. repeat (case_match; [done|]).
  intros ?%digits_value_bound; unfold is_u8; lia.
Qed.

Lemma parse_ipv4_wf s ip : parse_ipv4 s = Some ip -> wf4 ip.
Proof.
  unfold parse_ipv4. repeat (case_match; try done).
  intros (a & Ha & (b & Hb & (c & Hc & (d & Hd & [= <-])%bind_Some)%bind_Some)%bind_Some)%bind_Some.
  apply wf4_V4. split_and!; eauto using parse_octet_bound.
Qed.

Lemma parse_cidr_inv s net len : parse_cidr_v4 s = Some (net, len) ->
  0 <= len <= 32 /\ exists ip, wf4 ip /\
    u32_of_v4 net = u32_of_v4 ip / 2 ^ (32 - len) * 2 ^ (32 - len) /\ wf4 net.
Proof.
  unfold parse_cidr_v4. intros ([i l] & _ & (ip & Hip & (n & Hn & H)%bind_Some)%bind_Some)%bind_Some.
  destruct (Z.ltb_spec 32 n); [done|]. injection H as <- <-.
  apply parse_uint_bound in Hn; [|lia]. apply parse_ipv4_wf in Hip.
  split; [lia|]. exists ip. split; [done|]. split; [|auto with wirehop].
  pose proof (is_u32_u32_of_v4 ip Hip) as Hu.
  rewrite cidr_mask_spec by (done || lia).
  apply u32_of_v4_of_u32. unfold is_u32 in *.
  pose proof (Z.mul_div_le (u32_of_v4 ip) (2 ^ (32 - n))).
  assert (0 < 2 ^ (32 - n)) by (apply Z.pow_pos_nonneg; lia).
  assert (0 <= u32_of_v4 ip / 2 ^ (32 - n)) by (apply Z.div_pos; lia). nia.
Qed.

(** A parsed CIDR has its host bits cleared, and contains exactly the
    addresses that share its leading [len] bits; a string that does not parse
    contains nothing. *)
Theorem cidr_contains_spec cidr ip : wf4 ip ->
  match parse_cidr_v4 cidr with
  | Some (net, len) =>
      0 <= len <= 32 /\ u32_of_v4 net mod 2 ^ (32 - len) = 0 /\
      (cidr_contains_v4 cidr ip = true <->
       u32_of_v4 ip / 2 ^ (32 - len) = u32_of_v4 net / 2 ^ (32 - len))
  | None => cidr_contains_v4 cidr ip = false
  end.
Proof.
  intros Hip. unfold cidr_contains_v4. destruct (parse_cidr_v4 cidr) as [[net len]|] eqn:E; [|done].
  apply parse_cidr_inv in E as (Hlen & ip0 & Hip0 & Hnet & _).
  assert (0 < 2 ^ (32 - len)) by (apply Z.pow_pos_nonneg; lia).
  split; [done|]. split; [rewrite Hnet; by apply Z_mod_mult|].
  rewrite Z.eqb_eq, cidr_mask_spec, Hnet by (done || auto with wirehop).
  rewrite Z.div_mul by lia. split; [|congruence]. intros. by apply Z.mul_cancel_r in H0; [|lia].
Qed.

Lemma cidr_contains_spec_witness :
  cidr_contains_v4 "10.1.0.0/16" (V4 10 1 200 3) = true.
Proof.
  pose proof (cidr_contains_spec "10.1.0.0/16" (V4 10 1 200 3)) as H.
  assert (parse_cidr_v4 "10.1.0.0/16" = Some (V4 10 1 0 0, 16)) as E by (vm_compute; reflexivity).
  rewrite E in H. apply H; [apply (bool_decide_unpack _); vm_compute; exact I|vm_compute; reflexivity].
Defined.

(** ** Longest-prefix selection *)
Definition match_len (cidr : string) (ip : Ipv4Addr) : option Z :=
  if cidr_contains_v4 cidr ip then snd <$> parse_cidr_v4 cidr else None.

Lemma match_len_None cidr ip : match_len cidr ip = None <-> cidr_contains_v4 cidr ip = false.
Proof.
  unfold match_len, cidr_contains_v4. destruct (parse_cidr_v4 cidr) as [[net len]|]; simpl; [|done].
  by case_match.
Qed.

Lemma lpm_step_match_len {T} ip (best : option (Z * T)) c v :
  lpm_step ip best (c, v) =
  match match_len c ip with
  | Some len => match best with
                | Some (blen, _) => if blen <? len then Some (len, v) else best
                | None => Some (len, v)
                end
  | None => best
  end.
Proof.
  unfold lpm_step, match_len, cidr_contains_v4.
  destruct (parse_cidr_v4 c) as [[net len]|]; simpl; [|done].
  destruct (_ =? _); simpl; [|done]. by destruct best as [[blen ?]|].
Qed.

(** What the loop has established after the routes seen so far. *)
Definition lpm_best {T} (routes : list (string * T)) (ip : Ipv4Addr) (best : option (Z * T)) : Prop :=
  match best with
  | None => forall j c v, routes !! j = Some (c, v) -> match_len c ip = None
  | Some (len, v) => exists i c, routes !! i = Some (c, v) /\ match_len c ip = Some len /\
      forall j c' v' len', routes !! j = Some (c', v') -> match_len c' ip = Some len' ->
        len' <= len /\ ((j < i)%nat -> len' < len)
  end.

Lemma lookup_snoc_inv {A} (l : list A) x j y :
  (l ++ [x]) !! j = Some y -> l !! j = Some y \/ (j = length l /\ y = x).
Proof.
  intros [H|[H1 H2]]%lookup_app_Some; [by left|right].
  apply list_lookup_singleton_Some in H2 as [? ?]. split; [lia|done].
Qed.

Lemma lpm_fold_best {T} (routes : list (string * T)) ip :
  lpm_best routes ip (foldl (lpm_step ip) None routes).
Proof.
  induction routes as [|[c v] routes IH] using rev_ind; [by intros j ?? ?|].
  rewrite foldl_app. cbn [foldl]. rewrite lpm_step_match_len.
  set (best := foldl (lpm_step ip) None routes) in *.
  assert (forall i x, routes !! i = Some x -> (routes ++ [(c, v)]) !! i = Some x) as Hl
    by (intros; by apply lookup_app_l_Some).
  destruct (match_len c ip) as [len|] eqn:Em; destruct best as [[blen bv]|]; simpl in IH |- *.
  - destruct IH as (i & c0 & Hi & Hm & Hmax).
    destruct (Z.ltb_spec blen len).
    + exists (length routes), c. split; [by rewrite list_lookup_middle|]. split; [done|].
      intros j c' v' len' [Hj|[-> [= -> ->]]]%lookup_snoc_inv Hm'.
      * destruct (Hmax _ _ _ _ Hj Hm'). lia.
      * replace len' with len by congruence. lia.
    + exists i, c0. split; [auto|]. split; [done|].
      intros j c' v' len' [Hj|[-> [= -> ->]]]%lookup_snoc_inv Hm'; [by eauto|].
      apply lookup_lt_Some in Hi. replace len' with len by congruence. lia.
  - exists (length routes), c. split; [by rewrite list_lookup_middle|]. split; [done|].
    intros j c' v' len' [Hj|[-> [= -> ->]]]%lookup_snoc_inv Hm'.
    + by rewrite (IH _ _ _ Hj) in Hm'.
    + replace len' with len by congruence. lia.
  - destruct IH as (i & c0 & Hi & Hm & Hmax). exists i, c0. split; [auto|]. split; [done|].
    intros j c' v' len' [Hj|[-> [= -> ->]]]%lookup_snoc_inv Hm'; [by eauto|congruence].
  - intros j c' v' [Hj|[-> [= -> ->]]]%lookup_snoc_inv; [by eauto|done].
Qed.

(** Route selection: the value returned belongs to a route that contains
    the address, no containing route is more specific, and of equally specific
    ones the first listed wins; [None] is returned only when no route contains
    the address. *)
Theorem longest_prefix_match_correct {T} (routes : list (string * T)) ip :
  match longest_prefix_match routes ip with
  | None => forall j c v, routes !! j = Some (c, v) -> cidr_contains_v4 c ip = false
  | Some v => exists i c len, routes !! i = Some (c, v) /\ match_len c ip = Some len /\
      forall j c' v' len', routes !! j = Some (c', v') -> match_len c' ip = Some len' ->
        len' <= len /\ ((j < i)%nat -> len' < len)
  end.
Proof.
  unfold longest_prefix_match. pose proof (lpm_fold_best routes ip) as H.
  destruct (foldl _ None routes) as [[len v]|]; simpl in *.
  - destruct H as (i & c & ?). eauto.
  - intros. apply match_len_None. eauto.
Qed.

(** ** The SIIT pool *)
Definition pool_addr (k : Z) : Ipv4Addr := v4_of_u32 (u32_of_v4 SIIT_POOL_BASE + k).

Lemma pool_addr_eq k : 0 <= k < 65536 -> pool_addr k = V4 100 127 (k / 256) (k mod 256).
Proof.
  intros Hk. unfold pool_addr, v4_of_u32.
  change (u32_of_v4 SIIT_POOL_BASE) with (100 * 2 ^ 24 + 127 * 2 ^ 16).
  rewrite !Z.shiftr_div_pow2 by lia. f_equal; zbytes.
Qed.

Lemma pool_addr_inj k k' : 0 <= k < 65536 -> 0 <= k' < 65536 -> pool_addr k = pool_addr k' -> k = k'.
Proof. intros ??. rewrite !pool_addr_eq by done. intros [= ??]. zbytes. Qed.

Definition taken (st : SiitState) (k : Z) : Prop := is_Some (by_pool st !! pool_addr k).

(** The pool's invariant: the two maps are inverse to each other, every pooled
    address is one of 100.127.0.1 .. 100.127.255.255, and the cursor rests on
    the last slot handed out. *)
Record siit_ok (st : SiitState) : Prop := {
  so_next : 0 <= next st < 65536;
  so_inverse : forall c p, by_client st !! c = Some p <-> by_pool st !! p = Some c;
  so_pool : forall p c, by_pool st !! p = Some c -> exists k, 1 <= k < 65536 /\ p = pool_addr k;
  so_cursor : next st <> 0 -> taken st (next st);
}.

Lemma siit_ok_default : siit_ok siit_default.
Proof. split; simpl; [lia|done|done|done]. Qed.

Definition cursor_at (st : SiitState) (n : Z) : SiitState :=
  {| my_site := my_site st; next := n; by_client := by_client st; by_pool := by_pool st |}.
Definition allocate (st : SiitState) (c : Ipv6Addr) (k : Z) : SiitState :=
  {| my_site := my_site st; next := k; by_client := <[c := pool_addr k]> (by_client st);
     by_pool := <[pool_addr k := c]> (by_pool st) |}.

Lemma next_slot n : 0 <= n < 65536 -> u32 (n + 1) .& 65535 = (n + 1) mod 65536.
Proof.
  intros. rewrite u32_small by (unfold is_u32; lia).
  change 65535 with (Z.ones 16). by rewrite Z.land_ones by lia.
Qed.

(** What the probe loop does: it takes the first free slot after the cursor,
    or, when it gives up, every slot it looked at was taken. *)
Lemma map_client_probe_spec fuel st c : 0 <= next st < 65536 ->
  let '(st', r) := map_client_probe fuel st c in
  match r with
  | Some p => exists k, 1 <= k < 65536 /\ p = pool_addr k /\ ~ taken st k /\ st' = allocate st c k
  | None => st' = cursor_at st ((next st + Z.of_nat fuel) mod 65536) /\
      forall j, 1 <= j <= Z.of_nat fuel ->
        (next st + j) mod 65536 = 0 \/ taken st ((next st + j) mod 65536)
  end.
Proof.
  revert st. induction fuel as [|f IH]; intros st Hn; cbn [map_client_probe].
  { split; [|lia]. rewrite Z.add_0_r, Z.mod_small by done. by destruct st. }
  rewrite next_slot by done. set (n := (next st + 1) mod 65536).
  assert (0 <= n < 65536) by (apply Z.mod_pos_bound; lia).
  fold (cursor_at st n). fold (pool_addr n).
  assert (Hskip : n = 0 \/ taken st n ->
    let '(st', r) := map_client_probe f (cursor_at st n) c in
    match r with
    | Some p => exists k, 1 <= k < 65536 /\ p = pool_addr k /\ ~ taken st k /\ st' = allocate st c k
    | None => st' = cursor_at st ((next st + Z.of_nat (S f)) mod 65536) /\
        forall j, 1 <= j <= Z.of_nat (S f) ->
          (next st + j) mod 65536 = 0 \/ taken st ((next st + j) mod 65536)
    end).
  { intros Hdone. specialize (IH (cursor_at st n)). cbn [next cursor_at] in IH.
    destruct (map_client_probe f (cursor_at st n) c) as [st' [p|]];
      [by apply IH|destruct IH as [-> Hall]; [done|]].
    assert (forall j, (n + j) mod 65536 = (next st + (j + 1)) mod 65536) as Hj.
    { intros j. unfold n. rewrite Z.add_mod_idemp_l by lia. f_equal. lia. }
    split; [unfold cursor_at; cbn [next]; f_equal; rewrite Hj; f_equal; lia|].
    intros j Hjr. destruct (decide (j = 1)) as [->|]; [done|].
    replace j with (j - 1 + 1) by lia. rewrite <-Hj. apply Hall. lia. }
  destruct (Z.eqb_spec n 0) as [->|Hne]; [by apply Hskip; left|].
  cbn [by_pool cursor_at]. destruct (by_pool st !! pool_addr n) as [c'|] eqn:E.
  - apply Hskip. right. unfold taken. by rewrite E.
  - exists n. split; [lia|]. split; [done|]. unfold taken. rewrite E. split; [by intros [??]|done].
Qed.

Lemma siit_ok_allocate st c k : siit_ok st -> 1 <= k < 65536 -> ~ taken st k ->
  by_client st !! c = None -> siit_ok (allocate st c k).
Proof.
  intros [Hn Hinv Hpool Hcur] Hk Hfree Hc. unfold taken in Hfree. rewrite <-eq_None_not_Some in Hfree.
  split; cbn [next by_client by_pool allocate].
  - lia.
  - intros c' p'. rewrite !lookup_insert_Some. split.
    + intros [[-> <-]|[Hne H]]; [by left|]. right. split; [|by apply Hinv].
      intros <-. apply Hinv in H. congruence.
    + intros [[<- ->]|[Hne H]]; [by left|]. right. split; [|by apply Hinv].
      intros <-. apply Hinv in H. congruence.
  - intros p c' [[<- _]|[_ H]]%lookup_insert_Some; eauto.
  - intros _. unfold taken. cbn. rewrite lookup_insert_eq. eauto.
Qed.

Lemma pool_addr_in_pool k : 1 <= k < 65536 -> is_siit_pool_addr (pool_addr k) = true.
Proof. intros. by rewrite pool_addr_eq by lia. Qed.

Lemma map_client_ok st c : siit_ok st -> siit_ok (fst (map_client st c)).
Proof.
  intros Hok. unfold map_client. destruct (by_client st !! c) eqn:Ec; [done|].
  pose proof (map_client_probe_spec (Z.to_nat 65535) st c (so_next _ Hok)) as H.
  rewrite Z2Nat.id in H by lia.
  destruct (map_client_probe _ st c) as [st' [p|]].
  - destruct H as (k & Hk & -> & Hfree & ->). by apply siit_ok_allocate.
  - destruct H as [-> Hall]. destruct Hok as [Hn Hinv Hpool Hcur].
    split; cbn [fst next by_client by_pool cursor_at]; try done; [apply Z.mod_pos_bound; lia|].
    intros H0. destruct (Hall 65535) as [E|E]; [lia|by rewrite E in H0|exact E].
Qed.

(** The client pool: [map_client] keeps the two maps inverse to each other
    and inside 100.127.0.0/16, answers the same address for a client it knows,
    never disturbs another client's mapping, and a reply to the address it
    returned is attributed to that client. *)
Theorem map_client_correct st c : siit_ok st ->
  let '(st', r) := map_client st c in
  siit_ok st' /\
  (forall p, r = Some p -> is_siit_pool_addr p = true /\ by_client st' !! c = Some p /\
     client_for_pool st' p = Some c) /\
  (forall p, by_client st !! c = Some p -> r = Some p /\ st' = st) /\
  (forall c' p', c' <> c -> by_client st' !! c' = Some p' <-> by_client st !! c' = Some p').
Proof.
  intros Hok. pose proof (map_client_ok st c Hok) as Hok'. unfold map_client, client_for_pool in *.
  destruct (by_client st !! c) as [p|] eqn:Ec.
  { split; [done|]. split; [|by split; [intros ? [= ->]|]]. intros ? [= <-].
    apply (so_inverse _ Hok) in Ec as Hp. destruct (so_pool _ Hok _ _ Hp) as (k & Hk & ->).
    by split; [apply pool_addr_in_pool|]. }
  pose proof (map_client_probe_spec (Z.to_nat 65535) st c (so_next _ Hok)) as H.
  destruct (map_client_probe _ st c) as [st' [p|]]; split; try exact Hok'.
  - destruct H as (k & Hk & -> & Hfree & ->). split; [|split; [done|]].
    + intros ? [= <-]. split; [by apply pool_addr_in_pool|]. cbn. by rewrite !lookup_insert_eq.
    + intros c' p' Hne. cbn. by rewrite lookup_insert_ne.
  - destruct H as [-> _]. by split; [|split].
Qed.

(** A state with one client, and the state just before the last slot. *)
Definition demo_client (n : Z) : Ipv6Addr := client_v6 (V4 100 64 0 n).
Definition demo_siit : SiitState := fst (map_client siit_default (demo_client 1)).

Lemma map_client_correct_witness :
  siit_ok (fst (map_client siit_default (demo_client 1))) /\
  client_for_pool (fst (map_client siit_default (demo_client 1))) (V4 100 127 0 1) = Some (demo_client 1).
Proof.
  pose proof (map_client_correct siit_default (demo_client 1) siit_ok_default) as H.
  destruct (map_client siit_default (demo_client 1)) as [st' r] eqn:E.
  destruct H as (H1 & H2 & _). split; [exact H1|].
  apply (H2 (V4 100 127 0 1)).
  assert (snd (map_client siit_default (demo_client 1)) = Some (V4 100 127 0 1)) as H by (vm_compute; reflexivity).
  rewrite E in H. exact H.
Defined.

(** Exhaustion: in any reachable state a new client is refused only when
    all 65535 addresses 100.127.0.1 .. 100.127.255.255 are in use. *)
Theorem map_client_exhausted st c : siit_ok st ->
  snd (map_client st c) = None <->
  by_client st !! c = None /\ forall k, 1 <= k < 65536 -> taken st k.
Proof.
  intros Hok. pose proof (so_next _ Hok) as Hn. unfold map_client.
  destruct (by_client st !! c) as [p|]; [by split; [|intros [? _]]|].
  pose proof (map_client_probe_spec (Z.to_nat 65535) st c Hn) as H.
  rewrite Z2Nat.id in H by lia.
  destruct (map_client_probe _ st c) as [st' [p|]]; simpl.
  - destruct H as (k & Hk & _ & Hfree & _). split; [done|]. intros [_ Hall]. by destruct Hfree; apply Hall.
  - destruct H as [_ Hall]. split; [|done]. intros _. split; [done|]. intros k Hk.
    destruct (decide (k = next st)) as [->|Hne]; [apply (so_cursor _ Hok); lia|].
    assert (exists j, 1 <= j <= 65535 /\ (next st + j) mod 65536 = k) as (j & Hj & Hjk).
    { exists ((k - next st) mod 65536). split; [zbytes|].
      rewrite Z.add_mod_idemp_r by lia. replace (next st + (k - next st)) with k by lia.
      apply Z.mod_small; lia. }
    destruct (Hall j) as [E|E]; [lia|lia|]. by rewrite Hjk in E.
Qed.

Lemma map_client_exhausted_witness :
  ~ (by_client siit_default !! demo_client 1 = None /\ forall k, 1 <= k < 65536 -> taken siit_default k).
Proof.
  intros H. apply (map_client_exhausted siit_default (demo_client 1) siit_ok_default) in H.
  assert (snd (map_client siit_default (demo_client 1)) = Some (V4 100 127 0 1)) as E by (vm_compute; reflexivity).
  congruence.
Defined.

(** The last address of the pool's range is handed out like any other. *)
Example map_client_hands_out_last :
  snd (map_client (cursor_at siit_default 65534) (demo_client 2)) = Some (V4 100 127 255 255).
Proof. vm_compute. reflexivity. Qed.
