(* ===== verification/NetStats.v ===== *)
(** * NetStats: the data-plane counters (hop-core/src/netstats.rs)

    The process-global counters as a value: one 64-bit counter per scalar field
    of the struct, named by the field, and the two latency histograms.  An
    [AtomicU64::fetch_add] wraps modulo 2^64. *)
From S2P Require Import Prelude.
Local Open Scope Z_scope.

(** The scalar fields of [NetStats]. *)
Inductive counter :=
  | eg_tun_pkts | eg_tun_bytes | eg_drop_reach | eg_drop_noroute | eg_sent_ok
  | eg_drop_send_closed | eg_send_transient | eg_drop_send_timeout
  | eg_backpressure_waits | eg_backpressure_nanos
  | in_dg | in_bytes | in_keepalive | in_drop_via6 | in_drop_unknown_peer
  | in_drop_spoof | in_drop_dest | in_tun_written | in_tun_bytes | in_drop_tun.
#[export] Instance counter_eq_dec : EqDecision counter.
Proof. solve_decision. Defined.

Record NetStats := {
  count : counter -> Z;
  eg_lat : list Z;
  in_lat : list Z;
}.

Definition LAT_BUCKETS : Z := 32.
Definition net_stats_default : NetStats :=
  {| count := fun _ => 0; eg_lat := replicate 32 0; in_lat := replicate 32 0 |}.

Definition fetch_add (c : counter) (n : Z) (s : NetStats) : NetStats :=
  {| count := fun c' => if decide (c' = c) then u64 (count s c + n) else count s c';
     eg_lat := eg_lat s; in_lat := in_lat s |}.

(** [64 - ns.leading_zeros()] is the bit length of [ns]; [d] in nanoseconds. *)
Definition bucket_of (d : Z) : Z :=
  let ns := Z.max (u64 d) 1 in
  let bits := Z.log2 ns + 1 in
  Z.min bits (LAT_BUCKETS - 1).

(** [self.in_lat[bucket_of(d)].fetch_add(1)]. *)
Definition bump_bucket {E} (h : list Z) (d : Z) : rust E (list Z) :=
  let i := Z.to_nat (bucket_of d) in
  v ← idx h i;
  Ok (<[i := u64 (v + 1)]> h).
Definition record_egress_latency {E} (d : Z) (s : NetStats) : rust E NetStats :=
  h ← bump_bucket (eg_lat s) d;
  Ok {| count := count s; eg_lat := h; in_lat := in_lat s |}.
Definition record_ingress_latency {E} (d : Z) (s : NetStats) : rust E NetStats :=
  h ← bump_bucket (in_lat s) d;
  Ok {| count := count s; eg_lat := eg_lat s; in_lat := h |}.

(** [Duration::from_nanos(1u64 << i.min(LAT_BUCKETS - 1))], in nanoseconds. *)
Definition lat_bucket_upper (i : Z) : Z := 1 .<< Z.min i (LAT_BUCKETS - 1).

(** Both histograms have their 32 buckets. *)
Definition stats_ok (s : NetStats) : Prop := length (eg_lat s) = 32%nat /\ length (in_lat s) = 32%nat.

Lemma count_fetch_add c n s c' :
  count (fetch_add c n s) c' = if decide (c' = c) then u64 (count s c + n) else count s c'.
Proof. done. Qed.

Lemma fetch_add_ok c n s : stats_ok s -> stats_ok (fetch_add c n s).
Proof. done. Qed.

Lemma bucket_of_range d : 1 <= bucket_of d < 32.
Proof.
  unfold bucket_of, LAT_BUCKETS. pose proof (Z.log2_nonneg (Z.max (u64 d) 1)). lia.
Qed.

Lemma bump_bucket_ok {E} h d : length h = 32%nat ->
  exists v, h !! Z.to_nat (bucket_of d) = Some v /\
    @bump_bucket E h d = Ok (<[Z.to_nat (bucket_of d) := u64 (v + 1)]> h).
Proof.
  intros Hl. pose proof (bucket_of_range d).
  destruct (lookup_lt_is_Some_2 h (Z.to_nat (bucket_of d))) as [v Hv]; [lia|].
  exists v. split; [done|]. unfold bump_bucket, idx. by rewrite Hv.
Qed.

Lemma record_egress_ok {E} d s : stats_ok s -> exists s', record_egress_latency (E := E) d s = Ok s'.
Proof. intros [He _]. unfold record_egress_latency. destruct (bump_bucket_ok (E := E) _ d He) as (v & _ & ->). by eexists. Qed.
Lemma record_ingress_ok {E} d s : stats_ok s -> exists s', record_ingress_latency (E := E) d s = Ok s' /\
  stats_ok s' /\ count s' = count s.
Proof.
  intros [He Hi]. unfold record_ingress_latency. destruct (bump_bucket_ok (E := E) _ d Hi) as (v & _ & ->).
  eexists. split; [done|]. split; [|done]. split; [done|]. cbn. by rewrite length_insert.
Qed.

(** The latency histogram: a bucket index is always inside the array, and
    a sample counted below the top bucket lies in the half-open interval the
    renderer labels it with, [upper(i-1) <= ns < upper(i)]. *)
Theorem bucket_of_correct d : 0 <= d < 2 ^ 64 ->
  0 <= bucket_of d < LAT_BUCKETS /\
  (bucket_of d < LAT_BUCKETS - 1 ->
     lat_bucket_upper (bucket_of d - 1) <= Z.max d 1 < lat_bucket_upper (bucket_of d)) /\
  (bucket_of d = LAT_BUCKETS - 1 -> lat_bucket_upper (bucket_of d - 1) <= Z.max d 1).
Proof.
  intros Hd. pose proof (bucket_of_range d) as Hr. split; [unfold LAT_BUCKETS; lia|].
  unfold bucket_of, lat_bucket_upper in *. unfold u64 in *. rewrite Z.mod_small in * by done.
  set (n := Z.max d 1) in *. assert (0 < n) as Hn by lia.
  pose proof (Z.log2_spec n Hn) as [Hlo Hhi]. pose proof (Z.log2_nonneg n). unfold LAT_BUCKETS in *.
  rewrite !Z.shiftl_mul_pow2, !Z.mul_1_l by lia.
  split; intros Hb.
  - rewrite (Z.min_l (Z.log2 n + 1)) in * by lia.
    rewrite (Z.min_l (Z.log2 n + 1)), Z.min_l by lia.
    replace (Z.log2 n + 1 - 1) with (Z.log2 n) by lia. lia.
  - rewrite Hb. change (Z.min (32 - 1 - 1) (32 - 1)) with 30.
    transitivity (2 ^ Z.log2 n); [apply Z.pow_le_mono_r; lia|lia].
Qed.

Lemma bucket_of_correct_witness : lat_bucket_upper 12 <= 5000 < lat_bucket_upper 13.
Proof.
  apply (bucket_of_correct 5000); [lia|vm_compute; reflexivity].
Defined.
