(* ===== verification/Ingress.v ===== *)
(** * Ingress: the VPN receive path (hop-core/src/vpn/mod.rs, [pump_vpn_datagrams]
    and [VpnInbound::accept])

    [pump_datagram] is one iteration of the pump loop, with every effect it has:
    the liveness maps, the counters, the client pool, the refresh notifier and
    the packets written to the TUN device.  What other tasks may change between
    two datagrams (the device slot, the peer table, this host's address, the
    gateway routes) is read afresh from an environment per datagram, as the
    code reads its locks per datagram. *)
From S2P Require Import Prelude Addr Text Siit Vpn NetStats.
Local Open Scope Z_scope.

(** The shared slots the pump only reads.  The device is its [send]: whether
    writing a packet succeeds. *)
Record VpnShared := {
  tun : option (bytes -> bool);
  peer_ips : gmap string Ipv4Addr;
  local_ip : option Ipv4Addr;
  gateway_cidrs : list GatewayRouteEntry;
}.

(** One datagram off the connection: the environment it meets, the clock when it
    arrives (nanoseconds), the time its handling takes, and the test-only fault. *)
Record Datagram := {
  dg_env : VpnShared;
  dg_now : Z;
  dg_elapsed : Z;
  dg_wedged : bool;
  dg_data : bytes;
}.

(** What the pump changes; [refresh] is the notifier's stored permit and
    [tun_out] the packets the device accepted, in order. *)
Record Pump := {
  last_rx : gmap string Z;
  last_datagram : gmap string Z;
  refresh : bool;
  siit : SiitState;
  stats : NetStats;
  tun_out : list bytes;
}.

Definition set_stats (f : NetStats -> NetStats) (s : Pump) : Pump :=
  {| last_rx := last_rx s; last_datagram := last_datagram s; refresh := refresh s;
     siit := siit s; stats := f (stats s); tun_out := tun_out s |}.
Definition set_siit (t : SiitState) (s : Pump) : Pump :=
  {| last_rx := last_rx s; last_datagram := last_datagram s; refresh := refresh s;
     siit := t; stats := stats s; tun_out := tun_out s |}.
Definition notify_refresh (s : Pump) : Pump :=
  {| last_rx := last_rx s; last_datagram := last_datagram s; refresh := true;
     siit := siit s; stats := stats s; tun_out := tun_out s |}.
Definition bump (c : counter) (s : Pump) : Pump := set_stats (fetch_add c 1) s.

Definition note_datagram (remote : string) (now : Z) (s : Pump) : Pump :=
  let stale := match last_datagram s !! remote with
               | None => true
               | Some t => 10 ^ 9 <=? sat_sub now t
               end in
  if stale then
    {| last_rx := last_rx s; last_datagram := <[remote := now]> (last_datagram s);
       refresh := refresh s; siit := siit s; stats := stats s; tun_out := tun_out s |}
  else s.
Definition touch_last_rx (remote : string) (now : Z) (s : Pump) : Pump :=
  {| last_rx := <[remote := now]> (last_rx s); last_datagram := last_datagram s;
     refresh := refresh s; siit := siit s; stats := stats s; tun_out := tun_out s |}.

(** [if let Some(tun) = tun.read().await.clone() { match tun.send(pkt).await .. }]. *)
Definition tun_send (d : Datagram) (pkt : bytes) (s : Pump) : rust Empty_set Pump :=
  match tun (dg_env d) with
  | None => Ok s
  | Some send =>
      if send pkt then
        let s := {| last_rx := last_rx s; last_datagram := last_datagram s; refresh := refresh s;
                    siit := siit s; stats := stats s; tun_out := tun_out s ++ [pkt] |} in
        let s := bump in_tun_written s in
        let s := set_stats (fetch_add in_tun_bytes (Z.of_nat (length pkt))) s in
        st ← record_ingress_latency (dg_elapsed d) (stats s);
        Ok (set_stats (fun _ => st) s)
      else Ok (bump in_drop_tun s)
  end.

(** An [Option]-returning call whose result is matched, not propagated. *)
Definition call_opt {E A} (r : ropt A) : rust E (option A) :=
  match r with Ok a => Ok (Some a) | Err _ => Ok None | Panic => Panic end.

(** The 4via6 gateway path, for a datagram whose destination is our own site. *)
Definition via6_gateway (d : Datagram) (src_v6 : Ipv6Addr) (real_v4 : Ipv4Addr) (s : Pump) :
    rust Empty_set Pump :=
  if negb (is_client_v6 src_v6) then Ok (bump in_drop_via6 s) else
  let o := octets6 src_v6 in
  let client_vip := V4 (o !!! 12%nat) (o !!! 13%nat) (o !!! 14%nat) (o !!! 15%nat) in
  if negb (gateway_forwards (gateway_cidrs (dg_env d)) client_vip real_v4)
  then Ok (bump in_drop_via6 s) else
  match map_client (siit s) src_v6 with
  | (t, None) => Ok (bump in_drop_via6 (set_siit t s))
  | (t, Some pooled) =>
      let s := set_siit t s in
      v4pkt ← call_opt (translate_v6_to_v4 (dg_data d) pooled real_v4);
      match v4pkt with
      | Some pkt => tun_send d pkt s
      | None => Ok s
      end
  end.

Definition ingress_v6 (d : Datagram) (s : Pump) : rust Empty_set Pump :=
  let dg := dg_data d in
  if (length dg <? 40)%nat then Ok s else
  dst ← slice dg 24 40;
  src ← slice dg 8 24;
  let dst_v6 := V6 dst in
  let client_path :=
    if bool_decide (client_v6 <$> local_ip (dg_env d) = Some dst_v6) then tun_send d dg s else Ok s in
  match via6_decode dst_v6 with
  | Some (site, real_v4) =>
      if bool_decide (my_site (siit s) = Some site) then via6_gateway d (V6 src) real_v4 s
      else client_path
  | None => client_path
  end.

Definition ingress_v4 (d : Datagram) (remote : string) (s : Pump) : rust Empty_set Pump :=
  let dg := dg_data d in
  match peer_ips (dg_env d) !! remote with
  | None => Ok (notify_refresh (bump in_drop_unknown_peer s))
  | Some expected =>
      src ← call_opt (parse_src_ipv4 dg);
      let pass := match src with
                  | Some src => bool_decide (src = expected) || negb (is_virtual_addr src)
                  | None => false
                  end in
      if negb pass then Ok (notify_refresh (bump in_drop_spoof s)) else
      match local_ip (dg_env d) with
      | Some local =>
          dst ← call_opt (parse_dest_ipv4 dg);
          let for_us := bool_decide (dst = Some local) in
          let for_gateway := match dst with
                             | Some d' => gateway_forwards (gateway_cidrs (dg_env d)) expected d'
                             | None => false
                             end in
          if negb for_us && negb for_gateway then Ok (bump in_drop_dest s)
          else tun_send d dg s
      | None => tun_send d dg s
      end
  end.

(** One iteration of the loop body. *)
Definition pump_datagram (remote : string) (d : Datagram) (s : Pump) : rust Empty_set Pump :=
  if dg_wedged d then Ok s else
  let s := touch_last_rx remote (dg_now d) s in
  let s := note_datagram remote (dg_now d) s in
  if bool_decide (dg_data d = VPN_KEEPALIVE) then Ok (bump in_keepalive s) else
  let s := bump in_dg s in
  let s := set_stats (fetch_add in_bytes (Z.of_nat (length (dg_data d)))) s in
  if (default 0 (head (dg_data d)) .>> 4) =? 6 then ingress_v6 d s
  else ingress_v4 d remote s.

(** The loop: it ends when the connection yields no more datagrams. *)
Fixpoint pump_vpn_datagrams (remote : string) (ds : list Datagram) (s : Pump) : rust Empty_set Pump :=
  match ds with
  | [] => Ok s
  | d :: ds => s ← pump_datagram remote d s; pump_vpn_datagrams remote ds s
  end.

(** ** What may reach the TUN

    The admission rule, stated over the packet parsers: a packet [pkt] may be
    written for datagram [d] from the authenticated node [remote] when the pool
    state is [t]. *)
Inductive admitted (d : Datagram) (remote : string) (t : SiitState) : bytes -> Prop :=
  | admit_member vip src :
      peer_ips (dg_env d) !! remote = Some vip ->
      parse_src_ipv4 (dg_data d) = Ok src ->
      src = vip \/ is_virtual_addr src = false ->
      (forall local, local_ip (dg_env d) = Some local -> exists dst,
         parse_dest_ipv4 (dg_data d) = Ok dst /\
         (dst = local \/ gateway_forwards (gateway_cidrs (dg_env d)) vip dst = true)) ->
      admitted d remote t (dg_data d)
  | admit_gateway dst src site real client pooled pkt :
      parse_dest_ipv6 (dg_data d) = Ok dst ->
      via6_decode dst = Some (site, real) ->
      my_site t = Some site ->
      take 16 (drop 8 (dg_data d)) = octets6 src ->
      is_client_v6 src = true ->
      drop 12 (octets6 src) = octets4 client ->
      gateway_forwards (gateway_cidrs (dg_env d)) client real = true ->
      snd (map_client t src) = Some pooled ->
      translate_v6_to_v4 (dg_data d) pooled real = Ok pkt ->
      admitted d remote t pkt
  | admit_reply vip :
      parse_dest_ipv6 (dg_data d) = Ok (client_v6 vip) ->
      local_ip (dg_env d) = Some vip ->
      admitted d remote t (dg_data d).

Definition pump_ok (s : Pump) : Prop := siit_ok (siit s) /\ stats_ok (stats s).

(** The outcome of offering a set [P] of admissible packets to the device. *)
Definition offered (d : Datagram) (P : bytes -> Prop) (s : Pump) (r : rust Empty_set Pump) : Prop :=
  exists s', r = Ok s' /\ pump_ok s' /\
    ((exists pkt send, P pkt /\ tun (dg_env d) = Some send /\ send pkt = true /\
        tun_out s' = tun_out s ++ [pkt]) \/
     (tun_out s' = tun_out s /\
        forall pkt send, P pkt -> tun (dg_env d) = Some send -> send pkt = false)).

Lemma offered_none d (P : bytes -> Prop) s s' : pump_ok s' -> tun_out s' = tun_out s ->
  (forall pkt, ~ P pkt) -> offered d P s (Ok s').
Proof. intros Hok Ht HP. exists s'. split; [done|]. split; [done|]. right. split; [done|]. by intros ??[]%HP. Qed.

Lemma tun_send_ok d pkt s : pump_ok s -> offered d (eq pkt) s (tun_send d pkt s).
Proof.
  intros [Hs Hst]. unfold tun_send, offered. destruct (tun (dg_env d)) as [send|].
  2: { exists s. split; [done|]. split; [done|]. by right. }
  destruct (send pkt) eqn:E.
  - set (s1 := set_stats _ _). destruct (record_ingress_ok (E := Empty_set) (dg_elapsed d) (stats s1) Hst)
      as (st & -> & Hst' & _). cbn [mbind rust_bind].
    eexists. split; [done|]. split; [done|]. left. by exists pkt, send.
  - eexists. split; [done|]. split; [done|]. right. split; [done|]. by intros ?? <- [= <-].
Qed.

Lemma offered_weaken d (P Q : bytes -> Prop) s0 s r : tun_out s = tun_out s0 ->
  (forall pkt, P pkt <-> Q pkt) -> offered d P s r -> offered d Q s0 r.
Proof.
  intros Ht HPQ (s' & -> & Hok & [(pkt & send & HP & Hrest)|[Hout Hno]]); exists s'; split; [done| |done|];
    (split; [done|]).
  - left. exists pkt, send. rewrite <-Ht, <-HPQ. done.
  - right. split; [congruence|]. intros pkt send ?%HPQ. eauto.
Qed.

Lemma via6_decode_client vip : via6_decode (client_v6 vip) = None.
Proof. destruct vip as [a b c d]. reflexivity. Qed.

Lemma head_idx (l : bytes) : l <> [] -> idx (E := unit) l 0 = Ok (default 0 (head l)).
Proof. by destruct l. Qed.

(** The version nibble of a datagram that parses. *)
Lemma parse_src_v4_version dg src : parse_src_ipv4 dg = Ok src -> default 0 (head dg) .>> 4 = 4.
Proof.
  unfold parse_src_ipv4. case_match eqn:El; [done|]. apply Nat.ltb_ge in El.
  rewrite head_idx by (by intros ->; simpl in El; lia). cbn [mbind rust_bind].
  case_match eqn:Ev; [done|]. apply negb_false_iff, Z.eqb_eq in Ev. done.
Qed.

Lemma parse_dest_ipv6_eq dg :
  parse_dest_ipv6 dg =
    if (40 <=? length dg)%nat && ((default 0 (head dg) .>> 4) =? 6)
    then Ok (V6 (take 16 (drop 24 dg))) else none.
Proof.
  unfold parse_dest_ipv6. destruct (Nat.ltb_spec (length dg) 40), (Nat.leb_spec 40 (length dg)); try lia.
  - done.
  - rewrite head_idx by (by intros ->; simpl in *; lia). cbn [mbind rust_bind andb].
    destruct (_ =? 6); [|done]. simpl negb. cbv iota. rewrite slice_Ok by lia. done.
Qed.

Lemma call_opt_ok {A} (r : ropt A) : r <> Panic ->
  @call_opt Empty_set A r = Ok (match r with Ok a => Some a | _ => None end).
Proof. by destruct r. Qed.

Lemma parse_v4_no_panic dg : parse_src_ipv4 dg <> Panic /\ parse_dest_ipv4 dg <> Panic.
Proof.
  unfold parse_src_ipv4, parse_dest_ipv4. destruct (Nat.ltb_spec (length dg) 20); [done|].
  rewrite head_idx by (by intros ->; simpl in *; lia). cbn [mbind rust_bind].
  destruct (negb _); [done|]. rewrite !idx_total by lia. done.
Qed.

(** The three admission routes, as they look to each half of the handler. *)
Lemma admitted_v4 d remote t pkt vip src :
  peer_ips (dg_env d) !! remote = Some vip ->
  parse_src_ipv4 (dg_data d) = Ok src ->
  admitted d remote t pkt <->
  dg_data d = pkt /\ (src = vip \/ is_virtual_addr src = false) /\
    forall local, local_ip (dg_env d) = Some local -> exists dst,
      parse_dest_ipv4 (dg_data d) = Ok dst /\
      (dst = local \/ gateway_forwards (gateway_cidrs (dg_env d)) vip dst = true).
Proof.
  intros Hv Hs. pose proof (parse_src_v4_version _ _ Hs) as H4.
  assert (forall a, parse_dest_ipv6 (dg_data d) <> Ok a) as H6.
  { intros a. rewrite parse_dest_ipv6_eq, H4. by rewrite andb_false_r. }
  split.
  - intros [vip' src' Hv' Hs' Ha Hd|? ? ? ? ? ? ? Hp|? Hp]; [|by destruct (H6 _ Hp)..].
    rewrite Hv in Hv'. rewrite Hs in Hs'. apply Ok_inj in Hs' as <-. injection Hv' as <-. done.
  - intros (<- & Ha & Hd). by eapply admit_member.
Qed.

Lemma ingress_v4_ok d remote s t : pump_ok s -> t = siit s ->
  default 0 (head (dg_data d)) .>> 4 <> 6 ->
  offered d (admitted d remote t) s (ingress_v4 d remote s).
Proof.
  intros Hok -> Hv. unfold ingress_v4.
  assert (forall a, parse_dest_ipv6 (dg_data d) <> Ok a) as H6.
  { intros a. rewrite parse_dest_ipv6_eq. destruct (Z.eqb_spec (default 0 (head (dg_data d)) .>> 4) 6); [done|].
    by rewrite andb_false_r. }
  destruct (peer_ips (dg_env d) !! remote) as [vip|] eqn:Ep.
  2: { apply offered_none; [done..|]. intros pkt []; [congruence|by eapply H6..]. }
  destruct (parse_v4_no_panic (dg_data d)) as [Hnp1 Hnp2].
  destruct (parse_src_ipv4 (dg_data d)) as [src| |] eqn:Es; [| |done]; cbn [call_opt mbind rust_bind].
  2: { apply offered_none; [done..|]. intros pkt []; [congruence|by eapply H6..]. }
  assert (bool_decide (src = vip) || negb (is_virtual_addr src) = true <->
    (src = vip \/ is_virtual_addr src = false)) as Hpass
    by (by rewrite orb_true_iff, bool_decide_eq_true, negb_true_iff).
  pose proof (fun pkt => admitted_v4 d remote (siit s) pkt vip src Ep Es) as Hadm.
  cbv beta iota zeta. destruct (bool_decide _ || _) eqn:Epass; cbn [negb].
  2: { apply offered_none; [done..|]. intros pkt. rewrite Hadm. intros (_ & H%Hpass & _). done. }
  destruct (local_ip (dg_env d)) as [local|] eqn:El.
  2: { eapply offered_weaken; [done| |by apply tun_send_ok]. intros pkt. rewrite Hadm.
       split; [intros <-|by intros [? _]]. split_and!; [done|by apply Hpass|done]. }
  rewrite call_opt_ok by done. cbn [mbind rust_bind]. cbv zeta.
  match goal with |- context[if ?b then _ else _] => assert (b = false <-> exists dst,
      parse_dest_ipv4 (dg_data d) = Ok dst /\
      (dst = local \/ gateway_forwards (gateway_cidrs (dg_env d)) vip dst = true)) as Hdst;
    [|destruct b eqn:Eb] end.
  - destruct (parse_dest_ipv4 (dg_data d)) as [dst| |]; cbn; [|split; [done|by intros (? & ? & _)]|done].
    rewrite andb_false_iff, !negb_false_iff, bool_decide_eq_true. clear. split.
    + intros H. exists dst. split; [done|]. destruct H as [[= ->]|?]; auto.
    + intros (? & <-%Ok_inj & [->|?]); auto.
  - apply offered_none; [done..|]. intros pkt. rewrite Hadm. intros (_ & _ & H).
    specialize (proj2 Hdst (H local eq_refl)). done.
  - eapply offered_weaken; [done| |by apply tun_send_ok]. intros pkt. rewrite Hadm.
    split; [intros <-|by intros [? _]]. split_and!; [done|by apply Hpass|].
    intros ? [= <-]. by apply Hdst.
Qed.

(** What the gateway branch may write for a request from [src] to [real]. *)
Definition gateway_packet (d : Datagram) (t : SiitState) (src : Ipv6Addr) (real : Ipv4Addr)
    (pkt : bytes) : Prop :=
  is_client_v6 src = true /\
  (exists client, drop 12 (octets6 src) = octets4 client /\
     gateway_forwards (gateway_cidrs (dg_env d)) client real = true) /\
  exists pooled, snd (map_client t src) = Some pooled /\
    translate_v6_to_v4 (dg_data d) pooled real = Ok pkt.

Lemma drop12_octets (o : bytes) client : length o = 16%nat -> drop 12 o = octets4 client ->
  client = V4 (o !!! 12%nat) (o !!! 13%nat) (o !!! 14%nat) (o !!! 15%nat).
Proof.
  intros Hl. do 16 (destruct o as [|? o]; [done|]). destruct o; [|done].
  destruct client. intros H. cbn in H |- *. by simplify_eq.
Qed.

Lemma octets_drop12 (o : bytes) : length o = 16%nat ->
  drop 12 o = octets4 (V4 (o !!! 12%nat) (o !!! 13%nat) (o !!! 14%nat) (o !!! 15%nat)).
Proof. intros Hl. do 16 (destruct o as [|? o]; [done|]). by destruct o. Qed.

Lemma via6_gateway_ok d src real s : pump_ok s -> length (octets6 src) = 16%nat ->
  offered d (gateway_packet d (siit s) src real) s (via6_gateway d src real s).
Proof.
  intros Hok Hl. unfold via6_gateway, gateway_packet.
  destruct (is_client_v6 src); cbn [negb]; [|by apply offered_none; [..|intros ? [? _]]].
  cbv zeta. set (vip := V4 _ _ _ _).
  destruct (gateway_forwards _ vip real) eqn:Ef; cbn [negb].
  2: { apply offered_none; [done..|]. intros pkt (_ & (client & ->%drop12_octets & Hf) & _); [|done].
       by subst vip; rewrite Hf in Ef. }
  pose proof (map_client_ok (siit s) src (proj1 Hok)) as Hm.
  destruct (map_client (siit s) src) as [t [pooled|]]; cbn [fst] in Hm.
  2: { apply offered_none; [by destruct Hok|done|]. by intros pkt (_ & _ & ? & [=] & _). }
  rewrite call_opt_ok by apply translate_v6_to_v4_no_panic. cbn [mbind rust_bind].
  assert (pump_ok (set_siit t s)) as Hok' by (by destruct Hok).
  destruct (translate_v6_to_v4 (dg_data d) pooled real) as [pkt| |] eqn:Et.
  - eapply offered_weaken; [|intros pkt'|by apply tun_send_ok]; [done|]. split.
    + intros <-. split_and!; [done|exists vip; split; [by apply octets_drop12|done]|by exists pooled].
    + intros (_ & _ & ? & [= <-] & H). rewrite Et in H. by apply Ok_inj in H.
  - apply offered_none; [done..|]. intros pkt (_ & _ & ? & [= <-] & H). by rewrite Et in H.
  - apply offered_none; [done..|]. intros pkt (_ & _ & ? & [= <-] & H). by rewrite Et in H.
Qed.

Lemma admitted_v6 d remote t pkt dst src : default 0 (head (dg_data d)) .>> 4 = 6 ->
  parse_dest_ipv6 (dg_data d) = Ok dst -> take 16 (drop 8 (dg_data d)) = octets6 src ->
  admitted d remote t pkt <->
  match via6_decode dst with
  | Some (site, real) => my_site t = Some site /\ gateway_packet d t src real pkt
  | None => client_v6 <$> local_ip (dg_env d) = Some dst /\ dg_data d = pkt
  end.
Proof.
  intros H6 Hd Hs. split.
  - intros [? ? _ H%parse_src_v4_version|dst' src' site real client pooled pkt' Hd' Hdec Hm Hs' Hc Hcl Hg Hp Ht
           |vip Hd' Hl].
    + congruence.
    + rewrite Hd in Hd'. apply Ok_inj in Hd' as <-. rewrite Hdec. split; [done|].
      assert (src' = src) as ->.
      { destruct src, src'. cbn in *. congruence. }
      split_and!; [done|by exists client|by exists pooled].
    + rewrite Hd in Hd'. apply Ok_inj in Hd'. rewrite Hl. subst dst. by rewrite via6_decode_client.
  - destruct (via6_decode dst) as [[site real]|] eqn:Ed.
    + intros (Hm & Hc & (client & Hcl & Hg) & pooled & Hp & Ht). by eapply admit_gateway.
    + intros [[vip [Hl ->]]%fmap_Some <-]. by eapply admit_reply.
Qed.

Lemma via6_decode_not_client dst site real lip : via6_decode dst = Some (site, real) ->
  client_v6 <$> lip <> Some dst.
Proof. intros H [vip [_ ->]]%fmap_Some. by rewrite via6_decode_client in H. Qed.

Lemma ingress_v6_ok d remote s : pump_ok s -> default 0 (head (dg_data d)) .>> 4 = 6 ->
  offered d (admitted d remote (siit s)) s (ingress_v6 d s).
Proof.
  intros Hok H6. unfold ingress_v6. destruct (Nat.ltb_spec (length (dg_data d)) 40) as [Hl|Hl].
  { apply offered_none; [done..|]. intros pkt [? ? _ H%parse_src_v4_version|? ? ? ? ? ? ? H|? H]; [congruence|..];
      rewrite parse_dest_ipv6_eq in H; destruct (Nat.leb_spec 40 (length (dg_data d))); done || lia. }
  rewrite !slice_Ok by lia. cbn [mbind rust_bind]. cbv zeta.
  change (40 - 24)%nat with 16%nat. change (24 - 8)%nat with 16%nat.
  set (dst := V6 (take 16 (drop 24 (dg_data d)))). set (src := V6 (take 16 (drop 8 (dg_data d)))).
  assert (parse_dest_ipv6 (dg_data d) = Ok dst) as Hd.
  { rewrite parse_dest_ipv6_eq, H6. destruct (Nat.leb_spec 40 (length (dg_data d))); [done|lia]. }
  pose proof (fun pkt => admitted_v6 d remote (siit s) pkt dst src H6 Hd eq_refl) as Hadm.
  destruct (via6_decode dst) as [[site real]|] eqn:Edec.
  - rewrite (bool_decide_false (client_v6 <$> _ = _)) by (by eapply via6_decode_not_client).
    case_bool_decide as Hm.
    + eapply offered_weaken; [done| |apply via6_gateway_ok; [done|]].
      * intros pkt. rewrite Hadm. naive_solver.
      * cbn. rewrite length_take, length_drop. lia.
    + apply offered_none; [done..|]. intros pkt. rewrite Hadm. naive_solver.
  - case_bool_decide as Hm.
    + eapply offered_weaken; [done| |by apply tun_send_ok]. intros pkt. rewrite Hadm. naive_solver.
    + apply offered_none; [done..|]. intros pkt. rewrite Hadm. naive_solver.
Qed.

Lemma note_datagram_frame remote now s :
  siit (note_datagram remote now s) = siit s /\ stats (note_datagram remote now s) = stats s /\
  tun_out (note_datagram remote now s) = tun_out s.
Proof. unfold note_datagram. by case_match. Qed.

Lemma keepalive_not_admitted d remote t pkt : dg_data d = VPN_KEEPALIVE -> ~ admitted d remote t pkt.
Proof. intros E []; rewrite E in *; done. Qed.

Lemma offered_frame d P s s0 r : tun_out s = tun_out s0 -> offered d P s r -> offered d P s0 r.
Proof. intros Ht. by apply offered_weaken. Qed.

Lemma pump_datagram_offered remote d s : pump_ok s -> dg_wedged d = false ->
  offered d (admitted d remote (siit s)) s (pump_datagram remote d s).
Proof.
  intros Hok Hw. unfold pump_datagram. rewrite Hw. cbv zeta.
  set (s1 := note_datagram remote (dg_now d) (touch_last_rx remote (dg_now d) s)).
  destruct (note_datagram_frame remote (dg_now d) (touch_last_rx remote (dg_now d) s)) as (Hs & Hst & Ht).
  fold s1 in Hs, Hst, Ht. assert (pump_ok s1) as Hok1 by (split; [rewrite Hs|rewrite Hst]; apply Hok).
  case_bool_decide as Hka.
  { by apply offered_none; [..|intros; apply keepalive_not_admitted]. }
  set (s2 := set_stats _ _). apply (offered_frame _ _ s2); [done|].
  replace (siit s) with (siit s2) by done.
  destruct (Z.eqb_spec (default 0 (head (dg_data d)) .>> 4) 6) as [H6|H6];
    [by apply ingress_v6_ok|by apply ingress_v4_ok].
Qed.

(** The rule for an IPv4 datagram: the connecting node is a registered peer; the packet's source is the address
    registered for it, or no address of the network at all (a device behind a gateway); and, once this host has an
    address, the destination is that address or a route this host is gateway of and grants that peer. *)
Definition v4_admitted (d : Datagram) (remote : string) : Prop :=
  exists vip src, peer_ips (dg_env d) !! remote = Some vip /\ parse_src_ipv4 (dg_data d) = Ok src /\
    (src = vip \/ is_virtual_addr src = false) /\
    forall local, local_ip (dg_env d) = Some local -> exists dst, parse_dest_ipv4 (dg_data d) = Ok dst /\
      (dst = local \/ gateway_forwards (gateway_cidrs (dg_env d)) vip dst = true).
Lemma admitted_not_v6 d remote t pkt : default 0 (head (dg_data d)) .>> 4 <> 6 ->
  admitted d remote t pkt <-> dg_data d = pkt /\ v4_admitted d remote.
Proof.
  intros Hv. assert (forall a, parse_dest_ipv6 (dg_data d) <> Ok a) as H6.
  { intros a. rewrite parse_dest_ipv6_eq. destruct (Z.eqb_spec (default 0 (head (dg_data d)) .>> 4) 6); [done|].
    by rewrite andb_false_r. }
  split; [intros [vip src ? ? ? ?|? ? ? ? ? ? ? Hp|? Hp]; [|by destruct (H6 _ Hp)..]|].
  - split; [done|]. by exists vip, src.
  - intros (<- & vip & src & ? & ? & ? & ?). by eapply admit_member.
Qed.


(** A gateway for 192.168.1.0/24 with one member registered. *)
Definition demo_route : GatewayRouteEntry :=
  {| gr_cidr := "192.168.1.0/24"; gr_tags := ["lan"]; gr_allowed_vips := {[V4 100 64 0 5]} |}.
Definition demo_env : VpnShared :=
  {| tun := Some (fun _ => true); peer_ips := {["alice" := V4 100 64 0 5]};
     local_ip := Some (V4 100 64 0 9); gateway_cidrs := [demo_route] |}.
Definition demo_v4 (src dst : Ipv4Addr) : bytes :=
  [69;0;0;20;0;0;64;0;64;17;0;0] ++ octets4 src ++ octets4 dst.
Definition demo_dg (dg : bytes) : Datagram :=
  {| dg_env := demo_env; dg_now := 0; dg_elapsed := 5000; dg_wedged := false; dg_data := dg |}.
Definition demo_pump : Pump :=
  {| last_rx := ∅; last_datagram := ∅; refresh := false;
     siit := {| my_site := Some 7; next := 0; by_client := ∅; by_pool := ∅ |};
     stats := net_stats_default; tun_out := [] |}.
Lemma demo_pump_ok : pump_ok demo_pump.
Proof. split; [split; simpl; [lia|done..]|done]. Qed.


(** The whole pump: over any sequence of datagrams on a connection it
    terminates without a panic, and every packet it wrote to the TUN was
    admitted by the rule for some datagram of that sequence (a wedged datagram
    admits nothing). *)
Theorem pump_writes_only_admitted remote ds s : pump_ok s ->
  exists s' pkts, pump_vpn_datagrams remote ds s = Ok s' /\ pump_ok s' /\
    tun_out s' = tun_out s ++ pkts /\
    Forall (fun pkt => exists d t, d ∈ ds /\ dg_wedged d = false /\ admitted d remote t pkt) pkts.
Proof.
  revert s. induction ds as [|d ds IH]; intros s Hok; cbn [pump_vpn_datagrams].
  { exists s, []. by rewrite app_nil_r. }
  assert (exists s1 pkts1, pump_datagram remote d s = Ok s1 /\ pump_ok s1 /\ tun_out s1 = tun_out s ++ pkts1 /\
    Forall (fun pkt => exists t, dg_wedged d = false /\ admitted d remote t pkt) pkts1)
    as (s1 & p1 & -> & Hok1 & Ho1 & HF1).
  { destruct (dg_wedged d) eqn:Ew.
    - exists s, []. unfold pump_datagram. by rewrite Ew, app_nil_r.
    - destruct (pump_datagram_offered remote d s Hok Ew) as (s1 & -> & Hok1 & [(pkt & _ & Ha & _ & _ & Ho)|[Ho _]]).
      + exists s1, [pkt]. split_and!; [done..|]. apply Forall_singleton. eauto.
      + exists s1, []. by rewrite app_nil_r. }
  cbn [mbind rust_bind]. destruct (IH s1 Hok1) as (s' & p2 & -> & Hok' & Ho2 & HF2).
  exists s', (p1 ++ p2). split_and!; [done..|by rewrite Ho2, Ho1, app_assoc|].
  apply Forall_app. split; [eapply Forall_impl; [exact HF1|]|eapply Forall_impl; [exact HF2|]].
  - intros pkt (t & ? & ?). exists d, t. by split; [left|].
  - intros pkt (d' & t & ? & ? & ?). exists d', t. by split; [right|].
Qed.

Lemma pump_writes_only_admitted_witness :
  exists s' pkts, pump_vpn_datagrams "alice" [demo_dg VPN_KEEPALIVE] demo_pump = Ok s' /\
    tun_out s' = [] ++ pkts.
Proof.
  destruct (pump_writes_only_admitted "alice" [demo_dg VPN_KEEPALIVE] demo_pump demo_pump_ok)
    as (s' & pkts & E & _ & Ho & _).
  exists s', pkts. split; [exact E|exact Ho].
Defined.

(** ** Every IPv4 datagram has one counted fate *)
Definition v4_fates (s : Pump) : Z :=
  count (stats s) in_tun_written + count (stats s) in_drop_unknown_peer +
  count (stats s) in_drop_spoof + count (stats s) in_drop_dest + count (stats s) in_drop_tun.
Definition fate_counters : list counter :=
  [in_tun_written; in_drop_unknown_peer; in_drop_spoof; in_drop_dest; in_drop_tun].
Definition counters_fit (s : Pump) : Prop :=
  forall c, c ∈ fate_counters -> 0 <= count (stats s) c < 2 ^ 64 - 1.

Lemma v4_fates_bump c s : counters_fit s -> c ∈ fate_counters ->
  v4_fates (bump c s) = v4_fates s + 1.
Proof.
  intros Hf Hc. pose proof (Hf c Hc).
  assert (u64 (count (stats s) c + 1) = count (stats s) c + 1) as E by (apply Z.mod_small; lia).
  unfold v4_fates, bump. cbn [stats set_stats]. rewrite !count_fetch_add, E.
  unfold fate_counters in Hc. rewrite !elem_of_cons, elem_of_nil in Hc.
  destruct Hc as [->|[->|[->|[->|[->|[]]]]]]; repeat case_decide; done || lia.
Qed.

Lemma v4_fates_tun_send d pkt s s' : counters_fit s -> pump_ok s -> tun (dg_env d) <> None ->
  tun_send d pkt s = Ok s' -> v4_fates s' = v4_fates s + 1.
Proof.
  intros Hf [_ Hst] Ht. unfold tun_send. destruct (tun (dg_env d)) as [send|]; [|done]. clear Ht.
  destruct (send pkt).
  - set (s0 := {| last_rx := _ |}). set (s2 := set_stats _ _).
    destruct (record_ingress_ok (E := Empty_set) (dg_elapsed d) (stats s2) Hst) as (st & -> & _ & Hc).
    cbn [mbind rust_bind]. intros <-%Ok_inj.
    change (v4_fates s) with (v4_fates s0). rewrite <-(v4_fates_bump in_tun_written s0) by (done || (unfold fate_counters; set_solver)).
    unfold v4_fates. cbn [stats set_stats]. rewrite Hc. done.
  - intros <-%Ok_inj. apply v4_fates_bump; [done|unfold fate_counters; set_solver].
Qed.

(** Conservation on the IPv4 path: with a device up, every IPv4 datagram
    that is not a heartbeat raises exactly one of the five outcome counters
    (written, unknown peer, spoofed, wrong destination, device error) by one. *)
Theorem ingress_v4_conservation remote d s s' : pump_ok s -> counters_fit s ->
  dg_wedged d = false -> tun (dg_env d) <> None -> dg_data d <> VPN_KEEPALIVE ->
  default 0 (head (dg_data d)) .>> 4 <> 6 ->
  pump_datagram remote d s = Ok s' -> v4_fates s' = v4_fates s + 1.
Proof.
  intros Hok Hf Hw Ht Hka Hv. unfold pump_datagram. rewrite Hw, bool_decide_false by done. cbv zeta.
  destruct (Z.eqb_spec (default 0 (head (dg_data d)) .>> 4) 6); [done|].
  set (s1 := note_datagram remote (dg_now d) _). set (s2 := set_stats _ _).
  destruct (note_datagram_frame remote (dg_now d) (touch_last_rx remote (dg_now d) s)) as (Hs & Hst & _).
  assert (pump_ok s2) as Hok2 by (split; cbn; fold s1 in Hs, Hst; [rewrite Hs|rewrite Hst]; apply Hok).
  assert (forall c, c ∈ fate_counters -> count (stats s2) c = count (stats s) c) as Hc.
  { intros c Hc. unfold s2, bump. cbn [stats set_stats]. rewrite !count_fetch_add.
    rewrite !decide_False by (intros ->; by apply (bool_decide_eq_true_2 _) in Hc). subst s1. by rewrite Hst. }
  assert (counters_fit s2) as Hf2 by (intros c Hcf; rewrite Hc by done; by apply Hf).
  assert (v4_fates s2 = v4_fates s) as <-
    by (unfold v4_fates; rewrite !Hc by (unfold fate_counters; set_solver); done).
  clearbody s2. clear Hc s1 Hs Hst. intros Hr.
  assert (forall c, c ∈ fate_counters -> v4_fates (bump c s2) = v4_fates s2 + 1) as Hb
    by (intros; by apply v4_fates_bump).
  unfold ingress_v4 in Hr. destruct (peer_ips (dg_env d) !! remote) as [vip|].
  2: { apply Ok_inj in Hr as <-. apply Hb. unfold fate_counters; set_solver. }
  destruct (parse_v4_no_panic (dg_data d)) as [Hnp1 Hnp2].
  rewrite !call_opt_ok in Hr by done. cbn [mbind rust_bind] in Hr. cbv zeta in Hr.
  destruct (negb _) in Hr.
  { apply Ok_inj in Hr as <-. apply Hb. unfold fate_counters; set_solver. }
  destruct (local_ip (dg_env d)) as [local|]; [|by eapply v4_fates_tun_send].
  destruct (_ && _) in Hr; [|by eapply v4_fates_tun_send].
  apply Ok_inj in Hr as <-. apply Hb. unfold fate_counters; set_solver.
Qed.

Lemma ingress_v4_conservation_witness :
  match pump_datagram "mallory" (demo_dg (demo_v4 (V4 100 64 0 5) (V4 192 168 1 50))) demo_pump with
  | Ok s' => v4_fates s' = v4_fates demo_pump + 1
  | _ => False
  end.
Proof.
  destruct (pump_datagram "mallory" (demo_dg (demo_v4 (V4 100 64 0 5) (V4 192 168 1 50))) demo_pump)
    as [s'|e|] eqn:E; [|vm_compute in E; discriminate E|vm_compute in E; discriminate E].
  apply (ingress_v4_conservation "mallory" (demo_dg (demo_v4 (V4 100 64 0 5) (V4 192 168 1 50)))
    demo_pump s' demo_pump_ok); [intros c _; simpl; lia|reflexivity|discriminate|discriminate|
    vm_compute; discriminate|exact E].
Defined.

(** On the IPv6 path a drop may go uncounted: a truncated IPv6 datagram
    raises only the receive counters, none of the drop or delivery counters,
    and nothing is written. *)
Theorem ingress_v6_silent_drop :
  exists s', pump_datagram "alice" (demo_dg (replicate 39 96)) demo_pump = Ok s' /\
    tun_out s' = [] /\ count (stats s') in_dg = 1 /\
    forall c, c ∈ in_drop_via6 :: fate_counters -> count (stats s') c = 0.
Proof.
  eexists. split; [reflexivity|]. split_and!; [reflexivity..|].
  apply Forall_forall. repeat constructor.
Qed.

(** A UDP request from 100.64.0.5's client address to 192.168.1.50 at site 7. *)
Definition demo_v6 : bytes :=
  [96;0;0;0; 0;9; 17; 64] ++ octets6 (client_v6 (V4 100 64 0 5)) ++
  octets6 (via6_encode 7 (V4 192 168 1 50)) ++ [19;136; 0;53; 0;9; 0;0; 65].

(** The 4via6 path does not authenticate the sender: from a node that is
    not a registered peer, an IPv4 packet claiming the member 100.64.0.5 is
    dropped, but a 4via6 packet claiming the same member is translated and
    written to the TUN under that member's grant for a tagged route. *)
Theorem via6_source_not_authenticated :
  peer_ips demo_env !! "mallory" = None /\
  (exists s1, pump_datagram "mallory" (demo_dg (demo_v4 (V4 100 64 0 5) (V4 192 168 1 50))) demo_pump = Ok s1 /\
     tun_out s1 = [] /\ refresh s1 = true) /\
  (exists s2 pkt, pump_datagram "mallory" (demo_dg demo_v6) demo_pump = Ok s2 /\ tun_out s2 = [pkt] /\
     parse_dest_ipv4 pkt = Ok (V4 192 168 1 50)).
Proof.
  split; [reflexivity|]. split.
  - eexists. split; [vm_compute; reflexivity|]. split; reflexivity.
  - eexists _, _. split; [vm_compute; reflexivity|]. split; reflexivity.
Qed.

(** ** Registering inbound connections ([VpnInbound::accept])

    [accept] registers its connection before pumping and unregisters it after,
    only if it is still the registered one; accepts for different connections
    interleave freely at those two points. *)
Record Conns := {
  conns : gmap string Z;
  seeded : gmap string Z;
}.
Definition accept_begin (remote : string) (my_id now : Z) (c : Conns) : Conns :=
  {| conns := <[remote := my_id]> (conns c); seeded := <[remote := now]> (seeded c) |}.
Definition accept_end (remote : string) (my_id : Z) (c : Conns) : Conns :=
  if bool_decide (conns c !! remote = Some my_id)
  then {| conns := delete remote (conns c); seeded := seeded c |} else c.

(** A run of accepts: the connections in order of acceptance (newest first) and
    those still open; stable ids are never reused. *)
Record accepts := { history : list (string * Z); open : list Z; registry : Conns }.
Inductive accept_step : accepts -> accepts -> Prop :=
  | step_accept a remote my_id now :
      my_id ∉ (history a).*2 ->
      accept_step a {| history := (remote, my_id) :: history a; open := my_id :: open a;
                       registry := accept_begin remote my_id now (registry a) |}
  | step_close a remote my_id :
      (remote, my_id) ∈ history a -> my_id ∈ open a ->
      accept_step a {| history := history a; open := filter (fun i => i <> my_id) (open a);
                       registry := accept_end remote my_id (registry a) |}.
Definition accepts_init : accepts :=
  {| history := []; open := []; registry := {| conns := ∅; seeded := ∅ |} |}.

(** The newest connection accepted from a node. *)
Definition newest (remote : string) (h : list (string * Z)) : option Z :=
  snd <$> head (filter (fun p => p.1 = remote) h).

Lemma newest_in remote h i : newest remote h = Some i -> (remote, i) ∈ h.
Proof.
  unfold newest. destruct (filter _ h) as [|[r j] l] eqn:E; [done|]. cbn. intros [= ->].
  assert ((r, i) ∈ filter (fun p => p.1 = remote) h) as [Hr ?]%list_elem_of_filter by (rewrite E; by left).
  cbn in Hr. by subst r.
Qed.

Record accepts_inv (a : accepts) : Prop := {
  ai_nodup : NoDup (history a).*2;
  ai_newest : forall remote, conns (registry a) !! remote =
    match newest remote (history a) with
    | Some i => if bool_decide (i ∈ open a) then Some i else None
    | None => None
    end;
}.

Lemma accept_step_inv a b : accepts_inv a -> accept_step a b -> accepts_inv b.
Proof.
  intros Hi Hs. destruct Hs as [a' r i now Hfresh|a' r i Hin Hop]; destruct Hi as [Hnd Hnew]; split;
    cbn [history open registry].
  - cbn. by constructor.
  - intros r'. unfold accept_begin. cbn [conns]. destruct (decide (r' = r)) as [->|Hne].
    + rewrite lookup_insert_eq. unfold newest. rewrite filter_cons_True by done. cbn.
      by rewrite bool_decide_true by left.
    + rewrite lookup_insert_ne, Hnew by done. unfold newest at 2.
      rewrite filter_cons_False by (cbn; congruence). fold (newest r' (history a')).
      destruct (newest r' (history a')) as [j|] eqn:En; [|done].
      apply newest_in in En. assert (j <> i) by (intros ->; by apply Hfresh, (list_elem_of_fmap_2 snd _ (r', i))).
      erewrite (bool_decide_ext (j ∈ i :: open a')); [done|]. rewrite elem_of_cons. naive_solver.
  - done.
  - intros r'. unfold accept_end. destruct (decide (r' = r)) as [->|Hne].
    + rewrite Hnew. destruct (newest r (history a')) as [j|] eqn:En.
      2: { rewrite bool_decide_false by done. by rewrite Hnew, En. }
      destruct (decide (j = i)) as [->|Hji].
      * rewrite (bool_decide_true (i ∈ open a')) by done. rewrite bool_decide_true by done. cbn [conns].
        rewrite lookup_delete_eq, bool_decide_false; [done|]. by intros [? _]%list_elem_of_filter.
      * rewrite (bool_decide_false (_ = Some i)) by (case_bool_decide; congruence).
        rewrite Hnew, En. erewrite (bool_decide_ext (j ∈ filter _ _)); [done|].
        rewrite list_elem_of_filter. naive_solver.
    + assert (conns (if bool_decide (conns (registry a') !! r = Some i)
        then {| conns := delete r (conns (registry a')); seeded := seeded (registry a') |}
        else registry a') !! r' = conns (registry a') !! r') as ->
        by (case_bool_decide; cbn [conns]; [by rewrite lookup_delete_ne|done]).
      rewrite Hnew. destruct (newest r' (history a')) as [j|] eqn:En; [|done].
      apply newest_in in En. assert (j <> i) by (intros ->; by eapply Hne, NoDup_snd_fst).
      erewrite (bool_decide_ext (j ∈ filter _ _)); [done|]. rewrite list_elem_of_filter. naive_solver.
Qed.

(** Newest wins, under every interleaving: in any reachable state the
    connection registered for a node is the newest one accepted from it as long
    as that one is open, and there is no registration once it has closed. *)
Theorem conns_newest a remote : rtc accept_step accepts_init a ->
  conns (registry a) !! remote =
    match newest remote (history a) with
    | Some i => if bool_decide (i ∈ open a) then Some i else None
    | None => None
    end.
Proof.
  intros Hr. apply ai_newest. revert Hr. apply rtc_invariant; [|exact accept_step_inv].
  split; [constructor|done].
Qed.

(** A reconnect: node "a" is accepted as 1, then as 2, then 1 ends. *)
Definition demo_accept (r : string) (i now : Z) (a : accepts) : accepts :=
  {| history := (r, i) :: history a; open := i :: open a; registry := accept_begin r i now (registry a) |}.
Definition demo_reconnect : accepts := demo_accept "a" 2 5 (demo_accept "a" 1 0 accepts_init).
Definition demo_closed : accepts :=
  {| history := history demo_reconnect; open := filter (fun i => i <> 1) (open demo_reconnect);
     registry := accept_end "a" 1 (registry demo_reconnect) |}.

Lemma conns_newest_witness : open demo_closed = [2] /\ conns (registry demo_closed) !! "a" = Some 2.
Proof.
  split; [reflexivity|]. rewrite (conns_newest demo_closed "a"); [vm_compute; reflexivity|].
  eapply rtc_l; [apply (step_accept _ "a" 1 0)|eapply rtc_l; [apply (step_accept _ "a" 2 5)|
    eapply rtc_l; [apply (step_close _ "a" 1)|apply rtc_refl]]];
    apply (bool_decide_unpack _); vm_compute; exact I.
Defined.
