(* ===== verification/Dns.v ===== *)
(** * Dns: the MagicDNS responder (hop-core/src/vpn/dns.rs) and the resolver
    domain check (hop-core/src/vpn/resolver.rs, [sanitize_domain])

    The wire format of single-question queries and their answers.  Rust's
    lossy UTF-8 decoding and Unicode lower-casing need the Unicode tables; they
    are an interface, [UnicodeText], with the documented facts the responder
    relies on. *)
From S2P Require Import Prelude Addr Text.
From Stdlib Require Import Ascii.
Local Open Scope Z_scope.

(** ** Unicode text, as an interface *)
Definition is_ascii_byte (b : Z) : bool := (0 <=? b) && (b <? 128).
Definition lower_byte (b : Z) : Z := if (65 <=? b) && (b <=? 90) then b + 32 else b.
(** U+FFFD REPLACEMENT CHARACTER in UTF-8. *)
Definition replacement : bytes := [239; 191; 189].

Class UnicodeText := {
  (** [String::from_utf8_lossy] and [str::to_lowercase], on UTF-8 bytes. *)
  from_utf8_lossy : bytes -> bytes;
  to_lowercase : bytes -> bytes;
  (** ASCII is valid UTF-8 and is lower-cased byte by byte. *)
  lossy_ascii : forall l, forallb is_ascii_byte l = true -> from_utf8_lossy l = l;
  lower_ascii : forall l, forallb is_ascii_byte l = true -> to_lowercase l = map lower_byte l;
  (** 0xFF never occurs in UTF-8: each one is replaced by U+FFFD, which has no case. *)
  lossy_ff : forall n, from_utf8_lossy (replicate n 255) = concat (replicate n replacement);
  lower_replacement : forall n,
    to_lowercase (concat (replicate n replacement)) = concat (replicate n replacement);
  (** Lower-casing leaves no ASCII capital. *)
  lower_no_upper : forall l b, b ∈ to_lowercase l -> (65 <=? b) && (b <=? 90) = false;
  (** Both produce bytes. *)
  lossy_bytes : forall l, is_bytes l -> is_bytes (from_utf8_lossy l);
  lower_bytes : forall l, is_bytes l -> is_bytes (to_lowercase l);
}.

Section Dns.
Context `{UnicodeText}.

(** ** Queries *)
Record Query := { id : Z; name : string; qtype : Z }.

Definition TYPE_A : Z := 1.
Definition TYPE_AAAA : Z := 28.
Definition CLASS_IN : Z := 1.

(** The label loop of [parse_query]; running out of fuel is a panic, so the
    theorem that it does not panic shows the fuel is enough. *)
Fixpoint parse_labels (fuel : nat) (packet : bytes) (pos : nat) (labels : list string) :
    ropt (nat * list string) :=
  match fuel with
  | O => Panic
  | S f =>
      if (length packet <=? pos)%nat then none else
      b ← idx packet pos;
      let len := Z.to_nat b in
      let pos := (pos + 1)%nat in
      if (len =? 0)%nat then Ok (pos, labels) else
      if (63 <? len)%nat || (length packet <? pos + len)%nat then none else
      l ← slice packet pos (pos + len);
      parse_labels f packet (pos + len) (labels ++ [bytes_str (to_lowercase (from_utf8_lossy l))])
  end.

Definition parse_query (packet : bytes) : ropt Query :=
  if (length packet <? 12)%nat then none else
  i0 ← idx packet 0; i1 ← idx packet 1;
  let id := from_be16 i0 i1 in
  q0 ← idx packet 4; q1 ← idx packet 5;
  if negb (from_be16 q0 q1 =? 1) then none else
  '(pos, labels) ← parse_labels (S (length packet)) packet 12 [];
  if (length packet <? pos + 4)%nat then none else
  t0 ← idx packet pos; t1 ← idx packet (pos + 1);
  Ok {| id := id; name := join "." labels; qtype := from_be16 t0 t1 |}.

(** ** Responses *)
Definition encode_label (label : string) : bytes :=
  u8 (Z.of_nat (String.length label)) :: str_bytes label.
Definition encode_name (name : string) : bytes :=
  concat (map encode_label (base.filter (fun l => l <> EmptyString) (split_char "." name))) ++ [0].

Definition build_response (query : Query) (addr : option IpAddr) : bytes :=
  let answer := match addr with
                | Some (IpV4 v4) => if qtype query =? TYPE_A then Some (IpV4 v4) else None
                | Some (IpV6 v6) => if qtype query =? TYPE_AAAA then Some (IpV6 v6) else None
                | None => None
                end in
  let name_exists := bool_decide (is_Some addr) in
  let rcode := if name_exists then 0 else 3 in
  let flags := 0x8400 .| rcode in
  let ancount := match answer with Some _ => 1 | None => 0 end in
  let header := to_be16 (id query) ++ to_be16 flags ++ to_be16 1 ++ to_be16 ancount ++
                to_be16 0 ++ to_be16 0 in
  let qstart := Z.of_nat (length header) in
  let question := encode_name (name query) ++ to_be16 (qtype query) ++ to_be16 CLASS_IN in
  let record := match answer with
                | None => []
                | Some ip =>
                    to_be16 (0xC000 .| u16 qstart) ++
                    match ip with
                    | IpV4 v4 => to_be16 TYPE_A ++ to_be16 CLASS_IN ++ to_be32 60 ++ to_be16 4 ++ octets4 v4
                    | IpV6 v6 => to_be16 TYPE_AAAA ++ to_be16 CLASS_IN ++ to_be32 60 ++ to_be16 16 ++ octets6 v6
                    end
                end in
  header ++ question ++ record.

Definition answer (packet : bytes) (domain : string) (lookup : string -> option IpAddr) : ropt bytes :=
  query ← parse_query packet;
  if negb (qtype query =? TYPE_A) && negb (qtype query =? TYPE_AAAA)
  then Ok (build_response query None) else
  let host := match strip_suffix ("." +:+ domain) (name query) with
              | Some h => Some h
              | None => match strip_suffix domain (name query) with
                        | Some "" => Some ""%string
                        | _ => None
                        end
              end in
  let addr := h ← host; if bool_decide (h = EmptyString) then None else lookup h in
  Ok (build_response query addr).

(** ** The resolver domain *)
Definition is_dot (c : ascii) : bool := Ascii.eqb c ".".
Fixpoint trim_dots_start (s : string) : string :=
  match s with String c s' => if is_dot c then trim_dots_start s' else s | EmptyString => s end.
(** [trim_matches('.')]. *)
Definition trim_dots (s : string) : string := srev (trim_dots_start (srev (trim_dots_start s))).
Definition safe_byte (b : Z) : bool :=
  ((48 <=? b) && (b <=? 57)) || ((65 <=? b) && (b <=? 90)) || ((97 <=? b) && (b <=? 122)) || (b =? 45).
Definition safe_label (l : string) : bool :=
  negb (bool_decide (l = EmptyString)) && forallb safe_byte (str_bytes l).

Inductive resolver_error := EmptyDomain | UnsafeDomain.
Definition sanitize_domain (domain : string) : rust resolver_error string :=
  let d := bytes_str (to_lowercase (str_bytes (trim_dots (trim domain)))) in
  if bool_decide (d = EmptyString) then Err EmptyDomain else
  if negb (forallb safe_label (split_char "." d)) then Err UnsafeDomain else
  Ok d.
End Dns.

(** ** No panic, and the label loop terminates *)
Section DnsProofs.
Context `{UnicodeText}.

Lemma parse_labels_ok fuel packet pos labels : (0 < fuel)%nat -> (length packet < fuel + pos)%nat ->
  match parse_labels fuel packet pos labels with
  | Ok (p, _) => (p <= length packet)%nat | Err _ => True | Panic => False
  end.
Proof.
  revert pos labels. induction fuel as [|f IH]; intros pos labels H0 Hf; [lia|]. cbn [parse_labels].
  destruct (Nat.leb_spec (length packet) pos); [done|]. rewrite idx_total by lia. cbn [mbind rust_bind].
  cbv zeta. destruct (Z.to_nat (packet !!! pos)) as [|len] eqn:El; [cbn; lia|]. cbn [Nat.eqb].
  destruct (_ || _) eqn:Eg; [done|]. apply orb_false_iff in Eg as [_ Eg%Nat.ltb_ge].
  rewrite slice_Ok by lia. cbn [mbind rust_bind]. apply IH; lia.
Qed.

(** Any packet off the wire is handled without a panic: [parse_query] (and
    so [answer]) never indexes out of range and its label loop terminates. *)
Theorem dns_no_panic packet domain lookup :
  parse_query packet <> Panic /\ answer packet domain lookup <> Panic.
Proof.
  assert (parse_query packet <> Panic) as Hp.
  { unfold parse_query. destruct (Nat.ltb_spec (length packet) 12); [done|].
    rewrite !idx_total by lia. cbn [mbind rust_bind]. destruct (negb _); [done|].
    pose proof (parse_labels_ok (S (length packet)) packet 12 []) as Hl.
    destruct (parse_labels _ _ _ _) as [[p ls]| |]; [|done|destruct Hl; lia]. cbn [mbind rust_bind].
    destruct (Nat.ltb_spec (length packet) (p + 4)); [done|]. by rewrite !idx_total by lia. }
  split; [done|]. unfold answer. destruct (parse_query packet) as [q| |]; [|done..]. cbn [mbind rust_bind].
  by destruct (_ && _).
Qed.

(** ** Round trips *)

(** A label as a well-formed query carries it: 1 to 63 ASCII bytes, lower case,
    no dot. *)
Record wf_label (l : string) : Prop := {
  wl_len : (0 < String.length l <= 63)%nat;
  wl_dot : no_char "." l = true;
  wl_ascii : forallb is_ascii_byte (str_bytes l) = true;
  wl_lower : map lower_byte (str_bytes l) = str_bytes l;
}.
Record wf_query (q : Query) (labels : list string) : Prop := {
  wq_id : is_u16 (id q);
  wq_qtype : is_u16 (qtype q);
  wq_labels : Forall wf_label labels;
  wq_name : name q = join "." labels;
}.

Lemma encode_name_labels labels : Forall wf_label labels ->
  encode_name (join "." labels) = concat (map encode_label labels) ++ [0].
Proof.
  intros Hl. unfold encode_name. destruct labels as [|a l]; [done|].
  rewrite split_char_join; [|done|by eapply Forall_impl; [exact Hl|intros ? []]].
  do 3 f_equal. apply filter_all. eapply Forall_impl; [exact Hl|].
  intros s [Hlen _ _ _] ->. cbn in Hlen. lia.
Qed.

(** One turn of the loop over a label of 1 to 63 bytes. *)
Lemma parse_labels_cons f pre l rest acc : (0 < length l <= 63)%nat ->
  parse_labels (S f) (pre ++ Z.of_nat (length l) :: l ++ rest) (length pre) acc =
  parse_labels f (pre ++ Z.of_nat (length l) :: l ++ rest) (length pre + S (length l))
    (acc ++ [bytes_str (to_lowercase (from_utf8_lossy l))]).
Proof.
  intros Hlen. cbn [parse_labels]. set (packet := pre ++ _ :: _ ++ _).
  assert (length packet = length pre + S (length l + length rest))%nat as Hp
    by (subst packet; rewrite !length_app; cbn; rewrite length_app; done).
  destruct (Nat.leb_spec (length packet) (length pre)); [lia|].
  rewrite (idx_ok _ _ (Z.of_nat (length l))) by (subst packet; by rewrite list_lookup_middle).
  cbn [mbind rust_bind]. cbv zeta. rewrite Nat2Z.id.
  destruct (Nat.eqb_spec (length l) 0); [lia|]. destruct (Nat.ltb_spec 63 (length l)); [lia|].
  destruct (Nat.ltb_spec (length packet) (length pre + 1 + length l)); [lia|]. cbn [orb].
  rewrite slice_Ok by lia. cbn [mbind rust_bind].
  replace (length pre + 1 + length l)%nat with (length pre + S (length l))%nat by lia.
  assert (take (length pre + S (length l) - (length pre + 1)) (drop (length pre + 1) packet) = l) as ->; [|done].
  subst packet. replace (length pre + S (length l) - (length pre + 1))%nat with (length l) by lia.
  rewrite drop_app_ge by lia. replace (length pre + 1 - length pre)%nat with 1%nat by lia.
  cbn. by rewrite drop_0, take_app_length.
Qed.

Lemma parse_labels_encoded labels pre rest acc fuel : Forall wf_label labels ->
  (length labels < fuel)%nat ->
  parse_labels fuel (pre ++ concat (map encode_label labels) ++ 0 :: rest) (length pre) acc =
  Ok ((length pre + length (concat (map encode_label labels)) + 1)%nat, acc ++ labels).
Proof.
  intros Hl. revert pre acc fuel. induction Hl as [|l ls [Hlen Hdot Hasc Hlow] Hls IH];
    intros pre acc [|f] Hf; try (simpl in Hf; lia).
  - cbn [parse_labels]. change (concat (map encode_label []) ++ 0 :: rest) with (0 :: rest).
    destruct (Nat.leb_spec (length (pre ++ 0 :: rest)) (length pre)) as [Hle|_];
      [rewrite length_app in Hle; simpl in Hle; lia|].
    rewrite (idx_ok _ _ 0) by (by rewrite list_lookup_middle). cbn. do 2 f_equal; [lia|by rewrite app_nil_r].
  - set (tail := concat (map encode_label ls) ++ 0 :: rest).
    assert (pre ++ concat (map encode_label (l :: ls)) ++ 0 :: rest =
      pre ++ Z.of_nat (length (str_bytes l)) :: str_bytes l ++ tail) as ->.
    { subst tail. cbn. rewrite u8_small, length_str_bytes by (unfold is_u8; lia). by rewrite <-!app_assoc. }
    rewrite parse_labels_cons by (by rewrite length_str_bytes).
    rewrite lossy_ascii, lower_ascii, Hlow, bytes_str_bytes by done.
    specialize (IH (pre ++ Z.of_nat (length (str_bytes l)) :: str_bytes l) (acc ++ [l]) f).
    rewrite <-app_assoc in IH. cbn [app] in IH. fold tail in IH. rewrite length_app in IH. cbn [length] in IH.
    rewrite IH by (simpl in Hf; lia). f_equal. f_equal; [|by rewrite <-app_assoc].
    cbn. rewrite length_app. lia.
Qed.

Lemma length_labels labels : (length labels <= length (concat (map encode_label labels)))%nat.
Proof. induction labels as [|l ls IH]; cbn; [lia|]. rewrite length_app. lia. Qed.

(** A packet whose question section is the encoding of [labels]. *)
Lemma parse_query_question b0 b1 b2 b3 b4 b5 b6 b7 b8 b9 b10 b11 labels t0 t1 rest :
  Forall wf_label labels -> from_be16 b4 b5 = 1 -> (2 <= length rest)%nat ->
  let packet := [b0; b1; b2; b3; b4; b5; b6; b7; b8; b9; b10; b11] ++
                concat (map encode_label labels) ++ 0 :: t0 :: t1 :: rest in
  parse_query packet = Ok {| id := from_be16 b0 b1; name := join "." labels; qtype := from_be16 t0 t1 |} /\
  parse_labels (S (length packet)) packet 12 [] =
    Ok ((12 + length (concat (map encode_label labels)) + 1)%nat, labels).
Proof.
  intros Hl Hq Hr packet. set (pre := [b0; b1; b2; b3; b4; b5; b6; b7; b8; b9; b10; b11]) in *.
  set (enc := concat (map encode_label labels)) in *.
  assert (length packet = 12 + length enc + 3 + length rest)%nat as Hlen
    by (subst packet; rewrite !length_app; cbn; lia).
  assert (parse_labels (S (length packet)) packet 12 [] = Ok ((12 + length enc + 1)%nat, labels)) as Hp.
  { apply (parse_labels_encoded labels pre (t0 :: t1 :: rest) []); [done|].
    pose proof (length_labels labels) as Hll. fold enc in Hll. lia. }
  split; [|done]. unfold parse_query. rewrite Hp.
  destruct (Nat.ltb_spec (length packet) 12); [lia|].
  rewrite (idx_ok packet 0 b0), (idx_ok packet 1 b1), (idx_ok packet 4 b4), (idx_ok packet 5 b5) by done.
  cbn [mbind rust_bind]. rewrite Hq. cbn [Z.eqb Pos.eqb negb mbind rust_bind]. cbv zeta.
  destruct (Nat.ltb_spec (length packet) (12 + length enc + 1 + 4)); [lia|].
  assert (packet = (pre ++ enc ++ [0]) ++ t0 :: t1 :: rest) as ->
    by (subst packet; rewrite <-!app_assoc; done).
  assert (length (pre ++ enc ++ [0%Z]) = 12 + length enc + 1)%nat as Hpl by (rewrite !length_app; cbn; lia).
  rewrite (idx_ok _ (12 + length enc + 1) t0) by (by rewrite list_lookup_middle by lia). cbn [mbind rust_bind].
  rewrite (idx_ok _ _ t1); [done|]. rewrite lookup_app_r by lia.
  by replace (12 + length enc + 1 + 1 - length (pre ++ enc ++ [0%Z]))%nat with 1%nat by lia.
Qed.

(** The address records a responder may give for a query type. *)
Definition records_for (qt : Z) (addr : option IpAddr) : list IpAddr :=
  match addr with
  | Some (IpV4 a) => if qt =? TYPE_A then [IpV4 a] else []
  | Some (IpV6 a) => if qt =? TYPE_AAAA then [IpV6 a] else []
  | None => []
  end.
(** The response code: NOERROR when the name exists, else NXDOMAIN. *)
Definition rcode_for (addr : option IpAddr) : Z := match addr with Some _ => 0 | None => 3 end.

Definition record_bytes (ip : IpAddr) : bytes :=
  [192; 12] ++ match ip with
               | IpV4 a => [0; 1; 0; 1; 0; 0; 0; 60; 0; 4] ++ octets4 a
               | IpV6 a => [0; 28; 0; 1; 0; 0; 0; 60; 0; 16] ++ octets6 a
               end.

Lemma build_response_eq q addr labels : wf_query q labels ->
  build_response q addr =
    [id q / 256; id q mod 256; 132; rcode_for addr; 0; 1; 0; Z.of_nat (length (records_for (qtype q) addr));
     0; 0; 0; 0] ++
    concat (map encode_label labels) ++ 0 :: qtype q / 256 :: qtype q mod 256 ::
    0 :: 1 :: concat (map record_bytes (records_for (qtype q) addr)).
Proof.
  intros [Hid Hqt Hl Hn]. unfold build_response. rewrite Hn, encode_name_labels by done.
  assert (forall n, is_u16 n -> to_be16 n = [n / 256; n mod 256]) as Hbe.
  { intros n Hn16. unfold to_be16. rewrite shiftr8. f_equal. apply u8_small. unfold is_u8, is_u16 in *. zbytes. }
  rewrite <-!app_assoc. rewrite (Hbe (id q)), (Hbe (qtype q)) by done.
  destruct addr as [[a|a]|]; cbn [records_for rcode_for]; [destruct (_ =? TYPE_A)|destruct (_ =? TYPE_AAAA)|];
    cbn; by rewrite ?app_nil_r.
Qed.

(** A stub resolver's reading of a response: its id, response code and address
    records (at most one record, whose name points at the question). *)
Definition dns_client (packet : bytes) : ropt (Z * Z * list IpAddr) :=
  q ← parse_query packet;
  rc ← idx packet 3;
  a0 ← idx packet 6; a1 ← idx packet 7;
  if from_be16 a0 a1 =? 0 then Ok (id q, rc .& 15, []) else
  '(pos, _) ← parse_labels (S (length packet)) packet 12 [];
  let rr := drop (pos + 4) packet in
  match rr with
  | 192 :: 12 :: 0 :: 1 :: 0 :: 1 :: _ :: _ :: _ :: _ :: 0 :: 4 :: [a; b; c; d] =>
      Ok (id q, rc .& 15, [IpV4 (V4 a b c d)])
  | 192 :: 12 :: 0 :: 28 :: 0 :: 1 :: _ :: _ :: _ :: _ :: 0 :: 16 :: o =>
      if (length o =? 16)%nat then Ok (id q, rc .& 15, [IpV6 (V6 o)]) else none
  | _ => none
  end.

Definition wf_ip (ip : IpAddr) : Prop :=
  match ip with IpV4 a => wf4 a | IpV6 a => wf6 a end.

(** Response round trip: for a well-formed query the response's question
    section parses back to the query itself, and a stub resolver reads off the
    query's id, NOERROR or NXDOMAIN according to whether the name resolved, and
    exactly the address when its family is the one asked for. *)
Theorem dns_response_roundtrip q labels addr : wf_query q labels ->
  (forall ip, addr = Some ip -> wf_ip ip) ->
  parse_query (build_response q addr) = Ok q /\
  dns_client (build_response q addr) = Ok (id q, rcode_for addr, records_for (qtype q) addr).
Proof.
  intros Hwf Hip. rewrite (build_response_eq q addr labels Hwf). destruct Hwf as [Hid Hqt Hl Hn].
  set (recs := records_for (qtype q) addr).
  set (body := concat (map encode_label labels) ++ _ :: _ :: _ :: _ :: _ :: _).
  destruct (parse_query_question (id q / 256) (id q mod 256) 132 (rcode_for addr) 0 1 0
    (Z.of_nat (length recs)) 0 0 0 0 labels (qtype q / 256) (qtype q mod 256)
    (0 :: 1 :: concat (map record_bytes recs)) Hl eq_refl) as [Hq Hls]; [cbn; lia|].
  fold body in Hq, Hls.
  assert (forall n, is_u16 n -> from_be16 (n / 256) (n mod 256) = n) as Hbe.
  { intros n Hn16. unfold is_u16 in Hn16. rewrite from_be16_eq by (unfold is_u8; zbytes). zbytes. }
  rewrite !Hbe, <-Hn in Hq by done.
  assert (Ok {| id := id q; name := name q; qtype := qtype q |} = Ok (E := unit) q) as Hqq by (by destruct q).
  rewrite Hqq in Hq. split; [exact Hq|]. unfold dns_client. rewrite Hq, Hls.
  set (packet := [_; _; _; _; _; _; _; _; _; _; _; _] ++ body).
  rewrite (idx_ok packet 3 (rcode_for addr)), (idx_ok packet 6 0), (idx_ok packet 7 (Z.of_nat (length recs))) by done.
  cbn [mbind rust_bind].
  assert (rcode_for addr .& 15 = rcode_for addr) as -> by (by destruct addr).
  assert (drop (12 + length (concat (map encode_label labels)) + 1 + 4) packet = concat (map record_bytes recs)) as Hd.
  { subst packet body. change (12 + ?n + 1 + 4)%nat with (12 + (n + 1 + 4))%nat.
    cbn [Nat.add app drop]. rewrite drop_app_ge by lia.
    match goal with |- drop ?n _ = _ => replace n with 5%nat by lia end. done. }
  rewrite Hd. clear Hd Hls Hq packet body. subst recs. clear Hqq Hid Hqt Hl Hn Hbe.
  destruct addr as [[[a b c d]|[o]]|]; cbn [records_for];
    [destruct (qtype q =? TYPE_A)|destruct (qtype q =? TYPE_AAAA)|]; try done.
  specialize (Hip _ eq_refl) as [Ho _]. cbn in Ho. cbn.
  do 16 (destruct o as [|? o]; [done|]). by destruct o.
Qed.

(** Resolution: a parsed query is always answered; [lookup] is consulted,
    with the host part, exactly for [A]/[AAAA] queries whose name is a non-empty
    host under the domain, and every other query gets NXDOMAIN. *)
Theorem dns_answer_correct packet domain lookup q : parse_query packet = Ok q ->
  (forall host, host <> EmptyString -> name q = host +:+ ("." +:+ domain) ->
     qtype q = TYPE_A \/ qtype q = TYPE_AAAA ->
     answer packet domain lookup = Ok (build_response q (lookup host))) /\
  ((qtype q <> TYPE_A /\ qtype q <> TYPE_AAAA) \/
     (forall host, host <> EmptyString -> name q <> host +:+ ("." +:+ domain)) ->
     answer packet domain lookup = Ok (build_response q None)).
Proof.
  intros Hq. unfold answer. rewrite Hq. cbn [mbind rust_bind]. split.
  - intros host Hne Hn Ht.
    assert (negb (qtype q =? TYPE_A) && negb (qtype q =? TYPE_AAAA) = false) as ->
      by (destruct Ht as [->| ->]; done).
    apply strip_suffix_spec in Hn. rewrite Hn. cbv zeta. cbn [mbind option_bind]. by rewrite bool_decide_false.
  - intros Hno. destruct (negb _ && negb _) eqn:Et; [done|].
    assert (qtype q = TYPE_A \/ qtype q = TYPE_AAAA) as Ht.
    { apply andb_false_iff in Et as [Et|Et]; apply negb_false_iff, Z.eqb_eq in Et; auto. }
    destruct Hno as [[? ?]|Hno]; [tauto|]. f_equal. cbv zeta. f_equal.
    destruct (strip_suffix ("." +:+ domain) (name q)) as [h|] eqn:Es.
    + apply strip_suffix_spec in Es. cbn [mbind option_bind]. case_bool_decide as Hh; [done|]. by destruct (Hno h).
    + destruct (strip_suffix domain (name q)) as [[|c h]|]; done.
Qed.

(** The header of a one-question query, and a label of [n] 0xFF bytes. *)
Definition query_packet (labels : bytes) : bytes :=
  [18; 52; 1; 0; 0; 1; 0; 0; 0; 0; 0; 0] ++ labels ++ [0; 0; 1; 0; 1].

(** Echoing the name can produce an ill-formed response: a query accepted
    with a 22-byte label that is not UTF-8 is answered with a length byte of 66,
    over the 63 a label may have, and the response no longer parses. *)
Theorem dns_lossy_label_overflows domain lookup :
  exists out, answer (query_packet (22 :: replicate 22 255)) domain lookup = Ok out /\
    out !! 12%nat = Some 66 /\ parse_query out = none.
Proof.
  set (s := bytes_str (concat (replicate 22 replacement))).
  assert (parse_query (query_packet (22 :: replicate 22 255)) =
    Ok {| id := 4660; name := join "." [s]; qtype := 1 |}) as Hq.
  { unfold parse_query.
    assert (parse_labels 41 (query_packet (22 :: replicate 22 255)) 12 [] = Ok (36%nat, [s])) as Hl.
    { etransitivity; [apply (parse_labels_cons 40 (take 12 (query_packet [])) (replicate 22 255) [0; 0; 1; 0; 1] []);
        cbn; lia|]. rewrite lossy_ff, lower_replacement. reflexivity. }
    change (S (length (query_packet (22 :: replicate 22 255)))) with 41%nat. rewrite Hl. reflexivity. }
  assert (forall addr, build_response {| id := 4660; name := join "." [s]; qtype := 1 |} addr !! 12%nat = Some 66 /\
    parse_query (build_response {| id := 4660; name := join "." [s]; qtype := 1 |} addr) = none) as Hb.
  { intros [[[]|[]]|]; vm_compute; done. }
  eexists. unfold answer. rewrite Hq. cbn [mbind rust_bind qtype].
  split; [reflexivity|]. apply Hb.
Qed.

(** A resolver domain that passes the check is safe as a file name and as
    a command argument: non-empty, only lower-case letters, digits, hyphens and
    dots, so no path separator, and with no empty label, so never [..]. *)
Theorem sanitize_domain_safe domain d : sanitize_domain domain = Ok d ->
  d <> EmptyString /\
  (forall l, l ∈ split_char "." d -> l <> EmptyString) /\
  (forall b, b ∈ str_bytes d -> (97 <= b <= 122) \/ (48 <= b <= 57) \/ b = 45 \/ b = 46) /\
  no_char "/" d = true.
Proof.
  unfold sanitize_domain. cbv zeta. set (x := to_lowercase _). set (d0 := bytes_str x).
  case_bool_decide as Hne; [done|]. destruct (forallb _ _) eqn:Hf; [|done]. intros <-%Ok_inj.
  rewrite forallb_forall in Hf.
  assert (is_bytes x) as Hx by (apply lower_bytes, is_bytes_str_bytes).
  assert (forall b, b ∈ str_bytes d0 -> (97 <= b <= 122) \/ (48 <= b <= 57) \/ b = 45 \/ b = 46) as Hb.
  { intros b Hb. assert ((65 <=? b) && (b <=? 90) = false) as Hup
      by (eapply lower_no_upper; subst d0; by rewrite str_bytes_str in Hb).
    destruct (split_char_bytes "." d0 b Hb) as [->|(l & Hl & Hbl)]; [cbn; auto|].
    apply list_elem_of_In, Hf in Hl. apply andb_true_iff in Hl as [_ Hl].
    rewrite forallb_forall in Hl. apply list_elem_of_In, Hl in Hbl. unfold safe_byte in Hbl.
    rewrite Hup, orb_false_r in Hbl. rewrite !orb_true_iff, !andb_true_iff, !Z.leb_le, Z.eqb_eq in Hbl. lia. }
  split; [done|]. split; [|split; [done|]].
  - intros l Hl%list_elem_of_In%Hf ->. done.
  - apply no_char_bytes. change (ord "/") with 47. intros H'%Hb. lia.
Qed.
End DnsProofs.

(** ** An instance: text in which only ASCII has case and only ASCII is valid *)
#[refine] Instance ascii_text : UnicodeText := {
  from_utf8_lossy l := concat (map (fun b => if is_ascii_byte b then [b] else replacement) l);
  to_lowercase l := map lower_byte l;
}.
Proof.
  - induction l as [|b l IH]; [done|]. cbn. destruct (is_ascii_byte b); [|done]. intros Hl. cbn. by rewrite IH.
  - done.
  - induction n as [|n IH]; [done|]. cbn in IH |- *. by rewrite IH.
  - induction n as [|n IH]; [done|]. cbn in IH |- *. by rewrite IH.
  - intros l b [x [-> _]]%list_elem_of_fmap. unfold lower_byte.
    destruct ((65 <=? x) && (x <=? 90)) eqn:E; [|done].
    apply andb_true_iff in E as [?%Z.leb_le ?%Z.leb_le]. apply andb_false_iff. right. apply Z.leb_gt. lia.
  - intros l Hl. apply Forall_concat, Forall_fmap. eapply Forall_impl; [exact Hl|]. intros b Hb. cbn.
    case_match; [by constructor|]. apply (bool_decide_unpack _). vm_compute. exact I.
  - intros l Hl. apply Forall_fmap. eapply Forall_impl; [exact Hl|]. intros b Hb. cbn. unfold lower_byte.
    case_match eqn:E; [|done]. apply andb_true_iff in E as [?%Z.leb_le ?%Z.leb_le]. unfold is_u8 in *. lia.
Defined.

Definition demo_query : Query := {| id := 4660; name := "laptop.acme.hop"; qtype := 1 |}.
Lemma demo_query_wf : wf_query demo_query ["laptop"; "acme"; "hop"].
Proof. split; [by cbn|by cbn| |done]. repeat constructor; cbn; lia. Qed.

Lemma dns_no_panic_witness : parse_query (query_packet [63]) <> Panic /\
  answer (query_packet [63]) "hop" (fun _ => None) <> Panic.
Proof. exact (dns_no_panic (query_packet [63]) "hop" (fun _ => None)). Defined.

Lemma dns_response_roundtrip_witness :
  dns_client (build_response demo_query (Some (IpV4 (V4 100 64 0 7)))) =
    Ok (4660, 0, [IpV4 (V4 100 64 0 7)]).
Proof.
  apply (dns_response_roundtrip demo_query ["laptop"; "acme"; "hop"] (Some (IpV4 (V4 100 64 0 7))) demo_query_wf).
  intros ip Hip. injection Hip as <-. apply (bool_decide_unpack (wf4 _)). vm_compute. exact I.
Defined.

Lemma dns_answer_correct_witness :
  answer (build_response demo_query None) "acme.hop" (fun _ => Some (IpV4 (V4 100 64 0 7))) =
    Ok (build_response demo_query (Some (IpV4 (V4 100 64 0 7)))).
Proof.
  destruct (dns_answer_correct (build_response demo_query None) "acme.hop"
    (fun _ => Some (IpV4 (V4 100 64 0 7))) demo_query) as [H _]; [vm_compute; reflexivity|].
  apply (H "laptop"); [discriminate|reflexivity|left; reflexivity].
Defined.

Lemma dns_lossy_label_overflows_witness :
  exists out, answer (query_packet (22 :: replicate 22 255)) "hop" (fun _ => None) = Ok out /\
    out !! 12%nat = Some 66.
Proof.
  destruct (dns_lossy_label_overflows "hop" (fun _ => None)) as (out & H1 & H2 & _).
  exists out. split; [exact H1|exact H2].
Defined.

Lemma sanitize_domain_safe_witness : no_char "/" "acme.hop" = true.
Proof. apply (sanitize_domain_safe ".ACME.hop. " "acme.hop"). vm_compute. reflexivity. Defined.
