(* ===== verification/Delta.v ===== *)
(** * Delta: block-level delta transfer (hop-core/src/transfer/delta.rs)

    The rolling checksum on 32-bit words, the signatures of the old file's
    blocks, the scan of the new file against them and the reconstruction.  File
    contents are byte lists; [Read::read] may return fewer bytes than asked for,
    so the signature loop takes the sizes the reads return.  The strong hash
    (the xxh3 crate) is a parameter. *)
From S2P Require Import Prelude.
Local Open Scope Z_scope.

(** ** The rolling checksum *)
Record RollingChecksum := { rc_a : Z; rc_b : Z; rc_count : Z }.
Definition rolling_new : RollingChecksum := {| rc_a := 0; rc_b := 0; rc_count := 0 |}.

(** The loop of [update]: [rem] is [data.len() - i]. *)
Fixpoint update_loop (data : bytes) (rem : Z) (a b : Z) : Z * Z :=
  match data with
  | [] => (a, b)
  | byte :: data => update_loop data (rem - 1) (u32 (a + byte)) (u32 (b + u32 (u32 rem * byte)))
  end.
Definition update (data : bytes) : RollingChecksum :=
  let n := Z.of_nat (length data) in
  let '(a, b) := update_loop data n 0 0 in
  {| rc_a := a; rc_b := b; rc_count := n |}.

Definition roll (c : RollingChecksum) (old_byte new_byte : Z) : RollingChecksum :=
  let a := u32 (u32 (rc_a c - old_byte) + new_byte) in
  {| rc_a := a;
     rc_b := u32 (u32 (rc_b c - u32 (u32 (rc_count c) * old_byte)) + a);
     rc_count := rc_count c |}.

Definition digest (c : RollingChecksum) : Z := u32 (rc_b c .<< 16) .| (rc_a c .& 0xffff).

(** ** Signatures and operations (proto::BlockSignature, proto::DeltaOperation) *)
Record BlockSignature := { sig_index : Z; sig_rolling : Z; sig_strong : Z }.
Inductive DeltaOperation := CopyBlock (index : Z) | Literal (data : bytes).

Section Delta.
Variable xxh3_64 : bytes -> Z.

(** The signature loop: each element of [reads] is the number of bytes one
    [file.read] into a [block_size] buffer returned; 0 is the end of the file. *)
Fixpoint signature_loop (file : bytes) (reads : list nat) (index : Z) : list BlockSignature :=
  match reads with
  | [] => []
  | n :: reads =>
      let data := take n file in
      if (length data =? 0)%nat then [] else
      {| sig_index := index; sig_rolling := digest (update data); sig_strong := xxh3_64 data |} ::
      signature_loop (drop n file) reads (u32 (index + 1))
  end.
Definition compute_block_signatures (file : bytes) (reads : list nat) : list BlockSignature :=
  signature_loop file reads 0.

Definition build_signature_lookup (signatures : list BlockSignature) : gmap Z (list (Z * Z)) :=
  foldl (fun m sig =>
    <[sig_rolling sig := default [] (m !! sig_rolling sig) ++ [(sig_strong sig, sig_index sig)]]> m)
    ∅ signatures.

(** The search among the candidates of a digest. *)
Definition find_candidate (candidates : list (Z * Z)) (strong : Z) : option Z :=
  (fun p => p.2.2) <$> list_find (fun c => c.1 = strong) candidates.

Definition flush_literal (ops : list DeltaOperation) (literal_buf : bytes) : list DeltaOperation :=
  match literal_buf with [] => ops | _ => ops ++ [Literal literal_buf] end.

(** [if pos + block_size <= new_data.len() { rolling.update(window) }] and the
    like; the loop's fuel running out is a panic. *)
Fixpoint delta_loop (fuel : nat) (new_data : bytes) (block_size : nat)
    (lookup : gmap Z (list (Z * Z))) (pos : nat) (rolling : RollingChecksum)
    (literal_buf : bytes) (ops : list DeltaOperation) : rust Empty_set (list DeltaOperation) :=
  match fuel with
  | O => Panic
  | S f =>
      if (length new_data <? pos + block_size)%nat then
        rest ← slice new_data pos (length new_data);
        Ok (flush_literal ops (literal_buf ++ rest))
      else
        window ← slice new_data pos (pos + block_size);
        let matched := candidates ← lookup !! digest rolling;
                       find_candidate candidates (xxh3_64 window) in
        match matched with
        | Some sig_index =>
            let ops := flush_literal ops literal_buf ++ [CopyBlock sig_index] in
            let pos := (pos + block_size)%nat in
            if (pos + block_size <=? length new_data)%nat then
              w ← slice new_data pos (pos + block_size);
              delta_loop f new_data block_size lookup pos (update w) [] ops
            else delta_loop f new_data block_size lookup pos rolling [] ops
        | None =>
            b ← idx new_data pos;
            let pos := (pos + 1)%nat in
            let literal_buf := literal_buf ++ [b] in
            if (pos + block_size <=? length new_data)%nat then
              o ← idx new_data (pos - 1); n ← idx new_data (pos + block_size - 1);
              delta_loop f new_data block_size lookup pos (roll rolling o n) literal_buf ops
            else delta_loop f new_data block_size lookup pos rolling literal_buf ops
        end
  end.

Definition compute_delta (new_data : bytes) (signatures : list BlockSignature) (block_size : nat) :
    rust Empty_set (list DeltaOperation) :=
  match signatures with
  | [] => match new_data with [] => Ok [] | _ => Ok [Literal new_data] end
  | _ =>
      let lookup := build_signature_lookup signatures in
      match new_data with
      | [] => Ok []
      | _ =>
          if (length new_data <? block_size)%nat then Ok [Literal new_data] else
          w ← slice new_data 0 block_size;
          delta_loop (S (length new_data)) new_data block_size lookup 0 (update w) [] []
      end
  end.
End Delta.

(** One operation of [reconstruct_file]: what it writes. *)
Definition apply_op (old_data : bytes) (block_size : nat) (op : DeltaOperation) : bytes :=
  match op with
  | CopyBlock index =>
      let start := (Z.to_nat index * block_size)%nat in
      let end_ := Nat.min (start + block_size) (length old_data) in
      if (start <? length old_data)%nat then take (end_ - start) (drop start old_data) else []
  | Literal data => data
  end.
(** The written file and the returned byte count. *)
Definition reconstruct_file (old_data : bytes) (ops : list DeltaOperation) (block_size : nat) : bytes * Z :=
  foldl (fun '(out, total) op =>
    let block := apply_op old_data block_size op in
    (out ++ block, u64 (total + Z.of_nat (length block)))) ([], 0) ops.

(** ** The rolling checksum is exact *)
Fixpoint byte_sum (data : bytes) : Z := match data with [] => 0 | x :: d => x + byte_sum d end.
Fixpoint weighted (data : bytes) (rem : Z) : Z :=
  match data with [] => 0 | x :: d => rem * x + weighted d (rem - 1) end.

Lemma update_loop_eq data rem a b :
  update_loop data rem (u32 a) (u32 b) = (u32 (a + byte_sum data), u32 (b + weighted data rem)).
Proof.
  revert rem a b. induction data as [|x d IH]; intros rem a b; cbn [update_loop byte_sum weighted].
  { by rewrite !Z.add_0_r. }
  assert (u32 (u32 b + u32 (u32 rem * x)) = u32 (b + rem * x)) as ->.
  { unfold u32. rewrite Z.mul_mod_idemp_l by lia. by rewrite <-Z.add_mod by lia. }
  assert (u32 (u32 a + x) = u32 (a + x)) as -> by (unfold u32; by rewrite Z.add_mod_idemp_l by lia).
  rewrite IH. f_equal; f_equal; lia.
Qed.

Lemma update_eq data : update data =
  {| rc_a := u32 (byte_sum data); rc_b := u32 (weighted data (Z.of_nat (length data)));
     rc_count := Z.of_nat (length data) |}.
Proof.
  unfold update. pose proof (update_loop_eq data (Z.of_nat (length data)) 0 0) as H.
  change (u32 0) with 0 in H. rewrite H. done.
Qed.

Lemma byte_sum_app d e : byte_sum (d ++ e) = byte_sum d + byte_sum e.
Proof. induction d as [|x d IH]; cbn [app byte_sum]; lia. Qed.
Lemma weighted_app d e rem :
  weighted (d ++ e) rem = weighted d rem + weighted e (rem - Z.of_nat (length d)).
Proof.
  revert rem. induction d as [|x d IH]; intros rem; cbn [app weighted length]; [by rewrite Z.sub_0_r|].
  rewrite IH. replace (rem - 1 - Z.of_nat (length d)) with (rem - Z.of_nat (S (length d))) by lia. lia.
Qed.
Lemma weighted_succ d rem : weighted d (rem + 1) = weighted d rem + byte_sum d.
Proof.
  revert rem. induction d as [|x d IH]; intros rem; cbn [weighted byte_sum]; [lia|].
  replace (rem + 1 - 1) with (rem - 1 + 1) by lia. rewrite IH. lia.
Qed.

Lemma roll_update_eq x w y : roll (update (x :: w)) x y = update (w ++ [y]).
Proof.
  rewrite !update_eq. unfold roll. cbn [rc_a rc_b rc_count byte_sum weighted].
  rewrite length_app. cbn [length].
  set (n := Z.of_nat (length w)).
  replace (Z.of_nat (length w + 1)) with (n + 1) by lia. replace (Z.of_nat (S (length w))) with (n + 1) by lia.
  rewrite byte_sum_app, weighted_app. cbn [byte_sum weighted]. fold n.
  assert (u32 (u32 (u32 (x + byte_sum w) - x) + y) = u32 (byte_sum w + (y + 0))) as Ha.
  { unfold u32. rewrite Zminus_mod_idemp_l, Z.add_mod_idemp_l by lia. f_equal. lia. }
  rewrite Ha. f_equal. unfold u32.
  rewrite (Z.mul_mod_idemp_l (n + 1)) by lia.
  rewrite <-Zminus_mod, <-Z.add_mod by lia. f_equal.
  replace (n + 1 - 1) with n by lia. rewrite weighted_succ. lia.
Qed.

(** The rolling checksum rolls exactly: removing the first byte of a window
    and adding the next one gives, on 32-bit wrap-around words, the checksum
    computed afresh from the shifted window, for windows of any length. *)
Theorem roll_is_update x w y :
  roll (update (x :: w)) x y = update (w ++ [y]) /\
  digest (roll (update (x :: w)) x y) = digest (update (w ++ [y])).
Proof. by rewrite roll_update_eq. Qed.

(** ** Reconstruction *)
Definition applied (old : bytes) (bs : nat) (ops : list DeltaOperation) : bytes :=
  concat (map (apply_op old bs) ops).

Lemma applied_app old bs o1 o2 : applied old bs (o1 ++ o2) = applied old bs o1 ++ applied old bs o2.
Proof. unfold applied. by rewrite map_app, concat_app. Qed.
Lemma applied_flush old bs ops lit : applied old bs (flush_literal ops lit) = applied old bs ops ++ lit.
Proof.
  destruct lit as [|b l]; cbn [flush_literal]; [by rewrite app_nil_r|].
  rewrite applied_app. unfold applied at 2. cbn. by rewrite app_nil_r.
Qed.

Lemma reconstruct_eq old ops bs :
  reconstruct_file old ops bs = (applied old bs ops, u64 (Z.of_nat (length (applied old bs ops)))).
Proof.
  unfold reconstruct_file.
  assert (forall out total, foldl (fun '(out, total) op =>
      let block := apply_op old bs op in (out ++ block, u64 (total + Z.of_nat (length block)))) (out, u64 total) ops
    = (out ++ applied old bs ops, u64 (total + Z.of_nat (length (applied old bs ops))))) as H.
  { induction ops as [|op ops IH]; intros out total; cbn [foldl].
    - cbn. by rewrite app_nil_r, Z.add_0_r.
    - cbv zeta. assert (u64 (u64 total + Z.of_nat (length (apply_op old bs op))) =
        u64 (total + Z.of_nat (length (apply_op old bs op)))) as ->
        by (unfold u64; by rewrite Z.add_mod_idemp_l by lia).
      rewrite IH. unfold applied. cbn. rewrite app_assoc, length_app. do 2 f_equal. lia. }
  apply (H [] 0).
Qed.

(** The block [k] of a file. *)
Definition block (file : bytes) (bs k : nat) : bytes := take bs (drop (k * bs) file).

Lemma apply_copy old bs k : (k * bs < length old)%nat ->
  apply_op old bs (CopyBlock (Z.of_nat k)) = block old bs k.
Proof.
  intros Hk. unfold apply_op. cbv zeta. rewrite Nat2Z.id. destruct (Nat.ltb_spec (k * bs) (length old)); [|lia].
  unfold block. destruct (Nat.le_gt_cases (k * bs + bs) (length old)).
  - rewrite Nat.min_l by lia. f_equal. lia.
  - rewrite Nat.min_r by lia. rewrite !take_ge by (rewrite length_drop; lia). done.
Qed.

Section DeltaProofs.
Variable xxh3_64 : bytes -> Z.

Lemma lookup_elem sigs s i d :
  (s, i) ∈ default [] (build_signature_lookup sigs !! d) <->
  {| sig_index := i; sig_rolling := d; sig_strong := s |} ∈ sigs.
Proof.
  unfold build_signature_lookup.
  assert (forall m : gmap Z (list (Z * Z)), (s, i) ∈ default [] (foldl (fun (m : gmap Z (list (Z * Z))) sig =>
      <[sig_rolling sig := default [] (m !! sig_rolling sig) ++ [(sig_strong sig, sig_index sig)]]> m) m sigs !! d)
    <-> (s, i) ∈ default [] (m !! d) \/ {| sig_index := i; sig_rolling := d; sig_strong := s |} ∈ sigs) as H.
  { induction sigs as [|sig sigs IH]; intros m; cbn [foldl]; [rewrite elem_of_nil; tauto|].
    rewrite IH, elem_of_cons. destruct sig as [j r t]. cbn.
    destruct (decide (d = r)) as [->|Hne].
    - rewrite lookup_insert_eq. cbn. rewrite elem_of_app, list_elem_of_singleton.
      split; [intros [[?|[= -> ->]]|?]; auto|intros [?|[[= -> ->]|?]]; auto].
    - rewrite lookup_insert_ne by done.
      split; [intros [?|?]; auto|intros [?|[[= ]|?]]; auto; congruence]. }
  rewrite H, lookup_empty. cbn. rewrite elem_of_nil. tauto.
Qed.

Lemma find_candidate_Some c strong i : find_candidate c strong = Some i -> (strong, i) ∈ c.
Proof.
  unfold find_candidate. intros ([j [t u]] & (Hl & Ht & _)%list_find_Some & ->)%fmap_Some.
  cbn in *. subst t. by eapply list_elem_of_lookup_2.
Qed.
Lemma find_candidate_is_Some c strong i : (strong, i) ∈ c -> is_Some (find_candidate c strong).
Proof.
  intros Hc. unfold find_candidate. apply fmap_is_Some. by eapply (list_find_elem_of _ _ (strong, i)).
Qed.

(** With full reads, the signatures are those of the blocks, in order. *)
Lemma signature_elem file reads bs base sig : (0 < bs)%nat -> Forall (eq bs) reads ->
  0 <= base -> base * Z.of_nat bs + Z.of_nat (length file) <= 2 ^ 32 * Z.of_nat bs ->
  sig ∈ signature_loop xxh3_64 file reads base ->
  exists k, (k * bs < length file)%nat /\
    sig = {| sig_index := base + Z.of_nat k; sig_rolling := digest (update (block file bs k));
             sig_strong := xxh3_64 (block file bs k) |}.
Proof.
  intros Hbs Hr. revert file base. induction Hr as [|n reads <- Hr IH]; intros file base Hb Hlen;
    cbn [signature_loop]; [by intros ?%elem_of_nil|].
  destruct (Nat.eqb_spec (length (take bs file)) 0) as [E|E]; [by intros ?%elem_of_nil|].
  rewrite length_take in E. rewrite elem_of_cons. intros [->|Hs].
  - exists 0%nat. split; [lia|]. unfold block. cbn [Nat.mul]. by rewrite drop_0, Z.add_0_r.
  - destruct (decide (length file <= bs)%nat) as [Hle|Hgt].
    { rewrite drop_ge in Hs by lia. destruct reads as [|m reads]; cbn in Hs; [by apply elem_of_nil in Hs|].
      rewrite take_nil in Hs. by apply elem_of_nil in Hs. }
    assert (base + 1 < 2 ^ 32) by nia.
    assert (u32 (base + 1) = base + 1) as Hu by (apply Z.mod_small; lia). rewrite Hu in Hs.
    apply IH in Hs as (k & Hk & ->); [|lia|rewrite length_drop; lia].
    exists (S k). rewrite length_drop in Hk. split; [lia|].
    unfold block. rewrite drop_drop. replace (bs + k * bs)%nat with (S k * bs)%nat by lia.
    f_equal. lia.
Qed.

Lemma signature_complete file reads bs base k : (0 < bs)%nat -> Forall (eq bs) reads ->
  (length file <= bs * length reads)%nat ->
  0 <= base -> base * Z.of_nat bs + Z.of_nat (length file) <= 2 ^ 32 * Z.of_nat bs ->
  (k * bs < length file)%nat ->
  {| sig_index := base + Z.of_nat k; sig_rolling := digest (update (block file bs k));
     sig_strong := xxh3_64 (block file bs k) |} ∈ signature_loop xxh3_64 file reads base.
Proof.
  intros Hbs Hr. revert file base k. induction Hr as [|n reads <- Hr IH]; intros file base k Hl Hb Hlen Hk;
    cbn [signature_loop length] in *; [lia|].
  destruct (Nat.eqb_spec (length (take bs file)) 0) as [E|E]; [rewrite length_take in E; lia|].
  rewrite elem_of_cons. destruct k as [|k].
  - left. unfold block. cbn [Nat.mul]. by rewrite drop_0, Z.add_0_r.
  - right. assert (u32 (base + 1) = base + 1) as -> by (apply Z.mod_small; nia).
    assert (block file bs (S k) = block (drop bs file) bs k) as ->
      by (unfold block; rewrite drop_drop; do 2 f_equal; lia).
    replace (base + Z.of_nat (S k)) with (base + 1 + Z.of_nat k) by lia.
    apply IH; rewrite ?length_drop; lia.
Qed.

(** The strong hash separates the windows of the new file from the blocks of
    the old one that share their rolling digest. *)
Definition no_collision (old new : bytes) (bs : nat) : Prop :=
  forall p k, (p + bs <= length new)%nat -> (k * bs < length old)%nat ->
    digest (update (take bs (drop p new))) = digest (update (block old bs k)) ->
    xxh3_64 (take bs (drop p new)) = xxh3_64 (block old bs k) ->
    take bs (drop p new) = block old bs k.

Definition window (new : bytes) (bs pos : nat) : bytes := take bs (drop pos new).

Lemma window_roll new bs pos o n : (0 < bs)%nat -> (pos + 1 + bs <= length new)%nat ->
  new !! pos = Some o -> new !! (pos + 1 + bs - 1)%nat = Some n ->
  roll (update (window new bs pos)) o n = update (window new bs (pos + 1)).
Proof.
  intros Hbs Hl Ho Hn. destruct bs as [|bs]; [lia|]. unfold window.
  rewrite (drop_S _ _ _ Ho). cbn [take]. replace (pos + 1)%nat with (S pos) by lia.
  rewrite (take_S_r _ _ n); [apply roll_update_eq|]. rewrite lookup_drop. rewrite <-Hn. f_equal. lia.
Qed.

(** The candidates the loop looks up at a position where the rolling state is exact. *)
Definition candidate_at (lookup : gmap Z (list (Z * Z))) (new : bytes) (bs pos : nat) : option Z :=
  candidates ← lookup !! digest (update (window new bs pos));
  find_candidate candidates (xxh3_64 (window new bs pos)).

Lemma slice_window new bs pos : (pos + bs <= length new)%nat ->
  slice (E := Empty_set) new pos (pos + bs) = Ok (window new bs pos).
Proof. intros. rewrite slice_Ok by lia. unfold window. do 2 f_equal. lia. Qed.

(** One turn of the loop, with the rolling state kept exact. *)
Lemma delta_loop_step f new bs lookup pos lit ops rolling : (0 < bs)%nat -> (pos + bs <= length new)%nat ->
  rolling = update (window new bs pos) ->
  exists rolling',
    (forall pos', pos' = match candidate_at lookup new bs pos with Some _ => (pos + bs)%nat | None => (pos + 1)%nat end ->
       (pos' + bs <= length new)%nat -> rolling' = update (window new bs pos')) /\
    delta_loop xxh3_64 (S f) new bs lookup pos rolling lit ops =
    match candidate_at lookup new bs pos with
    | Some i => delta_loop xxh3_64 f new bs lookup (pos + bs) rolling' [] (flush_literal ops lit ++ [CopyBlock i])
    | None => delta_loop xxh3_64 f new bs lookup (pos + 1) rolling' (lit ++ [new !!! pos]) ops
    end.
Proof.
  intros Hbs Hl ->. cbn [delta_loop].
  destruct (Nat.ltb_spec (length new) (pos + bs)); [lia|]. rewrite (slice_window new bs pos) by done.
  cbn [mbind rust_bind]. cbv zeta. fold (candidate_at lookup new bs pos).
  destruct (candidate_at lookup new bs pos) as [i|].
  - destruct (Nat.leb_spec (pos + bs + bs) (length new)).
    + rewrite slice_window by lia. cbn [mbind rust_bind]. eexists. split; [|done]. by intros ? -> ?.
    + eexists. split; [|done]. intros ? -> ?. lia.
  - rewrite (idx_total new pos) by lia. cbn [mbind rust_bind].
    destruct (Nat.leb_spec (pos + 1 + bs) (length new)).
    + rewrite (idx_total new (pos + 1 - 1)), (idx_total new (pos + 1 + bs - 1)) by lia.
      cbn [mbind rust_bind]. eexists. split; [|done]. intros ? -> ?.
      replace (pos + 1 - 1)%nat with pos by lia.
      apply window_roll; [done..| |]; apply list_lookup_lookup_total_lt; lia.
    + eexists. split; [|done]. intros ? -> ?. lia.
Qed.

Lemma delta_loop_ok fuel new bs lookup old pos rolling lit ops : (0 < bs)%nat -> (pos <= length new)%nat ->
  (length new - pos < fuel)%nat ->
  ((pos + bs <= length new)%nat -> rolling = update (window new bs pos)) ->
  (forall p i, (p + bs <= length new)%nat -> candidate_at lookup new bs p = Some i ->
     apply_op old bs (CopyBlock i) = window new bs p) ->
  exists ops', delta_loop xxh3_64 fuel new bs lookup pos rolling lit ops = Ok ops' /\
    applied old bs ops' = applied old bs ops ++ lit ++ drop pos new.
Proof.
  intros Hbs Hpos Hf Hroll Hc. revert pos rolling lit ops Hpos Hf Hroll.
  induction fuel as [|f IH]; intros pos rolling lit ops Hpos Hf Hroll; [lia|].
  destruct (decide (pos + bs <= length new)%nat) as [Hl|Hl].
  - destruct (delta_loop_step f new bs lookup pos lit ops rolling Hbs Hl (Hroll Hl)) as (r' & Hr' & ->).
    destruct (candidate_at lookup new bs pos) as [i|] eqn:Ec.
    + destruct (IH (pos + bs)%nat r' [] (flush_literal ops lit ++ [CopyBlock i])) as (ops' & -> & Ha);
        [lia|lia|by apply Hr'|]. exists ops'. split; [done|].
      rewrite Ha, applied_app, applied_flush. unfold applied at 2. cbn [map concat].
      rewrite (Hc pos i Hl Ec), app_nil_r, <-!app_assoc. cbn [app]. do 2 f_equal.
      unfold window. rewrite <-drop_drop. apply take_drop.
    + destruct (IH (pos + 1)%nat r' (lit ++ [new !!! pos]) ops) as (ops' & -> & Ha); [lia|lia|by apply Hr'|].
      exists ops'. split; [done|]. rewrite Ha, <-!app_assoc. cbn [app]. do 2 f_equal.
      replace (pos + 1)%nat with (S pos) by lia. symmetry. apply drop_S, list_lookup_lookup_total_lt. lia.
  - cbn [delta_loop]. destruct (Nat.ltb_spec (length new) (pos + bs)); [|lia].
    rewrite slice_Ok by lia. cbn [mbind rust_bind]. eexists. split; [done|].
    rewrite applied_flush. rewrite take_ge; [done|]. rewrite length_drop. lia.
Qed.

Lemma delta_applies old new bs reads : (0 < bs)%nat -> Forall (eq bs) reads ->
  Z.of_nat (length old) <= 2 ^ 32 * Z.of_nat bs -> no_collision old new bs ->
  exists ops, compute_delta xxh3_64 new (compute_block_signatures xxh3_64 old reads) bs = Ok ops /\
    reconstruct_file old ops bs = (new, u64 (Z.of_nat (length new))).
Proof.
  intros Hbs Hr Hlen Hnc.
  cut (exists ops, compute_delta xxh3_64 new (compute_block_signatures xxh3_64 old reads) bs = Ok ops /\
    applied old bs ops = new); [intros (ops & Hd & Ha); exists ops; by rewrite reconstruct_eq, Ha|].
  assert (forall data, applied old bs [Literal data] = data) as Hlit
    by (intros; unfold applied; cbn; by rewrite app_nil_r).
  unfold compute_delta, compute_block_signatures.
  destruct (signature_loop xxh3_64 old reads 0) as [|sg sgs] eqn:Es.
  { destruct new as [|b l] eqn:En; eexists; (split; [done|]); [done|by rewrite Hlit]. }
  rewrite <-Es. destruct new as [|b l] eqn:En; [by exists []|]. rewrite <-En in *.
  cbv zeta. destruct (Nat.ltb_spec (length new) bs) as [Hlt|Hge]; [exists [Literal new]; by rewrite Hlit|].
  change bs with (0 + bs)%nat at 2. rewrite slice_window by (cbn; lia). cbn [mbind rust_bind].
  destruct (delta_loop_ok (S (length new)) new bs (build_signature_lookup (signature_loop xxh3_64 old reads 0))
    old 0 (update (window new bs 0)) [] []) as (ops & -> & Ha); [done|lia|lia|done| |by exists ops].
  intros p i Hp. unfold candidate_at. intros (c & Hc & Hi%find_candidate_Some)%bind_Some.
  assert ((xxh3_64 (window new bs p), i) ∈ default [] (build_signature_lookup (signature_loop xxh3_64 old reads 0)
    !! digest (update (window new bs p)))) as Hin by (by rewrite Hc).
  apply lookup_elem, (signature_elem _ _ bs) in Hin as (k & Hk & [= -> Hdg Hst]); [|done|done|lia|lia].
  rewrite Z.add_0_l. rewrite apply_copy by done. symmetry. by apply Hnc.
Qed.

(** C35.  Delta transfer is lossless: with the old file's signatures taken from
    full reads, and a strong hash that separates what it must, the scan
    terminates without a panic and applying its operations to the old file
    writes exactly the new file and reports its length. *)
Theorem delta_roundtrip old new bs reads : (0 < bs)%nat -> Forall (eq bs) reads ->
  Z.of_nat (length old) <= 2 ^ 32 * Z.of_nat bs -> no_collision old new bs ->
  exists ops, compute_delta xxh3_64 new (compute_block_signatures xxh3_64 old reads) bs = Ok ops /\
    reconstruct_file old ops bs = (new, u64 (Z.of_nat (length new))).
Proof. apply delta_applies. Qed.

Lemma candidate_at_own file reads bs p : (0 < bs)%nat -> Forall (eq bs) reads ->
  (length file <= bs * length reads)%nat -> Z.of_nat (length file) <= 2 ^ 32 * Z.of_nat bs ->
  (p * bs < length file)%nat ->
  is_Some (candidate_at (build_signature_lookup (compute_block_signatures xxh3_64 file reads)) file bs (p * bs)).
Proof.
  intros Hbs Hr Hc Hl Hp.
  pose proof (signature_complete file reads bs 0 p Hbs Hr Hc (Z.le_refl 0) ltac:(lia) Hp) as Hin.
  apply lookup_elem in Hin. unfold candidate_at, compute_block_signatures.
  change (window file bs (p * bs)) with (block file bs p).
  destruct (build_signature_lookup _ !! _) as [c|]; [|by apply elem_of_nil in Hin].
  cbn. by eapply find_candidate_is_Some.
Qed.

Lemma delta_loop_own fuel file bs lookup j n ops rolling : (0 < bs)%nat ->
  length file = (n * bs)%nat -> (j <= n)%nat -> (n - j < fuel)%nat ->
  (forall p, (p < n)%nat -> is_Some (candidate_at lookup file bs (p * bs))) ->
  ((j * bs + bs <= length file)%nat -> rolling = update (window file bs (j * bs))) ->
  exists idxs, delta_loop xxh3_64 fuel file bs lookup (j * bs) rolling [] ops = Ok (ops ++ map CopyBlock idxs) /\
    length idxs = (n - j)%nat.
Proof.
  intros Hbs Hn Hj Hf Hc. revert j ops rolling Hj Hf. induction fuel as [|f IH]; intros j ops rolling Hj Hf Hr; [lia|].
  destruct (decide (j = n)) as [->|Hne].
  - exists []. cbn [delta_loop]. destruct (Nat.ltb_spec (length file) (n * bs + bs)); [|lia].
    rewrite slice_Ok by lia. cbn [mbind rust_bind]. rewrite drop_ge, take_nil by lia. cbn.
    by rewrite app_nil_r, Nat.sub_diag.
  - assert (j * bs + bs <= length file)%nat as Hl by nia.
    destruct (delta_loop_step f file bs lookup (j * bs) [] ops rolling Hbs Hl (Hr Hl)) as (r' & Hr' & ->).
    destruct (Hc j) as [i Hi]; [lia|]. rewrite Hi in *.
    destruct (IH (S j) (ops ++ [CopyBlock i]) r') as (idxs & HI & Hlen); [lia|lia| |].
    { intros Hl'. replace (S j * bs)%nat with (j * bs + bs)%nat in * by lia. by apply Hr'. }
    exists (i :: idxs). cbn [flush_literal]. replace (j * bs + bs)%nat with (S j * bs)%nat by lia.
    rewrite HI. cbn. rewrite <-app_assoc, Hlen. split; [done|lia].
Qed.

(** An unchanged file costs no literal bytes: against its own signatures, a
    file of [n] whole blocks yields exactly [n] block copies and nothing else,
    whatever the hash functions collide on. *)
Theorem delta_identical_all_copies file bs n reads : (0 < bs)%nat -> (0 < n)%nat ->
  length file = (n * bs)%nat -> Forall (eq bs) reads -> (length file <= bs * length reads)%nat ->
  Z.of_nat n <= 2 ^ 32 ->
  exists idxs, compute_delta xxh3_64 file (compute_block_signatures xxh3_64 file reads) bs =
    Ok (map CopyBlock idxs) /\ length idxs = n.
Proof.
  intros Hbs Hn0 Hn Hr Hc H32.
  pose proof (signature_complete file reads bs 0 0 Hbs Hr Hc (Z.le_refl 0) ltac:(nia) ltac:(nia)) as Hin.
  unfold compute_delta. fold (compute_block_signatures xxh3_64 file reads) in Hin.
  destruct (compute_block_signatures xxh3_64 file reads) as [|sg sgs] eqn:Es; [by apply elem_of_nil in Hin|].
  rewrite <-Es. destruct file as [|b l] eqn:Ef; [cbn in Hn; nia|]. rewrite <-Ef in *. cbv zeta.
  destruct (Nat.ltb_spec (length file) bs); [nia|].
  change bs with (0 + bs)%nat at 2. rewrite slice_window by (cbn; lia). cbn [mbind rust_bind].
  destruct (delta_loop_own (S (length file)) file bs
    (build_signature_lookup (compute_block_signatures xxh3_64 file reads)) 0 n [] (update (window file bs 0)))
    as (idxs & HI & Hlen); [done|done|lia|nia| |done|].
  { intros p Hp. apply candidate_at_own; try done; nia. }
  exists idxs. cbn [Nat.mul] in HI. rewrite HI. split; [done|lia].
Qed.

(** A block size of zero, which the sender takes from its peer unchecked,
    never yields operations: the scan of a file either fails to terminate or
    panics on the index past the end, for every fuel and every signature table. *)
Theorem delta_zero_block_size fuel new lookup pos rolling lit ops : (pos <= length new)%nat ->
  delta_loop xxh3_64 fuel new 0 lookup pos rolling lit ops = Panic.
Proof.
  revert pos rolling lit ops. induction fuel as [|f IH]; intros pos rolling lit ops Hp; [done|].
  cbn [delta_loop]. rewrite Nat.add_0_r. destruct (Nat.ltb_spec (length new) pos); [lia|].
  rewrite (slice_Ok new pos pos) by lia. cbn [mbind rust_bind]. cbv zeta.
  match goal with |- context[match ?c with Some _ => _ | None => _ end] => destruct c as [i|] end;
    rewrite ?Nat.add_0_r.
  - destruct (Nat.leb_spec pos (length new)); [|lia]. rewrite (slice_Ok new pos pos) by lia.
    cbn [mbind rust_bind]. by apply IH.
  - destruct (decide (pos = length new)) as [->|Hne].
    + by rewrite (idx_out new (length new)).
    + rewrite (idx_total new pos) by lia. cbn [mbind rust_bind].
      destruct (Nat.leb_spec (pos + 1) (length new)); [|lia].
      rewrite !(idx_total new (pos + 1 - 1)) by lia. cbn [mbind rust_bind]. apply IH. lia.
Qed.
End DeltaProofs.

(** ** Concrete runs, with a hash that is injective on short inputs *)
Definition demo_hash (l : bytes) : Z := foldr (fun b acc => acc * 257 + b + 1) 0 l.
Definition demo_old : bytes := [1; 2; 3; 4].
Definition demo_new : bytes := [9; 1; 2; 3; 4; 7].

Lemma demo_no_collision : no_collision demo_hash demo_old demo_new 2.
Proof.
  intros p k Hp Hk. cbn in Hp, Hk.
  destruct k as [|[|k]]; [..|lia];
    (destruct p as [|[|[|[|[|p]]]]]; [..|lia]); vm_compute; congruence.
Qed.

Lemma delta_roundtrip_witness :
  exists ops, compute_delta demo_hash demo_new (compute_block_signatures demo_hash demo_old [2; 2; 2]%nat) 2 = Ok ops /\
    reconstruct_file demo_old ops 2 = (demo_new, 6).
Proof.
  apply (delta_roundtrip demo_hash demo_old demo_new 2 [2; 2; 2]%nat);
    [lia|repeat constructor|vm_compute; discriminate|exact demo_no_collision].
Defined.

Lemma delta_identical_all_copies_witness :
  exists idxs, compute_delta demo_hash demo_old (compute_block_signatures demo_hash demo_old [2; 2; 2]%nat) 2 =
    Ok (map CopyBlock idxs) /\ length idxs = 2%nat.
Proof.
  apply (delta_identical_all_copies demo_hash demo_old 2 2 [2; 2; 2]%nat);
    [lia|lia|reflexivity|repeat constructor|cbn; lia|lia].
Defined.

Lemma delta_zero_block_size_witness :
  delta_loop demo_hash 1000 demo_new 0 ∅ 0 rolling_new [] [] = Panic.
Proof. apply (delta_zero_block_size demo_hash 1000 demo_new ∅ 0 rolling_new [] []). lia. Defined.

(** A short read while signing breaks the correspondence between block
    indices and offsets: although the hash is collision-free, signatures taken
    with a first read of one byte make the reconstruction write a different
    file. *)
Theorem delta_short_read_corrupts :
  no_collision demo_hash demo_old [2; 3] 2 /\
  compute_delta demo_hash [2; 3] (compute_block_signatures demo_hash demo_old [1; 2; 2]%nat) 2 = Ok [CopyBlock 1] /\
  reconstruct_file demo_old [CopyBlock 1] 2 = ([3; 4], 2).
Proof.
  split; [|split; vm_compute; reflexivity].
  intros p k Hp Hk. cbn in Hp, Hk. destruct p; [|lia].
  destruct k as [|[|k]]; [..|lia]; vm_compute; congruence.
Qed.
