(* ===== verification/Frame.v ===== *)
(** * Frame: length-prefixed message framing (hop-core/src/proto/mod.rs)

    Writing and reading frames on a byte stream, the optional zstd compression
    marked by the top bit of the length word, and the cancellation-safe
    [FramedReader].  The serializer (bincode) and the compressor (zstd) are
    interfaces with the laws framing relies on. *)
From S2P Require Import Prelude.
Local Open Scope Z_scope.

(** ** The crates framing calls, as interfaces *)

(** bincode, for one message type: encoding may fail; decoding a slice returns the
    message and ignores what follows it. *)
Class Bincode (T : Type) := {
  encode_to_vec : T -> option bytes;
  decode_from_slice : bytes -> option T;
  bincode_roundtrip : forall m p, encode_to_vec m = Some p -> decode_from_slice p = Some m;
}.
(** zstd: [decompress] fails beyond its capacity. *)
Class Zstd := {
  zstd_compress : bytes -> option bytes;
  zstd_decompress : bytes -> Z -> option bytes;
  zstd_roundtrip : forall p c cap, zstd_compress p = Some c -> Z.of_nat (length p) <= cap ->
    zstd_decompress c cap = Some p;
}.

Inductive frame_error :=
  | EncodeFailed | ReadLength | ReadPayload | FrameTooLarge (len : Z)
  | DecompressFailed | DecodeFailed | ConnectionClosed.

Definition COMPRESS_FLAG : Z := 0x80000000.
Definition COMPRESS_THRESHOLD : Z := 64.
Definition MAX_DECOMPRESSED : Z := 64 * 1024 * 1024.
Definition MAX_FRAME_LEN : Z := 16 * 1024 * 1024.

Section Frame.
Context {T : Type} `{Bincode T, Zstd}.

(** ** Writing: the bytes put on the stream *)
Definition write_message (msg : T) : rust frame_error bytes :=
  match encode_to_vec msg with
  | None => Err EncodeFailed
  | Some payload => Ok (to_be32 (u32 (Z.of_nat (length payload))) ++ payload)
  end.

(** The same frame; the caller flushes. *)
Definition write_message_buffered (msg : T) : rust frame_error bytes :=
  match encode_to_vec msg with
  | None => Err EncodeFailed
  | Some payload => Ok (to_be32 (u32 (Z.of_nat (length payload))) ++ payload)
  end.

Definition write_message_compressed (msg : T) : rust frame_error bytes :=
  match encode_to_vec msg with
  | None => Err EncodeFailed
  | Some payload =>
      let plain := to_be32 (u32 (Z.of_nat (length payload))) ++ payload in
      if COMPRESS_THRESHOLD <? Z.of_nat (length payload) then
        match zstd_compress payload with
        | Some compressed =>
            if (length compressed <? length payload)%nat then
              let len := u32 (Z.of_nat (length compressed)) .| COMPRESS_FLAG in
              Ok (to_be32 len ++ compressed)
            else Ok plain
        | None => Ok plain
        end
      else Ok plain
  end.

(** ** Reading *)
Definition decode_frame (raw_len : Z) (payload : bytes) : rust frame_error T :=
  let compressed := negb ((raw_len .& COMPRESS_FLAG) =? 0) in
  decode_buf ← (if compressed then
                  match zstd_decompress payload MAX_DECOMPRESSED with
                  | Some d => Ok d
                  | None => Err DecompressFailed
                  end
                else Ok payload);
  match decode_from_slice decode_buf with
  | Some msg => Ok msg
  | None => Err DecodeFailed
  end.

(** [raw_len & !COMPRESS_FLAG], on 32 bits. *)
Definition payload_len_of (raw_len : Z) : Z := raw_len .& (2 ^ 32 - 1 - COMPRESS_FLAG).

(** [AsyncReadExt::read_exact]: the bytes and the rest of the stream, or the
    context's error at the end of the stream. *)
Definition read_exact (e : frame_error) (stream : bytes) (n : nat) : rust frame_error (bytes * bytes) :=
  if (length stream <? n)%nat then Err e else Ok (take n stream, drop n stream).

Definition from_be32_bytes (b : bytes) : Z := from_be32 (b !!! 0%nat) (b !!! 1%nat) (b !!! 2%nat) (b !!! 3%nat).

(** The message and the unread rest of the stream. *)
Definition read_message (stream : bytes) : rust frame_error (T * bytes) :=
  '(len_buf, stream) ← read_exact ReadLength stream 4;
  let raw_len := from_be32_bytes len_buf in
  let len := payload_len_of raw_len in
  if MAX_FRAME_LEN <? len then Err (FrameTooLarge len) else
  '(payload, stream) ← read_exact ReadPayload stream (Z.to_nat len);
  msg ← decode_frame raw_len payload;
  Ok (msg, stream).

(** ** The cancellation-safe reader

    The struct without its stream, which is passed alongside.  A call to [next]
    is given the sizes its successive [read] calls may return at most; running
    out of them means the future was dropped while a [read] was pending. *)
Record FramedReader := {
  len_buf : bytes;
  len_got : nat;
  raw_len : Z;
  payload : bytes;
  payload_len : option nat;
  payload_got : nat;
}.
Definition reader_new : FramedReader :=
  {| len_buf := [0; 0; 0; 0]; len_got := 0; raw_len := 0; payload := []; payload_len := None; payload_got := 0 |}.
Definition reader_reset (r : FramedReader) : FramedReader :=
  {| len_buf := len_buf r; len_got := 0; raw_len := raw_len r; payload := [];
     payload_len := None; payload_got := 0 |}.

(** [read] into a buffer with room for [space]: at most [k] bytes arrive. *)
Definition read_some (k space : nat) (stream : bytes) : bytes * bytes :=
  let n := Nat.min k space in (take n stream, drop n stream).

(** What a call to [next] ends in: its value, or nothing when it was cancelled. *)
Inductive polled (A : Type) := Ready (a : A) | Cancelled.
Arguments Ready {A} a.
Arguments Cancelled {A}.

(** The completion: take the payload, reset, decode. *)
Definition reader_finish (r : FramedReader) : rust frame_error T * FramedReader :=
  let '(raw, pl) := (raw_len r, payload r) in
  (decode_frame raw pl, reader_reset r).

Fixpoint reader_next (reads : list nat) (r : FramedReader) (stream : bytes) :
    polled (rust frame_error T) * FramedReader * bytes :=
  match payload_len r with
  | None =>
      match reads with
      | [] => (Cancelled, r, stream)
      | k :: reads =>
          let '(got, stream) := read_some k (4 - len_got r) stream in
          let n := length got in
          if (n =? 0)%nat then (Ready (Err ConnectionClosed), r, stream) else
          let r := {| len_buf := copy_at (len_buf r) (len_got r) got; len_got := len_got r + n;
                      raw_len := raw_len r; payload := payload r; payload_len := None;
                      payload_got := payload_got r |} in
          if (len_got r =? 4)%nat then
            let raw := from_be32_bytes (len_buf r) in
            let len := payload_len_of raw in
            if MAX_FRAME_LEN <? len then
              (Ready (Err (FrameTooLarge len)),
               {| len_buf := len_buf r; len_got := len_got r; raw_len := raw; payload := payload r;
                  payload_len := None; payload_got := payload_got r |}, stream)
            else
              reader_next reads
                {| len_buf := len_buf r; len_got := len_got r; raw_len := raw;
                   payload := replicate (Z.to_nat len) 0; payload_len := Some (Z.to_nat len);
                   payload_got := 0 |} stream
          else reader_next reads r stream
      end
  | Some len =>
      if (payload_got r <? len)%nat then
        match reads with
        | [] => (Cancelled, r, stream)
        | k :: reads =>
            let '(got, stream) := read_some k (length (payload r) - payload_got r) stream in
            let n := length got in
            if (n =? 0)%nat then (Ready (Err ConnectionClosed), r, stream) else
            let r := {| len_buf := len_buf r; len_got := len_got r; raw_len := raw_len r;
                        payload := copy_at (payload r) (payload_got r) got;
                        payload_len := Some len; payload_got := payload_got r + n |} in
            if (len <=? payload_got r)%nat then
              let '(res, r) := reader_finish r in (Ready res, r, stream)
            else reader_next reads r stream
        end
      else
        let '(res, r) := reader_finish r in (Ready res, r, stream)
  end.
End Frame.
Arguments Ready {A} a.
Arguments Cancelled {A}.

(** ** Correctness *)
Section FrameProofs.
Context {T : Type} `{Bincode T, Zstd}.

Lemma from_to_be32_bytes x : is_u32 x -> from_be32_bytes (to_be32 x) = x.
Proof. intros Hx. unfold from_be32_bytes, to_be32. cbn. by apply from_to_be32. Qed.

(** Reading past a complete length word. *)
Lemma read_message_header lb rest : length lb = 4%nat ->
  read_message (T := T) (lb ++ rest) =
    let raw := from_be32_bytes lb in
    let len := payload_len_of raw in
    if MAX_FRAME_LEN <? len then Err (FrameTooLarge len) else
    if (length rest <? Z.to_nat len)%nat then Err ReadPayload else
    msg ← decode_frame raw (take (Z.to_nat len) rest); Ok (msg, drop (Z.to_nat len) rest).
Proof.
  intros Hl. unfold read_message.
  assert (read_exact ReadLength (lb ++ rest) 4 = Ok (lb, rest)) as ->.
  { unfold read_exact. rewrite length_app, Hl. destruct (Nat.ltb_spec (4 + length rest) 4); [lia|].
    by rewrite <-Hl, take_app_length, drop_app_length. }
  cbn [mbind rust_bind]. cbv zeta. case_match; [done|].
  unfold read_exact. by destruct (_ <? _)%nat.
Qed.

Lemma payload_len_small n : 0 <= n <= MAX_FRAME_LEN -> payload_len_of n = n.
Proof.
  intros Hn. unfold payload_len_of, COMPRESS_FLAG. change (2 ^ 32 - 1 - 0x80000000) with (Z.ones 31).
  rewrite Z.land_ones by lia. apply Z.mod_small. unfold MAX_FRAME_LEN in Hn. lia.
Qed.
Lemma payload_len_flag n : 0 <= n <= MAX_FRAME_LEN -> payload_len_of (n .| COMPRESS_FLAG) = n.
Proof.
  intros Hn. pose proof (payload_len_small n Hn) as E. unfold payload_len_of in *.
  rewrite Z.land_lor_distr_l, E. change (COMPRESS_FLAG .& (2 ^ 32 - 1 - COMPRESS_FLAG)) with 0. apply Z.lor_0_r.
Qed.
Lemma flag_small n : 0 <= n <= MAX_FRAME_LEN -> n .& COMPRESS_FLAG = 0.
Proof.
  intros Hn. rewrite <-(payload_len_small n Hn). unfold payload_len_of. rewrite <-Z.land_assoc.
  change ((2 ^ 32 - 1 - COMPRESS_FLAG) .& COMPRESS_FLAG) with 0. apply Z.land_0_r.
Qed.
Lemma flag_flag n : 0 <= n <= MAX_FRAME_LEN -> (n .| COMPRESS_FLAG) .& COMPRESS_FLAG = COMPRESS_FLAG.
Proof. intros Hn. by rewrite Z.land_lor_distr_l, flag_small by done. Qed.
Lemma flag_u32 n : 0 <= n <= MAX_FRAME_LEN -> is_u32 (n .| COMPRESS_FLAG).
Proof.
  intros Hn. unfold is_u32. assert (n .| COMPRESS_FLAG = n + COMPRESS_FLAG) as ->.
  { rewrite <-(Z.lxor_lor n) by (by apply flag_small). symmetry. by apply Z.add_nocarry_lxor, flag_small. }
  unfold MAX_FRAME_LEN, COMPRESS_FLAG in *. lia.
Qed.

(** A frame whose length word announces its payload. *)
Lemma read_frame raw p rest : is_u32 raw -> payload_len_of raw = Z.of_nat (length p) ->
  Z.of_nat (length p) <= MAX_FRAME_LEN ->
  read_message (T := T) (to_be32 raw ++ p ++ rest) = msg ← decode_frame raw p; Ok (msg, rest).
Proof.
  intros Hr Hp Hm. rewrite read_message_header by done. cbv zeta.
  rewrite from_to_be32_bytes, Hp by done. destruct (Z.ltb_spec MAX_FRAME_LEN (Z.of_nat (length p))); [lia|].
  rewrite Nat2Z.id, length_app. destruct (Nat.ltb_spec (length p + length rest) (length p)); [lia|].
  by rewrite take_app_length, drop_app_length.
Qed.

(** A message written by any of the writers is read back. *)
Lemma frame_read_back (msg : T) p rest : encode_to_vec msg = Some p ->
  Z.of_nat (length p) <= MAX_FRAME_LEN ->
  exists f g, write_message msg = Ok f /\ write_message_buffered msg = Ok f /\
    write_message_compressed msg = Ok g /\
    read_message (f ++ rest) = Ok (msg, rest) /\ read_message (g ++ rest) = Ok (msg, rest).
Proof.
  intros He Hp. pose proof (bincode_roundtrip _ _ He) as Hd.
  assert (u32 (Z.of_nat (length p)) = Z.of_nat (length p)) as Hu
    by (apply Z.mod_small; unfold MAX_FRAME_LEN in Hp; lia).
  assert (is_u32 (Z.of_nat (length p))) by (unfold is_u32, MAX_FRAME_LEN in *; lia).
  unfold write_message, write_message_buffered, write_message_compressed. rewrite He, Hu.
  set (f := to_be32 (Z.of_nat (length p)) ++ p).
  assert (read_message (f ++ rest) = Ok (msg, rest)) as Hf.
  { subst f. rewrite <-app_assoc, read_frame by (done || apply payload_len_small; lia).
    unfold decode_frame. rewrite flag_small by lia. cbn [Z.eqb negb mbind rust_bind]. by rewrite Hd. }
  assert (forall g, g = f -> exists f' g', Ok (E := frame_error) f = Ok f' /\ Ok (E := frame_error) f = Ok f' /\
    Ok (E := frame_error) g = Ok g' /\ read_message (f' ++ rest) = Ok (msg, rest) /\
    read_message (g' ++ rest) = Ok (msg, rest)) as Hplain by (intros g ->; eauto 10).
  cbv zeta. destruct (COMPRESS_THRESHOLD <? _); [|by apply Hplain].
  destruct (zstd_compress p) as [c|] eqn:Ec; [|by apply Hplain].
  destruct (Nat.ltb_spec (length c) (length p)) as [Hlt|]; [|by apply Hplain].
  eexists _, _. split_and!; [done..|].
  assert (u32 (Z.of_nat (length c)) = Z.of_nat (length c)) as ->
    by (apply Z.mod_small; unfold MAX_FRAME_LEN in Hp; lia).
  rewrite <-app_assoc, read_frame; [|apply flag_u32; lia|apply payload_len_flag; lia|lia].
  unfold decode_frame. rewrite flag_flag by lia. cbn [Z.eqb COMPRESS_FLAG negb].
  rewrite (zstd_roundtrip _ _ _ Ec) by (unfold MAX_FRAME_LEN, MAX_DECOMPRESSED in *; lia).
  cbn [mbind rust_bind]. by rewrite Hd.
Qed.

(** Framing round trip: a message whose encoding is at most 16 MiB is read
    back, followed by exactly the rest of the stream, whichever of the three
    writers wrote it and whether or not compression was applied. *)
Theorem frame_roundtrip (msg : T) p rest : encode_to_vec msg = Some p ->
  Z.of_nat (length p) <= MAX_FRAME_LEN ->
  exists f g, write_message msg = Ok f /\ write_message_buffered msg = Ok f /\
    write_message_compressed msg = Ok g /\
    read_message (f ++ rest) = Ok (msg, rest) /\ read_message (g ++ rest) = Ok (msg, rest).
Proof. apply frame_read_back. Qed.

(** ** The reader's state is a consumed prefix of the stream *)
Inductive rep (r : FramedReader) (c : bytes) : Prop :=
  | rep_len :
      payload_len r = None -> len_got r = length c -> (length c < 4)%nat -> length (len_buf r) = 4%nat ->
      take (length c) (len_buf r) = c -> rep r c
  | rep_payload n :
      payload_len r = Some n -> length (len_buf r) = 4%nat -> raw_len r = from_be32_bytes (len_buf r) ->
      payload_len_of (raw_len r) <= MAX_FRAME_LEN -> n = Z.to_nat (payload_len_of (raw_len r)) ->
      length (payload r) = n -> (payload_got r <= n)%nat ->
      c = len_buf r ++ take (payload_got r) (payload r) -> rep r c.

(** Waiting for more bytes. *)
Definition incomplete (r : FramedReader) : Prop :=
  forall n, payload_len r = Some n -> (payload_got r < n)%nat.

Lemma rep_new : rep reader_new [].
Proof. apply rep_len; cbn; done || lia. Qed.

Lemma rep_finish r : length (len_buf r) = 4%nat -> rep (reader_reset r) [].
Proof. intros. apply rep_len; try done. cbn. lia. Qed.

Lemma take_copy_at (l : bytes) a got : (a + length got <= length l)%nat ->
  take (a + length got) (copy_at l a got) = take a l ++ got.
Proof.
  intros Hl. unfold copy_at. rewrite app_assoc. apply take_app_length'. rewrite length_app, length_take. lia.
Qed.

Lemma read_some_spec k space s : (0 < k)%nat -> (0 < space)%nat ->
  let '(got, s') := read_some k space s in
  s = got ++ s' /\ (length got <= space)%nat /\ (got = [] -> s = []).
Proof.
  intros Hk Hs. cbn. split; [by rewrite take_drop|]. split; [rewrite length_take; lia|].
  intros Hg%(f_equal length). rewrite length_take in Hg. apply length_zero_iff_nil. cbn in Hg. lia.
Qed.

(** What a finished or interrupted call means for [read_message] on the whole stream. *)
Definition next_spec (c s : bytes) (reads : list nat)
    (out : polled (rust frame_error T) * FramedReader * bytes) : Prop :=
  let '(res, r', s') := out in
  match res with
  | Cancelled => exists got, s = got ++ s' /\ rep r' (c ++ got) /\ incomplete r' /\
      (length reads <= length got)%nat
  | Ready (Ok m) => read_message (c ++ s) = Ok (m, s') /\ rep r' []
  | Ready (Err ConnectionClosed) => s' = [] /\
      (read_message (T := T) (c ++ s) = Err ReadLength \/ read_message (T := T) (c ++ s) = Err ReadPayload)
  | Ready (Err e) => read_message (T := T) (c ++ s) = Err e
  | Ready Panic => False
  end.

Lemma decode_frame_not_closed raw p :
  decode_frame (T := T) raw p <> Err ConnectionClosed /\ decode_frame (T := T) raw p <> Panic.
Proof. unfold decode_frame. cbv zeta. repeat (case_match; cbn; try done). Qed.

Lemma reader_finish_spec c s reads r n : payload_len r = Some n -> rep r c -> payload_got r = n ->
  next_spec c s reads (let '(res, r') := reader_finish r in (Ready res, r', s)).
Proof.
  intros Hn [Hno|n' Hn' Hb Hraw Hmax Hlen Hpl Hgot ->] Hg; [congruence|].
  assert (n' = n) as -> by congruence. rewrite Hlen in Hg, Hpl.
  assert (read_message (T := T) ((len_buf r ++ take (payload_got r) (payload r)) ++ s) =
    msg ← decode_frame (raw_len r) (payload r); Ok (msg, s)) as Hrm.
  { rewrite <-app_assoc, read_message_header by done. cbv zeta. rewrite <-Hraw.
    destruct (Z.ltb_spec MAX_FRAME_LEN (payload_len_of (raw_len r))); [lia|].
    rewrite take_ge by lia. rewrite length_app, Hpl.
    destruct (Nat.ltb_spec (Z.to_nat (payload_len_of (raw_len r)) + length s) (Z.to_nat (payload_len_of (raw_len r))));
      [lia|]. by rewrite <-Hpl, take_app_length, drop_app_length. }
  destruct (decode_frame_not_closed (raw_len r) (payload r)) as [Hnc Hnp].
  unfold reader_finish, next_spec. rewrite Hrm.
  destruct (decode_frame (raw_len r) (payload r)) as [m|e|]; [|by destruct e|done].
  split; [done|by apply rep_finish].
Qed.

Lemma next_spec_later c s s' got k reads out : s = got ++ s' -> got <> [] ->
  next_spec (c ++ got) s' reads out -> next_spec c s (k :: reads) out.
Proof.
  intros -> Hg. destruct out as [[res r'] s'']. unfold next_spec. rewrite <-!app_assoc.
  destruct res as [[m|e|]|]; try done. intros (got' & -> & Hr & Hi & Hl).
  exists (got ++ got'). rewrite <-!app_assoc in *. split_and!; [done..|]. rewrite length_app. cbn.
  destruct got; [done|]. cbn. lia.
Qed.

(** The payload phase after [got] more bytes. *)
Lemma rep_payload_more r c n got : payload_len r = Some n -> rep r c ->
  (length got <= length (payload r) - payload_got r)%nat ->
  let r' := {| len_buf := len_buf r; len_got := len_got r; raw_len := raw_len r;
               payload := copy_at (payload r) (payload_got r) got; payload_len := Some n;
               payload_got := (payload_got r + length got)%nat |} in
  rep r' (c ++ got) /\ (payload_got r + length got <= n)%nat.
Proof.
  intros Hn [Hno|n' Hn' Hb Hraw Hmax Hlen Hpl Hgot ->] Hg; [congruence|].
  assert (n' = n) as -> by congruence. cbv zeta. split; [|lia].
  eapply rep_payload; cbn; try done; [|lia|].
  - rewrite length_copy_at; [done|lia].
  - rewrite <-app_assoc. f_equal.
    symmetry. apply take_copy_at. lia.
Qed.

(** One read in the payload phase, given the rest of the loop. *)
Lemma next_payload_phase k reads r c s n : (0 < k)%nat -> rep r c -> payload_len r = Some n ->
  (payload_got r < n)%nat ->
  (forall r c s, rep r c -> next_spec c s reads (reader_next reads r s)) ->
  next_spec c s (k :: reads) (reader_next (k :: reads) r s).
Proof.
  intros Hk Hrep En Hlt IH. cbn [reader_next]. rewrite En.
  destruct (Nat.ltb_spec (payload_got r) n) as [_|]; [|lia].
  assert (length (payload r) = n /\ exists c1, c = len_buf r ++ c1 /\ length c1 = payload_got r /\
    length (len_buf r) = 4%nat /\ n = Z.to_nat (payload_len_of (from_be32_bytes (len_buf r))) /\
    payload_len_of (from_be32_bytes (len_buf r)) <= MAX_FRAME_LEN) as (Hpl & c1 & Hc & Hc1 & Hb & Hn & Hmax).
  { destruct Hrep as [|n' Hn' Hb Hraw Hmax Hlen Hpl Hgot Hc]; [congruence|].
    assert (n' = n) as -> by congruence. split; [done|]. eexists. split; [exact Hc|].
    rewrite length_take, <-Hraw. split_and!; try done. lia. }
  pose proof (read_some_spec k (length (payload r) - payload_got r) s Hk ltac:(lia)) as Hrs.
  destruct (read_some k (length (payload r) - payload_got r) s) as [got s1]. destruct Hrs as (Hs & Hgl & Hg0).
  destruct (Nat.eqb_spec (length got) 0) as [Hz|Hz].
  { apply length_zero_iff_nil in Hz. subst got. rewrite (Hg0 eq_refl) in *. symmetry in Hs. cbn in Hs. subst s1.
    split; [done|]. right. rewrite Hc, app_nil_r, read_message_header by done. cbv zeta.
    destruct (Z.ltb_spec MAX_FRAME_LEN (payload_len_of (from_be32_bytes (len_buf r)))); [lia|].
    rewrite <-Hn. destruct (Nat.ltb_spec (length c1) n); [done|lia]. }
  destruct (rep_payload_more r c n got En Hrep Hgl) as [Hrep' Hle]. cbv zeta in Hrep' |- *.
  set (r' := {| len_buf := len_buf r |}) in *. change (payload_got r') with (payload_got r + length got)%nat.
  eapply next_spec_later; [exact Hs|by intros ->|].
  destruct (Nat.leb_spec n (payload_got r + length got)); [|by apply IH].
  apply (reader_finish_spec (c ++ got) s1 reads r' n); [done|done|cbn; lia].
Qed.

(** One read of the length word, given the rest of the loop. *)
Lemma next_length_phase k reads r c s : (0 < k)%nat -> rep r c -> payload_len r = None ->
  (forall r c s, rep r c -> next_spec c s reads (reader_next reads r s)) ->
  next_spec c s (k :: reads) (reader_next (k :: reads) r s).
Proof.
  intros Hk Hrep En IH. cbn [reader_next]. rewrite En.
  destruct Hrep as [_ Hgot Hc4 Hb Hc|n Hn]; [|congruence].
  pose proof (read_some_spec k (4 - len_got r) s Hk ltac:(lia)) as Hrs.
  destruct (read_some k (4 - len_got r) s) as [got s1]. destruct Hrs as (Hs & Hgl & Hg0).
  destruct (Nat.eqb_spec (length got) 0) as [Hz|Hz].
  { apply length_zero_iff_nil in Hz. subst got. rewrite (Hg0 eq_refl) in *. symmetry in Hs. cbn in Hs. subst s1.
    split; [done|]. left. rewrite app_nil_r. unfold read_message, read_exact.
    destruct (Nat.ltb_spec (length c) 4); [done|lia]. }
  set (lb := copy_at (len_buf r) (len_got r) got).
  assert (take (length (c ++ got)) lb = c ++ got) as Htk.
  { subst lb. rewrite Hgot, length_app, take_copy_at by lia. by rewrite Hc. }
  assert (length lb = 4%nat) as Hlb by (subst lb; rewrite length_copy_at; [done|lia]).
  eapply next_spec_later; [exact Hs|by intros ->|]. cbv zeta. cbn [len_got len_buf payload payload_got].
  destruct (Nat.eqb_spec (len_got r + length got) 4) as [E4|E4].
  2: { apply IH. apply rep_len; cbn; try done; rewrite length_app; lia. }
  assert (c ++ got = lb) as Hcg by (rewrite <-Htk, take_ge; [done|rewrite length_app; lia]).
  rewrite Hcg. destruct (Z.ltb_spec MAX_FRAME_LEN (payload_len_of (from_be32_bytes lb))) as [Hbig|Hsm].
  - unfold next_spec. rewrite read_message_header by done. cbv zeta.
    destruct (Z.ltb_spec MAX_FRAME_LEN (payload_len_of (from_be32_bytes lb))); [done|lia].
  - apply IH. eapply rep_payload; cbn; try done; [by rewrite length_replicate|lia|]. by rewrite app_nil_r.
Qed.

Lemma reader_next_spec reads r c s : Forall (lt 0) reads -> rep r c -> next_spec c s reads (reader_next reads r s).
Proof.
  intros Hr. revert r c s. induction Hr as [|k reads Hk Hr IH]; intros r c s Hrep;
    (destruct (payload_len r) as [n|] eqn:En; [destruct (decide (payload_got r < n)%nat) as [Hlt|Hge]|]).
  2, 5: cbn [reader_next]; rewrite En; destruct (Nat.ltb_spec (payload_got r) n); [lia|];
    apply (reader_finish_spec c s _ r n); try done; destruct Hrep; [congruence|simplify_eq; lia].
  - cbn [reader_next]. rewrite En. destruct (Nat.ltb_spec (payload_got r) n); [|lia].
    exists []. rewrite app_nil_r. split_and!; try done. by intros n' Hn'; simplify_eq.
  - cbn [reader_next]. rewrite En. exists []. rewrite app_nil_r. split_and!; try done. by intros n' Hn'; congruence.
  - by eapply next_payload_phase.
  - by apply next_length_phase.
Qed.

(** A [select!] loop: [next] is called again after every cancellation, each call
    with the reads it gets to make, until one call completes. *)
Fixpoint reader_run (calls : list (list nat)) (r : FramedReader) (s : bytes) :
    polled (rust frame_error T) * FramedReader * bytes :=
  match calls with
  | [] => (Cancelled, r, s)
  | reads :: calls =>
      match reader_next reads r s with
      | (Cancelled, r', s') => reader_run calls r' s'
      | done => done
      end
  end.

Lemma reader_run_spec calls r c s : Forall (Forall (lt 0)) calls -> rep r c -> calls <> [] \/ incomplete r ->
  next_spec c s (concat calls) (reader_run calls r s).
Proof.
  intros Hc. revert r c s. induction Hc as [|reads calls Hr Hc IH]; intros r c s Hrep Hi; cbn [reader_run concat].
  { exists []. rewrite app_nil_r. destruct Hi as [|Hi]; [done|]. by split_and!. }
  pose proof (reader_next_spec reads r c s Hr Hrep) as Hn.
  destruct (reader_next reads r s) as [[res r'] s']. destruct res as [[m|e|]|]; [done..|].
  destruct Hn as (got & -> & Hrep' & Hi' & Hlen).
  specialize (IH r' (c ++ got) s' Hrep' (or_intror Hi')).
  destruct (reader_run calls r' s') as [[res r''] s'']. unfold next_spec in IH |- *.
  destruct res as [[m|e|]|]; try done; try (by rewrite app_assoc).
  destruct IH as (got' & -> & Hrep'' & Hi'' & Hlen'). exists (got ++ got').
  rewrite <-!app_assoc in *. split_and!; try done. rewrite !length_app. lia.
Qed.

(** C10.  The framed reader is cancellation-safe: whatever calls to [next] were
    dropped and however the stream was chunked, the message it finally returns
    and the bytes it leaves are those [read_message] would have produced from
    the whole stream; its errors are [read_message]'s (the end of the stream is
    reported as a closed connection); and while no call has completed, no byte
    is lost: what is consumed is held in the reader. *)
Theorem framed_reader_refines calls s : calls <> [] -> Forall (Forall (lt 0)) calls ->
  match reader_run calls reader_new s with
  | (Ready (Ok m), r, s') => read_message s = Ok (m, s') /\ rep r []
  | (Ready (Err ConnectionClosed), _, s') => s' = [] /\
      (read_message (T := T) s = Err ReadLength \/ read_message (T := T) s = Err ReadPayload)
  | (Ready (Err e), _, _) => read_message (T := T) s = Err e
  | (Ready Panic, _, _) => False
  | (Cancelled, r, s') => exists got, s = got ++ s' /\ rep r got
  end.
Proof.
  intros Hne Hc. pose proof (reader_run_spec calls reader_new [] s Hc rep_new (or_introl Hne)) as Hs.
  destruct (reader_run calls reader_new s) as [[[[m|e|]|] r] s']; try done.
  destruct Hs as (got & ? & ? & _). by exists got.
Qed.

Lemma read_message_Ok_inv s m s' : read_message (T := T) s = Ok (m, s') ->
  exists lb p, s = lb ++ p ++ s' /\ length lb = 4%nat /\
    payload_len_of (from_be32_bytes lb) <= MAX_FRAME_LEN /\
    length p = Z.to_nat (payload_len_of (from_be32_bytes lb)).
Proof.
  destruct (decide (length s < 4)%nat) as [Hs|Hs].
  { unfold read_message, read_exact. destruct (Nat.ltb_spec (length s) 4); [done|lia]. }
  rewrite <-(take_drop 4 s) at 1. assert (length (take 4 s) = 4%nat) as Hl by (rewrite length_take; lia).
  rewrite read_message_header by done. cbv zeta.
  set (len := payload_len_of _). destruct (Z.ltb_spec MAX_FRAME_LEN len); [done|].
  destruct (Nat.ltb_spec (length (drop 4 s)) (Z.to_nat len)) as [|Hlen]; [done|].
  destruct (decode_frame _ _); cbn; try done. intros [= _ <-].
  exists (take 4 s), (take (Z.to_nat len) (drop 4 s)). split; [by rewrite !take_drop|].
  split; [done|]. split; [done|]. rewrite length_take. unfold len in *. lia.
Qed.

(** Progress: when a complete frame is on the stream and the calls together
    get at least as many reads as the frame has bytes, the message is delivered,
    the reader is ready for the next frame and exactly the rest is unread. *)
Theorem framed_reader_delivers calls s m rest r : calls <> [] -> Forall (Forall (lt 0)) calls ->
  read_message s = Ok (m, rest) -> (length s - length rest <= length (concat calls))%nat ->
  rep r [] ->
  exists r', reader_run calls r s = (Ready (Ok m), r', rest) /\ rep r' [].
Proof.
  intros Hne Hc Hm Hlen Hrep.
  pose proof (reader_run_spec calls r [] s Hc Hrep (or_introl Hne)) as Hs.
  destruct (reader_run calls r s) as [[[[m'|e|]|] r'] s']; unfold next_spec in Hs; cbn [app] in Hs.
  - destruct Hs as [Hs Hr']. rewrite Hm in Hs. apply Ok_inj in Hs as [= <- <-]. by exists r'.
  - destruct e; first [congruence|destruct Hs as [_ [Hs|Hs]]; congruence].
  - done.
  - exfalso. destruct Hs as (got & Hsplit & Hrep' & Hi & Hle).
    apply read_message_Ok_inv in Hm as (lb & p & Hfs & Hlb & Hmax & Hp).
    rewrite Hfs, !length_app in Hlen.
    destruct Hrep' as [_ _ Hlt|n Hn Hb Hraw _ Hnl Hpl Hgot ->]; [cbn in *; lia|].
    specialize (Hi n Hn). rewrite !length_app, length_take in Hle.
    assert (len_buf r' = lb) as Hlbeq.
    { rewrite Hfs, <-app_assoc in Hsplit. by apply app_inj_1 in Hsplit as [-> _]; [|congruence]. }
    rewrite Hraw, Hlbeq in Hnl. cbn in *. lia.
Qed.
End FrameProofs.

(** ** Instances for concrete runs: messages that are their own bytes, and a
    compressor that drops a run of zeros *)
#[export] Instance bytes_bincode : Bincode bytes :=
  {| encode_to_vec m := Some m; decode_from_slice p := Some p; bincode_roundtrip m p H := eq_sym H |}.
#[refine] Instance zeros_zstd : Zstd := {
  zstd_compress p :=
    if bool_decide (p = replicate (length p) 0) && (Z.of_nat (length p) <? 2 ^ 32)
    then Some (to_be32 (Z.of_nat (length p))) else None;
  zstd_decompress c cap :=
    let n := from_be32_bytes c in if n <=? cap then Some (replicate (Z.to_nat n) 0) else None;
}.
Proof.
  intros p c cap. case_bool_decide as Hp; [|done]. destruct (Z.ltb_spec (Z.of_nat (length p)) (2 ^ 32)); [|done].
  intros [= <-] Hcap. rewrite from_to_be32_bytes by (unfold is_u32; lia). cbv zeta.
  destruct (Z.leb_spec (Z.of_nat (length p)) cap); [|lia]. by rewrite Nat2Z.id, <-Hp.
Defined.

(** A 100-byte message of zeros: written plain, or as an 8-byte compressed frame. *)
Lemma frame_roundtrip_witness :
  exists f g, write_message (replicate 100 0) = Ok f /\ write_message_compressed (replicate 100 0) = Ok g /\
    read_message (f ++ [7]) = Ok (replicate 100 0, [7]) /\ read_message (g ++ [7]) = Ok (replicate 100 0, [7]) /\
    g = [128; 0; 0; 4; 0; 0; 0; 100].
Proof.
  destruct (frame_roundtrip (replicate 100 0) (replicate 100 0) [7]) as (f & g & H1 & _ & H2 & H3 & H4);
    [reflexivity|vm_compute; discriminate|].
  exists f, g. split; [exact H1|]. split; [exact H2|]. split; [exact H3|]. split; [exact H4|].
  vm_compute in H2. injection H2 as <-. reflexivity.
Defined.

(** Three calls, two of them cancelled in the middle of the frame. *)
Definition demo_stream : bytes := [0; 0; 0; 3; 10; 20; 30; 99].
Definition demo_calls : list (list nat) := [[2]; [1; 4]; [2; 5; 5; 5]]%nat.

Lemma framed_reader_refines_witness :
  exists r s', reader_run demo_calls reader_new demo_stream = (Ready (Ok [10; 20; 30]), r, s') /\
    read_message demo_stream = Ok ([10; 20; 30], s').
Proof.
  assert (demo_calls <> []) as Hne by discriminate.
  assert (Forall (Forall (lt 0)) demo_calls) as Hc by (repeat constructor).
  pose proof (framed_reader_refines (T := bytes) demo_calls demo_stream Hne Hc) as H.
  assert (fst (fst (reader_run (T := bytes) demo_calls reader_new demo_stream)) = Ready (Ok [10; 20; 30])) as E
    by (vm_compute; reflexivity).
  destruct (reader_run demo_calls reader_new demo_stream) as [[res r] s']. cbn in E. subst res.
  exists r, s'. split; [reflexivity|exact (proj1 H)].
Defined.

Lemma framed_reader_delivers_witness :
  exists r', reader_run demo_calls reader_new demo_stream = (Ready (Ok [10; 20; 30]), r', [99]) /\ rep r' [].
Proof.
  apply (framed_reader_delivers (T := bytes) demo_calls demo_stream [10; 20; 30] [99] reader_new);
    [discriminate|repeat constructor|vm_compute; reflexivity|vm_compute; lia|apply rep_new].
Defined.
