(* ===== verification/Policy.v ===== *)
(** * Policy: sandbox policies (hop-core/src/sandbox/policy.rs, validator.rs)

    A path is the list of components [Path::components] yields, which is what
    Rust compares and pushes.  [fs::canonicalize] belongs to the file system:
    it is an interface whose law is its documented shape of result. *)
From S2P Require Import Prelude Text.
Local Open Scope Z_scope.

(** ** Paths *)
Inductive Component := RootDir | CurDir | ParentDir | Normal (name : string).
#[export] Instance Component_eq_dec : EqDecision Component.
Proof. solve_decision. Defined.
#[export] Instance Component_countable : Countable Component.
Proof.
  refine (inj_countable'
    (fun c => match c with RootDir => inl 0%nat | CurDir => inl 1%nat | ParentDir => inl 2%nat | Normal s => inr s end)
    (fun x => match x with inl 0%nat => RootDir | inl 1%nat => CurDir | inl _ => ParentDir | inr s => Normal s end) _).
  by intros [].
Defined.
Abbreviation Path := (list Component).

(** [Path::starts_with]: component-wise prefix. *)
Definition path_starts_with (p base : Path) : bool := bool_decide (base `prefix_of` p).
(** [Path::parent] on the reversed components: none at a root or an empty path. *)
Definition parent_rev (rp : Path) : option (Component * Path) :=
  match rp with
  | [] | RootDir :: _ => None
  | c :: rp' => Some (c, rp')
  end.
(** [PathBuf::pop]. *)
Definition path_pop (p : Path) : Path :=
  match parent_rev (rev p) with Some (_, rp') => rev rp' | None => p end.
(** [PathBuf::push] of one component: an absolute one replaces the path. *)
Definition path_push (p : Path) (c : Component) : Path :=
  match c with RootDir => [RootDir] | _ => p ++ [c] end.

(** The file system: [fs::canonicalize], which fails when the path does not
    exist and otherwise returns an absolute path free of [.], [..] and links. *)
Definition absolute (p : Path) : Prop := exists names, p = RootDir :: map Normal names.
Class FileSystem := {
  canonicalize : Path -> option Path;
  canonicalize_absolute : forall p c, canonicalize p = Some c -> absolute c;
}.

(** Collapse [..] and [.] lexically. *)
Definition normalize_dotdot (path : Path) : Path :=
  foldl (fun out comp =>
    match comp with
    | ParentDir => path_pop out
    | CurDir => out
    | other => path_push out other
    end) [] path.

(** ** Policies *)
Record SandboxPolicy := {
  read_only : bool;
  no_network : bool;
  allowed_paths : list Path;
  allowed_commands : list string;
  denied_commands : list string;
}.
#[export] Instance SandboxPolicy_eq_dec : EqDecision SandboxPolicy.
Proof. solve_decision. Defined.
#[export] Instance SandboxPolicy_countable : Countable SandboxPolicy.
Proof.
  refine (inj_countable'
    (fun p => (read_only p, no_network p, allowed_paths p, allowed_commands p, denied_commands p))
    (fun '(a, b, c, d, e) => {| read_only := a; no_network := b; allowed_paths := c; allowed_commands := d;
                                denied_commands := e |}) _).
  by intros [].
Defined.
Definition unrestricted : SandboxPolicy :=
  {| read_only := false; no_network := false; allowed_paths := []; allowed_commands := []; denied_commands := [] |}.

Definition is_empty {A} (l : list A) : bool := match l with [] => true | _ => false end.

Definition is_restricted (p : SandboxPolicy) : bool :=
  read_only p || no_network p || negb (is_empty (allowed_paths p)) ||
  negb (is_empty (allowed_commands p)) || negb (is_empty (denied_commands p)).
Definition is_unrestricted (p : SandboxPolicy) : bool := negb (is_restricted p).
Definition sandbox_is_unrestricted (p : SandboxPolicy) : bool := negb (is_restricted p).

Section Policy.
Context `{FileSystem}.

(** The ancestor walk; [rp] is the ancestor's components reversed and [tail] the
    names already left behind, outermost first. *)
Fixpoint canonicalize_walk (fuel : nat) (rp : Path) (tail : list string) : option Path :=
  match canonicalize (rev rp) with
  | Some c => Some (normalize_dotdot (foldl path_push c (map Normal tail)))
  | None =>
      match fuel with
      | O => None
      | S f =>
          match parent_rev rp with
          | Some (Normal name, rp') => canonicalize_walk f rp' (name :: tail)
          | Some (_, rp') => canonicalize_walk f rp' tail
          | None => None
          end
      end
  end.

Definition canonicalize_lexical (path : Path) : Path :=
  match canonicalize path with
  | Some c => c
  | None =>
      match canonicalize_walk (length path) (rev path) [] with
      | Some p => p
      | None => normalize_dotdot path
      end
  end.

Definition path_in_scope (policy : SandboxPolicy) (path : Path) : bool :=
  if is_empty (allowed_paths policy) then true else
  let canon := canonicalize_lexical path in
  let roots := map canonicalize_lexical (allowed_paths policy) in
  existsb (path_starts_with canon) roots.
End Policy.

Definition merge_list {A} `{EqDecision A} (a b : list A) : list A :=
  if is_empty a then b else if is_empty b then a else base.filter (fun p => p ∈ b) a.

Definition merge_stricter (self other : SandboxPolicy) : SandboxPolicy :=
  {| read_only := read_only self || read_only other;
     no_network := no_network self || no_network other;
     allowed_paths := merge_list (allowed_paths self) (allowed_paths other);
     allowed_commands := merge_list (allowed_commands self) (allowed_commands other);
     denied_commands := foldl (fun denied cmd => if bool_decide (cmd ∈ denied) then denied else denied ++ [cmd])
                          (denied_commands self) (denied_commands other) |}.

Definition with_overrides (p : SandboxPolicy) (ro nn : option bool) (scopes : list Path)
    (allow_commands : list string) : SandboxPolicy :=
  {| read_only := default (read_only p) ro;
     no_network := default (no_network p) nn;
     allowed_paths := if is_empty scopes then allowed_paths p else scopes;
     allowed_commands := if is_empty allow_commands then allowed_commands p else allow_commands;
     denied_commands := denied_commands p |}.

(** ** Presets *)
Definition default_denied_commands : list string :=
  ["rm"; "rmdir"; "mkfs"; "dd"; "shutdown"; "reboot"; "poweroff"; "halt"; "init"; "telinit"; "fdisk";
   "parted"; "mkswap"; "swapon"; "swapoff"; "mount"; "umount"]%string.
Definition preset_monitor : SandboxPolicy :=
  {| read_only := true; no_network := true;
     allowed_paths := [[RootDir; Normal "proc"]; [RootDir; Normal "sys"];
                       [RootDir; Normal "var"; Normal "log"]; [RootDir; Normal "etc"]];
     allowed_commands :=
       ["ps"; "top"; "htop"; "free"; "df"; "du"; "uptime"; "lsof"; "netstat"; "ss"; "cat"; "grep"; "tail";
        "head"; "journalctl"; "dmesg"; "ls"; "wc"; "sort"; "uniq"; "awk"; "sed"];
     denied_commands := [] |}.
Definition preset_audit : SandboxPolicy :=
  {| read_only := true; no_network := true; allowed_paths := []; allowed_commands := [];
     denied_commands := default_denied_commands |}.
Definition preset_connect : SandboxPolicy :=
  {| read_only := true; no_network := false; allowed_paths := []; allowed_commands := [];
     denied_commands := default_denied_commands |}.
Definition preset_deploy : SandboxPolicy :=
  {| read_only := false; no_network := false; allowed_paths := []; allowed_commands := [];
     denied_commands := default_denied_commands |}.
Definition from_preset (name : string) : option SandboxPolicy :=
  if bool_decide (name = "monitor") then Some preset_monitor
  else if bool_decide (name = "audit") then Some preset_audit
  else if bool_decide (name = "connect") then Some preset_connect
  else if bool_decide (name = "deploy") then Some preset_deploy
  else None.

(** ** Command validation *)
Inductive ValidationError := EmptyCommand.
Definition validate_command (cmd : string) (policy : SandboxPolicy) : rust ValidationError unit :=
  if bool_decide (trim cmd = EmptyString) then Err EmptyCommand else Ok tt.

(** ** Merging policies *)
Definition cmd_permitted (p : SandboxPolicy) (c : string) : Prop :=
  (allowed_commands p = [] \/ c ∈ allowed_commands p) /\ c ∉ denied_commands p.
(** Two allowlists that are both in force and share nothing. *)
Definition conflict {A} (a b : list A) : Prop := a <> [] /\ b <> [] /\ forall x, x ∈ a -> x ∉ b.

Section MergeList.
Context {A : Type} `{EqDecision A}.

Lemma merge_list_spec (a b : list A) x : ~ conflict a b ->
  (merge_list a b = [] \/ x ∈ merge_list a b) <-> (a = [] \/ x ∈ a) /\ (b = [] \/ x ∈ b).
Proof.
  intros Hc. unfold merge_list. destruct a as [|a0 a]; cbn [is_empty]; [tauto|].
  destruct b as [|b0 b]; cbn [is_empty]; [tauto|]. rewrite list_elem_of_filter. split.
  - intros [He|?]; [|tauto]. exfalso. apply Hc. split; [done|]. split; [done|].
    intros y Hy Hyb. assert (y ∈ base.filter (fun p => p ∈ b0 :: b) (a0 :: a)) as Hin
      by (by apply list_elem_of_filter). rewrite He in Hin. by apply elem_of_nil in Hin.
  - intros [[|] [|]]; done || tauto.
Qed.

Lemma merge_list_conflict (a b : list A) : conflict a b -> merge_list a b = [].
Proof.
  intros (Ha & Hb & Hd). unfold merge_list. destruct a as [|a0 a]; [done|]. destruct b as [|b0 b]; [done|].
  cbn [is_empty]. apply elem_of_nil_inv. intros x [Hx1 Hx2]%list_elem_of_filter. by eapply Hd.
Qed.
End MergeList.

Lemma merge_denied_spec (a b : list string) c :
  c ∈ foldl (fun denied cmd => if bool_decide (cmd ∈ denied) then denied else denied ++ [cmd]) a b <->
  c ∈ a \/ c ∈ b.
Proof.
  revert a. induction b as [|d b IH]; intros a; cbn [foldl]; [rewrite elem_of_nil; tauto|].
  rewrite IH, elem_of_cons. case_bool_decide as Hd.
  - split; [tauto|]. intros [?|[->|?]]; tauto.
  - rewrite elem_of_app, list_elem_of_singleton. tauto.
Qed.

(** Merging keeps the stricter of the two policies exactly when their
    command allowlists are not in conflict: the flags are or-ed, and the
    commands the merge permits all lie in both policies if and only if the
    lists do not conflict, in which case they are precisely the common ones. *)
Theorem merge_stricter_commands a b :
  read_only (merge_stricter a b) = (read_only a || read_only b) /\
  no_network (merge_stricter a b) = (no_network a || no_network b) /\
  (~ conflict (allowed_commands a) (allowed_commands b) -> forall c,
     cmd_permitted (merge_stricter a b) c <-> cmd_permitted a c /\ cmd_permitted b c) /\
  ((forall c, cmd_permitted (merge_stricter a b) c -> cmd_permitted a c /\ cmd_permitted b c) ->
     ~ conflict (allowed_commands a) (allowed_commands b)).
Proof.
  split; [done|]. split; [done|]. unfold cmd_permitted, merge_stricter.
  cbn [allowed_commands denied_commands]. split.
  - intros Hc c. rewrite merge_list_spec, merge_denied_spec by done. tauto.
  - intros Hall Hc. rewrite (merge_list_conflict _ _ Hc) in Hall. destruct Hc as (Ha & Hb & Hd).
    set (used := allowed_commands a ++ denied_commands a ++ denied_commands b).
    pose proof (infinite_is_fresh used) as Hf. subst used. rewrite !elem_of_app in Hf.
    destruct (Hall (fresh (allowed_commands a ++ denied_commands a ++ denied_commands b))) as [[[H1|H1] _] _].
    + split; [by left|]. rewrite merge_denied_spec. tauto.
    + done.
    + tauto.
Qed.

(** Two disjoint path scopes merge into no scope at all: the merge of
    policies confined to different directories is in scope everywhere. *)
Theorem merge_stricter_disjoint_scopes `{FileSystem} a b :
  conflict (allowed_paths a) (allowed_paths b) ->
  forall p, path_in_scope (merge_stricter a b) p = true.
Proof.
  intros Hc p. unfold path_in_scope, merge_stricter. cbn [allowed_paths].
  by rewrite (merge_list_conflict _ _ Hc).
Qed.

(** ** Scope checks *)
Definition abs_path (names : list string) : Path := RootDir :: map Normal names.

Lemma normalize_abs names : normalize_dotdot (abs_path names) = abs_path names.
Proof.
  unfold normalize_dotdot, abs_path. cbn [foldl path_push].
  assert (forall acc, foldl (fun out comp => match comp with ParentDir => path_pop out | CurDir => out
    | other => path_push out other end) acc (map Normal names) = acc ++ map Normal names) as H.
  { induction names as [|n ns IH]; intros acc; cbn; [by rewrite app_nil_r|]. by rewrite IH, <-app_assoc. }
  apply (H [RootDir]).
Qed.

Lemma foldl_push_normal p tail : foldl path_push p (map Normal tail) = p ++ map Normal tail.
Proof. revert p. induction tail as [|n t IH]; intros p; cbn; [by rewrite app_nil_r|]. by rewrite IH, <-app_assoc. Qed.

Lemma normalize_push c tail : absolute c ->
  normalize_dotdot (foldl path_push c (map Normal tail)) = c ++ map Normal tail.
Proof.
  intros [names ->]. rewrite foldl_push_normal. change (RootDir :: map Normal names) with (abs_path names).
  assert (abs_path names ++ map Normal tail = abs_path (names ++ tail)) as ->
    by (unfold abs_path; by rewrite map_app). apply normalize_abs.
Qed.

Section Scope.
Context `{FileSystem}.

Lemma canonicalize_walk_abs names tail fuel c k : (length names < fuel)%nat -> (k <= length names)%nat ->
  canonicalize (abs_path (take k names)) = Some c ->
  (forall j, (k < j <= length names)%nat -> canonicalize (abs_path (take j names)) = None) ->
  canonicalize_walk fuel (rev (abs_path names)) tail = Some (c ++ map Normal (drop k names ++ tail)).
Proof.
  revert tail fuel. induction names as [|n names IH] using rev_ind; intros tail fuel Hf Hk Hc Hnone.
  { destruct k; [|cbn in Hk; lia]. cbn [take drop app] in *. destruct fuel as [|f]; [cbn in Hf; lia|].
    cbn [canonicalize_walk]. rewrite rev_involutive, Hc.
    apply canonicalize_absolute in Hc. by rewrite normalize_push. }
  destruct fuel as [|f]; [lia|]. rewrite length_app in *. cbn [length] in *.
  assert (rev (abs_path (names ++ [n])) = Normal n :: rev (abs_path names)) as Hrev.
  { unfold abs_path. rewrite map_app. apply (rev_unit (RootDir :: map Normal names)). }
  rewrite Hrev. cbn [canonicalize_walk].
  assert (rev (Normal n :: rev (abs_path names)) = abs_path (names ++ [n])) as ->
    by (rewrite <-Hrev; apply rev_involutive).
  destruct (decide (k = length names + 1)%nat) as [->|Hne].
  - rewrite take_ge in Hc by (rewrite length_app; cbn; lia). rewrite Hc.
    rewrite drop_ge by (rewrite length_app; cbn; lia).
    apply canonicalize_absolute in Hc. by rewrite normalize_push.
  - specialize (Hnone (length names + 1)%nat) as Hlast.
    rewrite take_ge in Hlast by (rewrite length_app; cbn; lia). rewrite Hlast by lia.
    cbn [parent_rev]. rewrite (IH (n :: tail) f); [|lia|lia|by rewrite take_app_le in Hc by lia|].
    + rewrite drop_app_le, <-app_assoc by lia. done.
    + intros j Hj. rewrite <-(Hnone j) by lia. by rewrite take_app_le by lia.
Qed.

(** The nearest existing ancestor of an absolute path, resolved, with what is left. *)
Definition resolves (names : list string) (q : Path) : Prop :=
  exists k c, (k <= length names)%nat /\ canonicalize (abs_path (take k names)) = Some c /\
    (forall j, (k < j <= length names)%nat -> canonicalize (abs_path (take j names)) = None) /\
    q = c ++ map Normal (drop k names).

Lemma canonicalize_lexical_abs names q : resolves names q -> canonicalize_lexical (abs_path names) = q.
Proof.
  intros (k & c & Hk & Hc & Hnone & ->). unfold canonicalize_lexical.
  destruct (decide (k = length names)) as [->|Hne].
  - rewrite take_ge in Hc by lia. rewrite Hc, drop_ge by lia. by rewrite app_nil_r.
  - specialize (Hnone (length names)) as Hl. rewrite take_ge in Hl by lia. rewrite Hl by lia.
    rewrite (canonicalize_walk_abs names [] _ c k); [by rewrite app_nil_r|..|done|done|done].
    unfold abs_path. cbn. rewrite length_map. lia.
Qed.

(** For an absolute path written without [..] and [.], confinement is by
    resolution: the path is in scope exactly when what its nearest existing
    ancestor resolves to, extended by the components that do not exist yet,
    lies under what one of the allowed roots resolves to. *)
Theorem path_in_scope_resolved policy names q roots :
  allowed_paths policy = map abs_path roots -> roots <> [] -> resolves names q ->
  (forall r, r ∈ roots -> exists q, resolves r q) ->
  path_in_scope policy (abs_path names) = true <->
  exists r q', r ∈ roots /\ resolves r q' /\ q' `prefix_of` q.
Proof.
  intros Ha Hne Hq Hr. unfold path_in_scope. rewrite Ha.
  assert (is_empty (map abs_path roots) = false) as -> by (by destruct roots). cbv zeta.
  rewrite (canonicalize_lexical_abs _ _ Hq), existsb_exists. split.
  - intros (x & Hx & Hp). rewrite map_map in Hx. apply in_map_iff in Hx as (r & <- & Hin).
    apply list_elem_of_In in Hin. destruct (Hr r Hin) as [q' Hq'].
    exists r, q'. split; [done|]. split; [done|].
    rewrite (canonicalize_lexical_abs _ _ Hq') in Hp. by apply bool_decide_eq_true in Hp.
  - intros (r & q' & Hin & Hq' & Hp). exists q'. split; [|by apply bool_decide_eq_true].
    rewrite map_map. apply in_map_iff. exists r. split; [by apply canonicalize_lexical_abs|].
    by apply list_elem_of_In.
Qed.
End Scope.

(** A file system in which exactly /, /srv and /etc exist, with no links. *)
#[refine] Instance demo_fs : FileSystem := {
  canonicalize p :=
    if bool_decide (p ∈ [[RootDir]; [RootDir; Normal "srv"]; [RootDir; Normal "etc"]]) then Some p else None;
}.
Proof.
  intros p c. case_bool_decide as Hp; [|done]. intros [= <-].
  rewrite !elem_of_cons, elem_of_nil in Hp. destruct Hp as [->|[->|[->|[]]]];
    [by exists []|by exists ["srv"%string]|by exists ["etc"%string]].
Defined.
Definition demo_policy : SandboxPolicy :=
  {| read_only := false; no_network := false; allowed_paths := [abs_path ["srv"]]; allowed_commands := [];
     denied_commands := [] |}.

Lemma path_in_scope_resolved_witness : path_in_scope demo_policy (abs_path ["srv"; "new"; "x"]) = true.
Proof.
  assert (resolves ["srv"] (abs_path ["srv"])) as Hr.
  { exists 1%nat, (abs_path ["srv"]). split; [cbn; lia|]. split; [reflexivity|]. split; [cbn; lia|reflexivity]. }
  apply (path_in_scope_resolved demo_policy ["srv"; "new"; "x"] (abs_path ["srv"; "new"; "x"]) [["srv"]]);
    [reflexivity|discriminate| | |].
  - exists 1%nat, (abs_path ["srv"]). split; [cbn; lia|]. split; [reflexivity|]. split; [|reflexivity].
    intros j Hj. cbn in Hj. assert (j = 2 \/ j = 3)%nat as [->| ->] by lia; reflexivity.
  - intros r Hrin. apply list_elem_of_singleton in Hrin. subst r. exists (abs_path ["srv"]). exact Hr.
  - exists ["srv"], (abs_path ["srv"]). split; [left|]. split; [exact Hr|].
    exists [Normal "new"; Normal "x"]. reflexivity.
Defined.

Lemma merge_stricter_disjoint_scopes_witness :
  path_in_scope (merge_stricter demo_policy preset_monitor) (abs_path ["root"; "secret"]) = true.
Proof.
  apply merge_stricter_disjoint_scopes. split; [discriminate|]. split; [discriminate|].
  intros x Hx. apply list_elem_of_singleton in Hx. subst x. apply (bool_decide_unpack _). vm_compute. exact I.
Defined.

(** The walk to an existing ancestor drops [..] components: below a
    directory that does not exist yet, a path leading out of the allowed root
    is judged to be inside it, although its lexical normal form is not. *)
Theorem path_in_scope_dotdot_escape :
  let p := abs_path ["srv"; "new"] ++ [ParentDir; ParentDir; Normal "etc"; Normal "passwd"] in
  path_in_scope demo_policy p = true /\
  normalize_dotdot p = abs_path ["etc"; "passwd"] /\
  path_in_scope demo_policy (abs_path ["etc"; "passwd"]) = false.
Proof. split; [|split]; vm_compute; reflexivity. Qed.

Lemma merge_stricter_commands_witness :
  cmd_permitted (merge_stricter preset_monitor preset_audit) "ls" /\
  ~ cmd_permitted (merge_stricter preset_monitor preset_audit) "rm".
Proof.
  destruct (merge_stricter_commands preset_monitor preset_audit) as (_ & _ & H & _).
  assert (~ conflict (allowed_commands preset_monitor) (allowed_commands preset_audit)) as Hc
    by (intros (_ & Hne & _); apply Hne; reflexivity).
  split.
  - apply (H Hc). split; split; (left; reflexivity) || (right; apply (bool_decide_unpack _); vm_compute; exact I)
      || (apply (bool_decide_unpack _); vm_compute; exact I).
  - intros Hp. apply (H Hc) in Hp as [_ [_ Hd]]. apply Hd. apply (bool_decide_unpack _). vm_compute. exact I.
Defined.
