(* ===== verification/Config.v ===== *)
(** * Config: peers and known hosts (hop-core/src/config/mod.rs) and account names
    (hop-core/src/unix_user.rs)

    The authorized-peers store of a host, the known-hosts store of a client and
    the username check.  A node is its public key's string form; times are the
    clock's seconds, printed as [chrono_now] prints them. *)
From S2P Require Import Prelude Text Policy.
Local Open Scope Z_scope.

Inductive PeerRole := RolePeer | RoleCreator.
#[export] Instance PeerRole_eq_dec : EqDecision PeerRole.
Proof. solve_decision. Defined.

#[export] Instance PeerRole_countable : Countable PeerRole.
Proof.
  refine (inj_countable' (fun r => match r with RolePeer => false | RoleCreator => true end)
    (fun b : bool => if b then RoleCreator else RolePeer) _). by intros [].
Defined.

Record Peer := {
  node_id : string;
  name : string;
  authorized_at : string;
  last_seen : option string;
  username : option string;
  role : PeerRole;
  role_name : option string;
  netdoc_author : option string;
  self_doc : option string;
  vip : option string;
  vpn_endpoint : option string;
  site_id : option Z;
  sandbox : SandboxPolicy;
}.
Abbreviation PeersStore := (list Peer).

Definition chrono_now (secs : Z) : string := print_uint secs.

(** The first entry of a store that satisfies [P], changed by [f]. *)
Fixpoint update_first {A} (P : A -> bool) (f : A -> A) (l : list A) : list A :=
  match l with
  | [] => []
  | x :: l => if P x then f x :: l else x :: update_first P f l
  end.

Definition has_id (id : string) (p : Peer) : bool := bool_decide (node_id p = id).

Definition is_authorized (peers : PeersStore) (id : string) : bool := existsb (has_id id) peers.

Definition add_peer (peers : PeersStore) (now : Z) (id nm : string) (user : option string)
    (r : PeerRole) (sb : SandboxPolicy) : PeersStore :=
  if existsb (has_id id) peers then peers else
  peers ++ [{| node_id := id; name := nm; authorized_at := chrono_now now; last_seen := Some (chrono_now now);
               username := user; role := r; role_name := None; netdoc_author := None; self_doc := None;
               vip := None; vpn_endpoint := None; site_id := None; sandbox := sb |}].

Definition peer_role (peers : PeersStore) (id : string) : PeerRole :=
  default RolePeer (role <$> List.find (has_id id) peers).
Definition peer_sandbox (peers : PeersStore) (id : string) : SandboxPolicy :=
  default unrestricted (sandbox <$> List.find (has_id id) peers).
Definition peer_username (peers : PeersStore) (id : string) : option string :=
  List.find (has_id id) peers ≫= username.

Definition remove_peer (peers : PeersStore) (prefix : string) : PeersStore * bool :=
  let peers' := List.filter (fun p => negb (starts_with prefix (node_id p))) peers in
  (peers', (length peers' <? length peers)%nat).

Definition set_name (nm : string) (p : Peer) : Peer :=
  {| node_id := node_id p; name := nm; authorized_at := authorized_at p; last_seen := last_seen p;
     username := username p; role := role p; role_name := role_name p; netdoc_author := netdoc_author p;
     self_doc := self_doc p; vip := vip p; vpn_endpoint := vpn_endpoint p; site_id := site_id p; sandbox := sandbox p |}.
Definition rename_peer (peers : PeersStore) (prefix new_name : string) : PeersStore * bool :=
  (update_first (fun p => starts_with prefix (node_id p)) (set_name new_name) peers,
   existsb (fun p => starts_with prefix (node_id p)) peers).

Definition set_last_seen (now : Z) (p : Peer) : Peer :=
  {| node_id := node_id p; name := name p; authorized_at := authorized_at p; last_seen := Some (chrono_now now);
     username := username p; role := role p; role_name := role_name p; netdoc_author := netdoc_author p;
     self_doc := self_doc p; vip := vip p; vpn_endpoint := vpn_endpoint p; site_id := site_id p; sandbox := sandbox p |}.
Definition update_last_seen (peers : PeersStore) (now : Z) (id : string) : PeersStore :=
  update_first (has_id id) (set_last_seen now) peers.

(** ** Known hosts *)
Record KnownHost := {
  host_id : string;
  host_alias : string;
  added_at : string;
  relay_url : option string;
  groups : list string;
}.
Abbreviation KnownHosts := (list KnownHost).

Definition has_host_id (id : string) (h : KnownHost) : bool := bool_decide (host_id h = id).

Definition add_host (hosts : KnownHosts) (now : Z) (id nm : string) (relay : option string) : KnownHosts :=
  if existsb (has_host_id id) hosts then hosts else
  hosts ++ [{| host_id := id; host_alias := nm; added_at := chrono_now now; relay_url := relay; groups := [] |}].

Definition name_taken (hosts : KnownHosts) (id candidate : string) : bool :=
  existsb (fun h => bool_decide (host_alias h = candidate) && negb (has_host_id id h)) hosts.
(** The suffix loop; running out of fuel is a panic. *)
Fixpoint dedup_loop (fuel : nat) (hosts : KnownHosts) (id desired candidate : string) (suffix : Z) :
    rust Empty_set string :=
  if name_taken hosts id candidate then
    match fuel with
    | O => Panic
    | S f => dedup_loop f hosts id desired (desired +:+ "-" +:+ print_uint suffix) (u32 (suffix + 1))
    end
  else Ok candidate.
Definition add_host_dedup (hosts : KnownHosts) (now : Z) (id desired : string) (relay : option string) :
    rust Empty_set (KnownHosts * string) :=
  candidate ← dedup_loop (S (length hosts)) hosts id desired desired 2;
  Ok (if existsb (has_host_id id) hosts
      then update_first (has_host_id id)
             (fun h => {| host_id := host_id h; host_alias := candidate; added_at := added_at h;
                          relay_url := relay; groups := groups h |}) hosts
      else hosts ++ [{| host_id := id; host_alias := candidate; added_at := chrono_now now;
                        relay_url := relay; groups := [] |}],
      candidate).

Definition rename_host (hosts : KnownHosts) (id_or_name new_name : string) : KnownHosts * bool :=
  let hit h := starts_with id_or_name (host_id h) || bool_decide (host_alias h = id_or_name) in
  (update_first hit (fun h => {| host_id := host_id h; host_alias := new_name; added_at := added_at h;
                                 relay_url := relay_url h; groups := groups h |}) hosts,
   existsb hit hosts).
Definition update_relay_url (hosts : KnownHosts) (id : string) (relay : option string) : KnownHosts :=
  update_first (has_host_id id) (fun h => {| host_id := host_id h; host_alias := host_alias h;
    added_at := added_at h; relay_url := relay; groups := groups h |}) hosts.
Definition resolve_alias (hosts : KnownHosts) (nm : string) : option string :=
  host_id <$> List.find (fun h => bool_decide (host_alias h = nm)) hosts.

(** ** Usernames; the account database is a parameter *)
Inductive username_error := BadLength (n : Z) | BadCharacters | RefusedRoot | NoSuchUser.
Definition username_byte (b : Z) : bool :=
  ((48 <=? b) && (b <=? 57)) || ((65 <=? b) && (b <=? 90)) || ((97 <=? b) && (b <=? 122)) ||
  (b =? 95) || (b =? 45).
Definition validate_username (user_exists : string -> bool) (user : string) : rust username_error unit :=
  let n := Z.of_nat (String.length user) in
  if bool_decide (user = EmptyString) || (32 <? n) then Err (BadLength n) else
  if negb (forallb username_byte (str_bytes user)) then Err BadCharacters else
  if bool_decide (user = "root"%string) then Err RefusedRoot else
  if negb (user_exists user) then Err NoSuchUser else
  Ok tt.

(** ** Stores keep one entry per node *)
Lemma update_first_fmap {A B} (g : A -> B) P f (l : list A) : (forall x, P x = true -> g (f x) = g x) ->
  map g (update_first P f l) = map g l.
Proof.
  intros Hg. induction l as [|x l IH]; [done|]. cbn. destruct (P x) eqn:E; cbn; [by rewrite Hg|by rewrite IH].
Qed.

Lemma is_authorized_spec peers id : is_authorized peers id = true <-> id ∈ map node_id peers.
Proof.
  unfold is_authorized. rewrite existsb_exists, list_elem_of_fmap. split.
  - intros (p & Hp & Hid). apply bool_decide_eq_true in Hid. exists p. by rewrite list_elem_of_In.
  - intros (p & -> & Hp). exists p. rewrite <-list_elem_of_In. split; [done|]. by apply bool_decide_eq_true.
Qed.

Lemma find_has_id peers id p : NoDup (map node_id peers) -> p ∈ peers -> node_id p = id ->
  List.find (has_id id) peers = Some p.
Proof.
  induction peers as [|q peers IH]; [by intros _ ?%elem_of_nil|]. cbn.
  intros [Hq Hn]%NoDup_cons Hp Hid. unfold has_id at 1. case_bool_decide as E.
  - apply elem_of_cons in Hp as [->|Hp]; [done|]. destruct Hq. rewrite E, <-Hid. by apply list_elem_of_fmap_2.
  - apply elem_of_cons in Hp as [->|Hp]; [done|]. by apply IH.
Qed.

(** What admitting a node does to the store. *)
Lemma add_peer_spec peers now id nm user r sb : NoDup (map node_id peers) ->
  let peers' := add_peer peers now id nm user r sb in
  NoDup (map node_id peers') /\ is_authorized peers' id = true /\
  (forall id', is_authorized peers' id' = true -> id' = id \/ is_authorized peers id' = true) /\
  (forall p, p ∈ peers -> p ∈ peers').
Proof.
  intros Hn. cbv zeta. unfold add_peer. fold (is_authorized peers id).
  destruct (is_authorized peers id) eqn:E; [by split_and!; auto|].
  assert (id ∉ map node_id peers) as Hid by (intros ?%is_authorized_spec; congruence).
  setoid_rewrite is_authorized_spec. rewrite map_app. cbn. split_and!.
  - apply NoDup_app. split; [done|]. split; [|apply NoDup_singleton].
    intros x Hx ->%list_elem_of_singleton. done.
  - apply elem_of_app. right. left.
  - intros id' [?| ->%list_elem_of_singleton]%elem_of_app; auto.
  - intros p Hp. apply elem_of_app. by left.
Qed.

(** ** Aliases stay unique *)

(** The names the suffix loop tries. *)
Definition alias_candidate (desired : string) (i : nat) : string :=
  match i with O => desired | S i => desired +:+ "-" +:+ print_uint (2 + Z.of_nat i) end.

Lemma sapp_inj_l (a b c : string) : a +:+ b = a +:+ c -> b = c.
Proof. induction a as [|x a IH]; [done|]. intros [= H]. by apply IH. Qed.

Lemma print_uint_inj n m : 0 <= n < 10 ^ 20 -> 0 <= m < 10 ^ 20 -> print_uint n = print_uint m -> n = m.
Proof.
  intros Hn Hm E. assert (Some n = Some m) as [= ->]; [|done].
  rewrite <-(parse_print_uint (10 ^ 20) n), <-(parse_print_uint (10 ^ 20) m) by lia. by rewrite E.
Qed.

Lemma alias_candidate_inj desired i j : Z.of_nat i < 2 ^ 32 -> Z.of_nat j < 2 ^ 32 ->
  alias_candidate desired i = alias_candidate desired j -> i = j.
Proof.
  intros Hi Hj. assert (forall k, desired <> desired +:+ "-" +:+ print_uint k) as Hne.
  { intros k E%(f_equal String.length). rewrite !length_sapp in E. cbn in E. lia. }
  destruct i as [|i], j as [|j]; cbn; [done|by intros ?%Hne|by intros E; symmetry in E; apply Hne in E|].
  intros E%sapp_inj_l%(sapp_inj_l "-")%print_uint_inj; lia.
Qed.

Lemma name_taken_spec hosts id c : name_taken hosts id c = true <->
  exists h, h ∈ hosts /\ host_alias h = c /\ host_id h <> id.
Proof.
  unfold name_taken. rewrite existsb_exists. setoid_rewrite <-list_elem_of_In.
  setoid_rewrite andb_true_iff. setoid_rewrite negb_true_iff.
  unfold has_host_id. setoid_rewrite bool_decide_eq_true. setoid_rewrite bool_decide_eq_false. done.
Qed.

Lemma dedup_loop_spec fuel hosts id desired i : (Z.of_nat (i + fuel) < 2 ^ 32 - 3) ->
  match dedup_loop fuel hosts id desired (alias_candidate desired i) (2 + Z.of_nat i) with
  | Ok c => name_taken hosts id c = false
  | Err _ => False
  | Panic => forall j, (i <= j <= i + fuel)%nat -> name_taken hosts id (alias_candidate desired j) = true
  end.
Proof.
  revert i. induction fuel as [|f IH]; intros i Hf; cbn [dedup_loop].
  - destruct (name_taken hosts id (alias_candidate desired i)) eqn:E; [|done]. intros j Hj. by replace j with i by lia.
  - destruct (name_taken hosts id (alias_candidate desired i)) eqn:E; [|done].
    assert (u32 (2 + Z.of_nat i + 1) = 2 + Z.of_nat (S i)) as -> by (unfold u32; rewrite Z.mod_small; lia).
    specialize (IH (S i) ltac:(lia)). cbn [alias_candidate] in IH.
    destruct (dedup_loop f hosts id desired _ _); [done|done|].
    intros j Hj. destruct (decide (j = i)) as [->|]; [done|]. apply IH. lia.
Qed.

Lemma dedup_loop_total hosts id desired : Z.of_nat (length hosts) < 2 ^ 32 - 10 ->
  exists c, dedup_loop (S (length hosts)) hosts id desired desired 2 = Ok c /\ name_taken hosts id c = false.
Proof.
  intros Hl. pose proof (dedup_loop_spec (S (length hosts)) hosts id desired 0 ltac:(lia)) as H.
  change (alias_candidate desired 0) with desired in H. change (2 + Z.of_nat 0) with 2 in H.
  destruct (dedup_loop _ _ _ _ _ _) as [c|[]|]; [by exists c|]. exfalso.
  set (cands := map (alias_candidate desired) (seq 0 (S (S (length hosts))))).
  assert (length cands <= length (map host_alias hosts))%nat as Hle.
  { apply submseteq_length, NoDup_submseteq.
    - apply (NoDup_fmap_2_strong (alias_candidate desired)); [|apply NoDup_seq].
      intros i j Hi%elem_of_seq Hj%elem_of_seq. apply alias_candidate_inj; lia.
    - intros c (j & -> & Hj)%list_elem_of_fmap. apply list_elem_of_In, in_seq in Hj.
      specialize (H j ltac:(lia)). apply name_taken_spec in H as (h & Hh & <- & _).
      by apply list_elem_of_fmap_2. }
  subst cands. rewrite !length_map, length_seq in Hle. lia.
Qed.

Lemma update_first_lookup {A} (P : A -> bool) f (l : list A) i x : update_first P f l !! i = Some x ->
  exists y, l !! i = Some y /\ (x = y \/ (P y = true /\ x = f y)).
Proof.
  revert i. induction l as [|a l IH]; intros i; [done|]. cbn. destruct (P a) eqn:E; destruct i as [|i]; cbn.
  - intros [= <-]. eauto.
  - eauto.
  - intros [= <-]. eauto.
  - apply IH.
Qed.

Lemma update_first_elem {A} (P : A -> bool) f (l : list A) x : x ∈ l -> P x = true ->
  (forall y, y ∈ l -> P y = true -> y = x) -> f x ∈ update_first P f l.
Proof.
  intros Hx HP Hu. induction l as [|a l IH]; [by apply elem_of_nil in Hx|]. cbn.
  destruct (P a) eqn:E; [rewrite (Hu a) by (done || left); left|].
  apply elem_of_cons in Hx as [->|Hx]; [congruence|]. right. apply IH; [done|].
  intros y Hy. apply Hu. by right.
Qed.

Lemma NoDup_snoc {A} (l : list A) x : NoDup l -> x ∉ l -> NoDup (l ++ [x]).
Proof.
  intros Hl Hx. apply NoDup_app. split; [done|]. split; [|apply NoDup_singleton].
  intros y Hy ->%list_elem_of_singleton. done.
Qed.

Lemma resolve_alias_unique hosts h nm id : NoDup (map host_alias hosts) -> h ∈ hosts ->
  host_alias h = nm -> host_id h = id -> resolve_alias hosts nm = Some id.
Proof.
  intros Hn Hh <- <-. unfold resolve_alias.
  induction hosts as [|q hosts IH]; [by apply elem_of_nil in Hh|]. cbn in *.
  apply NoDup_cons in Hn as [Hq Hn]. case_bool_decide as E.
  - apply elem_of_cons in Hh as [->|Hh]; [done|]. destruct Hq. rewrite E. by apply list_elem_of_fmap_2.
  - apply elem_of_cons in Hh as [->|Hh]; [done|]. by apply IH.
Qed.

(** Giving the one entry of [id] an alias that only it may have keeps aliases unique. *)
Lemma aliases_after_update hosts id c (f : KnownHost -> KnownHost) :
  NoDup (map host_alias hosts) -> (forall h, host_alias (f h) = c) ->
  (forall h, h ∈ hosts -> host_alias h = c -> host_id h = id) ->
  NoDup (map host_id hosts) -> NoDup (map host_alias (update_first (has_host_id id) f hosts)).
Proof.
  intros Hal Hf Hfree Hid. induction hosts as [|h hosts IH]; [done|]. cbn in *.
  apply NoDup_cons in Hal as [Ha Hal]. apply NoDup_cons in Hid as [Hi Hid].
  unfold has_host_id. case_bool_decide as E; cbn; apply NoDup_cons.
  - split; [|done]. rewrite Hf. intros (h' & Hc & Hh')%list_elem_of_fmap.
    apply Hi. rewrite E, <-(Hfree h'); [by apply list_elem_of_fmap_2|by right|done].
  - split; [|apply IH; auto; intros; apply Hfree; [by right|done]].
    intros (h' & Hc & Hh')%list_elem_of_fmap. apply list_elem_of_lookup in Hh' as [i Hi'].
    apply update_first_lookup in Hi' as (y & Hy%list_elem_of_lookup_2 & [->|[_ ->]]).
    + apply Ha. rewrite Hc. by apply list_elem_of_fmap_2.
    + rewrite Hf in Hc. apply E, Hfree; [left|done].
Qed.

(** Adding a host under a wanted alias always succeeds, gives it an alias no
    other host has, and keeps the invariant of the store: one entry per node and
    aliases that name a single host, so that resolving the returned alias finds
    the node just added. *)
Theorem add_host_dedup_unique hosts now id desired relay :
  Z.of_nat (length hosts) < 2 ^ 32 - 10 ->
  NoDup (map host_id hosts) -> NoDup (map host_alias hosts) ->
  exists hosts' nm, add_host_dedup hosts now id desired relay = Ok (hosts', nm) /\
    NoDup (map host_id hosts') /\ NoDup (map host_alias hosts') /\
    resolve_alias hosts' nm = Some id.
Proof.
  intros Hl Hid Hal. unfold add_host_dedup.
  destruct (dedup_loop_total hosts id desired Hl) as (c & -> & Hc). cbn [mbind rust_bind].
  assert (forall h, h ∈ hosts -> host_alias h = c -> host_id h = id) as Hfree.
  { intros h Hh Ha. destruct (decide (host_id h = id)) as [|Hne]; [done|].
    assert (name_taken hosts id c = true) by (apply name_taken_spec; eauto). congruence. }
  eexists _, c. split; [done|]. destruct (existsb (has_host_id id) hosts) eqn:Ex.
  - set (f := fun h => {| host_id := host_id h; host_alias := c; added_at := added_at h; relay_url := relay;
      groups := groups h |}). set (hosts' := update_first (has_host_id id) f hosts).
    assert (map host_id hosts' = map host_id hosts) as Hids by (by apply update_first_fmap).
    assert (NoDup (map host_alias hosts')) as Hal' by (apply (aliases_after_update hosts id c f); done).
    split_and!; [by rewrite Hids|done|].
    apply existsb_exists in Ex as (h & Hh%list_elem_of_In & Hi%bool_decide_eq_true).
    apply resolve_alias_unique with (h := f h); [done| |done|done].
    apply update_first_elem; [done|by apply bool_decide_eq_true|].
    intros y Hy Hyi%bool_decide_eq_true. eapply NoDup_map_inj; [exact Hid|done..|congruence].
  - assert (id ∉ map host_id hosts) as Hni.
    { intros (h & -> & Hh)%list_elem_of_fmap. assert (existsb (has_host_id (host_id h)) hosts = true); [|congruence].
      apply existsb_exists. exists h. rewrite <-list_elem_of_In. split; [done|]. by apply bool_decide_eq_true. }
    assert (c ∉ map host_alias hosts) as Hnc.
    { intros (h & -> & Hh)%list_elem_of_fmap. apply Hni. rewrite <-(Hfree h Hh eq_refl). by apply list_elem_of_fmap_2. }
    rewrite !map_app. cbn. split_and!; [by apply NoDup_snoc|by apply NoDup_snoc|].
    eapply resolve_alias_unique with (h := {| host_id := id; host_alias := c; added_at := _; relay_url := _; groups := _ |});
      [|apply elem_of_app; right; left|done|done].
    rewrite map_app. by apply NoDup_snoc.
Qed.

Definition demo_hosts : KnownHosts :=
  [{| host_id := "aa"; host_alias := "web"; added_at := "0"; relay_url := None; groups := [] |};
   {| host_id := "bb"; host_alias := "web-2"; added_at := "0"; relay_url := None; groups := [] |}].
Lemma add_host_dedup_unique_witness :
  exists hosts' nm, add_host_dedup demo_hosts 7 "cc" "web" None = Ok (hosts', nm) /\
    resolve_alias hosts' nm = Some "cc"%string /\ nm = "web-3"%string.
Proof.
  destruct (add_host_dedup_unique demo_hosts 7 "cc" "web" None) as (hosts' & nm & E & _ & _ & H);
    [vm_compute; reflexivity|apply (bool_decide_unpack _); vm_compute; exact I|
     apply (bool_decide_unpack _); vm_compute; exact I|].
  exists hosts', nm. split; [exact E|]. split; [exact H|]. vm_compute in E. injection E as <- <-. reflexivity.
Defined.

(** A username that passes the check is safe to hand to the login
    machinery: 1 to 32 characters of [a-zA-Z0-9_-], never root, and an account
    that exists. *)
Theorem validate_username_sound user_exists user :
  validate_username user_exists user = Ok tt <->
  (1 <= String.length user <= 32)%nat /\ Forall (fun b => username_byte b = true) (str_bytes user) /\
  user <> "root"%string /\ user_exists user = true.
Proof.
  unfold validate_username. cbv zeta. destruct user as [|c s]; [split; [done|cbn; lia]|].
  set (u := String c s). cbn [orb]. assert (1 <= String.length u)%nat by (cbn; lia).
  rewrite bool_decide_false by done. cbn [orb].
  destruct (Z.ltb_spec 32 (Z.of_nat (String.length u))); [split; [done|lia]|].
  destruct (forallb username_byte (str_bytes u)) eqn:Ef; cbn [negb].
  2: { split; [done|]. intros (_ & Hf & _). exfalso. rewrite Forall_forall in Hf.
       assert (forallb username_byte (str_bytes u) = true); [|congruence].
       apply forallb_forall. intros b Hb. by apply Hf, list_elem_of_In. }
  assert (Forall (fun b => username_byte b = true) (str_bytes u)).
  { apply Forall_forall. intros b Hb. rewrite forallb_forall in Ef. by apply Ef, list_elem_of_In. }
  case_bool_decide; [split; [done|tauto]|].
  destruct (user_exists u); cbn [negb]; [|split; [done|naive_solver]].
  split; [|done]. intros _. split_and!; [lia|lia|done..].
Qed.
