(* ===== verification/Invite.v ===== *)
(** * Invite: invite tokens and pending invites (hop-core/src/invite/mod.rs)

    Minting, listing, revoking and redeeming invites over the host's config
    directory, whose stores may not load and whose writes may fail.  The digest (sha2), the legacy password verifier (argon2) and the
    token's text form (base64 over JSON) come from crates: they are interfaces. *)
From S2P Require Import Prelude Text Policy Config.
From Stdlib Require Import Ascii.
Local Open Scope Z_scope.

Inductive InviteTier := Client | WarrenOnly | Node | Admin.
#[export] Instance InviteTier_eq_dec : EqDecision InviteTier.
Proof. solve_decision. Defined.

#[export] Instance InviteTier_countable : Countable InviteTier.
Proof.
  refine (inj_countable' (fun t => match t with Client => 0 | WarrenOnly => 1 | Node => 2 | Admin => 3 end)
    (fun n => match n with 0 => Client | 1 => WarrenOnly | 2 => Node | _ => Admin end) _). by intros [].
Defined.

Definition is_warren_node (t : InviteTier) : bool := match t with Client => false | _ => true end.
Definition tier_as_str (t : InviteTier) : string :=
  match t with Client => "client" | WarrenOnly => "warren-only" | Node => "node" | Admin => "admin" end.

Record InviteToken := {
  tk_node_id : string;
  tk_secret : string;
  tk_relay_url : option string;
  tk_username : option string;
  tk_host_name : option string;
  tk_role : PeerRole;
  tk_role_name : option string;
  tk_sandbox : SandboxPolicy;
  tk_warren_ticket : option string;
  tk_tier : InviteTier;
  tk_founder_author : option string;
}.

#[export] Instance InviteToken_eq_dec : EqDecision InviteToken.
Proof. solve_decision. Defined.
#[export] Instance InviteToken_countable : Countable InviteToken.
Proof.
  refine (inj_countable'
    (fun t => (tk_node_id t, tk_secret t, tk_relay_url t, tk_username t, tk_host_name t,
               (tk_role t, tk_role_name t, tk_sandbox t, tk_warren_ticket t, tk_tier t, tk_founder_author t)))
    (fun '(a, b, c, d, e, (f, g, h, i, j, k)) =>
      {| tk_node_id := a; tk_secret := b; tk_relay_url := c; tk_username := d; tk_host_name := e; tk_role := f;
         tk_role_name := g; tk_sandbox := h; tk_warren_ticket := i; tk_tier := j; tk_founder_author := k |}) _).
  by intros [].
Defined.

Definition effective_tier (t : InviteToken) : InviteTier :=
  if negb (bool_decide (tk_tier t = Client)) then tk_tier t else
  match tk_warren_ticket t, tk_role t with
  | Some _, RoleCreator => Admin
  | Some _, _ => Node
  | None, _ => Client
  end.

Record PendingInvite := {
  secret_hash : string;
  inv_id : string;
  inv_tier : InviteTier;
  created_at : Z;
  inv_username : option string;
  inv_role : PeerRole;
  inv_role_name : option string;
  inv_sandbox : SandboxPolicy;
  max_uses : option Z;
  uses : Z;
  expiry_secs : Z;
}.
Abbreviation PendingInvites := (list PendingInvite).

Record ConsumedInvite := {
  c_id : string;
  c_username : option string;
  c_role : PeerRole;
  c_role_name : option string;
  c_sandbox : SandboxPolicy;
  c_tier : InviteTier;
}.
Record PendingInviteInfo := {
  i_id : string;
  i_created_at : Z;
  i_expires_at : Z;
  i_tier : InviteTier;
  i_role_name : option string;
  i_username : option string;
  i_uses : Z;
  i_max_uses : option Z;
}.
Record InviteGrant := {
  g_tier : InviteTier;
  g_warren_ticket : option string;
  g_founder_author : option string;
  g_host_name : option string;
}.
Record InviteParams := {
  p_username : option string;
  p_role_name : option string;
  p_tier : option InviteTier;
  p_host_name : option string;
  p_max_uses : option Z;
  p_expiry : option Z;
  p_sandbox : SandboxPolicy;
}.

(** The crates' operations. *)
Class InviteCrates := {
  sha256 : bytes -> bytes;
  sha256_len : forall d, length (sha256 d) = 32%nat;
  sha256_bytes : forall d, is_bytes (sha256 d);
  (** [PasswordHash::new(stored)] and [verify_password] both succeed. *)
  argon2_verify : string -> string -> bool;
  encode_invite : InviteToken -> string;
  decode_invite : string -> option InviteToken;
  token_roundtrip : forall t, decode_invite (encode_invite t) = Some t;
}.

(** A JSON store of the config directory and what a write to it meets: [write_shared_file] truncates the
    file as it opens it, so a write that fails after that leaves one that does not parse. *)
Inductive json_file (A : Type) := Missing | Corrupt | Holds (l : list A).
Arguments Missing {A}.
Arguments Corrupt {A}.
Arguments Holds {A} l.
Inductive disk_state := DiskOk | OpenFails | WriteFails.
Definition load {A} (f : json_file A) : option (list A) :=
  match f with Missing => Some [] | Corrupt => None | Holds l => Some l end.
Definition loads {A} (f : json_file A) : bool := match load f with Some _ => true | None => false end.
Definition save {A} (s : disk_state) (f : json_file A) (l : list A) : json_file A * bool :=
  match s with DiskOk => (Holds l, true) | OpenFails => (f, false) | WriteFails => (Corrupt, false) end.

(** The config directory, as far as invites read and write it: the pending
    store, the plain text files, the configured default role (when the host
    config loads) and the account database. *)
Record ConfigDir := {
  pending_file : json_file PendingInvite;
  files : gmap string string;
  default_role : option string;
  accounts : string -> bool;
  hostname : option string;
}.
Definition set_pending_file (f : json_file PendingInvite) (d : ConfigDir) : ConfigDir :=
  {| pending_file := f; files := files d; default_role := default_role d; accounts := accounts d; hostname := hostname d |}.
(** What the store holds; nothing when it does not load. *)
Definition pending (d : ConfigDir) : PendingInvites := default [] (load (pending_file d)).
Definition set_pending (p : PendingInvites) (d : ConfigDir) : ConfigDir := set_pending_file (Holds p) d.

(** ** Constant-time comparison *)
Definition ct_eq (a b : bytes) : bool :=
  if negb (length a =? length b)%nat then false else
  foldl (fun diff '(x, y) => diff .| (x .^ y)) 0 (zip a b) =? 0.

Section Invite.
Context `{InviteCrates}.

Definition sha256_hex (data : bytes) : string := hex_encode (sha256 data).
Definition SHA256_PREFIX : string := "sha256:".
Definition hash_secret (secret_hex : string) : string := SHA256_PREFIX +:+ sha256_hex (str_bytes secret_hex).
Definition short_id_for_secret (secret_hex : string) : string := stake 8 (sha256_hex (str_bytes secret_hex)).

Definition secret_matches (stored presented presented_sha : string) : bool :=
  match strip_prefix SHA256_PREFIX stored with
  | Some h => ct_eq (str_bytes h) (str_bytes presented_sha)
  | None => if starts_with "$argon2" stored then argon2_verify stored presented else false
  end.

(** ** The pending store *)
Definition live (now default_max_age : Z) (inv : PendingInvite) : bool :=
  let limit := if 0 <? expiry_secs inv then expiry_secs inv else default_max_age in
  sat_sub now (created_at inv) <? limit.
Definition prune_expired (now : Z) (invites : PendingInvites) (default_max_age : Z) : PendingInvites :=
  List.filter (live now default_max_age) invites.

Definition remove_at {A} (i : nat) (l : list A) : list A := take i l ++ drop (S i) l.
Definition use_once (inv : PendingInvite) : PendingInvite :=
  {| secret_hash := secret_hash inv; inv_id := inv_id inv; inv_tier := inv_tier inv; created_at := created_at inv;
     inv_username := inv_username inv; inv_role := inv_role inv; inv_role_name := inv_role_name inv;
     inv_sandbox := inv_sandbox inv; max_uses := max_uses inv; uses := u32 (uses inv + 1); expiry_secs := expiry_secs inv |}.
Definition consumed_of (inv : PendingInvite) : ConsumedInvite :=
  {| c_id := inv_id inv; c_username := inv_username inv; c_role := inv_role inv; c_role_name := inv_role_name inv;
     c_sandbox := inv_sandbox inv; c_tier := inv_tier inv |}.

Definition matches_secret (s : string) (inv : PendingInvite) : bool :=
  secret_matches (secret_hash inv) s (sha256_hex (str_bytes s)).

Definition try_consume (now : Z) (invites : PendingInvites) (client_secret : bytes) :
    PendingInvites * option ConsumedInvite :=
  match from_utf8 client_secret with
  | None => (invites, None)
  | Some secret =>
      match list_find (fun inv => matches_secret secret inv = true) invites with
      | None => (invites, None)
      | Some (idx, inv) =>
          if (0 <? expiry_secs inv) && (expiry_secs inv <=? sat_sub now (created_at inv))
          then (remove_at idx invites, None)
          else
            let inv' := use_once inv in
            let exhausted := match max_uses inv' with Some max => max <=? uses inv' | None => true end in
            (if exhausted then remove_at idx invites else <[idx := inv']> invites, Some (consumed_of inv))
      end
  end.

Definition list_invites (invites : PendingInvites) (default_max_age : Z) : list PendingInviteInfo :=
  map (fun inv =>
    let limit := if 0 <? expiry_secs inv then expiry_secs inv else default_max_age in
    {| i_id := inv_id inv; i_created_at := created_at inv; i_expires_at := sat_add64 (created_at inv) limit;
       i_tier := inv_tier inv; i_role_name := inv_role_name inv; i_username := inv_username inv;
       i_uses := uses inv; i_max_uses := max_uses inv |}) invites.

Inductive revoke_error := RevokeEmptyId | RevokeNoMatch | RevokeAmbiguous (n : nat).
Definition revoke (invites : PendingInvites) (id_prefix : string) : rust revoke_error (PendingInvites * string) :=
  if bool_decide (id_prefix = EmptyString) then Err RevokeEmptyId else
  let hit inv := negb (bool_decide (inv_id inv = EmptyString)) && starts_with id_prefix (inv_id inv) in
  let matching := List.filter (fun '(_, inv) => hit inv) (imap pair invites) in
  match matching with
  | [] => Err RevokeNoMatch
  | [(i, inv)] => Ok (remove_at i invites, inv_id inv)
  | _ => Err (RevokeAmbiguous (length matching))
  end.

(** ** Minting *)
Definition default_tier (d : ConfigDir) : InviteTier :=
  if bool_decide (is_Some (files d !! "netdoc.ticket"%string)) then Node else Client.

Definition resolve_founder_author (d : ConfigDir) : option string :=
  match (fun s => trim s) <$> files d !! "netdoc-founder.author"%string with
  | Some (String c s) => Some (String c s)
  | _ =>
      ci ← files d !! "creator_invite"%string;
      t ← decode_invite (trim ci);
      tk_founder_author t
  end.

Definition read_file (d : ConfigDir) (nm : string) : option string :=
  match trim <$> files d !! nm with Some EmptyString => None | r => r end.
(** The first label of the host's name. *)
Definition system_hostname (d : ConfigDir) : option string :=
  match (fun h => default h (head (split_char "." h))) <$> hostname d with Some EmptyString => None | r => r end.

Definition grant_for_tier (d : ConfigDir) (tier : InviteTier) : InviteGrant :=
  {| g_tier := tier;
     g_warren_ticket := match tier with
                        | Client => None
                        | WarrenOnly | Node => read_file d "netdoc-read.ticket"
                        | Admin => read_file d "netdoc.ticket"
                        end;
     g_founder_author := if is_warren_node tier then resolve_founder_author d else None;
     g_host_name := system_hostname d |}.

Inductive mint_error := BadUsername (e : username_error) | NeedsWarren | PendingUnreadable | PendingUnsaved.

(** The directory afterwards and the token: a store that does not load is left alone, one that could not be
    written is torn or as it was.  [io] is what the write of the store meets. *)
Definition generate_invite_with_tier (io : disk_state) (d : ConfigDir) (now : Z) (secret_bytes : bytes)
    (host_public_key : string) (relay user hname : option string) (r : PeerRole) (rname : option string)
    (expiry : Z) (sb : SandboxPolicy) (maxu : option Z) (tier : InviteTier) : ConfigDir * rust mint_error string :=
  match (if bool_decide (r = RoleCreator) then Ok tt else
         match user with
         | None => Ok tt
         | Some u => match validate_username (accounts d) u with
                     | Ok _ => Ok tt | Err e => Err (BadUsername e) | Panic => Panic
                     end
         end), load (pending_file d) with
  | Err e, _ => (d, Err e)
  | Panic, _ => (d, Panic)
  | Ok _, None => (d, Err PendingUnreadable)
  | Ok _, Some store =>
      let secret_hex := hex_encode secret_bytes in
      let store := prune_expired now store expiry in
      let store := store ++ [{| secret_hash := hash_secret secret_hex; inv_id := short_id_for_secret secret_hex;
                                inv_tier := tier; created_at := now; inv_username := user; inv_role := r;
                                inv_role_name := rname; inv_sandbox := sb; max_uses := maxu; uses := 0;
                                expiry_secs := expiry |}] in
      let '(f, saved) := save io (pending_file d) store in
      let token := {| tk_node_id := host_public_key; tk_secret := secret_hex; tk_relay_url := relay;
                      tk_username := None; tk_host_name := hname; tk_role := RolePeer; tk_role_name := None;
                      tk_sandbox := unrestricted; tk_warren_ticket := None; tk_tier := tier;
                      tk_founder_author := None |} in
      (set_pending_file f d, if saved then Ok (encode_invite token) else Err PendingUnsaved)
  end.

Definition generate_invite_with_role (io : disk_state) (d : ConfigDir) (now : Z) (secret_bytes : bytes)
    (host_public_key : string) (relay user hname : option string) (r : PeerRole) (rname : option string)
    (expiry : Z) (sb : SandboxPolicy) (maxu : option Z) : ConfigDir * rust mint_error string :=
  let tier := match r, default_tier d with RoleCreator, Node => Admin | _, t => t end in
  generate_invite_with_tier io d now secret_bytes host_public_key relay user hname r rname expiry sb maxu tier.

Definition generate_invite (io : disk_state) (d : ConfigDir) (now : Z) (secret_bytes : bytes) (host_public_key : string)
    (relay user hname : option string) : ConfigDir * rust mint_error string :=
  generate_invite_with_tier io d now secret_bytes host_public_key relay user hname RolePeer None (15 * 60)
    unrestricted None (default_tier d).

Definition build_invite_token (io : disk_state) (d : ConfigDir) (now : Z) (secret_bytes : bytes) (host_public_key : string)
    (relay : option string) (params : InviteParams) : ConfigDir * rust mint_error string :=
  let has_warren := bool_decide (is_Some (files d !! "netdoc.ticket"%string)) in
  let asks_warren := match p_tier params with Some (WarrenOnly | Node | Admin) => true | _ => false end in
  if asks_warren && negb has_warren then (d, Err NeedsWarren) else
  let '(r, rname) := match p_tier params with
                     | Some Admin => (RoleCreator, Some "admin"%string)
                     | Some WarrenOnly => (RolePeer, Some "warren-only"%string)
                     | _ => (RolePeer, match p_role_name params with Some n => Some n | None => default_role d end)
                     end in
  let tier := default (default_tier d) (p_tier params) in
  generate_invite_with_tier io d now secret_bytes host_public_key relay (p_username params) (p_host_name params)
    r rname (default (15 * 60) (p_expiry params)) (p_sandbox params) (p_max_uses params) tier.

Definition is_hex_digit_byte (b : Z) : bool := in_range 48 57 b || in_range 65 70 b || in_range 97 102 b.
Definition is_invite_token (target : string) : bool :=
  if (String.length target =? 64)%nat && forallb is_hex_digit_byte (str_bytes target) then false
  else bool_decide (is_Some (decode_invite target)).
End Invite.

(** ** Comparing secrets *)
Lemma ct_fold_zero (l : list (Z * Z)) acc :
  foldl (fun diff '(x, y) => diff .| (x .^ y)) acc l = 0 <-> acc = 0 /\ Forall (fun p => p.1 = p.2) l.
Proof.
  revert acc. induction l as [|[x y] l IH]; intros acc; cbn [foldl].
  - split; [by intros ->|by intros [-> _]].
  - rewrite IH, Z.lor_eq_0_iff, Z.lxor_eq_0_iff, Forall_cons. cbn. tauto.
Qed.

Lemma zip_eq (a b : bytes) : length a = length b -> Forall (fun p => p.1 = p.2) (zip a b) -> a = b.
Proof.
  revert b. induction a as [|x a IH]; intros [|y b] Hl; try done. cbn. intros [E Hf]%Forall_cons.
  f_equal; [exact E|]. apply IH; [by injection Hl|done].
Qed.

(** The constant-time comparison decides equality of byte strings. *)
Theorem ct_eq_correct a b : ct_eq a b = true <-> a = b.
Proof.
  unfold ct_eq. destruct (Nat.eqb_spec (length a) (length b)) as [Hl|Hl]; cbn [negb].
  2: { split; [done|]. by intros ->. }
  rewrite Z.eqb_eq, ct_fold_zero. split; [intros [_ Hf]; by apply zip_eq|].
  intros ->. split; [done|]. clear. induction b; cbn; constructor; auto.
Qed.

Section InviteProofs.
Context `{InviteCrates}.

Lemma ct_eq_refl a : ct_eq a a = true.
Proof.
  unfold ct_eq. rewrite Nat.eqb_refl. cbn [negb]. apply Z.eqb_eq, ct_fold_zero.
  split; [done|]. induction a; cbn; constructor; auto.
Qed.

Lemma hash_secret_matches s : secret_matches (hash_secret s) s (sha256_hex (str_bytes s)) = true.
Proof.
  unfold secret_matches, hash_secret.
  assert (strip_prefix SHA256_PREFIX (SHA256_PREFIX +:+ sha256_hex (str_bytes s)) = Some (sha256_hex (str_bytes s))) as ->
    by (by apply strip_prefix_spec).
  apply ct_eq_refl.
Qed.

(** ** Redeeming one invite among others *)
Definition unmatched (secret : string) (l : PendingInvites) : Prop :=
  Forall (fun inv => matches_secret secret inv = false) l.

Lemma find_unique secret pre inv post : unmatched secret pre -> matches_secret secret inv = true ->
  list_find (fun i => matches_secret secret i = true) (pre ++ inv :: post) = Some (length pre, inv).
Proof.
  intros Hpre Hm. apply list_find_Some. split_and!.
  - by apply list_lookup_middle.
  - done.
  - intros j y Hj Hlt. rewrite lookup_app_l in Hj by done. apply list_elem_of_lookup_2 in Hj.
    unfold unmatched in Hpre. rewrite Forall_forall in Hpre. rewrite Hpre by done. done.
Qed.

Lemma find_none secret l : unmatched secret l -> list_find (fun i => matches_secret secret i = true) l = None.
Proof.
  intros Hu. apply list_find_None. eapply Forall_impl; [exact Hu|]. intros inv ->. done.
Qed.

Lemma remove_at_middle {A} (pre post : list A) x : remove_at (length pre) (pre ++ x :: post) = pre ++ post.
Proof.
  unfold remove_at. rewrite take_app_length. f_equal.
  replace (S (length pre)) with (length pre + 1)%nat by lia. rewrite <-drop_drop, drop_app_length. done.
Qed.

Definition expired (now : Z) (inv : PendingInvite) : bool :=
  (0 <? expiry_secs inv) && (expiry_secs inv <=? sat_sub now (created_at inv)).

(** What one attempt does when a single entry matches. *)
Lemma try_consume_one now pre inv post client secret : from_utf8 client = Some secret ->
  unmatched secret pre -> matches_secret secret inv = true ->
  try_consume now (pre ++ inv :: post) client =
    if expired now inv then (pre ++ post, None)
    else (if match max_uses inv with Some m => m <=? u32 (uses inv + 1) | None => true end
          then pre ++ post else pre ++ use_once inv :: post, Some (consumed_of inv)).
Proof.
  intros Hu Hpre Hm. unfold try_consume. rewrite Hu, (find_unique secret pre inv post Hpre Hm).
  fold (expired now inv). destruct (expired now inv); [by rewrite remove_at_middle|].
  cbn [use_once max_uses uses]. cbv zeta. rewrite remove_at_middle.
  assert (<[length pre := use_once inv]> (pre ++ inv :: post) = pre ++ use_once inv :: post) as ->; [|done].
  rewrite insert_app_r_alt by lia. by rewrite Nat.sub_diag.
Qed.

(** A sequence of attempts with one secret: the store at the end and how many
    succeeded. *)
Fixpoint redeem (times : list Z) (invites : PendingInvites) (client : bytes) : PendingInvites * nat :=
  match times with
  | [] => (invites, 0%nat)
  | now :: times =>
      let '(invites, r) := try_consume now invites client in
      let '(invites, n) := redeem times invites client in
      (invites, match r with Some _ => S n | None => n end)
  end.

(** How many redemptions an entry still allows. *)
Definition capacity (inv : PendingInvite) : nat :=
  match max_uses inv with None => 1 | Some m => Z.to_nat (Z.max 1 (m - uses inv)) end.

Lemma redeem_unmatched times l client secret : from_utf8 client = Some secret -> unmatched secret l ->
  redeem times l client = (l, 0%nat).
Proof.
  intros Hu Hl. induction times as [|t ts IH]; [done|]. cbn [redeem].
  unfold try_consume. rewrite Hu, find_none by done. by rewrite IH.
Qed.

(** An invite is honoured exactly as often as it was minted for: with one
    matching entry and every attempt inside its lifetime, a single-use invite
    succeeds once and an invite for [n] uses succeeds [n] times, after which the
    entry is gone and no other entry has changed. *)
Theorem invite_redemption_count times pre inv post client secret :
  from_utf8 client = Some secret ->
  unmatched secret pre -> unmatched secret post -> matches_secret secret inv = true ->
  0 <= uses inv < 2 ^ 32 - 1 -> (forall m, max_uses inv = Some m -> is_u32 m) ->
  Forall (fun now => expired now inv = false) times ->
  let '(invites, n) := redeem times (pre ++ inv :: post) client in
  n = Nat.min (length times) (capacity inv) /\
  (capacity inv <= length times -> invites = pre ++ post)%nat.
Proof.
  intros Hu Hpre Hpost. revert inv. induction times as [|now times IH]; intros inv Hm Huse Hmax Ht; cbn [redeem].
  { split; [done|]. unfold capacity. destruct (max_uses inv); cbn; lia. }
  apply Forall_cons in Ht as [Hnow Ht].
  rewrite (try_consume_one now pre inv post client secret Hu Hpre Hm), Hnow.
  assert (u32 (uses inv + 1) = uses inv + 1) as -> by (apply Z.mod_small; lia).
  assert (unmatched secret (pre ++ post)) as Hpp by (apply Forall_app; by split).
  destruct (max_uses inv) as [m|] eqn:Em.
  2: { rewrite (redeem_unmatched times _ client secret Hu Hpp). unfold capacity. rewrite Em. cbn [length].
       split; [lia|done]. }
  destruct (Z.leb_spec m (uses inv + 1)) as [Hle|Hgt].
  - rewrite (redeem_unmatched times _ client secret Hu Hpp). unfold capacity. rewrite Em. cbn [length].
    split; [lia|done].
  - specialize (IH (use_once inv) Hm). cbn [use_once uses max_uses] in IH.
    assert (u32 (uses inv + 1) = uses inv + 1) as Huu by (apply Z.mod_small; lia).
    specialize (Hmax m eq_refl) as Hm32. unfold is_u32 in Hm32. rewrite Huu, Em in IH.
    specialize (IH ltac:(lia) Hmax Ht).
    destruct (redeem times (pre ++ use_once inv :: post) client) as [l n]. destruct IH as [IHn IHl].
    unfold capacity in *. cbn [use_once uses max_uses] in *. rewrite Em, Huu in *. cbn [length].
    split; [lia|]. intros Hc. apply IHl. lia.
Qed.

Lemma hex_encode_utf8 l : is_bytes l -> from_utf8 (str_bytes (hex_encode l)) = Some (hex_encode l).
Proof.
  intros Hl. unfold from_utf8, hex_encode. pose proof (hex_bytes_ascii l Hl) as Ha.
  rewrite str_bytes_str; [by rewrite utf8_valid_ascii|].
  eapply Forall_impl; [exact Ha|]. unfold in_range, is_u8. intros b [?%Z.leb_le ?%Z.leb_le]%andb_true_iff. lia.
Qed.

Lemma pending_set p d : pending (set_pending p d) = p.
Proof. done. Qed.
(** What a minting that succeeds did. *)
Lemma minted_Ok io d now secret_bytes key relay user hname r rname expiry sb maxu tier d' text :
  generate_invite_with_tier io d now secret_bytes key relay user hname r rname expiry sb maxu tier = (d', Ok text) ->
  exists store, load (pending_file d) = Some store /\ io = DiskOk /\
    d' = set_pending (prune_expired now store expiry ++
           [{| secret_hash := hash_secret (hex_encode secret_bytes); inv_id := short_id_for_secret (hex_encode secret_bytes);
               inv_tier := tier; created_at := now; inv_username := user; inv_role := r; inv_role_name := rname;
               inv_sandbox := sb; max_uses := maxu; uses := 0; expiry_secs := expiry |}]) d /\
    text = encode_invite {| tk_node_id := key; tk_secret := hex_encode secret_bytes; tk_relay_url := relay;
                            tk_username := None; tk_host_name := hname; tk_role := RolePeer; tk_role_name := None;
                            tk_sandbox := unrestricted; tk_warren_ticket := None; tk_tier := tier; tk_founder_author := None |}.
Proof.
  unfold generate_invite_with_tier. match goal with |- context [match ?g with Ok _ => _ | _ => _ end] => destruct g as [[]| |] end; [|done..].
  destruct (load (pending_file d)) as [store|]; [|done]. destruct io; cbn [save]; [|done..]. intros [= <- <-]. by exists store.
Qed.
(** A minting that fails leaves the directory as it was, unless it tore the store. *)
Lemma minted_Err io d now secret_bytes key relay user hname r rname expiry sb maxu tier : io <> WriteFails ->
  let '(d', res) := generate_invite_with_tier io d now secret_bytes key relay user hname r rname expiry sb maxu tier in
  (exists text, res = Ok text) \/ d' = d.
Proof.
  intros Hio. unfold generate_invite_with_tier. match goal with |- context [match ?g with Ok _ => _ | _ => _ end] => destruct g as [[]| |] end; [|by right..].
  destruct (load (pending_file d)) as [store|]; [|by right]. destruct io; cbn [save]; [left; by eexists| |done]. right. by destruct d.
Qed.

Lemma minted_redeems io d now now' secret_bytes key relay user hname r rname expiry sb maxu tier d' text :
  is_bytes secret_bytes -> unmatched (hex_encode secret_bytes) (pending d) ->
  generate_invite_with_tier io d now secret_bytes key relay user hname r rname expiry sb maxu tier = (d', Ok text) ->
  expiry = 0 \/ sat_sub now' now < expiry ->
  exists token, decode_invite text = Some token /\
    tk_node_id token = key /\ tk_secret token = hex_encode secret_bytes /\
    tk_username token = None /\ tk_role token = RolePeer /\ tk_role_name token = None /\
    tk_sandbox token = unrestricted /\ tk_warren_ticket token = None /\ tk_founder_author token = None /\
    snd (try_consume now' (pending d') (str_bytes (tk_secret token))) =
      Some {| c_id := short_id_for_secret (hex_encode secret_bytes); c_username := user; c_role := r;
              c_role_name := rname; c_sandbox := sb; c_tier := tier |}.
Proof.
  intros Hb Hun (store & Hload & _ & -> & ->)%minted_Ok Hlife. unfold pending in Hun. rewrite Hload in Hun. cbn [default] in Hun.
  eexists. split; [apply token_roundtrip|]. split_and!; try done. rewrite pending_set. cbn [tk_secret].
  assert (unmatched (hex_encode secret_bytes) (prune_expired now store expiry)) as Hpre.
  { apply Forall_forall. intros inv [_ Hin]%list_elem_of_In%filter_In%and_comm.
    unfold unmatched in Hun. rewrite Forall_forall in Hun. by apply Hun, list_elem_of_In. }
  rewrite (try_consume_one now' _ _ [] _ (hex_encode secret_bytes));
    [|by apply hex_encode_utf8|done|apply hash_secret_matches].
  unfold expired. cbn [expiry_secs created_at].
  assert ((0 <? expiry) && (expiry <=? sat_sub now' now) = false) as ->; [|done].
  apply andb_false_iff. rewrite Z.ltb_ge, Z.leb_gt. lia.
Qed.

(** Minting and redeeming: the token handed out carries the secret but no
    capability (no username, role, sandbox, ticket or trust anchor), and
    presenting its secret within the invite's lifetime redeems exactly what was
    recorded at minting, provided no older pending entry matches that secret. *)
Theorem mint_redeem io d now now' secret_bytes key relay user hname r rname expiry sb maxu tier d' text :
  is_bytes secret_bytes -> unmatched (hex_encode secret_bytes) (pending d) ->
  generate_invite_with_tier io d now secret_bytes key relay user hname r rname expiry sb maxu tier = (d', Ok text) ->
  expiry = 0 \/ sat_sub now' now < expiry ->
  exists token, decode_invite text = Some token /\
    tk_node_id token = key /\ tk_secret token = hex_encode secret_bytes /\
    tk_username token = None /\ tk_role token = RolePeer /\ tk_role_name token = None /\
    tk_sandbox token = unrestricted /\ tk_warren_ticket token = None /\ tk_founder_author token = None /\
    snd (try_consume now' (pending d') (str_bytes (tk_secret token))) =
      Some {| c_id := short_id_for_secret (hex_encode secret_bytes); c_username := user; c_role := r;
              c_role_name := rname; c_sandbox := sb; c_tier := tier |}.
Proof. apply minted_redeems. Qed.

(** A presented secret that matches no entry changes nothing, and one that
    matches an expired entry is refused and the entry dropped. *)
Theorem try_consume_refusals now pre inv post client secret : from_utf8 client = Some secret ->
  unmatched secret (pre ++ post) ->
  try_consume now (pre ++ post) client = (pre ++ post, None) /\
  (matches_secret secret inv = true -> 0 < expiry_secs inv <= sat_sub now (created_at inv) ->
     try_consume now (pre ++ inv :: post) client = (pre ++ post, None)).
Proof.
  intros Hu Hun. split; [unfold try_consume; by rewrite Hu, find_none|].
  intros Hm He. apply Forall_app in Hun as [Hpre _].
  rewrite (try_consume_one now pre inv post client secret Hu Hpre Hm).
  unfold expired. destruct (Z.ltb_spec 0 (expiry_secs inv)); [|lia].
  destruct (Z.leb_spec (expiry_secs inv) (sat_sub now (created_at inv))); [done|lia].
Qed.
End InviteProofs.

(** ** Revoking *)
Lemma filter_imap_nil {A} (hit : A -> bool) (l : list A) k :
  List.filter (fun '(_, x) => hit x) (imap (fun i x => ((k + i)%nat, x)) l) = [] <->
  Forall (fun x => hit x = false) l.
Proof.
  revert k. induction l as [|a l IH]; intros k; [done|]. rewrite imap_cons. cbn.
  rewrite Forall_cons. destruct (hit a) eqn:E; [split; [done|by intros [? _]]|].
  rewrite <-(IH (S k)). erewrite (imap_ext _ (fun i x => ((S k + i)%nat, x)));
    [tauto|intros; cbn; f_equal; lia].
Qed.

Lemma filter_imap_one {A} (hit : A -> bool) (l : list A) k i x :
  List.filter (fun '(_, x) => hit x) (imap (fun i x => ((k + i)%nat, x)) l) = [(i, x)] <->
  exists pre post, l = pre ++ x :: post /\ i = (k + length pre)%nat /\ hit x = true /\
    Forall (fun y => hit y = false) (pre ++ post).
Proof.
  revert k. induction l as [|a l IH]; intros k.
  { split; [done|]. by intros ([] & ? & ? & _). }
  rewrite imap_cons. cbn. rewrite (imap_ext _ (fun i x => ((S k + i)%nat, x))) by (intros; cbn; f_equal; lia).
  destruct (hit a) eqn:E.
  - rewrite Nat.add_0_r. split.
    + intros Hf. assert (List.filter (fun '(_, x) => hit x) (imap (fun i x => ((S k + i)%nat, x)) l) = []) as Hn
        by congruence. apply filter_imap_nil in Hn. injection Hf as <- <- _.
      exists [], l. rewrite Nat.add_0_r. done.
    + intros ([|b pre] & post & Hl & Hi & Hx & Hn); injection Hl as -> ->.
      * rewrite Hi, Nat.add_0_r. f_equal. by apply filter_imap_nil.
      * apply Forall_cons in Hn as [Hb _]. congruence.
  - rewrite IH. split.
    + intros (pre & post & -> & -> & Hx & Hn). exists (a :: pre), post. cbn.
      split_and!; [done|lia|done|by constructor].
    + intros ([|b pre] & post & Hl & Hi & Hx & Hn); injection Hl as -> ->; [congruence|].
      apply Forall_cons in Hn as [_ Hn]. exists pre, post. cbn in Hi. split_and!; [done|lia|done..].
Qed.

Definition revocable (prefix : string) (inv : PendingInvite) : bool :=
  negb (bool_decide (inv_id inv = EmptyString)) && starts_with prefix (inv_id inv).

(** Revoking removes one entry or none: it succeeds exactly when a
    non-empty prefix is a prefix of one pending id only, and then removes that
    entry, reports its id and keeps all others in order. *)
Theorem revoke_correct invites prefix l id :
  revoke invites prefix = Ok (l, id) <->
  prefix <> EmptyString /\ exists pre inv post, invites = pre ++ inv :: post /\ l = pre ++ post /\
    id = inv_id inv /\ revocable prefix inv = true /\
    Forall (fun y => revocable prefix y = false) (pre ++ post).
Proof.
  unfold revoke. case_bool_decide as Hp; [split; [done|tauto]|]. cbv zeta. fold (revocable prefix).
  rewrite (imap_ext pair (fun i x => ((0 + i)%nat, x))) by done.
  pose proof (filter_imap_one (revocable prefix) invites 0) as Hone.
  destruct (List.filter _ _) as [|[i inv] [|p rest]].
  - split; [done|]. intros (_ & pre & inv & post & Hi & _ & _ & Hr & Hn).
    assert ([] = [(length pre, inv)]); [|done]. apply Hone. by exists pre, post.
  - destruct (proj1 (Hone i inv) eq_refl) as (pre & post & -> & -> & Hr & Hn). cbn [Nat.add].
    rewrite remove_at_middle. split.
    + intros [= <- <-]%Ok_inj. split; [done|]. by exists pre, inv, post.
    + intros (_ & pre' & inv' & post' & Hi' & -> & -> & Hr' & Hn').
      assert ([(length pre, inv)] = [(length pre', inv')]) as [= Hlen ->].
      { apply Hone. exists pre', post'. by rewrite <-Hi'. }
      apply app_inj_1 in Hi' as [-> [= ->]]; [done|done].
  - split; [done|]. intros (_ & pre & inv' & post & Hi & _ & _ & Hr & Hn).
    assert ((i, inv) :: p :: rest = [(length pre, inv')]); [|done]. apply Hone. by exists pre, post.
Qed.

(** ** A concrete instance: a "digest" that keeps the first 32 bytes, and tokens
    written as the bits of their code *)
Fixpoint bits_str (p : positive) : string :=
  match p with
  | xH => EmptyString
  | xO p => String "0" (bits_str p)
  | xI p => String "1" (bits_str p)
  end.
Fixpoint str_bits (s : string) : positive :=
  match s with
  | EmptyString => xH
  | String c s => if Ascii.eqb c "0" then xO (str_bits s) else xI (str_bits s)
  end.
Lemma str_bits_str p : str_bits (bits_str p) = p.
Proof. induction p; cbn; congruence. Qed.

Instance demo_crates : InviteCrates.
Proof.
  refine {| sha256 d := map u8 (take 32 (d ++ replicate 32 0)); argon2_verify _ _ := false;
            encode_invite t := bits_str (encode t); decode_invite s := decode (str_bits s) |}.
  - intros d. rewrite length_map, length_take, length_app, length_replicate. lia.
  - intros d. apply Forall_fmap, Forall_forall. intros x _. cbn. unfold is_u8, u8. apply Z.mod_pos_bound. lia.
  - intros t. rewrite str_bits_str. apply decode_encode.
Defined.

Definition demo_dir : ConfigDir :=
  {| pending_file := Missing; files := {["netdoc.ticket"%string := "w"%string]}; default_role := Some "member"%string;
     accounts := fun u => bool_decide (u = "alice"%string); hostname := Some "box.lan"%string |}.
Definition demo_secret : bytes := replicate 32 7.
Definition demo_invite (maxu : option Z) : PendingInvite :=
  {| secret_hash := hash_secret (hex_encode demo_secret); inv_id := short_id_for_secret (hex_encode demo_secret);
     inv_tier := Node; created_at := 1000; inv_username := Some "alice"%string; inv_role := RolePeer;
     inv_role_name := None; inv_sandbox := unrestricted; max_uses := maxu; uses := 0; expiry_secs := 900 |}.

Lemma ct_eq_correct_witness : ct_eq [1; 2] [1; 3] <> true.
Proof. intros E. apply ct_eq_correct in E. discriminate E. Defined.

Lemma invite_redemption_count_witness :
  snd (redeem [1000; 1001; 1002; 1003] [demo_invite (Some 3)] (str_bytes (hex_encode demo_secret))) = 3%nat.
Proof.
  pose proof (invite_redemption_count [1000; 1001; 1002; 1003] [] (demo_invite (Some 3)) []
    (str_bytes (hex_encode demo_secret)) (hex_encode demo_secret)) as H.
  destruct (redeem [1000; 1001; 1002; 1003] [demo_invite (Some 3)] (str_bytes (hex_encode demo_secret))) as [l n] eqn:E.
  assert (([] ++ demo_invite (Some 3) :: []) = [demo_invite (Some 3)]) as Happ by reflexivity.
  rewrite Happ, E in H.
  apply H; [vm_compute; reflexivity|constructor|constructor|vm_compute; reflexivity|cbn; lia| |repeat constructor].
  intros m Hm. injection Hm as <-. apply (bool_decide_unpack _). vm_compute. exact I.
Defined.

Lemma mint_redeem_witness :
  match generate_invite DiskOk demo_dir 1000 demo_secret "key" None (Some "alice"%string) None with
  | (d', Ok text) => exists token, decode_invite text = Some token /\ tk_warren_ticket token = None /\
      snd (try_consume 1500 (pending d') (str_bytes (tk_secret token))) =
        Some (consumed_of (demo_invite None))
  | _ => False
  end.
Proof.
  destruct (generate_invite DiskOk demo_dir 1000 demo_secret "key" None (Some "alice"%string) None)
    as [d' [text|e|]] eqn:E; [|vm_compute in E; discriminate E|vm_compute in E; discriminate E].
  destruct (mint_redeem DiskOk demo_dir 1000 1500 demo_secret "key" None (Some "alice"%string) None RolePeer None 900
    unrestricted None Node d' text) as (token & H1 & _ & _ & _ & _ & _ & _ & H2 & _ & H3).
  - apply (bool_decide_unpack _). vm_compute. exact I.
  - constructor.
  - exact E.
  - right. vm_compute. reflexivity.
  - exists token. split; [exact H1|]. split; [exact H2|exact H3].
Defined.

Lemma try_consume_refusals_witness :
  try_consume 2000 [demo_invite None] (str_bytes (hex_encode demo_secret)) = ([], None).
Proof.
  apply (try_consume_refusals 2000 [] (demo_invite None) [] (str_bytes (hex_encode demo_secret)) (hex_encode demo_secret));
    [vm_compute; reflexivity|constructor|vm_compute; reflexivity|vm_compute; split; [reflexivity|discriminate]].
Defined.

Lemma revoke_correct_witness :
  revoke [demo_invite None] "3037" = Ok ([], "30373037"%string).
Proof.
  apply revoke_correct. split; [discriminate|].
  exists [], (demo_invite None), []. split; [reflexivity|]. split; [reflexivity|].
  split; [vm_compute; reflexivity|]. split; [vm_compute; reflexivity|constructor].
Defined.
