(* ===== verification/Auth.v ===== *)
(** * Auth: authenticating a connecting client (hop-core/src/auth/mod.rs)

    The per-node attempt limiter, with its tokens as IEEE doubles, and the whole
    of [authenticate_client] over the host's stores, the limiter, the network
    document and the message it reads, with the exits on failing I/O apart ([authenticate_io]).
    The document is another component: its
    operations are an interface. *)
From S2P Require Import Prelude Float Text Policy Config Invite.
From Stdlib Require Import SpecFloat.
Local Open Scope Z_scope.

(** ** The attempt limiter; instants are nanoseconds *)
Record AuthBucket := { tokens : f64; last : Z; banned_until : option Z }.
Definition AUTH_BURST : f64 := f64_of_Z 5.
Definition AUTH_REFILL_PER_SEC : f64 := f64_div (f64_of_Z 1) (f64_of_Z 12).
Definition AUTH_BAN : Z := 60 * 10 ^ 9.
Definition AUTH_IDLE_FORGET : Z := 10 * 60 * 10 ^ 9.

Definition keep_bucket (now : Z) (b : AuthBucket) : bool :=
  (sat_sub now (last b) <? AUTH_IDLE_FORGET) ||
  match banned_until b with Some t => now <? t | None => false end.

(** From [let elapsed = ..] on: refill, then spend a token or start a ban. *)
Definition spend (b : AuthBucket) (now : Z) : AuthBucket * bool :=
  let elapsed := as_secs_f64 (sat_sub now (last b)) in
  let tok := f64_min (f64_add (tokens b) (f64_mul elapsed AUTH_REFILL_PER_SEC)) AUTH_BURST in
  if f64_ge tok (f64_of_Z 1)
  then ({| tokens := f64_sub tok (f64_of_Z 1); last := now; banned_until := banned_until b |}, true)
  else ({| tokens := tok; last := now; banned_until := Some (now + AUTH_BAN) |}, false).

Definition auth_attempt_allowed_at (map : gmap string AuthBucket) (remote : string) (now : Z) :
    gmap string AuthBucket * bool :=
  let map := filter (fun kv => keep_bucket now kv.2 = true) map in
  let bucket := default {| tokens := AUTH_BURST; last := now; banned_until := None |} (map !! remote) in
  match banned_until bucket with
  | Some until =>
      if now <? until
      then (<[remote := {| tokens := tokens bucket; last := now; banned_until := banned_until bucket |}]> map, false)
      else
        let '(b, ok) := spend {| tokens := f64_of_Z 1; last := now; banned_until := None |} now in
        (<[remote := b]> map, ok)
  | None => let '(b, ok) := spend bucket now in (<[remote := b]> map, ok)
  end.

(** ** Messages; payloads the handler does not look at stay encoded *)
Inductive ClientMessage :=
  | Input (data : bytes)
  | WindowSize (cols rows pixel_width pixel_height : Z)
  | AuthResponse (secret : bytes)
  | RequestShell
  | RequestShellV2 (session_id : option string)
  | RequestTransfer (req : bytes)
  | RequestExec (command : string)
  | RequestShellV3 (session_id : option string) (sb : SandboxPolicy)
  | RequestExecV2 (command : string) (sb : SandboxPolicy)
  | RequestTunnel (port : Z)
  | SetEnv (vars : list (string * string))
  | RequestAdmin (req : bytes)
  | RequestPeerOp (req : bytes)
  | AnnounceNetdocAuthor (author : string) (self_doc vpn_endpoint : option string)
  | RequestView (session_id : string)
  | Ping.

Inductive HostMessage :=
  | AuthResult (authorized : bool)
  | AuthResultV2 (authorized : bool) (reason : option string) (tier : InviteTier)
      (warren_ticket founder_author host_name : option string).

Inductive AuthOutcome :=
  | Authorized (user : option string) (r : PeerRole) (sb : SandboxPolicy)
  | InviteAccepted (user : option string) (r : PeerRole) (sb : SandboxPolicy)
  | Rejected.

(** Audit events: name, whether it is a denial, actor, user and detail. *)
Record AuditEvent := {
  ev_category : string;
  ev_name : string;
  ev_outcome : string;
  ev_actor : string;
  ev_user : option string;
  ev_detail : option string;
}.
Definition rejected_event (remote : string) (detail : string) : AuditEvent :=
  {| ev_category := "connection"; ev_name := "connection.rejected"; ev_outcome := "deny"; ev_actor := remote;
     ev_user := None; ev_detail := Some detail |}.
Definition authorized_event (remote : string) (user detail : option string) : AuditEvent :=
  {| ev_category := "connection"; ev_name := "connection.authorized"; ev_outcome := "allow"; ev_actor := remote;
     ev_user := user; ev_detail := detail |}.

(** [send_auth_result]: the message for the negotiated protocol version. *)
Definition empty_grant : InviteGrant :=
  {| g_tier := Client; g_warren_ticket := None; g_founder_author := None; g_host_name := None |}.
Definition send_auth_result (protocol_version : Z) (authorized : bool) (reason : option string)
    (grant : option InviteGrant) : HostMessage :=
  if 4 <=? protocol_version then
    let g := default empty_grant grant in
    AuthResultV2 authorized reason (g_tier g) (g_warren_ticket g) (g_founder_author g) (g_host_name g)
  else AuthResult authorized.

Definition sandbox_suffix (sb : SandboxPolicy) : string :=
  if bool_decide (sb = preset_monitor) then "monitor" else
  if bool_decide (sb = preset_audit) then "audit" else
  if bool_decide (sb = preset_deploy) then "deploy" else
  if read_only sb && no_network sb then "readonly" else
  if read_only sb then "readonly" else
  if negb (is_empty (allowed_commands sb)) then "restricted" else "".

Definition generate_peer_display_name (short_id : string) (user : option string) (r : PeerRole)
    (sb : SandboxPolicy) : string :=
  match user with
  | Some u => u +:+ "-" +:+ short_id
  | None =>
      if bool_decide (r = RoleCreator) then "creator-" +:+ short_id else
      let suffix := sandbox_suffix sb in
      if bool_decide (suffix = EmptyString) then "peer-" +:+ short_id
      else "peer-" +:+ short_id +:+ "-" +:+ suffix
  end.

(** ** The network document, as an interface; [None] is an error *)
Class NetDoc (D : Type) := {
  is_revoked : D -> string -> option bool;
  clear_revocation : D -> string -> option D;
  admit_peer : D -> Peer -> option D;
  get_peer : D -> string -> option (option Peer);
  cleared_not_revoked : forall d id d', clear_revocation d id = Some d' -> is_revoked d' id = Some false;
  admit_keeps_revocation : forall d p d' id, admit_peer d p = Some d' -> is_revoked d' id = is_revoked d id;
}.

Section Auth.
Context `{InviteCrates} {D : Type} `{NetDoc D}.

(** Everything the handler reads and writes. *)
Record World := {
  peers_json : PeersStore;
  config : ConfigDir;
  limiter : gmap string AuthBucket;
  netdoc : option D;
  sent : list HostMessage;
  audit : list AuditEvent;
}.
Definition set_peers (p : PeersStore) (w : World) : World :=
  {| peers_json := p; config := config w; limiter := limiter w; netdoc := netdoc w; sent := sent w; audit := audit w |}.
Definition set_config (c : ConfigDir) (w : World) : World :=
  {| peers_json := peers_json w; config := c; limiter := limiter w; netdoc := netdoc w; sent := sent w; audit := audit w |}.
Definition set_limiter (l : gmap string AuthBucket) (w : World) : World :=
  {| peers_json := peers_json w; config := config w; limiter := l; netdoc := netdoc w; sent := sent w; audit := audit w |}.
Definition set_netdoc (d : option D) (w : World) : World :=
  {| peers_json := peers_json w; config := config w; limiter := limiter w; netdoc := d; sent := sent w; audit := audit w |}.
Definition send_msg (m : HostMessage) (w : World) : World :=
  {| peers_json := peers_json w; config := config w; limiter := limiter w; netdoc := netdoc w;
     sent := sent w ++ [m]; audit := audit w |}.
Definition record (e : AuditEvent) (w : World) : World :=
  {| peers_json := peers_json w; config := config w; limiter := limiter w; netdoc := netdoc w;
     sent := sent w; audit := audit w ++ [e] |}.

(** The clocks an attempt sees: the wall clock in seconds and an instant, and the
    short form of the remote key used in names. *)
Record AuthCtx := { wall : Z; instant : Z; fmt_short : string -> string }.

Definition set_role_name (rn : option string) (p : Peer) : Peer :=
  {| node_id := node_id p; name := name p; authorized_at := authorized_at p; last_seen := last_seen p;
     username := username p; role := role p; role_name := rn; netdoc_author := netdoc_author p;
     self_doc := self_doc p; vip := vip p; vpn_endpoint := vpn_endpoint p; site_id := site_id p; sandbox := sandbox p |}.

Definition is_revoked_now (w : World) (remote : string) : bool :=
  match netdoc w with Some nd => default false (is_revoked nd remote) | None => false end.

(** The invite branch once the secret was consumed; [peers] is the snapshot
    loaded before the message was read. *)
Definition accept_invite (ctx : AuthCtx) (peers : PeersStore) (remote : string) (protocol_version : Z)
    (consumed : ConsumedInvite) (w : World) : World * AuthOutcome :=
  let display_name := generate_peer_display_name (fmt_short ctx remote) (c_username consumed)
                        (c_role consumed) (c_sandbox consumed) in
  let peers := add_peer peers (wall ctx) remote display_name (c_username consumed) (c_role consumed)
                 (c_sandbox consumed) in
  let peers := update_first (has_id remote) (set_role_name (c_role_name consumed)) peers in
  let w := set_peers peers w in
  let w := match netdoc w with
           | Some nd => if is_revoked_now w remote
                        then match clear_revocation nd remote with Some nd' => set_netdoc (Some nd') w | None => w end
                        else w
           | None => w
           end in
  let w := match netdoc w, List.find (has_id remote) peers with
           | Some nd, Some entry => match admit_peer nd entry with Some nd' => set_netdoc (Some nd') w | None => w end
           | _, _ => w
           end in
  let grant := grant_for_tier (config w) (c_tier consumed) in
  let w := send_msg (send_auth_result protocol_version true None (Some grant)) w in
  let role_str := match c_role consumed with RolePeer => "Peer" | RoleCreator => "Creator" end in
  let w := record {| ev_category := "membership"; ev_name := "member.join"; ev_outcome := "success";
                     ev_actor := remote; ev_user := c_username consumed;
                     ev_detail := Some ("role=" +:+ role_str +:+ " tier=" +:+ tier_as_str (c_tier consumed) +:+
                                        " invite=" +:+ c_id consumed) |} w in
  (w, InviteAccepted (c_username consumed) (c_role consumed) (c_sandbox consumed)).

Definition invite_flow (ctx : AuthCtx) (peers : PeersStore) (remote : string) (protocol_version : Z)
    (secret : bytes) (w : World) : World * AuthOutcome :=
  let '(lim, allowed) := auth_attempt_allowed_at (limiter w) remote (instant ctx) in
  let w := set_limiter lim w in
  if negb allowed then
    let w := send_msg (send_auth_result protocol_version false
                         (Some "too many attempts; try again in a minute"%string) None) w in
    (record (rejected_event remote "invite attempts rate-limited") w, Rejected)
  else
    let invites := prune_expired (wall ctx) (pending (config w)) (15 * 60) in
    match try_consume (wall ctx) invites secret with
    | (invites, Some consumed) =>
        let w := set_config (set_pending invites (config w)) w in
        accept_invite ctx peers remote protocol_version consumed w
    | (_, None) =>
        let w := send_msg (send_auth_result protocol_version false
                             (Some "invite rejected (expired, already used, or unknown)"%string) None) w in
        (record (rejected_event remote "invalid invite") w, Rejected)
    end.

Definition session_flow (ctx : AuthCtx) (peers : PeersStore) (remote : string) (msg : ClientMessage) (w : World) :
    World * (AuthOutcome * option ClientMessage) :=
  if is_revoked_now w remote then
    let w := send_msg (AuthResult false) w in
    (record (rejected_event remote "revoked in network document") w, (Rejected, None))
  else if is_authorized peers remote then
    let user := peer_username peers remote in
    let r := peer_role peers remote in
    let sb := peer_sandbox peers remote in
    let w := set_peers (update_last_seen peers (wall ctx) remote) w in
    (record (authorized_event remote user None) w, (Authorized user r sb, Some msg))
  else
    match netdoc w with
    | Some nd =>
        if default false (is_revoked nd remote) then (send_msg (AuthResult false) w, (Rejected, None))
        else match default None (get_peer nd remote) with
             | Some dp =>
                 (record (authorized_event remote (username dp) (Some "via netdoc replica"%string)) w,
                  (Authorized (username dp) (role dp) (sandbox dp), Some msg))
             | None => (record (rejected_event remote "unauthorized") (send_msg (AuthResult false) w), (Rejected, None))
             end
    | None => (record (rejected_event remote "unauthorized") (send_msg (AuthResult false) w), (Rejected, None))
    end.

(** The handler, given the peers it loaded on entry and the message it then read. *)
Definition authenticate_with (ctx : AuthCtx) (peers : PeersStore) (remote : string) (protocol_version : Z)
    (msg : ClientMessage) (w : World) : World * (AuthOutcome * option ClientMessage) :=
  match msg with
  | AuthResponse secret =>
      let '(w, o) := invite_flow ctx peers remote protocol_version secret w in (w, (o, None))
  | RequestShell | RequestShellV2 _ | RequestShellV3 _ _ | RequestTransfer _ | RequestExec _
  | RequestExecV2 _ _ | RequestTunnel _ | AnnounceNetdocAuthor _ _ _ | RequestAdmin _ | Ping =>
      session_flow ctx peers remote msg w
  | _ => (w, (Rejected, None))
  end.
(** Run without interference from other connections. *)
Definition authenticate_client (ctx : AuthCtx) (remote : string) (protocol_version : Z)
    (msg : ClientMessage) (w : World) : World * (AuthOutcome * option ClientMessage) :=
  authenticate_with ctx (peers_json w) remote protocol_version msg w.

(** ** Failing I/O *)
(** The operations whose errors end the handler with [?]: loading the peers, reading the message, taking
    the lock, loading and saving the invites, saving the peers, and sending an answer.  A save that fails
    could not open the file. *)
Record IoFaults := {
  load_peers_fails : bool; read_fails : bool; lock_poisoned : bool; load_invites_fails : bool;
  save_invites_fails : bool; save_peers_fails : bool; send_fails : bool;
}.
(** [w'] but for what follows a send that failed. *)
Definition unsent (w w' : World) : World :=
  {| peers_json := peers_json w'; config := config w'; limiter := limiter w'; netdoc := netdoc w'; sent := sent w; audit := audit w |}.
(** The handler, [None] when it ends with an error. *)
Definition authenticate_io (f : IoFaults) (ctx : AuthCtx) (remote : string) (protocol_version : Z)
    (msg : ClientMessage) (w : World) : World * option (AuthOutcome * option ClientMessage) :=
  if load_peers_fails f || read_fails f then (w, None) else
  let peers := peers_json w in
  match msg with
  | AuthResponse secret =>
      let '(lim, allowed) := auth_attempt_allowed_at (limiter w) remote (instant ctx) in
      let w1 := set_limiter lim w in
      let '(w', o) := invite_flow ctx peers remote protocol_version secret w in
      if negb allowed then if send_fails f then (w1, None) else (w', Some (o, None))
      else if lock_poisoned f || load_invites_fails f || negb (loads (pending_file (config w))) then (w1, None)
      else match try_consume (wall ctx) (prune_expired (wall ctx) (pending (config w1)) (15 * 60)) secret with
           | (invites, Some consumed) =>
               if save_invites_fails f then (w1, None) else
               let w2 := set_config (set_pending invites (config w1)) w1 in
               if save_peers_fails f then (w2, None)
               else if send_fails f then (unsent w2 (accept_invite ctx peers remote protocol_version consumed w2).1, None)
               else (w', Some (o, None))
           | (_, None) => if send_fails f then (w1, None) else (w', Some (o, None))
           end
  | RequestShell | RequestShellV2 _ | RequestShellV3 _ _ | RequestTransfer _ | RequestExec _
  | RequestExecV2 _ _ | RequestTunnel _ | AnnounceNetdocAuthor _ _ _ | RequestAdmin _ | Ping =>
      let '(w', x) := session_flow ctx peers remote msg w in
      match x.1 with
      | Authorized _ _ _ => if is_authorized peers remote && save_peers_fails f then (w, None) else (w', Some x)
      | _ => if send_fails f then (w, None) else (w', Some x)
      end
  | _ => (w, Some (Rejected, None))
  end.
End Auth.

(** ** The limiter *)

(** A node's attempts at the given instants, and which were allowed. *)
Fixpoint attempt_run (m : gmap string AuthBucket) (remote : string) (times : list Z) :
    gmap string AuthBucket * list bool :=
  match times with
  | [] => (m, [])
  | now :: times =>
      let '(m, ok) := auth_attempt_allowed_at m remote now in
      let '(m, oks) := attempt_run m remote times in
      (m, ok :: oks)
  end.

Lemma attempt_present m remote now b : m !! remote = Some b -> keep_bucket now b = true ->
  exists m', auth_attempt_allowed_at m remote now =
    let '(b', ok) :=
      match banned_until b with
      | Some until =>
          if now <? until then ({| tokens := tokens b; last := now; banned_until := banned_until b |}, false)
          else spend {| tokens := f64_of_Z 1; last := now; banned_until := None |} now
      | None => spend b now
      end in (<[remote := b']> m', ok).
Proof.
  intros Hb Hk. exists (filter (fun kv => keep_bucket now kv.2 = true) m). unfold auth_attempt_allowed_at.
  assert (filter (fun kv => keep_bucket now kv.2 = true) m !! remote = Some b) as -> by (by apply map_lookup_filter_Some).
  cbn [default id]. destruct (banned_until b) as [t|]; [destruct (now <? t); [done|]|]; by destruct (spend _ _).
Qed.

Lemma attempt_fresh m remote now : m !! remote = None ->
  exists m', auth_attempt_allowed_at m remote now =
    let '(b', ok) := spend {| tokens := AUTH_BURST; last := now; banned_until := None |} now in (<[remote := b']> m', ok).
Proof.
  intros Hm. exists (filter (fun kv => keep_bucket now kv.2 = true) m). unfold auth_attempt_allowed_at.
  assert (filter (fun kv => keep_bucket now kv.2 = true) m !! remote = None) as ->
    by (apply map_lookup_filter_None; by left). cbn. by destruct (spend _ _).
Qed.

Lemma sat_sub_diag n : sat_sub n n = 0.
Proof. unfold sat_sub. lia. Qed.

Lemma keep_same now t bu : keep_bucket now {| tokens := t; last := now; banned_until := bu |} = true.
Proof. unfold keep_bucket. cbn [last]. rewrite sat_sub_diag. done. Qed.

(** Spending at the instant of the last update, from a whole number of tokens. *)
Lemma spend_same now k : (1 <= k <= 5)%nat ->
  spend {| tokens := f64_of_Z (Z.of_nat k); last := now; banned_until := None |} now =
  ({| tokens := f64_of_Z (Z.of_nat (k - 1)); last := now; banned_until := None |}, true).
Proof.
  intros Hk. unfold spend. cbn [last tokens banned_until]. rewrite sat_sub_diag.
  do 6 (destruct k as [|k]; [lia || (vm_compute; reflexivity)|]). lia.
Qed.
Lemma spend_empty now :
  spend {| tokens := f64_of_Z 0; last := now; banned_until := None |} now =
  ({| tokens := f64_of_Z 0; last := now; banned_until := Some (now + AUTH_BAN) |}, false).
Proof. unfold spend. cbn [last tokens banned_until]. rewrite sat_sub_diag. vm_compute. reflexivity. Qed.

Lemma attempt_run_cons m remote now times :
  snd (attempt_run m remote (now :: times)) =
  snd (auth_attempt_allowed_at m remote now) ::
  snd (attempt_run (fst (auth_attempt_allowed_at m remote now)) remote times).
Proof. cbn [attempt_run]. destruct (auth_attempt_allowed_at m remote now). cbn. by destruct (attempt_run _ _ _). Qed.

Lemma attempt_run_spend m remote now k times : (1 <= k <= 5)%nat ->
  m !! remote = Some {| tokens := f64_of_Z (Z.of_nat k); last := now; banned_until := None |} ->
  exists m', m' !! remote = Some {| tokens := f64_of_Z (Z.of_nat (k - 1)); last := now; banned_until := None |} /\
    snd (attempt_run m remote (now :: times)) = true :: snd (attempt_run m' remote times).
Proof.
  intros Hk Hm. destruct (attempt_present m remote now _ Hm) as [m' E]; [apply keep_same|].
  cbn [banned_until] in E. rewrite spend_same in E by done.
  eexists. split; [apply (lookup_insert_eq m')|]. rewrite attempt_run_cons, E. done.
Qed.

(** A banned node: refused, then one attempt once the ban is over. *)
Lemma banned_run m remote t now until t1 t2 :
  m !! remote = Some {| tokens := t; last := now; banned_until := Some until |} ->
  now <= t1 < until -> until <= t2 < t1 + AUTH_IDLE_FORGET ->
  snd (attempt_run m remote [t1; t2; t2]) = [false; true; false].
Proof.
  intros Hm Ht1 Ht2. destruct (attempt_present m remote t1 _ Hm) as [m1 E1].
  { unfold keep_bucket. cbn [banned_until]. destruct (Z.ltb_spec t1 until); [apply orb_true_r|lia]. }
  cbn [banned_until tokens] in E1. destruct (Z.ltb_spec t1 until); [|lia].
  rewrite attempt_run_cons, E1. cbn [fst snd]. f_equal.
  destruct (attempt_present _ remote t2 _ (lookup_insert_eq m1 remote
    {| tokens := t; last := t1; banned_until := Some until |})) as [m2 E2].
  { unfold keep_bucket. cbn [last]. unfold sat_sub. destruct (Z.ltb_spec (Z.max 0 (t2 - t1)) AUTH_IDLE_FORGET); [done|lia]. }
  cbn [banned_until] in E2. destruct (Z.ltb_spec t2 until); [lia|].
  change 1 with (Z.of_nat 1) in E2. rewrite spend_same in E2 by lia.
  rewrite attempt_run_cons, E2. cbn [fst snd]. f_equal.
  destruct (attempt_present _ remote t2 _ (lookup_insert_eq m2 remote
    {| tokens := f64_of_Z (Z.of_nat (1 - 1)); last := t2; banned_until := None |}) (keep_same _ _ _)) as [m3 E3].
  cbn [banned_until] in E3. change (Z.of_nat (1 - 1)) with 0 in *. rewrite spend_empty in E3.
  rewrite attempt_run_cons, E3. done.
Qed.

(** The limiter: a node seen for the first time gets exactly five attempts
    at once, the sixth is refused and starts a ban; every attempt during the
    ban's minute is refused; and when it is over, and the node has not been
    quiet long enough to be forgotten, it gets one attempt and no more. *)
Theorem limiter_burst_then_ban m remote now t1 t2 : m !! remote = None ->
  now <= t1 < now + AUTH_BAN -> now + AUTH_BAN <= t2 < t1 + AUTH_IDLE_FORGET ->
  snd (attempt_run m remote [now; now; now; now; now; now; t1; t2; t2]) =
    [true; true; true; true; true; false; false; true; false].
Proof.
  intros Hm Ht1 Ht2. destruct (attempt_fresh m remote now Hm) as [m0 E0].
  change AUTH_BURST with (f64_of_Z (Z.of_nat 5)) in E0. rewrite spend_same in E0 by lia.
  rewrite attempt_run_cons, E0. cbn [fst snd Nat.sub].
  destruct (attempt_run_spend (<[remote:=_]> m0) remote now 4 [now; now; now; now; t1; t2; t2]
    ltac:(lia) (lookup_insert_eq _ _ _)) as (m1 & H1 & ->).
  destruct (attempt_run_spend m1 remote now 3 [now; now; now; t1; t2; t2] ltac:(lia) H1) as (m2 & H2 & ->).
  destruct (attempt_run_spend m2 remote now 2 [now; now; t1; t2; t2] ltac:(lia) H2) as (m3 & H3 & ->).
  destruct (attempt_run_spend m3 remote now 1 [now; t1; t2; t2] ltac:(lia) H3) as (m4 & H4 & ->).
  destruct (attempt_present m4 remote now _ H4 (keep_same _ _ _)) as [m5 E5].
  cbn [banned_until] in E5. change (Z.of_nat (1 - 1)) with 0 in E5. rewrite spend_empty in E5.
  rewrite attempt_run_cons, E5. cbn [fst snd]. do 6 f_equal.
  eapply banned_run; [apply lookup_insert_eq|done|done].
Qed.

Lemma limiter_burst_then_ban_witness :
  snd (attempt_run ∅ "node" [0; 0; 0; 0; 0; 0; 59 * 10 ^ 9; 60 * 10 ^ 9; 60 * 10 ^ 9]) =
    [true; true; true; true; true; false; false; true; false].
Proof.
  apply (limiter_burst_then_ban ∅ "node" 0 (59 * 10 ^ 9) (60 * 10 ^ 9)); [reflexivity| |];
    split; vm_compute; (discriminate || reflexivity).
Defined.

(** ** Who is let in *)
Section AuthProofs.
Context `{InviteCrates} {D : Type} `{NetDoc D}.
Abbreviation World := (World (D := D)).

(** The requests that are served on the strength of membership alone. *)
Definition session_request (msg : ClientMessage) : bool :=
  match msg with
  | RequestShell | RequestShellV2 _ | RequestShellV3 _ _ | RequestTransfer _ | RequestExec _
  | RequestExecV2 _ _ | RequestTunnel _ | AnnounceNetdocAuthor _ _ _ | RequestAdmin _ | Ping => true
  | _ => false
  end.

Lemma authenticate_session ctx peers remote v msg (w : World) : session_request msg = true ->
  authenticate_with ctx peers remote v msg w = session_flow ctx peers remote msg w.
Proof. by destruct msg. Qed.

(** The stores an unauthorized node must not be able to change. *)
Definition same_stores (w w' : World) : Prop :=
  peers_json w' = peers_json w /\ config w' = config w /\ netdoc w' = netdoc w.

(** What justifies each outcome. *)
Definition justified (ctx : AuthCtx) (remote : string) (msg : ClientMessage) (w w' : World)
    (o : AuthOutcome) (back : option ClientMessage) : Prop :=
  match o with
  | InviteAccepted u r sb =>
      back = None /\ exists secret c, msg = AuthResponse secret /\
        snd (auth_attempt_allowed_at (limiter w) remote (instant ctx)) = true /\
        snd (try_consume (wall ctx) (prune_expired (wall ctx) (pending (config w)) (15 * 60)) secret) = Some c /\
        u = c_username c /\ r = c_role c /\ sb = c_sandbox c
  | Authorized u r sb =>
      back = Some msg /\ session_request msg = true /\ is_revoked_now w remote = false /\
      ((is_authorized (peers_json w) remote = true /\ u = peer_username (peers_json w) remote /\
        r = peer_role (peers_json w) remote /\ sb = peer_sandbox (peers_json w) remote) \/
       (is_authorized (peers_json w) remote = false /\ exists nd dp, netdoc w = Some nd /\
        get_peer nd remote = Some (Some dp) /\ u = username dp /\ r = role dp /\ sb = sandbox dp))
  | Rejected => back = None /\ same_stores w w'
  end.

Lemma session_flow_justified ctx remote msg (w : World) : session_request msg = true ->
  let '(w', (o, back)) := session_flow ctx (peers_json w) remote msg w in justified ctx remote msg w w' o back.
Proof.
  intros Hm. unfold session_flow. destruct (is_revoked_now w remote) eqn:Er; [done|].
  destruct (is_authorized (peers_json w) remote) eqn:Ea; [cbn; by split_and!; auto|].
  destruct (netdoc w) as [nd|] eqn:En; [|done].
  destruct (default false (is_revoked nd remote)); [done|].
  destruct (default None (get_peer nd remote)) as [dp|] eqn:Eg; [|done].
  cbn. split_and!; try done. right. split; [done|]. exists nd, dp.
  split; [done|]. destruct (get_peer nd remote) as [g|]; [|done]. cbn in Eg. by subst g.
Qed.

(** C1.  Admission is sound, on every path: a client is accepted by invite only
    within its attempt budget and with a secret that redeems a live pending
    invite, and gets that invite's identity; it is authorized only for a session
    request, only when not revoked, and with the identity the local store or
    else the document records; and a rejected client has changed none of the
    stores. *)
Theorem authenticate_justified ctx remote v msg (w : World) :
  let '(w', (o, back)) := authenticate_client ctx remote v msg w in justified ctx remote msg w w' o back.
Proof.
  unfold authenticate_client. destruct (session_request msg) eqn:Em.
  { rewrite authenticate_session by done. by apply session_flow_justified. }
  destruct msg; try done. unfold authenticate_with, invite_flow.
  destruct (auth_attempt_allowed_at (limiter w) remote (instant ctx)) as [lim ok] eqn:El. cbv zeta.
  destruct ok; cbn [negb]; [|done]. cbn [config set_limiter].
  destruct (try_consume (wall ctx) (prune_expired (wall ctx) (pending (config w)) (15 * 60)) secret)
    as [inv [c|]] eqn:Et; [|done].
  unfold accept_invite. cbn [justified]. split; [done|]. exists secret, c.
  rewrite El, Et. by split_and!.
Qed.

(** Errors admit nobody unnoticed: when an I/O operation fails the handler either has changed no store, or the
    client's secret had redeemed a live invite, which is then used up.  If it does not fail the
    result is that of the handler above. *)
Theorem io_error_safe f ctx remote v msg (w : World) :
  match authenticate_io f ctx remote v msg w with
  | (w', Some x) => authenticate_client ctx remote v msg w = (w', x)
  | (w', None) => same_stores w w' \/
      exists secret c, msg = AuthResponse secret /\
        snd (auth_attempt_allowed_at (limiter w) remote (instant ctx)) = true /\
        try_consume (wall ctx) (prune_expired (wall ctx) (pending (config w)) (15 * 60)) secret = (pending (config w'), Some c) /\
        (peers_json w' = peers_json w \/ peers_json w' = peers_json (authenticate_client ctx remote v msg w).1)
  end.
Proof.
  assert (forall lim, same_stores w (set_limiter lim w)) as Hlim by done.
  unfold authenticate_io, authenticate_client. destruct (_ || _); [by left|].
  destruct (session_request msg) eqn:Em.
  { assert (forall X : World * option (AuthOutcome * option ClientMessage),
      X = (let '(w', x) := session_flow ctx (peers_json w) remote msg w in match x.1 with
        | Authorized _ _ _ => if is_authorized (peers_json w) remote && save_peers_fails f then (w, None) else (w', Some x)
        | _ => if send_fails f then (w, None) else (w', Some x) end) ->
      match X with
      | (w', Some x) => authenticate_with ctx (peers_json w) remote v msg w = (w', x)
      | (w', None) => same_stores w w' end) as Hx.
    { intros X ->. rewrite authenticate_session by done. destruct (session_flow _ _ _ _ _) as [w' [o b]]. cbn [fst].
      destruct o, (is_authorized (peers_json w) remote), (save_peers_fails f), (send_fails f); done. }
    specialize (Hx _ eq_refl). destruct msg; try done; cbn beta iota; destruct (let '(w', x) := session_flow _ _ _ _ _ in _) as [w' [x|]]; auto. }
  destruct msg; try done. unfold authenticate_with, invite_flow.
  destruct (auth_attempt_allowed_at (limiter w) remote (instant ctx)) as [lim ok] eqn:El. cbv zeta. cbn [config set_limiter].
  destruct ok; cbn [negb]; [|destruct (send_fails f); [by left|done]].
  destruct (try_consume (wall ctx) (prune_expired (wall ctx) (pending (config w)) (15 * 60)) secret) as [inv [c|]] eqn:Et.
  - destruct (accept_invite ctx (peers_json w) remote v c _) as [w' o] eqn:Ea. destruct (_ || _); [by left|].
    destruct (save_invites_fails f); [by left|]. destruct (save_peers_fails f).
    { right. exists secret, c. by split_and!; [..|left]. }
    destruct (send_fails f); [|done]. right. exists secret, c. cbn [fst unsent peers_json config].
    split_and!; [done|done| |by right]. f_equal.
    assert (config w' = config (set_config (set_pending inv (config w)) (set_limiter lim w))) as ->; [|done].
    apply (f_equal fst) in Ea. cbn in Ea. subst w'. unfold accept_invite. cbn. repeat case_match; done.
  - destruct (_ || _); [by left|]. destruct (send_fails f); [by left|done].
Qed.

(** ** After an invite *)
Lemma accept_invite_peers ctx peers remote v c (w : World) :
  let w' := fst (accept_invite ctx peers remote v c w) in
  peers_json w' = update_first (has_id remote) (set_role_name (c_role_name c))
    (add_peer peers (wall ctx) remote (generate_peer_display_name (fmt_short ctx remote) (c_username c) (c_role c) (c_sandbox c))
       (c_username c) (c_role c) (c_sandbox c)).
Proof. unfold accept_invite. cbn. repeat case_match; done. Qed.

Lemma accept_invite_not_revoked ctx peers remote v c (w : World) :
  (forall d id, is_Some (clear_revocation (D := D) d id)) ->
  is_revoked_now (fst (accept_invite ctx peers remote v c w)) remote = false.
Proof.
  intros Hclear. unfold accept_invite. cbn [fst]. set (ps := update_first _ _ _).
  assert (forall w1 : World, is_revoked_now w1 remote = false ->
    is_revoked_now (match netdoc w1, List.find (has_id remote) ps with
      | Some nd, Some entry => match admit_peer nd entry with Some nd' => set_netdoc (Some nd') w1 | None => w1 end
      | _, _ => w1 end) remote = false) as Hadmit.
  { intros w1 H1. destruct (netdoc w1) as [nd|] eqn:En; [|done]. destruct (List.find _ ps) as [e|]; [|done].
    destruct (admit_peer nd e) as [nd'|] eqn:Ea; [|done].
    unfold is_revoked_now in *. cbn [netdoc set_netdoc]. rewrite En in H1.
    by rewrite (admit_keeps_revocation _ _ _ _ Ea). }
  unfold is_revoked_now at 1. cbn [netdoc record send_msg].
  match goal with |- context[netdoc (match netdoc ?w1 with _ => _ end)] =>
    specialize (Hadmit w1); set (w2 := w1) in * end.
  apply Hadmit. subst w2. cbn [netdoc set_peers]. destruct (netdoc w) as [nd|] eqn:En.
  - destruct (is_revoked_now (set_peers ps w) remote) eqn:Er; [|done].
    destruct (Hclear nd remote) as [nd' Hc]. rewrite Hc. unfold is_revoked_now. cbn [netdoc set_netdoc].
    by rewrite (cleared_not_revoked _ _ _ Hc).
  - unfold is_revoked_now. cbn [netdoc set_peers]. by rewrite En.
Qed.

Lemma invite_flow_accepted ctx peers remote v secret (w : World) u r sb :
  snd (invite_flow ctx peers remote v secret w) = InviteAccepted u r sb ->
  exists c w1, invite_flow ctx peers remote v secret w = accept_invite ctx peers remote v c w1 /\
    u = c_username c /\ r = c_role c /\ sb = c_sandbox c.
Proof.
  unfold invite_flow. destruct (auth_attempt_allowed_at _ _ _) as [lim ok]. cbv zeta.
  destruct ok; cbn [negb]; [|done].
  destruct (try_consume _ _ _) as [inv [c|]]; [|done]. intros E.
  eexists c, _. split; [done|]. unfold accept_invite in E. cbn [snd] in E. by injection E.
Qed.

Lemma find_update_first {A} (P : A -> bool) f (l : list A) : (forall x, P x = true -> P (f x) = true) ->
  List.find P (update_first P f l) = f <$> List.find P l.
Proof.
  intros Hf. induction l as [|x l IH]; [done|]. cbn. destruct (P x) eqn:E; cbn; [by rewrite Hf|].
  by rewrite E, IH.
Qed.

Lemma find_app_none {A} (P : A -> bool) (l1 l2 : list A) : existsb P l1 = false ->
  List.find P (l1 ++ l2) = List.find P l2.
Proof.
  induction l1 as [|x l1 IH]; [done|]. cbn. destruct (P x); [done|]. exact IH.
Qed.

Lemma existsb_update_first {A} (P Q : A -> bool) f (l : list A) : (forall x, P (f x) = P x) ->
  existsb P (update_first Q f l) = existsb P l.
Proof.
  intros Hf. induction l as [|x l IH]; [done|]. cbn. destruct (Q x); cbn; [by rewrite Hf|by rewrite IH].
Qed.

(** Admission takes effect: after an accepted invite, any session request of
    that node is authorized, even if it had been revoked before, provided the
    document can clear a revocation; and a node that was not known gets the
    identity its invite carried. *)
Theorem invite_then_session ctx ctx' remote v v' secret msg (w : World) u r sb :
  (forall d id, is_Some (clear_revocation (D := D) d id)) -> session_request msg = true ->
  let '(w', (o, _)) := authenticate_client ctx remote v (AuthResponse secret) w in
  o = InviteAccepted u r sb ->
  exists u' r' sb', snd (authenticate_client ctx' remote v' msg w') = (Authorized u' r' sb', Some msg) /\
    (is_authorized (peers_json w) remote = false -> u' = u /\ r' = r /\ sb' = sb).
Proof.
  intros Hclear Hm. unfold authenticate_client at 1. cbn [authenticate_with].
  destruct (invite_flow ctx (peers_json w) remote v secret w) as [w' o] eqn:E. intros ->.
  destruct (invite_flow_accepted ctx (peers_json w) remote v secret w u r sb) as (c & w1 & Ef & -> & -> & ->);
    [by rewrite E|]. rewrite E in Ef.
  unfold authenticate_client. rewrite authenticate_session by done. unfold session_flow.
  assert (w' = fst (accept_invite ctx (peers_json w) remote v c w1)) as -> by (by rewrite <-Ef).
  rewrite accept_invite_not_revoked by done. rewrite accept_invite_peers.
  set (nm := generate_peer_display_name _ _ _ _).
  set (ps := add_peer (peers_json w) (wall ctx) remote nm (c_username c) (c_role c) (c_sandbox c)).
  unfold is_authorized. rewrite existsb_update_first by done.
  assert (existsb (has_id remote) ps = true) as ->.
  { subst ps. unfold add_peer. destruct (existsb (has_id remote) (peers_json w)) eqn:Ex; [done|].
    rewrite existsb_app. cbn. unfold has_id. cbn. by rewrite bool_decide_true, orb_true_r. }
  eexists _, _, _. split; [done|]. intros Hnew. fold (is_authorized (peers_json w) remote) in Hnew.
  unfold peer_username, peer_role, peer_sandbox. rewrite find_update_first by done.
  subst ps. unfold add_peer. unfold is_authorized in Hnew. rewrite Hnew, find_app_none by done.
  cbn. unfold has_id. cbn. by rewrite bool_decide_true.
Qed.

(** Two redemptions can lose one of the peers: the peers file is loaded
    before the first message is read and written back whole, so when two new
    nodes redeem invites with both loads before either write, both are told they
    are authorized and the first is no longer in the file. *)
Theorem concurrent_invites_lose_peer ctx ctx' a b v secret secret' (w : World) ua ra sba ub rb sbb :
  a <> b -> is_authorized (peers_json w) a = false ->
  let '(w1, (oa, _)) := authenticate_with ctx (peers_json w) a v (AuthResponse secret) w in
  let '(w2, (ob, _)) := authenticate_with ctx' (peers_json w) b v (AuthResponse secret') w1 in
  oa = InviteAccepted ua ra sba -> ob = InviteAccepted ub rb sbb ->
  is_authorized (peers_json w1) a = true /\ is_authorized (peers_json w2) a = false.
Proof.
  intros Hab Ha. cbn [authenticate_with].
  destruct (invite_flow ctx (peers_json w) a v secret w) as [w1 oa] eqn:Ea.
  destruct (invite_flow ctx' (peers_json w) b v secret' w1) as [w2 ob] eqn:Eb. intros -> ->.
  destruct (invite_flow_accepted ctx (peers_json w) a v secret w ua ra sba) as (ca & wa & Efa & _); [by rewrite Ea|].
  destruct (invite_flow_accepted ctx' (peers_json w) b v secret' w1 ub rb sbb) as (cb & wb & Efb & _); [by rewrite Eb|].
  rewrite Ea in Efa. rewrite Eb in Efb.
  assert (w1 = fst (accept_invite ctx (peers_json w) a v ca wa)) as -> by (by rewrite <-Efa).
  assert (w2 = fst (accept_invite ctx' (peers_json w) b v cb wb)) as -> by (by rewrite <-Efb).
  rewrite !accept_invite_peers. unfold is_authorized in *. rewrite !existsb_update_first by done.
  unfold add_peer. rewrite Ha, existsb_app. split.
  - rewrite Ha. cbn. unfold has_id. cbn. by rewrite bool_decide_true.
  - destruct (existsb (has_id b) (peers_json w)); [done|]. rewrite existsb_app, Ha. cbn.
    unfold has_id. cbn. rewrite bool_decide_false; [done|congruence].
Qed.
End AuthProofs.

(** ** A concrete host: a document that is a set of revoked nodes *)
#[export] Instance demo_netdoc : NetDoc (gset string).
Proof.
  refine {| is_revoked d id := Some (bool_decide (id ∈ d)); clear_revocation d id := Some (d ∖ {[id]});
            admit_peer d _ := Some d; get_peer _ _ := Some None |}.
  - intros d id d' [= <-]. by rewrite bool_decide_false by set_solver.
  - by intros d p d' id [= <-].
Defined.
Definition demo_ctx : AuthCtx := {| wall := 1000; instant := 0; fmt_short := stake 5 |}.
Definition demo_world : World (D := gset string) :=
  {| peers_json := []; config := set_pending [demo_invite (Some 2)] demo_dir; limiter := ∅;
     netdoc := Some {["mallory"%string]}; sent := []; audit := [] |}.
Definition demo_auth : ClientMessage := AuthResponse (str_bytes (hex_encode demo_secret)).

Lemma authenticate_justified_witness :
  match authenticate_client demo_ctx "mallory" 4 RequestShell demo_world with
  | (w', (o, back)) => o = Rejected /\ same_stores demo_world w'
  end.
Proof.
  pose proof (authenticate_justified demo_ctx "mallory" 4 RequestShell demo_world) as H.
  assert (fst (snd (authenticate_client demo_ctx "mallory" 4 RequestShell demo_world)) = Rejected) as Eo
    by (vm_compute; reflexivity).
  destruct (authenticate_client demo_ctx "mallory" 4 RequestShell demo_world) as [w' [o back]].
  cbn in Eo. subst o. split; [reflexivity|exact (proj2 H)].
Defined.

Lemma invite_then_session_witness :
  exists w', fst (authenticate_client demo_ctx "mallory" 4 demo_auth demo_world) = w' /\
    snd (authenticate_client demo_ctx "mallory" 4 RequestShell w') =
      (Authorized (Some "alice"%string) RolePeer unrestricted, Some RequestShell).
Proof.
  pose proof (invite_then_session demo_ctx demo_ctx "mallory" 4 4 (str_bytes (hex_encode demo_secret)) RequestShell
    demo_world (Some "alice"%string) RolePeer unrestricted (fun d id => mk_is_Some _ (d ∖ {[id]}) eq_refl) eq_refl) as H.
  fold demo_auth in H.
  assert (fst (snd (authenticate_client demo_ctx "mallory" 4 demo_auth demo_world)) =
    InviteAccepted (Some "alice"%string) RolePeer unrestricted) as Eo by (vm_compute; reflexivity).
  destruct (authenticate_client demo_ctx "mallory" 4 demo_auth demo_world) as [w' [o back]].
  cbn [fst snd] in Eo. exists w'. split; [reflexivity|].
  destruct (H Eo) as (u & r & sb & E & Hid). destruct (Hid eq_refl) as (-> & -> & ->). exact E.
Defined.

Lemma concurrent_invites_lose_peer_witness :
  exists w1 w2, fst (authenticate_with demo_ctx (peers_json demo_world) "a" 4 demo_auth demo_world) = w1 /\
    fst (authenticate_with demo_ctx (peers_json demo_world) "b" 4 demo_auth w1) = w2 /\
    is_authorized (peers_json w1) "a" = true /\ is_authorized (peers_json w2) "a" = false.
Proof.
  pose proof (concurrent_invites_lose_peer demo_ctx demo_ctx "a" "b" 4 (str_bytes (hex_encode demo_secret))
    (str_bytes (hex_encode demo_secret)) demo_world (Some "alice"%string) RolePeer unrestricted
    (Some "alice"%string) RolePeer unrestricted) as H. fold demo_auth in H.
  assert (fst (snd (authenticate_with demo_ctx (peers_json demo_world) "a" 4 demo_auth demo_world)) =
    InviteAccepted (Some "alice"%string) RolePeer unrestricted) as Ea by (vm_compute; reflexivity).
  assert (fst (snd (authenticate_with demo_ctx (peers_json demo_world) "b" 4 demo_auth
    (fst (authenticate_with demo_ctx (peers_json demo_world) "a" 4 demo_auth demo_world)))) =
    InviteAccepted (Some "alice"%string) RolePeer unrestricted) as Eb by (vm_compute; reflexivity).
  destruct (authenticate_with demo_ctx (peers_json demo_world) "a" 4 demo_auth demo_world) as [w1 [oa ba]].
  cbn [fst snd] in Ea, Eb. exists w1.
  destruct (authenticate_with demo_ctx (peers_json demo_world) "b" 4 demo_auth w1) as [w2 [ob bb]].
  cbn [fst snd] in Eb. exists w2. split; [reflexivity|]. split; [reflexivity|].
  apply H; [discriminate|reflexivity|exact Ea|exact Eb].
Defined.
