(* ===== verification/Registry.v ===== *)
(** * Registry: persistent PTY sessions (hop-core/src/shell/session_registry.rs)

    The registry of sessions that outlive their clients, and the actor that owns
    it.  A session's watch channels, viewer list and screen are shared with the
    PTY tasks: their current contents are fields, and what other tasks do to them
    between two commands is an event of its own.  What a removed session sends to
    the operating system (waking the reader, signalling the shell's process group,
    asking the privilege-separation monitor for its copy of the master) is an
    explicit list of effects.  An [Instant] is its nanoseconds, a channel, task or
    descriptor handle an integer. *)
From S2P Require Import Prelude Text.
From Stdlib Require Import Ascii.
Local Open Scope Z_scope.

(** ** tokio and std cells *)

(** [watch::Sender::send]: without a receiver the value is not replaced. *)
Record watch (A : Type) := { w_val : A; w_open : bool }.
Arguments w_val {A}. Arguments w_open {A}. Arguments Build_watch {A}.
Definition watch_send {A} (v : A) (w : watch A) : watch A :=
  if w_open w then {| w_val := v; w_open := true |} else w.

(** [Mutex::lock]: an error once a holder panicked. *)
Record mutex (A : Type) := { poisoned : bool; contents : A }.
Arguments poisoned {A}. Arguments contents {A}. Arguments Build_mutex {A}.
Definition lock {A} (m : mutex A) : option A := if poisoned m then None else Some (contents m).
Definition unlock {A} (m : mutex A) (v : A) : mutex A := {| poisoned := poisoned m; contents := v |}.

(** [as i32] and its wrapping negation. *)
Definition wrap_i32 (x : Z) : Z := let y := u32 x in if y <? 2 ^ 31 then y else y - 2 ^ 32.

(** [Iterator::min_by_key]: the first of several minima. *)
Definition min_by_key {A} (key : A -> Z) (l : list A) : option A :=
  match l with
  | [] => None
  | x :: l' => Some (fold_left (fun m y => if key y <? key m then y else m) l' x)
  end.

(** [slice::sort_by_key(|s| Reverse(key))]: stable, largest key first. *)
Fixpoint insert_desc {A} (key : A -> Z) (x : A) (l : list A) : list A :=
  match l with
  | [] => [x]
  | y :: l' => if key y <=? key x then x :: l else y :: insert_desc key x l'
  end.
Definition sort_desc {A} (key : A -> Z) (l : list A) : list A := foldr (insert_desc key) [] l.

(** ** Data *)
Record PtySize := { pty_rows : Z; pty_cols : Z; pixel_width : Z; pixel_height : Z }.

(** What the registry reads of a screen: the title and bell count behind the
    event listener's lock, and the grid's dimensions. *)
Record VtScreen := { events : mutex (option string * Z); dims : Z * Z }.
Definition title (v : VtScreen) : option string :=
  match lock (events v) with Some e => e.1 | None => None end.
Definition bells (v : VtScreen) : Z := match lock (events v) with Some e => e.2 | None => 0 end.
Definition take_bells (v : VtScreen) : VtScreen :=
  match lock (events v) with
  | Some e => {| events := unlock (events v) (e.1, 0); dims := dims v |}
  | None => v
  end.

Record DetachedSession := {
  session_id : string;
  peer_id : string;
  username : option string;
  child_pid : option Z;
  reader_cancel : Z;
  input_tx : Z;
  output_route : watch (option Z);
  resize_tx : watch PtySize;
  exit_rx : option Z;
  detached_at : option Z;
  attached : bool;
  started_unix_ms : Z;
  pty_master : option Z;
  attach_epoch : Z;
  broker_handle : option Z;
  viewers : mutex (list Z);
  screen : mutex VtScreen;
}.

Definition with_attachment (epoch : Z) (att : bool) (det : option Z) (route : watch (option Z))
    (scr : mutex VtScreen) (s : DetachedSession) : DetachedSession :=
  {| session_id := session_id s; peer_id := peer_id s; username := username s; child_pid := child_pid s;
     reader_cancel := reader_cancel s; input_tx := input_tx s; output_route := route;
     resize_tx := resize_tx s; exit_rx := exit_rx s; detached_at := det; attached := att;
     started_unix_ms := started_unix_ms s; pty_master := pty_master s; attach_epoch := epoch;
     broker_handle := broker_handle s; viewers := viewers s; screen := scr |}.
Definition with_cells (sz : watch PtySize) (ex : option Z) (br : option Z) (vs : mutex (list Z))
    (scr : mutex VtScreen) (s : DetachedSession) : DetachedSession :=
  {| session_id := session_id s; peer_id := peer_id s; username := username s; child_pid := child_pid s;
     reader_cancel := reader_cancel s; input_tx := input_tx s; output_route := output_route s;
     resize_tx := sz; exit_rx := ex; detached_at := detached_at s; attached := attached s;
     started_unix_ms := started_unix_ms s; pty_master := pty_master s; attach_epoch := attach_epoch s;
     broker_handle := br; viewers := vs; screen := scr |}.

(** ** The operating system and the logger *)
Class Host := {
  is_privsep_worker : bool;
  pty_slave_name : Z -> option string;
  foreground_pid : Z -> option Z;
  log_debug : bool;
  log_info : bool;
}.

(** What reaches the system when a session is torn down. *)
Inductive Effect :=
| NotifyReader (cancel : Z)
| ReleaseSession (tty : string)
| Kill (pid sig : Z).
Definition SIGHUP : Z := 1.
Definition SIGKILL : Z := 9.

(** A [HashMap] iterates in an unspecified order over all its entries. *)
Class HashIter := {
  hash_iter : gmap string DetachedSession -> list (string * DetachedSession);
  hash_iter_perm : forall m, hash_iter m ≡ₚ map_to_list m;
}.

(** ** One session *)
Definition resize (size : PtySize) (s : DetachedSession) : DetachedSession :=
  with_cells (watch_send size (resize_tx s)) (exit_rx s) (broker_handle s) (viewers s) (screen s) s.

Definition has_exited (s : DetachedSession) : bool :=
  match exit_rx s with Some _ => true | None => false end.

Definition terminate `{!Host} (s : DetachedSession) : list Effect :=
  [NotifyReader (reader_cancel s)] ++
  match child_pid s, is_privsep_worker, pty_master s ≫= pty_slave_name with
  | None, true, Some tty => [ReleaseSession tty]
  | _, _, _ => []
  end ++
  if has_exited s then [] else
  match child_pid s with
  | Some pid => let gpid := wrap_i32 (- wrap_i32 pid) in [Kill gpid SIGHUP; Kill gpid SIGKILL]
  | None => []
  end.

Definition attach (client_tx : Z) (s : DetachedSession) : DetachedSession * Z :=
  let epoch := u64 (attach_epoch s + 1) in
  let scr := match lock (screen s) with
             | Some v => unlock (screen s) (take_bells v)
             | None => screen s
             end in
  (with_attachment epoch true None (watch_send (Some client_tx) (output_route s)) scr s, epoch).

Definition session_detach_if_current (now epoch : Z) (s : DetachedSession) : DetachedSession * bool :=
  if attach_epoch s =? epoch then
    (with_attachment (attach_epoch s) false (Some now) (watch_send None (output_route s)) (screen s) s, true)
  else (s, false).

(** ** The registry *)
Record SessionRegistry := {
  sessions : gmap string DetachedSession;
  timeout : Z;
  max_sessions : Z;
}.
Definition registry_new (t m : Z) : SessionRegistry :=
  {| sessions := ∅; timeout := t; max_sessions := m |}.
Definition with_sessions (r : SessionRegistry) (m : gmap string DetachedSession) : SessionRegistry :=
  {| sessions := m; timeout := timeout r; max_sessions := max_sessions r |}.

Definition lookup_session (id : string) (r : SessionRegistry) : option DetachedSession := sessions r !! id.
Definition registry_len (r : SessionRegistry) : Z := Z.of_nat (size (sessions r)).

Inductive ViewError :=
| EmptyId
| NoMatch (prefix : string)
| Ambiguous (prefix : string) (n : Z)
| Vanished
| NotYours
| SessionExited
| Unavailable.

Definition resolve_prefix `{!HashIter} (prefix : string) (r : SessionRegistry) : rust ViewError string :=
  if decide (prefix = EmptyString) then Err EmptyId else
  let hits := base.filter (fun k => starts_with prefix k = true) (hash_iter (sessions r)).*1 in
  match hits with
  | [] => Err (NoMatch prefix)
  | [one] => Ok one
  | _ => Err (Ambiguous prefix (Z.of_nat (length hits)))
  end.

Record ViewResult := { view_session_id : string; view_exit : option Z }.

(** [closed] says which channels lost their receiver. *)
Definition attach_view `{!HashIter} (closed : Z -> bool) (prefix peer : string) (is_admin : bool) (tx : Z)
    (r : SessionRegistry) : rust ViewError (SessionRegistry * ViewResult) :=
  id ← resolve_prefix prefix r;
  match sessions r !! id with
  | None => Err Vanished
  | Some s =>
      if negb (bool_decide (peer_id s = peer)) && negb is_admin then Err NotYours else
      if has_exited s then Err SessionExited else
      let vs := match lock (viewers s) with
                | Some v => unlock (viewers s) (base.filter (fun t => closed t = false) v ++ [tx])
                | None => viewers s
                end in
      let s' := with_cells (resize_tx s) (exit_rx s) (broker_handle s) vs (screen s) s in
      Ok (with_sessions r (<[id := s']> (sessions r)),
          {| view_session_id := id; view_exit := exit_rx s |})
  end.

Record CheckpointInput := {
  ck_session_id : string;
  ck_peer_id : string;
  ck_username : option string;
  ck_child_pid : option Z;
  ck_fg_pid : option Z;
  ck_title : option string;
  ck_tty : option string;
}.
Definition checkpoint_input `{!Host} (s : DetachedSession) : CheckpointInput :=
  {| ck_session_id := session_id s; ck_peer_id := peer_id s; ck_username := username s;
     ck_child_pid := child_pid s; ck_fg_pid := pty_master s ≫= foreground_pid;
     ck_title := lock (screen s) ≫= title; ck_tty := pty_master s ≫= pty_slave_name |}.
Definition checkpoint_inputs `{!Host, !HashIter} (r : SessionRegistry) : list CheckpointInput :=
  map checkpoint_input (base.filter (fun s => exit_rx s = None) (hash_iter (sessions r)).*2).
Definition export_masters `{!HashIter} (r : SessionRegistry) : list Z :=
  omap pty_master (base.filter (fun s => exit_rx s = None) (hash_iter (sessions r)).*2).

Record SessionSummary := {
  sum_session_id : string;
  sum_peer_id : string;
  sum_username : option string;
  sum_attached : bool;
  started_ms : Z;
  idle_secs : Z;
  exited : option Z;
  sum_title : option string;
  sum_bells : Z;
  sum_rows : Z;
  sum_cols : Z;
  sum_viewers : Z;
}.
Definition summary (closed : Z -> bool) (now : Z) (s : DetachedSession) : SessionSummary :=
  let '(t, b, r, c) := match lock (screen s) with
                       | Some scr => (title scr, bells scr, (dims scr).1, (dims scr).2)
                       | None => (None, 0, 0, 0)
                       end in
  {| sum_session_id := session_id s; sum_peer_id := peer_id s; sum_username := username s;
     sum_attached := attached s; started_ms := started_unix_ms s;
     idle_secs := match detached_at s with Some t0 => sat_sub now t0 / 10 ^ 9 | None => 0 end;
     exited := exit_rx s; sum_title := t; sum_bells := b; sum_rows := r; sum_cols := c;
     sum_viewers := match lock (viewers s) with
                    | Some v => u32 (Z.of_nat (length (base.filter (fun t => closed t = false) v)))
                    | None => 0
                    end |}.
Definition summaries `{!HashIter} (closed : Z -> bool) (now : Z) (r : SessionRegistry) : list SessionSummary :=
  sort_desc started_ms (map (summary closed now) (hash_iter (sessions r)).*2).

Definition evictable (s : DetachedSession) : bool :=
  negb (attached s) && match detached_at s with Some _ => true | None => false end.
Definition evict_oldest_detached `{!Host, !HashIter} (r : SessionRegistry)
    : rust unit (SessionRegistry * list Effect) :=
  let oldest := fst <$> min_by_key (fun kv => default 0 (detached_at kv.2))
                  (base.filter (fun kv => evictable kv.2 = true) (hash_iter (sessions r))) in
  match oldest with
  | None => Ok (r, [])
  | Some id =>
      _ ← (if log_info then str_slice_to id (8 `min` String.length id) else Ok EmptyString);
      match sessions r !! id with
      | Some s => Ok (with_sessions r (delete id (sessions r)), terminate s)
      | None => Ok (r, [])
      end
  end.

Definition insert_session `{!Host, !HashIter} (s : DetachedSession) (r : SessionRegistry)
    : rust unit (SessionRegistry * list Effect) :=
  '(r', eff) ← (if (0 <? max_sessions r) && (max_sessions r <=? registry_len r)
                then evict_oldest_detached r else Ok (r, []));
  Ok (with_sessions r' (<[session_id s := s]> (sessions r')), eff).

Definition registry_detach_if_current (now : Z) (id : string) (epoch : Z) (r : SessionRegistry)
    : SessionRegistry * bool :=
  match sessions r !! id with
  | Some s => let '(s', b) := session_detach_if_current now epoch s in
              (with_sessions r (<[id := s']> (sessions r)), b)
  | None => (r, false)
  end.

Definition remove_session `{!Host} (id : string) (r : SessionRegistry)
    : SessionRegistry * option DetachedSession * list Effect :=
  match sessions r !! id with
  | Some s => (with_sessions r (delete id (sessions r)), Some s, terminate s)
  | None => (r, None, [])
  end.

(** The reaping log line: evaluated when debug logging is on. *)
Definition log_reap `{!Host} (s : DetachedSession) : rust unit unit :=
  if log_debug then
    _ ← str_slice_to (session_id s) 8;
    _ ← str_slice_to (peer_id s) (10 `min` String.length (peer_id s));
    Ok tt
  else Ok tt.
(** The [retain] closure: whether the session stays, and what its removal sends. *)
Definition reap_one `{!Host} (now t : Z) (s : DetachedSession) : rust unit (bool * list Effect) :=
  if has_exited s && negb (attached s) then _ ← log_reap s; Ok (false, terminate s) else
  match detached_at s with
  | Some d => if negb (attached s) && (t <? sat_sub now d)
              then _ ← log_reap s; Ok (false, terminate s) else Ok (true, [])
  | None => Ok (true, [])
  end.
Fixpoint retain_loop `{!Host} (now t : Z) (l : list (string * DetachedSession))
    (m : gmap string DetachedSession) : rust unit (gmap string DetachedSession * list Effect) :=
  match l with
  | [] => Ok (m, [])
  | (id, s) :: l' =>
      '(keep, eff) ← reap_one now t s;
      '(m', eff') ← retain_loop now t l' (if (keep : bool) then m else delete id m);
      Ok (m', eff ++ eff')
  end.
Definition reap_expired `{!Host, !HashIter} (now : Z) (r : SessionRegistry)
    : rust unit (SessionRegistry * list Effect) :=
  '(m, eff) ← retain_loop now (timeout r) (hash_iter (sessions r)) (sessions r);
  Ok (with_sessions r m, eff).

(** ** The actor *)
Record AttachResult := {
  att_session_id : string;
  att_input_tx : Z;
  att_epoch : Z;
}.
Record CleanupResult := { cl_session_id : string; cl_broker_handle : option Z }.

Inductive RegistryCommand :=
| Attach (sid pid : string) (client_tx : Z) (size : PtySize)
| Insert (s : DetachedSession)
| Checkpoint
| ExportMasters
| SetBrokerHandle (sid : string) (handle : Z)
| CleanupExited (sid : string) (epoch : Z)
| DetachIfCurrent (sid : string) (epoch : Z)
| ReapExpired
| ListSessions
| AttachView (sid pid : string) (is_admin : bool) (tx : Z).

Inductive Reply :=
| RNone
| RAttach (a : option AttachResult)
| RCheckpoint (l : list CheckpointInput)
| RMasters (l : list Z)
| RCleanup (c : option CleanupResult)
| RDetached (b : bool)
| RList (l : list SessionSummary)
| RView (v : rust ViewError ViewResult).

Section Actor.
Context `{!Host, !HashIter}.
Implicit Types r : SessionRegistry.

Definition do_attach (sid pid : string) (client_tx : Z) (size : PtySize) r
    : SessionRegistry * option AttachResult :=
  let id := match resolve_prefix sid r with Ok i => i | _ => sid end in
  match sessions r !! id with
  | Some s =>
      if has_exited s || negb (bool_decide (peer_id s = pid)) then (r, None) else
      let '(s', epoch) := attach client_tx (resize size s) in
      (with_sessions r (<[id := s']> (sessions r)),
       Some {| att_session_id := session_id s; att_input_tx := input_tx s; att_epoch := epoch |})
  | None => (r, None)
  end.

Definition set_broker_handle (sid : string) (h : Z) r : SessionRegistry :=
  match sessions r !! sid with
  | Some s => with_sessions r (<[sid := with_cells (resize_tx s) (exit_rx s) (Some h) (viewers s) (screen s) s]>
                                 (sessions r))
  | None => r
  end.

Definition cleanup_exited (sid : string) (epoch : Z) r
    : SessionRegistry * option CleanupResult * list Effect :=
  if match sessions r !! sid with Some s => attach_epoch s =? epoch | None => false end then
    let '(r', s, eff) := remove_session sid r in
    (r', (fun s => {| cl_session_id := session_id s; cl_broker_handle := broker_handle s |}) <$> s, eff)
  else (r, None, []).

(** One iteration of the actor's loop.  A panic ends the task. *)
Definition handle_command (now : Z) (closed : Z -> bool) (c : RegistryCommand) r
    : rust unit (SessionRegistry * Reply * list Effect) :=
  match c with
  | Attach sid pid tx sz => let '(r', a) := do_attach sid pid tx sz r in Ok (r', RAttach a, [])
  | Insert s => '(r', eff) ← insert_session s r; Ok (r', RNone, eff)
  | SetBrokerHandle sid h => Ok (set_broker_handle sid h r, RNone, [])
  | CleanupExited sid e => let '(r', c, eff) := cleanup_exited sid e r in Ok (r', RCleanup c, eff)
  | DetachIfCurrent sid e => let '(r', b) := registry_detach_if_current now sid e r in Ok (r', RDetached b, [])
  | Checkpoint => Ok (r, RCheckpoint (checkpoint_inputs r), [])
  | ExportMasters => Ok (r, RMasters (export_masters r), [])
  | ListSessions => Ok (r, RList (summaries closed now r), [])
  | AttachView sid pid adm tx =>
      match attach_view closed sid pid adm tx r with
      | Ok (r', v) => Ok (r', RView (Ok v), [])
      | Err e => Ok (r, RView (Err e), [])
      | Panic => Panic
      end
  | ReapExpired => '(r', eff) ← reap_expired now r; Ok (r', RNone, eff)
  end.
End Actor.

(** Sixteen random bytes in hex. *)
Definition generate_session_id (random : bytes) : string := hex_encode random.

(** ** Runs

    Between two commands the tasks that share a session's cells may change them:
    the child exits, a client holding [resize_tx] publishes a size, the reader
    feeds the screen, a viewer leaves.  Each command may see the map in another
    order. *)
Inductive Event :=
| Cmd (now : Z) (closed : Z -> bool) (c : RegistryCommand)
| Cells (sid : string) (sz : watch PtySize) (ex : option Z) (vs : mutex (list Z)) (scr : mutex VtScreen).

Definition share_cells (sid : string) (sz : watch PtySize) (ex : option Z) (vs : mutex (list Z))
    (scr : mutex VtScreen) (r : SessionRegistry) : SessionRegistry :=
  match sessions r !! sid with
  | Some s => with_sessions r (<[sid := with_cells sz ex (broker_handle s) vs scr s]> (sessions r))
  | None => r
  end.

Inductive run `{!Host} : SessionRegistry -> list Event -> list Effect -> SessionRegistry -> Prop :=
| run_nil r : run r [] [] r
| run_cmd (H : HashIter) r now closed c r1 rep eff evs effs r2 :
    handle_command now closed c r = Ok (r1, rep, eff) ->
    run r1 evs effs r2 -> run r (Cmd now closed c :: evs) (eff ++ effs) r2
| run_cells r sid sz ex vs scr evs effs r2 :
    run (share_cells sid sz ex vs scr r) evs effs r2 ->
    run r (Cells sid sz ex vs scr :: evs) effs r2.

(** ** Lemmas on the standard library's iterators *)
Section Iterators.
Context {A : Type}.
Implicit Types (key : A -> Z) (l : list A) (x : A).

Lemma min_by_key_Some key l x : min_by_key key l = Some x -> x ∈ l /\ forall y, y ∈ l -> key x <= key y.
Proof.
  destruct l as [|a l]; [done|]. cbn. intros [= <-]. revert a. induction l as [|b l IH]; intros a; cbn.
  - split; [set_solver|]. intros y ->%list_elem_of_singleton. lia.
  - destruct (Z.ltb_spec (key b) (key a)); [destruct (IH b) as [Hin Hle]|destruct (IH a) as [Hin Hle]];
      (split; [set_solver|]); intros y [->|[->|Hy]%elem_of_cons]%elem_of_cons.
    all: try (apply Hle; set_solver).
    + specialize (Hle b). lapply Hle; [lia|set_solver].
    + specialize (Hle a). lapply Hle; [lia|set_solver].
Qed.
Lemma min_by_key_None key l : min_by_key key l = None <-> l = [].
Proof. by destruct l. Qed.

Lemma insert_desc_perm key x l : insert_desc key x l ≡ₚ x :: l.
Proof.
  induction l as [|y l IH]; cbn; [done|]. case_match; [done|]. rewrite IH. apply perm_swap.
Qed.
Lemma sort_desc_perm key l : sort_desc key l ≡ₚ l.
Proof. induction l as [|x l IH]; cbn; [done|]. by rewrite insert_desc_perm, IH. Qed.
Lemma insert_desc_sorted key x l :
  StronglySorted (fun a b => key b <= key a) l -> StronglySorted (fun a b => key b <= key a) (insert_desc key x l).
Proof.
  induction 1 as [|y l Hs IH Hy]; cbn; [repeat constructor|].
  destruct (Z.leb_spec (key y) (key x)).
  - repeat constructor; [done..|]. eapply Forall_impl; [exact Hy|]. cbn. lia.
  - constructor; [done|]. rewrite insert_desc_perm. constructor; [lia|done].
Qed.
Lemma sort_desc_sorted key l : StronglySorted (fun a b => key b <= key a) (sort_desc key l).
Proof. induction l; cbn; [constructor|]. by apply insert_desc_sorted. Qed.
End Iterators.

Section HashIteration.
Context `{!HashIter}.
Implicit Types m : gmap string DetachedSession.

Lemma elem_of_hash_iter m k s : (k, s) ∈ hash_iter m <-> m !! k = Some s.
Proof. rewrite hash_iter_perm. apply elem_of_map_to_list. Qed.
Lemma NoDup_hash_iter_keys m : NoDup (hash_iter m).*1.
Proof. rewrite hash_iter_perm. apply NoDup_fst_map_to_list. Qed.
Lemma elem_of_hash_keys m k : k ∈ (hash_iter m).*1 <-> is_Some (m !! k).
Proof.
  rewrite list_elem_of_fmap. split.
  - intros ([k' s] & -> & Hx). apply elem_of_hash_iter in Hx. by exists s.
  - intros [s Hs]. exists (k, s). by rewrite elem_of_hash_iter.
Qed.
End HashIteration.

(** ** Prefix resolution *)
Section Resolve.
Context `{!HashIter}.
Implicit Types r : SessionRegistry.

(** Exactly one live id starts with [p]. *)
Definition unique_prefix r (p id : string) : Prop :=
  p <> EmptyString /\ is_Some (sessions r !! id) /\ starts_with p id = true /\
  forall k, is_Some (sessions r !! k) -> starts_with p k = true -> k = id.

Lemma resolve_prefix_Ok r p id : resolve_prefix p r = Ok id <-> unique_prefix r p id.
Proof.
  unfold resolve_prefix, unique_prefix. case_decide; [naive_solver|].
  set (hits := base.filter _ _).
  assert (forall k, k ∈ hits <-> starts_with p k = true /\ is_Some (sessions r !! k)) as Hh
    by (intros k; unfold hits; by rewrite list_elem_of_filter, elem_of_hash_keys).
  assert (NoDup hits) as Hd by apply NoDup_filter, NoDup_hash_iter_keys.
  clearbody hits. destruct hits as [|a [|b l]].
  - split; [done|]. intros (_ & Hs & Hp & _). exfalso. by eapply not_elem_of_nil, Hh.
  - split.
    + intros [= ->]. destruct (proj1 (Hh id)) as [? ?]; [set_solver|]. split_and!; [done..|].
      intros k Hk Hp. by apply list_elem_of_singleton, Hh.
    + intros (_ & Hs & Hp & _). f_equal. symmetry. by apply list_elem_of_singleton, Hh.
  - split; [done|]. intros (_ & _ & _ & Hu).
    assert (a = id) by (apply Hu; apply Hh; set_solver).
    assert (b = id) by (apply Hu; apply Hh; set_solver).
    subst. apply NoDup_cons in Hd. set_solver.
Qed.
Lemma resolve_prefix_no_panic r p : resolve_prefix p r <> Panic.
Proof. unfold resolve_prefix. by case_all. Qed.

(** What the id of an attach request names: itself when it is a live id, and
    otherwise the one live id it is a prefix of. *)
Definition names r (p id : string) : Prop :=
  is_Some (sessions r !! id) /\ (p = id \/ sessions r !! p = None /\ unique_prefix r p id).

Lemma names_resolved r p id s :
  sessions r !! match resolve_prefix p r with Ok i => i | _ => p end = Some s /\
  id = match resolve_prefix p r with Ok i => i | _ => p end <->
  names r p id /\ sessions r !! id = Some s.
Proof.
  destruct (resolve_prefix p r) as [i|e|] eqn:E.
  - apply resolve_prefix_Ok in E. split.
    + intros [Hs ->]. split; [|done]. split; [by exists s|].
      destruct (sessions r !! p) eqn:Hp; [left|by right].
      destruct E as (_ & _ & _ & Hu). apply Hu; [by exists d|apply starts_with_refl].
    + intros [[Hl [->|[Hn Hu]]] Hs].
      * destruct E as (_ & _ & Hp & Hu). rewrite <-(Hu id) by (done || apply starts_with_refl). done.
      * destruct E as (_ & _ & _ & Hu'). destruct Hu as (_ & Hi & Hp & _). by rewrite <-(Hu' id).
  - split.
    + intros [Hs ->]. split; [|done]. split; [by exists s|by left].
    + intros [[Hl [->|[Hn Hu%resolve_prefix_Ok]]] Hs]; [done|congruence].
  - by destruct (resolve_prefix_no_panic r p).
Qed.
End Resolve.

(** ** Reaping *)
Section Reap.
Context `{!Host, !HashIter}.
Implicit Types (r : SessionRegistry) (s : DetachedSession).

(** Detached, and exited or idle past the timeout. *)
Definition expired (now t : Z) s : bool :=
  negb (attached s) &&
  (has_exited s || match detached_at s with Some d => t <? sat_sub now d | None => false end).
(** The log line can be cut where it is cut. *)
Definition loggable s : Prop :=
  is_char_boundary (session_id s) 8 = true /\
  is_char_boundary (peer_id s) (10 `min` String.length (peer_id s)) = true.

(** Hex text can be cut anywhere within its length. *)
Lemma hex_char_boundary l n : is_bytes l -> (n <= 2 * length l)%nat -> is_char_boundary (hex_encode l) n = true.
Proof.
  intros Hl Hn. pose proof (hex_bytes_ascii l Hl) as Ha. unfold is_char_boundary, hex_encode.
  assert (is_bytes (hex_bytes l)) as Hb.
  { eapply Forall_impl; [exact Ha|]. unfold in_range, is_u8. intros b [?%Z.leb_le ?%Z.leb_le]%andb_true_iff. lia. }
  assert (length (hex_bytes l) = 2 * length l)%nat as Hlen.
  { clear. induction l as [|b l IH]; [done|]. unfold hex_bytes in *. cbn in *. lia. }
  destruct n as [|n]; [done|]. rewrite str_bytes_str by done.
  destruct (hex_bytes l !! S n) as [b|] eqn:E.
  - rewrite Forall_lookup in Ha. specialize (Ha _ _ E). unfold in_range, is_cont in *. unfold in_range.
    apply andb_true_iff in Ha as [?%Z.leb_le ?%Z.leb_le]. apply negb_true_iff, andb_false_iff. left. apply Z.leb_gt. lia.
  - apply lookup_ge_None in E. apply Nat.eqb_eq. rewrite <-length_str_bytes, str_bytes_str by done. lia.
Qed.
(** Sessions as the host makes them: a generated id, and a peer named by its hex key. *)
Definition host_made s : Prop :=
  (exists rnd, is_bytes rnd /\ length rnd = 16%nat /\ session_id s = generate_session_id rnd) /\
  (exists key, is_bytes key /\ peer_id s = hex_encode key).
Lemma length_hex_encode l : String.length (hex_encode l) = (2 * length l)%nat.
Proof.
  unfold hex_encode. induction l as [|b l IH]; [done|]. unfold hex_bytes in *. cbn in *. lia.
Qed.
Lemma host_made_loggable s : host_made s -> loggable s.
Proof.
  intros [(rnd & Hr & Hl & Es) (key & Hk & Ep)]. unfold loggable. rewrite Es, Ep. split; apply hex_char_boundary; [done|lia|done|].
  rewrite length_hex_encode. lia.
Qed.

Lemma reap_one_Ok now t s keep eff : reap_one now t s = Ok (keep, eff) ->
  keep = negb (expired now t s) /\ eff = if expired now t s then terminate s else [].
Proof.
  unfold reap_one, expired. destruct (has_exited s), (attached s), (detached_at s) as [d|]; cbn;
    try (intros [= <- <-]; done).
  all: try (destruct (t <? sat_sub now d); cbn; try (intros [= <- <-]; done)).
  all: destruct (log_reap s); cbn; intros [= <- <-]; done.
Qed.
Lemma reap_one_loggable now t s : loggable s ->
  reap_one now t s = Ok (negb (expired now t s), if expired now t s then terminate s else []).
Proof.
  intros [H1 H2].
  assert (log_reap s = Ok tt) as Hl.
  { unfold log_reap, str_slice_to. rewrite H1, H2. by destruct log_debug. }
  unfold reap_one, expired. rewrite Hl.
  destruct (has_exited s), (attached s), (detached_at s) as [d|]; cbn; try done.
  by destruct (t <? sat_sub now d).
Qed.

Definition reaped (now t : Z) (l : list (string * DetachedSession)) : list (string * DetachedSession) :=
  base.filter (fun kv => expired now t kv.2 = true) l.

Lemma retain_loop_Ok now t l m m' eff : retain_loop now t l m = Ok (m', eff) ->
  eff = List.concat (map terminate (reaped now t l).*2) /\
  forall k, m' !! k = if decide (k ∈ (reaped now t l).*1) then None else m !! k.
Proof.
  revert m m' eff. induction l as [|[id s] l IH]; cbn [retain_loop]; intros m m' eff.
  - intros [= <- <-]. split; [done|]. intros k. by rewrite decide_False by (cbn; set_solver).
  - destruct (reap_one now t s) as [[keep e]| |] eqn:E1; cbn [mbind rust_bind]; [|done..].
    destruct (retain_loop now t l _) as [[m1 e1]| |] eqn:E2; cbn [mbind rust_bind]; [|done..].
    intros [= <- <-]. apply reap_one_Ok in E1 as [-> ->]. apply IH in E2 as [-> Hk].
    unfold reaped. rewrite filter_cons. cbn [fst snd].
    destruct (expired now t s) eqn:Ex; cbn [negb] in Hk.
    + rewrite decide_True by done. split; [done|]. intros k. rewrite Hk. cbn.
      destruct (decide (k = id)) as [->|Hne].
      * rewrite lookup_delete_eq. rewrite (decide_True (P := id ∈ id :: _)) by set_solver. by case_decide.
      * rewrite lookup_delete_ne by done. repeat case_decide; set_solver.
    + rewrite decide_False by done. split; [done|]. exact Hk.
Qed.
Lemma retain_loop_returns now t l m : Forall (fun kv => loggable kv.2) l ->
  exists m' eff, retain_loop now t l m = Ok (m', eff).
Proof.
  intros Hl. revert m. induction Hl as [|[id s] l Hs Hl IH]; intros m; cbn [retain_loop]; [by eexists _, _|].
  cbn [snd] in Hs. rewrite reap_one_loggable by done. cbn [mbind rust_bind].
  destruct (IH (if negb (expired now t s) then m else delete id m)) as (m' & eff & ->). by eexists _, _.
Qed.

Lemma reaped_keys now t m k :
  k ∈ (reaped now t (hash_iter m)).*1 <-> exists s, m !! k = Some s /\ expired now t s = true.
Proof.
  unfold reaped. rewrite list_elem_of_fmap. split.
  - intros ([k' s] & -> & [Hx Hi]%list_elem_of_filter). apply elem_of_hash_iter in Hi. by exists s.
  - intros (s & Hm & Hx). exists (k, s). by rewrite list_elem_of_filter, elem_of_hash_iter.
Qed.

(** What a reap leaves and what it sends, when it returns. *)
Lemma reap_expired_Ok now r r' eff : reap_expired now r = Ok (r', eff) ->
  eff = List.concat (map terminate (reaped now (timeout r) (hash_iter (sessions r))).*2) /\
  r' = with_sessions r (base.filter (fun kv => expired now (timeout r) kv.2 = false) (sessions r)).
Proof.
  unfold reap_expired. intros Hr. rust_inv Hr. destruct a as [m e]. injection Hr as <- <-.
  apply retain_loop_Ok in E as [-> Hk]. split; [done|]. f_equal. apply map_eq. intros k.
  rewrite Hk. destruct (sessions r !! k) as [s|] eqn:Es.
  - destruct (expired now (timeout r) s) eqn:Ex.
    + rewrite decide_True by (apply reaped_keys; eauto).
      symmetry. apply map_lookup_filter_None. right. intros s' ?. simplify_eq. cbn. congruence.
    + rewrite decide_False by (rewrite reaped_keys; intros (s' & Hs' & Hx'); congruence).
      symmetry. by apply map_lookup_filter_Some.
  - rewrite decide_False by (rewrite reaped_keys; intros (s' & Hs' & Hx'); congruence).
    symmetry. apply map_lookup_filter_None. by left.
Qed.
End Reap.

(** ** What leaves the registry is torn down *)
Section Departures.
Context `{!Host}.
Implicit Types (r : SessionRegistry) (s : DetachedSession).

(** The sessions of [r] that [r'] no longer has. *)
Definition departed r r' : gmap string DetachedSession :=
  base.filter (fun kv => sessions r' !! kv.1 = None) (sessions r).
(** The effects are exactly the tear-downs of the departed sessions, in some order. *)
Definition accounts r r' (eff : list Effect) : Prop :=
  exists gone, gone ≡ₚ map_to_list (departed r r') /\ eff = List.concat (map terminate gone.*2).

Lemma departed_nil r r' : (forall k, is_Some (sessions r !! k) -> is_Some (sessions r' !! k)) ->
  accounts r r' [].
Proof.
  intros Hd. exists []. split; [|done]. replace (departed r r') with (∅ : gmap string DetachedSession).
  - by rewrite map_to_list_empty.
  - symmetry. apply map_empty. intros k. apply map_lookup_filter_None.
    destruct (sessions r !! k) as [s|] eqn:E; [right|by left]. intros s' _ Hn. cbn in Hn.
    destruct (Hd k); [by exists s|congruence].
Qed.
Lemma departed_one r m id s : sessions r !! id = Some s ->
  (forall k, is_Some (sessions r !! k) -> m !! k = None <-> k = id) ->
  accounts r (with_sessions r m) (terminate s).
Proof.
  intros Hs Hm. exists [(id, s)]. split; [|cbn; by rewrite app_nil_r].
  replace (departed r (with_sessions r m)) with ({[id := s]} : gmap string DetachedSession).
  - by rewrite map_to_list_singleton.
  - apply map_eq. intros k. unfold departed. cbn. destruct (decide (k = id)) as [->|Hne].
    + rewrite lookup_singleton_eq. symmetry. apply map_lookup_filter_Some. split; [done|]. cbn. by apply Hm.
    + rewrite lookup_singleton_ne by done. symmetry. apply map_lookup_filter_None.
      destruct (sessions r !! k) as [s'|] eqn:E; [right|by left]. intros ? ? Hn. cbn in Hn.
      apply Hm in Hn; [done|by exists s'].
Qed.
Lemma departed_update r id f : accounts r
  match sessions r !! id with Some s => with_sessions r (<[id := f s]> (sessions r)) | None => r end [].
Proof.
  apply departed_nil. intros k Hk. destruct (sessions r !! id) eqn:E; [|done]. cbn.
  destruct (decide (k = id)) as [->|]; [by rewrite lookup_insert_eq|by rewrite lookup_insert_ne].
Qed.
End Departures.

(** ** Eviction and insertion *)
Section Evict.
Context `{!Host, !HashIter}.
Implicit Types (r : SessionRegistry) (s : DetachedSession).

Definition all_busy r : Prop := forall k s, sessions r !! k = Some s -> evictable s = false.
(** The detached session that has waited longest. *)
Definition oldest_detached r (id : string) s : Prop :=
  sessions r !! id = Some s /\ evictable s = true /\
  forall k s', sessions r !! k = Some s' -> evictable s' = true ->
    default 0 (detached_at s) <= default 0 (detached_at s').

Lemma evict_cases r r' eff : evict_oldest_detached r = Ok (r', eff) ->
  (all_busy r /\ r' = r /\ eff = []) \/
  (exists id s, oldest_detached r id s /\ r' = with_sessions r (delete id (sessions r)) /\ eff = terminate s).
Proof.
  unfold evict_oldest_detached. set (cand := base.filter _ _).
  assert (forall k s, (k, s) ∈ cand <-> evictable s = true /\ sessions r !! k = Some s) as Hc
    by (intros k s; unfold cand; by rewrite list_elem_of_filter, elem_of_hash_iter).
  destruct (min_by_key _ cand) as [[id s]|] eqn:Em; cbn [fmap option_fmap option_map fst].
  - intros Hr. rust_inv Hr. right. exists id, s. apply min_by_key_Some in Em as [Hin Hle].
    apply Hc in Hin as [Hv Hs]. rewrite Hs in Hr. injection Hr as <- <-. split; [|done].
    split_and!; [done..|]. intros k s' Hk Hv'. apply (Hle (k, s')). by apply Hc.
  - intros [= <- <-]. left. split; [|done]. intros k s Hk. apply min_by_key_None in Em.
    destruct (evictable s) eqn:Ev; [|done]. destruct (not_elem_of_nil (k, s)).
    rewrite <-Em. by apply Hc.
Qed.
Lemma evict_returns r : (forall k, is_Some (sessions r !! k) -> is_char_boundary k (8 `min` String.length k) = true) ->
  exists r' eff, evict_oldest_detached r = Ok (r', eff).
Proof.
  intros Hk. unfold evict_oldest_detached. set (cand := base.filter _ _).
  destruct (min_by_key _ cand) as [[id s]|] eqn:Em; cbn [fmap option_fmap option_map fst]; [|by eexists _, _].
  apply min_by_key_Some in Em as [[_ Hi]%list_elem_of_filter _]. apply elem_of_hash_iter in Hi.
  unfold str_slice_to. rewrite Hk by (by exists s). rewrite Hi.
  destruct log_info; cbn; by eexists _, _.
Qed.
Lemma insert_cases s r r' eff : insert_session s r = Ok (r', eff) ->
  exists r1, r' = with_sessions r1 (<[session_id s := s]> (sessions r1)) /\
    ((r1 = r /\ eff = [] /\ (max_sessions r <= 0 \/ registry_len r < max_sessions r \/ all_busy r)) \/
     (0 < max_sessions r <= registry_len r /\
      exists id old, oldest_detached r id old /\ r1 = with_sessions r (delete id (sessions r)) /\ eff = terminate old)).
Proof.
  unfold insert_session. destruct (_ && _) eqn:Eg; cbn [mbind rust_bind].
  - apply andb_true_iff in Eg as [H1%Z.ltb_lt H2%Z.leb_le].
    destruct (evict_oldest_detached r) as [[r1 e]| |] eqn:E; cbn; [|done..]. intros [= <- <-].
    exists r1. split; [done|]. destruct (evict_cases _ _ _ E) as [(? & -> & ->)|Ho]; [left; auto|right; auto].
  - intros [= <- <-]. exists r. split; [done|]. left. split_and!; [done..|].
    apply andb_false_iff in Eg as [?%Z.ltb_ge|?%Z.leb_gt]; auto.
Qed.
End Evict.

(** ** The actor's commands *)
Section Commands.
Context `{!Host, !HashIter}.
Implicit Types (r : SessionRegistry) (s : DetachedSession).

(** An insertion under an id that is not in use. *)
Definition fresh_insert (c : RegistryCommand) r : Prop :=
  match c with Insert s => sessions r !! session_id s = None | _ => True end.

Lemma do_attach_update sid pid tx sz r r' a : do_attach sid pid tx sz r = (r', a) ->
  exists id, r' = r \/ exists s, sessions r !! id = Some s /\
    r' = with_sessions r (<[id := (attach tx (resize sz s)).1]> (sessions r)).
Proof.
  unfold do_attach. set (id := match resolve_prefix sid r with Ok i => i | _ => sid end).
  exists id. destruct (sessions r !! id) as [s|] eqn:E; [|left; congruence].
  destruct (_ || _); [left; congruence|]. right. exists s. split; [done|]. cbn in *. congruence.
Qed.
Lemma keys_with_insert r id s' : is_Some (sessions r !! id) -> forall k,
  is_Some (sessions r !! k) -> is_Some (sessions (with_sessions r (<[id := s']> (sessions r))) !! k).
Proof. intros Hi k Hk. cbn. destruct (decide (k = id)) as [->|]; by simplify_map_eq. Qed.

Lemma insert_accounts s r r' eff : sessions r !! session_id s = None ->
  insert_session s r = Ok (r', eff) -> accounts r r' eff.
Proof.
  intros Hf (r1 & -> & [(-> & -> & _)|(_ & id & old & (Ho & _) & -> & ->)])%insert_cases.
  - apply departed_nil. intros k Hk. cbn. destruct (decide (k = session_id s)) as [->|];
      [by rewrite lookup_insert_eq|by rewrite lookup_insert_ne].
  - cbn. refine (departed_one r (<[session_id s := s]> (delete id (sessions r))) id old Ho _).
    intros k [sk Hk]. rewrite lookup_insert_ne by congruence. rewrite lookup_delete_None. naive_solver.
Qed.
Lemma reap_accounts now r r' eff : reap_expired now r = Ok (r', eff) -> accounts r r' eff.
Proof.
  intros [-> ->]%reap_expired_Ok. exists (reaped now (timeout r) (hash_iter (sessions r))). split; [|done].
  apply NoDup_Permutation.
  - apply NoDup_filter. apply (NoDup_fmap_1 fst), NoDup_hash_iter_keys.
  - apply NoDup_map_to_list.
  - intros [k s]. unfold reaped, departed. cbn.
    rewrite list_elem_of_filter, elem_of_hash_iter, elem_of_map_to_list, map_lookup_filter_Some. cbn.
    rewrite map_lookup_filter_None. cbn. split.
    + intros [Hx Hs]. split; [done|]. right. intros ? ?. congruence.
    + intros [Hs [Hn|Hn]]; [congruence|]. split; [|done]. specialize (Hn s Hs).
      by destruct (expired now (timeout r) s).
Qed.

Lemma cleanup_accounts sid e r r' c eff : cleanup_exited sid e r = (r', c, eff) -> accounts r r' eff.
Proof.
  unfold cleanup_exited, remove_session. destruct (sessions r !! sid) as [s|] eqn:E;
    [destruct (_ =? _)|]; intros [= <- _ <-]; try by apply departed_nil.
  apply (departed_one r _ sid); [done|]. intros k [sk Hk]. rewrite lookup_delete_None. naive_solver.
Qed.
Lemma detach_accounts now sid e r r' b : registry_detach_if_current now sid e r = (r', b) -> accounts r r' [].
Proof.
  unfold registry_detach_if_current. intros E. apply departed_nil. intros k Hk.
  destruct (sessions r !! sid) as [s|] eqn:Es; [|congruence].
  destruct (session_detach_if_current now e s) as [s' b']. injection E as <- _.
  apply keys_with_insert; [by exists s|done].
Qed.
Lemma view_accounts closed sid pid adm tx r r' v : attach_view closed sid pid adm tx r = Ok (r', v) -> accounts r r' [].
Proof.
  unfold attach_view. intros E. rust_inv E. apply departed_nil. intros k Hk.
  destruct (sessions r !! a) as [s|] eqn:Es; [|done]. destruct (_ && _); [done|].
  destruct (has_exited s); [done|]. injection E as <- _. apply keys_with_insert; [by exists s|done].
Qed.

Lemma command_accounts now closed c r r' rep eff : fresh_insert c r ->
  handle_command now closed c r = Ok (r', rep, eff) -> accounts r r' eff.
Proof.
  intros Hf. destruct c; cbn [handle_command]; intros Hh.
  - destruct (do_attach sid pid client_tx size r) as [r1 a] eqn:E. injection Hh as <- _ <-.
    destruct (do_attach_update _ _ _ _ _ _ _ E) as (id & [->|(s & Hs & ->)]); apply departed_nil; [done|].
    apply keys_with_insert. by exists s.
  - rust_inv Hh. destruct a as [r1 e]. injection Hh as <- _ <-. by eapply insert_accounts.
  - injection Hh as <- _ <-. by apply departed_nil.
  - injection Hh as <- _ <-. by apply departed_nil.
  - injection Hh as <- _ <-. apply (departed_update r sid (fun s => with_cells _ _ _ _ _ s)).
  - destruct (cleanup_exited sid epoch r) as [[r1 c] e] eqn:E. injection Hh as <- _ <-. by eapply cleanup_accounts.
  - destruct (registry_detach_if_current now sid epoch r) as [r1 b] eqn:E. injection Hh as <- _ <-.
    by eapply detach_accounts.
  - rust_inv Hh. destruct a as [r1 e]. injection Hh as <- _ <-. by eapply reap_accounts.
  - injection Hh as <- _ <-. by apply departed_nil.
  - destruct (attach_view closed sid pid is_admin tx r) as [[r1 v]| |] eqn:E; [| |done];
      injection Hh as <- _ <-; [by eapply view_accounts|by apply departed_nil].
Qed.
End Commands.

(** ** How a session changes *)
Section Evolution.
Context `{!Host}.
Implicit Types (r : SessionRegistry) (s : DetachedSession).

(** Identity, owner and system handles stay; the epoch stays or moves on by one. *)
Definition evolves s s' : Prop :=
  session_id s' = session_id s /\ peer_id s' = peer_id s /\ reader_cancel s' = reader_cancel s /\
  child_pid s' = child_pid s /\ pty_master s' = pty_master s /\
  (attach_epoch s' = attach_epoch s \/ attach_epoch s' = u64 (attach_epoch s + 1)).
Lemma evolves_refl s : evolves s s.
Proof. repeat split; auto. Qed.

(** A command leaves it to the PTY tasks to report an exit. *)
Definition stays s s' : Prop := evolves s s' /\ exit_rx s' = exit_rx s.
Lemma stays_refl s : stays s s.
Proof. split; [apply evolves_refl|done]. Qed.
Lemma stays_evolves s s' : stays s s' -> evolves s s'.
Proof. by intros []. Qed.

(** Where the sessions of [r'] come from. *)
Definition successor_by (R : DetachedSession -> DetachedSession -> Prop) r r' (new : list DetachedSession) : Prop :=
  forall k s', sessions r' !! k = Some s' ->
    (exists s, sessions r !! k = Some s /\ R s s') \/ (s' ∈ new /\ k = session_id s').
Definition successor := successor_by evolves.

Lemma successor_mono (R R' : DetachedSession -> DetachedSession -> Prop) r r' new : (forall s s', R s s' -> R' s s') ->
  successor_by R r r' new -> successor_by R' r r' new.
Proof. intros HR Hs k s' Hk. destruct (Hs k s' Hk) as [(s & ? & ?)|?]; [left; eauto|by right]. Qed.
Lemma successor_refl r new : successor_by stays r r new.
Proof. intros k s Hs. left. exists s. split; [done|apply stays_refl]. Qed.
Lemma successor_insert (R : DetachedSession -> DetachedSession -> Prop) r id s s' new : (forall s, R s s) ->
  sessions r !! id = Some s -> R s s' -> successor_by R r (with_sessions r (<[id := s']> (sessions r))) new.
Proof.
  intros HR Hs He k s1. cbn. rewrite lookup_insert_Some.
  intros [[<- <-]|[_ Hk]]; [left; by exists s|left; exists s1; by split].
Qed.
Lemma successor_sub r m new : m ⊆ sessions r -> successor_by stays r (with_sessions r m) new.
Proof. intros Hm k s Hs. left. exists s. split; [by eapply lookup_weaken|apply stays_refl]. Qed.

Lemma stays_attach tx sz s : stays s (attach tx (resize sz s)).1.
Proof. repeat split; auto. Qed.
Lemma stays_detach now e s : stays s (session_detach_if_current now e s).1.
Proof. unfold session_detach_if_current. case_match; [repeat split; auto|apply stays_refl]. Qed.
Lemma evolves_cells sz ex br vs scr s : evolves s (with_cells sz ex br vs scr s).
Proof. repeat split; auto. Qed.
Lemma stays_cells sz br vs scr s : stays s (with_cells sz (exit_rx s) br vs scr s).
Proof. split; [apply evolves_cells|done]. Qed.

Definition new_of (c : RegistryCommand) : list DetachedSession :=
  match c with Insert s => [s] | _ => [] end.

Lemma insert_successor `{!HashIter} s r r' eff : insert_session s r = Ok (r', eff) -> successor_by stays r r' [s].
Proof.
  intros (r1 & -> & Hc)%insert_cases k s1. cbn. rewrite lookup_insert_Some.
  intros [[<- <-]|[_ Hk]]; [right; set_solver|].
  destruct Hc as [(-> & _)|(_ & id & old & _ & -> & _)]; [by apply successor_refl|].
  eapply (successor_sub r); [apply delete_subseteq|exact Hk].
Qed.

Lemma command_successor_by `{!HashIter} now closed c r r' rep eff :
  handle_command now closed c r = Ok (r', rep, eff) -> successor_by stays r r' (new_of c).
Proof.
  destruct c; cbn [handle_command new_of]; intros Hh.
  - destruct (do_attach sid pid client_tx size r) as [r1 a] eqn:E. injection Hh as <- _ _.
    destruct (do_attach_update _ _ _ _ _ _ _ E) as (id & [->|(s & Hs & ->)]); [apply successor_refl|].
    eapply successor_insert; [apply stays_refl|done|apply stays_attach].
  - rust_inv Hh. destruct a as [r1 e]. injection Hh as <- _ _. by eapply insert_successor.
  - injection Hh as <- _ _. apply successor_refl.
  - injection Hh as <- _ _. apply successor_refl.
  - injection Hh as <- _ _. unfold set_broker_handle. destruct (sessions r !! sid) as [s|] eqn:E;
      [|apply successor_refl]. eapply successor_insert; [apply stays_refl|done|apply stays_cells].
  - unfold cleanup_exited, remove_session in Hh.
    destruct (sessions r !! sid) as [s|]; [destruct (_ =? _)|]; injection Hh as <- _ _;
      [apply successor_sub, delete_subseteq|apply successor_refl..].
  - unfold registry_detach_if_current in Hh. destruct (sessions r !! sid) as [s|] eqn:E;
      [|injection Hh as <- _ _; apply successor_refl].
    pose proof (stays_detach now epoch s) as He. destruct (session_detach_if_current now epoch s) as [s' b].
    injection Hh as <- _ _. eapply successor_insert; [apply stays_refl|done..].
  - rust_inv Hh. destruct a as [r1 e]. injection Hh as <- _ _. apply reap_expired_Ok in E as [_ ->].
    apply successor_sub, map_filter_subseteq.
  - injection Hh as <- _ _. apply successor_refl.
  - unfold attach_view in Hh. destruct (resolve_prefix sid r) as [id| |] eqn:E; cbn [mbind rust_bind] in Hh;
      [|injection Hh as <- _ _; apply successor_refl|done].
    destruct (sessions r !! id) as [s|] eqn:Es; [|injection Hh as <- _ _; apply successor_refl].
    destruct (_ && _); [injection Hh as <- _ _; apply successor_refl|].
    destruct (has_exited s); injection Hh as <- _ _; [apply successor_refl|].
    eapply successor_insert; [apply stays_refl|done|apply stays_cells].
Qed.
Lemma command_successor `{!HashIter} now closed c r r' rep eff :
  handle_command now closed c r = Ok (r', rep, eff) -> successor r r' (new_of c).
Proof. intros Hc%command_successor_by. eapply successor_mono; [apply stays_evolves|done]. Qed.
Lemma share_successor sid sz ex vs scr r : successor r (share_cells sid sz ex vs scr r) [].
Proof.
  unfold share_cells. destruct (sessions r !! sid) as [s|] eqn:E; [|eapply successor_mono; [apply stays_evolves|apply successor_refl]].
  eapply successor_insert; [apply evolves_refl|done|apply evolves_cells].
Qed.
Lemma share_keys sid sz ex vs scr r k :
  is_Some (sessions (share_cells sid sz ex vs scr r) !! k) <-> is_Some (sessions r !! k).
Proof.
  unfold share_cells. destruct (sessions r !! sid) as [s|] eqn:E; [|done]. cbn.
  destruct (decide (k = sid)) as [->|].
  - rewrite lookup_insert_eq, E. split; intros _; by eexists.
  - by rewrite lookup_insert_ne.
Qed.

(** The sessions a run inserts. *)
Definition inserted (evs : list Event) : list DetachedSession :=
  mbind (fun e => match e with Cmd _ _ c => new_of c | _ => [] end) evs.

(** Once gone, a session stays gone. *)
Lemma run_gone r evs effs r' k : run r evs effs r' ->
  sessions r !! k = None -> k ∉ map session_id (inserted evs) -> sessions r' !! k = None.
Proof.
  induction 1 as [r|HI r now closed c r1 rep eff evs effs r2 Hc Hr IH|r sid sz ex vs scr evs effs r2 Hr IH];
    intros Hk Hn; [done|apply IH..].
  - destruct (sessions r1 !! k) as [s1|] eqn:E; [|done].
    destruct (command_successor _ _ _ _ _ _ _ Hc _ _ E) as [(s & Hs & _)|[Hin ->]]; [congruence|].
    destruct Hn. unfold inserted. cbn. rewrite map_app. apply elem_of_app. left. by apply list_elem_of_fmap_2.
  - unfold inserted in *. cbn in Hn. rewrite map_app in Hn. set_solver.
  - apply eq_None_not_Some. rewrite share_keys, Hk. by intros [? ?].
  - exact Hn.
Qed.
End Evolution.

(** ** Runs tear down what leaves, and only that *)
Section Runs.
Context `{!Host}.
Implicit Types (r : SessionRegistry) (s : DetachedSession).

(** The ids a run inserts are new: distinct, and not in the registry. *)
Definition fresh_ids r (evs : list Event) : Prop :=
  NoDup (map session_id (inserted evs)) /\
  forall k, k ∈ map session_id (inserted evs) -> sessions r !! k = None.

Lemma fresh_ids_step r r' c now closed evs : successor r r' (new_of c) ->
  fresh_ids r (Cmd now closed c :: evs) -> fresh_ids r' evs /\ fresh_insert c r.
Proof.
  intros Hsuc [Hd Hf]. unfold fresh_ids, inserted in *. cbn in Hd, Hf. rewrite map_app in Hd, Hf.
  apply NoDup_app in Hd as (_ & Hx & Hd). split; [split; [done|]|].
  - intros k Hk. destruct (sessions r' !! k) as [s'|] eqn:E; [|done].
    destruct (Hsuc _ _ E) as [(s & Hs & _)|[Hn ->]].
    + rewrite Hf in Hs; [done|set_solver].
    + destruct (Hx (session_id s')); [by apply list_elem_of_fmap_2|done].
  - destruct c; try done. cbn. apply Hf. cbn. set_solver.
Qed.
Lemma fresh_ids_cells r sid sz ex vs scr evs :
  fresh_ids r (Cells sid sz ex vs scr :: evs) -> fresh_ids (share_cells sid sz ex vs scr r) evs.
Proof.
  intros [Hd Hf]. split; [done|]. intros k Hk. apply eq_None_not_Some. rewrite share_keys, Hf by done.
  by intros [? ?].
Qed.

Lemma accounts_terminate r r' eff k s : accounts r r' eff ->
  sessions r !! k = Some s -> sessions r' !! k = None -> terminate s ⊆ eff.
Proof.
  intros (gone & Hp & ->) Hs Hn e He. apply list_elem_of_In, in_concat. exists (terminate s).
  split; [|by apply list_elem_of_In]. apply in_map, list_elem_of_In, list_elem_of_fmap.
  exists (k, s). split; [done|]. rewrite Hp. apply elem_of_map_to_list, map_lookup_filter_Some. by split.
Qed.
Lemma accounts_notify r r' eff h : accounts r r' eff -> NotifyReader h ∈ eff ->
  exists k s, sessions r !! k = Some s /\ sessions r' !! k = None /\ reader_cancel s = h.
Proof.
  intros (gone & Hp & ->) (t & Ht & He)%list_elem_of_In%in_concat.
  apply list_elem_of_In, list_elem_of_fmap in Ht as (s & -> & Hs).
  apply list_elem_of_fmap in Hs as ([k s'] & -> & Hin). rewrite Hp in Hin.
  apply elem_of_map_to_list, map_lookup_filter_Some in Hin as [Hr Hn]. exists k, s'. split_and!; [done..|].
  apply list_elem_of_In in He. unfold terminate in He. cbn [snd] in He.
  rewrite !elem_of_app, list_elem_of_singleton in He. destruct He as [[= <-]|[He|He]]; [done|exfalso..].
  - repeat case_match; set_solver.
  - repeat case_match; set_solver.
Qed.

Definition same_process s s' : Prop :=
  reader_cancel s' = reader_cancel s /\ child_pid s' = child_pid s /\ pty_master s' = pty_master s.

(** [s0] is the session under [k] now, or the one the run inserts there. *)
Definition born r (evs : list Event) (k : string) s0 : Prop :=
  sessions r !! k = Some s0 \/ s0 ∈ inserted evs /\ k = session_id s0.

Lemma command_stays `{!HashIter} now closed c r r1 rep eff k s0 :
  handle_command now closed c r = Ok (r1, rep, eff) -> sessions r !! k = Some s0 -> fresh_insert c r ->
  sessions r1 !! k = None \/ exists s1, sessions r1 !! k = Some s1 /\ stays s0 s1.
Proof.
  intros Hc Hs Hf. destruct (sessions r1 !! k) as [s1|] eqn:E; [right|by left]. exists s1. split; [done|].
  destruct (command_successor_by _ _ _ _ _ _ _ Hc _ _ E) as [(s & Hs' & He)|[Hn ->]]; [congruence|].
  destruct c; cbn in Hn; try (by apply elem_of_nil in Hn). apply list_elem_of_singleton in Hn as ->. cbn in Hf. congruence.
Qed.
Lemma command_inserts `{!HashIter} now closed s r r1 rep eff :
  handle_command now closed (Insert s) r = Ok (r1, rep, eff) -> sessions r1 !! session_id s = Some s.
Proof.
  cbn. intros Hh. rust_inv Hh. destruct a as [r2 e]. injection Hh as <- _ _.
  apply insert_cases in E as (r3 & -> & _). cbn. apply lookup_insert_eq.
Qed.

(** The run told the registry's copy of the exit watch that the session's process has exited. *)
Definition exit_reported (evs : list Event) (k : string) : Prop :=
  exists sz c vs scr, Cells k sz (Some c) vs scr ∈ evs.
Definition exit_from (evs : list Event) (k : string) s0 s : Prop :=
  has_exited s = true -> has_exited s0 = true \/ exit_reported evs k.
Lemma exit_reported_cons ev evs k : exit_reported evs k -> exit_reported (ev :: evs) k.
Proof. intros (sz & c & vs & scr & Hin). exists sz, c, vs, scr. by right. Qed.
Lemma exit_from_cons ev evs k s0 s1 s : has_exited s1 = has_exited s0 -> exit_from evs k s1 s -> exit_from (ev :: evs) k s0 s.
Proof. intros He Hx Hs. destruct (Hx Hs) as [H1|H1]; [left; congruence|right; by apply exit_reported_cons]. Qed.

Definition torn_down (evs : list Event) (effs : list Effect) (k : string) s0 : Prop :=
  exists s, same_process s0 s /\ exit_from evs k s0 s /\ terminate s ⊆ effs.
Lemma torn_down_cons ev eff evs effs k s0 s1 : same_process s0 s1 -> has_exited s1 = has_exited s0 ->
  torn_down evs effs k s1 -> torn_down (ev :: evs) (eff ++ effs) k s0.
Proof.
  intros Hp Hx (s & Hp' & Hf & Hsub). exists s. split; [|split; [by eapply exit_from_cons|set_solver]].
  unfold same_process in *. intuition congruence.
Qed.

Lemma run_terminates r evs effs r' : run r evs effs r' -> fresh_ids r evs -> forall k s0, born r evs k s0 ->
  sessions r' !! k = None -> torn_down evs effs k s0.
Proof.
  induction 1 as [r|HI r now closed c r1 rep eff evs effs r2 Hc Hr IH|r sid sz ex vs scr evs effs r2 Hr IH];
    intros Hf k s0 Hb Hn.
  - destruct Hb as [Hb|[Hb _]]; [congruence|by apply elem_of_nil in Hb].
  - destruct (fresh_ids_step _ _ _ _ _ _ (command_successor _ _ _ _ _ _ _ Hc) Hf) as [Hf1 Hfi].
    pose proof (command_accounts _ _ _ _ _ _ _ Hfi Hc) as Hacc. destruct Hb as [Hs|[Hin ->]].
    + destruct (command_stays _ _ _ _ _ _ _ _ _ Hc Hs Hfi) as [Hg|(s1 & Hs1 & He & Hx)].
      * exists s0. split; [done|]. split; [by left|]. etrans; [by eapply accounts_terminate|set_solver].
      * eapply torn_down_cons; [..|by eapply (IH Hf1 k s1); [left|]]; [|unfold has_exited; by rewrite Hx].
        unfold same_process, evolves in *. intuition congruence.
    + unfold inserted in Hin. cbn in Hin. apply elem_of_app in Hin as [Hin|Hin].
      * destruct c; cbn in Hin; try (by apply elem_of_nil in Hin). apply list_elem_of_singleton in Hin as ->.
        eapply torn_down_cons; [..|eapply (IH Hf1 (session_id s) s); [left; by eapply command_inserts|done]]; done.
      * eapply torn_down_cons; [..|by eapply (IH Hf1 (session_id s0) s0); [right|]]; done.
  - apply (fresh_ids_cells r sid sz ex vs scr) in Hf.
    destruct Hb as [Hs|Hin]; [|by eapply (torn_down_cons _ []); [..|eapply IH; [done|right|]]].
    unfold share_cells in IH, Hf.
    destruct (sessions r !! sid) as [s1|] eqn:E; [|by eapply (torn_down_cons _ []); [..|eapply IH; [done|left|]]].
    destruct (decide (k = sid)) as [->|Hne].
    + assert (s1 = s0) as -> by congruence.
      destruct (IH Hf sid (with_cells sz ex (broker_handle s0) vs scr s0)) as (s & Hp & Hx & Hsub);
        [left; cbn; apply lookup_insert_eq|done|]. exists s. split; [done|]. split; [|done].
      intros [Hx1|Hx1]%Hx; right; [|by apply exit_reported_cons]. destruct ex as [c|]; [|done].
      exists sz, c, vs, scr. by left.
    + eapply (torn_down_cons _ []); [done..|]. eapply IH; [done|left; cbn; by rewrite lookup_insert_ne|done].
Qed.

(** Every session's reader has a handle of its own. *)
Definition reader_of (h : string -> Z) s : Prop := reader_cancel s = h (session_id s).
Definition keyed (h : string -> Z) r : Prop :=
  forall k s, sessions r !! k = Some s -> session_id s = k /\ reader_of h s.
Lemma keyed_successor h r r' new : keyed h r -> Forall (reader_of h) new -> successor r r' new -> keyed h r'.
Proof.
  intros Hk Hn Hs k s' Hs'. destruct (Hs _ _ Hs') as [(s & Hs0 & He)|[Hin ->]].
  - destruct (Hk _ _ Hs0) as [<- Hr]. unfold evolves, reader_of in *. intuition congruence.
  - split; [done|]. rewrite Forall_forall in Hn. by apply Hn.
Qed.

Lemma run_notifies_gone (h : string -> Z) `{!Inj (=) (=) h} r evs effs r' : run r evs effs r' ->
  keyed h r -> Forall (reader_of h) (inserted evs) -> fresh_ids r evs ->
  forall k s0, born r evs k s0 -> NotifyReader (h k) ∈ effs -> sessions r' !! k = None.
Proof.
  induction 1 as [r|HI r now closed c r1 rep eff evs effs r2 Hc Hr IH|r sid sz ex vs scr evs effs r2 Hr IH];
    intros Hk Hh Hf k s0 Hb He.
  - by apply elem_of_nil in He.
  - destruct (fresh_ids_step _ _ _ _ _ _ (command_successor _ _ _ _ _ _ _ Hc) Hf) as [Hf1 Hfi].
    apply Forall_app in Hh as [Hh0 Hh1].
    pose proof (keyed_successor _ _ _ _ Hk Hh0 (command_successor _ _ _ _ _ _ _ Hc)) as Hk1.
    apply elem_of_app in He as [He|He].
    + apply (accounts_notify r r1) in He as (k' & s & Hs & Hg & Hrd); [|by eapply command_accounts].
      destruct (Hk _ _ Hs) as [<- Hro]. rewrite Hro in Hrd. apply (inj h) in Hrd as <-.
      eapply run_gone; [done..|]. intros Hin. destruct Hf as [_ Hf].
      rewrite Hf in Hs; [done|]. unfold inserted. cbn. rewrite map_app. set_solver.
    + destruct Hb as [Hs|[Hin ->]].
      * destruct (command_stays _ _ _ _ _ _ _ _ _ Hc Hs Hfi) as [Hg|(s1 & Hs1 & _)];
          [|eapply IH; [done..|by left|done]].
        eapply run_gone; [done..|]. intros Hin. destruct Hf as [_ Hf].
        rewrite Hf in Hs; [done|]. unfold inserted. cbn. rewrite map_app. set_solver.
      * unfold inserted in Hin. cbn in Hin. apply elem_of_app in Hin as [Hin|Hin].
        -- destruct c; cbn in Hin; try (by apply elem_of_nil in Hin). apply list_elem_of_singleton in Hin as ->.
           eapply IH; [done..|left; by eapply command_inserts|done].
        -- eapply IH; [done..|by right|done].
  - pose proof (share_successor sid sz ex vs scr r) as Hsh.
    pose proof (keyed_successor _ _ _ _ Hk (Forall_nil_2 _) Hsh) as Hk1.
    apply (fresh_ids_cells r sid sz ex vs scr) in Hf. destruct Hb as [Hs|Hin]; [|eapply IH; [done..|by right|done]].
    destruct (proj2 (share_keys sid sz ex vs scr r k)) as [s1 Hs1]; [by exists s0|].
    eapply IH; [done..|by left|done].
Qed.
End Runs.

(** The map's keys are the sessions' ids. *)
Definition keys_ok (r : SessionRegistry) : Prop := forall k s, sessions r !! k = Some s -> session_id s = k.
Lemma keys_ok_successor r r' new : keys_ok r -> successor r r' new -> keys_ok r'.
Proof.
  intros Hk Hs k s' Hs'. destruct (Hs _ _ Hs') as [(s & Hs0 & He)|[_ ->]]; [|done].
  rewrite <-(Hk _ _ Hs0). apply He.
Qed.
Lemma run_keys_ok `{!Host} r evs effs r' : run r evs effs r' -> keys_ok r -> keys_ok r'.
Proof.
  induction 1 as [r|HI r now closed c r1 rep eff evs effs r2 Hc Hr IH|r sid sz ex vs scr evs effs r2 Hr IH];
    intros Hk; [done|apply IH; eapply keys_ok_successor; [done|]..];
    [by eapply command_successor|apply share_successor].
Qed.

Section Epochs.
Context `{!Host}.
Implicit Types (r : SessionRegistry) (s : DetachedSession).

Lemma evolves_epoch s s' : evolves s s' -> 0 <= attach_epoch s -> attach_epoch s + 1 < 2 ^ 64 ->
  attach_epoch s <= attach_epoch s' <= attach_epoch s + 1.
Proof.
  intros (_ & _ & _ & _ & _ & [->| ->]) ? ?; [lia|]. unfold u64. rewrite Z.mod_small by lia. lia.
Qed.

(** Epochs never go back, and move at most once per event. *)
Lemma run_epoch r evs effs r' k : run r evs effs r' -> k ∉ map session_id (inserted evs) ->
  forall s s', sessions r !! k = Some s -> sessions r' !! k = Some s' ->
  0 <= attach_epoch s -> attach_epoch s + Z.of_nat (length evs) < 2 ^ 64 ->
  attach_epoch s <= attach_epoch s' <= attach_epoch s + Z.of_nat (length evs).
Proof.
  assert (forall r r1 evs s, successor r r1 (inserted evs) -> k ∉ map session_id (inserted evs) ->
    sessions r !! k = Some s -> sessions r1 !! k = None \/ exists s1, sessions r1 !! k = Some s1 /\ evolves s s1) as Hone.
  { intros r0 r1 evs0 s Hsuc Hn Hs. destruct (sessions r1 !! k) as [s1|] eqn:E; [right|by left].
    exists s1. split; [done|]. destruct (Hsuc _ _ E) as [(? & ? & ?)|[Hin ->]]; [congruence|].
    destruct Hn. by apply list_elem_of_fmap_2. }
  induction 1 as [r|HI r now closed c r1 rep eff evs effs r2 Hc Hr IH|r sid sz ex vs scr evs effs r2 Hr IH];
    intros Hn s s' Hs Hs' Hp Hb; [simplify_eq/=; lia|..]; cbn [length] in Hb |- *; rewrite Nat2Z.inj_succ in Hb |- *.
  - unfold inserted in Hn. cbn in Hn. rewrite map_app in Hn.
    destruct (Hone r r1 [Cmd now closed c] s) as [Hg|(s1 & Hs1 & He)]; [..|done| |].
    + cbn. rewrite app_nil_r. by eapply command_successor.
    + cbn. rewrite app_nil_r. set_solver.
    + rewrite (run_gone _ _ _ _ _ Hr Hg) in Hs' by set_solver. done.
    + pose proof (evolves_epoch _ _ He). specialize (IH ltac:(set_solver) s1 s' Hs1 Hs'). lia.
  - destruct (Hone r (share_cells sid sz ex vs scr r) [] s) as [Hg|(s1 & Hs1 & He)]; [..|done| |].
    + apply share_successor.
    + set_solver.
    + rewrite (run_gone _ _ _ _ _ Hr Hg) in Hs' by done. done.
    + pose proof (evolves_epoch _ _ He). specialize (IH Hn s1 s' Hs1 Hs'). lia.
Qed.

Lemma stale_detach now k e r : (forall s, sessions r !! k = Some s -> attach_epoch s <> e) ->
  registry_detach_if_current now k e r = (r, false).
Proof.
  intros He. unfold registry_detach_if_current, session_detach_if_current.
  destruct (sessions r !! k) as [s|] eqn:E; [|done]. rewrite (proj2 (Z.eqb_neq _ _)) by (by apply He).
  rewrite insert_id by done. by destruct r.
Qed.
Lemma stale_cleanup k e r : (forall s, sessions r !! k = Some s -> attach_epoch s <> e) ->
  cleanup_exited k e r = (r, None, []).
Proof.
  intros He. unfold cleanup_exited. destruct (sessions r !! k) as [s|] eqn:E; [|done].
  by rewrite (proj2 (Z.eqb_neq _ _)) by (by apply He).
Qed.

Lemma do_attach_Some `{!HashIter} sid pid tx sz r r' a :
  do_attach sid pid tx sz r = (r', Some a) <->
  exists id s, names r sid id /\ sessions r !! id = Some s /\ exit_rx s = None /\ peer_id s = pid /\
    r' = with_sessions r (<[id := (attach tx (resize sz s)).1]> (sessions r)) /\
    a = {| att_session_id := session_id s; att_input_tx := input_tx s; att_epoch := u64 (attach_epoch s + 1) |}.
Proof.
  unfold do_attach. pose proof (names_resolved r sid) as Hn.
  set (i := match resolve_prefix sid r with Ok i => i | _ => sid end) in *. split.
  - destruct (sessions r !! i) as [s|] eqn:E; [|done].
    unfold has_exited. destruct (exit_rx s) eqn:Ex; [done|]. case_bool_decide; [|done]. cbn.
    intros [= <- <-]. exists i, s. destruct (proj1 (Hn i s)) as [? ?]; [done|]. done.
  - intros (id & s & Hnm & Hs & Hx & Hp & -> & ->). destruct (proj2 (Hn id s)) as [Hi ->]; [done|].
    rewrite Hi. unfold has_exited. rewrite Hx, bool_decide_eq_true_2 by done. done.
Qed.
Lemma do_attach_None `{!HashIter} sid pid tx sz r r' : do_attach sid pid tx sz r = (r', None) -> r' = r.
Proof. unfold do_attach. intros E. case_match; [|congruence]. case_match; [congruence|done]. Qed.
End Epochs.

(** ** The registry's contract *)

(** A host that runs everything in one process, with all logging on, and a map
    that iterates in key order. *)
Definition demo_host : Host :=
  {| is_privsep_worker := false; pty_slave_name := fun _ => None; foreground_pid := fun _ => None;
     log_debug := true; log_info := true |}.
Definition key_order : HashIter := {| hash_iter := map_to_list; hash_iter_perm := fun m => reflexivity _ |}.
Definition demo_session (id peer : string) (n : Z) : DetachedSession :=
  {| session_id := id; peer_id := peer; username := None; child_pid := Some n; reader_cancel := n; input_tx := n;
     output_route := Build_watch None true; resize_tx := Build_watch (Build_PtySize 24 80 0 0) true; exit_rx := None;
     detached_at := Some n; attached := false; started_unix_ms := n; pty_master := None; attach_epoch := 1;
     broker_handle := None; viewers := Build_mutex false [];
     screen := Build_mutex false (Build_VtScreen (Build_mutex false (None, 0)) (24, 80)) |}.
Definition registry_of (t cap : Z) (l : list DetachedSession) : SessionRegistry :=
  with_sessions (registry_new t cap) (list_to_map (map (fun s => (session_id s, s)) l)).

(** What ending a live session requires of the system: its reader is notified; the process group of a
    child not known to have exited gets SIGHUP and SIGKILL; and the privileged monitor, where it holds the
    child, is told to release it. *)
Lemma torn_down_effects `{!Host} evs effs k s : torn_down evs effs k s ->
  NotifyReader (reader_cancel s) ∈ effs /\
  (forall pid, child_pid s = Some pid -> has_exited s = false -> ~ exit_reported evs k ->
     Kill (wrap_i32 (- wrap_i32 pid)) SIGHUP ∈ effs /\ Kill (wrap_i32 (- wrap_i32 pid)) SIGKILL ∈ effs) /\
  (forall tty, child_pid s = None -> is_privsep_worker = true -> pty_master s ≫= pty_slave_name = Some tty ->
     ReleaseSession tty ∈ effs).
Proof.
  intros (s' & (Hr & Hc & Hm) & Hx & Hsub). rewrite <-Hr, <-Hc, <-Hm. unfold terminate in Hsub. split; [|split].
  - apply Hsub. set_solver.
  - intros pid Hp Hn Hrep. assert (has_exited s' = false) as Hs.
    { destruct (has_exited s') eqn:E; [|done]. destruct (Hx E); [congruence|done]. }
    rewrite Hp, Hs in Hsub. split; apply Hsub; set_solver.
  - intros tty Hp Hw Ht. rewrite Hp, Hw, Ht in Hsub. apply Hsub. set_solver.
Qed.

(** C3.  Cleanup contract: in every run of the actor from an empty registry, in which session ids are
    not reused and every reader has its own handle, a session's reader is cancelled if and only if the
    session has left the registry.  When it has left, by exit, reap or eviction: the process group of its
    child was sent SIGHUP and SIGKILL, unless the child's exit had been reported to the registry; and in the
    split daemon's worker, which holds no pid, the monitor was asked to release the session's terminal. *)
Theorem session_teardown `{!Host} (h : string -> Z) `{!Inj (=) (=) h} t cap evs effs r s :
  run (registry_new t cap) evs effs r -> NoDup (map session_id (inserted evs)) ->
  Forall (reader_of h) (inserted evs) -> s ∈ inserted evs ->
  (NotifyReader (reader_cancel s) ∈ effs <-> sessions r !! session_id s = None) /\
  (sessions r !! session_id s = None ->
     (forall pid, child_pid s = Some pid -> has_exited s = false -> ~ exit_reported evs (session_id s) ->
        Kill (wrap_i32 (- wrap_i32 pid)) SIGHUP ∈ effs /\ Kill (wrap_i32 (- wrap_i32 pid)) SIGKILL ∈ effs) /\
     (forall tty, child_pid s = None -> is_privsep_worker = true -> pty_master s ≫= pty_slave_name = Some tty ->
        ReleaseSession tty ∈ effs)).
Proof.
  intros Hr Hd Hh Hs.
  assert (fresh_ids (registry_new t cap) evs) as Hf by (split; [done|]; intros; apply lookup_empty).
  assert (born (registry_new t cap) evs (session_id s) s) as Hb by (by right).
  assert (sessions r !! session_id s = None -> torn_down evs effs (session_id s) s) as Ht
    by (intros; by eapply run_terminates).
  split; [split|intros [_ ?]%Ht%torn_down_effects; done].
  - rewrite Forall_forall in Hh. rewrite (Hh s Hs).
    eapply run_notifies_gone; [done|done| |by rewrite Forall_forall|done..]. intros k s' Hk. cbn in Hk. by rewrite lookup_empty in Hk.
  - intros [? _]%Ht%torn_down_effects. done.
Qed.

Definition handle_of (id : string) : Z := Z.pos (encode id).
Definition first_session : DetachedSession := demo_session "0011223344556677" "peer" (handle_of "0011223344556677").
Definition second_session : DetachedSession := demo_session "8899aabbccddeeff" "peer" (handle_of "8899aabbccddeeff").
Definition demo_events : list Event :=
  [Cmd 0 (fun _ => false) (Insert first_session); Cmd 1 (fun _ => false) (Insert second_session)].

Lemma session_teardown_witness :
  exists effs r, run (H := demo_host) (registry_new 60 1) demo_events effs r /\ sessions r !! "0011223344556677" = None /\
    NotifyReader (handle_of "0011223344556677") ∈ effs /\
    Kill (wrap_i32 (- wrap_i32 (handle_of "0011223344556677"))) SIGKILL ∈ effs.
Proof.
  assert (exists effs r, run (H := demo_host) (registry_new 60 1) demo_events effs r /\
            sessions r !! "0011223344556677" = None) as (effs & r & Hr & Hn).
  { eexists _, _. split.
    - apply (run_cmd key_order) with (r1 := registry_of 60 1 [first_session]) (rep := RNone) (eff := []);
        [by vm_compute|].
      apply (run_cmd key_order) with (r1 := registry_of 60 1 [second_session]) (rep := RNone)
        (eff := terminate (H := demo_host) first_session); [by vm_compute|]. apply run_nil.
    - by vm_compute. }
  assert (Inj (=) (=) handle_of) as Hi by (intros a b [= ?]; by apply (inj encode)).
  exists effs, r. split; [done|]. split; [done|].
  destruct (session_teardown handle_of 60 1 demo_events effs r first_session Hr
    ltac:(by vm_compute; repeat constructor; set_solver)
    ltac:(repeat constructor) ltac:(by left)) as [Hnot Hkill].
  split; [apply Hnot; exact Hn|]. destruct (Hkill Hn) as [Hk _]. apply (Hk _ eq_refl eq_refl).
  intros (sz & c & vs & scr & Hin). unfold demo_events in Hin. by repeat (apply elem_of_cons in Hin as [Hin|Hin]); [..|apply elem_of_nil in Hin].
Defined.

(** Attaching: the request takes over a session exactly when the id names one (a live id, or a unique
    prefix of one), it has not exited, and the peer owns it; it then gets the next epoch, the size and
    the output route, and the bells are acknowledged.  In every other case nothing changes. *)
Theorem attach_command_correct `{!Host, !HashIter} now closed sid pid tx sz r :
  exists r' res, handle_command now closed (Attach sid pid tx sz) r = Ok (r', RAttach res, []) /\
  (forall a, res = Some a <->
     exists id s, names r sid id /\ sessions r !! id = Some s /\ exit_rx s = None /\ peer_id s = pid /\
       a = {| att_session_id := session_id s; att_input_tx := input_tx s; att_epoch := u64 (attach_epoch s + 1) |} /\
       r' = with_sessions r (<[id := (attach tx (resize sz s)).1]> (sessions r))) /\
  (res = None -> r' = r).
Proof.
  destruct (do_attach sid pid tx sz r) as [r' res] eqn:E. exists r', res. cbn. rewrite E. split; [done|]. split.
  - intros a. split.
    + intros ->. apply do_attach_Some in E as (id & s & ?). exists id, s. naive_solver.
    + intros (id & s & Hn & Hs & Hx & Hp & -> & Hr').
      pose proof (proj2 (do_attach_Some sid pid tx sz r r' _) (ex_intro _ id (ex_intro _ s
        (conj Hn (conj Hs (conj Hx (conj Hp (conj Hr' eq_refl)))))))) as E'. congruence.
  - intros ->. by eapply do_attach_None.
Qed.


(** Takeover: once another attach has succeeded on a session, nothing the earlier client does under
    its own epoch reaches the session, however the run continues: its detach and its clean-up are
    refused and change nothing.  (Ids are not reused, and an epoch counts at most one per event.) *)
Theorem stale_epoch_inert `{!Host, !HashIter} r1 evs effs r2 now closed sid pid tx sz r3 a evs' effs' r4 s now' :
  keys_ok r1 -> sessions r1 !! att_session_id a = Some s -> 0 <= attach_epoch s ->
  run r1 evs effs r2 ->
  handle_command now closed (Attach sid pid tx sz) r2 = Ok (r3, RAttach (Some a), []) ->
  run r3 evs' effs' r4 ->
  att_session_id a ∉ map session_id (inserted (evs ++ evs')) ->
  attach_epoch s + Z.of_nat (length evs) + 1 + Z.of_nat (length evs') < 2 ^ 64 ->
  handle_command now' closed (DetachIfCurrent (att_session_id a) (attach_epoch s)) r4 = Ok (r4, RDetached false, []) /\
  handle_command now' closed (CleanupExited (att_session_id a) (attach_epoch s)) r4 = Ok (r4, RCleanup None, []).
Proof.
  intros Hk Hs Hp Hr1 Ha Hr2 Hn Hb. unfold inserted in Hn. rewrite bind_app, map_app in Hn.
  apply not_elem_of_app in Hn as [Hn1 Hn2].
  cbn in Ha. destruct (do_attach sid pid tx sz r2) as [r3' [a'|]] eqn:E; [|done]. injection Ha as -> ->.
  apply do_attach_Some in E as (id & s2 & _ & Hs2 & _ & _ & -> & ->). cbn [att_session_id] in *.
  assert (session_id s2 = id) as Hid by (exact (run_keys_ok _ _ _ _ Hr1 Hk _ _ Hs2)). subst id.
  pose proof (run_epoch _ _ _ _ _ Hr1 Hn1 _ _ Hs Hs2 Hp ltac:(lia)) as He.
  assert (forall s4, sessions r4 !! session_id s2 = Some s4 -> attach_epoch s4 <> attach_epoch s) as Hst.
  { intros s4 Hs4. pose proof (run_epoch _ _ _ _ (session_id s2) Hr2 Hn2 (attach tx (resize sz s2)).1 s4) as He4.
    cbn in He4. rewrite lookup_insert_eq in He4. unfold u64 in He4. rewrite Z.mod_small in He4 by lia.
    specialize (He4 eq_refl Hs4 ltac:(lia) ltac:(lia)). lia. }
  cbn. by rewrite stale_detach, stale_cleanup.
Qed.

Lemma stale_epoch_inert_witness :
  let r := registry_of 60 4 [first_session] in
  let r' := (do_attach (H0 := key_order) "0011" "peer" 7 (Build_PtySize 24 80 0 0) r).1 in
  handle_command (H := demo_host) (H0 := key_order) 5 (fun _ => false) (DetachIfCurrent "0011223344556677" 1) r'
    = Ok (r', RDetached false, []) /\
  handle_command (H := demo_host) (H0 := key_order) 5 (fun _ => false) (CleanupExited "0011223344556677" 1) r'
    = Ok (r', RCleanup None, []).
Proof.
  intros r r'.
  apply (stale_epoch_inert (H := demo_host) (H0 := key_order) r [] [] r 5 (fun _ => false) "0011" "peer" 7
    (Build_PtySize 24 80 0 0) r'
    {| att_session_id := "0011223344556677"; att_input_tx := handle_of "0011223344556677"; att_epoch := 2 |}
    [] [] r' first_session 5).
  - intros k s. unfold r, registry_of. cbn. rewrite lookup_insert_Some, lookup_empty. naive_solver.
  - by vm_compute.
  - done.
  - apply run_nil.
  - by vm_compute.
  - apply run_nil.
  - cbn. set_solver.
  - cbn. lia.
Defined.

(** Capacity: inserting below the cap (or with no cap) only adds; at the cap it evicts exactly the
    detached session that has waited longest, tearing it down; with every session attached it exceeds
    the cap rather than take a session from a client. *)
Theorem insert_capacity `{!Host, !HashIter} now closed s r :
  sessions r !! session_id s = None ->
  (forall k, is_Some (sessions r !! k) -> is_char_boundary k (8 `min` String.length k) = true) ->
  exists r' eff, handle_command now closed (Insert s) r = Ok (r', RNone, eff) /\
  ((max_sessions r <= 0 \/ registry_len r < max_sessions r \/ all_busy r) /\
     eff = [] /\ sessions r' = <[session_id s := s]> (sessions r) \/
   0 < max_sessions r <= registry_len r /\ exists id old, oldest_detached r id old /\ eff = terminate old /\
     sessions r' = <[session_id s := s]> (delete id (sessions r)) /\ registry_len r' = registry_len r).
Proof.
  intros Hf Hb. assert (exists r' eff, insert_session s r = Ok (r', eff)) as (r' & eff & E).
  { unfold insert_session. destruct (evict_returns r Hb) as (r1 & e & ->). case_match; by eexists _, _. }
  exists r', eff. cbn. rewrite E. split; [done|].
  apply insert_cases in E as (r1 & -> & [(-> & -> & Hc)|(Hc & id & old & Ho & -> & ->)]); [by left|right].
  split; [done|]. exists id, old. split_and!; [done..|]. unfold registry_len. cbn.
  rewrite map_size_insert_None, map_size_delete_Some by (by eexists; apply Ho) || (rewrite lookup_delete_None; by right).
  assert (0 < Z.of_nat (size (sessions r))) by (unfold registry_len in Hc; lia). lia.
Qed.

Lemma insert_capacity_witness :
  exists r' eff, handle_command (H := demo_host) (H0 := key_order) 5 (fun _ => false) (Insert second_session)
    (registry_of 60 1 [first_session]) = Ok (r', RNone, eff) /\ registry_len r' <= 2.
Proof.
  destruct (insert_capacity (H := demo_host) (H0 := key_order) 5 (fun _ => false) second_session
    (registry_of 60 1 [first_session])) as (r' & eff & E & _).
  - by vm_compute.
  - intros k [s Hs]. unfold registry_of in Hs. cbn in Hs. rewrite lookup_insert_Some, lookup_empty in Hs.
    destruct Hs as [[<- _]|[_ ?]]; [by vm_compute|done].
  - exists r', eff. split; [exact E|]. vm_compute in E. injection E as <- _. by vm_compute.
Defined.

(** Reaping: on sessions as the host makes them the reap never panics (even with its log lines
    on); it keeps exactly the sessions that are attached, or still running and within the timeout, and
    sends exactly the tear-downs of the others. *)
Theorem reap_correct `{!Host, !HashIter} now closed r :
  (forall k s, sessions r !! k = Some s -> host_made s) ->
  exists r' eff, handle_command now closed ReapExpired r = Ok (r', RNone, eff) /\ accounts r r' eff /\
  forall k s, sessions r' !! k = Some s <-> sessions r !! k = Some s /\
    (attached s = true \/
     exit_rx s = None /\ forall d, detached_at s = Some d -> sat_sub now d <= timeout r).
Proof.
  intros Hm. assert (exists r' eff, reap_expired now r = Ok (r', eff)) as (r' & eff & E).
  { destruct (retain_loop_returns now (timeout r) (hash_iter (sessions r)) (sessions r)) as (m & e & Hl).
    - apply Forall_forall. intros [k s] Hin%elem_of_hash_iter. by eapply host_made_loggable, Hm.
    - unfold reap_expired. rewrite Hl. by eexists _, _. }
  exists r', eff. cbn. rewrite E. split; [done|]. split; [by eapply reap_accounts|].
  apply reap_expired_Ok in E as [_ ->]. intros k s. cbn. rewrite map_lookup_filter_Some. cbn.
  apply and_iff_compat_l. unfold expired, has_exited.
  destruct (attached s), (exit_rx s), (detached_at s) as [d|]; cbn; rewrite ?Z.ltb_ge; naive_solver.
Qed.

Definition idle_session : DetachedSession :=
  demo_session (generate_session_id [0; 1; 2; 3; 4; 5; 6; 7; 8; 9; 10; 11; 12; 13; 14; 15]) (hex_encode [171; 205]) 5.

Lemma reap_correct_witness :
  exists r' eff, handle_command (H := demo_host) (H0 := key_order) 100 (fun _ => false) ReapExpired
    (registry_of 60 4 [idle_session]) = Ok (r', RNone, eff) /\ sessions r' !! session_id idle_session = None.
Proof.
  destruct (reap_correct (H := demo_host) (H0 := key_order) 100 (fun _ => false) (registry_of 60 4 [idle_session]))
    as (r' & eff & E & _ & Hk).
  - intros k s Hs. unfold registry_of in Hs. cbn in Hs. rewrite lookup_insert_Some, lookup_empty in Hs.
    destruct Hs as [[_ <-]|[_ ?]]; [|done].
    split; [exists [0; 1; 2; 3; 4; 5; 6; 7; 8; 9; 10; 11; 12; 13; 14; 15]|exists [171; 205]];
      repeat split; try done; solve_bytes.
  - exists r', eff. split; [exact E|]. vm_compute in E. injection E as <- _. by vm_compute.
Defined.

(** Viewing: a read-only viewer is added exactly when the id is a prefix of one live id, the peer
    owns that session or is an admin, and it has not exited; only the viewer list changes (departed
    viewers pruned, the new one last), never the attachment. *)
Theorem attach_view_correct `{!Host, !HashIter} now closed sid pid adm tx r :
  exists r' res, handle_command now closed (AttachView sid pid adm tx) r = Ok (r', RView res, []) /\
  (forall v, res = Ok v <-> exists s, unique_prefix r sid (view_session_id v) /\
     sessions r !! view_session_id v = Some s /\ (peer_id s = pid \/ adm = true) /\
     exit_rx s = None /\ view_exit v = None) /\
  (forall v, res = Ok v -> forall s, sessions r !! view_session_id v = Some s ->
     r' = with_sessions r (<[view_session_id v := with_cells (resize_tx s) (exit_rx s) (broker_handle s)
       match lock (viewers s) with
       | Some l => unlock (viewers s) (base.filter (fun t => closed t = false) l ++ [tx])
       | None => viewers s
       end (screen s) s]> (sessions r))) /\
  ((forall v, res <> Ok v) -> r' = r).
Proof.
  cbn. unfold attach_view. pose proof (fun id => resolve_prefix_Ok r sid id) as Hr.
  destruct (resolve_prefix sid r) as [id|e|] eqn:E; cbn [mbind rust_bind].
  - assert (unique_prefix r sid id) as Hu by (by apply Hr). pose proof Hu as (_ & [s Hs] & _). rewrite Hs.
    assert (forall v, unique_prefix r sid (view_session_id v) -> view_session_id v = id) as Hid
      by (intros v ?%Hr; congruence).
    destruct (_ && _) eqn:Eg; [|destruct (has_exited s) eqn:Ex].
    + eexists _, _. split; [done|]. split_and!; [|done|done]. intros v. split; [done|].
      intros (s' & Hv & Hs' & Ho & _). rewrite (Hid v Hv) in Hs'. apply andb_true_iff in Eg as [Eg1 Eg2].
      apply negb_true_iff in Eg1, Eg2. apply bool_decide_eq_false in Eg1. destruct Ho; congruence.
    + eexists _, _. split; [done|]. split_and!; [|done|done]. intros v. split; [done|].
      intros (s' & Hv & Hs' & _ & Hx & _). rewrite (Hid v Hv) in Hs'. unfold has_exited in Ex.
      simplify_eq. by rewrite Hx in Ex.
    + assert (exit_rx s = None) as Hx by (unfold has_exited in Ex; by destruct (exit_rx s)).
      eexists _, _. split; [done|]. split_and!; [| |by intros Hn; destruct (Hn _ eq_refl)].
      * intros v. split.
        -- intros [= <-]. cbn. exists s. split_and!; try done. apply andb_false_iff in Eg as [Eg|Eg];
             apply negb_false_iff in Eg; [left; by apply bool_decide_eq_true in Eg|by right].
        -- intros (s' & Hv & Hs' & _ & _ & Hve). f_equal. destruct v as [vid vex]. cbn in *.
           rewrite <-(Hid (Build_ViewResult vid vex) Hv). by rewrite Hx, Hve.
      * intros v [= <-]. cbn. intros s' Hs'. assert (s' = s) as -> by congruence. done.
  - eexists _, _. split; [done|]. split_and!; [|done|done]. intros v. split; [done|].
    intros (s' & Hv%Hr & _). done.
  - by destruct (resolve_prefix_no_panic r sid).
Qed.

(** Listing: whatever order the map iterates in, the listing has each session once, newest first. *)
Theorem list_newest_first `{!Host, !HashIter} now closed r :
  exists l, handle_command now closed ListSessions r = Ok (r, RList l, []) /\
  l ≡ₚ map (summary closed now) (map_to_list (sessions r)).*2 /\
  StronglySorted (fun a b => started_ms b <= started_ms a) l.
Proof.
  eexists. split; [done|]. unfold summaries. split; [|apply sort_desc_sorted].
  rewrite sort_desc_perm. apply Permutation_map. by rewrite hash_iter_perm.
Qed.
