(* ===== verification/DocStore.v ===== *)
(** * DocStore: the replicated document store (vendor/iroh-docs)

    The store the network document lives in, as the vendored crate implements it:
    one record per author and key; inserting a record removes the same author's
    older records whose keys extend the new key, and is refused when a live record
    at a prefix of the key is not older; deleting inserts an empty record; a
    latest-per-key query picks the newest record over all authors and only then
    drops it if it is empty; a flat prefix query lists every author's live records.
    Keys are byte strings; the blob store maps a content hash to its content. *)
From S2P Require Import Prelude Text.
Local Open Scope Z_scope.

(** A 32-byte author id, ordered bytewise. *)
Abbreviation AuthorId := (list Z).

(** The content hash (blake3), as the number its bytes spell. *)
Class ContentHash := { content_hash : string -> Z }.

Record Rec := { r_ts : Z; r_hash : Z; r_len : Z }.
#[export] Instance Rec_eq_dec : EqDecision Rec.
Proof. solve_decision. Defined.

(** [Ord for Record]: the timestamp, then the hash. *)
Definition rec_leb (a b : Rec) : bool := (r_ts a <? r_ts b) || ((r_ts a =? r_ts b) && (r_hash a <=? r_hash b)).
(** A record is empty when its length is 0, which validation ties to the empty hash. *)
Definition rec_empty (r : Rec) : bool := r_len r =? 0.

Abbreviation Replica := (gmap (AuthorId * string) Rec).

(** The non-empty prefixes of a key, the key included. *)
Definition key_prefixes (k : string) : list string := map (fun n => stake (S n) k) (seq 0 (String.length k)).

(** [prefixes_of]: the author's live records at prefixes of the key. *)
Definition parents_of (m : Replica) (a : AuthorId) (k : string) : list Rec :=
  base.filter (fun r => rec_empty r = false) (omap (fun p => m !! (a, p)) (key_prefixes k)).

(** [Store::put]. *)
Definition doc_put (m : Replica) (a : AuthorId) (k : string) (r : Rec) : option Replica :=
  if existsb (fun p => rec_leb r p) (parents_of m a k) then None
  else Some (<[(a, k) := r]> (base.filter (fun kv : (AuthorId * string) * Rec =>
               negb (bool_decide (kv.1.1 = a) && starts_with k kv.1.2 && rec_leb kv.2 r) = true) m)).

(** [LatestPerKeySelector] over one key, authors in ascending order: a later
    record replaces the selection, an equally old one does not. *)
Definition select_latest (l : list (AuthorId * Rec)) : option (AuthorId * Rec) :=
  match l with
  | [] => None
  | x :: l' => Some (fold_left (fun best e => if r_ts best.2 <? r_ts e.2 then e else best) l' x)
  end.

Definition author_le (x y : AuthorId * Rec) : Prop := lex_leb x.1 y.1 = true.
#[export] Instance author_le_dec : RelDecision author_le.
Proof. unfold author_le, RelDecision. apply _. Defined.
Definition entry_leb (x y : (AuthorId * string) * Rec) : bool :=
  if decide (x.1.1 = y.1.1) then lex_leb (str_bytes x.1.2) (str_bytes y.1.2) else lex_leb x.1.1 y.1.1.
Definition entry_le (x y : (AuthorId * string) * Rec) : Prop := entry_leb x y = true.
#[export] Instance entry_le_dec : RelDecision entry_le.
Proof. unfold entry_le, RelDecision. apply _. Defined.

Definition entries_at (m : Replica) (k : string) : list (AuthorId * Rec) :=
  merge_sort author_le
    (omap (fun kv : (AuthorId * string) * Rec => if bool_decide (kv.1.2 = k) then Some (kv.1.1, kv.2) else None)
      (map_to_list m)).

(** [get_one(single_latest_per_key().key_exact(k))]. *)
Definition get_latest (m : Replica) (k : string) : option (AuthorId * Rec) :=
  match select_latest (entries_at m k) with
  | Some e => if rec_empty e.2 then None else Some e
  | None => None
  end.

(** [get_many(key_prefix(p))]: by author, then key. *)
Definition get_prefix (m : Replica) (p : string) : list ((AuthorId * string) * Rec) :=
  base.filter (fun kv => starts_with p kv.1.2 && negb (rec_empty kv.2) = true) (merge_sort entry_le (map_to_list m)).

(** ** Lemmas *)
#[export] Instance author_le_total : Total author_le.
Proof. intros x y. apply lex_leb_total. Qed.
#[export] Instance author_le_trans : Transitive author_le.
Proof. intros x y z. apply lex_leb_trans. Qed.
#[export] Instance entry_le_total : Total entry_le.
Proof.
  intros x y. unfold entry_le, entry_leb. destruct (decide (x.1.1 = y.1.1)) as [E|E].
  - rewrite decide_True by done. apply lex_leb_total.
  - rewrite decide_False by congruence. apply lex_leb_total.
Qed.
#[export] Instance entry_le_trans : Transitive entry_le.
Proof.
  intros x y z. unfold entry_le, entry_leb.
  destruct (decide (x.1.1 = y.1.1)) as [E|E], (decide (y.1.1 = z.1.1)) as [E'|E'].
  - rewrite decide_True by congruence. apply lex_leb_trans.
  - rewrite decide_False by congruence. rewrite E. done.
  - rewrite decide_False by congruence. rewrite <-E'. done.
  - intros H1 H2. case_decide as E2; [|by eapply lex_leb_trans].
    rewrite E2 in H1. destruct E'. by apply lex_leb_antisym.
Qed.
Lemma entry_le_antisym x y : entry_le x y -> entry_le y x -> x.1 = y.1.
Proof.
  unfold entry_le, entry_leb. destruct x as [[a k] r], y as [[a' k'] r']. cbn.
  destruct (decide (a = a')) as [->|E].
  - rewrite decide_True by done. intros H1 H2. pose proof (lex_leb_antisym _ _ H1 H2) as Hs.
    by rewrite <-(bytes_str_bytes k), <-(bytes_str_bytes k'), Hs.
  - rewrite decide_False by congruence. intros H1 H2. by destruct E; apply lex_leb_antisym.
Qed.
Lemma elem_of_key_prefixes k p : p ∈ key_prefixes k <-> p <> EmptyString /\ starts_with p k = true.
Proof.
  assert (forall n s, starts_with (stake n s) s = true) as Ht.
  { intros n s. apply starts_with_spec. exists (sdrop n s). revert s.
    induction n as [|n IH]; intros [|c s]; try done.
    change (String c s = String c (stake n s +:+ sdrop n s)). f_equal. apply IH. }
  assert (forall a b, stake (String.length a) (a +:+ b) = a) as Hs.
  { induction a as [|c a IH]; intros b; [by destruct b|].
    change (String c (stake (String.length a) (a +:+ b)) = String c a). by rewrite IH. }
  unfold key_prefixes. rewrite list_elem_of_fmap. split.
  - intros (n & -> & Hn%elem_of_seq). split; [|apply Ht]. destruct k; [cbn in Hn; lia|done].
  - intros [Hne (t & ->)%starts_with_spec]. exists (String.length p - 1)%nat.
    assert (0 < String.length p)%nat by (destruct p; [done|cbn; lia]).
    replace (S (String.length p - 1)) with (String.length p) by lia. split; [by rewrite Hs|].
    apply elem_of_seq. rewrite length_sapp. lia.
Qed.

Lemma doc_put_Some m a k r m' : doc_put m a k r = Some m' -> forall a' k',
  m' !! (a', k') = if decide ((a', k') = (a, k)) then Some r
                   else if decide (a' = a /\ starts_with k k' = true) then
                     match m !! (a', k') with Some r' => if rec_leb r' r then None else Some r' | None => None end
                   else m !! (a', k').
Proof.
  unfold doc_put. case_match; [done|]. intros [= <-] a' k'. case_decide as Hk.
  { rewrite Hk. apply lookup_insert_eq. }
  rewrite lookup_insert_ne by congruence. rewrite map_lookup_filter.
  destruct (m !! (a', k')) as [r'|] eqn:E; cbn [mbind option_bind fst snd]; [|by case_decide].
  case_decide as Hp.
  - destruct Hp as [-> Hp]. rewrite bool_decide_eq_true_2, Hp by done. cbn [andb]. by destruct (rec_leb r' r).
  - rewrite option_guard_True; [done|]. apply negb_true_iff. rewrite <-not_true_iff_false, !andb_true_iff.
    intros [[->%bool_decide_eq_true Hs] _]. destruct Hp. by split.
Qed.

Lemma doc_put_fresh m a k r : (forall p r', starts_with p k = true -> m !! (a, p) = Some r' -> r_ts r' < r_ts r) ->
  is_Some (doc_put m a k r).
Proof.
  intros Hts. unfold doc_put. destruct (existsb _ _) eqn:E; [|by eexists].
  apply existsb_exists in E as (r' & Hin & Hle). apply list_elem_of_In in Hin.
  unfold parents_of in Hin. apply list_elem_of_filter in Hin as [_ Hin].
  apply list_elem_of_omap in Hin as (p & Hp & Hl). apply elem_of_key_prefixes in Hp as [_ Hp].
  specialize (Hts p r' Hp Hl). unfold rec_leb in Hle. apply orb_true_iff in Hle as [?%Z.ltb_lt|Hle]; [lia|].
  apply andb_true_iff in Hle as [?%Z.eqb_eq _]. lia.
Qed.

Lemma elem_of_entries_at m k a r : (a, r) ∈ entries_at m k <-> m !! (a, k) = Some r.
Proof.
  unfold entries_at. rewrite merge_sort_Permutation, list_elem_of_omap. split.
  - intros ([[a' k'] r'] & Hin & Hs). cbn in Hs. case_bool_decide; [|done]. injection Hs as <- <-. subst k'.
    by apply elem_of_map_to_list in Hin.
  - intros Hm. exists ((a, k), r). split; [by apply elem_of_map_to_list|]. cbn. by rewrite bool_decide_eq_true_2.
Qed.

Lemma select_latest_Some l e : select_latest l = Some e -> e ∈ l /\ forall e', e' ∈ l -> r_ts e'.2 <= r_ts e.2.
Proof.
  destruct l as [|x l]; [done|]. cbn. intros [= <-]. revert x. induction l as [|y l IH]; intros x; cbn.
  - split; [by left|]. intros e' ->%list_elem_of_singleton. lia.
  - set (b := if r_ts x.2 <? r_ts y.2 then y else x). destruct (IH b) as [Hin Hle].
    assert ((b = x \/ b = y) /\ r_ts x.2 <= r_ts b.2 /\ r_ts y.2 <= r_ts b.2) as (Hb & H1 & H2)
      by (unfold b; destruct (Z.ltb_spec (r_ts x.2) (r_ts y.2)); split; auto; lia).
    pose proof (Hle b ltac:(by left)) as Hbb. split.
    + apply elem_of_cons in Hin as [Hin|Hin]; [|by do 2 right]. rewrite Hin.
      destruct Hb as [->| ->]; [by left|by right; left].
    + intros e' [->|[->|He]%elem_of_cons]%elem_of_cons; [lia|lia|]. apply Hle. by right.
Qed.
Lemma select_latest_None l : select_latest l = None -> l = [].
Proof. by destruct l. Qed.

(** The strictly newest record of a key is what the query selects. *)
Lemma get_latest_newest m k a r : m !! (a, k) = Some r ->
  (forall a' r', a' <> a -> m !! (a', k) = Some r' -> r_ts r' < r_ts r) ->
  get_latest m k = if rec_empty r then None else Some (a, r).
Proof.
  intros Hm Hn. unfold get_latest. destruct (select_latest (entries_at m k)) as [[a' r']|] eqn:E.
  - apply select_latest_Some in E as [Hin Hle]. apply elem_of_entries_at in Hin.
    pose proof (Hle (a, r) (proj2 (elem_of_entries_at _ _ _ _) Hm)) as Hts. cbn in Hts.
    destruct (decide (a' = a)) as [->|Hne]; [|specialize (Hn _ _ Hne Hin); lia].
    rewrite Hm in Hin. injection Hin as <-. done.
  - apply select_latest_None in E. apply elem_of_entries_at in Hm. rewrite E in Hm. by apply elem_of_nil in Hm.
Qed.
Lemma get_latest_Some m k a r : get_latest m k = Some (a, r) -> m !! (a, k) = Some r /\ rec_empty r = false.
Proof.
  unfold get_latest. destruct (select_latest _) as [[a' r']|] eqn:E; [|done]. cbn.
  destruct (rec_empty r') eqn:Er; [done|]. intros [= <- <-]. apply select_latest_Some in E as [Hin _].
  by apply elem_of_entries_at in Hin.
Qed.

Lemma elem_of_get_prefix m p a k r :
  ((a, k), r) ∈ get_prefix m p <-> m !! (a, k) = Some r /\ starts_with p k = true /\ rec_empty r = false.
Proof.
  unfold get_prefix. rewrite list_elem_of_filter, merge_sort_Permutation, elem_of_map_to_list. cbn.
  rewrite andb_true_iff, negb_true_iff. naive_solver.
Qed.

Lemma StronglySorted_filter {A} (R : relation A) (P : A -> Prop) `{!forall x, Decision (P x)} l :
  StronglySorted R l -> StronglySorted R (base.filter P l).
Proof.
  induction 1 as [|x l Hs IH Hx]; [constructor|]. rewrite filter_cons. case_decide; [|done].
  constructor; [done|]. apply Forall_forall. intros y [_ Hy]%list_elem_of_filter. rewrite Forall_forall in Hx. by apply Hx.
Qed.
Lemma NoDup_omap_inj {A B} (f : A -> option B) l :
  (forall x y z, f x = Some z -> f y = Some z -> x = y) -> NoDup l -> NoDup (omap f l).
Proof.
  intros Hf. induction 1 as [|x l Hx Hl IH]; [constructor|]. cbn. destruct (f x) as [z|] eqn:E; [|done].
  constructor; [|done]. intros (y & Hy & Ey)%list_elem_of_omap. rewrite (Hf x y z) in Hx; done.
Qed.

(** Queries see only the records they select. *)
Lemma get_latest_ext m m' k : (forall a, m !! (a, k) = m' !! (a, k)) -> get_latest m k = get_latest m' k.
Proof.
  intros Hm. unfold get_latest. enough (entries_at m k = entries_at m' k) as -> by done.
  unfold entries_at. eapply StronglySorted_unique_strong; [|apply (StronglySorted_merge_sort author_le)..|].
  - intros [a r] [a' r'] Hx Hy Hle Hle'. assert (a = a') as -> by (by apply lex_leb_antisym).
    fold (entries_at m k) in Hx. fold (entries_at m' k) in Hy.
    apply elem_of_entries_at in Hx. apply elem_of_entries_at in Hy. rewrite Hm in Hx. congruence.
  - assert (forall n, NoDup (entries_at n k)) as Hnd.
    { intros n. unfold entries_at. rewrite merge_sort_Permutation. apply NoDup_omap_inj; [|apply NoDup_map_to_list].
      intros [[a1 k1] r1] [[a2 k2] r2] [a r]. cbn. repeat case_bool_decide; try done. congruence. }
    apply NoDup_Permutation; [apply Hnd..|]. intros [a r].
    by rewrite (elem_of_entries_at m k), (elem_of_entries_at m' k), Hm.
Qed.

Lemma filter_get_prefix_ext (P : (AuthorId * string) * Rec -> Prop) `{!forall x, Decision (P x)} m m' p :
  (forall a k r, P ((a, k), r) -> starts_with p k = true -> rec_empty r = false ->
     m !! (a, k) = Some r <-> m' !! (a, k) = Some r) ->
  base.filter P (get_prefix m p) = base.filter P (get_prefix m' p).
Proof.
  intros Hm.
  assert (forall n, StronglySorted entry_le (base.filter P (get_prefix n p))) as Hs.
  { intros n. unfold get_prefix. do 2 apply StronglySorted_filter. apply (StronglySorted_merge_sort entry_le). }
  assert (forall n, NoDup (base.filter P (get_prefix n p))) as Hnd.
  { intros n. unfold get_prefix. do 2 apply NoDup_filter. rewrite merge_sort_Permutation. apply NoDup_map_to_list. }
  assert (forall x, x ∈ base.filter P (get_prefix m p) <-> x ∈ base.filter P (get_prefix m' p)) as Hin.
  { intros [[a k] r]. rewrite !list_elem_of_filter, !elem_of_get_prefix. naive_solver. }
  eapply StronglySorted_unique_strong; [|apply Hs..|by apply NoDup_Permutation].
  intros [[a k] r] [[a' k'] r'] Hx Hy Hle Hle'. pose proof (entry_le_antisym _ _ Hle Hle') as E. cbn in E.
  injection E as -> ->. apply Hin in Hx. apply list_elem_of_filter in Hx as [_ Hx], Hy as [_ Hy].
  apply elem_of_get_prefix in Hx as [Hx _], Hy as [Hy _]. congruence.
Qed.
