(* ===== verification/Acl.v ===== *)
(** * Acl: role-derived reach and capabilities (hop-core/src/vpn/acl.rs, vpn/cedar.rs)

    The capability ladder a host applies to session requests, and the reach
    engine that compiles the same role semantics to a Cedar policy over entities.
    The Cedar evaluator is a crate: its parser, entity store and authorizer are an
    interface, and what the code relies on (the meaning of the one generated
    policy, default deny, distinct entities are accepted) are its laws.  The
    session gate is the one of hop-cli/src/main.rs; the packet gate is netdoc's. *)
From S2P Require Import Prelude Addr Text Policy Config Invite Auth.
From Stdlib Require Import Ascii.
Local Open Scope Z_scope.

Inductive UserMode := Individual | SharedUser.
(** The capability grants are opaque JSON the host never inspects. *)
Record RoleDefinition := {
  rd_name : string;
  host_tags : list string;
  user_mode : UserMode;
  sudo : bool;
  admin : bool;
  groups : list string;
  shell : option string;
  network_only : bool;
  rd_sandbox : SandboxPolicy;
  capabilities : list (string * list string);
  exec_tags : list string;
  search_tags : list string;
}.

(** ** The ladder *)
Definition role_reaches (role_tags tags : list string) : bool :=
  if existsb (fun t => bool_decide (t = "*"%string)) role_tags then true
  else existsb (fun rt => existsb (fun ht => bool_decide (ht = rt)) tags) role_tags.

Inductive Action := Search | Exec.

Definition capability_allowed (r : RoleDefinition) (a : Action) (tags : list string) (require_explicit : bool) : bool :=
  if admin r then true else
  let exec_ok := negb (network_only r) &&
                 (if is_empty (exec_tags r) then negb require_explicit else role_reaches (exec_tags r) tags) in
  match a with
  | Exec => exec_ok
  | Search => exec_ok || (negb (is_empty (search_tags r)) && role_reaches (search_tags r) tags)
  end.

(** ** The session gate *)
Definition peer_role_def (peers : PeersStore) (roles : list RoleDefinition) (peer : string) : option RoleDefinition :=
  name ← find (fun p => bool_decide (node_id p = peer)) peers ≫= role_name;
  find (fun r => bool_decide (rd_name r = name)) roles.

Definition session_action (msg : option ClientMessage) (peer_sb : SandboxPolicy) : Action :=
  let ro := match msg with
            | Some (RequestExec _) | Some RequestShell | Some (RequestShellV2 _) => read_only peer_sb
            | Some (RequestExecV2 _ sb) | Some (RequestShellV3 _ sb) => read_only (merge_stricter peer_sb sb)
            | _ => false
            end in
  if ro then Search else Exec.

(** Whether the gate refuses (the caller then rejects and audits). *)
Definition session_capability_denied (peers : PeersStore) (roles : list RoleDefinition) (tags : list string)
    (require_explicit : bool) (peer : string) (a : Action) : bool :=
  negb match peer_role_def peers roles peer with
       | Some r => capability_allowed r a tags require_explicit
       | None => negb require_explicit
       end.

(** ** Entities *)
Inductive json := JStr (s : string) | JBool (b : bool) | JArr (l : list string).
Record EntityJson := {
  uid : string * string;
  attrs : gmap string json;
  parents : list (string * string);
}.
Definition autogroup (id : string) : EntityJson := {| uid := ("Autogroup", id)%string; attrs := ∅; parents := [] |}.

(** The role set as the [HashMap] collected from it: the last definition of a name stays. *)
Definition role_by_name (roles : list RoleDefinition) : gmap string RoleDefinition :=
  foldl (fun m r => <[rd_name r := r]> m) ∅ roles.

(** A peer's role flattened: reach tags, wildcard, admin. *)
Definition flatten_role (roles : gmap string RoleDefinition) (p : Peer) : list string * bool * bool :=
  match role_name p with
  | Some name => match roles !! name with
                 | Some r => (host_tags r, existsb (fun t => bool_decide (t = "*"%string)) (host_tags r), admin r)
                 | None => (["*"%string], true, false)
                 end
  | None => ([], false, false)
  end.

Definition peer_entity (roles : gmap string RoleDefinition) (posture : gmap string (gmap string string)) (p : Peer)
    : EntityJson :=
  let '(tags, wildcard, adm) := flatten_role roles p in
  let base : gmap string json :=
    <["admin" := JBool adm]> (<["wildcard" := JBool wildcard]> (<["reach_tags" := JArr tags]> ∅))%string in
  {| uid := ("Peer"%string, node_id p);
     attrs := match posture !! node_id p with Some post => (JStr <$> post) ∪ base | None => base end;
     parents := (("Autogroup", "members") :: if adm then [("Autogroup", "admin")] else [])%string |}.
Definition host_entity (h : string * list string) : EntityJson :=
  {| uid := ("Host"%string, h.1); attrs := {["tags"%string := JArr h.2]}; parents := [] |}.

(** ** The Cedar crate *)
Class Cedar := {
  PolicySet : Type;
  Entities : Type;
  parse_policies : string -> option PolicySet;
  entities_from_json : list EntityJson -> option Entities;
  parse_uid : string -> option (string * string);
  is_authorized : (string * string) -> (string * string) -> (string * string) -> option Z ->
                  PolicySet -> Entities -> bool;
}.

Definition nl : string := String (chr 10) EmptyString.
Definition quote : string := String (chr 34) EmptyString.
Definition DEFAULT_REACH_POLICY : string :=
  (nl +:+ "permit ( principal, action == Action::" +:+ quote +:+ "connect" +:+ quote +:+ ", resource )" +:+ nl +:+
   "when { principal.wildcard || principal.reach_tags.containsAny(resource.tags) };" +:+ nl)%string.

Section Engine.
Context `{!Cedar}.

Definition validate_policy (authored : string) : bool :=
  match parse_policies ((DEFAULT_REACH_POLICY +:+ nl) +:+ authored)%string with Some _ => true | None => false end.

Record AclEngine := {
  policies : PolicySet;
  entities : Entities;
  peer_ids : gset string;
  reach_by_node : gmap string (list string);
}.

(** [hosts] is the tag map in the order it iterates. *)
Definition acl_build (peers : list Peer) (roles : list RoleDefinition) (hosts : list (string * list string))
    (posture : gmap string (gmap string string)) (authored : option string) : option AclEngine :=
  let by_name := role_by_name roles in
  let reach := foldl (fun m p => <[node_id p := (flatten_role by_name p).1.1]> m) ∅ peers in
  let ents := [autogroup "members"; autogroup "admin"]%string ++ map (peer_entity by_name posture) peers
              ++ map host_entity hosts in
  es ← entities_from_json ents;
  let text := match authored with
              | Some extra => ((DEFAULT_REACH_POLICY +:+ nl) +:+ extra)%string
              | None => DEFAULT_REACH_POLICY
              end in
  ps ← parse_policies text;
  Some {| policies := ps; entities := es; peer_ids := list_to_set (map node_id peers); reach_by_node := reach |}.

Definition reaches_tags (e : AclEngine) (node : string) (tags : list string) : bool :=
  match reach_by_node e !! node with Some reach => role_reaches reach tags | None => false end.
Definition knows_peer (e : AclEngine) (node : string) : bool := bool_decide (node ∈ peer_ids e).

Definition request (src dst : string) : option ((string * string) * (string * string) * (string * string)) :=
  principal ← parse_uid ("Peer::" +:+ quote +:+ src +:+ quote)%string;
  action ← parse_uid ("Action::" +:+ quote +:+ "connect" +:+ quote)%string;
  resource ← parse_uid ("Host::" +:+ quote +:+ dst +:+ quote)%string;
  Some (principal, action, resource).
Definition is_reach_allowed (e : AclEngine) (src dst : string) (port : option Z) : bool :=
  match request src dst with
  | Some (p, a, r) => is_authorized p a r port (policies e) (entities e)
  | None => false
  end.

(** ** The packet gate (netdoc): owners of the two addresses, then the engine.
    The result also says whether a refresh of the owner cache was requested. *)
Definition vpn_reach_allowed (owners : gmap Ipv4Addr string) (engine : option AclEngine)
    (src_ip dst_ip : Ipv4Addr) (port : option Z) : bool * bool :=
  match owners !! src_ip, owners !! dst_ip with
  | Some src, Some dst =>
      match engine with
      | Some e => (if negb (knows_peer e src) then true else is_reach_allowed e src dst port, false)
      | None => (false, false)
      end
  | _, _ => (true, true)
  end.
End Engine.

(** ** What the code relies on

    An id without quotes or backslashes is a uid literal's text. *)
Definition plain_id (s : string) : bool := no_char (chr 34) s && no_char (chr 92) s.

(** The generated policy's [when] clause on two attribute records: an attribute
    that is missing or has another type is an evaluation error. *)
Definition default_when (p r : gmap string json) : option bool :=
  match p !! "wildcard"%string with
  | Some (JBool true) => Some true
  | Some (JBool false) =>
      match p !! "reach_tags"%string, r !! "tags"%string with
      | Some (JArr a), Some (JArr b) => Some (existsb (fun x => existsb (fun y => bool_decide (y = x)) b) a)
      | _, _ => None
      end
  | _ => None
  end.
Definition attrs_of (l : list EntityJson) (u : string * string) : gmap string json :=
  match find (fun e => bool_decide (uid e = u)) l with Some e => attrs e | None => ∅ end.

Class CedarLaws `{!Cedar} := {
  parse_uid_plain ty id : ty ∈ ["Peer"; "Host"; "Action"]%string -> plain_id id = true ->
    parse_uid (ty +:+ "::" +:+ quote +:+ id +:+ quote)%string = Some (ty, id);
  distinct_entities_accepted l : NoDup (map uid l) -> exists es, entities_from_json l = Some es;
  default_policy_parses : exists ps, parse_policies DEFAULT_REACH_POLICY = Some ps;
  default_policy_decides ps l es pr re port :
    parse_policies DEFAULT_REACH_POLICY = Some ps -> entities_from_json l = Some es -> NoDup (map uid l) ->
    is_authorized pr ("Action", "connect")%string re port ps es =
      bool_decide (default_when (attrs_of l pr) (attrs_of l re) = Some true);
}.

(** ** Lemmas *)
Lemma role_reaches_spec role tags : role_reaches role tags = true <->
  "*"%string ∈ role \/ exists t, t ∈ role /\ t ∈ tags.
Proof.
  unfold role_reaches. destruct (existsb _ role) eqn:E.
  - split; [intros _; left|done]. apply existsb_exists in E as (t & Ht & Hb). apply bool_decide_eq_true in Hb as ->.
    by apply list_elem_of_In.
  - rewrite existsb_exists. split.
    + intros (t & Ht & Hh). apply existsb_exists in Hh as (u & Hu & Hb). apply bool_decide_eq_true in Hb as ->.
      right. exists t. by rewrite !list_elem_of_In.
    + intros [Hs|(t & Ht & Hh)].
      * assert (existsb (fun t => bool_decide (t = "*"%string)) role = true) as E'; [|congruence].
        apply existsb_exists. exists "*"%string. rewrite <-list_elem_of_In. by rewrite bool_decide_eq_true.
      * exists t. rewrite <-list_elem_of_In. split; [done|]. apply existsb_exists. exists t.
        rewrite <-list_elem_of_In. by rewrite bool_decide_eq_true.
Qed.

Lemma attrs_of_elem l e : NoDup (map uid l) -> e ∈ l -> attrs_of l (uid e) = attrs e.
Proof.
  intros Hd He. unfold attrs_of. destruct (find _ l) as [e'|] eqn:E.
  - apply find_some in E as [Hin Hb%bool_decide_eq_true]. f_equal.
    eapply (NoDup_map_inj uid l); [done|by apply list_elem_of_In|done|done].
  - apply list_elem_of_In in He. pose proof (List.find_none _ _ E _ He) as Hb. by apply bool_decide_eq_false in Hb.
Qed.
Lemma attrs_of_absent l u : u ∉ map uid l -> attrs_of l u = ∅.
Proof.
  intros Hn. unfold attrs_of. destruct (find _ l) as [e|] eqn:E; [|done].
  apply find_some in E as [Hin Hb%bool_decide_eq_true]. destruct Hn. subst u.
  by apply list_elem_of_fmap_2, list_elem_of_In.
Qed.

Definition entity_list (roles : list RoleDefinition) (posture : gmap string (gmap string string)) (peers : list Peer)
    (hosts : list (string * list string)) : list EntityJson :=
  [autogroup "members"; autogroup "admin"]%string ++ map (peer_entity (role_by_name roles) posture) peers
  ++ map host_entity hosts.

Lemma uid_peer_entity roles posture p : uid (peer_entity roles posture p) = ("Peer"%string, node_id p).
Proof. unfold peer_entity. by destruct (flatten_role roles p) as [[? ?] ?]. Qed.
Lemma entity_list_uids roles posture peers hosts : map uid (entity_list roles posture peers hosts) =
  [("Autogroup", "members"); ("Autogroup", "admin")]%string ++ map (pair "Peer"%string) (map node_id peers)
  ++ map (pair "Host"%string) hosts.*1.
Proof.
  unfold entity_list. rewrite !map_app. f_equal. f_equal; rewrite !map_map; [|done].
  apply map_ext. intros p. apply uid_peer_entity.
Qed.
Lemma entity_list_distinct roles posture peers hosts : NoDup (map node_id peers) -> NoDup hosts.*1 ->
  NoDup (map uid (entity_list roles posture peers hosts)).
Proof.
  intros Hp Hh. rewrite entity_list_uids.
  apply NoDup_app. split; [|split].
  - repeat (apply NoDup_cons; split; [set_solver|]). apply NoDup_nil_2.
  - intros u Hu [Hi|Hi]%elem_of_app; apply list_elem_of_fmap in Hi as (x & -> & _);
      rewrite !elem_of_cons in Hu; destruct Hu as [[=]|[[=]|Hu]]; by apply elem_of_nil in Hu.
  - apply NoDup_app. split; [|split].
    + apply NoDup_fmap_2; [intros ? ? [=]; done|done].
    + intros u (x & -> & _)%list_elem_of_fmap (y & [=] & _)%list_elem_of_fmap.
    + apply NoDup_fmap_2; [intros ? ? [=]; done|done].
Qed.

Lemma flatten_wildcard roles p : (flatten_role roles p).1.2 =
  existsb (fun t => bool_decide (t = "*"%string)) (flatten_role roles p).1.1.
Proof. unfold flatten_role. by destruct (role_name p); [case_match|]. Qed.

(** The attributes the default policy reads are the role's, when the peer's
    posture report does not use their names. *)
Definition posture_clean (posture : gmap string (gmap string string)) (node : string) : Prop :=
  forall post, posture !! node = Some post -> post !! "wildcard"%string = None /\ post !! "reach_tags"%string = None.

Lemma peer_entity_attrs roles posture p : posture_clean posture (node_id p) ->
  attrs (peer_entity roles posture p) !! "wildcard"%string = Some (JBool (flatten_role roles p).1.2) /\
  attrs (peer_entity roles posture p) !! "reach_tags"%string = Some (JArr (flatten_role roles p).1.1).
Proof.
  intros Hc. unfold peer_entity. destruct (flatten_role roles p) as [[tags w] adm]. cbn.
  destruct (posture !! node_id p) as [post|] eqn:E; [|by split].
  destruct (Hc post E) as [H1 H2]. split; rewrite lookup_union_r by (by rewrite lookup_fmap, ?H1, ?H2); done.
Qed.

Lemma default_when_role_reaches roles posture p tags : posture_clean posture (node_id p) ->
  bool_decide (default_when (attrs (peer_entity roles posture p)) {["tags"%string := JArr tags]} = Some true) =
  role_reaches (flatten_role roles p).1.1 tags.
Proof.
  intros Hc. destruct (peer_entity_attrs roles posture p Hc) as [Hw Ht]. unfold default_when.
  rewrite Hw, Ht, lookup_singleton_eq, flatten_wildcard. unfold role_reaches.
  destruct (existsb _ (flatten_role roles p).1.1); [by rewrite bool_decide_eq_true_2|].
  destruct (existsb _ _) eqn:E; [by rewrite bool_decide_eq_true_2|]. by rewrite bool_decide_eq_false_2.
Qed.

Lemma foldl_insert_lookup {A B} (k : A -> string) (v : A -> B) l (m : gmap string B) x :
  NoDup (map k l) -> x ∈ l -> foldl (fun m y => <[k y := v y]> m) m l !! k x = Some (v x).
Proof.
  revert m. induction l as [|a l IH]; intros m; [by intros _ ?%elem_of_nil|]. cbn.
  intros [Hn Hd]%NoDup_cons [->|Hx]%elem_of_cons; [|by apply IH].
  clear IH. assert (forall m : gmap string B, m !! k a = Some (v a) -> foldl (fun m y => <[k y := v y]> m) m l !! k a = Some (v a)) as H.
  { induction l as [|b l IH]; intros m' Hm; [done|]. cbn in *. apply NoDup_cons in Hd as [_ Hd]. apply IH; [set_solver|done|].
    rewrite lookup_insert_ne; [done|set_solver]. }
  apply H, lookup_insert_eq.
Qed.

Section Parity.
Context `{!Cedar} `{!CedarLaws}.

Lemma acl_build_default peers roles hosts posture : NoDup (map node_id peers) -> NoDup hosts.*1 ->
  exists e es ps, acl_build peers roles hosts posture None = Some e /\ policies e = ps /\ entities e = es /\
    parse_policies DEFAULT_REACH_POLICY = Some ps /\
    entities_from_json (entity_list roles posture peers hosts) = Some es /\
    peer_ids e = list_to_set (map node_id peers) /\
    reach_by_node e = foldl (fun m p => <[node_id p := (flatten_role (role_by_name roles) p).1.1]> m) ∅ peers.
Proof.
  intros Hp Hh.
  destruct (distinct_entities_accepted (entity_list roles posture peers hosts)) as [es Hes];
    [by apply entity_list_distinct|].
  destruct default_policy_parses as [ps Hps].
  unfold acl_build. unfold entity_list in Hes. cbv zeta. rewrite Hes. cbn [mbind option_bind].
  rewrite Hps. cbn [mbind option_bind]. eexists _, es, ps. done.
Qed.

Lemma request_plain src dst : plain_id src = true -> plain_id dst = true ->
  request src dst = Some (("Peer", src), ("Action", "connect"), ("Host", dst))%string.
Proof.
  intros Hs Hd. unfold request.
  pose proof (parse_uid_plain "Peer" src ltac:(set_solver) Hs
    : parse_uid ("Peer::" +:+ quote +:+ src +:+ quote)%string = _) as ->. cbn [mbind option_bind].
  pose proof (parse_uid_plain "Action" "connect" ltac:(set_solver) ltac:(done)
    : parse_uid ("Action::" +:+ quote +:+ "connect" +:+ quote)%string = _) as ->. cbn [mbind option_bind].
  by pose proof (parse_uid_plain "Host" dst ltac:(set_solver) Hd
    : parse_uid ("Host::" +:+ quote +:+ dst +:+ quote)%string = _) as ->.
Qed.
End Parity.

(** A Cedar restricted to the generated policy. *)
Definition demo_parse_uid (s : string) : option (string * string) :=
  '(ty, rest) ← head (omap (fun ty => pair ty <$> strip_prefix (ty +:+ "::" +:+ quote) s) ["Peer"; "Host"; "Action"]%string);
  pair ty <$> strip_suffix quote rest.
Definition demo_cedar : Cedar := {|
  PolicySet := unit;
  Entities := list EntityJson;
  parse_policies := fun s => if decide (s = DEFAULT_REACH_POLICY) then Some tt else None;
  entities_from_json := fun l => if decide (NoDup (map uid l)) then Some l else None;
  parse_uid := demo_parse_uid;
  is_authorized := fun p _ r _ _ l => bool_decide (default_when (attrs_of l p) (attrs_of l r) = Some true) |}.
Lemma demo_cedar_laws : CedarLaws (H := demo_cedar).
Proof.
  constructor.
  - intros ty id Hty _. cbn. unfold demo_parse_uid.
    assert (strip_prefix (ty +:+ "::" +:+ quote) (ty +:+ "::" +:+ quote +:+ id +:+ quote)%string
      = Some (id +:+ quote)%string) as E by (apply strip_prefix_spec; by rewrite !sapp_assoc).
    assert (strip_suffix quote (id +:+ quote)%string = Some id) as E' by (by apply strip_suffix_spec).
    rewrite !elem_of_cons in Hty. destruct Hty as [->|[->|[->|Hty]]]; [..|by apply elem_of_nil in Hty];
      cbn [omap list_omap] in *; rewrite ?E;
      repeat match goal with |- context [strip_prefix ?p ?s] => change (strip_prefix p s) with (@None string) end;
      cbn [mbind option_bind fmap option_fmap option_map head]; rewrite ?E; by rewrite E'.
  - intros l Hl. exists l. cbn. by rewrite decide_True.
  - exists tt. cbn. by rewrite decide_True.
  - intros [] l es pr re port _ Hes _. cbn in *. case_decide; [|done]. by injection Hes as <-.
Qed.

(** ** The gates *)

(** Parity with the oracle: the engine built from a membership snapshot (distinct peers and hosts,
    no authored policy) decides a known peer's reach to a known host exactly as [role_reaches] decides it
    on the peer's flattened role tags, as the tag query does; a peer it does not know reaches nothing. *)
Theorem cedar_matches_role_reaches `{!Cedar} `{!CedarLaws} peers roles hosts posture p dst tags port :
  NoDup (map node_id peers) -> NoDup hosts.*1 -> p ∈ peers -> (dst, tags) ∈ hosts ->
  plain_id (node_id p) = true -> plain_id dst = true -> posture_clean posture (node_id p) ->
  exists e, acl_build peers roles hosts posture None = Some e /\
    is_reach_allowed e (node_id p) dst port = role_reaches (flatten_role (role_by_name roles) p).1.1 tags /\
    reaches_tags e (node_id p) tags = role_reaches (flatten_role (role_by_name roles) p).1.1 tags /\
    knows_peer e (node_id p) = true /\
    (forall ghost, plain_id ghost = true -> ghost ∉ map node_id peers ->
       is_reach_allowed e ghost dst port = false /\ knows_peer e ghost = false).
Proof.
  intros Hp Hh Hin Hd Hs Hpd Hc.
  destruct (acl_build_default peers roles hosts posture Hp Hh) as (e & es & ps & He & Hps & Hes & Eps & Ees & Hids & Hr).
  pose proof (entity_list_distinct roles posture peers hosts Hp Hh) as Hnd.
  exists e. split; [done|].
  assert (attrs_of (entity_list roles posture peers hosts) ("Host", dst)%string = {["tags"%string := JArr tags]}) as Hhost.
  { apply (attrs_of_elem _ (host_entity (dst, tags)) Hnd). unfold entity_list. rewrite !elem_of_app. right. right.
    by apply (list_elem_of_fmap_2 host_entity). }
  split_and!.
  - unfold is_reach_allowed. rewrite request_plain by done. rewrite Hps, Hes.
    rewrite (default_policy_decides _ _ _ _ _ _ Eps Ees Hnd), Hhost.
    rewrite <-(uid_peer_entity (role_by_name roles) posture p), attrs_of_elem; [by apply default_when_role_reaches|done|].
    unfold entity_list. rewrite !elem_of_app. right. left. by apply list_elem_of_fmap_2.
  - unfold reaches_tags. rewrite Hr.
    by rewrite (foldl_insert_lookup node_id (fun p => (flatten_role (role_by_name roles) p).1.1) peers ∅ p Hp Hin).
  - unfold knows_peer. rewrite Hids. apply bool_decide_eq_true, elem_of_list_to_set. by apply list_elem_of_fmap_2.
  - intros ghost Hg Hn. split.
    + unfold is_reach_allowed. rewrite request_plain by done. rewrite Hps, Hes.
      rewrite (default_policy_decides _ _ _ _ _ _ Eps Ees Hnd), attrs_of_absent; [done|].
      rewrite entity_list_uids. rewrite !elem_of_app, !elem_of_cons, elem_of_nil.
      intros [[[=]|[[=]|[]]]|[(x & [= <-] & Hx)%list_elem_of_fmap|(x & [=] & _)%list_elem_of_fmap]]. done.
    + unfold knows_peer. rewrite Hids. apply bool_decide_eq_false. by rewrite elem_of_list_to_set.
Qed.

Definition demo_role (n : string) (tags : list string) : RoleDefinition :=
  {| rd_name := n; host_tags := tags; user_mode := Individual; sudo := false; admin := false; groups := [];
     shell := None; network_only := false; rd_sandbox := unrestricted; capabilities := []; exec_tags := [];
     search_tags := [] |}.
Definition demo_member (n r : string) : Peer :=
  {| node_id := n; name := n; authorized_at := "0"; last_seen := None; username := None; role := RolePeer;
     role_name := Some r; netdoc_author := None; self_doc := None; vip := None; vpn_endpoint := None;
     site_id := None; sandbox := unrestricted |}%string.

Lemma cedar_matches_role_reaches_witness :
  exists e, acl_build (H := demo_cedar) [demo_member "dev" "developer"] [demo_role "developer" ["staging"]]
    [("web", ["staging"])]%string ∅ None = Some e /\ is_reach_allowed (H := demo_cedar) e "dev" "web" None = true.
Proof.
  pose proof demo_cedar_laws as L.
  destruct (cedar_matches_role_reaches (H := demo_cedar) (H0 := L) [demo_member "dev" "developer"]%string
    [demo_role "developer" ["staging"]]%string [("web", ["staging"])]%string ∅ (demo_member "dev" "developer") "web"
    ["staging"]%string None) as (e & He & Hr & _).
  - apply NoDup_singleton.
  - apply NoDup_singleton.
  - by left.
  - by left.
  - done.
  - done.
  - by intros post ?%lookup_empty_Some.
  - exists e. split; [exact He|]. etrans; [exact Hr|]. by vm_compute.
Defined.

Lemma capability_exec_spec r tags lk : capability_allowed r Exec tags lk = true <->
  admin r = true \/
  network_only r = false /\ (if is_empty (exec_tags r) then lk = false else role_reaches (exec_tags r) tags = true).
Proof.
  unfold capability_allowed. destruct (admin r), (network_only r), (is_empty (exec_tags r)), lk; cbn; naive_solver.
Qed.
Lemma capability_search_spec r tags lk : capability_allowed r Search tags lk = true <->
  capability_allowed r Exec tags lk = true \/ role_reaches (search_tags r) tags = true.
Proof.
  unfold capability_allowed. destruct (admin r); [naive_solver|].
  rewrite orb_true_iff, andb_true_iff. destruct (search_tags r); cbn; naive_solver.
Qed.

(** The capability ladder: an administrator is never refused; below that, executing needs a role
    that is not network-only and either an execution tag the host has (or the wildcard), or no execution
    tags on an unlocked host; searching needs that or a search tag the host has.  So executing implies
    searching, and locking a host only takes rights away. *)
Theorem capability_ladder r tags :
  (forall lk, capability_allowed r Exec tags lk = true <->
     admin r = true \/ network_only r = false /\
       (exec_tags r = [] /\ lk = false \/ "*"%string ∈ exec_tags r \/ exists t, t ∈ exec_tags r /\ t ∈ tags)) /\
  (forall lk, capability_allowed r Search tags lk = true <->
     capability_allowed r Exec tags lk = true \/ "*"%string ∈ search_tags r \/
     exists t, t ∈ search_tags r /\ t ∈ tags) /\
  (forall a, capability_allowed r a tags true = true -> capability_allowed r a tags false = true).
Proof.
  assert (forall lk, capability_allowed r Exec tags lk = true <->
     admin r = true \/ network_only r = false /\
       (exec_tags r = [] /\ lk = false \/ "*"%string ∈ exec_tags r \/ exists t, t ∈ exec_tags r /\ t ∈ tags)) as He.
  { intros lk. rewrite capability_exec_spec. destruct (exec_tags r) as [|x l] eqn:E; cbn [is_empty].
    - set_solver.
    - rewrite role_reaches_spec. naive_solver. }
  split; [done|]. split.
  - intros lk. by rewrite capability_search_spec, role_reaches_spec.
  - intros []; rewrite ?capability_search_spec, !He; naive_solver.
Qed.

(** The packet gate fails open: a packet from an address no member owns passes it, whatever the
    engine would say, and even when there is no engine; so does one from a peer the engine does not know. *)
Theorem vpn_reach_fails_open `{!Cedar} owners engine src dst port :
  (owners !! src = None -> vpn_reach_allowed owners engine src dst port = (true, true)) /\
  (forall e s d, owners !! src = Some s -> owners !! dst = Some d -> s ∉ peer_ids e ->
     vpn_reach_allowed owners (Some e) src dst port = (true, false)).
Proof.
  unfold vpn_reach_allowed. split; [by intros ->|].
  intros e s d -> -> Hn. unfold knows_peer. by rewrite bool_decide_eq_false_2.
Qed.

Lemma vpn_reach_fails_open_witness :
  vpn_reach_allowed (H := demo_cedar) ∅ None (V4 100 64 0 9) (V4 100 64 0 1) None = (true, true).
Proof. apply (vpn_reach_fails_open (H := demo_cedar)). by vm_compute. Defined.
