(* ===== verification/Dispatch.v ===== *)
(** * Dispatch: from an authorized request to a session

    The session arms of dispatch_session (hop-cli/src/main.rs): the capability
    gate, the sandbox each session is given, and the choice of
    host_shell_session_persistent (hop-core/src/shell/mod.rs) between resuming a
    registered session and spawning one.  The peer operations, administration and
    the byte pumps behind each session are not modelled here. *)
From S2P Require Import Prelude Text Policy Config Invite Auth Registry Acl.
Local Open Scope Z_scope.

(** ** Dispatch *)
Definition is_session_req (msg : option ClientMessage) : bool :=
  match msg with
  | Some RequestShell | Some (RequestShellV2 _) | Some (RequestShellV3 _ _) | Some (RequestView _)
  | Some (RequestTransfer _) | Some (RequestExec _) | Some (RequestExecV2 _ _) | Some (RequestTunnel _) => true
  | _ => false
  end.

(** Whether the daemon may serve this user: [root] is the effective uid,
    [worker] the privilege-separated worker, [exists_user] the user database. *)
Definition check_shell_security (exists_user : string -> bool) (root worker : bool) (user : option string) : bool :=
  match user with
  | None => negb root
  | Some name => match validate_username exists_user name with Ok _ => root || worker | _ => false end
  end.

(** What the host starts for a request.  The sandbox of a persistent shell is the one a new session is
    spawned under; resuming one ([open_persistent]) does not use it. *)
Inductive Served :=
| SessionDenied
| StartShell (sb : SandboxPolicy)
| StartPersistent (resume : option string) (sb : SandboxPolicy)
| StartView (sid : string) (is_admin : bool)
| StartTransfer (req : bytes) (sb : SandboxPolicy)
| StartExec (command : string) (sb : SandboxPolicy)
| StartTunnel (port : Z)
| RefusedUser
| RefusedNetwork
| OtherRequest.

Record HostState := {
  hs_peers : PeersStore;
  hs_roles : list RoleDefinition;
  hs_tags : list string;
  hs_require_explicit : bool;
  hs_root : bool;
  hs_worker : bool;
  hs_user_exists : string -> bool;
}.

Definition dispatch_session (st : HostState) (msg : option ClientMessage) (user : option string) (peer : string)
    (r : PeerRole) (sb : SandboxPolicy) : Served :=
  if is_session_req msg &&
     session_capability_denied (hs_peers st) (hs_roles st) (hs_tags st) (hs_require_explicit st) peer
       (session_action msg sb)
  then SessionDenied else
  let secure := check_shell_security (hs_user_exists st) (hs_root st) (hs_worker st) user in
  match msg with
  | Some RequestShell => StartShell sb
  | Some (RequestShellV2 sid) => StartPersistent sid sb
  | Some (RequestShellV3 sid client) => StartPersistent sid (merge_stricter sb client)
  | Some (RequestView sid) => StartView sid (bool_decide (r = RoleCreator))
  | Some (RequestTransfer req) => if secure then StartTransfer req sb else RefusedUser
  | Some (RequestExec command) => StartExec command sb
  | Some (RequestExecV2 command client) => StartExec command (merge_stricter sb client)
  | Some (RequestTunnel port) =>
      if no_network sb then RefusedNetwork else if secure then StartTunnel port else RefusedUser
  | _ => OtherRequest
  end.

(** ** Persistent shells *)

(** What spawning a PTY yields. *)
Record SpawnedPty := {
  sp_session_id : string;
  sp_input_tx : Z;
  sp_output_route : watch (option Z);
  sp_resize_tx : watch PtySize;
  sp_exit : option Z;
  sp_screen : mutex VtScreen;
  sp_child_pid : option Z;
  sp_reader_cancel : Z;
  sp_viewers : mutex (list Z);
  sp_pty_master : option Z;
}.
Definition new_session (peer : string) (user : option string) (started : Z) (client_tx : Z) (p : SpawnedPty)
    : DetachedSession :=
  {| session_id := sp_session_id p; peer_id := peer; Registry.username := user; child_pid := sp_child_pid p;
     reader_cancel := sp_reader_cancel p; input_tx := sp_input_tx p;
     output_route := watch_send (Some client_tx) (sp_output_route p);
     resize_tx := sp_resize_tx p; exit_rx := sp_exit p; detached_at := None; attached := true;
     started_unix_ms := started; pty_master := sp_pty_master p; attach_epoch := 1; broker_handle := None;
     viewers := sp_viewers p; screen := sp_screen p |}.

Record Opened := {
  op_session_id : string;
  op_resumed : bool;
  op_input_tx : Z;
  op_epoch : Z;
}.

(** [secure] is [check_shell_security]'s answer.  [spawn] runs only when there is nothing to resume; its sandbox is the one
    dispatch computed, and an error ends the request. *)
Definition open_persistent `{!Host, !HashIter} (secure : bool) (started client_tx : Z) (size : PtySize) (requested : option string)
    (peer : string) (user : option string) (sb : SandboxPolicy)
    (spawn : SandboxPolicy -> option SpawnedPty) (r : SessionRegistry)
    : rust unit (SessionRegistry * Opened * list Effect) :=
  if negb secure then Err tt else
  let fresh : rust unit (SessionRegistry * Opened * list Effect) :=
    match spawn sb with
    | None => Err tt
    | Some p =>
        '(r', eff) ← insert_session (new_session peer user started client_tx p) r;
        Ok (r', {| op_session_id := sp_session_id p; op_resumed := false; op_input_tx := sp_input_tx p;
                   op_epoch := 1 |}, eff)
    end in
  match requested with
  | Some id =>
      match do_attach id peer client_tx size r with
      | (r', Some a) => Ok (r', {| op_session_id := att_session_id a; op_resumed := true;
                                   op_input_tx := att_input_tx a; op_epoch := att_epoch a |}, [])
      | (_, None) => fresh
      end
  | None => fresh
  end.

(** ** Theorems *)

(** Only a request whose session would be read-only counts as a search. *)
Lemma session_action_search msg sb : session_action msg sb = Search ->
  match msg with
  | Some (RequestExec _) | Some RequestShell | Some (RequestShellV2 _) => read_only sb = true
  | Some (RequestExecV2 _ client) | Some (RequestShellV3 _ client) => read_only (merge_stricter sb client) = true
  | _ => False
  end.
Proof.
  unfold session_action. intros H.
  repeat match goal with |- context [match ?m with _ => _ end] => is_var m; destruct m end; try done.
  all: by destruct (read_only _).
Qed.

(** A persistent shell is spawned under the sandbox it was given, or is a live session of the peer's own
    that the request names, whatever that was started with. *)
Lemma open_persistent_kinds `{!Host, !HashIter} secure started tx size requested peer user sb spawn r r' o eff :
  open_persistent secure started tx size requested peer user sb spawn r = Ok (r', o, eff) ->
  if op_resumed o
  then exists id k d, requested = Some id /\ names r id k /\ sessions r !! k = Some d /\ peer_id d = peer /\ exit_rx d = None
  else exists p, spawn sb = Some p /\ op_session_id o = sp_session_id p.
Proof.
  unfold open_persistent. destruct secure; [|done]. cbn [negb].
  set (fresh := match spawn sb with Some p => _ | None => _ end).
  assert (fresh = Ok (r', o, eff) -> op_resumed o = false /\ exists p, spawn sb = Some p /\ op_session_id o = sp_session_id p) as Hfr.
  { unfold fresh. destruct (spawn sb) as [p|]; [|done]. intros Hi. rust_inv Hi. destruct a as [r1 e]. injection Hi as _ <- _. eauto. }
  destruct requested as [id|]; [destruct (do_attach id peer tx size r) as [r1 [a|]] eqn:E|]; [|by intros [-> ?]%Hfr..].
  intros [= _ <- _]. apply do_attach_Some in E as (k & d & Hn & Hs & Hx & Hp & _). cbn. by exists id, k, d.
Qed.

(** C38.  A peer whose role may not execute on this host is refused, or what the host newly starts for it,
    a shell or a command, is started under a sandbox that is read-only.  The one exception is a request that
    names a live session of the peer's own: it is resumed as it is, whatever it was started with. *)
Theorem no_exec_only_read_only `{!Host, !HashIter} st msg user peer r sb rd :
  peer_role_def (hs_peers st) (hs_roles st) peer = Some rd ->
  capability_allowed rd Exec (hs_tags st) (hs_require_explicit st) = false ->
  is_session_req msg = true ->
  match dispatch_session st msg user peer r sb with
  | SessionDenied => True
  | StartShell s | StartExec _ s => read_only s = true
  | StartPersistent requested s =>
      forall secure started tx size spawn reg reg' o eff,
        open_persistent secure started tx size requested peer user s spawn reg = Ok (reg', o, eff) ->
        if op_resumed o
        then exists id k d, requested = Some id /\ names reg id k /\ sessions reg !! k = Some d /\ peer_id d = peer /\ exit_rx d = None
        else read_only s = true /\ exists p, spawn s = Some p /\ op_session_id o = sp_session_id p
  | _ => False
  end.
Proof.
  intros Hr Hx Hs. unfold dispatch_session, session_capability_denied. rewrite Hs, Hr, andb_true_l.
  destruct (session_action msg sb) eqn:Ea; [|by rewrite Hx].
  destruct (negb _); [done|]. apply session_action_search in Ea.
  assert (forall requested s, read_only s = true -> forall secure started tx size spawn reg reg' o eff,
    open_persistent secure started tx size requested peer user s spawn reg = Ok (reg', o, eff) ->
    if op_resumed o
    then exists id k d, requested = Some id /\ names reg id k /\ sessions reg !! k = Some d /\ peer_id d = peer /\ exit_rx d = None
    else read_only s = true /\ exists p, spawn s = Some p /\ op_session_id o = sp_session_id p) as Hop.
  { intros requested s Hro secure started tx size spawn reg reg' o eff Ho%open_persistent_kinds. by destruct (op_resumed o). }
  destruct msg as [[]|]; try done; by apply Hop.
Qed.

Definition search_only : RoleDefinition :=
  {| rd_name := "auditor"; host_tags := []; user_mode := Individual; sudo := false; admin := false; groups := [];
     shell := None; network_only := true; rd_sandbox := unrestricted; capabilities := []; exec_tags := [];
     search_tags := ["logs"] |}%string.
Definition demo_host_state : HostState :=
  {| hs_peers := [demo_member "peer" "auditor"]%string; hs_roles := [search_only]; hs_tags := ["logs"]%string;
     hs_require_explicit := false; hs_root := false; hs_worker := false; hs_user_exists := fun _ => true |}.
Definition claimed_read_only : SandboxPolicy :=
  {| read_only := true; no_network := false; allowed_paths := []; allowed_commands := []; denied_commands := [] |}.

Lemma no_exec_only_read_only_witness :
  exists sb, dispatch_session demo_host_state (Some (RequestExecV2 "tail" claimed_read_only)) None "peer" RolePeer
    unrestricted = StartExec "tail" sb /\ read_only sb = true.
Proof.
  pose proof (no_exec_only_read_only (H := demo_host) (H0 := key_order) demo_host_state (Some (RequestExecV2 "tail" claimed_read_only)) None
    "peer" RolePeer unrestricted search_only ltac:(by vm_compute) ltac:(by vm_compute) ltac:(done)) as H.
  eexists. split; [by vm_compute|exact H].
Defined.

(** Opening a persistent shell yields a session that is the peer's: under the returned id the
    registry holds a session of this peer, attached, with the returned epoch current and output routed to
    this client; it was resumed only if a request named it and it was alive, and otherwise it is the newly
    spawned one under the sandbox dispatch computed. *)
Theorem open_persistent_owned `{!Host, !HashIter} started tx size requested peer user sb spawn r r' o eff :
  keys_ok r -> (forall k s, sessions r !! k = Some s -> w_open (output_route s) = true) ->
  (forall p, spawn sb = Some p -> w_open (sp_output_route p) = true) ->
  open_persistent true started tx size requested peer user sb spawn r = Ok (r', o, eff) ->
  (exists s, sessions r' !! op_session_id o = Some s /\ peer_id s = peer /\ attached s = true /\
     attach_epoch s = op_epoch o /\ w_val (output_route s) = Some tx /\ input_tx s = op_input_tx o) /\
  (op_resumed o = true -> exists id s, requested = Some id /\ names r id (op_session_id o) /\
     sessions r !! op_session_id o = Some s /\ peer_id s = peer /\ exit_rx s = None) /\
  (op_resumed o = false -> exists p, spawn sb = Some p /\ op_session_id o = sp_session_id p /\ op_epoch o = 1).
Proof.
  intros Hk Ho Hsp. unfold open_persistent. cbn [negb].
  set (fresh := match spawn sb with Some p => _ | None => _ end).
  assert (fresh = Ok (r', o, eff) ->
    (exists s, sessions r' !! op_session_id o = Some s /\ peer_id s = peer /\ attached s = true /\
       attach_epoch s = op_epoch o /\ w_val (output_route s) = Some tx /\ input_tx s = op_input_tx o) /\
    op_resumed o = false /\ exists p, spawn sb = Some p /\ op_session_id o = sp_session_id p /\ op_epoch o = 1) as Hfr.
  { unfold fresh. destruct (spawn sb) as [p|] eqn:Esp; [|done]. intros Hi. rust_inv Hi. destruct a as [r1 e].
    injection Hi as <- <- <-. apply insert_cases in E as (r2 & -> & _). cbn. split; [|split; [done|by exists p]].
    eexists. rewrite lookup_insert_eq. split; [done|]. cbn. unfold watch_send.
    by rewrite (Hsp p eq_refl). }
  destruct requested as [id|]; [destruct (do_attach id peer tx size r) as [r1 [a|]] eqn:E|].
  - intros [= <- <- <-]. apply do_attach_Some in E as (k & s & Hn & Hs & Hx & Hp & -> & ->). cbn.
    pose proof (Hk _ _ Hs) as Hid. subst k. split; [|split; [|done]].
    + rewrite lookup_insert_eq. eexists. split; [done|]. cbn. unfold watch_send. by rewrite (Ho _ _ Hs).
    + intros _. by exists id, s.
  - intros (H1 & H2 & H3)%Hfr. split; [done|]. split; [congruence|done].
  - intros (H1 & H2 & H3)%Hfr. split; [done|]. split; [congruence|done].
Qed.

Lemma open_persistent_owned_witness :
  exists r' o eff, open_persistent (H := demo_host) (H0 := key_order) true 0 7 (Build_PtySize 24 80 0 0)
    (Some "0011"%string) "peer" None unrestricted (fun _ => None) (registry_of 60 4 [first_session]) = Ok (r', o, eff) /\
  exists s, sessions r' !! op_session_id o = Some s /\ peer_id s = "peer"%string.
Proof.
  eexists _, _, _. split; [by vm_compute|].
  destruct (open_persistent_owned (H := demo_host) (H0 := key_order) 0 7 (Build_PtySize 24 80 0 0) (Some "0011"%string)
    "peer" None unrestricted (fun _ => None) (registry_of 60 4 [first_session]) _ _ _
    ltac:(intros k s; unfold registry_of; cbn; rewrite lookup_insert_Some, lookup_empty; naive_solver)
    ltac:(intros k s; unfold registry_of; cbn; rewrite lookup_insert_Some, lookup_empty; intros [[_ <-]|[_ ?]]; done)
    ltac:(done) ltac:(by vm_compute)) as ((s & Hs & Hp & _) & _).
  exists s. split; [exact Hs|exact Hp].
Defined.

(** Resuming ignores the sandbox the gate judged: a peer whose role grants searching only, and who
    owns a live session from before, passes the gate by claiming a read-only sandbox, and is handed that
    session's input channel, whatever it was started with; nothing is spawned under the claimed sandbox. *)
Theorem resume_escapes_gate `{!Host, !HashIter} :
  capability_allowed search_only Exec (hs_tags demo_host_state) (hs_require_explicit demo_host_state) = false /\
  dispatch_session demo_host_state (Some (RequestShellV3 (Some "0011223344556677"%string) claimed_read_only)) None
    "peer" RolePeer unrestricted = StartPersistent (Some "0011223344556677"%string) claimed_read_only /\
  forall spawn size, exists r' o,
    open_persistent true 0 7 size (Some "0011223344556677"%string) "peer" None claimed_read_only spawn
      (registry_of 60 4 [first_session]) = Ok (r', o, []) /\
    op_resumed o = true /\ op_input_tx o = input_tx first_session.
Proof.
  split; [done|]. split; [by vm_compute|]. intros spawn size. unfold open_persistent. cbn [negb].
  set (r := registry_of 60 4 [first_session]).
  assert (sessions r !! "0011223344556677"%string = Some first_session) as Hs by (by vm_compute).
  pose proof (proj2 (do_attach_Some "0011223344556677" "peer" 7 size r _ _)
    (ex_intro _ "0011223344556677"%string (ex_intro _ first_session
       (conj (conj (ex_intro _ _ Hs) (or_introl eq_refl)) (conj Hs (conj eq_refl (conj eq_refl (conj eq_refl eq_refl)))))))) as ->.
  by eexists _, _.
Qed.
