(* ===== verification/Netdoc.v ===== *)
(** * Netdoc: the network document (hop-core/src/netdoc/mod.rs)

    Membership, roles, revocations and address allocations over the replicated
    store, with the author validation that decides which records are honored.
    A document is one node's replica with its trust state; every write reads the
    system clock, so timestamps are a stream indexed by the number of writes.
    The observed-author map only feeds warnings and is left out; so are the
    member self-documents, whose reads are other nodes' replicas. *)
From S2P Require Import Prelude Addr Text Vpn Policy Config DocStore Acl.
From Stdlib Require Import Ascii.
Local Open Scope Z_scope.

Inductive ValidationMode := Off | Observe | Enforce.
#[export] Instance ValidationMode_eq_dec : EqDecision ValidationMode.
Proof. solve_decision. Defined.

Record Revocation := { rev_node_id : string; rev_reason : string; revoked_at : string }.

(** serde_json on the record types, lossy decoding, and sha2. *)
Class DocCrates := {
  peer_json : Peer -> string;
  parse_peer : string -> option Peer;
  peer_json_roundtrip p : parse_peer (peer_json p) = Some p;
  peer_json_nonempty p : peer_json p <> EmptyString;
  role_json : RoleDefinition -> string;
  parse_role : string -> option RoleDefinition;
  role_json_roundtrip r : parse_role (role_json r) = Some r;
  role_json_nonempty r : role_json r <> EmptyString;
  revocation_json : Revocation -> string;
  revocation_json_nonempty r : revocation_json r <> EmptyString;
  utf8_lossy : string -> string;
  utf8_lossy_valid s : utf8_valid (str_bytes s) = true -> utf8_lossy s = s;
  doc_sha256 : bytes -> bytes;
  doc_sha256_len b : length (doc_sha256 b) = 32%nat;
  doc_sha256_bytes b : is_bytes (doc_sha256 b);
}.

(** The system clock, per write. *)
Class Clock := { system_time_now : nat -> Z }.

Record Netdoc := {
  doc : Replica;
  blobs : gmap Z string;
  writes : nat;
  can_write : bool;
  author : AuthorId;
  founder_author : option AuthorId;
  admin_authors : gset AuthorId;
  validation_mode : ValidationMode;
  validation_env_pinned : bool;
  federated : bool;
  host_node_id : option string;
  reach_cached : bool;
}.
Definition set_doc (m : Replica) (b : gmap Z string) (n : nat) (d : Netdoc) : Netdoc :=
  {| doc := m; blobs := b; writes := n; can_write := can_write d; author := author d;
     founder_author := founder_author d; admin_authors := admin_authors d; validation_mode := validation_mode d;
     validation_env_pinned := validation_env_pinned d; federated := federated d; host_node_id := host_node_id d;
     reach_cached := reach_cached d |}.
Definition set_trust (f : option AuthorId) (admins : gset AuthorId) (m : ValidationMode) (d : Netdoc) : Netdoc :=
  {| doc := doc d; blobs := blobs d; writes := writes d; can_write := can_write d; author := author d;
     founder_author := f; admin_authors := admins; validation_mode := m;
     validation_env_pinned := validation_env_pinned d; federated := federated d; host_node_id := host_node_id d;
     reach_cached := reach_cached d |}.
Definition set_reach (b : bool) (d : Netdoc) : Netdoc :=
  {| doc := doc d; blobs := blobs d; writes := writes d; can_write := can_write d; author := author d;
     founder_author := founder_author d; admin_authors := admin_authors d; validation_mode := validation_mode d;
     validation_env_pinned := validation_env_pinned d; federated := federated d; host_node_id := host_node_id d;
     reach_cached := b |}.

Inductive NetErr := ReadOnlyDoc | EntryIsEmpty | NewerEntryExists | NoContent | BadValue | NoFreeAddress | BadAuthor | NoRosterMatch.

(** A fallible operation on the document; what it wrote before failing stays. *)
Definition M (A : Type) : Type := Netdoc -> Netdoc * (NetErr + A).
#[export] Instance M_ret : MRet M := fun A a d => (d, inr a).
#[export] Instance M_bind : MBind M := fun A B f m d =>
  match m d with (d', inr a) => f a d' | (d', inl e) => (d', inl e) end.
Definition fail {A} (e : NetErr) : M A := fun d => (d, inl e).
Definition gets {A} (f : Netdoc -> A) : M A := fun d => (d, inr (f d)).
Definition modify (f : Netdoc -> Netdoc) : M unit := fun d => (f d, inr tt).
(** [match op { Ok(v) => .., Err(_) => .. }]. *)
Definition attempt {A} (m : M A) : M (option A) := fun d =>
  match m d with (d', inr a) => (d', inr (Some a)) | (d', inl _) => (d', inr None) end.
Fixpoint for_each {A} (l : list A) (f : A -> M unit) : M unit :=
  match l with [] => mret tt | x :: l' => _ ← f x; for_each l' f end.
(** The loops that count what they wrote. *)
Fixpoint count_each {A} (l : list A) (f : A -> M bool) (n : nat) : M nat :=
  match l with [] => mret n | x :: l' => b ← f x; count_each l' f (if b : bool then S n else n) end.

Definition KEY_PEER_PREFIX : string := "peer/".
Definition KEY_ROLE_PREFIX : string := "role/".
Definition KEY_REVOCATION_PREFIX : string := "revocation/".
Definition KEY_IP_PREFIX : string := "ip/".
Definition KEY_SITEID_PREFIX : string := "siteid/".
Definition CGNAT_BASE : Z := 1681915904.
Definition CGNAT_SIZE : Z := 2 ^ 22.
Definition VIP_ALLOC_SIZE : Z := CGNAT_SIZE - 2 ^ 16.
Definition MAX_IP_PROBES : nat := 256.

(** [Ipv4Addr::to_string]. *)
Definition print_ipv4 (ip : Ipv4Addr) : string :=
  let '(V4 a b c d) := ip in
  (print_uint a +:+ "." +:+ print_uint b +:+ "." +:+ print_uint c +:+ "." +:+ print_uint d)%string.

(** [hex::decode]: either case, an even number of digits. *)
Definition hex_val (c : Z) : option Z :=
  if in_range 48 57 c then Some (c - 48) else if in_range 97 102 c then Some (c - 87)
  else if in_range 65 70 c then Some (c - 55) else None.
Fixpoint hex_decode (l : bytes) : option bytes :=
  match l with
  | [] => Some []
  | [_] => None
  | a :: b :: l' => x ← hex_val a; y ← hex_val b; r ← hex_decode l'; Some (16 * x + y :: r)
  end.
Definition parse_author_hex (s : string) : option AuthorId :=
  b ← hex_decode (str_bytes (trim s)); if (length b =? 32)%nat then Some b else None.

(** ** Which records are honored *)
Definition is_self_owned_key (k : string) : bool :=
  existsb (fun p => starts_with p k) ["vpn/"; "ip/"; "name/"; "tag/"; "posture/"; "siteid/"]%string.
Definition is_admin_owned_key (k : string) : bool :=
  existsb (fun p => starts_with p k) ["peer/"; "role/"; "revocation/"; "acl/"; "network/"]%string.

Definition validate_entry (d : Netdoc) (k : string) (a : AuthorId) : bool :=
  if decide (validation_mode d = Off) then true else
  if is_admin_owned_key k then
    if match founder_author d with Some _ => negb (bool_decide (a ∈ admin_authors d)) | None => false end
    then negb (bool_decide (validation_mode d = Enforce)) else true
  else true.

Definition self_entry_author_ok (owner : option string) (a : AuthorId) (bindings : gmap string AuthorId)
    (mode : ValidationMode) : bool :=
  if negb (bool_decide (mode = Enforce)) then true else
  match owner ≫= (fun n => bindings !! n) with Some expected => bool_decide (a = expected) | None => true end.

Section Netdoc.
Context `{!ContentHash, !DocCrates, !Clock}.

(** ** Store access *)
Definition put_record (k : string) (content : string) : M unit := fun d =>
  let r := {| r_ts := system_time_now (writes d); r_hash := content_hash content;
              r_len := Z.of_nat (String.length content) |} in
  let b := <[content_hash content := content]> (blobs d) in
  if negb (can_write d) then (d, inl ReadOnlyDoc) else
  match doc_put (doc d) (author d) k r with
  | Some m => (set_doc m b (S (writes d)) d, inr tt)
  | None => (set_doc (doc d) b (S (writes d)) d, inl NewerEntryExists)
  end.
Definition set_bytes (k v : string) : M unit :=
  if decide (v = EmptyString) then fail EntryIsEmpty else put_record k v.
(** [Doc::del]: the empty record at the key clears what extends it. *)
Definition doc_del (k : string) : M unit := put_record k EmptyString.
Definition get_bytes (h : Z) : M string := fun d =>
  match blobs d !! h with Some v => (d, inr v) | None => (d, inl NoContent) end.
Definition invalidate_reach_cache : M unit := modify (set_reach false).

Definition decode_entry {T} (parse : string -> option T) (r : Rec) : M (option T) :=
  if rec_empty r then mret None else
  v ← get_bytes (r_hash r);
  match parse v with Some x => mret (Some x) | None => fail BadValue end.

(** Live, honored, readable records under a prefix; one that cannot be read is skipped. *)
Definition decoded {T} (parse : string -> option T) (d : Netdoc) (e : (AuthorId * string) * Rec) : option T :=
  if validate_entry d e.1.2 e.1.1 then
    match blobs d !! r_hash e.2 with Some v => parse v | None => None end
  else None.
Definition list_prefix {T} (parse : string -> option T) (p : string) (d : Netdoc) : list T :=
  omap (decoded parse d) (get_prefix (doc d) p).

(** ** Peers, roles, revocations *)
Definition put_peer (p : Peer) : M unit :=
  _ ← set_bytes (KEY_PEER_PREFIX +:+ node_id p) (peer_json p); invalidate_reach_cache.
Definition get_peer (id : string) : M (option Peer) :=
  d ← gets (fun d => d);
  let k := (KEY_PEER_PREFIX +:+ id)%string in
  match get_latest (doc d) k with
  | None => mret None
  | Some (a, r) => if negb (validate_entry d k a) then mret None else decode_entry parse_peer r
  end.
Definition list_peers : Netdoc -> list Peer := list_prefix parse_peer KEY_PEER_PREFIX.
Definition put_role (r : RoleDefinition) : M unit :=
  _ ← set_bytes (KEY_ROLE_PREFIX +:+ rd_name r) (role_json r); invalidate_reach_cache.
Definition list_roles : Netdoc -> list RoleDefinition := list_prefix parse_role KEY_ROLE_PREFIX.
Definition del_role (name : string) : M unit := doc_del (KEY_ROLE_PREFIX +:+ name).

Definition revoke (id reason at_ : string) : M unit :=
  _ ← set_bytes (KEY_REVOCATION_PREFIX +:+ id)
        (revocation_json {| rev_node_id := id; rev_reason := reason; revoked_at := at_ |});
  _ ← doc_del (KEY_PEER_PREFIX +:+ id);
  invalidate_reach_cache.
Definition is_revoked (d : Netdoc) (id : string) : bool :=
  let k := (KEY_REVOCATION_PREFIX +:+ id)%string in
  match get_latest (doc d) k with
  | Some (a, r) => (0 <? r_len r) && validate_entry d k a
  | None => false
  end.
Definition clear_revocation (id : string) : M unit :=
  _ ← doc_del (KEY_REVOCATION_PREFIX +:+ id); invalidate_reach_cache.

(** ** Trust *)
Definition is_trust_anchor (d : Netdoc) : bool := bool_decide (founder_author d = Some (author d)).

Definition record_founder_anchor (from_invite : option string) (d : Netdoc) : Netdoc :=
  let resolved := if negb (federated d) then Some (author d)
                  else match from_invite ≫= parse_author_hex with
                       | Some a => if decide (a = author d) then None else Some a
                       | None => None
                       end in
  match resolved with
  | Some a => set_trust (Some a) ({[a]} ∪ admin_authors d)
                (if negb (validation_env_pinned d) && bool_decide (validation_mode d = Observe) then Enforce
                 else validation_mode d) d
  | None => d
  end.

(** The authors the founder's own peer records vouch for as administrators. *)
Definition vouched_admins (d : Netdoc) (founder : AuthorId) : list AuthorId :=
  omap (fun e : (AuthorId * string) * Rec =>
    if bool_decide (e.1.1 = founder) then
      v ← blobs d !! r_hash e.2; p ← parse_peer v;
      if bool_decide (role p = RoleCreator) then netdoc_author p ≫= parse_author_hex else None
    else None) (get_prefix (doc d) KEY_PEER_PREFIX).
Definition refresh_admin_authors (d : Netdoc) : Netdoc :=
  match founder_author d with
  | Some f => set_trust (Some f) ({[f]} ∪ list_to_set (vouched_admins d f)) (validation_mode d) d
  | None => d
  end.

Definition vouched_authors (d : Netdoc) : gmap string AuthorId :=
  foldl (fun m p => match netdoc_author p ≫= parse_author_hex with
                    | Some a => <[node_id p := a]> m
                    | None => m
                    end) ∅ (list_peers d).

Definition with_author (p : Peer) (a : option string) : Peer :=
  {| node_id := node_id p; name := name p; authorized_at := authorized_at p; last_seen := last_seen p;
     username := username p; role := role p; role_name := role_name p; netdoc_author := a; self_doc := self_doc p;
     vip := vip p; vpn_endpoint := vpn_endpoint p; site_id := site_id p; sandbox := sandbox p |}.
Definition record_peer_author (id author_hex : string) : M bool :=
  d ← gets (fun d => d);
  if negb (is_trust_anchor d) then mret false else
  match parse_author_hex author_hex with
  | None => fail BadAuthor
  | Some _ =>
      o ← get_peer id;
      match o with
      | None => mret false
      | Some p =>
          if decide (netdoc_author p = Some author_hex) then mret true else
          _ ← put_peer (with_author p (Some author_hex));
          _ ← modify refresh_admin_authors;
          mret true
      end
  end.

(** ** Addresses *)
Definition deterministic_ip (id : string) : Ipv4Addr :=
  let h := doc_sha256 (str_bytes id) in
  let raw := from_be32 (nth 0 h 0) (nth 1 h 0) (nth 2 h 0) (nth 3 h 0) in
  v4_of_u32 (CGNAT_BASE + (1 + raw mod (CGNAT_SIZE - 2))).
Definition deterministic_site_id (id : string) : Z :=
  let h := doc_sha256 (str_bytes ("hop-via6-site:" +:+ id)%string) in
  let raw := from_be32 (nth 0 h 0) (nth 1 h 0) (nth 2 h 0) (nth 3 h 0) in
  1 + raw mod (2 ^ 32 - 1 - 1).

Definition lookup_ip_owner (k : string) : M (option string) :=
  d ← gets (fun d => d);
  match get_latest (doc d) k with
  | None => mret None
  | Some (_, r) => if rec_empty r then mret None else v ← get_bytes (r_hash r); mret (Some (utf8_lossy v))
  end.

(** Allocations under a prefix whose rest [parse] reads; a missing blob is an error. *)
Fixpoint collect {A} (p : string) (parse : string -> option A) (l : list ((AuthorId * string) * Rec))
    : M (list (A * string)) :=
  match l with
  | [] => mret []
  | e :: l' =>
      d ← gets (fun d => d);
      match (if validate_entry d e.1.2 e.1.1 then strip_prefix p (utf8_lossy e.1.2) ≫= parse else None) with
      | None => collect p parse l'
      | Some x => v ← get_bytes (r_hash e.2); rest ← collect p parse l'; mret ((x, utf8_lossy v) :: rest)
      end
  end.
Definition list_virtual_ips : M (list (Ipv4Addr * string)) :=
  d ← gets (fun d => d); collect KEY_IP_PREFIX parse_ipv4 (get_prefix (doc d) KEY_IP_PREFIX).
Definition get_virtual_ip (id : string) : M (option Ipv4Addr) :=
  l ← list_virtual_ips; mret (fst <$> find (fun x => bool_decide (x.2 = id)) l).
Definition list_site_ids : M (list (Z * string)) :=
  d ← gets (fun d => d); collect KEY_SITEID_PREFIX parse_u32 (get_prefix (doc d) KEY_SITEID_PREFIX).
Definition get_site_id (id : string) : M (option Z) :=
  o ← get_peer id;
  match o ≫= site_id with
  | Some s => mret (Some s)
  | None => l ← list_site_ids; mret (fst <$> find (fun x => bool_decide (x.2 = id)) l)
  end.

(** The claim loop: [cand] gives the candidate and its key for a probe. *)
Fixpoint claim_probe {A} (id : string) (cand : Z -> A * string) (i : Z) (fuel : nat) : M A :=
  match fuel with
  | O => fail NoFreeAddress
  | S f =>
      let '(c, k) := cand i in
      o ← lookup_ip_owner k;
      match o with
      | Some owner => if decide (owner = id) then mret c else claim_probe id cand (i + 1) f
      | None =>
          _ ← set_bytes k id;
          o' ← lookup_ip_owner k;
          match o' with
          | Some owner => if decide (owner = id) then mret c else claim_probe id cand (i + 1) f
          | None => mret c
          end
      end
  end.
Definition ip_candidate (id : string) (i : Z) : Ipv4Addr * string :=
  let start := u32 (u32_of_v4 (deterministic_ip id) - CGNAT_BASE) mod VIP_ALLOC_SIZE in
  let c := v4_of_u32 (CGNAT_BASE + u32 (start + i) mod VIP_ALLOC_SIZE) in
  (c, (KEY_IP_PREFIX +:+ print_ipv4 c)%string).
Definition claim_virtual_ip (id : string) : M Ipv4Addr :=
  o ← get_virtual_ip id;
  match o with
  | Some ip => mret ip
  | None => claim_probe id (ip_candidate id) 0 MAX_IP_PROBES
  end.
Definition site_candidate (id : string) (i : Z) : Z * string :=
  let c := 1 + u32 (u32 (deterministic_site_id id - 1) + i) mod (2 ^ 32 - 1 - 1) in
  (c, (KEY_SITEID_PREFIX +:+ print_uint c)%string).
Definition claim_site_id (id : string) : M Z :=
  o ← get_site_id id;
  match o with
  | Some s => mret s
  | None => claim_probe id (site_candidate id) 0 MAX_IP_PROBES
  end.
Definition resolve_site_gateway (site : Z) : M (option string) :=
  d ← gets (fun d => d);
  match find (fun p => bool_decide (site_id p = Some site)) (list_peers d) with
  | Some p => mret (Some (node_id p))
  | None => l ← list_site_ids; mret (snd <$> find (fun x => bool_decide (x.1 = site)) l)
  end.

(** ** Admission *)
Definition with_addresses (p : Peer) (v : option string) (s : option Z) : Peer :=
  {| node_id := node_id p; name := name p; authorized_at := authorized_at p; last_seen := last_seen p;
     username := username p; role := role p; role_name := role_name p; netdoc_author := netdoc_author p;
     self_doc := self_doc p; vip := v; vpn_endpoint := vpn_endpoint p; site_id := s; sandbox := sandbox p |}.
Definition admit_peer (p : Peer) : M unit :=
  anchor ← gets is_trust_anchor;
  v ← (if bool_decide (vip p = None) && anchor
       then r ← attempt (claim_virtual_ip (node_id p)); mret (print_ipv4 <$> r) else mret (vip p));
  let p1 := with_addresses p v (site_id p) in
  anchor' ← gets is_trust_anchor;
  s ← (if bool_decide (site_id p1 = None) && anchor' then attempt (claim_site_id (node_id p1)) else mret (site_id p1));
  put_peer (with_addresses p1 v s).

Definition ensure_peers (peers : list Peer) : M nat :=
  count_each peers (fun p =>
    o ← get_peer (node_id p);
    d ← gets (fun d => d);
    match o with
    | None => if is_revoked d (node_id p) then mret false else _ ← put_peer p; mret true
    | Some _ => mret false
    end) 0.
Definition ensure_roles (roles : list RoleDefinition) : M nat :=
  d ← gets (fun d => d);
  let existing := map rd_name (list_roles d) in
  count_each roles (fun r => if bool_decide (rd_name r ∈ existing) then mret false else _ ← put_role r; mret true) 0.

(** [stamp] is [now_timestamp]. *)
Definition reconcile (stamp : string) (peers : list Peer) (roles : list RoleDefinition) : M unit :=
  _ ← for_each peers (fun p =>
        d ← gets (fun d => d);
        if is_revoked d (node_id p) then mret tt else
        o ← get_peer (node_id p);
        match o with None => admit_peer p | Some _ => mret tt end);
  d ← gets (fun d => d);
  _ ← (if federated d then mret tt else
       for_each (list_peers d) (fun e =>
         if decide (Some (node_id e) = host_node_id d) then mret tt else
         if bool_decide (node_id e ∈ map node_id peers) then mret tt
         else revoke (node_id e) "removed" stamp));
  _ ← for_each roles put_role;
  d ← gets (fun d => d);
  if federated d then mret tt else
  for_each (list_roles d) (fun r =>
    if bool_decide (rd_name r ∈ map rd_name roles) then mret tt else del_role (rd_name r)).

(** [peers] is the local roster; refreshing the exported snapshot is file I/O. *)
Definition readmit_member (peers : PeersStore) (prefix : string) : M (string * string) :=
  match find (fun p => starts_with prefix (node_id p)) peers with
  | None => fail NoRosterMatch
  | Some p =>
      _ ← clear_revocation (node_id p);
      _ ← admit_peer p;
      _ ← modify refresh_admin_authors;
      mret (node_id p, name p)
  end.

Definition merge_local (existing local : Peer) : Peer :=
  {| node_id := node_id existing; name := name local; authorized_at := authorized_at existing;
     last_seen := last_seen existing; username := username local; role := role local;
     role_name := role_name local; netdoc_author := netdoc_author existing; self_doc := self_doc existing;
     vip := vip existing; vpn_endpoint := vpn_endpoint existing; site_id := site_id existing;
     sandbox := sandbox local |}.
Definition propagate_admin_mutation (stamp : string) (peers : PeersStore) (roles : list RoleDefinition)
    (revoke_id upsert_id : option string) : M unit :=
  _ ← (match revoke_id with
       | Some id => _ ← attempt (revoke id "admin removal" stamp); mret tt
       | None => mret tt
       end);
  _ ← attempt (reconcile stamp peers roles);
  _ ← (match upsert_id ≫= (fun id => find (fun p => bool_decide (node_id p = id)) peers) with
       | Some local =>
           o ← attempt (get_peer (node_id local));
           let merged := match o with Some (Some existing) => merge_local existing local | _ => local end in
           _ ← attempt (put_peer merged); mret tt
       | None => mret tt
       end);
  modify refresh_admin_authors.
End Netdoc.

(** ** Lemmas *)
Section Honored.
Context `{!ContentHash, !DocCrates, !Clock}.
Implicit Types d : Netdoc.

Definition enforced d : Prop := validation_mode d = Enforce /\ is_Some (founder_author d).

Lemma admin_prefix p k : p ∈ ["peer/"; "role/"; "revocation/"; "acl/"; "network/"]%string ->
  starts_with p k = true -> is_admin_owned_key k = true.
Proof.
  intros Hp Hk. unfold is_admin_owned_key. apply existsb_exists. exists p. split; [by apply list_elem_of_In|done].
Qed.

Lemma validate_enforced d k a : enforced d -> is_admin_owned_key k = true ->
  validate_entry d k a = bool_decide (a ∈ admin_authors d).
Proof.
  intros [Hm [f Hf]] Hk. unfold validate_entry. rewrite decide_False by congruence. rewrite Hk, Hf.
  case_bool_decide; cbn; [done|]. by rewrite bool_decide_eq_true_2.
Qed.

Lemma omap_filter {A B} (f : A -> option B) (P : A -> Prop) `{!forall x, Decision (P x)} (l : list A) :
  (forall x, x ∈ l -> ~ P x -> f x = None) -> omap f l = omap f (base.filter P l).
Proof.
  induction l as [|x l IH]; intros Hf; [done|]. rewrite filter_cons.
  assert (omap f l = omap f (base.filter P l)) as E by (apply IH; intros y Hy; apply Hf; by right).
  case_decide as Hx; cbn; [by rewrite E|]. rewrite (Hf x) by (done || by left). exact E.
Qed.

(** A listing sees only the records of trusted authors. *)
Lemma list_prefix_ext {T} (parse : string -> option T) p d m :
  enforced d -> p ∈ ["peer/"; "role/"; "revocation/"; "acl/"; "network/"]%string ->
  (forall a k, a ∈ admin_authors d -> m !! (a, k) = doc d !! (a, k)) ->
  list_prefix parse p (set_doc m (blobs d) (writes d) d) = list_prefix parse p d.
Proof.
  intros He Hp Hm. unfold list_prefix. cbn [doc set_doc].
  assert (forall n, omap (decoded parse d) (get_prefix n p) =
    omap (decoded parse d) (base.filter (fun e => e.1.1 ∈ admin_authors d) (get_prefix n p))) as Hf.
  { intros n. apply omap_filter. intros [[a k] r] (_ & Hk & _)%elem_of_get_prefix Hn. unfold decoded. cbn.
    by rewrite validate_enforced, bool_decide_eq_false_2 by (done || by eapply admin_prefix). }
  change (decoded parse (set_doc m (blobs d) (writes d) d)) with (decoded parse d).
  rewrite !Hf. f_equal. apply filter_get_prefix_ext. intros a k r Ha _ _. by rewrite Hm.
Qed.
Lemma elem_of_list_prefix {T} (parse : string -> option T) p d x :
  x ∈ list_prefix parse p d <-> exists a k r v, doc d !! (a, k) = Some r /\ starts_with p k = true /\
    rec_empty r = false /\ validate_entry d k a = true /\ blobs d !! r_hash r = Some v /\ parse v = Some x.
Proof.
  unfold list_prefix. rewrite list_elem_of_omap. split.
  - intros ([[a k] r] & (Hm & Hp & Hr)%elem_of_get_prefix & Hd). unfold decoded in Hd. cbn in Hd.
    destruct (validate_entry d k a) eqn:Ev; [|done]. destruct (blobs d !! r_hash r) as [v|] eqn:Eb; [|done].
    by exists a, k, r, v.
  - intros (a & k & r & v & Hm & Hp & Hr & Hv & Hb & Hx). exists ((a, k), r). split; [by apply elem_of_get_prefix|].
    unfold decoded. cbn. by rewrite Hv, Hb.
Qed.
End Honored.

(** ** Foreign records

    What replication brings in: records of other authors, in any order. *)
Definition foreign : Type := (AuthorId * string) * Rec.
Definition receive (m : Replica) (e : foreign) : Replica := default m (doc_put m e.1.1 e.1.2 e.2).
Definition receive_all (m : Replica) (l : list foreign) : Replica := foldl receive m l.

Lemma doc_put_other m a k r m' a' k' : doc_put m a k r = Some m' -> a' <> a -> m' !! (a', k') = m !! (a', k').
Proof.
  intros Hp Hne. rewrite (doc_put_Some _ _ _ _ _ Hp). rewrite decide_False by congruence.
  by rewrite decide_False by (intros [? _]; congruence).
Qed.
Lemma receive_all_other m l a k : Forall (fun e : foreign => e.1.1 <> a) l -> receive_all m l !! (a, k) = m !! (a, k).
Proof.
  unfold receive_all. revert m. induction l as [|e l IH]; intros m; [done|]. intros [He Hl]%Forall_cons. cbn.
  rewrite IH by done. unfold receive. destruct (doc_put m e.1.1 e.1.2 e.2) as [m'|] eqn:E; [|done]. cbn.
  by eapply doc_put_other.
Qed.

(** C8.  Author validation makes forged records inert: under enforcement, whatever records authors
    outside the trusted set have written, in any number and order, the roster, the roles, the vouched
    author bindings and the administrators the founder vouches for are unchanged. *)
Theorem forged_entries_inert `{!ContentHash, !DocCrates, !Clock} d f l :
  validation_mode d = Enforce -> founder_author d = Some f -> f ∈ admin_authors d ->
  Forall (fun e : foreign => e.1.1 ∉ admin_authors d) l ->
  let d' := set_doc (receive_all (doc d) l) (blobs d) (writes d) d in
  list_peers d' = list_peers d /\ list_roles d' = list_roles d /\ vouched_authors d' = vouched_authors d /\
  admin_authors (refresh_admin_authors d') = admin_authors (refresh_admin_authors d).
Proof.
  intros Hmode Hf Hin Hl d'. subst d'. assert (enforced d) as He by (split; [done|by exists f]).
  assert (forall a k, a ∈ admin_authors d -> receive_all (doc d) l !! (a, k) = doc d !! (a, k)) as Hm.
  { intros a k Ha. apply receive_all_other. eapply Forall_impl; [exact Hl|]. cbn. intros e Hn E. by rewrite E in Hn. }
  assert (list_peers (set_doc (receive_all (doc d) l) (blobs d) (writes d) d) = list_peers d) as Hp
    by (apply list_prefix_ext; [done|set_solver|done]).
  split_and!; [exact Hp|apply list_prefix_ext; [done|set_solver|done]| |].
  - unfold vouched_authors. by rewrite Hp.
  - unfold refresh_admin_authors. cbn [founder_author set_doc]. rewrite Hf. cbn [admin_authors set_trust]. f_equal. f_equal.
    unfold vouched_admins. cbn [doc blobs set_doc].
    erewrite (omap_filter _ (fun e => e.1.1 = f) (get_prefix (receive_all _ _) _)),
      (omap_filter _ (fun e => e.1.1 = f) (get_prefix (doc d) _)).
    + f_equal. apply filter_get_prefix_ext. intros a k r Ha _ _. cbn in Ha. subst a. by rewrite Hm.
    + intros x _ Hx. by rewrite bool_decide_eq_false_2.
    + intros x _ Hx. by rewrite bool_decide_eq_false_2.
Qed.

(** ** The clock

    This node's clock is ahead of every record it holds, and moves. *)
Class MonotoneClock `{!Clock} : Prop := clock_mono n : system_time_now n < system_time_now (S n).

Section Writes.
Context `{!ContentHash, !DocCrates, !Clock} `{!MonotoneClock}.
Implicit Types d : Netdoc.

Definition ahead d : Prop := forall a k r, doc d !! (a, k) = Some r -> r_ts r < system_time_now (writes d).
Definition own_record d (v : string) : Rec :=
  {| r_ts := system_time_now (writes d); r_hash := content_hash v; r_len := Z.of_nat (String.length v) |}.

(** The replica after writing [v] at [k]: what extends [k] is gone. *)
Lemma put_record_ahead k v d : can_write d = true -> ahead d ->
  exists m, put_record k v d =
      (set_doc m (<[content_hash v := v]> (blobs d)) (S (writes d)) d, inr tt) /\
    (forall a' k', m !! (a', k') = if decide ((a', k') = (author d, k)) then Some (own_record d v)
       else if decide (a' = author d /\ starts_with k k' = true) then None else doc d !! (a', k')) /\
    ahead (set_doc m (<[content_hash v := v]> (blobs d)) (S (writes d)) d).
Proof.
  intros Hw Ha. destruct (doc_put_fresh (doc d) (author d) k (own_record d v)) as [m Hm].
  { intros p r _ Hr. apply (Ha _ _ _ Hr). }
  exists m. unfold put_record. rewrite Hw. cbn [negb]. unfold own_record in Hm. rewrite Hm. split; [done|].
  assert (forall a' k', m !! (a', k') = if decide ((a', k') = (author d, k)) then Some (own_record d v)
       else if decide (a' = author d /\ starts_with k k' = true) then None else doc d !! (a', k')) as Hl.
  { intros a' k'. rewrite (doc_put_Some _ _ _ _ _ Hm). case_decide; [done|]. case_decide; [|done].
    destruct (doc d !! (a', k')) as [r|] eqn:Er; [|done].
    assert (rec_leb r (own_record d v) = true) as Hle; [|unfold own_record in Hle; by rewrite Hle].
    unfold rec_leb. apply orb_true_iff. left. apply Z.ltb_lt. by eapply Ha. }
  split; [exact Hl|]. intros a' k' r. cbn [doc writes set_doc]. rewrite Hl. pose proof (clock_mono (writes d)) as Hc.
  case_decide; [intros [= <-]; cbn; lia|]. case_decide; [done|]. intros Hr. specialize (Ha _ _ _ Hr). lia.
Qed.

Lemma set_bytes_ne k v : v <> EmptyString -> set_bytes k v = put_record k v.
Proof. intros Hv. unfold set_bytes. by rewrite decide_False. Qed.

Lemma own_record_len d v : v <> EmptyString -> 0 < r_len (own_record d v).
Proof. destruct v; [done|]. intros _. cbn. lia. Qed.
Lemma rec_empty_own d v : v <> EmptyString -> rec_empty (own_record d v) = false.
Proof. intros Hv. unfold rec_empty. apply Z.eqb_neq. pose proof (own_record_len d v Hv). lia. Qed.

(** The latest record at a key just written is the one written. *)
Lemma get_latest_own m d k v : ahead d ->
  (forall a' k', m !! (a', k') = if decide ((a', k') = (author d, k)) then Some (own_record d v)
       else if decide (a' = author d /\ starts_with k k' = true) then None else doc d !! (a', k')) ->
  get_latest m k = if rec_empty (own_record d v) then None else Some (author d, own_record d v).
Proof.
  intros Ha Hl. apply get_latest_newest; [by rewrite Hl, decide_True|].
  intros a' r' Hne. rewrite Hl, decide_False by congruence. rewrite decide_False by (intros [? _]; congruence).
  intros Hr. by apply Ha in Hr.
Qed.
(** Elsewhere the latest record is unchanged. *)
Lemma get_latest_elsewhere m d k v k' : starts_with k k' = false ->
  (forall a' k', m !! (a', k') = if decide ((a', k') = (author d, k)) then Some (own_record d v)
       else if decide (a' = author d /\ starts_with k k' = true) then None else doc d !! (a', k')) ->
  get_latest m k' = get_latest (doc d) k'.
Proof.
  intros Hk Hl. apply get_latest_ext. intros a. rewrite Hl.
  rewrite decide_False by (intros [= -> ->]; by rewrite starts_with_refl in Hk).
  by rewrite decide_False by (intros [_ ?]; congruence).
Qed.
End Writes.

Lemma admin_key_revocation id : is_admin_owned_key (KEY_REVOCATION_PREFIX +:+ id) = true.
Proof. apply (admin_prefix "revocation/"); [set_solver|apply starts_with_sapp]. Qed.

Section Contracts.
Context `{!ContentHash, !DocCrates, !Clock} `{!MonotoneClock}.
Implicit Types d : Netdoc.

(** This node's own administrative records are honored here. *)
Definition trusts_self d : Prop := forall k, is_admin_owned_key k = true -> validate_entry d k (author d) = true.

Lemma is_revoked_ext d d' id :
  get_latest (doc d') (KEY_REVOCATION_PREFIX +:+ id) = get_latest (doc d) (KEY_REVOCATION_PREFIX +:+ id) ->
  (forall k a, validate_entry d' k a = validate_entry d k a) -> is_revoked d' id = is_revoked d id.
Proof. intros Hl Hv. unfold is_revoked. cbv zeta. rewrite Hl. case_match; [|done]. case_match. by rewrite Hv. Qed.

(** A deletion that goes through: the key, and what extends it, have no live record of ours. *)
Lemma doc_del_ahead k d : can_write d = true -> ahead d ->
  exists m, doc_del k d = (set_doc m (<[content_hash "" := EmptyString]> (blobs d)) (S (writes d)) d, inr tt) /\
    get_latest m k = None /\ (forall k', starts_with k k' = false -> get_latest m k' = get_latest (doc d) k') /\
    ahead (set_doc m (<[content_hash "" := EmptyString]> (blobs d)) (S (writes d)) d).
Proof.
  intros Hw Ha. destruct (put_record_ahead k EmptyString d Hw Ha) as (m & E & Hl & Ha'). exists m.
  split; [exact E|]. split; [rewrite (get_latest_own m d k EmptyString Ha Hl); done|]. split; [|done].
  intros k' Hk. by eapply get_latest_elsewhere.
Qed.

Lemma revocation_vs_peer id id' :
  starts_with (KEY_PEER_PREFIX +:+ id) (KEY_REVOCATION_PREFIX +:+ id') = false /\
  starts_with (KEY_REVOCATION_PREFIX +:+ id) (KEY_PEER_PREFIX +:+ id') = false.
Proof. by split. Qed.

Lemma is_revoked_latest d id a r : get_latest (doc d) (KEY_REVOCATION_PREFIX +:+ id) = Some (a, r) ->
  is_revoked d id = (0 <? r_len r) && validate_entry d (KEY_REVOCATION_PREFIX +:+ id) a.
Proof. unfold is_revoked. cbv zeta. by intros ->. Qed.
Lemma is_revoked_none d id : get_latest (doc d) (KEY_REVOCATION_PREFIX +:+ id) = None -> is_revoked d id = false.
Proof. unfold is_revoked. cbv zeta. by intros ->. Qed.

Lemma revoke_ok id reason stamp d : can_write d = true -> ahead d -> trusts_self d ->
  exists m b, revoke id reason stamp d = (set_reach false (set_doc m b (S (S (writes d))) d), inr tt) /\
    ahead (set_doc m b (S (S (writes d))) d) /\
    is_revoked (set_doc m b (S (S (writes d))) d) id = true /\ get_latest m (KEY_PEER_PREFIX +:+ id) = None /\
    forall id', starts_with id id' = false ->
      is_revoked (set_doc m b (S (S (writes d))) d) id' = is_revoked d id'.
Proof.
  intros Hw Ha Ht. unfold revoke.
  set (v := revocation_json _). assert (v <> EmptyString) as Hv by apply revocation_json_nonempty.
  rewrite (set_bytes_ne _ _ Hv).
  destruct (put_record_ahead (KEY_REVOCATION_PREFIX +:+ id) v d Hw Ha) as (m1 & E1 & Hl1 & Ha1).
  destruct (doc_del_ahead (KEY_PEER_PREFIX +:+ id)
    (set_doc m1 (<[content_hash v := v]> (blobs d)) (S (writes d)) d) Hw Ha1) as (m2 & E2 & Hn2 & Hk2 & Ha2).
  exists m2. eexists. split_and!.
  - unfold mbind, M_bind. rewrite E1, E2. reflexivity.
  - exact Ha2.
  - erewrite is_revoked_latest.
    2:{ cbn [doc set_doc]. rewrite Hk2 by apply revocation_vs_peer. cbn [doc set_doc].
        rewrite (get_latest_own m1 d _ v Ha Hl1), rec_empty_own by done. reflexivity. }
    apply andb_true_iff. split; [apply Z.ltb_lt, own_record_len; done|apply Ht, admin_key_revocation].
  - exact Hn2.
  - intros id' Hid. apply is_revoked_ext; [|done]. cbn [doc set_doc]. rewrite Hk2 by apply revocation_vs_peer.
    cbn [doc set_doc]. eapply get_latest_elsewhere; [|exact Hl1]. by rewrite starts_with_app_l.
Qed.
Lemma clear_ok id d : can_write d = true -> ahead d ->
  exists m b, clear_revocation id d = (set_reach false (set_doc m b (S (writes d)) d), inr tt) /\
    ahead (set_doc m b (S (writes d)) d) /\ is_revoked (set_doc m b (S (writes d)) d) id = false.
Proof.
  intros Hw Ha. destruct (doc_del_ahead (KEY_REVOCATION_PREFIX +:+ id) d Hw Ha) as (m & E & Hn & _ & Ha').
  exists m. eexists. split_and!; [unfold clear_revocation, mbind, M_bind; rewrite E; reflexivity|exact Ha'|].
  by apply is_revoked_none.
Qed.
End Contracts.


(** A later record hides a revocation: the query picks the newest record of a key over all authors
    and validates only that one, so a record an untrusted author writes later at the same key makes a
    revoked peer count as not revoked, although the administrator's record is still in the replica. *)
Theorem revocation_masked `{!ContentHash, !DocCrates, !Clock} d id a r :
  enforced d -> a ∉ admin_authors d -> is_revoked d id = true -> rec_empty r = false ->
  (forall k, doc d !! (a, k) = None) ->
  (forall a' r', doc d !! (a', (KEY_REVOCATION_PREFIX +:+ id)%string) = Some r' -> r_ts r' < r_ts r) ->
  let d' := set_doc (receive (doc d) ((a, (KEY_REVOCATION_PREFIX +:+ id)%string), r)) (blobs d) (writes d) d in
  is_revoked d' id = false /\
  exists a0 r0, a0 ∈ admin_authors d /\ rec_empty r0 = false /\
    doc d' !! (a0, (KEY_REVOCATION_PREFIX +:+ id)%string) = Some r0.
Proof.
  intros He Hna Hrev Hr Hnone Hnew d'. subst d'. unfold receive. cbn [fst snd].
  destruct (doc_put_fresh (doc d) a (KEY_REVOCATION_PREFIX +:+ id) r) as [m Hm].
  { intros p r' _ Hp. by rewrite Hnone in Hp. }
  rewrite Hm. cbn [default]. split.
  - erewrite is_revoked_latest.
    2:{ cbn [doc set_doc]. rewrite (get_latest_newest m _ a r), Hr; [reflexivity| |].
        - rewrite (doc_put_Some _ _ _ _ _ Hm). by rewrite decide_True.
        - intros a' r' Hne. rewrite (doc_put_other _ _ _ _ _ _ _ Hm Hne). apply Hnew. }
    rewrite (validate_enforced (set_doc m (blobs d) (writes d) d)); [|done|apply admin_key_revocation].
    rewrite bool_decide_eq_false_2 by done. apply andb_false_r.
  - unfold is_revoked in Hrev. cbv zeta in Hrev.
    destruct (get_latest (doc d) _) as [[a0 r0]|] eqn:E; [|done].
    apply andb_true_iff in Hrev as [Hlen Hval]. apply get_latest_Some in E as [E Er].
    rewrite validate_enforced in Hval by (done || apply admin_key_revocation). apply bool_decide_eq_true in Hval.
    exists a0, r0. split_and!; [done|done|]. cbn [doc set_doc].
    rewrite (doc_put_other _ _ _ _ _ _ _ Hm); [done|congruence].
Qed.

(** A founder's replica with nothing in it. *)
Definition founding (a : AuthorId) : Netdoc :=
  {| doc := ∅; blobs := ∅; writes := 0; can_write := true; author := a; founder_author := Some a;
     admin_authors := {[a]}; validation_mode := Enforce; validation_env_pinned := false; federated := false;
     host_node_id := None; reach_cached := false |}.
Lemma founding_ahead `{!Clock} a : ahead (founding a).
Proof. intros a' k r. cbn. by rewrite lookup_empty. Qed.
Lemma founding_trusts a : trusts_self (founding a).
Proof.
  intros k Hk. rewrite validate_enforced; [|by split; [|eexists]|done]. apply bool_decide_eq_true. cbn. set_solver.
Qed.

Lemma role_by_name_None l n : (forall r, r ∈ l -> rd_name r <> n) -> role_by_name l !! n = None.
Proof.
  unfold role_by_name. assert (forall m : gmap string RoleDefinition, m !! n = None ->
    (forall r, r ∈ l -> rd_name r <> n) -> foldl (fun m r => <[rd_name r := r]> m) m l !! n = None) as H.
  { induction l as [|r l IH]; intros m Hm Hl; [done|]. cbn. apply IH; [|intros r' Hr'; apply Hl; by right].
    rewrite lookup_insert_ne; [done|]. apply Hl. by left. }
  apply H, lookup_empty.
Qed.

Section RolePrefix.
Context `{!ContentHash, !DocCrates, !Clock} `{!MonotoneClock}.

Lemma put_role_ahead r d : can_write d = true -> ahead d ->
  exists m, put_role r d = (set_reach false (set_doc m (<[content_hash (role_json r) := role_json r]> (blobs d))
      (S (writes d)) d), inr tt) /\
    (forall a' k', m !! (a', k') = if decide ((a', k') = (author d, (KEY_ROLE_PREFIX +:+ rd_name r)%string))
       then Some (own_record d (role_json r))
       else if decide (a' = author d /\ starts_with (KEY_ROLE_PREFIX +:+ rd_name r) k' = true) then None
       else doc d !! (a', k')) /\
    ahead (set_doc m (<[content_hash (role_json r) := role_json r]> (blobs d)) (S (writes d)) d).
Proof.
  intros Hw Ha. destruct (put_record_ahead (KEY_ROLE_PREFIX +:+ rd_name r) (role_json r) d Hw Ha) as (m & E & Hl & Ha').
  exists m. split; [|done]. unfold put_role. rewrite set_bytes_ne by apply role_json_nonempty.
  unfold mbind, M_bind. rewrite E. reflexivity.
Qed.
End RolePrefix.

(** Writing a role erases the roles whose names extend its name: the store clears every older
    record of the author under the written key.  After writing a role and then another whose name is a
    proper prefix, only the second is listed, and every member of the first is treated as having an
    undefined role, which reaches every host, whatever the first role's tags allowed. *)
Theorem role_prefix_erased `{!ContentHash, !DocCrates, !Clock} `{!MonotoneClock} a long short t :
  t <> EmptyString -> rd_name long = (rd_name short +:+ t)%string ->
  exists d, (_ ← put_role long; put_role short) (founding a) = (d, inr tt) /\
    (forall r, r ∈ list_roles d <-> r = short) /\
    (forall p tags, role_name p = Some (rd_name long) ->
       role_reaches (flatten_role (role_by_name (list_roles d)) p).1.1 tags = true).
Proof.
  intros Ht Hn.
  destruct (put_role_ahead long (founding a) eq_refl (founding_ahead a)) as (m1 & E1 & Hl1 & Ha1).
  destruct (put_role_ahead short (set_reach false (set_doc m1 (<[content_hash (role_json long) := role_json long]> ∅)
    1 (founding a))) eq_refl Ha1) as (m2 & E2 & Hl2 & Ha2).
  eexists. split; [unfold mbind, M_bind; rewrite E1; exact E2|].
  assert (forall r, r ∈ list_roles (set_reach false (set_doc m2 (<[content_hash (role_json short) := role_json short]>
    (<[content_hash (role_json long) := role_json long]> ∅)) 2 (set_reach false (set_doc m1
    (<[content_hash (role_json long) := role_json long]> ∅) 1 (founding a))))) <-> r = short) as Hroles.
  { intros r. unfold list_roles. rewrite elem_of_list_prefix. cbn [doc blobs set_reach set_doc]. split.
    - intros (a' & k & rec & v & Hm & _ & _ & _ & Hb & Hp). rewrite Hl2 in Hm. cbn [author set_reach set_doc founding doc] in Hm.
      case_decide as Hk.
      + injection Hm as <-. cbn [own_record r_hash] in Hb. rewrite lookup_insert_eq in Hb. injection Hb as <-.
        rewrite role_json_roundtrip in Hp. congruence.
      + case_decide as Hs; [done|]. rewrite Hl1 in Hm. cbn [author founding doc] in Hm. case_decide as Hk1.
        * injection Hk1 as -> ->. destruct Hs. split; [done|]. rewrite Hn, <-sapp_assoc. apply starts_with_sapp.
        * case_decide; [done|]. by rewrite lookup_empty in Hm.
    - intros ->. exists a, (KEY_ROLE_PREFIX +:+ rd_name short)%string. eexists _, (role_json short). split_and!.
      + rewrite Hl2. cbn [author set_reach set_doc founding]. by rewrite decide_True.
      + apply starts_with_sapp.
      + apply rec_empty_own, role_json_nonempty.
      + apply founding_trusts. apply (admin_prefix "role/"); [set_solver|apply starts_with_sapp].
      + cbn [own_record r_hash]. apply lookup_insert_eq.
      + apply role_json_roundtrip. }
  split; [exact Hroles|]. intros p tags Hp. unfold flatten_role. rewrite Hp, role_by_name_None; [done|].
  intros r ->%Hroles Hr. rewrite Hn in Hr. assert (String.length t = 0)%nat as Hz.
  { apply (f_equal String.length) in Hr. rewrite length_sapp in Hr. lia. }
  by destruct t.
Qed.

(** ** Allocation *)
Section Claims.
Context `{!ContentHash, !DocCrates, !Clock} `{!MonotoneClock}.
Implicit Types d : Netdoc.

Lemma lookup_ip_owner_state k d : exists res, lookup_ip_owner k d = (d, res).
Proof.
  unfold lookup_ip_owner, gets, mbind, M_bind. destruct (get_latest (doc d) k) as [[a r]|]; [|by eexists].
  destruct (rec_empty r); [by eexists|]. unfold get_bytes. destruct (blobs d !! r_hash r); by eexists.
Qed.

(** A probe that returns leaves its candidate recorded as this node's. *)
Lemma claim_probe_sound {A} id (cand : Z -> A * string) fuel : id <> EmptyString -> utf8_valid (str_bytes id) = true ->
  forall i d d' c, can_write d = true -> ahead d -> claim_probe id cand i fuel d = (d', inr c) ->
  exists j, c = (cand j).1 /\ lookup_ip_owner (cand j).2 d' = (d', inr (Some id)).
Proof.
  intros Hne Hu. induction fuel as [|f IH]; intros i d d' c Hw Ha; cbn [claim_probe]; [done|].
  destruct (cand i) as [c0 k] eqn:Ec. unfold mbind at 1, M_bind at 1.
  destruct (lookup_ip_owner_state k d) as [res El]. rewrite El. destruct res as [e|[owner|]]; [done|..].
  - destruct (decide (owner = id)) as [->|]; [|by apply IH].
    unfold mret, M_ret. intros [= <- <-]. exists i. by rewrite Ec.
  - rewrite set_bytes_ne by done. destruct (put_record_ahead k id d Hw Ha) as (m & E & Hl & Ha').
    unfold mbind, M_bind. rewrite E.
    assert (lookup_ip_owner k (set_doc m (<[content_hash id := id]> (blobs d)) (S (writes d)) d) =
      (set_doc m (<[content_hash id := id]> (blobs d)) (S (writes d)) d, inr (Some id))) as Hown.
    { unfold lookup_ip_owner, gets, mbind, M_bind. cbn [doc set_doc].
      rewrite (get_latest_own m d k id Ha Hl), rec_empty_own by done. cbv iota beta. rewrite rec_empty_own by done.
      unfold get_bytes, own_record. cbn [blobs set_doc r_hash]. rewrite lookup_insert_eq. by rewrite utf8_lossy_valid. }
    rewrite Hown. rewrite decide_True by done. intros [= <- <-]. exists i. by rewrite Ec.
Qed.

Lemma ip_candidate_range id i : is_virtual_addr (ip_candidate id i).1 = true /\ is_siit_pool_addr (ip_candidate id i).1 = false.
Proof.
  unfold ip_candidate. cbn [fst]. set (off := u32 _ mod VIP_ALLOC_SIZE).
  assert (0 <= off < 4128768) as Ho by (apply Z.mod_pos_bound; done). clearbody off.
  unfold v4_of_u32, is_virtual_addr, is_siit_pool_addr, CGNAT_BASE.
  rewrite !Z.shiftr_div_pow2 by lia.
  assert (u8 ((1681915904 + off) / 2 ^ 24) = 100) as -> by zbytes.
  assert (u8 ((1681915904 + off) / 2 ^ 16) = 64 + off / 65536) as -> by zbytes.
  assert (0 <= off / 65536 <= 62) by (Z.div_mod_to_equations; lia).
  rewrite Z.eqb_refl, !andb_true_l. split; [apply andb_true_iff; rewrite !Z.leb_le; lia|apply Z.eqb_neq; lia].
Qed.
End Claims.

(** Claiming an address: a member without one that claims successfully gets an address of the
    network's range and outside the translation pool, and the allocation table names it as the owner. *)
Theorem claim_virtual_ip_sound `{!ContentHash, !DocCrates, !Clock} `{!MonotoneClock} id d d' ip :
  id <> EmptyString -> utf8_valid (str_bytes id) = true -> can_write d = true -> ahead d ->
  get_virtual_ip id d = (d, inr None) -> claim_virtual_ip id d = (d', inr ip) ->
  is_virtual_addr ip = true /\ is_siit_pool_addr ip = false /\
  lookup_ip_owner (KEY_IP_PREFIX +:+ print_ipv4 ip) d' = (d', inr (Some id)).
Proof.
  intros Hne Hu Hw Ha Hg. unfold claim_virtual_ip, mbind, M_bind. rewrite Hg. intros Hc.
  apply claim_probe_sound in Hc as (j & -> & Hl); [|done..].
  destruct (ip_candidate_range id j) as [Hv Hp]. by split_and!.
Qed.

(** ** Concrete crates, for examples *)
Definition demo_peer_key (p : Peer) : positive :=
  encode (node_id p, name p, authorized_at p, last_seen p, username p, role p,
          (role_name p, netdoc_author p, self_doc p, vip p, vpn_endpoint p, site_id p, sandbox p)).
Definition demo_peer_of (n : positive) : option Peer :=
  '(a, b, c, d, e, f, (g, h, i, j, k, l, m)) ← decode n;
  Some {| node_id := a; name := b; authorized_at := c; last_seen := d; username := e; role := f; role_name := g;
          netdoc_author := h; self_doc := i; vip := j; vpn_endpoint := k; site_id := l; sandbox := m |}.
Definition demo_role_key (r : RoleDefinition) : positive :=
  encode (rd_name r, host_tags r, match user_mode r with Individual => true | SharedUser => false end, sudo r, admin r, groups r,
          (shell r, network_only r, rd_sandbox r, capabilities r, exec_tags r, search_tags r)).
Definition demo_role_of (n : positive) : option RoleDefinition :=
  '(a, b, c, d, e, f, (g, h, i, j, k, l)) ← decode n;
  Some {| rd_name := a; host_tags := b; user_mode := if (c : bool) then Individual else SharedUser; sudo := d;
          admin := e; groups := f; shell := g; network_only := h; rd_sandbox := i; capabilities := j; exec_tags := k;
          search_tags := l |}.

Fixpoint bits (n : positive) : string :=
  match n with xH => "!" | xO n' => String "0" (bits n') | xI n' => String "1" (bits n') end%string.
Fixpoint unbits (s : string) : option positive :=
  match s with
  | String "0" s' => xO <$> unbits s'
  | String "1" s' => xI <$> unbits s'
  | String "!" EmptyString => Some xH
  | _ => None
  end%string.
Lemma unbits_bits n : unbits (bits n) = Some n.
Proof. induction n as [n IH|n IH|]; cbn; [by rewrite IH..|done]. Qed.
Lemma bits_nonempty n : bits n <> EmptyString.
Proof. by destruct n. Qed.

(** A digest that gives two nodes one home address and a third its neighbour. *)
Definition demo_digest (b : bytes) : bytes :=
  if decide (b = str_bytes "alice") then replicate 32 0 else [0; 0; 0; 11] ++ replicate 28 0.
Definition demo_doc_crates : DocCrates.
Proof.
  refine {| peer_json := fun p => bits (demo_peer_key p); parse_peer := fun s => unbits s ≫= demo_peer_of;
            role_json := fun r => bits (demo_role_key r); parse_role := fun s => unbits s ≫= demo_role_of;
            revocation_json := fun r => bits (encode (rev_node_id r, rev_reason r, revoked_at r));
            utf8_lossy := fun s => s; doc_sha256 := demo_digest |}.
  - intros p. rewrite unbits_bits. cbn [mbind option_bind]. unfold demo_peer_of, demo_peer_key.
    rewrite decode_encode. by destruct p.
  - intros p. apply bits_nonempty.
  - intros r. rewrite unbits_bits. cbn [mbind option_bind]. unfold demo_role_of, demo_role_key.
    rewrite decode_encode. destruct r as [? ? [] ? ? ? ? ? ? ? ? ?]; done.
  - intros r. apply bits_nonempty.
  - intros r. apply bits_nonempty.
  - done.
  - intros b. unfold demo_digest. by case_decide.
  - intros b. unfold demo_digest. case_decide; apply (bool_decide_unpack _); by vm_compute.
Defined.
Definition demo_content_hash : ContentHash := {| content_hash := fun s => Z.pos (encode s) |}.
Definition demo_clock : Clock := {| system_time_now := fun n => Z.of_nat n |}.
Lemma demo_clock_mono : MonotoneClock (H := demo_clock).
Proof. intros n. cbn. lia. Qed.

(** Addresses are handed out twice: the table's keys are dotted addresses, and recording one clears
    the records of those it is a textual prefix of.  After bob is given 100.64.0.12 and alice
    100.64.0.1, bob's record is gone and carol is given 100.64.0.12 as well. *)
Theorem address_handed_out_twice :
  let claim := claim_virtual_ip (H := demo_content_hash) (H0 := demo_doc_crates) (H1 := demo_clock) in
  ((b ← claim "bob"; a ← claim "alice"; c ← claim "carol"; mret [b; a; c])%string (founding [])).2 =
  inr [V4 100 64 0 12; V4 100 64 0 1; V4 100 64 0 12].
Proof. by vm_compute. Qed.

(** ** Witnesses *)
Definition demo_rec (ts : Z) (s : string) : Rec :=
  {| r_ts := ts; r_hash := Z.pos (encode s); r_len := Z.of_nat (String.length s) |}.
Definition mallory : AuthorId := [9].

Lemma forged_entries_inert_witness :
  list_peers (H0 := demo_doc_crates) (set_doc (receive_all ∅ [((mallory, "peer/m"%string), demo_rec 5 "forged")]) ∅ 0
    (founding [1])) = list_peers (H0 := demo_doc_crates) (founding [1]).
Proof.
  apply (forged_entries_inert (H := demo_content_hash) (H0 := demo_doc_crates) (H1 := demo_clock) (founding [1]) [1]
    [((mallory, "peer/m"%string), demo_rec 5 "forged")]).
  - done.
  - done.
  - cbn. set_solver.
  - repeat constructor. cbn. set_solver.
Defined.


Definition revoked_doc : Netdoc :=
  (revoke (H := demo_content_hash) (H0 := demo_doc_crates) (H1 := demo_clock) "peer" "lost" "0" (founding [1])).1.
Lemma revoked_doc_records a k r : doc revoked_doc !! (a, k) = Some r -> a = [1] /\ r_ts r < 9.
Proof.
  intros E. apply elem_of_map_to_list, list_elem_of_In in E.
  assert (forallb (fun e => bool_decide (e.1.1 = [1]) && (r_ts e.2 <? 9)) (map_to_list (doc revoked_doc)) = true) as H
    by (by vm_compute).
  rewrite forallb_forall in H. apply H, andb_true_iff in E as [?%bool_decide_eq_true ?%Z.ltb_lt]. done.
Qed.
Lemma revocation_masked_witness :
  is_revoked revoked_doc "peer" = true /\
  is_revoked (set_doc (receive (doc revoked_doc) ((mallory, "revocation/peer"%string), demo_rec 9 "x"))
    (blobs revoked_doc) (writes revoked_doc) revoked_doc) "peer" = false.
Proof.
  split; [by vm_compute|].
  apply (revocation_masked (H := demo_content_hash) (H0 := demo_doc_crates) (H1 := demo_clock) revoked_doc "peer"
    mallory (demo_rec 9 "x")).
  - split; [done|by exists [1]].
  - apply (bool_decide_unpack _). by vm_compute.
  - by vm_compute.
  - done.
  - intros k. destruct (doc revoked_doc !! (mallory, k)) as [r|] eqn:E; [|done].
    by apply revoked_doc_records in E as [? _].
  - intros a' r' E. by apply revoked_doc_records in E as [_ ?].
Defined.

Lemma role_prefix_erased_witness :
  exists d, (_ ← put_role (H := demo_content_hash) (H0 := demo_doc_crates) (H1 := demo_clock) (demo_role "developer" ["staging"]);
             put_role (H := demo_content_hash) (H0 := demo_doc_crates) (H1 := demo_clock) (demo_role "dev" []))%string
    (founding [1]) = (d, inr tt) /\ demo_role "developer" ["staging"]%string ∉ list_roles (H0 := demo_doc_crates) d.
Proof.
  pose proof demo_clock_mono as Hc.
  destruct (role_prefix_erased (H := demo_content_hash) (H0 := demo_doc_crates) (H1 := demo_clock) (H2 := Hc)
    [1] (demo_role "developer" ["staging"]) (demo_role "dev" []) "eloper"%string ltac:(done) ltac:(done))
    as (d & E & Hr & _).
  exists d. split; [exact E|]. rewrite Hr. done.
Defined.

Lemma claim_virtual_ip_sound_witness :
  exists d', claim_virtual_ip (H := demo_content_hash) (H0 := demo_doc_crates) (H1 := demo_clock) "bob" (founding [1])
    = (d', inr (V4 100 64 0 12)) /\ is_siit_pool_addr (V4 100 64 0 12) = false.
Proof.
  pose proof demo_clock_mono as Hc. eexists. split; [by vm_compute|].
  eapply (claim_virtual_ip_sound (H := demo_content_hash) (H0 := demo_doc_crates) (H1 := demo_clock)
    (H2 := Hc) "bob" (founding [1])); [done|done|done|apply founding_ahead|by vm_compute|by vm_compute].
Defined.
