(* ===== verification/NetAuth.v ===== *)
(** * NetAuth: the network document implements what authentication relies on

    Authentication is verified against an interface of the document (Auth.v).  A
    replica whose clock is ahead of its records implements it: admitting a peer
    touches no revocation, and clearing a revocation lifts it. *)
From S2P Require Import Prelude Addr Text Config DocStore Acl Netdoc.
From S2P Require Auth.
Local Open Scope Z_scope.

Section Quiet.
Context `{!ContentHash, !DocCrates, !Clock} `{!MonotoneClock}.
Implicit Types d : Netdoc.

(** The revocations and the trust state stay, and the clock stays ahead. *)
Definition quiet d d' : Prop :=
  validation_mode d' = validation_mode d /\ founder_author d' = founder_author d /\
  admin_authors d' = admin_authors d /\ can_write d' = can_write d /\
  (forall a k, starts_with KEY_REVOCATION_PREFIX k = true -> doc d' !! (a, k) = doc d !! (a, k)) /\ ahead d' /\
  federated d' = federated d /\ author d' = author d.
Definition quiet_op {A} (m : M A) : Prop := forall d, ahead d -> quiet d (m d).1.

Lemma quiet_refl d : ahead d -> quiet d d.
Proof. intros Ha. by split_and!. Qed.
Lemma quiet_trans d1 d2 d3 : quiet d1 d2 -> quiet d2 d3 -> quiet d1 d3.
Proof.
  intros (F1 & F2 & F3 & F4 & F5 & F6 & F7 & F8) (G1 & G2 & G3 & G4 & G5 & G6 & G7 & G8). split_and!; try congruence; [|done].
  intros a k Hk. by rewrite G5, F5.
Qed.
Lemma quiet_ret {A} (a : A) : quiet_op (mret a).
Proof. intros d Ha. by apply quiet_refl. Qed.
Lemma quiet_gets {A} (f : Netdoc -> A) : quiet_op (gets f).
Proof. intros d Ha. by apply quiet_refl. Qed.
Lemma quiet_fail {A} e : quiet_op (A := A) (fail e).
Proof. intros d Ha. by apply quiet_refl. Qed.
Lemma quiet_bind {A B} (m : M A) (f : A -> M B) : quiet_op m -> (forall a, quiet_op (f a)) -> quiet_op (m ≫= f).
Proof.
  intros Hm Hf d Ha. unfold mbind, M_bind. specialize (Hm d Ha). destruct (m d) as [d1 [e|a]]; [done|].
  cbn [fst] in Hm. eapply quiet_trans; [exact Hm|]. apply Hf, Hm.
Qed.
Lemma quiet_attempt {A} (m : M A) : quiet_op m -> quiet_op (attempt m).
Proof. intros Hm d Ha. unfold attempt. specialize (Hm d Ha). by destruct (m d) as [d1 [e|a]]. Qed.
Lemma quiet_get_bytes h : quiet_op (get_bytes h).
Proof. intros d Ha. unfold get_bytes. case_match; by apply quiet_refl. Qed.
Lemma quiet_invalidate : quiet_op invalidate_reach_cache.
Proof. intros d Ha. by split_and!. Qed.

(** Writing at a key no revocation key extends. *)
Lemma quiet_put k v : (forall k', starts_with KEY_REVOCATION_PREFIX k' = true -> starts_with k k' = false) ->
  quiet_op (put_record k v).
Proof.
  intros Hk d Ha. destruct (can_write d) eqn:Hw.
  - destruct (put_record_ahead k v d Hw Ha) as (m & E & Hl & Ha'). rewrite E. cbn [fst]. split_and!; try done.
    intros a k' Hk'. cbn [doc set_doc]. rewrite Hl. specialize (Hk k' Hk').
    rewrite decide_False by (intros [= -> ->]; by rewrite starts_with_refl in Hk).
    by rewrite decide_False by (intros [_ ?]; congruence).
  - unfold put_record. rewrite Hw. by apply quiet_refl.
Qed.
Lemma quiet_set k v : (forall k', starts_with KEY_REVOCATION_PREFIX k' = true -> starts_with k k' = false) ->
  quiet_op (set_bytes k v).
Proof. intros Hk. unfold set_bytes. case_decide; [apply quiet_fail|by apply quiet_put]. Qed.

Lemma key_apart p s : p ∈ ["peer/"; "ip/"; "siteid/"; "role/"]%string ->
  forall k', starts_with KEY_REVOCATION_PREFIX k' = true -> starts_with (p +:+ s) k' = false.
Proof.
  intros Hp k' (t & ->)%starts_with_spec. apply not_true_is_false. intros (t' & Ht)%starts_with_spec.
  rewrite !elem_of_cons in Hp. destruct Hp as [->|[->|[->|[->|Hp]]]]; [done..|by apply elem_of_nil in Hp].
Qed.

Lemma quiet_get_peer id : quiet_op (get_peer id).
Proof.
  apply quiet_bind; [apply quiet_gets|]. intros d. cbv zeta.
  destruct (get_latest (doc d) _) as [[a r]|]; [|apply quiet_ret]. destruct (negb _); [apply quiet_ret|].
  unfold decode_entry. destruct (rec_empty r); [apply quiet_ret|]. apply quiet_bind; [apply quiet_get_bytes|].
  intros v. destruct (parse_peer v); [apply quiet_ret|apply quiet_fail].
Qed.
Lemma quiet_lookup k : quiet_op (lookup_ip_owner k).
Proof.
  intros d Ha. destruct (lookup_ip_owner_state k d) as [res ->]. by apply quiet_refl.
Qed.
Lemma quiet_collect {A} p (parse : string -> option A) l : quiet_op (collect p parse l).
Proof.
  induction l as [|e l IH]; [apply quiet_ret|]. cbn [collect]. apply quiet_bind; [apply quiet_gets|]. intros d.
  case_match; [|exact IH]. apply quiet_bind; [apply quiet_get_bytes|]. intros v.
  apply quiet_bind; [exact IH|]. intros rest. apply quiet_ret.
Qed.
Lemma quiet_probe {A} id (cand : Z -> A * string) fuel :
  (forall i k', starts_with KEY_REVOCATION_PREFIX k' = true -> starts_with (cand i).2 k' = false) ->
  forall i, quiet_op (claim_probe id cand i fuel).
Proof.
  intros Hc. induction fuel as [|f IH]; intros i; [apply quiet_fail|]. cbn [claim_probe].
  specialize (Hc i) as Hi. destruct (cand i) as [c k]. cbn [snd] in Hi.
  apply quiet_bind; [apply quiet_lookup|]. intros [owner|].
  - case_decide; [apply quiet_ret|apply IH].
  - apply quiet_bind; [by apply quiet_set|]. intros _. apply quiet_bind; [apply quiet_lookup|].
    intros [owner|]; [case_decide; [apply quiet_ret|apply IH]|apply quiet_ret].
Qed.
Lemma quiet_claim_ip id : quiet_op (claim_virtual_ip id).
Proof.
  apply quiet_bind.
  - apply quiet_bind; [apply quiet_bind; [apply quiet_gets|intros d; apply quiet_collect]|]. intros l. apply quiet_ret.
  - intros [ip|]; [apply quiet_ret|]. apply quiet_probe. intros i. cbn. apply key_apart. set_solver.
Qed.
Lemma quiet_claim_site id : quiet_op (claim_site_id id).
Proof.
  apply quiet_bind.
  - apply quiet_bind; [apply quiet_get_peer|]. intros o. case_match; [apply quiet_ret|].
    apply quiet_bind; [apply quiet_bind; [apply quiet_gets|intros d; apply quiet_collect]|]. intros l. apply quiet_ret.
  - intros [s|]; [apply quiet_ret|]. apply quiet_probe. intros i. cbn. apply key_apart. set_solver.
Qed.
Lemma quiet_put_peer p : quiet_op (put_peer p).
Proof.
  apply quiet_bind; [apply quiet_set, key_apart; set_solver|]. intros _. apply quiet_invalidate.
Qed.
Lemma quiet_admit p : quiet_op (admit_peer p).
Proof.
  unfold admit_peer. apply quiet_bind; [apply quiet_gets|]. intros anchor.
  apply quiet_bind.
  { case_match; [|apply quiet_ret]. apply quiet_bind; [apply quiet_attempt, quiet_claim_ip|]. intros r. apply quiet_ret. }
  intros v. apply quiet_bind; [apply quiet_gets|]. intros anchor'.
  apply quiet_bind; [case_match; [apply quiet_attempt, quiet_claim_site|apply quiet_ret]|].
  intros s. apply quiet_put_peer.
Qed.

Lemma quiet_for_each {A} (f : A -> M unit) l : (forall x, quiet_op (f x)) -> quiet_op (for_each l f).
Proof. intros Hf. induction l as [|x l IH]; [apply quiet_ret|]. cbn [for_each]. apply quiet_bind; [apply Hf|by intros _]. Qed.
Lemma quiet_put_role r : quiet_op (put_role r).
Proof. apply quiet_bind; [apply quiet_set, key_apart; set_solver|]. intros _. apply quiet_invalidate. Qed.

(** Reconciling a shared document only adds. *)
Lemma quiet_reconcile stamp peers roles d : federated d = true -> ahead d -> quiet d (reconcile stamp peers roles d).1.
Proof.
  intros Hf Ha. unfold reconcile.
  set (adds := for_each peers _). assert (quiet_op adds) as Hq1.
  { apply quiet_for_each. intros p. apply quiet_bind; [apply quiet_gets|]. intros d0. case_match; [apply quiet_ret|].
    apply quiet_bind; [apply quiet_get_peer|]. intros [x|]; [apply quiet_ret|apply quiet_admit]. }
  assert (quiet_op (for_each roles put_role)) as Hq2 by (apply quiet_for_each, quiet_put_role).
  unfold mbind, M_bind at 1. specialize (Hq1 d Ha). destruct (adds d) as [d1 [e|[]]]; [exact Hq1|]. cbn [fst] in Hq1.
  assert (federated d1 = true) as Hf1 by (by destruct Hq1 as (_ & _ & _ & _ & _ & _ & -> & _)).
  assert (ahead d1) as Ha1 by apply Hq1. unfold gets, M_bind at 1 2. rewrite Hf1. unfold mret, M_ret, M_bind at 1.
  specialize (Hq2 d1 Ha1). destruct (for_each roles put_role d1) as [d2 [e|[]]]; cbn [fst] in Hq2 |- *; [by eapply quiet_trans|].
  assert (federated d2 = true) as Hf2 by (destruct Hq2 as (_ & _ & _ & _ & _ & _ & -> & _); done).
  unfold gets, M_bind. cbn. rewrite Hf2. cbn. by eapply quiet_trans.
Qed.

Lemma quiet_is_revoked d d' id : quiet d d' -> is_revoked d' id = is_revoked d id.
Proof.
  intros (Hm & Hf & Had & _ & Hd & _). apply is_revoked_ext.
  - apply get_latest_ext. intros a. apply Hd. apply starts_with_sapp.
  - intros k a. unfold validate_entry. by rewrite Hm, Hf, Had.
Qed.

(** Clearing also keeps the clock ahead. *)
Lemma clear_ahead id d : ahead d -> ahead (clear_revocation id d).1.
Proof.
  intros Ha. destruct (can_write d) eqn:Hw.
  - destruct (clear_ok id d Hw Ha) as (m & b & E & Ha' & _). rewrite E. exact Ha'.
  - unfold clear_revocation, doc_del, put_record, mbind, M_bind. rewrite Hw. exact Ha.
Qed.
Lemma clear_lifts id d d' : ahead d -> clear_revocation id d = (d', inr tt) -> is_revoked d' id = false.
Proof.
  intros Ha E. destruct (can_write d) eqn:Hw.
  - destruct (clear_ok id d Hw Ha) as (m & b & E' & _ & Hr). rewrite E in E'. injection E' as ->. exact Hr.
  - unfold clear_revocation, doc_del, put_record, mbind, M_bind in E. by rewrite Hw in E.
Qed.

Lemma clear_latest id d d' : ahead d -> clear_revocation id d = (d', inr tt) ->
  get_latest (doc d') (KEY_REVOCATION_PREFIX +:+ id) = None.
Proof.
  intros Ha E. destruct (can_write d) eqn:Hw.
  - destruct (doc_del_ahead (KEY_REVOCATION_PREFIX +:+ id) d Hw Ha) as (m & E' & Hn & _).
    unfold clear_revocation, mbind, M_bind in E. rewrite E' in E. injection E as <-. exact Hn.
  - unfold clear_revocation, doc_del, put_record, mbind, M_bind in E. by rewrite Hw in E.
Qed.

(** ** The interface *)
Definition Synced : Type := { d : Netdoc | ahead d }.
Definition on_synced {A} (m : M A) (Hm : forall d, ahead d -> ahead (m d).1) (s : Synced) : option (Synced * A) :=
  match (m (`s)).2 with
  | inr a => Some (exist _ (m (`s)).1 (Hm (`s) (proj2_sig s)), a)
  | inl _ => None
  end.
Lemma quiet_ahead {A} (m : M A) : quiet_op m -> forall d, ahead d -> ahead (m d).1.
Proof. intros Hm d Ha. apply (Hm d Ha). Qed.

#[export, refine] Instance netdoc_for_auth : Auth.NetDoc Synced := {|
  Auth.is_revoked := fun s id => Some (is_revoked (`s) id);
  Auth.clear_revocation := fun s id => fst <$> on_synced (clear_revocation id) (clear_ahead id) s;
  Auth.admit_peer := fun s p => fst <$> on_synced (admit_peer p) (quiet_ahead _ (quiet_admit p)) s;
  Auth.get_peer := fun s id => snd <$> on_synced (get_peer id) (quiet_ahead _ (quiet_get_peer id)) s |}.
Proof.
  - intros [d Ha] id s'. unfold on_synced. cbn [proj1_sig]. destruct ((clear_revocation id d).2) as [e|[]] eqn:E;
      [done|]. intros [= <-]. cbn. f_equal. apply (clear_lifts id d); [done|].
    destruct (clear_revocation id d) as [d1 r1]. cbn in *. by subst r1.
  - intros [d Ha] p s' id. unfold on_synced. cbn [proj1_sig]. pose proof (quiet_admit p d Ha) as Hq.
    destruct ((admit_peer p d).2) eqn:E; [done|]. intros [= <-]. cbn. f_equal. by apply quiet_is_revoked.
Defined.
End Quiet.

(** Re-admission takes effect: when re-admitting by a node-id prefix succeeds, the member it names
    is the first of the local roster with that prefix, and it is no longer revoked, although address
    claims and the roster entry were written after the revocation was cleared. *)
Theorem readmit_effective `{!ContentHash, !DocCrates, !Clock} `{!MonotoneClock} peers prefix d d' id nm :
  ahead d -> readmit_member peers prefix d = (d', inr (id, nm)) ->
  (exists p, find (fun p => starts_with prefix (node_id p)) peers = Some p /\ node_id p = id) /\
  is_revoked d' id = false.
Proof.
  intros Ha. unfold readmit_member. destruct (find _ peers) as [p|] eqn:Ef; [|done].
  unfold mbind, M_bind. destruct (clear_revocation (node_id p) d) as [d1 [e|[]]] eqn:E1; [done|].
  pose proof (clear_ahead (node_id p) d Ha) as Ha1. rewrite E1 in Ha1. cbn [fst] in Ha1.
  pose proof (quiet_admit p d1 Ha1) as Hq. destruct (admit_peer p d1) as [d2 [e|[]]] eqn:E2; [done|]. cbn [fst] in Hq.
  unfold modify. intros [= <- <- <-]. split; [by exists p|].
  assert (get_latest (doc d1) (KEY_REVOCATION_PREFIX +:+ node_id p) = None) as Hn
    by exact (clear_latest (node_id p) d d1 Ha E1).
  apply is_revoked_none.
  assert (doc (refresh_admin_authors d2) = doc d2) as -> by (unfold refresh_admin_authors; by case_match).
  rewrite <-Hn. apply get_latest_ext. intros a. apply Hq, starts_with_sapp.
Qed.

Lemma readmit_effective_witness :
  let run := readmit_member (H := demo_content_hash) (H0 := demo_doc_crates) (H1 := demo_clock)
    [demo_member "peer" "member"]%string "pe" revoked_doc in
  is_revoked revoked_doc "peer" = true /\ run.2 = inr ("peer", "peer")%string /\
  is_revoked run.1 "peer" = false.
Proof.
  intros run. split; [by vm_compute|].
  assert (run.2 = inr ("peer", "peer")%string) as E by (by vm_compute). split; [exact E|].
  refine (proj2 (readmit_effective (H := demo_content_hash) (H0 := demo_doc_crates) (H1 := demo_clock)
    (H2 := demo_clock_mono) [demo_member "peer" "member"]%string "pe" revoked_doc run.1 "peer" "peer" _ _)).
  - intros a k r Hk. apply elem_of_map_to_list, list_elem_of_In in Hk.
    assert (forallb (fun e : (AuthorId * string) * Rec => r_ts e.2 <? 2) (map_to_list (doc revoked_doc)) = true) as Hb
      by (by vm_compute).
    rewrite forallb_forall in Hb. apply Hb, Z.ltb_lt in Hk. exact Hk.
  - rewrite <-E. apply surjective_pairing.
Defined.
