(* ===== verification/Fs.v ===== *)
(** * Fs: paths and a file system

    What the transfer code uses of [std::path] and [std::fs].  A path is the list
    of components [Path::components] yields.  A file system maps the absolute name
    list of every entry but the root to a file, a directory or a symbolic link;
    resolution follows links as POSIX does, at most forty of them.  A mode is the
    permission bits.  What cannot be read is a parameter of
    the walk (Listing.v); writing meets no permissions, a directory's own time does not change when its
    entries do, and the other I/O errors are those the shape of the tree causes. *)
From S2P Require Import Prelude Text Policy.
From Stdlib Require Import Ascii.
Local Open Scope Z_scope.

(** ** [std::path] *)
Definition component_of (first : bool) (piece : string) : option Component :=
  if decide (piece = EmptyString) then None
  else if decide (piece = ".")%string then (if first then Some CurDir else None)
  else if decide (piece = "..")%string then Some ParentDir
  else Some (Normal piece).
Definition components (s : string) : Path :=
  let pieces := split_char "/" s in
  match s with
  | String "/" _ => RootDir :: omap (component_of false) pieces
  | _ => match pieces with
         | [] => []
         | p :: ps => option_list (component_of true p) ++ omap (component_of false) ps
         end
  end.
Definition is_absolute (p : Path) : bool := match p with RootDir :: _ => true | _ => false end.
(** [PathBuf::join]: a leading [.] of the joined path disappears. *)
Definition path_join (base rel : Path) : Path :=
  if is_absolute rel then rel
  else match base with [] => rel | _ => base ++ base.filter (fun c => c <> CurDir) rel end.
Definition path_parent (p : Path) : option Path := (fun x => rev x.2) <$> parent_rev (rev p).
Definition file_name (p : Path) : option string := match rev p with Normal n :: _ => Some n | _ => None end.
Definition with_file_name (p : Path) (n : string) : Path :=
  path_push (match file_name p with Some _ => path_pop p | None => p end) (Normal n).

(** ** The tree *)
Inductive node :=
  | File (content : bytes) (mode mtime : Z)
  | Dir (mode mtime : Z)
  | Link (target : string) (mtime : Z).
#[export] Instance node_eq_dec : EqDecision node.
Proof. solve_decision. Defined.
Abbreviation fs := (gmap (list string) node).

Definition is_dir_node (n : node) : bool := match n with Dir _ _ => true | _ => false end.
Definition is_link_node (n : node) : bool := match n with Link _ _ => true | _ => false end.
(** The root is a directory. *)
Definition node_at (m : fs) (p : list string) : option node :=
  match p with [] => Some (Dir 493 0) | _ => m !! p end.
Definition dir_at (m : fs) (p : list string) : bool :=
  match node_at m p with Some n => is_dir_node n | None => false end.

(** What a path leads to: an entry, a name missing in a directory, or nothing
    ([true] when a directory on the way is missing). *)
Inductive found := At (p : list string) | Missing (dir : list string) (name : string) | Broken (enoent : bool).

(** [follow]: whether a link at the end is followed. *)
Fixpoint resolve (links : nat) (m : fs) (follow : bool) : list string -> Path -> found :=
  fix go (cur : list string) (comps : Path) : found :=
    match comps with
    | [] => At cur
    | RootDir :: r => go [] r
    | CurDir :: r => go cur r
    | ParentDir :: r => go (removelast cur) r
    | Normal n :: r =>
        match m !! (cur ++ [n]), r with
        | None, [] => Missing cur n
        | None, _ => Broken true
        | Some (File _ _ _), [] => At (cur ++ [n])
        | Some (File _ _ _), _ => Broken false
        | Some (Dir _ _), _ => go (cur ++ [n]) r
        | Some (Link t _), r =>
            match r, follow with
            | [], false => At (cur ++ [n])
            | _, _ => match links with
                      | O => Broken false
                      | S l => resolve l m follow cur (components t ++ r)
                      end
            end
        end
    end.
Definition MAXSYMLINKS : nat := 40.
Definition stat (m : fs) (p : Path) : found := resolve MAXSYMLINKS m true [] p.
Definition lstat (m : fs) (p : Path) : found := resolve MAXSYMLINKS m false [] p.
Definition abs_names (p : list string) : Path := RootDir :: map Normal p.

(** ** [std::fs] *)
Class FsEnv := { fs_now : Z; new_file_mode : Z; new_dir_mode : Z }.

Definition exists_ (m : fs) (p : Path) : bool := match stat m p with At _ => true | _ => false end.
Definition metadata (m : fs) (p : Path) : option node := match stat m p with At q => node_at m q | _ => None end.
Definition is_dir (m : fs) (p : Path) : bool := match metadata m p with Some n => is_dir_node n | None => false end.
Definition is_file (m : fs) (p : Path) : bool := match metadata m p with Some (File _ _ _) => true | _ => false end.
Definition canonicalize_in (m : fs) (p : Path) : option Path :=
  match stat m p with At q => Some (abs_names q) | _ => None end.
Definition read_file (m : fs) (p : Path) : option bytes :=
  match metadata m p with Some (File c _ _) => Some c | _ => None end.

Section Ops.
Context `{!FsEnv}.

(** [mkdir(2)]: the new tree, or whether the failure is [NotFound]. *)
Definition mkdir (m : fs) (p : Path) : bool + fs :=
  match lstat m p with
  | Missing d n => inr (<[d ++ [n] := Dir new_dir_mode fs_now]> m)
  | At _ => inl false
  | Broken nf => inl nf
  end.
(** [fs::create_dir_all], on the reversed components. *)
Fixpoint create_dir_all_rev (m : fs) (rp : Path) : option fs :=
  match rp with
  | [] => Some m
  | c :: rp' =>
      match mkdir m (rev rp) with
      | inr m' => Some m'
      | inl false => if is_dir m (rev rp) then Some m else None
      | inl true =>
          match c with
          | RootDir => None
          | _ =>
              match create_dir_all_rev m rp' with
              | None => None
              | Some m1 =>
                  match mkdir m1 (rev rp) with
                  | inr m2 => Some m2
                  | inl _ => if is_dir m1 (rev rp) then Some m1 else None
                  end
              end
          end
      end
  end.
Definition create_dir_all (m : fs) (p : Path) : option fs := create_dir_all_rev m (rev p).

(** [File::create]: the entry the handle writes to; a file that exists is truncated. *)
Definition file_create (m : fs) (p : Path) : option (list string * fs) :=
  match stat m p with
  | At q => match m !! q with
            | Some (File _ mode _) => Some (q, <[q := File [] mode fs_now]> m)
            | _ => None
            end
  | Missing d n => Some (d ++ [n], <[d ++ [n] := File [] new_file_mode fs_now]> m)
  | Broken _ => None
  end.
(** [write_all] on the handle. *)
Definition write_all (m : fs) (q : list string) (data : bytes) : fs :=
  match m !! q with Some (File c mode _) => <[q := File (c ++ data) mode fs_now]> m | _ => m end.

(** [fs::rename] of something that is not a directory. *)
Definition rename (m : fs) (src dst : Path) : option fs :=
  match lstat m src with
  | At qs =>
      match m !! qs with
      | None | Some (Dir _ _) => None
      | Some n =>
          match lstat m dst with
          | Missing d nm => Some (<[d ++ [nm] := n]> (delete qs m))
          | At qd => if dir_at m qd then None else Some (<[qd := n]> (delete qs m))
          | Broken _ => None
          end
      end
  | _ => None
  end.
Definition remove_file (m : fs) (p : Path) : option fs :=
  match lstat m p with
  | At q => if dir_at m q then None else Some (delete q m)
  | _ => None
  end.
Definition remove_dir_all (m : fs) (p : Path) : option fs :=
  match lstat m p with
  | At [] => None
  | At q => Some (base.filter (fun kv : list string * node => ~ q `prefix_of` kv.1) m)
  | _ => None
  end.
Definition symlink (m : fs) (target : string) (p : Path) : option fs :=
  match lstat m p with
  | Missing d n => if decide (target = EmptyString) then None else Some (<[d ++ [n] := Link target fs_now]> m)
  | _ => None
  end.
(** [set_permissions] and [set_file_mtime], which follow links. *)
Definition set_node_meta (mode mtime : Z) (n : node) : node :=
  match n with
  | File c _ t => File c mode (if 0 <? mtime then mtime else t)
  | Dir _ t => Dir mode (if 0 <? mtime then mtime else t)
  | Link t mt => Link t mt
  end.
Definition set_meta (m : fs) (p : Path) (mode mtime : Z) : fs :=
  match stat m p with At q => alter (set_node_meta mode mtime) q m | _ => m end.
End Ops.

(** ** Well-formed trees *)
Definition valid_name (n : string) : Prop :=
  n <> EmptyString /\ n <> "."%string /\ n <> ".."%string /\ no_char "/" n = true.
#[export] Instance valid_name_dec n : Decision (valid_name n).
Proof. unfold valid_name. apply _. Defined.
Record wf_fs (m : fs) : Prop := {
  wf_names p : is_Some (m !! p) -> p <> [] /\ Forall valid_name p;
  wf_parent p n : is_Some (m !! (p ++ [n])) -> dir_at m p = true;
}.

Lemma resolve_normal l m f cur n r : resolve l m f cur (Normal n :: r) =
  match m !! (cur ++ [n]), r with
  | None, [] => Missing cur n
  | None, _ => Broken true
  | Some (File _ _ _), [] => At (cur ++ [n])
  | Some (File _ _ _), _ => Broken false
  | Some (Dir _ _), _ => resolve l m f (cur ++ [n]) r
  | Some (Link t _), r =>
      match r, f with
      | [], false => At (cur ++ [n])
      | _, _ => match l with O => Broken false | S l' => resolve l' m f cur (components t ++ r) end
      end
  end.
Proof. by destruct l. Qed.
Lemma resolve_nil l m f cur : resolve l m f cur [] = At cur.
Proof. by destruct l. Qed.
Lemma resolve_root l m f cur r : resolve l m f cur (RootDir :: r) = resolve l m f [] r.
Proof. by destruct l. Qed.

Lemma node_at_cons m p : p <> [] -> node_at m p = m !! p.
Proof. by destruct p. Qed.
Lemma dir_at_lookup m p : p <> [] -> dir_at m p = true <-> exists mode t, m !! p = Some (Dir mode t).
Proof.
  intros Hp. unfold dir_at. rewrite node_at_cons by done. destruct (m !! p) as [[]|]; cbn; split; try done; eauto.
  all: by intros (? & ? & [=]).
Qed.

Section Resolve.
Context (m : fs) (Hwf : wf_fs m).

Lemma dir_at_Some p : dir_at m p = true -> is_Some (node_at m p).
Proof. unfold dir_at. by destruct (node_at m p). Qed.
Lemma dir_at_prefix p q : is_Some (node_at m (p ++ q)) -> q <> [] -> dir_at m p = true.
Proof.
  induction q as [|n q IH] using rev_ind; [done|]. intros Hs _. rewrite app_assoc in Hs.
  rewrite node_at_cons in Hs by (by destruct (p ++ q)). apply (wf_parent m Hwf) in Hs.
  destruct q as [|x q]; [by rewrite app_nil_r in Hs|]. apply IH; [by apply dir_at_Some|done].
Qed.
Lemma dir_at_app p q : dir_at m (p ++ q) = true -> dir_at m p = true.
Proof.
  intros Hd. destruct q as [|n q]; [by rewrite app_nil_r in Hd|].
  eapply dir_at_prefix; [by apply dir_at_Some|done].
Qed.

Lemma resolve_dirs l f names r cur : dir_at m (cur ++ names) = true ->
  resolve l m f cur (map Normal names ++ r) = resolve l m f (cur ++ names) r.
Proof.
  revert cur. induction names as [|n names IH]; intros cur Hd; [by rewrite app_nil_r|].
  cbn [map app]. rewrite resolve_normal. replace (cur ++ n :: names) with ((cur ++ [n]) ++ names) in *
    by (by rewrite <-app_assoc).
  pose proof (dir_at_app _ _ Hd) as Hc. apply dir_at_lookup in Hc as (mode & t & ->); [|by destruct cur].
  by apply IH.
Qed.
Lemma resolve_last l f d n r : dir_at m d = true ->
  resolve l m f [] (abs_names (d ++ n :: r)) = resolve l m f d (Normal n :: map Normal r).
Proof.
  intros Hd. unfold abs_names. rewrite resolve_root, map_app. by rewrite (resolve_dirs l f d (map Normal (n :: r)) []).
Qed.

Lemma resolve_at l f p n : node_at m p = Some n -> is_link_node n = false \/ f = false ->
  resolve l m f [] (abs_names p) = At p.
Proof.
  intros Hp Hl. destruct p as [|x p] using rev_ind; [by destruct l|].
  rewrite resolve_last by (apply (dir_at_prefix p [x]); [by rewrite Hp|done]).
  rewrite resolve_normal. rewrite node_at_cons in Hp by (by destruct p). rewrite Hp.
  destruct n; cbn in *; [done|by rewrite resolve_nil|]. by destruct Hl as [?| ->].
Qed.
Lemma stat_at p n : node_at m p = Some n -> is_link_node n = false -> stat m (abs_names p) = At p.
Proof. intros. eapply resolve_at; eauto. Qed.
Lemma lstat_at p : is_Some (node_at m p) -> lstat m (abs_names p) = At p.
Proof. intros [n Hn]. eapply resolve_at; eauto. Qed.
Lemma resolve_missing l f d n : dir_at m d = true -> m !! (d ++ [n]) = None ->
  resolve l m f [] (abs_names (d ++ [n])) = Missing d n.
Proof. intros Hd Hn. rewrite resolve_last by done. rewrite resolve_normal. by rewrite Hn. Qed.
Lemma resolve_broken l f d n r : dir_at m d = true -> m !! (d ++ [n]) = None -> r <> [] ->
  resolve l m f [] (abs_names (d ++ n :: r)) = Broken true.
Proof. intros Hd Hn Hr. rewrite resolve_last by done. rewrite resolve_normal, Hn. by destruct r. Qed.

Lemma dir_not_link p : dir_at m p = true -> exists n, node_at m p = Some n /\ is_link_node n = false.
Proof. unfold dir_at. destruct (node_at m p) as [n|]; [|done]. intros Hn. exists n. by destruct n. Qed.
Lemma stat_dir p : dir_at m p = true -> stat m (abs_names p) = At p.
Proof. intros (n & Hn & Hl)%dir_not_link. by eapply stat_at. Qed.
Lemma exists_dir p : dir_at m p = true -> exists_ m (abs_names p) = true.
Proof. intros Hd. unfold exists_. by rewrite stat_dir. Qed.
Lemma is_dir_dir p : dir_at m p = true -> is_dir m (abs_names p) = true.
Proof. intros Hd. unfold is_dir, metadata. rewrite stat_dir by done. exact Hd. Qed.
Lemma canonicalize_dir p : dir_at m p = true -> canonicalize_in m (abs_names p) = Some (abs_names p).
Proof. intros Hd. unfold canonicalize_in. by rewrite stat_dir. Qed.
End Resolve.

(** Adding an entry in a directory, or replacing one that is not, keeps the tree well-formed. *)
Lemma dir_at_insert m p q nd : p <> [] -> (dir_at m p = true -> is_dir_node nd = true) ->
  dir_at m q = true -> dir_at (<[p := nd]> m) q = true.
Proof.
  intros Hp Hd Hq. destruct q as [|x q]; [done|]. unfold dir_at, node_at in *.
  destruct (decide (p = x :: q)) as [->|Hne]; [rewrite lookup_insert_eq|by rewrite lookup_insert_ne].
  by apply Hd.
Qed.
Lemma wf_insert m d n nd : wf_fs m -> dir_at m d = true -> Forall valid_name d -> valid_name n ->
  (dir_at m (d ++ [n]) = true -> is_dir_node nd = true) -> wf_fs (<[d ++ [n] := nd]> m).
Proof.
  intros Hwf Hd Hv Hn Hk. assert (d ++ [n] <> []) as Hne by (by destruct d). split.
  - intros p Hp. destruct (decide (p = d ++ [n])) as [->|Hpn].
    + split; [done|]. apply Forall_app. split; [done|]. by constructor.
    + rewrite lookup_insert_ne in Hp by congruence. by apply (wf_names m Hwf).
  - intros p x Hp. apply dir_at_insert; [done|done|]. destruct (decide (p ++ [x] = d ++ [n])) as [E|Hpn].
    + by apply app_inj_tail in E as [-> _].
    + rewrite lookup_insert_ne in Hp by congruence. by apply (wf_parent m Hwf) in Hp.
Qed.
(** So does removing one that is not a directory. *)
Lemma wf_delete m p : wf_fs m -> dir_at m p = false -> wf_fs (delete p m).
Proof.
  intros Hwf Hp. split.
  - intros q Hq. apply lookup_delete_is_Some in Hq as [_ Hq]. by apply (wf_names m Hwf).
  - intros q x Hq. apply lookup_delete_is_Some in Hq as [_ Hq]. apply (wf_parent m Hwf) in Hq.
    destruct q as [|y q]; [done|]. unfold dir_at, node_at in *. rewrite lookup_delete_ne; [done|].
    intros ->. congruence.
Qed.

(** ** Paths of valid names *)
Lemma component_of_valid b n : valid_name n -> component_of b n = Some (Normal n).
Proof. intros (H1 & H2 & H3 & _). unfold component_of. by rewrite !decide_False. Qed.
Lemma omap_component_valid ns : Forall valid_name ns -> omap (component_of false) ns = map Normal ns.
Proof. induction 1 as [|n ns Hn Hns IH]; [done|]. cbn. by rewrite component_of_valid, IH. Qed.
Lemma join_valid_head n ns : valid_name n -> exists c s, join "/" (n :: ns) = String c s /\ Ascii.eqb "/" c = false.
Proof.
  intros (H1 & _ & _ & H4). destruct n as [|c n]; [done|]. apply andb_true_iff in H4 as [Hc _].
  apply negb_true_iff in Hc. exists c. destruct ns; eexists; (split; [reflexivity|done]).
Qed.
Lemma components_join ns : ns <> [] -> Forall valid_name ns -> components (join "/" ns) = map Normal ns.
Proof.
  intros Hne Hv. destruct ns as [|n ns]; [done|]. pose proof Hv as [Hn Hns]%Forall_cons.
  assert (split_char "/" (join "/" (n :: ns)) = n :: ns) as Es.
  { apply (split_char_join "/"); [done|]. eapply Forall_impl; [exact Hv|]. by intros x (_ & _ & _ & ?). }
  destruct (join_valid_head n ns Hn) as (c & s & E & Hc). unfold components. rewrite Es, E.
  assert (omap (component_of false) (n :: ns) = map Normal (n :: ns)) as Ho by (by apply omap_component_valid).
  destruct (Ascii.eqb_spec "/" c) as [<-|Hne']; [done|].
  rewrite component_of_valid by done. cbn [option_list app].
  rewrite omap_component_valid by done. destruct c as [[] [] [] [] [] [] [] []]; try done. 
Qed.
Lemma map_Normal_inj a b : map Normal a = map Normal b -> a = b.
Proof. revert b. induction a as [|x a IH]; intros [|y b]; cbn; try done. intros [= -> E]. by rewrite (IH b). Qed.
Lemma join_inj ns ns' : ns <> [] -> ns' <> [] -> Forall valid_name ns -> Forall valid_name ns' ->
  join "/" ns = join "/" ns' -> ns = ns'.
Proof.
  intros H1 H2 Hv Hv' E. apply (f_equal components) in E. rewrite !components_join in E by done.
  by apply map_Normal_inj.
Qed.

Lemma is_absolute_normal ns : is_absolute (map Normal ns) = false.
Proof. by destruct ns. Qed.
Lemma path_join_abs b ns : path_join (abs_names b) (map Normal ns) = abs_names (b ++ ns).
Proof.
  unfold path_join. rewrite is_absolute_normal. unfold abs_names. rewrite map_app. cbn. do 2 f_equal.
  induction ns as [|n ns IH]; [done|]. cbn [map]. rewrite filter_cons_True by done. by rewrite IH.
Qed.
Lemma rev_abs_snoc p n : rev (abs_names (p ++ [n])) = Normal n :: rev (abs_names p).
Proof. unfold abs_names. by rewrite map_app, app_comm_cons, rev_app_distr. Qed.
Lemma path_parent_abs p n : path_parent (abs_names (p ++ [n])) = Some (abs_names p).
Proof. unfold path_parent. rewrite rev_abs_snoc. cbn [parent_rev fmap option_fmap option_map snd]. by rewrite rev_involutive. Qed.
Lemma file_name_abs p n : file_name (abs_names (p ++ [n])) = Some n.
Proof. unfold file_name. by rewrite rev_abs_snoc. Qed.
Lemma with_file_name_abs p n n' : with_file_name (abs_names (p ++ [n])) n' = abs_names (p ++ [n']).
Proof.
  unfold with_file_name. rewrite file_name_abs. unfold path_pop. rewrite rev_abs_snoc. cbn [parent_rev].
  rewrite rev_involutive. cbn [path_push]. unfold abs_names. by rewrite map_app.
Qed.
Lemma path_starts_with_abs p q : path_starts_with (abs_names p) (abs_names q) = true <-> q `prefix_of` p.
Proof.
  unfold path_starts_with. rewrite bool_decide_eq_true. unfold abs_names. split.
  - intros [k E]. injection E as E. apply (f_equal (omap (fun c => match c with Normal n => Some n | _ => None end))) in E.
    assert (forall l, omap (fun c => match c with Normal n => Some n | _ => None end) (map Normal l) = l) as Ho
      by (induction l as [|x l IH]; [done|]; cbn; by rewrite IH).
    rewrite omap_app, !Ho in E. by eexists.
  - intros [k ->]. exists (map Normal k). by rewrite map_app.
Qed.

(** ** Creating directories *)
Section Mkdirs.
Context `{!FsEnv}.

(** Every ancestor of [p] is a directory or missing. *)
Definition can_mkdirs (m : fs) (p : list string) : Prop :=
  forall q, q `prefix_of` p -> node_at m q = None \/ dir_at m q = true.
Definition made_dirs (m : fs) (p : list string) (m' : fs) : Prop :=
  wf_fs m' /\ dir_at m' p = true /\
  forall q, m' !! q = match m !! q with
                      | Some n => Some n
                      | None => if bool_decide (q `prefix_of` p /\ q <> []) then Some (Dir new_dir_mode fs_now) else None
                      end.

Lemma can_mkdirs_prefix m p q : can_mkdirs m (p ++ q) -> can_mkdirs m p.
Proof. intros Hc r Hr. apply Hc. etrans; [exact Hr|]. by exists q. Qed.

(** Below an existing directory, a missing path has a first missing name. *)
Lemma first_missing m d p : can_mkdirs m (d ++ p) -> dir_at m d = true -> node_at m (d ++ p) = None ->
  exists d' x r, p = d' ++ x :: r /\ dir_at m (d ++ d') = true /\ m !! ((d ++ d') ++ [x]) = None.
Proof.
  revert d. induction p as [|n p IH]; intros d Hc Hd Hn.
  { rewrite app_nil_r in Hn. unfold dir_at in Hd. by rewrite Hn in Hd. }
  destruct (Hc (d ++ [n])) as [Hx|Hx]; [exists p; by rewrite <-app_assoc|..].
  - exists [], n, p. rewrite app_nil_r. rewrite node_at_cons in Hx by (by destruct d). done.
  - destruct (IH (d ++ [n])) as (d' & x & r & -> & Hd' & Hm); [by rewrite <-app_assoc|done|by rewrite <-app_assoc|].
    exists (n :: d'), x, r. rewrite <-(app_assoc d [n]) in Hd'. rewrite <-(app_assoc d [n]) in Hm. done.
Qed.

Lemma made_dirs_refl m p : wf_fs m -> dir_at m p = true -> made_dirs m p m.
Proof.
  intros Hwf Hd. split_and!; [done|done|]. intros q. destruct (m !! q) as [n|] eqn:E; [done|].
  rewrite bool_decide_eq_false_2; [done|]. intros [[k ->] Hq].
  assert (dir_at m q = true) as Hq' by (by eapply dir_at_app). apply dir_at_lookup in Hq' as (? & ? & ?); [|done]. congruence.
Qed.
Lemma made_dirs_step m p n m1 : made_dirs m p m1 -> Forall valid_name (p ++ [n]) -> m !! (p ++ [n]) = None ->
  made_dirs m (p ++ [n]) (<[p ++ [n] := Dir new_dir_mode fs_now]> m1).
Proof.
  intros (Hwf & Hd & Hl) Hv Hn. apply Forall_app in Hv as [Hv1 Hv2]. apply Forall_cons in Hv2 as [Hv2 _]. split_and!.
  - by apply wf_insert.
  - apply dir_at_lookup; [by destruct p|]. rewrite lookup_insert_eq. by eexists _, _.
  - intros q. destruct (decide (q = p ++ [n])) as [->|Hq].
    + rewrite lookup_insert_eq, Hn. rewrite bool_decide_eq_true_2; [done|]. split; [done|by destruct p].
    + rewrite lookup_insert_ne by congruence. rewrite Hl. destruct (m !! q); [done|].
      assert (q `prefix_of` p ++ [n] <-> q `prefix_of` p) as Hiff.
      { split; [|intros Hp; etrans; [exact Hp|by exists [n]]].
        intros [k Hk]. destruct k as [|x k] using rev_ind; [rewrite app_nil_r in Hk; congruence|].
        rewrite app_assoc in Hk. apply app_inj_tail in Hk as [Hk _]. by exists k. }
      by rewrite (bool_decide_ext _ _ (and_iff_compat_r _ Hiff)).
Qed.

Lemma create_dir_all_ok m p : wf_fs m -> can_mkdirs m p -> Forall valid_name p ->
  exists m', create_dir_all m (abs_names p) = Some m' /\ made_dirs m p m'.
Proof.
  intros Hwf. unfold create_dir_all. induction p as [|n p IH] using rev_ind; intros Hc Hv.
  { exists m. split; [done|]. by apply made_dirs_refl. }
  pose proof Hv as [Hvp _]%Forall_app. pose proof (can_mkdirs_prefix _ _ _ Hc) as Hcp.
  rewrite rev_abs_snoc. cbn [create_dir_all_rev]. rewrite <-rev_abs_snoc, rev_involutive.
  destruct (Hc (p ++ [n])) as [Hx|Hx]; [done|..].
  - rewrite node_at_cons in Hx by (by destruct p). destruct (Hcp p) as [Hp|Hp]; [done|..].
    + destruct (first_missing m [] p Hcp) as (d & x & r & -> & Hd & Hm); [done|done|].
      assert (mkdir m (abs_names ((d ++ x :: r) ++ [n])) = inl true) as ->.
      { unfold mkdir, lstat. rewrite <-app_assoc. cbn [app]. by rewrite resolve_broken by (done || by destruct r). }
      destruct IH as (m1 & -> & H1); [done..|]. pose proof H1 as (Hwf1 & Hd1 & Hl1).
      assert (m1 !! ((d ++ x :: r) ++ [n]) = None) as Hn1.
      { rewrite Hl1, Hx. rewrite bool_decide_eq_false_2; [done|]. intros [Hq _]. apply prefix_length in Hq.
        rewrite !length_app in Hq. cbn in Hq. lia. }
      unfold mkdir, lstat. rewrite resolve_missing by done. eexists. split; [done|]. by apply made_dirs_step.
    + unfold mkdir, lstat. rewrite resolve_missing by done. eexists. split; [done|].
      apply made_dirs_step; [by apply made_dirs_refl|done|done].
  - assert (mkdir m (abs_names (p ++ [n])) = inl false) as -> by (unfold mkdir; by rewrite lstat_at by (done || by apply dir_at_Some)).
    rewrite is_dir_dir by done. exists m. split; [done|]. by apply made_dirs_refl.
Qed.
End Mkdirs.

(** A tree given by its entries is well-formed when each entry's names and parent are. *)
Lemma wf_from_list (l : list (list string * node)) :
  forallb (fun kv => bool_decide (kv.1 <> [] /\ Forall valid_name kv.1) &&
                     dir_at (list_to_map l) (removelast kv.1)) l = true -> wf_fs (list_to_map l).
Proof.
  rewrite forallb_forall. intros Hl. assert (forall p n, (list_to_map l : fs) !! p = Some n -> In (p, n) l) as Hin.
  { intros p n Hp. apply list_elem_of_In. by apply elem_of_list_to_map_2. }
  split.
  - intros p [n Hn%Hin]. apply Hl in Hn. apply andb_true_iff in Hn as [Hn _]. by apply bool_decide_eq_true in Hn.
  - intros p x [n Hn%Hin]. apply Hl in Hn. apply andb_true_iff in Hn as [_ Hn]. cbn [fst] in Hn. by rewrite removelast_last in Hn.
Qed.
