(* ===== verification/Listing.v ===== *)
(** * Listing: directory listings and sync plans (hop-core/src/transfer/listing.rs,
    the wire format of transfer/mod.rs)

    Walking a directory, past whatever cannot be read in it, comparing two listings, and sending
    listings and plans as messages.  A message stream is the list of messages its frames decode to;
    the framing of such a list is at the end. *)
From S2P Require Import Prelude Text Policy Delta Frame Fs.
Local Open Scope Z_scope.

(** ** The protocol's types (proto/mod.rs) *)
Record FileEntry := {
  fe_path : string; fe_size : Z; fe_mtime : Z; fe_mode : Z; fe_is_dir : bool; fe_is_symlink : bool;
  fe_symlink_target : option string; fe_content_hash : option Z;
}.
Record FileHeader := { fh_path : string; fh_size : Z; fh_mode : Z; fh_mtime : Z }.
Record DirEntry := { de_path : string; de_mode : Z; de_mtime : Z }.
#[export] Instance FileEntry_eq_dec : EqDecision FileEntry.
Proof. solve_decision. Defined.

Inductive TransferMsg :=
  | FileList (entries : list FileEntry)
  | TransferPlan (files_to_send : list FileEntry) (files_to_delete : list string) (dry_run : bool)
  | PlanAck (proceed : bool)
  | FileHeader_ (h : FileHeader)
  | FileData (data : bytes)
  | FileEnd
  | CreateDirectory (d : DirEntry)
  | DeletePath (path : string)
  | CreateSymlink (path target : string)
  | FileAck (path : string) (success : bool) (error : option string)
  | Done
  | Error_ (e : string)
  | Capabilities (compression : list string) (max_chunk_size features_version : Z)
  | Negotiated (compression : option string) (chunk_size : Z) (zstd_level : option Z)
  | FileManifest (session_id total_files total_dirs total_symlinks total_deletes : Z)
  | StreamHeader (session_id : Z)
  | BlockSignatures (path : string) (block_size : Z) (signatures : list BlockSignature)
  | DeltaHeader (path : string) (new_size mode mtime : Z)
  | DeltaOp (op : DeltaOperation)
  | DeltaEnd
  | FileListChunk (entries : list FileEntry) (last : bool)
  | TransferPlanChunk (files_to_send : list FileEntry) (files_to_delete : list string) (dry_run last : bool).

Definition DELTA_MIN_FILE_SIZE : Z := 64 * 1024.
Definition LIST_CHUNK_ENTRIES : nat := Z.to_nat 5000.

(** What ends a transfer: the stream broke, the peer reported an error, a message
    out of order, a path that leaves the destination, an I/O error, a refusal, a
    panic. *)
Inductive transfer_error :=
  | StreamBroken | PeerError (e : string) | UnexpectedMsg | PathTraversal (path : string) | IoError
  | NeedsRecursive | NoSource | PlanDeclined | PolicyDenied | UnknownMode | HelperFailed | Panicked.

(** ** Walking a directory *)
(** What reading files depends on: the hash, and what the process may read of a tree: the entries
    of a directory, an entry's metadata, a file's content or a link's target. *)
Class FileHash := {
  xxh3_64 : bytes -> Z;
  dir_readable : fs -> list string -> bool;
  entry_readable : fs -> list string -> bool;
  content_readable : fs -> list string -> bool;
}.

(** [file_mode]: the type bits with the permissions. *)
Definition file_mode (n : node) : Z :=
  match n with File _ mode _ => 32768 + mode | Dir mode _ => 16384 + mode | Link _ _ => 41471 end.

Section Walk.
Context `{!FileHash}.

(** The entry at [rel] below the base, whose names are [p]. *)
Definition listed_entry (m : fs) (p rel : list string) (n : node) : FileEntry :=
  {| fe_path := utf8_lossy (str_bytes (join "/" rel));
     fe_size := match n with File c _ _ => Z.of_nat (length c) | _ => 0 end;
     fe_mtime := Z.max 0 (match n with File _ _ t | Dir _ t | Link _ t => t end);
     fe_mode := file_mode n;
     fe_is_dir := is_dir_node n;
     fe_is_symlink := is_link_node n;
     fe_symlink_target := match n with
                          | Link t _ => if content_readable m p then Some (utf8_lossy (str_bytes t)) else None
                          | _ => None end;
     fe_content_hash := match n with File c _ _ => if content_readable m p then Some (xxh3_64 c) else None | _ => None end |}.

(** [read_dir]: the names in a directory, in some order. *)
Definition read_dir (m : fs) (d : list string) : list (string * node) :=
  omap (fun kv : list string * node =>
    match rev kv.1 with
    | n :: rp => if decide (rev rp = d) then Some (n, kv.2) else None
    | [] => None
    end) (map_to_list m).

(** [rel] is the current directory relative to the base; links are not followed, and what cannot be
    read is skipped. *)
Fixpoint walk_recursive (fuel : nat) (m : fs) (base rel : list string) : list (list string * FileEntry) :=
  match fuel with
  | O => []
  | S f =>
      if dir_readable m (base ++ rel) then
        read_dir m (base ++ rel) ≫= (fun '(n, nd) =>
          if entry_readable m (base ++ rel ++ [n]) then
            (rel ++ [n], listed_entry m (base ++ rel ++ [n]) (rel ++ [n]) nd) ::
            (if is_dir_node nd then walk_recursive f m base (rel ++ [n]) else [])
          else [])
      else []
  end.
Definition path_le (a b : FileEntry) : Prop := str_leb (fe_path a) (fe_path b) = true.
#[export] Instance path_le_dec : RelDecision path_le.
Proof. unfold path_le, RelDecision. apply _. Defined.

(** A root that is no directory cannot be read and has no entries. *)
Definition walk_directory (m : fs) (root : Path) : option (list FileEntry) :=
  match stat m root with
  | At base => Some (merge_sort path_le (map snd (
      if dir_at m base then walk_recursive (S (size m)) m base [] else [])))
  | _ => None
  end.
End Walk.

(** ** Comparing two listings *)
Record SyncPlan := { files_to_send : list FileEntry; files_to_delete : list string; delta_candidates : list string }.

Definition entry_map (l : list FileEntry) : gmap string FileEntry :=
  foldl (fun m e => <[fe_path e := e]> m) ∅ l.

(** Whether the entry is sent, and whether as a delta candidate. *)
Definition plan_entry (dest_map : gmap string FileEntry) (src : FileEntry) : bool * bool :=
  if fe_is_dir src then (true, false) else
  match dest_map !! fe_path src with
  | Some dst =>
      if negb (fe_size src =? fe_size dst) then
        (true, (DELTA_MIN_FILE_SIZE <=? fe_size src) && (DELTA_MIN_FILE_SIZE <=? fe_size dst))
      else match fe_content_hash src, fe_content_hash dst with
           | Some src_hash, Some dst_hash =>
               if negb (src_hash =? dst_hash) then (true, DELTA_MIN_FILE_SIZE <=? fe_size src) else (false, false)
           | _, _ =>
               if negb (fe_mtime src =? fe_mtime dst) then
                 (true, (DELTA_MIN_FILE_SIZE <=? fe_size src) && (DELTA_MIN_FILE_SIZE <=? fe_size dst))
               else (false, false)
           end
  | None => (true, false)
  end.
(** Longest first, then in descending order. *)
Definition delete_le (a b : string) : Prop :=
  (String.length b < String.length a)%nat \/ String.length b = String.length a /\ str_leb b a = true.
#[export] Instance delete_le_dec : RelDecision delete_le.
Proof. unfold delete_le, RelDecision. apply _. Defined.

Definition compute_sync_plan (source dest : list FileEntry) (delete_extraneous : bool) : SyncPlan :=
  let dest_map := entry_map dest in
  let source_map := entry_map source in
  {| files_to_send := base.filter (fun e => (plan_entry dest_map e).1 = true) source;
     files_to_delete :=
       if delete_extraneous then
         merge_sort delete_le
           (map fe_path (base.filter (fun e => source_map !! fe_path e = None) dest))
       else [];
     delta_candidates := map fe_path (base.filter (fun e => (plan_entry dest_map e).2 = true) source) |}.

(** ** Listings and plans on the wire: a frame is plain or compressed *)
Inductive framed := Plain (m : TransferMsg) | Packed (m : TransferMsg).
Definition frame_msg (f : framed) : TransferMsg := match f with Plain m | Packed m => m end.

(** [slice::chunks]. *)
Fixpoint chunks_fuel {A} (fuel n : nat) (l : list A) : list (list A) :=
  match fuel, l with
  | S f, _ :: _ => take n l :: chunks_fuel f n (drop n l)
  | _, _ => []
  end.
Definition chunks {A} (n : nat) (l : list A) : list (list A) := chunks_fuel (length l) n l.

(** The batches, with the running count of entries sent. *)
Fixpoint list_batches (total sent : nat) (batches : list (list FileEntry)) : list framed :=
  match batches with
  | [] => []
  | b :: bs => Packed (FileListChunk b (sent + length b =? total)%nat) :: list_batches total (sent + length b) bs
  end.
Definition write_file_list (entries : list FileEntry) (chunked : bool) : list framed :=
  if negb chunked then [Plain (FileList entries)]
  else match entries with
       | [] => [Packed (FileListChunk [] true)]
       | _ => list_batches (length entries) 0 (chunks LIST_CHUNK_ENTRIES entries)
       end.
Fixpoint read_file_list_loop (acc : list FileEntry) (msgs : list TransferMsg)
    : (transfer_error + list FileEntry) * list TransferMsg :=
  match msgs with
  | [] => (inl StreamBroken, [])
  | FileList entries :: rest => (inr entries, rest)
  | FileListChunk entries last :: rest =>
      if last then (inr (acc ++ entries), rest) else read_file_list_loop (acc ++ entries) rest
  | Error_ e :: rest => (inl (PeerError e), rest)
  | _ :: rest => (inl UnexpectedMsg, rest)
  end.
Definition read_file_list : list TransferMsg -> (transfer_error + list FileEntry) * list TransferMsg :=
  read_file_list_loop [].

Definition div_ceil (a b : nat) : nat := (a / b + (if (a mod b =? 0)%nat then 0 else 1))%nat.
(** [v.get(s..(s + n).min(v.len())).unwrap_or(&[])]. *)
Definition batch {A} (n : nat) (v : list A) (s : nat) : list A :=
  default [] (get_range v s (Nat.min (s + n) (length v))).
Definition write_transfer_plan (send : list FileEntry) (del : list string) (dry_run chunked : bool) : list framed :=
  if negb chunked then [Plain (TransferPlan send del dry_run)]
  else
    let n := LIST_CHUNK_ENTRIES in
    let send_batches := Nat.max (div_ceil (length send) n) 1 in
    let del_batches := Nat.max (div_ceil (length del) n) 1 in
    let total_batches := Nat.max send_batches del_batches in
    map (fun i => Packed (TransferPlanChunk (batch n send (i * n)%nat) (batch n del (i * n)%nat) dry_run
                            (i + 1 =? total_batches)%nat))
      (seq 0 total_batches).
Fixpoint read_plan_loop (acc_send : list FileEntry) (acc_del : list string) (msgs : list TransferMsg)
    : (transfer_error + (list FileEntry * list string * bool)) * list TransferMsg :=
  match msgs with
  | [] => (inl StreamBroken, [])
  | TransferPlan s d dry :: rest => (inr (s, d, dry), rest)
  | TransferPlanChunk s d dry last :: rest =>
      if last then (inr (acc_send ++ s, acc_del ++ d, dry), rest)
      else read_plan_loop (acc_send ++ s) (acc_del ++ d) rest
  | Error_ e :: rest => (inl (PeerError e), rest)
  | _ :: rest => (inl UnexpectedMsg, rest)
  end.
Definition read_transfer_plan : list TransferMsg ->
    (transfer_error + (list FileEntry * list string * bool)) * list TransferMsg := read_plan_loop [] [].

(** ** The wire format round-trips *)
Lemma chunks_fuel_concat {A} fuel n (l : list A) : (0 < n)%nat -> (length l <= fuel)%nat ->
  List.concat (chunks_fuel fuel n l) = l.
Proof.
  intros Hn. revert l. induction fuel as [|f IH]; intros l Hl; [by destruct l; [|cbn in Hl; lia]|].
  destruct l as [|x l]; [done|]. cbn [chunks_fuel List.concat]. rewrite IH; [apply take_drop|].
  rewrite length_drop. cbn in *. lia.
Qed.
Lemma chunks_concat {A} n (l : list A) : (0 < n)%nat -> List.concat (chunks n l) = l.
Proof. intros Hn. by apply chunks_fuel_concat. Qed.
Lemma chunks_fuel_bounds {A} fuel n (l : list A) : (0 < n)%nat ->
  Forall (fun b => b <> [] /\ (length b <= n)%nat) (chunks_fuel fuel n l).
Proof.
  intros Hn. revert l. induction fuel as [|f IH]; intros l; [constructor|]. destruct l as [|x l]; [constructor|].
  constructor; [|apply IH]. rewrite length_take. split; [by destruct n; [lia|]|lia].
Qed.
Lemma LIST_CHUNK_pos : (0 < LIST_CHUNK_ENTRIES)%nat.
Proof. unfold LIST_CHUNK_ENTRIES. lia. Qed.

Lemma read_list_batches total rest batches : forall sent acc, batches <> [] -> Forall (fun b => b <> []) batches ->
  (sent + length (List.concat batches) = total)%nat ->
  read_file_list_loop acc (map frame_msg (list_batches total sent batches) ++ rest)
    = (inr (acc ++ List.concat batches), rest).
Proof.
  induction batches as [|b bs IH]; intros sent acc Hne Hf Ht; [done|].
  apply Forall_cons in Hf as [Hb Hbs]. cbn [List.concat] in Ht. rewrite length_app in Ht.
  cbn [list_batches map frame_msg app read_file_list_loop List.concat]. destruct bs as [|b' bs].
  - cbn in Ht. replace (sent + length b =? total)%nat with true by (symmetry; apply Nat.eqb_eq; lia).
    by rewrite app_nil_r.
  - assert (0 < length (List.concat (b' :: bs)))%nat as Hpos.
    { apply Forall_cons in Hbs as [Hb' _]. cbn. rewrite length_app. destruct b'; [done|]. cbn. lia. }
    replace (sent + length b =? total)%nat with false by (symmetry; apply Nat.eqb_neq; lia).
    rewrite IH; [by rewrite <-app_assoc|done|done|lia].
Qed.

Lemma file_list_back entries chunked rest :
  read_file_list (map frame_msg (write_file_list entries chunked) ++ rest) = (inr entries, rest) /\
  (chunked = true -> Forall (fun f => exists b last, f = Packed (FileListChunk b last) /\
      (length b <= LIST_CHUNK_ENTRIES)%nat) (write_file_list entries chunked)).
Proof.
  unfold write_file_list. destruct chunked; cbn [negb]; [|done].
  destruct entries as [|e es]; [split; [done|]; intros _; repeat constructor; eexists _, _; split; [done|cbn; lia]|].
  pose proof (chunks_concat LIST_CHUNK_ENTRIES (e :: es) LIST_CHUNK_pos) as Hc.
  pose proof (chunks_fuel_bounds (length (e :: es)) LIST_CHUNK_ENTRIES (e :: es) LIST_CHUNK_pos) as Hb.
  fold (chunks LIST_CHUNK_ENTRIES (e :: es)) in Hb. split.
  - unfold read_file_list. rewrite read_list_batches; [by rewrite Hc|..].
    + intros E. by rewrite E in Hc.
    + eapply Forall_impl; [exact Hb|]. by intros ? [? _].
    + by rewrite Hc.
  - intros _. clear Hc. generalize 0%nat. induction Hb as [|b bs [_ Hlen] _ IH]; intros sent; constructor; [|apply IH].
    by eexists _, _.
Qed.

Lemma batch_take {A} n (v : list A) k : batch n v k = take n (drop k v).
Proof.
  unfold batch. destruct (le_lt_dec k (length v)) as [Hk|Hk].
  - rewrite get_range_Some by lia. cbn. destruct (le_lt_dec (k + n) (length v)).
    + f_equal. lia.
    + rewrite Nat.min_r by lia. rewrite !take_ge; rewrite ?length_drop; done || lia.
  - rewrite drop_ge by lia. unfold get_range. rewrite decide_False by lia. by rewrite take_nil.
Qed.
Lemma batches_concat {A} n (v : list A) k s :
  List.concat (map (fun i => batch n v (i * n)%nat) (seq s k)) = take (k * n) (drop (s * n) v).
Proof.
  revert s. induction k as [|k IH]; intros s; [done|]. cbn [seq map List.concat]. rewrite IH, batch_take.
  replace (S k * n)%nat with (n + k * n)%nat by lia. rewrite <-take_take_drop, drop_drop. do 3 f_equal. lia.
Qed.
Lemma div_ceil_bound a n : (0 < n)%nat -> (a <= div_ceil a n * n)%nat.
Proof.
  intros Hn. unfold div_ceil. pose proof (Nat.div_mod_eq a n). pose proof (Nat.mod_upper_bound a n).
  destruct (Nat.eqb_spec (a mod n) 0); nia.
Qed.

Lemma read_plan_batches {n s d dry rest} total : forall k i acc_s acc_d, (0 < k)%nat -> (i + k = total)%nat ->
  read_plan_loop acc_s acc_d (map (fun i => TransferPlanChunk (batch n s (i * n)%nat) (batch n d (i * n)%nat) dry
      (i + 1 =? total)%nat) (seq i k) ++ rest)
    = (inr (acc_s ++ List.concat (map (fun i => batch n s (i * n)%nat) (seq i k)),
            acc_d ++ List.concat (map (fun i => batch n d (i * n)%nat) (seq i k)), dry), rest).
Proof.
  induction k as [|k IH]; intros i acc_s acc_d Hk Ht; [lia|]. cbn [seq map app read_plan_loop List.concat].
  destruct k as [|k].
  - replace (i + 1 =? total)%nat with true by (symmetry; apply Nat.eqb_eq; lia). cbn. by rewrite !app_nil_r.
  - replace (i + 1 =? total)%nat with false by (symmetry; apply Nat.eqb_neq; lia).
    rewrite IH by lia. by rewrite <-!app_assoc.
Qed.
Lemma transfer_plan_back send del dry chunked rest :
  read_transfer_plan (map frame_msg (write_transfer_plan send del dry chunked) ++ rest) = (inr (send, del, dry), rest).
Proof.
  unfold write_transfer_plan. destruct chunked; cbn [negb]; [|done].
  rewrite map_map. cbn [frame_msg]. unfold read_transfer_plan.
  set (total := Nat.max _ _). rewrite (read_plan_batches total) by lia. rewrite !batches_concat. cbn [Nat.mul].
  rewrite !drop_0. pose proof (div_ceil_bound (length send) _ LIST_CHUNK_pos).
  pose proof (div_ceil_bound (length del) _ LIST_CHUNK_pos).
  rewrite !take_ge; [done|subst total; nia..].
Qed.

(** A listing of any size and a plan of any two sizes are read back whole in either encoding, and
    exactly the messages that carry them are consumed; in the chunked encoding no batch of a listing
    exceeds the entry limit. *)
Theorem listing_wire_roundtrip entries send del dry chunked rest :
  read_file_list (map frame_msg (write_file_list entries chunked) ++ rest) = (inr entries, rest) /\
  read_transfer_plan (map frame_msg (write_transfer_plan send del dry chunked) ++ rest) = (inr (send, del, dry), rest) /\
  (chunked = true -> Forall (fun f => exists b last, f = Packed (FileListChunk b last) /\
      (length b <= LIST_CHUNK_ENTRIES)%nat) (write_file_list entries chunked)).
Proof.
  destruct (file_list_back entries chunked rest) as [H1 H2]. split_and!; [exact H1|apply transfer_plan_back|exact H2].
Qed.

(** ** The plan *)
Definition unchanged (src dst : FileEntry) : Prop :=
  fe_size src = fe_size dst /\
  match fe_content_hash src, fe_content_hash dst with
  | Some a, Some b => a = b
  | _, _ => fe_mtime src = fe_mtime dst
  end.
#[export] Instance unchanged_dec a b : Decision (unchanged a b).
Proof. unfold unchanged. apply and_dec; [apply _|]. repeat case_match; apply _. Defined.

Lemma entry_map_lookup l p e : NoDup (map fe_path l) -> entry_map l !! p = Some e <-> e ∈ l /\ fe_path e = p.
Proof.
  unfold entry_map. intros Hnd.
  assert (forall m : gmap string FileEntry, foldl (fun m e => <[fe_path e := e]> m) m l !! p = Some e <->
    (e ∈ l /\ fe_path e = p) \/ (m !! p = Some e /\ p ∉ map fe_path l)) as Hg.
  { induction l as [|x l IH]; intros m; cbn [foldl].
    - cbn. split; [right; split; [done|apply not_elem_of_nil]|]. by intros [[?%elem_of_nil _]|[? _]].
    - apply NoDup_cons in Hnd as [Hx Hnd]. rewrite IH by done. cbn [map]. rewrite not_elem_of_cons, elem_of_cons.
      destruct (decide (fe_path x = p)) as [<-|Hne].
      + rewrite lookup_insert_eq. split; [intros [[He E]|[[= ->] Hn]]; [destruct Hx; rewrite <-E; by apply list_elem_of_fmap_2|auto]|].
        intros [[[->|He] E]|[_ [? _]]]; [auto|auto|done].
      + rewrite lookup_insert_ne by done. split; [intros [[He E]|[He Hn]]; [auto|auto]|].
        intros [[[->|He] E]|[He [_ Hn]]]; [done|auto|auto]. }
  rewrite Hg, lookup_empty. split; [intros [?|[? _]]; done|auto].
Qed.
Lemma entry_map_None l p : entry_map l !! p = None <-> p ∉ map fe_path l.
Proof.
  unfold entry_map. assert (forall m : gmap string FileEntry, foldl (fun m e => <[fe_path e := e]> m) m l !! p = None <->
    m !! p = None /\ p ∉ map fe_path l) as Hg.
  { induction l as [|x l IH]; intros m; cbn [foldl map]; [split; [split; [done|apply not_elem_of_nil]|by intros [? _]]|].
    rewrite IH, not_elem_of_cons, lookup_insert_None. naive_solver. }
  rewrite Hg, lookup_empty. naive_solver.
Qed.
Lemma plan_entry_send dm e : (plan_entry dm e).1 = true <->
  fe_is_dir e = true \/ forall d, dm !! fe_path e = Some d -> ~ unchanged e d.
Proof.
  unfold plan_entry, unchanged. destruct (fe_is_dir e); [split; auto|].
  destruct (dm !! fe_path e) as [d|]; [|split; [intros _; right; done|done]].
  assert ((false = true \/ forall d0, Some d = Some d0 -> ~ (fe_size e = fe_size d0 /\
    match fe_content_hash e, fe_content_hash d0 with Some a, Some b => a = b | _, _ => fe_mtime e = fe_mtime d0 end)) <->
    ~ (fe_size e = fe_size d /\
    match fe_content_hash e, fe_content_hash d with Some a, Some b => a = b | _, _ => fe_mtime e = fe_mtime d end)) as ->.
  { split; [intros [?|Hx]; [done|by apply Hx]|]. intros Hx. right. by intros ? [= <-]. }
  destruct (Z.eqb_spec (fe_size e) (fe_size d)) as [E|E]; cbn [negb]; [|cbn; split; [by intros _ [? _]|done]].
  destruct (fe_content_hash e) as [a|], (fe_content_hash d) as [b|].
  1: destruct (Z.eqb_spec a b). 3-5: destruct (Z.eqb_spec (fe_mtime e) (fe_mtime d)).
  all: cbn; split; [intros ? [_ ?]|intros Hx]; try done; by destruct Hx.
Qed.
Lemma plan_entry_delta dm e : (plan_entry dm e).2 = true <->
  (plan_entry dm e).1 = true /\ fe_is_dir e = false /\ exists d, dm !! fe_path e = Some d /\
    DELTA_MIN_FILE_SIZE <= fe_size e /\ DELTA_MIN_FILE_SIZE <= fe_size d.
Proof.
  unfold plan_entry. destruct (fe_is_dir e); [cbn; split; [done|by intros (_ & ? & _)]|].
  destruct (dm !! fe_path e) as [d|]; [|cbn; split; [done|by intros (_ & _ & d & ? & _)]].
  assert (forall b : bool, (b = true <-> DELTA_MIN_FILE_SIZE <= fe_size e /\ DELTA_MIN_FILE_SIZE <= fe_size d) ->
    b = true <-> true = true /\ false = false /\ exists d0, Some d = Some d0 /\
      DELTA_MIN_FILE_SIZE <= fe_size e /\ DELTA_MIN_FILE_SIZE <= fe_size d0) as Hb.
  { intros b ->. split; [intros [? ?]; split_and!; [done|done|by exists d]|intros (_ & _ & ? & [= <-] & ?); done]. }
  destruct (Z.eqb_spec (fe_size e) (fe_size d)) as [E|E]; cbn [negb].
  2: { cbn [fst snd]. apply Hb. by rewrite andb_true_iff, !Z.leb_le. }
  destruct (fe_content_hash e) as [a|], (fe_content_hash d) as [b|].
  1: destruct (Z.eqb_spec a b); cbn [negb fst snd];
    [split; [done|by intros (? & _)]|apply Hb; rewrite Z.leb_le, <-E; intuition].
  all: destruct (Z.eqb_spec (fe_mtime e) (fe_mtime d)); cbn [negb fst snd];
    [split; [done|by intros (? & _)]|apply Hb; by rewrite andb_true_iff, !Z.leb_le].
Qed.

Lemma delete_le_trans : Transitive delete_le.
Proof.
  intros a b c [?|[? ?]] [?|[? ?]]; [left; lia|left; lia|left; lia|right; split; [lia|]].
  unfold str_leb in *. by eapply lex_leb_trans.
Qed.
Lemma delete_le_total : Total delete_le.
Proof.
  intros a b. unfold delete_le. destruct (Nat.lt_trichotomy (String.length a) (String.length b)) as [?|[?|?]]; auto.
  destruct (lex_leb_total (str_bytes a) (str_bytes b)); unfold str_leb; auto.
Qed.
Lemma StronglySorted_lookup {A} (R : relation A) l i j x y : StronglySorted R l -> (i < j)%nat ->
  l !! i = Some x -> l !! j = Some y -> R x y.
Proof.
  intros Hs. revert i j. induction Hs as [|a l Hs IH Ha]; intros i j Hij Hi Hj; [done|].
  destruct j as [|j]; [lia|]. cbn in Hj. destruct i as [|i]; [injection Hi as <-|by eapply IH; [|exact Hi|exact Hj]; lia].
  rewrite Forall_forall in Ha. apply Ha. by apply list_elem_of_lookup_2 in Hj.
Qed.

(** The sync plan, on listings without repeated paths: an entry is sent exactly when it is a
    directory, is missing at the destination or differs there (by size, else by content hash, else by
    time); the delta candidates are exactly the files sent that are large on both sides; with deletion
    requested, exactly the paths the source lacks are deleted, and what lies below a path is deleted
    before it. *)
Theorem sync_plan_correct source dest del :
  NoDup (map fe_path source) -> NoDup (map fe_path dest) ->
  let plan := compute_sync_plan source dest del in
  (forall e, e ∈ files_to_send plan <->
     e ∈ source /\ (fe_is_dir e = true \/ forall d, d ∈ dest -> fe_path d = fe_path e -> ~ unchanged e d)) /\
  (forall p, p ∈ delta_candidates plan <->
     exists e d, e ∈ files_to_send plan /\ fe_is_dir e = false /\ fe_path e = p /\ d ∈ dest /\ fe_path d = p /\
       DELTA_MIN_FILE_SIZE <= fe_size e /\ DELTA_MIN_FILE_SIZE <= fe_size d) /\
  (forall p, p ∈ files_to_delete plan <->
     del = true /\ p ∈ map fe_path dest /\ p ∉ map fe_path source) /\
  (forall i j p q, files_to_delete plan !! i = Some p -> files_to_delete plan !! j = Some q ->
     starts_with (p +:+ "/") q = true -> (j < i)%nat).
Proof.
  intros Hs Hd plan. subst plan. cbn [files_to_send files_to_delete delta_candidates compute_sync_plan]. split_and!.
  - intros e. rewrite list_elem_of_filter, plan_entry_send, (and_comm (e ∈ source)). apply and_iff_compat_r, or_iff_compat_l.
    split; [intros Hx d Hin Hp; apply Hx; by apply entry_map_lookup|].
    intros Hx d [Hin Hp]%entry_map_lookup; [by apply Hx|done].
  - intros p. rewrite list_elem_of_fmap. split.
    + intros (e & -> & He). apply list_elem_of_filter in He as [(Hsend & Hdir & d & Hm & H1 & H2)%plan_entry_delta Hin].
      apply entry_map_lookup in Hm as [Hdin Hdp]; [|done]. exists e, d. rewrite list_elem_of_filter. by split_and!.
    + intros (e & d & [Hsend Hin]%list_elem_of_filter & Hdir & <- & Hdin & Hdp & H1 & H2). exists e. split; [done|].
      apply list_elem_of_filter. split; [|done]. apply plan_entry_delta. split_and!; [done|done|].
      exists d. rewrite entry_map_lookup by done. by split_and!.
  - intros p. destruct del; [|split; [by intros ?%elem_of_nil|by intros [? _]]].
    rewrite merge_sort_Permutation, !list_elem_of_fmap. split.
    + intros (e & -> & [Hn He]%list_elem_of_filter). apply entry_map_None in Hn. split_and!; [done|by exists e|].
      by rewrite <-list_elem_of_fmap.
    + intros (_ & (e & -> & He) & Hn). exists e. split; [done|]. apply list_elem_of_filter. split; [|done].
      apply entry_map_None. by rewrite list_elem_of_fmap.
  - intros i j p q Hi Hj Hpq. destruct del; [|done].
    assert (String.length p < String.length q)%nat as Hlen.
    { apply starts_with_spec in Hpq as [t ->]. rewrite !length_sapp. cbn. lia. }
    destruct (Nat.lt_trichotomy i j) as [Hij|[->|Hij]]; [|rewrite Hi in Hj; injection Hj as ->; lia|done].
    pose proof delete_le_trans. pose proof delete_le_total.
    eapply StronglySorted_lookup in Hj as Hle; [|eapply (StronglySorted_merge_sort delete_le)|exact Hij|exact Hi].
    destruct Hle as [?|[? _]]; lia.
Qed.

(** ** The walk *)
Lemma fmap_bind {A B C} (f : A -> list B) (g : B -> C) l : g <$> (l ≫= f) = l ≫= (fun x => g <$> f x).
Proof. induction l as [|x l IH]; [done|]. cbn. by rewrite fmap_app, IH. Qed.
Section WalkLemmas.
Context `{!FileHash}.
Context (m : fs) (Hwf : wf_fs m).

Lemma elem_of_read_dir d n nd : (n, nd) ∈ read_dir m d <-> m !! (d ++ [n]) = Some nd.
Proof.
  unfold read_dir. rewrite list_elem_of_omap. split.
  - intros ([k nd'] & Hin%elem_of_map_to_list & Hk). cbn in Hk. destruct (rev k) as [|x rp] eqn:E; [done|].
    case_decide as Hd; [|done]. injection Hk as -> ->. apply (f_equal (@rev _)) in E. rewrite rev_involutive in E.
    cbn in E. by rewrite E, Hd in Hin.
  - intros Hl. exists (d ++ [n], nd). split; [by apply elem_of_map_to_list|]. cbn. rewrite rev_app_distr. cbn.
    rewrite rev_involutive. by rewrite decide_True.
Qed.
Lemma NoDup_read_dir d : NoDup (read_dir m d).
Proof.
  unfold read_dir. assert (forall l : list (list string * node), NoDup l -> NoDup (omap (fun kv : list string * node =>
    match rev kv.1 with n :: rp => if decide (rev rp = d) then Some (n, kv.2) else None | [] => None end) l)) as Hg;
    [|apply Hg, NoDup_map_to_list].
  intros l. induction 1 as [|[k nd] l Hk Hl IH]; [constructor|]. cbn. destruct (rev k) as [|n rp] eqn:E; [done|].
  case_decide as Hd; [|done]. constructor; [|done]. intros ([k' nd'] & Hin & Hs)%list_elem_of_omap. cbn in Hs.
  destruct (rev k') as [|n' rp'] eqn:E'; [done|]. case_decide as Hd'; [|done]. injection Hs as -> ->.
  destruct Hk. enough (k = k') as -> by done. rewrite <-(rev_involutive k), <-(rev_involutive k'), E, E'. cbn.
  by rewrite Hd, Hd'.
Qed.

(** What the walk gets to: below readable directories, through entries that can be read. *)
Definition visible (base rel s : list string) : Prop :=
  (forall s1 n s2, s = s1 ++ n :: s2 -> dir_readable m (base ++ rel ++ s1) = true /\ entry_readable m (base ++ rel ++ s1 ++ [n]) = true).
Lemma visible_cons base rel n s : visible base rel (n :: s) <->
  dir_readable m (base ++ rel) = true /\ entry_readable m (base ++ rel ++ [n]) = true /\ visible base (rel ++ [n]) s.
Proof.
  unfold visible. split.
  - intros Hv. destruct (Hv [] n s eq_refl) as [H1 H2]. rewrite app_nil_r in H1. split_and!; [done|done|].
    intros s1 k s2 ->. destruct (Hv (n :: s1) k s2 eq_refl) as [H3 H4]. by rewrite <-!(assoc app).
  - intros (H1 & H2 & Hv) [|x s1] k s2 E; cbn in E; injection E as -> ->; [by rewrite app_nil_r|].
    destruct (Hv s1 k s2 eq_refl) as [H3 H4]. by rewrite <-!(assoc app) in H3, H4.
Qed.
Lemma visible_nil base rel : visible base rel [].
Proof. intros [|? ?] n s2 E; done. Qed.

(** What a walk lists: the entries it gets to at most [fuel] levels below. *)
Lemma elem_of_walk fuel base rel x e : (x, e) ∈ walk_recursive fuel m base rel <->
  exists s nd, x = rel ++ s /\ s <> [] /\ (length s <= fuel)%nat /\ m !! (base ++ x) = Some nd /\ visible base rel s /\
    e = listed_entry m (base ++ x) x nd.
Proof.
  revert rel. induction fuel as [|f IH]; intros rel.
  { split; [by intros ?%elem_of_nil|]. intros ([|y s] & nd & _ & ? & Hl & _); [done|cbn in Hl; lia]. }
  cbn [walk_recursive]. split.
  - destruct (dir_readable m (base ++ rel)) eqn:Er; [|by intros ?%elem_of_nil].
    intros ([n nd] & Hx & Hin%elem_of_read_dir)%list_elem_of_bind. rewrite <-app_assoc in Hin.
    destruct (entry_readable m (base ++ rel ++ [n])) eqn:Ee; [|by apply elem_of_nil in Hx].
    apply elem_of_cons in Hx as [[= -> ->]|Hx].
    + exists [n], nd. split_and!; [done|done|cbn; lia|done| |done]. apply visible_cons. split_and!; [done|done|apply visible_nil].
    + destruct (is_dir_node nd) eqn:Ed; [|by apply elem_of_nil in Hx].
      apply IH in Hx as (s & nd' & -> & Hs & Hl & Hm & Hv & ->). exists (n :: s), nd'.
      change (n :: s) with ([n] ++ s). rewrite (assoc app).
      split_and!; [done|done|cbn; lia|done|by apply visible_cons|done].
  - intros (s & nd & -> & Hs & Hl & Hm & Hv & ->). destruct s as [|n s]; [done|]. apply visible_cons in Hv as (Er & Ee & Hv).
    rewrite Er. apply list_elem_of_bind.
    destruct s as [|n' s].
    + exists (n, nd). rewrite Ee. split; [left|]. apply elem_of_read_dir. by rewrite <-app_assoc.
    + assert (dir_at m ((base ++ rel) ++ [n]) = true) as Hd.
      { apply (dir_at_prefix m Hwf _ (n' :: s)); [|done]. rewrite node_at_cons by (by destruct base, rel).
        rewrite <-!app_assoc. cbn. by rewrite Hm. }
      apply dir_at_lookup in Hd as (mode & t & Hd); [|by destruct (base ++ rel)]. exists (n, Dir mode t). rewrite Ee. split.
      * right. cbn [is_dir_node]. apply IH. exists (n' :: s), nd. rewrite <-(assoc app). cbn in *. split_and!; [done|done|lia|done|done|done].
      * by apply elem_of_read_dir.
Qed.
Lemma NoDup_walk fuel base rel : NoDup (walk_recursive fuel m base rel).*1.
Proof.
  revert rel. induction fuel as [|f IH]; intros rel; [constructor|]. cbn [walk_recursive].
  destruct (dir_readable m (base ++ rel)); [|constructor]. rewrite fmap_bind. apply NoDup_bind.
  - intros [n nd] [n' nd'] x H1%elem_of_read_dir H2%elem_of_read_dir Hx Hx'.
    assert (forall k kd, x ∈ (if entry_readable m (base ++ rel ++ [k]) then (rel ++ [k], listed_entry m (base ++ rel ++ [k]) (rel ++ [k]) kd) ::
      (if is_dir_node kd then walk_recursive f m base (rel ++ [k]) else []) else []).*1 -> exists s, x = rel ++ k :: s) as Hg.
    { intros k kd. destruct (entry_readable m (base ++ rel ++ [k])); [|by intros ?%elem_of_nil].
      intros [->|Hin]%elem_of_cons; [by exists []|]. destruct (is_dir_node kd); [|by apply elem_of_nil in Hin].
      apply list_elem_of_fmap in Hin as ([y e] & -> & (s & ? & -> & _)%elem_of_walk). exists s. by rewrite <-app_assoc. }
    apply Hg in Hx as [s Hs]. apply Hg in Hx' as [s' Hs']. rewrite Hs in Hs'. apply app_inv_head in Hs' as [= -> _].
    rewrite H1 in H2. by injection H2 as ->.
  - intros [n nd] _. destruct (entry_readable m (base ++ rel ++ [n])); [|constructor]. cbn. apply NoDup_cons. split; [|destruct (is_dir_node nd); [apply IH|constructor]].
    destruct (is_dir_node nd); [|apply not_elem_of_nil]. intros ([y e] & E & (s & ? & -> & Hs & _)%elem_of_walk)%list_elem_of_fmap.
    cbn in E. rewrite <-(app_nil_r (rel ++ [n])) in E at 1. apply app_inv_head in E. by subst s.
  - apply NoDup_read_dir.
Qed.

(** No entry lies deeper than there are entries. *)
Lemma depth_bound p : is_Some (m !! p) -> (length p <= size m)%nat.
Proof.
  intros Hp. rewrite <-length_map_to_list, <-(length_fmap fst).
  assert (length p = length (map (fun i => take (S i) p) (seq 0 (length p)))) as -> by (by rewrite length_map, length_seq).
  apply submseteq_length, NoDup_submseteq.
  - apply NoDup_fmap_2_strong; [|apply NoDup_seq]. intros i j Hi%elem_of_seq Hj%elem_of_seq E.
    apply (f_equal length) in E. rewrite !length_take in E. lia.
  - intros q (i & -> & Hi%elem_of_seq)%list_elem_of_fmap.
    assert (is_Some (m !! take (S i) p)) as [nd Hn].
    { destruct (decide (drop (S i) p = [])) as [E|E]; [rewrite <-(take_drop (S i) p), E, app_nil_r in Hp; exact Hp|].
      assert (dir_at m (take (S i) p) = true) as Hd.
      { apply (dir_at_prefix m Hwf _ (drop (S i) p)); [|done]. rewrite take_drop. destruct p; [done|exact Hp]. }
      apply dir_at_lookup in Hd as (? & ? & ?); [by eexists|]. destruct p; [cbn in Hi; lia|done]. }
    apply list_elem_of_fmap. exists (take (S i) p, nd). split; [done|]. by apply elem_of_map_to_list.
Qed.
End WalkLemmas.

(** The walk lists what it gets to. *)
Lemma walk_directory_visible `{!FileHash} m base : wf_fs m -> dir_at m base = true ->
  exists l, walk_directory m (abs_names base) = Some l /\ StronglySorted path_le l /\
    ((forall rel nd, rel <> [] -> m !! (base ++ rel) = Some nd -> utf8_valid (str_bytes (join "/" rel)) = true) -> NoDup (map fe_path l)) /\
    forall e, e ∈ l <-> exists rel nd, rel <> [] /\ m !! (base ++ rel) = Some nd /\ visible m base [] rel /\ e = listed_entry m (base ++ rel) rel nd.
Proof.
  intros Hwf Hd. unfold walk_directory. rewrite stat_dir, Hd by done. eexists. split; [done|].
  assert (Transitive path_le) by (intros a b c; unfold path_le, str_leb; apply lex_leb_trans).
  assert (Total path_le) by (intros a b; unfold path_le, str_leb; apply lex_leb_total).
  assert (forall x e, (x, e) ∈ walk_recursive (S (size m)) m base [] <->
    exists nd, x <> [] /\ m !! (base ++ x) = Some nd /\ visible m base [] x /\ e = listed_entry m (base ++ x) x nd) as Hw.
  { intros x e. rewrite elem_of_walk by done. split; [intros (s & nd & -> & Hs & _ & Hm & Hv & ->); by exists nd|].
    intros (nd & Hx & Hm & Hv & ->). exists x, nd. split_and!; [done|done| |done|done|done].
    pose proof (depth_bound m Hwf (base ++ x)) as Hl. rewrite Hm, length_app in Hl. specialize (Hl ltac:(by eexists)). lia. }
  split_and!; [apply (StronglySorted_merge_sort path_le)| |].
  - intros Hu. rewrite merge_sort_Permutation, map_map.
    assert (map (fun x : list string * FileEntry => fe_path x.2) (walk_recursive (S (size m)) m base []) =
      map (join "/") (walk_recursive (S (size m)) m base []).*1) as ->.
    { change (list_fmap _ _ fst) with (map (@fst (list string) FileEntry)). rewrite map_map. apply map_ext_in.
      intros [x e] Hin%list_elem_of_In. apply Hw in Hin as (nd & Hx & Hm & _ & ->). cbn. apply utf8_lossy_same. by eapply Hu. }
    apply NoDup_fmap_2_strong; [|by apply NoDup_walk].
    assert (forall x, x ∈ (walk_recursive (S (size m)) m base []).*1 -> x <> [] /\ Forall valid_name x) as Hv.
    { intros x ([y e] & -> & (nd & Hy & Hm & _)%Hw)%list_elem_of_fmap. split; [done|].
      destruct (wf_names m Hwf (base ++ y)) as [_ Hf]; [by eexists|]. by apply Forall_app in Hf as [_ ?]. }
    intros x y [? ?]%Hv [? ?]%Hv E. by apply join_inj.
  - intros e. rewrite merge_sort_Permutation, list_elem_of_fmap. split.
    + intros ([x e'] & -> & (nd & Hx & Hm & Hv & ->)%Hw). by exists x, nd.
    + intros (x & nd & Hx & Hm & Hv & ->). exists (x, listed_entry m (base ++ x) x nd). split; [done|]. apply Hw. by exists nd.
Qed.

(** ** Trees that can be read *)
(** The description of an entry whose name (and target) is UTF-8 and that can be read. *)
Definition walk_entry `{!FileHash} (rel : list string) (n : node) : FileEntry :=
  {| fe_path := join "/" rel;
     fe_size := match n with File c _ _ => Z.of_nat (length c) | _ => 0 end;
     fe_mtime := Z.max 0 (match n with File _ _ t | Dir _ t | Link _ t => t end);
     fe_mode := file_mode n;
     fe_is_dir := is_dir_node n;
     fe_is_symlink := is_link_node n;
     fe_symlink_target := match n with Link t _ => Some t | _ => None end;
     fe_content_hash := match n with File c _ _ => Some (xxh3_64 c) | _ => None end |}.
Record legible `{!FileHash} (m : fs) (base : list string) : Prop := {
  lg_read : forall p, dir_readable m p = true /\ entry_readable m p = true /\ content_readable m p = true;
  lg_utf8 : forall rel nd, rel <> [] -> m !! (base ++ rel) = Some nd -> utf8_valid (str_bytes (join "/" rel)) = true /\
    match nd with Link t _ => utf8_valid (str_bytes t) = true | _ => True end;
}.
Lemma listed_entry_legible `{!FileHash} m base rel nd : legible m base -> rel <> [] -> m !! (base ++ rel) = Some nd ->
  listed_entry m (base ++ rel) rel nd = walk_entry rel nd.
Proof.
  intros [Hr Hu] Hne Hm. destruct (Hu rel nd Hne Hm) as [Hn Ht]. destruct (Hr (base ++ rel)) as (_ & _ & Hc).
  unfold listed_entry, walk_entry. rewrite Hc, utf8_lossy_same by done. f_equal. destruct nd; [done|done|]. by rewrite utf8_lossy_same.
Qed.
Lemma walk_directory_ok `{!FileHash} m base : wf_fs m -> dir_at m base = true -> legible m base ->
  exists l, walk_directory m (abs_names base) = Some l /\ StronglySorted path_le l /\ NoDup (map fe_path l) /\
    forall e, e ∈ l <-> exists rel nd, rel <> [] /\ m !! (base ++ rel) = Some nd /\ e = walk_entry rel nd.
Proof.
  intros Hwf Hd Hl. destruct (walk_directory_visible m base Hwf Hd) as (l & E & Hs & Hn & He). exists l. split_and!; [done|done| |].
  - apply Hn. intros rel nd Hne Hm. by destruct (lg_utf8 _ _ Hl rel nd Hne Hm).
  - intros e. rewrite He. split.
    + intros (rel & nd & Hne & Hm & _ & ->). exists rel, nd. by rewrite (listed_entry_legible m base).
    + intros (rel & nd & Hne & Hm & ->). exists rel, nd. split_and!; [done|done| |by rewrite (listed_entry_legible m base)].
      intros s1 n s2 _. split; apply (lg_read _ _ Hl).
Qed.

(** C36.  Walking terminates with what can be read: on a well-formed tree the walk of a directory is sorted
    by path and lists exactly the entries below it that are reached through readable directories and whose
    own and whose directories' metadata can be read, without entering links; each is described by its
    metadata, with its path made UTF-8, a time before the epoch as zero, and its hash or target if that
    can be read.  When all paths are UTF-8 none is listed twice. *)
Theorem walk_directory_complete `{!FileHash} m base : wf_fs m -> dir_at m base = true ->
  exists l, walk_directory m (abs_names base) = Some l /\ StronglySorted path_le l /\
    ((forall rel nd, rel <> [] -> m !! (base ++ rel) = Some nd -> utf8_valid (str_bytes (join "/" rel)) = true) -> NoDup (map fe_path l)) /\
    forall e, e ∈ l <-> exists rel nd, rel <> [] /\ m !! (base ++ rel) = Some nd /\ visible m base [] rel /\ e = listed_entry m (base ++ rel) rel nd.
Proof. apply walk_directory_visible. Qed.

(** ** A tree to walk and two listings to compare *)
Definition walk_tree : fs :=
  list_to_map [(["w"], Dir 493 1); (["w"; "b"], Dir 493 1); (["w"; "b"; "x"], File [1] 420 2); (["w"; "a"], Link "b" 3);
               (["w"; "c"], Dir 0 1); (["w"; "c"; "y"], File [2] 420 2)]%string.
Definition len_hash : FileHash :=
  {| xxh3_64 := fun b => Z.of_nat (length b); dir_readable := fun _ p => negb (bool_decide (p = ["w"; "c"]%string));
     entry_readable := fun _ _ => true; content_readable := fun _ _ => true |}.
Lemma walk_directory_complete_witness :
  exists l, walk_directory (H := len_hash) walk_tree (abs_names ["w"%string]) = Some l /\
    listed_entry (H := len_hash) walk_tree ["w"; "b"; "x"]%string ["b"; "x"]%string (File [1] 420 2) ∈ l.
Proof.
  destruct (walk_directory_complete (H := len_hash) walk_tree ["w"%string]) as (l & E & _ & _ & Hl);
    [apply wf_from_list; by vm_compute|by vm_compute|].
  exists l. split; [exact E|]. apply Hl. exists ["b"; "x"]%string, (File [1] 420 2). split; [discriminate|].
  split; [vm_compute; reflexivity|]. split; [|reflexivity].
  intros [|a [|b s1]] n s2 Es; [injection Es as <- _; split; reflexivity|injection Es as <- <- _; split; reflexivity|].
  exfalso. injection Es as _ _ Es. by destruct s1.
Defined.
(** A directory that cannot be read is listed and its entries are not. *)
Example walk_skips_unreadable : map fe_path <$> walk_directory (H := len_hash) walk_tree (abs_names ["w"%string]) = Some ["a"; "b"; "b/x"; "c"]%string.
Proof. vm_compute. reflexivity. Qed.
Lemma sync_plan_correct_witness :
  let source := [walk_entry (H := len_hash) ["a"%string] (File [1; 2] 420 9)] in
  let dest := [walk_entry (H := len_hash) ["b"%string] (File [] 420 1); walk_entry (H := len_hash) ["a"%string] (File [1] 420 9)] in
  "b"%string ∈ files_to_delete (compute_sync_plan source dest true).
Proof.
  intros source dest. apply (sync_plan_correct source dest true).
  - apply (bool_decide_unpack _). by vm_compute.
  - apply (bool_decide_unpack _). by vm_compute.
  - split_and!; [done|by left|]. apply (bool_decide_unpack _). by vm_compute.
Defined.
