(* ===== verification/Negotiate.v ===== *)
(** * Negotiate: transfer parameters and the adaptive chunk size
    (hop-core/src/transfer/negotiation.rs, negotiate_host and negotiate_client of transfer/mod.rs)

    The session monad of the transfer code is here too: a transfer reads a file
    system and the messages that arrive, and writes messages. *)
From S2P Require Import Prelude Float Text Fs Listing.
Local Open Scope Z_scope.

Definition MIN_CHUNK_SIZE : Z := 64 * 1024.
Definition MAX_CHUNK_SIZE : Z := 1024 * 1024.
Definition DEFAULT_ZSTD_LEVEL : Z := 3.
Definition TRANSFER_FEATURES_VERSION : Z := 2.

Inductive Compression := ZstdLevel (level : Z).
Record NegotiatedParams := { compression : option Compression; max_chunk_size : Z; features_version : Z }.

Definition clamp (x lo hi : Z) : Z := if x <? lo then lo else if hi <? x then hi else x.

Definition legacy : NegotiatedParams :=
  {| compression := None; max_chunk_size := MIN_CHUNK_SIZE; features_version := 1 |}.
Definition v1_default : NegotiatedParams :=
  {| compression := Some (ZstdLevel DEFAULT_ZSTD_LEVEL); max_chunk_size := MAX_CHUNK_SIZE; features_version := 1 |}.
Definition from_negotiated (comp : option string) (chunk_size : Z) (level : option Z) (peer_features_version : Z) :
    NegotiatedParams :=
  {| compression := if decide (comp = Some "zstd"%string) then Some (ZstdLevel (default DEFAULT_ZSTD_LEVEL level)) else None;
     max_chunk_size := clamp chunk_size MIN_CHUNK_SIZE MAX_CHUNK_SIZE;
     features_version := Z.min peer_features_version TRANSFER_FEATURES_VERSION |}.
Definition chunked_listing (p : NegotiatedParams) : bool := 2 <=? features_version p.
Definition is_compressed (p : NegotiatedParams) : bool := match compression p with Some _ => true | None => false end.
Definition zstd_level (p : NegotiatedParams) : Z :=
  match compression p with Some (ZstdLevel l) => l | None => DEFAULT_ZSTD_LEVEL end.

(** ** The chunk sizer; [elapsed] is the time since the last check, in nanoseconds *)
Record ChunkSizer := { current_size : Z; min_size : Z; max_size : Z; bytes_since_check : Z }.
Definition sizer_new (max : Z) : ChunkSizer :=
  {| current_size := MIN_CHUNK_SIZE; min_size := MIN_CHUNK_SIZE; max_size := clamp max MIN_CHUNK_SIZE MAX_CHUNK_SIZE;
     bytes_since_check := 0 |}.
Definition sizer_record (s : ChunkSizer) (n elapsed : Z) : ChunkSizer :=
  let b := bytes_since_check s + n in
  if 2 * 1024 * 1024 <=? b then
    let secs := as_secs_f64 elapsed in
    let cur :=
      if f64_gt secs (f64_of_Z 0) then
        let throughput_mbps := f64_div (f64_div (f64_of_Z b) secs) (f64_of_Z (1024 * 1024)) in
        let target := f64_to_u64 (f64_mul (f64_div throughput_mbps (f64_of_Z 10)) (f64_of_Z (128 * 1024))) in
        let target := clamp target (min_size s) (max_size s) in
        let floor := current_size s / 2 in
        clamp (Z.max target floor) (min_size s) (max_size s)
      else current_size s in
    {| current_size := cur; min_size := min_size s; max_size := max_size s; bytes_since_check := 0 |}
  else {| current_size := current_size s; min_size := min_size s; max_size := max_size s; bytes_since_check := b |}.

Lemma clamp_range x lo hi : lo <= hi -> lo <= clamp x lo hi <= hi.
Proof. intros. unfold clamp. destruct (Z.ltb_spec x lo); [lia|]. destruct (Z.ltb_spec hi x); lia. Qed.
Lemma from_negotiated_range comp c l v :
  MIN_CHUNK_SIZE <= max_chunk_size (from_negotiated comp c l v) <= MAX_CHUNK_SIZE.
Proof. apply clamp_range. unfold MIN_CHUNK_SIZE, MAX_CHUNK_SIZE. lia. Qed.

(** Whatever the peer negotiated and however long each write took, the sender's chunk size stays
    between the minimum and the size of its read buffer, so slicing the buffer never panics, and one
    adjustment never shrinks it below half. *)
Theorem chunk_size_in_buffer params (writes : list (Z * Z)) n elapsed :
  MIN_CHUNK_SIZE <= max_chunk_size params <= MAX_CHUNK_SIZE ->
  let s := foldl (fun s w => sizer_record s w.1 w.2) (sizer_new (max_chunk_size params)) writes in
  MIN_CHUNK_SIZE <= current_size s <= max_chunk_size params /\
  current_size s / 2 <= current_size (sizer_record s n elapsed).
Proof.
  intros Hp.
  assert (clamp (max_chunk_size params) MIN_CHUNK_SIZE MAX_CHUNK_SIZE = max_chunk_size params) as Hc
    by (unfold clamp; destruct (Z.ltb_spec (max_chunk_size params) MIN_CHUNK_SIZE); [lia|];
        destruct (Z.ltb_spec MAX_CHUNK_SIZE (max_chunk_size params)); lia).
  set (ok s := min_size s = MIN_CHUNK_SIZE /\ max_size s = max_chunk_size params /\
    MIN_CHUNK_SIZE <= current_size s <= max_chunk_size params).
  assert (forall s a b, ok s -> ok (sizer_record s a b) /\ current_size s / 2 <= current_size (sizer_record s a b)) as Hstep.
  { intros s a b (Hmin & Hmax & Hcur). unfold sizer_record. destruct (_ <=? _); cbn [current_size min_size max_size];
      [|split; [unfold ok; cbn; split_and!; lia|Z.div_mod_to_equations; unfold MIN_CHUNK_SIZE in *; lia]].
    rewrite Hmin, Hmax. destruct (f64_gt _ _); [|split; [unfold ok; cbn; split_and!; lia|Z.div_mod_to_equations; unfold MIN_CHUNK_SIZE in *; lia]].
    set (t := clamp (f64_to_u64 _) _ _). split; [unfold ok; cbn; split_and!; [done|done|..]; apply clamp_range; lia|].
    unfold clamp at 1. destruct (Z.ltb_spec (Z.max t (current_size s / 2)) MIN_CHUNK_SIZE); [lia|].
    destruct (Z.ltb_spec (max_chunk_size params) (Z.max t (current_size s / 2))); [|lia].
    Z.div_mod_to_equations; unfold MIN_CHUNK_SIZE in *; lia. }
  assert (forall s, ok s -> ok (foldl (fun s w => sizer_record s w.1 w.2) s writes)) as Hrun.
  { induction writes as [|[a b] ws IH]; intros s Hs; [done|]. cbn. apply IH. by apply Hstep. }
  specialize (Hrun (sizer_new (max_chunk_size params))). cbv zeta.
  destruct Hrun as (H1 & H2 & H3); [split_and!; cbn; [done|done|lia|lia]|].
  split; [exact H3|]. by apply Hstep.
Qed.
Lemma chunk_size_in_buffer_witness :
  let s := foldl (fun s w => sizer_record s w.1 w.2) (sizer_new (max_chunk_size (from_negotiated (Some "zstd"%string) 1000 None 7)))
    [(3000000, 10 ^ 9); (3000000, 10 ^ 6)] in
  MIN_CHUNK_SIZE <= current_size s <= max_chunk_size (from_negotiated (Some "zstd"%string) 1000 None 7).
Proof. apply (chunk_size_in_buffer _ [(3000000, 10 ^ 9); (3000000, 10 ^ 6)] 0 0), from_negotiated_range. Defined.

(** ** Sessions *)
Record Sess := { s_fs : fs; s_in : list TransferMsg; s_out : list framed }.
Definition T (A : Type) : Type := Sess -> Sess * (transfer_error + A).
#[export] Instance T_ret : MRet T := fun A a s => (s, inr a).
#[export] Instance T_bind : MBind T := fun A B f m s =>
  match m s with (s', inr a) => f a s' | (s', inl e) => (s', inl e) end.
Definition throw {A} (e : transfer_error) : T A := fun s => (s, inl e).
(** The result as a value, [match op { Ok(..) => .., Err(..) => .. }]. *)
Definition attempt {A} (m : T A) : T (transfer_error + A) := fun s => let '(s', r) := m s in (s', inr r).
Definition get_fs : T fs := fun s => (s, inr (s_fs s)).
Definition put_fs (m : fs) : T unit := fun s => ({| s_fs := m; s_in := s_in s; s_out := s_out s |}, inr tt).
(** An operation on the file system, [op(..)?]. *)
Definition io (f : fs -> option fs) : T unit := fun s =>
  match f (s_fs s) with
  | Some m => ({| s_fs := m; s_in := s_in s; s_out := s_out s |}, inr tt)
  | None => (s, inl IoError)
  end.
Definition read_msg : T TransferMsg := fun s =>
  match s_in s with
  | [] => (s, inl StreamBroken)
  | m :: r => ({| s_fs := s_fs s; s_in := r; s_out := s_out s |}, inr m)
  end.
Definition write_frames (l : list framed) : T unit := fun s =>
  ({| s_fs := s_fs s; s_in := s_in s; s_out := s_out s ++ l |}, inr tt).
Definition write_msg (m : TransferMsg) : T unit := write_frames [Plain m].
(** A reader of the message list, as a session step. *)
Definition reading {A} (f : list TransferMsg -> (transfer_error + A) * list TransferMsg) : T A := fun s =>
  let '(r, rest) := f (s_in s) in ({| s_fs := s_fs s; s_in := rest; s_out := s_out s |}, r).
Definition pending : T nat := fun s => (s, inr (length (s_in s))).

Definition our_capabilities : TransferMsg := Capabilities ["zstd"%string] MAX_CHUNK_SIZE TRANSFER_FEATURES_VERSION.
Definition negotiate_host : T NegotiatedParams :=
  _ ← write_msg our_capabilities;
  client_caps ← read_msg;
  match client_caps with
  | Capabilities _ client_max_chunk client_version =>
      let use_compression := Some "zstd"%string in
      let chunk_size := Z.min client_max_chunk MAX_CHUNK_SIZE in
      let level := Some DEFAULT_ZSTD_LEVEL in
      _ ← write_msg (Negotiated use_compression chunk_size level);
      mret (from_negotiated use_compression chunk_size level client_version)
  | _ => throw UnexpectedMsg
  end.
Definition negotiate_client : T NegotiatedParams :=
  host_caps ← read_msg;
  match host_caps with
  | Capabilities _ _ host_version =>
      _ ← write_msg our_capabilities;
      negotiated ← read_msg;
      match negotiated with
      | Negotiated comp chunk_size level => mret (from_negotiated comp chunk_size level host_version)
      | _ => throw UnexpectedMsg
      end
  | _ => throw UnexpectedMsg
  end.

(** The host compresses whatever the client says it supports: against a client that offers no
    compression it still announces zstd and compresses what it sends. *)
Theorem host_ignores_client_compression m max_chunk version out :
  exists p s, negotiate_host {| s_fs := m; s_in := [Capabilities [] max_chunk version]; s_out := out |} = (s, inr p) /\
    is_compressed p = true /\
    s_out s = out ++ [Plain our_capabilities] ++
      [Plain (Negotiated (Some "zstd"%string) (Z.min max_chunk MAX_CHUNK_SIZE) (Some DEFAULT_ZSTD_LEVEL))].
Proof.
  unfold negotiate_host, mbind, T_bind, write_msg, write_frames, read_msg. cbn [s_in s_fs s_out].
  eexists _, _. split; [reflexivity|]. split; [done|]. cbn [s_out]. by rewrite <-app_assoc.
Qed.

(** Two current peers agree on every parameter. *)
Lemma negotiation_agrees mh mc :
  let h2c := [our_capabilities; Negotiated (Some "zstd"%string) MAX_CHUNK_SIZE (Some DEFAULT_ZSTD_LEVEL)] in
  exists p, negotiate_host {| s_fs := mh; s_in := [our_capabilities]; s_out := [] |}
      = ({| s_fs := mh; s_in := []; s_out := map Plain h2c |}, inr p) /\
    negotiate_client {| s_fs := mc; s_in := h2c; s_out := [] |}
      = ({| s_fs := mc; s_in := []; s_out := [Plain our_capabilities] |}, inr p) /\
    chunked_listing p = true.
Proof. exists (from_negotiated (Some "zstd"%string) MAX_CHUNK_SIZE (Some DEFAULT_ZSTD_LEVEL) 2). split_and!; reflexivity. Qed.
