(* ===== verification/Receiver.v ===== *)
(** * Receiver: writing received files (hop-core/src/transfer/receiver.rs)

    The receiving loops with and without deltas, over the session monad: messages
    in, acknowledgements out, and the file system of Fs.v.  Progress reporting is
    left out.  The streaming zstd decoder and the text of error messages are
    interfaces. *)
From S2P Require Import Prelude Text Policy Delta Fs Listing Negotiate.
From Stdlib Require Import Ascii.
Local Open Scope Z_scope.

Definition DELTA_BLOCK_SIZE : nat := Z.to_nat (64 * 1024).

(** zstd streams: encoding a whole file at a level, and the decoder a receiver
    writes chunks to; writing everything an encoder produced, in any chunks, and
    flushing yields the file. *)
Class ZstdStream := {
  zs_encode : Z -> bytes -> bytes;
  zdec : Type;
  zdec_new : zdec;
  zdec_write : zdec -> bytes -> option (zdec * bytes);
  zdec_flush : zdec -> option bytes;
  zs_feed := fix feed (d : zdec) (chunks : list bytes) : option bytes :=
    match chunks with
    | [] => zdec_flush d
    | c :: cs => match zdec_write d c with
                 | Some (d', out) => (fun rest => out ++ rest) <$> feed d' cs
                 | None => None
                 end
    end;
  zs_roundtrip : forall level content chunks, List.concat chunks = zs_encode level content ->
    zs_feed zdec_new chunks = Some content;
}.
(** [format!({e:#})]. *)
Class ErrText := { err_text : transfer_error -> string }.

(** ** Paths *)
Definition has_parent_dir_component (p : Path) : bool :=
  existsb (fun c => match c with ParentDir => true | _ => false end) p.

(** The link's directory below the root, then the target walked from there. *)
Definition link_dir_stack (parent : Path) : list string :=
  foldl (fun stack c => match c with Normal n => stack ++ [n] | ParentDir => removelast stack | _ => stack end) [] parent.
Fixpoint walk_target (stack : list string) (comps : Path) : bool :=
  match comps with
  | [] => true
  | Normal n :: r => walk_target (stack ++ [n]) r
  | CurDir :: r => walk_target stack r
  | ParentDir :: r => match stack with [] => false | _ => walk_target (removelast stack) r end
  | RootDir :: _ => false
  end.
Definition validate_symlink_within (rel_link_path target : string) : bool :=
  let target_path := components target in
  if is_absolute target_path then false else
  walk_target (link_dir_stack (default [] (path_parent (components rel_link_path)))) target_path.

Definition safe_join (m : fs) (base : Path) (relative : string) : transfer_error + Path :=
  let rel_path := components relative in
  if is_absolute rel_path || has_parent_dir_component rel_path then inl (PathTraversal relative) else
  let joined := path_join base rel_path in
  let resolved : transfer_error + Path :=
    if exists_ m joined then
      match canonicalize_in m joined with Some c => inr c | None => inl IoError end
    else
      match path_parent joined with
      | Some parent =>
          if exists_ m parent then
            match canonicalize_in m parent with
            | Some cp => if path_starts_with cp base then inr joined else inl (PathTraversal relative)
            | None => inl IoError
            end
          else inr joined
      | None => inr joined
      end in
  match resolved with
  | inl e => inl e
  | inr r => if exists_ m r && negb (path_starts_with r base) then inl (PathTraversal relative) else inr r
  end.

Definition tmp_name (path : Path) : Path :=
  with_file_name path (".hop-tmp-" +:+ default EmptyString (file_name path)).

Section Receiver.
Context `{!FsEnv, !ZstdStream, !ErrText}.
Implicit Types params : NegotiatedParams.

Definition lift_io (f : fs -> fs) : T unit := io (fun m => Some (f m)).
(** [let _ = op(..)]. *)
Definition ignore_io (f : fs -> option fs) : T unit := lift_io (fun m => default m (f m)).
Definition set_metadata (path : Path) (mode mtime : Z) : T unit :=
  lift_io (fun m => set_meta m path (mode .& 511) mtime).
Definition send_ack (path : string) (success : bool) (error : option string) : T unit :=
  write_msg (FileAck path success error).
Definition join_checked (base : Path) (relative : string) : T Path :=
  m ← get_fs;
  match safe_join m base relative with inr p => mret p | inl e => throw e end.

(** The chunks of one file, until [FileEnd]; without a decoder they are the data.
    Each step reads a message, so as much fuel as there are messages is enough:
    out of fuel the stream has ended. *)
Fixpoint data_loop (fuel : nat) (q : list string) (dec : option zdec) (written : Z) : T Z :=
  match fuel with
  | O => throw StreamBroken
  | S f =>
      msg ← read_msg;
      match msg with
      | FileData data =>
          dec' ← (match dec with
                  | Some d => match zdec_write d data with
                              | Some (d', out) => _ ← lift_io (fun m => write_all m q out); mret (Some d')
                              | None => throw IoError
                              end
                  | None => _ ← lift_io (fun m => write_all m q data); mret None
                  end);
          data_loop f q dec' (written + Z.of_nat (length data))
      | FileEnd =>
          _ ← (match dec with
               | Some d => match zdec_flush d with
                           | Some out => lift_io (fun m => write_all m q out)
                           | None => throw IoError
                           end
               | None => mret tt
               end);
          mret written
      | Error_ e => throw (PeerError e)
      | _ => throw UnexpectedMsg
      end
  end.
Definition receive_file_data (path : Path) (params : NegotiatedParams) : T Z :=
  m ← get_fs;
  match file_create m path with
  | None => throw IoError
  | Some (q, m1) =>
      _ ← put_fs m1;
      n ← pending;
      data_loop n q (if is_compressed params then Some zdec_new else None) 0
  end.

(** ** One message; the result is what it adds to the byte counts *)
Definition finish_file (tmp target : Path) (mode mtime : Z) (path : string) (res : transfer_error + Z) (size saved : Z) :
    T (Z * Z) :=
  match res with
  | inr _ =>
      _ ← io (fun m => rename m tmp target);
      _ ← set_metadata target mode mtime;
      _ ← send_ack path true None;
      mret (size, saved)
  | inl e =>
      _ ← ignore_io (fun m => remove_file m tmp);
      _ ← send_ack path false (Some (err_text e));
      mret (0, 0)
  end.
Definition receive_header (base : Path) (h : FileHeader) (params : NegotiatedParams) : T (Z * Z) :=
  target ← join_checked base (fh_path h);
  _ ← (match path_parent target with Some p => io (fun m => create_dir_all m p) | None => mret tt end);
  let tmp := tmp_name target in
  res ← attempt (receive_file_data tmp params);
  finish_file tmp target (fh_mode h) (fh_mtime h) (fh_path h) res (fh_size h) 0.
Definition receive_directory (base : Path) (d : DirEntry) : T (Z * Z) :=
  target ← join_checked base (de_path d);
  _ ← io (fun m => create_dir_all m target);
  _ ← set_metadata target (de_mode d) (de_mtime d);
  _ ← send_ack (de_path d) true None;
  mret (0, 0).
Definition receive_symlink (base : Path) (path target : string) : T (Z * Z) :=
  link_path ← join_checked base path;
  if negb (validate_symlink_within path target) then
    _ ← send_ack path false (Some (err_text (PathTraversal target))); mret (0, 0)
  else
    _ ← (match path_parent link_path with Some p => io (fun m => create_dir_all m p) | None => mret tt end);
    _ ← ignore_io (fun m => remove_file m link_path);
    _ ← io (fun m => symlink m target link_path);
    _ ← send_ack path true None;
    mret (0, 0).
Definition receive_delete (base : Path) (path : string) : T (Z * Z) :=
  target ← join_checked base path;
  m ← get_fs;
  _ ← (if is_dir m target then ignore_io (fun m => remove_dir_all m target)
       else ignore_io (fun m => remove_file m target));
  _ ← send_ack path true None;
  mret (0, 0).

Fixpoint collect_ops (fuel : nat) (ops : list DeltaOperation) : T (list DeltaOperation) :=
  match fuel with
  | O => throw StreamBroken
  | S f =>
      msg ← read_msg;
      match msg with
      | DeltaOp op => collect_ops f (ops ++ [op])
      | DeltaEnd => mret ops
      | Error_ e => throw (PeerError e)
      | _ => throw UnexpectedMsg
      end
  end.
(** [delta::reconstruct_file] on the file system. *)
Definition reconstruct_in (old tmp : Path) (ops : list DeltaOperation) : T Z :=
  m ← get_fs;
  match read_file m old with
  | None => throw IoError
  | Some old_data =>
      match file_create m tmp with
      | None => throw IoError
      | Some (q, m1) =>
          let '(out, written) := Delta.reconstruct_file old_data ops DELTA_BLOCK_SIZE in
          _ ← put_fs (write_all m1 q out); mret written
      end
  end.
Definition receive_delta (base : Path) (path : string) (new_size mode mtime : Z) : T (Z * Z) :=
  target ← join_checked base path;
  let tmp := tmp_name target in
  n ← pending;
  ops ← collect_ops n [];
  res ← attempt (reconstruct_in target tmp ops);
  finish_file tmp target mode mtime path res new_size new_size.

(** [None] at [Done]. *)
Definition receive_msg (with_delta : bool) (base : Path) (params : NegotiatedParams) (msg : TransferMsg) : T (option (Z * Z)) :=
  match msg with
  | FileHeader_ h => r ← receive_header base h params; mret (Some r)
  | DeltaHeader path new_size mode mtime =>
      if with_delta then r ← receive_delta base path new_size mode mtime; mret (Some r) else mret (Some (0, 0))
  | CreateDirectory d => r ← receive_directory base d; mret (Some r)
  | CreateSymlink path target => r ← receive_symlink base path target; mret (Some r)
  | DeletePath path => r ← receive_delete base path; mret (Some r)
  | Done => mret None
  | Error_ e => throw (PeerError e)
  | _ => mret (Some (0, 0))
  end.
Fixpoint receive_loop (fuel : nat) (with_delta : bool) (base : Path) (params : NegotiatedParams) (total saved : Z) : T (Z * Z) :=
  match fuel with
  | O => throw StreamBroken
  | S f =>
      msg ← read_msg;
      r ← receive_msg with_delta base params msg;
      match r with
      | None => mret (total, saved)
      | Some (b, sv) => receive_loop f with_delta base params (total + b) (saved + sv)
      end
  end.

(** The destination, created if missing and canonical. *)
Definition open_dest (dest : Path) : T Path :=
  m ← get_fs;
  _ ← (if exists_ m dest then mret tt else io (fun m => create_dir_all m dest));
  m ← get_fs;
  match canonicalize_in m dest with Some c => mret c | None => throw IoError end.
Definition receive_files (dest : Path) (params : NegotiatedParams) : T Z :=
  base ← open_dest dest;
  n ← pending;
  r ← receive_loop n false base params 0 0;
  mret r.1.

(** [reads] gives the sizes [file.read] returns while a file is signed. *)
Fixpoint send_signatures `{!FileHash} (reads : bytes -> list nat) (base : Path) (candidates : gset string)
    (files : list FileEntry) : T unit :=
  match files with
  | [] => mret tt
  | e :: files' =>
      _ ← (if fe_is_symlink e || fe_is_dir e then mret tt
           else if bool_decide (fe_path e ∈ candidates) then
             target ← join_checked base (fe_path e);
             m ← get_fs;
             if exists_ m target then
               match read_file m target with
               | Some old => write_msg (BlockSignatures (fe_path e) (Z.of_nat DELTA_BLOCK_SIZE)
                               (compute_block_signatures xxh3_64 old (reads old)))
               | None => throw IoError
               end
             else mret tt
           else mret tt);
      send_signatures reads base candidates files'
  end.
Definition receive_files_with_delta `{!FileHash} (reads : bytes -> list nat) (dest : Path) (candidates : gset string)
    (files : list FileEntry) (params : NegotiatedParams) : T (Z * Z) :=
  base ← open_dest dest;
  _ ← send_signatures reads base candidates files;
  n ← pending;
  receive_loop n true base params 0 0.

(** ** Acknowledgements *)
Definition ack_error (path : string) (error : option string) : string :=
  path +:+ ": " +:+ default "unknown error"%string error.
Fixpoint read_acks_until_done_loop (errors : list string) (msgs : list TransferMsg) :
    (transfer_error + list string) * list TransferMsg :=
  match msgs with
  | [] => (inl StreamBroken, [])
  | FileAck path success error :: r =>
      read_acks_until_done_loop (if success then errors else errors ++ [ack_error path error]) r
  | Done :: r => (inr errors, r)
  | Error_ e :: r => (inl (PeerError e), r)
  | _ :: r => (inl UnexpectedMsg, r)
  end.
Definition read_acks_until_done : T (list string) := reading (read_acks_until_done_loop []).
Fixpoint read_acks_loop (n : nat) (errors : list string) (msgs : list TransferMsg) :
    (transfer_error + list string) * list TransferMsg :=
  match n with
  | O => (inr errors, msgs)
  | S n' =>
      match msgs with
      | [] => (inl StreamBroken, [])
      | FileAck path success error :: r =>
          read_acks_loop n' (if success then errors else errors ++ [ack_error path error]) r
      | Error_ e :: r => (inl (PeerError e), r)
      | _ :: r => (inl UnexpectedMsg, r)
      end
  end.
Definition read_acks (n : nat) : T (list string) := reading (read_acks_loop n []).
End Receiver.
