(* ===== verification/Confine.v ===== *)
(** * Confine: what a receiver may touch (hop-core/src/transfer/receiver.rs)

    While there are no links below the destination and none are received, a
    receiver changes nothing outside it, whatever the sender sends; with a link,
    or with a path that names the destination itself, it does. *)
From S2P Require Import Prelude Text Policy Delta Fs Listing Negotiate Receiver.
From Stdlib Require Import Ascii.
Local Open Scope Z_scope.

(** ** Relative paths *)
Lemma split_char_pieces c s : Forall (fun p => no_char c p = true) (split_char c s).
Proof.
  induction s as [|d s IH]; [by repeat constructor|]. cbn [split_char]. destruct (Ascii.eqb_spec c d) as [->|Hne].
  - by constructor.
  - destruct (split_char c s) as [|p ps]; [repeat constructor; cbn; by destruct (Ascii.eqb_spec c d)|].
    apply Forall_cons in IH as [Hp Hps]. constructor; [|done]. cbn. rewrite Hp. by destruct (Ascii.eqb_spec c d).
Qed.
Definition plain_comp (c : Component) : Prop :=
  match c with Normal n => valid_name n | CurDir | ParentDir => True | RootDir => False end.
Lemma component_of_plain b p c : no_char "/" p = true -> component_of b p = Some c -> plain_comp c.
Proof.
  intros Hp. unfold component_of. repeat case_decide; try done; [by destruct b; intros [= <-]|by intros [= <-]|].
  intros [= <-]. by split_and!.
Qed.
Lemma components_plain s : is_absolute (components s) = false -> Forall plain_comp (components s).
Proof.
  pose proof (split_char_pieces "/" s) as Hp. unfold components.
  assert (forall l, Forall (fun p => no_char "/" p = true) l -> Forall plain_comp (omap (component_of false) l)) as Ho.
  { induction 1 as [|p l Hpp Hl IH]; [constructor|]. cbn. destruct (component_of false p) as [c|] eqn:E; [|done].
    constructor; [by eapply component_of_plain|done]. }
  assert (Forall plain_comp (match split_char "/" s with [] => [] | p :: ps =>
    option_list (component_of true p) ++ omap (component_of false) ps end)) as Hf.
  { destruct (split_char "/" s) as [|p ps]; [constructor|]. apply Forall_cons in Hp as [Hp Hps].
    apply Forall_app. split; [|by apply Ho]. destruct (component_of true p) as [c|] eqn:E; [|constructor].
    cbn. constructor; [by eapply component_of_plain|constructor]. }
  destruct s as [|c s]; [done|]. destruct (ascii_dec c "/") as [->|Hc]; [done|]. intros _.
  destruct c as [[] [] [] [] [] [] [] []]; try exact Hf; done.
Qed.

Definition rel_names (s : string) : list string :=
  omap (fun c => match c with Normal n => Some n | _ => None end) (components s).
Lemma rel_names_spec s : is_absolute (components s) = false -> has_parent_dir_component (components s) = false ->
  Forall valid_name (rel_names s) /\ base.filter (fun c => c <> CurDir) (components s) = map Normal (rel_names s).
Proof.
  intros Ha Hp. pose proof (components_plain s Ha) as Hf. unfold rel_names. clear Ha.
  induction Hf as [|c l Hc Hl IH]; [done|]. cbn in Hp. apply orb_false_iff in Hp as [Hcp Hlp].
  destruct (IH Hlp) as [IH1 IH2]. destruct c; cbn in Hc, Hcp; try done.
  rewrite filter_cons_True by done. cbn [omap list_omap map]. split; [by constructor|by rewrite IH2].
Qed.
Lemma path_join_rel base s : is_absolute (components s) = false -> has_parent_dir_component (components s) = false ->
  path_join (abs_names base) (components s) = abs_names (base ++ rel_names s).
Proof.
  intros Ha Hp. destruct (rel_names_spec s Ha Hp) as [_ Hf]. unfold path_join. rewrite Ha. unfold abs_names at 1.
  cbn match. rewrite Hf. unfold abs_names. by rewrite map_app.
Qed.

(** ** Trees without links below the destination *)
Section Confine.
Context `{!FsEnv}.
Context (base : list string) (m0 : fs).
Implicit Types m : fs.

Record confined m : Prop := {
  cf_wf : wf_fs m;
  cf_base : dir_at m base = true;
  cf_links : forall ns n, m !! (base ++ ns) = Some n -> ns <> [] -> is_link_node n = false;
  cf_names : Forall valid_name base;
  cf_outside : forall q, (forall ns, ns <> [] -> q <> base ++ ns) -> m !! q = m0 !! q;
}.

Lemma resolve_below m l f ns : confined m ->
  resolve l m f [] (abs_names (base ++ ns)) = At (base ++ ns) /\ is_Some (node_at m (base ++ ns)) \/
  (exists d n, ns = d ++ [n] /\ dir_at m (base ++ d) = true /\ m !! ((base ++ d) ++ [n]) = None /\
     resolve l m f [] (abs_names (base ++ ns)) = Missing (base ++ d) n) \/
  exists b, resolve l m f [] (abs_names (base ++ ns)) = Broken b.
Proof.
  intros Hc. pose proof (cf_wf m Hc) as Hwf.
  destruct ns as [|x ns].
  { left. rewrite app_nil_r. destruct (dir_not_link m base (cf_base m Hc)) as (n & Hn & Hl).
    split; [by eapply resolve_at; eauto|by eexists]. }
  assert (forall ns d, dir_at m (base ++ d) = true -> ns <> [] ->
    resolve l m f (base ++ d) (map Normal ns) = At (base ++ d ++ ns) /\ is_Some (node_at m (base ++ d ++ ns)) \/
    (exists d' n, d ++ ns = d' ++ [n] /\ dir_at m (base ++ d') = true /\ m !! ((base ++ d') ++ [n]) = None /\
       resolve l m f (base ++ d) (map Normal ns) = Missing (base ++ d') n) \/
    exists b, resolve l m f (base ++ d) (map Normal ns) = Broken b) as Hg.
  { clear x ns. induction ns as [|n ns IH]; intros d Hd Hne; [done|]. cbn [map]. rewrite resolve_normal.
    assert (base ++ d ++ n :: ns = ((base ++ d) ++ [n]) ++ ns) as E by (by rewrite <-!app_assoc).
    destruct (m !! ((base ++ d) ++ [n])) as [[c md t|md t|tg t]|] eqn:El.
    - destruct ns as [|n' ns]; [left|right; right; by eexists]. cbn [map]. rewrite E, app_nil_r.
      split; [done|]. rewrite node_at_cons by (by destruct (base ++ d)). by rewrite El.
    - destruct ns as [|n' ns].
      + left. cbn [map]. rewrite resolve_nil, E, app_nil_r. split; [done|].
        rewrite node_at_cons by (by destruct (base ++ d)). by rewrite El.
      + destruct (IH (d ++ [n])) as [H1|[(d' & n0 & H1)|H1]]; [|done|..].
        * apply dir_at_lookup; [by destruct base, d|]. rewrite app_assoc. by eexists _, _.
        * left. rewrite app_assoc, <-app_assoc in H1. by rewrite <-app_assoc in H1 |- *.
        * right. left. exists d', n0. by rewrite <-(app_assoc d), (app_assoc base) in H1.
        * right. right. by rewrite app_assoc in H1.
    - rewrite <-app_assoc in El. by apply (cf_links m Hc) in El; [|by destruct d].
    - destruct ns as [|n' ns]; [|right; right; by eexists]. right. left. exists d, n. by split_and!. }
  rewrite resolve_last by (done || apply (cf_base m Hc)). change (Normal x :: map Normal ns) with (map Normal (x :: ns)).
  specialize (Hg (x :: ns) []). rewrite app_nil_r in Hg. apply Hg; [by apply (cf_base m Hc)|done].
Qed.

(** Changing what is strictly below the destination. *)
Lemma confined_insert m d n nd : confined m -> dir_at m (base ++ d) = true -> Forall valid_name (d ++ [n]) ->
  is_link_node nd = false -> (dir_at m (base ++ d ++ [n]) = true -> is_dir_node nd = true) ->
  confined (<[base ++ d ++ [n] := nd]> m).
Proof.
  intros Hc Hd Hv Hl Hk. pose proof (cf_names m Hc) as Hb. apply Forall_app in Hv as [Hv1 Hv2].
  apply Forall_cons in Hv2 as [Hv2 _]. split.
  - rewrite app_assoc in *. apply wf_insert; [by apply (cf_wf m Hc)|done|by apply Forall_app|done|done].
  - apply dir_at_insert; [by destruct base, d|done|by apply (cf_base m Hc)].
  - intros ns nd' Hns Hne. destruct (decide (base ++ d ++ [n] = base ++ ns)) as [E|E].
    + rewrite E, lookup_insert_eq in Hns. by injection Hns as <-.
    + rewrite lookup_insert_ne in Hns by done. by apply (cf_links m Hc) in Hns.
  - done.
  - intros q Hq. rewrite lookup_insert_ne; [by apply (cf_outside m Hc)|]. intros <-. by apply (Hq (d ++ [n])); [destruct d|].
Qed.
Lemma confined_delete m ns : confined m -> ns <> [] -> dir_at m (base ++ ns) = false -> confined (delete (base ++ ns) m).
Proof.
  intros Hc Hne Hd. split.
  - apply wf_delete; [by apply (cf_wf m Hc)|done].
  - pose proof (cf_base m Hc) as Hb. unfold dir_at, node_at in *. destruct base as [|x b] eqn:Eb; [done|].
    rewrite lookup_delete_ne; [done|]. intros E. apply (f_equal length) in E. rewrite length_app in E. destruct ns; [done|cbn in E; lia].
  - intros ns' nd Hl Hn. apply lookup_delete_Some in Hl as [_ Hl]. by apply (cf_links m Hc) in Hl.
  - exact (cf_names m Hc).
  - intros q Hq. rewrite lookup_delete_ne; [by apply (cf_outside m Hc)|]. intros E. by apply (Hq ns).
Qed.

Lemma parent_below m d x : confined m -> is_Some (m !! (base ++ d ++ [x])) ->
  dir_at m (base ++ d) = true /\ Forall valid_name (d ++ [x]).
Proof.
  intros Hc Hs. split.
  - rewrite app_assoc in Hs. by apply (wf_parent m (cf_wf m Hc)) in Hs.
  - apply (wf_names m (cf_wf m Hc)) in Hs as [_ Hv]. by apply Forall_app in Hv as [_ ?].
Qed.
Lemma confined_replace m ns old nd : confined m -> ns <> [] -> m !! (base ++ ns) = Some old ->
  is_link_node nd = false -> (is_dir_node old = true -> is_dir_node nd = true) -> confined (<[base ++ ns := nd]> m).
Proof.
  intros Hc Hne Ho Hl Hk. destruct ns as [|x d] using rev_ind; [done|]. clear IHd.
  destruct (parent_below m d x Hc) as [Hd Hv]; [by rewrite Ho|]. apply confined_insert; [done..|].
  intros (mode & t & E)%dir_at_lookup; [|by destruct base, d]. rewrite Ho in E. injection E as ->. by apply Hk.
Qed.
Lemma node_below m ns : ns <> [] -> node_at m (base ++ ns) = m !! (base ++ ns).
Proof. intros Hne. apply node_at_cons. by destruct base, ns. Qed.

Lemma mkdir_confined m ns m' : confined m -> Forall valid_name ns -> mkdir m (abs_names (base ++ ns)) = inr m' -> confined m'.
Proof.
  intros Hc Hv. unfold mkdir, lstat.
  destruct (resolve_below m MAXSYMLINKS false ns Hc) as [[-> _]|[(d & n & -> & Hd & Hn & ->)|[b ->]]]; [done| |done].
  intros [= <-]. rewrite <-app_assoc. apply confined_insert; [done..|]. rewrite app_assoc.
  unfold dir_at. rewrite node_at_cons by (by destruct (base ++ d)). by rewrite Hn.
Qed.
Lemma create_dir_all_confined m ns m' : confined m -> Forall valid_name ns ->
  create_dir_all m (abs_names (base ++ ns)) = Some m' -> confined m'.
Proof.
  intros Hc. unfold create_dir_all. revert m'. induction ns as [|n ns IH] using rev_ind; intros m' Hv.
  - rewrite app_nil_r. assert (create_dir_all_rev m (rev (abs_names base)) = Some m) as ->; [|by intros [= <-]].
    destruct (rev (abs_names base)) as [|c rp] eqn:E; [done|]. cbn [create_dir_all_rev].
    rewrite <-E, rev_involutive. unfold mkdir.
    rewrite (lstat_at m (cf_wf m Hc) base (dir_at_Some m base (cf_base m Hc))).
    by rewrite (is_dir_dir m (cf_wf m Hc) base (cf_base m Hc)).
  - pose proof Hv as [Hv1 _]%Forall_app. rewrite app_assoc, rev_abs_snoc. cbn [create_dir_all_rev].
    rewrite <-rev_abs_snoc, rev_involutive, <-app_assoc.
    destruct (mkdir m (abs_names (base ++ ns ++ [n]))) as [[]|m1] eqn:E1.
    + destruct (create_dir_all_rev m _) as [m1|] eqn:E2; [|done]. specialize (IH m1 Hv1 eq_refl). 
      unfold mkdir, lstat, is_dir, metadata, stat.
      destruct (resolve_below m1 MAXSYMLINKS false (ns ++ [n]) IH) as [[-> _]|[(d & x & E & Hd & Hn & ->)|[b ->]]].
      * case_match; [|done]. by intros [= <-].
      * intros [= <-]. rewrite <-app_assoc. rewrite E in Hv. apply confined_insert; [done..|]. rewrite app_assoc.
        unfold dir_at. rewrite node_at_cons by (by destruct (base ++ d)). by rewrite Hn.
      * case_match; [|done]. by intros [= <-].
    + case_match; [|done]. by intros [= <-].
    + intros [= <-]. exact (mkdir_confined m (ns ++ [n]) m1 Hc Hv E1).
Qed.

Lemma file_create_confined m ns q m' : confined m -> ns <> [] -> Forall valid_name ns ->
  file_create m (abs_names (base ++ ns)) = Some (q, m') -> q = base ++ ns /\ confined m'.
Proof.
  intros Hc Hne Hv. unfold file_create, stat.
  destruct (resolve_below m MAXSYMLINKS true ns Hc) as [[-> _]|[(d & n & -> & Hd & Hn & ->)|[b ->]]]; [| |done].
  - destruct (m !! (base ++ ns)) as [[c md t|md t|tg t]|] eqn:E; try done. intros [= <- <-]. split; [done|].
    by eapply confined_replace.
  - intros [= <- <-]. rewrite <-app_assoc. split; [done|]. apply confined_insert; [done..|]. rewrite app_assoc.
    unfold dir_at. rewrite node_at_cons by (by destruct (base ++ d)). by rewrite Hn.
Qed.
Lemma write_all_confined m ns data : confined m -> ns <> [] -> confined (write_all m (base ++ ns) data).
Proof.
  intros Hc Hne. unfold write_all. destruct (m !! (base ++ ns)) as [[c md t|md t|tg t]|] eqn:E; try done.
  by eapply confined_replace.
Qed.
Lemma dir_at_delete m p q : dir_at m p = false -> dir_at m q = true -> dir_at (delete p m) q = true.
Proof.
  unfold dir_at, node_at. destruct q as [|x q]; [done|]. intros Hp Hq. rewrite lookup_delete_ne; [done|].
  intros ->. congruence.
Qed.
Lemma rename_confined m s t m' : confined m -> s <> [] -> t <> [] -> Forall valid_name t ->
  rename m (abs_names (base ++ s)) (abs_names (base ++ t)) = Some m' -> confined m'.
Proof.
  intros Hc Hs Ht Hv. unfold rename, lstat.
  destruct (resolve_below m MAXSYMLINKS false s Hc) as [[-> _]|[(d & n & -> & _ & _ & ->)|[b ->]]]; [|done..].
  destruct (m !! (base ++ s)) as [n|] eqn:En; [|done].
  assert (is_link_node n = false) as Hl by (by eapply (cf_links m Hc)).
  destruct (is_dir_node n) eqn:Hdn; [by destruct n|].
  assert (dir_at m (base ++ s) = false) as Hds by (unfold dir_at; rewrite node_below by done; by rewrite En).
  pose proof (confined_delete m s Hc Hs Hds) as Hc'.
  assert (forall d x, t = d ++ [x] -> dir_at m (base ++ d) = true -> dir_at m (base ++ t) = false ->
    confined (<[base ++ t := n]> (delete (base ++ s) m))) as Hins.
  { intros d x -> Hd Hdt. apply confined_insert; [done|by apply dir_at_delete|done|done|].
    unfold dir_at. rewrite node_below by done. destruct (decide (base ++ s = base ++ d ++ [x])) as [->|Hne];
      [by rewrite lookup_delete_eq|]. rewrite lookup_delete_ne by done. rewrite <-node_below by done.
    fold (dir_at m (base ++ d ++ [x])). by rewrite Hdt. }
  enough ((match resolve MAXSYMLINKS m false [] (abs_names (base ++ t)) with
    | Missing d nm => Some (<[d ++ [nm] := n]> (delete (base ++ s) m))
    | At qd => if dir_at m qd then None else Some (<[qd := n]> (delete (base ++ s) m))
    | Broken _ => None end) = Some m' -> confined m') as Hgoal by (by destruct n).
  destruct (resolve_below m MAXSYMLINKS false t Hc) as [[-> Ht']|[(d & x & -> & Hd & Hn & ->)|[b ->]]]; [| |done].
  - destruct (dir_at m (base ++ t)) eqn:Hdt; [done|]. intros [= <-].
    destruct t as [|x d] using rev_ind; [done|]. apply (Hins d x); [done| |done].
    rewrite node_below in Ht' by done. by apply parent_below in Ht' as [? _].
  - intros [= <-]. rewrite <-app_assoc. apply (Hins d x); [done|done|]. unfold dir_at. rewrite node_below by done.
    rewrite app_assoc. by rewrite Hn.
Qed.
Lemma remove_file_confined m ns m' : confined m -> ns <> [] -> remove_file m (abs_names (base ++ ns)) = Some m' -> confined m'.
Proof.
  intros Hc Hne. unfold remove_file, lstat.
  destruct (resolve_below m MAXSYMLINKS false ns Hc) as [[-> _]|[(d & n & -> & _ & _ & ->)|[b ->]]]; [|done..].
  destruct (dir_at m (base ++ ns)) eqn:Hd; [done|]. intros [= <-]. by apply confined_delete.
Qed.
Lemma confined_prune m ns : confined m -> ns <> [] ->
  confined (base.filter (fun kv : list string * node => ~ (base ++ ns) `prefix_of` kv.1) m).
Proof.
  intros Hc Hne. assert (forall q nd, base.filter (fun kv : list string * node => ~ (base ++ ns) `prefix_of` kv.1) m !! q = Some nd <->
    m !! q = Some nd /\ ~ (base ++ ns) `prefix_of` q) as Hf by (intros q nd; by rewrite map_lookup_filter_Some).
  assert (forall p, ~ (base ++ ns) `prefix_of` p -> dir_at m p = true ->
    dir_at (base.filter (fun kv : list string * node => ~ (base ++ ns) `prefix_of` kv.1) m) p = true) as Hdir.
  { intros [|x p] Hp Hd; [done|]. apply dir_at_lookup in Hd as (md & t & Hd); [|done]. apply dir_at_lookup; [done|].
    exists md, t. by apply Hf. }
  split.
  - split.
    + intros p [nd [Hp _]%Hf]. apply (wf_names m (cf_wf m Hc)). by eexists.
    + intros p n [nd [Hp Hpre]%Hf]. apply Hdir; [|apply (wf_parent m (cf_wf m Hc) p n); by eexists].
      intros Hx. apply Hpre. etrans; [exact Hx|by exists [n]].
  - apply Hdir; [|apply (cf_base m Hc)]. intros Hx%prefix_length. rewrite length_app in Hx. destruct ns; [done|cbn in Hx; lia].
  - intros ns' nd [Hl _]%Hf Hn. by apply (cf_links m Hc) in Hl.
  - exact (cf_names m Hc).
  - intros q Hq. rewrite <-(cf_outside m Hc q Hq). destruct (m !! q) as [nd|] eqn:E.
    + apply Hf. split; [done|]. intros [k ->]. apply (Hq (ns ++ k)); [by destruct ns|by rewrite app_assoc].
    + destruct (base.filter _ m !! q) as [nd|] eqn:E'; [|done]. apply Hf in E' as [? _]. congruence.
Qed.
Lemma remove_dir_all_confined m ns m' : confined m -> ns <> [] ->
  remove_dir_all m (abs_names (base ++ ns)) = Some m' -> confined m'.
Proof.
  intros Hc Hne. unfold remove_dir_all, lstat.
  destruct (resolve_below m MAXSYMLINKS false ns Hc) as [[-> _]|[(d & n & -> & _ & _ & ->)|[b ->]]]; [|done..].
  pose proof (confined_prune m ns Hc Hne) as Hp. destruct (base ++ ns) eqn:E; [by destruct base, ns|]. by intros [= <-].
Qed.
Lemma set_meta_confined m ns mode mtime : confined m -> ns <> [] -> confined (set_meta m (abs_names (base ++ ns)) mode mtime).
Proof.
  intros Hc Hne. unfold set_meta, stat.
  destruct (resolve_below m MAXSYMLINKS true ns Hc) as [[-> _]|[(d & n & -> & _ & _ & ->)|[b ->]]]; [|done..].
  destruct (m !! (base ++ ns)) as [nd|] eqn:E.
  - assert (alter (set_node_meta mode mtime) (base ++ ns) m = <[base ++ ns := set_node_meta mode mtime nd]> m) as ->.
    { apply map_eq. intros q. destruct (decide (base ++ ns = q)) as [<-|Hq];
        [by rewrite lookup_alter_eq, lookup_insert_eq, E|by rewrite lookup_alter_ne, lookup_insert_ne]. }
    apply (cf_links m Hc) in E as Hl; [|done]. eapply confined_replace; [done|done|exact E|by destruct nd|by destruct nd].
  - assert (alter (set_node_meta mode mtime) (base ++ ns) m = m) as ->; [|done].
    apply map_eq. intros q. destruct (decide (base ++ ns = q)) as [<-|Hq]; [by rewrite lookup_alter_eq, E|by rewrite lookup_alter_ne].
Qed.
End Confine.

(** ** The receiving session *)
Definition spec {A} (P : Sess -> Prop) (t : T A) (Q : A -> Prop) : Prop :=
  forall s, P s -> P (t s).1 /\ forall a, (t s).2 = inr a -> Q a.

Section Spec.
Context (P : Sess -> Prop).
Lemma spec_ret {A} (a : A) (Q : A -> Prop) : Q a -> spec P (mret a) Q.
Proof. intros Hq s Hs. split; [done|]. by intros ? [= <-]. Qed.
Lemma spec_throw {A} e (Q : A -> Prop) : spec P (throw e) Q.
Proof. by intros s Hs. Qed.
Lemma spec_bind {A B} (t : T A) (f : A -> T B) Q Q' : spec P t Q -> (forall a, Q a -> spec P (f a) Q') -> spec P (t ≫= f) Q'.
Proof.
  intros Ht Hf s Hs. destruct (Ht s Hs) as [Hp Hq]. unfold mbind, T_bind. destruct (t s) as [s' [e|a]]; [by split|].
  apply Hf; [by apply Hq|done].
Qed.
Lemma spec_attempt {A} (t : T A) Q : spec P t Q -> spec P (attempt t) (fun _ => True).
Proof. intros Ht s Hs. destruct (Ht s Hs) as [Hp _]. unfold attempt. by destruct (t s). Qed.
Lemma spec_weaken {A} (t : T A) (Q Q' : A -> Prop) : spec P t Q -> (forall a, Q a -> Q' a) -> spec P t Q'.
Proof. intros Ht Hq s Hs. destruct (Ht s Hs). split; [done|auto]. Qed.
Lemma spec_pending : spec P pending (fun _ => True).
Proof. by intros s Hs. Qed.
Lemma spec_get_fs : spec P get_fs (fun m => exists s, P s /\ s_fs s = m).
Proof. intros s Hs. split; [done|]. intros ? [= <-]. by exists s. Qed.
End Spec.

Section ReceiveConfined.
Context `{!FsEnv, !ZstdStream, !ErrText}.
Context (base : list string) (m0 : fs).

(** The sender sends no links and names something below the destination. *)
Definition tame_msg (msg : TransferMsg) : Prop :=
  match msg with
  | FileHeader_ h => rel_names (fh_path h) <> []
  | DeltaHeader path _ _ _ => rel_names path <> []
  | CreateDirectory d => rel_names (de_path d) <> []
  | DeletePath path => rel_names path <> []
  | CreateSymlink _ _ => False
  | _ => True
  end.
Definition holds (s : Sess) : Prop := confined base m0 (s_fs s) /\ Forall tame_msg (s_in s).

Lemma spec_read : spec holds read_msg tame_msg.
Proof.
  intros s [Hc Hf]. unfold read_msg. destruct (s_in s) as [|msg r] eqn:E; [split; [split; [exact Hc|cbn [fst]; by rewrite E]|done]|].
  apply Forall_cons in Hf as [Hm Hr]. split; [by split|]. by intros ? [= <-].
Qed.
Lemma spec_write l : spec holds (write_frames l) (fun _ => True).
Proof. by intros s Hs. Qed.
Lemma spec_io f : (forall m m', confined base m0 m -> f m = Some m' -> confined base m0 m') -> spec holds (io f) (fun _ => True).
Proof. intros Hf s [Hc Hi]. unfold io. destruct (f (s_fs s)) as [m'|] eqn:E; [|by split]. split; [|done]. split; [by eapply Hf|done]. Qed.
Lemma spec_lift f : (forall m, confined base m0 m -> confined base m0 (f m)) -> spec holds (lift_io f) (fun _ => True).
Proof. intros Hf. apply spec_io. intros m m' Hc [= <-]. by apply Hf. Qed.
Lemma spec_ignore f : (forall m m', confined base m0 m -> f m = Some m' -> confined base m0 m') ->
  spec holds (ignore_io f) (fun _ => True).
Proof. intros Hf. apply spec_lift. intros m Hc. destruct (f m) as [m'|] eqn:E; [by eapply Hf|done]. Qed.

Lemma safe_join_below m rel p : confined base m0 m -> safe_join m (abs_names base) rel = inr p ->
  p = abs_names (base ++ rel_names rel) /\ Forall valid_name (rel_names rel).
Proof.
  intros Hc. unfold safe_join. destruct (is_absolute (components rel)) eqn:Ha; [done|].
  destruct (has_parent_dir_component (components rel)) eqn:Hp; [done|]. cbn [orb].
  destruct (rel_names_spec rel Ha Hp) as [Hv _]. rewrite path_join_rel by done.
  assert (forall r, exists_ m r && negb (path_starts_with r (abs_names base)) = false \/
    exists_ m r && negb (path_starts_with r (abs_names base)) = true) as Hb by (intros r; destruct (_ && _); auto).
  unfold exists_ at 1, canonicalize_in at 1, stat.
  destruct (resolve_below base m0 m MAXSYMLINKS true (rel_names rel) Hc) as [[E _]|[(d & n & Ed & _ & _ & E)|[b E]]]; rewrite E.
  - destruct (_ && _); [done|]. by intros [= <-].
  - destruct (path_parent _) as [pp|]; [|destruct (_ && _); [done|by intros [= <-]]].
    destruct (exists_ m pp); [|destruct (_ && _); [done|by intros [= <-]]].
    destruct (canonicalize_in m pp); [|done]. destruct (path_starts_with _ _); [|done].
    destruct (_ && _); [done|]. by intros [= <-].
  - destruct (path_parent _) as [pp|]; [|destruct (_ && _); [done|by intros [= <-]]].
    destruct (exists_ m pp); [|destruct (_ && _); [done|by intros [= <-]]].
    destruct (canonicalize_in m pp); [|done]. destruct (path_starts_with _ _); [|done].
    destruct (_ && _); [done|]. by intros [= <-].
Qed.
Lemma spec_join rel : spec holds (join_checked (abs_names base) rel)
  (fun p => p = abs_names (base ++ rel_names rel) /\ Forall valid_name (rel_names rel)).
Proof.
  eapply spec_bind; [apply spec_get_fs|]. intros m (s & [Hc _] & <-).
  destruct (safe_join (s_fs s) (abs_names base) rel) as [e|p] eqn:E; [apply spec_throw|].
  apply spec_ret. by eapply safe_join_below.
Qed.

Definition tmp_of (d : list string) (n : string) : list string := d ++ [(".hop-tmp-" +:+ n)%string].
Lemma tmp_name_below d n : tmp_name (abs_names (base ++ d ++ [n])) = abs_names (base ++ tmp_of d n).
Proof. unfold tmp_name, tmp_of. rewrite app_assoc, file_name_abs, with_file_name_abs. by rewrite app_assoc. Qed.
Lemma no_char_sapp c a b : no_char c (a +:+ b) = no_char c a && no_char c b.
Proof. induction a as [|x a IH]; [done|]. cbn. rewrite <-andb_assoc. by rewrite <-IH. Qed.
Lemma tmp_valid d n : Forall valid_name (d ++ [n]) -> Forall valid_name (tmp_of d n).
Proof.
  intros [Hd Hn]%Forall_app. apply Forall_app. split; [done|]. apply Forall_cons in Hn as [(_ & _ & _ & Hn) _].
  constructor; [|constructor]. split_and!; [done..|]. by rewrite no_char_sapp, Hn.
Qed.
Lemma tmp_ne d n : tmp_of d n <> [].
Proof. by destruct d. Qed.
Local Hint Resolve spec_read spec_write spec_throw tmp_ne tmp_valid : core.

Lemma spec_data fuel : forall ns dec w, ns <> [] -> spec holds (data_loop fuel (base ++ ns) dec w) (fun _ => True).
Proof.
  induction fuel as [|f IH]; intros ns dec w Hne; [apply spec_throw|]. cbn [data_loop].
  eapply spec_bind; [apply spec_read|]. intros msg _. destruct msg; try apply spec_throw.
  - eapply spec_bind with (Q := fun _ => True); [|intros; by apply IH].
    destruct dec as [d|]; [destruct (zdec_write d data) as [[d' out]|]; [|apply spec_throw]|];
      (eapply spec_bind; [apply spec_lift; intros m Hc; by apply write_all_confined|intros; by apply spec_ret]).
  - eapply spec_bind with (Q := fun _ => True); [|intros; by apply spec_ret].
    destruct dec as [d|]; [destruct (zdec_flush d); [|apply spec_throw]|by apply spec_ret].
    apply spec_lift. intros m Hc. by apply write_all_confined.
Qed.
Lemma spec_put_fs m : confined base m0 m -> spec holds (put_fs m) (fun _ => True).
Proof. intros Hc s [_ Hi]. by split. Qed.
Lemma spec_file_data ns params : ns <> [] -> Forall valid_name ns ->
  spec holds (receive_file_data (abs_names (base ++ ns)) params) (fun _ => True).
Proof.
  intros Hne Hv. eapply spec_bind; [apply spec_get_fs|]. intros m (s & [Hc _] & <-).
  destruct (file_create _ _) as [[q m1]|] eqn:E; [|apply spec_throw].
  apply (file_create_confined base m0) in E as [-> Hc1]; [|done..].
  eapply spec_bind; [by apply spec_put_fs|]. intros _ _. eapply spec_bind; [apply spec_pending|].
  intros n _. by apply spec_data.
Qed.
Lemma spec_finish d n mode mtime path res size saved : Forall valid_name (d ++ [n]) ->
  spec holds (finish_file (abs_names (base ++ tmp_of d n)) (abs_names (base ++ d ++ [n])) mode mtime path res size saved)
    (fun _ => True).
Proof.
  intros Hv. assert (d ++ [n] <> []) as Hne by (by destruct d). destruct res as [e|w]; cbn [finish_file].
  - eapply spec_bind; [apply spec_ignore; intros m m' Hc; by apply remove_file_confined|]. intros _ _.
    eapply spec_bind; [apply spec_write|]. intros _ _. by apply spec_ret.
  - eapply spec_bind; [apply spec_io; intros m m' Hc; by apply rename_confined|]. intros _ _.
    eapply spec_bind; [apply spec_lift; intros m Hc; by apply set_meta_confined|]. intros _ _.
    eapply spec_bind; [apply spec_write|]. intros _ _. by apply spec_ret.
Qed.
Lemma spec_collect fuel : forall ops, spec holds (collect_ops fuel ops) (fun _ => True).
Proof.
  induction fuel as [|f IH]; intros ops; [apply spec_throw|]. cbn [collect_ops].
  eapply spec_bind; [apply spec_read|]. intros msg _. destruct msg; try apply spec_throw; [apply IH|by apply spec_ret].
Qed.
Lemma spec_reconstruct old ns ops : ns <> [] -> Forall valid_name ns ->
  spec holds (reconstruct_in old (abs_names (base ++ ns)) ops) (fun _ => True).
Proof.
  intros Hne Hv. eapply spec_bind; [apply spec_get_fs|]. intros m (s & [Hc _] & <-).
  destruct (read_file (s_fs s) old); [|apply spec_throw].
  destruct (file_create _ _) as [[q m1]|] eqn:E; [|apply spec_throw].
  apply (file_create_confined base m0) in E as [-> Hc1]; [|done..]. destruct (Delta.reconstruct_file _ _ _) as [out w].
  eapply spec_bind; [by apply spec_put_fs, write_all_confined|]. intros _ _. by apply spec_ret.
Qed.

Lemma spec_msg wd params msg : tame_msg msg -> spec holds (receive_msg wd (abs_names base) params msg) (fun _ => True).
Proof.
  intros Hm. destruct msg; cbn [receive_msg]; try (by apply spec_ret); try apply spec_throw; try done.
  - eapply spec_bind with (Q := fun _ => True); [|intros; by apply spec_ret]. unfold receive_header.
    eapply spec_bind; [apply spec_join|]. intros p [-> Hv]. cbn in Hm.
    destruct (rel_names (fh_path h)) as [|n d] using rev_ind; [done|]. rewrite tmp_name_below.
    rewrite (app_assoc base d [n]), path_parent_abs, <-(app_assoc base d [n]).
    eapply spec_bind; [apply spec_io; intros m m' Hc; apply create_dir_all_confined; [done|by apply Forall_app in Hv as [? _]]|].
    intros _ _. eapply spec_bind; [eapply (spec_attempt holds), spec_file_data; [done|by apply tmp_valid]|].
    intros res _. by apply spec_finish.
  - eapply spec_bind with (Q := fun _ => True); [|intros; by apply spec_ret]. unfold receive_directory.
    eapply spec_bind; [apply spec_join|]. intros p [-> Hv]. cbn in Hm.
    eapply spec_bind; [apply spec_io; intros m m' Hc; by apply create_dir_all_confined|]. intros _ _.
    eapply spec_bind; [apply spec_lift; intros m Hc; by apply set_meta_confined|]. intros _ _.
    eapply spec_bind; [apply spec_write|]. intros _ _. by apply spec_ret.
  - eapply spec_bind with (Q := fun _ => True); [|intros; by apply spec_ret]. unfold receive_delete.
    eapply spec_bind; [apply spec_join|]. intros p [-> Hv]. cbn in Hm.
    eapply spec_bind; [apply spec_get_fs|]. intros m _. eapply spec_bind with (Q := fun _ => True).
    { destruct (is_dir m _); apply spec_ignore; intros m1 m2 Hc; [by apply remove_dir_all_confined|by apply remove_file_confined]. }
    intros _ _. eapply spec_bind; [apply spec_write|]. intros _ _. by apply spec_ret.
  - destruct wd; [|by apply spec_ret]. eapply spec_bind with (Q := fun _ => True); [|intros; by apply spec_ret].
    unfold receive_delta. eapply spec_bind; [apply spec_join|]. intros p [-> Hv]. cbn in Hm.
    destruct (rel_names path) as [|n d] using rev_ind; [done|]. rewrite tmp_name_below.
    eapply spec_bind; [apply spec_pending|]. intros k _. eapply spec_bind; [apply spec_collect|]. intros ops _.
    eapply spec_bind; [eapply (spec_attempt holds), spec_reconstruct; [done|by apply tmp_valid]|]. intros res _. by apply spec_finish.
Qed.
Lemma spec_loop fuel wd params : forall t sv, spec holds (receive_loop fuel wd (abs_names base) params t sv) (fun _ => True).
Proof.
  induction fuel as [|f IH]; intros t sv; [apply spec_throw|]. cbn [receive_loop].
  eapply spec_bind; [apply spec_read|]. intros msg Hm. eapply spec_bind; [by apply spec_msg|].
  intros [[b s]|] _; [apply IH|by apply spec_ret].
Qed.
Lemma spec_signatures `{!FileHash} reads cands files :
  spec holds (send_signatures reads (abs_names base) cands files) (fun _ => True).
Proof.
  induction files as [|e files IH]; [by apply spec_ret|]. cbn [send_signatures].
  eapply spec_bind with (Q := fun _ => True); [|intros; apply IH]. destruct (_ || _); [by apply spec_ret|].
  destruct (bool_decide _); [|by apply spec_ret]. eapply spec_bind; [apply spec_join|]. intros p _.
  eapply spec_bind; [apply spec_get_fs|]. intros m _. destruct (exists_ m p); [|by apply spec_ret].
  destruct (read_file m p); [apply spec_write|apply spec_throw].
Qed.
Lemma spec_open_dest : spec holds (open_dest (abs_names base)) (fun p => p = abs_names base).
Proof.
  eapply spec_bind; [apply spec_get_fs|]. intros m (s & [Hc _] & <-).
  rewrite (exists_dir _ (cf_wf _ _ _ Hc) base (cf_base _ _ _ Hc)).
  eapply spec_bind; [by apply (spec_ret holds tt (fun _ => True))|]. intros _ _.
  eapply spec_bind; [apply spec_get_fs|]. intros m (s' & [Hc' _] & <-).
  rewrite (canonicalize_dir _ (cf_wf _ _ _ Hc') base (cf_base _ _ _ Hc')). by apply spec_ret.
Qed.
Lemma spec_receive_files params : spec holds (receive_files (abs_names base) params) (fun _ => True).
Proof.
  eapply spec_bind; [apply spec_open_dest|]. intros p ->. eapply spec_bind; [apply spec_pending|]. intros n _.
  eapply spec_bind; [apply spec_loop|]. intros r _. by apply spec_ret.
Qed.
Lemma spec_receive_delta `{!FileHash} reads cands files params :
  spec holds (receive_files_with_delta reads (abs_names base) cands files params) (fun _ => True).
Proof.
  eapply spec_bind; [apply spec_open_dest|]. intros p ->. eapply spec_bind; [apply spec_signatures|]. intros _ _.
  eapply spec_bind; [apply spec_pending|]. intros n _. apply spec_loop.
Qed.
End ReceiveConfined.

(** C5.  A receiver stays inside its destination: on a well-formed tree with no link below the
    destination, whatever a sender sends, in whatever order and with whatever paths, as long as it is
    no link and names something below the destination, nothing outside the destination, nor the
    destination itself, is created, changed or removed, with or without deltas and also when the
    transfer fails. *)
Theorem receive_confined `{!FsEnv, !ZstdStream, !ErrText, !FileHash} base m msgs out params reads cands files :
  wf_fs m -> dir_at m base = true -> Forall valid_name base ->
  (forall ns n, ns <> [] -> m !! (base ++ ns) = Some n -> is_link_node n = false) -> Forall tame_msg msgs ->
  let s := {| s_fs := m; s_in := msgs; s_out := out |} in
  forall q, (forall ns, ns <> [] -> q <> base ++ ns) ->
    s_fs (receive_files (abs_names base) params s).1 !! q = m !! q /\
    s_fs (receive_files_with_delta reads (abs_names base) cands files params s).1 !! q = m !! q.
Proof.
  intros Hwf Hd Hv Hl Hm s q Hq. assert (holds base m s) as Hs.
  { split; [|done]. split; [done|done|intros ns n ? ?; by eapply Hl|done|done]. }
  split.
  - destruct (spec_receive_files base m params s Hs) as [[Hc _] _]. by apply (cf_outside _ _ _ Hc).
  - destruct (spec_receive_delta base m reads cands files params s Hs) as [[Hc _] _]. by apply (cf_outside _ _ _ Hc).
Qed.

(** ** Concrete crates, for examples *)
Definition demo_fs_env : FsEnv := {| fs_now := 7; new_file_mode := 420; new_dir_mode := 493 |}.
Definition demo_err_text : ErrText := {| err_text := fun _ => "failed"%string |}.
Definition demo_zstd_stream : ZstdStream.
Proof.
  refine {| zs_encode := fun _ b => b; zdec := unit; zdec_new := tt; zdec_write := fun _ c => Some (tt, c);
            zdec_flush := fun _ => Some [] |}.
  intros level content chunks <-. induction chunks as [|c cs IH]; [done|]. cbn in *. by rewrite IH.
Defined.
Definition demo_file_hash : FileHash :=
  {| xxh3_64 := fun b => foldr (fun x acc => acc * 257 + x + 1) 0 b; dir_readable := fun _ _ => true; entry_readable := fun _ _ => true;
     content_readable := fun _ _ => true |}.

Definition demo_dest : list string := ["home"; "u"; "dst"]%string.
Definition demo_fs : fs :=
  list_to_map [(["home"], Dir 493 1); (["home"; "u"], Dir 493 1); (demo_dest, Dir 493 1);
               (["home"; "u"; "secret"], File [1] 384 1); (["home"; "u"; "dst"; "old"], File [2] 420 1)]%string.
Lemma demo_fs_wf : wf_fs demo_fs.
Proof. apply wf_from_list. by vm_compute. Qed.
Definition demo_msgs : list TransferMsg :=
  [FileHeader_ {| fh_path := "../secret"; fh_size := 1; fh_mode := 420; fh_mtime := 5 |}; FileData [9]; FileEnd; Done].

Lemma receive_confined_witness :
  s_fs (receive_files (H := demo_fs_env) (H0 := demo_zstd_stream) (H1 := demo_err_text) (abs_names demo_dest) legacy
    {| s_fs := demo_fs; s_in := demo_msgs; s_out := [] |}).1 !! ["home"; "u"; "secret"]%string = Some (File [1] 384 1).
Proof.
  refine (eq_trans (proj1 (receive_confined (H := demo_fs_env) (H0 := demo_zstd_stream) (H1 := demo_err_text)
    (H2 := demo_file_hash) demo_dest demo_fs demo_msgs [] legacy (fun _ => []) ∅ [] demo_fs_wf _ _ _ _ _ _)) _).
  - by vm_compute.
  - apply (bool_decide_unpack _). by vm_compute.
  - intros ns n Hne Hn. apply elem_of_list_to_map_2 in Hn. rewrite !elem_of_cons in Hn.
    destruct Hn as [[= _ ->]|[[= _ ->]|[[= _ ->]|[[= _ ->]|[[= _ ->]|Hn]]]]]; try done. by apply elem_of_nil in Hn.
  - repeat constructor. by vm_compute.
  - intros ns Hne E. apply (f_equal (take 3)) in E. by cbn in E.
  - by vm_compute.
Defined.

(** A received link leads outside: the lexical check of a link's target counts the components of the
    link's own path, some of which may be links to the current directory, so a chain of three messages
    plants a link to the parent of the destination and creates a file in a new directory there. *)
Theorem received_link_escapes :
  let s := {| s_fs := demo_fs;
              s_in := [CreateSymlink "here" "."; CreateSymlink "here/up" "..";
                       FileHeader_ {| fh_path := "up/.ssh/authorized_keys"; fh_size := 1; fh_mode := 420; fh_mtime := 5 |};
                       FileData [66]; FileEnd; Done]%string;
              s_out := [] |} in
  let '(s', r) := receive_files (H := demo_fs_env) (H0 := demo_zstd_stream) (H1 := demo_err_text)
                    (abs_names demo_dest) legacy s in
  r = inr 1 /\ s_fs s' !! ["home"; "u"; ".ssh"; "authorized_keys"]%string = Some (File [66] 420 5) /\
  s_out s' = map Plain [FileAck "here" true None; FileAck "here/up" true None; FileAck "up/.ssh/authorized_keys" true None]%string.
Proof. vm_compute. split_and!; reflexivity. Qed.

(** A header whose path is empty names the destination itself: its data goes to a temporary file next
    to the destination, which stays there when the rename onto the directory fails. *)
Theorem empty_path_escapes :
  let s := {| s_fs := demo_fs;
              s_in := [FileHeader_ {| fh_path := ""; fh_size := 1; fh_mode := 420; fh_mtime := 5 |}; FileData [66]; FileEnd; Done]%string;
              s_out := [] |} in
  let '(s', r) := receive_files (H := demo_fs_env) (H0 := demo_zstd_stream) (H1 := demo_err_text)
                    (abs_names demo_dest) legacy s in
  r = inl IoError /\ s_fs s' !! ["home"; "u"; ".hop-tmp-dst"]%string = Some (File [66] 420 7).
Proof. vm_compute. split_and!; reflexivity. Qed.
