(* ===== verification/Sender.v ===== *)
(** * Sender: sending files (hop-core/src/transfer/sender.rs)

    Whole files and deltas over the session monad; the reader of a delta session can be
    cancelled inside a message.  Progress reporting and write
    time-outs are left out; the parallel sender has no caller. *)
From S2P Require Import Prelude Text Policy Delta Fs Listing Negotiate Receiver.
Local Open Scope Z_scope.

(** What the operating system decides while a file is sent: how many bytes the
    [i]th read of a file is ready to return, and the time since the chunk sizer's
    last check. *)
Class SendEnv := { read_ready : string -> nat -> nat; since_check : string -> nat -> Z }.

Section Sender.
Context `{!ZstdStream, !SendEnv}.
Implicit Types params : NegotiatedParams.

(** [read] into a buffer of the current chunk size: at least one byte unless the
    data is at its end, at most the buffer. *)
Definition read_some (ready : nat) (chunk_size : Z) (data : bytes) : nat :=
  Nat.min (Nat.max 1 ready) (Nat.min (Z.to_nat chunk_size) (length data)).

(** The read loop: the chunks, what they add up to, and the sizer after them. *)
Fixpoint chunk_loop (fuel : nat) (path : string) (i : nat) (sizer : ChunkSizer) (data : bytes) (sent : Z) :
    list framed * Z * ChunkSizer :=
  match fuel with
  | O => ([], sent, sizer)
  | S f =>
      let n := read_some (read_ready path i) (current_size sizer) data in
      if (n =? 0)%nat then ([], sent, sizer) else
      let '(out, sent', sizer') :=
        chunk_loop f path (S i) (sizer_record sizer (Z.of_nat n) (since_check path i)) (drop n data) (sent + Z.of_nat n) in
      (Plain (FileData (take n data)) :: out, sent', sizer')
  end.
(** The bytes the reader yields: the file, or its zstd encoding. *)
Definition wire_data (params : NegotiatedParams) (content : bytes) : bytes :=
  if is_compressed params then zs_encode (zstd_level params) content else content.
Definition send_data (path : string) (content : bytes) (sizer : ChunkSizer) (params : NegotiatedParams) : T (Z * ChunkSizer) :=
  let data := wire_data params content in
  let '(out, sent, sizer') := chunk_loop (length data) path 0 sizer data 0 in
  _ ← write_frames out; mret (sent, sizer').

Definition header_of (e : FileEntry) : FileHeader :=
  {| fh_path := fe_path e; fh_size := fe_size e; fh_mode := fe_mode e; fh_mtime := fe_mtime e |}.
Definition dir_of (e : FileEntry) : DirEntry := {| de_path := fe_path e; de_mode := fe_mode e; de_mtime := fe_mtime e |}.
Definition full_path (base_dir : Path) (e : FileEntry) : Path := path_join base_dir (components (fe_path e)).

Definition send_file_data (base_dir : Path) (e : FileEntry) (sizer : ChunkSizer) (params : NegotiatedParams) :
    T (Z * ChunkSizer) :=
  _ ← write_msg (FileHeader_ (header_of e));
  m ← get_fs;
  match read_file m (full_path base_dir e) with
  | None => throw IoError
  | Some content =>
      r ← send_data (fe_path e) content sizer params;
      _ ← write_msg FileEnd;
      mret r
  end.

Fixpoint send_files_loop (base_dir : Path) (files : list FileEntry) (sizer : ChunkSizer) (params : NegotiatedParams)
    (total : Z) : T Z :=
  match files with
  | [] => mret total
  | e :: files' =>
      if fe_is_symlink e then
        _ ← (match fe_symlink_target e with Some t => write_msg (CreateSymlink (fe_path e) t) | None => mret tt end);
        send_files_loop base_dir files' sizer params total
      else if fe_is_dir e then
        _ ← write_msg (CreateDirectory (dir_of e));
        send_files_loop base_dir files' sizer params total
      else
        '(n, sizer') ← send_file_data base_dir e sizer params;
        send_files_loop base_dir files' sizer' params (total + n)
  end.
Definition send_files (base_dir : Path) (files : list FileEntry) (params : NegotiatedParams) : T Z :=
  send_files_loop base_dir files (sizer_new (max_chunk_size params)) params 0.

(** ** Deltas *)
(** The reader forwards the first message that is not an acknowledgement. *)
Fixpoint next_sig_loop (msgs : list TransferMsg) : (transfer_error + TransferMsg) * list TransferMsg :=
  match msgs with
  | [] => (inl StreamBroken, [])
  | FileAck _ _ _ :: r => next_sig_loop r
  | m :: r => (inr m, r)
  end.
Definition next_sig : T TransferMsg := reading next_sig_loop.
Definition delta_cost (ops : list DeltaOperation) : Z :=
  foldl (fun n op => n + match op with CopyBlock _ => 4 | Literal data => Z.of_nat (length data) end) 0 ops.
Definition send_delta `{!FileHash} (base_dir : Path) (e : FileEntry) (signatures : list BlockSignature) (block_size : Z) :
    T (Z * Z) :=
  m ← get_fs;
  match read_file m (full_path base_dir e) with
  | None => throw IoError
  | Some content =>
      match compute_delta xxh3_64 content signatures (Z.to_nat block_size) with
      | Ok ops =>
          _ ← write_msg (DeltaHeader (fe_path e) (fe_size e) (fe_mode e) (fe_mtime e));
          _ ← write_frames (map (fun op => Plain (DeltaOp op)) ops);
          _ ← write_msg DeltaEnd;
          let delta_bytes := delta_cost ops in
          mret (delta_bytes, if delta_bytes <? fe_size e then fe_size e - delta_bytes else 0)
      | Err e => match e with end
      | Panic => throw Panicked
      end
  end.
Fixpoint delta_files_loop `{!FileHash} (base_dir : Path) (files : list FileEntry) (candidates : gset string)
    (sizer : ChunkSizer) (params : NegotiatedParams) (total saved : Z) : T (Z * Z) :=
  match files with
  | [] => mret (total, saved)
  | e :: files' =>
      if fe_is_symlink e then
        _ ← (match fe_symlink_target e with Some t => write_msg (CreateSymlink (fe_path e) t) | None => mret tt end);
        delta_files_loop base_dir files' candidates sizer params total saved
      else if fe_is_dir e then
        _ ← write_msg (CreateDirectory (dir_of e));
        delta_files_loop base_dir files' candidates sizer params total saved
      else if bool_decide (fe_path e ∈ candidates) then
        sig_msg ← next_sig;
        match sig_msg with
        | BlockSignatures _ block_size signatures =>
            '(n, sv) ← send_delta base_dir e signatures block_size;
            delta_files_loop base_dir files' candidates sizer params (total + n) (saved + sv)
        | _ =>
            '(n, sizer') ← send_file_data base_dir e sizer params;
            delta_files_loop base_dir files' candidates sizer' params (total + n) saved
        end
      else
        '(n, sizer') ← send_file_data base_dir e sizer params;
        delta_files_loop base_dir files' candidates sizer' params (total + n) saved
  end.
(** The reader has by then read [extra] more messages, which are dropped; the stop signal drops its
    read of the next one, and [cut] is what that leaves of the stream. *)
Definition send_files_with_delta `{!FileHash} (extra : nat) (cut : list TransferMsg -> list TransferMsg) (base_dir : Path)
    (files : list FileEntry) (candidates : gset string) (params : NegotiatedParams) : T (Z * Z) :=
  r ← delta_files_loop base_dir files candidates (sizer_new (max_chunk_size params)) params 0 0;
  _ ← reading (fun msgs => (inr tt, cut (drop extra msgs)));
  mret r.

Definition send_deletes (paths : list string) : T unit := write_frames (map (fun p => Plain (DeletePath p)) paths).
End Sender.
