(* ===== verification/Sync.v ===== *)
(** * Sync: transfer sessions (hop-core/src/transfer/mod.rs, transfer/helper.rs)

    The host's and the client's side of a copy and of a sync in each direction,
    the helper process that does a host's file work as another user, the request
    dispatch with its policy check, and the exchange of two sides.  Audit
    records and progress are left out, and of the time-outs all but those that cancel a read; the helper works on the same
    file system (permissions are not modelled). *)
From S2P Require Import Prelude Text Policy Delta Fs Listing Negotiate Receiver Sender.
From Stdlib Require Import Ascii.
Local Open Scope Z_scope.

(** ** Requests (proto/mod.rs) *)
Inductive TransferMode := Copy (recursive : bool) | Sync.
Inductive TransferDirection := Push | Pull.
Record TransferRequest := {
  tr_mode : TransferMode; tr_direction : TransferDirection; tr_remote_path : string;
  tr_delete_extraneous : bool; tr_dry_run : bool;
}.
Record TransferSummary := {
  files_transferred : Z; files_deleted : Z; dirs_created : Z; bytes_transferred : Z; bytes_saved : Z;
  errors : list string;
}.

(** ** Path arguments *)
Inductive PathSpec := Local (p : string) | Remote (host path : string).
Definition char_at (s : string) (i : nat) (c : ascii) : bool :=
  match String.get i s with Some d => Ascii.eqb c d | None => false end.
(** The text before and after the first colon. *)
Fixpoint split_colon (s : string) : option (string * string) :=
  match s with
  | EmptyString => None
  | String c s' => if Ascii.eqb c ":" then Some (EmptyString, s')
                   else (fun '(h, p) => (String c h, p)) <$> split_colon s'
  end.
Definition parse_path_spec (input : string) : PathSpec :=
  if starts_with "/" input || starts_with "./" input || starts_with "../" input ||
     bool_decide (input = ".")%string || bool_decide (input = "..")%string then Local input
  else if (3 <=? String.length input)%nat && char_at input 1 ":" && (char_at input 2 "\" || char_at input 2 "/") then Local input
  else match split_colon input with
       | Some (host, path) =>
           if negb (bool_decide (host = EmptyString)) && no_char "/" host && no_char "\" host then
             Remote host (if decide (path = EmptyString) then "~"%string else path)
           else Local input
       | None => Local input
       end.

(** Home directories come from the user database. *)
Class Homes := { home_dir_for_user : string -> option Path; dirs_home : option Path }.
Definition resolve_host_path `{!Homes} (remote_path : string) (username : option string) : option Path :=
  let home := match username with Some user => home_dir_for_user user | None => dirs_home end in
  if starts_with "~/" remote_path || bool_decide (remote_path = "~")%string then
    if decide (remote_path = "~")%string then home
    else (fun h => path_join h (components (String.substring 2 (String.length remote_path - 2) remote_path))) <$> home
  else if starts_with "/" remote_path then Some (components remote_path)
  else (fun h => path_join h (components remote_path)) <$> home.

(** The tree as the sandbox policy sees it. *)
#[export, refine] Instance tree_fs (m : fs) : FileSystem := {| canonicalize := canonicalize_in m |}.
Proof. intros p c. unfold canonicalize_in. destruct (stat m p); try done. intros [= <-]. by eexists. Defined.
Definition enforce_transfer_policy (m : fs) (sandbox : SandboxPolicy) (base_path : Path) (is_write : bool) : bool :=
  if is_write && read_only sandbox then false
  else path_in_scope (H := tree_fs m) sandbox base_path.

Section Sessions.
Context `{!FsEnv, !ZstdStream, !ErrText, !FileHash, !SendEnv}.
Implicit Types params : NegotiatedParams.

(** What timing decides in a session: how many messages have arrived after the
    [i]th batch when a client drains, how many the delta reader has taken when the
    files are sent, and the read sizes while signing.  The last read of a drain is
    dropped by its time-out, and the delta reader's by the stop signal: the bytes of
    a message it had taken by then ([drain_cut], [reader_cut]) are lost, and later
    reads find what [misread] makes of the rest, which starts inside a message. *)
Class Timing := {
  drained : nat -> nat; drain_cut : nat -> option nat; reader_extra : nat; reader_cut : option nat;
  misread : nat -> list TransferMsg -> list TransferMsg; sign_reads : bytes -> list nat;
}.
Context `{!Timing}.
(** The stream after a read that was dropped. *)
Definition cut_short (taken : option nat) (msgs : list TransferMsg) : list TransferMsg :=
  match taken with Some n => misread n msgs | None => msgs end.

Definition entry_of_file (name : string) (content : bytes) (mode mtime : Z) : FileEntry :=
  {| fe_path := name; fe_size := Z.of_nat (length content); fe_mtime := Z.max 0 mtime; fe_mode := 32768 + mode;
     fe_is_dir := false; fe_is_symlink := false; fe_symlink_target := None; fe_content_hash := None |}.
Definition base_name (p : Path) : string := utf8_lossy (str_bytes (default EmptyString (file_name p))).
Definition walk_io (root : Path) : T (list FileEntry) :=
  m ← get_fs;
  match walk_directory m root with Some l => mret l | None => throw IoError end.
Definition list_dest (dest : Path) : T (list FileEntry) :=
  m ← get_fs;
  if is_dir m dest then walk_io dest else mret [].

(** ** The host *)
Definition host_receive_files (dest : Path) (params : NegotiatedParams) : T unit :=
  _ ← receive_files dest params;
  write_msg Done.

(** [acks] reads the acknowledgements: the daemon checks each, the helper only counts them. *)
Definition copy_send (source : Path) (recursive : bool) (acks : nat -> T unit) (params : NegotiatedParams) : T unit :=
  m ← get_fs;
  '(base_dir, entries) ← (match metadata m source with
    | Some (File c mode mtime) => mret (default source (path_parent source), [entry_of_file (base_name source) c mode mtime])
    | Some (Dir _ _) => if recursive then l ← walk_io source; mret (source, l) else throw NeedsRecursive
    | _ => throw NoSource
    end);
  _ ← send_files base_dir entries params;
  _ ← acks (length entries);
  write_msg Done.
Definition check_acks (n : nat) : T unit := _ ← read_acks n; mret tt.
Definition host_send_files (source : Path) (recursive : bool) (params : NegotiatedParams) : T unit :=
  copy_send source recursive check_acks params.

(** Files that are large here and in the plan. *)
Definition local_delta_candidates (m : fs) (dest : Path) (files : list FileEntry) : gset string :=
  list_to_set (map fe_path (base.filter (fun f =>
    negb (fe_is_dir f) && negb (fe_is_symlink f) && (DELTA_MIN_FILE_SIZE <=? fe_size f) &&
    exists_ m (path_join dest (components (fe_path f))) &&
    match metadata m (path_join dest (components (fe_path f))) with
    | Some n => DELTA_MIN_FILE_SIZE <=? match n with File c _ _ => Z.of_nat (length c) | _ => 0 end
    | None => false
    end = true) files)).
Definition receive_planned (dest : Path) (files : list FileEntry) (params : NegotiatedParams) : T (Z * Z) :=
  m ← get_fs;
  let candidates := local_delta_candidates m dest files in
  if decide (candidates = ∅) then n ← receive_files dest params; mret (n, 0)
  else receive_files_with_delta sign_reads dest candidates files params.

Definition host_sync_receive (dest : Path) (params : NegotiatedParams) : T unit :=
  dest_entries ← list_dest dest;
  _ ← write_frames (write_file_list dest_entries (chunked_listing params));
  '(files, _, dry_run) ← reading read_transfer_plan;
  _ ← write_msg (PlanAck true);
  if (dry_run : bool) then write_msg Done else
  _ ← receive_planned dest files params;
  write_msg Done.

(** The source of a sync pull: a directory or one file. *)
Definition sync_source (source : Path) : T (Path * list FileEntry) :=
  m ← get_fs;
  match metadata m source with
  | Some (Dir _ _) => l ← walk_io source; mret (source, l)
  | Some (File c mode mtime) => mret (default source (path_parent source), [entry_of_file (base_name source) c mode mtime])
  | _ => throw NoSource
  end.
(** Send what the plan says, with deltas if it has candidates. *)
Definition send_planned (base_dir : Path) (plan : SyncPlan) (params : NegotiatedParams) : T unit :=
  let delta_set : gset string := list_to_set (delta_candidates plan) in
  _ ← (if decide (delta_set = ∅) then _ ← send_files base_dir (files_to_send plan) params; mret tt
       else _ ← send_files_with_delta reader_extra (cut_short reader_cut) base_dir (files_to_send plan) delta_set params; mret tt);
  _ ← send_deletes (files_to_delete plan);
  write_msg Done.
Definition read_done : T unit := _ ← read_msg; mret tt.
Definition sync_send (source : Path) (delete_extraneous dry_run_plan dry_run : bool) (acks : nat -> T unit)
    (params : NegotiatedParams) : T unit :=
  client_entries ← reading read_file_list;
  '(base_dir, source_entries) ← sync_source source;
  let plan := compute_sync_plan source_entries client_entries delete_extraneous in
  _ ← write_frames (write_transfer_plan (files_to_send plan) (files_to_delete plan) dry_run_plan (chunked_listing params));
  ack_msg ← read_msg;
  match ack_msg with
  | PlanAck true =>
      if dry_run then write_msg Done else
      _ ← send_planned base_dir plan params;
      _ ← acks (length (files_to_send plan) + length (files_to_delete plan))%nat;
      read_done
  | PlanAck false => write_msg Done
  | _ => throw UnexpectedMsg
  end.
Definition host_sync_send (source : Path) (request : TransferRequest) (params : NegotiatedParams) : T unit :=
  sync_send source (tr_delete_extraneous request) (tr_dry_run request) (tr_dry_run request)
    check_acks params.

(** ** The helper process *)
Fixpoint count_acks (n : nat) : T unit :=
  match n with O => mret tt | S n' => _ ← read_msg; count_acks n' end.
Definition helper_send (source : Path) (recursive : bool) (params : NegotiatedParams) : T unit :=
  copy_send source recursive count_acks params.
Definition run_transfer_helper (mode : string) (dest : Path) (params : NegotiatedParams) : T unit :=
  if decide (mode = "receive")%string then host_receive_files dest params
  else if decide (mode = "send")%string then helper_send dest false params
  else if decide (mode = "send-recursive")%string then helper_send dest true params
  else if decide (mode = "sync-receive")%string then host_sync_receive dest params
  else if decide (mode = "sync-send")%string then sync_send dest false false false count_acks params
  else if decide (mode = "sync-send-delete")%string then sync_send dest true false false count_acks params
  else throw UnknownMode.
(** A helper that fails exits with a code the daemon reports. *)
Definition proxy_via_helper (dest : Path) (params : NegotiatedParams) (mode : string) : T unit :=
  r ← attempt (run_transfer_helper mode dest params);
  match r with inr _ => mret tt | inl _ => throw HelperFailed end.

Definition host_dispatch (base_path : Path) (request : TransferRequest) (helper : bool) (params : NegotiatedParams) : T unit :=
  match tr_mode request, tr_direction request with
  | Copy _, Push =>
      if helper then proxy_via_helper base_path params "receive" else host_receive_files base_path params
  | Copy recursive, Pull =>
      if helper then proxy_via_helper base_path params (if recursive then "send-recursive" else "send")%string
      else host_send_files base_path recursive params
  | Sync, Push =>
      if helper then proxy_via_helper base_path params "sync-receive" else host_sync_receive base_path params
  | Sync, Pull =>
      if helper then proxy_via_helper base_path params
        (if tr_delete_extraneous request then "sync-send-delete" else "sync-send")%string
      else host_sync_send base_path request params
  end.
(** [privileged]: the daemon is root, or the worker of a root monitor. *)
Definition host_transfer_session `{!Homes} (privileged : bool) (request : TransferRequest) (username : option string)
    (protocol_version : Z) (sandbox : SandboxPolicy) : T unit :=
  match resolve_host_path (tr_remote_path request) username with
  | None => throw IoError
  | Some base_path =>
      m ← get_fs;
      let is_write := match tr_direction request with Push => true | Pull => false end in
      if negb (enforce_transfer_policy m sandbox base_path is_write) then
        _ ← write_msg (Error_ (err_text PolicyDenied)); throw PolicyDenied
      else
        params ← (if 1 <=? protocol_version then negotiate_host else mret legacy);
        let helper := privileged && match username with Some _ => true | None => false end in
        r ← attempt (host_dispatch base_path request helper params);
        match r with
        | inr _ => mret tt
        | inl e => _ ← write_msg (Error_ (err_text e)); throw e
        end
  end.

(** ** The client *)
(** Take the acknowledgements among the messages that have arrived, until the read
    of the next one times out. *)
Fixpoint drain_loop (n : nat) (taken : option nat) (errs : list string) (msgs : list TransferMsg) :
    list string * list TransferMsg :=
  match n, msgs with
  | O, _ => (errs, cut_short taken msgs)
  | S _, [] => (errs, [])
  | S n', FileAck path success error :: r => drain_loop n' taken (if success then errs else errs ++ [ack_error path error]) r
  | S _, Done :: r => (errs, r)
  | S n', _ :: r => drain_loop n' taken errs r
  end.
Definition drain_pending_acks (n : nat) (taken : option nat) (errs : list string) : T (list string) :=
  reading (fun msgs => let '(e, r) := drain_loop n taken errs msgs in (inr e, r)).

Definition count_files (l : list FileEntry) : Z := Z.of_nat (length (base.filter (fun e => fe_is_dir e = false) l)).
Definition count_dirs (l : list FileEntry) : Z := Z.of_nat (length (base.filter (fun e => fe_is_dir e = true) l)).
Definition push_source (local_path : Path) (contents_only : bool) : T (Path * list FileEntry) :=
  m ← get_fs;
  match metadata m local_path with
  | Some (File c mode mtime) =>
      mret (default [CurDir] (path_parent local_path), [entry_of_file (base_name local_path) c mode mtime])
  | Some (Dir _ _) =>
      l ← walk_io local_path;
      if contents_only then mret (local_path, l)
      else mret (default [CurDir] (path_parent local_path),
        map (fun e => {| fe_path := base_name local_path +:+ "/" +:+ fe_path e; fe_size := fe_size e; fe_mtime := fe_mtime e;
               fe_mode := fe_mode e; fe_is_dir := fe_is_dir e; fe_is_symlink := fe_is_symlink e;
               fe_symlink_target := fe_symlink_target e; fe_content_hash := fe_content_hash e |}) l)
  | _ => throw NoSource
  end.
Fixpoint push_sources (local_paths : list (Path * bool)) : T (list (Path * list FileEntry)) :=
  match local_paths with
  | [] => mret []
  | (p, contents_only) :: ps => s ← push_source p contents_only; r ← push_sources ps; mret (s :: r)
  end.
Definition BATCH_SIZE : nat := 100.
(** Send in batches of a hundred, draining after each; [i] counts the batches. *)
Fixpoint send_batches (base_dir : Path) (batches : list (list FileEntry)) (params : NegotiatedParams)
    (i : nat) (total : Z) (errs : list string) : T (nat * Z * list string) :=
  match batches with
  | [] => mret (i, total, errs)
  | b :: bs =>
      n ← send_files base_dir b params;
      errs' ← drain_pending_acks (drained i) (drain_cut i) errs;
      send_batches base_dir bs params (S i) (total + n) errs'
  end.
Fixpoint send_all (sends : list (Path * list FileEntry)) (params : NegotiatedParams) (i : nat) (total : Z)
    (errs : list string) : T (Z * list string) :=
  match sends with
  | [] => mret (total, errs)
  | (base_dir, entries) :: r =>
      '(i', total', errs') ← send_batches base_dir (chunks BATCH_SIZE entries) params i total errs;
      send_all r params i' total' errs'
  end.
Definition client_push_copy (local_paths : list (Path * bool)) (params : NegotiatedParams) : T TransferSummary :=
  all_sends ← push_sources local_paths;
  '(bytes, errs) ← send_all all_sends params 0 0 [];
  _ ← write_msg Done;
  more ← read_acks_until_done;
  let entries := List.concat (map snd all_sends) in
  mret {| files_transferred := count_files entries; files_deleted := 0; dirs_created := count_dirs entries;
          bytes_transferred := bytes; bytes_saved := 0; errors := errs ++ more |}.

Definition client_pull_copy (local_dest : Path) (params : NegotiatedParams) : T TransferSummary :=
  bytes ← receive_files local_dest params;
  _ ← write_msg Done;
  mret {| files_transferred := 0; files_deleted := 0; dirs_created := 0; bytes_transferred := bytes; bytes_saved := 0;
          errors := [] |}.

Record PushSyncNegotiation := { local_entries : list FileEntry; remote_entries : list FileEntry; psn_plan : SyncPlan }.
Definition client_push_sync_negotiate (local_dir : Path) (request : TransferRequest) (chunked : bool) : T PushSyncNegotiation :=
  remote ← reading read_file_list;
  locals ← walk_io local_dir;
  let plan := compute_sync_plan locals remote (tr_delete_extraneous request) in
  _ ← write_frames (write_transfer_plan (files_to_send plan) (files_to_delete plan) (tr_dry_run request) chunked);
  ack_msg ← read_msg;
  match ack_msg with
  | PlanAck true => mret {| local_entries := locals; remote_entries := remote; psn_plan := plan |}
  | PlanAck false => throw PlanDeclined
  | Error_ e => throw (PeerError e)
  | _ => throw UnexpectedMsg
  end.
(** What a dry run reports. *)
Definition dry_summary (files : list FileEntry) (deletes : list string) : TransferSummary :=
  {| files_transferred := count_files files; files_deleted := Z.of_nat (length deletes); dirs_created := count_dirs files;
     bytes_transferred := foldl (fun n e => n + if fe_is_dir e then 0 else fe_size e) 0 files; bytes_saved := 0; errors := [] |}.
(** The errors a drain has collected are replaced by those read at the end. *)
Definition client_push_sync_transfer (local_dir : Path) (request : TransferRequest) (negotiation : PushSyncNegotiation)
    (params : NegotiatedParams) : T TransferSummary :=
  let plan := psn_plan negotiation in
  if tr_dry_run request then _ ← read_msg; mret (dry_summary (files_to_send plan) (files_to_delete plan)) else
  let delta_set : gset string := list_to_set (delta_candidates plan) in
  '(bytes, saved) ← (
    if decide (delta_set = ∅) then
      '(_, n, _) ← send_batches local_dir (chunks BATCH_SIZE (files_to_send plan)) params 0 0 [];
      mret (n, 0)
    else send_files_with_delta reader_extra (cut_short reader_cut) local_dir (files_to_send plan) delta_set params);
  _ ← send_deletes (files_to_delete plan);
  _ ← write_msg Done;
  errs ← read_acks_until_done;
  mret {| files_transferred := count_files (files_to_send plan); files_deleted := Z.of_nat (length (files_to_delete plan));
          dirs_created := count_dirs (files_to_send plan); bytes_transferred := bytes; bytes_saved := saved; errors := errs |}.
Definition client_push_sync (local_dir : Path) (request : TransferRequest) (params : NegotiatedParams) : T TransferSummary :=
  negotiation ← client_push_sync_negotiate local_dir request (chunked_listing params);
  client_push_sync_transfer local_dir request negotiation params.

Record SyncPlanResult := { spr_send : list FileEntry; spr_delete : list string; spr_dry_run : bool }.
Definition client_pull_sync_negotiate (local_dir : Path) (chunked : bool) : T SyncPlanResult :=
  locals ← list_dest local_dir;
  _ ← write_frames (write_file_list locals chunked);
  '(files, deletes, dry_run) ← reading read_transfer_plan;
  mret {| spr_send := files; spr_delete := deletes; spr_dry_run := dry_run |}.
Definition client_pull_sync_transfer (local_dir : Path) (plan : SyncPlanResult) (params : NegotiatedParams) : T TransferSummary :=
  _ ← write_msg (PlanAck true);
  if spr_dry_run plan then
    _ ← read_msg;
    _ ← write_msg Done;
    mret (dry_summary (spr_send plan) (spr_delete plan))
  else
    '(bytes, saved) ← receive_planned local_dir (spr_send plan) params;
    _ ← write_msg Done;
    mret {| files_transferred := count_files (spr_send plan); files_deleted := Z.of_nat (length (spr_delete plan));
            dirs_created := count_dirs (spr_send plan); bytes_transferred := bytes; bytes_saved := saved; errors := [] |}.
(** The two phases as [hop sync] runs them. *)
Definition client_pull_sync (local_dir : Path) (params : NegotiatedParams) : T TransferSummary :=
  plan ← client_pull_sync_negotiate local_dir (chunked_listing params);
  if is_empty (spr_send plan) && is_empty (spr_delete plan) && negb (spr_dry_run plan) then
    _ ← write_msg (PlanAck true); _ ← read_msg; _ ← write_msg Done;
    mret (dry_summary [] [])
  else client_pull_sync_transfer local_dir plan params.
End Sessions.

(** ** Two sides *)
(** The exchange of a host and a client over two streams: each round, a side
    runs as far as what the other has written lets it.  It is the run of the two
    sides when every round's output extends the one before: a side that ran out
    of input inside a file would go on with a failed acknowledgement. *)
Definition run_on {A} (t : T A) (m : fs) (input : list framed) : Sess * (transfer_error + A) :=
  t {| s_fs := m; s_in := map frame_msg input; s_out := [] |}.
Fixpoint exchange {A B} (rounds : nat) (host : T A) (client : T B) (mh mc : fs) : list framed * list framed :=
  match rounds with
  | O => ([], [])
  | S k =>
      let '(_, c2h) := exchange k host client mh mc in
      let h2c := s_out (run_on host mh c2h).1 in
      (h2c, s_out (run_on client mc h2c).1)
  end.
(** After [rounds] rounds both sides have returned, having read everything. *)
Definition settles {A B} (rounds : nat) (host : T A) (client : T B) (mh mc mh' mc' : fs) (a : A) (b : B) : Prop :=
  (forall k, (k < rounds)%nat -> (exchange k host client mh mc).1 `prefix_of` (exchange (S k) host client mh mc).1 /\
     (exchange k host client mh mc).2 `prefix_of` (exchange (S k) host client mh mc).2) /\
  let '(h2c, c2h) := exchange rounds host client mh mc in
  run_on host mh c2h = ({| s_fs := mh'; s_in := []; s_out := h2c |}, inr a) /\
  run_on client mc h2c = ({| s_fs := mc'; s_in := []; s_out := c2h |}, inr b).
Lemma settles_3 {A B} (host : T A) (client : T B) mh mc h1 c1 h2 c2 h3 mh' mc' a b :
  s_out (run_on host mh []).1 = h1 -> s_out (run_on client mc h1).1 = c1 ->
  s_out (run_on host mh c1).1 = h2 -> s_out (run_on client mc h2).1 = c2 ->
  run_on host mh c2 = (Build_Sess mh' [] h3, inr a) -> run_on client mc h3 = (Build_Sess mc' [] c2, inr b) ->
  h1 `prefix_of` h2 -> h2 `prefix_of` h3 -> c1 `prefix_of` c2 -> settles 3 host client mh mc mh' mc' a b.
Proof.
  intros E1 E2 E3 E4 E5 E6 P1 P2 P3. unfold settles. cbn [exchange]. rewrite E1, E2, E3, E4, E5. cbn [fst s_out]. rewrite E6.
  cbn [fst s_out]. split; [|done]. intros k Hk. destruct k as [|[|[|k]]]; [..|lia]; cbn [exchange];
    rewrite ?E1, ?E2, ?E3, ?E4, ?E5; cbn [fst snd s_out]; rewrite ?E6; split; try done; apply prefix_nil.
Qed.
