(* ===== verification/Steps.v ===== *)
(** * Steps: what receiving one entry does (hop-core/src/transfer/receiver.rs)

    On a tree without links below the destination, the exact effect of each
    message of a well-behaved sender: a directory, a whole file, a delta, a
    deletion.  The acknowledgement is positive and only the named entry and
    missing parents change. *)
From S2P Require Import Prelude Text Policy Delta Fs Listing Negotiate Receiver Confine.
From Stdlib Require Import Ascii.
Local Open Scope Z_scope.

(** ** Running the session monad *)
Lemma bind_ok {A B} (t : T A) (f : A -> T B) s s' a : t s = (s', inr a) -> (t ≫= f) s = f a s'.
Proof. intros E. unfold mbind, T_bind. by rewrite E. Qed.
Lemma bind_err {A B} (t : T A) (f : A -> T B) s s' e : t s = (s', inl e) -> (t ≫= f) s = (s', inl e).
Proof. intros E. unfold mbind, T_bind. by rewrite E. Qed.
Lemma bind_assoc {A B C} (t : T A) (f : A -> T B) (g : B -> T C) s :
  ((t ≫= f) ≫= g) s = (t ≫= (fun a => f a ≫= g)) s.
Proof. unfold mbind, T_bind. by destruct (t s) as [s' [e|a]]. Qed.
Lemma read_msg_cons m x i o : read_msg (Build_Sess m (x :: i) o) = (Build_Sess m i o, inr x).
Proof. done. Qed.
Lemma io_ok f m m' i o : f m = Some m' -> io f (Build_Sess m i o) = (Build_Sess m' i o, inr tt).
Proof. intros E. unfold io. cbn [s_fs s_in s_out]. by rewrite E. Qed.
Lemma attempt_ok {A} (t : T A) s s' a : t s = (s', inr a) -> attempt t s = (s', inr (inr a)).
Proof. intros E. unfold attempt. by rewrite E. Qed.

(** ** Paths below the destination *)
Lemma rel_names_join ns : ns <> [] -> Forall valid_name ns -> rel_names (join "/" ns) = ns.
Proof.
  intros Hne Hv. unfold rel_names. rewrite components_join by done. clear. induction ns as [|n ns IH]; [done|].
  cbn. by rewrite IH.
Qed.
Lemma no_parent_dirs ns : has_parent_dir_component (map Normal ns) = false.
Proof. unfold has_parent_dir_component. by induction ns. Qed.

Lemma split_last (rel : list string) : rel <> [] -> exists d n, rel = d ++ [n].
Proof. destruct rel as [|n d _] using rev_ind; [done|]. by exists d, n. Qed.

Section Steps.
Context `{!FsEnv, !ZstdStream, !ErrText}.
Context (base : list string) (m0 : fs).
Implicit Types m : fs.
Local Abbreviation confined := (confined base m0).

Lemma starts_below ns : path_starts_with (abs_names (base ++ ns)) (abs_names base) = true.
Proof. apply path_starts_with_abs. by exists ns. Qed.
Lemma safe_join_ok m ns : confined m -> ns <> [] -> Forall valid_name ns ->
  safe_join m (abs_names base) (join "/" ns) = inr (abs_names (base ++ ns)).
Proof.
  intros Hc Hne Hv. unfold safe_join. rewrite components_join, is_absolute_normal, no_parent_dirs, path_join_abs by done.
  cbn [orb]. assert (forall ns', (if exists_ m (abs_names (base ++ ns')) && negb (path_starts_with (abs_names (base ++ ns')) (abs_names base))
    then inl (PathTraversal (join "/" ns)) else inr (abs_names (base ++ ns'))) = inr (abs_names (base ++ ns')) :> transfer_error + Path) as Hend
    by (intros ns'; by rewrite starts_below, andb_false_r).
  destruct ns as [|n d _] using rev_ind; [done|].
  destruct (exists_ m (abs_names (base ++ d ++ [n]))) eqn:Ex.
  - revert Ex. unfold exists_ at 1, canonicalize_in, stat.
    destruct (resolve_below base m0 m MAXSYMLINKS true (d ++ [n]) Hc) as [[-> _]|[(d' & x & _ & _ & _ & ->)|[b ->]]]; [|done..].
    intros _. apply Hend.
  - rewrite <-Hend. rewrite Ex. cbn [andb].
    replace (abs_names (base ++ d ++ [n])) with (abs_names ((base ++ d) ++ [n])) by (by rewrite app_assoc).
    rewrite path_parent_abs. destruct (exists_ m (abs_names (base ++ d))) eqn:Ep.
    + assert (canonicalize_in m (abs_names (base ++ d)) = Some (abs_names (base ++ d))) as ->.
      { revert Ep. unfold exists_, canonicalize_in, stat.
        by destruct (resolve_below base m0 m MAXSYMLINKS true d Hc) as [[-> _]|[(d' & x & _ & _ & _ & ->)|[b ->]]]. }
      rewrite starts_below. rewrite <-app_assoc, Ex. done.
    + by rewrite <-app_assoc, Ex.
Qed.
Lemma join_checked_ok m ns i o : confined m -> ns <> [] -> Forall valid_name ns ->
  join_checked (abs_names base) (join "/" ns) (Build_Sess m i o) = (Build_Sess m i o, inr (abs_names (base ++ ns))).
Proof.
  intros Hc Hne Hv. unfold join_checked. erewrite bind_ok by reflexivity. cbn [s_fs]. by rewrite safe_join_ok.
Qed.

(** ** The file operations on the tree *)
Lemma dir_at_none m p : m !! p = None -> p <> [] -> dir_at m p = false.
Proof. intros E Hp. unfold dir_at. by rewrite node_at_cons, E. Qed.
Lemma lstat_slot m d n : wf_fs m -> dir_at m d = true ->
  lstat m (abs_names (d ++ [n])) = At (d ++ [n]) /\ is_Some (m !! (d ++ [n])) \/
  lstat m (abs_names (d ++ [n])) = Missing d n /\ m !! (d ++ [n]) = None.
Proof.
  intros Hwf Hd. destruct (m !! (d ++ [n])) as [nd|] eqn:E; [left|right].
  - split; [|by eexists]. apply lstat_at; [done|]. rewrite node_at_cons by (by destruct d). by rewrite E.
  - split; [|done]. by apply resolve_missing.
Qed.
Lemma rename_ok m d a b c mode t : wf_fs m -> dir_at m d = true -> m !! (d ++ [a]) = Some (File c mode t) ->
  dir_at m (d ++ [b]) = false ->
  rename m (abs_names (d ++ [a])) (abs_names (d ++ [b])) = Some (<[d ++ [b] := File c mode t]> (delete (d ++ [a]) m)).
Proof.
  intros Hwf Hd Ha Hb. unfold rename. destruct (lstat_slot m d a Hwf Hd) as [[-> _]|[_ E]]; [|congruence].
  rewrite Ha. destruct (lstat_slot m d b Hwf Hd) as [[-> _]|[-> _]]; [by rewrite Hb|done].
Qed.
Lemma set_meta_ok m p nd mode mtime : wf_fs m -> m !! p = Some nd -> p <> [] -> is_link_node nd = false ->
  set_meta m (abs_names p) mode mtime = <[p := set_node_meta mode mtime nd]> m.
Proof.
  intros Hwf E Hp Hl. unfold set_meta. rewrite (stat_at m Hwf p nd) by (done || by rewrite node_at_cons).
  apply map_eq. intros q. destruct (decide (p = q)) as [<-|Hq];
    [by rewrite lookup_alter_eq, lookup_insert_eq, E|by rewrite lookup_alter_ne, lookup_insert_ne].
Qed.
Lemma file_create_new m d n : wf_fs m -> dir_at m d = true -> m !! (d ++ [n]) = None ->
  file_create m (abs_names (d ++ [n])) = Some (d ++ [n], <[d ++ [n] := File [] new_file_mode fs_now]> m).
Proof. intros Hwf Hd Hn. unfold file_create, stat. by rewrite resolve_missing. Qed.
Lemma read_file_ok m p c mode t : wf_fs m -> m !! p = Some (File c mode t) -> p <> [] -> read_file m (abs_names p) = Some c.
Proof.
  intros Hwf E Hp. unfold read_file, metadata. rewrite (stat_at m Hwf p (File c mode t)) by (done || by rewrite node_at_cons).
  by rewrite node_at_cons, E.
Qed.

(** ** The chunks of a file *)
Definition decoded (dec : option zdec) (chunks : list bytes) : option bytes :=
  match dec with Some d => zs_feed d chunks | None => Some (List.concat chunks) end.
Lemma zs_feed_cons d c cs : zs_feed d (c :: cs) =
  match zdec_write d c with Some (d', out) => (fun rest => out ++ rest) <$> zs_feed d' cs | None => None end.
Proof. done. Qed.
Lemma write_all_ok m q c mode t data : m !! q = Some (File c mode t) ->
  write_all m q data = <[q := File (c ++ data) mode fs_now]> m.
Proof. intros E. unfold write_all. by rewrite E. Qed.
Lemma data_loop_ok chunks : forall fuel q dec w m rest o c mode t out,
  decoded dec chunks = Some out -> m !! q = Some (File c mode t) -> (length chunks < fuel)%nat ->
  exists w' t', data_loop fuel q dec w (Build_Sess m (map FileData chunks ++ FileEnd :: rest) o)
    = (Build_Sess (<[q := File (c ++ out) mode t']> m) rest o, inr w').
Proof.
  induction chunks as [|ch chunks IH]; intros fuel q dec w m rest o c mode t out Hd Hq Hf; (destruct fuel as [|f]; [cbn in Hf; lia|]);
    cbn [data_loop map app]; rewrite (bind_ok _ _ _ _ _ (read_msg_cons _ _ _ _)); cbv beta iota.
  - destruct dec as [d|].
    + cbn in Hd. rewrite Hd. erewrite bind_ok by (apply io_ok; reflexivity).
      rewrite (write_all_ok _ _ _ _ _ _ Hq). by eexists _, _.
    + injection Hd as <-. rewrite app_nil_r. exists w, t. erewrite bind_ok by reflexivity. by rewrite insert_id.
  - assert (exists dec' part out', decoded dec' chunks = Some out' /\ out = part ++ out' /\
      (match dec with
       | Some d => match zdec_write d ch with
                   | Some (d', o') => _ ← lift_io (fun m => write_all m q o'); mret (Some d')
                   | None => throw IoError
                   end
       | None => _ ← lift_io (fun m => write_all m q ch); mret None
       end) (Build_Sess m (map FileData chunks ++ FileEnd :: rest) o) =
      (Build_Sess (<[q := File (c ++ part) mode fs_now]> m) (map FileData chunks ++ FileEnd :: rest) o, inr dec')) as
      (dec' & part & out' & Hd' & -> & E).
    { destruct dec as [d|]; unfold decoded in Hd.
      - rewrite zs_feed_cons in Hd. destruct (zdec_write d ch) as [[d' o']|]; [|done].
        destruct (zs_feed d' chunks) as [out'|] eqn:Ef; [|done]. injection Hd as <-. exists (Some d'), o', out'. split_and!; [done|done|].
        erewrite bind_ok by (apply io_ok; reflexivity). by rewrite (write_all_ok _ _ _ _ _ _ Hq).
      - injection Hd as <-. exists None, ch, (List.concat chunks). split_and!; [done|done|].
        erewrite bind_ok by (apply io_ok; reflexivity). by rewrite (write_all_ok _ _ _ _ _ _ Hq). }
    erewrite bind_ok by exact E. cbv beta.
    destruct (IH f q dec' (w + Z.of_nat (length ch)) (<[q := File (c ++ part) mode fs_now]> m) rest o
      (c ++ part) mode fs_now out' Hd') as (w' & t' & ->); [by rewrite lookup_insert_eq|cbn in Hf; lia|].
    exists w', t'. by rewrite insert_insert_eq, <-app_assoc.
Qed.
Lemma receive_file_data_ok m d n params chunks content rest o : wf_fs m -> dir_at m d = true -> m !! (d ++ [n]) = None ->
  List.concat chunks = (if is_compressed params then zs_encode (zstd_level params) content else content) ->
  exists w t, receive_file_data (abs_names (d ++ [n])) params (Build_Sess m (map FileData chunks ++ FileEnd :: rest) o)
    = (Build_Sess (<[d ++ [n] := File content new_file_mode t]> m) rest o, inr w).
Proof.
  intros Hwf Hd Hn Hch. unfold receive_file_data. erewrite bind_ok by reflexivity. cbn [s_fs].
  rewrite file_create_new by done. erewrite bind_ok by reflexivity. erewrite bind_ok by reflexivity. cbn [s_in s_out].
  edestruct (data_loop_ok chunks (length (map FileData chunks ++ FileEnd :: rest)) (d ++ [n])
    (if is_compressed params then Some zdec_new else None) 0) as (w & t & ->).
  - instantiate (1 := content). destruct (is_compressed params); cbn; [by eapply zs_roundtrip|by rewrite Hch].
  - by rewrite lookup_insert_eq.
  - rewrite length_app, length_map. cbn. lia.
  - exists w, t. by rewrite insert_insert_eq.
Qed.

(** ** One entry *)
(** A positive modification time is set. *)
Definition meta_set (mode mtime : Z) (t : Z) : Prop := 0 < mtime -> t = mtime.
Lemma confined_made_dirs m ns m1 : confined m -> Forall valid_name ns -> can_mkdirs m (base ++ ns) ->
  create_dir_all m (abs_names (base ++ ns)) = Some m1 -> confined m1 /\ made_dirs m (base ++ ns) m1.
Proof.
  intros Hc Hv Hcan E. split; [by eapply create_dir_all_confined|].
  destruct (create_dir_all_ok m (base ++ ns)) as (m2 & E2 & Hmd); [apply (cf_wf _ _ _ Hc)|done| |congruence].
  apply Forall_app. split; [apply (cf_names _ _ _ Hc)|done].
Qed.
Lemma create_below_ok m ns : confined m -> Forall valid_name ns -> can_mkdirs m (base ++ ns) ->
  exists m1, create_dir_all m (abs_names (base ++ ns)) = Some m1 /\ confined m1 /\ made_dirs m (base ++ ns) m1.
Proof.
  intros Hc Hv Hcan. destruct (create_dir_all_ok m (base ++ ns)) as (m1 & E & Hmd);
    [apply (cf_wf _ _ _ Hc)|done|apply Forall_app; split; [apply (cf_names _ _ _ Hc)|done]|].
  exists m1. split; [done|]. by apply confined_made_dirs.
Qed.

Lemma app_last_ne (d : list string) a b : a <> b -> d ++ [a] <> d ++ [b].
Proof. intros Hab E. apply app_inj_tail in E as [_ ?]. done. Qed.
Lemma tmp_prefix_ne n : (".hop-tmp-" +:+ n)%string <> n.
Proof. intros E. apply (f_equal String.length) in E. rewrite length_sapp in E. cbn in E. lia. Qed.

(** The temporary file is written, moved over the target and given its metadata. *)
Lemma finish_file_ok m d n mode mtime path w size saved content t rest o : confined m ->
  dir_at m (base ++ d) = true -> Forall valid_name (d ++ [n]) -> m !! (base ++ tmp_of d n) = None -> dir_at m (base ++ d ++ [n]) = false ->
  exists t', meta_set mode mtime t' /\ confined (<[base ++ d ++ [n] := File content (mode .& 511) t']> m) /\
  finish_file (abs_names (base ++ tmp_of d n)) (abs_names (base ++ d ++ [n])) mode mtime path (inr w) size saved
    (Build_Sess (<[base ++ tmp_of d n := File content new_file_mode t]> m) rest o)
  = (Build_Sess (<[base ++ d ++ [n] := File content (mode .& 511) t']> m) rest (o ++ [Plain (FileAck path true None)]), inr (size, saved)).
Proof.
  intros Hc Hd Hv Htmp Hn. unfold tmp_of in *. set (tn := (".hop-tmp-" +:+ n)%string) in *. rewrite (app_assoc base d [tn]) in *.
  assert ((base ++ d) ++ [tn] <> (base ++ d) ++ [n]) as Hne by apply app_last_ne, tmp_prefix_ne.
  rewrite (app_assoc base d [n]) in *.
  set (m1 := <[(base ++ d) ++ [tn] := File content new_file_mode t]> m).
  assert (confined m1) as Hc1.
  { unfold m1. rewrite <-app_assoc. apply confined_insert; [done|done|by apply (tmp_valid d n)|done|].
    rewrite app_assoc, dir_at_none; [done|done|by destruct (base ++ d)]. }
  assert (rename m1 (abs_names ((base ++ d) ++ [tn])) (abs_names ((base ++ d) ++ [n])) =
    Some (<[(base ++ d) ++ [n] := File content new_file_mode t]> m)) as Hren.
  { rewrite (rename_ok m1 (base ++ d) tn n content new_file_mode t).
    - unfold m1. rewrite delete_insert_id by done. done.
    - apply (cf_wf _ _ _ Hc1).
    - apply dir_at_insert; [by destruct (base ++ d)| |done]. rewrite dir_at_none; [done|done|by destruct (base ++ d)].
    - unfold m1. by rewrite lookup_insert_eq.
    - unfold dir_at in *. rewrite node_at_cons in Hn |- * by (by destruct (base ++ d)). unfold m1. by rewrite lookup_insert_ne. }
  set (m2 := <[(base ++ d) ++ [n] := File content new_file_mode t]> m) in *.
  assert (forall md tt', confined (<[(base ++ d) ++ [n] := File content md tt']> m)) as Hc2.
  { intros md tt'. rewrite <-app_assoc. apply confined_insert; [done|done|done|done|]. by rewrite app_assoc, Hn. }
  exists (if 0 <? mtime then mtime else t). split; [unfold meta_set; destruct (Z.ltb_spec 0 mtime); [done|lia]|].
  split; [apply Hc2|]. unfold finish_file. erewrite bind_ok by (apply io_ok; exact Hren). cbv beta.
  unfold set_metadata, lift_io. erewrite bind_ok by (apply io_ok; reflexivity). cbv beta.
  rewrite (set_meta_ok m2 ((base ++ d) ++ [n]) (File content new_file_mode t)); [|apply (cf_wf _ _ _ (Hc2 _ _))|
    unfold m2; by rewrite lookup_insert_eq|by destruct (base ++ d)|done].
  unfold m2. rewrite insert_insert_eq. reflexivity.
Qed.

Lemma made_dirs_none m d q m1 : made_dirs m d m1 -> m !! q = None -> ~ q `prefix_of` d -> m1 !! q = None.
Proof. intros (_ & _ & Hl) E Hp. rewrite Hl, E. by rewrite bool_decide_eq_false_2 by (by intros [? _]). Qed.
Lemma snoc_not_prefix (d : list string) n : ~ (d ++ [n]) `prefix_of` d.
Proof. intros Hp%prefix_length. rewrite length_app in Hp. cbn in Hp. lia. Qed.
Lemma dir_at_same m m1 p : m1 !! p = m !! p -> dir_at m1 p = dir_at m p.
Proof. intros E. unfold dir_at, node_at. destruct p; [done|by rewrite E]. Qed.
Lemma made_dirs_slot m d n m1 : made_dirs m d m1 -> m1 !! (d ++ [n]) = m !! (d ++ [n]).
Proof.
  intros Hmd. destruct (m !! (d ++ [n])) as [nd|] eqn:E.
  - destruct Hmd as (_ & _ & Hl). by rewrite Hl, E.
  - eapply made_dirs_none; [done|done|apply snoc_not_prefix].
Qed.

(** A whole file. *)
Lemma receive_header_ok m d n h params chunks content rest o : confined m -> Forall valid_name (d ++ [n]) ->
  fh_path h = join "/" (d ++ [n]) -> can_mkdirs m (base ++ d) -> m !! (base ++ tmp_of d n) = None ->
  dir_at m (base ++ d ++ [n]) = false ->
  List.concat chunks = (if is_compressed params then zs_encode (zstd_level params) content else content) ->
  exists m1 t, made_dirs m (base ++ d) m1 /\ meta_set (fh_mode h) (fh_mtime h) t /\
    confined (<[base ++ d ++ [n] := File content (fh_mode h .& 511) t]> m1) /\
    receive_header (abs_names base) h params (Build_Sess m (map FileData chunks ++ FileEnd :: rest) o)
    = (Build_Sess (<[base ++ d ++ [n] := File content (fh_mode h .& 511) t]> m1) rest
         (o ++ [Plain (FileAck (fh_path h) true None)]), inr (fh_size h, 0)).
Proof.
  intros Hc Hv Hp Hcan Htmp Hn Hch. pose proof Hv as [Hvd _]%Forall_app.
  destruct (create_below_ok m d Hc Hvd Hcan) as (m1 & Emk & Hc1 & Hmd). pose proof Hmd as (Hwf1 & Hd1 & _).
  assert (m1 !! (base ++ tmp_of d n) = None) as Htmp1.
  { unfold tmp_of in *. rewrite app_assoc in *. by rewrite (made_dirs_slot _ _ _ _ Hmd). }
  assert (dir_at m1 (base ++ d ++ [n]) = false) as Hn1.
  { rewrite (dir_at_same m); [done|]. rewrite app_assoc. by apply made_dirs_slot. }
  unfold receive_header. rewrite Hp.
  erewrite bind_ok by (apply join_checked_ok; [done|by destruct d|done]). cbv beta.
  rewrite (app_assoc base d [n]), path_parent_abs, <-(app_assoc base d [n]).
  erewrite bind_ok by (apply io_ok; exact Emk). cbv beta zeta. rewrite tmp_name_below.
  destruct (receive_file_data_ok m1 (base ++ d) (".hop-tmp-" +:+ n) params chunks content rest o) as (w & t & Erd);
    [done|done|by unfold tmp_of in Htmp1; rewrite app_assoc in Htmp1|done|].
  rewrite <-app_assoc in Erd. fold (tmp_of d n) in Erd. erewrite bind_ok by (eapply attempt_ok; exact Erd). cbv beta.
  destruct (finish_file_ok m1 d n (fh_mode h) (fh_mtime h) (join "/" (d ++ [n])) w (fh_size h) 0 content t rest o)
    as (t' & Ht' & Hc' & ->); [done..|]. by exists m1, t'.
Qed.

(** A directory. *)
Lemma receive_directory_ok m ns d i o : confined m -> ns <> [] -> Forall valid_name ns -> de_path d = join "/" ns ->
  can_mkdirs m (base ++ ns) ->
  exists m1 t, made_dirs m (base ++ ns) m1 /\
    confined (<[base ++ ns := Dir (de_mode d .& 511) t]> m1) /\
    receive_directory (abs_names base) d (Build_Sess m i o)
    = (Build_Sess (<[base ++ ns := Dir (de_mode d .& 511) t]> m1) i (o ++ [Plain (FileAck (de_path d) true None)]), inr (0, 0)).
Proof.
  intros Hc Hne Hv Hp Hcan. destruct (create_below_ok m ns Hc Hv Hcan) as (m1 & Emk & Hc1 & Hmd).
  pose proof Hmd as (Hwf1 & Hd1 & _). assert (base ++ ns <> []) as Hbn by (by destruct base, ns).
  pose proof Hd1 as (md & t & E)%dir_at_lookup; [|done].
  exists m1, (if 0 <? de_mtime d then de_mtime d else t). split; [done|]. split.
  { by eapply confined_replace. }
  unfold receive_directory. rewrite Hp. erewrite bind_ok by (by apply join_checked_ok). cbv beta.
  erewrite bind_ok by (apply io_ok; exact Emk). cbv beta.
  unfold set_metadata, lift_io. erewrite bind_ok by (apply io_ok; reflexivity). cbv beta.
  by rewrite (set_meta_ok m1 (base ++ ns) (Dir md t)).
Qed.

(** A delta against the file that is there. *)
Lemma collect_ops_ok ops : forall fuel acc m rest o, (length ops < fuel)%nat ->
  collect_ops fuel acc (Build_Sess m (map DeltaOp ops ++ DeltaEnd :: rest) o) = (Build_Sess m rest o, inr (acc ++ ops)).
Proof.
  induction ops as [|op ops IH]; intros fuel acc m rest o Hf; (destruct fuel as [|f]; [cbn in Hf; lia|]);
    cbn [collect_ops map app]; rewrite (bind_ok _ _ _ _ _ (read_msg_cons _ _ _ _)); cbv beta iota.
  - by rewrite app_nil_r.
  - rewrite IH by (cbn in Hf; lia). by rewrite <-app_assoc.
Qed.
Lemma receive_delta_ok m d n new_size mode mtime ops old omode ot content w rest o : confined m -> Forall valid_name (d ++ [n]) ->
  m !! (base ++ d ++ [n]) = Some (File old omode ot) -> m !! (base ++ tmp_of d n) = None ->
  Delta.reconstruct_file old ops DELTA_BLOCK_SIZE = (content, w) ->
  exists t, meta_set mode mtime t /\ confined (<[base ++ d ++ [n] := File content (mode .& 511) t]> m) /\
    receive_delta (abs_names base) (join "/" (d ++ [n])) new_size mode mtime
      (Build_Sess m (map DeltaOp ops ++ DeltaEnd :: rest) o)
    = (Build_Sess (<[base ++ d ++ [n] := File content (mode .& 511) t]> m) rest
         (o ++ [Plain (FileAck (join "/" (d ++ [n])) true None)]), inr (new_size, new_size)).
Proof.
  intros Hc Hv Hold Htmp Hrec. assert (d ++ [n] <> []) as Hne by (by destruct d).
  destruct (parent_below base m0 m d n Hc) as [Hd _]; [by eexists|].
  assert (dir_at m (base ++ d ++ [n]) = false) as Hn.
  { unfold dir_at. rewrite node_below by done. by rewrite Hold. }
  unfold receive_delta. erewrite bind_ok by (by apply join_checked_ok). cbv beta zeta.
  erewrite bind_ok by reflexivity. cbv beta.
  erewrite bind_ok by (apply collect_ops_ok; cbn [s_in]; rewrite length_app, length_map; cbn; lia). cbv beta. rewrite tmp_name_below.
  cbn [app]. assert (reconstruct_in (abs_names (base ++ d ++ [n])) (abs_names (base ++ tmp_of d n)) ops (Build_Sess m rest o)
    = (Build_Sess (<[base ++ tmp_of d n := File content new_file_mode fs_now]> m) rest o, inr w)) as Er.
  { unfold reconstruct_in. erewrite bind_ok by reflexivity. cbn [s_fs].
    rewrite (read_file_ok m _ old omode ot) by (done || exact (cf_wf _ _ _ Hc) || by destruct base, d).
    unfold tmp_of in *. rewrite app_assoc in Htmp |- *. rewrite file_create_new by (done || exact (cf_wf _ _ _ Hc)).
    rewrite Hrec. cbv iota. rewrite (write_all_ok _ _ [] new_file_mode fs_now) by apply lookup_insert_eq. rewrite insert_insert_eq. done. }
  erewrite bind_ok by (eapply attempt_ok; exact Er). cbv beta.
  destruct (finish_file_ok m d n mode mtime (join "/" (d ++ [n])) w new_size new_size content fs_now rest o)
    as (t' & Ht' & Hc' & ->); [done..|]. by exists t'.
Qed.

(** A deletion removes the entry and all that is below it. *)
Definition prune (p : list string) (m : fs) : fs :=
  base.filter (fun kv : list string * node => ~ p `prefix_of` kv.1) m.
Lemma lookup_prune p m q : prune p m !! q = if bool_decide (p `prefix_of` q) then None else m !! q.
Proof.
  unfold prune. case_bool_decide as Hp.
  - apply map_lookup_filter_None. right. intros x _ Hx. by apply Hx.
  - destruct (m !! q) as [nd|] eqn:E; [by apply map_lookup_filter_Some|]. apply map_lookup_filter_None. by left.
Qed.
Lemma none_below m p r : wf_fs m -> p <> [] -> dir_at m p = false -> r <> [] -> m !! (p ++ r) = None.
Proof.
  intros Hwf Hp Hd Hr. destruct (m !! (p ++ r)) as [nd|] eqn:E; [|done].
  rewrite (dir_at_prefix m Hwf p r) in Hd; [done| |done]. rewrite node_at_cons by (by destruct p). by eexists.
Qed.
Lemma prune_leaf m p : wf_fs m -> p <> [] -> dir_at m p = false -> prune p m = delete p m.
Proof.
  intros Hwf Hp Hd. apply map_eq. intros q. rewrite lookup_prune. case_bool_decide as Hq.
  - destruct Hq as [r ->]. destruct r as [|x r]; [by rewrite app_nil_r, lookup_delete_eq|].
    rewrite lookup_delete_ne; [by rewrite none_below|]. intros E. apply (f_equal length) in E. rewrite length_app in E. cbn in E. lia.
  - rewrite lookup_delete_ne; [done|]. by intros ->.
Qed.
Lemma prune_missing m p : wf_fs m -> p <> [] -> m !! p = None -> prune p m = m.
Proof. intros Hwf Hp E. rewrite prune_leaf by (done || by apply dir_at_none). by apply delete_id. Qed.

Lemma receive_delete_ok m ns i o : confined m -> ns <> [] -> Forall valid_name ns ->
  confined (prune (base ++ ns) m) /\
  receive_delete (abs_names base) (join "/" ns) (Build_Sess m i o)
  = (Build_Sess (prune (base ++ ns) m) i (o ++ [Plain (FileAck (join "/" ns) true None)]), inr (0, 0)).
Proof.
  intros Hc Hne Hv. pose proof (cf_wf _ _ _ Hc) as Hwf. assert (base ++ ns <> []) as Hbn by (by destruct base, ns).
  split; [by apply confined_prune|]. unfold receive_delete.
  erewrite bind_ok by (by apply join_checked_ok). cbv beta. erewrite bind_ok by reflexivity. cbn [s_fs].
  enough ((if is_dir m (abs_names (base ++ ns)) then ignore_io (fun m => remove_dir_all m (abs_names (base ++ ns)))
     else ignore_io (fun m => remove_file m (abs_names (base ++ ns)))) (Build_Sess m i o)
     = (Build_Sess (prune (base ++ ns) m) i o, inr tt)) as E by (by erewrite bind_ok by exact E).
  destruct (resolve_below base m0 m MAXSYMLINKS false ns Hc) as [[El Hs]|Hno].
  - rewrite node_at_cons in Hs by done. destruct (dir_at m (base ++ ns)) eqn:Hd.
    + rewrite is_dir_dir by done. apply io_ok. unfold remove_dir_all, lstat. rewrite El. cbn. destruct (base ++ ns); done.
    + destruct Hs as [nd Hs]. assert (is_dir m (abs_names (base ++ ns)) = false) as ->.
      { unfold is_dir, metadata. rewrite (stat_at m Hwf _ nd); [exact Hd|by rewrite node_at_cons|by eapply (cf_links _ _ _ Hc)]. }
      apply io_ok. unfold remove_file, lstat. rewrite El, Hd. cbn. by rewrite prune_leaf.
  - assert (m !! (base ++ ns) = None) as E.
    { destruct (m !! (base ++ ns)) as [nd|] eqn:E; [|done]. pose proof (lstat_at m Hwf (base ++ ns)) as Hl.
      rewrite node_at_cons, E in Hl by done. specialize (Hl ltac:(by eexists)). unfold lstat in Hl. rewrite Hl in Hno.
      destruct Hno as [(? & ? & _ & _ & _ & ?)|[? ?]]; congruence. }
    rewrite prune_missing by done.
    assert (lstat m (abs_names (base ++ ns)) = Broken true \/ forall q, lstat m (abs_names (base ++ ns)) <> At q) as Hnl.
    { right. unfold lstat. by destruct Hno as [(? & ? & _ & _ & _ & ->)|[? ->]]. }
    destruct (is_dir m _); apply io_ok; unfold remove_dir_all, remove_file;
      (destruct (lstat m (abs_names (base ++ ns))) as [q| |] eqn:Elq; [|done..]); destruct Hnl as [?|Hnl]; try congruence; by destruct (Hnl q).
Qed.
End Steps.
