(* ===== verification/Converge.v ===== *)
(** * Converge: a push sync makes the destination a copy of the source
    (hop-core/src/transfer/mod.rs, sender.rs, receiver.rs)

    The client and the host of a sync session run against each other.  On trees
    without links, and as long as no cancelled read had begun a message, the session comes to an end without an error, and what lies
    below the destination then equals what lies below the source. *)
From S2P Require Import Prelude Float Text Policy Delta Fs Listing Negotiate Receiver Confine Sender Sync Steps.
Local Open Scope Z_scope.

(** ** The chunk sizer never reaches zero *)
Definition sizer_ok (s : ChunkSizer) : Prop :=
  min_size s = MIN_CHUNK_SIZE /\ MIN_CHUNK_SIZE <= max_size s /\ MIN_CHUNK_SIZE <= current_size s.
Lemma sizer_new_ok max : sizer_ok (sizer_new max).
Proof.
  split_and!; cbn; [done| |lia]. apply clamp_range. unfold MIN_CHUNK_SIZE, MAX_CHUNK_SIZE. lia.
Qed.
Lemma sizer_record_ok s n elapsed : sizer_ok s -> sizer_ok (sizer_record s n elapsed).
Proof.
  intros (H1 & H2 & H3). unfold sizer_record. destruct (_ <=? _); [|by split_and!]. split_and!; cbn; [done|done|].
  destruct (f64_gt _ _); [|done]. rewrite H1. by apply clamp_range.
Qed.

Section Converge.
Context `{!FsEnv, !ZstdStream, !ErrText, !FileHash, !SendEnv, !Timing}.
Context (src dst : list string) (mc mh : fs) (params : NegotiatedParams).

(** ** Sending *)
Lemma chunk_loop_ok path : forall fuel i sizer data sent, sizer_ok sizer -> (length data <= fuel)%nat ->
  exists chunks sent' sizer', chunk_loop fuel path i sizer data sent = (map (fun c => Plain (FileData c)) chunks, sent', sizer') /\
    List.concat chunks = data /\ sizer_ok sizer'.
Proof.
  induction fuel as [|f IH]; intros i sizer data sent Hs Hl; cbn [chunk_loop].
  { destruct data; [|cbn in Hl; lia]. by exists [], sent, sizer. }
  set (n := read_some _ _ _). destruct (Nat.eqb_spec n 0) as [E|E].
  { exists [], sent, sizer. split_and!; [done| |done]. destruct data as [|b data]; [done|]. exfalso.
    subst n. unfold read_some in E. destruct Hs as (_ & _ & Hs). unfold MIN_CHUNK_SIZE in Hs. cbn [length] in E. lia. }
  destruct (IH (S i) (sizer_record sizer (Z.of_nat n) (since_check path i)) (drop n data) (sent + Z.of_nat n)) as
    (chunks & sent' & sizer' & -> & Hc & Hs'); [by apply sizer_record_ok|rewrite length_drop; lia|].
  exists (take n data :: chunks), sent', sizer'. split_and!; [done| |done]. cbn. by rewrite Hc, take_drop.
Qed.

(** What carries one entry: its directory message, its chunks, or a delta
    against what the destination has. *)
Inductive encodes (with_delta : bool) (rel : list string) : node -> list framed -> Prop :=
  | enc_dir mode t :
      encodes with_delta rel (Dir mode t) [Plain (CreateDirectory (dir_of (walk_entry rel (Dir mode t))))]
  | enc_file c mode t chunks : List.concat chunks = wire_data params c ->
      encodes with_delta rel (File c mode t)
        (Plain (FileHeader_ (header_of (walk_entry rel (File c mode t)))) ::
         map (fun c => Plain (FileData c)) chunks ++ [Plain FileEnd])
  | enc_delta c mode t old omode ot ops w : with_delta = true -> mh !! (dst ++ rel) = Some (File old omode ot) ->
      reconstruct_file old ops DELTA_BLOCK_SIZE = (c, w) ->
      encodes with_delta rel (File c mode t)
        (Plain (DeltaHeader (join "/" rel) (Z.of_nat (length c)) (file_mode (File c mode t)) (Z.max 0 t)) ::
         map (fun op => Plain (DeltaOp op)) ops ++ [Plain DeltaEnd]).

Abbreviation item := (list string * node)%type.
Definition item_entry (it : item) : FileEntry := walk_entry it.1 it.2.
(** An entry of the source. *)
Definition source_item (it : item) : Prop :=
  it.1 <> [] /\ Forall valid_name it.1 /\ mc !! (src ++ it.1) = Some it.2 /\ is_link_node it.2 = false.

Context (Hwf_src : wf_fs mc).

Lemma read_source rel c mode t : rel <> [] -> Forall valid_name rel -> mc !! (src ++ rel) = Some (File c mode t) ->
  read_file mc (full_path (abs_names src) (walk_entry rel (File c mode t))) = Some c.
Proof.
  intros Hne Hv E. unfold full_path. cbn [fe_path walk_entry]. rewrite components_join, path_join_abs by done.
  apply (read_file_ok mc _ c mode t); [done|done|by destruct src, rel].
Qed.
Lemma send_file_data_ok wd rel c mode t sizer : source_item (rel, File c mode t) -> sizer_ok sizer ->
  exists out n sizer', sizer_ok sizer' /\ encodes wd rel (File c mode t) out /\
    forall i o, send_file_data (abs_names src) (walk_entry rel (File c mode t)) sizer params (Build_Sess mc i o)
      = (Build_Sess mc i (o ++ out), inr (n, sizer')).
Proof.
  intros (Hne & Hv & Hm & _) Hs. cbn [fst snd] in *.
  destruct (chunk_loop_ok (join "/" rel) (length (wire_data params c)) 0 sizer (wire_data params c) 0 Hs) as
    (chunks & n & sizer' & E & Hc & Hs'); [done|].
  eexists _, n, sizer'. split; [done|]. split; [by apply (enc_file wd rel c mode t chunks)|]. intros i o.
  unfold send_file_data. erewrite bind_ok by reflexivity. erewrite bind_ok by reflexivity. cbn [s_fs].
  rewrite (read_source rel c mode t) by done. unfold send_data. cbn [fe_path walk_entry]. rewrite E.
  do 2 (erewrite bind_ok by reflexivity). cbn. by rewrite <-!app_assoc.
Qed.

Lemma send_files_loop_ok wd items : Forall source_item items -> forall sizer total, sizer_ok sizer ->
  exists outs total', Forall2 (fun it out => encodes wd it.1 it.2 out) items outs /\
    forall i o, send_files_loop (abs_names src) (map item_entry items) sizer params total (Build_Sess mc i o)
      = (Build_Sess mc i (o ++ List.concat outs), inr total').
Proof.
  induction 1 as [|[rel nd] items Hit Hits IH]; intros sizer total Hs.
  { exists [], total. split; [constructor|]. intros i o. cbn. by rewrite app_nil_r. }
  pose proof Hit as (_ & _ & _ & Hl). cbn [fst snd] in Hl. destruct nd as [c mode t|mode t|tg t]; [| |done].
  - destruct (send_file_data_ok wd rel c mode t sizer Hit Hs) as (out & n & sizer' & Hs' & He & Hrun).
    destruct (IH sizer' (total + n) Hs') as (outs & total' & Hf & Hloop).
    exists (out :: outs), total'. split; [by constructor|]. intros i o.
    cbn [map send_files_loop item_entry fst snd walk_entry fe_is_symlink fe_is_dir is_link_node is_dir_node].
    erewrite bind_ok by apply Hrun. cbv beta iota. rewrite Hloop. cbn [List.concat]. by rewrite <-app_assoc.
  - destruct (IH sizer total Hs) as (outs & total' & Hf & Hloop).
    eexists (_ :: outs), total'. split; [constructor; [apply (enc_dir wd rel mode t)|done]|]. intros i o.
    cbn [map send_files_loop item_entry fst snd walk_entry fe_is_symlink fe_is_dir is_link_node is_dir_node].
    erewrite bind_ok by reflexivity. cbv beta. cbn [s_fs s_in s_out]. rewrite Hloop. cbn [List.concat]. by rewrite <-app_assoc.
Qed.
Lemma send_files_ok wd items : Forall source_item items ->
  exists outs total, Forall2 (fun it out => encodes wd it.1 it.2 out) items outs /\
    forall i o, send_files (abs_names src) (map item_entry items) params (Build_Sess mc i o)
      = (Build_Sess mc i (o ++ List.concat outs), inr total).
Proof. intros Hi. apply send_files_loop_ok; [done|apply sizer_new_ok]. Qed.

(** ** In batches, draining *)
(** No read of the client was dropped inside a message. *)
Context (Hdrain_cut : forall i, drain_cut i = None) (Hreader_cut : reader_cut = None).
Definition drain_rest (ks : list nat) (i : list TransferMsg) : list TransferMsg :=
  foldl (fun i k => (drain_loop k None [] i).2) i ks.
Lemma drain_loop_rest k : forall errs i, (drain_loop k None errs i).2 = (drain_loop k None [] i).2.
Proof.
  induction k as [|k IH]; intros errs i; [done|]. destruct i as [|x i]; [done|].
  destruct x; cbn [drain_loop]; try apply IH; [|done]. rewrite IH. symmetry. apply IH.
Qed.
Lemma send_batches_ok wd batches : Forall (Forall source_item) batches -> forall k total,
  exists outs total', Forall2 (fun it out => encodes wd it.1 it.2 out) (List.concat batches) outs /\
    forall i o errs, exists k' errs', send_batches (abs_names src) (map (map item_entry) batches) params k total errs (Build_Sess mc i o)
      = (Build_Sess mc (drain_rest (map drained (seq k (length batches))) i) (o ++ List.concat outs), inr (k', total', errs')).
Proof.
  induction 1 as [|b bs Hb Hbs IH]; intros k total.
  { exists [], total. split; [constructor|]. intros i o errs. exists k, errs. cbn. by rewrite app_nil_r. }
  destruct (send_files_ok wd b Hb) as (outs1 & n & Hf1 & Hrun1).
  destruct (IH (S k) (total + n)) as (outs2 & total' & Hf2 & Hrun2).
  exists (outs1 ++ outs2), total'. split; [cbn; by apply Forall2_app|]. intros i o errs.
  destruct (drain_loop (drained k) None errs i) as [errs1 i1] eqn:Ed.
  destruct (Hrun2 i1 (o ++ List.concat outs1) errs1) as (k' & errs' & E). exists k', errs'.
  cbn [map send_batches]. erewrite bind_ok by apply Hrun1. cbv beta.
  erewrite bind_ok; [|unfold drain_pending_acks, reading; cbn [s_in s_fs s_out]; rewrite Hdrain_cut, Ed; reflexivity].
  rewrite E. cbn [length seq map drain_rest foldl]. f_equal. f_equal; [|by rewrite concat_app, app_assoc].
  unfold drain_rest. f_equal. by rewrite <-(drain_loop_rest _ errs), Ed.
Qed.

(** ** Deltas *)
(** The signatures of the candidates among the entries, in order. *)
Definition sig_of (rel : list string) (old : bytes) : TransferMsg :=
  BlockSignatures (join "/" rel) (Z.of_nat DELTA_BLOCK_SIZE) (compute_block_signatures xxh3_64 old (sign_reads old)).
Definition item_sig (candidates : gset string) (it : item) : option TransferMsg :=
  match it.2, mh !! (dst ++ it.1) with
  | File _ _ _, Some (File old _ _) => if bool_decide (join "/" it.1 ∈ candidates) then Some (sig_of it.1 old) else None
  | _, _ => None
  end.
(** Candidates are files on both sides that a delta can be taken between. *)
Definition good_candidates (candidates : gset string) (items : list item) : Prop :=
  forall it, it ∈ items -> join "/" it.1 ∈ candidates -> is_dir_node it.2 = false ->
    exists c mode t old omode ot, it.2 = File c mode t /\ mh !! (dst ++ it.1) = Some (File old omode ot) /\
      no_collision xxh3_64 old c DELTA_BLOCK_SIZE /\ Forall (eq DELTA_BLOCK_SIZE) (sign_reads old) /\
      Z.of_nat (length old) <= 2 ^ 32 * Z.of_nat DELTA_BLOCK_SIZE.

Lemma send_delta_ok rel c mode t old omode ot : source_item (rel, File c mode t) -> mh !! (dst ++ rel) = Some (File old omode ot) ->
  no_collision xxh3_64 old c DELTA_BLOCK_SIZE -> Forall (eq DELTA_BLOCK_SIZE) (sign_reads old) ->
  Z.of_nat (length old) <= 2 ^ 32 * Z.of_nat DELTA_BLOCK_SIZE ->
  exists out n sv, encodes true rel (File c mode t) out /\
    forall i o, send_delta (abs_names src) (walk_entry rel (File c mode t))
        (compute_block_signatures xxh3_64 old (sign_reads old)) (Z.of_nat DELTA_BLOCK_SIZE) (Build_Sess mc i o)
      = (Build_Sess mc i (o ++ out), inr (n, sv)).
Proof.
  intros (Hne & Hv & Hm & _) Hold Hnc Hr Hlen. cbn [fst snd] in *.
  destruct (delta_applies xxh3_64 old c DELTA_BLOCK_SIZE (sign_reads old)) as (ops & Ed & Hrec);
    [unfold DELTA_BLOCK_SIZE; lia|done|done|done|].
  eexists _, _, _. split; [by eapply (enc_delta true rel c mode t)|]. intros i o. unfold send_delta.
  erewrite bind_ok by reflexivity. cbn [s_fs]. rewrite (read_source rel c mode t) by done. rewrite Nat2Z.id, Ed.
  do 3 (erewrite bind_ok by reflexivity). cbn [s_fs s_in s_out fe_path fe_size fe_mode fe_mtime walk_entry]. by rewrite <-!app_assoc.
Qed.

Lemma item_sig_cons candidates it items : omap (item_sig candidates) (it :: items) =
  match item_sig candidates it with Some y => y :: omap (item_sig candidates) items | None => omap (item_sig candidates) items end.
Proof. done. Qed.
Lemma item_sig_in candidates rel c mode t old omode ot items : mh !! (dst ++ rel) = Some (File old omode ot) ->
  join "/" rel ∈ candidates ->
  omap (item_sig candidates) ((rel, File c mode t) :: items) = sig_of rel old :: omap (item_sig candidates) items.
Proof. intros Hold Hin. rewrite item_sig_cons. unfold item_sig at 1. cbn [fst snd]. by rewrite Hold, bool_decide_eq_true_2. Qed.
Lemma item_sig_out candidates it items : join "/" it.1 ∉ candidates ->
  omap (item_sig candidates) (it :: items) = omap (item_sig candidates) items.
Proof.
  intros Hin. rewrite item_sig_cons. unfold item_sig at 1. destruct it.2, (mh !! (dst ++ it.1)) as [[]|]; try done.
  by rewrite bool_decide_eq_false_2.
Qed.

Lemma delta_files_loop_ok candidates items : Forall source_item items -> good_candidates candidates items ->
  forall sizer total saved, sizer_ok sizer ->
  exists outs total' saved', Forall2 (fun it out => encodes true it.1 it.2 out) items outs /\
    forall rest o, delta_files_loop (abs_names src) (map item_entry items) candidates sizer params total saved
        (Build_Sess mc (omap (item_sig candidates) items ++ rest) o)
      = (Build_Sess mc rest (o ++ List.concat outs), inr (total', saved')).
Proof.
  induction 1 as [|[rel nd] items Hit Hits IH]; intros Hg sizer total saved Hs.
  { exists [], total, saved. split; [constructor|]. intros i o. cbn. by rewrite app_nil_r. }
  assert (good_candidates candidates items) as Hg' by (intros it Hin; apply Hg; by right).
  pose proof Hit as (_ & _ & _ & Hl). cbn [fst snd] in Hl. destruct nd as [c mode t|mode t|tg t]; [| |done].
  - destruct (decide (join "/" rel ∈ candidates)) as [Hin|Hin].
    + destruct (Hg (rel, File c mode t)) as (c' & mode' & t' & old & omode & ot & [= <- <- <-] & Hold & Hnc & Hr & Hlen); [by left|done|done|].
      cbn [fst] in Hold. destruct (send_delta_ok rel c mode t old omode ot Hit Hold Hnc Hr Hlen) as (out & n & sv & He & Hrun).
      destruct (IH Hg' sizer (total + n) (saved + sv) Hs) as (outs & total' & saved' & Hf & Hloop).
      exists (out :: outs), total', saved'. split; [by constructor|]. intros rest o.
      rewrite (item_sig_in candidates rel c mode t old omode ot) by done.
      cbn [map delta_files_loop item_entry fst snd walk_entry fe_is_symlink fe_is_dir is_link_node is_dir_node fe_path].
      rewrite bool_decide_eq_true_2 by done. erewrite bind_ok; [|unfold next_sig, reading; cbn; reflexivity]. unfold sig_of at 1. cbv beta iota.
      erewrite bind_ok by apply Hrun. cbv beta iota. rewrite Hloop. cbn [List.concat]. by rewrite <-app_assoc.
    + destruct (send_file_data_ok true rel c mode t sizer Hit Hs) as (out & n & sizer' & Hs' & He & Hrun).
      destruct (IH Hg' sizer' (total + n) saved Hs') as (outs & total' & saved' & Hf & Hloop).
      exists (out :: outs), total', saved'. split; [by constructor|]. intros rest o.
      rewrite item_sig_out by done.
      cbn [map delta_files_loop item_entry fst snd walk_entry fe_is_symlink fe_is_dir is_link_node is_dir_node fe_path].
      rewrite bool_decide_eq_false_2 by done.
      erewrite bind_ok by apply Hrun. cbv beta iota. rewrite Hloop. cbn [List.concat]. by rewrite <-app_assoc.
  - destruct (IH Hg' sizer total saved Hs) as (outs & total' & saved' & Hf & Hloop).
    eexists (_ :: outs), total', saved'. split; [constructor; [apply (enc_dir true rel mode t)|done]|]. intros rest o.
    change (omap (item_sig candidates) ((rel, Dir mode t) :: items)) with (omap (item_sig candidates) items).
    cbn [map delta_files_loop item_entry fst snd walk_entry fe_is_symlink fe_is_dir is_link_node is_dir_node].
    erewrite bind_ok by reflexivity. cbv beta. cbn [s_fs s_in s_out]. rewrite Hloop. cbn [List.concat]. by rewrite <-app_assoc.
Qed.

(** ** Receiving *)
(** What the two trees must not have: links, temporary names, a file where the other has a directory. *)
Record compatible : Prop := {
  cp_dst : confined dst mh mh;
  cp_kinds : forall rel n n', rel <> [] -> mc !! (src ++ rel) = Some n -> mh !! (dst ++ rel) = Some n' ->
    is_dir_node n = is_dir_node n';
  cp_tmp : forall d n, mc !! (src ++ tmp_of d n) = None /\ mh !! (dst ++ tmp_of d n) = None;
}.
Context (Hcp : compatible).

(** The received form of an entry: its kind and content, its permission bits, and a file's own time. *)
Definition received (nd : node) (r : option node) : Prop :=
  match nd with
  | File c mode mtime => exists t, r = Some (File c (mode .& 511) t) /\ (0 < mtime -> t = mtime)
  | Dir mode _ => exists t, r = Some (Dir (mode .& 511) t)
  | Link _ _ => False
  end.
(** [done]: the entries received so far.  A directory may be there before its turn, for what is in it. *)
Record progress (done : list (list string)) (m : fs) : Prop := {
  pr_confined : confined dst mh m;
  pr_done : forall rel nd, rel ∈ done -> mc !! (src ++ rel) = Some nd -> received nd (m !! (dst ++ rel));
  pr_todo : forall rel, rel <> [] -> rel ∉ done -> m !! (dst ++ rel) = mh !! (dst ++ rel) \/
    mh !! (dst ++ rel) = None /\ dir_at mc (src ++ rel) = true /\ dir_at m (dst ++ rel) = true;
}.

Lemma land511 k mode : (512 * k + mode) .& 511 = mode .& 511.
Proof.
  change 511 with (Z.ones 9). rewrite !Z.land_ones by lia. rewrite Z.mul_comm, Z.add_comm.
  change (2 ^ 9) with 512. apply Z.mod_add. lia.
Qed.
Lemma src_dir_above rel d' : is_Some (mc !! (src ++ rel)) -> d' `prefix_of` rel -> d' <> rel -> dir_at mc (src ++ d') = true.
Proof.
  intros Hs [k ->] Hne. destruct k as [|x k]; [by rewrite app_nil_r in Hne|]. apply (dir_at_prefix mc Hwf_src _ (x :: k)); [|done].
  rewrite <-app_assoc. rewrite node_at_cons; [done|by destruct src, d'].
Qed.
(** A directory of the source is a directory or missing. *)
Lemma dst_dir_or_none done m rel : progress done m -> rel <> [] -> dir_at mc (src ++ rel) = true ->
  m !! (dst ++ rel) = None \/ dir_at m (dst ++ rel) = true.
Proof.
  intros Hp Hne Hd. assert (dst ++ rel <> []) as Hn by (by destruct dst, rel).
  pose proof Hd as (mode & t & E)%dir_at_lookup; [|by destruct src, rel].
  destruct (decide (rel ∈ done)) as [Hin|Hin].
  - destruct (pr_done _ _ Hp rel _ Hin E) as (t' & Er). right. apply dir_at_lookup; [done|]. by eexists _, _.
  - destruct (pr_todo _ _ Hp rel Hne Hin) as [Er|(_ & _ & ?)]; [|by right]. rewrite Er.
    destruct (mh !! (dst ++ rel)) as [n'|] eqn:E'; [|by left]. right.
    pose proof (cp_kinds Hcp rel _ _ Hne E E') as Hk. unfold dir_at. by rewrite node_at_cons, Er.
Qed.
Lemma dst_can_mkdirs done m rel : progress done m -> (forall d', d' `prefix_of` rel -> d' <> [] -> dir_at mc (src ++ d') = true) ->
  can_mkdirs m (dst ++ rel).
Proof.
  intros Hp Hs q Hq. pose proof (pr_confined _ _ Hp) as Hc.
  destruct (prefix_weak_total q dst (dst ++ rel)) as [[k E]|[k ->]]; [done|by exists rel|..].
  - right. apply (dir_at_app m (cf_wf _ _ _ Hc) q k). rewrite <-E. apply (cf_base _ _ _ Hc).
  - apply prefix_app_inv in Hq. destruct k as [|x k]; [right; rewrite app_nil_r; apply (cf_base _ _ _ Hc)|].
    rewrite node_at_cons by (by destruct dst). eapply dst_dir_or_none; [done|done|]. by apply Hs.
Qed.

(** The temporary name of a received entry is free. *)
Lemma dst_tmp_free done m d n : progress done m -> Forall (fun rel => is_Some (mc !! (src ++ rel))) done ->
  m !! (dst ++ tmp_of d n) = None.
Proof.
  intros Hp Hd. destruct (cp_tmp Hcp d n) as [Hs Ht].
  destruct (pr_todo _ _ Hp (tmp_of d n)) as [->|(_ & Hdir & _)]; [by destruct d| |done|].
  - intros Hin. rewrite Forall_forall in Hd. apply Hd in Hin as [? ?]. congruence.
  - rewrite dir_at_none in Hdir; [done|done|]. unfold tmp_of. by destruct src, d.
Qed.

(** After an entry is put in place, with its parents. *)
Lemma progress_put done m m1 d rel nd nd' : progress done m -> mc !! (src ++ rel) = Some nd -> rel <> [] -> d `prefix_of` rel ->
  made_dirs m (dst ++ d) m1 -> confined dst mh (<[dst ++ rel := nd']> m1) -> received nd (Some nd') ->
  progress (rel :: done) (<[dst ++ rel := nd']> m1).
Proof.
  intros Hp Hm Hne Hd (_ & _ & Hl) Hc Hr.
  assert (forall rel', rel' <> rel -> <[dst ++ rel := nd']> m1 !! (dst ++ rel') = m1 !! (dst ++ rel')) as Hother
    by (intros rel' Hn; rewrite lookup_insert_ne; [done|by intros ->%app_inv_head]).
  split; [done|..].
  - intros rel' nd0 Hin E. destruct (decide (rel' = rel)) as [->|Hn].
    + rewrite lookup_insert_eq. rewrite Hm in E. by injection E as <-.
    + apply elem_of_cons in Hin as [?|Hin]; [done|]. rewrite Hother by done. pose proof (pr_done _ _ Hp _ _ Hin E) as Hrec.
      destruct nd0 as [c md t|md t|tg t]; cbn in Hrec |- *; [| |done]; rewrite Hl.
      * by destruct Hrec as (t' & -> & ?); eexists.
      * by destruct Hrec as (t' & ->); eexists.
  - intros rel' Hne' [Hn Hin]%not_elem_of_cons. rewrite Hother by done. rewrite Hl.
    assert (dir_at (<[dst ++ rel := nd']> m1) (dst ++ rel') = dir_at m1 (dst ++ rel')) as Hdir
      by (apply dir_at_same; by apply Hother). rewrite Hdir.
    destruct (pr_todo _ _ Hp rel' Hne' Hin) as [E|(E & E1 & E2)].
    + destruct (m !! (dst ++ rel')) as [n'|] eqn:Em; [left; congruence|]. case_bool_decide as Hpre; [|left; congruence].
      right. split; [congruence|]. destruct Hpre as [Hpre _]. apply prefix_app_inv in Hpre.
      split; [apply (src_dir_above rel); [by eexists|by etrans|done]|].
      apply dir_at_lookup; [by destruct dst, rel'|]. rewrite Hl, Em, bool_decide_eq_true_2; [by eexists _, _|].
      split; [by apply prefix_app|by destruct dst, rel'].
    + right. split; [done|]. split; [done|]. apply dir_at_lookup in E2 as (md & t & E2); [|by destruct dst, rel'].
      apply dir_at_lookup; [by destruct dst, rel'|]. rewrite Hl, E2. by eexists _, _.
Qed.
(** One entry, received. *)
Definition ack_of (rel : list string) : framed := Plain (FileAck (join "/" rel) true None).
Lemma receive_loop_step wd f t sv m x i o m' i' o' b v :
  receive_msg wd (abs_names dst) params x (Build_Sess m i o) = (Build_Sess m' i' o', inr (Some (b, v))) ->
  receive_loop (S f) wd (abs_names dst) params t sv (Build_Sess m (x :: i) o)
    = receive_loop f wd (abs_names dst) params (t + b) (sv + v) (Build_Sess m' i' o').
Proof.
  intros E. cbn [receive_loop]. rewrite (bind_ok _ _ _ _ _ (read_msg_cons _ _ _ _)). cbv beta. erewrite bind_ok by exact E. done.
Qed.
Lemma file_not_dir done m rel c mode t : progress done m -> rel <> [] -> rel ∉ done ->
  mc !! (src ++ rel) = Some (File c mode t) -> dir_at m (dst ++ rel) = false.
Proof.
  intros Hp Hne Hin E. unfold dir_at. rewrite node_at_cons by (by destruct dst, rel).
  destruct (pr_todo _ _ Hp rel Hne Hin) as [->|(_ & Hd & _)].
  - destruct (mh !! (dst ++ rel)) as [n'|] eqn:E'; [|done]. by rewrite <-(cp_kinds Hcp rel _ _ Hne E E').
  - unfold dir_at in Hd. rewrite node_at_cons, E in Hd by (by destruct src, rel). done.
Qed.
Lemma frame_msgs {A} (f : A -> TransferMsg) l : map frame_msg (map (fun x => Plain (f x)) l) = map f l.
Proof. rewrite map_map. done. Qed.

(** The state after one received entry: what the loop goes on with. *)
Definition stepped (wd : bool) (done : list (list string)) (m : fs) (rel : list string) (msgs : list TransferMsg) : Prop :=
  forall f t sv rest o, (length (msgs ++ rest) <= f)%nat ->
  exists m' f' t' sv', (length rest <= f')%nat /\ progress (rel :: done) m' /\
    receive_loop f wd (abs_names dst) params t sv (Build_Sess m (msgs ++ rest) o)
    = receive_loop f' wd (abs_names dst) params t' sv' (Build_Sess m' rest (o ++ [ack_of rel])).
Lemma stepped_msg wd done m rel x msgs :
  (forall rest o, exists m' b v, progress (rel :: done) m' /\
     receive_msg wd (abs_names dst) params x (Build_Sess m (msgs ++ rest) o) = (Build_Sess m' rest (o ++ [ack_of rel]), inr (Some (b, v)))) ->
  stepped wd done m rel (x :: msgs).
Proof.
  intros Hx f t sv rest o Hf. destruct (Hx rest o) as (m' & b & v & Hp & E). destruct f as [|f]; [cbn in Hf; lia|].
  exists m', f, (t + b), (sv + v). split; [cbn in Hf; rewrite length_app in Hf; lia|]. split; [done|]. by apply receive_loop_step.
Qed.

Section Item.
Context (wd : bool) (done : list (list string)) (m : fs) (rel : list string).
Context (Hin : rel ∉ done) (Hp : progress done m) (Hdone : Forall (fun rel => is_Some (mc !! (src ++ rel))) done).

Lemma receive_item_dir mode t : source_item (rel, Dir mode t) ->
  stepped wd done m rel [CreateDirectory (dir_of (walk_entry rel (Dir mode t)))].
Proof.
  intros (Hne & Hv & Hm & _). cbn [fst snd] in *. apply stepped_msg. intros rest o.
  destruct (receive_directory_ok dst mh m rel (dir_of (walk_entry rel (Dir mode t))) rest o (pr_confined _ _ Hp) Hne Hv eq_refl) as
    (m1 & t' & Hmd & Hc' & Hrun).
  { eapply dst_can_mkdirs; [done|]. intros d' Hd' Hnd'. destruct (decide (d' = rel)) as [->|Hdr].
    - apply dir_at_lookup; [by destruct src, rel|]. by eexists _, _.
    - apply (src_dir_above rel); [by eexists|done|done]. }
  eexists _, _, _. split; [|cbn [receive_msg app]; erewrite bind_ok by exact Hrun; reflexivity].
  eapply (progress_put done m m1 rel rel); [done|exact Hm|done|done|done|done|]. exists t'. cbn [de_mode dir_of walk_entry fe_mode file_mode].
  exact (f_equal (fun x => Some (Dir x t')) (land511 32 mode)).
Qed.
Lemma receive_item_file c mode t chunks : source_item (rel, File c mode t) -> List.concat chunks = wire_data params c ->
  stepped wd done m rel (FileHeader_ (header_of (walk_entry rel (File c mode t))) :: map FileData chunks ++ [FileEnd]).
Proof.
  intros (Hne & Hv & Hm & _) Hch. cbn [fst snd] in *. apply stepped_msg. intros rest o.
  destruct (split_last rel Hne) as (d & n & Hrel).
  destruct (receive_header_ok dst mh m d n (header_of (walk_entry rel (File c mode t))) params chunks c rest o) as
    (m1 & t' & Hmd & Ht' & Hc' & Hrun); [apply (pr_confined _ _ Hp)|by rewrite <-Hrel|by cbn; rewrite <-Hrel| |by eapply dst_tmp_free|
    rewrite <-Hrel; by eapply file_not_dir|done|].
  { eapply dst_can_mkdirs; [done|]. intros d' Hd' Hnd'. apply (src_dir_above rel); [by eexists| |].
    - rewrite Hrel. by apply prefix_app_r.
    - intros ->. rewrite Hrel in Hd'. by apply snoc_not_prefix in Hd'. }
  rewrite <-Hrel in *. eexists _, _, _. split; [|rewrite <-app_assoc; cbn [receive_msg app]; erewrite bind_ok by exact Hrun; reflexivity].
  eapply (progress_put done m m1 d rel); [done|exact Hm|done|rewrite Hrel; by apply prefix_app_r|done|done|].
  exists t'. cbn [fh_mode fh_mtime header_of walk_entry fe_mode fe_mtime file_mode] in *.
  split; [exact (f_equal (fun x => Some (File c x t')) (land511 64 mode))|]. intros Hpos. rewrite (Z.max_r 0 t) in Ht' by (by apply Z.lt_le_incl). by apply Ht'.
Qed.
Lemma receive_item_delta c mode t old omode ot ops w : source_item (rel, File c mode t) -> wd = true ->
  mh !! (dst ++ rel) = Some (File old omode ot) -> reconstruct_file old ops DELTA_BLOCK_SIZE = (c, w) ->
  stepped wd done m rel
    (DeltaHeader (join "/" rel) (Z.of_nat (length c)) (file_mode (File c mode t)) (Z.max 0 t) :: map DeltaOp ops ++ [DeltaEnd]).
Proof.
  intros (Hne & Hv & Hm & _) -> Hold Hrec. cbn [fst snd] in *. apply stepped_msg. intros rest o. pose proof (pr_confined _ _ Hp) as Hc.
  assert (m !! (dst ++ rel) = Some (File old omode ot)) as Hold'.
  { destruct (pr_todo _ _ Hp rel Hne Hin) as [->|(? & _)]; congruence. }
  destruct (split_last rel Hne) as (d & n & Hrel). rewrite Hrel in Hold'.
  destruct (receive_delta_ok dst mh m d n (Z.of_nat (length c)) (file_mode (File c mode t)) (Z.max 0 t) ops old omode ot c w rest o) as
    (t' & Ht' & Hc' & Hrun); [done|by rewrite <-Hrel|done|by eapply dst_tmp_free|done|].
  rewrite <-Hrel in *. eexists _, _, _. split; [|rewrite <-app_assoc; cbn [receive_msg app]; erewrite bind_ok by exact Hrun; reflexivity].
  eapply (progress_put done m m [] rel); [done|exact Hm|done|apply prefix_nil| |done|].
  - rewrite app_nil_r. apply made_dirs_refl; [apply (cf_wf _ _ _ Hc)|apply (cf_base _ _ _ Hc)].
  - exists t'. cbn [file_mode] in *. split; [exact (f_equal (fun x => Some (File c x t')) (land511 64 mode))|]. intros Hpos. rewrite (Z.max_r 0 t) in Ht' by (by apply Z.lt_le_incl). by apply Ht'.
Qed.
Lemma receive_item nd out : source_item (rel, nd) -> encodes wd rel nd out -> stepped wd done m rel (map frame_msg out).
Proof.
  intros Hit He. destruct He as [mode mt|c mode mt chunks Hch|c mode mt old omode ot ops w Hwd Hold Hrec].
  - by apply receive_item_dir.
  - cbn [map frame_msg]. rewrite map_app, frame_msgs. by apply receive_item_file.
  - cbn [map frame_msg]. rewrite map_app, frame_msgs. by eapply receive_item_delta.
Qed.
End Item.

(** All of them. *)
Lemma receive_items wd items outs : Forall2 (fun it out => encodes wd it.1 it.2 out) items outs -> Forall source_item items ->
  forall done m f t sv rest o, progress done m -> NoDup (map fst items) -> (forall it, it ∈ items -> it.1 ∉ done) ->
  Forall (fun rel => is_Some (mc !! (src ++ rel))) done ->
  (length (map frame_msg (List.concat outs) ++ rest) <= f)%nat ->
  exists m' f' t' sv', (length rest <= f')%nat /\ progress (rev (map fst items) ++ done) m' /\
    receive_loop f wd (abs_names dst) params t sv (Build_Sess m (map frame_msg (List.concat outs) ++ rest) o)
    = receive_loop f' wd (abs_names dst) params t' sv' (Build_Sess m' rest (o ++ map (fun it => ack_of it.1) items)).
Proof.
  induction 1 as [|[rel nd] out items outs He Hes IH]; intros Hits done m f t sv rest o Hp Hnd Hfresh Hdone Hf.
  { exists m, f, t, sv. cbn in *. by rewrite app_nil_r. }
  apply Forall_cons in Hits as [Hit Hits]. cbn [map] in Hnd. apply NoDup_cons in Hnd as [Hn Hnd].
  cbn [List.concat fst snd] in *. rewrite map_app, <-app_assoc in *.
  destruct (receive_item wd done m rel (Hfresh (rel, nd) ltac:(by left)) Hp Hdone nd out Hit He f t sv (map frame_msg (List.concat outs) ++ rest) o) as
    (m1 & f1 & t1 & sv1 & Hf1 & Hp1 & ->); [done|].
  destruct (IH Hits (rel :: done) m1 f1 t1 sv1 rest (o ++ [ack_of rel])) as (m' & f' & t' & sv' & Hf' & Hp' & ->); [done|done| | |done|].
  - intros it Hin. apply not_elem_of_cons. split; [|apply Hfresh; by right]. intros E. apply Hn. rewrite <-E. by apply list_elem_of_fmap_2.
  - constructor; [|done]. destruct Hit as (_ & _ & E & _). cbn in E. by eexists.
  - exists m', f', t', sv'. split; [done|]. split; [|by rewrite <-app_assoc]. cbn [map fst rev]. by rewrite <-app_assoc.
Qed.

(** The deletions, and the end. *)
Definition prune_all (rels : list (list string)) (m : fs) : fs := foldl (fun m rel => prune (dst ++ rel) m) m rels.
Lemma lookup_prune_all rels m q : prune_all rels m !! q =
  if decide (Exists (fun rel => (dst ++ rel) `prefix_of` q) rels) then None else m !! q.
Proof.
  revert m. induction rels as [|rel rels IH]; intros m; cbn [prune_all foldl].
  { rewrite decide_False; [done|]. by intros ?%Exists_nil. }
  fold (prune_all rels (prune (dst ++ rel) m)). rewrite IH, lookup_prune.
  destruct (decide (Exists _ rels)) as [Hx|Hx]; [rewrite decide_True; [done|by apply Exists_cons_tl]|].
  case_bool_decide as Hp; [rewrite decide_True; [done|by apply Exists_cons_hd]|].
  rewrite decide_False; [done|]. by intros [?|?]%Exists_cons.
Qed.
Lemma receive_deletes wd rels : Forall (fun rel => rel <> [] /\ Forall valid_name rel) rels ->
  forall m f t sv o rest, confined dst mh m -> (length (map (fun rel => DeletePath (join "/" rel)) rels ++ Done :: rest) <= f)%nat ->
  confined dst mh (prune_all rels m) /\ exists t' sv',
  receive_loop f wd (abs_names dst) params t sv (Build_Sess m (map (fun rel => DeletePath (join "/" rel)) rels ++ Done :: rest) o)
    = (Build_Sess (prune_all rels m) rest (o ++ map ack_of rels), inr (t', sv')).
Proof.
  induction 1 as [|rel rels [Hne Hv] Hrels IH]; intros m f t sv o rest Hc Hf; (destruct f as [|f]; [cbn in Hf; lia|]).
  { split; [done|]. exists t, sv. cbn. by rewrite app_nil_r. }
  destruct (receive_delete_ok dst mh m rel (map (fun rel => DeletePath (join "/" rel)) rels ++ Done :: rest) o) as [Hc1 E]; [done..|].
  destruct (IH (prune (dst ++ rel) m) f (t + 0) (sv + 0) (o ++ [ack_of rel]) rest Hc1) as [Hc' (t' & sv' & Erun)]; [cbn in Hf |- *; lia|].
  split; [done|]. exists t', sv'. cbn [map app]. erewrite receive_loop_step by (cbn [receive_msg]; erewrite bind_ok by exact E; reflexivity).
  refine (eq_trans Erun _). cbn [map prune_all foldl]. by rewrite <-app_assoc.
Qed.
(** ** Acknowledgements at the client *)
Definition ack_msg (rel : list string) : TransferMsg := FileAck (join "/" rel) true None.
Lemma drain_acks rels tail : forall k, (k <= length rels)%nat ->
  (drain_loop k None [] (map ack_msg rels ++ tail)).2 = map ack_msg (drop k rels) ++ tail.
Proof.
  induction rels as [|r rels IH]; intros k Hk; [by replace k with 0%nat by (cbn in Hk; lia)|].
  destruct k as [|k]; [done|]. cbn [map app drain_loop ack_msg drop]. apply IH. cbn in Hk. lia.
Qed.
Lemma drain_rest_acks ks : forall rels tail, (sum_list ks <= length rels)%nat ->
  drain_rest ks (map ack_msg rels ++ tail) = map ack_msg (drop (sum_list ks) rels) ++ tail.
Proof.
  induction ks as [|k ks IH]; intros rels tail Hk; [done|]. change (sum_list (k :: ks)) with (k + sum_list ks)%nat in *. cbn [drain_rest foldl].
  rewrite drain_acks by lia. fold (drain_rest ks (map ack_msg (drop k rels) ++ tail)).
  rewrite IH by (rewrite length_drop; lia). by rewrite drop_drop.
Qed.
Lemma drain_rest_nil ks : drain_rest ks [] = [].
Proof. induction ks as [|k ks IH]; [done|]. cbn. by destruct k. Qed.
Lemma read_acks_positive rels m o : read_acks_until_done (Build_Sess m (map ack_msg rels ++ [Done]) o) = (Build_Sess m [] o, inr []).
Proof.
  unfold read_acks_until_done, reading. cbn [s_in s_fs s_out].
  assert (read_acks_until_done_loop [] (map ack_msg rels ++ [Done]) = (inr [], [])) as -> by (by induction rels). done.
Qed.

(** ** The plan *)
Context (del : bool) (ls lr : list FileEntry).
Context (Hls : walk_directory mc (abs_names src) = Some ls) (Hlr : walk_directory mh (abs_names dst) = Some lr).
Context (Hsrc : dir_at mc src = true) (Hlg_src : legible mc src) (Hlg_dst : legible mh dst).
Context (Hnolinks : forall rel nd, rel <> [] -> mc !! (src ++ rel) = Some nd -> is_link_node nd = false).
Let plan := compute_sync_plan ls lr del.

Lemma Forall_choose {A B} (f : B -> A) (P : B -> Prop) l : Forall (fun a => exists b, a = f b /\ P b) l ->
  exists bs, l = map f bs /\ Forall P bs.
Proof.
  induction 1 as [|a l (b & -> & Hb) _ (bs & -> & Hbs)]; [by exists []|]. exists (b :: bs). split; [done|by constructor].
Qed.
Lemma walk_spec m base l : wf_fs m -> dir_at m base = true -> legible m base -> walk_directory m (abs_names base) = Some l ->
  NoDup (map fe_path l) /\
  forall e, e ∈ l <-> exists rel nd, rel <> [] /\ m !! (base ++ rel) = Some nd /\ e = walk_entry rel nd.
Proof.
  intros Hwf Hd Hlg E. destruct (walk_directory_ok m base Hwf Hd Hlg) as (l' & E' & _ & Hnd & Hl). rewrite E in E'.
  injection E' as <-. by split.
Qed.
Lemma rel_valid m base rel nd : wf_fs m -> m !! (base ++ rel) = Some nd -> Forall valid_name rel.
Proof. intros Hwf E. destruct (wf_names m Hwf (base ++ rel)) as [_ Hv]; [by eexists|]. by apply Forall_app in Hv as [_ ?]. Qed.
Lemma source_items : exists items, files_to_send plan = map item_entry items /\ Forall source_item items /\ NoDup (map fst items).
Proof.
  destruct (walk_spec mc src ls Hwf_src Hsrc Hlg_src Hls) as [Hnd Hl].
  destruct (Forall_choose item_entry source_item (files_to_send plan)) as (items & E & Hi).
  { apply Forall_forall. intros e [_ He]%list_elem_of_filter. apply Hl in He as (rel & nd & Hne & Hm & ->).
    exists (rel, nd). split; [done|]. split_and!; [done|by eapply rel_valid|done|by eapply Hnolinks]. }
  exists items. split; [done|]. split; [done|].
  assert (NoDup (map fe_path (files_to_send plan))) as Hn.
  { unfold plan, compute_sync_plan. cbn [files_to_send]. eapply sublist_NoDup; [exact Hnd|]. apply (fmap_sublist fe_path), sublist_filter. }
  rewrite E, map_map in Hn. apply (NoDup_fmap_1 (join "/")).
  match type of Hn with NoDup ?l => match goal with |- NoDup ?l' => replace l' with l; [done|] end end.
  change (list_fmap _ _ (join "/")) with (map (join "/")). by rewrite map_map.
Qed.
Lemma dest_lookup rel d : rel <> [] -> Forall valid_name rel -> entry_map lr !! join "/" rel = Some d <->
  exists nd, mh !! (dst ++ rel) = Some nd /\ d = walk_entry rel nd.
Proof.
  intros Hne Hv. pose proof (cf_wf _ _ _ (cp_dst Hcp)) as Hwf.
  destruct (walk_spec mh dst lr Hwf (cf_base _ _ _ (cp_dst Hcp)) Hlg_dst Hlr) as [Hnd Hl].
  rewrite entry_map_lookup, Hl by done. split.
  - intros ((rel' & nd & Hne' & Hm & ->) & E). cbn in E. apply join_inj in E as ->; [|done|done|by eapply rel_valid|done]. by exists nd.
  - intros (nd & Hm & ->). split; [by exists rel, nd|done].
Qed.
Lemma deleted_rels : exists rels, files_to_delete plan = map (join "/") rels /\
  Forall (fun rel => rel <> [] /\ Forall valid_name rel) rels /\
  forall rel, rel <> [] -> Forall valid_name rel ->
    rel ∈ rels <-> del = true /\ is_Some (mh !! (dst ++ rel)) /\ mc !! (src ++ rel) = None.
Proof.
  pose proof (cf_wf _ _ _ (cp_dst Hcp)) as Hwf.
  destruct (walk_spec mh dst lr Hwf (cf_base _ _ _ (cp_dst Hcp)) Hlg_dst Hlr) as [_ Hl].
  destruct (walk_spec mc src ls Hwf_src Hsrc Hlg_src Hls) as [_ Hls'].
  assert (forall p, p ∈ files_to_delete plan <-> del = true /\ (exists rel, p = join "/" rel /\ rel <> [] /\ Forall valid_name rel /\
    is_Some (mh !! (dst ++ rel)) /\ mc !! (src ++ rel) = None)) as Hdel.
  { intros p. unfold plan, compute_sync_plan. cbn [files_to_delete]. destruct del; [|split; [by intros ?%elem_of_nil|by intros [? _]]].
    rewrite merge_sort_Permutation, list_elem_of_fmap. split.
    - intros (e & -> & [Hn%entry_map_None (rel & nd & Hne & Hm & ->)%Hl]%list_elem_of_filter). split; [done|].
      exists rel. split_and!; [done|done|by eapply rel_valid|by eexists|]. destruct (mc !! (src ++ rel)) as [nd'|] eqn:E; [|done].
      destruct Hn. apply list_elem_of_fmap. exists (walk_entry rel nd'). split; [done|]. apply Hls'. by exists rel, nd'.
    - intros (_ & rel & -> & Hne & Hv & [nd Hm] & Hn). exists (walk_entry rel nd). split; [done|]. apply list_elem_of_filter.
      split; [|apply Hl; by exists rel, nd]. apply entry_map_None. intros (e & E & He)%list_elem_of_fmap.
      apply Hls' in He as (rel' & nd' & Hne' & Hm' & ->). cbn in E. apply join_inj in E as <-; [congruence|done|done|done|].
      exact (rel_valid mc src _ _ Hwf_src Hm'). }
  destruct (Forall_choose (join "/") (fun rel => rel <> [] /\ Forall valid_name rel /\ is_Some (mh !! (dst ++ rel)) /\
    mc !! (src ++ rel) = None) (files_to_delete plan)) as (rels & E & Hr).
  { apply Forall_forall. intros p (_ & rel & -> & ?)%Hdel. by exists rel. }
  exists rels. split; [done|]. split; [eapply Forall_impl; [exact Hr|]; by intros rel (? & ? & _)|].
  intros rel Hne Hv. split.
  - intros Hin. rewrite Forall_forall in Hr. pose proof (Hr _ Hin) as (_ & _ & Hsome & Hnone). split_and!; [|done|done].
    assert (join "/" rel ∈ files_to_delete plan) as [? _]%Hdel; [|done]. rewrite E. by apply list_elem_of_fmap_2.
  - intros (Hd & Hs & Hn). assert (join "/" rel ∈ files_to_delete plan) as Hin by (apply Hdel; split; [done|by exists rel]).
    rewrite E in Hin. apply list_elem_of_fmap in Hin as (rel' & Ej & Hin'). rewrite Forall_forall in Hr.
    pose proof (Hr _ Hin') as (? & ? & _). by apply join_inj in Ej as ->.
Qed.
(** ** Delta candidates *)
Lemma dst_path rel : rel <> [] -> Forall valid_name rel ->
  path_join (abs_names dst) (components (join "/" rel)) = abs_names (dst ++ rel).
Proof. intros Hne Hv. by rewrite components_join, path_join_abs. Qed.
Lemma dst_metadata rel : rel <> [] ->
  metadata mh (abs_names (dst ++ rel)) = mh !! (dst ++ rel) /\
  exists_ mh (abs_names (dst ++ rel)) = bool_decide (is_Some (mh !! (dst ++ rel))).
Proof.
  intros Hne. pose proof (cp_dst Hcp) as Hc. pose proof (cf_wf _ _ _ Hc) as Hwf.
  assert (dst ++ rel <> []) as Hn by (by destruct dst, rel). unfold metadata, exists_.
  destruct (mh !! (dst ++ rel)) as [nd|] eqn:E.
  - rewrite (stat_at mh Hwf _ nd); [|by rewrite node_at_cons|by eapply (cf_links _ _ _ Hc)].
    rewrite node_at_cons, E by done. split; [done|]. by rewrite bool_decide_eq_true_2 by (by eexists).
  - unfold stat. destruct (resolve_below dst mh mh MAXSYMLINKS true rel Hc) as [[_ Hs]|[(? & ? & _ & _ & _ & ->)|[? ->]]].
    + rewrite node_at_cons, E in Hs by done. by destruct Hs.
    + split; [done|]. by rewrite bool_decide_eq_false_2 by (by intros [? ?]).
    + split; [done|]. by rewrite bool_decide_eq_false_2 by (by intros [? ?]).
Qed.
Lemma walk_entry_large rel nd : DELTA_MIN_FILE_SIZE <= fe_size (walk_entry rel nd) -> exists c mode t, nd = File c mode t.
Proof. destruct nd; cbn; unfold DELTA_MIN_FILE_SIZE; [by eexists _, _, _|lia|lia]. Qed.

(** Both sides choose the same candidates: the files sent that are large on both sides. *)
Definition candidate (p : string) : Prop :=
  exists e rel nd', e ∈ files_to_send plan /\ fe_is_dir e = false /\ fe_path e = p /\ p = join "/" rel /\ rel <> [] /\
    Forall valid_name rel /\ mh !! (dst ++ rel) = Some nd' /\
    DELTA_MIN_FILE_SIZE <= fe_size e /\ DELTA_MIN_FILE_SIZE <= fe_size (walk_entry rel nd').
Lemma plan_candidates p : p ∈ (list_to_set (delta_candidates plan) : gset string) <-> candidate p.
Proof.
  destruct (walk_spec mc src ls Hwf_src Hsrc Hlg_src Hls) as [_ Hl].
  rewrite elem_of_list_to_set. unfold plan, compute_sync_plan. cbn [delta_candidates]. rewrite list_elem_of_fmap. split.
  - intros (e & -> & [(Hx1 & Hx2 & d & Hd & Hx3 & Hx4)%plan_entry_delta He]%list_elem_of_filter).
    pose proof He as (rel & nd & Hne & Hm & ->)%Hl. pose proof (rel_valid mc src rel nd Hwf_src Hm) as Hv.
    apply dest_lookup in Hd as (nd' & Hd & ->); [|done|done]. exists (walk_entry rel nd), rel, nd'.
    unfold plan. cbn [files_to_send compute_sync_plan]. rewrite list_elem_of_filter. by split_and!.
  - intros (e & rel & nd' & He & Hx1 & <- & Hp & Hne & Hv & Hm & Hx3 & Hx4). exists e. split; [done|].
    unfold plan in He. cbn [files_to_send compute_sync_plan] in He. apply list_elem_of_filter in He as [Hs He].
    apply list_elem_of_filter. split; [|done]. apply plan_entry_delta. split; [done|]. split; [done|]. exists (walk_entry rel nd').
    rewrite Hp, dest_lookup by done. split; [by exists nd'|done].
Qed.
Lemma host_candidates p : p ∈ local_delta_candidates mh (abs_names dst) (files_to_send plan) <-> candidate p.
Proof.
  destruct source_items as (items & Ei & Hi & _). unfold local_delta_candidates.
  rewrite elem_of_list_to_set, list_elem_of_fmap. split.
  - intros (e & -> & [Hb He]%list_elem_of_filter). pose proof He as Hin. rewrite Ei in Hin.
    apply list_elem_of_fmap in Hin as ([rel nd] & -> & Hin). rewrite Forall_forall in Hi. pose proof (Hi _ Hin) as (Hne & Hv & Hm & Hl).
    cbn [fst snd] in *. cbn [item_entry fe_path walk_entry fst snd] in Hb |- *. rewrite dst_path in Hb by done.
    destruct (dst_metadata rel Hne) as [Hmd Hex]. rewrite Hmd in Hb. rewrite !andb_true_iff, !negb_true_iff, Z.leb_le in Hb.
    destruct Hb as ((((H1' & H2') & H3') & H4') & H5'). destruct (mh !! (dst ++ rel)) as [nd'|] eqn:E; [|done].
    exists (walk_entry rel nd), rel, nd'. split_and!; [done|done|done|done|done|done|done|done|]. by apply Z.leb_le.
  - intros (e & rel & nd' & He & H1' & <- & Hp & Hne & Hv & Hm & H3' & H4'). exists e. split; [done|]. apply list_elem_of_filter.
    split; [|done]. rewrite Hp, dst_path by done. destruct (dst_metadata rel Hne) as [-> ->]. rewrite Hm.
    rewrite bool_decide_eq_true_2 by (by eexists). apply Z.leb_le in H3'. rewrite H1', H3'. cbn [negb andb].
    rewrite Ei in He. apply list_elem_of_fmap in He as ([rel0 nd] & -> & Hin). rewrite Forall_forall in Hi.
    pose proof (Hi _ Hin) as (_ & _ & _ & Hl). cbn [snd] in Hl. cbn [item_entry walk_entry fe_is_symlink snd fst]. rewrite Hl.
    by apply Z.leb_le.
Qed.
Lemma candidates_agree : local_delta_candidates mh (abs_names dst) (files_to_send plan) = list_to_set (delta_candidates plan).
Proof. apply set_eq. intros p. by rewrite plan_candidates, host_candidates. Qed.
Let cands : gset string := list_to_set (delta_candidates plan).

(** Where both have a file, its delta is sound: the signing reads are full and no hash collides. *)
Context (Hdelta : forall rel c mode t old omode ot, rel <> [] -> mc !! (src ++ rel) = Some (File c mode t) ->
  mh !! (dst ++ rel) = Some (File old omode ot) ->
  no_collision xxh3_64 old c DELTA_BLOCK_SIZE /\ Forall (eq DELTA_BLOCK_SIZE) (sign_reads old) /\
  Z.of_nat (length old) <= 2 ^ 32 * Z.of_nat DELTA_BLOCK_SIZE).

Lemma cands_good items : files_to_send plan = map item_entry items -> Forall source_item items -> good_candidates cands items.
Proof.
  intros Ei Hi [rel nd] Hin Hc Hd. cbn [fst snd] in *. apply plan_candidates in Hc as
    (e & rel' & nd' & He & H1' & Hp1 & Hp & Hne' & Hv' & Hm' & H3' & H4').
  rewrite Forall_forall in Hi. pose proof (Hi _ Hin) as (Hne & Hv & Hm & Hl). cbn [fst snd] in *.
  apply join_inj in Hp as <-; [|done..]. apply walk_entry_large in H4' as (old & om & ot & ->).
  destruct nd as [c mode t|mode t|tg t]; [|done..]. destruct (Hdelta rel c mode t old om ot Hne Hm Hm') as (Hx5 & Hx6 & Hx7).
  by eexists _, _, _, _, _, _.
Qed.

(** The host's signatures. *)
Lemma signatures_ok items : Forall source_item items -> good_candidates cands items ->
  forall i o, send_signatures sign_reads (abs_names dst) cands (map item_entry items) (Build_Sess mh i o)
    = (Build_Sess mh i (o ++ map Plain (omap (item_sig cands) items)), inr tt).
Proof.
  induction 1 as [|[rel nd] items Hit Hits IH]; intros Hg i o; [cbn; by rewrite app_nil_r|].
  assert (good_candidates cands items) as Hg' by (intros it Hin; apply Hg; by right).
  pose proof Hit as (Hne & Hv & Hm & Hl). cbn [fst snd] in *.
  cbn [map send_signatures item_entry fst snd walk_entry fe_is_symlink fe_is_dir fe_path]. rewrite Hl. cbn [orb].
  destruct (decide (join "/" rel ∈ cands)) as [Hin|Hin].
  - rewrite bool_decide_eq_true_2 by done. destruct nd as [c mode t|mode t|tg t]; [|exfalso|done].
    + destruct (Hg (rel, File c mode t)) as (c' & mode' & t' & old & om & ot & [= <- <- <-] & Hold & _); [by left|done|done|].
      cbn [fst] in Hold. cbn [is_dir_node]. erewrite bind_ok.
      2:{ erewrite bind_ok by (apply (join_checked_ok dst mh); [apply (cp_dst Hcp)|done|done]). cbv beta.
          erewrite bind_ok by reflexivity. cbn [s_fs]. destruct (dst_metadata rel Hne) as [_ ->].
          rewrite bool_decide_eq_true_2 by (by eexists).
          rewrite (read_file_ok mh _ old om ot); [reflexivity|apply (cf_wf _ _ _ (cp_dst Hcp))|done|by destruct dst, rel]. }
      cbn [s_fs s_in s_out]. rewrite IH by done. rewrite (item_sig_in cands rel c mode t old om ot) by done.
      cbn [map]. by rewrite <-app_assoc.
    + apply plan_candidates in Hin as (e & rel' & nd' & He & Hed & Hp1 & Hp & Hne' & Hv' & Hm' & H3' & H4').
      apply join_inj in Hp as <-; [|done..]. apply walk_entry_large in H4' as (old & om & ot & ->).
      by pose proof (cp_kinds Hcp rel _ _ Hne Hm Hm').
  - rewrite bool_decide_eq_false_2 by done. rewrite item_sig_out by done. destruct (is_dir_node nd); erewrite bind_ok by reflexivity; by apply IH.
Qed.
(** ** The two sides *)
Context (request : TransferRequest).
Context (Hdry : tr_dry_run request = false) (Hreq : tr_delete_extraneous request = del).
Let listing := write_file_list lr (chunked_listing params).
Let plan_frames := write_transfer_plan (files_to_send plan) (files_to_delete plan) false (chunked_listing params).
Let wd : bool := negb (bool_decide (cands = ∅)).
Let host := host_sync_receive (abs_names dst) params.
Let client := client_push_sync (abs_names src) request params.

Lemma host_lists i o : list_dest (abs_names dst) (Build_Sess mh i o) = (Build_Sess mh i o, inr lr).
Proof.
  unfold list_dest, walk_io. erewrite bind_ok by reflexivity. cbn [s_fs].
  rewrite is_dir_dir by (apply (cf_wf _ _ _ (cp_dst Hcp)) || apply (cf_base _ _ _ (cp_dst Hcp))).
  erewrite bind_ok by reflexivity. cbn [s_fs]. by rewrite Hlr.
Qed.
Lemma host_start X : host (Build_Sess mh (map frame_msg plan_frames ++ X) []) =
  (receive_planned (abs_names dst) (files_to_send plan) params ≫= (fun _ => write_msg Done))
    (Build_Sess mh X (listing ++ [Plain (PlanAck true)])).
Proof.
  unfold host, host_sync_receive, plan_frames. erewrite bind_ok by apply host_lists. cbv beta. erewrite bind_ok by reflexivity.
  erewrite bind_ok; [|unfold reading; cbn [s_fs s_in s_out]; rewrite transfer_plan_back; reflexivity]. cbv beta iota.
  erewrite bind_ok by reflexivity. done.
Qed.
Lemma host_starved : host (Build_Sess mh [] []) = (Build_Sess mh [] listing, inl StreamBroken).
Proof.
  unfold host, host_sync_receive. erewrite bind_ok by apply host_lists. cbv beta. erewrite bind_ok by reflexivity.
  by erewrite bind_err by reflexivity.
Qed.
Lemma open_dest_ok i o : open_dest (abs_names dst) (Build_Sess mh i o) = (Build_Sess mh i o, inr (abs_names dst)).
Proof.
  pose proof (cp_dst Hcp) as Hc. unfold open_dest. erewrite bind_ok by reflexivity. cbn [s_fs].
  rewrite exists_dir by (apply (cf_wf _ _ _ Hc) || apply (cf_base _ _ _ Hc)). erewrite bind_ok by reflexivity.
  erewrite bind_ok by reflexivity. cbn [s_fs].
  by rewrite canonicalize_dir by (apply (cf_wf _ _ _ Hc) || apply (cf_base _ _ _ Hc)).
Qed.
Definition sigs (items : list item) : list TransferMsg := if wd then omap (item_sig cands) items else [].
(** Receiving is the loop, after the signatures. *)
Lemma planned_run items X o s r : files_to_send plan = map item_entry items -> Forall source_item items ->
  receive_loop (length X) wd (abs_names dst) params 0 0 (Build_Sess mh X (o ++ map Plain (sigs items))) = (s, r) ->
  exists r', receive_planned (abs_names dst) (files_to_send plan) params (Build_Sess mh X o) = (s, r') /\
    match r with inl e => r' = inl e | inr _ => exists v, r' = inr v end.
Proof.
  intros Ei Hi Hrun. unfold receive_planned. erewrite bind_ok by reflexivity. cbn [s_fs]. rewrite candidates_agree. fold cands.
  unfold sigs, wd in Hrun. destruct (decide (cands = ∅)) as [E|E].
  - rewrite bool_decide_eq_true_2 in Hrun by done. cbn [negb map] in Hrun. rewrite app_nil_r in Hrun.
    unfold receive_files. rewrite bind_assoc. erewrite bind_ok by apply open_dest_ok. cbv beta. rewrite bind_assoc.
    erewrite bind_ok by reflexivity. cbn [s_in]. rewrite bind_assoc. destruct r as [e|v].
    + erewrite bind_err by exact Hrun. by eexists.
    + erewrite bind_ok by exact Hrun. eexists. split; [reflexivity|]. by eexists.
  - rewrite bool_decide_eq_false_2 in Hrun by done. cbn [negb] in Hrun. unfold receive_files_with_delta.
    erewrite bind_ok by apply open_dest_ok. cbv beta. rewrite Ei.
    erewrite bind_ok by (apply signatures_ok; [done|by apply cands_good]). cbv beta. erewrite bind_ok by reflexivity. cbn [s_in].
    rewrite Hrun. eexists. split; [reflexivity|]. destruct r; [done|by eexists].
Qed.

Lemma client_lists Y : client (Build_Sess mc (map frame_msg listing ++ Y) []) =
  (ack_msg ← read_msg;
   match ack_msg with
   | PlanAck true => client_push_sync_transfer (abs_names src) request {| local_entries := ls; remote_entries := lr; psn_plan := plan |} params
   | PlanAck false => throw PlanDeclined
   | Error_ e => throw (PeerError e)
   | _ => throw UnexpectedMsg
   end) (Build_Sess mc Y plan_frames).
Proof.
  unfold client, client_push_sync, client_push_sync_negotiate, listing. rewrite bind_assoc.
  erewrite bind_ok; [|unfold reading; cbn [s_fs s_in s_out]; rewrite (proj1 (file_list_back _ _ _)); reflexivity]. cbv beta.
  rewrite bind_assoc. erewrite bind_ok; [|unfold walk_io; erewrite bind_ok by reflexivity; cbn [s_fs]; rewrite Hls; reflexivity]. cbv beta zeta.
  rewrite Hreq, Hdry. fold plan. rewrite bind_assoc. erewrite bind_ok by reflexivity. cbn [s_fs s_in s_out app]. rewrite bind_assoc.
  fold plan_frames. unfold mbind, T_bind. destruct (read_msg _) as [s [e|a]]; [done|]. destruct a; try done. by destruct proceed.
Qed.

(** What the client leaves unread after sending. *)
Definition after_send (Y : list TransferMsg) : list TransferMsg :=
  if wd then drop reader_extra Y
  else drain_rest (map drained (seq 0 (length (chunks BATCH_SIZE (files_to_send plan))))) Y.
Definition client_end (bytes saved : Z) : T TransferSummary :=
  errs ← read_acks_until_done;
  mret {| files_transferred := count_files (files_to_send plan); files_deleted := Z.of_nat (length (files_to_delete plan));
          dirs_created := count_dirs (files_to_send plan); bytes_transferred := bytes; bytes_saved := saved; errors := errs |}.
Lemma chunks_map {A B} (f : A -> B) n l : chunks n (map f l) = map (map f) (chunks n l).
Proof.
  unfold chunks. rewrite length_map. generalize (length l) as k. intros k. revert l. induction k as [|k IH]; intros l; [done|].
  destruct l as [|x l]; [done|]. cbn [chunks_fuel map].
  change (f x :: map f l) with (map f (x :: l)). rewrite <-(IH (drop n (x :: l))). f_equal; [by rewrite <-firstn_map|].
  f_equal. by rewrite <-skipn_map.
Qed.
Lemma chunks_Forall {A} (P : A -> Prop) n l : (0 < n)%nat -> Forall P l -> Forall (Forall P) (chunks n l).
Proof. intros Hn HP. rewrite <-(chunks_concat n l Hn) in HP. by apply Forall_concat in HP. Qed.
Lemma client_sends items : files_to_send plan = map item_entry items -> Forall source_item items ->
  exists outs bytes saved, Forall2 (fun it out => encodes wd it.1 it.2 out) items outs /\
  forall Y o, client_push_sync_transfer (abs_names src) request {| local_entries := ls; remote_entries := lr; psn_plan := plan |} params
      (Build_Sess mc (sigs items ++ Y) o)
    = client_end bytes saved (Build_Sess mc (after_send Y)
        (o ++ List.concat outs ++ map (fun p => Plain (DeletePath p)) (files_to_delete plan) ++ [Plain Done])).
Proof.
  intros Ei Hi. unfold client_push_sync_transfer. rewrite Hdry. cbn [psn_plan]. fold cands. unfold after_send, sigs, wd.
  destruct (decide (cands = ∅)) as [E|E].
  - rewrite bool_decide_eq_true_2 by done. cbn [negb]. rewrite Ei, chunks_map, length_map.
    destruct (send_batches_ok false (chunks BATCH_SIZE items)) with (k := 0%nat) (total := 0) as (outs & bytes & Hf & Hrun).
    { apply chunks_Forall; [unfold BATCH_SIZE; lia|done]. }
    rewrite chunks_concat in Hf by (unfold BATCH_SIZE; lia). exists outs, bytes, 0. split; [done|]. intros Y o.
    destruct (Hrun Y o []) as (k' & errs' & Hr). rewrite bind_assoc. cbn [app].
    erewrite bind_ok by exact Hr. cbv beta iota. erewrite bind_ok by reflexivity. cbv beta iota.
    erewrite bind_ok by reflexivity. cbv beta. erewrite bind_ok by reflexivity. cbn [s_fs s_in s_out].
    unfold client_end. rewrite Ei, <-!app_assoc. done.
  - rewrite bool_decide_eq_false_2 by done. cbn [negb]. rewrite Ei.
    destruct (delta_files_loop_ok cands items Hi (cands_good items Ei Hi) (sizer_new (max_chunk_size params)) 0 0) as
      (outs & bytes & saved & Hf & Hrun); [apply sizer_new_ok|].
    exists outs, bytes, saved. split; [done|]. intros Y o. unfold send_files_with_delta. rewrite Hreader_cut, bind_assoc.
    erewrite bind_ok by apply Hrun. cbv beta. rewrite bind_assoc. erewrite bind_ok by reflexivity. cbv beta.
    erewrite bind_ok by reflexivity. cbv beta iota. erewrite bind_ok by reflexivity. cbv beta.
    erewrite bind_ok by reflexivity. cbn [s_fs s_in s_out]. unfold client_end. rewrite Ei, <-!app_assoc. done.
Qed.
(** ** What is reached *)
Definition same_entry (nd : node) (r : option node) : Prop :=
  match nd with
  | File c _ _ => exists mode t, r = Some (File c mode t)
  | Dir mode _ => exists t, r = Some (Dir (mode .& 511) t)
  | Link _ _ => False
  end.
Context (Hhash : forall rel c mode t c' mode' t', rel <> [] -> mc !! (src ++ rel) = Some (File c mode t) ->
  mh !! (dst ++ rel) = Some (File c' mode' t') -> length c = length c' -> xxh3_64 c = xxh3_64 c' -> c = c').

(** A file the plan leaves out is at the destination already. *)
Lemma unsent_same items rel nd : files_to_send plan = map item_entry items -> Forall source_item items -> rel <> [] ->
  mc !! (src ++ rel) = Some nd -> rel ∉ map fst items -> is_dir_node nd = false /\ same_entry nd (mh !! (dst ++ rel)).
Proof.
  intros Ei Hi Hne Hm Hin. destruct (walk_spec mc src ls Hwf_src Hsrc Hlg_src Hls) as [_ Hl].
  pose proof (rel_valid mc src rel nd Hwf_src Hm) as Hv.
  assert (walk_entry rel nd ∈ ls) as He by (apply Hl; by exists rel, nd).
  assert (walk_entry rel nd ∉ files_to_send plan) as Hn.
  { rewrite Ei. intros ([rel' nd'] & E & Hin')%list_elem_of_fmap. apply Hin. apply list_elem_of_fmap. exists (rel', nd').
    split; [|done]. cbn. rewrite Forall_forall in Hi. destruct (Hi _ Hin') as (Hne' & Hv' & _ & _).
    apply (f_equal fe_path) in E. cbn in E. by apply join_inj in E. }
  unfold plan, compute_sync_plan in Hn. cbn [files_to_send] in Hn. rewrite list_elem_of_filter, plan_entry_send in Hn.
  destruct (is_dir_node nd) eqn:Hd; [destruct Hn; split; [by left|done]|]. split; [done|].
  destruct (entry_map lr !! join "/" rel) as [d|] eqn:Ed.
  2:{ destruct Hn. split; [|done]. right. intros d. cbn [fe_path walk_entry]. by rewrite Ed. }
  pose proof Ed as (nd' & Hm' & ->)%dest_lookup; [|done|done].
  assert (unchanged (walk_entry rel nd) (walk_entry rel nd')) as [Hsz Hh].
  { destruct (decide (unchanged (walk_entry rel nd) (walk_entry rel nd'))) as [?|Hx]; [done|]. destruct Hn. split; [|done].
    right. intros d. cbn [fe_path walk_entry]. rewrite Ed. by intros [= <-]. }
  pose proof (Hnolinks rel nd Hne Hm) as Hlk. pose proof (cf_links _ _ _ (cp_dst Hcp) rel nd' Hm' Hne) as Hlk'.
  pose proof (cp_kinds Hcp rel nd nd' Hne Hm Hm') as Hk. destruct nd as [c mode t| |], nd' as [c' mode' t'| |]; try done.
  cbn in Hsz, Hh. assert (c = c') as <- by (eapply Hhash; [exact Hne|exact Hm|exact Hm'|lia|done]). rewrite Hm'. by eexists _, _.
Qed.

Definition synced (mh' : fs) : Prop :=
  (forall rel nd, rel <> [] -> mc !! (src ++ rel) = Some nd -> same_entry nd (mh' !! (dst ++ rel))) /\
  (forall rel, rel <> [] -> mc !! (src ++ rel) = None -> mh' !! (dst ++ rel) = if del then None else mh !! (dst ++ rel)) /\
  (forall q, (forall rel, rel <> [] -> q <> dst ++ rel) -> mh' !! q = mh !! q).
Lemma received_same nd r : received nd r -> same_entry nd r.
Proof. destruct nd; cbn; [intros (t & -> & _)|done|done]. by eexists _, _. Qed.
Lemma reached items rels m : files_to_send plan = map item_entry items -> Forall source_item items ->
  Forall (fun rel => rel <> [] /\ Forall valid_name rel) rels ->
  (forall rel, rel <> [] -> Forall valid_name rel ->
    rel ∈ rels <-> del = true /\ is_Some (mh !! (dst ++ rel)) /\ mc !! (src ++ rel) = None) ->
  progress (rev (map fst items) ++ []) m -> confined dst mh (prune_all rels m) -> synced (prune_all rels m).
Proof.
  intros Ei Hi Hv Hrels Hp Hc. rewrite app_nil_r in Hp. split_and!.
  - intros rel nd Hne Hm. rewrite lookup_prune_all, decide_False.
    + destruct (decide (rel ∈ map fst items)) as [Hin|Hin].
      * apply received_same. apply (pr_done _ _ Hp); [|done]. apply list_elem_of_In. rewrite <-in_rev. by apply list_elem_of_In.
      * destruct (unsent_same items rel nd) as [Hd Hs]; [done..|].
        destruct (pr_todo _ _ Hp rel Hne) as [->|(_ & Hd' & _)]; [|done|].
        { intros Hx. apply Hin. apply list_elem_of_In, in_rev. by apply list_elem_of_In. }
        unfold dir_at in Hd'. rewrite node_at_cons, Hm, Hd in Hd' by (by destruct src, rel). done.
    + intros (rel' & Hin & Hpre%prefix_app_inv)%Exists_exists. rewrite Forall_forall in Hv. pose proof (Hv _ Hin) as [Hne' Hv'].
      apply Hrels in Hin as (_ & _ & Hn); [|done|done]. destruct (decide (rel' = rel)) as [->|Hr]; [congruence|].
      assert (dir_at mc (src ++ rel') = true) as (? & ? & ?)%dir_at_lookup by (eapply (src_dir_above rel); [by eexists|done|done]);
        [congruence|by destruct src, rel'].
  - intros rel Hne Hm. rewrite lookup_prune_all.
    assert (m !! (dst ++ rel) = mh !! (dst ++ rel)) as Hsame.
    { destruct (pr_todo _ _ Hp rel Hne) as [E|(_ & Hd' & _)]; [|done|].
      - intros Hx. apply list_elem_of_In, in_rev, list_elem_of_In in Hx.
        apply list_elem_of_fmap in Hx as ([rel' nd] & -> & Hx). rewrite Forall_forall in Hi. destruct (Hi _ Hx) as (_ & _ & E & _).
        cbn in E, Hm. congruence.
      - rewrite dir_at_none in Hd'; [done|done|by destruct src, rel]. }
    destruct (decide (Exists _ rels)) as [Hx|Hx].
    + apply Exists_exists in Hx as (rel' & Hin & _). rewrite Forall_forall in Hv. pose proof (Hv _ Hin) as [? ?].
      apply Hrels in Hin as (-> & _); done.
    + rewrite Hsame. destruct del; [|done]. destruct (mh !! (dst ++ rel)) as [nd|] eqn:E; [|done]. destruct Hx.
      apply Exists_exists. exists rel. split; [|done]. apply Hrels; [done| |by split_and!].
      exact (rel_valid mh dst rel nd (cf_wf _ _ _ (cp_dst Hcp)) E).
  - intros q Hq. by apply (cf_outside _ _ _ Hc).
Qed.

(** ** The session *)
Context (Hdrained : (sum_list (map drained (seq 0 (length (chunks BATCH_SIZE (files_to_send plan))))) <= length (files_to_send plan))%nat).
Context (Hextra : (reader_extra <= length (files_to_send plan))%nat).

Lemma after_send_nil : after_send [] = [].
Proof. unfold after_send. destruct wd; [apply drop_nil|apply drain_rest_nil]. Qed.
Lemma after_send_acks rels tail : length (files_to_send plan) = length rels ->
  exists rels', after_send (map ack_msg rels ++ tail) = map ack_msg rels' ++ tail.
Proof.
  intros Hl. unfold after_send. destruct wd.
  - exists (drop reader_extra rels). rewrite drop_app_le by (rewrite length_map; lia). by rewrite <-skipn_map.
  - eexists. apply drain_rest_acks. by rewrite <-Hl.
Qed.

(** What each side writes, by round. *)
Definition sent (outs : list (list framed)) : list framed :=
  List.concat outs ++ map (fun p => Plain (DeletePath p)) (files_to_delete plan) ++ [Plain Done].
Definition reply (items : list item) : list framed := (listing ++ [Plain (PlanAck true)]) ++ map Plain (sigs items).
Definition acks (items : list item) (rels : list (list string)) : list framed :=
  (map ack_of (map fst items) ++ map ack_of rels) ++ [Plain Done].

Lemma host_all items outs rels : files_to_send plan = map item_entry items -> Forall source_item items -> NoDup (map fst items) ->
  Forall2 (fun it out => encodes wd it.1 it.2 out) items outs -> files_to_delete plan = map (join "/") rels ->
  Forall (fun rel => rel <> [] /\ Forall valid_name rel) rels ->
  exists m, progress (rev (map fst items) ++ []) m /\ confined dst mh (prune_all rels m) /\
    run_on host mh (plan_frames ++ sent outs) = (Build_Sess (prune_all rels m) [] (reply items ++ acks items rels), inr tt).
Proof.
  intros Ei Hi Hnd Hf Ed Hrv. set (X := map frame_msg (sent outs)).
  assert (X = map frame_msg (List.concat outs) ++ map (fun rel => DeletePath (join "/" rel)) rels ++ [Done]) as HX.
  { unfold X, sent. rewrite Ed, !map_app, !map_map. done. }
  assert (progress [] mh) as Hp0.
  { split; [apply (cp_dst Hcp)|by intros ? ? ?%elem_of_nil|]. intros rel _ _. by left. }
  destruct (receive_items wd items outs Hf Hi [] mh (length X) 0 0 (map (fun rel => DeletePath (join "/" rel)) rels ++ [Done]) (reply items))
    as (m1 & f1 & t1 & sv1 & Hf1 & Hp1 & Erun1); [done|done|intros; apply not_elem_of_nil|constructor|by rewrite <-HX|].
  destruct (receive_deletes wd rels Hrv m1 f1 t1 sv1 (reply items ++ map (fun it => ack_of it.1) items) []) as
    (Hc2 & t2 & sv2 & Erun2); [apply (pr_confined _ _ Hp1)|done|].
  rewrite <-HX in Erun1. rewrite Erun2 in Erun1. exists m1. split; [done|]. split; [done|].
  unfold run_on. rewrite map_app. fold X. rewrite host_start.
  destruct (planned_run items X _ _ _ Ei Hi Erun1) as (r' & E & v & ->).
  erewrite bind_ok by exact E. unfold write_msg, write_frames. cbn. unfold acks. rewrite map_map, <-!app_assoc. done.
Qed.
Lemma host_half items : files_to_send plan = map item_entry items -> Forall source_item items ->
  run_on host mh plan_frames = (Build_Sess mh [] (reply items), inl StreamBroken).
Proof.
  intros Ei Hi. unfold run_on. rewrite <-(app_nil_r (map frame_msg plan_frames)), host_start.
  destruct (planned_run items [] (listing ++ [Plain (PlanAck true)]) _ _ Ei Hi eq_refl) as (r' & E & ->). by erewrite bind_err by exact E.
Qed.
Lemma client_half : run_on client mc listing = (Build_Sess mc [] plan_frames, inl StreamBroken).
Proof. unfold run_on. rewrite <-(app_nil_r (map frame_msg listing)), client_lists. by erewrite bind_err by reflexivity. Qed.

(** The client on the reply and what follows it. *)
Lemma client_all items outs bytes saved :
  (forall Y o, client_push_sync_transfer (abs_names src) request {| local_entries := ls; remote_entries := lr; psn_plan := plan |} params
      (Build_Sess mc (sigs items ++ Y) o) = client_end bytes saved (Build_Sess mc (after_send Y) (o ++ sent outs))) ->
  (run_on client mc (reply items)).1 = Build_Sess mc [] (plan_frames ++ sent outs) /\
  forall rels, length (files_to_send plan) = length items ->
  exists summary, errors summary = [] /\
    run_on client mc (reply items ++ acks items rels) = (Build_Sess mc [] (plan_frames ++ sent outs), inr summary).
Proof.
  intros Hsend. assert (forall Y, client (Build_Sess mc (map frame_msg (reply items) ++ Y) []) =
    client_end bytes saved (Build_Sess mc (after_send Y) (plan_frames ++ sent outs))) as Hcl.
  { intros Y. unfold reply. rewrite !map_app, <-!app_assoc, client_lists.
    rewrite map_map. cbn [frame_msg map app]. rewrite map_id. rewrite (bind_ok _ _ _ _ _ (read_msg_cons _ _ _ _)). apply Hsend. }
  split.
  - unfold run_on. by rewrite <-(app_nil_r (map frame_msg (reply items))), Hcl, after_send_nil.
  - intros rels Hlen. destruct (after_send_acks (map fst items) (map ack_msg rels ++ [Done])) as (rels' & Hrest); [by rewrite length_map|].
    eexists. split; [|unfold run_on; rewrite map_app, Hcl].
    2:{ assert (map frame_msg (acks items rels) = map ack_msg (map fst items) ++ map ack_msg rels ++ [Done]) as ->.
        { unfold acks. rewrite !map_app, !map_map, <-app_assoc. done. }
        rewrite Hrest. unfold client_end. erewrite bind_ok; [reflexivity|]. rewrite app_assoc, <-map_app. apply read_acks_positive. }
    done.
Qed.
Lemma push_sync_run : exists mh' summary, settles 3 host client mh mc mh' mc tt summary /\ errors summary = [] /\ synced mh'.
Proof.
  destruct source_items as (items & Ei & Hi & Hnd). destruct deleted_rels as (rels & Ed & Hrv & Hrels).
  destruct (client_sends items Ei Hi) as (outs & bytes & saved & Hf & Hsend).
  destruct (host_all items outs rels Ei Hi Hnd Hf Ed Hrv) as (m & Hp & Hc & Hhost).
  destruct (client_all items outs bytes saved Hsend) as [Hcl Hcl']. destruct (Hcl' rels) as (summary & Hs & Hcl3);
    [by rewrite Ei, length_map|].
  exists (prune_all rels m), summary. split; [|split; [done|by eapply reached]].
  eapply (settles_3 _ _ _ _ listing plan_frames (reply items) (plan_frames ++ sent outs)).
  - unfold run_on. cbn [map]. by rewrite host_starved.
  - by rewrite client_half.
  - by rewrite (host_half items).
  - by rewrite Hcl.
  - exact Hhost.
  - exact Hcl3.
  - unfold reply. rewrite <-app_assoc. by apply prefix_app_r.
  - by apply prefix_app_r.
  - by apply prefix_app_r.
Qed.
End Converge.

(** ** Push sync converges *)
(** The trees a sync is meant for: well-formed, readable throughout and with UTF-8 names, without links or temporary names below either
    directory, files and directories in the same places, and no hash collision between a file
    and what the destination has in its place. *)
Record syncable `{!FileHash, !Timing} (src dst : list string) (mc mh : fs) : Prop := {
  sy_wf_src : wf_fs mc;
  sy_src : dir_at mc src = true;
  sy_src_legible : legible mc src;
  sy_src_links : forall rel nd, rel <> [] -> mc !! (src ++ rel) = Some nd -> is_link_node nd = false;
  sy_wf_dst : wf_fs mh;
  sy_dst : dir_at mh dst = true;
  sy_dst_legible : legible mh dst;
  sy_dst_links : forall rel nd, rel <> [] -> mh !! (dst ++ rel) = Some nd -> is_link_node nd = false;
  sy_kinds : forall rel n n', rel <> [] -> mc !! (src ++ rel) = Some n -> mh !! (dst ++ rel) = Some n' ->
    is_dir_node n = is_dir_node n';
  sy_tmp : forall d n, mc !! (src ++ tmp_of d n) = None /\ mh !! (dst ++ tmp_of d n) = None;
  sy_hash : forall rel c mode t c' mode' t', rel <> [] -> mc !! (src ++ rel) = Some (File c mode t) ->
    mh !! (dst ++ rel) = Some (File c' mode' t') -> length c = length c' -> xxh3_64 c = xxh3_64 c' -> c = c';
  sy_delta : forall rel c mode t old omode ot, rel <> [] -> mc !! (src ++ rel) = Some (File c mode t) ->
    mh !! (dst ++ rel) = Some (File old omode ot) ->
    no_collision xxh3_64 old c DELTA_BLOCK_SIZE /\ Forall (eq DELTA_BLOCK_SIZE) (sign_reads old) /\
    Z.of_nat (length old) <= 2 ^ 32 * Z.of_nat DELTA_BLOCK_SIZE;
}.
(** The plan of the session. *)
Definition sync_plan_of `{!FileHash} (src dst : list string) (mc mh : fs) (del : bool) : SyncPlan :=
  compute_sync_plan (default [] (walk_directory mc (abs_names src))) (default [] (walk_directory mh (abs_names dst))) del.
(** While it sends, the client has read at most one message per entry sent, and none of the reads it
    dropped had begun a message. *)
Definition timely `{!Timing} (files : list FileEntry) : Prop :=
  (forall i, drain_cut i = None) /\ reader_cut = None /\
  (sum_list (map drained (seq 0 (length (chunks BATCH_SIZE files)))) <= length files)%nat /\ (reader_extra <= length files)%nat.


(** ** Runs *)
Definition demo_send_env : SendEnv := {| read_ready := fun _ _ => 2%nat; since_check := fun _ _ => 0 |}.
Definition demo_timing (k : nat) : Timing :=
  {| drained := fun _ => k; drain_cut := fun _ => None; reader_extra := 0; reader_cut := None;
     misread := fun _ _ => []; sign_reads := fun _ => [] |}.
Definition demo_src : fs :=
  list_to_map [(["w"], Dir 493 3); (["w"; "a"], File [1; 2; 3; 4; 5] 420 9); (["w"; "d"], Dir 448 4);
               (["w"; "d"; "b"], File [] 384 8)]%string.
Definition demo_dst : fs :=
  list_to_map [(["v"], Dir 493 3); (["v"; "a"], File [7] 420 9); (["v"; "old"], Dir 448 4); (["v"; "old"; "b"], File [] 384 8)]%string.
Definition demo_params : NegotiatedParams := from_negotiated (Some "zstd"%string) MAX_CHUNK_SIZE (Some 3) 2.
Definition demo_request (direction : TransferDirection) (dry_run : bool) : TransferRequest :=
  {| tr_mode := Sync.Sync; tr_direction := direction; tr_remote_path := "/v"; tr_delete_extraneous := true; tr_dry_run := dry_run |}%string.
Ltac demo_entry H :=
  apply elem_of_list_to_map_2 in H; cbn [app] in H;
  repeat (apply elem_of_cons in H as [H|H]; [injection H; clear H; intros; subst|]);
  [..|by apply elem_of_nil in H].
Lemma demo_syncable : syncable (H := demo_file_hash) (H0 := demo_timing 1) ["w"%string] ["v"%string] demo_src demo_dst.
Proof.
  split.
  - apply wf_from_list. by vm_compute.
  - by vm_compute.
  - split; [done|]. intros rel nd Hne E. demo_entry E; done.
  - intros rel nd Hne E. demo_entry E; done.
  - apply wf_from_list. by vm_compute.
  - by vm_compute.
  - split; [done|]. intros rel nd Hne E. demo_entry E; done.
  - intros rel nd Hne E. demo_entry E; done.
  - intros rel n n' Hne E E'. demo_entry E; demo_entry E'; done.
  - intros d n. unfold tmp_of. split; apply eq_None_not_Some; intros [nd E]; demo_entry E;
      destruct d as [|? [|? [|? d]]]; by simplify_eq.
  - intros rel c mode t c' mode' t' Hne E E'. demo_entry E; demo_entry E'; done.
  - intros rel c mode t old omode ot Hne E E'. demo_entry E; demo_entry E'; try done.
    split_and!; [|constructor|done]. intros p k Hp. unfold DELTA_BLOCK_SIZE in Hp. cbn [length] in Hp. lia.
Qed.

(** A dropped read can break a push sync: the drain after the batch times out inside the host's first
    acknowledgement, and what is left of that does not decode.  The client reports a broken stream
    although the host, on what the client had sent, finished. *)
Theorem cut_drain_breaks_push :
  let timing := {| drained := fun _ => 0%nat; drain_cut := fun _ => Some 3%nat; reader_extra := 0; reader_cut := None;
                   misread := fun _ _ => []; sign_reads := fun _ => [] |} : Timing in
  let host := host_sync_receive (H := demo_fs_env) (H0 := demo_zstd_stream) (H1 := demo_err_text) (H2 := demo_file_hash)
      (H4 := timing) (abs_names ["v"%string]) demo_params in
  let client := client_push_sync (H0 := demo_zstd_stream) (H2 := demo_file_hash) (H3 := demo_send_env) (H4 := timing)
      (abs_names ["w"%string]) (demo_request Push false) demo_params in
  let '(h2c, c2h) := exchange 3 host client demo_dst demo_src in
  (run_on host demo_dst c2h).2 = inr tt /\ (run_on client demo_src h2c).2 = inl StreamBroken.
Proof. vm_compute. split; reflexivity. Qed.

(** A dry-run pull through the helper is not dry: the helper announces every plan as a real one, so
    a client that asked for a dry run writes the files and deletes what the plan deletes. *)
Theorem helper_dry_run_transfers :
  let host := host_dispatch (H := demo_fs_env) (H0 := demo_zstd_stream) (H1 := demo_err_text) (H2 := demo_file_hash)
    (H3 := demo_send_env) (H4 := demo_timing 0) (abs_names ["w"%string]) (demo_request Pull true) in
  let client := client_pull_sync (H := demo_fs_env) (H0 := demo_zstd_stream) (H1 := demo_err_text) (H2 := demo_file_hash)
    (H4 := demo_timing 0) (abs_names ["v"%string]) demo_params in
  let run helper := let '(h2c, c2h) := exchange 4 (host helper demo_params) client demo_src demo_dst in
    let '(s, r) := run_on client demo_dst h2c in
    (match r with inr _ => true | inl _ => false end, s_fs s !! ["v"; "a"]%string, s_fs s !! ["v"; "old"; "b"]%string) in
  run false = (true, Some (File [7] 420 9), Some (File [] 384 8)) /\
  run true = (true, Some (File [1; 2; 3; 4; 5] 420 9), None).
Proof. vm_compute. split; reflexivity. Qed.

(** A push sync forgets failures: the errors its drain between batches collects are overwritten by
    those read at the end, so a file the host refused is reported as transferred. *)
Theorem push_sync_drops_errors :
  let client := client_push_sync_transfer (H0 := demo_zstd_stream) (H2 := demo_file_hash) (H3 := demo_send_env) (H4 := demo_timing 1)
    (abs_names ["w"%string]) (demo_request Push false)
    {| local_entries := []; remote_entries := [];
       psn_plan := {| files_to_send := [walk_entry (H := demo_file_hash) ["a"%string] (File [1; 2; 3; 4; 5] 420 9)];
                      files_to_delete := []; delta_candidates := [] |} |} legacy in
  let '(s, r) := client {| s_fs := demo_src; s_in := [FileAck "a" false (Some "No space left on device"); Done]%string; s_out := [] |} in
  s_in s = [] /\ match r with inr summary => errors summary = [] /\ files_transferred summary = 1 | inl _ => False end.
Proof. vm_compute. split_and!; reflexivity. Qed.

(** A destination link is written through: where the destination has a link, a pushed file replaces
    what the link leads to, here another file of the same sync that was already right, and both sides
    report success. *)
Theorem sync_writes_through_link :
  let src := list_to_map [(["w"], Dir 493 3); (["w"; "cur"], File [1; 1] 420 9); (["w"; "v1"], File [2] 420 9)]%string : fs in
  let dst := list_to_map [(["v"], Dir 493 3); (["v"; "cur"], Link "v1" 9); (["v"; "v1"], File [2] 420 9)]%string : fs in
  let host := host_sync_receive (H := demo_fs_env) (H0 := demo_zstd_stream) (H1 := demo_err_text) (H2 := demo_file_hash)
      (H4 := demo_timing 0) (abs_names ["v"%string]) demo_params in
  let client := client_push_sync (H0 := demo_zstd_stream) (H2 := demo_file_hash) (H3 := demo_send_env) (H4 := demo_timing 0)
      (abs_names ["w"%string]) (demo_request Push false) demo_params in
  let '(h2c, c2h) := exchange 3 host client dst src in
  let '(s, r) := run_on host dst c2h in
  r = inr tt /\ s_fs s !! ["v"; "v1"]%string = Some (File [1; 1] 420 9) /\ s_fs s !! ["v"; "cur"]%string = Some (Link "v1" 9) /\
  match (run_on client src h2c).2 with inr summary => errors summary = [] | inl _ => False end.
Proof. vm_compute. split_and!; reflexivity. Qed.

(** Syncing a tree with a link twice destroys the link's target: the receiver resolves an existing
    link before it replaces it, so the second sync removes the file the link leads to and puts a link
    to itself in its place.  Both syncs report success. *)
Theorem resync_link_destroys_target :
  let src := list_to_map [(["w"], Dir 493 3); (["w"; "cur"], Link "v1" 9); (["w"; "v1"], File [2] 420 9)]%string : fs in
  let dst := list_to_map [(["v"], Dir 493 3)]%string : fs in
  let host := host_sync_receive (H := demo_fs_env) (H0 := demo_zstd_stream) (H1 := demo_err_text) (H2 := demo_file_hash)
      (H4 := demo_timing 0) (abs_names ["v"%string]) demo_params in
  let client := client_push_sync (H0 := demo_zstd_stream) (H2 := demo_file_hash) (H3 := demo_send_env) (H4 := demo_timing 0)
      (abs_names ["w"%string]) (demo_request Push false) demo_params in
  let sync (m : fs) := let '(h2c, c2h) := exchange 3 host client m src in
    (s_fs (run_on host m c2h).1, match (run_on client src h2c).2 with inr summary => Some (errors summary) | inl _ => None end) in
  let '(once, r1) := sync dst in
  let '(twice, r2) := sync once in
  r1 = Some [] /\ once !! ["v"; "v1"]%string = Some (File [2] 420 9) /\ once !! ["v"; "cur"]%string = Some (Link "v1" 7) /\
  r2 = Some [] /\ twice !! ["v"; "v1"]%string = Some (Link "v1" 7).
Proof. vm_compute. split_and!; reflexivity. Qed.
