(* ===== verification/Session.v ===== *)
(** * Session: what a transfer request may do to a host
    (host_transfer_session of hop-core/src/transfer/mod.rs)

    A peer's sandbox policy on the data plane: a read-only peer changes nothing,
    and a peer confined to some paths changes nothing outside them, with and
    without the helper process. *)
From S2P Require Import Prelude Text Policy Delta Fs Listing Negotiate Receiver Confine Sender Sync Steps.
Local Open Scope Z_scope.

(** ** Reading never writes *)
Section Frame.
Context (P : Sess -> Prop).
Context (Hin : forall m i o i', P (Build_Sess m i o) -> i' `suffix_of` i -> P (Build_Sess m i' o)).
Context (Hout : forall m i o o', P (Build_Sess m i o) -> P (Build_Sess m i o')).

Lemma keep_write l : spec P (write_frames l) (fun _ => True).
Proof. intros [m i o] Hs. split; [by eapply Hout|done]. Qed.
Lemma keep_read : spec P read_msg (fun _ => True).
Proof.
  intros [m [|x i] o] Hs; [done|]. split; [|done]. eapply Hin; [exact Hs|]. by exists [x].
Qed.
Lemma keep_reading {A} (f : list TransferMsg -> (transfer_error + A) * list TransferMsg) :
  (forall l, (f l).2 `suffix_of` l) -> spec P (reading f) (fun _ => True).
Proof.
  intros Hf [m i o] Hs. unfold reading. cbn [s_in]. specialize (Hf i). destruct (f i) as [r rest]. split; [|done].
  by eapply Hin.
Qed.
End Frame.

Lemma suffix_read_file_list l : forall acc, (read_file_list_loop acc l).2 `suffix_of` l.
Proof.
  induction l as [|x l IH]; intros acc; [done|]. destruct x; cbn [read_file_list_loop snd]; try (by eexists [_]).
  case_match; [by eexists [_]|]. etrans; [apply IH|]. by eexists [_].
Qed.
Lemma suffix_read_plan l : forall a b, (read_plan_loop a b l).2 `suffix_of` l.
Proof.
  induction l as [|x l IH]; intros a b; [done|]. destruct x; cbn [read_plan_loop snd]; try (by eexists [_]).
  case_match; [by eexists [_]|]. etrans; [apply IH|]. by eexists [_].
Qed.
Lemma suffix_read_acks n : forall errs l, (read_acks_loop n errs l).2 `suffix_of` l.
Proof.
  induction n as [|n IH]; intros errs l; [done|]. destruct l as [|x l]; [done|].
  destruct x; cbn [read_acks_loop snd]; try (by eexists [_]). etrans; [apply IH|]. by eexists [_].
Qed.
Lemma suffix_next_sig l : (next_sig_loop l).2 `suffix_of` l.
Proof.
  induction l as [|x l IH]; [done|]. destruct x; cbn [next_sig_loop snd]; try (by eexists [_]).
  etrans; [apply IH|]. by eexists [_].
Qed.

Section Pure.
Context `{!FsEnv, !ZstdStream, !ErrText, !FileHash, !SendEnv, !Timing}.
Context (P : Sess -> Prop).
Context (Hin : forall m i o i', P (Build_Sess m i o) -> i' `suffix_of` i -> P (Build_Sess m i' o)).
Context (Hout : forall m i o o', P (Build_Sess m i o) -> P (Build_Sess m i o')).
Local Abbreviation keeps t := (spec P t (fun _ => True)).

Lemma keep_get_fs : keeps get_fs.
Proof. intros s Hs. by split. Qed.
(** One step of a proof that a session keeps [P]. *)
Ltac keep :=
  match goal with
  | |- spec _ (mbind _ _) _ => eapply spec_bind with (Q := fun _ => True); [|intros ? _]
  | |- spec _ (mret _) _ => by apply spec_ret
  | |- spec _ (throw _) _ => apply spec_throw
  | |- spec _ (write_msg _) _ => by apply keep_write
  | |- spec _ (write_frames _) _ => by apply keep_write
  | |- spec _ read_msg _ => by apply keep_read
  | |- spec _ get_fs _ => apply keep_get_fs
  | |- spec _ (match ?x with _ => _ end) _ => destruct x
  | |- spec _ (let '(_, _) := ?x in _) _ => destruct x
  end.
Ltac keeping := repeat keep.

Lemma keep_send_file_data base e sizer params : keeps (send_file_data base e sizer params).
Proof. unfold send_file_data, send_data. keeping. Qed.
Lemma keep_send_files base files params : keeps (send_files base files params).
Proof.
  unfold send_files. generalize (sizer_new (max_chunk_size params)) as sizer, 0 as total.
  induction files as [|e files IH]; intros sizer total; cbn [send_files_loop]; keeping; try apply IH. apply keep_send_file_data.
Qed.
Lemma keep_send_delta base e sigs bs : keeps (send_delta base e sigs bs).
Proof. unfold send_delta. keeping. Qed.
Lemma keep_delta_loop base files cands params : forall sizer total saved,
  keeps (delta_files_loop base files cands sizer params total saved).
Proof.
  induction files as [|e files IH]; intros sizer total saved; cbn [delta_files_loop]; keeping; try apply IH;
    try apply keep_send_file_data; try apply keep_send_delta.
  apply keep_reading; [done|apply suffix_next_sig].
Qed.
(** A sender's dropped read may leave anything to be read. *)
Context (Hany : forall m i o i', P (Build_Sess m i o) -> P (Build_Sess m i' o)).
Lemma keep_send_with_delta extra cut base files cands params : keeps (send_files_with_delta extra cut base files cands params).
Proof.
  unfold send_files_with_delta. keeping; [apply keep_delta_loop|]. intros [m i o] Hs. split; [by eapply Hany|done].
Qed.
Lemma keep_count_acks n : keeps (count_acks n).
Proof. induction n as [|n IH]; cbn [count_acks]; keeping. apply IH. Qed.
Lemma keep_check_acks n : keeps (check_acks n).
Proof. unfold check_acks. keeping. apply keep_reading; [done|apply suffix_read_acks]. Qed.
Lemma keep_walk_io root : keeps (walk_io root).
Proof. unfold walk_io. keeping. Qed.
Lemma keep_copy_send source recursive acks params : (forall n, keeps (acks n)) -> keeps (copy_send source recursive acks params).
Proof. intros Ha. unfold copy_send. keeping; [apply keep_walk_io|apply keep_send_files|apply Ha]. Qed.
Lemma keep_send_planned base plan params : keeps (send_planned base plan params).
Proof. unfold send_planned, send_deletes. keeping; [apply keep_send_files|apply keep_send_with_delta]. Qed.
Lemma keep_sync_send source del dp dry acks params : (forall n, keeps (acks n)) -> keeps (sync_send source del dp dry acks params).
Proof.
  intros Ha. unfold sync_send, sync_source, read_done. keeping; try apply keep_walk_io; try apply Ha; try apply keep_send_planned.
  apply keep_reading; [done|]. intros l. apply suffix_read_file_list.
Qed.
Lemma keep_negotiate_host : keeps negotiate_host.
Proof. unfold negotiate_host. keeping. Qed.
Lemma keep_attempt {A} (t : T A) : keeps t -> keeps (attempt t).
Proof. apply spec_attempt. Qed.
Lemma keep_list_dest dest : keeps (list_dest dest).
Proof. unfold list_dest. keeping. apply keep_walk_io. Qed.

(** A pull sends and never writes, with and without the helper. *)
Lemma keep_pull base request helper params : tr_direction request = Pull ->
  keeps (host_dispatch base request helper params).
Proof.
  intros Hd. unfold host_dispatch. rewrite Hd.
  destruct (tr_mode request) as [recursive|], helper; unfold proxy_via_helper; keeping; try apply keep_attempt.
  - destruct recursive; cbn; apply keep_copy_send, keep_count_acks.
  - apply keep_copy_send, keep_check_acks.
  - destruct (tr_delete_extraneous request); cbn; apply keep_sync_send, keep_count_acks.
  - apply keep_sync_send, keep_check_acks.
Qed.

(** The session, given what its dispatch keeps. *)
Lemma keep_session `{!Homes} privileged request username version sandbox :
  (forall s base helper params, P s -> resolve_host_path (tr_remote_path request) username = Some base ->
     enforce_transfer_policy (s_fs s) sandbox base (match tr_direction request with Push => true | Pull => false end) = true ->
     keeps (host_dispatch base request helper params)) ->
  keeps (host_transfer_session privileged request username version sandbox).
Proof.
  intros Hdisp. unfold host_transfer_session. destruct (resolve_host_path _ _) as [base|] eqn:Er; [|apply spec_throw].
  eapply spec_bind; [apply spec_get_fs|]. intros m (s & Hs & <-).
  destruct (enforce_transfer_policy _ _ _ _) eqn:Ep; cbn [negb]; [|keeping]. keep; [|keep].
  - destruct (1 <=? version); [apply keep_negotiate_host|keeping].
  - apply keep_attempt. eapply Hdisp; done.
  - keeping.
Qed.
End Pure.

(** ** A push stays inside its destination *)
Section Push.
Context `{!FsEnv, !ZstdStream, !ErrText, !FileHash, !SendEnv, !Timing}.
Context (base : list string) (m0 : fs).
Local Abbreviation holds := (holds base m0).

Lemma holds_in m i o i' : holds (Build_Sess m i o) -> i' `suffix_of` i -> holds (Build_Sess m i' o).
Proof. intros [Hc Hf] [k ->]. split; [done|]. by apply Forall_app in Hf as [_ ?]. Qed.
Lemma holds_out m i o o' : holds (Build_Sess m i o) -> holds (Build_Sess m i o').
Proof. by intros [Hc Hf]. Qed.
Local Hint Resolve holds_in holds_out : core.

Lemma push_receive params : spec holds (host_receive_files (abs_names base) params) (fun _ => True).
Proof.
  unfold host_receive_files. eapply spec_bind; [apply spec_receive_files|]. intros _ _. by apply keep_write.
Qed.
Lemma push_planned files params : spec holds (receive_planned (abs_names base) files params) (fun _ => True).
Proof.
  unfold receive_planned. eapply spec_bind; [apply keep_get_fs|]. intros m _. destruct (decide _).
  - eapply spec_bind; [apply spec_receive_files|]. intros n _. by apply spec_ret.
  - apply spec_receive_delta.
Qed.
Lemma push_sync params : spec holds (host_sync_receive (abs_names base) params) (fun _ => True).
Proof.
  unfold host_sync_receive. eapply spec_bind; [apply keep_list_dest|]. intros l _.
  eapply spec_bind; [apply (keep_write holds holds_out)|]. intros _ _.
  eapply spec_bind; [apply (keep_reading holds holds_in); intros ?; apply suffix_read_plan|]. intros [[files ?] dry] _.
  eapply spec_bind; [apply (keep_write holds holds_out)|]. intros _ _. destruct dry; [apply (keep_write holds holds_out)|].
  eapply spec_bind; [apply push_planned|]. intros _ _. apply (keep_write holds holds_out).
Qed.
Lemma push_dispatch request helper params : tr_direction request = Push ->
  spec holds (host_dispatch (abs_names base) request helper params) (fun _ => True).
Proof.
  intros Hd. unfold host_dispatch. rewrite Hd.
  assert (forall mode t, run_transfer_helper mode (abs_names base) params = t -> spec holds t (fun _ => True) ->
    spec holds (proxy_via_helper (abs_names base) params mode) (fun _ => True)) as Hproxy.
  { intros mode t <- Ht. unfold proxy_via_helper. eapply spec_bind; [by eapply spec_attempt|]. intros [e|[]] _;
      [apply spec_throw|by apply spec_ret]. }
  destruct (tr_mode request), helper; [eapply Hproxy; [reflexivity|]| |eapply Hproxy; [reflexivity|]|];
    apply push_receive || apply push_sync.
Qed.
End Push.

(** A destination in scope lies below an allowed path. *)
Lemma canonical_base m base : wf_fs m -> dir_at m base = true ->
  canonicalize_lexical (H := tree_fs m) (abs_names base) = abs_names base.
Proof.
  intros Hwf Hd. unfold canonicalize_lexical. change (canonicalize (abs_names base)) with (canonicalize_in m (abs_names base)).
  by rewrite (canonicalize_dir m Hwf base Hd).
Qed.
Lemma scope_root m sandbox base : wf_fs m -> dir_at m base = true -> allowed_paths sandbox <> [] ->
  enforce_transfer_policy m sandbox (abs_names base) true = true ->
  exists p, p ∈ allowed_paths sandbox /\ path_starts_with (abs_names base) (canonicalize_lexical (H := tree_fs m) p) = true.
Proof.
  intros Hwf Hd Ha. unfold enforce_transfer_policy. cbn [andb]. destruct (read_only sandbox); [done|].
  unfold path_in_scope. rewrite canonical_base by done. destruct (allowed_paths sandbox) as [|p0 ps]; [done|]. cbn [is_empty].
  intros (r & Hin & Hpre)%existsb_exists. apply in_map_iff in Hin as (p & <- & Hin). exists p. split; [by apply list_elem_of_In|done].
Qed.
Lemma session_denied `{!FsEnv, !ZstdStream, !ErrText, !FileHash, !SendEnv, !Timing, !Homes}
    privileged request username version sandbox s base :
  resolve_host_path (tr_remote_path request) username = Some base ->
  enforce_transfer_policy (s_fs s) sandbox base (match tr_direction request with Push => true | Pull => false end) = false ->
  s_fs (host_transfer_session privileged request username version sandbox s).1 = s_fs s.
Proof.
  intros Hr He. unfold host_transfer_session. rewrite Hr. erewrite bind_ok by reflexivity. cbv beta zeta. rewrite He. reflexivity.
Qed.

Lemma starts_with_below base ns r : path_starts_with (abs_names base) r = true -> path_starts_with (abs_names (base ++ ns)) r = true.
Proof.
  unfold path_starts_with. rewrite !bool_decide_eq_true. intros Hp. etrans; [exact Hp|]. unfold abs_names.
  exists (map Normal ns). by rewrite map_app.
Qed.
Lemma push_session `{!FsEnv, !ZstdStream, !ErrText, !FileHash, !SendEnv, !Timing, !Homes}
    base m privileged request username version sandbox :
  tr_direction request = Push -> resolve_host_path (tr_remote_path request) username = Some (abs_names base) ->
  spec (holds base m) (host_transfer_session privileged request username version sandbox) (fun _ => True).
Proof.
  intros Hpush Hr. apply keep_session; [apply holds_in|apply holds_out|]. intros s b helper params _ Hb _. rewrite Hr in Hb.
  apply Some_inj in Hb as <-. by apply push_dispatch.
Qed.

(** C7.  A read-only peer changes nothing on the host: whatever it requests and sends, in either
    direction, with or without negotiation and with or without the helper process, the host's file
    system is the same after the session, whether it succeeds or fails. *)
Theorem read_only_session_changes_nothing `{!FsEnv, !ZstdStream, !ErrText, !FileHash, !SendEnv, !Timing, !Homes}
    privileged request username version sandbox s :
  read_only sandbox = true ->
  s_fs (host_transfer_session privileged request username version sandbox s).1 = s_fs s.
Proof.
  intros Hro. set (P := fun s' => s_fs s' = s_fs s).
  assert (spec P (host_transfer_session privileged request username version sandbox) (fun _ => True)) as Hspec;
    [|by apply (Hspec s)].
  apply keep_session; [done|done|]. intros s' base helper params _ _. unfold enforce_transfer_policy.
  destruct (tr_direction request) eqn:Hd; [by rewrite Hro|]. intros _. by apply keep_pull.
Qed.

(** C6.  A peer confined to some paths pushes only below them: with a policy that lists allowed paths, no
    message sequence without links, whatever it asks and whether or not the session succeeds, changes
    an entry that is not below one of them.  The destination is a directory without links below it. *)
Theorem scoped_push_stays_in_scope `{!FsEnv, !ZstdStream, !ErrText, !FileHash, !SendEnv, !Timing, !Homes}
    privileged request username version sandbox base m msgs out q :
  allowed_paths sandbox <> [] -> tr_direction request = Push ->
  resolve_host_path (tr_remote_path request) username = Some (abs_names base) ->
  wf_fs m -> dir_at m base = true -> Forall valid_name base ->
  (forall ns n, ns <> [] -> m !! (base ++ ns) = Some n -> is_link_node n = false) -> Forall tame_msg msgs ->
  (forall p, p ∈ allowed_paths sandbox ->
     path_starts_with (abs_names q) (canonicalize_lexical (H := tree_fs m) p) = false) ->
  s_fs (host_transfer_session privileged request username version sandbox
          {| s_fs := m; s_in := msgs; s_out := out |}).1 !! q = m !! q.
Proof.
  intros Ha Hpush Hr Hwf Hd Hv Hl Hm Hq. set (s := {| s_fs := m; s_in := msgs; s_out := out |}).
  destruct (decide (enforce_transfer_policy m sandbox (abs_names base) true = true)) as [Hok|Hno].
  2:{ rewrite (session_denied _ _ _ _ _ _ _ Hr); [done|]. rewrite Hpush. by apply not_true_is_false. }
  destruct (push_session base m privileged request username version sandbox Hpush Hr s) as [[Hc _] _].
  { split; [|done]. split; [done|done|intros ns n ? ?; by eapply Hl|done|done]. }
  apply (cf_outside _ _ _ Hc). clear Hc s. intros ns Hne ->.
  destruct (scope_root m sandbox base Hwf Hd Ha Hok) as (p & Hin & Hpre).
  specialize (Hq p Hin). by rewrite (starts_with_below base ns) in Hq.
Qed.

(** ** Instances *)
Definition demo_homes : Homes := {| home_dir_for_user := fun _ => None; dirs_home := Some (abs_names ["home"; "u"]%string) |}.
Definition demo_env_send : SendEnv := {| read_ready := fun _ _ => 1%nat; since_check := fun _ _ => 0 |}.
Definition demo_time : Timing :=
  {| drained := fun _ => 0%nat; drain_cut := fun _ => None; reader_extra := 0; reader_cut := None;
     misread := fun _ _ => []; sign_reads := fun _ => [] |}.
Definition demo_push : TransferRequest :=
  {| tr_mode := Copy true; tr_direction := Push; tr_remote_path := "dst"; tr_delete_extraneous := false; tr_dry_run := false |}%string.
Definition demo_session (sandbox : SandboxPolicy) : T unit :=
  host_transfer_session (H := demo_fs_env) (H0 := demo_zstd_stream) (H1 := demo_err_text) (H2 := demo_file_hash) (H3 := demo_env_send)
    (H4 := demo_time) (H5 := demo_homes) true demo_push None 0 sandbox.
Definition with_policy (ro : bool) (allowed : list Path) : SandboxPolicy :=
  {| read_only := ro; no_network := false; allowed_paths := allowed; allowed_commands := []; denied_commands := [] |}.
(** A push of a file into a directory of the destination. *)
Definition demo_push_msgs : list TransferMsg :=
  [FileHeader_ {| fh_path := "d/f"; fh_size := 1; fh_mode := 420; fh_mtime := 5 |}; FileData [9]; FileEnd; Done]%string.
Lemma read_only_session_changes_nothing_witness :
  s_fs (demo_session (with_policy true []) {| s_fs := demo_fs; s_in := demo_push_msgs; s_out := [] |}).1 = demo_fs.
Proof. apply (read_only_session_changes_nothing (H5 := demo_homes) true demo_push None 0 (with_policy true [])). reflexivity. Defined.
Lemma scoped_push_stays_in_scope_witness :
  s_fs (demo_session (with_policy false [abs_names demo_dest]) {| s_fs := demo_fs; s_in := demo_push_msgs; s_out := [] |}).1
    !! ["home"; "u"; "secret"]%string = Some (File [1] 384 1).
Proof.
  refine (eq_trans (scoped_push_stays_in_scope (H5 := demo_homes) true demo_push None 0 (with_policy false [abs_names demo_dest])
    demo_dest demo_fs demo_push_msgs [] ["home"; "u"; "secret"]%string _ _ _ demo_fs_wf _ _ _ _ _) _).
  - discriminate.
  - reflexivity.
  - by vm_compute.
  - by vm_compute.
  - apply (bool_decide_unpack _). by vm_compute.
  - intros ns n Hne Hn. apply elem_of_list_to_map_2 in Hn. rewrite !elem_of_cons in Hn.
    destruct Hn as [[= _ ->]|[[= _ ->]|[[= _ ->]|[[= _ ->]|[[= _ ->]|Hn]]]]]; try done. by apply elem_of_nil in Hn.
  - repeat constructor. by vm_compute.
  - intros p [->|Hp]%elem_of_cons; [by vm_compute|by apply elem_of_nil in Hp].
  - by vm_compute.
Defined.
(** The same push inside its scope does write. *)
Example demo_push_writes :
  s_fs (demo_session (with_policy false [abs_names demo_dest]) {| s_fs := demo_fs; s_in := demo_push_msgs; s_out := [] |}).1
    !! ["home"; "u"; "dst"; "d"; "f"]%string = Some (File [9] 420 5).
Proof. by vm_compute. Qed.
