(* ===== verification/TreeWf.v ===== *)
(** * TreeWf: sessions keep the file system well-formed
    (hop-core/src/transfer)

    Whatever a peer requests and sends, links included, the host's tree stays
    well-formed: every entry has valid names and a directory above it, which the theorems on
    receivers and walks assume of it. *)
From S2P Require Import Prelude Text Policy Delta Fs Listing Negotiate Receiver Confine Sender Sync Steps Session.
From Stdlib Require Import Ascii.
Local Open Scope Z_scope.

(** ** Paths from strings *)
Definition good (c : Component) : Prop := match c with Normal n => valid_name n | _ => True end.
Definition good_path (p : Path) : Prop := Forall good p.

Lemma plain_good c : plain_comp c -> good c.
Proof. by destruct c. Qed.
Lemma components_good s : good_path (components s).
Proof.
  pose proof (split_char_pieces "/" s) as Hp.
  assert (forall l, Forall (fun p => no_char "/" p = true) l -> good_path (omap (component_of false) l)) as Ho.
  { induction 1 as [|p l Hpp Hl IH]; [constructor|]. cbn. destruct (component_of false p) as [c|] eqn:E; [|done].
    constructor; [eapply plain_good, component_of_plain; eauto|done]. }
  destruct (is_absolute (components s)) eqn:Ha; [|eapply Forall_impl; [by apply components_plain|apply plain_good]].
  unfold components in *. destruct s as [|c s]; [done|]. destruct (ascii_dec c "/") as [->|Hc]; [constructor; [done|by apply Ho]|].
  assert (good_path (match split_char "/" (String c s) with [] => [] | p :: ps =>
    option_list (component_of true p) ++ omap (component_of false) ps end)) as Hf.
  { destruct (split_char "/" (String c s)) as [|p ps]; [constructor|]. apply Forall_cons in Hp as [Hp Hps].
    apply Forall_app. split; [|by apply Ho]. destruct (component_of true p) as [x|] eqn:E; [|constructor].
    cbn. constructor; [eapply plain_good, component_of_plain; eauto|constructor]. }
  destruct c as [[] [] [] [] [] [] [] []]; try exact Hf; done.
Qed.
Lemma abs_names_good p : Forall valid_name p -> good_path (abs_names p).
Proof. intros Hp. constructor; [done|]. by apply Forall_map. Qed.
Lemma path_join_good a b : good_path a -> good_path b -> good_path (path_join a b).
Proof.
  intros Ha Hb. unfold path_join. destruct (is_absolute b); [done|]. destruct a as [|c a]; [done|].
  apply Forall_app. split; [done|]. apply Forall_forall. intros x [_ Hx]%list_elem_of_filter.
  unfold good_path in Hb. rewrite Forall_forall in Hb. by apply Hb.
Qed.
Lemma parent_rev_good p c r : good_path p -> parent_rev (rev p) = Some (c, r) -> good_path (rev r).
Proof.
  intros Hp E. apply Forall_rev. assert (Forall good (rev p)) as Hr by (by apply Forall_rev).
  destruct (rev p) as [|x l]; [done|]. apply Forall_cons in Hr as [_ Hl]. by destruct x; cbn in E; try done; injection E as _ <-.
Qed.
Lemma path_parent_good p q : good_path p -> path_parent p = Some q -> good_path q.
Proof.
  intros Hp. unfold path_parent. destruct (parent_rev (rev p)) as [[c r]|] eqn:E; [|done]. intros [= <-].
  by eapply parent_rev_good.
Qed.
Lemma file_name_valid p n : good_path p -> file_name p = Some n -> valid_name n.
Proof.
  intros Hp. unfold file_name. assert (Forall good (rev p)) as Hr by (by apply Forall_rev).
  destruct (rev p) as [|c l]; [done|]. apply Forall_cons in Hr as [Hc _]. destruct c; try done. by intros [= <-].
Qed.
Lemma tmp_name_good p : good_path p -> good_path (tmp_name p).
Proof.
  intros Hp. unfold tmp_name, with_file_name. apply Forall_app. split.
  - destruct (file_name p); [|done]. unfold path_pop. destruct (parent_rev (rev p)) as [[c r]|] eqn:E; [by eapply parent_rev_good|done].
  - repeat constructor; try done. cbn. destruct (file_name p) as [n|] eqn:E; [|done]. apply file_name_valid in E as (_ & _ & _ & ?); [|done].
    cbn. by rewrite no_char_sapp.
Qed.

(** ** Resolution in a well-formed tree *)
Definition sound_found (m : fs) (r : found) : Prop :=
  match r with
  | At p => is_Some (node_at m p) /\ Forall valid_name p
  | Missing d n => dir_at m d = true /\ Forall valid_name d /\ valid_name n /\ m !! (d ++ [n]) = None
  | Broken _ => True
  end.
Section Resolve.
Context (m : fs) (Hwf : wf_fs m).
Lemma dir_removelast cur : dir_at m cur = true -> dir_at m (removelast cur) = true.
Proof.
  intros Hd. destruct cur as [|x r _] using rev_ind; [done|]. rewrite removelast_last. by eapply dir_at_app.
Qed.
Lemma valid_removelast (cur : list string) : Forall valid_name cur -> Forall valid_name (removelast cur).
Proof. intros Hv. destruct cur as [|x r _] using rev_ind; [done|]. rewrite removelast_last. by apply Forall_app in Hv as [? _]. Qed.
Lemma resolve_sound l f : forall comps cur, dir_at m cur = true -> Forall valid_name cur -> good_path comps ->
  sound_found m (resolve l m f cur comps).
Proof.
  induction l as [l IHl] using lt_wf_ind. induction comps as [|c comps IH]; intros cur Hd Hv Hg.
  { rewrite resolve_nil. split; [by apply dir_at_Some|done]. }
  apply Forall_cons in Hg as [Hc Hg]. destruct c as [| | |n].
  - rewrite resolve_root. by apply IH; [|constructor|].
  - replace (resolve l m f cur (CurDir :: comps)) with (resolve l m f cur comps) by (by destruct l). by apply IH.
  - replace (resolve l m f cur (ParentDir :: comps)) with (resolve l m f (removelast cur) comps) by (by destruct l).
    apply IH; [by apply dir_removelast|by apply valid_removelast|done].
  - rewrite resolve_normal. assert (Forall valid_name (cur ++ [n])) as Hv' by (apply Forall_app; split; [done|by apply Forall_singleton]).
    assert (forall nd, m !! (cur ++ [n]) = Some nd -> is_Some (node_at m (cur ++ [n]))) as Hs.
    { intros nd E. rewrite node_at_cons by (by destruct cur). by eexists. }
    destruct (m !! (cur ++ [n])) as [[c md t|md t|tg t]|] eqn:E.
    + destruct comps; [|done]. split; [by eapply Hs|done].
    + apply IH; [|done|done]. apply dir_at_lookup; [by destruct cur|by eexists _, _].
    + assert (sound_found m (match l with O => Broken false | S l' => resolve l' m f cur (components tg ++ comps) end)) as Hlink.
      { destruct l as [|l']; [done|]. apply IHl; [lia|done|done|]. apply Forall_app. split; [apply components_good|done]. }
      destruct comps, f; try exact Hlink. split; [by eapply Hs|done].
    + destruct comps; [|done]. by split_and!.
Qed.
Lemma stat_sound p : good_path p -> sound_found m (stat m p).
Proof. intros Hp. by apply resolve_sound. Qed.
Lemma lstat_sound p : good_path p -> sound_found m (lstat m p).
Proof. intros Hp. by apply resolve_sound. Qed.
End Resolve.

(** ** The operations keep a tree well-formed *)
Section Ops.
Context `{!FsEnv}.
Lemma wf_replace m q old nd : wf_fs m -> m !! q = Some old -> (is_dir_node old = true -> is_dir_node nd = true) ->
  wf_fs (<[q := nd]> m).
Proof.
  intros Hwf E Hk. destruct (wf_names m Hwf q) as [Hne Hv]; [by eexists|]. destruct (split_last q Hne) as (d & n & ->).
  pose proof Hv as [Hvd Hvn]%Forall_app. apply Forall_cons in Hvn as [Hvn _].
  apply wf_insert; [done|apply (wf_parent m Hwf d n); by eexists|done|done|].
  intros (md & t & E')%dir_at_lookup; [|by destruct d]. rewrite E in E'. injection E' as ->. by apply Hk.
Qed.
Lemma wf_add m d n nd : wf_fs m -> sound_found m (Missing d n) -> wf_fs (<[d ++ [n] := nd]> m).
Proof.
  intros Hwf (Hd & Hv & Hn & E). apply wf_insert; [done..|]. rewrite dir_at_none; [done|done|by destruct d].
Qed.
Lemma mkdir_wf m p m' : wf_fs m -> good_path p -> mkdir m p = inr m' -> wf_fs m'.
Proof.
  intros Hwf Hp. unfold mkdir. pose proof (lstat_sound m Hwf p Hp) as Hs. destruct (lstat m p) as [q|d n|b]; try done.
  intros [= <-]. by apply wf_add.
Qed.
Lemma create_dir_all_wf m p m' : wf_fs m -> good_path p -> create_dir_all m p = Some m' -> wf_fs m'.
Proof.
  intros Hwf Hp. unfold create_dir_all. assert (Forall good (rev p)) as Hr by (by apply Forall_rev). clear Hp.
  revert m'. induction (rev p) as [|c rp IH]; intros m'; [by intros [= <-]|]. cbn [create_dir_all_rev].
  assert (good_path (rev (c :: rp))) as Hg by (by apply Forall_rev). apply Forall_cons in Hr as [_ Hr].
  destruct (mkdir m (rev (c :: rp))) as [[]|m1] eqn:E1.
  - assert (match create_dir_all_rev m rp with
            | None => None
            | Some m1 => match mkdir m1 (rev (c :: rp)) with
                         | inr m2 => Some m2
                         | inl _ => if is_dir m1 (rev (c :: rp)) then Some m1 else None
                         end
            end = Some m' -> wf_fs m') as Hgo.
    { destruct (create_dir_all_rev m rp) as [m1|] eqn:E2; [|done]. specialize (IH Hr m1 eq_refl).
      destruct (mkdir m1 (rev (c :: rp))) as [b|m2] eqn:E3; [case_match; [|done]; by intros [= <-]|].
      intros [= <-]. by eapply mkdir_wf. }
    by destruct c.
  - case_match; [|done]. by intros [= <-].
  - intros [= <-]. by eapply mkdir_wf.
Qed.
Lemma file_create_wf m p q m' : wf_fs m -> good_path p -> file_create m p = Some (q, m') -> wf_fs m'.
Proof.
  intros Hwf Hp. unfold file_create. pose proof (stat_sound m Hwf p Hp) as Hs. destruct (stat m p) as [r|d n|b]; [| |done].
  - destruct (m !! r) as [[c md t|md t|tg t]|] eqn:E; try done. intros [= <- <-]. by eapply wf_replace.
  - intros [= <- <-]. by apply wf_add.
Qed.
Lemma write_all_wf m q data : wf_fs m -> wf_fs (write_all m q data).
Proof. intros Hwf. unfold write_all. destruct (m !! q) as [[]|] eqn:E; try done. by eapply wf_replace. Qed.
Lemma rename_wf m a b m' : wf_fs m -> good_path a -> good_path b -> rename m a b = Some m' -> wf_fs m'.
Proof.
  intros Hwf Ha Hb. unfold rename. destruct (lstat m a) as [qs| |] eqn:Ea; [|done..].
  destruct (m !! qs) as [nd|] eqn:En; [|done]. destruct (is_dir_node nd) eqn:Hd; [by destruct nd|].
  assert (qs <> []) as Hq by (apply (wf_names m Hwf); by eexists).
  assert (dir_at m qs = false) as Hqs by (unfold dir_at; rewrite node_at_cons by done; by rewrite En).
  pose proof (wf_delete m qs Hwf Hqs) as Hwf'. pose proof (lstat_sound m Hwf b Hb) as Hs.
  enough (match lstat m b with
          | Missing d nm => Some (<[d ++ [nm] := nd]> (delete qs m))
          | At qd => if dir_at m qd then None else Some (<[qd := nd]> (delete qs m))
          | Broken _ => None
          end = Some m' -> wf_fs m') as Hgoal by (by destruct nd).
  destruct (lstat m b) as [qd|d n|x]; [| |done].
  - destruct (dir_at m qd) eqn:Hdd; [done|]. intros [= <-]. destruct Hs as [Hs Hv].
    destruct qd as [|x0 qd0]; [done|]. destruct (split_last (x0 :: qd0)) as (d & n & E); [done|]. rewrite E in *.
    rewrite node_at_cons in Hs by (by destruct d). pose proof Hv as [Hvd Hvn]%Forall_app. apply Forall_cons in Hvn as [Hvn _].
    apply wf_insert; [done|by apply dir_at_delete, (wf_parent m Hwf) with n|done|done|].
    intros Hx. unfold dir_at in Hx, Hdd. rewrite node_at_cons in Hx, Hdd by (by destruct d).
    destruct (decide (qs = d ++ [n])) as [->|Hne]; [by rewrite lookup_delete_eq in Hx|]. rewrite lookup_delete_ne in Hx by done. by rewrite Hx in Hdd.
  - intros [= <-]. destruct Hs as (Hs & Hv & Hn & E). apply wf_insert; [done|by apply dir_at_delete|done|done|].
    rewrite dir_at_none; [done| |by destruct d]. destruct (decide (qs = d ++ [n])) as [->|Hne]; [by rewrite lookup_delete_eq|by rewrite lookup_delete_ne].
Qed.
Lemma remove_file_wf m p m' : wf_fs m -> remove_file m p = Some m' -> wf_fs m'.
Proof.
  intros Hwf. unfold remove_file. destruct (lstat m p) as [q| |]; [|done..]. destruct (dir_at m q) eqn:E; [done|].
  intros [= <-]. by apply wf_delete.
Qed.
Lemma prune_wf m q : wf_fs m -> wf_fs (prune q m).
Proof.
  intros Hwf. assert (forall p, is_Some (prune q m !! p) -> is_Some (m !! p) /\ ~ q `prefix_of` p) as Hl.
  { intros p [nd E]. rewrite lookup_prune in E. case_bool_decide; [done|]. split; [by eexists|done]. }
  split; [intros p [Hp _]%Hl; by apply (wf_names m Hwf)|]. intros p n [Hp Hq]%Hl.
  apply (wf_parent m Hwf) in Hp. destruct p as [|x p]; [done|]. apply dir_at_lookup in Hp as (md & t & E); [|done].
  apply dir_at_lookup; [done|]. exists md, t. rewrite lookup_prune, bool_decide_eq_false_2; [done|].
  intros Hx. apply Hq. by apply prefix_app_r.
Qed.
Lemma remove_dir_all_wf m p m' : wf_fs m -> remove_dir_all m p = Some m' -> wf_fs m'.
Proof.
  intros Hwf. unfold remove_dir_all. destruct (lstat m p) as [[|x q]| |]; [done| |done..]. intros [= <-]. by apply (prune_wf m (x :: q)).
Qed.
Lemma symlink_wf m tg p m' : wf_fs m -> good_path p -> symlink m tg p = Some m' -> wf_fs m'.
Proof.
  intros Hwf Hp. unfold symlink. pose proof (lstat_sound m Hwf p Hp) as Hs. destruct (lstat m p) as [q|d n|b]; try done.
  case_decide; [done|]. intros [= <-]. by apply wf_add.
Qed.
Lemma set_meta_wf m p mode mtime : wf_fs m -> wf_fs (set_meta m p mode mtime).
Proof.
  intros Hwf. unfold set_meta. destruct (stat m p) as [q| |]; [|done..]. destruct (m !! q) as [nd|] eqn:E.
  - assert (alter (set_node_meta mode mtime) q m = <[q := set_node_meta mode mtime nd]> m) as ->.
    { apply map_eq. intros r. destruct (decide (q = r)) as [<-|Hq];
        [by rewrite lookup_alter_eq, lookup_insert_eq, E|by rewrite lookup_alter_ne, lookup_insert_ne]. }
    eapply wf_replace; [done|exact E|by destruct nd].
  - assert (alter (set_node_meta mode mtime) q m = m) as ->; [|done].
    apply map_eq. intros r. destruct (decide (q = r)) as [<-|Hq]; [by rewrite lookup_alter_eq, E|by rewrite lookup_alter_ne].
Qed.
End Ops.

(** ** Receiving *)
Section Receive.
Context `{!FsEnv, !ZstdStream, !ErrText, !FileHash, !SendEnv, !Timing}.
Definition tree_ok (s : Sess) : Prop := wf_fs (s_fs s).
Local Abbreviation keeps t := (spec tree_ok t (fun _ => True)).
Lemma tree_in m i o i' : tree_ok (Build_Sess m i o) -> i' `suffix_of` i -> tree_ok (Build_Sess m i' o).
Proof. done. Qed.
Lemma tree_out m i o o' : tree_ok (Build_Sess m i o) -> tree_ok (Build_Sess m i o').
Proof. done. Qed.
Lemma wf_io f : (forall m m', wf_fs m -> f m = Some m' -> wf_fs m') -> keeps (io f).
Proof. intros Hf s Hs. unfold io. destruct (f (s_fs s)) as [m'|] eqn:E; [|done]. split; [by eapply Hf|done]. Qed.
Lemma wf_lift f : (forall m, wf_fs m -> wf_fs (f m)) -> keeps (lift_io f).
Proof. intros Hf. apply wf_io. intros m m' Hm [= <-]. by apply Hf. Qed.
Lemma wf_ignore f : (forall m m', wf_fs m -> f m = Some m' -> wf_fs m') -> keeps (ignore_io f).
Proof. intros Hf. apply wf_lift. intros m Hm. destruct (f m) as [m'|] eqn:E; [by eapply Hf|done]. Qed.
Lemma wf_put m : wf_fs m -> keeps (put_fs m).
Proof. intros Hm s _. by split. Qed.

(** What [safe_join] returns is a path of valid names. *)
Lemma safe_join_good m base rel p : wf_fs m -> good_path base -> safe_join m base rel = inr p -> good_path p.
Proof.
  intros Hwf Hb. unfold safe_join. destruct (_ || _); [done|].
  set (joined := path_join base (components rel)). assert (good_path joined) as Hj by (apply path_join_good; [done|apply components_good]).
  assert (forall r : transfer_error + Path, (forall q, r = inr q -> good_path q) ->
    match r with inl e => inl e | inr q => if exists_ m q && negb (path_starts_with q base) then inl (PathTraversal rel) else inr q end = inr p ->
    good_path p) as Hend.
  { intros [e|q] Hq; [done|]. destruct (_ && _); [done|]. intros [= <-]. by apply Hq. }
  apply Hend. intros q. destruct (exists_ m joined).
  - unfold canonicalize_in. pose proof (stat_sound m Hwf joined Hj) as Hs. destruct (stat m joined); try done.
    intros [= <-]. apply abs_names_good. by destruct Hs.
  - destruct (path_parent joined) as [pp|]; [|by intros [= <-]]. destruct (exists_ m pp); [|by intros [= <-]].
    destruct (canonicalize_in m pp); [|done]. destruct (path_starts_with _ _); [|done]. by intros [= <-].
Qed.
Lemma wf_join base rel : good_path base -> spec tree_ok (join_checked base rel) good_path.
Proof.
  intros Hb. eapply spec_bind; [apply spec_get_fs|]. intros m (s & Hs & <-).
  destruct (safe_join (s_fs s) base rel) as [e|p] eqn:E; [apply spec_throw|]. apply spec_ret. by eapply safe_join_good.
Qed.

Lemma wf_data fuel q : forall dec w, keeps (data_loop fuel q dec w).
Proof.
  induction fuel as [|f IH]; intros dec w; [apply spec_throw|]. cbn [data_loop].
  eapply spec_bind; [apply (keep_read tree_ok tree_in)|]. intros msg _. destruct msg; try apply spec_throw.
  - eapply spec_bind with (Q := fun _ => True); [|intros; by apply IH].
    destruct dec as [d|]; [destruct (zdec_write d data) as [[d' out]|]; [|apply spec_throw]|];
      (eapply spec_bind; [apply wf_lift; intros m Hc; by apply write_all_wf|intros; by apply spec_ret]).
  - eapply spec_bind with (Q := fun _ => True); [|intros; by apply spec_ret].
    destruct dec as [d|]; [destruct (zdec_flush d); [|apply spec_throw]|by apply spec_ret].
    apply wf_lift. intros m Hc. by apply write_all_wf.
Qed.
Lemma wf_file_data p params : good_path p -> keeps (receive_file_data p params).
Proof.
  intros Hp. eapply spec_bind; [apply spec_get_fs|]. intros m (s & Hs & <-).
  destruct (file_create _ _) as [[q m1]|] eqn:E; [|apply spec_throw].
  eapply spec_bind; [by eapply wf_put, file_create_wf|]. intros _ _. eapply spec_bind; [apply spec_pending|]. intros n _. apply wf_data.
Qed.
Lemma wf_finish tmp target mode mtime path res size saved : good_path tmp -> good_path target ->
  keeps (finish_file tmp target mode mtime path res size saved).
Proof.
  intros Ht Hg. destruct res as [e|w]; cbn [finish_file].
  - eapply spec_bind; [apply wf_ignore; intros m m' Hc; by apply remove_file_wf|]. intros _ _.
    eapply spec_bind; [apply (keep_write tree_ok tree_out)|]. intros _ _. by apply spec_ret.
  - eapply spec_bind; [apply wf_io; intros m m' Hc; by apply rename_wf|]. intros _ _.
    eapply spec_bind; [apply wf_lift; intros m Hc; by apply set_meta_wf|]. intros _ _.
    eapply spec_bind; [apply (keep_write tree_ok tree_out)|]. intros _ _. by apply spec_ret.
Qed.
Lemma wf_collect fuel : forall ops, keeps (collect_ops fuel ops).
Proof.
  induction fuel as [|f IH]; intros ops; [apply spec_throw|]. cbn [collect_ops].
  eapply spec_bind; [apply (keep_read tree_ok tree_in)|]. intros msg _. destruct msg; try apply spec_throw; [apply IH|by apply spec_ret].
Qed.
Lemma wf_reconstruct old tmp ops : good_path tmp -> keeps (reconstruct_in old tmp ops).
Proof.
  intros Hp. eapply spec_bind; [apply spec_get_fs|]. intros m (s & Hs & <-).
  destruct (read_file (s_fs s) old); [|apply spec_throw]. destruct (file_create _ _) as [[q m1]|] eqn:E; [|apply spec_throw].
  destruct (Delta.reconstruct_file _ _ _) as [out w].
  eapply spec_bind; [eapply wf_put, write_all_wf, file_create_wf; eauto|]. intros _ _. by apply spec_ret.
Qed.
(** The directory above a target is made. *)
Lemma wf_make_parent p : good_path p ->
  keeps (match path_parent p with Some q => io (fun m => create_dir_all m q) | None => mret tt end).
Proof.
  intros Hp. destruct (path_parent p) as [q|] eqn:E; [|by apply spec_ret]. apply wf_io. intros m m' Hm.
  eapply create_dir_all_wf; [done|by eapply path_parent_good].
Qed.
Lemma wf_msg wd base params msg : good_path base -> keeps (receive_msg wd base params msg).
Proof.
  intros Hb. destruct msg; cbn [receive_msg]; try (by apply spec_ret); try apply spec_throw.
  - eapply spec_bind with (Q := fun _ => True); [|intros; by apply spec_ret]. unfold receive_header.
    eapply spec_bind; [by apply wf_join|]. intros p Hp. eapply spec_bind; [by apply wf_make_parent|]. intros _ _.
    eapply spec_bind; [eapply (spec_attempt tree_ok), wf_file_data; by apply tmp_name_good|].
    intros res _. apply wf_finish; [by apply tmp_name_good|done].
  - eapply spec_bind with (Q := fun _ => True); [|intros; by apply spec_ret]. unfold receive_directory.
    eapply spec_bind; [by apply wf_join|]. intros p Hp.
    eapply spec_bind; [apply wf_io; intros m m' Hm; by apply create_dir_all_wf|]. intros _ _.
    eapply spec_bind; [apply wf_lift; intros m Hc; by apply set_meta_wf|]. intros _ _.
    eapply spec_bind; [apply (keep_write tree_ok tree_out)|]. intros _ _. by apply spec_ret.
  - eapply spec_bind with (Q := fun _ => True); [|intros; by apply spec_ret]. unfold receive_delete.
    eapply spec_bind; [by apply wf_join|]. intros p Hp. eapply spec_bind; [apply keep_get_fs|]. intros m _.
    eapply spec_bind with (Q := fun _ => True).
    { destruct (is_dir m _); apply wf_ignore; intros m1 m2 Hc; [by apply remove_dir_all_wf|by apply remove_file_wf]. }
    intros _ _. eapply spec_bind; [apply (keep_write tree_ok tree_out)|]. intros _ _. by apply spec_ret.
  - eapply spec_bind with (Q := fun _ => True); [|intros; by apply spec_ret]. unfold receive_symlink.
    eapply spec_bind; [by apply wf_join|]. intros p Hp. destruct (negb _).
    { eapply spec_bind; [apply (keep_write tree_ok tree_out)|]. intros _ _. by apply spec_ret. }
    eapply spec_bind; [by apply wf_make_parent|]. intros _ _.
    eapply spec_bind; [apply wf_ignore; intros m1 m2 Hc; by apply remove_file_wf|]. intros _ _.
    eapply spec_bind; [apply wf_io; intros m1 m2 Hc; by apply symlink_wf|]. intros _ _.
    eapply spec_bind; [apply (keep_write tree_ok tree_out)|]. intros _ _. by apply spec_ret.
  - destruct wd; [|by apply spec_ret]. eapply spec_bind with (Q := fun _ => True); [|intros; by apply spec_ret].
    unfold receive_delta. eapply spec_bind; [by apply wf_join|]. intros p Hp.
    eapply spec_bind; [apply spec_pending|]. intros k _. eapply spec_bind; [apply wf_collect|]. intros ops _.
    eapply spec_bind; [eapply (spec_attempt tree_ok), wf_reconstruct; by apply tmp_name_good|].
    intros res _. apply wf_finish; [by apply tmp_name_good|done].
Qed.
Lemma wf_loop fuel wd base params : good_path base -> forall t sv, keeps (receive_loop fuel wd base params t sv).
Proof.
  intros Hb. induction fuel as [|f IH]; intros t sv; [apply spec_throw|]. cbn [receive_loop].
  eapply spec_bind; [apply (keep_read tree_ok tree_in)|]. intros msg _. eapply spec_bind; [by apply wf_msg|].
  intros [[b s]|] _; [apply IH|by apply spec_ret].
Qed.
Lemma wf_open_dest dest : good_path dest -> spec tree_ok (open_dest dest) good_path.
Proof.
  intros Hd. eapply spec_bind; [apply keep_get_fs|]. intros m _.
  eapply spec_bind with (Q := fun _ => True).
  { destruct (exists_ m dest); [by apply spec_ret|]. apply wf_io. intros m1 m2 Hm. by apply create_dir_all_wf. }
  intros _ _. eapply spec_bind; [apply spec_get_fs|]. intros m' (s & Hs & <-). unfold canonicalize_in.
  pose proof (stat_sound _ Hs dest Hd) as Hst. destruct (stat _ dest); try apply spec_throw. apply spec_ret, abs_names_good.
  by destruct Hst.
Qed.
Lemma wf_receive_files dest params : good_path dest -> keeps (receive_files dest params).
Proof.
  intros Hd. eapply spec_bind; [by apply wf_open_dest|]. intros p Hp. eapply spec_bind; [apply spec_pending|]. intros n _.
  eapply spec_bind; [by apply wf_loop|]. intros r _. by apply spec_ret.
Qed.
Lemma wf_signatures reads base cands files : good_path base -> keeps (send_signatures reads base cands files).
Proof.
  intros Hb. induction files as [|e files IH]; [by apply spec_ret|]. cbn [send_signatures].
  eapply spec_bind with (Q := fun _ => True); [|intros; apply IH]. destruct (_ || _); [by apply spec_ret|].
  destruct (bool_decide _); [|by apply spec_ret]. eapply spec_bind; [by apply wf_join|]. intros p _.
  eapply spec_bind; [apply keep_get_fs|]. intros m _. destruct (exists_ m p); [|by apply spec_ret].
  destruct (read_file m p); [apply (keep_write tree_ok tree_out)|apply spec_throw].
Qed.
Lemma wf_receive_delta reads dest cands files params : good_path dest ->
  keeps (receive_files_with_delta reads dest cands files params).
Proof.
  intros Hd. eapply spec_bind; [by apply wf_open_dest|]. intros p Hp. eapply spec_bind; [by apply wf_signatures|]. intros _ _.
  eapply spec_bind; [apply spec_pending|]. intros n _. by apply wf_loop.
Qed.
Lemma wf_host_receive dest params : good_path dest -> keeps (host_receive_files dest params).
Proof. intros Hd. eapply spec_bind; [by apply wf_receive_files|]. intros _ _. apply (keep_write tree_ok tree_out). Qed.
Lemma wf_host_sync dest params : good_path dest -> keeps (host_sync_receive dest params).
Proof.
  intros Hd. unfold host_sync_receive. eapply spec_bind; [apply keep_list_dest|]. intros l _.
  eapply spec_bind; [apply (keep_write tree_ok tree_out)|]. intros _ _.
  eapply spec_bind; [apply (keep_reading tree_ok tree_in); intros ?; apply suffix_read_plan|]. intros [[files ?] dry] _.
  eapply spec_bind; [apply (keep_write tree_ok tree_out)|]. intros _ _. destruct dry; [apply (keep_write tree_ok tree_out)|].
  eapply spec_bind with (Q := fun _ => True); [|intros; apply (keep_write tree_ok tree_out)]. unfold receive_planned.
  eapply spec_bind; [apply keep_get_fs|]. intros m _. destruct (decide _); [|by apply wf_receive_delta].
  eapply spec_bind; [by apply wf_receive_files|]. intros n _. by apply spec_ret.
Qed.
Lemma wf_dispatch dest request helper params : good_path dest -> keeps (host_dispatch dest request helper params).
Proof.
  intros Hd. destruct (tr_direction request) eqn:Ed; [|by apply keep_pull]. unfold host_dispatch. rewrite Ed.
  assert (forall mode t, run_transfer_helper mode dest params = t -> keeps t -> keeps (proxy_via_helper dest params mode)) as Hproxy.
  { intros mode t <- Ht. unfold proxy_via_helper. eapply spec_bind; [by eapply spec_attempt|]. intros [e|[]] _;
      [apply spec_throw|by apply spec_ret]. }
  destruct (tr_mode request), helper; [eapply Hproxy; [reflexivity|]| |eapply Hproxy; [reflexivity|]|];
    by apply wf_host_receive || by apply wf_host_sync.
Qed.
End Receive.

(** Home directories name proper paths. *)
Definition good_homes `{!Homes} : Prop :=
  (forall user p, home_dir_for_user user = Some p -> good_path p) /\ (forall p, dirs_home = Some p -> good_path p).
Lemma resolve_host_good `{!Homes} remote username p : good_homes -> resolve_host_path remote username = Some p -> good_path p.
Proof.
  intros [Hu Hd]. unfold resolve_host_path.
  assert (forall h, (match username with Some user => home_dir_for_user user | None => dirs_home end) = Some h -> good_path h) as Hh
    by (intros h; destruct username; [apply Hu|apply Hd]).
  destruct (match username with Some user => home_dir_for_user user | None => dirs_home end) as [h|]; cbn [fmap option_fmap option_map].
  - specialize (Hh h eq_refl). destruct (_ || _); [destruct (decide _)|destruct (starts_with "/" remote)]; intros [= <-];
      first [done | apply path_join_good; [done|apply components_good] | apply components_good].
  - destruct (_ || _); [by destruct (decide _)|]. destruct (starts_with "/" remote); [|done]. intros [= <-]. apply components_good.
Qed.

(** Transfer sessions preserve the shape of the file system: whatever a peer requests and sends,
    links and malformed paths included, in either direction and through either the daemon or the
    helper, every entry of the host's tree keeps a name made of valid components and a directory
    above it. *)
Theorem session_keeps_tree_wf `{!FsEnv, !ZstdStream, !ErrText, !FileHash, !SendEnv, !Timing, !Homes}
    privileged request username version sandbox s :
  good_homes -> wf_fs (s_fs s) ->
  wf_fs (s_fs (host_transfer_session privileged request username version sandbox s).1).
Proof.
  intros Hh Hs. refine (proj1 ((keep_session tree_ok tree_in tree_out privileged request username version sandbox _) s Hs)).
  intros s' base helper params _ Hr _. apply wf_dispatch. by eapply resolve_host_good.
Qed.
Lemma session_keeps_tree_wf_witness :
  wf_fs (s_fs (demo_session (with_policy false []) {| s_fs := demo_fs; s_in := demo_push_msgs; s_out := [] |}).1).
Proof.
  apply (session_keeps_tree_wf (H5 := demo_homes) true demo_push None 0 (with_policy false [])); [split|exact demo_fs_wf].
  - intros user p E. discriminate E.
  - intros p E. apply Some_inj in E as <-. apply abs_names_good, (bool_decide_unpack _). by vm_compute.
Defined.
