(* ===== verification/Table.v ===== *)
(** * Table: ordered tables and prefix scans

    The tables of the embedded database (the redb crate) as the datastore uses
    them: a finite map whose iteration and range scans visit the keys in order.
    Keys are strings (compared by their bytes), integers and pairs.  Reading a
    table that was never created gives what the empty table gives, and a range
    whose end is below its start holds nothing. *)
From S2P Require Import Prelude Text.
Local Open Scope Z_scope.

Class TableKey (K : Type) := {
  key_leb : K -> K -> bool;
  key_leb_total : forall a b, key_leb a b = true \/ key_leb b a = true;
  key_leb_trans : forall a b c, key_leb a b = true -> key_leb b c = true -> key_leb a c = true;
  key_leb_antisym : forall a b, key_leb a b = true -> key_leb b a = true -> a = b;
}.
Definition key_ltb {K} `{TableKey K} (a b : K) : bool := negb (key_leb b a).

#[export] Program Instance string_key : TableKey string := {| key_leb := str_leb |}.
Next Obligation. intros a b. apply lex_leb_total. Qed.
Next Obligation. intros a b c. apply lex_leb_trans. Qed.
Next Obligation. apply str_leb_antisym. Qed.
#[export] Program Instance Z_key : TableKey Z := {| key_leb := Z.leb |}.
Next Obligation. intros a b. cbn. rewrite !Z.leb_le. lia. Qed.
Next Obligation. intros a b c. cbn. rewrite !Z.leb_le. lia. Qed.
Next Obligation. intros a b. cbn. rewrite !Z.leb_le. lia. Qed.

Lemma key_leb_refl {K} `{TableKey K} (a : K) : key_leb a a = true.
Proof. by destruct (key_leb_total a a). Qed.
Lemma key_ltb_lt {K} `{TableKey K} (a b : K) : key_ltb a b = true <-> key_leb a b = true /\ a <> b.
Proof.
  unfold key_ltb. rewrite negb_true_iff. split.
  - intros Hb. destruct (key_leb_total a b); [|congruence]. split; [done|]. intros ->. by rewrite key_leb_refl in Hb.
  - intros [Ha Hne]. destruct (key_leb b a) eqn:E; [|done]. by destruct Hne; apply key_leb_antisym.
Qed.
Lemma key_lt_le_trans {K} `{TableKey K} (a b c : K) : key_ltb a b = true -> key_leb b c = true -> key_ltb a c = true.
Proof.
  rewrite !key_ltb_lt. intros [Hab Hne] Hbc. split; [by eapply key_leb_trans|]. intros ->. by destruct Hne; apply key_leb_antisym.
Qed.

(** Pairs are compared component by component. *)
Definition pair_leb {A B} `{TableKey A, TableKey B} (x y : A * B) : bool :=
  key_ltb x.1 y.1 || (key_leb x.1 y.1 && key_leb x.2 y.2).
Lemma pair_leb_spec {A B} `{TableKey A, TableKey B} (x y : A * B) :
  pair_leb x y = true <-> key_ltb x.1 y.1 = true \/ (x.1 = y.1 /\ key_leb x.2 y.2 = true).
Proof.
  unfold pair_leb. rewrite orb_true_iff, andb_true_iff. split.
  - intros [?|[H1 H2]]; [by left|]. unfold key_ltb. destruct (key_leb y.1 x.1) eqn:E; [|by left].
    right. split; [by apply key_leb_antisym|done].
  - intros [?|[-> ?]]; [by left|]. right. split; [apply key_leb_refl|done].
Qed.
#[export] Program Instance pair_key {A B} `{TableKey A, TableKey B} : TableKey (A * B) := {| key_leb := pair_leb |}.
Next Obligation.
  intros A B HA HB x y. rewrite !pair_leb_spec. unfold key_ltb.
  destruct (key_leb x.1 y.1) eqn:E1, (key_leb y.1 x.1) eqn:E2; cbn; auto.
  - assert (x.1 = y.1) as Hxy by (by apply key_leb_antisym). destruct (key_leb_total x.2 y.2); auto.
Qed.
Next Obligation.
  intros A B HA HB x y z. rewrite !pair_leb_spec, !key_ltb_lt. intros [[H1 N1]|[E1 H1]] [[H2 N2]|[E2 H2]].
  - left. split; [by eapply key_leb_trans|]. intros E. rewrite E in H1. destruct N2. by apply key_leb_antisym.
  - left. by rewrite <-E2.
  - left. by rewrite E1.
  - right. split; [congruence|by eapply key_leb_trans].
Qed.
Next Obligation.
  intros A B HA HB [a b] [c d]. rewrite !pair_leb_spec, !key_ltb_lt. cbn. intros [[H1 N1]|[-> H1]] [[H2 N2]|[E2 H2]].
  - destruct N1. by apply key_leb_antisym.
  - by destruct N1.
  - by destruct N2.
  - f_equal. by apply key_leb_antisym.
Qed.

Lemma pair_le_snd {A B} `{TableKey A, TableKey B} (a : A) (x y : B) : key_leb (a, x) (a, y) = key_leb x y.
Proof. cbn. unfold pair_leb, key_ltb. cbn. by rewrite key_leb_refl. Qed.
Lemma pair_lt_snd {A B} `{TableKey A, TableKey B} (a : A) (x y : B) : key_ltb (a, x) (a, y) = key_ltb x y.
Proof. unfold key_ltb. by rewrite pair_le_snd. Qed.
Lemma pair_lt_fst {A B} `{TableKey A, TableKey B} (a b : A) (x y : B) : key_ltb a b = true -> key_ltb (a, x) (b, y) = true.
Proof.
  intros Hab. apply key_ltb_lt. split; [apply pair_leb_spec; by left|]. intros [= -> _]. by apply key_ltb_lt in Hab as [_ []].
Qed.

(** ** Iteration *)
Section Tables.
Context {K V : Type} `{Countable K, TableKey K}.
Implicit Types t : gmap K V.

Definition row_le (x y : K * V) : Prop := key_leb x.1 y.1 = true.
#[local] Instance row_le_dec x y : Decision (row_le x y).
Proof. unfold row_le. apply _. Defined.
#[local] Instance row_le_total : Total row_le.
Proof. intros x y. apply key_leb_total. Qed.
#[local] Instance row_le_trans : Transitive row_le.
Proof. intros x y z. apply key_leb_trans. Qed.

Definition entries t : list (K * V) := merge_sort row_le (map_to_list t).
(** [range(lo..hi)], [range(lo..=hi)] and [range(lo..)]. *)
Definition scan (P : K -> bool) t : list (K * V) := List.filter (fun e => P e.1) (entries t).
Definition range (lo hi : K) t : list (K * V) := scan (fun k => key_leb lo k && key_ltb k hi) t.
Definition range_incl (lo hi : K) t : list (K * V) := scan (fun k => key_leb lo k && key_leb k hi) t.
Definition range_from (lo : K) t : list (K * V) := scan (fun k => key_leb lo k) t.

Lemma elem_of_entries t k v : (k, v) ∈ entries t <-> t !! k = Some v.
Proof. unfold entries. by rewrite merge_sort_Permutation, elem_of_map_to_list. Qed.
Lemma elem_of_scan P t k v : (k, v) ∈ scan P t <-> P k = true /\ t !! k = Some v.
Proof. unfold scan. rewrite list_elem_of_In, filter_In, <-list_elem_of_In, elem_of_entries. cbn. tauto. Qed.
Lemma NoDup_entries t : NoDup (entries t).*1.
Proof. unfold entries. rewrite merge_sort_Permutation. apply NoDup_fst_map_to_list. Qed.
Lemma entries_sorted t : StronglySorted row_le (entries t).
Proof. apply (StronglySorted_merge_sort row_le). Qed.

Lemma Sorted_filter_list {A} (R : relation A) (f : A -> bool) l : StronglySorted R l -> StronglySorted R (List.filter f l).
Proof.
  induction 1 as [|x l Hl IH Hx]; [constructor|]. cbn. destruct (f x); [|done]. constructor; [done|].
  apply Forall_forall. intros y Hy%list_elem_of_In%filter_In. rewrite Forall_forall in Hx. apply Hx, list_elem_of_In, Hy.
Qed.
Lemma scan_sorted P t : StronglySorted row_le (scan P t).
Proof. apply Sorted_filter_list, entries_sorted. Qed.
Lemma scan_keys P t : NoDup (scan P t).*1.
Proof.
  unfold scan. pose proof (NoDup_entries t) as Hn. induction (entries t) as [|[k v] l IH]; [constructor|]. cbn in Hn.
  apply NoDup_cons in Hn as [Hk Hn]. cbn. destruct (P k); [|by apply IH]. cbn. constructor; [|by apply IH].
  intros ([k' v'] & -> & Hin%list_elem_of_In%filter_In)%list_elem_of_fmap. apply Hk, list_elem_of_fmap.
  exists (k', v'). split; [done|apply list_elem_of_In, Hin].
Qed.
Lemma scan_ext P Q t : (forall k v, t !! k = Some v -> P k = Q k) -> scan P t = scan Q t.
Proof.
  intros HPQ. unfold scan. pose proof (fun e => proj1 (elem_of_entries t e.1 e.2)) as He.
  induction (entries t) as [|[k v] l IH]; [done|]. cbn. rewrite (HPQ k v) by (apply (He (k, v)); left).
  destruct (Q k); [f_equal|]; apply IH; intros [k' v'] Hin; apply (He (k', v')); by right.
Qed.
(** Rows in order with the same contents are the same rows. *)
Lemma rows_unique (l1 l2 : list (K * V)) : StronglySorted row_le l1 -> StronglySorted row_le l2 ->
  NoDup l1.*1 -> NoDup l2.*1 -> (forall e, e ∈ l1 <-> e ∈ l2) -> l1 = l2.
Proof.
  intros S1 S2 N1 N2 He. eapply (StronglySorted_unique_strong row_le); [|done..|].
  - intros x y Hx Hy L1 L2. assert (x.1 = y.1) as E by (by apply key_leb_antisym).
    apply He in Hy. by apply (NoDup_map_inj fst l1).
  - apply NoDup_Permutation; [by eapply NoDup_fmap_1..|done].
Qed.
End Tables.
Arguments row_le {K V _}.

(** ** Loops that stop at the first row outside a group *)
Fixpoint take_while {A} (P : A -> bool) (l : list A) : list A :=
  match l with [] => [] | x :: l => if P x then x :: take_while P l else [] end.
Lemma take_while_filter {A} (P : A -> bool) (R : relation A) l : StronglySorted R l ->
  (forall x y, x ∈ l -> y ∈ l -> R x y -> P y = true -> P x = true) -> take_while P l = List.filter P l.
Proof.
  induction 1 as [|x l Hl IH Hx]; [done|]. intros HP. cbn. destruct (P x) eqn:E.
  - f_equal. apply IH. intros a b Ha Hb. apply HP; by right.
  - symmetry. destruct (List.filter P l) as [|y r] eqn:Ef; [done|].
    assert (y ∈ List.filter P l) as Hy by (rewrite Ef; left). apply list_elem_of_In, filter_In in Hy as [Hy%list_elem_of_In Py].
    rewrite Forall_forall in Hx. rewrite (HP x y) in E; [done|left|by right|by apply Hx|done].
Qed.
Lemma filter_scan {K V} `{Countable K, TableKey K} P Q (t : gmap K V) :
  List.filter (fun e => Q e.1) (scan P t) = scan (fun k => P k && Q k) t.
Proof.
  unfold scan. induction (entries t) as [|[k v] l IH]; [done|]. cbn. destruct (P k); cbn; [destruct (Q k); by rewrite IH|done].
Qed.
Lemma scan_fmap {K V W} `{Countable K, TableKey K} P (f : V -> W) (t : gmap K V) :
  scan P (f <$> t) = map (fun e => (e.1, f e.2)) (scan P t).
Proof.
  apply rows_unique.
  - apply scan_sorted.
  - pose proof (scan_sorted P t) as Hs. induction Hs as [|x l Hl IH Hx]; [constructor|]. cbn. constructor; [done|].
    apply Forall_map. eapply Forall_impl; [exact Hx|]. done.
  - apply scan_keys.
  - change (NoDup (map fst (map (fun e : K * V => (e.1, f e.2)) (scan P t)))). rewrite map_map. apply scan_keys.
  - intros [k w]. rewrite elem_of_scan, lookup_fmap, list_elem_of_fmap. split.
    + intros [HP Hk]. destruct (t !! k) as [v|] eqn:E; [|done]. injection Hk as <-. exists (k, v). by rewrite elem_of_scan.
    + intros ([k' v] & [= -> ->] & [HP Hk]%elem_of_scan). cbn. by rewrite Hk.
Qed.
Lemma StronglySorted_map {A B} (f : A -> B) (R : relation A) (S : relation B) l :
  (forall x y, x ∈ l -> y ∈ l -> R x y -> S (f x) (f y)) -> StronglySorted R l -> StronglySorted S (map f l).
Proof.
  intros Hf. induction 1 as [|x l Hl IH Hx]; [constructor|]. cbn. constructor.
  - apply IH. intros a b Ha Hb. apply Hf; by right.
  - apply Forall_map, Forall_forall. intros y Hy. rewrite Forall_forall in Hx. apply Hf; [left|by right|by apply Hx].
Qed.
Lemma scan_all {K V} `{Countable K, TableKey K} (t : gmap K V) : scan (fun _ => true) t = entries t.
Proof. unfold scan. induction (entries t) as [|e l IH]; [done|]. cbn. by rewrite IH. Qed.
Lemma entries_fmap {K V W} `{Countable K, TableKey K} (f : V -> W) (t : gmap K V) :
  entries (f <$> t) = map (fun e => (e.1, f e.2)) (entries t).
Proof. by rewrite <-!scan_all, scan_fmap. Qed.
(** Writing a list of rows with different keys. *)
Lemma foldl_insert_in {K V} `{Countable K} (l : list (K * V)) (t : gmap K V) k v : NoDup l.*1 -> (k, v) ∈ l ->
  foldl (fun t e => <[e.1 := e.2]> t) t l !! k = Some v.
Proof.
  revert t. induction l as [|[k' v'] l IH] using rev_ind; intros t Hn Hk; [by apply elem_of_nil in Hk|].
  rewrite foldl_app. cbn. rewrite fmap_app in Hn. cbn in Hn. apply NoDup_app in Hn as (Hn & Hd & _).
  apply elem_of_app in Hk as [Hk|Hk%list_elem_of_singleton].
  - rewrite lookup_insert_ne; [by apply IH|]. intros ->. apply (Hd k); [|left]. by apply (list_elem_of_fmap_2 fst _ (k, v)).
  - injection Hk as -> ->. apply lookup_insert_eq.
Qed.
Lemma foldl_insert_out {K V} `{Countable K} (l : list (K * V)) (t : gmap K V) k : k ∉ l.*1 ->
  foldl (fun t e => <[e.1 := e.2]> t) t l !! k = t !! k.
Proof.
  revert t. induction l as [|[k' v'] l IH]; intros t Hk; [done|]. cbn in *. apply not_elem_of_cons in Hk as [Hne Hk].
  rewrite IH by done. by rewrite lookup_insert_ne.
Qed.
Lemma NoDup_omap_keys {K V W} (f : K * V -> option (K * W)) (l : list (K * V)) :
  (forall e r, f e = Some r -> r.1 = e.1) -> NoDup l.*1 -> NoDup (omap f l).*1.
Proof.
  intros Hf. induction l as [|e l IH]; [constructor|]. cbn. intros [He Hn]%NoDup_cons. destruct (f e) as [r|] eqn:E; [|by apply IH].
  cbn. constructor; [|by apply IH]. rewrite (Hf e r E). intros (r' & Er & Hr)%list_elem_of_fmap.
  apply list_elem_of_omap in Hr as (e' & He' & E'). apply He. rewrite Er, (Hf e' r' E'). by apply list_elem_of_fmap_2.
Qed.
