(* ===== verification/Datastore.v ===== *)
(** * Datastore: key-value, time-series, secret and audit tables
    (hop-core/src/datastore, hop-core/src/audit.rs)

    The local operations of the embedded datastore over ordered tables.  bincode,
    serde_json and the cipher are interfaces with the laws the code relies on: what
    is encoded decodes, what is sealed opens.  The clock is an argument.  The
    audit sequence counter belongs to the process, not to the database. *)
From S2P Require Import Prelude Text Policy Table.
From Stdlib Require Import Ascii.
Local Open Scope Z_scope.

(** ** Records *)
Record KvEntry := { kv_value : bytes; content_type : string; updated_at : Z }.
(** The bits of the f64 and the tags. *)
Record MetricPoint := { mp_value : Z; mp_tags : gmap string string }.
Record TimeSeriesQuery := {
  q_metric : string; q_start : Z; q_end : Z; tags_filter : option (gmap string string); q_limit : option nat;
}.
Record SealedSecret := { ciphertext : bytes; nonce : bytes; sealed_at : Z }.

Inductive AuditCategory := Connection | SessionCat | ExecCat | TransferCat | Reach | Flow | Membership | ConfigCat.
#[export] Instance AuditCategory_eq_dec : EqDecision AuditCategory.
Proof. solve_decision. Defined.
Inductive AuditOutcome := Success | Failure | Allow | Deny | InfoOutcome.
Inductive AuditLevel := LevelOff | Security | Connections | Flows.
Record AuditEvent := {
  ts_ms : Z;
  category : AuditCategory;
  action : string;
  outcome : AuditOutcome;
  actor : option string;
  actor_user : option string;
  target : option string;
  ev_peer : option string;
  bytes_tx : option Z;
  bytes_rx : option Z;
  ev_path : option string;
  detail : option string;
}.
Record AuditQuery := {
  q_category : option AuditCategory; since_ms : option Z; until_ms : option Z; q_actor : option string; a_limit : option nat;
}.

(** ** Crates *)

(** bincode on one type: encoding, and decoding with the number of bytes read. *)
Class Bincode (T : Type) := { enc : T -> bytes; dec : bytes -> option (T * nat) }.
Class BincodeLaws (T : Type) `{!Bincode T} : Prop :=
  dec_enc (x : T) rest : dec (enc x ++ rest) = Some (x, length (enc x)).
Lemma dec_enc_whole {T} `{BincodeLaws T} (x : T) : fst <$> dec (enc x) = Some x.
Proof. rewrite <-(app_nil_r (enc x)), dec_enc. done. Qed.

(** serde_json on events and ChaCha20-Poly1305. *)
Class AuditJson := {
  event_json : AuditEvent -> bytes;
  json_event : bytes -> option AuditEvent;
  json_roundtrip : forall e, json_event (event_json e) = Some e;
}.
Class Aead := {
  aead_seal : bytes -> bytes -> bytes -> bytes;
  aead_open : bytes -> bytes -> bytes -> option bytes;
  aead_roundtrip : forall key nonce plain, aead_open key nonce (aead_seal key nonce plain) = Some plain;
}.

(** ** The store *)
Record Datastore := {
  kv_table : gmap (string * string) bytes;
  ts_table : gmap (string * Z) bytes;
  audit_table : gmap (string * Z) bytes;
  cron_table : gmap string bytes;
  cron_runs_table : gmap (string * Z) bytes;
  secrets_table : gmap string bytes;
  secrets_v2_table : gmap (string * string) bytes;
  secrets_key : option bytes;
  audit_seq : Z;
}.
Definition set_kv t (d : Datastore) : Datastore :=
  {| kv_table := t; ts_table := ts_table d; audit_table := audit_table d; cron_table := cron_table d;
     cron_runs_table := cron_runs_table d; secrets_table := secrets_table d; secrets_v2_table := secrets_v2_table d;
     secrets_key := secrets_key d; audit_seq := audit_seq d |}.
Definition set_ts t (d : Datastore) : Datastore :=
  {| kv_table := kv_table d; ts_table := t; audit_table := audit_table d; cron_table := cron_table d;
     cron_runs_table := cron_runs_table d; secrets_table := secrets_table d; secrets_v2_table := secrets_v2_table d;
     secrets_key := secrets_key d; audit_seq := audit_seq d |}.
Definition set_audit t s (d : Datastore) : Datastore :=
  {| kv_table := kv_table d; ts_table := ts_table d; audit_table := t; cron_table := cron_table d;
     cron_runs_table := cron_runs_table d; secrets_table := secrets_table d; secrets_v2_table := secrets_v2_table d;
     secrets_key := secrets_key d; audit_seq := s |}.
Definition set_cron t r (d : Datastore) : Datastore :=
  {| kv_table := kv_table d; ts_table := ts_table d; audit_table := audit_table d; cron_table := t;
     cron_runs_table := r; secrets_table := secrets_table d; secrets_v2_table := secrets_v2_table d;
     secrets_key := secrets_key d; audit_seq := audit_seq d |}.
Definition set_secrets t2 (d : Datastore) : Datastore :=
  {| kv_table := kv_table d; ts_table := ts_table d; audit_table := audit_table d; cron_table := cron_table d;
     cron_runs_table := cron_runs_table d; secrets_table := secrets_table d; secrets_v2_table := t2;
     secrets_key := secrets_key d; audit_seq := audit_seq d |}.
Definition set_legacy_secrets t (d : Datastore) : Datastore :=
  {| kv_table := kv_table d; ts_table := ts_table d; audit_table := audit_table d; cron_table := cron_table d;
     cron_runs_table := cron_runs_table d; secrets_table := t; secrets_v2_table := secrets_v2_table d;
     secrets_key := secrets_key d; audit_seq := audit_seq d |}.

Inductive DsErr := BadRecord | NoSecretsKey | WrongKey | BadSchedule | JobNotFound | TrailingBytes.
Abbreviation ds A := (rust DsErr A).
Definition or_err {A} (e : DsErr) (o : option A) : ds A := match o with Some a => Ok a | None => Err e end.
Definition decode {T} `{Bincode T} (b : bytes) : ds T := or_err BadRecord (fst <$> dec b).

Section Datastore.
Context `{!Bincode KvEntry, !Bincode MetricPoint, !Bincode SealedSecret, !AuditJson, !Aead}.
Implicit Types d : Datastore.

(** ** Key-value entries (kv.rs) *)
Definition kv_get d (ns key : string) : ds (option KvEntry) :=
  match kv_table d !! (ns, key) with
  | Some b => e ← decode b; Ok (Some e)
  | None => Ok None
  end.
Definition kv_set d (ns key : string) (e : KvEntry) : Datastore :=
  set_kv (<[(ns, key) := enc e]> (kv_table d)) d.
Definition kv_delete d (ns key : string) : Datastore * bool :=
  (set_kv (delete (ns, key) (kv_table d)) d, bool_decide (is_Some (kv_table d !! (ns, key)))).

(** The increment of the last byte that has room, dropping the ones after it. *)
Fixpoint increment_rev (rev_bytes : bytes) : option bytes :=
  match rev_bytes with
  | [] => None
  | b :: r => if b <? 255 then Some (rev (b + 1 :: r)) else increment_rev r
  end.
Definition prefix_successor (prefix : string) : option string :=
  match prefix with
  | EmptyString => None
  | _ => utf8_lossy <$> increment_rev (rev (str_bytes prefix))
  end.

Fixpoint kv_list_loop (ns prefix : string) (l : list ((string * string) * bytes)) (acc : list (string * KvEntry)) :
    ds (list (string * KvEntry)) :=
  match l with
  | [] => Ok acc
  | ((item_ns, item_key), b) :: l =>
      if negb (bool_decide (item_ns = ns)) then Ok acc else
      if negb (starts_with prefix item_key) then Ok acc else
      e ← decode b;
      kv_list_loop ns prefix l (acc ++ [(item_key, e)])
  end.
Definition kv_list d (ns prefix : string) : ds (list (string * KvEntry)) :=
  let start := (ns, prefix) in
  let rows := match prefix_successor prefix with
              | Some e => range start (ns, e) (kv_table d)
              | None =>
                  match prefix_successor ns with
                  | Some ns_e => range start (ns_e, EmptyString) (kv_table d)
                  | None => range_from start (kv_table d)
                  end
              end in
  kv_list_loop ns prefix rows [].

(** ** Time series (timeseries.rs, retention.rs) *)
Definition ts_insert_at d (metric : string) (timestamp : Z) (p : MetricPoint) : Datastore :=
  set_ts (<[(metric, timestamp) := enc p]> (ts_table d)) d.
Definition ts_insert d (now_ms : Z) (metric : string) (p : MetricPoint) : Datastore :=
  ts_insert_at d metric now_ms p.

Definition tags_match (filter : option (gmap string string)) (p : MetricPoint) : bool :=
  match filter with
  | None => true
  | Some f => bool_decide (map_Forall (fun k v => mp_tags p !! k = Some v) f)
  end.
Fixpoint ts_query_loop (q : TimeSeriesQuery) (l : list ((string * Z) * bytes)) (acc : list (Z * MetricPoint)) :
    ds (list (Z * MetricPoint)) :=
  match l with
  | [] => Ok acc
  | ((item_metric, timestamp), b) :: l =>
      if negb (bool_decide (item_metric = q_metric q)) then Ok acc else
      p ← decode b;
      if negb (tags_match (tags_filter q) p) then ts_query_loop q l acc else
      let acc := acc ++ [(timestamp, p)] in
      if match q_limit q with Some limit => (limit <=? length acc)%nat | None => false end then Ok acc
      else ts_query_loop q l acc
  end.
Definition ts_query d (q : TimeSeriesQuery) : ds (list (Z * MetricPoint)) :=
  ts_query_loop q (range_incl (q_metric q, q_start q) (q_metric q, q_end q) (ts_table d)) [].

Fixpoint ts_latest_loop (metric : string) (l : list ((string * Z) * bytes)) (latest : option (Z * MetricPoint)) :
    ds (option (Z * MetricPoint)) :=
  match l with
  | [] => Ok latest
  | ((item_metric, timestamp), b) :: l =>
      if negb (bool_decide (item_metric = metric)) then Ok latest else
      p ← decode b;
      ts_latest_loop metric l (Some (timestamp, p))
  end.
Definition ts_latest d (metric : string) : ds (option (Z * MetricPoint)) :=
  ts_latest_loop metric (range_incl (metric, 0) (metric, 2 ^ 64 - 1) (ts_table d)) None.

Definition ts_purge_before d (metric : string) (before : Z) : Datastore * Z :=
  let keys := map (fun e => e.1.2)
    (take_while (fun e => bool_decide (e.1.1 = metric)) (range (metric, 0) (metric, before) (ts_table d))) in
  if is_empty keys then (d, 0) else
  (set_ts (foldl (fun t ts => delete (metric, ts) t) (ts_table d) keys) d, Z.of_nat (length keys)).

(** ** Secrets (secrets.rs) *)
Definition encrypt (key nonce_bytes : bytes) (now : Z) (plaintext : bytes) : SealedSecret :=
  {| ciphertext := aead_seal key nonce_bytes plaintext; nonce := nonce_bytes; sealed_at := now |}.
Definition decrypt (key : bytes) (s : SealedSecret) : ds bytes :=
  or_err WrongKey (aead_open key (nonce s) (ciphertext s)).
Definition secrets_get_sealed d (username name : string) : ds (option SealedSecret) :=
  match secrets_v2_table d !! (username, name) with
  | Some b => s ← decode b; Ok (Some s)
  | None => Ok None
  end.
Definition secrets_get d (username name : string) : ds (option bytes) :=
  o ← secrets_get_sealed d username name;
  match o with
  | None => Ok None
  | Some sealed =>
      key ← or_err NoSecretsKey (secrets_key d);
      plain ← decrypt key sealed;
      Ok (Some plain)
  end.
(** The nonce is the random one drawn for the call. *)
Definition secrets_set d (nonce_bytes : bytes) (now : Z) (username name : string) (value : bytes) : ds Datastore :=
  key ← or_err NoSecretsKey (secrets_key d);
  Ok (set_secrets (<[(username, name) := enc (encrypt key nonce_bytes now value)]> (secrets_v2_table d)) d).
Definition secrets_delete d (username name : string) : Datastore * bool :=
  (set_secrets (delete (username, name) (secrets_v2_table d)) d,
   bool_decide (is_Some (secrets_v2_table d !! (username, name)))).
Definition secrets_list d (username : string) : list string :=
  omap (fun e : (string * string) * bytes => if bool_decide (e.1.1 = username) then Some e.1.2 else None)
    (entries (secrets_v2_table d)).
Definition migrate_secrets_if_needed d (default_user : string) : Datastore :=
  let old := entries (secrets_table d) in
  if is_empty old then d else
  let d := set_secrets (foldl (fun t (e : string * bytes) => <[(default_user, e.1) := e.2]> t) (secrets_v2_table d) old) d in
  set_legacy_secrets (foldl (fun t (e : string * bytes) => delete e.1 t) (secrets_table d) old) d.

(** ** Audit log (audit.rs of both directories) *)
Definition pack_id (ts seq : Z) : Z := u64 (ts .<< 20) .| (seq .& 1048575).
Definition id_floor (ts : Z) : Z := u64 (ts .<< 20).
Definition AUDIT_SERIES : string := "ev".

Definition audit_append d (e : AuditEvent) : Datastore :=
  let id := pack_id (ts_ms e) (audit_seq d) in
  set_audit (<[(AUDIT_SERIES, id) := event_json e]> (audit_table d)) (u64 (audit_seq d + 1)) d.

(** [str::contains]. *)
Fixpoint contains (needle s : string) : bool :=
  starts_with needle s || match s with EmptyString => false | String _ s => contains needle s end.
Definition event_selected (q : AuditQuery) (e : AuditEvent) : bool :=
  match q_category q with Some c => bool_decide (category e = c) | None => true end &&
  match q_actor q with
  | Some needle => match actor e with Some a => contains needle a | None => false end ||
                   match actor_user e with Some u => contains needle u | None => false end
  | None => true
  end.
Fixpoint audit_query_loop (q : AuditQuery) (l : list ((string * Z) * bytes)) (out : list AuditEvent) : ds (list AuditEvent) :=
  match l with
  | [] => Ok out
  | ((series, _), b) :: l =>
      if negb (bool_decide (series = AUDIT_SERIES)) then Ok out else
      e ← or_err BadRecord (json_event b);
      audit_query_loop q l (if event_selected q e then out ++ [e] else out)
  end.
Definition audit_query d (q : AuditQuery) : ds (list AuditEvent) :=
  let lo := id_floor (default 0 (since_ms q)) in
  let hi := match until_ms q with Some until => pack_id until 1048575 | None => 2 ^ 64 - 1 end in
  out ← audit_query_loop q (range_incl (AUDIT_SERIES, lo) (AUDIT_SERIES, hi) (audit_table d)) [];
  let out := rev out in
  Ok (match a_limit q with Some n => take n out | None => out end).

Definition remove_counted (acc : gmap (string * Z) bytes * Z) (id : Z) : gmap (string * Z) bytes * Z :=
  (delete (AUDIT_SERIES, id) acc.1,
   if bool_decide (is_Some (acc.1 !! (AUDIT_SERIES, id))) then acc.2 + 1 else acc.2).
Definition audit_purge_before d (before_ms : Z) : Datastore * Z :=
  let cutoff := id_floor before_ms in
  let doomed := map (fun e => e.1.2)
    (take_while (fun e => bool_decide (e.1.1 = AUDIT_SERIES))
       (range (AUDIT_SERIES, 0) (AUDIT_SERIES, cutoff) (audit_table d))) in
  let '(t, removed) := foldl remove_counted (audit_table d, 0) doomed in
  (set_audit t (audit_seq d) d, removed).
End Datastore.

(** The level an event is recorded at, and whether a sink of a level takes it. *)
Definition event_level (e : AuditEvent) : AuditLevel :=
  match category e with
  | Flow => Flows
  | Reach => match outcome e with Deny => Security | _ => Flows end
  | Connection => match outcome e with Deny | Failure => Security | _ => Connections end
  | Membership | ConfigCat => Security
  | SessionCat | ExecCat | TransferCat => Connections
  end.
Definition level_rank (l : AuditLevel) : nat := match l with LevelOff => 0 | Security => 1 | Connections => 2 | Flows => 3 end.

(** [derive_secrets_key]; the digest is a parameter. *)
Definition derive_secrets_key (sha256 : bytes -> bytes) (identity_key : bytes) : bytes :=
  sha256 (str_bytes "hop-secrets-v1" ++ identity_key).

(** ** The successor of a prefix is above everything that extends the prefix *)
Fixpoint increment_last (l : bytes) : bytes :=
  match l with [] => [] | [b] => [b + 1] | b :: l => b :: increment_last l end.
Lemma increment_last_snoc l b : increment_last (l ++ [b]) = l ++ [b + 1].
Proof. induction l as [|x l IH]; [done|]. cbn. rewrite IH. by destruct l. Qed.

(** Strictly below, at the first difference. *)
Definition lex_lt (a b : bytes) : Prop := lex_leb b a = false.
Lemma lex_lt_head x y a b : x < y -> lex_lt (x :: a) (y :: b).
Proof.
  intros H. unfold lex_lt. apply not_true_is_false. rewrite lex_leb_cons. lia.
Qed.
Lemma lex_lt_cons x a b : lex_lt a b -> lex_lt (x :: a) (x :: b).
Proof. unfold lex_lt. intros H. apply not_true_is_false. rewrite lex_leb_cons, H. intros [?|[_ ?]]; [lia|done]. Qed.

Lemma in_range_spec lo hi b : in_range lo hi b = true <-> lo <= b <= hi.
Proof. unfold in_range. rewrite andb_true_iff, !Z.leb_le. done. Qed.
Lemma in_range_false lo hi b : in_range lo hi b = false <-> b < lo \/ hi < b.
Proof. rewrite <-not_true_iff_false, in_range_spec. lia. Qed.

(** Decide the range tests of a decoding step. *)
Ltac ranges :=
  unfold is_cont in *;
  repeat match goal with
  | H : _ && _ = true |- _ => apply andb_true_iff in H as [? ?]
  | H : in_range _ _ _ = true |- _ => apply in_range_spec in H
  | H : in_range _ _ _ = false |- _ => apply in_range_false in H
  end.
Ltac split_if := match goal with |- is_bytes (if ?c then _ else _) => destruct c end.
Lemma lossy_is_bytes f l : is_bytes l -> is_bytes (from_utf8_lossy f l).
Proof.
  assert (forall r, is_bytes r -> is_bytes (replacement_char ++ r)) as Hr.
  { intros r Hr. apply Forall_app. split; [solve_bytes|done]. }
  assert (is_bytes replacement_char) as H0 by solve_bytes.
  revert l. induction f as [|f IH]; intros l Hl; [constructor|]. cbn [from_utf8_lossy].
  destruct Hl as [|b l1 Hb Q1]; [constructor|].
  assert (is_bytes (from_utf8_lossy f l1)) as Hl1 by (by apply IH).
  split_if; [constructor; [exact Hb|exact Hl1]|]. split_if; [|split_if; [|split_if]].
  - destruct Q1 as [|c1 l2 ? Q2]; [done|]. split_if; [repeat (constructor; [assumption|]); apply IH; assumption|apply Hr, IH; by constructor].
  - destruct Q1 as [|c1 l2 ? Q2]; [done|]. split_if; [|apply Hr, IH; by constructor].
    destruct Q2 as [|c2 l3 ? Q3]; [done|]. split_if; [repeat (constructor; [assumption|]); apply IH; assumption|apply Hr, IH; by constructor].
  - destruct Q1 as [|c1 l2 ? Q2]; [done|]. split_if; [|apply Hr, IH; by constructor].
    destruct Q2 as [|c2 l3 ? Q3]; [done|]. split_if; [|apply Hr, IH; by constructor].
    destruct Q3 as [|c3 l4 ? Q4]; [done|]. split_if; [repeat (constructor; [assumption|]); apply IH; assumption|apply Hr, IH; by constructor].
  - apply Hr, IH; done.
Qed.

Lemma lossy_increment f l x : (length l <= f)%nat -> utf8_valid l = true -> l <> [] -> last l <> Some 191 ->
  lex_lt (l ++ x) (from_utf8_lossy f (increment_last l)).
Proof.
  revert l. induction f as [|f IH]; intros l Hf Hv Hne Hl; [destruct l; [done|cbn in Hf; lia]|].
  destruct l as [|b l1]; [done|]. cbn [utf8_valid] in Hv.
  destruct (in_range 0 127 b) eqn:E1.
  { destruct l1 as [|b1 l1].
    - cbn [increment_last app]. cbn [from_utf8_lossy]. destruct (in_range 0 127 (b + 1)) eqn:E2; [apply lex_lt_head; lia|].
      ranges. replace b with 127 by lia. apply lex_lt_head. lia.
    - change (increment_last (b :: b1 :: l1)) with (b :: increment_last (b1 :: l1)). cbn [from_utf8_lossy app]. rewrite E1.
      apply lex_lt_cons. apply (IH (b1 :: l1)); cbn in *; try done; lia. }
  destruct (in_range 194 223 b) eqn:E2.
  { destruct l1 as [|c1 l2]; [done|]. apply andb_true_iff in Hv as [Hc1 Hv]. destruct l2 as [|b1 l2].
    - cbn [increment_last app from_utf8_lossy]. rewrite E1, E2. replace (is_cont (c1 + 1)) with true.
      + apply lex_lt_cons, lex_lt_head. lia.
      + symmetry. cbn in Hl. ranges. apply in_range_spec. assert (c1 <> 191) by congruence. lia.
    - change (increment_last (b :: c1 :: b1 :: l2)) with (b :: c1 :: increment_last (b1 :: l2)).
      cbn [from_utf8_lossy app]. rewrite E1, E2, Hc1. do 2 apply lex_lt_cons.
      apply (IH (b1 :: l2)); cbn in *; try done; lia. }
  destruct (in_range 224 239 b) eqn:E3.
  { destruct l1 as [|c1 [|c2 l3]]; [done..|]. apply andb_true_iff in Hv as [[Hc1 Hc2]%andb_true_iff Hv]. destruct l3 as [|b1 l3].
    - cbn [increment_last app from_utf8_lossy]. rewrite E1, E2, E3, Hc1. replace (is_cont (c2 + 1)) with true.
      + do 2 apply lex_lt_cons. apply lex_lt_head. lia.
      + symmetry. cbn in Hl. clear Hc1. ranges. apply in_range_spec. assert (c2 <> 191) by congruence. lia.
    - change (increment_last (b :: c1 :: c2 :: b1 :: l3)) with (b :: c1 :: c2 :: increment_last (b1 :: l3)).
      cbn [from_utf8_lossy app]. rewrite E1, E2, E3, Hc1, Hc2. do 3 apply lex_lt_cons.
      apply (IH (b1 :: l3)); cbn in *; try done; lia. }
  destruct (in_range 240 244 b) eqn:E4; [|done].
  destruct l1 as [|c1 [|c2 [|c3 l4]]]; [done..|].
  apply andb_true_iff in Hv as [[[Hc1 Hc2]%andb_true_iff Hc3]%andb_true_iff Hv]. destruct l4 as [|b1 l4].
  - cbn [increment_last app from_utf8_lossy]. rewrite E1, E2, E3, E4, Hc1, Hc2. replace (is_cont (c3 + 1)) with true.
    + do 3 apply lex_lt_cons. apply lex_lt_head. lia.
    + symmetry. cbn in Hl. clear Hc1. ranges. apply in_range_spec. assert (c3 <> 191) by congruence. lia.
  - change (increment_last (b :: c1 :: c2 :: c3 :: b1 :: l4)) with (b :: c1 :: c2 :: c3 :: increment_last (b1 :: l4)).
    cbn [from_utf8_lossy app]. rewrite E1, E2, E3, E4, Hc1, Hc2, Hc3. do 4 apply lex_lt_cons.
    apply (IH (b1 :: l4)); cbn in *; try done; lia.
Qed.

(** The last byte of valid UTF-8 leaves room. *)
Lemma utf8_last_small l b : utf8_valid (l ++ [b]) = true -> b < 192.
Proof.
  remember (length l) as n eqn:Hn. assert (length l <= n)%nat as Hle by lia. clear Hn. revert l Hle.
  induction n as [|n IH]; intros l Hle Hv.
  - destruct l; [|cbn in Hle; lia]. cbn in Hv. destruct (in_range 0 127 b) eqn:E; [ranges; lia|]. by repeat case_match.
  - destruct l as [|x l1]; [apply (IH []); [cbn; lia|done]|]. cbn [app utf8_valid] in Hv. cbn in Hle.
    destruct (in_range 0 127 x); [apply (IH l1); [lia|done]|]. destruct (in_range 194 223 x).
    { destruct l1 as [|c1 l2]; cbn in Hv; apply andb_true_iff in Hv as [Hc Hv]; [ranges; lia|apply (IH l2); [cbn in Hle; lia|done]]. }
    destruct (in_range 224 239 x).
    { destruct l1 as [|c1 [|c2 l3]]; cbn in Hv; [done| |]; apply andb_true_iff in Hv as [[_ Hc]%andb_true_iff Hv];
        [ranges; lia|apply (IH l3); [cbn in Hle; lia|done]]. }
    destruct (in_range 240 244 x); [|done].
    destruct l1 as [|c1 [|c2 [|c3 l4]]]; cbn in Hv; [done..| |]; apply andb_true_iff in Hv as [[_ Hc]%andb_true_iff Hv];
      [ranges; lia|apply (IH l4); [cbn in Hle; lia|done]].
Qed.

(** ** Key-value entries refine a finite map *)
Definition room (s : string) : Prop := utf8_valid (str_bytes s) = true /\ last (str_bytes s) <> Some 191.

Lemma str_bytes_sapp a b : str_bytes (a +:+ b) = str_bytes a ++ str_bytes b.
Proof. induction a as [|c a IH]; [done|]. change (ord c :: str_bytes (a +:+ b) = ord c :: (str_bytes a ++ str_bytes b)). by rewrite IH. Qed.
Lemma prefix_successor_above p : p <> EmptyString -> room p ->
  exists e, prefix_successor p = Some e /\ forall t, key_ltb (p +:+ t) e = true.
Proof.
  intros Hne [Hv Hl]. destruct (str_bytes p) as [|b l _] eqn:Eb using rev_ind; [by destruct p|].
  assert (b < 192) by (by eapply utf8_last_small). rewrite last_snoc in Hl.
  assert (prefix_successor p = Some (utf8_lossy (l ++ [b + 1]))) as ->.
  { unfold prefix_successor. destruct p; [done|]. rewrite Eb, rev_app_distr. cbn. rewrite (proj2 (Z.ltb_lt b 255)) by lia.
    cbn. by rewrite rev_involutive. }
  eexists. split; [done|]. intros t. unfold key_ltb. cbn [key_leb string_key]. apply negb_true_iff. unfold str_leb, utf8_lossy.
  assert (is_bytes (l ++ [b])) as Hb by (rewrite <-Eb; apply is_bytes_str_bytes).
  rewrite str_bytes_str, str_bytes_sapp, Eb.
  - rewrite <-increment_last_snoc. apply lossy_increment; [|done|by destruct l|by rewrite last_snoc].
    rewrite increment_last_snoc, !length_app. done.
  - apply lossy_is_bytes. apply Forall_app in Hb as [H1 H2]. apply Forall_app. split; [done|].
    apply Forall_cons in H2 as [H2 _]. repeat constructor; zbytes.
Qed.

Lemma str_leb_prefix p t : key_leb p (p +:+ t) = true.
Proof.
  cbn. unfold str_leb. rewrite str_bytes_sapp. induction (str_bytes p) as [|b l IH]; [done|]. cbn [app]. apply lex_leb_cons. by right.
Qed.
(** Between a prefix and a string that has it, every string has it. *)
Lemma starts_with_between p a b : key_leb p a = true -> key_leb a b = true -> starts_with p b = true -> starts_with p a = true.
Proof.
  cbn. unfold str_leb. intros Hpa Hab [t ->]%starts_with_spec. rewrite str_bytes_sapp in Hab.
  enough (exists r, str_bytes a = str_bytes p ++ r) as [r Hr].
  { apply starts_with_spec. exists (bytes_str r). rewrite <-(bytes_str_bytes a), <-(bytes_str_bytes (p +:+ _)). f_equal.
    rewrite str_bytes_sapp, Hr. f_equal. symmetry. apply str_bytes_str. pose proof (is_bytes_str_bytes a) as Hb.
    rewrite Hr in Hb. by apply Forall_app in Hb as [_ ?]. }
  revert Hpa Hab. generalize (str_bytes p) (str_bytes a) (str_bytes t). clear.
  induction l as [|x p IH]; intros a t; [by exists a|]. destruct a as [|y a]; [done|]. cbn [app]. rewrite !lex_leb_cons.
  intros [?|[<- Hpa]] [?|[? Hat]]; try lia. destruct (IH a t Hpa Hat) as [r ->]. by exists r.
Qed.

Section KvRefinement.
Context `{!Bincode KvEntry, !BincodeLaws KvEntry}.
Implicit Types (d : Datastore) (m : gmap (string * string) KvEntry).

(** The entries of [d] are those of [m]. *)
Definition kv_holds d m : Prop := kv_table d = enc <$> m.
Definition listed ns prefix (k : string * string) : bool := bool_decide (k.1 = ns) && starts_with prefix k.2.

Lemma decode_enc {T} `{!Bincode T, !BincodeLaws T} (x : T) : decode (enc x) = Ok x.
Proof. unfold decode. by rewrite dec_enc_whole. Qed.

Lemma kv_list_loop_ok ns prefix (l : list ((string * string) * KvEntry)) acc :
  kv_list_loop ns prefix (map (fun e => (e.1, enc e.2)) l) acc =
  Ok (acc ++ map (fun e => (e.1.2, e.2)) (take_while (fun e => listed ns prefix e.1) l)).
Proof.
  revert acc. induction l as [|[[n k] e] l IH]; intros acc; cbn [kv_list_loop map take_while fst snd];
    [by rewrite app_nil_r|]. change (listed ns prefix (n, k)) with (bool_decide (n = ns) && starts_with prefix k).
  destruct (bool_decide (n = ns)); cbn [negb andb]; [|cbn; by rewrite app_nil_r].
  destruct (starts_with prefix k); cbn [negb]; [|cbn; by rewrite app_nil_r]. rewrite decode_enc. cbn. rewrite IH. by rewrite <-app_assoc.
Qed.

Lemma listed_scan ns prefix (P : string * string -> bool) m :
  (forall k, P k = true -> key_leb (ns, prefix) k = true) ->
  (forall k, listed ns prefix k = true -> P k = true) ->
  take_while (fun e => listed ns prefix e.1) (scan P m) = scan (listed ns prefix) m.
Proof.
  intros Hge HP. rewrite (take_while_filter _ row_le); [|apply scan_sorted|].
  - rewrite filter_scan. apply scan_ext. intros k v _. destruct (listed ns prefix k) eqn:E; [by rewrite HP|apply andb_false_r].
  - intros [[n k] v] [[n' k'] v'] Hx Hy Hle Hl. apply elem_of_scan in Hx as [Hx _]. apply Hge, pair_leb_spec in Hx. cbn in Hx.
    unfold listed in *. cbn in *. apply andb_true_iff in Hl as [Hn'%bool_decide_eq_true Hk]. subst n'. unfold row_le in Hle. cbn in Hle.
    apply pair_leb_spec in Hle. cbn in Hle. rewrite !key_ltb_lt in *. destruct Hx as [[Hx Hn]|[<- Hx]].
    + exfalso. destruct Hle as [[Hle _]|[-> Hle]]; [|done]. by apply Hn, key_leb_antisym.
    + destruct Hle as [[_ []]|[_ Hle]]; [done|]. rewrite bool_decide_eq_true_2 by done. cbn. by apply (starts_with_between prefix k k').
Qed.

Lemma kv_list_scan d m ns prefix : kv_holds d m -> utf8_valid (str_bytes ns) = true ->
  (if decide (prefix = EmptyString) then room ns \/ ns = EmptyString else room prefix) ->
  kv_list d ns prefix = Ok (map (fun e => (e.1.2, e.2)) (scan (listed ns prefix) m)).
Proof.
  intros Hm Hns Hr. assert (forall P, (forall k, P k = true -> key_leb (ns, prefix) k = true) ->
    (forall k, listed ns prefix k = true -> P k = true) ->
    kv_list_loop ns prefix (scan P (kv_table d)) [] = Ok (map (fun e => (e.1.2, e.2)) (scan (listed ns prefix) m))) as Hscan.
  { intros P Hge HP. rewrite Hm, scan_fmap, kv_list_loop_ok. cbn. by rewrite listed_scan. }
  assert (forall k, listed ns prefix k = true -> key_leb (ns, prefix) k = true /\ k.1 = ns) as Hge.
  { intros [n k] [Hn%bool_decide_eq_true Hk]%andb_true_iff. cbn in Hn, Hk. subst n. split; [|done]. apply starts_with_spec in Hk as [t ->].
    apply pair_leb_spec. right. split; [done|]. apply str_leb_prefix. }
  unfold kv_list. case_decide as Hp; cycle 1.
  - destruct (prefix_successor_above prefix Hp Hr) as (e & -> & He). apply Hscan; [intros k [? _]%andb_true_iff; done|].
    intros [n k] Hk. destruct (Hge _ Hk) as [-> Hn]. cbn in Hn. subst n. unfold listed in Hk. apply andb_true_iff in Hk as [_ Hk].
    cbn in Hk. apply starts_with_spec in Hk as [t ->]. cbn [andb]. by rewrite pair_lt_snd.
  - subst prefix. cbn [prefix_successor]. destruct Hr as [Hr|Hr].
    + destruct (decide (ns = EmptyString)) as [->|Hne]; [apply Hscan; [done|by intros k [? _]%Hge]|].
      destruct (prefix_successor_above ns Hne Hr) as (e & -> & He). specialize (He EmptyString). rewrite sapp_nil_r in He.
      apply Hscan; [intros k [? _]%andb_true_iff; done|]. intros [n k] Hk. destruct (Hge _ Hk) as [-> Hn]. cbn in Hn. subst n.
      by apply pair_lt_fst.
    + subst ns. apply Hscan; [done|by intros k [? _]%Hge].
Qed.
End KvRefinement.

(** C14.  The key-value operations are those of a finite map from namespace and key to
    entry: setting inserts, getting looks up, deleting removes and says whether
    there was something to remove, and listing a namespace by prefix, which scans
    a key range and stops at the first key outside, returns every entry whose key
    has the prefix, in key order and once, provided the prefix (or the namespace,
    when the prefix is empty) does not end in the byte 0xBF. *)
Theorem kv_refines_map `{!Bincode KvEntry, !BincodeLaws KvEntry} d m ns key e :
  kv_holds d m -> utf8_valid (str_bytes ns) = true ->
  kv_holds (kv_set d ns key e) (<[(ns, key) := e]> m) /\
  kv_get d ns key = Ok (m !! (ns, key)) /\
  kv_holds (kv_delete d ns key).1 (delete (ns, key) m) /\
  (kv_delete d ns key).2 = bool_decide (is_Some (m !! (ns, key))) /\
  forall prefix, (if decide (prefix = EmptyString) then room ns \/ ns = EmptyString else room prefix) ->
    exists l, kv_list d ns prefix = Ok l /\ StronglySorted (fun x y => str_leb x.1 y.1 = true) l /\ NoDup (map fst l) /\
      forall k v, (k, v) ∈ l <-> m !! (ns, k) = Some v /\ starts_with prefix k = true.
Proof.
  intros Hm Hns. unfold kv_holds in Hm |- *. cbn. split_and!.
  - by rewrite fmap_insert, Hm.
  - unfold kv_get. rewrite Hm, lookup_fmap. destruct (m !! (ns, key)); cbn; [by rewrite decode_enc|done].
  - by rewrite fmap_delete, Hm.
  - rewrite Hm, lookup_fmap. apply bool_decide_ext. by rewrite fmap_is_Some.
  - intros prefix Hr. rewrite (kv_list_scan d m) by done. eexists. split; [done|].
    assert (forall x, x ∈ scan (listed ns prefix) m -> x.1.1 = ns) as Hn.
    { intros [[n k] v] [[Hn%bool_decide_eq_true _]%andb_true_iff _]%elem_of_scan. done. }
    split_and!.
    + eapply StronglySorted_map; [|apply scan_sorted]. intros [[n k] v] [[n' k'] v'] Hx%Hn Hy%Hn Hle. cbn in *. subst n n'.
      unfold row_le in Hle. cbn [fst] in Hle. by rewrite pair_le_snd in Hle.
    + rewrite map_map. apply (NoDup_fmap_2_strong (fun e : (string * string) * KvEntry => e.1.2)).
      * intros [[n k] v] [[n' k'] v'] Hx Hy Hk. pose proof (Hn _ Hx). pose proof (Hn _ Hy). cbn in *. subst n n' k'.
        apply elem_of_scan in Hx as [_ Hx], Hy as [_ Hy]. rewrite Hx in Hy. by injection Hy as ->.
      * eapply NoDup_fmap_1, scan_keys.
    + intros k v. rewrite list_elem_of_fmap. split.
      * intros ([[n k'] v'] & [= -> ->] & Hin). pose proof (Hn _ Hin). cbn in *. subst n.
        apply elem_of_scan in Hin as [[_ Hk]%andb_true_iff Hv]. done.
      * intros [Hv Hk]. exists ((ns, k), v). split; [done|]. apply elem_of_scan. split; [|done]. unfold listed.
        rewrite bool_decide_eq_true_2 by done. exact Hk.
Qed.

(** U+1F63F, whose last UTF-8 byte is 0xBF. *)
Definition cat_face : string := bytes_str [240; 159; 152; 191].
Definition empty_store : Datastore :=
  {| kv_table := ∅; ts_table := ∅; audit_table := ∅; cron_table := ∅; cron_runs_table := ∅; secrets_table := ∅;
     secrets_v2_table := ∅; secrets_key := None; audit_seq := 0 |}.
(** Listing by a prefix that ends in such a character finds nothing: incrementing
    the last byte leaves the character ill-formed, the lossy conversion replaces
    it by U+FFFD, which sorts before it, and the scanned range is empty although
    the entry is there. *)
Theorem kv_list_misses `{!Bincode KvEntry, !BincodeLaws KvEntry} e :
  let d := kv_set empty_store "ns" cat_face e in
  kv_get d "ns" cat_face = Ok (Some e) /\ kv_list d "ns" cat_face = Ok [] /\ kv_list d "ns" EmptyString = Ok [(cat_face, e)].
Proof.
  split_and!.
  - unfold kv_get, kv_set. cbn [kv_table set_kv]. rewrite lookup_insert_eq. by rewrite decode_enc.
  - unfold kv_list, kv_set. cbn [kv_table set_kv]. change (prefix_successor cat_face) with (Some (utf8_lossy [240; 159; 152; 192])).
    vm_compute. done.
  - rewrite (kv_list_scan _ {[("ns"%string, cat_face) := e]}); [vm_compute; done| |done|].
    + unfold kv_holds, kv_set. cbn [kv_table set_kv]. by rewrite map_fmap_singleton.
    + rewrite decide_True by done. left. split; [done|]. by vm_compute.
Qed.

(** ** Time series *)
Section Series.
Context `{!Bincode MetricPoint, !BincodeLaws MetricPoint}.
Implicit Types (d : Datastore) (m : gmap (string * Z) MetricPoint).

Definition ts_holds d m : Prop := ts_table d = enc <$> m.
(** The points of a metric between two times, in time order. *)
Definition series m (metric : string) (lo hi : Z) : list (Z * MetricPoint) :=
  map (fun e => (e.1.2, e.2)) (range_incl (metric, lo) (metric, hi) m).
(** A limit of 0 counts as 1: it is tested after a point was added. *)
Definition limited {A} (limit : option nat) (l : list A) : list A :=
  match limit with None => l | Some n => take (Nat.max 1 n) l end.

Lemma row_between (metric : string) (lo hi : Z) (k : string * Z) :
  key_leb (metric, lo) k && key_leb k (metric, hi) = true <-> k.1 = metric /\ lo <= k.2 <= hi.
Proof.
  destruct k as [n t]. rewrite andb_true_iff. cbn [key_leb pair_key]. rewrite !pair_leb_spec, !key_ltb_lt. cbn [fst snd]. split.
  - intros [[[H1 H2]|[<- H1]] [[H3 H4]|[E2 H3]]]; try congruence.
    + destruct H2. by apply key_leb_antisym.
    + split; [done|]. cbn in *. lia.
  - intros [-> ?]. split; right; (split; [done|cbn; lia]).
Qed.
Lemma elem_of_series m metric lo hi t p : (t, p) ∈ series m metric lo hi <-> m !! (metric, t) = Some p /\ lo <= t <= hi.
Proof.
  unfold series, range_incl. rewrite list_elem_of_fmap. split.
  - intros ([[n t'] p'] & [= -> ->] & [Hr Hm]%elem_of_scan). apply row_between in Hr as [Hn Ht]. cbn in *. by subst n.
  - intros [Hm Ht]. exists ((metric, t), p). split; [done|]. apply elem_of_scan. split; [by apply row_between|done].
Qed.
Lemma series_metric m metric lo hi e : e ∈ range_incl (metric, lo) (metric, hi) m -> e.1.1 = metric.
Proof. destruct e as [k p]. intros [Hr _]%elem_of_scan. by apply row_between in Hr as [? _]. Qed.
Lemma series_sorted m metric lo hi : StronglySorted (fun x y => x.1 < y.1) (series m metric lo hi).
Proof.
  assert (NoDup (map fst (series m metric lo hi))) as Hn.
  { unfold series. rewrite map_map. apply (NoDup_fmap_2_strong (fun e : (string * Z) * MetricPoint => e.1.2)).
    - intros [[n k] v] [[n' k'] v'] Hx Hy Hk. pose proof (series_metric _ _ _ _ _ Hx). pose proof (series_metric _ _ _ _ _ Hy).
      cbn in *. subst n n' k'. apply elem_of_scan in Hx as [_ Hx], Hy as [_ Hy]. rewrite Hx in Hy. by injection Hy as ->.
    - eapply NoDup_fmap_1, scan_keys. }
  assert (StronglySorted (fun x y => x.1 <= y.1) (series m metric lo hi)) as Hs.
  { eapply StronglySorted_map; [|apply scan_sorted].
    intros [[n k] v] [[n' k'] v'] Hx%series_metric Hy%series_metric Hle. cbn in *. subst n n'.
    unfold row_le in Hle. cbn [fst] in Hle. rewrite pair_le_snd in Hle. cbn in Hle. lia. }
  induction Hs as [|x l Hl IH Hx]; [constructor|]. cbn in Hn. apply NoDup_cons in Hn as [Hxn Hn].
  constructor; [by apply IH|]. rewrite Forall_forall in Hx |- *. intros y Hy. specialize (Hx y Hy).
  assert (x.1 <> y.1); [|lia]. intros E. apply Hxn. rewrite E. by apply list_elem_of_fmap_2.
Qed.

Lemma ts_query_loop_ok q (l : list ((string * Z) * MetricPoint)) acc :
  (forall e, e ∈ l -> e.1.1 = q_metric q) ->
  (match q_limit q with Some n => (length acc < Nat.max 1 n)%nat | None => True end) ->
  ts_query_loop q (map (fun e => (e.1, enc e.2)) l) acc =
  Ok (match q_limit q with Some n => take (Nat.max 1 n) | None => id end
        (acc ++ List.filter (fun x => tags_match (tags_filter q) x.2) (map (fun e => (e.1.2, e.2)) l))).
Proof.
  revert acc. induction l as [|[[n t] p] l IH]; intros acc Hm Hl; cbn [ts_query_loop map List.filter fst snd].
  - rewrite app_nil_r. destruct (q_limit q); [|done]. by rewrite take_ge by lia.
  - assert (n = q_metric q) as -> by (apply (Hm ((n, t), p)); left). rewrite bool_decide_eq_true_2 by done. cbn [negb].
    rewrite decode_enc. cbn [mbind rust_bind]. assert (forall e, e ∈ l -> e.1.1 = q_metric q) as Hm' by (intros; apply Hm; by right).
    destruct (tags_match (tags_filter q) p); cbn [negb]; [|by apply IH].
    rewrite length_app. cbn [length]. destruct (q_limit q) as [lim|] eqn:El.
    + destruct (Nat.leb_spec lim (length acc + 1)).
      * rewrite (cons_middle (t, p) acc (List.filter _ _)), app_assoc, take_app_length'; [done|]. rewrite length_app. cbn. lia.
      * rewrite IH; [by rewrite <-app_assoc|done|]. rewrite length_app. cbn. lia.
    + rewrite IH by done. by rewrite <-app_assoc.
Qed.

Lemma ts_latest_loop_ok metric (l : list ((string * Z) * MetricPoint)) o :
  (forall e, e ∈ l -> e.1.1 = metric) ->
  ts_latest_loop metric (map (fun e => (e.1, enc e.2)) l) o =
  Ok (match last (map (fun e => (e.1.2, e.2)) l) with Some x => Some x | None => o end).
Proof.
  revert o. induction l as [|[[n t] p] l IH]; intros o Hm; [done|]. cbn [ts_latest_loop map fst snd].
  assert (n = metric) as -> by (apply (Hm ((n, t), p)); left). rewrite bool_decide_eq_true_2 by done. cbn [negb].
  rewrite decode_enc. cbn [mbind rust_bind]. rewrite IH by (intros; apply Hm; by right).
  rewrite last_cons. by destruct (last _).
Qed.

Lemma foldl_delete {K V} `{Countable K} (f : Z -> K) ks (t : gmap K V) k :
  foldl (fun t x => delete (f x) t) t ks !! k = if decide (k ∈ map f ks) then None else t !! k.
Proof.
  revert t. induction ks as [|x ks IH]; intros t; cbn; [by rewrite decide_False by apply not_elem_of_nil|].
  rewrite IH. destruct (decide (k ∈ map f ks)) as [Hk|Hk].
  - by rewrite decide_True by (by right).
  - destruct (decide (k = f x)) as [->|Hne].
    + rewrite decide_True by left. apply lookup_delete_eq.
    + rewrite decide_False, lookup_delete_ne; [done|done|]. by intros [->|?]%elem_of_cons.
Qed.
End Series.

Lemma last_sorted {A} (R : relation A) l x y : StronglySorted R l -> last l = Some x -> y ∈ l -> R y x \/ y = x.
Proof.
  induction 1 as [|z l Hl IH Hz]; [done|]. rewrite last_cons. intros Hx [->|Hy]%elem_of_cons.
  - destruct (last l) as [w|] eqn:E; [|by injection Hx as ->; right]. injection Hx as ->. left.
    rewrite Forall_forall in Hz. apply Hz. by apply last_Some_elem_of.
  - destruct (last l) eqn:E; [by apply IH|]. apply last_None in E as ->. by apply elem_of_nil in Hy.
Qed.

Lemma take_while_all {A} (P : A -> bool) l : (forall x, x ∈ l -> P x = true) -> take_while P l = l.
Proof.
  induction l as [|x l IH]; [done|]. intros HP. cbn. rewrite HP by left. f_equal. apply IH. intros y Hy. apply HP. by right.
Qed.
Lemma foldl_delete_size {K V} `{Countable K} (f : Z -> K) ks (t : gmap K V) : NoDup (map f ks) ->
  (forall x, x ∈ ks -> is_Some (t !! f x)) ->
  Z.of_nat (size (foldl (fun t x => delete (f x) t) t ks)) = Z.of_nat (size t) - Z.of_nat (length ks).
Proof.
  revert t. induction ks as [|x ks IH]; intros t Hn Hs; cbn; [lia|]. cbn in Hn. apply NoDup_cons in Hn as [Hx Hn].
  rewrite IH; [|done|].
  - destruct (Hs x) as [v Hv]; [left|]. rewrite map_size_delete_Some by (by exists v).
    assert (size t <> 0%nat) by (intros E%map_size_empty_inv; subst t; by rewrite lookup_empty in Hv). lia.
  - intros y Hy. rewrite lookup_delete_ne; [apply Hs; by right|]. intros E. apply Hx. rewrite E. by apply list_elem_of_fmap_2.
Qed.
Lemma row_below (metric : string) (hi : Z) (k : string * Z) :
  key_leb (metric, 0) k && key_ltb k (metric, hi) = true <-> k.1 = metric /\ 0 <= k.2 < hi.
Proof.
  destruct k as [n t]. rewrite andb_true_iff, key_ltb_lt. cbn [key_leb pair_key]. rewrite !pair_leb_spec, !key_ltb_lt. cbn [fst snd]. split.
  - intros [[[H1 H2]|[<- H1]] [[[H3 H4]|[E2 H3]] Hne]]; try congruence.
    + destruct H2. by apply key_leb_antisym.
    + split; [done|]. cbn in *. assert (t <> hi) by congruence. lia.
  - intros [-> ?]. split; [right; split; [done|cbn; lia]|]. split; [right; split; [done|cbn; lia]|]. intros [= ->]. lia.
Qed.
(** The keys a purge collects below a bound. *)
Lemma purge_keys {V} (t : gmap (string * Z) V) metric before : map_Forall (fun k _ => is_u64 k.2) t ->
  let keys := map (fun e => e.1.2) (take_while (fun e => bool_decide (e.1.1 = metric)) (range (metric, 0) (metric, before) t)) in
  NoDup (map (pair metric) keys) /\ forall ts, ts ∈ keys <-> is_Some (t !! (metric, ts)) /\ ts < before.
Proof.
  intros Hu keys. unfold keys. rewrite take_while_all; cycle 1.
  { intros [k v] [Hk _]%elem_of_scan. apply row_below in Hk as [Hk _]. by apply bool_decide_eq_true. }
  assert (forall e, e ∈ range (metric, 0) (metric, before) t -> e.1 = (metric, e.1.2)) as He.
  { intros [[n k] v] [Hk _]%elem_of_scan. apply row_below in Hk as [Hk _]. cbn in *. by subst. }
  split.
  - rewrite map_map. rewrite (map_ext_in _ fst); [apply scan_keys|]. intros e Hin%list_elem_of_In. symmetry. by apply He.
  - intros ts. rewrite list_elem_of_fmap. split.
    + intros (e & -> & Hin). pose proof (He e Hin) as Ee. destruct e as [k v]. cbn in *. apply elem_of_scan in Hin as [Hk Hv].
      apply row_below in Hk as [_ Hk]. rewrite <-Ee. split; [by exists v|lia].
    + intros [[v Hv] Hlt]. exists ((metric, ts), v). split; [done|]. apply elem_of_scan. split; [|done]. apply row_below.
      specialize (Hu _ _ Hv). unfold is_u64 in Hu. cbn in *. split; [done|lia].
Qed.
Lemma ts_purge_ok `{!Bincode MetricPoint, !BincodeLaws MetricPoint} d m metric before :
  ts_holds d m -> map_Forall (fun k _ => is_u64 k.2) m ->
  let '(d', n) := ts_purge_before d metric before in
  exists m', ts_holds d' m' /\ n = Z.of_nat (size m) - Z.of_nat (size m') /\
    forall k, m' !! k = if decide (k.1 = metric /\ k.2 < before) then None else m !! k.
Proof.
  intros Hm Hu. unfold ts_purge_before.
  assert (map_Forall (fun k _ => is_u64 k.2) (ts_table d)) as Hu'.
  { rewrite Hm. intros k v. rewrite lookup_fmap. destruct (m !! k) eqn:E; [|done]. intros _. by apply (Hu k _ E). }
  destruct (purge_keys (ts_table d) metric before Hu') as [Hn Hk]. set (keys := map _ (take_while _ _)) in *.
  set (m' := foldl (fun t ts => delete (metric, ts) t) m keys).
  assert (forall k, m' !! k = if decide (k.1 = metric /\ k.2 < before) then None else m !! k) as Hm'.
  { intros [n ts]. unfold m'. rewrite foldl_delete. cbn [fst snd].
    assert ((n, ts) ∈ map (pair metric) keys <-> n = metric /\ ts < before /\ is_Some (m !! (metric, ts))) as Hiff.
    { rewrite list_elem_of_fmap. setoid_rewrite Hk. rewrite Hm. setoid_rewrite lookup_fmap. setoid_rewrite fmap_is_Some. split.
      - intros (x & [= -> ->] & ? & ?). done.
      - intros (-> & ? & ?). by exists ts. }
    destruct (decide (n = metric /\ ts < before)) as [[-> Hlt]|Hno].
    - destruct (m !! (metric, ts)) eqn:E; [rewrite decide_True; [done|]; rewrite Hiff; eauto|by case_decide].
    - rewrite decide_False; [done|]. rewrite Hiff. tauto. }
  assert (Z.of_nat (size m') = Z.of_nat (size m) - Z.of_nat (length keys)) as Hs.
  { apply foldl_delete_size; [done|]. intros x [Hx _]%Hk. rewrite Hm, lookup_fmap in Hx. by apply fmap_is_Some in Hx. }
  clearbody keys. destruct (is_empty keys) eqn:Ek.
  - destruct keys; [|done]. exists m. split_and!; [done|lia|]. intros k. by rewrite <-Hm'.
  - exists m'. split_and!; [|lia|done]. unfold ts_holds. cbn [ts_table set_ts]. apply map_eq. intros k.
    unfold m'. rewrite lookup_fmap, !foldl_delete, Hm, lookup_fmap. by case_decide.
Qed.

(** Where the time-series table holds the points of [m]: a query returns the points
    of its metric in its inclusive time range that carry all the tags asked for, in
    time order, cut to the limit (0 counting as 1); the latest point is the one with
    the greatest time; and purging removes exactly the metric's older points, leaves
    every other point, and counts what it removed. *)
Theorem ts_store_correct `{!Bincode MetricPoint, !BincodeLaws MetricPoint} d m :
  ts_holds d m -> map_Forall (fun k _ => is_u64 k.2) m ->
  (forall q, exists l, ts_query d q = Ok (limited (q_limit q) l) /\ StronglySorted (fun x y => x.1 < y.1) l /\
    forall t p, (t, p) ∈ l <-> m !! (q_metric q, t) = Some p /\ q_start q <= t <= q_end q /\ tags_match (tags_filter q) p = true) /\
  (forall metric, exists o, ts_latest d metric = Ok o /\
    match o with
    | Some (t, p) => m !! (metric, t) = Some p /\ forall t' p', m !! (metric, t') = Some p' -> t' <= t
    | None => forall t, m !! (metric, t) = None
    end) /\
  (forall metric before, let '(d', n) := ts_purge_before d metric before in
    exists m', ts_holds d' m' /\ n = Z.of_nat (size m) - Z.of_nat (size m') /\
      forall k, m' !! k = if decide (k.1 = metric /\ k.2 < before) then None else m !! k).
Proof.
  intros Hm Hu. unfold ts_holds in Hm. split_and!.
  - intros q. exists (List.filter (fun x => tags_match (tags_filter q) x.2) (series m (q_metric q) (q_start q) (q_end q))).
    split_and!.
    + unfold ts_query, range_incl. rewrite Hm, scan_fmap, ts_query_loop_ok; [cbn|apply series_metric|destruct (q_limit q); cbn; [lia|done]].
      unfold limited, series, range_incl. by destruct (q_limit q).
    + apply Sorted_filter_list, series_sorted.
    + intros t p. rewrite list_elem_of_In, filter_In, <-list_elem_of_In, elem_of_series. cbn. tauto.
  - intros metric. unfold ts_latest, range_incl. rewrite Hm, scan_fmap, ts_latest_loop_ok by apply series_metric.
    fold (range_incl (metric, 0) (metric, 2 ^ 64 - 1) m). fold (series m metric 0 (2 ^ 64 - 1)).
    assert (forall t p, m !! (metric, t) = Some p -> (t, p) ∈ series m metric 0 (2 ^ 64 - 1)) as Hin.
    { intros t p Ht. apply elem_of_series. split; [done|]. specialize (Hu _ _ Ht). unfold is_u64 in Hu. cbn in Hu. lia. }
    destruct (last (series m metric 0 (2 ^ 64 - 1))) as [[t p]|] eqn:El; eexists; (split; [done|]).
    + split; [by apply last_Some_elem_of, elem_of_series in El as [? _]|]. intros t' p' Ht'%Hin.
      destruct (last_sorted _ _ _ _ (series_sorted m metric _ _) El Ht') as [Hlt|[= -> ->]]; [cbn in Hlt; lia|done].
    + intros t. destruct (m !! (metric, t)) as [p|] eqn:E; [|done]. apply Hin in E. apply last_None in El. rewrite El in E.
      by apply elem_of_nil in E.
  - intros metric before. by apply ts_purge_ok.
Qed.

(** ** Audit log *)
Section Audit.
Context `{!AuditJson}.
Implicit Types (d : Datastore) (evs : list AuditEvent).

Definition audit_log d evs : Datastore := foldl audit_append d evs.
(** The identifier of the [i]-th event appended from sequence number [s]. *)
Definition event_id (s : Z) (i : nat) (e : AuditEvent) : Z := ts_ms e * 2 ^ 20 + (s + Z.of_nat i) mod 2 ^ 20.
Definition event_rows (s : Z) evs : list ((string * Z) * AuditEvent) := imap (fun i e => ((AUDIT_SERIES, event_id s i e), e)) evs.
Definition datable (e : AuditEvent) : Prop := 0 <= ts_ms e < 2 ^ 44.

Lemma id_floor_eq t : 0 <= t < 2 ^ 44 -> id_floor t = t * 2 ^ 20.
Proof. intros Ht. unfold id_floor, u64. rewrite Z.shiftl_mul_pow2 by lia. apply Z.mod_small. lia. Qed.
Lemma pack_id_eq t seq : 0 <= t < 2 ^ 44 -> pack_id t seq = t * 2 ^ 20 + seq mod 2 ^ 20.
Proof.
  intros Ht. unfold pack_id. change 1048575 with (Z.ones 20). rewrite Z.land_ones by lia.
  fold (id_floor t). rewrite id_floor_eq by done. rewrite <-(lor_disjoint t _ 20); [|lia|apply Z.mod_pos_bound; lia].
  by rewrite Z.shiftl_mul_pow2.
Qed.

Lemma event_id_inj s i j e e' : Z.of_nat i < 2 ^ 20 -> Z.of_nat j < 2 ^ 20 -> event_id s i e = event_id s j e' -> i = j.
Proof.
  unfold event_id. intros Hi Hj E. assert ((s + Z.of_nat i) mod 2 ^ 20 = (s + Z.of_nat j) mod 2 ^ 20) as Em.
  { pose proof (Z.mod_pos_bound (s + Z.of_nat i) (2 ^ 20)). pose proof (Z.mod_pos_bound (s + Z.of_nat j) (2 ^ 20)). lia. }
  Z.div_mod_to_equations. lia.
Qed.
Lemma event_rows_keys s evs : Z.of_nat (length evs) <= 2 ^ 20 -> NoDup (map fst (event_rows s evs)).
Proof.
  intros Hl. unfold event_rows. apply NoDup_alt. intros i j k Hi Hj.
  rewrite list_lookup_fmap, list_lookup_imap in Hi, Hj.
  destruct (evs !! i) as [e|] eqn:Ei; [|done]. destruct (evs !! j) as [e'|] eqn:Ej; [|done]. cbn in *.
  injection Hi as <-. injection Hj as Hj. symmetry in Hj. apply lookup_lt_Some in Ei, Ej.
  eapply (event_id_inj s); [lia|lia|exact Hj].
Qed.
Lemma event_rows_snoc s evs e :
  event_rows s (evs ++ [e]) = event_rows s evs ++ [((AUDIT_SERIES, event_id s (length evs) e), e)].
Proof. unfold event_rows. rewrite imap_app. cbn. by rewrite Nat.add_0_r. Qed.

Lemma audit_log_seq d evs : audit_seq (audit_log d evs) mod 2 ^ 20 = (audit_seq d + Z.of_nat (length evs)) mod 2 ^ 20.
Proof.
  induction evs as [|e evs IH] using rev_ind; [cbn; f_equal; lia|]. unfold audit_log in *. rewrite foldl_app. cbn.
  unfold u64. rewrite length_app. cbn. revert IH. generalize (audit_seq (foldl audit_append d evs)). intros x E. Z.div_mod_to_equations. lia.
Qed.
Lemma audit_log_table d evs : audit_table d = ∅ -> Forall datable evs -> Z.of_nat (length evs) <= 2 ^ 20 ->
  audit_table (audit_log d evs) = event_json <$> list_to_map (event_rows (audit_seq d) evs).
Proof.
  intros H0. induction evs as [|e evs IH] using rev_ind; intros Hd Hl; [cbn; by rewrite H0|].
  apply Forall_app in Hd as [Hd He]. apply Forall_cons in He as [He _]. rewrite length_app in Hl. cbn in Hl.
  unfold audit_log. rewrite foldl_app. cbn [foldl]. fold (audit_log d evs). unfold audit_append. cbn [audit_table set_audit].
  rewrite IH by (done || lia). rewrite event_rows_snoc. rewrite pack_id_eq by done. rewrite audit_log_seq.
  fold (event_id (audit_seq d) (length evs) e). set (k := (AUDIT_SERIES, _)).
  rewrite <-fmap_insert. f_equal. rewrite list_to_map_app. cbn. rewrite insert_empty, insert_union_singleton_l, map_union_comm; [done|].
  apply map_disjoint_singleton_l_2, not_elem_of_list_to_map. pose proof (event_rows_keys (audit_seq d) (evs ++ [e])) as Hn.
  rewrite length_app in Hn. cbn in Hn. specialize (Hn ltac:(lia)). rewrite event_rows_snoc, map_app in Hn.
  apply NoDup_app in Hn as (_ & Hn & _). intros Hk. apply (Hn k Hk). left.
Qed.

Lemma audit_query_loop_ok q (l : list ((string * Z) * AuditEvent)) out : (forall e, e ∈ l -> e.1.1 = AUDIT_SERIES) ->
  audit_query_loop q (map (fun e => (e.1, event_json e.2)) l) out = Ok (out ++ List.filter (event_selected q) (map snd l)).
Proof.
  revert out. induction l as [|[[n i] e] l IH]; intros out Hl; cbn [audit_query_loop map List.filter fst snd]; [by rewrite app_nil_r|].
  assert (n = AUDIT_SERIES) as -> by (apply (Hl ((n, i), e)); left). rewrite bool_decide_eq_true_2 by done. cbn [negb].
  rewrite json_roundtrip. cbn [or_err mbind rust_bind]. rewrite IH by (intros; apply Hl; by right).
  destruct (event_selected q e); [by rewrite <-app_assoc|done].
Qed.

Lemma elem_of_event_rows s evs k e : (k, e) ∈ event_rows s evs ->
  exists i, evs !! i = Some e /\ k = (AUDIT_SERIES, event_id s i e).
Proof.
  intros [i Hi]%list_elem_of_lookup. unfold event_rows in Hi. rewrite list_lookup_imap in Hi.
  destruct (evs !! i) as [e'|] eqn:E; [|done]. injection Hi as <- <-. by exists i.
Qed.
Lemma event_rows_map s evs : map snd (event_rows s evs) = evs.
Proof.
  apply list_eq. intros i. unfold event_rows. rewrite list_lookup_fmap, list_lookup_imap. by destruct (evs !! i).
Qed.
End Audit.

Lemma NoDup_filter_list {A} (f : A -> bool) (l : list A) : NoDup l -> NoDup (List.filter f l).
Proof.
  induction 1 as [|x l Hx Hl IH]; [constructor|]. cbn. destruct (f x); [|done]. constructor; [|done].
  intros [Hin _]%list_elem_of_In%filter_In. by apply Hx, list_elem_of_In.
Qed.
Lemma StronglySorted_snoc {A} (R : relation A) l x : StronglySorted R l -> Forall (fun y => R y x) l -> StronglySorted R (l ++ [x]).
Proof.
  induction 1 as [|y l Hl IH Hy]; intros Hx; cbn; [repeat constructor|]. apply Forall_cons in Hx as [Hyx Hx]. constructor; [by apply IH|].
  apply Forall_app. split; [done|]. by repeat constructor.
Qed.
Lemma StronglySorted_rev {A} (R S : relation A) l : (forall x y, R x y -> S y x) -> StronglySorted R l -> StronglySorted S (rev l).
Proof.
  intros HRS. induction 1 as [|x l Hl IH Hx]; [constructor|]. cbn. apply StronglySorted_snoc; [done|].
  apply Forall_rev. eapply Forall_impl; [exact Hx|]. auto.
Qed.
#[export] Instance List_filter_Permutation {A} (f : A -> bool) : Proper (Permutation ==> Permutation) (List.filter f).
Proof.
  induction 1; cbn; [done|destruct (f x); [by constructor|done]|destruct (f x), (f y); (done || apply Permutation_swap)|by etrans].
Qed.
Definition in_window (q : AuditQuery) (e : AuditEvent) : bool :=
  (default 0 (since_ms q) <=? ts_ms e) && match until_ms q with Some u => ts_ms e <=? u | None => true end.

(** Of up to 2^20 events appended to an empty log, whatever the sequence counter
    starts at, none is lost: a query returns every event of its category, actor and
    inclusive time window, no other, the later ones first, and a limit keeps the
    first of these. *)
Theorem audit_log_correct `{!AuditJson} d evs q :
  audit_table d = ∅ -> Forall datable evs -> Z.of_nat (length evs) <= 2 ^ 20 ->
  0 <= default 0 (since_ms q) < 2 ^ 44 -> 0 <= default 0 (until_ms q) < 2 ^ 44 ->
  exists l, audit_query (audit_log d evs) q = Ok (match a_limit q with Some n => take n l | None => l end) /\
    l ≡ₚ List.filter (event_selected q) (List.filter (in_window q) evs) /\
    StronglySorted (fun a b => ts_ms b <= ts_ms a) l.
Proof.
  intros H0 Hd Hl Hs Hu. set (rows := event_rows (audit_seq d) evs). set (m := list_to_map rows : gmap (string * Z) AuditEvent).
  set (lo := id_floor (default 0 (since_ms q))).
  set (hi := match until_ms q with Some until => pack_id until 1048575 | None => 2 ^ 64 - 1 end).
  assert (NoDup (map fst rows)) as Hn by (by apply event_rows_keys).
  assert (forall k e, m !! k = Some e -> datable e /\ k.1 = AUDIT_SERIES /\ ts_ms e * 2 ^ 20 <= k.2 < (ts_ms e + 1) * 2 ^ 20) as Hm.
  { intros k e Hk%elem_of_list_to_map_2. apply elem_of_event_rows in Hk as (i & Hi & ->). split; [|split; [done|]].
    - rewrite Forall_forall in Hd. apply Hd. by eapply list_elem_of_lookup_2.
    - unfold event_id. cbn. pose proof (Z.mod_pos_bound (audit_seq d + Z.of_nat i) (2 ^ 20)). lia. }
  set (P := fun k : string * Z => key_leb (AUDIT_SERIES, lo) k && key_leb k (AUDIT_SERIES, hi)).
  assert (forall k e, m !! k = Some e -> P k = in_window q e) as HP.
  { intros k e Hk. destruct (Hm k e Hk) as (Hde & Hk1 & Hk2). apply eq_iff_eq_true. unfold P. rewrite row_between.
    unfold in_window, lo, hi. rewrite id_floor_eq by done. rewrite andb_true_iff, Z.leb_le. unfold datable in Hde.
    destruct (until_ms q) as [u|]; cbn in Hu.
    - rewrite pack_id_eq, Z.leb_le by done. change (1048575 mod 2 ^ 20) with 1048575.
      split; [intros [_ ?]|intros ?; split; [done|]]; lia.
    - split; [intros [_ ?]; split; [|done]|intros ?; split; [done|]]; lia. }
  exists (rev (List.filter (event_selected q) (map snd (scan P m)))). split_and!.
  - unfold audit_query. rewrite audit_log_table by done. fold rows m lo hi. unfold range_incl. fold P.
    rewrite scan_fmap, audit_query_loop_ok; [done|]. intros [k e] [_ Hk]%elem_of_scan. by destruct (Hm k e Hk) as (_ & ? & _).
  - rewrite <-Permutation_rev. assert (map snd (scan P m) ≡ₚ List.filter (in_window q) evs) as ->; [|done].
    assert (scan P m ≡ₚ List.filter (fun r => in_window q r.2) rows) as Hp.
    { apply NoDup_Permutation.
      - eapply NoDup_fmap_1, scan_keys.
      - apply NoDup_filter_list. by eapply NoDup_fmap_1.
      - intros [k e]. rewrite elem_of_scan, list_elem_of_In, filter_In, <-list_elem_of_In. cbn. split.
        + intros [HPk Hk]. rewrite <-(HP k e Hk). split; [by apply elem_of_list_to_map_2|done].
        + intros [Hk He]. apply (elem_of_list_to_map_1 (M := gmap (string * Z))) in Hk; [|done]. rewrite (HP k e Hk). done. }
    rewrite (Permutation_map snd Hp), <-(event_rows_map (audit_seq d) evs). fold rows. clear. induction rows as [|[k e] l IH]; [done|]. cbn.
    destruct (in_window q e); cbn; by rewrite IH.
  - eapply (StronglySorted_rev (fun a b => ts_ms a <= ts_ms b)); [done|]. apply Sorted_filter_list. eapply StronglySorted_map; [|apply scan_sorted].
    intros [k e] [k' e'] [_ Hk%Hm]%elem_of_scan [_ Hk'%Hm]%elem_of_scan Hle. destruct Hk as (_ & H1 & H2), Hk' as (_ & H1' & H2').
    destruct k as [n i], k' as [n' i']. cbn in *. subst n n'. unfold row_le in Hle. cbn [fst] in Hle. rewrite pair_le_snd in Hle.
    cbn in Hle. nia.
Qed.

Lemma remove_counted_all ks t n : NoDup (map (pair AUDIT_SERIES) ks) -> (forall x, x ∈ ks -> is_Some (t !! (AUDIT_SERIES, x))) ->
  foldl remove_counted (t, n) ks = (foldl (fun t x => delete (AUDIT_SERIES, x) t) t ks, n + Z.of_nat (length ks)).
Proof.
  revert t n. induction ks as [|x ks IH]; intros t n Hn Hs; [cbn; f_equal; lia|]. cbn in Hn. apply NoDup_cons in Hn as [Hx Hn].
  cbn [foldl]. unfold remove_counted at 2. cbn [fst snd]. rewrite bool_decide_eq_true_2 by (apply Hs; left).
  rewrite IH; [f_equal; cbn [length]; lia|done|]. intros y Hy. rewrite lookup_delete_ne; [apply Hs; by right|].
  intros [= ->]. by apply Hx, (list_elem_of_fmap_2 (pair AUDIT_SERIES)).
Qed.
(** Purging keeps exactly the rows at or after the cut-off and counts the others. *)
Lemma audit_purge_ok d before : map_Forall (fun k _ => is_u64 k.2) (audit_table d) ->
  let '(d', n) := audit_purge_before d before in
  n = Z.of_nat (size (audit_table d)) - Z.of_nat (size (audit_table d')) /\ audit_seq d' = audit_seq d /\
  forall k, audit_table d' !! k = if decide (k.1 = AUDIT_SERIES /\ k.2 < id_floor before) then None else audit_table d !! k.
Proof.
  intros Hu. unfold audit_purge_before. destruct (purge_keys (audit_table d) AUDIT_SERIES (id_floor before) Hu) as [Hn Hk].
  set (ks := map _ (take_while _ _)) in *. clearbody ks.
  rewrite remove_counted_all; [|done|by intros x [? _]%Hk]. cbn [set_audit audit_table audit_seq]. split; [|split; [done|]].
  - rewrite foldl_delete_size; [lia|done|by intros x [? _]%Hk].
  - intros [n i]. rewrite foldl_delete. cbn [fst snd]. destruct (decide (n = AUDIT_SERIES /\ i < id_floor before)) as [[-> Hi]|Hno].
    + destruct (audit_table d !! (AUDIT_SERIES, i)) eqn:E; [rewrite decide_True; [done|]|by case_decide].
      apply list_elem_of_fmap_2, Hk. by rewrite E.
    + rewrite decide_False; [done|]. intros (x & [= -> ->] & [_ ?]%Hk)%list_elem_of_fmap. by apply Hno.
Qed.

(** ** Secrets *)
Section Secrets.
Context `{!Bincode SealedSecret, !BincodeLaws SealedSecret, !Aead}.
Implicit Types d : Datastore.

Lemma elem_of_secrets_list d u n : n ∈ secrets_list d u <-> is_Some (secrets_v2_table d !! (u, n)).
Proof.
  unfold secrets_list. rewrite list_elem_of_omap. split.
  - intros ([[u' n'] b] & Hin & E). cbn in E. case_bool_decide; [|done]. injection E as ->. subst u'.
    apply elem_of_entries in Hin. by exists b.
  - intros [b Hb]. exists ((u, n), b). rewrite elem_of_entries. split; [done|]. cbn. by rewrite bool_decide_eq_true_2.
Qed.
Lemma secrets_get_ext d d' u n : secrets_key d' = secrets_key d ->
  secrets_v2_table d' !! (u, n) = secrets_v2_table d !! (u, n) -> secrets_get d' u n = secrets_get d u n.
Proof. intros Hk Ht. unfold secrets_get, secrets_get_sealed. by rewrite Hk, Ht. Qed.
End Secrets.

(** A secret that was set is read back by the user who set it and until it is deleted;
    nothing a user sets or deletes changes what another user reads or sees listed;
    and a store without a key stores nothing. *)
Theorem secrets_isolated `{!Bincode SealedSecret, !BincodeLaws SealedSecret, !Aead} d nonce now user name value :
  match secrets_set d nonce now user name value with
  | Ok d' =>
      secrets_get d' user name = Ok (Some value) /\ name ∈ secrets_list d' user /\
      (forall u n, (u, n) <> (user, name) -> secrets_get d' u n = secrets_get d u n /\
        (n ∈ secrets_list d' u <-> n ∈ secrets_list d u)) /\
      (let '(d'', existed) := secrets_delete d' user name in
      existed = true /\ secrets_get d'' user name = Ok None /\ (name ∉ secrets_list d'' user) /\
      forall u n, (u, n) <> (user, name) -> secrets_get d'' u n = secrets_get d u n /\
        (n ∈ secrets_list d'' u <-> n ∈ secrets_list d u))
  | Err e => e = NoSecretsKey /\ secrets_key d = None
  | Panic => False
  end.
Proof.
  unfold secrets_set. destruct (secrets_key d) as [key|] eqn:Ek; [|done]. cbn [or_err mbind rust_bind].
  assert (forall t u n, (u, n) <> (user, name) -> t !! (u, n) = secrets_v2_table d !! (u, n) ->
    secrets_get (set_secrets t d) u n = secrets_get d u n /\ (n ∈ secrets_list (set_secrets t d) u <-> n ∈ secrets_list d u)) as Hother.
  { intros t u n _ Ht. split; [by apply secrets_get_ext|]. rewrite !elem_of_secrets_list. cbn. by rewrite Ht. }
  split_and!.
  - unfold secrets_get, secrets_get_sealed. cbn [set_secrets secrets_v2_table secrets_key]. rewrite lookup_insert_eq, decode_enc, Ek.
    cbn. unfold decrypt, encrypt. cbn. by rewrite aead_roundtrip.
  - rewrite elem_of_secrets_list. cbn. by rewrite lookup_insert_eq.
  - intros u n Hne. apply Hother; [done|]. by rewrite lookup_insert_ne by congruence.
  - cbn [secrets_delete]. split_and!.
    + apply bool_decide_eq_true. cbn. by rewrite lookup_insert_eq.
    + unfold secrets_get, secrets_get_sealed. cbn. by rewrite lookup_delete_eq.
    + rewrite elem_of_secrets_list. cbn. rewrite lookup_delete_eq. by intros [? ?].
    + intros u n Hne. cbn. apply Hother; [done|]. rewrite lookup_delete_ne, lookup_insert_ne by congruence. done.
Qed.

(** ** A concrete codec

    A value is its number, written bit by bit and closed by a mark, so that an
    encoding is never the beginning of another. *)
Fixpoint bit_code (p : positive) : bytes :=
  match p with xH => [2] | xO p => 0 :: bit_code p | xI p => 1 :: bit_code p end.
Fixpoint bit_decode (l : bytes) : option (positive * nat) :=
  match l with
  | [] => None
  | b :: l => if b =? 2 then Some (xH, 1%nat) else
      '(p, n) ← bit_decode l; Some (if b =? 0 then xO p else xI p, S n)
  end.
Lemma bit_decode_code p rest : bit_decode (bit_code p ++ rest) = Some (p, length (bit_code p)).
Proof. induction p as [p IH|p IH|]; cbn; [by rewrite IH..|done]. Qed.
Lemma bit_decode_short p k : (k < length (bit_code p))%nat -> bit_decode (take k (bit_code p)) = None.
Proof.
  revert k. induction p as [p IH|p IH|]; intros [|k] Hk; cbn in *; try done; [by rewrite IH by lia..|lia].
Qed.
Definition demo_bincode (T : Type) `{Countable T} : Bincode T :=
  {| enc x := bit_code (encode x); dec b := '(p, n) ← bit_decode b; x ← countable.decode p; Some (x, n) |}.
Lemma demo_bincode_laws (T : Type) `{Countable T} : BincodeLaws T (Bincode0 := demo_bincode T).
Proof. intros x rest. cbn. rewrite bit_decode_code. cbn. by rewrite decode_encode. Qed.

#[export] Instance KvEntry_eq_dec : EqDecision KvEntry.
Proof. solve_decision. Defined.
#[export] Instance KvEntry_countable : Countable KvEntry.
Proof.
  refine (inj_countable' (fun e => (kv_value e, content_type e, updated_at e))
    (fun '(a, b, c) => {| kv_value := a; content_type := b; updated_at := c |}) _). by intros [].
Defined.
#[export] Instance MetricPoint_eq_dec : EqDecision MetricPoint.
Proof. solve_decision. Defined.
#[export] Instance MetricPoint_countable : Countable MetricPoint.
Proof.
  refine (inj_countable' (fun p => (mp_value p, mp_tags p)) (fun '(a, b) => {| mp_value := a; mp_tags := b |}) _). by intros [].
Defined.

Definition demo_entry : KvEntry := {| kv_value := [1]; content_type := "t"; updated_at := 5 |}.
Definition demo_store : Datastore := set_kv {[("ns"%string, "alpha"%string) := enc (Bincode := demo_bincode KvEntry) demo_entry]} empty_store.
Lemma kv_refines_map_witness :
  kv_get (Bincode0 := demo_bincode KvEntry) demo_store "ns" "alpha" = Ok (Some demo_entry) /\
  exists l, kv_list (Bincode0 := demo_bincode KvEntry) demo_store "ns" "al" = Ok l /\ ("alpha"%string, demo_entry) ∈ l.
Proof.
  destruct (kv_refines_map (Bincode0 := demo_bincode KvEntry) (BincodeLaws0 := demo_bincode_laws KvEntry) demo_store
    {[("ns"%string, "alpha"%string) := demo_entry]} "ns" "alpha" demo_entry) as (_ & H2 & _ & _ & H5).
  - unfold kv_holds, demo_store. cbn [kv_table set_kv]. by rewrite map_fmap_singleton.
  - reflexivity.
  - split; [exact H2|]. destruct (H5 "al"%string) as (l & E & _ & _ & Hl).
    + rewrite decide_False by done. split; [reflexivity|]. by vm_compute.
    + exists l. split; [exact E|]. apply Hl. split; reflexivity.
Defined.
Lemma kv_list_misses_witness : kv_list (Bincode0 := demo_bincode KvEntry) (kv_set (Bincode0 := demo_bincode KvEntry) empty_store "ns" cat_face demo_entry) "ns" cat_face = Ok [].
Proof. apply (kv_list_misses (Bincode0 := demo_bincode KvEntry) (BincodeLaws0 := demo_bincode_laws KvEntry) demo_entry). Defined.

Definition demo_point : MetricPoint := {| mp_value := 7; mp_tags := ∅ |}.
Definition demo_series : gmap (string * Z) MetricPoint := {[("cpu"%string, 1000) := demo_point]}.
Lemma ts_store_correct_witness :
  exists o, ts_latest (Bincode1 := demo_bincode MetricPoint) (set_ts (enc (Bincode := demo_bincode MetricPoint) <$> demo_series) empty_store) "cpu" = Ok o /\
  match o with Some (t, p) => demo_series !! ("cpu"%string, t) = Some p | None => False end.
Proof.
  destruct (ts_store_correct (Bincode0 := demo_bincode MetricPoint) (BincodeLaws0 := demo_bincode_laws MetricPoint)
    (set_ts (enc (Bincode := demo_bincode MetricPoint) <$> demo_series) empty_store) demo_series) as (_ & H2 & _).
  - reflexivity.
  - unfold demo_series. apply map_Forall_singleton. cbn. unfold is_u64. lia.
  - destruct (H2 "cpu"%string) as (o & E & Ho). exists o. split; [exact E|]. destruct o as [[t p]|]; [apply Ho|].
    specialize (Ho 1000). vm_compute in Ho. discriminate Ho.
Defined.

Definition demo_event (t : Z) : AuditEvent :=
  {| ts_ms := t; category := ExecCat; action := "exec"; outcome := Success; actor := Some "n1"%string; actor_user := None;
     target := None; ev_peer := None; bytes_tx := None; bytes_rx := None; ev_path := None; detail := None |}.

(** Events by a listing of the fields; the decoder is the inverse. *)
#[export] Instance AuditOutcome_eq_dec : EqDecision AuditOutcome.
Proof. solve_decision. Defined.
#[export] Instance AuditEvent_eq_dec : EqDecision AuditEvent.
Proof. solve_decision. Defined.
Definition category_code (c : AuditCategory) : nat :=
  match c with Connection => 0 | SessionCat => 1 | ExecCat => 2 | TransferCat => 3 | Reach => 4 | Flow => 5 | Membership => 6 | ConfigCat => 7 end.
Definition category_of (n : nat) : AuditCategory :=
  match n with 0 => Connection | 1 => SessionCat | 2 => ExecCat | 3 => TransferCat | 4 => Reach | 5 => Flow | 6 => Membership | _ => ConfigCat end%nat.
Definition outcome_code (o : AuditOutcome) : nat :=
  match o with Success => 0 | Failure => 1 | Allow => 2 | Deny => 3 | InfoOutcome => 4 end.
Definition outcome_of (n : nat) : AuditOutcome :=
  match n with 0 => Success | 1 => Failure | 2 => Allow | 3 => Deny | _ => InfoOutcome end%nat.
#[export] Instance AuditEvent_countable : Countable AuditEvent.
Proof.
  refine (inj_countable'
    (fun e => (ts_ms e, category_code (category e), action e, outcome_code (outcome e), (actor e, actor_user e, target e, ev_peer e),
               (bytes_tx e, bytes_rx e, ev_path e, detail e)))
    (fun '(a, b, c, f, (g, h, i, j), (k, l, m, n)) =>
      {| ts_ms := a; category := category_of b; action := c; outcome := outcome_of f; actor := g; actor_user := h; target := i;
         ev_peer := j; bytes_tx := k; bytes_rx := l; ev_path := m; detail := n |}) _).
  by intros [? [] ? [] ? ? ? ? ? ? ? ?].
Defined.
Definition demo_audit_json : AuditJson.
Proof.
  refine {| event_json e := bit_code (encode e); json_event b := '(p, _) ← bit_decode b; countable.decode p |}.
  intros e. rewrite <-(app_nil_r (bit_code _)), bit_decode_code. cbn. apply decode_encode.
Defined.
Lemma audit_log_correct_witness :
  exists l, audit_query (H := demo_audit_json)
      (audit_log (H := demo_audit_json) empty_store [demo_event 5; demo_event 9])
      {| q_category := None; since_ms := Some 6; until_ms := None; q_actor := None; a_limit := None |} = Ok l /\ length l = 1%nat.
Proof.
  destruct (audit_log_correct (H := demo_audit_json) empty_store [demo_event 5; demo_event 9]
    {| q_category := None; since_ms := Some 6; until_ms := None; q_actor := None; a_limit := None |}) as (l & E & Hl & _).
  - reflexivity.
  - repeat constructor; cbn; lia.
  - cbn. lia.
  - cbn. lia.
  - cbn. lia.
  - exists l. split; [exact E|]. by rewrite Hl.
Defined.
