(* ===== verification/Cron.v ===== *)
(** * Cron: scheduled jobs (hop-core/src/datastore/cron.rs, hop-mcp/src/cron.rs)

    Job records with their older layouts, the job and run-history tables, and the
    scheduler: which jobs a poll starts and how a run ends.  bincode writes the
    fields of a record one after the other; the codec of each field is an
    interface.  The schedule parser (the cron crate) and chrono's calendar are
    interfaces too; running a script is outside, its outcome is an argument. *)
From S2P Require Import Prelude Text Policy Table Datastore.
From Stdlib Require Import Ascii.
Local Open Scope Z_scope.

(** ** Records *)
Record CronJobV0 := {
  v_id : string; v_name : string; v_schedule : string; v_script : string; v_enabled : bool;
  v_last_run : option Z; v_next_run : Z; v_created_at : Z; v_tags : list string;
}.
Record CronJob := {
  id : string;
  name : string;
  schedule : string;
  script : string;
  enabled : bool;
  last_run : option Z;
  next_run : Z;
  created_at : Z;
  tags : list string;
  targets : option string;
  catalog_id : option string;
  sandbox : option SandboxPolicy;
  run_as_user : option string;
  timeout_secs : option Z;
}.
Inductive CronRunStatus := Running | RunOk | RunError | Timeout | Interrupted.
#[export] Instance CronRunStatus_eq_dec : EqDecision CronRunStatus.
Proof. solve_decision. Defined.
Record CronRun := {
  job_id : string; started_ms : Z; ended_ms : option Z; status : CronRunStatus; message : string;
}.
Definition duration_ms (r : CronRun) : option Z := (fun e => sat_sub e (started_ms r)) <$> ended_ms r.

(** ** Layouts *)
Class CronCodec := {
  v0_codec :: Bincode CronJobV0;
  ostr_codec :: Bincode (option string);
  osandbox_codec :: Bincode (option SandboxPolicy);
  ou64_codec :: Bincode (option Z);
  run_codec :: Bincode CronRun;
}.
(** Every encoding decodes with what follows it ignored, and an exhausted record has
    no further field. *)
Class CronCodecLaws `{!CronCodec} : Prop := {
  v0_laws :: BincodeLaws CronJobV0;
  ostr_laws :: BincodeLaws (option string);
  osandbox_laws :: BincodeLaws (option SandboxPolicy);
  ou64_laws :: BincodeLaws (option Z);
  run_laws :: BincodeLaws CronRun;
  ostr_end : dec (T := option string) [] = None;
  osandbox_end : dec (T := option SandboxPolicy) [] = None;
  ou64_end : dec (T := option Z) [] = None;
}.
Definition of_v0 (v : CronJobV0) (tg cid : option string) (sb : option SandboxPolicy) (ru : option string) (ts : option Z) : CronJob :=
  {| id := v_id v; name := v_name v; schedule := v_schedule v; script := v_script v; enabled := v_enabled v;
     last_run := v_last_run v; next_run := v_next_run v; created_at := v_created_at v; tags := v_tags v;
     targets := tg; catalog_id := cid; sandbox := sb; run_as_user := ru; timeout_secs := ts |}.
Definition to_v0 (j : CronJob) : CronJobV0 :=
  {| v_id := id j; v_name := name j; v_schedule := schedule j; v_script := script j; v_enabled := enabled j;
     v_last_run := last_run j; v_next_run := next_run j; v_created_at := created_at j; v_tags := tags j |}.

(** The schedule crate and the calendar. *)
Class CronCrate := {
  Schedule : Type;
  parse_schedule : string -> option Schedule;
  (** The first occurrence after an instant, in milliseconds. *)
  schedule_after : Schedule -> Z -> option Z;
  (** Instants chrono can represent. *)
  timestamp_ok : Z -> bool;
}.

Section Cron.
Context `{!CronCodec}.
Implicit Types d : Datastore.

(** The current layout: the fields in order. *)
Definition field {T} `{Bincode T} (b : bytes) (pos : nat) : option (T * nat) :=
  '(x, n) ← dec (drop pos b); Some (x, (pos + n)%nat).
Definition enc_job (j : CronJob) : bytes :=
  enc (to_v0 j) ++ enc (targets j) ++ enc (catalog_id j) ++ enc (sandbox j) ++ enc (run_as_user j) ++ enc (timeout_secs j).
Definition dec_job (b : bytes) : option (CronJob * nat) :=
  '(v, p) ← field b 0;
  '(tg, p) ← field b p;
  '(cid, p) ← field b p;
  '(sb, p) ← field b p;
  '(ru, p) ← field b p;
  '(ts, p) ← field b p;
  Some (of_v0 v tg cid sb ru ts, p).

(** The next appended field, or its default once the record is exhausted. *)
Definition tail {T} `{Bincode (option T)} (b : bytes) (pos : nat) : ds (option T * nat) :=
  if (length b <=? pos)%nat then Ok (None, pos) else or_err BadRecord (field b pos).
Definition decode_job (b : bytes) : ds (CronJob * bool) :=
  match dec_job b with
  | Some (j, _) => Ok (j, false)
  | None =>
      '(v0, p) ← or_err BadRecord (dec b);
      '(tg, p) ← tail b p;
      '(cid, p) ← tail b p;
      '(sb, p) ← tail b p;
      '(ru, p) ← tail b p;
      '(ts, p) ← tail b p;
      if negb (p =? length b)%nat then Err TrailingBytes else Ok (of_v0 v0 tg cid sb ru ts, true)
  end.

(** ** The job table *)
Definition cron_add `{!CronCrate} d (j : CronJob) : ds Datastore :=
  match parse_schedule (schedule j) with
  | None => Err BadSchedule
  | Some _ => Ok (set_cron (<[id j := enc_job j]> (cron_table d)) (cron_runs_table d) d)
  end.
Definition runs_of d (jid : string) : list ((string * Z) * bytes) := range (jid, 0) (jid, 2 ^ 64 - 1) (cron_runs_table d).
Definition cron_remove d (jid : string) : Datastore * bool :=
  match cron_table d !! jid with
  | None => (set_cron (delete jid (cron_table d)) (cron_runs_table d) d, false)
  | Some _ =>
      let started := map (fun e => e.1.2) (runs_of d jid) in
      (set_cron (delete jid (cron_table d)) (foldl (fun t ts => delete (jid, ts) t) (cron_runs_table d) started) d, true)
  end.
Definition cron_list d : list CronJob :=
  omap (fun e : string * bytes => match decode_job e.2 with Ok (j, _) => Some j | _ => None end) (entries (cron_table d)).
Definition cron_purge_corrupt d : Datastore * list string :=
  let corrupt := omap (fun e : string * bytes => match decode_job e.2 with Ok _ => None | _ => Some e.1 end) (entries (cron_table d)) in
  (if is_empty corrupt then d
   else set_cron (foldl (fun t k => delete k t) (cron_table d) corrupt) (cron_runs_table d) d, corrupt).
Definition cron_migrate_legacy d : Datastore * list string :=
  let rewrite := omap (fun e : string * bytes => match decode_job e.2 with Ok (j, true) => Some (e.1, enc_job j) | _ => None end)
    (entries (cron_table d)) in
  (if is_empty rewrite then d
   else set_cron (foldl (fun t (e : string * bytes) => <[e.1 := e.2]> t) (cron_table d) rewrite) (cron_runs_table d) d,
   map fst rewrite).
Definition cron_get d (jid : string) : ds (option CronJob) :=
  match cron_table d !! jid with
  | Some b => '(j, _) ← decode_job b; Ok (Some j)
  | None => Ok None
  end.
Definition cron_find_by_catalog_id d (cid : string) : option CronJob :=
  List.find (fun j => bool_decide (catalog_id j = Some cid)) (cron_list d).
Definition cron_get_due d (now : Z) : list CronJob :=
  List.filter (fun j => enabled j && (next_run j <=? now)) (cron_list d).
Definition set_run (ts nxt : Z) (j : CronJob) : CronJob :=
  {| id := id j; name := name j; schedule := schedule j; script := script j; enabled := enabled j; last_run := Some ts;
     next_run := nxt; created_at := created_at j; tags := tags j; targets := targets j; catalog_id := catalog_id j;
     sandbox := sandbox j; run_as_user := run_as_user j; timeout_secs := timeout_secs j |}.
Definition cron_update_last_run d (jid : string) (timestamp nxt : Z) : ds Datastore :=
  b ← or_err JobNotFound (cron_table d !! jid);
  '(j, _) ← decode_job b;
  Ok (set_cron (<[jid := enc_job (set_run timestamp nxt j)]> (cron_table d)) (cron_runs_table d) d).

(** ** Run history *)
Definition CRON_RUNS_KEEP : nat := 50.
Definition CRON_RUN_MESSAGE_MAX : nat := 500.
(** Characters are counted and taken by their first bytes. *)
Definition char_count (l : bytes) : nat := length (List.filter (fun b => negb (is_cont b)) l).
Fixpoint take_chars (n : nat) (l : bytes) : bytes :=
  match l with
  | [] => []
  | b :: l => if is_cont b then b :: take_chars n l else match n with O => [] | S n => b :: take_chars n l end
  end.
Definition ellipsis : bytes := [226; 128; 166].
Definition truncate_chars (s : string) (max : nat) : string :=
  if (char_count (str_bytes s) <=? max)%nat then s else bytes_str (take_chars max (str_bytes s) ++ ellipsis).

Definition cron_run_put d (r : CronRun) : Datastore :=
  set_cron (cron_table d) (<[(job_id r, started_ms r) := enc r]> (cron_runs_table d)) d.
Definition cron_run_start d (jid : string) (started : Z) : Datastore :=
  cron_run_put d {| job_id := jid; started_ms := started; ended_ms := None; status := Running; message := EmptyString |}.
Definition cron_runs_prune d (jid : string) (keep : nat) : Datastore * nat :=
  let keys := map (fun e => e.1.2) (runs_of d jid) in
  let old := take (length keys - keep) keys in
  (set_cron (cron_table d) (foldl (fun t ts => delete (jid, ts) t) (cron_runs_table d) old) d, length old).
Definition cron_run_finish d (jid : string) (started ended : Z) (st : CronRunStatus) (msg : string) : Datastore :=
  let d := cron_run_put d {| job_id := jid; started_ms := started; ended_ms := Some ended; status := st;
                             message := truncate_chars msg CRON_RUN_MESSAGE_MAX |} in
  (cron_runs_prune d jid CRON_RUNS_KEEP).1.
Fixpoint cron_runs_loop (limit : nat) (l : list ((string * Z) * bytes)) (acc : list CronRun) : list CronRun :=
  match l with
  | [] => acc
  | (_, b) :: l =>
      let acc := match dec (T := CronRun) b with Some (r, _) => acc ++ [r] | None => acc end in
      if (limit <=? length acc)%nat then acc else cron_runs_loop limit l acc
  end.
Definition cron_runs d (jid : string) (limit : nat) : list CronRun := cron_runs_loop limit (rev (runs_of d jid)) [].
Definition interrupt (now : Z) (r : CronRun) : CronRun :=
  {| job_id := job_id r; started_ms := started_ms r; ended_ms := Some now; status := Interrupted;
     message := "the daemon restarted while this run was in flight" |}.
Definition cron_runs_mark_interrupted d (now : Z) : Datastore * nat :=
  let stale := omap (fun e : (string * Z) * bytes => match dec (T := CronRun) e.2 with
                      | Some (r, _) => if bool_decide (status r = Running) then Some r else None
                      | None => None end) (entries (cron_runs_table d)) in
  (foldl (fun d r => cron_run_put d (interrupt now r)) d stale, length stale).
End Cron.

(** ** Every layout ever written is read *)
Section Layouts.
Context `{!CronCodec, !CronCodecLaws}.

(** [rest] is what is left of [b] at position [p]. *)
Definition left_at (b : bytes) (p : nat) (rest : bytes) : Prop := drop p b = rest /\ (p + length rest)%nat = length b.
Lemma left_at_start b : left_at b 0 b.
Proof. done. Qed.
Lemma left_at_next b p (e rest : bytes) : left_at b p (e ++ rest) -> left_at b (p + length e) rest.
Proof.
  intros [Hd Hl]. split; [by rewrite <-drop_drop, Hd, drop_app_length|]. rewrite length_app in Hl. lia.
Qed.
Lemma field_step {T} `{!Bincode T, !BincodeLaws T} b p (x : T) rest : left_at b p (enc x ++ rest) ->
  field b p = Some (x, (p + length (enc x))%nat) /\ left_at b (p + length (enc x)) rest.
Proof. intros Hb. split; [|by apply left_at_next]. destruct Hb as [Hd _]. unfold field. by rewrite Hd, dec_enc. Qed.
Lemma field_stop {T} `{!Bincode T} b p : dec (T := T) [] = None -> left_at b p [] -> field (T := T) b p = None.
Proof. intros He [Hd _]. unfold field. by rewrite Hd, He. Qed.
Lemma tail_step {T} `{!Bincode (option T), !BincodeLaws (option T)} b p (x : option T) rest : dec (T := option T) [] = None ->
  left_at b p (enc x ++ rest) -> tail b p = Ok (x, (p + length (enc x))%nat) /\ left_at b (p + length (enc x)) rest.
Proof.
  intros He Hb. destruct (field_step b p x rest Hb) as [Hf Hn]. split; [|done]. unfold tail. rewrite Hf.
  destruct (Nat.leb_spec (length b) p) as [Hl|_]; [|done]. exfalso. destruct Hb as [_ Hb]. rewrite length_app in Hb.
  destruct (enc x) eqn:E; [|cbn in Hb; lia]. pose proof (dec_enc_whole x) as Hx. by rewrite E, He in Hx.
Qed.
Lemma tail_stop {T} `{!Bincode (option T)} b p : left_at b p [] -> tail (T := T) b p = Ok (None, p).
Proof. intros [_ Hb]. unfold tail. cbn in Hb. by rewrite (proj2 (Nat.leb_le _ _)) by lia. Qed.

(** The record with the first [k] of the five appended fields, and the job a record of
    that layout stands for. *)
Definition appended (j : CronJob) : list bytes :=
  [enc (targets j); enc (catalog_id j); enc (sandbox j); enc (run_as_user j); enc (timeout_secs j)].
Definition layout (k : nat) (j : CronJob) : bytes := enc (to_v0 j) ++ concat (take k (appended j)).
Definition upto {A} (k n : nat) (o : option A) : option A := if (n <=? k)%nat then o else None.
Definition since (k : nat) (j : CronJob) : CronJob :=
  of_v0 (to_v0 j) (upto k 1 (targets j)) (upto k 2 (catalog_id j)) (upto k 3 (sandbox j)) (upto k 4 (run_as_user j))
    (upto k 5 (timeout_secs j)).

(** Read the next field of a record whose rest is known. *)
Ltac read_next :=
  match goal with
  | H : left_at ?b ?p (enc ?x ++ ?rest) |- context [tail ?b ?p] =>
      let E := fresh in destruct (tail_step b p x rest) as [E ?];
      [first [apply ostr_end|apply osandbox_end|apply ou64_end]|exact H|rewrite E; clear E H; cbn [mbind rust_bind]]
  | H : left_at ?b ?p [] |- context [tail ?b ?p] => rewrite (tail_stop b p H); cbn [mbind rust_bind]
  | H : left_at ?b ?p (enc ?x ++ ?rest) |- context [field ?b ?p] =>
      let E := fresh in destruct (field_step b p x rest H) as [E ?]; rewrite E; clear E H; cbn [mbind option_bind]
  | H : left_at ?b ?p [] |- context [field ?b ?p] =>
      rewrite (field_stop b p) by (first [apply ostr_end|apply osandbox_end|apply ou64_end] || exact H); cbn [mbind option_bind]
  end.

Lemma dec_job_current j rest : exists n, dec_job (enc_job j ++ rest) = Some (j, n).
Proof.
  unfold dec_job. pose proof (left_at_start (enc_job j ++ rest)) as Hat. unfold enc_job in Hat at 2. rewrite <-!app_assoc in Hat.
  repeat read_next. eexists. f_equal. f_equal. by destruct j.
Qed.
Lemma dec_job_short k j : (k < 5)%nat -> dec_job (layout k j) = None.
Proof.
  intros Hk. unfold dec_job. pose proof (left_at_start (layout k j)) as Hat. unfold layout in Hat at 2.
  destruct k as [|[|[|[|[|k]]]]]; cbn [take appended concat] in Hat; [..|lia]; by repeat read_next.
Qed.
Lemma decode_job_layout k j : (k <= 5)%nat -> decode_job (layout k j) = Ok (since k j, (k <? 5)%nat).
Proof.
  intros Hk. unfold decode_job. destruct (decide (k = 5%nat)) as [->|Hne].
  - destruct (dec_job_current j []) as [n Hn]. replace (layout 5 j) with (enc_job j ++ []).
    + rewrite Hn. f_equal. f_equal. by destruct j.
    + rewrite app_nil_r. unfold enc_job, layout. cbn. by rewrite app_nil_r.
  - rewrite dec_job_short by lia. pose proof (left_at_start (layout k j)) as Hat. unfold layout in Hat at 2.
    assert (dec (T := CronJobV0) (layout k j) = Some (to_v0 j, length (enc (to_v0 j)))) as ->.
    { unfold layout. apply dec_enc. }
    cbn [or_err mbind rust_bind]. apply left_at_next in Hat. cbn [plus] in Hat.
    destruct k as [|[|[|[|[|k]]]]]; cbn [take appended concat] in Hat; [..|lia]; repeat read_next;
      match goal with H : left_at _ _ [] |- _ => destruct H as [_ H]; cbn [length] in H; rewrite Nat.add_0_r in H; rewrite H end;
      by rewrite Nat.eqb_refl.
Qed.
Lemma decode_job_current j : decode_job (enc_job j) = Ok (j, false).
Proof.
  unfold decode_job. destruct (dec_job_current j []) as [n Hn]. rewrite app_nil_r in Hn. by rewrite Hn.
Qed.
End Layouts.

(** ** Records of every layout in one table *)
Section Migration.
Context `{!CronCodec, !CronCodecLaws}.
Implicit Types (d : Datastore) (m : gmap string (nat * CronJob)).

Definition written (e : nat * CronJob) : bytes := layout e.1 e.2.
Definition meant (e : nat * CronJob) : CronJob := since e.1 e.2.
Definition known (_ : string) (e : nat * CronJob) : Prop := (e.1 <= 5)%nat.

Lemma since_5 j : since 5 j = j.
Proof. by destruct j. Qed.
Lemma enc_job_layout j : enc_job j = layout 5 j.
Proof. unfold enc_job, layout. cbn. by rewrite app_nil_r. Qed.

Lemma cron_list_written d m : map_Forall known m -> cron_table d = written <$> m ->
  cron_list d = map (fun e => meant e.2) (entries m).
Proof.
  intros Hk Hm. unfold cron_list. rewrite Hm, entries_fmap.
  assert (forall e, e ∈ entries m -> (e.2.1 <= 5)%nat) as He.
  { intros [k e] Hin%elem_of_entries. exact (Hk k e Hin). }
  induction (entries m) as [|[k [n j]] l IH]; [done|]. cbn.
  change (written (n, j)) with (layout n j). rewrite (decode_job_layout n j) by (apply (He (k, (n, j))); left).
  f_equal. apply IH. intros e Hin. apply He. by right.
Qed.

(** What migration rewrites. *)
Definition rewrites m : list (string * bytes) :=
  omap (fun e : string * (nat * CronJob) => if (e.2.1 <? 5)%nat then Some (e.1, enc_job (meant e.2)) else None) (entries m).
Lemma rewrites_ok d m : map_Forall known m -> cron_table d = written <$> m ->
  omap (fun e : string * bytes => match decode_job e.2 with Ok (j, true) => Some (e.1, enc_job j) | _ => None end)
    (entries (cron_table d)) = rewrites m.
Proof.
  intros Hk Hm. unfold rewrites. rewrite Hm, entries_fmap.
  assert (forall e, e ∈ entries m -> (e.2.1 <= 5)%nat) as He.
  { intros [k e] Hin%elem_of_entries. exact (Hk k e Hin). }
  induction (entries m) as [|[k [n j]] l IH]; [done|]. cbn.
  change (written (n, j)) with (layout n j). rewrite (decode_job_layout n j) by (apply (He (k, (n, j))); left).
  rewrite IH by (intros e Hin; apply He; by right). unfold meant. cbn. by destruct (n <? 5)%nat.
Qed.
Lemma elem_of_rewrites m k b : (k, b) ∈ rewrites m <-> exists e, m !! k = Some e /\ (e.1 < 5)%nat /\ b = enc_job (meant e).
Proof.
  unfold rewrites. rewrite list_elem_of_omap. split.
  - intros ([k' e] & Hin%elem_of_entries & E). cbn [fst snd] in E. destruct (Nat.ltb_spec e.1 5); [|done]. injection E as -> <-. by exists e.
  - intros (e & Hm & Hlt & ->). exists (k, e). rewrite elem_of_entries. split; [done|]. cbn [fst snd].
    by rewrite (proj2 (Nat.ltb_lt e.1 5)).
Qed.
Lemma migrated_table d m : map_Forall known m -> cron_table d = written <$> m ->
  cron_table (cron_migrate_legacy d).1 = written <$> ((fun e => (5%nat, meant e)) <$> m).
Proof.
  intros Hk Hm. unfold cron_migrate_legacy. rewrite (rewrites_ok d m) by done. cbn [fst].
  assert (forall k, (foldl (fun t (e : string * bytes) => <[e.1 := e.2]> t) (cron_table d) (rewrites m)) !! k =
    (written <$> ((fun e => (5%nat, meant e)) <$> m)) !! k) as Hall.
  { intros k. assert (NoDup (rewrites m).*1) as Hn.
    { apply NoDup_omap_keys; [|apply NoDup_entries]. intros e r. by case_match; [intros [= <-]|]. }
    rewrite !lookup_fmap. destruct (m !! k) as [e|] eqn:Ek; cbn.
    - destruct (decide (e.1 < 5)%nat) as [Hlt|Hge].
      + unfold written. cbn. rewrite <-enc_job_layout. apply foldl_insert_in; [done|]. apply elem_of_rewrites. by exists e.
      + rewrite foldl_insert_out.
        * rewrite Hm, lookup_fmap, Ek. cbn. f_equal. assert (e.1 = 5%nat) as E by (specialize (Hk k e Ek); unfold known in Hk; lia).
          destruct e as [n j]. cbn in E. subst n. unfold written, meant. cbn. by rewrite since_5.
        * intros ([k' b] & -> & Hin)%list_elem_of_fmap. apply elem_of_rewrites in Hin as (e' & E' & Hlt & _). cbn in *.
          rewrite Ek in E'. by injection E' as <-.
    - rewrite foldl_insert_out; [by rewrite Hm, lookup_fmap, Ek|].
      intros ([k' b] & -> & Hin)%list_elem_of_fmap. apply elem_of_rewrites in Hin as (e' & E' & _). cbn in *. congruence. }
  destruct (rewrites m) eqn:Er; cbn [is_empty set_cron cron_table]; apply map_eq; exact Hall.
Qed.
End Migration.

(** A store whose records were written by any of the six layouts of the job record
    gives each job back, the fields it predates at their defaults, and lists all of
    them; migration rewrites every record in the current layout, names exactly the
    ones that were not, changes no job, and has nothing left to do a second time. *)
Theorem cron_layouts_read `{!CronCodec, !CronCodecLaws} d m :
  map_Forall known m -> cron_table d = written <$> m ->
  (forall i, cron_get d i = Ok (meant <$> m !! i)) /\ cron_list d = map (fun e => meant e.2) (entries m) /\
  (let '(d', ids) := cron_migrate_legacy d in
   cron_table d' = enc_job <$> (meant <$> m) /\ cron_list d' = cron_list d /\
   (forall i, i ∈ ids <-> exists e, m !! i = Some e /\ (e.1 < 5)%nat) /\ (cron_migrate_legacy d').2 = []).
Proof.
  intros Hk Hm. split_and!.
  - intros i. unfold cron_get. rewrite Hm, lookup_fmap. destruct (m !! i) as [[n j]|] eqn:E; cbn; [|done].
    unfold written. cbn. by rewrite decode_job_layout by exact (Hk i _ E).
  - by apply cron_list_written.
  - pose proof (migrated_table d m Hk Hm) as Ht.
    assert (map_Forall known ((fun e => (5%nat, meant e)) <$> m)) as Hk'.
    { intros i e. rewrite lookup_fmap. destruct (m !! i); [|done]. cbn. intros [= <-]. unfold known. done. }
    destruct (cron_migrate_legacy d) as [d' ids] eqn:Ed. cbn [fst] in Ht. split_and!.
    + rewrite Ht, <-!map_fmap_compose. apply map_fmap_ext. intros i e _. cbn. unfold written. cbn. by rewrite enc_job_layout.
    + rewrite (cron_list_written d' _ Hk' Ht), (cron_list_written d m Hk Hm), entries_fmap, map_map. apply map_ext.
      intros [i e]. cbn. unfold meant at 1. cbn. apply since_5.
    + intros i. assert (ids = map fst (rewrites m)) as ->.
      { unfold cron_migrate_legacy in Ed. rewrite (rewrites_ok d m) in Ed by done. by injection Ed as _ <-. }
      rewrite list_elem_of_fmap. split.
      * intros ([k b] & -> & Hin). apply elem_of_rewrites in Hin as (e & ? & ? & _). by exists e.
      * intros (e & E & Hlt). exists (i, enc_job (meant e)). split; [done|]. apply elem_of_rewrites. by exists e.
    + unfold cron_migrate_legacy. rewrite (rewrites_ok d' _ Hk' Ht). cbn [snd].
      destruct (rewrites _) as [|[k b] l] eqn:Er; [done|]. assert ((k, b) ∈ rewrites ((fun e => (5%nat, meant e)) <$> m)) as Hin
        by (rewrite Er; left). apply elem_of_rewrites in Hin as (e & E & Hlt & _). rewrite lookup_fmap in E.
      destruct (m !! k); [|done]. injection E as <-. cbn in Hlt. lia.
Qed.

(** ** Run history *)
Section History.
Context `{!CronCodec, !CronCodecLaws}.
Implicit Types d : Datastore.

(** Deleting the first rows of a range leaves the others. *)
Lemma range_drop {V} (jid : string) (hi : Z) (t : gmap (string * Z) V) n :
  let rows := range (jid, 0) (jid, hi) t in
  range (jid, 0) (jid, hi) (foldl (fun t ts => delete (jid, ts) t) t (take n (map (fun e => e.1.2) rows))) = drop n rows.
Proof.
  intros rows. assert (forall e, e ∈ rows -> e.1 = (jid, e.1.2)) as Hjid.
  { intros [[j k] v] [Hk _]%elem_of_scan. apply row_below in Hk as [Hk _]. cbn in *. by subst. }
  assert (forall l, (forall e, e ∈ l -> e ∈ rows) -> map (pair jid) (map (fun e => e.1.2) l) = map fst l) as Hkeys.
  { intros l Hl. rewrite map_map. apply map_ext_in. intros e He%list_elem_of_In. symmetry. apply Hjid, Hl, He. }
  assert (NoDup rows) as Hn by (eapply NoDup_fmap_1, scan_keys).
  assert (rows = take n rows ++ drop n rows) as Hsplit by (by rewrite take_drop).
  assert (forall e, e ∈ rows -> (e ∈ drop n rows <-> e.1 ∉ map fst (take n rows))) as Hdrop.
  { intros e He. split.
    - intros Hd (e' & E & He')%list_elem_of_fmap. assert (e = e') as <-.
      { apply (NoDup_map_inj fst rows); [apply scan_keys|done| |done]. rewrite Hsplit. apply elem_of_app. by left. }
      rewrite Hsplit in Hn. apply NoDup_app in Hn as (_ & Hn & _). by apply (Hn e).
    - intros Hno. rewrite Hsplit in He. apply elem_of_app in He as [He|He]; [|done]. destruct Hno. by apply list_elem_of_fmap_2. }
  rewrite firstn_map.
  apply rows_unique.
  - apply scan_sorted.
  - pose proof (scan_sorted (fun k => key_leb (jid, 0) k && key_ltb k (jid, hi)) t) as Hs. change (StronglySorted row_le rows) in Hs.
    rewrite Hsplit in Hs. by apply StronglySorted_app in Hs as (_ & _ & ?).
  - apply scan_keys.
  - assert (NoDup (map fst rows)) as Hnk by apply scan_keys. rewrite Hsplit, map_app in Hnk. by apply NoDup_app in Hnk as (_ & _ & ?).
  - intros [k v]. unfold range at 1. rewrite elem_of_scan, foldl_delete.
    rewrite (Hkeys (take n rows)) by (intros e He; rewrite Hsplit; apply elem_of_app; by left).
    split.
    + intros [Hk Hv]. case_decide as Hno; [done|]. assert ((k, v) ∈ rows) as Hin by (by apply elem_of_scan). by apply Hdrop.
    + intros Hin. assert ((k, v) ∈ rows) as Hr by (rewrite Hsplit; apply elem_of_app; by right).
      pose proof Hr as Hr'. apply elem_of_scan in Hr' as [Hk Hv]. split; [done|]. apply Hdrop in Hin; [|done].
      by rewrite decide_False.
Qed.

Lemma cron_runs_loop_ok limit (l : list ((string * Z) * CronRun)) acc : (length acc < Nat.max 1 limit)%nat ->
  cron_runs_loop limit (map (fun e => (e.1, enc e.2)) l) acc = take (Nat.max 1 limit) (acc ++ map snd l).
Proof.
  revert acc. induction l as [|[k r] l IH]; intros acc Hl; cbn [cron_runs_loop map fst snd].
  - rewrite app_nil_r. by rewrite take_ge by lia.
  - rewrite <-(app_nil_r (enc r)), dec_enc. rewrite length_app. cbn [length].
    destruct (Nat.leb_spec limit (length acc + 1)) as [Hle|Hlt].
    + rewrite (cons_middle r acc (map snd l)), app_assoc, take_app_length'; [done|]. rewrite length_app. cbn. lia.
    + rewrite IH; [by rewrite <-app_assoc|]. rewrite length_app. cbn. lia.
Qed.
Lemma take_chars_count n l : (char_count (take_chars n l) <= n)%nat.
Proof.
  revert n. induction l as [|b l IH]; intros n; cbn; [lia|]. destruct (is_cont b) eqn:E.
  - unfold char_count in *. cbn. rewrite E. cbn. apply IH.
  - destruct n as [|n]; [cbn; lia|]. unfold char_count in *. cbn. rewrite E. cbn. specialize (IH n). lia.
Qed.
Lemma take_chars_bytes n l : is_bytes l -> is_bytes (take_chars n l).
Proof.
  intros Hl. revert n. induction Hl as [|b l Hb Hl IH]; intros n; [constructor|]. cbn.
  destruct (is_cont b); [constructor; [done|apply IH]|]. destruct n; constructor; [done|apply IH].
Qed.
Lemma truncate_chars_bound s n : (char_count (str_bytes (truncate_chars s n)) <= S n)%nat.
Proof.
  unfold truncate_chars. destruct (Nat.leb_spec (char_count (str_bytes s)) n) as [H1|H1]; [lia|].
  rewrite str_bytes_str by (apply Forall_app; split; [apply take_chars_bytes, is_bytes_str_bytes|solve_bytes]).
  unfold char_count. rewrite List.filter_app, length_app. fold (char_count (take_chars n (str_bytes s))).
  pose proof (take_chars_count n (str_bytes s)). cbn. lia.
Qed.
End History.

(** C16.  Recording the end of a run keeps the fifty newest runs of its job, the one just
    recorded among them as soon as it is new enough, and touches no other job's
    history and no job; the stored message has at most 501 characters; and the
    history reads back newest first, cut to the limit (0 counting as 1). *)
Theorem cron_history_bounded `{!CronCodec, !CronCodecLaws} d m jid started ended st msg limit :
  cron_runs_table d = enc <$> m ->
  let r := {| job_id := jid; started_ms := started; ended_ms := Some ended; status := st;
              message := truncate_chars msg CRON_RUN_MESSAGE_MAX |} in
  let runs := range (jid, 0) (jid, 2 ^ 64 - 1) (<[(jid, started) := r]> m) in
  let d' := cron_run_finish d jid started ended st msg in
  runs_of d' jid = map (fun e => (e.1, enc e.2)) (drop (length runs - 50) runs) /\
  (length (runs_of d' jid) <= 50)%nat /\
  cron_runs d' jid limit = take (Nat.max 1 limit) (map snd (rev (drop (length runs - 50) runs))) /\
  (forall k, k.1 <> jid -> cron_runs_table d' !! k = cron_runs_table d !! k) /\ cron_table d' = cron_table d /\
  (char_count (str_bytes (message r)) <= 501)%nat.
Proof.
  intros Hm r runs d'.
  assert (runs_of (cron_run_put d r) jid = map (fun e => (e.1, enc e.2)) runs) as Hput.
  { unfold runs_of, cron_run_put, runs, range. cbn [cron_runs_table set_cron job_id started_ms r]. by rewrite Hm, <-fmap_insert, scan_fmap. }
  assert (runs_of d' jid = map (fun e => (e.1, enc e.2)) (drop (length runs - 50) runs)) as Hd'.
  { unfold d', cron_run_finish, cron_runs_prune. fold r. cbn [fst]. unfold runs_of at 1. cbn [cron_runs_table set_cron].
    rewrite length_map, Hput, length_map. change CRON_RUNS_KEEP with 50%nat. rewrite <-Hput. unfold runs_of at 1.
    rewrite range_drop. fold (runs_of (cron_run_put d r) jid). by rewrite Hput, skipn_map. }
  split_and!; [done| | | |done|apply truncate_chars_bound].
  - rewrite Hd', length_map, length_drop. lia.
  - unfold cron_runs. rewrite Hd', <-map_rev, cron_runs_loop_ok; [done|cbn; lia].
  - intros k Hk. unfold d', cron_run_finish, cron_runs_prune. cbn [fst cron_runs_table set_cron cron_run_put].
    rewrite foldl_delete, decide_False, lookup_insert_ne; [done| |].
    + cbn. intros <-. done.
    + intros (x & -> & _)%list_elem_of_fmap. done.
Qed.

(** ** A concrete codec for the witnesses *)
#[export] Instance CronJobV0_eq_dec : EqDecision CronJobV0.
Proof. solve_decision. Defined.
#[export] Instance CronJobV0_countable : Countable CronJobV0.
Proof.
  refine (inj_countable' (fun v => (v_id v, v_name v, v_schedule v, v_script v, v_enabled v, (v_last_run v, v_next_run v, v_created_at v, v_tags v)))
    (fun '(a, b, c, d, e, (f, g, h, i)) => {| v_id := a; v_name := b; v_schedule := c; v_script := d; v_enabled := e; v_last_run := f;
       v_next_run := g; v_created_at := h; v_tags := i |}) _). by intros [].
Defined.
Definition status_code (s : CronRunStatus) : nat :=
  match s with Running => 0 | RunOk => 1 | RunError => 2 | Timeout => 3 | Interrupted => 4 end.
Definition status_of (n : nat) : CronRunStatus :=
  match n with 0 => Running | 1 => RunOk | 2 => RunError | 3 => Timeout | _ => Interrupted end%nat.
#[export] Instance CronRun_eq_dec : EqDecision CronRun.
Proof. solve_decision. Defined.
#[export] Instance CronRun_countable : Countable CronRun.
Proof.
  refine (inj_countable' (fun r => (job_id r, started_ms r, ended_ms r, status_code (status r), message r))
    (fun '(a, b, c, d, e) => {| job_id := a; started_ms := b; ended_ms := c; status := status_of d; message := e |}) _).
  by intros [? ? ? [] ?].
Defined.
Definition demo_cron_codec : CronCodec :=
  {| v0_codec := demo_bincode _; ostr_codec := demo_bincode _; osandbox_codec := demo_bincode _; ou64_codec := demo_bincode _;
     run_codec := demo_bincode _ |}.
Lemma demo_cron_laws : CronCodecLaws (H := demo_cron_codec).
Proof. split; try apply demo_bincode_laws; done. Qed.

Definition demo_job (i : string) (nxt : Z) : CronJob :=
  {| id := i; name := "backup"; schedule := "0 * * * * *"; script := "1"; enabled := true; last_run := None; next_run := nxt;
     created_at := 1; tags := []; targets := None; catalog_id := Some "c"%string; sandbox := None; run_as_user := Some "ann"%string;
     timeout_secs := None |}.
(** A record from before every appended field. *)
Definition demo_old : gmap string (nat * CronJob) := {["j"%string := (0%nat, demo_job "j" 5)]}.
Definition demo_old_store : Datastore := set_cron (written (H := demo_cron_codec) <$> demo_old) ∅ empty_store.
Lemma cron_layouts_read_witness :
  cron_get (H := demo_cron_codec) demo_old_store "j" = Ok (Some (since 0 (demo_job "j" 5))) /\
  (cron_migrate_legacy (H := demo_cron_codec) (cron_migrate_legacy (H := demo_cron_codec) demo_old_store).1).2 = [].
Proof.
  destruct (cron_layouts_read (H := demo_cron_codec) (H0 := demo_cron_laws) demo_old_store demo_old) as (H1 & _ & H3).
  - unfold demo_old. apply map_Forall_singleton. unfold known. cbn. lia.
  - reflexivity.
  - split; [exact (H1 "j"%string)|]. destruct (cron_migrate_legacy (H := demo_cron_codec) demo_old_store) as [d' ids]. apply H3.
Defined.
Lemma cron_history_bounded_witness :
  (length (runs_of (cron_run_finish (H := demo_cron_codec) empty_store "j" 5 9 RunOk "done") "j") <= 50)%nat.
Proof.
  apply (cron_history_bounded (H := demo_cron_codec) (H0 := demo_cron_laws) empty_store ∅ "j" 5 9 RunOk "done" 3).
  by rewrite fmap_empty.
Defined.
