(* ===== verification/Scheduler.v ===== *)
(** * Scheduler: polling for due jobs (hop-mcp/src/cron.rs)

    The scheduler's loop over the job store: which jobs a poll starts, and what the
    end of a run records.  A run itself (a script in the embedded interpreter) is
    outside: its outcome and the times are arguments.  The tasks in flight, the
    scripts that outlive their task (past its deadline the thread is abandoned) and
    the set of running job ids are the state; the rendering of an elapsed time is a
    parameter. *)
From S2P Require Import Prelude Text Policy Table Datastore Cron.
From Stdlib Require Import Ascii.
Local Open Scope Z_scope.

Record Task := { t_job : CronJob; t_started : Z }.
(** [abandoned]: the scripts still running on a thread whose task has ended. *)
Record Scheduler := { store : Datastore; running : gset string; tasks : list Task; abandoned : list Task }.
Inductive RunOutcome := Output (s : string) | Failed (msg : string) | DeadlinePassed.

Section Scheduler.
Context `{!CronCodec, !CronCrate, !Bincode KvEntry}.
Variable show_secs : Z -> string.
Implicit Types (d : Datastore) (s : Scheduler).

Definition next_occurrence_ms (sc : Schedule) (after_ms : Z) : Z :=
  if timestamp_ok after_ms then default (u64 (after_ms + 60000)) (schedule_after sc after_ms)
  else u64 (after_ms + 60000).
Definition next_run_of (j : CronJob) (now : Z) : Z :=
  match parse_schedule (schedule j) with
  | Some sc => next_occurrence_ms sc now
  | None => u64 (now + 60000)
  end.

Fixpoint start_due (now : Z) (due : list CronJob) s : Scheduler * option DsErr :=
  match due with
  | [] => (s, None)
  | j :: due =>
      if bool_decide (id j ∈ running s) then start_due now due s else
      match cron_update_last_run (store s) (id j) now (next_run_of j now) with
      | Ok d => start_due now due
          {| store := cron_run_start d (id j) now; running := {[id j]} ∪ running s;
             tasks := tasks s ++ [{| t_job := j; t_started := now |}]; abandoned := abandoned s |}
      | Err e => (s, Some e)
      | Panic => (s, None)
      end
  end.
Definition run_due_jobs s (now : Z) : Scheduler * option DsErr := start_due now (cron_get_due (store s) now) s.

(** ** The end of a run *)
Definition DEFAULT_JOB_TIMEOUT : Z := 300.
Definition job_timeout (j : CronJob) : Z :=
  match timeout_secs j with Some n => if 0 <? n then n else DEFAULT_JOB_TIMEOUT | None => DEFAULT_JOB_TIMEOUT end.
Definition GRACE : Z := 30.

(** [truncate]: the longest prefix of at most [max] bytes that ends between characters. *)
Fixpoint char_end (l : bytes) (n : nat) : nat :=
  match l !! n with
  | Some b => if is_cont b then match n with O => O | S n => char_end l n end else n
  | None => n
  end.
Definition truncate (x : string) (max : nat) : string :=
  if (String.length x <=? max)%nat then x else stake (char_end (str_bytes x) max) x.

Definition run_result (j : CronJob) (started ended : Z) (o : RunOutcome) : CronRunStatus * string :=
  let limit := job_timeout j in
  match o with
  | Output x => (RunOk, truncate x 500)
  | Failed msg =>
      let elapsed := sat_sub ended started in
      if contains "timed out" msg || contains "interrupted" msg || (limit * 1000 <=? elapsed) then
        (Timeout, "exceeded the " +:+ print_uint limit +:+ "s run limit after " +:+ show_secs elapsed +:+ "s (" +:+ msg +:+ ")")
      else (RunError, msg)
  | DeadlinePassed =>
      (Timeout, "still running after " +:+ print_uint (limit + GRACE) +:+
                "s: a blocking call inside the script did not return; the run was abandoned")
  end.

(** [{ts:016}]. *)
Definition pad16 (x : string) : string := bytes_str (replicate (16 - String.length x) 48) +:+ x.
Definition MAX_ERRORS_PER_JOB : nat := 10.
Definition delete_errors d (l : list (string * KvEntry)) : Datastore :=
  foldl (fun d e => (kv_delete d "cron_errors" e.1).1) d l.
Definition store_cron_error d (ts : Z) (jid msg : string) : Datastore :=
  let d := kv_set d "cron_errors" (jid +:+ ":" +:+ pad16 (print_uint ts))
             {| kv_value := str_bytes msg; content_type := "text/plain"; updated_at := ts |} in
  match kv_list d "cron_errors" (jid +:+ ":") with
  | Ok l => if (MAX_ERRORS_PER_JOB <? length l)%nat then delete_errors d (take (length l - MAX_ERRORS_PER_JOB) l) else d
  | _ => d
  end.

(** [&msg[..250]] panics inside a character. *)
Definition str_slice {E} (x : string) (n : nat) : rust E string :=
  match str_bytes x !! n with
  | Some b => if is_cont b then Panic else Ok (stake n x)
  | None => if (n =? String.length x)%nat then Ok x else Panic
  end.
Definition sms_body (nm msg : string) : rust Empty_set string :=
  if (280 <? String.length msg)%nat then
    cut ← str_slice msg 250;
    Ok ("[hop] " +:+ nm +:+ " failed: " +:+ cut +:+ "...")
  else Ok ("[hop] " +:+ msg).
Definition notify_cron_failure d (now : Z) (j : CronJob) (msg : string) : rust Empty_set Datastore :=
  let key := "sms_cooldown:" +:+ id j in
  let cooling := match kv_get d "cron_notify" key with
                 | Ok (Some e) => sat_sub now (updated_at e) <? 3600000
                 | _ => false
                 end in
  if cooling then Ok d else
  _ ← sms_body (name j) msg;
  Ok (kv_set d "cron_notify" key {| kv_value := [49]; content_type := "text/plain"; updated_at := now |}).

Definition status_str (st : CronRunStatus) : string :=
  match st with Running => "running" | RunOk => "ok" | RunError => "error" | Timeout => "timeout" | Interrupted => "interrupted" end.
(** What a run's task does when the script is done, reading the clock three times. *)
Definition record_run d (j : CronJob) (started ended err_now sms_now : Z) (o : RunOutcome) : Datastore :=
  let '(st, msg) := run_result j started ended o in
  let d := cron_run_finish d (id j) started ended st msg in
  match st with
  | RunOk => d
  | _ =>
      let text := "Cron job '" +:+ name j +:+ "' (" +:+ id j +:+ ") " +:+ status_str st +:+ ": " +:+ msg in
      let d := store_cron_error d err_now (id j) text in
      match notify_cron_failure d sms_now j text with Ok d => d | _ => d end
  end.
(** Past the deadline only the waiting for the script ends, not the script. *)
Definition leaves_script (o : RunOutcome) : bool := match o with DeadlinePassed => true | _ => false end.
(** The guard of a task releases its job when the task ends, by panic too; the script may go on. *)
Definition release s (i : nat) (t : Task) (script_left : bool) : Scheduler :=
  {| store := store s; running := running s ∖ {[id (t_job t)]}; tasks := take i (tasks s) ++ drop (S i) (tasks s);
     abandoned := if script_left then t :: abandoned s else abandoned s |}.
Definition with_store s d : Scheduler := {| store := d; running := running s; tasks := tasks s; abandoned := abandoned s |}.
Definition boot d (now : Z) : Scheduler :=
  {| store := (cron_runs_mark_interrupted d now).1; running := ∅; tasks := []; abandoned := [] |}.
(** An abandoned script's thread ends. *)
Definition thread_ends s (i : nat) : Scheduler :=
  {| store := store s; running := running s; tasks := tasks s; abandoned := take i (abandoned s) ++ drop (S i) (abandoned s) |}.

(** Polls, ends of runs and of abandoned threads, and what other users of the store do meanwhile. *)
Inductive sched_step : Scheduler -> Scheduler -> Prop :=
| step_tick s now : sched_step s (run_due_jobs s now).1
| step_finish s i t ended err_now sms_now o : tasks s !! i = Some t ->
    sched_step s (release (with_store s (record_run (store s) (t_job t) (t_started t) ended err_now sms_now o)) i t (leaves_script o))
| step_panic s i t script_left : tasks s !! i = Some t -> sched_step s (release s i t script_left)
| step_thread s i : sched_step s (thread_ends s i)
| step_store s d : sched_step s (with_store s d).
End Scheduler.

(** ** At most one instance of a job *)
Section Instances.
Context `{!CronCodec, !CronCrate, !Bincode KvEntry}.
Variable show_secs : Z -> string.
Implicit Types s : Scheduler.

Definition task_ids s : list string := map (fun t => id (t_job t)) (tasks s).
(** The running set is the ids of the tasks in flight, each once. *)
Definition consistent s : Prop := NoDup (task_ids s) /\ running s = list_to_set (task_ids s).

Lemma start_due_consistent now due s : consistent s -> consistent (start_due now due s).1.
Proof.
  revert s. induction due as [|j due IH]; intros s Hs; [done|]. cbn. case_bool_decide as Hr; [by apply IH|].
  destruct (cron_update_last_run _ _ _ _) as [d|e|]; [|exact Hs..]. apply IH. destruct Hs as [Hn Hset].
  unfold consistent, task_ids in *. cbn. rewrite map_app. cbn. split.
  - apply NoDup_app. split; [done|]. split; [|apply NoDup_singleton]. intros x Hx ->%list_elem_of_singleton.
    apply Hr. rewrite Hset. by apply elem_of_list_to_set.
  - rewrite list_to_set_app_L. cbn. rewrite Hset. set_solver.
Qed.
Lemma release_consistent s i t left : tasks s !! i = Some t -> consistent s -> consistent (release s i t left).
Proof.
  intros Ht [Hn Hset]. unfold consistent, task_ids in *. cbn [release tasks running]. rewrite Hset.
  pose proof (take_drop_middle (tasks s) i t Ht) as Hsplit. revert Hn Hsplit.
  generalize (take i (tasks s)), (drop (S i) (tasks s)). intros l1 l2 Hn Hsplit. rewrite <-Hsplit in Hn |- *.
  rewrite !map_app in *. cbn in *. apply NoDup_app in Hn as (N1 & N2 & N3). apply NoDup_cons in N3 as [N3 N4]. split.
  - apply NoDup_app. split; [done|]. split; [|done]. intros x Hx Hd. apply (N2 x Hx). by right.
  - rewrite !list_to_set_app_L. cbn. apply set_eq. intros x. rewrite elem_of_difference, !elem_of_union, !elem_of_list_to_set, elem_of_singleton.
    split; [tauto|]. intros Hx. split; [tauto|]. intros ->. destruct Hx as [Hx|Hx]; [apply (N2 _ Hx); left|done].
Qed.
End Instances.

(** The runs whose script is executing. *)
Definition scripts (s : Scheduler) : list Task := tasks s ++ abandoned s.

(** C13.  However polls, ends of runs, passed deadlines, panics and edits of the store are
    interleaved, a job has at most one run the scheduler is waiting for, and the running
    set holds it back exactly while it has one.  Of the scripts of one job that execute at
    the same time all but one are therefore abandoned ones, whose deadline has passed or
    whose task has panicked; without such there is only one. *)
Theorem one_instance_per_job `{!CronCodec, !CronCrate, !Bincode KvEntry} show d now s :
  rtc (sched_step show) (boot d now) s ->
  NoDup (map (fun t => id (t_job t)) (tasks s)) /\
  (forall i, i ∈ running s <-> i ∈ map (fun t => id (t_job t)) (tasks s)) /\
  (forall n n' t t', scripts s !! n = Some t -> scripts s !! n' = Some t' -> n <> n' -> id (t_job t) = id (t_job t') ->
     t ∈ abandoned s \/ t' ∈ abandoned s).
Proof.
  intros Hr. assert (consistent s) as [Hn Hset].
  { revert Hr. generalize (boot d now), (conj (NoDup_nil_2) eq_refl : consistent (boot d now)). clear.
    intros s0 Hs0 Hr. induction Hr as [s|s1 s2 s3 Hstep _ IH]; [done|]. apply IH. destruct Hstep as [s now|s i t ended e1 e2 o Ht|s i t left Ht|s i|s d].
    - by apply start_due_consistent.
    - by apply release_consistent.
    - by apply release_consistent.
    - done.
    - done. }
  split; [done|]. split; [intros i; by rewrite Hset, elem_of_list_to_set|].
  intros n n' t t' [Hl|[_ Hl]]%lookup_app_Some [Hl'|[_ Hl']]%lookup_app_Some Hne He;
    [|right; by eapply list_elem_of_lookup_2|left; by eapply list_elem_of_lookup_2..].
  destruct Hne. eapply NoDup_lookup; [exact Hn|..]; unfold task_ids; rewrite list_lookup_fmap; [by rewrite Hl|rewrite Hl'; cbn; by rewrite He].
Qed.

(** ** Due jobs are started *)
Section Due.
Context `{!CronCodec, !CronCodecLaws, !CronCrate, !Bincode KvEntry}.
Implicit Types (d : Datastore) (s : Scheduler).

(** A record is stored under the id of its job, as [cron_add] does. *)
Definition keyed d : Prop := forall k b j f, cron_table d !! k = Some b -> decode_job b = Ok (j, f) -> id j = k.
Definition has_record d (j : CronJob) : Prop := exists b f, cron_table d !! id j = Some b /\ decode_job b = Ok (j, f).

Lemma elem_of_cron_list d j : j ∈ cron_list d <-> exists k b f, cron_table d !! k = Some b /\ decode_job b = Ok (j, f).
Proof.
  unfold cron_list. rewrite list_elem_of_omap. split.
  - intros ([k b] & Hin%elem_of_entries & E). cbn in E. destruct (decode_job b) as [[j' f]| |] eqn:Ej; [|done..]. injection E as ->. by eauto.
  - intros (k & b & f & Hk & Ej). exists (k, b). rewrite elem_of_entries. split; [done|]. cbn. by rewrite Ej.
Qed.
Lemma keyed_record d j : keyed d -> j ∈ cron_list d -> has_record d j.
Proof. intros Hk (k & b & f & Hb & Ej)%elem_of_cron_list. rewrite <-(Hk _ _ _ _ Hb Ej) in Hb. by exists b, f. Qed.
Lemma keyed_ids d : keyed d -> NoDup (map id (cron_list d)).
Proof.
  intros Hk. unfold cron_list. pose proof (NoDup_entries (cron_table d)) as Hn.
  assert (forall e, e ∈ entries (cron_table d) -> cron_table d !! e.1 = Some e.2) as He by (intros [k b]; apply elem_of_entries).
  induction (entries (cron_table d)) as [|[k b] l IH]; [constructor|]. cbn in Hn |- *. apply NoDup_cons in Hn as [Hkl Hn].
  assert (NoDup (map id (omap (fun e : string * bytes => match decode_job e.2 with Ok (j, _) => Some j | _ => None end) l))) as IH'.
  { apply IH; [done|]. intros e Hin. apply He. by right. }
  destruct (decode_job b) as [[j f]| |] eqn:Ej; cbn; [|done..]. constructor; [|done].
  intros (j' & E & Hj')%list_elem_of_fmap. apply list_elem_of_omap in Hj' as ([k' b'] & Hin & Ej'). cbn in Ej'.
  destruct (decode_job b') as [[j'' f']| |] eqn:Ej''; [|done..]. injection Ej' as ->.
  rewrite (Hk k b j f (He (k, b) ltac:(left)) Ej) in E. apply Hkl. rewrite E.
  rewrite (Hk k' b' j' f' (He (k', b') ltac:(by right)) Ej''). by apply (list_elem_of_fmap_2 fst _ (k', b')).
Qed.

Definition idle s (j : CronJob) : bool := negb (bool_decide (id j ∈ running s)).
Lemma start_due_ok now due s : NoDup (map id due) -> (forall j, j ∈ due -> has_record (store s) j) ->
  exists s', start_due now due s = (s', None) /\
    tasks s' = tasks s ++ map (fun j => {| t_job := j; t_started := now |}) (List.filter (idle s) due) /\
    (forall j, j ∈ due -> id j ∉ running s ->
      cron_table (store s') !! id j = Some (enc_job (set_run now (next_run_of j now) j))) /\
    (forall k, (forall j, j ∈ due -> id j ∉ running s -> k <> id j) -> cron_table (store s') !! k = cron_table (store s) !! k).
Proof.
  revert s. induction due as [|j due IH]; intros s Hn Hrec; cbn [start_due map List.filter].
  { exists s. split_and!; [done|by rewrite app_nil_r|by intros ? ?%elem_of_nil|done]. }
  cbn in Hn. apply NoDup_cons in Hn as [Hj Hn]. unfold idle at 1. case_bool_decide as Hr; cbn [negb].
  - destruct (IH s Hn) as (s' & E & Ht & Hup & Hsame); [intros; apply Hrec; by right|]. exists s'. split_and!; [done|done| |].
    + intros j' [->|Hj']%elem_of_cons; [done|by apply Hup].
    + intros k Hk. apply Hsame. intros j' Hj'. apply Hk. by right.
  - destruct (Hrec j) as (b & f & Hb & Ej); [left|]. unfold cron_update_last_run. rewrite Hb. cbn [or_err mbind rust_bind].
    rewrite Ej. cbn [mbind rust_bind]. set (s1 := {| store := _; running := _; tasks := _; abandoned := _ |}).
    assert (forall k, k <> id j -> cron_table (store s1) !! k = cron_table (store s) !! k) as Hother.
    { intros k Hk. cbn. by rewrite lookup_insert_ne by congruence. }
    assert (forall j', j' ∈ due -> id j' <> id j) as Hne by (intros j' Hj' E; apply Hj; rewrite <-E; by apply list_elem_of_fmap_2).
    destruct (IH s1 Hn) as (s' & E & Ht & Hup & Hsame).
    { intros j' Hj'. destruct (Hrec j') as (b' & f' & Hb' & Ej'); [by right|]. exists b', f'. rewrite Hother by (by apply Hne). done. }
    exists s'. split_and!; [done| | |].
    + rewrite Ht. cbn [tasks s1]. rewrite <-app_assoc. cbn. do 3 f_equal.
      apply filter_ext_in. intros j' Hj'%list_elem_of_In. unfold idle. cbn [running s1]. f_equal. apply bool_decide_ext.
      pose proof (Hne j' Hj'). set_solver.
    + intros j' [->|Hj']%elem_of_cons Hnr.
      * rewrite Hsame; [cbn; apply lookup_insert_eq|]. intros j' Hj' _. by apply not_eq_sym, Hne.
      * apply Hup; [done|]. cbn. pose proof (Hne _ Hj'). set_solver.
    + intros k Hk. rewrite Hsame; [apply Hother, Hk; [left|done]|].
      intros j' Hj' Hnr. apply Hk; [by right|]. cbn in Hnr. set_solver.
Qed.
End Due.

(** A schedule's next occurrence lies in the future. *)
Class CronCrateLaws `{!CronCrate} : Prop := schedule_after_later sc t n : schedule_after sc t = Some n -> t < n.

(** A poll starts every enabled job that is due and not in flight, once, in the order
    of their ids, and no other job; it does not fail; and nothing it started is still
    due at that time afterwards. *)
Theorem due_jobs_started `{!CronCodec, !CronCodecLaws, !CronCrate, !CronCrateLaws, !Bincode KvEntry} s now :
  keyed (store s) -> 0 <= now < 2 ^ 64 - 60000 ->
  exists s', run_due_jobs s now = (s', None) /\
    tasks s' = tasks s ++ map (fun j => {| t_job := j; t_started := now |}) (List.filter (idle s) (cron_get_due (store s) now)) /\
    keyed (store s') /\
    (forall j, j ∈ cron_get_due (store s') now -> id j ∈ running s) /\
    forall j, j ∈ cron_list (store s) -> id j ∉ running s -> enabled j = true -> next_run j <= now ->
      cron_get (store s') (id j) = Ok (Some (set_run now (next_run_of j now) j)) /\ now < next_run_of j now.
Proof.
  intros Hk Hnow.
  assert (forall j, j ∈ cron_get_due (store s) now <-> j ∈ cron_list (store s) /\ enabled j = true /\ next_run j <= now) as Hdue.
  { intros j. unfold cron_get_due. rewrite list_elem_of_In, filter_In, <-list_elem_of_In, andb_true_iff, Z.leb_le. done. }
  assert (forall j, now < next_run_of j now) as Hlater.
  { intros j. unfold next_run_of, next_occurrence_ms. assert (now < u64 (now + 60000)) by (unfold u64; rewrite Z.mod_small; lia).
    destruct (parse_schedule (schedule j)) as [sc|]; [|done]. destruct (timestamp_ok now); [|done].
    destruct (schedule_after sc now) eqn:E; [|done]. by apply schedule_after_later in E. }
  destruct (start_due_ok now (cron_get_due (store s) now) s) as (s' & E & Ht & Hup & Hsame).
  - pose proof (keyed_ids _ Hk) as Hn. unfold cron_get_due. clear -Hn.
    induction (cron_list (store s)) as [|j l IH]; [constructor|]. cbn in Hn |- *.
    apply NoDup_cons in Hn as [Hj Hn]. destruct (_ && _); cbn; [|by apply IH]. constructor; [|by apply IH].
    intros (j' & Ej & Hj')%list_elem_of_fmap. apply Hj. rewrite Ej. apply list_elem_of_fmap_2.
    apply list_elem_of_In, filter_In in Hj' as [Hj' _]. by apply list_elem_of_In.
  - intros j [Hj _]%Hdue. by apply keyed_record.
  - exists s'. assert (forall k b j f, cron_table (store s') !! k = Some b -> decode_job b = Ok (j, f) ->
      (id j = k /\ (((k ∉ running s) /\ exists j0, j0 ∈ cron_get_due (store s) now /\ id j0 = k /\ j = set_run now (next_run_of j0 now) j0) \/
       cron_table (store s) !! k = Some b /\ ~ ((k ∉ running s) /\ k ∈ map id (cron_get_due (store s) now))))) as Hcase.
    { intros k b j f Hb Ej. destruct (decide ((k ∉ running s) /\ k ∈ map id (cron_get_due (store s) now))) as [[Hr Hin]|Hno].
      - apply list_elem_of_fmap in Hin as (j0 & -> & Hj0). rewrite (Hup j0 Hj0 Hr) in Hb. injection Hb as <-.
        rewrite decode_job_current in Ej. injection Ej as <- _. split; [done|]. left. split; [done|]. by exists j0.
      - rewrite Hsame in Hb; [|intros j0 Hj0 Hr ->; apply Hno; split; [done|by apply list_elem_of_fmap_2]].
        split; [by eapply Hk|by right]. }
    split_and!; [done|done| | |].
    + intros k b j f Hb Ej. by destruct (Hcase k b j f Hb Ej) as [? _].
    + intros j Hj. unfold cron_get_due in Hj. apply list_elem_of_In, filter_In in Hj as [Hj%list_elem_of_In [Hen Hle%Z.leb_le]%andb_true_iff].
      apply elem_of_cron_list in Hj as (k & b & f & Hb & Ej). destruct (Hcase k b j f Hb Ej) as (<- & [[_ (j0 & _ & _ & ->)]|[Hb0 Hno]]).
      * cbn in Hle. specialize (Hlater j0). lia.
      * destruct (decide (id j ∈ running s)) as [|Hr]; [done|]. destruct Hno. split; [done|]. apply list_elem_of_fmap_2, Hdue.
        split; [|done]. apply elem_of_cron_list. by exists (id j), b, f.
    + intros j Hj Hr Hen Hle. split; [|done]. unfold cron_get. rewrite Hup; [|by apply Hdue|done]. by rewrite decode_job_current.
Qed.

(** A failure message longer than 280 bytes whose 250th and 251st bytes are one
    character makes the notification panic. *)
Theorem notify_panics nm :
  sms_body nm (bytes_str (replicate 249 97 ++ [195; 169] ++ replicate 40 97)) = Panic.
Proof. reflexivity. Qed.

Definition demo_cron_crate : CronCrate :=
  {| Schedule := unit; parse_schedule := fun _ => Some tt; schedule_after := fun _ t => Some (t + 60000); timestamp_ok := fun _ => true |}.
Lemma demo_crate_laws : CronCrateLaws (H := demo_cron_crate).
Proof. intros sc t n. cbn. intros [= <-]. lia. Qed.
Definition demo_sched : Scheduler :=
  {| store := set_cron {["j"%string := enc_job (H := demo_cron_codec) (demo_job "j" 5)]} ∅ empty_store; running := ∅; tasks := []; abandoned := [] |}.
Lemma demo_keyed : keyed (H := demo_cron_codec) (store demo_sched).
Proof.
  intros k b j f. cbn [demo_sched store set_cron cron_table]. rewrite lookup_singleton_Some. intros [<- <-].
  rewrite (decode_job_current (H0 := demo_cron_laws)). intros [= <- _]. done.
Qed.
Lemma due_jobs_started_witness :
  exists s', run_due_jobs (H := demo_cron_codec) (H0 := demo_cron_crate) demo_sched 100 = (s', None) /\ length (tasks s') = 1%nat.
Proof.
  destruct (due_jobs_started (H := demo_cron_codec) (H0 := demo_cron_laws) (H1 := demo_cron_crate) (H2 := demo_crate_laws)
    (Bincode0 := demo_bincode KvEntry) demo_sched 100) as (s' & E & Ht & _).
  - exact demo_keyed.
  - lia.
  - exists s'. split; [exact E|]. rewrite Ht. vm_compute. reflexivity.
Defined.
Lemma one_instance_per_job_witness :
  exists s, rtc (sched_step (H := demo_cron_codec) (H0 := demo_cron_crate) (Bincode0 := demo_bincode KvEntry) (fun _ => EmptyString))
    (boot (H := demo_cron_codec) (store demo_sched) 0) s /\ NoDup (map (fun t => id (t_job t)) (tasks s)) /\ length (tasks s) = 1%nat.
Proof.
  set (s1 := (run_due_jobs (H := demo_cron_codec) (H0 := demo_cron_crate) (boot (H := demo_cron_codec) (store demo_sched) 0) 100).1).
  assert (rtc (sched_step (H := demo_cron_codec) (H0 := demo_cron_crate) (Bincode0 := demo_bincode KvEntry) (fun _ => EmptyString))
    (boot (H := demo_cron_codec) (store demo_sched) 0) s1) as Hr by (apply rtc_once, step_tick).
  exists s1. split; [exact Hr|]. split; [exact (proj1 (one_instance_per_job _ _ _ _ Hr))|]. vm_compute. reflexivity.
Defined.

(** Two runs of one job can execute at once: when the first one's deadline has passed its script is
    left to itself and the job released, and the next poll starts the second. *)
Theorem abandoned_run_overlaps :
  exists s t t', rtc (sched_step (H := demo_cron_codec) (H0 := demo_cron_crate) (Bincode0 := demo_bincode KvEntry) (fun _ => EmptyString))
    (boot (H := demo_cron_codec) (store demo_sched) 0) s /\
    scripts s = [t; t'] /\ id (t_job t) = "j"%string /\ id (t_job t') = "j"%string /\ (t_started t', t_started t) = (100, 400000).
Proof.
  set (s1 := (run_due_jobs (H := demo_cron_codec) (H0 := demo_cron_crate) (boot (H := demo_cron_codec) (store demo_sched) 0) 100).1).
  destruct (tasks s1 !! 0%nat) as [t|] eqn:Ht; [|by vm_compute in Ht].
  set (s2 := release (with_store s1 (record_run (H := demo_cron_codec) (Bincode0 := demo_bincode KvEntry) (fun _ => EmptyString) (store s1) (t_job t) (t_started t) 340000 340000 340000 DeadlinePassed)) 0 t true).
  set (s3 := (run_due_jobs (H := demo_cron_codec) (H0 := demo_cron_crate) s2 400000).1).
  assert (exists t', scripts s3 = [t'; t] /\ id (t_job t') = "j"%string /\ id (t_job t) = "j"%string /\ (t_started t, t_started t') = (100, 400000)) as (t' & E).
  { subst s3 s2. vm_compute in Ht. injection Ht as <-. eexists. split_and!; by vm_compute. }
  exists s3, t', t. split; [|exact E].
  apply (rtc_l _ _ s1 _ (step_tick _ _ 100)), (rtc_l _ _ s2 _ (step_finish _ s1 0 t 340000 340000 340000 DeadlinePassed Ht)).
  apply rtc_once. exact (step_tick _ s2 400000).
Qed.
