(* ===== verification/Fleet.v ===== *)
(** * Fleet: roles, fleet members and aggregate invites (hop-core/src/fleet/mod.rs)

    The stores a host keeps for its fleet, each a JSON file of the config directory,
    and the administrative handlers over them.  A file (Invite.v) is missing, unreadable or
    holds a store; saving truncates and rewrites it in place, so a failure to open
    leaves it as it was and a failure to write leaves it unreadable.  The password
    hash, the random bytes, the token text and the clock are parameters. *)
From S2P Require Import Prelude Addr Text Policy Config Invite Auth Acl DocStore Netdoc.
From Stdlib Require Import Ascii.
Local Open Scope Z_scope.

Record FleetMember := {
  fm_node_id : string; fm_hostname : string; fm_tags : list string; fm_registered_at : string;
  fm_last_heartbeat : option string; fm_relay_url : option string; fm_online : bool;
}.
Record AggregateInvite := { ag_secret_hash : string; ag_role : string; ag_peer_name : string; ag_created_at : Z }.
Record AggregateInviteToken := {
  at_node_id : string; at_secret : string; at_relay_url : option string; at_role : string; at_peer_name : string;
}.
Record FleetMemberInfo := { fi_node_id : string; fi_hostname : string; fi_tags : list string; fi_online : bool; fi_last_heartbeat : option string }.
Record RedeemHostEntry := { rh_hostname : string; rh_node_id : string; rh_relay_url : option string; rh_invite_token : string }.
Record PeerInfo := { pi_node_id : string; pi_name : string; pi_role : PeerRole; pi_username : option string; pi_last_seen : option string }.
Record RoleUpdates := {
  add_tags : list string; remove_tags : list string; up_sudo : option bool; up_admin : option bool;
  up_groups : option (list string); up_shell : option (option string); up_user_mode : option UserMode;
  up_network_only : option bool; up_sandbox : option SandboxPolicy; up_exec_tags : option (list string);
  up_search_tags : option (list string);
}.

(** The config directory as administration sees it. *)
Record HostDir := {
  cfg : ConfigDir;
  peers_file : json_file Peer;
  roles_file : json_file RoleDefinition;
  fleet_file : json_file FleetMember;
  aggregate_file : json_file AggregateInvite;
  admin_log : list (Z * string * string);
  disk : string -> disk_state;
}.
Definition set_cfg c (h : HostDir) : HostDir :=
  {| cfg := c; peers_file := peers_file h; roles_file := roles_file h; fleet_file := fleet_file h;
     aggregate_file := aggregate_file h; admin_log := admin_log h; disk := disk h |}.
Definition set_peers f (h : HostDir) : HostDir :=
  {| cfg := cfg h; peers_file := f; roles_file := roles_file h; fleet_file := fleet_file h;
     aggregate_file := aggregate_file h; admin_log := admin_log h; disk := disk h |}.
Definition set_roles f (h : HostDir) : HostDir :=
  {| cfg := cfg h; peers_file := peers_file h; roles_file := f; fleet_file := fleet_file h;
     aggregate_file := aggregate_file h; admin_log := admin_log h; disk := disk h |}.
Definition set_fleet f (h : HostDir) : HostDir :=
  {| cfg := cfg h; peers_file := peers_file h; roles_file := roles_file h; fleet_file := f;
     aggregate_file := aggregate_file h; admin_log := admin_log h; disk := disk h |}.
Definition set_aggregate f (h : HostDir) : HostDir :=
  {| cfg := cfg h; peers_file := peers_file h; roles_file := roles_file h; fleet_file := fleet_file h;
     aggregate_file := f; admin_log := admin_log h; disk := disk h |}.
Definition set_log l (h : HostDir) : HostDir :=
  {| cfg := cfg h; peers_file := peers_file h; roles_file := roles_file h; fleet_file := fleet_file h;
     aggregate_file := aggregate_file h; admin_log := l; disk := disk h |}.

(** ** Responses; an error names its cause *)
Inductive admin_error :=
| LoadFailed | SaveFailed | RoleExists (n : string) | RoleNotFound (n : string) | RoleGone (n : string)
| UnknownTier (t : string) | NoWarren | MintFailed (e : mint_error) | RevokeFailed (e : revoke_error) | HashFailed
| BadAggregateSecret | NeedsDaemonSocket | NeedsNetdoc | NoDatastore | InvalidUsername | CreateUserFailed | InviteAfterUserFailed (e : mint_error)
| PermissionDenied | NoRosterEntry.
Inductive AdminResponse :=
| InviteCreated (token : string)
| HostIdentity (node : string)
| PeerList (peers : list PeerInfo)
| PeerRemoved (success : bool)
| PeerRenamed (success : bool)
| Pruned (members : list (string * string))
| PeerRoleUpdated (success : bool)
| UserCreated (username : string) (invite_token : option string)
| HostStatus (peer_count active_sessions : nat)
| FleetInviteCreated (token : string)
| FleetList (members : list FleetMemberInfo)
| FleetMemberRemoved (success : bool)
| FleetTagsUpdated (success : bool)
| RoleCreated (n : string)
| RoleList (roles : list RoleDefinition)
| RoleUpdated (n : string)
| RoleDeleted (n : string)
| AggregateInviteCreated (token : string)
| AggregateInviteRedeemed (hosts : list RedeemHostEntry)
| MetricsReceived (count : nat)
| InviteList (invites : list PendingInviteInfo)
| InviteRevoked (i : string)
| PeerReadmitted (node nm : string)
| AdminError (e : admin_error).

(** ** Liveness of members *)
Definition DEFAULT_LIVENESS_WINDOW_SECS : Z := 15 * 60.
Definition MAX_FUTURE_SKEW_SECS : Z := 10 * 60.
Definition parse_last_seen (raw : option string) (now : Z) : option Z :=
  ls ← raw ≫= (fun r => parse_uint (2 ^ 64 - 1) (trim r));
  if ls <=? sat_add64 now MAX_FUTURE_SKEW_SECS then Some ls else None.
Record WarrenMemberInfo := {
  wm_node_id : string; wm_name : string; wm_role : string; wm_vip : option string; wm_tags : list string; wm_last_seen : option string;
}.
Record WarrenSnapshot := {
  ws_namespace : option string; ws_members : list WarrenMemberInfo; ws_roles : list RoleDefinition; ws_updated_at : Z;
}.
Definition last_seen_age_secs (m : WarrenMemberInfo) (now : Z) : option Z :=
  (fun ls => sat_sub now ls) <$> parse_last_seen (wm_last_seen m) now.
Definition is_online (m : WarrenMemberInfo) (now window_secs : Z) : bool :=
  match last_seen_age_secs m now with Some age => age <=? window_secs | None => false end.
Definition warren_member_count (snap : option WarrenSnapshot) (namespace : string) : option nat :=
  s ← snap;
  if bool_decide (ws_namespace s = Some namespace) then Some (length (ws_members s)) else None.

(** ** The membership snapshot *)
Definition role_label (p : Peer) : string :=
  match role_name p with Some n => n | None => match role p with RolePeer => "peer" | RoleCreator => "creator" end end.
Definition join_warren_snapshot (peers : list Peer) (roles : list RoleDefinition) (vips : list (Ipv4Addr * string))
    (tags : gmap string (list string)) (namespace : option string) : WarrenSnapshot :=
  let vip_by_node : gmap string string := foldl (fun m v => <[v.2 := print_ipv4 v.1]> m) ∅ vips in
  {| ws_namespace := namespace;
     ws_members := map (fun p => {| wm_node_id := node_id p; wm_name := name p; wm_role := role_label p;
                                    wm_vip := match vip p with Some v => Some v | None => vip_by_node !! node_id p end;
                                    wm_tags := default [] (tags !! node_id p); wm_last_seen := last_seen p |}) peers;
     ws_roles := roles; ws_updated_at := 0 |}.
(** The later of the two kinds of contact, [vpn_seen] being the last VPN packet of an endpoint. *)
Definition merge_vpn_seen (vpn_seen : string -> option Z) (now : Z) (p : Peer) : Peer :=
  match vpn_endpoint p ≫= vpn_seen with
  | Some seen =>
      if default 0 (parse_last_seen (last_seen p) now) <? seen then
        {| node_id := node_id p; name := name p; authorized_at := authorized_at p; last_seen := Some (print_uint seen);
           username := username p; role := role p; role_name := role_name p; netdoc_author := netdoc_author p;
           self_doc := self_doc p; vip := vip p; vpn_endpoint := vpn_endpoint p; site_id := site_id p; sandbox := sandbox p |}
      else p
  | None => p
  end.
Definition build_warren_snapshot (peers : list Peer) (roles : list RoleDefinition) (vips : list (Ipv4Addr * string))
    (tags : gmap string (list string)) (namespace : string) (vpn_seen : string -> option Z) (now : Z) : WarrenSnapshot :=
  let s := join_warren_snapshot (map (merge_vpn_seen vpn_seen now) peers) roles vips tags (Some namespace) in
  {| ws_namespace := ws_namespace s; ws_members := ws_members s; ws_roles := ws_roles s; ws_updated_at := now |}.

(** ** Roles *)
Definition plain_role (n : string) (ht : list string) (su ad net : bool) (um : UserMode) (gr : list string) (sb : SandboxPolicy) : RoleDefinition :=
  {| rd_name := n; host_tags := ht; user_mode := um; sudo := su; admin := ad; Acl.groups := gr; shell := None; network_only := net;
     rd_sandbox := sb; capabilities := []; exec_tags := []; search_tags := [] |}.
Definition member_role : RoleDefinition := plain_role "member" ["*"%string] false false false Individual [] unrestricted.
Definition find_role (roles : list RoleDefinition) (n : string) : option RoleDefinition :=
  List.find (fun r => bool_decide (rd_name r = n)) roles.
Definition ensure_member (roles : list RoleDefinition) : list RoleDefinition * bool :=
  if existsb (fun r => bool_decide (rd_name r = "member"%string)) roles then (roles, false) else (roles ++ [member_role], true).
Definition default_roles : list RoleDefinition :=
  [member_role;
   plain_role "admin" ["*"%string] true true false Individual ["docker"%string] unrestricted;
   plain_role "ops" ["*"%string] true false false Individual ["docker"%string] unrestricted;
   plain_role "warren-only" [] false false true Individual [] unrestricted;
   plain_role "developer" ["developer"; "staging"]%string false false false Individual [] unrestricted;
   plain_role "security" ["production"; "staging"]%string false false false Individual [] preset_audit;
   plain_role "ci" ["build"%string] false false false SharedUser [] preset_deploy].
Definition seed_defaults (h : HostDir) : HostDir * option (list RoleDefinition) :=
  let '(f, ok) := save (disk h "roles.json") (roles_file h) default_roles in
  (set_roles f h, if ok then Some default_roles else None).

(** Save the roles and answer [resp], or the error. *)
Definition save_roles (h : HostDir) (roles : list RoleDefinition) (resp : AdminResponse) : HostDir * AdminResponse :=
  let '(f, ok) := save (disk h "roles.json") (roles_file h) roles in
  (set_roles f h, if ok then resp else AdminError SaveFailed).
Definition handle_create_role (h : HostDir) (def : RoleDefinition) : HostDir * AdminResponse :=
  match load (roles_file h) with
  | None => (h, AdminError LoadFailed)
  | Some roles =>
      if existsb (fun r => bool_decide (rd_name r = rd_name def)) roles then (h, AdminError (RoleExists (rd_name def)))
      else save_roles h (roles ++ [def]) (RoleCreated (rd_name def))
  end.
Definition handle_list_roles (h : HostDir) : HostDir * AdminResponse :=
  (h, match load (roles_file h) with Some roles => RoleList roles | None => AdminError LoadFailed end).
Definition add_tag (tags : list string) (t : string) : list string := if bool_decide (t ∈ tags) then tags else tags ++ [t].
Definition apply_updates (u : RoleUpdates) (r : RoleDefinition) : RoleDefinition :=
  let ht := List.filter (fun t => negb (bool_decide (t ∈ remove_tags u))) (foldl add_tag (host_tags r) (add_tags u)) in
  {| rd_name := rd_name r; host_tags := ht; user_mode := default (user_mode r) (up_user_mode u); sudo := default (sudo r) (up_sudo u);
     admin := default (admin r) (up_admin u); Acl.groups := default (Acl.groups r) (up_groups u); shell := default (shell r) (up_shell u);
     network_only := default (network_only r) (up_network_only u); rd_sandbox := default (rd_sandbox r) (up_sandbox u);
     capabilities := capabilities r; exec_tags := default (exec_tags r) (up_exec_tags u);
     search_tags := default (search_tags r) (up_search_tags u) |}.
Definition handle_update_role (h : HostDir) (n : string) (u : RoleUpdates) : HostDir * AdminResponse :=
  match load (roles_file h) with
  | None => (h, AdminError LoadFailed)
  | Some roles =>
      match find_role roles n with
      | None => (h, AdminError (RoleNotFound n))
      | Some _ => save_roles h (update_first (fun r => bool_decide (rd_name r = n)) (apply_updates u) roles) (RoleUpdated n)
      end
  end.
Definition handle_delete_role (h : HostDir) (n : string) : HostDir * AdminResponse :=
  match load (roles_file h) with
  | None => (h, AdminError LoadFailed)
  | Some roles =>
      let roles' := List.filter (fun r => negb (bool_decide (rd_name r = n))) roles in
      if (length roles' <? length roles)%nat then save_roles h roles' (RoleDeleted n) else (h, AdminError (RoleNotFound n))
  end.

(** ** Fleet members *)
Definition add_member (members : list FleetMember) (m : FleetMember) : list FleetMember :=
  List.filter (fun x => negb (bool_decide (fm_node_id x = fm_node_id m))) members ++ [m].
Definition handle_list_fleet (h : HostDir) (tag_filter : option string) : HostDir * AdminResponse :=
  (h, match load (fleet_file h) with
      | Some members => FleetList
          (map (fun m => {| fi_node_id := fm_node_id m; fi_hostname := fm_hostname m; fi_tags := fm_tags m; fi_online := fm_online m;
                            fi_last_heartbeat := fm_last_heartbeat m |})
             (List.filter (fun m => match tag_filter with Some t => bool_decide (t ∈ fm_tags m) | None => true end) members))
      | None => AdminError LoadFailed
      end).
Definition save_fleet (h : HostDir) (members : list FleetMember) (resp : AdminResponse) : HostDir * AdminResponse :=
  let '(f, ok) := save (disk h "fleet.json") (fleet_file h) members in
  (set_fleet f h, if ok then resp else AdminError SaveFailed).
Definition handle_remove_fleet_member (h : HostDir) (prefix : string) : HostDir * AdminResponse :=
  match load (fleet_file h) with
  | None => (h, AdminError LoadFailed)
  | Some members =>
      let members' := List.filter (fun m => negb (starts_with prefix (fm_node_id m))) members in
      if (length members' <? length members)%nat then save_fleet h members' (FleetMemberRemoved true)
      else (h, FleetMemberRemoved false)
  end.
Definition set_tags (tags : list string) (m : FleetMember) : FleetMember :=
  {| fm_node_id := fm_node_id m; fm_hostname := fm_hostname m; fm_tags := tags; fm_registered_at := fm_registered_at m;
     fm_last_heartbeat := fm_last_heartbeat m; fm_relay_url := fm_relay_url m; fm_online := fm_online m |}.
Definition handle_update_fleet_tags (h : HostDir) (prefix : string) (tags : list string) : HostDir * AdminResponse :=
  match load (fleet_file h) with
  | None => (h, AdminError LoadFailed)
  | Some members =>
      if existsb (fun m => starts_with prefix (fm_node_id m)) members
      then save_fleet h (update_first (fun m => starts_with prefix (fm_node_id m)) (set_tags tags) members) (FleetTagsUpdated true)
      else (h, FleetTagsUpdated false)
  end.

(** ** Fleet invites *)

(** [to_ascii_lowercase] then [replace('_', "-")]. *)
Definition lower_ascii_byte (b : Z) : Z := if (65 <=? b) && (b <=? 90) then b + 32 else b.
Definition tier_key (s : string) : string :=
  bytes_str (map (fun b => let b := lower_ascii_byte b in if b =? 95 then 45 else b) (str_bytes (trim s))).
Definition parse_tier (s : string) : rust string InviteTier :=
  let k := tier_key s in
  if bool_decide (k = "client"%string) then Ok Client
  else if bool_decide (k ∈ ["warren-only"; "warren"; "vpn"]%string) then Ok WarrenOnly
  else if bool_decide (k = "node"%string) then Ok Node
  else if bool_decide (k = "admin"%string) then Ok Admin
  else Err k.
Definition fleet_role (t : option InviteTier) : PeerRole * option string :=
  match t with
  | None | Some Admin => (RoleCreator, None)
  | Some WarrenOnly => (RolePeer, Some "warren-only"%string)
  | Some Client | Some Node => (RolePeer, None)
  end.

Section Invites.
Context `{!InviteCrates}.

Definition handle_create_fleet_invite (h : HostDir) (now : Z) (secret_bytes : bytes) (key : string) (relay : option string)
    (tags : list string) (max_uses : Z) (expiry : Z) (tier : option string) : HostDir * AdminResponse :=
  match (match tier with None => Ok None | Some s => t ← parse_tier s; Ok (Some t) end) with
  | Err other => (h, AdminError (UnknownTier other))
  | Panic => (h, AdminError NoWarren)
  | Ok tier =>
      let warren := match tier with Some (WarrenOnly | Node | Admin) => true | _ => false end in
      if warren && negb (bool_decide (is_Some (files (cfg h) !! "netdoc.ticket"%string))) then (h, AdminError NoWarren) else
      let '(r, rname) := fleet_role tier in
      let '(c, res) := generate_invite_with_tier (disk h "pending_invites.json") (cfg h) now secret_bytes key relay None None r rname expiry
                         unrestricted (if 1 <? max_uses then Some max_uses else None) (default Admin tier) in
      (set_cfg c h, match res with
                    | Ok token => FleetInviteCreated token
                    | Err e => AdminError (MintFailed e)
                    | Panic => AdminError NoWarren
                    end)
  end.
End Invites.

(** ** Aggregate invites *)
Class Argon2 := {
  argon2_hash : string -> bytes -> option string;
  aggregate_token_text : AggregateInviteToken -> string;
}.
Definition AGGREGATE_MAX_AGE : Z := 7 * 24 * 3600.
Definition prune_aggregate (now max_age : Z) (l : list AggregateInvite) : list AggregateInvite :=
  List.filter (fun i => sat_sub now (ag_created_at i) <? max_age) l.

Section Aggregate.
Context `{!InviteCrates, !Argon2}.

Definition handle_create_aggregate_invite (h : HostDir) (now : Z) (secret_bytes salt_bytes : bytes) (key : string) (relay : option string)
    (rl peer_name : string) : HostDir * AdminResponse :=
  match load (roles_file h) with
  | None => (h, AdminError LoadFailed)
  | Some roles =>
      match find_role roles rl with
      | None => (h, AdminError (RoleNotFound rl))
      | Some _ =>
          let secret_hex := hex_encode secret_bytes in
          match argon2_hash secret_hex salt_bytes with
          | None => (h, AdminError HashFailed)
          | Some hash =>
              match load (aggregate_file h) with
              | None => (h, AdminError LoadFailed)
              | Some invites =>
                  let invites := prune_aggregate now AGGREGATE_MAX_AGE invites ++
                    [{| ag_secret_hash := hash; ag_role := rl; ag_peer_name := peer_name; ag_created_at := now |}] in
                  let '(f, ok) := save (disk h "aggregate_invites.json") (aggregate_file h) invites in
                  (set_aggregate f h,
                   if ok then AggregateInviteCreated (aggregate_token_text
                     {| at_node_id := key; at_secret := secret_hex; at_relay_url := relay; at_role := rl; at_peer_name := peer_name |})
                   else AdminError SaveFailed)
              end
          end
      end
  end.

Definition reachable_member (def : RoleDefinition) (m : FleetMember) : bool :=
  fm_online m && existsb (fun tag => bool_decide (tag = "*"%string) || bool_decide (tag ∈ fm_tags m)) (host_tags def).
Definition host_entry (m : FleetMember) : RedeemHostEntry :=
  {| rh_hostname := fm_hostname m; rh_node_id := fm_node_id m; rh_relay_url := fm_relay_url m; rh_invite_token := EmptyString |}.
Definition handle_redeem_aggregate_invite (h : HostDir) (now : Z) (secret : string) : HostDir * AdminResponse :=
  (h, match load (aggregate_file h) with
      | None => AdminError LoadFailed
      | Some invites =>
          match List.find (fun i => argon2_verify (ag_secret_hash i) secret) (prune_aggregate now AGGREGATE_MAX_AGE invites) with
          | None => AdminError BadAggregateSecret
          | Some inv =>
              match load (roles_file h) with
              | None => AdminError LoadFailed
              | Some roles =>
                  match find_role roles (ag_role inv) with
                  | None => AdminError (RoleGone (ag_role inv))
                  | Some def =>
                      match load (fleet_file h) with
                      | None => AdminError LoadFailed
                      | Some members => AggregateInviteRedeemed (map host_entry (List.filter (reachable_member def) members))
                      end
                  end
              end
          end
      end).
End Aggregate.

(** ** Role administration *)
Definition role_view (h : HostDir) (n : string) : option RoleDefinition := load (roles_file h) ≫= fun roles => find_role roles n.
(** The roles file can be read and names each role once. *)
Definition roles_ok (h : HostDir) : Prop := exists roles, load (roles_file h) = Some roles /\ NoDup (map rd_name roles).

Lemma find_role_None roles n : find_role roles n = None <-> n ∉ map rd_name roles.
Proof.
  unfold find_role. split.
  - intros E (r & -> & Hr)%list_elem_of_fmap. apply list_elem_of_In, (List.find_none _ _ E), bool_decide_eq_false in Hr. done.
  - intros Hn. destruct (List.find _ roles) as [r|] eqn:E; [|done]. apply find_some in E as [Hr%list_elem_of_In <-%bool_decide_eq_true].
    destruct Hn. by apply list_elem_of_fmap_2.
Qed.
Lemma find_role_app roles r n : find_role (roles ++ [r]) n =
  match find_role roles n with Some x => Some x | None => if bool_decide (rd_name r = n) then Some r else None end.
Proof. unfold find_role. induction roles as [|x roles IH]; cbn; [done|]. destruct (bool_decide (rd_name x = n)); [done|apply IH]. Qed.
Lemma find_role_update roles n f n' : (forall r, rd_name (f r) = rd_name r) ->
  find_role (update_first (fun r => bool_decide (rd_name r = n)) f roles) n' =
  if bool_decide (n' = n) then f <$> find_role roles n else find_role roles n'.
Proof.
  intros Hf. unfold find_role. case_bool_decide as E1; [subst n'|]; induction roles as [|x roles IH]; cbn [update_first List.find]; try done.
  - destruct (bool_decide (rd_name x = n)) eqn:E; cbn [List.find]; rewrite ?Hf, E; [done|exact IH].
  - destruct (bool_decide (rd_name x = n)) eqn:E; cbn [List.find]; rewrite ?Hf.
    + apply bool_decide_eq_true in E as ->. by rewrite bool_decide_eq_false_2 by congruence.
    + by rewrite IH.
Qed.
Lemma find_role_delete roles n n' :
  find_role (List.filter (fun r => negb (bool_decide (rd_name r = n))) roles) n' = if bool_decide (n' = n) then None else find_role roles n'.
Proof.
  unfold find_role. case_bool_decide as E1; [subst n'|]; induction roles as [|x roles IH]; cbn [List.filter List.find]; try done.
  - destruct (bool_decide (rd_name x = n)) eqn:E; cbn [negb List.find]; [exact IH|]. by rewrite E.
  - destruct (bool_decide (rd_name x = n)) eqn:E; cbn [negb List.find]; [|by rewrite IH].
    rewrite IH. apply bool_decide_eq_true in E as ->. by rewrite bool_decide_eq_false_2 by congruence.
Qed.
Lemma filter_shorter {A} (f : A -> bool) (l : list A) : (length (List.filter f l) < length l)%nat <-> exists x, x ∈ l /\ f x = false.
Proof.
  induction l as [|x l IH]; cbn; [split; [lia|by intros (? & ?%elem_of_nil & _)]|].
  pose proof (List.filter_length_le f l) as Hle. destruct (f x) eqn:E; cbn.
  - rewrite <-Nat.succ_lt_mono, IH. split; [intros (y & ? & ?); exists y; split; [by right|done]|].
    intros (y & [->|Hy]%elem_of_cons & Ef); [congruence|eauto].
  - split; [|lia]. intros _. exists x. split; [left|done].
Qed.
Lemma elem_of_add_tags t tags added : t ∈ foldl add_tag tags added <-> t ∈ tags \/ t ∈ added.
Proof.
  revert tags. induction added as [|a added IH]; intros tags; cbn; [set_solver|]. rewrite IH. unfold add_tag.
  case_bool_decide; set_solver.
Qed.
Lemma apply_updates_tags u r t :
  t ∈ host_tags (apply_updates u r) <-> (t ∈ host_tags r \/ t ∈ add_tags u) /\ t ∉ remove_tags u.
Proof.
  cbn. rewrite list_elem_of_In, filter_In, <-list_elem_of_In, elem_of_add_tags, negb_true_iff, bool_decide_eq_false. done.
Qed.
Lemma map_filter_NoDup {A B} (g : A -> B) (f : A -> bool) (l : list A) : NoDup (map g l) -> NoDup (map g (List.filter f l)).
Proof.
  induction l as [|x l IH]; [done|]. cbn. intros [Hx Hn]%NoDup_cons. destruct (f x); cbn; [|by apply IH]. constructor; [|by apply IH].
  intros (y & E & Hy)%list_elem_of_fmap. apply Hx. rewrite E. apply list_elem_of_fmap_2.
  apply list_elem_of_In, filter_In in Hy as [Hy _]. by apply list_elem_of_In.
Qed.

(** With a working disk the role handlers are those of a finite map from name to
    definition: creating adds a role under a new name and refuses a taken one,
    updating changes the named role only and gives it exactly the tags it had or was
    given less those removed, deleting removes it, and an unknown name is an error
    that changes nothing.  Names stay unique. *)
Theorem role_admin_correct h : roles_ok h -> disk h "roles.json" = DiskOk ->
  (forall def, let '(h', r) := handle_create_role h def in roles_ok h' /\
    (if bool_decide (is_Some (role_view h (rd_name def))) then h' = h /\ r = AdminError (RoleExists (rd_name def))
     else r = RoleCreated (rd_name def) /\
       forall n, role_view h' n = if bool_decide (n = rd_name def) then Some def else role_view h n)) /\
  (forall n u, let '(h', r) := handle_update_role h n u in roles_ok h' /\
    match role_view h n with
    | None => h' = h /\ r = AdminError (RoleNotFound n)
    | Some old => r = RoleUpdated n /\ role_view h' n = Some (apply_updates u old) /\
        (forall n', n' <> n -> role_view h' n' = role_view h n') /\
        forall t, t ∈ host_tags (apply_updates u old) <-> (t ∈ host_tags old \/ t ∈ add_tags u) /\ t ∉ remove_tags u
    end) /\
  (forall n, let '(h', r) := handle_delete_role h n in roles_ok h' /\
    match role_view h n with
    | None => h' = h /\ r = AdminError (RoleNotFound n)
    | Some _ => r = RoleDeleted n /\ forall n', role_view h' n' = if bool_decide (n' = n) then None else role_view h n'
    end).
Proof.
  intros (roles & Hl & Hn) Hd. unfold role_view. rewrite Hl. cbn [mbind option_bind].
  assert (forall rs resp, save_roles h rs resp = (set_roles (Holds rs) h, resp)) as Hs by (intros; unfold save_roles; by rewrite Hd).
  assert (roles_ok h) as Hok by (by exists roles).
  split_and!.
  - intros def. unfold handle_create_role. rewrite Hl.
    assert (existsb (fun r => bool_decide (rd_name r = rd_name def)) roles = bool_decide (is_Some (find_role roles (rd_name def)))) as ->.
    { apply eq_iff_eq_true. rewrite bool_decide_eq_true, existsb_exists, <-not_eq_None_Some, find_role_None. split.
      - intros (r & Hr%list_elem_of_In & E%bool_decide_eq_true) Hno. apply Hno. rewrite <-E. by apply list_elem_of_fmap_2.
      - intros Hin. apply dec_stable in Hin. apply list_elem_of_fmap in Hin as (r & E & Hr). exists r. rewrite <-list_elem_of_In. split; [done|].
        by apply bool_decide_eq_true. }
    case_bool_decide as Hex; [done|]. rewrite Hs. split; [|split; [done|]].
    + exists (roles ++ [def]). split; [done|]. rewrite map_app. cbn. apply NoDup_snoc; [done|]. apply find_role_None. by apply eq_None_not_Some.
    + intros n. cbn. rewrite find_role_app. destruct (find_role roles n) eqn:E.
      * rewrite bool_decide_eq_false_2; [done|]. intros ->. apply Hex. by rewrite E.
      * by rewrite (bool_decide_ext (n = rd_name def) (rd_name def = n)) by (split; congruence).
  - intros n u. unfold handle_update_role. rewrite Hl. destruct (find_role roles n) as [old|] eqn:E; [|done]. rewrite Hs. split.
    + eexists. split; [done|]. by rewrite update_first_fmap.
    + split; [done|]. cbn. split; [|split].
      * rewrite find_role_update by done. by rewrite bool_decide_eq_true_2, E.
      * intros n' Hne. rewrite find_role_update by done. by rewrite bool_decide_eq_false_2.
      * apply (apply_updates_tags u old).
  - intros n. unfold handle_delete_role. rewrite Hl. set (roles' := List.filter _ roles).
    assert ((length roles' < length roles)%nat <-> is_Some (find_role roles n)) as Hlt.
    { unfold roles'. rewrite filter_shorter, <-not_eq_None_Some, find_role_None. split.
      - intros (r & Hr & E%negb_false_iff%bool_decide_eq_true) Hno. apply Hno. rewrite <-E. by apply list_elem_of_fmap_2.
      - intros Hin. apply dec_stable in Hin. apply list_elem_of_fmap in Hin as (r & E & Hr). exists r. split; [done|].
        apply negb_false_iff. by apply bool_decide_eq_true. }
    destruct (find_role roles n) as [old|] eqn:E.
    + rewrite (proj2 (Nat.ltb_lt _ _)) by (apply Hlt; by eexists). rewrite Hs. split.
      * exists roles'. split; [done|]. by apply map_filter_NoDup.
      * split; [done|]. intros n'. cbn. apply find_role_delete.
    + rewrite (proj2 (Nat.ltb_ge _ _)); [done|]. destruct (le_lt_dec (length roles) (length roles')); [done|]. by apply Hlt in l as [? ?].
Qed.

(** ** Failing writes *)

(** When the roles file cannot be opened for writing, an operation that would change
    it reports an error and changes nothing; when writing to it fails it is left
    truncated, and from then on every role operation fails to load it. *)
Theorem role_write_failure h roles def n u :
  load (roles_file h) = Some roles ->
  (disk h "roles.json" = OpenFails ->
    forall h' r, (h', r) ∈ [handle_create_role h def; handle_update_role h n u; handle_delete_role h n] ->
      roles_file h' = roles_file h /\ exists e, r = AdminError e) /\
  (disk h "roles.json" = WriteFails -> role_view h (rd_name def) = None ->
    let h' := (handle_create_role h def).1 in
    roles_file h' = Corrupt /\ (forall n, role_view h' n = None) /\
    forall def' n' u', (handle_create_role h' def').2 = AdminError LoadFailed /\ (handle_update_role h' n' u').2 = AdminError LoadFailed /\
      (handle_delete_role h' n').2 = AdminError LoadFailed /\ (handle_list_roles h').2 = AdminError LoadFailed).
Proof.
  intros Hl. split.
  - intros Hd. assert (forall rs resp, save_roles h rs resp = (set_roles (roles_file h) h, AdminError SaveFailed)) as Hs.
    { intros. unfold save_roles. by rewrite Hd. }
    assert (forall (h' : HostDir) (r : AdminResponse) x, (h', r) = x ->
      (x = (set_roles (roles_file h) h, AdminError SaveFailed) \/ exists e, x = (h, AdminError e)) ->
      roles_file h' = roles_file h /\ exists e, r = AdminError e) as Hx.
    { intros h' r x <- [[= -> ->]|(e & [= -> ->])]; eauto. }
    intros h' r Hin. rewrite !elem_of_cons in Hin. destruct Hin as [E|[E|[E|[]%elem_of_nil]]]; eapply Hx; [exact E| |exact E| |exact E|].
    + unfold handle_create_role. rewrite Hl. case_match; [by eauto|]. rewrite Hs. by left.
    + unfold handle_update_role. rewrite Hl. case_match; [|by eauto]. rewrite Hs. by left.
    + unfold handle_delete_role. rewrite Hl. case_match; [|by eauto]. rewrite Hs. by left.
  - intros Hd Hv. unfold role_view in Hv. rewrite Hl in Hv. cbn in Hv. unfold handle_create_role. rewrite Hl.
    destruct (existsb _ roles) eqn:Ex.
    { exfalso. apply existsb_exists in Ex as (r & Hr%list_elem_of_In & E%bool_decide_eq_true). apply find_role_None in Hv. apply Hv.
      rewrite <-E. by apply list_elem_of_fmap_2. }
    unfold save_roles. rewrite Hd. cbn. split; [done|]. split; [done|]. intros. by unfold handle_update_role, handle_delete_role, handle_list_roles.
Qed.

(** ** Liveness *)

(** A member counts as online exactly when its stamp is a number of seconds that lies
    within the window before now, or ahead of now by at most the tolerated skew; a
    missing, malformed or far-future stamp counts as offline. *)
Theorem online_iff m now window : is_u64 now -> 0 <= window ->
  is_online m now window = true <->
  exists raw ls, wm_last_seen m = Some raw /\ parse_uint (2 ^ 64 - 1) (trim raw) = Some ls /\
    now - window <= ls <= Z.min (2 ^ 64 - 1) (now + 600).
Proof.
  intros Hn Hw. unfold is_online, last_seen_age_secs, parse_last_seen. destruct (wm_last_seen m) as [raw|]; cbn; [|split; [done|by intros (? & ? & ? & _)]].
  destruct (parse_uint (2 ^ 64 - 1) (trim raw)) as [ls|] eqn:E; cbn; [|split; [done|]].
  - destruct (Z.leb_spec ls (sat_add64 now MAX_FUTURE_SKEW_SECS)) as [Hle|Hgt]; cbn; unfold sat_add64, MAX_FUTURE_SKEW_SECS in *.
    + rewrite Z.leb_le. unfold sat_sub. split.
      * intros Ha. exists raw, ls. split; [done|]. split; [done|]. lia.
      * intros (? & ? & [= <-] & Hp & ?). rewrite E in Hp. injection Hp as <-. lia.
    + split; [done|]. intros (? & ? & [= <-] & Hp & ?). rewrite E in Hp. injection Hp as <-. lia.
  - intros (? & ? & [= <-] & Hp & _). by rewrite E in Hp.
Qed.

(** ** Invites *)

(** What a fleet invite grants is what its tier says: whoever presents its secret in
    time is admitted with that tier, as a creator for the admin tier or when no tier
    was named, under the warren-only role for that tier, as a plain peer otherwise,
    and unrestricted; the token itself carries none of it.  A warren tier is only
    handed out by a host that has a warren, and a use count above one is recorded. *)
Theorem fleet_invite_grants `{!InviteCrates} h now now' secret key relay tags maxu expiry tier h' text :
  is_bytes secret -> unmatched (hex_encode secret) (pending (cfg h)) -> expiry = 0 \/ sat_sub now' now < expiry ->
  handle_create_fleet_invite h now secret key relay tags maxu expiry tier = (h', FleetInviteCreated text) ->
  exists t token, match tier with None => t = None | Some s => exists x, t = Some x /\ parse_tier s = Ok x end /\
    (default Client t <> Client -> is_Some (files (cfg h) !! "netdoc.ticket"%string)) /\
    decode_invite text = Some token /\ tk_role token = RolePeer /\ tk_role_name token = None /\ tk_warren_ticket token = None /\
    (exists pre inv, pending (cfg h') = pre ++ [inv] /\ max_uses inv = (if 1 <? maxu then Some maxu else None)) /\
    snd (try_consume now' (pending (cfg h')) (str_bytes (tk_secret token))) =
      Some {| c_id := short_id_for_secret (hex_encode secret); c_username := None; c_role := (fleet_role t).1;
              c_role_name := (fleet_role t).2; c_sandbox := unrestricted; c_tier := default Admin t |}.
Proof.
  intros Hb Hun Hlife. unfold handle_create_fleet_invite.
  destruct (match tier with None => Ok None | Some s => t ← parse_tier s; Ok (Some t) end) as [t|e|] eqn:Et; [|done..].
  set (warren := match t with Some (WarrenOnly | Node | Admin) => true | _ => false end).
  destruct (warren && negb (bool_decide (is_Some (files (cfg h) !! "netdoc.ticket"%string)))) eqn:Ew; [done|].
  destruct (fleet_role t) as [r rname] eqn:Er.
  destruct (generate_invite_with_tier _ _ _ _ _ _ _ _ _ _ _ _ _ _) as [c [tok|e|]] eqn:Eg; [|done..]. intros [= <- <-].
  destruct (minted_redeems (disk h "pending_invites.json") (cfg h) now now' secret key relay None None r rname expiry unrestricted
    (if 1 <? maxu then Some maxu else None) (default Admin t) c tok Hb Hun Eg Hlife) as (token & Hd & _ & _ & _ & H1 & H2 & _ & H3 & _ & Hc).
  exists t, token. split; [|split; [|split; [done|split; [done|split; [done|split; [done|split]]]]]].
  - destruct tier as [s|]; [|by injection Et as <-]. destruct (parse_tier s) as [x| |]; [|done..]. injection Et as <-. by exists x.
  - intros Hne. assert (warren = true) as Hw by (unfold warren; destruct t as [[]|]; done). rewrite Hw in Ew. cbn in Ew.
    apply negb_false_iff, bool_decide_eq_true in Ew. done.
  - apply minted_Ok in Eg as (store & _ & _ & -> & _). cbn [cfg set_cfg]. rewrite pending_set. eexists _, _. split; done.
  - rewrite Er. exact Hc.
Qed.

Class Argon2Laws `{!InviteCrates, !Argon2} : Prop :=
  argon2_complete s salt h : argon2_hash s salt = Some h -> argon2_verify h s = true.

Lemma reachable_member_reaches def m : reachable_member def m = fm_online m && role_reaches (host_tags def) (fm_tags m).
Proof.
  unfold reachable_member, role_reaches. f_equal. apply eq_iff_eq_true. rewrite existsb_exists. split.
  - intros (tag & Hin & [->%bool_decide_eq_true|Ht%bool_decide_eq_true]%orb_true_iff).
    + by rewrite (proj2 (existsb_exists _ _)) by (exists "*"%string; done).
    + case_match; [done|]. apply existsb_exists. exists tag. split; [done|]. apply existsb_exists. exists tag. rewrite <-list_elem_of_In. split; [done|].
      by apply bool_decide_eq_true.
  - case_match eqn:E.
    + apply existsb_exists in E as (t & Hin & ->%bool_decide_eq_true). intros _. exists "*"%string. done.
    + intros (rt & Hin & Hx)%existsb_exists. apply existsb_exists in Hx as (ht & Hh & ->%bool_decide_eq_true). exists rt. split; [done|].
      apply orb_true_iff. right. by apply bool_decide_eq_true, list_elem_of_In.
Qed.

(** An aggregate invite for a role that exists is handed out and, presented within
    seven days and as often as one likes, lists exactly the members that are online
    and that the role reaches at that moment, by the reach rule of the role engine;
    when the role is gone by then, or the invite is older, it is refused. *)
Theorem aggregate_invite_lists `{!InviteCrates, !Argon2, !Argon2Laws} h roles old now secret salt hash key relay rl peer h2 now2 members :
  load (roles_file h) = Some roles -> is_Some (find_role roles rl) -> argon2_hash (hex_encode secret) salt = Some hash ->
  load (aggregate_file h) = Some old -> disk h "aggregate_invites.json" = DiskOk ->
  Forall (fun i => argon2_verify (ag_secret_hash i) (hex_encode secret) = false) old ->
  let '(h1, r) := handle_create_aggregate_invite h now secret salt key relay rl peer in
  (exists token, r = AggregateInviteCreated token) /\
  (aggregate_file h2 = aggregate_file h1 -> is_Some (load (roles_file h2)) -> load (fleet_file h2) = Some members ->
   handle_redeem_aggregate_invite h2 now2 (hex_encode secret) =
   (h2, if sat_sub now2 now <? 7 * 24 * 3600 then
          match role_view h2 rl with
          | Some def => AggregateInviteRedeemed
              (map host_entry (List.filter (fun m => fm_online m && role_reaches (host_tags def) (fm_tags m)) members))
          | None => AdminError (RoleGone rl)
          end
        else AdminError BadAggregateSecret)).
Proof.
  intros Hr [def0 Hf] Hh Ho Hd Hun. unfold handle_create_aggregate_invite. rewrite Hr, Hf, Hh, Ho, Hd. cbn [save]. split; [by eexists|].
  cbn [aggregate_file set_aggregate]. intros Ha [roles2 Hr2] Hm. unfold handle_redeem_aggregate_invite. rewrite Ha. cbn [load].
  set (inv := {| ag_secret_hash := hash; ag_role := rl; ag_peer_name := peer; ag_created_at := now |}).
  assert (forall l, Forall (fun i => argon2_verify (ag_secret_hash i) (hex_encode secret) = false) l ->
    List.find (fun i => argon2_verify (ag_secret_hash i) (hex_encode secret)) (prune_aggregate now2 AGGREGATE_MAX_AGE (l ++ [inv])) =
    if sat_sub now2 now <? 7 * 24 * 3600 then Some inv else None) as Hfind.
  { intros l. induction 1 as [|i l Hi Hl IH].
    - cbn. change AGGREGATE_MAX_AGE with (7 * 24 * 3600). destruct (sat_sub now2 now <? 7 * 24 * 3600); [|done]. cbn. by rewrite (argon2_complete _ _ _ Hh).
    - cbn. destruct (sat_sub now2 (ag_created_at i) <? AGGREGATE_MAX_AGE); [|exact IH]. cbn. by rewrite Hi. }
  rewrite Hfind.
  - destruct (sat_sub now2 now <? 7 * 24 * 3600); [|done]. unfold role_view. rewrite Hr2. cbn [mbind option_bind ag_role inv].
    destruct (find_role roles2 rl) as [def|]; [|done]. rewrite Hm. do 3 f_equal. apply filter_ext. intros m. apply reachable_member_reaches.
  - apply Forall_forall. intros i Hi%list_elem_of_In. apply filter_In in Hi as [Hi%list_elem_of_In _]. rewrite Forall_forall in Hun. by apply Hun.
Qed.

(** ** Witnesses *)
Definition demo_host : HostDir :=
  {| cfg := demo_dir; peers_file := Missing; roles_file := Holds default_roles; fleet_file := Missing; aggregate_file := Missing;
     admin_log := []; disk := fun _ => DiskOk |}.
Definition db_role : RoleDefinition := plain_role "db" ["db"%string] false false false Individual [] unrestricted.
Definition demo_updates : RoleUpdates :=
  {| add_tags := ["prod"]; remove_tags := ["staging"]; up_sudo := None; up_admin := None; up_groups := None; up_shell := None;
     up_user_mode := None; up_network_only := None; up_sandbox := None; up_exec_tags := None; up_search_tags := None |}%string.

Lemma role_admin_correct_witness :
  roles_ok demo_host /\ disk demo_host "roles.json" = DiskOk /\
  roles_ok (handle_create_role demo_host db_role).1 /\
  (forall n, role_view (handle_delete_role demo_host "developer").1 n =
     if bool_decide (n = "developer"%string) then None else role_view demo_host n) /\
  roles_ok (handle_update_role demo_host "developer" demo_updates).1.
Proof.
  assert (roles_ok demo_host) as Hok.
  { exists default_roles. split; [reflexivity|]. apply (bool_decide_unpack _). vm_compute. exact I. }
  destruct (role_admin_correct demo_host Hok eq_refl) as (Hc & Hu & Hd).
  split; [exact Hok|]. split; [reflexivity|]. split.
  - specialize (Hc db_role). destruct (handle_create_role demo_host db_role). exact (proj1 Hc).
  - split.
    + intros n. specialize (Hd "developer"%string). destruct (handle_delete_role demo_host "developer") as [h' r] eqn:E.
      destruct (role_view demo_host "developer") eqn:Ev; [|vm_compute in Ev; discriminate Ev]. exact (proj2 (proj2 Hd) n).
    + specialize (Hu "developer"%string demo_updates). destruct (handle_update_role demo_host "developer" demo_updates). exact (proj1 Hu).
Defined.

Lemma fleet_invite_grants_witness :
  match handle_create_fleet_invite demo_host 1000 demo_secret "key" None [] 3 900 (Some "Warren_Only"%string) with
  | (h', FleetInviteCreated text) => exists token, decode_invite text = Some token /\
      c_role_name <$> snd (try_consume 1500 (pending (cfg h')) (str_bytes (tk_secret token))) = Some (Some "warren-only"%string)
  | _ => False
  end.
Proof.
  destruct (handle_create_fleet_invite demo_host 1000 demo_secret "key" None [] 3 900 (Some "Warren_Only"%string)) as [h' r] eqn:E.
  assert (exists text, r = FleetInviteCreated text) as [text ->].
  { apply (f_equal snd) in E. cbn [snd] in E. rewrite <-E. eexists. vm_compute. reflexivity. }
  destruct (fleet_invite_grants demo_host 1000 1500 demo_secret "key" None [] 3 900 (Some "Warren_Only"%string) h' text)
    as (t & token & (x & -> & Hx) & _ & Hd & _ & _ & _ & _ & Hc).
  - apply (bool_decide_unpack _). vm_compute. exact I.
  - constructor.
  - right. vm_compute. reflexivity.
  - exact E.
  - exists token. split; [exact Hd|]. rewrite Hc. vm_compute in Hx. injection Hx as <-. reflexivity.
Defined.

Definition plain_argon_crates : InviteCrates :=
  {| sha256 := Invite.sha256 (InviteCrates := demo_crates); sha256_len := sha256_len (InviteCrates := demo_crates);
     sha256_bytes := sha256_bytes (InviteCrates := demo_crates); argon2_verify := fun h s => bool_decide (h = s);
     encode_invite := Invite.encode_invite (InviteCrates := demo_crates);
     decode_invite := Invite.decode_invite (InviteCrates := demo_crates);
     token_roundtrip := token_roundtrip (InviteCrates := demo_crates) |}.
Definition plain_argon : Argon2 := {| argon2_hash := fun s _ => Some s; aggregate_token_text := fun t => at_secret t |}.
Lemma plain_argon_laws : Argon2Laws (H := plain_argon_crates) (H0 := plain_argon).
Proof. intros s salt h [= <-]. by apply bool_decide_eq_true. Qed.
Definition demo_fleet : list FleetMember :=
  [{| fm_node_id := "a"; fm_hostname := "web"; fm_tags := ["staging"]; fm_registered_at := "0"; fm_last_heartbeat := None;
      fm_relay_url := None; fm_online := true |};
   {| fm_node_id := "b"; fm_hostname := "db"; fm_tags := ["production"]; fm_registered_at := "0"; fm_last_heartbeat := None;
      fm_relay_url := None; fm_online := true |}]%string.

Lemma aggregate_invite_lists_witness :
  let created := handle_create_aggregate_invite (H0 := plain_argon) demo_host 1000 demo_secret [] "key" None "developer" "laptop" in
  (handle_redeem_aggregate_invite (H := plain_argon_crates) (set_fleet (Holds demo_fleet) created.1) 2000 (hex_encode demo_secret)).2 =
  AggregateInviteRedeemed (map host_entry (take 1 demo_fleet)).
Proof.
  intros created.
  pose proof (aggregate_invite_lists (H := plain_argon_crates) (H0 := plain_argon) (H1 := plain_argon_laws) demo_host default_roles [] 1000
    demo_secret [] (hex_encode demo_secret) "key" None "developer" "laptop" (set_fleet (Holds demo_fleet) created.1) 2000 demo_fleet
    eq_refl) as Hx.
  destruct (handle_create_aggregate_invite (H0 := plain_argon) demo_host 1000 demo_secret [] "key" None "developer" "laptop") as [h1 r] eqn:E.
  destruct Hx as [_ Hx].
  - eexists. reflexivity.
  - reflexivity.
  - reflexivity.
  - reflexivity.
  - constructor.
  - rewrite Hx; [|reflexivity|subst created|reflexivity]; apply (f_equal fst) in E; cbn [fst] in E; subst h1; [vm_compute; reflexivity|].
    eexists. vm_compute. reflexivity.
Defined.
