(* ===== verification/Admin.v ===== *)
(** * Admin: the administrative requests of a host (hop-core/src/admin/mod.rs)

    The handlers of every administrative request over the config directory, the
    dispatch, and how a request that arrives over the network is gated and its
    effect propagated to the network document (dispatch_session of
    hop-cli/src/main.rs), with the pruning of stale members.  Account commands run
    outside: what a command does to the account database is a parameter.  The
    handlers are those of a Linux host. *)
From S2P Require Import Prelude Addr Text Policy Config Invite Auth Acl DocStore Netdoc NetAuth Table Datastore Fleet.
From Stdlib Require Import Ascii.
Local Open Scope Z_scope.

Record PushMetricPoint := { pm_metric : string; pm_value : Z; pm_tags : gmap string string; pm_timestamp : option Z }.
Inductive AdminRequest :=
| CreateInvite (user : option string) (r : PeerRole) (rname : option string)
| CreateInviteFull (params : InviteParams)
| RequestHostIdentity
| SetPeerRole (prefix rname : string)
| ListPeers
| RemovePeer (prefix : string)
| RenamePeer (prefix new_name : string)
| PruneMembers (older_than_secs : Z) (dry_run : bool)
| CreateUser (user : string) (su ad : bool) (gr : list string) (sh : option string) (invite : bool)
| Status
| CreateFleetInvite (tags : list string) (max_uses expiry_secs : Z) (tier : option string)
| ListFleet (tag_filter : option string)
| RemoveFleetMember (prefix : string)
| UpdateFleetTags (prefix : string) (tags : list string)
| CreateRole (def : RoleDefinition)
| ListRoles
| UpdateRole (n : string) (u : RoleUpdates)
| DeleteRole (n : string)
| CreateAggregateInvite (rl peer_name : string)
| RedeemAggregateInvite (secret : string)
| PushMetrics (points : list PushMetricPoint)
| ListInvites
| RevokeInvite (i : string)
| ListSessions
| CheckpointSessions
| RestoreSessions (dry_run : bool)
| ReadmitPeer (prefix : string).

(** Running a command: the account database afterwards, and the exit status, if it could be started. *)
Class Commands := {
  run_command : list string -> (string -> bool) -> (string -> bool) * option bool;
  debian : bool;
}.

(** What the request reads besides the directory. *)
Record AdminEnv := {
  now_secs : Z; now_millis : Z; random : bytes; salt : bytes; host_key : string; relay : option string;
}.

Definition matching (prefix : string) (p : Peer) : bool := starts_with prefix (node_id p).
Definition removed_peer_full_id (h : HostDir) (r : AdminRequest) : option string :=
  match r with
  | RemovePeer prefix => peers ← load (peers_file h); node_id <$> List.find (matching prefix) peers
  | _ => None
  end.
Definition upserted_peer_full_id (h : HostDir) (r : AdminRequest) : option string :=
  match r with
  | RenamePeer prefix _ | SetPeerRole prefix _ => peers ← load (peers_file h); node_id <$> List.find (matching prefix) peers
  | _ => None
  end.

Definition log_admin_action (e : AdminEnv) (action details : string) (h : HostDir) : HostDir :=
  match disk h "admin_log.json" with
  | DiskOk => set_log (admin_log h ++ [(now_secs e, action, details)]) h
  | _ => h
  end.

Section Admin.
Context `{!InviteCrates, !Argon2, !Commands, !Bincode MetricPoint}.
Variable debug_opt : option string -> string.
Implicit Types (h : HostDir) (e : AdminEnv).

Definition handle_create_invite h e (user : option string) (r : PeerRole) (rname : option string) : HostDir * AdminResponse :=
  let expiry := match r with RoleCreator => 3600 | RolePeer => 15 * 60 end in
  let '(c, res) := generate_invite_with_role (disk h "pending_invites.json") (cfg h) (now_secs e) (random e) (host_key e) (relay e) user None
                     r rname expiry unrestricted None in
  let h := set_cfg c h in
  match res with
  | Ok token => (log_admin_action e "create_invite" ("user=" +:+ debug_opt user) h, InviteCreated token)
  | Err x => (h, AdminError (MintFailed x))
  | Panic => (h, AdminError NoWarren)
  end.

Definition peer_info (p : Peer) : PeerInfo :=
  {| pi_node_id := node_id p; pi_name := name p; pi_role := role p; pi_username := username p; pi_last_seen := last_seen p |}.
Definition handle_list_peers h : HostDir * AdminResponse :=
  (h, match load (peers_file h) with Some peers => PeerList (map peer_info peers) | None => AdminError LoadFailed end).

Definition set_role_name (n : string) (p : Peer) : Peer :=
  {| node_id := node_id p; name := name p; authorized_at := authorized_at p; last_seen := last_seen p; username := username p;
     role := role p; role_name := Some n; netdoc_author := netdoc_author p; self_doc := self_doc p; vip := vip p;
     vpn_endpoint := vpn_endpoint p; site_id := site_id p; sandbox := sandbox p |}.
(** Save the peers; [log] is done only when that worked. *)
Definition save_peers h (peers : list Peer) (log : HostDir -> HostDir) (resp : AdminResponse) : HostDir * AdminResponse :=
  let '(f, ok) := save (disk h "peers.json") (peers_file h) peers in
  if ok then (log (set_peers f h), resp) else (set_peers f h, AdminError SaveFailed).
Definition handle_set_peer_role h e (prefix rname : string) : HostDir * AdminResponse :=
  match load (peers_file h) with
  | None => (h, AdminError LoadFailed)
  | Some peers =>
      if existsb (matching prefix) peers then
        save_peers h (map (fun p => if matching prefix p then set_role_name rname p else p) peers)
          (log_admin_action e "set_peer_role" (prefix +:+ " -> " +:+ rname)) (PeerRoleUpdated true)
      else (h, PeerRoleUpdated false)
  end.
Definition handle_rename_peer h (prefix new_name : string) : HostDir * AdminResponse :=
  match load (peers_file h) with
  | None => (h, AdminError LoadFailed)
  | Some peers =>
      let '(peers', success) := rename_peer peers prefix new_name in
      if success then save_peers h peers' (fun h => h) (PeerRenamed true) else (h, PeerRenamed false)
  end.
Definition handle_remove_peer h e (prefix : string) : HostDir * AdminResponse :=
  match load (peers_file h) with
  | None => (h, AdminError LoadFailed)
  | Some peers =>
      let '(peers', success) := remove_peer peers prefix in
      if success then save_peers h peers' (log_admin_action e "remove_peer" prefix) (PeerRemoved true) else (h, PeerRemoved false)
  end.

(** ** Accounts *)
Definition create_user_linux (acc : string -> bool) (user : string) (gr : list string) (sh : option string) : (string -> bool) * option bool :=
  run_command (["useradd"; "-m"; "-s"; default "/bin/bash" sh]%string ++
               (if is_empty gr then [] else ["-G"; join "," gr]%string) ++ [user]) acc.
(** The accounts afterwards, and whether it worked; what was done stays done. *)
Definition create_unix_user (acc : string -> bool) (user : string) (su : bool) (gr : list string) (sh : option string) : (string -> bool) * bool :=
  if acc user then (acc, true) else
  match create_user_linux acc user gr sh with
  | (acc, Some true) =>
      let '(acc, sudo_ok) :=
        if su then
          match run_command ["usermod"; "-aG"; (if debian then "sudo" else "wheel"); user]%string acc with
          | (acc, Some true) => (acc, true)
          | (acc, _) => (acc, false)
          end
        else (acc, true) in
      if negb sudo_ok then (acc, false) else
      if is_empty gr then (acc, true) else
      match run_command ["usermod"; "-aG"; join "," gr; user]%string acc with
      | (acc, Some _) => (acc, true)
      | (acc, None) => (acc, false)
      end
  | (acc, _) => (acc, false)
  end.
Definition set_accounts (acc : string -> bool) (h : HostDir) : HostDir :=
  set_cfg {| pending_file := pending_file (cfg h); files := files (cfg h); default_role := default_role (cfg h); accounts := acc;
             hostname := hostname (cfg h) |} h.
Definition bool_str (b : bool) : string := if b then "true" else "false".
Definition handle_create_user h e (user : string) (su ad : bool) (gr : list string) (sh : option string) (create_invite : bool) :
    HostDir * AdminResponse :=
  if bool_decide (user = EmptyString) || (32 <? String.length user)%nat then (h, AdminError InvalidUsername) else
  if negb (forallb username_byte (str_bytes user)) then (h, AdminError InvalidUsername) else
  let '(acc, ok) := create_unix_user (accounts (cfg h)) user su gr sh in
  let h := set_accounts acc h in
  if negb ok then (h, AdminError CreateUserFailed) else
  let h := log_admin_action e "create_user" (user +:+ " sudo=" +:+ bool_str su +:+ " admin=" +:+ bool_str ad) h in
  if create_invite then
    let '(c, res) := generate_invite_with_role (disk h "pending_invites.json") (cfg h) (now_secs e) (random e) (host_key e) (relay e)
                       (Some user) None RolePeer None (15 * 60) unrestricted None in
    (set_cfg c h, match res with
                  | Ok token => UserCreated user (Some token)
                  | Err x => AdminError (InviteAfterUserFailed x)
                  | Panic => AdminError NoWarren
                  end)
  else (h, UserCreated user None).

Definition handle_status h : HostDir * AdminResponse :=
  (h, HostStatus (match load (peers_file h) with Some peers => length peers | None => 0 end) 0).

Definition push_point (now : Z) (d : Datastore) (p : PushMetricPoint) : Datastore :=
  let mp := {| mp_value := pm_value p; mp_tags := pm_tags p |} in
  match pm_timestamp p with Some ts => ts_insert_at d (pm_metric p) ts mp | None => ts_insert d now (pm_metric p) mp end.
Definition handle_push_metrics (d : option Datastore) e (points : list PushMetricPoint) : option Datastore * AdminResponse :=
  match d with
  | None => (None, AdminError NoDatastore)
  | Some d => (Some (foldl (push_point (now_millis e)) d points), MetricsReceived (length points))
  end.

(** ** Dispatch *)
Definition handle_admin_request h (d : option Datastore) e (r : AdminRequest) : HostDir * option Datastore * AdminResponse :=
  let on_dir (x : HostDir * AdminResponse) := (x.1, d, x.2) in
  match r with
  | CreateInvite user rl rname => on_dir (handle_create_invite h e user rl rname)
  | CreateInviteFull params =>
      let '(c, res) := build_invite_token (disk h "pending_invites.json") (cfg h) (now_secs e) (random e) (host_key e) (relay e) params in
      on_dir (set_cfg c h, match res with
                           | Ok token => InviteCreated token
                           | Err x => AdminError (MintFailed x)
                           | Panic => AdminError NoWarren
                           end)
  | RequestHostIdentity => on_dir (h, HostIdentity (host_key e))
  | ListSessions | CheckpointSessions | RestoreSessions _ => on_dir (h, AdminError NeedsDaemonSocket)
  | ListInvites =>
      on_dir (h, match load (pending_file (cfg h)) with
                 | Some store => InviteList (list_invites (Invite.prune_expired (now_secs e) store (15 * 60)) (15 * 60))
                 | None => AdminError LoadFailed
                 end)
  | RevokeInvite i =>
      on_dir match load (pending_file (cfg h)) with
             | None => (h, AdminError LoadFailed)
             | Some store =>
                 match Invite.revoke store i with
                 | Ok (p, full) =>
                     let '(f, ok) := save (disk h "pending_invites.json") (pending_file (cfg h)) p in
                     let h := set_cfg (set_pending_file f (cfg h)) h in
                     if ok then (log_admin_action e "revoke_invite" full h, InviteRevoked full) else (h, AdminError SaveFailed)
                 | Err x => (h, AdminError (RevokeFailed x))
                 | Panic => (h, AdminError LoadFailed)
                 end
             end
  | ListPeers => on_dir (handle_list_peers h)
  | RemovePeer prefix => on_dir (handle_remove_peer h e prefix)
  | RenamePeer prefix n => on_dir (handle_rename_peer h prefix n)
  | PruneMembers _ _ | ReadmitPeer _ => on_dir (h, AdminError NeedsNetdoc)
  | SetPeerRole prefix n => on_dir (handle_set_peer_role h e prefix n)
  | CreateUser user su ad gr sh inv => on_dir (handle_create_user h e user su ad gr sh inv)
  | Status => on_dir (handle_status h)
  | CreateFleetInvite tags maxu expiry tier =>
      on_dir (handle_create_fleet_invite h (now_secs e) (random e) (host_key e) (relay e) tags maxu expiry tier)
  | ListFleet t => on_dir (handle_list_fleet h t)
  | RemoveFleetMember prefix => on_dir (handle_remove_fleet_member h prefix)
  | UpdateFleetTags prefix tags => on_dir (handle_update_fleet_tags h prefix tags)
  | CreateRole def => on_dir (handle_create_role h def)
  | ListRoles => on_dir (handle_list_roles h)
  | UpdateRole n u => on_dir (handle_update_role h n u)
  | DeleteRole n => on_dir (handle_delete_role h n)
  | CreateAggregateInvite rl pn => on_dir (handle_create_aggregate_invite h (now_secs e) (random e) (salt e) (host_key e) (relay e) rl pn)
  | RedeemAggregateInvite s => on_dir (handle_redeem_aggregate_invite h (now_secs e) s)
  | PushMetrics points => let '(d', resp) := handle_push_metrics d e points in (h, d', resp)
  end.

Definition is_error (r : AdminResponse) : bool := match r with AdminError _ => true | _ => false end.

(** ** A request over the network *)
Context `{!ContentHash, !DocCrates, !Clock}.

Record AdminState := { dir : HostDir; metrics : option Datastore; warren : option Netdoc }.
(** The document reads both stores again; a store that does not load counts as empty. *)
Definition propagate (stamp : string) h (revoke_id upsert_id : option string) (nd : Netdoc) : Netdoc :=
  (propagate_admin_mutation stamp (default [] (load (peers_file h))) (default [] (load (roles_file h))) revoke_id upsert_id nd).1.
Definition serve_admin (s : AdminState) e (stamp : string) (peer_role : PeerRole) (r : AdminRequest) : AdminState * AdminResponse :=
  if negb (bool_decide (peer_role = RoleCreator)) then (s, AdminError PermissionDenied) else
  let revoke_id := removed_peer_full_id (dir s) r in
  let upsert_id := upserted_peer_full_id (dir s) r in
  let '(h, d, resp) := handle_admin_request (dir s) (metrics s) e r in
  ({| dir := h; metrics := d;
      warren := if is_error resp then warren s else propagate stamp h revoke_id upsert_id <$> warren s |}, resp).

(** ** Roster hygiene *)
Definition opt_max (a b : option Z) : option Z :=
  match a, b with Some x, Some y => Some (Z.max x y) | None, o | o, None => o end.
Fixpoint insert_by_age (x : string * string * Z) (l : list (string * string * Z)) : list (string * string * Z) :=
  match l with [] => [x] | y :: l => if x.2 <=? y.2 then x :: y :: l else y :: insert_by_age x l end.
(** A stable sort by age. *)
Definition sort_by_age (l : list (string * string * Z)) : list (string * string * Z) := foldr insert_by_age [] l.
Definition stale_entry (self_id : option string) (vpn_seen : string -> option Z) (older now : Z) (p : Peer) : option (string * string * Z) :=
  if bool_decide (self_id = Some (node_id p)) then None else
  let cp := last_seen p ≫= fun s => parse_uint (2 ^ 64 - 1) (trim s) in
  let vpn := vpn_endpoint p ≫= vpn_seen in
  last ← opt_max cp vpn;
  let age := sat_sub now last in
  if older <? age then Some (node_id p, name p, age) else None.
Definition stale_members (nd : Netdoc) (vpn_seen : string -> option Z) (older now : Z) : list (string * string * Z) :=
  sort_by_age (omap (stale_entry (host_node_id nd) vpn_seen older now) (list_peers nd)).
Fixpoint revoke_stale (stamp : string) (l : list (string * string * Z)) (nd : Netdoc) : Netdoc * list (string * string) :=
  match l with
  | [] => (nd, [])
  | (i, n, _) :: l =>
      let '(nd, res) := Netdoc.revoke i "pruned (stale)" stamp nd in
      let '(nd, pruned) := revoke_stale stamp l nd in
      (nd, match res with inr _ => (i, n) :: pruned | inl _ => pruned end)
  end.
Definition prune_stale_members (stamp : string) (vpn_seen : string -> option Z) (older now : Z) (nd : Netdoc) : Netdoc * list (string * string) :=
  let '(nd, pruned) := revoke_stale stamp (stale_members nd vpn_seen older now) nd in
  (if is_empty pruned then nd else refresh_admin_authors nd, pruned).
End Admin.

(** ** What a request can change *)
Section Effects.
Context `{!InviteCrates, !Argon2, !Commands, !Bincode MetricPoint}.
Variable debug_opt : option string -> string.
Implicit Types (h : HostDir) (e : AdminEnv).

Lemma log_stores e a x h :
  cfg (log_admin_action e a x h) = cfg h /\ peers_file (log_admin_action e a x h) = peers_file h /\
  roles_file (log_admin_action e a x h) = roles_file h /\ fleet_file (log_admin_action e a x h) = fleet_file h /\
  aggregate_file (log_admin_action e a x h) = aggregate_file h /\ disk (log_admin_action e a x h) = disk h.
Proof. unfold log_admin_action. by destruct (disk h "admin_log.json"). Qed.

(** Rewriting a store in place. *)
Definition may_become {A} (s : disk_state) (f f' : json_file A) (l : list A) : Prop :=
  f' = f \/ (s = DiskOk /\ f' = Holds l) \/ (s = WriteFails /\ f' = Corrupt).
Lemma save_becomes {A} s (f : json_file A) l : may_become s f (save s f l).1 l.
Proof. unfold may_become. destruct s; cbn; auto. Qed.

Definition peer_request (r : AdminRequest) : bool :=
  match r with SetPeerRole _ _ | RemovePeer _ | RenamePeer _ _ => true | _ => false end.
Definition role_request (r : AdminRequest) : bool :=
  match r with CreateRole _ | UpdateRole _ _ | DeleteRole _ => true | _ => false end.
Definition fleet_request (r : AdminRequest) : bool :=
  match r with RemoveFleetMember _ | UpdateFleetTags _ _ => true | _ => false end.

Ltac handlers := unfold handle_admin_request, handle_create_invite, handle_list_peers, handle_set_peer_role, handle_rename_peer, handle_remove_peer,
  handle_create_user, handle_status, handle_push_metrics, handle_create_fleet_invite, handle_list_fleet, handle_remove_fleet_member,
  handle_update_fleet_tags, handle_create_role, handle_list_roles, handle_update_role, handle_delete_role,
  handle_create_aggregate_invite, handle_redeem_aggregate_invite, save_roles, save_peers, save_fleet.

Lemma save_roles_frame h rs resp : let h' := (save_roles h rs resp).1 in
  cfg h' = cfg h /\ peers_file h' = peers_file h /\ fleet_file h' = fleet_file h /\ aggregate_file h' = aggregate_file h /\
  may_become (disk h "roles.json") (roles_file h) (roles_file h') rs /\ disk h' = disk h.
Proof.
  unfold save_roles. pose proof (save_becomes (disk h "roles.json") (roles_file h) rs) as Hs.
  destruct (save _ _ rs) as [f ok]. cbn in *. done.
Qed.
Lemma save_fleet_frame h ms resp : let h' := (save_fleet h ms resp).1 in
  cfg h' = cfg h /\ peers_file h' = peers_file h /\ roles_file h' = roles_file h /\ aggregate_file h' = aggregate_file h /\ disk h' = disk h.
Proof. unfold save_fleet. by destruct (save _ _ ms) as [f ok]. Qed.
Lemma save_peers_frame h ps e a x resp : let h' := (save_peers h ps (log_admin_action e a x) resp).1 in
  cfg h' = cfg h /\ roles_file h' = roles_file h /\ fleet_file h' = fleet_file h /\ aggregate_file h' = aggregate_file h /\
  may_become (disk h "peers.json") (peers_file h) (peers_file h') ps /\ disk h' = disk h.
Proof.
  unfold save_peers. pose proof (save_becomes (disk h "peers.json") (peers_file h) ps) as Hs.
  destruct (save _ _ ps) as [f []]; cbn in *; [|done]. destruct (log_stores e a x (set_peers f h)) as (-> & -> & -> & -> & -> & ->). done.
Qed.

Abbreviation after h d e r := (handle_admin_request debug_opt h d e r).1.1.
Ltac split_handler := repeat first [progress cbn [fst snd] | case_match]; simplify_eq;
  cbn [fst snd set_cfg peers_file roles_file fleet_file]; rewrite ?(proj1 (proj2 (log_stores _ _ _ _))), ?(proj1 (proj2 (proj2 (log_stores _ _ _ _)))),
          ?(proj1 (proj2 (proj2 (proj2 (log_stores _ _ _ _))))); try done.

(** Only the requests about peers touch the peers file, and likewise for roles and fleet. *)
Lemma peers_kept h d e r : peer_request r = false -> peers_file (after h d e r) = peers_file h.
Proof. destruct r; try discriminate; intros _; cbn [handle_admin_request]; handlers; split_handler. Qed.
Lemma roles_kept h d e r : role_request r = false -> roles_file (after h d e r) = roles_file h.
Proof. destruct r; try discriminate; intros _; cbn [handle_admin_request]; handlers; split_handler. Qed.
Lemma fleet_kept h d e r : fleet_request r = false -> fleet_file (after h d e r) = fleet_file h.
Proof. destruct r; try discriminate; intros _; cbn [handle_admin_request]; handlers; split_handler. Qed.

(** A store that names nobody twice. *)
Definition stores_wf h : Prop :=
  (forall ps, load (peers_file h) = Some ps -> NoDup (map node_id ps)) /\
  (forall rs, load (roles_file h) = Some rs -> NoDup (map rd_name rs)).

Lemma save_peers_wf h ps log resp : (forall h, peers_file (log h) = peers_file h) ->
  (forall ps, load (peers_file h) = Some ps -> NoDup (map node_id ps)) -> NoDup (map node_id ps) ->
  forall ps', load (peers_file (save_peers h ps log resp).1) = Some ps' -> NoDup (map node_id ps').
Proof.
  intros Hlog Hh Hn ps'. unfold save_peers. destruct (disk h "peers.json"); cbn; rewrite ?Hlog; cbn; [by intros [= <-]|apply Hh|done].
Qed.
Lemma save_roles_wf h rs resp : (forall rs, load (roles_file h) = Some rs -> NoDup (map rd_name rs)) -> NoDup (map rd_name rs) ->
  forall rs', load (roles_file (save_roles h rs resp).1) = Some rs' -> NoDup (map rd_name rs').
Proof.
  intros Hh Hn rs'. unfold save_roles. destruct (disk h "roles.json"); cbn; [by intros [= <-]|apply Hh|done].
Qed.
Lemma log_peers e a x h : peers_file (log_admin_action e a x h) = peers_file h.
Proof. apply log_stores. Qed.
End Effects.

(** Whatever is requested, in whatever state the disk is and whether the request
    succeeds or fails: a peers file and a roles file that name each peer and each role
    once still do; the peers file is touched only by the three requests about peers,
    the roles file only by the three that change roles, the fleet file only by the two
    that change its members. *)
Theorem admin_keeps_stores `{!InviteCrates, !Argon2, !Commands, !Bincode MetricPoint} debug h d e r :
  stores_wf h ->
  let h' := (handle_admin_request debug h d e r).1.1 in
  stores_wf h' /\ (peer_request r = false -> peers_file h' = peers_file h) /\
  (role_request r = false -> roles_file h' = roles_file h) /\ (fleet_request r = false -> fleet_file h' = fleet_file h).
Proof.
  intros [Hp Hr] h'. split; [|split_and!; [apply peers_kept|apply roles_kept|apply fleet_kept]].
  split.
  - destruct (peer_request r) eqn:E; [|unfold h'; by rewrite peers_kept].
    unfold h'. destruct r; try discriminate; cbn [handle_admin_request fst].
    + unfold handle_set_peer_role. destruct (load (peers_file h)) as [ps|] eqn:El; [|cbn; by rewrite El]. case_match; [|cbn; by rewrite El].
      apply save_peers_wf; [apply log_peers|by rewrite El|]. rewrite map_map. rewrite (map_ext _ node_id); [by apply Hp|].
      intros p. by case_match.
    + unfold handle_remove_peer, remove_peer. destruct (load (peers_file h)) as [ps|] eqn:El; [|cbn; by rewrite El]. case_match; [|cbn; by rewrite El].
      apply save_peers_wf; [apply log_peers|by rewrite El|]. by apply map_filter_NoDup, Hp.
    + unfold handle_rename_peer, rename_peer. destruct (load (peers_file h)) as [ps|] eqn:El; [|cbn; by rewrite El]. case_match; [|cbn; by rewrite El].
      apply save_peers_wf; [done|by rewrite El|]. rewrite update_first_fmap by done. by apply Hp.
  - destruct (role_request r) eqn:E; [|unfold h'; by rewrite roles_kept].
    unfold h'. destruct r; try discriminate; cbn [handle_admin_request fst].
    + unfold handle_create_role. destruct (load (roles_file h)) as [rs|] eqn:El; [|cbn; by rewrite El]. case_match eqn:Ex; [cbn; by rewrite El|].
      apply save_roles_wf; [by rewrite El|]. rewrite map_app. cbn. apply NoDup_snoc; [by apply Hr|].
      intros (x & Ex' & Hx)%list_elem_of_fmap. apply not_true_iff_false in Ex. apply Ex, existsb_exists. exists x. rewrite <-list_elem_of_In.
      split; [done|]. by apply bool_decide_eq_true.
    + unfold handle_update_role. destruct (load (roles_file h)) as [rs|] eqn:El; [|cbn; by rewrite El]. case_match; [|cbn; by rewrite El].
      apply save_roles_wf; [by rewrite El|]. rewrite update_first_fmap by done. by apply Hr.
    + unfold handle_delete_role. destruct (load (roles_file h)) as [rs|] eqn:El; [|cbn; by rewrite El]. case_match; [|cbn; by rewrite El].
      apply save_roles_wf; [by rewrite El|]. by apply map_filter_NoDup, Hr.
Qed.

Section Errors.
Context `{!InviteCrates, !Argon2, !Commands, !Bincode MetricPoint}.
Variable debug_opt : option string -> string.
Implicit Types (h : HostDir) (e : AdminEnv).

(** An outcome that is not an error, or changed nothing. *)
Definition clean h (x : HostDir * AdminResponse) : Prop := is_error x.2 = true -> x.1 = h.
Lemma clean_same h resp : clean h (h, resp).
Proof. done. Qed.
Lemma clean_ok h h' resp : is_error resp = false -> clean h (h', resp).
Proof. unfold clean. cbn. congruence. Qed.
Lemma save_roles_clean h rs resp : disk h "roles.json" <> WriteFails -> is_error resp = false -> clean h (save_roles h rs resp).
Proof. intros Hd Hr. unfold save_roles, clean. destruct (disk h _); cbn; [congruence| |done]. by destruct h. Qed.
Lemma save_peers_clean h ps log resp : disk h "peers.json" <> WriteFails -> is_error resp = false -> clean h (save_peers h ps log resp).
Proof. intros Hd Hr. unfold save_peers, clean. destruct (disk h _); cbn; [congruence| |done]. by destruct h. Qed.
Lemma save_fleet_clean h ms resp : disk h "fleet.json" <> WriteFails -> is_error resp = false -> clean h (save_fleet h ms resp).
Proof. intros Hd Hr. unfold save_fleet, clean. destruct (disk h _); cbn; [congruence| |done]. by destruct h. Qed.

Hint Resolve clean_same clean_ok save_roles_clean save_peers_clean save_fleet_clean : core.
Definition creates_user (r : AdminRequest) : bool := match r with CreateUser _ _ _ _ _ _ => true | _ => false end.

Lemma peer_requests_clean h e : disk h "peers.json" <> WriteFails ->
  (forall prefix n, clean h (handle_set_peer_role h e prefix n)) /\ (forall prefix, clean h (handle_remove_peer h e prefix)) /\
  (forall prefix n, clean h (handle_rename_peer h prefix n)).
Proof.
  intros Hd. unfold handle_set_peer_role, handle_remove_peer, handle_rename_peer, remove_peer, rename_peer.
  destruct (load (peers_file h)); [|auto]. split_and!; intros; case_match; auto.
Qed.
Lemma role_requests_clean h : disk h "roles.json" <> WriteFails ->
  (forall def, clean h (handle_create_role h def)) /\ (forall n u, clean h (handle_update_role h n u)) /\
  (forall n, clean h (handle_delete_role h n)).
Proof.
  intros Hd. unfold handle_create_role, handle_update_role, handle_delete_role.
  destruct (load (roles_file h)); [|auto]. split_and!; intros; case_match; auto.
Qed.
Lemma fleet_requests_clean h : disk h "fleet.json" <> WriteFails ->
  (forall prefix, clean h (handle_remove_fleet_member h prefix)) /\ (forall prefix tags, clean h (handle_update_fleet_tags h prefix tags)).
Proof.
  intros Hd. unfold handle_remove_fleet_member, handle_update_fleet_tags.
  destruct (load (fleet_file h)); [|auto]. split_and!; intros; case_match; auto.
Qed.
Lemma set_cfg_same h : set_cfg (cfg h) h = h.
Proof. by destruct h. Qed.
(** What a minting does to the directory when it fails. *)
Lemma minted_clean h now secret key rl user hname r rname expiry sb maxu tier :
  disk h "pending_invites.json" <> WriteFails ->
  let '(c, res) := generate_invite_with_tier (disk h "pending_invites.json") (cfg h) now secret key rl user hname r rname expiry sb maxu tier in
  (exists text, res = Ok text) \/ set_cfg c h = h.
Proof.
  intros Hd. pose proof (minted_Err (disk h "pending_invites.json") (cfg h) now secret key rl user hname r rname expiry sb maxu tier Hd) as Hm.
  destruct (generate_invite_with_tier _ _ _ _ _ _ _ _ _ _ _ _ _ _) as [c res]. destruct Hm as [Hm| ->]; [by left|]. right. apply set_cfg_same.
Qed.
Lemma built_clean h now secret key rl params : disk h "pending_invites.json" <> WriteFails ->
  let '(c, res) := build_invite_token (disk h "pending_invites.json") (cfg h) now secret key rl params in
  (exists text, res = Ok text) \/ set_cfg c h = h.
Proof.
  intros Hd. unfold build_invite_token. destruct (_ && _); [right; apply set_cfg_same|].
  destruct (p_tier params) as [[]|]; by apply minted_clean.
Qed.
Ltac minting h := match goal with
  | Hd : context [disk h _ <> WriteFails] |- context [generate_invite_with_tier _ ?c ?n ?s ?k ?l ?u ?hn ?r' ?rn ?ex ?sb ?mu ?t] =>
      let Hm := fresh in pose proof (minted_clean h n s k l u hn r' rn ex sb mu t ltac:(apply Hd)) as Hm;
      destruct (generate_invite_with_tier _ c n s k l u hn r' rn ex sb mu t) as [? []]; destruct Hm as [[? ?]| ->]; simplify_eq
  end.
Lemma invite_requests_clean h e : disk h "pending_invites.json" <> WriteFails ->
  (forall u r n, clean h (handle_create_invite debug_opt h e u r n)) /\
  (forall tags maxu expiry tier,
     clean h (handle_create_fleet_invite h (now_secs e) (random e) (host_key e) (relay e) tags maxu expiry tier)).
Proof.
  intros Hd. unfold handle_create_invite, handle_create_fleet_invite, generate_invite_with_role. split; intros.
  - minting h; auto.
  - destruct (match tier with None => Ok None | Some s => t ← parse_tier s; Ok (Some t) end) as [t| |]; auto. case_match; [auto|].
    destruct (fleet_role t) as [r' rn]. minting h; auto.
Qed.
Lemma aggregate_requests_clean h e : disk h "aggregate_invites.json" <> WriteFails ->
  forall rl pn, clean h (handle_create_aggregate_invite h (now_secs e) (random e) (salt e) (host_key e) (relay e) rl pn).
Proof.
  intros Hd rl pn. unfold handle_create_aggregate_invite. destruct (load (roles_file h)); [|auto]. destruct (find_role _ _); [|auto].
  destruct (argon2_hash _ _); [|auto]. destruct (load (aggregate_file h)); [|auto].
  destruct (disk h "aggregate_invites.json"); cbn; [by apply clean_ok| |done]. unfold clean. by destruct h.
Qed.

(** A failing request has no effect, except that an account may have been created. *)
Lemma handler_clean h d e r : (forall n, disk h n <> WriteFails) -> creates_user r = false ->
  let '(h', d', resp) := handle_admin_request debug_opt h d e r in is_error resp = true -> h' = h /\ d' = d.
Proof.
  intros Hd Hc. destruct (peer_requests_clean h e (Hd _)) as (Hp1 & Hp2 & Hp3). destruct (role_requests_clean h (Hd _)) as (Hr1 & Hr2 & Hr3).
  destruct (fleet_requests_clean h (Hd _)) as (Hf1 & Hf2). destruct (invite_requests_clean h e (Hd _)) as (Hi1 & Hi2).
  destruct r; try discriminate; cbn [handle_admin_request]; 
    try (intros Hx; split; [first [done | revert Hx; match goal with H : context [clean] |- _ => apply H end]|done]; fail).
  - pose proof (built_clean h (now_secs e) (random e) (host_key e) (relay e) params (Hd _)) as Hm.
    destruct (build_invite_token _ _ _ _ _ _ _) as [c []]; destruct Hm as [[? ?]| ->]; simplify_eq; done.
  - intros Hx. split; [|done]. by eapply aggregate_requests_clean.
  - unfold handle_push_metrics. destruct d; done.
  - destruct (load (pending_file (cfg h))); [|done]. destruct (Invite.revoke _ _) as [[p full]| |]; [|done..].
    pose proof (Hd "pending_invites.json"%string). destruct (disk h "pending_invites.json"); cbn; [done| |done]. by destruct h as [[]].
Qed.
End Errors.

(** ** What an administrative request does to a shared document *)
Section Shared.
Context `{!ContentHash, !DocCrates, !Clock} `{!MonotoneClock}.
Implicit Types nd : Netdoc.

(** The records of a revocation that goes through. *)
Lemma revoke_records id reason stamp nd : can_write nd = true -> ahead nd ->
  exists nd1, Netdoc.revoke id reason stamp nd = (nd1, inr tt) /\ ahead nd1 /\ federated nd1 = federated nd /\
    (exists r, get_latest (doc nd1) (KEY_REVOCATION_PREFIX +:+ id) = Some (author nd, r) /\ 0 < r_len r) /\
    forall id', starts_with id id' = false ->
      get_latest (doc nd1) (KEY_REVOCATION_PREFIX +:+ id') = get_latest (doc nd) (KEY_REVOCATION_PREFIX +:+ id').
Proof.
  intros Hw Ha. unfold Netdoc.revoke.
  set (v := revocation_json _). assert (v <> EmptyString) as Hv by apply revocation_json_nonempty. rewrite (set_bytes_ne _ _ Hv).
  destruct (put_record_ahead (KEY_REVOCATION_PREFIX +:+ id) v nd Hw Ha) as (m1 & E1 & Hl1 & Ha1).
  destruct (doc_del_ahead (KEY_PEER_PREFIX +:+ id) (set_doc m1 (<[content_hash v := v]> (blobs nd)) (S (writes nd)) nd) Hw Ha1)
    as (m2 & E2 & _ & Hk2 & Ha2).
  eexists. split; [unfold mbind, M_bind; rewrite E1, E2; reflexivity|]. split_and!; [exact Ha2|done| |].
  - exists (own_record nd v). split; [|by apply own_record_len]. cbn [doc set_doc set_reach].
    rewrite Hk2 by apply revocation_vs_peer. cbn [doc set_doc]. by rewrite (get_latest_own m1 nd _ v Ha Hl1), rec_empty_own.
  - intros id' Hid. cbn [doc set_doc set_reach]. rewrite Hk2 by apply revocation_vs_peer. cbn [doc set_doc].
    eapply get_latest_elsewhere; [|exact Hl1]. by rewrite starts_with_app_l.
Qed.

Lemma refresh_doc nd : doc (refresh_admin_authors nd) = doc nd.
Proof. unfold refresh_admin_authors. by case_match. Qed.
Lemma quiet_latest nd nd' id : quiet nd nd' ->
  get_latest (doc nd') (KEY_REVOCATION_PREFIX +:+ id) = get_latest (doc nd) (KEY_REVOCATION_PREFIX +:+ id).
Proof. intros Hq. apply get_latest_ext. intros a. apply Hq, starts_with_sapp. Qed.

Lemma propagate_revokes stamp h id nd : can_write nd = true -> ahead nd -> federated nd = true ->
  let nd' := propagate stamp h (Some id) None nd in
  (exists r, get_latest (doc nd') (KEY_REVOCATION_PREFIX +:+ id) = Some (author nd, r) /\ 0 < r_len r) /\
  forall id', starts_with id id' = false ->
    get_latest (doc nd') (KEY_REVOCATION_PREFIX +:+ id') = get_latest (doc nd) (KEY_REVOCATION_PREFIX +:+ id').
Proof.
  intros Hw Ha Hf. destruct (revoke_records id "admin removal" stamp nd Hw Ha) as (nd1 & E & Ha1 & Hf1 & Hr & Ho).
  unfold propagate, propagate_admin_mutation. unfold mbind, M_bind, attempt. rewrite E. cbn [mret M_ret].
  pose proof (quiet_reconcile stamp (default [] (load (peers_file h))) (default [] (load (roles_file h))) nd1) as Hq.
  rewrite Hf1 in Hq. specialize (Hq Hf Ha1).
  destruct (reconcile stamp _ _ nd1) as [nd2 res]. cbn [fst] in Hq.
  destruct res; cbn [fst mret M_ret mbind option_bind modify M_bind]; rewrite refresh_doc; setoid_rewrite (quiet_latest nd1 nd2); eauto.
Qed.
End Shared.

Section Removal.
Context `{!InviteCrates, !Argon2, !Commands, !Bincode MetricPoint, !ContentHash, !DocCrates, !Clock} `{!MonotoneClock}.
Variable debug_opt : option string -> string.

(** What removing by a prefix does to both stores, on a node of a shared network. *)
Lemma removal_effect s e stamp prefix peers p nd :
  load (peers_file (dir s)) = Some peers -> disk (dir s) "peers.json" = DiskOk -> List.find (matching prefix) peers = Some p ->
  warren s = Some nd -> can_write nd = true -> ahead nd -> federated nd = true ->
  exists s' nd', serve_admin debug_opt s e stamp RoleCreator (RemovePeer prefix) = (s', PeerRemoved true) /\
    load (peers_file (dir s')) = Some (List.filter (fun q => negb (matching prefix q)) peers) /\ warren s' = Some nd' /\
    (exists r, get_latest (doc nd') (KEY_REVOCATION_PREFIX +:+ node_id p) = Some (author nd, r) /\ 0 < r_len r) /\
    forall id', starts_with (node_id p) id' = false ->
      get_latest (doc nd') (KEY_REVOCATION_PREFIX +:+ id') = get_latest (doc nd) (KEY_REVOCATION_PREFIX +:+ id').
Proof.
  intros Hl Hd Hfind Hwr Hw Ha Hf. unfold serve_admin. rewrite bool_decide_eq_true_2 by done. cbn [negb].
  assert (removed_peer_full_id (dir s) (RemovePeer prefix) = Some (node_id p)) as -> by (cbn; rewrite Hl; cbn; by rewrite Hfind).
  cbn [upserted_peer_full_id handle_admin_request]. unfold handle_remove_peer, remove_peer. rewrite Hl.
  assert ((length (List.filter (fun q => negb (starts_with prefix (node_id q))) peers) <? length peers)%nat = true) as ->.
  { apply Nat.ltb_lt, filter_shorter. apply find_some in Hfind as [Hin%list_elem_of_In Hm]. exists p. unfold matching in Hm. by rewrite Hm. }
  unfold save_peers. rewrite Hd. cbn [save fst snd is_error]. rewrite Hwr.
  destruct (propagate_revokes stamp (log_admin_action e "remove_peer" prefix (set_peers (Holds
    (List.filter (fun q => negb (starts_with prefix (node_id q))) peers)) (dir s))) (node_id p) nd Hw Ha Hf) as [Hr Ho].
  eexists _, _. split; [reflexivity|]. cbn [dir warren]. split; [by rewrite log_peers|]. split; [reflexivity|]. by split.
Qed.
End Removal.

(** C11.  Removing a peer takes effect on every node that has the document.  Let an administrator remove a
    peer on a node whose peers file loads and can be written, and which shares its network's document, may
    write it and has a clock ahead of every record in it.  Then the request succeeds, no peer with the
    prefix is left in the local store, and the document carries a revocation of the first one: every node
    that holds the same document and honors this node's records regards it as revoked. *)
Theorem removed_peer_revoked `{!InviteCrates, !Argon2, !Commands, !Bincode MetricPoint, !ContentHash, !DocCrates, !Clock}
    `{!MonotoneClock} debug s e stamp prefix peers p nd :
  load (peers_file (dir s)) = Some peers -> disk (dir s) "peers.json" = DiskOk -> List.find (matching prefix) peers = Some p ->
  warren s = Some nd -> can_write nd = true -> ahead nd -> federated nd = true ->
  exists s' nd', serve_admin debug s e stamp RoleCreator (RemovePeer prefix) = (s', PeerRemoved true) /\
    (exists left, load (peers_file (dir s')) = Some left /\ forall q, q ∈ left <-> q ∈ peers /\ matching prefix q = false) /\
    warren s' = Some nd' /\
    forall d, doc d = doc nd' -> validate_entry d (KEY_REVOCATION_PREFIX +:+ node_id p) (author nd) = true ->
      is_revoked d (node_id p) = true.
Proof.
  intros Hl Hd Hfind Hwr Hw Ha Hf.
  destruct (removal_effect debug s e stamp prefix peers p nd Hl Hd Hfind Hwr Hw Ha Hf) as (s' & nd' & E & Hl' & Hw' & (r & Hr & Hlen) & _).
  exists s', nd'. split_and!; [done| |done|].
  - eexists. split; [exact Hl'|]. intros q. rewrite !list_elem_of_In, filter_In, negb_true_iff. done.
  - intros d Hdoc Hv. erewrite is_revoked_latest; [|rewrite Hdoc; exact Hr]. rewrite Hv, andb_true_r. by apply Z.ltb_lt.
Qed.

(** A removal by an ambiguous prefix is incomplete: the local store loses every
    peer with the prefix, but only the first is revoked in the shared document; another
    one is reported removed and stays unrevoked for the rest of the network. *)
Theorem ambiguous_removal_incomplete `{!InviteCrates, !Argon2, !Commands, !Bincode MetricPoint, !ContentHash, !DocCrates, !Clock}
    `{!MonotoneClock} debug s e stamp prefix peers p q nd :
  load (peers_file (dir s)) = Some peers -> disk (dir s) "peers.json" = DiskOk -> List.find (matching prefix) peers = Some p ->
  q ∈ peers -> matching prefix q = true -> starts_with (node_id p) (node_id q) = false ->
  get_latest (match warren s with Some nd => doc nd | None => ∅ end) (KEY_REVOCATION_PREFIX +:+ node_id q) = None ->
  warren s = Some nd -> can_write nd = true -> ahead nd -> federated nd = true ->
  exists s' nd', serve_admin debug s e stamp RoleCreator (RemovePeer prefix) = (s', PeerRemoved true) /\
    (exists left, load (peers_file (dir s')) = Some left /\ q ∉ left) /\ warren s' = Some nd' /\ is_revoked nd' (node_id q) = false.
Proof.
  intros Hl Hd Hfind Hq Hm Hne Hnone Hwr Hw Ha Hf. rewrite Hwr in Hnone.
  destruct (removal_effect debug s e stamp prefix peers p nd Hl Hd Hfind Hwr Hw Ha Hf) as (s' & nd' & E & Hl' & Hw' & _ & Ho).
  exists s', nd'. split_and!; [done| |done|].
  - eexists. split; [exact Hl'|]. rewrite list_elem_of_In, filter_In, Hm. by intros [_ ?].
  - apply is_revoked_none. by rewrite Ho.
Qed.

(** C15.  A request that fails changes nothing: when the answer is an error, the
    stores, the invites, the metrics and the network document are as they were, unless a store
    was torn while being rewritten or an account was being created; so also for every
    request of a peer that is not an administrator. *)
Theorem admin_error_changes_nothing `{!InviteCrates, !Argon2, !Commands, !Bincode MetricPoint, !ContentHash, !DocCrates, !Clock}
    debug s e stamp peer_role r :
  (forall n, disk (dir s) n <> WriteFails) ->
  let '(s', resp) := serve_admin debug s e stamp peer_role r in
  (peer_role <> RoleCreator -> resp = AdminError PermissionDenied) /\
  (is_error resp = true -> creates_user r = false \/ peer_role <> RoleCreator -> s' = s).
Proof.
  intros Hd. unfold serve_admin. case_bool_decide as Hrole; cbn [negb]; [|done].
  pose proof (handler_clean debug (dir s) (metrics s) e r Hd) as Hc.
  destruct (handle_admin_request debug (dir s) (metrics s) e r) as [[h d] resp]. split; [done|].
  intros Herr [Hu|?]; [|done]. destruct (Hc Hu Herr) as [-> ->]. rewrite Herr. by destruct s.
Qed.

(** ** Witnesses *)
Definition demo_commands : Commands := {| run_command := fun _ acc => (acc, Some true); debian := true |}.
Definition demo_env : AdminEnv :=
  {| now_secs := 1000; now_millis := 1000000; random := demo_secret; salt := []; host_key := "key"; relay := None |}.
Definition shared_doc : Netdoc :=
  {| doc := ∅; blobs := ∅; writes := 0; can_write := true; author := [1]; founder_author := Some [1];
     admin_authors := {[ [1] ]}; validation_mode := Enforce; validation_env_pinned := false; federated := true;
     host_node_id := None; reach_cached := false |}.
Definition two_peers : AdminState :=
  {| dir := set_peers (Holds [demo_member "aa1" "member"; demo_member "aa2" "member"]%string) demo_host; metrics := None;
     warren := Some shared_doc |}.
Abbreviation demo_serve := (serve_admin (H := demo_crates) (H0 := plain_argon) (H1 := demo_commands) (Bincode0 := demo_bincode MetricPoint)
  (H2 := demo_content_hash) (H3 := demo_doc_crates) (H4 := demo_clock) (fun _ => EmptyString)).

Lemma admin_keeps_stores_witness :
  stores_wf (dir two_peers) /\
  stores_wf (handle_admin_request (H := demo_crates) (H0 := plain_argon) (H1 := demo_commands) (Bincode0 := demo_bincode MetricPoint)
    (fun _ => EmptyString) (dir two_peers) None demo_env (RemovePeer "aa1")).1.1.
Proof.
  assert (stores_wf (dir two_peers)) as Hwf.
  { split; intros l [= <-]; apply (bool_decide_unpack _); vm_compute; exact I. }
  split; [exact Hwf|].
  exact (proj1 (admin_keeps_stores (H := demo_crates) (H0 := plain_argon) (H1 := demo_commands) (Bincode0 := demo_bincode MetricPoint)
    (fun _ => EmptyString) (dir two_peers) None demo_env (RemovePeer "aa1") Hwf)).
Defined.

Lemma shared_ahead : ahead (H1 := demo_clock) shared_doc.
Proof. intros a k r. cbn. by rewrite lookup_empty. Qed.

Lemma removed_peer_revoked_witness :
  exists s' nd', demo_serve two_peers demo_env "0" RoleCreator (RemovePeer "aa1") = (s', PeerRemoved true) /\
    warren s' = Some nd' /\ forall d, doc d = doc nd' -> validation_mode d = Off -> is_revoked d "aa1" = true.
Proof.
  destruct (removed_peer_revoked (H := demo_crates) (H0 := plain_argon) (H1 := demo_commands) (Bincode0 := demo_bincode MetricPoint)
    (H2 := demo_content_hash) (H3 := demo_doc_crates) (H4 := demo_clock) (H5 := demo_clock_mono) (fun _ => EmptyString) two_peers demo_env "0"
    "aa1" [demo_member "aa1" "member"; demo_member "aa2" "member"]%string (demo_member "aa1" "member") shared_doc
    eq_refl eq_refl eq_refl eq_refl eq_refl shared_ahead eq_refl) as (s' & nd' & E & _ & Hw & Hr).
  exists s', nd'. split; [exact E|]. split; [exact Hw|]. intros d Hd Hoff. apply (Hr d Hd).
  unfold validate_entry. rewrite Hoff. reflexivity.
Defined.

Lemma ambiguous_removal_incomplete_witness :
  exists s' nd', demo_serve two_peers demo_env "0" RoleCreator (RemovePeer "aa") = (s', PeerRemoved true) /\
    (exists left, load (peers_file (dir s')) = Some left /\ demo_member "aa2" "member" ∉ left) /\
    warren s' = Some nd' /\ is_revoked nd' "aa2" = false.
Proof.
  apply (ambiguous_removal_incomplete (H := demo_crates) (H0 := plain_argon) (H1 := demo_commands) (Bincode0 := demo_bincode MetricPoint)
    (H2 := demo_content_hash) (H3 := demo_doc_crates) (H4 := demo_clock) (H5 := demo_clock_mono) (fun _ => EmptyString) two_peers demo_env "0"
    "aa" [demo_member "aa1" "member"; demo_member "aa2" "member"]%string (demo_member "aa1" "member") (demo_member "aa2" "member") shared_doc);
    try reflexivity.
  - apply list_elem_of_In. right. left. reflexivity.
  - exact shared_ahead.
Defined.

Lemma admin_error_changes_nothing_witness :
  demo_serve two_peers demo_env "0" RoleCreator (DeleteRole "nobody") = (two_peers, AdminError (RoleNotFound "nobody")).
Proof.
  pose proof (admin_error_changes_nothing (H := demo_crates) (H0 := plain_argon) (H1 := demo_commands) (Bincode0 := demo_bincode MetricPoint)
    (H2 := demo_content_hash) (H3 := demo_doc_crates) (H4 := demo_clock) (fun _ => EmptyString) two_peers demo_env "0" RoleCreator
    (DeleteRole "nobody")) as Hx.
  assert ((demo_serve two_peers demo_env "0" RoleCreator (DeleteRole "nobody")).2 = AdminError (RoleNotFound "nobody")) as Er by reflexivity.
  destruct (demo_serve two_peers demo_env "0" RoleCreator (DeleteRole "nobody")) as [s' r]. cbn [snd] in Er. subst r. f_equal.
  apply Hx; [discriminate|reflexivity|left; reflexivity].
Defined.

(** A roster that cannot be read removes the network: a founder with
    two members whose peers file is damaged answers a status request, and with that has revoked both,
    since the propagation takes a store that does not load for an empty one.  With the file
    intact nothing is revoked. *)
Theorem unreadable_roster_revokes_all :
  let members := [demo_member "aa1" "member"; demo_member "aa2" "member"]%string in
  let founder := (for_each members (put_peer (H := demo_content_hash) (H0 := demo_doc_crates) (H1 := demo_clock)) (founding [1])).1 in
  let ask file := (demo_serve {| dir := set_peers file demo_host; metrics := None; warren := Some founder |} demo_env "0" RoleCreator Status) in
  let revoked (x : AdminState * AdminResponse) := (fun nd => map (is_revoked nd) ["aa1"; "aa2"]%string) <$> warren x.1 in
  (ask Corrupt).2 = HostStatus 0 0 /\ revoked (ask Corrupt) = Some [true; true] /\ revoked (ask (Holds members)) = Some [false; false].
Proof. by vm_compute. Qed.
