(* ===== verification/Privsep.v ===== *)
(** * Privsep: the privileged monitor (hop-core/src/privsep/mod.rs)

    The root monitor performs a fixed set of operations for an unprivileged worker and
    supervises it.  A generation is the life of one worker: the requests it sends, whatever
    they are, with the exits of session shells in between; [effect] is what the monitor does
    as root.  What the system answers to an operation comes with the request.  The
    account database, the metadata of the allowlist file and the monitor's own executable
    are parameters.  The monitor is that of a Linux host; of the gateway, the routes and the
    resolver (vpn/gateway.rs, vpn/resolver.rs) the commands it runs are modelled. *)
From stdpp Require Import gmultiset.
From S2P Require Import Prelude Addr Text Policy Config Fs Vpn Dns Netdoc Table Datastore.
From Stdlib Require Import Ascii.
Local Open Scope Z_scope.

Record FileMeta := { md_is_file : bool; md_uid : Z; md_mode : Z; md_content : option string }.
Record Pty := { tty : option string; shell_pid : Z }.
Class System := {
  user_ids : string -> option (Z * Z);
  (** The account's login shell, or the fallback. *)
  user_login_shell : string -> string;
  allow_meta : option FileMeta;
  current_exe : option string;
  print_ipv6 : Ipv6Addr -> string;
  (** The order the map of sessions iterates in. *)
  map_order : gmap Z Pty -> list (Z * Pty);
  map_order_perm : forall m, map_order m ≡ₚ map_to_list m;
}.

Inductive MonitorRequest :=
| CreateTun (vip : Ipv4Addr)
| BindPrivPort (addr : Ipv4Addr) (port : Z)
| ConfigureResolver (domain : string) (vip : Ipv4Addr)
| SetupGateway (routes : list (string * bool))
| ModifyClientRoute (cidr dev : string) (add : bool)
| ConfigureTunV6 (addr : Ipv6Addr)
| PinHostRoute (dst via : Ipv4Addr) (add : bool)
| SpawnSession (argv : list string) (env : list (string * string)) (size : Z * Z * Z * Z) (user : option string)
| SpawnExec (cmd : string) (policy : SandboxPolicy) (user : string)
| SpawnHelper (argv : list string) (user : string)
| AdoptSessions
| ReleaseSession (t : string).

Inductive refusal :=
| NotWarrenAddr | NotDnsPort | NotLocalAddr | OperationFailed | NoTun | NotClientV6
| EmptyArgv | NotAbsolute | BadUsername | UnknownUser | SystemAccount | NotAllowed | BadCommand
| NotThisExe | NotHelper | BadDomain.
Inductive MonitorReply := OkFd (count : nat) | ReplyOk | ReplyError (e : refusal) | Fds (ptys : list Pty).
Abbreviation checked := (rust refusal).

(** What the monitor does as root. *)
Inductive effect :=
| TunCreated (vip : Ipv4Addr)
| TunClosed (vip : Ipv4Addr)
| PortBound (addr : Ipv4Addr) (port : Z)
| PortClosed (addr : Ipv4Addr) (port : Z)
| ResolverSet (domain : string) (vip : Ipv4Addr)
| ResolverReverted (domain : string)
| ForwardingOn
| NftLoaded (ruleset : string)
| Ran (argv : list string) (success : bool)
| SessionSpawned (argv : list string) (env : list (string * string)) (user : option string)
| ExecSpawned (argv : list string) (policy : option SandboxPolicy) (user : string)
| HelperSpawned (argv : list string) (user : string) (uid gid : Z).

(** How the operations a request causes turn out. *)
Record OpEnv := {
  tun_made : option (option string);
  port_bound : bool;
  resolver_set : bool;
  forwarding_ok : bool;
  nft_ok : bool;
  command_ok : list string -> bool;
  spawned : option Pty;
  sent : bool;
}.

(** What the monitor holds for the current worker, and across workers. *)
Record Generation := {
  kept_tuns : list (Ipv4Addr * option string);
  kept_socks : list (Ipv4Addr * Z);
  kept_resolvers : list string;
  gateway_active : bool;
  kept_pins : list string;
}.
Record Sessions := { retained : gmap Z Pty; next_session_key : Z }.
Definition new_generation : Generation :=
  {| kept_tuns := []; kept_socks := []; kept_resolvers := []; gateway_active := false; kept_pins := [] |}.

Definition MAX_CTRL_MSG : Z := 64 * 1024.
Definition LOCALHOST : Ipv4Addr := V4 127 0 0 1.
Definition MIN_SPAWNABLE_UID : Z := 1000.
Definition MAX_FAST_FAILURES : Z := 3.
Definition HEALTHY_UPTIME : Z := 30000.
Definition EXIT_ALREADY_RUNNING : Z := 75.
Definition NFT_TABLE : string := "hop_gw".
Definition VIA6_ROUTE_CIDR : string := "fd68:6f70:7669:6136::/64".

(** ** Control messages *)
Section Messages.
Context {T : Type} `{!Bincode T}.
Definition send_msg (x : T) : option bytes :=
  let b := enc x in
  if Z.of_nat (length b) <=? MAX_CTRL_MSG then Some (to_be32 (Z.of_nat (length b)) ++ b) else None.
(** [None] also when the channel closes in the middle. *)
Definition recv_msg (stream : bytes) : option (T * bytes) :=
  match stream with
  | a :: b :: c :: d :: stream =>
      let len := from_be32 a b c d in
      if negb (len <=? MAX_CTRL_MSG) then None else
      let n := Z.to_nat len in
      if (length stream <? n)%nat then None else
      '(x, _) ← dec (take n stream); Some (x, drop n stream)
  | _ => None
  end.
End Messages.

(** ** Validation *)
Definition strip_cr (s : string) : string :=
  match srev s with String c r => if Ascii.eqb c "013" then srev r else s | EmptyString => s end.
(** [str::lines]. *)
Definition lines (s : string) : list string :=
  let l := split_char "010" s in
  map strip_cr (match rev l with EmptyString :: r => rev r | _ => l end).
Definition parse_allowlist (content : string) : list string :=
  List.filter (fun l => negb (bool_decide (l = EmptyString)))
    (map (fun l => trim (default EmptyString (head (split_char "#" l)))) (lines content)).

Section Validation.
Context `{!System}.

Definition load_allowlist : option (list string) :=
  md ← allow_meta;
  if negb (md_is_file md) then None else
  if negb (md_uid md =? 0) then None else
  if negb ((md_mode md .& 18) =? 0) then None else
  c ← md_content md;
  Some (parse_allowlist c).

Definition ensure (b : bool) (e : refusal) : checked unit := if b then Ok tt else Err e.
Definition validate_create_tun (vip : Ipv4Addr) : checked unit := ensure (is_virtual_addr vip) NotWarrenAddr.
Definition validate_bind_priv_port (addr : Ipv4Addr) (port : Z) : checked unit :=
  _ ← ensure (port =? 53) NotDnsPort;
  ensure (is_virtual_addr addr || bool_decide (addr = LOCALHOST)) NotLocalAddr.
Definition validate_spawnable_uid (uid : Z) : checked unit := ensure (MIN_SPAWNABLE_UID <=? uid) SystemAccount.
Definition lookup_uid_gid (user : string) : checked (Z * Z) :=
  match user_ids user with Some x => Ok x | None => Err UnknownUser end.
Definition validate_spawn_user (user : string) : checked unit :=
  '(uid, _) ← lookup_uid_gid user;
  _ ← validate_spawnable_uid uid;
  match load_allowlist with
  | Some allowed => ensure (bool_decide (user ∈ allowed)) NotAllowed
  | None => Ok tt
  end.
Definition known_user (user : string) : bool := bool_decide (is_Some (user_ids user)).
Definition valid_username (user : string) : checked unit :=
  ensure (match validate_username known_user user with Ok _ => true | _ => false end) BadUsername.
Definition validate_spawn_session (argv : list string) (user : option string) : checked unit :=
  match argv with
  | [] => Err EmptyArgv
  | bin :: _ =>
      let base := default EmptyString (file_name (components bin)) in
      let is_switcher := bool_decide (base ∈ ["login"; "su"]%string) in
      _ ← ensure (starts_with "/" bin || is_switcher) NotAbsolute;
      match user with
      | Some u => _ ← valid_username u; validate_spawn_user u
      | None => Ok tt
      end
  end.
Definition validate_spawn_helper (argv : list string) (user : string) : checked unit :=
  match current_exe with
  | None => Err OperationFailed
  | Some exe =>
      match argv with
      | [] => Err EmptyArgv
      | bin :: args =>
          _ ← ensure (bool_decide (components bin = components exe)) NotThisExe;
          _ ← ensure (bool_decide (head args = Some "__transfer-helper"%string)) NotHelper;
          _ ← valid_username user;
          validate_spawn_user user
      end
  end.
End Validation.

(** ** Gateway, routes and exec commands *)
Definition with_rc_source (cmd shell : string) : string :=
  if ends_with "/zsh" shell then ". ~/.zshrc 2>/dev/null; " +:+ cmd
  else if ends_with "/bash" shell then ". ~/.bashrc 2>/dev/null; " +:+ cmd
  else cmd.
Definition build_exec_command_std `{!System} (cmd : string) (policy : SandboxPolicy) (user : string) : list string * option SandboxPolicy :=
  let user_shell := user_login_shell user in
  let wrapped := with_rc_source cmd user_shell in
  if is_restricted policy then (["su"; "-"; user; "-c"; cmd]%string, Some policy)
  else (["su"; "-"; user; "-s"; user_shell; "-c"; wrapped]%string, None).

Definition nl : string := String "010" EmptyString.
Definition nftables_ruleset (routes : list (string * bool)) : string :=
  let s := "table inet " +:+ NFT_TABLE +:+ " {" +:+ nl +:+
           "  chain forward {" +:+ nl +:+
           "    type filter hook forward priority 0; policy accept;" +:+ nl +:+
           "    tcp flags syn tcp option maxseg size set rt mtu" +:+ nl +:+
           "  }" +:+ nl +:+ "}" +:+ nl in
  if existsb snd routes then
    s +:+ "table ip " +:+ NFT_TABLE +:+ " {" +:+ nl +:+
    "  chain postrouting {" +:+ nl +:+
    "    type nat hook postrouting priority srcnat; policy accept;" +:+ nl +:+
    "    ip saddr 100.64.0.0/10 counter masquerade" +:+ nl +:+
    "  }" +:+ nl +:+ "}" +:+ nl
  else s.
(** Running a command as root. *)
Definition run (v : OpEnv) (argv : list string) : list effect * bool := ([Ran argv (command_ok v argv)], command_ok v argv).
Definition delete_tables (v : OpEnv) : list effect :=
  flat_map (fun fam => (run v ["nft"; "delete"; "table"; fam; NFT_TABLE]%string).1) ["inet"; "ip"]%string.
Definition setup_gateway (v : OpEnv) (routes : list (string * bool)) : list effect * bool :=
  if is_empty routes then ([], true) else
  if negb (forwarding_ok v) then ([], false) else
  let ruleset := nftables_ruleset routes in
  if nft_ok v then (ForwardingOn :: delete_tables v ++ [NftLoaded ruleset], true)
  else (ForwardingOn :: delete_tables v, false).
Definition teardown_gateway (v : OpEnv) : list effect := delete_tables v.
Definition add_route_raw (v : OpEnv) (cidr dev : string) : list effect * bool :=
  let '(e1, _) := run v ["ip"; "route"; "del"; cidr; "dev"; dev]%string in
  let '(e2, ok) := run v ["ip"; "route"; "add"; cidr; "dev"; dev]%string in
  (e1 ++ e2, ok).
Definition remove_route_raw (v : OpEnv) (cidr dev : string) : list effect := (run v ["ip"; "route"; "del"; cidr; "dev"; dev]%string).1.
Definition configure_tun_v6 `{!System} (v : OpEnv) (addr : Ipv6Addr) (dev : string) : list effect * bool :=
  let '(e1, _) := run v ["ip"; "-6"; "addr"; "add"; print_ipv6 addr +:+ "/64"; "dev"; dev]%string in
  let '(e2, _) := run v ["ip"; "-6"; "route"; "del"; VIA6_ROUTE_CIDR]%string in
  let '(e3, ok) := run v ["ip"; "-6"; "route"; "add"; VIA6_ROUTE_CIDR; "dev"; dev]%string in
  (e1 ++ e2 ++ e3, ok).

(** ** One request *)
Section Requests.
Context `{!System, !UnicodeText}.
Implicit Types (g : Generation) (m : Sessions) (v : OpEnv).

Definition keep_tun g x : Generation :=
  {| kept_tuns := kept_tuns g ++ [x]; kept_socks := kept_socks g; kept_resolvers := kept_resolvers g;
     gateway_active := gateway_active g; kept_pins := kept_pins g |}.
Definition keep_sock g x : Generation :=
  {| kept_tuns := kept_tuns g; kept_socks := kept_socks g ++ [x]; kept_resolvers := kept_resolvers g;
     gateway_active := gateway_active g; kept_pins := kept_pins g |}.
Definition set_resolvers g x : Generation :=
  {| kept_tuns := kept_tuns g; kept_socks := kept_socks g; kept_resolvers := x; gateway_active := gateway_active g; kept_pins := kept_pins g |}.
Definition set_gateway g : Generation :=
  {| kept_tuns := kept_tuns g; kept_socks := kept_socks g; kept_resolvers := kept_resolvers g; gateway_active := true; kept_pins := kept_pins g |}.
Definition set_pins g x : Generation :=
  {| kept_tuns := kept_tuns g; kept_socks := kept_socks g; kept_resolvers := kept_resolvers g; gateway_active := gateway_active g; kept_pins := x |}.
Definition push_new (x : string) (l : list string) : list string := if bool_decide (x ∈ l) then l else l ++ [x].
(** The name of the TUN device created last. *)
Definition last_tun g : option string := match rev (kept_tuns g) with (_, n) :: _ => n | [] => None end.
Definition from_result {A} (x : checked unit) (e : refusal -> A) (k : A) : A :=
  match x with Ok _ => k | Err r => e r | Panic => e OperationFailed end.
Definition resolver_apply (domain : string) : checked string :=
  match sanitize_domain domain with Ok d => Ok d | _ => Err BadDomain end.
Definition resolver_remove (domain : string) : list effect :=
  match sanitize_domain domain with Ok d => [ResolverReverted d] | _ => [] end.

Definition reply_of (ok : bool) : MonitorReply := if ok then ReplyOk else ReplyError OperationFailed.
Definition pin_cidr (dst : Ipv4Addr) : string := print_ipv4 dst +:+ "/32".

Definition handle_request g m v (r : MonitorRequest) : Generation * Sessions * list effect * MonitorReply :=
  let refuse e := (g, m, [], ReplyError e) in
  match r with
  | CreateTun vip =>
      from_result (validate_create_tun vip) refuse
        match tun_made v with
        | None => refuse OperationFailed
        | Some dev =>
            if sent v then (keep_tun g (vip, dev), m, [TunCreated vip], OkFd 1)
            else (g, m, [TunCreated vip; TunClosed vip], OkFd 1)
        end
  | BindPrivPort addr port =>
      from_result (validate_bind_priv_port addr port) refuse
        (if negb (port_bound v) then refuse OperationFailed else
         if sent v then (keep_sock g (addr, port), m, [PortBound addr port], OkFd 1)
         else (g, m, [PortBound addr port; PortClosed addr port], OkFd 1))
  | ConfigureResolver domain vip =>
      match resolver_apply domain with
      | Ok d =>
          if resolver_set v then (set_resolvers g (push_new domain (kept_resolvers g)), m, [ResolverSet d vip], ReplyOk)
          else refuse OperationFailed
      | _ => refuse BadDomain
      end
  | SetupGateway routes =>
      let '(es, ok) := setup_gateway v routes in
      (if ok then set_gateway g else g, m, es, reply_of ok)
  | ModifyClientRoute cidr _ add =>
      match last_tun g with
      | None => refuse NoTun
      | Some tun =>
          if add then let '(es, ok) := add_route_raw v cidr tun in (g, m, es, reply_of ok)
          else (g, m, remove_route_raw v cidr tun, ReplyOk)
      end
  | ConfigureTunV6 addr =>
      if negb (is_client_v6 addr) then refuse NotClientV6 else
      match last_tun g with
      | None => refuse NoTun
      | Some tun => let '(es, ok) := configure_tun_v6 v addr tun in (g, m, es, reply_of ok)
      end
  | PinHostRoute dst via add =>
      let cidr := pin_cidr dst in
      let '(e1, _) := run v ["ip"; "route"; "del"; cidr]%string in
      if add then
        let '(e2, ok) := run v ["ip"; "route"; "add"; cidr; "via"; print_ipv4 via]%string in
        (if ok then set_pins g (push_new cidr (kept_pins g)) else g, m, e1 ++ e2, reply_of ok)
      else (set_pins g (List.filter (fun c => negb (bool_decide (c = cidr))) (kept_pins g)), m, e1, ReplyOk)
  | SpawnSession argv env _ user =>
      from_result (validate_spawn_session argv user) refuse
        match spawned v with
        | None => refuse OperationFailed
        | Some pty =>
            (g, if sent v then {| retained := <[next_session_key m := pty]> (retained m); next_session_key := u64 (next_session_key m + 1) |}
                else m,
             [SessionSpawned argv env user], OkFd 1)
        end
  | ReleaseSession t =>
      (g, match List.find (fun e => bool_decide (tty e.2 = Some t)) (map_order (retained m)) with
          | Some (k, _) => {| retained := delete k (retained m); next_session_key := next_session_key m |}
          | None => m
          end, [], ReplyOk)
  | AdoptSessions => (g, m, [], Fds (map snd (map_order (retained m))))
  | SpawnExec cmd policy user =>
      from_result (_ ← valid_username user; _ ← validate_spawn_user user;
                   ensure (negb (is_restricted policy) || match validate_command cmd policy with Ok _ => true | _ => false end) BadCommand)
        refuse
        match spawned v with
        | None => refuse OperationFailed
        | Some _ => let '(argv, pol) := build_exec_command_std cmd policy user in (g, m, [ExecSpawned argv pol user], OkFd 4)
        end
  | SpawnHelper argv user =>
      from_result (validate_spawn_helper argv user) refuse
        match lookup_uid_gid user, spawned v with
        | Ok (uid, gid), Some _ => (g, m, [HelperSpawned argv user uid gid], OkFd 3)
        | _, _ => refuse OperationFailed
        end
  end.

(** ** A worker's life *)
Inductive event := Request (v : OpEnv) (r : MonitorRequest) | ShellExits (key : Z).
Fixpoint serve g m (l : list event) : Generation * Sessions * list effect :=
  match l with
  | [] => (g, m, [])
  | Request v r :: l =>
      let '(g, m, es, _) := handle_request g m v r in
      let '(g, m, es') := serve g m l in (g, m, es ++ es')
  | ShellExits k :: l => serve g {| retained := delete k (retained m); next_session_key := next_session_key m |} l
  end.
(** What the monitor takes back when the worker is gone. *)
Definition tear_down g v : list effect :=
  map (fun t => TunClosed t.1) (kept_tuns g) ++ map (fun s => PortClosed s.1 s.2) (kept_socks g) ++
  flat_map resolver_remove (kept_resolvers g) ++
  (if gateway_active g then teardown_gateway v else []) ++
  flat_map (fun pin => (run v ["ip"; "route"; "del"; pin]%string).1) (kept_pins g).
Definition generation m (l : list event) (v : OpEnv) : Sessions * list effect :=
  let '(g, m, es) := serve new_generation m l in (m, es ++ tear_down g v).

(** How a worker ended: milliseconds of uptime, and the exit code unless a signal ended it. *)
Record Exit := { uptime : Z; code : option Z }.
Inductive next := Respawn (fast_failures : Z) | FallBack | AlreadyRunning.
Definition after_exit (fast_failures : Z) (x : Exit) : next :=
  let requested_restart := bool_decide (code x = Some 0) in
  if bool_decide (code x = Some EXIT_ALREADY_RUNNING) then AlreadyRunning else
  if (uptime x <? HEALTHY_UPTIME) && negb requested_restart then
    let n := fast_failures + 1 in
    if MAX_FAST_FAILURES <=? n then FallBack else Respawn n
  else Respawn 0.
(** Generations until the monitor gives up, or all of them. *)
Fixpoint run_monitor (fast_failures : Z) m (l : list (list event * OpEnv * Exit)) : Sessions * list effect * next :=
  match l with
  | [] => (m, [], Respawn fast_failures)
  | (evs, v, x) :: l =>
      let '(m, es) := generation m evs v in
      match after_exit fast_failures x with
      | Respawn n => let '(m, es', r) := run_monitor n m l in (m, es ++ es', r)
      | r => (m, es, r)
      end
  end.
End Requests.

(** ** What a worker can make the monitor do *)
Section Confinement.
Context `{!System, !UnicodeText}.
Implicit Types (g : Generation) (m : Sessions) (v : OpEnv).

(** An account peers may be given: regular, not root, and on the operator's list if there is a trustworthy one. *)
Definition authorized (u : string) : Prop :=
  (exists uid gid, user_ids u = Some (uid, gid) /\ 1000 <= uid) /\ u <> "root"%string /\
  forall allowed, load_allowlist = Some allowed -> u ∈ allowed.
Definition launcher (bin : string) : Prop :=
  starts_with "/" bin = true \/ exists b, file_name (components bin) = Some b /\ b ∈ ["login"; "su"]%string.
Definition safe_name (d : string) : Prop :=
  d <> EmptyString /\ forall b, b ∈ str_bytes d -> (97 <= b <= 122) \/ (48 <= b <= 57) \/ b = 45 \/ b = 46.
(** The commands; [devs] are the devices the monitor created. *)
Definition permitted_command (devs : list string) (argv : list string) : Prop :=
  (exists fam, argv = ["nft"; "delete"; "table"; fam; NFT_TABLE]%string) \/
  (exists op cidr dev, dev ∈ devs /\ op ∈ ["add"; "del"]%string /\ argv = ["ip"; "route"; op; cidr; "dev"; dev]%string) \/
  (exists addr dev, dev ∈ devs /\ is_client_v6 addr = true /\ argv = ["ip"; "-6"; "addr"; "add"; print_ipv6 addr +:+ "/64"; "dev"; dev]%string) \/
  argv = ["ip"; "-6"; "route"; "del"; VIA6_ROUTE_CIDR]%string \/
  (exists dev, dev ∈ devs /\ argv = ["ip"; "-6"; "route"; "add"; VIA6_ROUTE_CIDR; "dev"; dev]%string) \/
  (exists dst, argv = ["ip"; "route"; "del"; pin_cidr dst]%string) \/
  (exists dst via, argv = ["ip"; "route"; "add"; pin_cidr dst; "via"; print_ipv4 via]%string).
Definition permitted (devs : list string) (e : effect) : Prop :=
  match e with
  | TunCreated vip | TunClosed vip => is_virtual_addr vip = true
  | PortBound a p | PortClosed a p => p = 53 /\ (is_virtual_addr a = true \/ a = V4 127 0 0 1)
  | ResolverSet d _ | ResolverReverted d => safe_name d
  | ForwardingOn => True
  | NftLoaded s => s = nftables_ruleset [] \/ s = nftables_ruleset [(EmptyString, true)]
  | Ran argv _ => permitted_command devs argv
  | SessionSpawned argv _ u => (exists bin args, argv = bin :: args /\ launcher bin) /\ forall x, u = Some x -> authorized x
  | ExecSpawned argv _ u => authorized u /\ take 3 argv = ["su"; "-"; u]%string
  | HelperSpawned argv u uid gid => authorized u /\ user_ids u = Some (uid, gid) /\
      exists bin args exe, argv = bin :: "__transfer-helper"%string :: args /\ current_exe = Some exe /\ components bin = components exe
  end.
Definition made_names (v : OpEnv) : list string := match tun_made v with Some (Some n) => [n] | _ => [] end.
Definition device_names (l : list event) : list string :=
  flat_map (fun e => match e with Request v (CreateTun _) => made_names v | _ => [] end) l.

(** What is kept was permitted. *)
Definition held_ok (devs : list string) g : Prop :=
  (forall t, t ∈ kept_tuns g -> is_virtual_addr t.1 = true /\ forall n, t.2 = Some n -> n ∈ devs) /\
  (forall s, s ∈ kept_socks g -> s.2 = 53 /\ (is_virtual_addr s.1 = true \/ s.1 = V4 127 0 0 1)) /\
  (forall p, p ∈ kept_pins g -> exists dst, p = pin_cidr dst).

Lemma ensure_Ok b e : ensure b e = Ok tt <-> b = true.
Proof. by destruct b. Qed.
Lemma validate_spawn_user_Ok u : valid_username u = Ok tt -> validate_spawn_user u = Ok tt -> authorized u.
Proof.
  unfold valid_username, validate_spawn_user, lookup_uid_gid, validate_spawnable_uid. intros Hn%ensure_Ok.
  destruct (user_ids u) as [[uid gid]|] eqn:E; [|done]. cbn [mbind rust_bind].
  destruct (MIN_SPAWNABLE_UID <=? uid) eqn:Hu; [|done]. cbn [ensure mbind rust_bind]. intros Hl. split; [|split].
  - exists uid, gid. split; [done|]. apply Z.leb_le in Hu. exact Hu.
  - intros ->. revert Hn. unfold validate_username. cbn. done.
  - intros allowed Ha. rewrite Ha in Hl. apply ensure_Ok, bool_decide_eq_true in Hl. done.
Qed.
Lemma seq_Ok {A} (x : checked unit) (k : checked A) a : (_ ← x; k) = Ok a -> x = Ok tt /\ k = Ok a.
Proof. destruct x as [[]| |]; [done|done|done]. Qed.
Lemma validate_session_Ok argv u : validate_spawn_session argv u = Ok tt ->
  (exists bin args, argv = bin :: args /\ launcher bin) /\ forall x, u = Some x -> authorized x.
Proof.
  unfold validate_spawn_session. destruct argv as [|bin args]; [done|]. cbv zeta. intros [Hb%ensure_Ok Hu]%seq_Ok. split.
  - exists bin, args. split; [done|]. apply orb_true_iff in Hb as [Hb|Hb%bool_decide_eq_true]; [by left|right].
    destruct (file_name (components bin)) as [b|]; [by exists b|]. cbn in Hb. set_solver.
  - intros x ->. apply seq_Ok in Hu as [Hv Hs]. by apply validate_spawn_user_Ok.
Qed.
Lemma validate_helper_Ok argv u : validate_spawn_helper argv u = Ok tt ->
  authorized u /\ exists bin args exe, argv = bin :: "__transfer-helper"%string :: args /\ current_exe = Some exe /\ components bin = components exe.
Proof.
  unfold validate_spawn_helper. destruct current_exe as [exe|]; [|done]. destruct argv as [|bin args]; [done|].
  intros [Hb%ensure_Ok%bool_decide_eq_true Hu]%seq_Ok. apply seq_Ok in Hu as [Hh%ensure_Ok%bool_decide_eq_true Hu].
  apply seq_Ok in Hu as [Hv Hs]. split; [by apply validate_spawn_user_Ok|]. destruct args as [|a args]; [done|]. injection Hh as ->. eauto 10.
Qed.

Lemma from_result_cases {A} (x : checked unit) (f : refusal -> A) k (P : A -> Prop) :
  (forall e, P (f e)) -> (x = Ok tt -> P k) -> P (from_result x f k).
Proof. destruct x as [[]| |]; cbn; auto. Qed.
Lemma sanitized_safe domain d : sanitize_domain domain = Ok d -> safe_name d.
Proof. intros Hd. apply sanitize_domain_safe in Hd as (Hne & _ & Hb & _). by split. Qed.
Lemma last_tun_in g n : last_tun g = Some n -> exists vip, (vip, Some n) ∈ kept_tuns g.
Proof.
  unfold last_tun. destruct (rev (kept_tuns g)) as [|[vip o] l] eqn:E; [done|]. intros ->. exists vip.
  apply list_elem_of_In, in_rev. rewrite E. by left.
Qed.
Lemma ruleset_closed routes : nftables_ruleset routes = nftables_ruleset [] \/ nftables_ruleset routes = nftables_ruleset [(EmptyString, true)].
Proof. unfold nftables_ruleset at 1 3. destruct (existsb snd routes); [by right|by left]. Qed.

Ltac each tac := repeat (apply Forall_cons; split; [tac|]); try exact (List.Forall_nil _).
Lemma delete_tables_permitted devs v : Forall (permitted devs) (delete_tables v).
Proof. unfold delete_tables. cbn [flat_map run fst app]. each ltac:(left; by eexists). Qed.
Lemma gateway_permitted devs v routes : Forall (permitted devs) (setup_gateway v routes).1.
Proof.
  unfold setup_gateway. destruct (is_empty routes); [constructor|]. destruct (forwarding_ok v); cbn [negb]; [|constructor].
  destruct (nft_ok v); cbn [fst]; (apply Forall_cons; split; [done|]); [|apply delete_tables_permitted].
  apply Forall_app. split; [apply delete_tables_permitted|]. apply Forall_singleton, ruleset_closed.
Qed.
Lemma held_weaken devs devs' g : devs ⊆ devs' -> held_ok devs g -> held_ok devs' g.
Proof. intros Hs (Ht1 & Ht2 & Ht3). split_and!; [|done|done]. intros t Ht. destruct (Ht1 t Ht) as [? Hn]. split; [done|]. intros n Hx. by apply Hs, Hn. Qed.
Lemma permitted_weaken devs devs' e : devs ⊆ devs' -> permitted devs e -> permitted devs' e.
Proof.
  intros Hs. destruct e; try done. cbn. unfold permitted_command. intros [Hc|[Hc|[Hc|[Hc|[Hc|[Hc|Hc]]]]]]; [by left|right|right|right|right|right|right].
  - left. destruct Hc as (a & b & c & Hd & Hc). exists a, b, c. split; [by apply Hs|done].
  - right; left. destruct Hc as (a & b & Hb & Hc). exists a, b. split; [by apply Hs|done].
  - tauto.
  - right; right; right; left. destruct Hc as (a & Ha & Hc). exists a. split; [by apply Hs|done].
  - tauto.
  - tauto.
Qed.

Definition request_names v (r : MonitorRequest) : list string := match r with CreateTun _ => made_names v | _ => [] end.
Lemma handle_permitted devs g m v r : held_ok devs g ->
  let '(g', _, es, _) := handle_request g m v r in
  let devs' := devs ++ request_names v r in
  held_ok devs' g' /\ Forall (permitted devs') es.
Proof.
  intros Hg. assert (held_ok (devs ++ request_names v r) g) as Hg' by (eapply held_weaken; [|exact Hg]; set_solver).
  pose proof Hg as (Ht & Hs & Hp).
  destruct r; cbn [handle_request]; set (D := devs ++ request_names v _) in *; try (split; [done|constructor]; fail).
  - apply from_result_cases; [done|]. intros Hv%ensure_Ok. destruct (tun_made v) as [dev|] eqn:Em; [|done].
    destruct (sent v); (split; [|each ltac:(done)]); [|done]. split_and!; [|apply Hg'|apply Hg'].
    intros t [Hin|Hin%list_elem_of_singleton]%elem_of_app; [by apply Hg'|]. subst t. split; [done|]. cbn. intros n ->.
    subst D. cbn [request_names]. unfold made_names. rewrite Em. set_solver.
  - apply from_result_cases; [done|]. intros [Hport%ensure_Ok%Z.eqb_eq Ha%ensure_Ok]%seq_Ok. destruct (port_bound v); [|done]. cbn [negb].
    assert (permitted D (PortBound addr port)) as Hok.
    { cbn. split; [done|]. apply orb_true_iff in Ha as [Hx|Hx%bool_decide_eq_true]; auto. }
    destruct (sent v); (split; [|each ltac:(exact Hok)]); [|done]. split_and!; [apply Hg'| |apply Hg'].
    intros s [Hin|Hin%list_elem_of_singleton]%elem_of_app; [by apply Hg'|]. subst s. exact Hok.
  - unfold resolver_apply. destruct (sanitize_domain domain) as [d| |] eqn:Ed; [|done..]. destruct (resolver_set v); [|done].
    split; [done|]. constructor; [by eapply sanitized_safe|constructor].
  - pose proof (gateway_permitted D v routes) as Hgw. destruct (setup_gateway v routes) as [es ok]. by destruct ok.
  - destruct (last_tun g) as [tun|] eqn:El; [|done]. apply last_tun_in in El as [vip El].
    assert (tun ∈ D) as Hd by (by apply (proj2 (proj1 Hg' _ El))).
    destruct add; (split; [done|]); each ltac:(right; left; eexists _, _, _; split; [exact Hd|]; split; [|reflexivity]; set_solver).
  - destruct (is_client_v6 addr) eqn:Ec; [|done]. cbn [negb]. destruct (last_tun g) as [tun|] eqn:El; [|done]. apply last_tun_in in El as [vip El].
    assert (tun ∈ D) as Hd by (by apply (proj2 (proj1 Hg' _ El))). cbn. split; [done|].
    each ltac:(first [do 2 right; left; by eauto | do 3 right; left; done | do 4 right; left; by eauto]).
  - cbn [run]. destruct add.
    + destruct (command_ok v _); (split; [|each ltac:(first [do 5 right; left; by eauto | do 6 right; by eauto])]).
      * split_and!; [apply Hg'|apply Hg'|]. intros p Hin. unfold push_new in Hin. cbn [kept_pins set_pins] in Hin.
        case_bool_decide; [by apply Hp|]. apply elem_of_app in Hin as [Hin|Hin%list_elem_of_singleton]; [by apply Hp|by eexists].
      * done.
    + split; [|each ltac:(do 5 right; left; by eauto)]. split_and!; [apply Hg'|apply Hg'|].
      intros p Hin. cbn [kept_pins set_pins] in Hin. apply list_elem_of_In, filter_In in Hin as [Hin%list_elem_of_In _]. by apply Hp.
  - apply from_result_cases; [done|]. intros Hv%validate_session_Ok. destruct (spawned v); [|done]. split; [done|]. each ltac:(done).
  - apply from_result_cases; [done|]. intros [Hv Hu]%seq_Ok. apply seq_Ok in Hu as [Hu _]. destruct (spawned v); [|done].
    unfold build_exec_command_std. assert (authorized user) as Hau by (by apply validate_spawn_user_Ok).
    destruct (is_restricted policy); (split; [done|]); each ltac:(done).
  - apply from_result_cases; [done|]. intros [Ha Hx]%validate_helper_Ok. unfold lookup_uid_gid. destruct (user_ids user) as [[uid gid]|] eqn:Eu; [|done].
    destruct (spawned v); [|done]. split; [done|]. each ltac:(done).
Qed.

Lemma serve_permitted l : forall devs g m, held_ok devs g ->
  let '(g', _, es) := serve g m l in let devs' := devs ++ device_names l in
  held_ok devs' g' /\ Forall (permitted devs') es.
Proof.
  induction l as [|[v r|k] l IH]; intros devs g m Hg; cbn [serve].
  - cbn. rewrite app_nil_r. split; [done|exact (List.Forall_nil _)].
  - pose proof (handle_permitted devs g m v r Hg) as Hh. destruct (handle_request g m v r) as [[[g1 m1] es] reply].
    destruct Hh as [Hg1 He]. specialize (IH _ _ m1 Hg1). destruct (serve g1 m1 l) as [[g2 m2] es2]. destruct IH as [Hg2 He2].
    assert (devs ++ device_names (Request v r :: l) = (devs ++ request_names v r) ++ device_names l) as -> by (by rewrite <-app_assoc).
    split; [done|]. apply Forall_app. split; [|done]. eapply Forall_impl; [exact He|]. intros e. apply permitted_weaken. set_solver.
  - exact (IH devs g _ Hg).
Qed.
Lemma tear_down_permitted devs g v : held_ok devs g -> Forall (permitted devs) (tear_down g v).
Proof.
  intros (Ht & Hs & Hp). unfold tear_down. rewrite !Forall_app. split_and!.
  - apply Forall_map, Forall_forall. intros t Hin. by apply Ht.
  - apply Forall_map, Forall_forall. intros s Hin. by apply Hs.
  - apply Forall_forall. intros e (d & Hd & He)%list_elem_of_In%in_flat_map. unfold resolver_remove in He.
    destruct (sanitize_domain d) as [x| |] eqn:E; [|done..]. destruct He as [<-|[]]. by eapply sanitized_safe.
  - destruct (gateway_active g); [apply delete_tables_permitted|exact (List.Forall_nil _)].
  - apply Forall_forall. intros e (p & Hin%list_elem_of_In & He)%list_elem_of_In%in_flat_map. destruct He as [<-|[]].
    destruct (Hp p Hin) as [dst ->]. do 5 right. left. by exists dst.
Qed.
Lemma generation_permitted m l v : Forall (permitted (device_names l)) (generation m l v).2.
Proof.
  unfold generation. pose proof (serve_permitted l [] new_generation m) as Hs.
  destruct (serve new_generation m l) as [[g m'] es]. cbn [app] in Hs. destruct Hs as [Hg He].
  { split_and!; cbn; intros ? ?%elem_of_nil; done. }
  cbn [snd]. apply Forall_app. split; [done|]. by apply tear_down_permitted.
Qed.
(** ** What it cannot, and what it can *)
(** Commands on the monitor's own devices and tables; [devs] are the devices it created. *)
Definition tunnel_command (devs : list string) (argv : list string) : Prop :=
  (exists fam, argv = ["nft"; "delete"; "table"; fam; NFT_TABLE]%string) \/
  (exists op cidr dev, dev ∈ devs /\ op ∈ ["add"; "del"]%string /\ argv = ["ip"; "route"; op; cidr; "dev"; dev]%string) \/
  (exists addr dev, dev ∈ devs /\ is_client_v6 addr = true /\ argv = ["ip"; "-6"; "addr"; "add"; print_ipv6 addr +:+ "/64"; "dev"; dev]%string) \/
  argv = ["ip"; "-6"; "route"; "del"; VIA6_ROUTE_CIDR]%string \/
  (exists dev, dev ∈ devs /\ argv = ["ip"; "-6"; "route"; "add"; VIA6_ROUTE_CIDR; "dev"; dev]%string).
Definition confined (devs : list string) (e : effect) : Prop :=
  match e with
  | TunCreated vip | TunClosed vip => is_virtual_addr vip = true
  | PortBound a p | PortClosed a p => p = 53 /\ (is_virtual_addr a = true \/ a = V4 127 0 0 1)
  | ResolverSet d _ | ResolverReverted d => safe_name d
  | ForwardingOn => True
  | NftLoaded s => s = nftables_ruleset [] \/ s = nftables_ruleset [(EmptyString, true)]
  | Ran argv _ => tunnel_command devs argv
  | SessionSpawned _ _ _ => False
  | ExecSpawned argv _ u => authorized u /\ take 3 argv = ["su"; "-"; u]%string
  | HelperSpawned argv u uid gid => authorized u /\ user_ids u = Some (uid, gid) /\
      exists bin args exe, argv = bin :: "__transfer-helper"%string :: args /\ current_exe = Some exe /\ components bin = components exe
  end.
(** The exceptions: any program by its absolute path (or one named login or su) as a session, and a
    host route to any address by any gateway. *)
Definition session_launch (e : effect) : Prop :=
  exists bin args env u, e = SessionSpawned (bin :: args) env u /\ launcher bin /\ forall x, u = Some x -> authorized x.
Definition host_route (e : effect) : Prop :=
  exists ok dst, e = Ran ["ip"; "route"; "del"; pin_cidr dst]%string ok \/
    exists via, e = Ran ["ip"; "route"; "add"; pin_cidr dst; "via"; print_ipv4 via]%string ok.
Lemma permitted_cases devs e : permitted devs e -> confined devs e \/ session_launch e \/ host_route e.
Proof.
  destruct e; cbn; auto.
  - unfold permitted_command, tunnel_command, host_route. intros [?|[?|[?|[?|[?|[[dst ->]|(dst & via & ->)]]]]]]; [tauto..| |].
    + right; right. eexists _, dst. by left.
    + right; right. eexists _, dst. right. by exists via.
  - intros [(bin & args & -> & Hl) Hu]. right; left. by eexists bin, args, _, _.
Qed.
End Confinement.


(** The monitor runs any program as root: a session request that names no user and
    starts with an absolute path is served with its arguments as given, and nothing switches the
    account; the request types and the comment promise an allowlisted launcher. *)
Theorem session_request_runs_as_root `{!System, !UnicodeText} g m v pty cmd env size :
  spawned v = Some pty ->
  handle_request g m v (SpawnSession ["/bin/sh"; "-c"; cmd]%string env size None) =
    (g, if sent v then {| retained := <[next_session_key m := pty]> (retained m); next_session_key := u64 (next_session_key m + 1) |} else m,
     [SessionSpawned ["/bin/sh"; "-c"; cmd]%string env None], OkFd 1).
Proof. intros Hs. cbn. by rewrite Hs. Qed.

(** ** What is left behind when a worker is gone *)

(** The state of the system a trace leads to: open interfaces and sockets, resolver entries,
    firewall tables, host routes.  A deletion that fails found nothing to delete. *)
Definition tun_step (s : gmultiset Ipv4Addr) (e : effect) : gmultiset Ipv4Addr :=
  match e with TunCreated a => s ⊎ {[+ a +]} | TunClosed a => s ∖ {[+ a +]} | _ => s end.
Definition sock_step (s : gmultiset (Ipv4Addr * Z)) (e : effect) : gmultiset (Ipv4Addr * Z) :=
  match e with PortBound a p => s ⊎ {[+ (a, p) +]} | PortClosed a p => s ∖ {[+ (a, p) +]} | _ => s end.
Definition resolver_step (s : gset string) (e : effect) : gset string :=
  match e with ResolverSet d _ => {[d]} ∪ s | ResolverReverted d => s ∖ {[d]} | _ => s end.
Definition table_step (s : gset string) (e : effect) : gset string :=
  match e with
  | NftLoaded _ => {["inet"%string; "ip"%string]}
  | Ran ["nft"%string; "delete"%string; "table"%string; fam; _] _ => s ∖ {[fam]}
  | _ => s
  end.
Definition pin_step (s : gset string) (e : effect) : gset string :=
  match e with
  | Ran ["ip"%string; "route"%string; "del"%string; cidr] _ => s ∖ {[cidr]}
  | Ran ["ip"%string; "route"%string; "add"%string; cidr; "via"%string; _] true => {[cidr]} ∪ s
  | _ => s
  end.

Section Teardown.
Context `{!System, !UnicodeText}.
Implicit Types (g : Generation) (m : Sessions) (v : OpEnv).

Lemma multiset_undo `{Countable A} (s : gmultiset A) x : (s ⊎ {[+ x +]}) ∖ {[+ x +]} = s.
Proof. multiset_solver. Qed.
Lemma multiset_undo_l `{Countable A} (s : gmultiset A) x : ({[+ x +]} ⊎ s) ∖ {[+ x +]} = s.
Proof. multiset_solver. Qed.
Lemma foldl_neutral {S} (f : S -> effect -> S) es : Forall (fun e => forall s, f s e = s) es -> forall s, foldl f s es = s.
Proof. induction 1 as [|e es He _ IH]; intros s; [done|]. cbn. by rewrite He, IH. Qed.

(** The pins in place are among those kept, and likewise the rest. *)
Definition settled g (tuns : gmultiset Ipv4Addr) (socks : gmultiset (Ipv4Addr * Z)) (res tab pins : gset string) : Prop :=
  tuns = list_to_set_disj (map fst (kept_tuns g)) /\ socks = list_to_set_disj (kept_socks g) /\
  (forall d, d ∈ res -> exists x, x ∈ kept_resolvers g /\ sanitize_domain x = Ok d) /\
  ((tab = ∅ \/ gateway_active g = true) /\ tab ⊆ {["inet"; "ip"]}%string) /\ (forall p, p ∈ pins -> p ∈ kept_pins g).
Definition after {S} (f : S -> effect -> S) (s : S) (es : list effect) : S := foldl f s es.

Lemma elem_of_push_new x y l : x ∈ push_new y l <-> x = y \/ x ∈ l.
Proof. unfold push_new. case_bool_decide; [|rewrite elem_of_app, list_elem_of_singleton; tauto]. split; [tauto|]. by intros [->|]. Qed.
Lemma list_to_set_disj_snoc `{Countable A} (l : list A) x : list_to_set_disj (l ++ [x]) = (list_to_set_disj l ⊎ {[+ x +]} : gmultiset A).
Proof. by rewrite list_to_set_disj_app, list_to_set_disj_cons, list_to_set_disj_nil, (right_id_L ∅ (⊎)). Qed.

Lemma handle_settled g m v r tuns socks res tab pins : settled g tuns socks res tab pins ->
  let '(g', _, es, _) := handle_request g m v r in
  settled g' (after tun_step tuns es) (after sock_step socks es) (after resolver_step res es) (after table_step tab es) (after pin_step pins es).
Proof.
  intros Hk. pose proof Hk as (Ht & Hs & Hr & (Hb & Hsub) & Hp).
  destruct r; cbn [handle_request]; try exact Hk; try (apply from_result_cases; [intros _; exact Hk|intros _]).
  - destruct (tun_made v); [|exact Hk]. destruct (sent v); cbn.
    + split_and!; try done. cbn. rewrite map_app. cbn. by rewrite list_to_set_disj_snoc, Ht.
    + split_and!; try done. by rewrite Ht, multiset_undo.
  - destruct (port_bound v); [|exact Hk]. cbn [negb]. destruct (sent v); cbn.
    + split_and!; try done. cbn. by rewrite list_to_set_disj_snoc, Hs.
    + split_and!; try done. by rewrite Hs, multiset_undo.
  - unfold resolver_apply. destruct (sanitize_domain domain) as [d| |] eqn:E; [|exact Hk..]. destruct (resolver_set v); [|exact Hk]. cbn.
    split_and!; try done. intros d' [->%elem_of_singleton|Hd]%elem_of_union; cbn.
    + exists domain. split; [apply elem_of_push_new; by left|done].
    + destruct (Hr d' Hd) as (x & Hx & Hxd). exists x. split; [apply elem_of_push_new; by right|done].
  - unfold setup_gateway. destruct (is_empty routes); [cbn; split_and!; try done; by right|]. destruct (forwarding_ok v); [|exact Hk]. cbn [negb].
    destruct (nft_ok v); cbn; (split_and!; try done); [by right|destruct Hb as [->|?]; [left; set_solver|by right]|set_solver].
  - destruct (last_tun g); [|exact Hk]. destruct add; exact Hk.
  - destruct (is_client_v6 addr); [|exact Hk]. cbn [negb]. destruct (last_tun g); exact Hk.
  - destruct add; cbn.
    + destruct (command_ok v _); cbn; (split_and!; try done); cbn; intros p Hin; [rewrite elem_of_push_new|]; set_solver.
    + split_and!; try done. cbn. intros p [Hin Hne]%elem_of_difference. apply list_elem_of_In, filter_In. rewrite <-list_elem_of_In. split; [by apply Hp|].
      rewrite negb_true_iff, bool_decide_eq_false. set_solver.
  - destruct (spawned v); [|exact Hk]. exact Hk.
  - destruct (spawned v); [|exact Hk]. unfold build_exec_command_std. destruct (is_restricted policy); exact Hk.
  - destruct (lookup_uid_gid user) as [[]| |]; [|exact Hk..]. destruct (spawned v); exact Hk.
Qed.
Lemma serve_settled l : forall g m tuns socks res tab pins, settled g tuns socks res tab pins ->
  let '(g', _, es) := serve g m l in
  settled g' (after tun_step tuns es) (after sock_step socks es) (after resolver_step res es) (after table_step tab es) (after pin_step pins es).
Proof.
  induction l as [|[v r|k] l IH]; intros g m tuns socks res tab pins Hk; cbn [serve]; [exact Hk| |by apply IH].
  pose proof (handle_settled g m v r _ _ _ _ _ Hk) as Hh. destruct (handle_request g m v r) as [[[g1 m1] es] reply].
  specialize (IH g1 m1 _ _ _ _ _ Hh). destruct (serve g1 m1 l) as [[g2 m2] es2]. unfold after in *. by rewrite !foldl_app.
Qed.

(** Each part of the teardown clears one kind of thing and leaves the others alone. *)
Lemma close_tuns l : foldl tun_step (list_to_set_disj (map fst l)) (map (fun t : Ipv4Addr * option string => TunClosed t.1) l) = ∅.
Proof.
  induction l as [|x l IH]; [done|]. cbn [map foldl tun_step]. rewrite list_to_set_disj_cons, multiset_undo_l. exact IH.
Qed.
Lemma close_socks l : foldl sock_step (list_to_set_disj l) (map (fun s : Ipv4Addr * Z => PortClosed s.1 s.2) l) = ∅.
Proof.
  induction l as [|[a p] l IH]; [done|]. cbn [map foldl sock_step fst snd]. rewrite list_to_set_disj_cons, multiset_undo_l. exact IH.
Qed.
Lemma revert_resolvers l : forall s d, d ∈ foldl resolver_step s (flat_map resolver_remove l) ->
  d ∈ s /\ forall x, x ∈ l -> sanitize_domain x <> Ok d.
Proof.
  induction l as [|y l IH]; intros s d; [set_solver|]. cbn [flat_map]. rewrite foldl_app. intros [Hd Hl]%IH.
  unfold resolver_remove in Hd. split.
  - destruct (sanitize_domain y); cbn in Hd; set_solver.
  - intros x [->|Hx]%elem_of_cons; [|by apply Hl]. intros E. rewrite E in Hd. cbn in Hd. set_solver.
Qed.
Lemma unpin_all v l : forall s p, p ∈ foldl pin_step s (flat_map (fun pin => (run v ["ip"; "route"; "del"; pin]%string).1) l) -> p ∈ s /\ p ∉ l.
Proof.
  induction l as [|y l IH]; intros s p; [set_solver|]. cbn [flat_map]. rewrite foldl_app. intros [Hp Hl]%IH. cbn in Hp. set_solver.
Qed.
Lemma neutral_tear {S} (f : S -> effect -> S) {A} (F : A -> list effect) l : (forall x s e, e ∈ F x -> f s e = s) -> forall s, foldl f s (flat_map F l) = s.
Proof.
  intros Hn. apply foldl_neutral. apply Forall_forall. intros e (x & _ & He)%list_elem_of_In%in_flat_map s. eapply Hn. by apply list_elem_of_In.
Qed.
Lemma neutral_map {S} (f : S -> effect -> S) {A} (F : A -> effect) l : (forall x s, f s (F x) = s) -> forall s, foldl f s (map F l) = s.
Proof. intros Hn. apply foldl_neutral. apply Forall_map, Forall_forall. intros x _ s. apply Hn. Qed.
Lemma neutral_tables {S} (f : S -> effect -> S) g v : (forall s fam ok, f s (Ran ["nft"; "delete"; "table"; fam; NFT_TABLE]%string ok) = s) ->
  forall s, foldl f s (if gateway_active g then teardown_gateway v else []) = s.
Proof. intros Hn s. destruct (gateway_active g); [|done]. cbn. by rewrite !Hn. Qed.

Ltac neutral := repeat first
  [ rewrite (neutral_map _ (fun t : Ipv4Addr * option string => TunClosed t.1)) by done
  | rewrite (neutral_map _ (fun s : Ipv4Addr * Z => PortClosed s.1 s.2)) by done
  | rewrite neutral_tables by done
  | rewrite (neutral_tear _ resolver_remove) by (intros ? ? ? He; unfold resolver_remove in He; destruct (sanitize_domain _); set_solver)
  | rewrite (neutral_tear _ (fun pin => (run _ _).1)) by (intros ? ? ? ->%list_elem_of_singleton; done) ].

Lemma tear_down_clears g v tuns socks res tab pins : settled g tuns socks res tab pins ->
  foldl tun_step tuns (tear_down g v) = ∅ /\ foldl sock_step socks (tear_down g v) = ∅ /\ foldl resolver_step res (tear_down g v) = ∅ /\
  foldl table_step tab (tear_down g v) = ∅ /\ foldl pin_step pins (tear_down g v) = ∅.
Proof.
  intros (-> & -> & Hr & Hb & Hp). unfold tear_down. rewrite !foldl_app. split_and!.
  - rewrite close_tuns. neutral. done.
  - neutral. rewrite close_socks. neutral. done.
  - neutral. apply set_eq. intros d. split; [|set_solver]. intros [Hd Hl]%revert_resolvers. destruct (Hr d Hd) as (x & Hx & E). by apply Hl in Hx.
  - neutral. destruct Hb as [Hb Hsub]. destruct (gateway_active g); [|destruct Hb as [->|?]; done]. cbn. set_solver.
  - neutral. apply set_eq. intros p. split; [|set_solver]. intros [Hin Hn]%unpin_all. by apply Hp in Hin.
Qed.
End Teardown.

(** Nothing outlives a worker: when a worker is gone, whatever it had requested and in
    whatever order, every interface and socket opened for it is closed, every resolver entry reverted,
    and no firewall table and no pinned route is left. *)
Theorem generation_leaves_nothing `{!System, !UnicodeText} m l v :
  let es := (generation m l v).2 in
  foldl tun_step ∅ es = ∅ /\ foldl sock_step ∅ es = ∅ /\ foldl resolver_step ∅ es = ∅ /\
  foldl table_step ∅ es = ∅ /\ foldl pin_step ∅ es = ∅.
Proof.
  unfold generation. pose proof (serve_settled l new_generation m ∅ ∅ ∅ ∅ ∅) as Hs.
  destruct (serve new_generation m l) as [[g m'] es]. cbv zeta. cbn [snd]. unfold after in Hs. rewrite !foldl_app. apply tear_down_clears, Hs.
  split_and!; (done || by left || set_solver).
Qed.

(** ** Sessions across workers *)
Section Survival.
Context `{!System, !UnicodeText}.
Implicit Types (g : Generation) (m : Sessions) (v : OpEnv).

(** The sessions a request leaves do not depend on what is held for the worker. *)
Lemma handle_sessions g g' m v r : (handle_request g m v r).1.1.2 = (handle_request g' m v r).1.1.2.
Proof.
  destruct r; cbn [handle_request]; unfold from_result; try done; repeat first [done | case_match; simplify_eq; cbn [fst snd]].
Qed.
Lemma serve_sessions l : forall g g' m, (serve g m l).1.2 = (serve g' m l).1.2.
Proof.
  induction l as [|[v r|k] l IH]; intros g g' m; [done| |by apply IH]. cbn [serve].
  pose proof (handle_sessions g g' m v r) as Hh. destruct (handle_request g m v r) as [[[g1 m1] es] q], (handle_request g' m v r) as [[[g2 m2] es'] q'].
  cbn in Hh. subst m2. specialize (IH g1 g2 m1). destruct (serve g1 m1 l) as [[? ?] ?], (serve g2 m1 l) as [[? ?] ?]. exact IH.
Qed.
Lemma serve_app l1 l2 g m : (serve g m (l1 ++ l2)).1.2 = (serve (serve g m l1).1.1 (serve g m l1).1.2 l2).1.2.
Proof.
  revert g m. induction l1 as [|[v r|k] l1 IH]; intros g m; [done| |by apply IH]. cbn [app serve].
  destruct (handle_request g m v r) as [[[g1 m1] es] q]. specialize (IH g1 m1).
  destruct (serve g1 m1 (l1 ++ l2)) as [[? ?] ?], (serve g1 m1 l1) as [[? ?] ?]. exact IH.
Qed.

Definition keys_fresh m : Prop := forall k, is_Some (retained m !! k) -> 0 <= k < next_session_key m.
Lemma find_in_map (f : Z * Pty -> bool) (s : gmap Z Pty) k p : List.find f (map_order s) = Some (k, p) -> s !! k = Some p.
Proof.
  intros [Hin _]%find_some. apply elem_of_map_to_list. rewrite <-map_order_perm. by apply list_elem_of_In.
Qed.
Definition advanced m m' : Prop := keys_fresh m' /\ next_session_key m <= next_session_key m' <= next_session_key m + 1.
Lemma handle_fresh g m v r : keys_fresh m -> 0 <= next_session_key m < 2 ^ 64 - 1 -> advanced m (handle_request g m v r).1.1.2.
Proof.
  intros Hf Hn. assert (advanced m m) as Hsame by (split; [done|lia]).
  destruct r; cbn [handle_request]; unfold from_result; try done.
  1-2,4,5,6,9: repeat first [done | case_match; simplify_eq; cbn [fst snd]].
  - unfold setup_gateway. repeat case_match; simplify_eq; done.
  - cbn. repeat case_match; done.
  - destruct (validate_spawn_session argv user); [|done..]. destruct (spawned v) as [pty|]; [|done]. destruct (sent v); [|done]. cbn.
    unfold u64. rewrite Z.mod_small by lia. split; [|cbn; lia]. intros k [p Hk]. cbn in *.
    apply lookup_insert_Some in Hk as [[<- _]|[_ Hk]]; [lia|]. assert (0 <= k < next_session_key m) by (apply Hf; by eexists). lia.
  - repeat first [done | case_match; simplify_eq; cbn [fst snd]].
  - cbn. destruct (List.find _ _) as [[k p]|]; [|done]. split; [|cbn; lia]. intros k' [p' Hk]. cbn in *.
    apply lookup_delete_Some in Hk as [_ Hk]. apply Hf. by eexists.
Qed.
Lemma serve_fresh l : forall g m, keys_fresh m -> 0 <= next_session_key m -> next_session_key m + Z.of_nat (length l) < 2 ^ 64 ->
  keys_fresh (serve g m l).1.2.
Proof.
  induction l as [|[v r|k] l IH]; intros g m Hf H1 H2; cbn [length] in H2; cbn [serve]; [done| |].
  - pose proof (handle_fresh g m v r Hf ltac:(lia)) as Hh. destruct (handle_request g m v r) as [[[g1 m1] es] q]. cbn in Hh.
    destruct Hh as [Hf1 Hn1]. specialize (IH g1 m1 Hf1 ltac:(lia) ltac:(lia)). by destruct (serve g1 m1 l) as [[? ?] ?].
  - apply IH; [|done|cbn; lia]. intros k' [p Hk]. cbn in *. apply lookup_delete_Some in Hk as [_ Hk]. apply Hf. by eexists.
Qed.

(** The exits that count towards giving up. *)
Definition fast (x : Exit) : bool := (uptime x <? HEALTHY_UPTIME) && negb (bool_decide (code x = Some 0)).
Definition head_fast (k : nat) (xs : list Exit) : Prop := length (take k xs) = k /\ Forall (fun x => fast x = true) (take k xs).
Definition three_fast (xs : list Exit) : Prop := exists pre post, xs = pre ++ post /\ head_fast 3 post.
Lemma head_fast_cons k x xs : head_fast (S k) (x :: xs) <-> fast x = true /\ head_fast k xs.
Proof. unfold head_fast. cbn. rewrite Forall_cons. split; intros; split_and!; try lia; tauto. Qed.
Lemma head_fast_less k k' xs : (k' <= k)%nat -> head_fast k xs -> head_fast k' xs.
Proof.
  revert k' xs. induction k as [|k IH]; intros k' xs Hk; [by replace k' with 0%nat by lia|]. destruct k' as [|k']; [intros _; split; [done|constructor]|].
  destruct xs as [|x xs]; [by intros [? _]|]. rewrite !head_fast_cons. intros [? ?]. split; [done|]. apply IH; [lia|done].
Qed.
Lemma three_fast_cons x xs : three_fast (x :: xs) <-> head_fast 3 (x :: xs) \/ three_fast xs.
Proof.
  split.
  - intros ([|y pre] & post & E & Hh); cbn in E; [left; by subst|right]. injection E as _ ->. by exists pre, post.
  - intros [Hh|(pre & post & -> & Hh)]; [by exists [], (x :: xs)|by exists (x :: pre), post].
Qed.
Lemma gives_up_from (n : nat) m l : (n <= 2)%nat -> Forall (fun x => code x.2 <> Some EXIT_ALREADY_RUNNING) l ->
  (run_monitor (Z.of_nat n) m l).2 = FallBack <-> head_fast (3 - n) (map snd l) \/ three_fast (map snd l).
Proof.
  intros Hn Hl. revert n m Hn. induction Hl as [|[[evs v] x] l Hx Hl IH]; intros n m Hn; cbn [run_monitor map].
  - cbn. split; [done|]. intros [[Hlen _]|(pre & post & E & Hlen & _)]; [cbn in Hlen; rewrite take_nil in Hlen; cbn in Hlen; lia|].
    symmetry in E. apply app_nil in E as [_ ->]. done.
  - destruct (generation m evs v) as [m1 es]. rewrite three_fast_cons. replace (3 - n)%nat with (S (2 - n)) by lia. rewrite !head_fast_cons.
    unfold after_exit. cbn [snd] in *. rewrite bool_decide_eq_false_2 by done. fold (fast x). destruct (fast x) eqn:Ef.
    + destruct (decide (n = 2%nat)) as [->|Hne]; [cbn; split; [intros _|done]; left; split; [done|split; [done|constructor]]|].
      assert ((MAX_FAST_FAILURES <=? Z.of_nat n + 1) = false) as -> by (apply Z.leb_gt; unfold MAX_FAST_FAILURES; lia).
      replace (Z.of_nat n + 1) with (Z.of_nat (S n)) by lia. specialize (IH (S n) m1 ltac:(lia)).
      destruct (run_monitor (Z.of_nat (S n)) m1 l) as [[m2 es'] r]. cbn [snd] in *. rewrite IH. replace (3 - S n)%nat with (2 - n)%nat by lia.
      split; [tauto|]. intros [[_ ?]|[[_ Hh]|?]]; [tauto| |tauto]. left. eapply head_fast_less; [|exact Hh]. lia.
    + specialize (IH 0%nat m1 ltac:(lia)). change (Z.of_nat 0) with 0 in IH. change (3 - 0)%nat with 3%nat in IH. destruct (run_monitor 0 m1 l) as [[m2 es'] r]. cbn [snd] in *. rewrite IH.
      split; [intros [Hh|?]; [|tauto]|intros [[? _]|[[? _]|?]]; [done|done|tauto]]. right. right. by exists [], (map snd l).
Qed.
End Survival.

(** Restarting the worker is invisible to sessions: after any number of workers, as long as
    the monitor keeps respawning, the sessions it holds are those one uninterrupted worker
    would have left with the same requests and exits; asking for them returns every one,
    once; and a new session never replaces a live one. *)
Theorem sessions_survive_restart `{!System, !UnicodeText} ff m l n :
  (run_monitor ff m l).2 = Respawn n -> keys_fresh m -> 0 <= next_session_key m ->
  next_session_key m + Z.of_nat (length (flat_map (fun x => x.1.1) l)) < 2 ^ 64 ->
  let m' := (run_monitor ff m l).1.1 in
  m' = (serve new_generation m (flat_map (fun x => x.1.1) l)).1.2 /\
  (forall g v, exists ptys, (handle_request g m' v AdoptSessions).2 = Fds ptys /\ ptys ≡ₚ map snd (map_to_list (retained m'))) /\
  retained m' !! next_session_key m' = None.
Proof.
  intros Hr Hf H1 H2 m'. assert (m' = (serve new_generation m (flat_map (fun x => x.1.1) l)).1.2) as Hm'.
  2:{ split; [done|]. split.
      - intros g v. eexists. split; [reflexivity|]. apply Permutation_map, map_order_perm.
      - destruct (retained m' !! next_session_key m') eqn:E; [|done].
        assert (keys_fresh m') as Hf' by (rewrite Hm'; by apply serve_fresh).
        specialize (Hf' (next_session_key m') ltac:(by eexists)). lia. }
  clear Hf H1 H2. subst m'. revert ff m Hr. induction l as [|[[evs v] x] l IH]; intros ff m; cbn [run_monitor flat_map]; [done|].
  cbn [fst snd]. rewrite serve_app. unfold generation.
  assert ((serve new_generation m evs).1.2 = (let '(g, m1, es) := serve new_generation m evs in (m1, es ++ tear_down g v)).1) as Hm1
    by (by destruct (serve new_generation m evs) as [[? ?] ?]).
  destruct (let '(g, m1, es) := serve new_generation m evs in (m1, es ++ tear_down g v)) as [m1 es]. cbn [fst] in Hm1. rewrite Hm1.
  destruct (after_exit ff x) as [k| |]; [|done..]. specialize (IH k m1). destruct (run_monitor k m1 l) as [[m2 es'] r]. cbn [fst snd] in *.
  intros Hr. rewrite (IH Hr). apply serve_sessions.
Qed.

(** Privilege separation is given up exactly after a crash loop: unless a worker
    reports that another daemon is running, the monitor falls back to a daemon without
    separation if and only if three workers in a row ended within thirty seconds with
    anything but success; requested restarts never count. *)
Theorem fallback_iff_crash_loop `{!System, !UnicodeText} m l :
  Forall (fun x => code x.2 <> Some EXIT_ALREADY_RUNNING) l ->
  (run_monitor 0 m l).2 = FallBack <-> three_fast (map snd l).
Proof.
  intros Hl. rewrite (gives_up_from 0 m l) by (lia || done). split; [|tauto]. intros [Hh|?]; [by exists [], (map snd l)|done].
Qed.

(** ** Witnesses *)
Definition demo_system : System.
Proof.
  refine {| user_ids := fun u => if bool_decide (u = "alice"%string) then Some (1000, 1000) else if bool_decide (u = "root"%string) then Some (0, 0) else None;
            user_login_shell := fun _ => "/bin/bash"%string;
            allow_meta := Some {| md_is_file := true; md_uid := 0; md_mode := 420; md_content := Some "alice # laptop"%string |};
            current_exe := Some "/usr/bin/hop"%string; print_ipv6 := fun _ => EmptyString; map_order := fun m => map_to_list m |}.
  done.
Defined.
Definition demo_ops : OpEnv :=
  {| tun_made := Some (Some "tun0"%string); port_bound := true; resolver_set := true; forwarding_ok := true; nft_ok := true;
     command_ok := fun _ => true; spawned := Some {| tty := Some "/dev/pts/3"%string; shell_pid := 7 |}; sent := true |}.
Definition no_sessions : Sessions := {| retained := ∅; next_session_key := 0 |}.
Definition demo_life : list event :=
  [Request demo_ops (CreateTun (V4 100 64 0 7)); Request demo_ops (CreateTun (V4 10 0 0 1));
   Request demo_ops (SpawnSession ["/bin/login"; "-f"; "alice"]%string [] (24, 80, 0, 0) (Some "alice"%string));
   Request demo_ops (SpawnExec "id" unrestricted "root")].
Definition crash : Exit := {| uptime := 10; code := Some 1 |}.
Definition restart : Exit := {| uptime := 10; code := Some 0 |}.


Lemma session_request_runs_as_root_witness :
  (handle_request (H := demo_system) (H0 := ascii_text) new_generation no_sessions demo_ops
    (SpawnSession ["/bin/sh"; "-c"; "cat /etc/shadow"]%string [] (24, 80, 0, 0) None)).1.2 =
  [SessionSpawned ["/bin/sh"; "-c"; "cat /etc/shadow"]%string [] None].
Proof.
  rewrite (session_request_runs_as_root (H := demo_system) (H0 := ascii_text) new_generation no_sessions demo_ops
    {| tty := Some "/dev/pts/3"%string; shell_pid := 7 |} "cat /etc/shadow" [] (24, 80, 0, 0) eq_refl). reflexivity.
Defined.

Lemma sessions_survive_restart_witness :
  let l := [(demo_life, demo_ops, restart); ([ShellExits 9], demo_ops, crash)] in
  let m' := (run_monitor (H := demo_system) (H0 := ascii_text) 0 no_sessions l).1.1 in
  retained m' = {[0 := {| tty := Some "/dev/pts/3"%string; shell_pid := 7 |}]} /\ retained m' !! next_session_key m' = None.
Proof.
  intros l m'. split; [vm_compute; reflexivity|].
  apply (sessions_survive_restart (H := demo_system) (H0 := ascii_text) 0 no_sessions l 1);
    [vm_compute; reflexivity| |cbn; lia|vm_compute; reflexivity].
  intros k [p Hk]. cbn in Hk. rewrite lookup_empty in Hk. discriminate Hk.
Defined.

Lemma fallback_iff_crash_loop_witness :
  let l := map (fun x => ([] : list event, demo_ops, x)) [crash; crash; restart; crash; crash; crash] in
  (run_monitor (H := demo_system) (H0 := ascii_text) 0 no_sessions l).2 = FallBack.
Proof.
  intros l. apply (fallback_iff_crash_loop (H := demo_system) (H0 := ascii_text) no_sessions l).
  - repeat constructor; discriminate.
  - exists [crash; crash; restart], [crash; crash; crash]. split; [reflexivity|]. split; [reflexivity|]. repeat constructor.
Defined.

(** A control message that fits is read back with exactly the rest of the stream. *)
Lemma ctrl_roundtrip {T} `{!Bincode T, !BincodeLaws T} (x : T) b rest : send_msg x = Some b -> recv_msg (b ++ rest) = Some (x, rest).
Proof.
  unfold send_msg. destruct (Z.of_nat (length (enc x)) <=? MAX_CTRL_MSG) eqn:E; [|done]. intros [= <-].
  assert (is_u32 (Z.of_nat (length (enc x)))) as Hu by (unfold is_u32, MAX_CTRL_MSG in *; lia).
  unfold recv_msg. pose proof (from_to_be32 _ Hu) as Hb. unfold to_be32 in *. cbn [app]. rewrite Hb, E. cbn [negb]. rewrite Nat2Z.id.
  assert ((length (enc x ++ rest) <? length (enc x))%nat = false) as -> by (apply Nat.ltb_ge; rewrite length_app; lia).
  rewrite take_app_length. rewrite <-(app_nil_r (enc x)) at 1. rewrite dec_enc. cbn. by rewrite drop_app_length.
Qed.
