(* ===== verification/Quality.v ===== *)
(** * Quality: connection quality and the VPN ladder (hop-core/src/conn_quality.rs)

    A connection is judged against its own history: a probe is bad when it goes
    unanswered, is much slower than the best of the recent good ones, is on the relay
    although a direct path worked, or loses too much.  Durations are nanoseconds; their
    arithmetic panics past [DURATION_MAX], as the standard library's does. *)
From S2P Require Import Prelude Float.
From Stdlib Require Import SpecFloat.
Local Open Scope Z_scope.

(** ** Durations *)
Definition NANOS : Z := 10 ^ 9.
Definition DURATION_MAX : Z := (2 ^ 64) * NANOS - 1.
Definition from_millis (ms : Z) : Z := ms * 10 ^ 6.
Definition from_secs (s : Z) : Z := s * NANOS.
Definition is_duration (d : Z) : Prop := 0 <= d <= DURATION_MAX.
Definition dur_checked {E} (d : Z) : rust E Z := if d <=? DURATION_MAX then Ok d else Panic.
Definition dur_add {E} (a b : Z) : rust E Z := dur_checked (a + b).
Definition dur_mul {E} (a k : Z) : rust E Z := dur_checked (a * k).

Definition BASELINE_WINDOW : nat := 20.
Definition DEGRADED_AFTER : Z := 3.
Definition SLOW_FACTOR : Z := 3.
Definition SLOW_MARGIN : Z := from_millis 250.

Inductive Verdict :=
| Good
| Unanswered
| Slow (rtt baseline : Z)
| StuckOnRelay
| Lossy (loss_pct : Z).
#[export] Instance Verdict_eq : EqDecision Verdict.
Proof. solve_decision. Defined.

(** [0.30] as a double. *)
Definition LOSSY_FRACTION : f64 := S754_finite false 5404319552844595 (-54).
Definition LOSS_MIN_SENT : Z := 50.

Definition loss_fraction (lost_delta sent_delta : Z) : option f64 :=
  if LOSS_MIN_SENT <=? sent_delta then Some (f64_div (f64_of_Z lost_delta) (f64_of_Z sent_delta)) else None.

(** [x.round() as u32]: to the nearest, halves away from zero, saturating. *)
Definition f64_round_u32 (x : f64) : Z :=
  match x with
  | S754_zero _ | S754_nan | S754_finite true _ _ | S754_infinity true => 0
  | S754_infinity false => 2 ^ 32 - 1
  | S754_finite false m e =>
      Z.min (2 ^ 32 - 1)
        (if 0 <=? e then Z.shiftl (Z.pos m) e else Z.shiftr (Z.pos m + Z.shiftl 1 (- e - 1)) (- e))
  end.

Record QualityTracker := {
  recent_good : list Z;
  consecutive_bad : Z;
  last : option Verdict;
  last_rtt : option Z;
  ever_direct : bool;
}.
Definition QualityTracker_default : QualityTracker :=
  {| recent_good := []; consecutive_bad := 0; last := None; last_rtt := None; ever_direct := false |}.

(** [Iterator::min]. *)
Definition min_of (l : list Z) : option Z :=
  match l with [] => None | x :: l => Some (fold_left Z.min l x) end.
Definition baseline (q : QualityTracker) : option Z := min_of q.(recent_good).

(** The verdict on one probe; [direct] is [ever_direct] with this probe counted. *)
Definition verdict_of (base : option Z) (direct : bool)
    (rtt : option Z) (on_relay : option bool) (loss : option f64) : rust unit Verdict :=
  let rest :=
    if (match on_relay with Some true => true | _ => false end) && direct then StuckOnRelay
    else match loss with
         | Some l => if f64_ge l LOSSY_FRACTION
                     then Lossy (f64_round_u32 (f64_mul l (f64_of_Z 100))) else Good
         | None => Good
         end in
  match rtt with
  | None => Ok Unanswered
  | Some rtt =>
      match base with
      | None => Ok rest
      | Some b =>
          t ← dur_mul b SLOW_FACTOR;
          if t <=? rtt then
            m ← dur_add b SLOW_MARGIN;
            Ok (if m <=? rtt then Slow rtt b else rest)
          else Ok rest
      end
  end.

(** [VecDeque::push_back], then [pop_front] past the window. *)
Definition push_window (l : list Z) (x : Z) : list Z :=
  let l := l ++ [x] in
  if (BASELINE_WINDOW <? length l)%nat then tail l else l.

Definition record_with_loss (q : QualityTracker) (rtt : option Z) (on_relay : option bool)
    (loss : option f64) : rust unit (QualityTracker * Verdict) :=
  let direct := match on_relay with Some false => true | _ => q.(ever_direct) end in
  v ← verdict_of (baseline q) direct rtt on_relay loss;
  Ok (match v with
      | Good =>
          {| recent_good := match rtt with Some r => push_window q.(recent_good) r | None => q.(recent_good) end;
             consecutive_bad := 0; last := Some v; last_rtt := rtt; ever_direct := direct |}
      | _ =>
          {| recent_good := q.(recent_good);
             consecutive_bad := u32 (q.(consecutive_bad) + 1); last := Some v; last_rtt := rtt; ever_direct := direct |}
      end, v).

Definition record (q : QualityTracker) (rtt : option Z) (on_relay : option bool) :=
  record_with_loss q rtt on_relay None.

Definition degraded (q : QualityTracker) : bool := DEGRADED_AFTER <=? q.(consecutive_bad).

Definition rebase (q : QualityTracker) : QualityTracker :=
  {| recent_good := match q.(last_rtt) with Some r => [r] | None => [] end;
     consecutive_bad := 0; last := q.(last); last_rtt := q.(last_rtt); ever_direct := false |}.

Definition replacement_is_better (old_last_rtt : option Z) (new_rtt : Z) : rust unit bool :=
  match old_last_rtt with
  | None => Ok true
  | Some old =>
      t ← dur_mul new_rtt 2;
      if t <=? old then Ok true else m ← dur_add new_rtt SLOW_MARGIN; Ok (m <=? old)
  end.

(** ** The VPN ladder *)
Inductive VpnAction := NoAction | Rediscover | Restart.
#[export] Instance VpnAction_eq : EqDecision VpnAction.
Proof. solve_decision. Defined.

Definition VPN_REDISCOVER_AFTER : Z := 3.
Definition VPN_RESTART_AFTER : Z := 5.
Definition RESTART_COOLDOWN_ROUNDS : Z := 30.

Record VpnLadder := { bad_rounds : Z; rounds_since_restart : option Z }.
Definition VpnLadder_default : VpnLadder := {| bad_rounds := 0; rounds_since_restart := None |}.

(** A round says this node is at fault: somebody was there to see, and every dial failed. *)
Definition on_round (l : VpnLadder) (witnesses vpn_failed_to_witnesses : Z) : VpnLadder * VpnAction :=
  let since := (fun n => u32 (n + 1)) <$> l.(rounds_since_restart) in
  if (witnesses =? 0) || (vpn_failed_to_witnesses <? witnesses)
  then ({| bad_rounds := 0; rounds_since_restart := since |}, NoAction)
  else
    let bad := u32 (l.(bad_rounds) + 1) in
    if VPN_RESTART_AFTER <=? bad then
      if match since with None => true | Some n => RESTART_COOLDOWN_ROUNDS <=? n end
      then ({| bad_rounds := 0; rounds_since_restart := Some 0 |}, Restart)
      else ({| bad_rounds := bad; rounds_since_restart := since |}, NoAction)
    else ({| bad_rounds := bad; rounds_since_restart := since |},
          if bad =? VPN_REDISCOVER_AFTER then Rediscover else NoAction).

(** ** What the tracker means, over the whole history

    A history is kept newest first.  The tracker holds a bounded window and three
    scalars; the definitions below read the same quantities off everything that
    happened. *)
Inductive entry := Probed (rtt : option Z) (on_relay : option bool) (v : Verdict) | Rebased.

Fixpoint latest_rtt (h : list entry) : option Z :=
  match h with [] => None | Probed r _ _ :: _ => r | Rebased :: h => latest_rtt h end.
(** Round trips of good probes since the last rebase, with the one it adopted. *)
Fixpoint goods (h : list entry) : list Z :=
  match h with
  | [] => []
  | Probed (Some r) _ Good :: h => r :: goods h
  | Probed _ _ _ :: h => goods h
  | Rebased :: h => match latest_rtt h with Some r => [r] | None => [] end
  end.
Fixpoint was_direct (h : list entry) : bool :=
  match h with
  | [] | Rebased :: _ => false
  | Probed _ (Some false) _ :: _ => true
  | Probed _ _ _ :: h => was_direct h
  end.
Definition is_bad (e : entry) : bool :=
  match e with Probed _ _ v => negb (bool_decide (v = Good)) | Rebased => false end.
Fixpoint streak (h : list entry) : nat :=
  match h with [] => 0 | e :: h => if is_bad e then S (streak h) else 0 end.

Inductive op := Probe (rtt : option Z) (on_relay : option bool) (loss : option f64) | Rebase.
Definition apply_op (s : QualityTracker * list entry) (o : op) : rust unit (QualityTracker * list entry) :=
  match o with
  | Probe rtt rel loss =>
      '(q, v) ← record_with_loss s.1 rtt rel loss;
      Ok (q, Probed rtt rel v :: s.2)
  | Rebase => Ok (rebase s.1, Rebased :: s.2)
  end.
Fixpoint run_ops (s : QualityTracker * list entry) (os : list op) : rust unit (QualityTracker * list entry) :=
  match os with [] => Ok s | o :: os => s ← apply_op s o; run_ops s os end.

Record represents (q : QualityTracker) (h : list entry) : Prop := {
  rep_good : recent_good q = reverse (take BASELINE_WINDOW (goods h));
  rep_bad : consecutive_bad q = u32 (Z.of_nat (streak h));
  rep_direct : ever_direct q = was_direct h;
  rep_rtt : last_rtt q = latest_rtt h;
}.

Lemma push_window_reverse l x :
  push_window (reverse (take BASELINE_WINDOW l)) x = reverse (take BASELINE_WINDOW (x :: l)).
Proof.
  unfold push_window. rewrite <-reverse_cons, length_reverse.
  destruct (Nat.ltb_spec BASELINE_WINDOW (length (x :: take BASELINE_WINDOW l))) as [Hl|Hl];
    simpl in Hl; rewrite length_take in Hl.
  - replace (x :: take BASELINE_WINDOW l) with (take BASELINE_WINDOW (x :: l) ++ drop BASELINE_WINDOW (x :: take BASELINE_WINDOW l)).
    2:{ rewrite <-(take_drop BASELINE_WINDOW (x :: take BASELINE_WINDOW l)) at 2. f_equal.
        change (x :: take BASELINE_WINDOW l) with (take (S BASELINE_WINDOW) (x :: l)). rewrite take_take. f_equal. }
    rewrite reverse_app. destruct (drop BASELINE_WINDOW (x :: take BASELINE_WINDOW l)) as [|y [|? ?]] eqn:E.
    + apply (f_equal length) in E. rewrite length_drop in E. simpl in E. rewrite length_take in E.
      unfold BASELINE_WINDOW in *. lia.
    + done.
    + apply (f_equal length) in E. rewrite length_drop in E. simpl in E. rewrite length_take in E.
      unfold BASELINE_WINDOW in *. lia.
  - f_equal. rewrite take_ge by lia. rewrite take_ge; [done|].
    simpl. unfold BASELINE_WINDOW in *. lia.
Qed.

Lemma u32_succ n : u32 (u32 (Z.of_nat n) + 1) = u32 (Z.of_nat (S n)).
Proof. unfold u32. rewrite Nat2Z.inj_succ. by rewrite Zplus_mod_idemp_l. Qed.

Lemma apply_op_represents q h o q' h' :
  represents q h -> apply_op (q, h) o = Ok (q', h') -> represents q' h'.
Proof.
  intros [Hg Hb Hd Hr]. destruct o as [rtt rel loss|]; simpl.
  - unfold record_with_loss. intros Hv. rust_inv Hv.
    rust_inv E. injection E as <-. injection Hv as <- <-. rename a0 into v.
    destruct v; split; simpl; try done;
      rewrite ?Hg, ?Hb, ?Hd; try (destruct rtt; done); try apply u32_succ;
      try (destruct rel as [[]|]; done).
    destruct rtt as [r|]; [apply push_window_reverse|done].
  - intros [= <- <-]. split; simpl; rewrite ?Hr; try done. by destruct (latest_rtt h).
Qed.

Lemma run_ops_represents os : forall q h q' h',
  represents q h -> run_ops (q, h) os = Ok (q', h') -> represents q' h'.
Proof.
  induction os as [|o os IH]; simpl; intros q h q' h' Hr Hrun; [by simplify_eq|].
  destruct (apply_op (q, h) o) as [[q1 h1]| |] eqn:E; simpl in Hrun; try done.
  eauto using apply_op_represents.
Qed.

Lemma represents_default : represents QualityTracker_default [].
Proof. by split. Qed.

Lemma fold_min l : forall x, fold_left Z.min l x <= x /\ Forall (fun y => fold_left Z.min l x <= y) l
  /\ (fold_left Z.min l x = x \/ fold_left Z.min l x ∈ l).
Proof.
  induction l as [|y l IH]; intros x; simpl; [repeat split; auto; lia|].
  destruct (IH (x `min` y)) as (H1 & H2 & H3). split; [lia|]. split.
  - constructor; [lia|done].
  - destruct H3 as [H3|H3]; [|right; by right].
    destruct (Z.min_spec x y) as [[? Hm]|[? Hm]]; rewrite Hm in H3 |- *; [by left|].
    right. rewrite H3. left.
Qed.

(** [min_of] is the least element. *)
Lemma min_of_spec l b : min_of l = Some b <-> b ∈ l /\ Forall (fun y => b <= y) l.
Proof.
  destruct l as [|x l]; simpl; [set_solver|].
  destruct (fold_min l x) as (H1 & H2 & H3). split.
  - intros [= <-]. split; [destruct H3 as [->|]; set_solver|]. by constructor.
  - intros [Hin Hall]. f_equal. apply Forall_cons in Hall as [Hx Hl].
    assert (b <= fold_left Z.min l x).
    { destruct H3 as [->|H3]; [done|]. by eapply Forall_forall in Hl. }
    apply elem_of_cons in Hin as [->|Hin]; [lia|].
    rewrite Forall_forall in H2. specialize (H2 _ Hin). lia.
Qed.

Lemma min_of_perm l l' : l ≡ₚ l' -> min_of l = min_of l'.
Proof.
  intros Hp. destruct (min_of l) as [b|] eqn:E.
  - symmetry. apply min_of_spec in E. rewrite Hp in E. by apply min_of_spec.
  - destruct l; [|done]. by apply Permutation_nil in Hp as ->.
Qed.

Lemma baseline_represents q h : represents q h -> baseline q = min_of (take BASELINE_WINDOW (goods h)).
Proof. intros [Hg _ _ _]. unfold baseline. rewrite Hg. apply min_of_perm, reverse_Permutation. Qed.

Lemma length_run os : forall s s', run_ops s os = Ok s' -> (length s'.2 = length os + length s.2)%nat.
Proof.
  induction os as [|o os IH]; simpl; intros s s' Hr; [by simplify_eq|].
  destruct (apply_op s o) as [s1| |] eqn:E; simpl in Hr; try done.
  rewrite (IH _ _ Hr). unfold apply_op in E. destruct o; simpl in E.
  - destruct (record_with_loss _ _ _ _) as [[q v]| |]; simplify_eq/=. lia.
  - simplify_eq/=. lia.
Qed.
Lemma streak_le h : (streak h <= length h)%nat.
Proof. induction h as [|e h IH]; simpl; [lia|]. case_match; lia. Qed.
Lemma streak_ge n h : (n <= streak h)%nat <-> (n <= length h)%nat /\ Forall (fun e => is_bad e = true) (take n h).
Proof.
  revert h. induction n as [|n IH]; intros [|e h]; simpl.
  1,2: split; [intros; split; [lia|constructor]|lia].
  - split; [lia|intros [? _]; lia].
  - rewrite Forall_cons. destruct (is_bad e) eqn:E.
    + rewrite <-!Nat.succ_le_mono, IH. naive_solver.
    + split; [lia|]. naive_solver.
Qed.

(** When a probe is good: it was answered, not slow against a known baseline, not on the
    relay after a direct path worked, and not lossy. *)
Definition probe_good (h : list entry) (rtt : option Z) (rel : option bool) (loss : option f64) : Prop :=
  (exists r, rtt = Some r /\
     (forall b, min_of (take BASELINE_WINDOW (goods h)) = Some b -> r < b * SLOW_FACTOR \/ r < b + SLOW_MARGIN)) /\
  ~ (rel = Some true /\ was_direct h = true) /\
  (forall l, loss = Some l -> f64_ge l LOSSY_FRACTION = false).

Lemma verdict_good h q rtt rel loss q' v :
  represents q h -> record_with_loss q rtt rel loss = Ok (q', v) ->
  (v = Good <-> probe_good h rtt rel loss).
Proof.
  intros Hr. pose proof (baseline_represents q h Hr) as Hb. destruct Hr as [_ _ Hd _].
  unfold record_with_loss. intros Hv. rust_inv Hv. injection Hv as <- <-.
  revert E. unfold verdict_of, probe_good. rewrite Hb.
  set (rest := if _ && _ then StuckOnRelay else _).
  assert (rest = Good <-> ~ (rel = Some true /\ was_direct h = true) /\
            (forall l, loss = Some l -> f64_ge l LOSSY_FRACTION = false)) as Hrest.
  { unfold rest. rewrite Hd.
    destruct rel as [[]|], (was_direct h), loss as [l|]; simpl;
      try (destruct (f64_ge l LOSSY_FRACTION) eqn:Hf); split;
      try (intros _; split; [by intros [? ?]|intros ? [=]; by subst]); try done;
      intros [Hn Hl]; try done; try (by destruct Hn); specialize (Hl l eq_refl); congruence. }
  clearbody rest. destruct rtt as [r|]; [|intros [= <-]; naive_solver].
  destruct (min_of _) as [b|]; [|intros [= <-]; naive_solver].
  unfold dur_mul, dur_add, dur_checked.
  destruct (Z.leb_spec (b * SLOW_FACTOR) DURATION_MAX); simpl; [|done].
  destruct (Z.leb_spec (b * SLOW_FACTOR) r); [|intros [= <-]].
  - destruct (Z.leb_spec (b + SLOW_MARGIN) DURATION_MAX); simpl; [|done]. intros [= <-].
    destruct (Z.leb_spec (b + SLOW_MARGIN) r).
    + split; [done|]. intros [(r' & [= <-] & Hx) _]. destruct (Hx b); [done|lia|lia].
    + rewrite Hrest. split; [|naive_solver]. intros [? ?]. split; [|done].
      exists r. split; [done|]. intros ? [= <-]. lia.
  - rewrite Hrest. split; [|naive_solver]. intros [? ?]. split; [|done].
    exists r. split; [done|]. intros ? [= <-]. lia.
Qed.

(** C28.  However probes and rebases follow each other, the tracker says what its whole
    history says: it reports degradation exactly when the last three things that happened
    are bad probes, its baseline is the least of the last twenty good round trips since
    the last rebase, and its next verdict is good exactly when the probe was answered, not
    slow against that baseline, not on the relay after a direct path and not lossy. *)
Theorem quality_tracks_history os q h :
  Z.of_nat (length os) < 2 ^ 32 ->
  run_ops (QualityTracker_default, []) os = Ok (q, h) ->
  (degraded q = true <-> (3 <= length h)%nat /\ Forall (fun e => is_bad e = true) (take 3 h)) /\
  baseline q = min_of (take BASELINE_WINDOW (goods h)) /\
  (length (recent_good q) <= BASELINE_WINDOW)%nat /\
  (forall rtt rel loss q' v, record_with_loss q rtt rel loss = Ok (q', v) ->
     (v = Good <-> probe_good h rtt rel loss)).
Proof.
  intros Hlen Hrun.
  pose proof (run_ops_represents os _ _ _ _ represents_default Hrun) as Hr.
  pose proof (length_run _ _ _ Hrun) as Hl. simpl in Hl.
  split; [|split; [by apply baseline_represents|split]].
  - rewrite <-streak_ge. unfold degraded, DEGRADED_AFTER. rewrite Z.leb_le, (rep_bad _ _ Hr).
    pose proof (streak_le h). unfold u32. rewrite Z.mod_small by lia. lia.
  - rewrite (rep_good _ _ Hr), length_reverse, length_take. lia.
  - intros. by eapply verdict_good.
Qed.

Lemma quality_tracks_history_witness :
  let os := [Probe (Some (from_millis 40)) (Some false) None; Probe None None None;
             Probe (Some (from_millis 900)) (Some false) None; Probe (Some (from_millis 50)) (Some true) None] in
  match run_ops (QualityTracker_default, []) os with
  | Ok (q, h) => degraded q = true <-> (3 <= length h)%nat /\ Forall (fun e => is_bad e = true) (take 3 h)
  | _ => False
  end.
Proof.
  intros os. destruct (run_ops (QualityTracker_default, []) os) as [[q h]| |] eqn:E;
    [|by vm_compute in E|by vm_compute in E].
  apply (quality_tracks_history os q h); [done|exact E].
Defined.

(** ** Steady paths and sudden changes *)
Definition steady (lo hi : Z) (o : op) : Prop :=
  match o with
  | Probe (Some r) rel loss => lo <= r <= hi /\ rel <> Some true /\
      match loss with Some l => f64_ge l LOSSY_FRACTION = false | None => True end
  | _ => False
  end.

Lemma verdict_total base direct rtt rel loss :
  (forall b, base = Some b -> 0 <= b /\ b * SLOW_FACTOR <= DURATION_MAX) ->
  exists v, verdict_of base direct rtt rel loss = Ok v.
Proof.
  intros Hb. unfold verdict_of. destruct rtt as [r|]; [|by eexists].
  destruct base as [b|]; [|by eexists]. destruct (Hb b eq_refl) as [H0 H3].
  unfold dur_mul, dur_add, dur_checked.
  destruct (Z.leb_spec (b * SLOW_FACTOR) DURATION_MAX); [simpl|lia].
  destruct (b * SLOW_FACTOR <=? r); [|by eexists].
  destruct (Z.leb_spec (b + SLOW_MARGIN) DURATION_MAX); [by eexists|].
  unfold SLOW_MARGIN, from_millis, SLOW_FACTOR, DURATION_MAX, NANOS in *. lia.
Qed.

Definition slow_by (hi r : Z) : Prop := hi * SLOW_FACTOR <= r /\ hi + SLOW_MARGIN <= r.
(** A probe no steady path at most [hi] slow would give. *)
Definition worse (hi : Z) (o : op) : Prop :=
  match o with Probe None _ _ => True | Probe (Some r) _ _ => slow_by hi r | Rebase => False end.

Lemma min_of_window lo hi l b : Forall (fun r => lo <= r <= hi) l -> min_of (take BASELINE_WINDOW l) = Some b -> lo <= b <= hi.
Proof.
  intros Hl [Hin _]%min_of_spec. rewrite Forall_forall in Hl. apply Hl.
  apply elem_of_take in Hin as (i & Hi & _). by eapply list_elem_of_lookup_2.
Qed.

Section Steady.
Context (lo hi : Z) (Hlo : 0 <= lo) (Hhi : hi * SLOW_FACTOR <= DURATION_MAX).

Lemma record_total q h rtt rel loss :
  represents q h -> Forall (fun r => lo <= r <= hi) (goods h) ->
  exists q' v, record_with_loss q rtt rel loss = Ok (q', v).
Proof.
  intros Hr Hg. unfold record_with_loss.
  destruct (verdict_total (baseline q) (match rel with Some false => true | _ => ever_direct q end) rtt rel loss) as [v Hv].
  - intros b. rewrite (baseline_represents _ _ Hr). intros Hb. pose proof (min_of_window _ _ _ _ Hg Hb).
    unfold SLOW_FACTOR in *. lia.
  - rewrite Hv. simpl. by eexists _, _.
Qed.

Lemma steady_step q h o :
  (hi < lo * SLOW_FACTOR \/ hi < lo + SLOW_MARGIN) ->
  represents q h -> Forall (fun r => lo <= r <= hi) (goods h) -> steady lo hi o ->
  exists q' r rel, apply_op (q, h) o = Ok (q', Probed (Some r) rel Good :: h) /\ represents q' (Probed (Some r) rel Good :: h) /\ lo <= r <= hi.
Proof.
  intros Hw Hr Hg Ho. destruct o as [[r|] rel loss|]; simpl in Ho; [|done..].
  destruct Ho as (Hrng & Hrel & Hloss).
  destruct (record_total q h (Some r) rel loss Hr Hg) as (q' & v & Hv).
  assert (v = Good) as ->.
  { eapply verdict_good; [done..|]. split.
    - exists r. split; [done|]. intros b Hb. pose proof (min_of_window _ _ _ _ Hg Hb). unfold SLOW_FACTOR in *. lia.
    - split; [by intros [? _]|]. intros l ->. done. }
  exists q', r, rel.
  assert (apply_op (q, h) (Probe (Some r) rel loss) = Ok (q', Probed (Some r) rel Good :: h)) as Ha by (simpl; by rewrite Hv).
  split; [done|]. split; [exact (apply_op_represents _ _ _ _ _ Hr Ha)|]. done.
Qed.

Lemma worse_step q h o :
  represents q h -> Forall (fun r => lo <= r <= hi) (goods h) -> goods h <> [] -> worse hi o ->
  exists q' h', apply_op (q, h) o = Ok (q', h') /\ represents q' h' /\ goods h' = goods h /\ streak h' = S (streak h).
Proof.
  intros Hr Hg Hn Ho. destruct o as [rtt rel loss|]; [|done]. simpl in Ho.
  destruct (record_total q h rtt rel loss Hr Hg) as (q' & v & Hv).
  assert (v <> Good) as Hbad.
  { intros Hv'. apply (proj1 (verdict_good _ _ _ _ _ _ _ Hr Hv)) in Hv' as [(r & -> & Hx) _]. destruct Ho as [Ho1 Ho2].
    destruct (min_of (take BASELINE_WINDOW (goods h))) as [b|] eqn:E.
    - pose proof (min_of_window _ _ _ _ Hg E). specialize (Hx b eq_refl). unfold SLOW_FACTOR in *. lia.
    - destruct (goods h); [done|]. by simpl in E. }
  exists q', (Probed rtt rel v :: h).
  assert (apply_op (q, h) (Probe rtt rel loss) = Ok (q', Probed rtt rel v :: h)) as Ha by (simpl; by rewrite Hv).
  split; [done|]. split; [exact (apply_op_represents _ _ _ _ _ Hr Ha)|]. simpl.
  rewrite bool_decide_eq_false_2 by done. split; [|done]. by destruct rtt, v.
Qed.

Lemma steady_run os : forall q h,
  (hi < lo * SLOW_FACTOR \/ hi < lo + SLOW_MARGIN) ->
  represents q h -> Forall (fun r => lo <= r <= hi) (goods h) -> Forall (fun e => is_bad e = false) h ->
  Forall (steady lo hi) os ->
  exists q' h', run_ops (q, h) os = Ok (q', h') /\ represents q' h' /\
    Forall (fun r => lo <= r <= hi) (goods h') /\ Forall (fun e => is_bad e = false) h' /\ (os <> [] -> goods h' <> []).
Proof.
  induction os as [|o os IH]; intros q h Hw Hr Hg Hh Hos; simpl; [by exists q, h|].
  apply Forall_cons in Hos as [Ho Hos].
  destruct (steady_step q h o Hw Hr Hg Ho) as (q1 & r1 & rel & -> & Hr1 & Hband). simpl.
  destruct (IH q1 (Probed (Some r1) rel Good :: h) Hw Hr1) as (q2 & h2 & Hrun & Hr2 & Hg2 & Hh2 & Hn2);
    [by constructor|by constructor|done|].
  exists q2, h2. do 4 (split; [done|]). intros _. destruct os; [by simplify_eq/=|by apply Hn2].
Qed.

(** On a path whose round trips stay within a band that is neither three times nor
    250 ms wide, that is not on the relay and not lossy, no probe is ever bad and the
    connection is never degraded; after any such stretch, three probes in a row that go
    unanswered or are slow against every round trip of the band make it degraded, and
    two do not. *)
Theorem quality_detects_change os o1 o2 o3 :
  hi < lo * SLOW_FACTOR \/ hi < lo + SLOW_MARGIN -> os <> [] ->
  Forall (steady lo hi) os -> Forall (worse hi) [o1; o2; o3] ->
  exists q h q2 h2 q3 h3,
    run_ops (QualityTracker_default, []) os = Ok (q, h) /\ degraded q = false /\
    Forall (fun e => is_bad e = false) h /\
    run_ops (q, h) [o1; o2] = Ok (q2, h2) /\ degraded q2 = false /\
    run_ops (q2, h2) [o3] = Ok (q3, h3) /\ degraded q3 = true.
Proof.
  intros Hw Hne Hos Hbad.
  destruct (steady_run os _ _ Hw represents_default) as (q & h & Hrun & Hr & Hg & Hh & Hn);
    [constructor..|done|]. specialize (Hn Hne).
  assert (streak h = 0%nat) as Hs0.
  { destruct h as [|e h]; [done|]. simpl. apply Forall_cons in Hh as [-> _]. done. }
  apply Forall_cons in Hbad as [Hb1 Hbad]. apply Forall_cons in Hbad as [Hb2 Hbad]. apply Forall_cons in Hbad as [Hb3 _].
  destruct (worse_step q h o1 Hr Hg Hn Hb1) as (q1 & h1 & Ha1 & Hr1 & Hg1 & Hs1). rewrite <-Hg1 in Hg, Hn.
  destruct (worse_step q1 h1 o2 Hr1 Hg Hn Hb2) as (q2 & h2 & Ha2 & Hr2 & Hg2 & Hs2). rewrite <-Hg2 in Hg, Hn.
  destruct (worse_step q2 h2 o3 Hr2 Hg Hn Hb3) as (q3 & h3 & Ha3 & Hr3 & _ & Hs3).
  exists q, h, q2, h2, q3, h3. cbn [run_ops]. rewrite Ha1. cbn [mbind rust_bind]. rewrite Ha2. cbn [mbind rust_bind].
  rewrite Ha3. unfold degraded. rewrite (rep_bad _ _ Hr), (rep_bad _ _ Hr2), (rep_bad _ _ Hr3), Hs3, Hs2, Hs1, Hs0.
  done.
Qed.
End Steady.

Lemma quality_detects_change_witness :
  exists q h q2 h2 q3 h3,
    run_ops (QualityTracker_default, []) [Probe (Some (from_millis 40)) None None; Probe (Some (from_millis 90)) None None] = Ok (q, h) /\ degraded q = false /\
    Forall (fun e => is_bad e = false) h /\
    run_ops (q, h) [Probe None None None; Probe (Some (from_millis 900)) None None] = Ok (q2, h2) /\ degraded q2 = false /\
    run_ops (q2, h2) [Probe None None None] = Ok (q3, h3) /\ degraded q3 = true.
Proof.
  apply (quality_detects_change (from_millis 40) (from_millis 90)).
  - done.
  - done.
  - right. done.
  - done.
  - repeat constructor; done.
  - repeat constructor; done.
Defined.

(** ** The ladder over a run of rounds, newest first *)
Fixpoint ladder_run (rs : list (Z * Z)) : VpnLadder * list VpnAction :=
  match rs with
  | [] => (VpnLadder_default, [])
  | r :: rs =>
      let '(l, acts) := ladder_run rs in
      let '(l, a) := on_round l r.1 r.2 in (l, a :: acts)
  end.
(** Every witnessed peer was out of reach over the VPN, and there was one. *)
Definition all_failed (r : Z * Z) : Prop := r.1 <> 0 /\ r.1 <= r.2.
#[export] Instance all_failed_dec r : Decision (all_failed r).
Proof. unfold all_failed. apply _. Defined.

(** Failed rounds in a row since the last restart, and the rounds since it. *)
Fixpoint failed_since (rs : list (Z * Z)) (acts : list VpnAction) : nat :=
  match rs, acts with
  | r :: rs, a :: acts => if decide (a = Restart) then 0 else if decide (all_failed r) then S (failed_since rs acts) else 0
  | _, _ => 0
  end.
Fixpoint since_restart (acts : list VpnAction) : option nat :=
  match acts with
  | [] => None
  | a :: acts => if decide (a = Restart) then Some 0%nat else S <$> since_restart acts
  end.

Lemma length_ladder_run rs : length (ladder_run rs).2 = length rs.
Proof.
  induction rs as [|r rs IH]; simpl; [done|]. destruct (ladder_run rs) as [l acts].
  destruct (on_round l r.1 r.2). simpl in *. lia.
Qed.
Lemma failed_since_le rs : forall acts, (failed_since rs acts <= length rs)%nat.
Proof. induction rs as [|r rs IH]; intros [|a acts]; simpl; try lia. specialize (IH acts). repeat case_decide; lia. Qed.
Lemma since_restart_lt acts n : since_restart acts = Some n -> (n < length acts)%nat.
Proof.
  revert n. induction acts as [|a acts IH]; simpl; intros n; [done|]. case_decide; [intros [= <-]; lia|].
  destruct (since_restart acts) as [m|]; intros [= <-]. specialize (IH m eq_refl). lia.
Qed.

Lemma since_restart_ge k acts :
  match since_restart acts with None => True | Some n => (k <= n)%nat end <-> Restart ∉ take k acts.
Proof.
  revert k. induction acts as [|a acts IH]; intros k; simpl; [rewrite take_nil; set_solver|].
  destruct k as [|k]; simpl; [case_decide; [|destruct (since_restart acts)]; set_solver by lia|].
  rewrite not_elem_of_cons, <-IH.
  case_decide; subst; [naive_solver lia|]. destruct (since_restart acts); simpl; [|naive_solver].
  rewrite <-Nat.succ_le_mono. naive_solver.
Qed.

Lemma failed_since_ge n rs : forall acts, length acts = length rs ->
  (n <= failed_since rs acts)%nat <->
  (n <= length rs)%nat /\ Forall all_failed (take n rs) /\ Restart ∉ take n acts.
Proof.
  revert rs. induction n as [|n IH]; intros rs acts Hl.
  { rewrite !take_0. split; [|lia]. intros _. split; [lia|]. split; [constructor|apply not_elem_of_nil]. }
  destruct rs as [|r rs], acts as [|a acts]; simplify_eq/=.
  - split; [lia|intros [? _]; lia].
  - rewrite Forall_cons, not_elem_of_cons. case_decide; [naive_solver lia|]. case_decide; [|naive_solver lia].
    rewrite <-!Nat.succ_le_mono, IH by done. naive_solver.
Qed.

Lemma not_in_take {A} (x : A) n m l : (n <= m)%nat -> x ∉ take m l -> x ∉ take n l.
Proof.
  intros Hnm Hn Hin. apply Hn. apply elem_of_take in Hin as (i & Hi & Hlt).
  apply elem_of_take. exists i. split; [done|lia].
Qed.

Lemma cooled_spec acts b : Z.of_nat (length acts) < 2 ^ 32 - 1 ->
  match (fun n => u32 (n + 1)) <$> (Z.of_nat <$> since_restart acts) with
  | None => true | Some n => RESTART_COOLDOWN_ROUNDS <=? n end = b ->
  if b then match since_restart acts with None => True | Some n => (29 <= n)%nat end
  else ~ match since_restart acts with None => True | Some n => (29 <= n)%nat end.
Proof.
  intros Hl <-. destruct (since_restart acts) as [n|] eqn:En; simpl; [|done].
  apply since_restart_lt in En. unfold u32, RESTART_COOLDOWN_ROUNDS. rewrite Z.mod_small by lia.
  destruct (Z.leb_spec 30 (Z.of_nat n + 1)); lia.
Qed.

Lemma failed_since_two rs acts : length acts = length rs ->
  failed_since rs acts = 2%nat <->
  ((2 <= length rs)%nat) /\ Forall all_failed (take 2 rs) /\ (Restart ∉ take 2 acts) /\
  (forall x, rs !! 2%nat = Some x -> all_failed x -> acts !! 2%nat = Some Restart).
Proof.
  intros Hl. transitivity ((2 <= failed_since rs acts)%nat /\ ~ (3 <= failed_since rs acts)%nat); [lia|].
  rewrite !failed_since_ge by done.
  destruct rs as [|r0 [|r1 [|r2 rs]]], acts as [|a0 [|a1 [|a2 acts]]]; simplify_eq/=;
    rewrite ?Forall_cons, ?not_elem_of_cons, ?take_0; try naive_solver lia.
  destruct (decide (a2 = Restart)) as [->|]; [naive_solver lia|].
  destruct (decide (all_failed r2)); naive_solver (lia || constructor || set_solver).
Qed.

(** The ladder's two counters are those of its history. *)
Lemma ladder_counts rs l acts :
  Z.of_nat (length rs) < 2 ^ 32 -> ladder_run rs = (l, acts) ->
  bad_rounds l = Z.of_nat (failed_since rs acts) /\ rounds_since_restart l = Z.of_nat <$> since_restart acts.
Proof.
  revert l acts. induction rs as [|r rs IH]; simpl; intros l acts Hlen Hrun; [by simplify_eq|].
  destruct (ladder_run rs) as [l0 acts0] eqn:E0.
  destruct (IH l0 acts0) as [Hb Hs]; [lia|done|].
  assert (length acts0 = length rs) as Hla by (pose proof (length_ladder_run rs) as Hx; by rewrite E0 in Hx).
  pose proof (failed_since_le rs acts0) as Hfl.
  revert Hrun. unfold on_round. rewrite Hb, Hs.
  assert ((fun n : Z => u32 (n + 1)) <$> (Z.of_nat <$> since_restart acts0) = Z.of_nat <$> (S <$> since_restart acts0)) as ->.
  { destruct (since_restart acts0) as [n|] eqn:En; [|done]. simpl. f_equal.
    apply since_restart_lt in En. unfold u32. rewrite Z.mod_small; lia. }
  replace (u32 (Z.of_nat (failed_since rs acts0) + 1)) with (Z.of_nat (S (failed_since rs acts0)))
    by (unfold u32; rewrite Z.mod_small by lia; lia).
  destruct ((r.1 =? 0) || (r.2 <? r.1)) eqn:Er.
  { intros [= <- <-]. simpl. rewrite decide_False by (unfold all_failed; lia). done. }
  assert (all_failed r) by (unfold all_failed; lia).
  intros Hrun. repeat case_match; simplify_eq;
    cbn [failed_since since_restart bad_rounds rounds_since_restart];
    repeat case_decide; simplify_eq; split; done || congruence.
Qed.

(** The ladder restarts the worker exactly when the last five rounds all had a
    witness and failed to every one, and none of the 29 rounds before asked for a restart;
    it forces re-discovery exactly in the third failed round in a row, counted from the
    last good round or restart.  Rounds without a witness, or with one peer reached, ask
    for nothing. *)
Theorem ladder_exact r rs l a acts :
  Z.of_nat (length (r :: rs)) < 2 ^ 32 -> ladder_run (r :: rs) = (l, a :: acts) ->
  (a = Restart <-> ((5 <= length (r :: rs))%nat) /\ Forall all_failed (take 5 (r :: rs)) /\ (Restart ∉ take 29 acts)) /\
  (a = Rediscover <-> ((3 <= length (r :: rs))%nat) /\ Forall all_failed (take 3 (r :: rs)) /\ (Restart ∉ take 2 acts) /\
     (forall x, rs !! 2%nat = Some x -> all_failed x -> acts !! 2%nat = Some Restart)) /\
  (~ all_failed r -> a = NoAction).
Proof.
  intros Hlen Hrun. simpl in Hrun. destruct (ladder_run rs) as [l0 acts0] eqn:E0.
  destruct (on_round l0 r.1 r.2) as [l1 a1] eqn:Eo. injection Hrun as <- <- <-.
  destruct (ladder_counts rs l0 acts0) as [Hb Hs]; [simpl in Hlen; lia|done|].
  assert (length acts0 = length rs) as Hla by (pose proof (length_ladder_run rs) as Hx; by rewrite E0 in Hx).
  pose proof (failed_since_le rs acts0) as Hfl. simpl in Hlen.
  pose proof (failed_since_ge 4 rs acts0 Hla) as H4.
  pose proof (since_restart_ge 29 acts0) as H29.
  revert Eo. unfold on_round. rewrite Hb, Hs.
  replace (u32 (Z.of_nat (failed_since rs acts0) + 1)) with (Z.of_nat (failed_since rs acts0) + 1)
    by (unfold u32; rewrite Z.mod_small by lia; lia).
  destruct ((r.1 =? 0) || (r.2 <? r.1)) eqn:Er.
  { intros [= <- <-]. assert (~ all_failed r) as Hnf by (unfold all_failed; lia).
    simpl. rewrite !Forall_cons. naive_solver. }
  assert (all_failed r) as Hf by (unfold all_failed; lia).
  destruct (match _ <$> _ with None => _ | Some _ => _ end) eqn:Ecool; intros Ho.
  all: assert (a1 = Restart <-> (4 <= failed_since rs acts0)%nat /\ Restart ∉ take 29 acts0) as HR.
  1,3: rewrite <-H29; apply (cooled_spec acts0) in Ecool; [|lia]; unfold VPN_RESTART_AFTER in Ho;
    case_match; [|case_match]; simplify_eq; naive_solver lia.
  all: assert (a1 = Rediscover <-> failed_since rs acts0 = 2%nat) as HD
    by (unfold VPN_RESTART_AFTER, VPN_REDISCOVER_AFTER in Ho; repeat case_match; simplify_eq; naive_solver lia).
  all: rewrite HR, HD, H4; simpl; rewrite !Forall_cons; split; [|split; [|done]].
  1,3: pose proof (not_in_take Restart 4 29 acts0); naive_solver lia.
  all: rewrite (failed_since_two rs acts0 Hla); naive_solver lia.
Qed.

Lemma ladder_exact_witness :
  let rs := replicate 4 (1, 1) in
  match ladder_run ((1, 1) :: rs) with
  | (l, a :: acts) => a = Restart <-> ((5 <= length ((1, 1)%Z :: rs))%nat) /\ Forall all_failed (take 5 ((1, 1) :: rs)) /\ (Restart ∉ take 29 acts)
  | _ => False
  end.
Proof.
  intros rs. destruct (ladder_run ((1, 1) :: rs)) as [l [|a acts]] eqn:E; [by vm_compute in E|].
  apply (ladder_exact (1, 1) rs l a acts); [done|exact E].
Defined.

(** A node cut off for good: re-discovery in the third round, a restart in the fifth, and
    from then on one restart every thirty rounds, each with its re-discovery. *)
Definition rounds_asking (a : VpnAction) (acts : list VpnAction) : list nat :=
  fst <$> filter (fun p => p.2 = a) (imap (fun i b => (S i, b)) acts).
Example ladder_cut_off :
  let acts := reverse (ladder_run (replicate 100 (2, 2))).2 in
  (rounds_asking Restart acts = [5; 35; 65; 95])%nat /\
  (rounds_asking Rediscover acts = [3; 8; 38; 68; 98])%nat.
Proof. by vm_compute. Qed.
