(* ===== verification/Agent.v ===== *)
(** * Agent: the connection multiplexer (hop-cli/src/agent.rs)

    One actor owns a pool of connections, one per host, that every client process shares.
    [actor_step] is one iteration of its loop; [sys_step] interleaves it with the clients
    ([handle_client], one suspension point at a time), the dials it started, the network
    and the clock, over the actor's command queue.  A connection is its stable id with its
    protocol; what is closed is kept beside the actor, as the connection itself keeps it. *)
From S2P Require Import Prelude Quality.
Local Open Scope Z_scope.

(** ** Constants *)
Definition IDLE_TIMEOUT : Z := from_secs 600.
Definition MUX_DIAL_TIMEOUT : Z := from_secs 10.
Definition ZOMBIE_STALL : Z := from_secs 15.
Definition ZOMBIE_POLL : Z := from_secs 3.
Definition REPLACE_COOLDOWN : Z := from_secs 120.
Definition FLUSH_SPARES_YOUNGER_THAN : Z := from_secs 5.
Definition POOL_LIVENESS_TIMEOUT : Z := from_secs 8.
Definition POOL_LIVENESS_TIMEOUT_IDLE : Z := from_secs 3.
Definition POOL_VERIFY_WINDOW : Z := from_secs 20.
Definition DIAL_HEDGE_AFTER : Z := from_secs 3.

Definition liveness_budget (active_sessions : Z) : Z :=
  if active_sessions =? 0 then POOL_LIVENESS_TIMEOUT_IDLE else POOL_LIVENESS_TIMEOUT.

(** ** The actor *)
Abbreviation PublicKey := bytes.
Inductive Alpn := V4 | V3 | V2.
#[export] Instance Alpn_eq : EqDecision Alpn.
Proof. solve_decision. Defined.
Record Connection := { stable_id : Z; alpn : Alpn }.
#[export] Instance Connection_eq : EqDecision Connection.
Proof. solve_decision. Defined.
(** Who waits for a reply: a client process. *)
Abbreviation waiter := nat.
Abbreviation semaphore := nat.

Inductive close_why := EvictedIdle | ReplacedDegraded | FailedLivenessCheck | Flushed | ByPeer | ZombieStall.
#[export] Instance close_why_eq : EqDecision close_why.
Proof. solve_decision. Defined.

Inductive AgentCommand :=
| GetConnection (host_id : PublicKey) (relay_url : option string) (reply : waiter)
| ConnectDone (host_id : PublicKey) (result : Connection + string)
| RemoveConnection (host_id : PublicKey)
| ForceRemoveConnection (host_id : PublicKey) (sid : Z)
| ReplaceConnection (host_id : PublicKey) (old_stable_id : Z) (new : Connection) (reply : waiter)
| NotePoolVerified (host_id : PublicKey) (sid : Z)
| SessionStarted (host_id : PublicKey)
| SessionEnded (host_id : PublicKey)
| FlushAll
| TouchActivity
| CheckIdle (reply : waiter).

Record AgentState := {
  connections : gmap PublicKey Connection;
  semaphores : gmap PublicKey semaphore;
  active : gmap PublicKey Z;
  pending : gmap PublicKey (list waiter);
  verified : gmap PublicKey Z;
  dialed : gmap PublicKey Z;
  last_activity : Z;
}.

(** What the actor shares with others: why connections are closed, the semaphores ever
    made, the replies to connection requests, the dials in flight, the yes-or-no answers. *)
Definition Reply : Type := (Connection * semaphore * option Z) + string.
Record Shared := {
  closed : gmap Z close_why;
  made : semaphore;
  replies : list (waiter * Reply);
  dials : list (PublicKey * option string);
  flags : list (waiter * bool);
}.

Definition set_connections f s := {| connections := f (connections s); semaphores := semaphores s; active := active s;
  pending := pending s; verified := verified s; dialed := dialed s; last_activity := last_activity s |}.
Definition set_semaphores f s := {| connections := connections s; semaphores := f (semaphores s); active := active s;
  pending := pending s; verified := verified s; dialed := dialed s; last_activity := last_activity s |}.
Definition set_active f s := {| connections := connections s; semaphores := semaphores s; active := f (active s);
  pending := pending s; verified := verified s; dialed := dialed s; last_activity := last_activity s |}.
Definition set_pending f s := {| connections := connections s; semaphores := semaphores s; active := active s;
  pending := f (pending s); verified := verified s; dialed := dialed s; last_activity := last_activity s |}.
Definition set_verified f s := {| connections := connections s; semaphores := semaphores s; active := active s;
  pending := pending s; verified := f (verified s); dialed := dialed s; last_activity := last_activity s |}.
Definition set_dialed f s := {| connections := connections s; semaphores := semaphores s; active := active s;
  pending := pending s; verified := verified s; dialed := f (dialed s); last_activity := last_activity s |}.
Definition set_last_activity t s := {| connections := connections s; semaphores := semaphores s; active := active s;
  pending := pending s; verified := verified s; dialed := dialed s; last_activity := t |}.

Definition set_closed f w := {| closed := f (closed w); made := made w; replies := replies w; dials := dials w; flags := flags w |}.
Definition add_replies r w := {| closed := closed w; made := made w; replies := replies w ++ r; dials := dials w; flags := flags w |}.
Definition add_dial d w := {| closed := closed w; made := made w; replies := replies w; dials := dials w ++ [d]; flags := flags w |}.
Definition set_made n w := {| closed := closed w; made := n; replies := replies w; dials := dials w; flags := flags w |}.
Definition add_flag b w := {| closed := closed w; made := made w; replies := replies w; dials := dials w; flags := flags w ++ [b] |}.

(** [Connection::close]: the first reason stays. *)
Definition close_in (c : Connection) (why : close_why) (m : gmap Z close_why) : gmap Z close_why :=
  match m !! stable_id c with Some _ => m | None => <[stable_id c := why]> m end.
Definition close (c : Connection) (why : close_why) : Shared -> Shared := set_closed (close_in c why).
Definition is_closed (w : Shared) (c : Connection) : bool := bool_decide (is_Some (closed w !! stable_id c)).

(** [Instant::elapsed]. *)
Definition elapsed (now t : Z) : Z := sat_sub now t.

Definition active_of (a : gmap PublicKey Z) (h : PublicKey) : Z := default 0 (a !! h).
Definition may_evict (a : gmap PublicKey Z) (host_id : PublicKey) : bool := active_of a host_id =? 0.
Definition session_inc (a : gmap PublicKey Z) (host_id : PublicKey) : gmap PublicKey Z :=
  <[host_id := u64 (active_of a host_id + 1)]> a.
Definition session_dec (a : gmap PublicKey Z) (host_id : PublicKey) : gmap PublicKey Z :=
  match a !! host_id with
  | None => a
  | Some n => if sat_sub n 1 =? 0 then delete host_id a else <[host_id := sat_sub n 1]> a
  end.

(** The host's semaphore, made on demand. *)
Definition semaphore_of (h : PublicKey) (s : AgentState) (w : Shared) : AgentState * Shared * semaphore :=
  match semaphores s !! h with
  | Some n => (s, w, n)
  | None => (set_semaphores (insert h (made w)) s, set_made (S (made w)) w, made w)
  end.

Definition pooled_is (s : AgentState) (h : PublicKey) (sid : Z) : bool :=
  match connections s !! h with Some c => stable_id c =? sid | None => false end.

(** [GetConnection] without a live pooled connection: join the dial in flight or start one. *)
Definition wait_for_dial (h : PublicKey) (relay : option string) (r : waiter) (s : AgentState) (w : Shared) : AgentState * Shared :=
  match pending s !! h with
  | Some ws => (set_pending (insert h (ws ++ [r])) s, w)
  | None => (set_pending (insert h [r]) s, add_dial (h, relay) w)
  end.

Definition get_connection (now : Z) (h : PublicKey) (relay : option string) (r : waiter) (s : AgentState) (w : Shared) : AgentState * Shared :=
  match connections s !! h with
  | Some c =>
      if is_closed w c then wait_for_dial h relay r (set_connections (delete h) s) w
      else
        let '(s, w, sem) := semaphore_of h s w in
        let needs_check := match verified s !! h with Some t => POOL_VERIFY_WINDOW <=? elapsed now t | None => true end in
        let budget := if needs_check then Some (liveness_budget (active_of (active s) h)) else None in
        (s, add_replies [(r, inl (c, sem, budget))] w)
  | None => wait_for_dial h relay r s w
  end.

Definition connect_done (now : Z) (h : PublicKey) (result : Connection + string) (s : AgentState) (w : Shared) : AgentState * Shared :=
  let waiters := default [] (pending s !! h) in
  let s := set_pending (delete h) s in
  match result with
  | inl c =>
      let s := set_verified (insert h now) (set_dialed (insert h now) (set_connections (insert h c) s)) in
      let '(s, w, sem) := semaphore_of h s w in
      (s, add_replies ((fun r => (r, inl (c, sem, None))) <$> waiters) w)
  | inr e => (s, add_replies ((fun r => (r, inr e)) <$> waiters) w)
  end.

Definition remove_connection (h : PublicKey) (s : AgentState) (w : Shared) : AgentState * Shared :=
  if may_evict (active s) h then
    match connections s !! h with
    | Some c => (set_connections (delete h) s, close c EvictedIdle w)
    | None => (s, w)
    end
  else (set_verified (delete h) s, w).

Definition replace_connection (now : Z) (h : PublicKey) (old_stable_id : Z) (new : Connection) (reply : waiter) (s : AgentState) (w : Shared) : AgentState * Shared :=
  if pooled_is s h old_stable_id then
    let w := match connections s !! h with Some old => close old ReplacedDegraded w | None => w end in
    (set_dialed (insert h now) (set_verified (insert h now) (set_connections (insert h new) s)), add_flag (reply, true) w)
  else (s, add_flag (reply, false) w).

Definition force_remove (h : PublicKey) (sid : Z) (s : AgentState) (w : Shared) : AgentState * Shared :=
  match connections s !! h with
  | Some c =>
      if stable_id c =? sid
      then (set_verified (delete h) (set_connections (delete h) s), close c FailedLivenessCheck w)
      else (s, w)
  | None => (s, w)
  end.

(** [FlushAll]: connections dialed a moment ago and still open are spared. *)
Definition spares (now : Z) (s : AgentState) (w : Shared) (h : PublicKey) (c : Connection) : bool :=
  match dialed s !! h with Some t => elapsed now t <? FLUSH_SPARES_YOUNGER_THAN | None => false end
  && negb (is_closed w c).
Definition flush_all (now : Z) (s : AgentState) (w : Shared) : AgentState * Shared :=
  let spared := filter (fun p => spares now s w p.1 p.2 = true) (connections s) in
  let dropped := filter (fun p => spares now s w p.1 p.2 = false) (connections s) in
  ({| connections := spared; semaphores := ∅; active := active s; pending := pending s;
      verified := filter (fun p => is_Some (spared !! p.1)) (verified s);
      dialed := filter (fun p => is_Some (spared !! p.1)) (dialed s); last_activity := last_activity s |},
   set_closed (fun m => map_fold (fun _ c => close_in c Flushed) m dropped) w).

Definition actor_step (now : Z) (cmd : AgentCommand) (s : AgentState) (w : Shared) : AgentState * Shared :=
  match cmd with
  | GetConnection h relay r => get_connection now h relay r s w
  | ConnectDone h result => connect_done now h result s w
  | RemoveConnection h => remove_connection h s w
  | ForceRemoveConnection h sid => force_remove h sid s w
  | ReplaceConnection h old new reply => replace_connection now h old new reply s w
  | NotePoolVerified h sid => (if pooled_is s h sid then set_verified (insert h now) s else s, w)
  | SessionStarted h => (set_active (fun a => session_inc a h) s, w)
  | SessionEnded h => (set_active (fun a => session_dec a h) s, w)
  | FlushAll => flush_all now s w
  | TouchActivity => (set_last_activity now s, w)
  | CheckIdle reply => (s, add_flag (reply, IDLE_TIMEOUT <=? elapsed now (last_activity s)) w)
  end.

(** ** Clients

    [handle_client] between its suspension points.  [Check] is the ping of a pooled
    connection, [Permit] the wait for the host's semaphore, [Opening] the wait for a
    stream while holding it. *)
Inductive phase :=
| Evict | Ask | Waiting
| Check (c : Connection) (sem : semaphore) | Note (c : Connection) (sem : semaphore) | Force (c : Connection)
| Permit (c : Connection) (sem : semaphore) | Opening (c : Connection) (sem : semaphore)
| OpenFailed (sem : semaphore) | Opened (c : Connection) (sem : semaphore)
| Starting (c : Connection) | Started (c : Connection) | Proxying (c : Connection)
| Ending | Ended | Left.
Record Client := { host : PublicKey; relay : option string; at_phase : phase }.
Definition move (cl : Client) (p : phase) : Client := {| host := host cl; relay := relay cl; at_phase := p |}.

Record Sys := {
  st : AgentState;
  sh : Shared;
  queue : list AgentCommand;
  clients : list Client;
  held : gset semaphore;
  sessions : Z;
  now : Z;
}.
(** The actor's queue: [mpsc::channel(64)]. *)
Definition QUEUE : nat := 64.

(** What the environment lets a suspended client see. *)
Inductive outcome := Go | Failed | Gone.

(** The reply for a waiter, taken out of its channel. *)
Fixpoint take_reply (c : waiter) (l : list (waiter * Reply)) : option (Reply * list (waiter * Reply)) :=
  match l with
  | [] => None
  | (d, r) :: l => if decide (c = d) then Some (r, l) else '(r', l') ← take_reply c l; Some (r', (d, r) :: l')
  end.
Definition set_replies l w := {| closed := closed w; made := made w; replies := l; dials := dials w; flags := flags w |}.

Section SysUpdates.
Context (y : Sys).
Definition moved (i : waiter) (cl : Client) (p : phase) : Sys :=
  {| st := st y; sh := sh y; queue := queue y; clients := <[i := move cl p]> (clients y); held := held y; sessions := sessions y; now := now y |}.
Definition enqueue (cmd : AgentCommand) : option Sys :=
  if (length (queue y) <? QUEUE)%nat
  then Some {| st := st y; sh := sh y; queue := queue y ++ [cmd]; clients := clients y; held := held y; sessions := sessions y; now := now y |}
  else None.
Definition with_held (h : gset semaphore) : Sys :=
  {| st := st y; sh := sh y; queue := queue y; clients := clients y; held := h; sessions := sessions y; now := now y |}.
Definition with_sessions (n : Z) : Sys :=
  {| st := st y; sh := sh y; queue := queue y; clients := clients y; held := held y; sessions := n; now := now y |}.
Definition with_sh (w : Shared) : Sys :=
  {| st := st y; sh := w; queue := queue y; clients := clients y; held := held y; sessions := sessions y; now := now y |}.
End SysUpdates.

(** One step of client [i]. *)
Definition client_step (y : Sys) (i : waiter) (cl : Client) (o : outcome) : option Sys :=
  match at_phase cl, o with
  | Evict, Go => y ← enqueue y (RemoveConnection (host cl)); Some (moved y i cl Ask)
  | Ask, Go => y ← enqueue y (GetConnection (host cl) (relay cl) i); Some (moved y i cl Waiting)
  | Waiting, Go =>
      '(r, rest) ← take_reply i (replies (sh y));
      let y := with_sh y (set_replies rest (sh y)) in
      Some (moved y i cl
        match r with
        | inr _ => Left
        | inl (c, sem, Some _) => if decide (alpn c = V4) then Check c sem else Permit c sem
        | inl (c, sem, None) => Permit c sem
        end)
  | Waiting, Gone => Some (moved y i cl Left)
  | Check c sem, Go => Some (moved y i cl (Note c sem))
  | Check c sem, Failed => Some (moved y i cl (Force c))
  | Note c sem, Go => y ← enqueue y (NotePoolVerified (host cl) (stable_id c)); Some (moved y i cl (Permit c sem))
  | Force c, Go => y ← enqueue y (ForceRemoveConnection (host cl) (stable_id c)); Some (moved y i cl Ask)
  | Permit c sem, Go =>
      if bool_decide (sem ∈ held y) then None
      else Some (moved (with_held y (held y ∪ {[sem]})) i cl (Opening c sem))
  | Permit _ _, Gone => Some (moved y i cl Left)
  | Opening c sem, Go => if is_closed (sh y) c then None else Some (moved y i cl (Opened c sem))
  | Opening c sem, Failed => Some (moved y i cl (OpenFailed sem))
  | Opening c sem, Gone => Some (moved (with_held y (held y ∖ {[sem]})) i cl Left)
  | OpenFailed sem, Go =>
      y ← enqueue y (RemoveConnection (host cl));
      Some (moved (with_held y (held y ∖ {[sem]})) i cl Left)
  | Opened c sem, Go =>
      Some (moved (with_sessions (with_held y (held y ∖ {[sem]})) (sessions y + 1)) i cl (Starting c))
  | Opened c sem, Failed => Some (moved (with_held y (held y ∖ {[sem]})) i cl Left)
  | Starting c, Go => y ← enqueue y (SessionStarted (host cl)); Some (moved y i cl (Started c))
  | Started c, Go => y ← enqueue y TouchActivity; Some (moved y i cl (Proxying c))
  | Proxying c, Go => Some (moved (with_sessions y (sessions y - 1)) i cl Ending)
  | Ending, Go => y ← enqueue y (SessionEnded (host cl)); Some (moved y i cl Ended)
  | Ended, Go => y ← enqueue y TouchActivity; Some (moved y i cl Left)
  | _, _ => None
  end.

Inductive event :=
| Advance (d : Z)
| Arrive (h : PublicKey) (r : option string) (evict_first : bool)
| ClientStep (i : waiter) (o : outcome)
| Actor
| DialDone (k : nat) (result : Connection + string)
| Dies (sid : Z) (why : close_why)
| Send (cmd : AgentCommand).

(** Commands that come from neither a client nor a dial. *)
Definition outside (cmd : AgentCommand) : bool :=
  match cmd with FlushAll | ReplaceConnection _ _ _ _ | CheckIdle _ => true | _ => false end.

Definition sys_step (y : Sys) (e : event) : option Sys :=
  match e with
  | Advance d =>
      if 0 <=? d then Some {| st := st y; sh := sh y; queue := queue y; clients := clients y; held := held y; sessions := sessions y; now := now y + d |} else None
  | Arrive h r evict_first =>
      Some {| st := st y; sh := sh y; queue := queue y;
              clients := clients y ++ [{| host := h; relay := r; at_phase := if evict_first then Evict else Ask |}];
              held := held y; sessions := sessions y; now := now y |}
  | ClientStep i o => cl ← clients y !! i; client_step y i cl o
  | Actor =>
      match queue y with
      | [] => None
      | cmd :: q =>
          let '(s, w) := actor_step (now y) cmd (st y) (sh y) in
          Some {| st := s; sh := w; queue := q; clients := clients y; held := held y; sessions := sessions y; now := now y |}
      end
  | DialDone k result =>
      d ← dials (sh y) !! k;
      enqueue (with_sh y {| closed := closed (sh y); made := made (sh y); replies := replies (sh y);
                            dials := delete k (dials (sh y)); flags := flags (sh y) |})
              (ConnectDone d.1 result)
  | Dies sid why => Some (with_sh y (close {| stable_id := sid; alpn := V4 |} why (sh y)))
  | Send cmd => if outside cmd then enqueue y cmd else None
  end.

Definition AgentState_new (t : Z) : AgentState :=
  {| connections := ∅; semaphores := ∅; active := ∅; pending := ∅; verified := ∅; dialed := ∅; last_activity := t |}.
Definition spawn_agent_actor (t : Z) : Sys :=
  {| st := AgentState_new t; sh := {| closed := ∅; made := 0; replies := []; dials := []; flags := [] |};
     queue := []; clients := []; held := ∅; sessions := 0; now := t |}.

Fixpoint sys_run (y : Sys) (es : list event) : option Sys :=
  match es with [] => Some y | e :: es => y ← sys_step y e; sys_run y es end.

(** ** Counting *)
Section Count.
Context {A : Type}.
Fixpoint cnt (f : A -> bool) (l : list A) : nat :=
  match l with [] => 0 | x :: l => Nat.b2n (f x) + cnt f l end.
Lemma cnt_app f l k : (cnt f (l ++ k) = cnt f l + cnt f k)%nat.
Proof. induction l; simpl; lia. Qed.
Lemma cnt_perm f l k : l ≡ₚ k -> cnt f l = cnt f k.
Proof. induction 1; simpl; lia. Qed.
Lemma cnt_insert f l i x y : l !! i = Some x ->
  (cnt f (<[i := y]> l) + Nat.b2n (f x) = cnt f l + Nat.b2n (f y))%nat.
Proof.
  revert i. induction l as [|z l IH]; intros [|i] Hi; simplify_eq/=; [lia|]. specialize (IH _ Hi). lia.
Qed.
Lemma cnt_le f l : (cnt f l <= length l)%nat.
Proof. induction l as [|x l IH]; simpl; [lia|]. destruct (f x); simpl; lia. Qed.
Lemma cnt_pos f l x : x ∈ l -> f x = true -> (1 <= cnt f l)%nat.
Proof. induction 1 as [x l|x y l _ IH]; simpl; intros Hf; [rewrite Hf; simpl; lia|]. specialize (IH Hf). lia. Qed.
Lemma cnt_0 f l : cnt f l = 0%nat <-> Forall (fun x => f x = false) l.
Proof.
  induction l as [|x l IH]; simpl; [naive_solver|]. rewrite Forall_cons, <-IH.
  destruct (f x); simpl; naive_solver lia.
Qed.
Lemma cnt_delete f l i x : l !! i = Some x -> (cnt f (delete i l) + Nat.b2n (f x) = cnt f l)%nat.
Proof. intros Hi. rewrite (cnt_perm f _ _ (delete_Permutation l i x Hi)). simpl. lia. Qed.
End Count.
Definition same {A} `{EqDecision A} (a b : A) : bool := bool_decide (a = b).
Lemma same_refl {A} `{EqDecision A} (a : A) : same a a = true.
Proof. unfold same. by rewrite bool_decide_eq_true. Qed.

Definition gets (i : waiter) : AgentCommand -> bool :=
  fun cmd => match cmd with GetConnection _ _ j => same i j | _ => false end.
Definition dones (h : PublicKey) : AgentCommand -> bool :=
  fun cmd => match cmd with ConnectDone k _ => same h k | _ => false end.
Definition starts (h : PublicKey) : AgentCommand -> bool :=
  fun cmd => match cmd with SessionStarted k => same h k | _ => false end.
Definition ends (h : PublicKey) : AgentCommand -> bool :=
  fun cmd => match cmd with SessionEnded k => same h k | _ => false end.

(** Everyone waiting for a dial. *)
Definition waiters (m : gmap PublicKey (list waiter)) : list waiter := mjoin (map_to_list m).*2.
Lemma waiters_insert m h ws : m !! h = None -> waiters (<[h := ws]> m) ≡ₚ ws ++ waiters m.
Proof. intros Hm. unfold waiters. by rewrite (map_to_list_insert m h ws Hm). Qed.
Lemma waiters_delete m h : waiters m ≡ₚ default [] (m !! h) ++ waiters (delete h m).
Proof.
  destruct (m !! h) as [ws|] eqn:E; simpl.
  - rewrite <-(insert_delete_id m h ws E) at 1. apply waiters_insert. apply lookup_delete_eq.
  - by rewrite delete_id.
Qed.
Lemma waiters_push m h ws i : m !! h = Some ws -> waiters (<[h := ws ++ [i]]> m) ≡ₚ i :: waiters m.
Proof.
  intros E. rewrite (waiters_delete (<[h := ws ++ [i]]> m) h), lookup_insert_eq, delete_insert_eq. simpl.
  rewrite (waiters_delete m h), E. simpl. rewrite <-(app_assoc ws [i]). symmetry. apply Permutation_middle.
Qed.

(** ** What each command does to the bookkeeping *)
Lemma semaphore_of_same h s w s' w' n :
  semaphore_of h s w = (s', w', n) ->
  connections s' = connections s /\ pending s' = pending s /\ active s' = active s /\ verified s' = verified s /\
  dialed s' = dialed s /\ closed w' = closed w /\ replies w' = replies w /\ dials w' = dials w.
Proof. unfold semaphore_of. intros Hs. case_match; by simplify_eq. Qed.

Definition held_by (i : waiter) (s : AgentState) (w : Shared) : nat :=
  (cnt (same i) (waiters (pending s)) + cnt (same i) (replies w).*1)%nat.

Lemma fmap_waiters (f : waiter -> waiter * Reply) l : (forall r, (f r).1 = r) -> (f <$> l).*1 = l.
Proof. intros Hf. induction l as [|x l IH]; [done|]. csimpl. by rewrite Hf, IH. Qed.

Lemma wait_held i h relay r s w s' w' :
  wait_for_dial h relay r s w = (s', w') -> held_by i s' w' = (held_by i s w + Nat.b2n (same i r))%nat.
Proof.
  unfold wait_for_dial, held_by. intros Hw. case_match; simplify_eq; simpl.
  - erewrite (cnt_perm _ (waiters (<[_ := _]> _))) by by apply waiters_push. simpl. lia.
  - erewrite (cnt_perm _ (waiters (<[_ := _]> _))) by by apply waiters_insert. simpl. lia.
Qed.

Lemma connect_done_held i t h r s w s' w' :
  connect_done t h r s w = (s', w') -> held_by i s' w' = held_by i s w.
Proof.
  unfold connect_done, held_by. rewrite (cnt_perm (same i) _ _ (waiters_delete (pending s) h)), cnt_app.
  destruct r as [c|e].
  - destruct (semaphore_of _ _ _) as [[s1 w1] n] eqn:E. apply semaphore_of_same in E as (_ & Hp & _ & _ & _ & _ & Hr & _).
    intros [= <- <-]. simpl. rewrite Hp, Hr. simpl.
    rewrite fmap_app, cnt_app, fmap_waiters by done. lia.
  - intros [= <- <-]. simpl. rewrite fmap_app, cnt_app, fmap_waiters by done. lia.
Qed.

(** Nobody who asked is forgotten and nobody is answered twice by the actor. *)
Lemma actor_held i t cmd s w s' w' :
  actor_step t cmd s w = (s', w') -> held_by i s' w' = (held_by i s w + Nat.b2n (gets i cmd))%nat.
Proof.
  destruct cmd; simpl.
  - unfold get_connection. destruct (connections s !! host_id) as [c|]; [|apply wait_held].
    destruct (is_closed w c).
    + intros Hw. apply (wait_held i) in Hw as ->. done.
    + destruct (semaphore_of _ _ _) as [[s1 w1] n] eqn:E. apply semaphore_of_same in E as (_ & Hp & _ & _ & _ & _ & Hr & _).
      intros [= <- <-]. unfold held_by. simpl. rewrite Hp, Hr, fmap_app, cnt_app. simpl. lia.
  - intros Hw. apply (connect_done_held i) in Hw as ->. lia.
  - unfold remove_connection. repeat case_match; intros; simplify_eq; unfold held_by; simpl; lia.
  - unfold force_remove. repeat case_match; intros; simplify_eq; unfold held_by; simpl; lia.
  - unfold replace_connection. repeat case_match; intros; simplify_eq; unfold held_by; simpl; lia.
  - case_match; intros; simplify_eq; unfold held_by; simpl; lia.
  - intros; simplify_eq; unfold held_by; simpl; lia.
  - intros; simplify_eq; unfold held_by; simpl; lia.
  - unfold flush_all; intros; simplify_eq; unfold held_by; simpl; lia.
  - intros; simplify_eq; unfold held_by; simpl; lia.
  - intros; simplify_eq; unfold held_by; simpl; lia.
Qed.

Definition waited (h : PublicKey) (s : AgentState) : nat := Nat.b2n (bool_decide (is_Some (pending s !! h))).
Definition flying (h : PublicKey) (w : Shared) : nat := cnt (same h) (dials w).*1.

Lemma wait_dials h k relay r s w s' w' :
  wait_for_dial k relay r s w = (s', w') -> (flying h w' + waited h s = flying h w + waited h s')%nat.
Proof.
  unfold wait_for_dial, flying, waited. intros Hw. destruct (pending s !! k) eqn:E; simplify_eq; simpl.
  - destruct (decide (h = k)) as [->|]; [rewrite lookup_insert_eq, E; simpl; lia|by rewrite lookup_insert_ne].
  - rewrite fmap_app, cnt_app. simpl. unfold same. destruct (decide (h = k)) as [->|].
    + rewrite lookup_insert_eq, E, !bool_decide_eq_true_2 by done. rewrite bool_decide_eq_false_2 by (by intros [? ?]). simpl. lia.
    + rewrite lookup_insert_ne by done. rewrite (bool_decide_eq_false_2 (h = k)) by done. simpl. lia.
Qed.

(** One dial in flight per host with waiters, and none for another. *)
Lemma actor_dials h t cmd s w s' w' :
  actor_step t cmd s w = (s', w') ->
  if dones h cmd then dials w' = dials w /\ pending s' !! h = None
  else (flying h w' + waited h s = flying h w + waited h s')%nat.
Proof.
  destruct cmd; simpl.
  - unfold get_connection. destruct (connections s !! host_id) as [c|]; [|apply wait_dials].
    destruct (is_closed w c); [by intros Hw%(wait_dials h)|].
    destruct (semaphore_of _ _ _) as [[s1 w1] n] eqn:E. apply semaphore_of_same in E as (_ & Hp & _ & _ & _ & _ & _ & Hd).
    intros [= <- <-]. unfold flying, waited. simpl. by rewrite Hp, Hd.
  - unfold connect_done, flying, waited.
    destruct result as [c|e].
    + destruct (semaphore_of _ _ _) as [[s1 w1] n] eqn:E. apply semaphore_of_same in E as (_ & Hp & _ & _ & _ & _ & _ & Hd).
      intros [= <- <-]. simpl. rewrite Hp, Hd. simpl. unfold same. case_bool_decide as Hk; subst.
      * by rewrite lookup_delete_eq.
      * by rewrite lookup_delete_ne.
    + intros [= <- <-]. simpl. unfold same. case_bool_decide as Hk; subst.
      * by rewrite lookup_delete_eq.
      * by rewrite lookup_delete_ne.
  - unfold remove_connection. repeat case_match; intros; simplify_eq; unfold flying, waited; simpl; lia.
  - unfold force_remove. repeat case_match; intros; simplify_eq; unfold flying, waited; simpl; lia.
  - unfold replace_connection. repeat case_match; intros; simplify_eq; unfold flying, waited; simpl; lia.
  - case_match; intros; simplify_eq; unfold flying, waited; simpl; lia.
  - intros; simplify_eq; unfold flying, waited; simpl; lia.
  - intros; simplify_eq; unfold flying, waited; simpl; lia.
  - unfold flush_all; intros; simplify_eq; unfold flying, waited; simpl; lia.
  - intros; simplify_eq; unfold flying, waited; simpl; lia.
  - intros; simplify_eq; unfold flying, waited; simpl; lia.
Qed.

(** A host is dialed only while no connection to it is pooled. *)
Definition disjoint_pool (s : AgentState) : Prop := forall h, is_Some (pending s !! h) -> connections s !! h = None.

Lemma wait_disjoint k relay r s w s' w' :
  disjoint_pool s -> connections s !! k = None -> wait_for_dial k relay r s w = (s', w') -> disjoint_pool s'.
Proof.
  unfold wait_for_dial, disjoint_pool. intros Hd Hc Hw h. case_match; simplify_eq; simpl;
    (destruct (decide (h = k)) as [->|]; [done|rewrite lookup_insert_ne by done; apply Hd]).
Qed.

Lemma actor_disjoint t cmd s w s' w' :
  disjoint_pool s -> actor_step t cmd s w = (s', w') -> disjoint_pool s'.
Proof.
  intros Hd. destruct cmd; simpl.
  - unfold get_connection. destruct (connections s !! host_id) as [c|] eqn:Ec; [|by apply wait_disjoint].
    destruct (is_closed w c).
    + apply wait_disjoint; simpl; [|apply lookup_delete_eq].
      intros h Hp. apply Hd in Hp. simpl. by rewrite lookup_delete_None; right.
    + destruct (semaphore_of _ _ _) as [[s1 w1] n] eqn:E. apply semaphore_of_same in E as (Hc & Hp & _).
      intros [= <- <-] h. rewrite Hp, Hc. apply Hd.
  - unfold connect_done. destruct result as [c|e].
    + destruct (semaphore_of _ _ _) as [[s1 w1] n] eqn:E. apply semaphore_of_same in E as (Hc & Hp & _).
      intros [= <- <-] h. rewrite Hp, Hc. simpl. intros [? [? ?]%lookup_delete_Some].
      rewrite lookup_insert_ne by done. by apply Hd.
    + intros [= <- <-] h. simpl. intros [? [? ?]%lookup_delete_Some]. by apply Hd.
  - unfold remove_connection. repeat case_match; intros; simplify_eq; intros h; simpl; rewrite ?lookup_delete_None; auto.
  - unfold force_remove. repeat case_match; intros; simplify_eq; intros h; simpl; rewrite ?lookup_delete_None; auto.
  - unfold replace_connection, pooled_is. destruct (connections s !! host_id) eqn:Ec; [|by intros; simplify_eq].
    case_match; intros; simplify_eq; [|done]. intros h Hp. simpl in *. pose proof (Hd h Hp).
    rewrite lookup_insert_ne; [done|congruence].
  - case_match; intros; simplify_eq; done.
  - intros; simplify_eq; done.
  - intros; simplify_eq; done.
  - unfold flush_all. intros; simplify_eq. intros h Hp. simpl in *. apply map_lookup_filter_None. left. by apply Hd.
  - intros; simplify_eq; done.
  - intros; simplify_eq; done.
Qed.

Lemma session_inc_of a k h : active_of (session_inc a k) h = if same h k then u64 (active_of a h + 1) else active_of a h.
Proof.
  unfold session_inc, active_of at 1, same. case_bool_decide as E; subst.
  - by rewrite lookup_insert_eq.
  - by rewrite lookup_insert_ne.
Qed.
Lemma session_dec_of a k h : active_of (session_dec a k) h = if same h k then sat_sub (active_of a h) 1 else active_of a h.
Proof.
  unfold session_dec, same. case_bool_decide as E; subst.
  - unfold active_of. destruct (a !! k) as [n|] eqn:Ea; simpl; [|by rewrite Ea].
    destruct (Z.eqb_spec (sat_sub n 1) 0) as [Hz|Hz]; [by rewrite lookup_delete_eq|by rewrite lookup_insert_eq].
  - unfold active_of. destruct (a !! k) as [n|]; [|done].
    case_match; [by rewrite lookup_delete_ne|by rewrite lookup_insert_ne].
Qed.

Lemma actor_active t cmd s w s' w' h :
  actor_step t cmd s w = (s', w') ->
  active_of (active s') h =
    if starts h cmd then u64 (active_of (active s) h + 1)
    else if ends h cmd then sat_sub (active_of (active s) h) 1 else active_of (active s) h.
Proof.
  assert (forall k relay r s0 w0 s1 w1, wait_for_dial k relay r s0 w0 = (s1, w1) -> active s1 = active s0) as Hwait
    by (unfold wait_for_dial; intros; case_match; by simplify_eq).
  destruct cmd; simpl.
  - unfold get_connection. repeat case_match; intros Hw; simplify_eq; simpl; try by apply Hwait in Hw as ->.
    all: match goal with E : semaphore_of _ _ _ = _ |- _ => by apply semaphore_of_same in E as (_ & _ & -> & _) end.
  - unfold connect_done. repeat case_match; intros; simplify_eq; simpl; try done.
    all: match goal with E : semaphore_of _ _ _ = _ |- _ => by apply semaphore_of_same in E as (_ & _ & -> & _) end.
  - unfold remove_connection. repeat case_match; intros; by simplify_eq.
  - unfold force_remove. repeat case_match; intros; by simplify_eq.
  - unfold replace_connection. repeat case_match; intros; by simplify_eq.
  - repeat case_match; intros; by simplify_eq.
  - intros; simplify_eq. apply session_inc_of.
  - intros; simplify_eq. apply session_dec_of.
  - unfold flush_all. intros; by simplify_eq.
  - intros; by simplify_eq.
  - intros; by simplify_eq.
Qed.

(** ** What a client's step does *)
Definition counted (p : phase) : bool := match p with Starting _ | Started _ | Proxying _ => true | _ => false end.
(** Between the two notifications of a session. *)
Definition noted (p : phase) : bool := match p with Started _ | Proxying _ | Ending => true | _ => false end.
Definition permit_of (p : phase) : option semaphore :=
  match p with Opening _ sem | OpenFailed sem | Opened _ sem => Some sem | _ => None end.

Inductive turn (i : waiter) (cl : Client) : phase -> phase -> list AgentCommand -> bool -> Prop :=
| t_evict : turn i cl Evict Ask [RemoveConnection (host cl)] false
| t_ask : turn i cl Ask Waiting [GetConnection (host cl) (relay cl) i] false
| t_err : turn i cl Waiting Left [] true
| t_check c sem : turn i cl Waiting (Check c sem) [] true
| t_handed c sem : turn i cl Waiting (Permit c sem) [] true
| t_gone : turn i cl Waiting Left [] false
| t_pong c sem : turn i cl (Check c sem) (Note c sem) [] false
| t_nopong c sem : turn i cl (Check c sem) (Force c) [] false
| t_note c sem : turn i cl (Note c sem) (Permit c sem) [NotePoolVerified (host cl) (stable_id c)] false
| t_force c : turn i cl (Force c) Ask [ForceRemoveConnection (host cl) (stable_id c)] false
| t_permit c sem : turn i cl (Permit c sem) (Opening c sem) [] false
| t_nopermit c sem : turn i cl (Permit c sem) Left [] false
| t_opened c sem : turn i cl (Opening c sem) (Opened c sem) [] false
| t_openfail c sem : turn i cl (Opening c sem) (OpenFailed sem) [] false
| t_opengone c sem : turn i cl (Opening c sem) Left [] false
| t_remove sem : turn i cl (OpenFailed sem) Left [RemoveConnection (host cl)] false
| t_ready c sem : turn i cl (Opened c sem) (Starting c) [] false
| t_noready c sem : turn i cl (Opened c sem) Left [] false
| t_start c : turn i cl (Starting c) (Started c) [SessionStarted (host cl)] false
| t_touch c : turn i cl (Started c) (Proxying c) [TouchActivity] false
| t_closed c : turn i cl (Proxying c) Ending [] false
| t_end : turn i cl Ending Ended [SessionEnded (host cl)] false
| t_left : turn i cl Ended Left [TouchActivity] false.

Record client_moves (y : Sys) (i : waiter) (cl : Client) (p : phase) (cmds : list AgentCommand) (took : bool) (y' : Sys) : Prop := {
  cm_clients : clients y' = <[i := move cl p]> (clients y);
  cm_turn : turn i cl (at_phase cl) p cmds took;
  cm_queue : queue y' = queue y ++ cmds;
  cm_st : st y' = st y;
  cm_shared : closed (sh y') = closed (sh y) /\ dials (sh y') = dials (sh y) /\ now y' = now y;
  cm_replies : (replies (sh y)).*1 ≡ₚ (if took then [i] else []) ++ (replies (sh y')).*1;
  cm_sessions : sessions y' = sessions y + Z.b2z (counted p) - Z.b2z (counted (at_phase cl));
  cm_held : match permit_of (at_phase cl), permit_of p with
            | None, None => held y' = held y
            | Some a, Some b => held y' = held y /\ a = b
            | None, Some a => held y' = held y ∪ {[a]} /\ a ∉ held y
            | Some a, None => held y' = held y ∖ {[a]}
            end;
}.

Lemma take_reply_perm c l r l' : take_reply c l = Some (r, l') -> l.*1 ≡ₚ c :: l'.*1.
Proof.
  revert r l'. induction l as [|[d x] l IH]; simpl; intros r l'; [done|].
  case_decide; [by intros; simplify_eq|]. destruct (take_reply c l) as [[r1 l1]|]; simpl; [|done].
  intros [= <- <-]. csimpl. rewrite (IH r1 l1 eq_refl). apply Permutation_swap.
Qed.

Lemma client_step_moves y i cl o y' : client_step y i cl o = Some y' -> exists p cmds took, client_moves y i cl p cmds took y'.
Proof.
  unfold client_step, enqueue. intros Hs.
  destruct (at_phase cl) eqn:Ep, o; try discriminate Hs; simpl in Hs;
    try (destruct (length (queue y) <? QUEUE)%nat; [simpl in Hs|discriminate Hs]).
  3:{ destruct (take_reply i (replies (sh y))) as [[r rest]|] eqn:Er; simpl in Hs; [|done].
      apply take_reply_perm in Er. injection Hs as <-.
      destruct r as [[[c sem] [b|]]|e]; [case_decide|..]; eexists _, _, true;
        (split; [reflexivity|rewrite Ep; constructor|..]; simpl; rewrite ?Ep, ?app_nil_r; try done; simpl; lia). }
  all: try (case_match; simplify_eq); simplify_eq; eexists _, _, false;
    (split; [reflexivity|rewrite Ep; constructor|..]; simpl; rewrite ?Ep, ?app_nil_r; try done; simpl; try lia).
  split; [done|]. by eapply bool_decide_eq_false_1.
Qed.

(** ** The invariant *)
Definition asked (y : Sys) (i : waiter) : nat := (cnt (gets i) (queue y) + held_by i (st y) (sh y))%nat.
Definition on_host (f : phase -> bool) (h : PublicKey) (cl : Client) : bool := same h (host cl) && f (at_phase cl).
Definition holds (sem : semaphore) (cl : Client) : bool := same (Some sem) (permit_of (at_phase cl)).

Record Inv (n : Z) (y : Sys) : Prop := {
  inv_asked : forall i cl, clients y !! i = Some cl ->
    match at_phase cl with Waiting => asked y i = 1 | Left => asked y i <= 1 | _ => asked y i = 0 end%nat;
  inv_unborn : forall i, clients y !! i = None -> asked y i = 0%nat;
  inv_dial : forall h, (flying h (sh y) + cnt (dones h) (queue y) = waited h (st y))%nat;
  inv_disjoint : disjoint_pool (st y);
  inv_bound : forall h, 0 <= active_of (active (st y)) h <= n;
  inv_noted : forall h, active_of (active (st y)) h + Z.of_nat (cnt (starts h) (queue y)) =
    Z.of_nat (cnt (on_host noted h) (clients y)) + Z.of_nat (cnt (ends h) (queue y));
  inv_prefix : forall h k, 0 <= active_of (active (st y)) h + Z.of_nat (cnt (starts h) (take k (queue y))) - Z.of_nat (cnt (ends h) (take k (queue y)));
  inv_sessions : sessions y = Z.of_nat (cnt (fun cl => counted (at_phase cl)) (clients y));
  inv_held : forall sem, cnt (holds sem) (clients y) = Nat.b2n (bool_decide (sem ∈ held y));
}.

Lemma inv_init t : Inv 0 (spawn_agent_actor t).
Proof. split; simpl; try done. intros h k. by rewrite take_nil. Qed.

(** What matters of a step to the waiters, the dials and the sessions when the actor and
    its shared state stay the same. *)
Lemma inv_frame n y y' :
  st y' = st y -> queue y' = queue y -> clients y' = clients y -> held y' = held y -> sessions y' = sessions y ->
  replies (sh y') = replies (sh y) -> dials (sh y') = dials (sh y) ->
  Inv n y -> Inv n y'.
Proof.
  intros Hst Hq Hc Hh Hs Hr Hd [? ? ? ? ? ? ? ? ?].
  split; unfold asked, held_by, flying in *; rewrite ?Hst, ?Hq, ?Hc, ?Hh, ?Hs, ?Hr, ?Hd; done.
Qed.

Lemma inv_actor n y cmd q s w :
  n < 2 ^ 64 - 1 -> Inv n y -> queue y = cmd :: q -> actor_step (now y) cmd (st y) (sh y) = (s, w) ->
  Inv (n + 1) {| st := s; sh := w; queue := q; clients := clients y; held := held y; sessions := sessions y; now := now y |}.
Proof.
  intros Hn [Ha Hu Hd Hj Hb Hc Hp Hs Hh] Hq Hstep.
  assert (forall i, asked {| st := s; sh := w; queue := q; clients := clients y; held := held y; sessions := sessions y; now := now y |} i = asked y i) as Hask.
  { intros i. unfold asked. simpl. rewrite Hq, (actor_held i _ _ _ _ _ _ Hstep). simpl. lia. }
  split; simpl.
  - intros i cl Hi. rewrite Hask. by apply Ha.
  - intros i Hi. rewrite Hask. by apply Hu.
  - intros h. specialize (Hd h). rewrite Hq in Hd. simpl in Hd. pose proof (actor_dials h _ _ _ _ _ _ Hstep) as Hx.
    destruct (dones h cmd); simpl in Hd; [|lia]. destruct Hx as [Hx1 Hx2]. unfold flying, waited in *.
    rewrite Hx1, Hx2. rewrite bool_decide_eq_false_2 by (by intros [? ?]). simpl.
    destruct (bool_decide _); simpl in Hd; lia.
  - by eapply actor_disjoint.
  - intros h. specialize (Hb h). rewrite (actor_active _ _ _ _ _ _ h Hstep). unfold u64, sat_sub.
    repeat case_match; try lia. rewrite Z.mod_small; lia.
  - intros h. specialize (Hb h). specialize (Hc h). specialize (Hp h 1%nat). rewrite Hq in Hc, Hp. simpl in Hc, Hp.
    rewrite (actor_active _ _ _ _ _ _ h Hstep). unfold u64, sat_sub.
    destruct (starts h cmd) eqn:E1, (ends h cmd) eqn:E2; simpl in Hc, Hp; try (rewrite Z.mod_small by lia); try lia.
    destruct cmd; done.
  - intros h k. specialize (Hb h). pose proof (Hp h 1%nat) as Hp1. specialize (Hp h (S k)). rewrite Hq in Hp, Hp1. simpl in Hp, Hp1.
    rewrite (actor_active _ _ _ _ _ _ h Hstep). unfold u64, sat_sub.
    destruct (starts h cmd) eqn:E1, (ends h cmd) eqn:E2; simpl in Hp, Hp1; try (rewrite Z.mod_small by lia); try lia.
  - done.
  - done.
Qed.

Lemma take_snoc {A} (l k : list A) m : exists j j', take m (l ++ k) = take j l ++ take j' k /\ (j = length l \/ j' = 0%nat).
Proof.
  rewrite take_app. exists (m `min` length l)%nat, (m - length l)%nat. split.
  - f_equal. destruct (decide (m <= length l)%nat); [by rewrite Nat.min_l|]. rewrite Nat.min_r by lia. rewrite !take_ge by lia. done.
  - lia.
Qed.

Section ClientMoves.
Context (n : Z) (y y' : Sys) (i : waiter) (cl : Client) (p : phase) (cmds : list AgentCommand) (took : bool).
Context (HI : Inv n y) (Hi : clients y !! i = Some cl) (HM : client_moves y i cl p cmds took y').

Lemma moves_asked j : (asked y' j + Nat.b2n (took && same j i) = asked y j + cnt (gets j) cmds)%nat.
Proof.
  destruct HM as [_ _ Mq Mst _ Mr _ _].
  unfold asked, held_by. rewrite Mq, Mst, cnt_app, (cnt_perm (same j) _ _ Mr), cnt_app. destruct took; simpl; lia.
Qed.

Lemma moves_asked_other j : j <> i -> asked y' j = asked y j.
Proof.
  intros Hne. pose proof (moves_asked j) as Hask. unfold same in Hask at 1.
  rewrite bool_decide_eq_false_2, andb_false_r in Hask by done.
  assert (cnt (gets j) cmds = 0%nat) as Hz.
  { destruct (cm_turn _ _ _ _ _ _ _ HM); simpl; try done. unfold same. by rewrite bool_decide_eq_false_2. }
  simpl in Hask. lia.
Qed.

Lemma moves_inv_asked j cl' : clients y' !! j = Some cl' ->
  match at_phase cl' with Waiting => asked y' j = 1 | Left => asked y' j <= 1 | _ => asked y' j = 0 end%nat.
Proof.
  rewrite (cm_clients _ _ _ _ _ _ _ HM). destruct (decide (j = i)) as [->|Hne].
  - rewrite list_lookup_insert_eq by (by eapply lookup_lt_Some). intros [= <-]. simpl.
    pose proof (inv_asked _ _ HI _ _ Hi) as Ha. pose proof (moves_asked i) as Hask. rewrite same_refl, andb_true_r in Hask.
    destruct (cm_turn _ _ _ _ _ _ _ HM); simpl in *; rewrite ?same_refl in Hask; simpl in Hask; lia.
  - rewrite list_lookup_insert_ne, moves_asked_other by done. apply (inv_asked _ _ HI).
Qed.

Lemma moves_on f h :
  (cnt (on_host f h) (clients y') + Nat.b2n (same h (host cl) && f (at_phase cl)) =
   cnt (on_host f h) (clients y) + Nat.b2n (same h (host cl) && f p))%nat.
Proof. rewrite (cm_clients _ _ _ _ _ _ _ HM). apply (cnt_insert (on_host f h) _ _ _ (move cl p) Hi). Qed.

Lemma moves_noted h :
  active_of (active (st y')) h + Z.of_nat (cnt (starts h) (queue y')) =
    Z.of_nat (cnt (on_host noted h) (clients y')) + Z.of_nat (cnt (ends h) (queue y')).
Proof.
  pose proof (inv_noted _ _ HI h) as Hc. pose proof (moves_on noted h) as Hon.
  rewrite (cm_st _ _ _ _ _ _ _ HM), (cm_queue _ _ _ _ _ _ _ HM), !cnt_app.
  destruct (cm_turn _ _ _ _ _ _ _ HM); simpl in *; rewrite ?andb_true_r, ?andb_false_r in Hon; simpl in Hon; try lia;
    destruct (same h (host cl)); simpl in *; lia.
Qed.

Lemma moves_prefix h k :
  0 <= active_of (active (st y')) h + Z.of_nat (cnt (starts h) (take k (queue y'))) - Z.of_nat (cnt (ends h) (take k (queue y'))).
Proof.
  rewrite (cm_st _ _ _ _ _ _ _ HM), (cm_queue _ _ _ _ _ _ _ HM).
  destruct (take_snoc (queue y) cmds k) as (j & j' & -> & Hjj).
  rewrite !cnt_app. pose proof (inv_prefix _ _ HI h j) as Hpj. pose proof (inv_noted _ _ HI h) as Hc. pose proof (moves_on noted h) as Hon.
  destruct Hjj as [->| ->]; [|rewrite take_0; simpl; lia]. rewrite take_ge in * by done.
  destruct (cm_turn _ _ _ _ _ _ _ HM); destruct j' as [|j']; rewrite ?take_nil, ?take_0; simpl in *;
    rewrite ?take_nil; simpl; try lia; destruct (same h (host cl)); simpl in *; lia.
Qed.

Lemma moves_held sem : cnt (holds sem) (clients y') = Nat.b2n (bool_decide (sem ∈ held y')).
Proof.
  pose proof (inv_held _ _ HI sem) as Hh. pose proof (cm_held _ _ _ _ _ _ _ HM) as Mheld.
  rewrite (cm_clients _ _ _ _ _ _ _ HM). pose proof (cnt_insert (holds sem) _ _ _ (move cl p) Hi) as Hx.
  revert Hx Mheld. unfold holds at 2 4. simpl. unfold same. intros Hx Mheld.
  destruct (permit_of (at_phase cl)) as [a|] eqn:Ea, (permit_of p) as [b|] eqn:Eb.
  - destruct Mheld as [-> ->]. rewrite <-Hh. lia.
  - rewrite Mheld. destruct (decide (sem = a)) as [->|].
    + rewrite (bool_decide_eq_false_2 (a ∈ _)) by set_solver. rewrite bool_decide_eq_true_2 in Hx by done.
      rewrite (bool_decide_eq_false_2 (Some a = None)) in Hx by done. simpl in *. destruct (bool_decide (a ∈ held y)); simpl in *; lia.
    + rewrite (bool_decide_ext (sem ∈ held y ∖ {[a]}) (sem ∈ held y)) by set_solver.
      rewrite !(bool_decide_eq_false_2 (Some sem = _)) in Hx by congruence. simpl in Hx. lia.
  - destruct Mheld as [-> Hnot]. destruct (decide (sem = b)) as [->|].
    + rewrite (bool_decide_eq_true_2 (b ∈ _)) by set_solver. rewrite (bool_decide_eq_false_2 (b ∈ _)) in Hh by done.
      rewrite (bool_decide_eq_false_2 (Some b = None)), (bool_decide_eq_true_2 (Some b = Some b)) in Hx by done. simpl in *. lia.
    + rewrite (bool_decide_ext (sem ∈ held y ∪ {[b]}) (sem ∈ held y)) by set_solver.
      rewrite !(bool_decide_eq_false_2 (Some sem = _)) in Hx by congruence. simpl in Hx. lia.
  - rewrite Mheld, <-Hh. lia.
Qed.

Lemma inv_client : Inv n y'.
Proof.
  pose proof HM as [Mc Mt Mq Mst (_ & Mdials & _) _ Msess _]. pose proof HI as [Ha Hu Hd Hj Hb _ _ Hs _]. split.
  - apply moves_inv_asked.
  - intros j. rewrite Mc. intros Hj'%lookup_ge_None. rewrite length_insert in Hj'.
    rewrite moves_asked_other by (apply lookup_lt_Some in Hi; lia). by apply Hu, lookup_ge_None.
  - intros h. specialize (Hd h). unfold flying in *. rewrite Mdials, Mst, Mq, cnt_app.
    assert (cnt (dones h) cmds = 0%nat) as -> by (destruct Mt; done). lia.
  - by rewrite Mst.
  - by rewrite Mst.
  - apply moves_noted.
  - apply moves_prefix.
  - rewrite Msess, Hs, Mc. pose proof (cnt_insert (fun cl => counted (at_phase cl)) _ _ _ (move cl p) Hi) as Hx. simpl in Hx.
    destruct (counted p), (counted (at_phase cl)); simpl in *; lia.
  - apply moves_held.
Qed.
End ClientMoves.

(** A command from outside, or the end of a dial, put into the queue. *)
Lemma enqueue_inv y cmd y' : enqueue y cmd = Some y' ->
  y' = {| st := st y; sh := sh y; queue := queue y ++ [cmd]; clients := clients y; held := held y; sessions := sessions y; now := now y |}.
Proof. unfold enqueue. intros He. case_match; by simplify_eq. Qed.

Lemma cnt_snoc {A} (f : A -> bool) l x : cnt f (l ++ [x]) = (cnt f l + Nat.b2n (f x))%nat.
Proof. rewrite cnt_app. simpl. lia. Qed.

Lemma prefix_snoc n y cmd h k :
  Inv n y -> starts h cmd = false -> ends h cmd = false ->
  0 <= active_of (active (st y)) h + Z.of_nat (cnt (starts h) (take k (queue y ++ [cmd]))) - Z.of_nat (cnt (ends h) (take k (queue y ++ [cmd]))).
Proof.
  intros HI Hs He. destruct (take_snoc (queue y) [cmd] k) as (j & j' & -> & _). rewrite !cnt_app.
  pose proof (inv_prefix _ _ HI h j). destruct j' as [|j']; simpl; [lia|]. rewrite take_nil. simpl. rewrite Hs, He. simpl. lia.
Qed.

Lemma sys_inv_step n y e y' : n < 2 ^ 64 - 1 -> Inv n y -> sys_step y e = Some y' -> Inv (n + 1) y'.
Proof.
  intros Hn HI. assert (forall z, Inv n z -> Inv (n + 1) z) as Hmono.
  { intros z [? ? ? ? Hb ? ? ? ?]. split; try done. intros h. specialize (Hb h). lia. }
  destruct e; simpl.
  - case_match; [|done]. intros [= <-]. apply Hmono. by eapply inv_frame; [..|exact HI].
  - intros [= <-]. apply Hmono. pose proof HI as [Ha Hu Hd Hj Hb Hc Hp Hs Hh]. split; simpl; try done.
    + intros i cl. rewrite lookup_app_Some. intros [Hi|[Hge Hi]]; [by apply Ha|].
      apply list_lookup_singleton_Some in Hi as [Hi <-]. simpl.
      pose proof (Hu i) as Hui. rewrite lookup_ge_None in Hui. destruct evict_first; apply Hui; lia.
    + intros i Hi. apply Hu. rewrite lookup_ge_None in Hi |- *. rewrite length_app in Hi. lia.
    + intros k. rewrite cnt_snoc. unfold on_host at 2. simpl. destruct evict_first; simpl; rewrite andb_false_r; simpl; specialize (Hc k); lia.
    + rewrite cnt_snoc. destruct evict_first; simpl; lia.
    + intros sem. rewrite cnt_snoc. specialize (Hh sem). destruct evict_first; simpl; lia.
  - destruct (clients y !! i) as [cl|] eqn:Hi; simpl; [|done].
    intros (p & cmds & took & HM)%client_step_moves. apply Hmono. by eapply inv_client.
  - destruct (queue y) as [|cmd q] eqn:Hq; [done|].
    destruct (actor_step (now y) cmd (st y) (sh y)) as [s w] eqn:E. intros [= <-]. by eapply inv_actor.
  - destruct (dials (sh y) !! k) as [d|] eqn:Hk; simpl; [|done]. intros ->%enqueue_inv. apply Hmono.
    pose proof HI as [Ha Hu Hd Hj Hb Hc Hp Hs Hh]. split; simpl; try done.
    + intros i cl Hi. specialize (Ha i cl Hi). unfold asked in *. simpl. rewrite cnt_snoc. simpl. rewrite Nat.add_0_r. done.
    + intros i Hi. specialize (Hu i Hi). unfold asked in *. simpl. rewrite cnt_snoc. simpl. by rewrite Nat.add_0_r.
    + intros h. specialize (Hd h). unfold flying in *. simpl. rewrite cnt_snoc. simpl.
      assert ((dials (sh y)).*1 !! k = Some d.1) as Hk' by (by rewrite list_lookup_fmap, Hk).
      pose proof (cnt_delete (same h) _ _ _ Hk') as Hx. rewrite list_fmap_delete. lia.
    + intros h. specialize (Hc h). rewrite !cnt_snoc. simpl. lia.
    + intros h m. by apply (prefix_snoc n).
  - intros [= <-]. apply Hmono. by eapply inv_frame; [..|exact HI].
  - destruct (outside cmd) eqn:Ho; [|done]. intros ->%enqueue_inv. apply Hmono.
    pose proof HI as [Ha Hu Hd Hj Hb Hc Hp Hs Hh]. split; simpl; try done.
    + intros i cl Hi. specialize (Ha i cl Hi). unfold asked in *. simpl. rewrite cnt_snoc. destruct cmd; try done; simpl; by rewrite Nat.add_0_r.
    + intros i Hi. specialize (Hu i Hi). unfold asked in *. simpl. rewrite cnt_snoc. destruct cmd; try done; simpl; by rewrite Nat.add_0_r.
    + intros h. specialize (Hd h). rewrite cnt_snoc. destruct cmd; try done; simpl; lia.
    + intros h. specialize (Hc h). rewrite !cnt_snoc. destruct cmd; try done; simpl; lia.
    + intros h m. apply (prefix_snoc n); [done|by destruct cmd..].
Qed.

Lemma inv_run es : forall n y y', 0 <= n -> n + Z.of_nat (length es) < 2 ^ 64 -> Inv n y -> sys_run y es = Some y' -> Inv (n + Z.of_nat (length es)) y'.
Proof.
  induction es as [|e es IH]; simpl; intros n y y' H0 Hn HI Hr; [simplify_eq; by rewrite Z.add_0_r|].
  destruct (sys_step y e) as [y1|] eqn:E; simpl in Hr; [|done].
  replace (n + Z.of_nat (S (length es))) with (n + 1 + Z.of_nat (length es)) by lia.
  apply (IH (n + 1) y1); [lia|lia| |done]. eapply sys_inv_step; [|done..]. lia.
Qed.

(** ** Every request is answered *)
Definition quiescent (y : Sys) : Prop := queue y = [] /\ dials (sh y) = [].
(** Steps of the agent itself: the actor and its dials. *)
Definition internal (e : event) : bool := match e with Actor | DialDone _ _ => true | _ => false end.
(** How much work is left: a request may start a dial, a dial ends in a command. *)
Definition cost (cmd : AgentCommand) : nat := match cmd with GetConnection _ _ _ => 3 | _ => 1 end.
Definition work (y : Sys) : nat := (sum_list_with cost (queue y) + 2 * length (dials (sh y)))%nat.

Lemma quiescent_pending n y : Inv n y -> quiescent y -> waiters (pending (st y)) = [].
Proof.
  intros HI [Hq Hd]. assert (pending (st y) = ∅) as ->; [|done].
  apply map_eq. intros h. rewrite lookup_empty. pose proof (inv_dial _ _ HI h) as Hx.
  unfold flying, waited in Hx. rewrite Hq, Hd in Hx. simpl in Hx.
  destruct (pending (st y) !! h); [|done]. by rewrite bool_decide_eq_true_2 in Hx.
Qed.

Lemma quiescent_answered n y i cl :
  Inv n y -> quiescent y -> clients y !! i = Some cl -> at_phase cl = Waiting -> exists r, (i, r) ∈ replies (sh y).
Proof.
  intros HI HQ Hi Hp. pose proof (inv_asked _ _ HI i cl Hi) as Ha. rewrite Hp in Ha. unfold asked, held_by in Ha.
  rewrite (quiescent_pending n y HI HQ) in Ha. destruct HQ as [Hq _]. rewrite Hq in Ha. simpl in Ha.
  destruct (decide (i ∈ (replies (sh y)).*1)) as [Hin|Hin].
  - apply list_elem_of_fmap in Hin as ([j r] & -> & Hin). by exists r.
  - rewrite (proj2 (cnt_0 _ _)) in Ha; [done|]. apply Forall_forall. intros x Hx. unfold same.
    apply bool_decide_eq_false_2. by intros ->.
Qed.

Lemma sum_list_with_snoc {A} (f : A -> nat) l x : sum_list_with f (l ++ [x]) = (sum_list_with f l + f x)%nat.
Proof. rewrite sum_list_with_app. simpl. lia. Qed.

Lemma actor_work t cmd s w s' w' :
  actor_step t cmd s w = (s', w') -> (2 * length (dials w') < cost cmd + 2 * length (dials w))%nat.
Proof.
  assert (forall k relay r s0 w0 s1 w1, wait_for_dial k relay r s0 w0 = (s1, w1) -> (length (dials w1) <= S (length (dials w0)))%nat) as Hwait.
  { unfold wait_for_dial. intros. case_match; simplify_eq; simpl; [lia|]. rewrite length_app. simpl. lia. }
  destruct cmd; simpl.
  - unfold get_connection. destruct (connections s !! host_id) as [c|]; [|intros Hw%Hwait; simpl in Hw; lia].
    destruct (is_closed w c); [intros Hw%Hwait; simpl in Hw; lia|].
    destruct (semaphore_of _ _ _) as [[s1 w1] n] eqn:E. apply semaphore_of_same in E as (_ & _ & _ & _ & _ & _ & _ & Hd).
    intros [= <- <-]. simpl. rewrite Hd. lia.
  - unfold connect_done. destruct result.
    + destruct (semaphore_of _ _ _) as [[s1 w1] n] eqn:E. apply semaphore_of_same in E as (_ & _ & _ & _ & _ & _ & _ & Hd).
      intros [= <- <-]. simpl. rewrite Hd. lia.
    + intros [= <- <-]. simpl. lia.
  - unfold remove_connection. repeat case_match; intros; simplify_eq; simpl; lia.
  - unfold force_remove. repeat case_match; intros; simplify_eq; simpl; lia.
  - unfold replace_connection. repeat case_match; intros; simplify_eq; simpl; lia.
  - intros; simplify_eq; lia.
  - intros; simplify_eq; lia.
  - intros; simplify_eq; lia.
  - unfold flush_all. intros; simplify_eq; simpl; lia.
  - intros; simplify_eq; lia.
  - intros; simplify_eq; simpl; lia.
Qed.

Lemma internal_work y e y' : internal e = true -> sys_step y e = Some y' -> (work y' < work y)%nat.
Proof.
  unfold work. destruct e; simpl; try done; intros _.
  - destruct (queue y) as [|cmd q]; [done|]. destruct (actor_step _ _ _ _) as [s w] eqn:E.
    intros [= <-]. apply actor_work in E. simpl. lia.
  - destruct (dials (sh y) !! k) as [d|] eqn:E; simpl; [|done]. intros ->%enqueue_inv. simpl.
    rewrite sum_list_with_snoc. simpl. apply lookup_lt_Some in E as Hl. rewrite length_delete by done. lia.
Qed.

Lemma internal_enabled y : ~ quiescent y -> exists e, internal e = true /\ is_Some (sys_step y e).
Proof.
  intros Hq. destruct (queue y) as [|cmd q] eqn:Eq.
  - destruct (dials (sh y)) as [|d ds] eqn:Ed; [by destruct Hq|].
    exists (DialDone 0 (inr EmptyString)). split; [done|]. simpl. rewrite Ed. simpl. unfold enqueue. simpl. rewrite Eq. done.
  - exists Actor. split; [done|]. simpl. rewrite Eq. destruct (actor_step _ _ _ _). done.
Qed.

Lemma internal_drains y : exists es y', Forall (fun e => internal e = true) es /\ (length es <= work y)%nat /\
  sys_run y es = Some y' /\ quiescent y' /\ clients y' = clients y.
Proof.
  remember (work y) as m eqn:Hm. assert (work y <= m)%nat as Hle by lia. clear Hm. revert y Hle.
  induction m as [|m IH]; intros y Hle.
  - exists [], y. split; [constructor|]. split; [simpl; lia|]. split; [done|]. split; [|done].
    destruct (decide (queue y = [] /\ dials (sh y) = [])) as [Hq|Hq]; [done|].
    destruct (internal_enabled y Hq) as (e & He & y1 & Hs). apply internal_work in Hs; [lia|done].
  - destruct (decide (queue y = [] /\ dials (sh y) = [])) as [Hq|Hq].
    { exists [], y. split; [constructor|]. split; [simpl; lia|]. done. }
    destruct (internal_enabled y Hq) as (e & He & y1 & Hs). pose proof (internal_work _ _ _ He Hs) as Hw.
    destruct (IH y1) as (es & y' & Hes & Hl & Hr & Hq' & Hc); [lia|].
    exists (e :: es), y'. split; [by constructor|]. split; [simpl; lia|]. simpl. rewrite Hs. split; [done|]. split; [done|].
    rewrite Hc. destruct e; simpl in *; try done.
    + destruct (queue y); [done|]. destruct (actor_step _ _ _ _). by simplify_eq.
    + destruct (dials (sh y) !! k); simpl in Hs; [|done]. by apply enqueue_inv in Hs as ->.
Qed.

(** C26.  However clients arrive, leave and interleave with the actor, the dials, closing
    connections and flushes: at most one dial per host is under way, a host is dialed only
    while none of its connections is pooled, and no client has more than one answer.
    From every such state the agent's own steps come to rest after boundedly many, in
    whatever order, and then every client still waiting has its answer. *)
Theorem agent_answers_all t es y :
  Z.of_nat (length es) < 2 ^ 63 -> sys_run (spawn_agent_actor t) es = Some y ->
  (forall h, (flying h (sh y) + cnt (dones h) (queue y) <= 1)%nat) /\
  (forall h, is_Some (pending (st y) !! h) -> connections (st y) !! h = None) /\
  (forall i, (cnt (same i) (replies (sh y)).*1 <= 1)%nat) /\
  (exists es' y', Forall (fun e => internal e = true) es' /\ sys_run y es' = Some y' /\ quiescent y') /\
  (forall es' y', Forall (fun e => internal e = true) es' -> sys_run y es' = Some y' ->
     ((length es' <= work y)%nat) /\
     (Z.of_nat (length es') < 2 ^ 63 -> quiescent y' ->
      forall i cl, clients y' !! i = Some cl -> at_phase cl = Waiting -> exists r, (i, r) ∈ replies (sh y'))).
Proof.
  intros Hlen Hrun. pose proof (inv_run es 0 _ _ ltac:(lia) ltac:(lia) (inv_init t) Hrun) as HI. simpl in HI.
  split_and!.
  - intros h. rewrite (inv_dial _ _ HI h). unfold waited. destruct (bool_decide _); simpl; lia.
  - apply (inv_disjoint _ _ HI).
  - intros i. assert (asked y i <= 1)%nat as Ha.
    { destruct (clients y !! i) as [cl|] eqn:Hi.
      - pose proof (inv_asked _ _ HI i cl Hi) as Ha. destruct (at_phase cl); lia.
      - rewrite (inv_unborn _ _ HI i Hi). lia. }
    unfold asked, held_by in Ha. lia.
  - destruct (internal_drains y) as (es' & y' & ? & _ & ? & ? & _). eauto.
  - intros es' y' Hes' Hrun'. split.
    + clear -Hes' Hrun'. revert y Hrun'. induction es' as [|e es' IH]; simpl; intros y Hr; [lia|].
      apply Forall_cons in Hes' as [He Hes']. destruct (sys_step y e) as [y1|] eqn:Hs; simpl in Hr; [|done].
      pose proof (internal_work _ _ _ He Hs). specialize (IH Hes' y1 Hr). lia.
    + intros Hl HQ i cl. pose proof (inv_run es' (Z.of_nat (length es)) _ _ ltac:(lia) ltac:(lia) HI Hrun') as HI'.
      by eapply quiescent_answered.
Qed.

Definition host_a : PublicKey := [1].
Definition conn_a : Connection := {| stable_id := 7; alpn := V4 |}.
(** Two clients ask for the same host while it is being dialed. *)
Definition two_clients : list event :=
  [Arrive host_a None false; Arrive host_a None true; ClientStep 0 Go; Actor; ClientStep 1 Go; ClientStep 1 Go; Actor].

Lemma agent_answers_all_witness :
  match sys_run (spawn_agent_actor 0) two_clients with
  | Some y => forall h, (flying h (sh y) + cnt (dones h) (queue y) <= 1)%nat
  | None => False
  end.
Proof.
  destruct (sys_run (spawn_agent_actor 0) two_clients) as [y|] eqn:E; [|by vm_compute in E].
  exact (proj1 (agent_answers_all 0 two_clients y ltac:(done) E)).
Defined.

(** ** Nothing pooled is lost, and sessions protect their connection *)
Lemma close_in_mono c why m sid : is_Some (m !! sid) -> is_Some (close_in c why m !! sid).
Proof.
  unfold close_in. intros Hs. case_match; [done|]. destruct (decide (sid = stable_id c)) as [->|].
  - rewrite lookup_insert_eq. by eexists.
  - by rewrite lookup_insert_ne.
Qed.
Lemma close_in_closes c why m : is_Some (close_in c why m !! stable_id c).
Proof. unfold close_in. case_match; [by eexists|]. rewrite lookup_insert_eq. by eexists. Qed.
Lemma close_in_inv c why m sid x : close_in c why m !! sid = Some x -> m !! sid = Some x \/ sid = stable_id c.
Proof.
  unfold close_in. case_match; [by left|]. destruct (decide (sid = stable_id c)); [by right|]. rewrite lookup_insert_ne by done. by left.
Qed.

Definition close_each (dropped : gmap PublicKey Connection) (m : gmap Z close_why) : gmap Z close_why :=
  map_fold (fun _ c => close_in c Flushed) m dropped.
Lemma close_each_spec dropped m sid :
  is_Some (close_each dropped m !! sid) <-> is_Some (m !! sid) \/ exists h c, dropped !! h = Some c /\ stable_id c = sid.
Proof.
  unfold close_each.
  apply (map_fold_weak_ind (fun r d => is_Some (r !! sid) <-> is_Some (m !! sid) \/ exists h c, d !! h = Some c /\ stable_id c = sid)).
  - split; [by left|]. intros [?|(h & c & Hx & _)]; [done|]. by rewrite lookup_empty in Hx.
  - intros h c d r Hd IH. split.
    + intros [x Hx]. apply close_in_inv in Hx as [Hx| ->].
      * destruct (proj1 IH) as [?|(h' & c' & Hh & Hc)]; [by eexists|by left|]. right. exists h', c'.
        rewrite lookup_insert_ne by congruence. done.
      * right. exists h, c. by rewrite lookup_insert_eq.
    + intros [Hx|(h' & c' & Hh & Hc)].
      * apply close_in_mono, IH. by left.
      * destruct (decide (h' = h)) as [->|].
        { rewrite lookup_insert_eq in Hh. simplify_eq. apply close_in_closes. }
        rewrite lookup_insert_ne in Hh by done. apply close_in_mono, IH. right. eauto.
Qed.

(** Why the actor closes the connection with this id while it handles [cmd]. *)
Definition closes (t : Z) (cmd : AgentCommand) (s : AgentState) (w : Shared) (sid : Z) : Prop :=
  match cmd with
  | RemoveConnection h => active_of (active s) h = 0 /\ exists c, connections s !! h = Some c /\ stable_id c = sid
  | ForceRemoveConnection h id | ReplaceConnection h id _ _ => id = sid /\ exists c, connections s !! h = Some c /\ stable_id c = sid
  | FlushAll => exists h c, connections s !! h = Some c /\ stable_id c = sid /\ spares t s w h c = false
  | _ => False
  end.

Lemma wait_pool k relay r s w s' w' : wait_for_dial k relay r s w = (s', w') -> connections s' = connections s /\ closed w' = closed w.
Proof. unfold wait_for_dial. intros. case_match; by simplify_eq. Qed.

Lemma actor_keeps_pool t cmd s w s' w' h c :
  actor_step t cmd s w = (s', w') -> (forall r, cmd = ConnectDone h r -> connections s !! h = None) ->
  connections s !! h = Some c -> connections s' !! h = Some c \/ is_Some (closed w' !! stable_id c).
Proof.
  intros Hstep Hcd Hc. destruct cmd; simpl in Hstep.
  - unfold get_connection in Hstep. destruct (connections s !! host_id) as [c'|] eqn:E.
    + destruct (is_closed w c') eqn:Ecl.
      * apply wait_pool in Hstep as [-> ->]. simpl. destruct (decide (host_id = h)) as [->|]; [|left; by rewrite lookup_delete_ne].
        right. simplify_eq. by apply bool_decide_eq_true in Ecl.
      * destruct (semaphore_of _ _ _) as [[s1 w1] n] eqn:Es. apply semaphore_of_same in Es as (Hs & _). simplify_eq. left. simpl. by rewrite Hs.
    + apply wait_pool in Hstep as [-> ->]. by left.
  - assert (h <> host_id) as Hne by (intros ->; by rewrite (Hcd _ eq_refl) in Hc).
    unfold connect_done in Hstep. left. destruct result; [|by simplify_eq].
    destruct (semaphore_of _ _ _) as [[s1 w1] n] eqn:Es. apply semaphore_of_same in Es as (Hs & _). simplify_eq.
    simpl. rewrite Hs. simpl. by rewrite lookup_insert_ne.
  - unfold remove_connection in Hstep. destruct (may_evict _ _); [|simplify_eq; by left].
    destruct (connections s !! host_id) as [c'|] eqn:E; simplify_eq; [|by left]. simpl.
    destruct (decide (host_id = h)) as [->|]; [simplify_eq; right; apply close_in_closes|left; by rewrite lookup_delete_ne].
  - unfold force_remove in Hstep. destruct (connections s !! host_id) as [c'|] eqn:E; [|simplify_eq; by left].
    case_match; simplify_eq; [|by left]. simpl.
    destruct (decide (host_id = h)) as [->|]; [simplify_eq; right; apply close_in_closes|left; by rewrite lookup_delete_ne].
  - unfold replace_connection in Hstep. destruct (pooled_is _ _ _); simplify_eq; [|by left]. simpl.
    destruct (decide (host_id = h)) as [->|]; [right; rewrite Hc; apply close_in_closes|left; by rewrite lookup_insert_ne].
  - case_match; simplify_eq; by left.
  - simplify_eq; by left.
  - simplify_eq; by left.
  - unfold flush_all in Hstep. simplify_eq. simpl. destruct (spares t s w h c) eqn:Esp.
    + left. by apply map_lookup_filter_Some.
    + right. apply close_each_spec. right. exists h, c. split; [|done]. by apply map_lookup_filter_Some.
  - simplify_eq; by left.
  - simplify_eq; by left.
Qed.

Lemma actor_closes_only t cmd s w s' w' sid :
  actor_step t cmd s w = (s', w') -> is_Some (closed w' !! sid) -> closed w !! sid = None -> closes t cmd s w sid.
Proof.
  intros Hstep Hs Hn. assert (forall v, closed v = closed w -> is_Some (closed v !! sid) -> False) as Hsame
    by (intros v -> Hx; rewrite Hn in Hx; by destruct Hx).
  destruct cmd; simpl in Hstep.
  - exfalso. unfold get_connection in Hstep. apply (Hsame w'); [|done].
    destruct (connections s !! host_id) as [c'|]; [destruct (is_closed w c')|].
    1,3: by apply wait_pool in Hstep as [_ ->].
    destruct (semaphore_of _ _ _) as [[s1 w1] n] eqn:Es. apply semaphore_of_same in Es as (_ & _ & _ & _ & _ & Hcl & _). by simplify_eq.
  - exfalso. unfold connect_done in Hstep. apply (Hsame w'); [|done]. destruct result; [|by simplify_eq].
    destruct (semaphore_of _ _ _) as [[s1 w1] n] eqn:Es. apply semaphore_of_same in Es as (_ & _ & _ & _ & _ & Hcl & _). by simplify_eq.
  - unfold remove_connection in Hstep. unfold closes. destruct (may_evict (active s) host_id) eqn:Em; [|simplify_eq; by destruct (Hsame w')].
    destruct (connections s !! host_id) as [c'|] eqn:E; simplify_eq; [|by destruct (Hsame w')].
    split; [by apply Z.eqb_eq|]. exists c'. split; [done|]. destruct Hs as [x Hx]. apply close_in_inv in Hx as [Hx| ->]; [congruence|done].
  - unfold force_remove in Hstep. unfold closes. destruct (connections s !! host_id) as [c'|] eqn:E; [|simplify_eq; by destruct (Hsame w')].
    destruct (Z.eqb_spec (stable_id c') sid0) as [He|He]; simplify_eq; [|by destruct (Hsame w')].
    destruct Hs as [x Hx]. apply close_in_inv in Hx as [Hx| ->]; [congruence|]. eauto.
  - unfold replace_connection, pooled_is in Hstep. unfold closes. destruct (connections s !! host_id) as [c'|] eqn:E; [|simplify_eq; by destruct (Hsame w)].
    destruct (Z.eqb_spec (stable_id c') old_stable_id) as [He|He]; simplify_eq; [|by destruct (Hsame w)].
    destruct Hs as [x Hx]. apply close_in_inv in Hx as [Hx| ->]; [congruence|]. eauto.
  - case_match; simplify_eq; by destruct (Hsame w').
  - simplify_eq; by destruct (Hsame w').
  - simplify_eq; by destruct (Hsame w').
  - unfold flush_all in Hstep. simplify_eq. apply close_each_spec in Hs as [Hs|(h & c & Hc & <-)]; [by destruct (Hsame w)|].
    apply map_lookup_filter_Some in Hc as [Hc Hsp]. simpl in Hsp. by exists h, c.
  - simplify_eq; by destruct (Hsame w').
  - simplify_eq; by destruct (Hsame w).
Qed.

(** C27.  The pool keeps its connections: while the actor handles a command, a pooled
    connection stays or is closed, none is dropped open or overwritten.  It closes a
    connection only when asked to evict it while its count of sessions is zero, to drop or
    replace exactly that connection by its id, or in a flush that finds it older than five
    seconds.  Once the start of a session has been handled, no client's eviction closes
    the connection until its end; what the actor and the clients count agrees whenever no
    command is under way. *)
Theorem agent_pool_safe t es y cmd q y' :
  Z.of_nat (length es) < 2 ^ 63 -> sys_run (spawn_agent_actor t) es = Some y ->
  queue y = cmd :: q -> sys_step y Actor = Some y' ->
  (forall h c, connections (st y) !! h = Some c -> connections (st y') !! h = Some c \/ is_Some (closed (sh y') !! stable_id c)) /\
  (forall sid, is_Some (closed (sh y') !! sid) -> closed (sh y) !! sid = None -> closes (now y) cmd (st y) (sh y) sid) /\
  (forall i cl, clients y !! i = Some cl -> noted (at_phase cl) = true -> cnt (starts (host cl)) q = 0%nat ->
     cmd = RemoveConnection (host cl) -> closed (sh y') = closed (sh y) /\ connections (st y') = connections (st y)) /\
  (q = [] -> forall h, starts h cmd = false -> ends h cmd = false ->
     active_of (active (st y)) h = Z.of_nat (cnt (on_host noted h) (clients y))) /\
  sessions y = Z.of_nat (cnt (fun cl => counted (at_phase cl)) (clients y)).
Proof.
  intros Hlen Hrun Hq Hstep. pose proof (inv_run es 0 _ _ ltac:(lia) ltac:(lia) (inv_init t) Hrun) as HI. simpl in HI, Hstep.
  rewrite Hq in Hstep. destruct (actor_step (now y) cmd (st y) (sh y)) as [s w] eqn:E. injection Hstep as <-. simpl. split_and!.
  - intros h c Hc. eapply actor_keeps_pool; [done| |done]. intros r ->. pose proof (inv_dial _ _ HI h) as Hd. rewrite Hq in Hd.
    simpl in Hd. rewrite same_refl in Hd. simpl in Hd. apply (inv_disjoint _ _ HI).
    unfold waited in Hd. destruct (pending (st y) !! h); [by eexists|]. rewrite bool_decide_eq_false_2 in Hd by (by intros [? ?]). simpl in Hd. lia.
  - intros sid. by eapply actor_closes_only.
  - intros i cl Hi Hn Hs ->. pose proof (inv_noted _ _ HI (host cl)) as Hc. rewrite Hq in Hc. simpl in Hc. rewrite Hs in Hc.
    assert (1 <= cnt (on_host noted (host cl)) (clients y))%nat as Hpos.
    { eapply cnt_pos; [by eapply list_elem_of_lookup_2|]. unfold on_host. by rewrite same_refl, Hn. }
    simpl in E. unfold remove_connection, may_evict in E. destruct (Z.eqb_spec (active_of (active (st y)) (host cl)) 0); [lia|]. by simplify_eq.
  - intros -> h Hs He. pose proof (inv_noted _ _ HI h) as Hc. rewrite Hq in Hc. simpl in Hc. rewrite Hs, He in Hc. simpl in Hc. lia.
  - apply (inv_sessions _ _ HI).
Qed.

(** One client gets a session; the second asks to evict before its own connect. *)
Definition first_session : list event :=
  [Arrive host_a None false; ClientStep 0 Go; Actor; DialDone 0 (inl conn_a); Actor;
   ClientStep 0 Go; ClientStep 0 Go; ClientStep 0 Go].
Definition counted_session : list event := first_session ++ [ClientStep 0 Go; ClientStep 0 Go; Actor; ClientStep 0 Go; Actor; Arrive host_a None true; ClientStep 1 Go].

Lemma agent_pool_safe_witness :
  match sys_run (spawn_agent_actor 0) counted_session with
  | Some y => match sys_step y Actor with Some y' => closed (sh y') = closed (sh y) | None => False end
  | None => False
  end.
Proof.
  destruct (sys_run (spawn_agent_actor 0) counted_session) as [y|] eqn:E; [|by vm_compute in E].
  destruct (sys_step y Actor) as [y'|] eqn:Es; [|exfalso; vm_compute in E; injection E as <-; by vm_compute in Es].
  assert (queue y = [RemoveConnection host_a] /\ clients y !! 0%nat = Some {| host := host_a; relay := None; at_phase := Proxying conn_a |}) as [Hq Hc]
    by (vm_compute in E; injection E as <-; by vm_compute).
  pose proof (agent_pool_safe 0 counted_session y (RemoveConnection host_a) [] y' ltac:(done) E Hq Es) as (_ & _ & Hx & _).
  exact (proj1 (Hx 0%nat _ Hc eq_refl eq_refl eq_refl)).
Defined.

(** The protection begins only when the notification of a session is handled: a
    client that has been told its stream is ready, and whose notification is queued
    behind another client's eviction, is proxying over a connection that the eviction
    closes as idle. *)
Theorem ready_session_evicted :
  exists es y c, sys_run (spawn_agent_actor 0) es = Some y /\
    clients y !! 0%nat = Some {| host := host_a; relay := None; at_phase := Proxying c |} /\
    closed (sh y) !! stable_id c = Some EvictedIdle /\ sessions y = 1.
Proof.
  exists (first_session ++ [Arrive host_a None true; ClientStep 1 Go; ClientStep 0 Go; ClientStep 0 Go; ClientStep 0 Go; Actor]).
  eexists _, conn_a. split; [vm_compute; reflexivity|]. by vm_compute.
Qed.

(** ** Vouching *)
Definition vouches (cmd : AgentCommand) (h : PublicKey) (c : Connection) : Prop :=
  match cmd with
  | ConnectDone k (inl d) => k = h /\ d = c
  | ReplaceConnection k _ d _ => k = h /\ d = c
  | NotePoolVerified k sid => k = h /\ sid = stable_id c
  | _ => False
  end.
(** The commands the actor has handled, with the time of each. *)
Fixpoint sys_log (y : Sys) (es : list event) : list (Z * AgentCommand) :=
  match es with
  | [] => []
  | e :: es =>
      match e, queue y with Actor, cmd :: _ => [(now y, cmd)] | _, _ => [] end ++
      match sys_step y e with Some y => sys_log y es | None => [] end
  end.
Definition vouched (log : list (Z * AgentCommand)) (s : AgentState) : Prop :=
  forall h c t, connections s !! h = Some c -> verified s !! h = Some t -> exists cmd, (t, cmd) ∈ log /\ vouches cmd h c.

Lemma vouched_mono log log' s : vouched log s -> vouched (log ++ log') s.
Proof. intros Hv h c t Hc Ht. destruct (Hv h c t Hc Ht) as (cmd & ? & ?). exists cmd. set_solver. Qed.

Lemma vouched_same log s s' : connections s' = connections s -> verified s' = verified s -> vouched log s -> vouched log s'.
Proof. unfold vouched. by intros -> ->. Qed.
Lemma vouched_sub log s s' :
  connections s' ⊆ connections s -> verified s' ⊆ verified s -> vouched log s -> vouched log s'.
Proof. intros H1 H2 Hv h c t Hc Ht. apply (Hv h c t); by eapply lookup_weaken. Qed.
(** A connection enters the pool, or proves itself, with the time of the command. *)
Lemma vouched_set log s t cmd k c :
  vouched log s -> vouches cmd k c ->
  forall s', connections s' = <[k := c]> (connections s) -> verified s' = <[k := t]> (verified s) -> vouched (log ++ [(t, cmd)]) s'.
Proof.
  intros Hv Hk s' Hc' Hv' h c' t'. rewrite Hc', Hv'. destruct (decide (h = k)) as [->|].
  - rewrite !lookup_insert_eq. intros [= <-] [= <-]. exists cmd. set_solver.
  - rewrite !lookup_insert_ne by done. by apply vouched_mono.
Qed.

Lemma actor_vouched log t cmd s w s' w' :
  vouched log s -> actor_step t cmd s w = (s', w') -> vouched (log ++ [(t, cmd)]) s'.
Proof.
  intros Hv. assert (forall k relay r s0 s1 w1, wait_for_dial k relay r s0 w = (s1, w1) -> connections s1 = connections s0 /\ verified s1 = verified s0) as Hwait
    by (unfold wait_for_dial; intros; case_match; by simplify_eq).
  pose proof (vouched_mono _ [(t, cmd)] _ Hv) as Hv'. destruct cmd; simpl.
  - unfold get_connection. destruct (connections s !! host_id) as [c|].
    + destruct (is_closed w c).
      * intros [Hc Hw]%Hwait. eapply vouched_sub; [..|done]; rewrite ?Hc, ?Hw; simpl; [apply delete_subseteq|done].
      * destruct (semaphore_of _ _ _) as [[s1 w1] n] eqn:E. apply semaphore_of_same in E as (Hc & _ & _ & Hw & _).
        intros [= <- <-]. by eapply vouched_same.
    + intros [Hc Hw]%Hwait. by eapply vouched_same.
  - unfold connect_done. destruct result as [c|e]; [|intros [= <- <-]; by eapply vouched_same; [..|exact Hv']].
    destruct (semaphore_of _ _ _) as [[s1 w1] n] eqn:E. apply semaphore_of_same in E as (Hc & _ & _ & Hw & _).
    intros [= <- <-]. by eapply (vouched_set log s t _ host_id c Hv).
  - unfold remove_connection. case_match; [case_match|]; intros; simplify_eq; [| |].
    + eapply vouched_sub; [..|done]; simpl; [apply delete_subseteq|done].
    + done.
    + eapply vouched_sub; [..|done]; simpl; [done|apply delete_subseteq].
  - unfold force_remove. repeat case_match; intros; simplify_eq; try done.
    eapply vouched_sub; [..|done]; simpl; apply delete_subseteq.
  - unfold replace_connection. case_match; intros; simplify_eq; [|done]. by eapply (vouched_set log s t _ host_id new Hv).
  - unfold pooled_is. destruct (connections s !! host_id) as [c|] eqn:Hc; [|by intros; simplify_eq].
    destruct (Z.eqb_spec (stable_id c) sid) as [<-|]; intros; simplify_eq; [|done].
    eapply (vouched_set log s t _ host_id c Hv); [done| |done]. simpl. by rewrite insert_id.
  - intros; simplify_eq. by eapply vouched_same; [..|exact Hv'].
  - intros; simplify_eq. by eapply vouched_same; [..|exact Hv'].
  - unfold flush_all. intros; simplify_eq. eapply vouched_sub; [..|done]; simpl; apply map_filter_subseteq.
  - intros; simplify_eq. by eapply vouched_same; [..|exact Hv'].
  - intros; by simplify_eq.
Qed.

Lemma step_st y e y' : sys_step y e = Some y' -> e <> Actor -> st y' = st y.
Proof.
  destruct e; simpl; intros Hs Hne; try done.
  - case_match; by simplify_eq.
  - by simplify_eq.
  - destruct (clients y !! i); simpl in Hs; [|done]. by apply client_step_moves in Hs as (? & ? & ? & [_ _ _ ? _ _ _ _]).
  - destruct (dials (sh y) !! k); simpl in Hs; [|done]. by apply enqueue_inv in Hs as ->.
  - by simplify_eq.
  - case_match; [|done]. by apply enqueue_inv in Hs as ->.
Qed.

Lemma run_vouched es : forall log y y', vouched log (st y) -> sys_run y es = Some y' -> vouched (log ++ sys_log y es) (st y').
Proof.
  induction es as [|e es IH]; simpl; intros log y y' Hv Hr; [simplify_eq; by rewrite app_nil_r|].
  destruct (sys_step y e) as [y1|] eqn:Hs; simpl in Hr; [|done].
  destruct e; try (rewrite app_nil_l; apply (IH log y1); [|done]; by rewrite (step_st _ _ _ Hs)).
  simpl in Hs. destruct (queue y) as [|cmd q]; [done|].
  destruct (actor_step (now y) cmd (st y) (sh y)) as [s w] eqn:E. injection Hs as <-. rewrite (assoc (++)).
  apply (IH (log ++ [(now y, cmd)])); [|done]. simpl. by eapply actor_vouched.
Qed.

(** A connection handed to a client without a liveness check is one that proved
    itself within the last twenty seconds: the actor has handled the end of its dial, its
    swap into the pool or a ping answered on this very connection, later evictions and
    replacements notwithstanding. *)
Theorem handed_out_vouched t es y cmd q y' i c sem new :
  sys_run (spawn_agent_actor t) es = Some y -> queue y = cmd :: q -> sys_step y Actor = Some y' ->
  replies (sh y') = replies (sh y) ++ new -> (i, inl (c, sem, None)) ∈ new ->
  exists h t' cmd', (t', cmd') ∈ sys_log (spawn_agent_actor t) es ++ [(now y, cmd)] /\ vouches cmd' h c /\
    now y - t' < POOL_VERIFY_WINDOW.
Proof.
  intros Hrun Hq Hstep Hnew Hin. simpl in Hstep. rewrite Hq in Hstep.
  assert (vouched [] (st (spawn_agent_actor t))) as Hv0 by (intros h c0 t0 Hc; simpl in Hc; by rewrite lookup_empty in Hc).
  pose proof (run_vouched es [] _ _ Hv0 Hrun) as Hv. simpl in Hv.
  destruct (actor_step (now y) cmd (st y) (sh y)) as [s w] eqn:E. injection Hstep as <-. simpl in Hnew.
  assert (replies w <> replies (sh y)) as Hch.
  { intros He. rewrite He in Hnew. rewrite <-(app_nil_r (replies (sh y))) in Hnew at 1. apply app_inv_head in Hnew as <-. set_solver. }
  assert (forall k relay r s0 s1 w1, wait_for_dial k relay r s0 (sh y) = (s1, w1) -> replies w1 = replies (sh y)) as Hwait
    by (unfold wait_for_dial; intros; case_match; by simplify_eq).
  destruct cmd; simpl in E.
  - unfold get_connection in E. destruct (connections (st y) !! host_id) as [c'|] eqn:Hc; [destruct (is_closed (sh y) c')|].
    1,3: by apply Hwait in E.
    destruct (semaphore_of _ _ _) as [[s1 w1] n] eqn:Es. apply semaphore_of_same in Es as (_ & _ & _ & Hw & _ & _ & Hr & _).
    injection E as <- <-. simpl in Hnew. rewrite Hr in Hnew. apply app_inv_head in Hnew as <-.
    apply list_elem_of_singleton in Hin. rewrite Hw in Hin. destruct (verified (st y) !! host_id) as [tv|] eqn:Ht; [|done].
    destruct (Z.leb_spec POOL_VERIFY_WINDOW (elapsed (now y) tv)); simplify_eq.
    destruct (Hv _ _ _ Hc Ht) as (cmd' & Hl & Hvc). exists host_id, tv, cmd'. split; [set_solver|]. split; [done|].
    unfold elapsed, sat_sub in *. lia.
  - unfold connect_done in E. destruct result as [c'|e].
    + destruct (semaphore_of _ _ _) as [[s1 w1] n] eqn:Es. apply semaphore_of_same in Es as (_ & _ & _ & _ & _ & _ & Hr & _).
      injection E as <- <-. simpl in Hnew. rewrite Hr in Hnew. apply app_inv_head in Hnew as <-.
      apply list_elem_of_fmap in Hin as (r & ? & _). simplify_eq. exists host_id, (now y), (ConnectDone host_id (inl c')).
      split; [set_solver|]. split; [done|]. rewrite Z.sub_diag. done.
    + injection E as <- <-. simpl in Hnew. apply app_inv_head in Hnew as <-. by apply list_elem_of_fmap in Hin as (r & ? & _).
  - unfold remove_connection in E. exfalso. apply Hch. repeat case_match; by simplify_eq.
  - unfold force_remove in E. exfalso. apply Hch. repeat case_match; by simplify_eq.
  - unfold replace_connection in E. exfalso. apply Hch. repeat case_match; by simplify_eq.
  - by simplify_eq.
  - by simplify_eq.
  - by simplify_eq.
  - unfold flush_all in E. by simplify_eq.
  - by simplify_eq.
  - exfalso. apply Hch. by simplify_eq.
Qed.

Lemma handed_out_vouched_witness :
  match sys_run (spawn_agent_actor 0) [Arrive host_a None false; ClientStep 0 Go; Actor; DialDone 0 (inl conn_a)] with
  | Some y => exists h t' cmd',
      (t', cmd') ∈ sys_log (spawn_agent_actor 0) [Arrive host_a None false; ClientStep 0 Go; Actor; DialDone 0 (inl conn_a)] ++ [(now y, ConnectDone host_a (inl conn_a))] /\
      vouches cmd' h conn_a /\ now y - t' < POOL_VERIFY_WINDOW
  | None => False
  end.
Proof.
  destruct (sys_run _ _) as [y|] eqn:E; [|by vm_compute in E].
  destruct (sys_step y Actor) as [y'|] eqn:Es; [|exfalso; vm_compute in E; injection E as <-; by vm_compute in Es].
  assert (queue y = [ConnectDone host_a (inl conn_a)] /\ replies (sh y') = replies (sh y) ++ [(0%nat, inl (conn_a, 0%nat, None))]) as [Hq Hr]
    by (vm_compute in E; injection E as <-; vm_compute in Es; injection Es as <-; by vm_compute).
  apply (handed_out_vouched 0 _ y _ [] y' 0%nat conn_a 0%nat _ E Hq Es Hr). by apply list_elem_of_singleton.
Defined.
