(* ===== verification/AgentTasks.v ===== *)
(** * AgentTasks: the agent's background tasks and main loop (hop-cli/src/agent.rs)

    Dialing with hedges and protocol fallback, the watchdog of silent connections, the
    quality probe that replaces degraded ones, and the [select!] loop of [run_agent].
    Time is nanoseconds on the monotonic clock; what the network does is a parameter. *)
From S2P Require Import Prelude Text Table Datastore Quality Agent.
Local Open Scope Z_scope.

(** ** Dialing *)
Definition is_alpn_rejection (msg : string) : bool :=
  contains "error 120" msg || contains "doesn't support any known protocol" msg.
Definition dial_result : Type := Connection + string.

Record Dials := {
  d_now : Z;
  launched : Z;
  (** Dials under way: when each ends, and how. *)
  running : list (Z * dial_result);
  last_err : option string;
}.
(** The dial that ends first, and the others. *)
Fixpoint earliest (l : list (Z * dial_result)) : option (Z * dial_result * list (Z * dial_result)) :=
  match l with
  | [] => None
  | x :: l =>
      match earliest l with
      | None => Some (x, [])
      | Some (y, rest) => if x.1 <=? y.1 then Some (x, y :: rest) else Some (y, x :: rest)
      end
  end.

Section Hedged.
(** The [n]-th dial, started at [t], ends at the first component. *)
Context (dial : Z -> Z -> Z * dial_result) (total : Z).

Definition timed_out : dial_result :=
  inr ("Connection timed out after " +:+ print_uint (total / NANOS) +:+
       "s. The host may be offline, behind a strict firewall, or unable to reach the relay.")%string.
Definition give_up_with (d : Dials) : Z * dial_result :=
  (d_now d, match last_err d with Some e => inr e | None => timed_out end).

(** [next_hedge] from now. *)
Definition wake_at (n now : Z) : Z :=
  now + (if n <? 3 then sat_sub (DIAL_HEDGE_AFTER * n) now else sat_sub total now).
Definition due (d : Dials) : bool := (launched d <? 3) && (DIAL_HEDGE_AFTER * launched d <=? d_now d).

(** One iteration: the state to go on with, or what is returned and when. *)
Definition hedge_step (d : Dials) : Dials + (Z * dial_result) :=
  if total <=? d_now d then inr (give_up_with d)
  else
    let n := if due d then launched d + 1 else launched d in
    let run := if due d then running d ++ [dial (launched d) (d_now d)] else running d in
    let wake := wake_at n (d_now d) in
    match earliest run with
    | Some (f, r, rest) =>
        if f <=? wake then
          let t := Z.max f (d_now d) in
          match r with
          | inl c => inr (t, inl c)
          | inr e =>
              let d := {| d_now := t; launched := n; running := rest; last_err := Some e |} in
              if is_alpn_rejection e then inr (t, inr e)
              else if bool_decide (rest = []) && (3 <=? n) then inr (give_up_with d)
              else inl d
          end
        else inl {| d_now := wake; launched := n; running := run; last_err := last_err d |}
    | None => inl {| d_now := wake; launched := n; running := run; last_err := last_err d |}
    end.
Fixpoint hedge_loop (fuel : nat) (d : Dials) : option (Z * dial_result) :=
  match fuel with
  | O => None
  | S fuel => match hedge_step d with inl d => hedge_loop fuel d | inr r => Some r end
  end.
Definition hedged_dial : option (Z * dial_result) :=
  hedge_loop 8 {| d_now := 0; launched := 0; running := []; last_err := None |}.
End Hedged.

(** [do_connect]: newest protocol first, one step down per refusal of the protocol. *)
Definition PROTOCOLS : list Alpn := [V4; V3; V2].
Fixpoint step_down (host : string) (attempt : Alpn -> dial_result) (last : option string) (l : list Alpn) : dial_result :=
  match l with
  | [] => inr (default ("no protocol version accepted by " +:+ host)%string last)
  | a :: l =>
      match attempt a with
      | inl c => inl c
      | inr e => if is_alpn_rejection e then step_down host attempt (Some e) l else inr e
      end
  end.
Definition do_connect (host : string) (attempt : Alpn -> dial_result) : dial_result := step_down host attempt None PROTOCOLS.

(** ** The watchdog

    A sample is what one poll finds: the time, the datagrams received, whether the
    connection is closed. *)
Record Sample := { at_time : Z; rx : Z; gone : bool }.
Inductive watch := Watching (last_rx last_progress : Z) | WatchDone | Zombie (t : Z).
Definition zombie_poll (w : watch) (s : Sample) : watch :=
  match w with
  | Watching last_rx last_progress =>
      if gone s then WatchDone
      else if negb (rx s =? last_rx) then Watching (rx s) (at_time s)
      else if ZOMBIE_STALL <=? elapsed (at_time s) last_progress then Zombie (at_time s)
      else w
  | _ => w
  end.
Definition zombie_watchdog (rx0 t0 : Z) (ss : list Sample) : watch := fold_left zombie_poll ss (Watching rx0 t0).

(** ** The main loop

    The branches of [select!] are made anew in every iteration; only the five-second
    interval outlives it. *)
Definition YIELD_EVERY : Z := from_secs 5.
Definition IDLE_POLL : Z := from_secs 30.
Inductive Branch := AcceptClient | Sigusr1 | Sigterm | Sigint | IdleTimeout | YieldCheck.
#[export] Instance Branch_eq : EqDecision Branch.
Proof. solve_decision. Defined.
Record MainLoop := { iteration_at : Z; tick_at : Z }.

(** When [check_idle_actor], started at [t], returns: at a poll that finds no session and
    an idle actor. *)
Definition check_idle_actor (idle_at : Z -> bool) (t r : Z) : Prop :=
  exists k : nat, r = t + IDLE_POLL * (Z.of_nat k + 1) /\ idle_at r = true /\
    forall j : nat, (j < k)%nat -> idle_at (t + IDLE_POLL * (Z.of_nat j + 1)) = false.

(** The branch is ready at that time in an iteration that starts as [l]. *)
Inductive ready (idle_at : Z -> bool) (outside : Branch -> Z -> Prop) (l : MainLoop) : Branch -> Z -> Prop :=
| ready_tick : ready idle_at outside l YieldCheck (Z.max (iteration_at l) (tick_at l))
| ready_idle r : check_idle_actor idle_at (iteration_at l) r -> ready idle_at outside l IdleTimeout r
| ready_outside b r : b <> YieldCheck -> b <> IdleTimeout -> iteration_at l <= r -> outside b r -> ready idle_at outside l b r.
Definition selects idle_at outside l b r : Prop :=
  ready idle_at outside l b r /\ forall b' r', ready idle_at outside l b' r' -> r <= r'.

(** One iteration that does not leave the loop: the branch taken, and the next one. *)
Inductive iteration (idle_at : Z -> bool) (outside : Branch -> Z -> Prop) : MainLoop -> Branch -> MainLoop -> Prop :=
| it_outside l b r t : selects idle_at outside l b r -> b = AcceptClient \/ b = Sigusr1 -> r <= t ->
    iteration idle_at outside l b {| iteration_at := t; tick_at := tick_at l |}
| it_yield l r t d : selects idle_at outside l YieldCheck r -> r <= t ->
    (* [MissedTickBehavior::Delay] *)
    d = tick_at l + YIELD_EVERY \/ d = r + YIELD_EVERY ->
    iteration idle_at outside l YieldCheck {| iteration_at := t; tick_at := d |}.
Inductive iterations (idle_at : Z -> bool) (outside : Branch -> Z -> Prop) : MainLoop -> MainLoop -> Prop :=
| its_start l : iterations idle_at outside l l
| its_more l b l' l'' : iterations idle_at outside l l' -> iteration idle_at outside l' b l'' -> iterations idle_at outside l l''.

(** ** The idle timeout never fires *)
Lemma tick_soon idle_at outside t0 l :
  iterations idle_at outside {| iteration_at := t0; tick_at := t0 |} l -> tick_at l <= iteration_at l + YIELD_EVERY.
Proof.
  remember {| iteration_at := t0; tick_at := t0 |} as l0 eqn:E. induction 1 as [l|l b l' l'' _ IH Hit]; subst; simpl.
  - assert (0 <= YIELD_EVERY) by done. lia.
  - specialize (IH eq_refl).
    destruct Hit as [l b r t [Hr _] Hb Ht|l r t d [Hr _] Ht Hd]; simpl.
    + destruct Hr as [|r (k & -> & _)|b r _ _ Hle _]; [by destruct Hb|by destruct Hb|lia].
    + inversion Hr; subst; [|done]. destruct Hd as [->| ->]; lia.
Qed.

(** C39.  The agent never shuts down for being idle: the five-second check ends every
    iteration of the main loop long before the idle check, started anew each time, has
    slept its thirty seconds.  Whatever arrives from outside and however long there has
    been no session, the idle branch is not taken. *)
Theorem idle_shutdown_never idle_at outside t0 l r :
  iterations idle_at outside {| iteration_at := t0; tick_at := t0 |} l -> ~ selects idle_at outside l IdleTimeout r.
Proof.
  intros Hits%tick_soon [Hr Hmin]. specialize (Hmin _ _ (ready_tick _ _ l)). inversion Hr as [|? (k & -> & _)|]; [|done].
  unfold YIELD_EVERY, IDLE_POLL, from_secs, NANOS in *. lia.
Qed.

Lemma idle_shutdown_never_witness :
  ~ selects (fun _ => true) (fun _ _ => False) {| iteration_at := 0; tick_at := 0 |} IdleTimeout IDLE_POLL.
Proof. apply (idle_shutdown_never (fun _ => true) (fun _ _ => False) 0). apply its_start. Defined.

(** ** Dialing *)
Section HedgedProofs.
Context (dial : Z -> Z -> Z * dial_result) (total : Z) (Htotal : DIAL_HEDGE_AFTER * 2 < total).

(** How many iterations are left at most. *)
Definition waits_left (d : Dials) : Z :=
  if total <=? d_now d then 0 else if launched d <? 3 then 3 - launched d + (if due d then 0 else 1) else 1.
Definition hedge_left (d : Dials) : Z :=
  waits_left d + Z.of_nat (length (running d)) + (3 - launched d) + 1.

Lemma earliest_length l x rest : earliest l = Some (x, rest) -> length l = S (length rest).
Proof.
  revert x rest. induction l as [|y l IH]; simpl; intros x rest; [done|].
  destruct (earliest l) as [[z r]|] eqn:E.
  - specialize (IH _ _ eq_refl). case_match; intros [= <- <-]; simpl; lia.
  - intros [= <- <-]. destruct l as [|z l]; [done|]. simpl in E. destruct (earliest l) as [[? ?]|]; [case_match|]; done.
Qed.

Definition hedge_ok (d : Dials) : Prop := 0 <= launched d <= 3 /\ 0 <= d_now d <= total.

Lemma wake_bounds n now : 0 <= n <= 3 -> now < total ->
  now <= wake_at total n now <= total /\ (if n <? 3 then DIAL_HEDGE_AFTER * n <= wake_at total n now else wake_at total n now = total).
Proof.
  intros Hn Hnow. unfold wake_at, sat_sub, DIAL_HEDGE_AFTER, from_secs, NANOS in *. destruct (Z.ltb_spec n 3); lia.
Qed.

Ltac zbool := repeat match goal with
  | |- context [?a <=? ?b] => destruct (Z.leb_spec a b)
  | |- context [?a <? ?b] => destruct (Z.ltb_spec a b)
  | H : context [?a <? ?b] |- _ => destruct (Z.ltb_spec a b)
  | H : context [?a <=? ?b] |- _ => destruct (Z.leb_spec a b)
  end.

Lemma hedge_progress d d' : hedge_ok d -> hedge_step dial total d = inl d' -> hedge_ok d' /\ hedge_left d' < hedge_left d.
Proof.
  intros [Hl Hn]. unfold hedge_step, hedge_ok, hedge_left.
  destruct (Z.leb_spec total (d_now d)) as [|Hlt]; [done|].
  set (n := if due d then launched d + 1 else launched d).
  assert (0 <= n <= 3) as Hn3 by (unfold n, due; zbool; simpl; lia).
  destruct (wake_bounds n (d_now d) Hn3 Hlt) as [Hw1 Hw2].
  set (run := if due d then _ else _).
  assert (Z.of_nat (length run) = Z.of_nat (length (running d)) + (n - launched d)) as Hrun
    by (unfold run, n; destruct (due d); rewrite ?length_app; simpl; lia).
  assert (waits_left d = if n <? 3 then 4 - n else 1) as Hw.
  { clear Hw1 Hw2 Hn3 Hrun. unfold waits_left, n. destruct (Z.leb_spec total (d_now d)); [lia|].
    destruct (due d) eqn:Hdue; unfold due in Hdue; zbool; simpl in Hdue; try done; lia. }
  rewrite Hw. destruct (earliest run) as [[[f r] rest]|] eqn:Er.
  - apply earliest_length in Er. destruct (Z.leb_spec f (wake_at total n (d_now d))).
    + destruct r as [c|e]; [done|]. destruct (is_alpn_rejection e); [done|]. destruct (bool_decide (rest = []) && (3 <=? n)); [done|].
      intros [= <-]. simpl. unfold waits_left; simpl. split; [lia|]. zbool; simpl; repeat case_match; lia.
    + intros [= <-]. simpl. unfold waits_left, due; simpl. split; [lia|]. zbool; simpl; zbool; simpl; lia.
  - intros [= <-]. simpl. unfold waits_left, due; simpl. split; [lia|]. zbool; simpl; zbool; simpl; lia.
Qed.

Lemma hedge_loop_returns fuel : forall d, hedge_ok d -> hedge_left d <= Z.of_nat fuel ->
  exists t r, hedge_loop dial total fuel d = Some (t, r) /\ 0 <= t <= total.
Proof.
  induction fuel as [|fuel IH]; intros d Hd Hf; simpl.
  { unfold hedge_left, waits_left in Hf. destruct Hd as [? ?]. zbool; repeat case_match; lia. }
  destruct (hedge_step dial total d) as [d'|[t r]] eqn:E.
  - destruct (hedge_progress _ _ Hd E). apply IH; [done|lia].
  - exists t, r. split; [done|]. destruct Hd as [Hl Hn]. revert E. unfold hedge_step.
    destruct (Z.leb_spec total (d_now d)) as [|Hlt]; [unfold give_up_with; intros [= <- <-]; lia|].
    set (n := if due d then launched d + 1 else launched d).
    assert (0 <= n <= 3) as Hn3 by (unfold n, due; zbool; simpl; lia).
    destruct (wake_bounds n (d_now d) Hn3 Hlt) as [Hw1 _].
    destruct (earliest _) as [[[f r0] rest]|]; [|done].
    destruct (Z.leb_spec f (wake_at total n (d_now d))); [|done].
    destruct r0 as [c|e]; [intros [= <- <-]; lia|]. destruct (is_alpn_rejection e); [intros [= <- <-]; lia|].
    destruct (bool_decide (rest = []) && (3 <=? n)); [|done]. unfold give_up_with. simpl. intros [= <- <-]. lia.
Qed.
End HedgedProofs.

(** The first of the three moments a dial is started at, no earlier than [back]. *)
Definition hedge_after (back : Z) : Z :=
  if back <=? 0 then 0 else if back <=? DIAL_HEDGE_AFTER then DIAL_HEDGE_AFTER else DIAL_HEDGE_AFTER * 2.

Section Recovers.
Context (dial : Z -> Z -> Z * dial_result) (c : Connection) (back delta : Z).
Context (Hback : back <= DIAL_HEDGE_AFTER * 2) (Hdelta : 0 <= delta <= MUX_DIAL_TIMEOUT - DIAL_HEDGE_AFTER * 2).
Context (Hdown : forall n s, s < back -> MUX_DIAL_TIMEOUT < (dial n s).1).
Context (Hup : forall n s, back <= s -> dial n s = (s + delta, inl c)).

Lemma step_started n s run f r rest :
  due {| d_now := s; launched := n; running := run; last_err := None |} = true -> s < MUX_DIAL_TIMEOUT ->
  earliest (run ++ [dial n s]) = Some (f, r, rest) ->
  hedge_step dial MUX_DIAL_TIMEOUT {| d_now := s; launched := n; running := run; last_err := None |} =
    if f <=? wake_at MUX_DIAL_TIMEOUT (n + 1) s then
      match r with
      | inl c => inr (Z.max f s, inl c)
      | inr e => hedge_step dial MUX_DIAL_TIMEOUT {| d_now := s; launched := n; running := run; last_err := None |}
      end
    else inl {| d_now := wake_at MUX_DIAL_TIMEOUT (n + 1) s; launched := n + 1; running := run ++ [dial n s]; last_err := None |}.
Proof.
  intros Hd Hs He. unfold hedge_step. rewrite Hd. cbn [d_now launched running]. rewrite He.
  rewrite (proj2 (Z.leb_gt _ _) Hs). cbn [last_err]. destruct (f <=? _); [|done]. by destruct r.
Qed.

Lemma hedged_recovers : hedged_dial dial MUX_DIAL_TIMEOUT = Some (hedge_after back + delta, inl c).
Proof.
  pose proof (Hdown 0 0) as D0. pose proof (Hdown 1 DIAL_HEDGE_AFTER) as D1.
  pose proof (Hup 0 0) as U0. pose proof (Hup 1 DIAL_HEDGE_AFTER) as U1.
  pose proof (Hup 2 (DIAL_HEDGE_AFTER * 2) Hback) as U2.
  destruct (dial 0 0) as [f0 r0] eqn:E0, (dial 1 DIAL_HEDGE_AFTER) as [f1 r1] eqn:E1.
  cbn [fst] in D0, D1.
  assert (MUX_DIAL_TIMEOUT = 10000000000 /\ DIAL_HEDGE_AFTER = 3000000000) as [HT HH] by done.
  assert (f0 = delta /\ r0 = inl c /\ back <= 0 \/ MUX_DIAL_TIMEOUT < f0 /\ 0 < back) as F0
    by (destruct (Z.le_gt_cases back 0); [left; specialize (U0 ltac:(lia)); by simplify_eq|right; lia]).
  assert (f1 = DIAL_HEDGE_AFTER + delta /\ r1 = inl c /\ back <= DIAL_HEDGE_AFTER \/ MUX_DIAL_TIMEOUT < f1 /\ DIAL_HEDGE_AFTER < back) as F1
    by (destruct (Z.le_gt_cases back DIAL_HEDGE_AFTER); [left; specialize (U1 ltac:(lia)); by simplify_eq|right; lia]).
  clear D0 D1 U0 U1. unfold hedged_dial, hedge_after. cbn [hedge_loop].
  rewrite (step_started 0 0 [] f0 r0 []) by (by rewrite ?E0).
  change (wake_at MUX_DIAL_TIMEOUT (0 + 1) 0) with DIAL_HEDGE_AFTER. rewrite E0.
  destruct (Z.leb_spec f0 DIAL_HEDGE_AFTER) as [Hf0|Hf0].
  { destruct F0 as [(-> & -> & ?)|]; [|lia]. destruct (Z.leb_spec back 0); [|lia]. by rewrite Z.max_l by lia. }
  change ([] ++ [(f0, r0)]) with [(f0, r0)]. change (0 + 1) with 1.
  assert (exists f r rest, earliest ([(f0, r0)] ++ [dial 1 DIAL_HEDGE_AFTER]) = Some (f, r, rest) /\ f = Z.min f0 f1 /\ (f1 < f0 -> r = r1) /\ (f0 <= f1 -> r = r0))
    as (f & r & rest & Hear & Hmin & Hr1 & Hr0).
  { rewrite E1. simpl. destruct (Z.leb_spec f0 f1); eexists _, _, _; (split; [reflexivity|]); split; [lia|split; [lia|done]|lia|split; [done|lia]]. }
  rewrite (step_started 1 DIAL_HEDGE_AFTER [(f0, r0)] f r rest) by done. clear Hear rest.
  change (wake_at MUX_DIAL_TIMEOUT (1 + 1) DIAL_HEDGE_AFTER) with (DIAL_HEDGE_AFTER * 2). rewrite E1.
  change ([(f0, r0)] ++ [(f1, r1)]) with [(f0, r0); (f1, r1)]. change (1 + 1) with 2.
  destruct (Z.leb_spec f (DIAL_HEDGE_AFTER * 2)) as [Hf|Hf].
  { destruct F0 as [(-> & -> & ?)|[? ?]].
    - rewrite Hr0 by lia. destruct (Z.leb_spec back 0); [|lia]. by rewrite Hmin, Z.min_l, Z.max_l by lia.
    - destruct F1 as [(-> & -> & ?)|]; [|lia]. rewrite Hr1 by lia.
      destruct (Z.leb_spec back 0); [lia|]. destruct (Z.leb_spec back DIAL_HEDGE_AFTER); [|lia]. by rewrite Hmin, Z.min_r, Z.max_l by lia. }
  destruct F0 as [(-> & -> & ?)|[? ?]]; [lia|].
  assert (exists g rest, earliest ([(f0, r0); (f1, r1)] ++ [dial 2 (DIAL_HEDGE_AFTER * 2)]) = Some (g, inl c, rest) /\ g = Z.min f1 (DIAL_HEDGE_AFTER * 2 + delta))
    as (g & rest & Hear & Hg).
  { rewrite U2. simpl. destruct F1 as [(-> & -> & ?)|[? ?]].
    - destruct (Z.leb_spec (DIAL_HEDGE_AFTER + delta) (DIAL_HEDGE_AFTER * 2 + delta)); [|lia]. simpl.
      destruct (Z.leb_spec f0 (DIAL_HEDGE_AFTER + delta)); [lia|]. eexists _, _. split; [reflexivity|lia].
    - destruct (Z.leb_spec f1 (DIAL_HEDGE_AFTER * 2 + delta)); [lia|]. simpl.
      destruct (Z.leb_spec f0 (DIAL_HEDGE_AFTER * 2 + delta)); [lia|]. eexists _, _. split; [reflexivity|lia]. }
  rewrite (step_started 2 (DIAL_HEDGE_AFTER * 2) _ g (inl c) rest) by done. 
  change (wake_at MUX_DIAL_TIMEOUT (2 + 1) (DIAL_HEDGE_AFTER * 2)) with MUX_DIAL_TIMEOUT.
  destruct (Z.leb_spec g MUX_DIAL_TIMEOUT); [|lia]. destruct (Z.leb_spec back 0); [lia|].
  destruct (Z.leb_spec back DIAL_HEDGE_AFTER); do 2 f_equal; lia.
Qed.
End Recovers.

(** An attempt to dial always ends within its ten seconds, whatever the up to three
    hedged dials do.  When the path is dead at first, for at most six seconds, so that
    dials started then hang, and one started later takes [delta], the attempt succeeds
    [delta] after the first hedge (at 0, 3 or 6 s) past that moment. *)
Theorem hedged_dial_correct dial :
  (exists t r, hedged_dial dial MUX_DIAL_TIMEOUT = Some (t, r) /\ 0 <= t <= MUX_DIAL_TIMEOUT) /\
  (forall c back delta, back <= DIAL_HEDGE_AFTER * 2 -> 0 <= delta <= MUX_DIAL_TIMEOUT - DIAL_HEDGE_AFTER * 2 ->
     (forall n s, s < back -> MUX_DIAL_TIMEOUT < (dial n s).1) ->
     (forall n s, back <= s -> dial n s = (s + delta, inl c)) ->
     hedged_dial dial MUX_DIAL_TIMEOUT = Some (hedge_after back + delta, inl c)).
Proof.
  split; [|intros c back delta; by apply hedged_recovers].
  unfold hedged_dial. apply hedge_loop_returns; done.
Qed.

(** The agent falls back to an older protocol only when the host refused the newer
    one: what it returns is the outcome of the newest protocol that was not refused, or
    the refusal of the oldest. *)
Theorem fallback_only_on_refusal host attempt :
  exists k a, PROTOCOLS !! k = Some a /\ do_connect host attempt = attempt a /\
    (forall j b, (j < k)%nat -> PROTOCOLS !! j = Some b -> exists e, attempt b = inr e /\ is_alpn_rejection e = true) /\
    (a = V2 \/ forall e, attempt a = inr e -> is_alpn_rejection e = false).
Proof.
  unfold do_connect, PROTOCOLS. simpl.
  destruct (attempt V4) as [c|e] eqn:E4; [|destruct (is_alpn_rejection e) eqn:R4].
  1,3: exists 0%nat, V4; split; [done|]; split; [done|]; split; [lia|]; right; intros; congruence.
  destruct (attempt V3) as [c|e3] eqn:E3; [|destruct (is_alpn_rejection e3) eqn:R3].
  1,3: exists 1%nat, V3; split; [done|]; split; [done|]; split;
    [intros [|j] b Hj Hb; [|lia]; simplify_eq/=; eauto|right; intros; congruence].
  exists 2%nat, V2. split; [done|]. split; [|split; [|by left]].
  - destruct (attempt V2) as [c|e2]; [done|]. by destruct (is_alpn_rejection e2).
  - intros [|[|j]] b Hj Hb; [..|lia]; simplify_eq/=; eauto.
Qed.

(** ** The watchdog *)
Definition in_order (t0 : Z) (ss : list Sample) : Prop := forall i s, ss !! i = Some s -> t0 <= at_time s /\
  forall j s', (i < j)%nat -> ss !! j = Some s' -> at_time s < at_time s'.

(** What the watchdog remembers: since [lp] every sample has shown [lr]. *)
Lemma watching_inv rx0 t0 ss : in_order t0 ss -> forall lr lp, zombie_watchdog rx0 t0 ss = Watching lr lp ->
  t0 <= lp /\ Forall (fun s => lp <= at_time s -> rx s = lr) ss /\ (lp = t0 \/ exists x, x ∈ ss /\ at_time x = lp).
Proof.
  induction ss as [|s ss IH] using rev_ind; intros Ho lr lp.
  { unfold zombie_watchdog. simpl. intros [= <- <-]. split; [lia|]. split; [constructor|by left]. }
  assert (in_order t0 ss) as Ho'.
  { intros i x Hi. destruct (Ho i x) as [? Hj]; [by apply lookup_app_l_Some|]. split; [done|].
    intros j x' Hij Hx'. apply (Hj j); [done|]. by apply lookup_app_l_Some. }
  assert (t0 <= at_time s) as Ht0.
  { destruct (Ho (length ss) s) as [? _]; [|done]. rewrite lookup_app_r, Nat.sub_diag by lia. done. }
  assert (Forall (fun x => at_time x < at_time s) ss) as Hle.
  { apply Forall_lookup. intros i x Hi. destruct (Ho i x) as [_ Hj]; [by apply lookup_app_l_Some|].
    apply (Hj (length ss)); [by eapply lookup_lt_Some|]. rewrite lookup_app_r, Nat.sub_diag by lia. done. }
  unfold zombie_watchdog in *. rewrite fold_left_app. simpl.
  destruct (fold_left zombie_poll ss (Watching rx0 t0)) as [lr0 lp0| |t] eqn:E; simpl; [|done..].
  destruct (IH Ho' _ _ eq_refl) as (H1 & H2 & H3).
  destruct (gone s) eqn:Eg; [done|]. destruct (Z.eqb_spec (rx s) lr0) as [Hr|Hr]; simpl.
  - case_match; [done|]. intros [= <- <-]. rewrite Forall_app, Forall_singleton. split; [done|]. split; [done|].
    destruct H3 as [->|(x & ? & ?)]; [by left|]. right. exists x. set_solver.
  - intros [= <- <-]. rewrite Forall_app, Forall_singleton. split; [done|]. split; [|right; exists s; set_solver]. split; [|done].
    eapply Forall_impl; [exact Hle|]. simpl. intros x Hx Hc. lia.
Qed.

Lemma zombie_stays ss : forall w, (forall lr lp, w <> Watching lr lp) -> fold_left zombie_poll ss w = w.
Proof. induction ss as [|s ss IH]; intros w Hw; [done|]. simpl. destruct w; [by destruct (Hw last_rx last_progress)|by apply IH..]. Qed.

Lemma in_order_prefix t0 l k : in_order t0 (l ++ k) -> in_order t0 l.
Proof.
  intros Ho i x Hi. destruct (Ho i x) as [? Hj]; [by apply lookup_app_l_Some|]. split; [done|].
  intros j x' Hij Hx'. apply (Hj j); [done|]. by apply lookup_app_l_Some.
Qed.

(** A run that ends in a zombie has a first sample at which it was found. *)
Lemma zombie_found rx0 t0 ss t : zombie_watchdog rx0 t0 ss = Zombie t ->
  exists pre s post lr lp, ss = pre ++ s :: post /\ zombie_watchdog rx0 t0 pre = Watching lr lp /\
   gone s = false /\ rx s = lr /\ at_time s = t /\ ZOMBIE_STALL <= elapsed t lp.
Proof.
  induction ss as [|s ss IH] using rev_ind; [done|]. unfold zombie_watchdog. rewrite fold_left_app. simpl.
  change (fold_left zombie_poll ss (Watching rx0 t0)) with (zombie_watchdog rx0 t0 ss).
  destruct (zombie_watchdog rx0 t0 ss) as [lr lp| |t'] eqn:E; simpl; [|done|].
  - destruct (gone s) eqn:Eg; [done|]. destruct (Z.eqb_spec (rx s) lr) as [Hr|Hr]; simpl; [|done].
    destruct (Z.leb_spec ZOMBIE_STALL (elapsed (at_time s) lp)); [|done]. intros [= <-].
    exists ss, s, [], lr, lp. done.
  - intros [= ->]. destruct (IH eq_refl) as (pre & s' & post & lr & lp & -> & Hrest).
    exists pre, s', (post ++ [s]), lr, lp. rewrite <-(assoc (++)). done.
Qed.

Lemma silence_closes lr mid : forall lp s, Forall (fun x => rx x = lr /\ gone x = false) mid -> s ∈ mid ->
  lp + ZOMBIE_STALL <= at_time s -> exists x, x ∈ mid /\ fold_left zombie_poll mid (Watching lr lp) = Zombie (at_time x) /\
    (forall pre y post, mid = pre ++ y :: post -> lp + ZOMBIE_STALL <= at_time y -> x ∈ pre ++ [y]).
Proof.
  induction mid as [|y mid IH]; intros lp s Hall Hs Ht; [by apply not_elem_of_nil in Hs|].
  apply Forall_cons in Hall as [[Hy1 Hy2] Hall]. simpl. rewrite Hy2, Hy1, Z.eqb_refl. simpl.
  unfold elapsed, sat_sub. destruct (Z.leb_spec ZOMBIE_STALL (0 `max` (at_time y - lp))) as [Hz|Hz].
  - exists y. split; [by left|]. split; [apply zombie_stays; done|].
    intros [|p pre] z post He Hpz; simplify_eq/=; set_solver.
  - apply elem_of_cons in Hs as [->|Hs]; [assert (0 < ZOMBIE_STALL) by done; lia|].
    destruct (IH lp s Hall Hs Ht) as (x & Hx & Hf & Hfirst). exists x. split; [by right|]. split; [done|].
    intros [|p pre] z post He Hpz; simplify_eq/=; [assert (0 < ZOMBIE_STALL) by done; lia|].
    right. by eapply Hfirst.
Qed.

(** The watchdog closes a connection only when every poll of the last fifteen seconds
    found the same count of received datagrams; and once polls find the same count for
    fifteen seconds it has closed it, at the first of them that far from the first. *)
Theorem zombie_watchdog_correct rx0 t0 ss :
  in_order t0 ss ->
  (forall t, zombie_watchdog rx0 t0 ss = Zombie t ->
     exists pre s post, ss = pre ++ s :: post /\ at_time s = t /\ gone s = false /\ t0 + ZOMBIE_STALL <= t /\
      Forall (fun x => t - ZOMBIE_STALL <= at_time x -> rx x = rx s) pre) /\
 (forall pre s1 mid s lr lp, ss = pre ++ s1 :: mid -> zombie_watchdog rx0 t0 pre = Watching lr lp ->
     Forall (fun x => rx x = rx s1 /\ gone x = false) (s1 :: mid) -> s ∈ mid -> at_time s1 + ZOMBIE_STALL <= at_time s ->
     exists t, zombie_watchdog rx0 t0 ss = Zombie t /\ t <= at_time s).
Proof.
  intros Ho. split.
  - intros t (pre & s & post & lr & lp & -> & Hw & Hg & Hr & Ht & Hz)%zombie_found.
    apply watching_inv in Hw as (H1 & H2 & _); [|by eapply in_order_prefix].
    assert (0 < ZOMBIE_STALL) by done. unfold elapsed, sat_sub in Hz.
    exists pre, s, post. repeat split; try done; [lia|]. eapply Forall_impl; [exact H2|]. simpl. intros x Hx Hle. rewrite Hx; [done|lia].
  - intros pre s1 mid s lr lp -> Hw Hall Hs Ht.
    apply Forall_cons in Hall as [[_ Hg1] Hall].
    assert (zombie_watchdog rx0 t0 (pre ++ s1 :: mid) = fold_left zombie_poll mid (zombie_poll (Watching lr lp) s1)) as ->
      by (unfold zombie_watchdog in *; by rewrite fold_left_app, Hw).
    apply watching_inv in Hw as (_ & _ & Hlp); [|by eapply in_order_prefix].
    assert (lp <= at_time s1) as Hlp1.
    { destruct (Ho (length pre) s1) as [H0 _]; [by rewrite list_lookup_middle|].
      destruct Hlp as [->|(x & [i Hi]%list_elem_of_lookup_1 & <-)]; [done|]. destruct (Ho i x) as [_ Hj]; [by apply lookup_app_l_Some|].
      apply Z.lt_le_incl, (Hj (length pre)); [by eapply lookup_lt_Some|by rewrite list_lookup_middle]. }
    assert (forall lp', lp' + ZOMBIE_STALL <= at_time s -> exists t, fold_left zombie_poll mid (Watching (rx s1) lp') = Zombie t /\ t <= at_time s) as Hfin.
    { intros lp' Hlp'. destruct (silence_closes (rx s1) mid lp' s Hall Hs Hlp') as (x & _ & Hf & Hfirst). exists (at_time x). split; [done|].
      apply list_elem_of_split in Hs as (l1 & l2 & ->). specialize (Hfirst l1 s l2 eq_refl Hlp').
      apply elem_of_app in Hfirst as [Hx| ->%list_elem_of_singleton]; [|done]. apply list_elem_of_lookup_1 in Hx as [i Hi].
      destruct (Ho (length pre + S i)%nat x) as [_ Hj].
      { rewrite lookup_app_r by lia. replace (length pre + S i - length pre)%nat with (S i) by lia. simpl. by apply lookup_app_l_Some. }
      apply Z.lt_le_incl, (Hj (length pre + S (length l1))%nat); [apply lookup_lt_Some in Hi; lia|].
      rewrite lookup_app_r by lia. replace (length pre + S (length l1) - length pre)%nat with (S (length l1)) by lia. simpl. by rewrite list_lookup_middle. }
    simpl. rewrite Hg1. destruct (Z.eqb_spec (rx s1) lr) as [<-|]; simpl; [|by apply Hfin].
    case_match; [|apply Hfin; lia]. exists (at_time s1). split; [apply zombie_stays; done|]. assert (0 < ZOMBIE_STALL) by done. lia.
Qed.

Definition steady_samples : list Sample :=
  [{| at_time := from_secs 3; rx := 4; gone := false |}; {| at_time := from_secs 18; rx := 4; gone := false |}].
Lemma zombie_watchdog_correct_witness :
  exists t, zombie_watchdog 0 0 steady_samples = Zombie t /\ t <= from_secs 18.
Proof.
  assert (in_order 0 steady_samples) as Ho.
  { intros [|[|i]] s Hi; simplify_eq/=; (split; [done|]); intros [|[|j]] s' Hj Hs; simplify_eq/=; try done; lia. }
  refine (proj2 (zombie_watchdog_correct 0 0 steady_samples Ho) [] _ _ {| at_time := from_secs 18; rx := 4; gone := false |} 0 0 eq_refl eq_refl _ _ _).
  - by repeat constructor.
  - by apply list_elem_of_singleton.
  - done.
Defined.

(** ** The quality probe *)
Record PathStats := { path_id : Z; lost_packets : Z; sent_packets : Z }.
Record Path := { is_relay : bool; path_stats : option PathStats }.
(** What one iteration finds: the connection, the ping, the path; and, should it come to
    that, the replacement's dial, ping and swap. *)
Record ProbeEnv := {
  e_closed : bool; e_rx : Z; e_rtt : option Z; e_closed_after : bool; e_path : option Path; e_now : Z;
  e_dial : dial_result; e_fresh_rtt : option Z; e_swapped : bool; e_fresh_rx : Z; e_fresh_path : option Path;
}.
Record Probe := {
  p_conn : Connection;
  p_q : QualityTracker;
  last_attempt : option Z;
  last_rx : Z;
  last_path : option PathStats;
}.
Inductive ProbeAction :=
| Skipped | Measured (v : Verdict) | ReplacementFailed | KeptAsNormal (fresh : Connection) | Replaced (old fresh : Connection).

(** The loss since the last probe on the same path, and the counters to remember. *)
Definition path_loss (last : option PathStats) (p : option Path) : option Float.f64 * option PathStats :=
  match p with
  | Some {| path_stats := Some s |} =>
      (match last with
       | Some l => if path_id l =? path_id s
                   then loss_fraction (sat_sub (lost_packets s) (lost_packets l)) (sat_sub (sent_packets s) (sent_packets l))
                   else None
       | None => None
       end, Some s)
  | _ => (None, last)
  end.

(** One iteration: [None] when the task ends. *)
Definition quality_probe (p : Probe) (e : ProbeEnv) : rust unit (option (Probe * ProbeAction)) :=
  if e_closed e then Ok None
  else if e_rx e =? last_rx p then Ok (Some (p, Skipped))
  else if e_closed_after e then Ok None
  else
    let '(loss, seen) := path_loss (last_path p) (e_path e) in
    '(q, v) ← record_with_loss (p_q p) (e_rtt e) (is_relay <$> e_path e) loss;
    let attempt a := {| p_conn := p_conn p; p_q := q; last_attempt := a; last_rx := e_rx e; last_path := seen |} in
    if negb (degraded q) || match last_attempt p with Some t => elapsed (e_now e) t <? REPLACE_COOLDOWN | None => false end
    then Ok (Some (attempt (last_attempt p), Measured v))
    else
      match e_dial e with
      | inr _ => Ok (Some (attempt (Some (e_now e)), ReplacementFailed))
      | inl fresh =>
          let fresh_rtt := if decide (alpn fresh = V4) then e_fresh_rtt e else None in
          better ← match fresh_rtt with Some new_rtt => replacement_is_better (Quality.last_rtt q) new_rtt | None => Ok false end;
          match fresh_rtt, (better : bool) with
          | Some new_rtt, true =>
              if e_swapped e then
                '(q, _) ← record QualityTracker_default (Some new_rtt) (is_relay <$> e_fresh_path e);
                Ok (Some ({| p_conn := fresh; p_q := q; last_attempt := None; last_rx := e_fresh_rx e; last_path := None |}, Replaced (p_conn p) fresh))
              else Ok None
          | _, _ =>
              Ok (Some ({| p_conn := p_conn p; p_q := rebase q; last_attempt := Some (e_now e); last_rx := e_rx e; last_path := seen |}, KeptAsNormal fresh))
          end
      end.
(** The probe of a connection of an older protocol never starts. *)
Definition spawn_quality_probe (c : Connection) (rx0 : Z) : option Probe :=
  if decide (alpn c = V4)
  then Some {| p_conn := c; p_q := QualityTracker_default; last_attempt := None; last_rx := rx0; last_path := None |}
  else None.

(** What the iterations do, in order, until the task ends. *)
Fixpoint probe_run (p : Probe) (es : list ProbeEnv) : rust unit (Probe * list ProbeAction) :=
  match es with
  | [] => Ok (p, [])
  | e :: es =>
      r ← quality_probe p e;
      match r with
      | None => Ok (p, [])
      | Some (p, a) => '(p, l) ← probe_run p es; Ok (p, a :: l)
      end
  end.

(** ** What the probe does with a degraded connection *)
Definition tracked (p : Probe) : Prop := exists h, represents (p_q p) h.

Lemma record_tracked q h rtt rel loss q' v :
  represents q h -> record_with_loss q rtt rel loss = Ok (q', v) -> represents q' (Probed rtt rel v :: h).
Proof. intros Hr Hv. apply (apply_op_represents q h (Quality.Probe rtt rel loss)); [done|]. simpl. by rewrite Hv. Qed.
Lemma rebase_tracked q h : represents q h -> represents (rebase q) (Rebased :: h).
Proof. intros Hr. by apply (apply_op_represents q h Rebase). Qed.

Definition worn (a : ProbeAction) : bool := match a with Measured v => negb (bool_decide (v = Good)) | ReplacementFailed => true | _ => false end.
Definition is_skipped (a : ProbeAction) : bool := match a with Skipped => true | _ => false end.
(** Bad probes in a row at the end of what was done, newest first. *)
Fixpoint worn_streak (l : list ProbeAction) : nat :=
  match l with [] => 0 | a :: l => if is_skipped a then worn_streak l else if worn a then S (worn_streak l) else 0 end.

(** A fresh connection starts with a good probe. *)
Lemma record_fresh r rel q v : record QualityTracker_default (Some r) rel = Ok (q, v) -> consecutive_bad q = 0.
Proof. unfold record, record_with_loss. simpl. destruct rel as [[]|]; simpl; intros [= <- _]; done. Qed.
Lemma record_bad q rtt rel loss q' v : record_with_loss q rtt rel loss = Ok (q', v) ->
  consecutive_bad q' = (if bool_decide (v = Good) then 0 else u32 (consecutive_bad q + 1)) /\ Quality.last_rtt q' = rtt.
Proof. unfold record_with_loss. intros Hv. rust_inv Hv. injection Hv as <- <-. by destruct a. Qed.

Definition attempted (a : ProbeAction) : bool := match a with ReplacementFailed | KeptAsNormal _ | Replaced _ _ => true | _ => false end.

Lemma probe_step_cases p e p' a : quality_probe p e = Ok (Some (p', a)) ->
  a = Skipped /\ p' = p \/
  exists q v seen, record_with_loss (p_q p) (e_rtt e) (is_relay <$> e_path e) (path_loss (last_path p) (e_path e)).1 = Ok (q, v) /\
    let cooled := match last_attempt p with Some t => REPLACE_COOLDOWN <= elapsed (e_now e) t | None => True end in
    match a with
    | Skipped => False
    | Measured v' => v' = v /\ p' = {| p_conn := p_conn p; p_q := q; last_attempt := last_attempt p; last_rx := e_rx e; last_path := seen |}
    | ReplacementFailed => degraded q = true /\ cooled /\ p_q p' = q /\ p_conn p' = p_conn p
    | KeptAsNormal f => degraded q = true /\ cooled /\ p_q p' = rebase q /\ p_conn p' = p_conn p
    | Replaced old f => degraded q = true /\ cooled /\ old = p_conn p /\ p_conn p' = f /\ alpn f = V4 /\ e_swapped e = true /\
        exists new v', e_fresh_rtt e = Some new /\ replacement_is_better (e_rtt e) new = Ok true /\
          record QualityTracker_default (Some new) (is_relay <$> e_fresh_path e) = Ok (p_q p', v')
    end.
Proof.
  unfold quality_probe. destruct (e_closed e); [done|]. destruct (e_rx e =? last_rx p); [intros [= <- <-]; by left|].
  destruct (e_closed_after e); [done|]. destruct (path_loss _ _) as [loss seen]. intros Hs. right.
  destruct (record_with_loss _ _ _ _) as [[q v]| |] eqn:Er; cbn [mbind rust_bind negb orb] in Hs; try done. exists q, v, seen. split; [done|].
  destruct (degraded q) eqn:Ed; cbn [mbind rust_bind negb orb] in Hs; [|by simplify_eq].
  assert (match last_attempt p with Some t => elapsed (e_now e) t <? REPLACE_COOLDOWN | None => false end = false ->
          match last_attempt p with Some t => REPLACE_COOLDOWN <= elapsed (e_now e) t | None => True end) as Hc
    by (destruct (last_attempt p); [lia|done]).
  destruct (match last_attempt p with Some t => elapsed (e_now e) t <? REPLACE_COOLDOWN | None => false end); [by simplify_eq|].
  specialize (Hc eq_refl). apply record_bad in Er as [_ Hrtt].
  destruct (e_dial e) as [f|err]; [|by simplify_eq/=]. case_decide as Ha; [destruct (e_fresh_rtt e) as [new|]|]; cbn [mbind rust_bind] in Hs; [|by simplify_eq..].
  rewrite Hrtt in Hs. destruct (replacement_is_better (e_rtt e) new) as [[]| |] eqn:Eb; cbn [mbind rust_bind] in Hs; simplify_eq; [|done].
  destruct (e_swapped e); [|done].
  destruct (record QualityTracker_default _ _) as [[q2 v2]| |] eqn:E2; cbn [mbind rust_bind] in Hs; simplify_eq. split_and!; try done. eauto.
Qed.

Lemma probe_tracked p e p' a : tracked p -> quality_probe p e = Ok (Some (p', a)) -> tracked p'.
Proof.
  intros [h Hr] [[_ ->]|(q & v & seen & Hv & Ha)]%probe_step_cases; [by exists h|].
  pose proof (record_tracked _ _ _ _ _ _ _ Hr Hv) as Hr'. unfold tracked. destruct a; [done|..].
  - destruct Ha as [-> ->]. eauto.
  - destruct Ha as (_ & _ & -> & _). eauto.
  - destruct Ha as (_ & _ & -> & _). eauto using rebase_tracked.
  - destruct Ha as (_ & _ & _ & _ & _ & _ & new & v' & _ & _ & Hf).
    exists [Probed (Some new) (is_relay <$> e_fresh_path e) v']. by eapply record_tracked; [apply represents_default|].
Qed.

(** The tracker's streak is that of the actions. *)
Lemma probe_streak p e p' a l :
  Z.of_nat (S (length l)) < 2 ^ 32 -> consecutive_bad (p_q p) = Z.of_nat (worn_streak l) ->
  quality_probe p e = Ok (Some (p', a)) ->
  consecutive_bad (p_q p') = Z.of_nat (worn_streak (a :: l)) /\ (attempted a = true -> (2 <= worn_streak l)%nat).
Proof.
  intros Hl Hc [[-> ->]|(q & v & seen & Hv & Ha)]%probe_step_cases; [done|].
  apply record_bad in Hv as [Hb _]. assert (worn_streak l <= length l)%nat as Hle.
  { clear. induction l as [|x l IH]; simpl; [lia|]. repeat case_match; lia. }
  assert (degraded q = true -> (2 <= worn_streak l)%nat /\ consecutive_bad q = Z.of_nat (S (worn_streak l))) as Hdeg.
  { unfold degraded, DEGRADED_AFTER. rewrite Z.leb_le, Hb, Hc. case_bool_decide; [lia|].
    unfold u32. rewrite Z.mod_small by lia. lia. }
  destruct a; simpl; [done|..].
  - destruct Ha as [-> ->]. simpl. rewrite Hb, Hc. case_bool_decide; simpl; [done|]. unfold u32. rewrite Z.mod_small by lia. split; [lia|done].
  - destruct Ha as (Hd & _ & -> & _). destruct (Hdeg Hd). split; [lia|done].
  - destruct Ha as (Hd & _ & -> & _). destruct (Hdeg Hd). done.
  - destruct Ha as (Hd & _ & _ & _ & _ & _ & new & v' & _ & _ & Hf). destruct (Hdeg Hd). apply record_fresh in Hf. split; [done|done].
Qed.

Lemma probe_run_streak es : forall p l0 p' l,
  Z.of_nat (length l0 + length es) < 2 ^ 32 - 1 -> consecutive_bad (p_q p) = Z.of_nat (worn_streak l0) ->
  probe_run p es = Ok (p', l) -> consecutive_bad (p_q p') = Z.of_nat (worn_streak (reverse l ++ l0)) /\ (length l <= length es)%nat.
Proof.
  induction es as [|e es IH]; intros p l0 p' l Hl Hc Hr; simpl in Hr; [by simplify_eq|].
  destruct (quality_probe p e) as [[[p1 a]|]| |] eqn:E; cbn [mbind rust_bind] in Hr; [|simplify_eq; split; [done|simpl; lia]|done..].
  destruct (probe_run p1 es) as [[p2 l2]| |] eqn:E2; cbn [mbind rust_bind] in Hr; simplify_eq. simpl in Hl.
  destruct (probe_streak _ _ _ _ l0 ltac:(simpl; lia) Hc E) as [Hc1 _].
  destruct (IH p1 (a :: l0) p' l2 ltac:(simpl; lia) Hc1 E2) as [Hx Hy]. rewrite reverse_cons, <-(assoc (++)). split; [done|simpl; lia].
Qed.

(** The probe dials a replacement only for a connection whose last two probes were bad
    as well as this one, and not within two minutes of the last attempt.  It swaps the
    replacement in only when that one speaks the current protocol, answered its ping, and
    is clearly faster than the old one's answer to this probe, or the old one gave none;
    and only if the pool still held the connection it measured. *)
Theorem probe_replaces_degraded c rx0 p0 es p l e p' a :
  Z.of_nat (length es) < 2 ^ 32 - 1 -> spawn_quality_probe c rx0 = Some p0 ->
  probe_run p0 es = Ok (p, l) -> quality_probe p e = Ok (Some (p', a)) -> attempted a = true ->
  ((2 <= worn_streak (reverse l))%nat) /\
  (forall t, last_attempt p = Some t -> REPLACE_COOLDOWN <= e_now e - t) /\
  (forall old f, a = Replaced old f -> old = p_conn p /\ p_conn p' = f /\ alpn f = V4 /\ e_swapped e = true /\
     exists new, e_fresh_rtt e = Some new /\ (forall r, e_rtt e = Some r -> new * 2 <= r \/ new + SLOW_MARGIN <= r)).
Proof.
  intros Hlen Hsp Hrun Hstep Ha. unfold spawn_quality_probe in Hsp. case_decide; simplify_eq.
  eapply (probe_run_streak es _ [] p l) in Hrun as [Hc Hl]; [|simpl; lia|done]. rewrite app_nil_r in Hc.
  destruct (probe_streak p e p' a (reverse l) ltac:(rewrite length_reverse; lia) Hc Hstep) as [_ Hs].
  split; [by apply Hs|]. apply probe_step_cases in Hstep as [[-> _]|(q & v & seen & _ & Hx)]; [done|].
  assert (0 < REPLACE_COOLDOWN) by done. split.
  - intros t Ht. rewrite Ht in Hx. unfold elapsed, sat_sub in Hx. destruct a; try done; destruct Hx as (_ & Hx & _); lia.
  - intros old f ->. destruct Hx as (_ & _ & -> & -> & Hal & Hsw & new & v' & Hn & Hb & _). split_and!; try done.
    exists new. split; [done|]. intros r Hr. rewrite Hr in Hb. unfold replacement_is_better, dur_mul, dur_add, dur_checked in Hb.
    repeat (case_match; simplify_eq/=); lia.
Qed.

(** A probe of a connection that answers within the band, not over the relay and without
    measured loss. *)
Definition calm (lo hi : Z) (e : ProbeEnv) : Prop :=
  (exists r, e_rtt e = Some r /\ lo <= r <= hi) /\ (is_relay <$> e_path e) <> Some true /\
  (forall last, match (path_loss last (e_path e)).1 with Some l => Float.f64_ge l LOSSY_FRACTION = false | None => True end).
Definition banded (lo hi : Z) (p : Probe) : Prop :=
  exists h, represents (p_q p) h /\ Forall (fun r => lo <= r <= hi) (goods h).

Section SlowPath.
Context (lo hi : Z) (Hlo : 0 <= lo) (Hhi : hi * SLOW_FACTOR <= DURATION_MAX).
Context (Hw : hi < lo * SLOW_FACTOR \/ hi < lo + SLOW_MARGIN).

Lemma calm_step p e : banded lo hi p -> calm lo hi e ->
  quality_probe p e = Ok None \/
  exists p' a, quality_probe p e = Ok (Some (p', a)) /\ banded lo hi p' /\ (a = Skipped \/ a = Measured Good).
Proof.
  intros (h & Hr & Hg) ((r & Hrtt & Hrr) & Hrel & Hloss). unfold quality_probe.
  destruct (e_closed e); [by left|]. destruct (e_rx e =? last_rx p); [right; eexists _, _; split; [done|]; split; [by exists h|by left]|].
  destruct (e_closed_after e); [by left|]. right. specialize (Hloss (last_path p)).
  destruct (path_loss (last_path p) (e_path e)) as [loss seen]. simpl in Hloss. rewrite Hrtt.
  destruct (steady_step lo hi Hlo Hhi (p_q p) h (Quality.Probe (Some r) (is_relay <$> e_path e) loss) Hw Hr Hg) as (q & r' & rel & Happ & Hr' & Hband); [done|].
  simpl in Happ. destruct (record_with_loss _ _ _ _) as [[q1 v]| |]; simplify_eq/=.
  assert (degraded q = false) as -> by (unfold degraded; by rewrite (rep_bad _ _ Hr')).
  simpl. eexists _, _. split; [done|]. split; [|by right]. eexists. split; [exact Hr'|]. by constructor.
Qed.

Lemma calm_run es : forall p, banded lo hi p -> Forall (calm lo hi) es ->
  exists p' l, probe_run p es = Ok (p', l) /\ Forall (fun a => a = Skipped \/ a = Measured Good) l.
Proof.
  induction es as [|e es IH]; intros p Hb Hes; [exists p, []; by split|]. apply Forall_cons in Hes as [He Hes]. cbn [probe_run].
  destruct (calm_step p e Hb He) as [->|(p1 & a & -> & Hb1 & Ha)]; cbn [mbind rust_bind]; [exists p, []; by split|].
  destruct (IH p1 Hb1 Hes) as (p2 & l & -> & Hl). exists p2, (a :: l). split; [done|]. by constructor.
Qed.

(** A path that is just slow is not redialed in a loop: after an attempt whose fresh
    connection was no better, the connection is kept, and as long as its probes stay in a
    band around the round trip it then showed, no probe is bad and no further replacement
    is dialed. *)
Theorem slow_path_not_redialed c rx0 p0 es0 p1 l e p f r es :
  spawn_quality_probe c rx0 = Some p0 -> probe_run p0 es0 = Ok (p1, l) ->
  quality_probe p1 e = Ok (Some (p, KeptAsNormal f)) -> e_rtt e = Some r -> lo <= r <= hi -> Forall (calm lo hi) es ->
  p_conn p = p_conn p1 /\
  exists p' l', probe_run p es = Ok (p', l') /\ Forall (fun a => a = Skipped \/ a = Measured Good) l'.
Proof.
  intros Hsp Hrun Hkept Hr Hband Hes. assert (tracked p1) as [h Ht].
  { unfold spawn_quality_probe in Hsp. case_decide; simplify_eq. clear -Hrun.
    assert (tracked {| p_conn := c; p_q := QualityTracker_default; last_attempt := None; last_rx := rx0; last_path := None |}) as Ht
      by (exists []; apply represents_default).
    revert Hrun Ht. generalize ({| p_conn := c; p_q := QualityTracker_default; last_attempt := None; last_rx := rx0; last_path := None |}).
    revert l. induction es0 as [|e es IH]; intros l p Hrun Ht; simpl in Hrun; [by simplify_eq|].
    destruct (quality_probe p e) as [[[p2 a]|]| |] eqn:E; cbn [mbind rust_bind] in Hrun; [|by simplify_eq|done..].
    destruct (probe_run p2 es) as [[p3 l3]| |] eqn:E2; cbn [mbind rust_bind] in Hrun; simplify_eq. eapply IH; [done|]. by eapply probe_tracked. }
  apply probe_step_cases in Hkept as [[? _]|(q & v & seen & Hv & _ & _ & Hq & Hconn)]; [done|].
  split; [done|]. apply calm_run; [|done]. exists (Rebased :: Probed (Some r) (is_relay <$> e_path e) v :: h).
  rewrite Hr in Hv. split; [rewrite Hq; by eapply rebase_tracked, record_tracked|]. simpl. by constructor.
Qed.
End SlowPath.

Definition probe_env (n rtt fresh : Z) : ProbeEnv :=
  {| e_closed := false; e_rx := n; e_rtt := Some (from_millis rtt); e_closed_after := false; e_path := None; e_now := from_secs n;
     e_dial := inl {| stable_id := 9; alpn := V4 |}; e_fresh_rtt := Some (from_millis fresh); e_swapped := true; e_fresh_rx := 0; e_fresh_path := None |}.
Definition probe_start : Probe := {| p_conn := conn_a; p_q := QualityTracker_default; last_attempt := None; last_rx := 0; last_path := None |}.
Definition slowing : list ProbeEnv := [probe_env 1 40 0; probe_env 2 900 0; probe_env 3 950 0].

Lemma probe_replaces_degraded_witness :
  match probe_run probe_start slowing with
  | Ok (p, l) => match quality_probe p (probe_env 4 900 50) with Ok (Some (p', a)) => (2 <= worn_streak (reverse l))%nat | _ => False end
  | _ => False
  end.
Proof.
  destruct (probe_run probe_start slowing) as [[p l]| |] eqn:E; [|by vm_compute in E..].
  destruct (quality_probe p (probe_env 4 900 50)) as [[[p' a]|]| |] eqn:Eq;
    [|exfalso; vm_compute in E; injection E as <- <-; by vm_compute in Eq..].
  apply (probe_replaces_degraded conn_a 0 probe_start slowing p l (probe_env 4 900 50) p' a); [done|reflexivity|exact E|exact Eq|].
  vm_compute in E. injection E as <- <-. vm_compute in Eq. by injection Eq as <- <-.
Defined.

Lemma slow_path_not_redialed_witness :
  match probe_run probe_start slowing with
  | Ok (p1, l) =>
      match quality_probe p1 (probe_env 4 900 880) with
      | Ok (Some (p, _)) => exists p' l', probe_run p [probe_env 5 870 0; probe_env 6 930 0] = Ok (p', l') /\ Forall (fun a => a = Skipped \/ a = Measured Good) l'
      | _ => False
      end
  | _ => False
  end.
Proof.
  destruct (probe_run probe_start slowing) as [[p1 l]| |] eqn:E; [|by vm_compute in E..].
  destruct (quality_probe p1 (probe_env 4 900 880)) as [[[p a]|]| |] eqn:Eq;
    [|exfalso; vm_compute in E; injection E as <- <-; by vm_compute in Eq..].
  assert (a = KeptAsNormal {| stable_id := 9; alpn := V4 |}) as ->
    by (vm_compute in E; injection E as <- <-; vm_compute in Eq; by injection Eq as <- <-).
  refine (proj2 (slow_path_not_redialed (from_millis 800) (from_millis 1000) _ _ _ conn_a 0 probe_start slowing p1 l (probe_env 4 900 880) p _ (from_millis 900) _ _ E Eq _ _ _)).
  - done.
  - done.
  - by right.
  - reflexivity.
  - reflexivity.
  - done.
  - repeat constructor; try (by eexists); done.
Defined.

Lemma hedged_dial_correct_witness :
  hedged_dial (fun _ s => if s <? from_secs 4 then (from_secs 20, timed_out MUX_DIAL_TIMEOUT) else (s + from_secs 1, inl conn_a)) MUX_DIAL_TIMEOUT =
    Some (from_secs 7, inl conn_a).
Proof.
  refine (proj2 (hedged_dial_correct _) conn_a (from_secs 4) (from_secs 1) _ _ _ _).
  - done.
  - done.
  - intros n s Hs. rewrite (proj2 (Z.ltb_lt s (from_secs 4)) Hs). done.
  - intros n s Hs. by rewrite (proj2 (Z.ltb_ge s (from_secs 4)) Hs).
Defined.
