(* ===== verification/Vt.v ===== *)
(** * Vt: repainting a captured terminal (hop-vt/src/lib.rs)

    [VtScreen] holds what the emulator keeps: the grid, the cursor and the modes.  The
    emulator itself (alacritty_terminal: parsing the application's output and reflowing on
    a resize) is a parameter.  What [render] writes is modelled as the characters whose
    UTF-8 encoding the code appends.  The receiver is a specification of a terminal: the
    control sequences of ECMA-48 and xterm that a repaint uses, with the deferred wrap at
    the right margin and erasing in the current background, as such terminals document. *)
From S2P Require Import Prelude Text.
Local Open Scope Z_scope.

(** ** The captured screen *)
Inductive Color := Named (n : Z) | Indexed (i : Z) | Spec (r g b : Z).
#[export] Instance Color_eq : EqDecision Color.
Proof. solve_decision. Defined.
(** The emulator's flags of a cell; [f_rest] are those a repaint does not look at. *)
Record Flags := {
  f_bold : bool; f_dim : bool; f_italic : bool; f_underline : bool; f_double_underline : bool; f_undercurl : bool;
  f_dotted_underline : bool; f_dashed_underline : bool; f_inverse : bool; f_hidden : bool;
  f_strikeout : bool; f_wide : bool; f_spacer : bool; f_rest : Z;
}.
(** [ALL_UNDERLINES]. *)
Definition f_underlines (f : Flags) : bool :=
  f_underline f || f_double_underline f || f_undercurl f || f_dotted_underline f || f_dashed_underline f.
#[export] Instance Flags_eq : EqDecision Flags.
Proof. solve_decision. Defined.
(** [cell_zerowidth]: the combining characters on the cell's character. *)
Record Cell := {
  cell_c : Z; cell_fg : Color; cell_bg : Color; cell_flags : Flags; cell_zerowidth : list Z; cell_underline_color : option Color;
}.
Definition no_flags : Flags :=
  {| f_bold := false; f_dim := false; f_italic := false; f_underline := false; f_double_underline := false; f_undercurl := false; f_dotted_underline := false;
     f_dashed_underline := false; f_inverse := false; f_hidden := false;
     f_strikeout := false; f_wide := false; f_spacer := false; f_rest := 0 |}.
Definition blank_cell : Cell := {| cell_c := 32; cell_fg := Named 256; cell_bg := Named 257; cell_flags := no_flags;
     cell_zerowidth := []; cell_underline_color := None |}.

Record TermMode := {
  alt_screen : bool; show_cursor : bool; app_cursor : bool; bracketed_paste : bool; focus_in_out : bool;
  mouse_report_click : bool; mouse_drag : bool; mouse_motion : bool; sgr_mouse : bool; app_keypad : bool;
  disambiguate_esc_codes : bool; report_event_types : bool; report_alternate_keys : bool;
  report_all_keys_as_esc : bool; report_associated_text : bool;
}.

(** What the application said outside the grid. *)
Record ScreenEvents := { ev_title : option string; ev_bells : Z }.
Inductive Event := Title (t : string) | ResetTitle | Bell | OtherEvent.
Definition send_event (ev : ScreenEvents) (e : Event) : ScreenEvents :=
  match e with
  | Title t => {| ev_title := if bool_decide (t = EmptyString) then None else Some t; ev_bells := ev_bells ev |}
  | ResetTitle => {| ev_title := None; ev_bells := ev_bells ev |}
  | Bell => {| ev_title := ev_title ev; ev_bells := sat_add64 (ev_bells ev) 1 |}
  | OtherEvent => ev
  end.

(** The emulator's state. *)
Record Term := { grid : list (list Cell); cursor : nat * nat; mode : TermMode }.
Class Emulator := {
  term_new : nat -> nat -> Term;
  (** One chunk of output: the new state and the events it raised. *)
  term_advance : Term -> bytes -> Term * list Event;
  term_resize : nat -> nat -> Term -> Term;
}.

Record FixedDims := { d_cols : nat; d_lines : nat }.
#[export] Instance FixedDims_eq : EqDecision FixedDims.
Proof. solve_decision. Defined.
Record VtScreen := { term : Term; dims : FixedDims; events : ScreenEvents }.

Section Screen.
Context `{!Emulator}.

Definition new (rows cols : nat) : VtScreen :=
  let rows := Nat.max rows 1 in
  let cols := Nat.max cols 1 in
  {| term := term_new rows cols; dims := {| d_cols := cols; d_lines := rows |}; events := {| ev_title := None; ev_bells := 0 |} |}.

Definition advance (s : VtScreen) (b : bytes) : VtScreen :=
  let '(t, evs) := term_advance (term s) b in
  {| term := t; dims := dims s; events := fold_left send_event evs (events s) |}.

Definition resize (s : VtScreen) (rows cols : nat) : VtScreen :=
  if (rows =? 0)%nat || (cols =? 0)%nat then s
  else
    let new := {| d_cols := cols; d_lines := rows |} in
    if bool_decide (new = dims s) then s
    else {| term := term_resize rows cols (term s); dims := new; events := events s |}.
End Screen.

Definition take_bells (s : VtScreen) : Z * VtScreen :=
  (ev_bells (events s), {| term := term s; dims := dims s; events := {| ev_title := ev_title (events s); ev_bells := 0 |} |}).
Definition is_alt_screen (s : VtScreen) : bool := alt_screen (mode (term s)).

(** [grid[Point]], inside the grid. *)
Definition row_at (s : VtScreen) (r : nat) : list Cell := default [] (grid (term s) !! r).
Definition text_rows (s : VtScreen) : list (list Z) :=
  (fun r => cell_c <$> take (d_cols (dims s)) (row_at s r)) <$> seq 0 (d_lines (dims s)).

(** ** What is written *)
Abbreviation text := (list Z).
Definition ESC : Z := 27.
Definition ascii_text (s : string) : text := str_bytes s.
Definition dec (n : Z) : text := ascii_text (print_uint n).
(** [ESC \[], a private marker or none, numbers separated by semicolons, the final byte. *)
Definition semis (ps : list Z) : text :=
  match ps with [] => [] | p :: ps => dec p ++ mjoin ((fun p => 59 :: dec p) <$> ps) end.
Definition csi (marker : option Z) (ps : list Z) (final : Z) : text :=
  ESC :: 91 :: (match marker with Some m => [m] | None => [] end) ++ semis ps ++ [final].

Definition dec_mode (on : bool) (code : Z) : text := csi (Some 63) [code] (if on then 104 else 108).

Definition kitty_flags (m : TermMode) : Z :=
  (if disambiguate_esc_codes m then 1 else 0) .| (if report_event_types m then 2 else 0) .| (if report_alternate_keys m then 4 else 0)
  .| (if report_all_keys_as_esc m then 8 else 0) .| (if report_associated_text m then 16 else 0).

Definition emit_private_modes (m : TermMode) : text :=
  dec_mode (show_cursor m) 25 ++ dec_mode (app_cursor m) 1 ++ dec_mode (bracketed_paste m) 2004 ++
  dec_mode (focus_in_out m) 1004 ++ dec_mode (mouse_report_click m) 1000 ++ dec_mode (mouse_drag m) 1002 ++
  dec_mode (mouse_motion m) 1003 ++ dec_mode (sgr_mouse m) 1006 ++
  [ESC; if app_keypad m then 61 else 62] ++ csi (Some 61) [kitty_flags m; 1] 117.

Definition color_params (color : Color) (is_fg : bool) : list Z :=
  let base := if is_fg then 30 else 40 in
  let bright_base := if is_fg then 90 else 100 in
  let default_code := if is_fg then 39 else 49 in
  let extended_lead := if is_fg then 38 else 48 in
  match color with
  | Named n => if n <? 8 then [base + n] else if n <? 16 then [bright_base + (n - 8)] else [default_code]
  | Indexed i => if i <? 8 then [base + i] else if i <? 16 then [bright_base + (i - 8)] else [extended_lead; 5; i]
  | Spec r g b => [extended_lead; 2; r; g; b]
  end.
Definition flag_params (f : Flags) : list Z :=
  (if f_bold f then [1] else []) ++ (if f_dim f then [2] else []) ++ (if f_italic f then [3] else []) ++
  (if f_underlines f then [4] else []) ++ (if f_inverse f then [7] else []) ++ (if f_hidden f then [8] else []) ++
  (if f_strikeout f then [9] else []).
Definition emit_sgr (c : Cell) : text :=
  csi None (0 :: flag_params (cell_flags c) ++ color_params (cell_fg c) true ++ color_params (cell_bg c) false) 109.

Inductive Prelude := Initial | Resize | Live.
Definition emit_prelude (s : VtScreen) (p : Prelude) : text :=
  match p with
  | Live => csi None [] 72 ++ csi None [0] 109
  | _ =>
      csi None [0] 109 ++ dec_mode (is_alt_screen s) 1049 ++
      (match p with Resize => csi None [] 114 | _ => [] end) ++
      csi None [2] 74 ++ csi None [] 72 ++ emit_private_modes (mode (term s))
  end.

Definition attrs (c : Cell) : Color * Color * Flags := (cell_fg c, cell_bg c, cell_flags c).
(** The cells of one row; [skip] when the cell before was a wide character. *)
Fixpoint paint (skip : bool) (last : option (Color * Color * Flags)) (l : list Cell) : text :=
  match l with
  | [] => []
  | c :: l =>
      if skip then paint false last l
      else if f_spacer (cell_flags c) then paint false last l
      else (if decide (last = Some (attrs c)) then [] else emit_sgr c) ++ [cell_c c] ++
           paint (f_wide (cell_flags c)) (Some (attrs c)) l
  end.

Definition render (s : VtScreen) (vp_rows vp_cols : nat) (p : Prelude) : text :=
  let vp_rows := Nat.max vp_rows 1 in
  let vp_cols := Nat.max vp_cols 1 in
  let render_rows := Nat.min (d_lines (dims s)) vp_rows in
  let render_cols := Nat.min (d_cols (dims s)) vp_cols in
  let row_offset := (d_lines (dims s) - render_rows)%nat in
  let rows := (fun vp_row =>
    csi None [Z.of_nat vp_row + 1; 1] 72 ++ paint false None (take render_cols (row_at s (vp_row + row_offset))) ++
    (if (render_cols <? vp_cols)%nat then csi None [] 75 else [])) <$> seq 0 render_rows in
  let '(cur_line, cur_col) := cursor (term s) in
  let '(r, c) :=
    if (row_offset <=? cur_line)%nat && (cur_line - row_offset <? render_rows)%nat && (cur_col <? render_cols)%nat
    then (Z.of_nat (cur_line - row_offset) + 1, Z.of_nat cur_col + 1) else (1, 1) in
  emit_prelude s p ++ mjoin rows ++ csi None [0] 109 ++ csi None [r; c] 72.

Definition render_full_repaint (s : VtScreen) : text := render s (d_lines (dims s)) (d_cols (dims s)) Initial.

(** ** The receiver *)
Inductive token := TChar (c : Z) | TEsc (c : Z) | TCsi (marker : option Z) (ps : list Z) (final : Z).
Inductive pstate := Ground | InEsc | InCsi (marker : option Z) (ps : list Z) (cur : option Z).
Definition is_dec (c : Z) : bool := (48 <=? c) && (c <=? 57).
(** The parameters collected, oldest first. *)
Definition params (ps : list Z) (cur : option Z) : list Z := ps ++ match cur with Some n => [n] | None => [] end.
Definition step_byte (st : pstate) (c : Z) : pstate * list token :=
  match st with
  | Ground => if c =? ESC then (InEsc, []) else (Ground, [TChar c])
  | InEsc => if c =? 91 then (InCsi None [] None, []) else (Ground, [TEsc c])
  | InCsi m ps cur =>
      if is_dec c then (InCsi m ps (Some (default 0 cur * 10 + (c - 48))), [])
      else if c =? 59 then (InCsi m (ps ++ [default 0 cur]) None, [])
      else if (c =? 63) || (c =? 61) then (InCsi (Some c) ps cur, [])
      else (Ground, [TCsi m (params ps cur) c])
  end.
Fixpoint lex (st : pstate) (l : text) : pstate * list token :=
  match l with
  | [] => (st, [])
  | c :: l => let '(st, t) := step_byte st c in let '(st, ts) := lex st l in (st, t ++ ts)
  end.

Inductive PColor := PDefault | PIndex (i : Z) | PRgb (r g b : Z).
Record Pen := {
  bold : bool; dim : bool; italic : bool; underline : bool; inverse : bool; hidden : bool; strikeout : bool;
  pen_fg : PColor; pen_bg : PColor;
}.
Definition default_pen : Pen :=
  {| bold := false; dim := false; italic := false; underline := false; inverse := false; hidden := false; strikeout := false;
     pen_fg := PDefault; pen_bg := PDefault |}.
Definition with_fg p c := {| bold := bold p; dim := dim p; italic := italic p; underline := underline p; inverse := inverse p;
  hidden := hidden p; strikeout := strikeout p; pen_fg := c; pen_bg := pen_bg p |}.
Definition with_bg p c := {| bold := bold p; dim := dim p; italic := italic p; underline := underline p; inverse := inverse p;
  hidden := hidden p; strikeout := strikeout p; pen_fg := pen_fg p; pen_bg := c |}.
Definition with_attr p n :=
  {| bold := bold p || (n =? 1); dim := dim p || (n =? 2); italic := italic p || (n =? 3); underline := underline p || (n =? 4);
     inverse := inverse p || (n =? 7); hidden := hidden p || (n =? 8); strikeout := strikeout p || (n =? 9);
     pen_fg := pen_fg p; pen_bg := pen_bg p |}.

(** Select graphic rendition. *)
Fixpoint sgr (p : Pen) (ps : list Z) : Pen :=
  match ps with
  | [] => p
  | n :: ps =>
      if n =? 0 then sgr default_pen ps
      else if in_range 1 9 n then sgr (with_attr p n) ps
      else if in_range 30 37 n then sgr (with_fg p (PIndex (n - 30))) ps
      else if in_range 90 97 n then sgr (with_fg p (PIndex (n - 90 + 8))) ps
      else if in_range 40 47 n then sgr (with_bg p (PIndex (n - 40))) ps
      else if in_range 100 107 n then sgr (with_bg p (PIndex (n - 100 + 8))) ps
      else if n =? 39 then sgr (with_fg p PDefault) ps
      else if n =? 49 then sgr (with_bg p PDefault) ps
      else if (n =? 38) || (n =? 48) then
        let set := if n =? 38 then with_fg p else with_bg p in
        match ps with
        | k :: i :: ps' =>
            if k =? 5 then sgr (set (PIndex i)) ps'
            else match ps' with g :: b :: ps'' => if k =? 2 then sgr (set (PRgb i g b)) ps'' else p | _ => p end
        | _ => p
        end
      else sgr p ps
  end.

(** A position shows a character or the second half of the wide one before it. *)
Inductive RCell := RChar (c : Z) (p : Pen) | RSpacer.
Definition erased (p : Pen) : RCell := RChar 32 (with_bg default_pen (pen_bg p)).

Record Recv := {
  r_rows : nat; r_cols : nat;
  cells : nat -> nat -> RCell;
  (** The buffer that is not shown. *)
  saved : nat -> nat -> RCell;
  on_alt : bool;
  at_row : nat; at_col : nat;
  wrap_next : bool;
  pen : Pen;
  modes : Z -> bool;
  keypad : bool;
  kitty : Z;
  region : option (nat * nat);
}.
Definition set_cells t f := {| r_rows := r_rows t; r_cols := r_cols t; cells := f; saved := saved t; on_alt := on_alt t; at_row := at_row t; at_col := at_col t;
  wrap_next := wrap_next t; pen := pen t; modes := modes t; keypad := keypad t; kitty := kitty t; region := region t |}.
Definition set_at t r c w := {| r_rows := r_rows t; r_cols := r_cols t; cells := cells t; saved := saved t; on_alt := on_alt t; at_row := r; at_col := c;
  wrap_next := w; pen := pen t; modes := modes t; keypad := keypad t; kitty := kitty t; region := region t |}.
Definition set_pen t p := {| r_rows := r_rows t; r_cols := r_cols t; cells := cells t; saved := saved t; on_alt := on_alt t; at_row := at_row t; at_col := at_col t;
  wrap_next := wrap_next t; pen := p; modes := modes t; keypad := keypad t; kitty := kitty t; region := region t |}.
Definition set_alt t c s a := {| r_rows := r_rows t; r_cols := r_cols t; cells := c; saved := s; on_alt := a; at_row := at_row t; at_col := at_col t;
  wrap_next := wrap_next t; pen := pen t; modes := modes t; keypad := keypad t; kitty := kitty t; region := region t |}.
Definition set_modes t m := {| r_rows := r_rows t; r_cols := r_cols t; cells := cells t; saved := saved t; on_alt := on_alt t; at_row := at_row t; at_col := at_col t;
  wrap_next := wrap_next t; pen := pen t; modes := m; keypad := keypad t; kitty := kitty t; region := region t |}.
Definition set_keys t a b := {| r_rows := r_rows t; r_cols := r_cols t; cells := cells t; saved := saved t; on_alt := on_alt t; at_row := at_row t; at_col := at_col t;
  wrap_next := wrap_next t; pen := pen t; modes := modes t; keypad := a; kitty := b; region := region t |}.
Definition set_region t x := {| r_rows := r_rows t; r_cols := r_cols t; cells := cells t; saved := saved t; on_alt := on_alt t; at_row := at_row t; at_col := at_col t;
  wrap_next := wrap_next t; pen := pen t; modes := modes t; keypad := keypad t; kitty := kitty t; region := x |}.

Section Receiver.
(** Columns a character takes, and whether the mouse modes share one setting, so that
    resetting any of them turns reporting off. *)
Context (width : Z -> nat) (one_mouse_mode : bool).

Definition put_at (f : nat -> nat -> RCell) (r c : nat) (x : RCell) : nat -> nat -> RCell :=
  fun r' c' => if decide (r' = r /\ c' = c) then x else f r' c'.
(** To the start of the next line; at the bottom the screen scrolls. *)
Definition wrap_line (t : Recv) : Recv :=
  if (S (at_row t) <? r_rows t)%nat then set_at t (S (at_row t)) 0 false
  else set_at (set_cells t (fun r c => if (S r <? r_rows t)%nat then cells t (S r) c else erased (pen t))) (at_row t) 0 false.
Definition put_char (t : Recv) (c : Z) : Recv :=
  let w := width c in
  let t := if wrap_next t || ((w =? 2)%nat && (r_cols t <=? S (at_col t))%nat) then wrap_line t else t in
  let f := put_at (cells t) (at_row t) (at_col t) (RChar c (pen t)) in
  let f := if (w =? 2)%nat then put_at f (at_row t) (S (at_col t)) RSpacer else f in
  let next := (at_col t + w)%nat in
  let t := set_cells t f in
  if (next <? r_cols t)%nat then set_at t (at_row t) next false else set_at t (at_row t) (r_cols t - 1) true.

Definition is_mouse (n : Z) : bool := (n =? 1000) || (n =? 1002) || (n =? 1003).
Definition set_mode (t : Recv) (n : Z) (on : bool) : Recv :=
  if n =? 1049 then
    if Bool.eqb on (on_alt t) then t
    else if on then set_alt t (fun _ _ => erased default_pen) (cells t) true
    else set_alt t (saved t) (saved t) false
  else if is_mouse n && one_mouse_mode
  then set_modes t (fun k => if is_mouse k then on && (k =? n) else modes t k)
  else set_modes t (fun k => if k =? n then on else modes t k).

Definition exec (t : Recv) (k : token) : Recv :=
  match k with
  | TChar c => put_char t c
  | TEsc c => if c =? 61 then set_keys t true (kitty t) else if c =? 62 then set_keys t false (kitty t) else t
  | TCsi None ps 72 =>
      let p i := Z.to_nat (Z.max 1 (default 1 (ps !! i)) - 1) in
      set_at t (Nat.min (p 0%nat) (r_rows t - 1)) (Nat.min (p 1%nat) (r_cols t - 1)) false
  | TCsi None ps 109 => set_pen t (sgr (pen t) ps)
  | TCsi None ps 74 => match ps with [2] => set_cells t (fun _ _ => erased (pen t)) | _ => t end
  | TCsi None ps 75 =>
      match ps with
      | [] => set_cells t (fun r c => if decide (r = at_row t) then if (at_col t <=? c)%nat then erased (pen t) else cells t r c else cells t r c)
      | _ => t
      end
  | TCsi None ps 114 => match ps with [] => set_at (set_region t None) 0 0 false | _ => t end
  | TCsi (Some 63) ps 104 => fold_left (fun t n => set_mode t n true) ps t
  | TCsi (Some 63) ps 108 => fold_left (fun t n => set_mode t n false) ps t
  | TCsi (Some 61) [n; 1] 117 => set_keys t (keypad t) n
  | _ => t
  end.
Definition receive (t : Recv) (l : text) : Recv := fold_left exec (lex Ground l).2 t.
End Receiver.

(** ** What is written is read back token by token *)
Lemma lex_app st a b : lex st (a ++ b) = let '(s, ts) := lex st a in let '(s', ts') := lex s b in (s', ts ++ ts').
Proof.
  revert st. induction a as [|c a IH]; intros st; simpl; [by destruct (lex st b)|].
  destruct (step_byte st c) as [s t]. rewrite IH. destruct (lex s a) as [s1 t1]. destruct (lex s1 b) as [s2 t2].
  by rewrite (assoc (++)).
Qed.

(** A text that leaves the receiver between sequences. *)
Definition whole (l : text) (ts : list token) : Prop := lex Ground l = (Ground, ts).
Lemma whole_app a b ts us : whole a ts -> whole b us -> whole (a ++ b) (ts ++ us).
Proof. unfold whole. intros Ha Hb. by rewrite lex_app, Ha, Hb. Qed.
Lemma whole_nil : whole [] [].
Proof. done. Qed.

Lemma lex_digits m ps s : forall cur n, digits_value (10 ^ 20) (default 0 cur) s = Some n -> s <> EmptyString ->
  lex (InCsi m ps cur) (str_bytes s) = (InCsi m ps (Some n), []).
Proof.
  induction s as [|c s IH]; intros cur n Hd Hne; [done|]. cbn [digits_value] in Hd. unfold digit_of in Hd.
  cbn [str_bytes lex step_byte]. unfold is_dec.
  destruct ((48 <=? ord c) && (ord c <=? 57)) eqn:Ec; [|done]. case_match; [|done].
  destruct s as [|c' s].
  - cbn [digits_value] in Hd. by simplify_eq/=.
  - by rewrite (IH (Some (default 0 cur * 10 + (ord c - 48))) n).
Qed.

Lemma lex_dec m ps n : 0 <= n < 10 ^ 20 -> lex (InCsi m ps None) (dec n) = (InCsi m ps (Some n), []).
Proof.
  intros Hn. unfold dec, ascii_text, print_uint. apply lex_digits.
  - rewrite digits_value_dec_digits; [done|change (10 ^ Z.of_nat 20) with (10 ^ 20); lia|lia].
  - destruct (dec_digits_cons 19 n EmptyString) as (c & s & ->). done.
Qed.

Lemma lex_semis m ps cur l : Forall (fun n => 0 <= n < 10 ^ 20) l ->
  lex (InCsi m ps (Some cur)) (mjoin ((fun p => 59 :: dec p) <$> l)) =
    match reverse (cur :: l) with n :: rest => (InCsi m (ps ++ reverse rest) (Some n), []) | [] => (Ground, []) end.
Proof.
  revert ps cur. induction l as [|n l IH]; intros ps cur Hl.
  { simpl. change (reverse [cur]) with [cur]. cbn. by rewrite app_nil_r. }
  apply Forall_cons in Hl as [Hn Hl]. cbn -[lex reverse dec app]. rewrite lex_app.
  change (lex (InCsi m ps (Some cur)) (59 :: dec n)) with (let '(s, t) := lex (InCsi m (ps ++ [cur]) None) (dec n) in (s, [] ++ t)).
  rewrite lex_dec by done. cbn [app]. rewrite IH by done. rewrite (reverse_cons (n :: l) cur).
  destruct (reverse (n :: l)) as [|k rest] eqn:E; [by apply (f_equal reverse) in E; rewrite reverse_involutive in E|].
  simpl. rewrite reverse_snoc. by rewrite <-(assoc (++)).
Qed.

Definition plain_final (c : Z) : Prop := is_dec c = false /\ c <> 59 /\ c <> 61 /\ c <> 63.
Definition good_marker (m : option Z) : Prop := m = None \/ m = Some 63 \/ m = Some 61.

Lemma whole_csi m ps f : good_marker m -> Forall (fun n => 0 <= n < 10 ^ 20) ps -> plain_final f -> whole (csi m ps f) [TCsi m ps f].
Proof.
  intros Hm Hps (Hf1 & Hf2 & Hf3 & Hf4). unfold whole, csi.
  assert (forall l, lex Ground (ESC :: 91 :: (match m with Some m => [m] | None => [] end) ++ l) = lex (InCsi m [] None) l) as Hpre.
  { intros l. destruct Hm as [->|[->| ->]]; cbn; by destruct (lex _ l). }
  rewrite Hpre, lex_app.
  assert (lex (InCsi m [] None) (semis ps) = match reverse ps with n :: rest => (InCsi m (reverse rest) (Some n), []) | [] => (InCsi m [] None, []) end) as ->.
  { destruct ps as [|p ps]; [done|]. apply Forall_cons in Hps as [Hp Hps]. unfold semis. rewrite lex_app, lex_dec, lex_semis by done.
    simpl. destruct (reverse (p :: ps)) as [|n rest] eqn:E; [|done]. by apply (f_equal reverse) in E; rewrite reverse_involutive in E. }
  assert (forall qs cur, lex (InCsi m qs cur) [f] = (Ground, [TCsi m (params qs cur) f])) as Hfin.
  { intros qs cur. cbn. rewrite Hf1. destruct (Z.eqb_spec f 59); [done|]. destruct (Z.eqb_spec f 63); [done|]. destruct (Z.eqb_spec f 61); [done|]. done. }
  destruct (reverse ps) as [|n rest] eqn:E; rewrite Hfin; cbn.
  - by apply (f_equal reverse) in E; rewrite reverse_involutive in E; subst.
  - apply (f_equal reverse) in E. rewrite reverse_involutive, reverse_cons in E. by subst.
Qed.

Lemma whole_char c : c <> ESC -> whole [c] [TChar c].
Proof. intros Hc. unfold whole. simpl. by destruct (Z.eqb_spec c ESC). Qed.

Section Receive.
Context (width : Z -> nat) (one_mouse_mode : bool).
Abbreviation receive := (receive width one_mouse_mode).
Abbreviation exec := (exec width one_mouse_mode).

Lemma receive_app t a b ts : whole a ts -> receive t (a ++ b) = receive (fold_left exec ts t) b.
Proof.
  unfold whole, Vt.receive. intros Ha. rewrite lex_app, Ha. destruct (lex Ground b) as [s us]. simpl. by rewrite fold_left_app.
Qed.
Lemma receive_whole t a ts : whole a ts -> receive t a = fold_left exec ts t.
Proof. unfold whole, Vt.receive. by intros ->. Qed.

(** ** Graphic rendition *)
Definition pcolor (c : Color) : PColor :=
  match c with Named n => if n <? 16 then PIndex n else PDefault | Indexed i => PIndex i | Spec r g b => PRgb r g b end.
Definition pen_attrs (a : Color * Color * Flags) : Pen :=
  let '(fg, bg, f) := a in
  {| bold := f_bold f; dim := f_dim f; italic := f_italic f; underline := f_underlines f; inverse := f_inverse f;
     hidden := f_hidden f; strikeout := f_strikeout f; pen_fg := pcolor fg; pen_bg := pcolor bg |}.
Definition valid_color (c : Color) : Prop :=
  match c with Named n => 0 <= n < 2 ^ 16 | Indexed i => is_u8 i | Spec r g b => is_u8 r /\ is_u8 g /\ is_u8 b end.
#[local] Instance valid_color_dec c : Decision (valid_color c).
Proof. destruct c; apply _. Defined.

Lemma sgr_flags f rest : sgr default_pen (flag_params f ++ rest) = sgr (with_bg (with_fg (pen_attrs (Named 256, Named 256, f)) PDefault) PDefault) rest.
Proof.
  unfold flag_params, pen_attrs. generalize (f_underlines f). intros u. destruct f as [[] [] [] ? ? ? ? ? [] [] [] ? ? ?]; destruct u; reflexivity.
Qed.

Lemma eight (P : Z -> Prop) : P 0 -> P 1 -> P 2 -> P 3 -> P 4 -> P 5 -> P 6 -> P 7 -> forall n, 0 <= n < 8 -> P n.
Proof.
  intros. assert (n = 0 \/ n = 1 \/ n = 2 \/ n = 3 \/ n = 4 \/ n = 5 \/ n = 6 \/ n = 7) as Hn by lia.
  by destruct Hn as [->|[->|[->|[->|[->|[->|[->| ->]]]]]]].
Qed.
Definition set_color (is_fg : bool) : Pen -> PColor -> Pen := if is_fg then with_fg else with_bg.
Lemma sgr_basic p (is_fg : bool) rest n : 0 <= n < 8 ->
  sgr p ((if is_fg then 30 else 40) + n :: rest) = sgr (set_color is_fg p (PIndex n)) rest.
Proof. revert n. by apply eight; destruct is_fg. Qed.
Lemma sgr_bright p (is_fg : bool) rest n : 0 <= n < 8 ->
  sgr p ((if is_fg then 90 else 100) + n :: rest) = sgr (set_color is_fg p (PIndex (8 + n))) rest.
Proof. revert n. by apply eight; destruct is_fg. Qed.
Lemma sgr_color p c (is_fg : bool) rest : valid_color c ->
  sgr p (color_params c is_fg ++ rest) = sgr (set_color is_fg p (pcolor c)) rest.
Proof.
  intros Hc. destruct c as [n|i|r g b]; cbn [color_params pcolor valid_color] in *.
  - destruct (Z.ltb_spec n 8); cbn [app].
    { rewrite (proj2 (Z.ltb_lt n 16)) by lia. apply sgr_basic. lia. }
    destruct (Z.ltb_spec n 16); cbn [app]; [|by destruct is_fg]. rewrite sgr_bright by lia. do 3 f_equal. lia.
  - unfold is_u8 in Hc. destruct (Z.ltb_spec i 8); cbn [app]; [apply sgr_basic; lia|].
    destruct (Z.ltb_spec i 16); cbn [app]; [|by destruct is_fg]. rewrite sgr_bright by lia. do 3 f_equal. lia.
  - by destruct is_fg.
Qed.

Definition valid_cell (c : Cell) : Prop := valid_color (cell_fg c) /\ valid_color (cell_bg c).
Lemma color_params_bounded c is_fg : valid_color c -> Forall (fun n => 0 <= n < 10 ^ 20) (color_params c is_fg).
Proof.
  destruct c as [n|i|r g b], is_fg; cbn [color_params valid_color]; unfold is_u8; intros Hc;
    repeat case_match; repeat constructor; lia.
Qed.
Lemma flag_params_bounded f : Forall (fun n => 0 <= n < 10 ^ 20) (flag_params f).
Proof. unfold flag_params. rewrite !Forall_app. repeat split; case_match; repeat constructor; done. Qed.

Definition sgr_token (c : Cell) : token :=
  TCsi None (0 :: flag_params (cell_flags c) ++ color_params (cell_fg c) true ++ color_params (cell_bg c) false) 109.
Lemma whole_sgr c : valid_cell c -> whole (emit_sgr c) [sgr_token c].
Proof.
  intros [Hf Hb]. apply whole_csi; [by left| |done]. constructor; [done|].
  rewrite !Forall_app. split; [apply flag_params_bounded|]. split; by apply color_params_bounded.
Qed.
Lemma exec_sgr t c : valid_cell c -> exec t (sgr_token c) = set_pen t (pen_attrs (attrs c)).
Proof.
  intros [Hf Hb]. cbn [Vt.exec sgr_token]. f_equal. cbn [sgr]. rewrite (proj2 (Z.eqb_eq 0 0)) by done.
  rewrite sgr_flags, sgr_color by done. rewrite <-(app_nil_r (color_params (cell_bg c) false)), sgr_color by done. done.
Qed.

(** ** One row *)
Definition shown (c : Cell) : RCell := if f_spacer (cell_flags c) then RSpacer else RChar (cell_c c) (pen_attrs (attrs c)).
(** The cell after a wide character is its spacer, and only that one; characters are as
    wide as the emulator took them to be. *)
Fixpoint wf_cells (after_wide : bool) (l : list Cell) : Prop :=
  match l with
  | [] => after_wide = false
  | c :: l =>
      f_spacer (cell_flags c) = after_wide /\
      (after_wide = false -> valid_cell c /\ cell_c c <> ESC /\ width (cell_c c) = if f_wide (cell_flags c) then 2%nat else 1%nat) /\
      wf_cells (negb after_wide && f_wide (cell_flags c)) l
  end.

(** The receiver is about to write column [k] of row [r]; past the last one it will wrap. *)
Definition ready_at (t : Recv) (r k : nat) : Prop :=
  at_row t = r /\ ((k < r_cols t)%nat /\ at_col t = k /\ wrap_next t = false \/ k = r_cols t /\ at_col t = (r_cols t - 1)%nat /\ wrap_next t = true).
(** What painting leaves alone. *)
Definition same_frame (t t' : Recv) : Prop :=
  r_rows t' = r_rows t /\ r_cols t' = r_cols t /\ saved t' = saved t /\ on_alt t' = on_alt t /\ modes t' = modes t /\
  keypad t' = keypad t /\ kitty t' = kitty t /\ region t' = region t.
Lemma same_frame_refl t : same_frame t t.
Proof. by repeat split. Qed.
Lemma same_frame_trans t u v : same_frame t u -> same_frame u v -> same_frame t v.
Proof. unfold same_frame. intros (?&?&?&?&?&?&?&?) (?&?&?&?&?&?&?&?). split_and!; congruence. Qed.

Lemma put_char_ready t r k c w : ready_at t r k -> width c = w -> (w = 1 \/ w = 2)%nat -> (k + w <= r_cols t)%nat ->
  ready_at (put_char width t c) r (k + w) /\ same_frame t (put_char width t c) /\ pen (put_char width t c) = pen t /\
  (forall r' c', cells (put_char width t c) r' c' =
     if decide (r' = r /\ c' = k) then RChar c (pen t)
     else if decide (r' = r /\ w = 2%nat /\ c' = S k) then RSpacer else cells t r' c').
Proof.
  intros [Hr Hk] Hw Hw12 Hle. destruct Hk as [(Hk & Hc & Hwn)|(-> & _)]; [|lia]. unfold put_char. rewrite Hw, Hwn.
  assert ((w =? 2)%nat && (r_cols t <=? S (at_col t))%nat = false) as ->.
  { destruct (Nat.eqb_spec w 2); [|done]. simpl. apply Nat.leb_gt. lia. }
  cbn [orb]. rewrite Hr, Hc. cbn [r_cols set_cells set_at].
  assert (forall r' c', (if (w =? 2)%nat then put_at (put_at (cells t) r k (RChar c (pen t))) r (S k) RSpacer else put_at (cells t) r k (RChar c (pen t))) r' c' =
     if decide (r' = r /\ c' = k) then RChar c (pen t) else if decide (r' = r /\ w = 2%nat /\ c' = S k) then RSpacer else cells t r' c') as Hcells.
  { intros r' c'. unfold put_at. destruct (Nat.eqb_spec w 2) as [->|Hn]; repeat case_decide; try done; exfalso; naive_solver lia. }
  destruct (Nat.ltb_spec (k + w) (r_cols t)) as [Hlt|Hge]; cbn; (split; [|split; [by repeat split|split; [done|exact Hcells]]]).
  - split; [done|]. left. cbn. done.
  - split; [done|]. right. cbn. split; [lia|done].
Qed.

(** The last cell drawn. *)
Fixpoint last_drawn (l : list Cell) : option Cell :=
  match l with
  | [] => None
  | c :: l => match last_drawn l with Some d => Some d | None => if f_spacer (cell_flags c) then None else Some c end
  end.
Definition pen_after (t : Recv) (l : list Cell) : Pen :=
  match last_drawn l with Some c => pen_attrs (attrs c) | None => pen t end.

Record painted (t t' : Recv) (r k : nat) (l : list Cell) : Prop := {
  pt_ready : ready_at t' r (k + length l);
  pt_frame : same_frame t t';
  pt_pen : pen t' = pen_after t l;
  pt_cells : forall r' c', cells t' r' c' =
    if decide (r' = r /\ (k <= c')%nat /\ (c' < k + length l)%nat)
    then match l !! (c' - k)%nat with Some c => shown c | None => RSpacer end
    else cells t r' c';
}.

(** One cell, with the rendition it needs. *)
Lemma paint_cell c last : valid_cell c -> cell_c c <> ESC ->
  exists ts, whole ((if decide (last = Some (attrs c)) then [] else emit_sgr c) ++ [cell_c c]) ts /\
    forall t, (forall a, last = Some a -> pen t = pen_attrs a) ->
      fold_left exec ts t = put_char width (set_pen t (pen_attrs (attrs c))) (cell_c c).
Proof.
  intros Hv He. case_decide as Hl.
  - exists [TChar (cell_c c)]. split; [by apply whole_char|]. intros t Hp. cbn [fold_left Vt.exec].
    rewrite <-(Hp _ Hl). by destruct t.
  - exists ([sgr_token c] ++ [TChar (cell_c c)]). split; [apply whole_app; [by apply whole_sgr|by apply whole_char]|].
    intros t _. cbn [fold_left app]. by rewrite exec_sgr.
Qed.

(** A cell with its spacer, then the rest of the row. *)
Lemma painted_cons c w t r k sp l2 t1 t2 :
  f_spacer (cell_flags c) = false -> (w = 1 \/ w = 2)%nat -> length sp = (w - 1)%nat -> Forall (fun d => f_spacer (cell_flags d) = true) sp ->
  painted t1 t2 r (k + w) l2 -> same_frame t t1 -> pen t1 = pen_attrs (attrs c) ->
  (forall r' c', cells t1 r' c' = if decide (r' = r /\ c' = k) then RChar (cell_c c) (pen_attrs (attrs c))
     else if decide (r' = r /\ w = 2%nat /\ c' = S k) then RSpacer else cells t r' c') ->
  painted t t2 r k (c :: sp ++ l2).
Proof.
  intros Hsp Hw Hl Hsps [R2 F2 P2 C2] F1 P1 C1. split.
  - simpl. rewrite length_app, Hl. replace (k + S (w - 1 + length l2))%nat with (k + w + length l2)%nat by lia. done.
  - by eapply same_frame_trans.
  - rewrite P2. unfold pen_after. cbn [last_drawn].
    assert (last_drawn (sp ++ l2) = last_drawn l2) as ->.
    { clear -Hsps. induction sp as [|d sp IH]; [done|]. apply Forall_cons in Hsps as [Hd Hsps]. simpl. rewrite IH, Hd by done. by destruct (last_drawn l2). }
    rewrite Hsp. destruct (last_drawn l2); done.
  - intros r' c'. rewrite C2, C1. simpl. rewrite length_app, Hl.
    destruct (decide (r' = r)) as [->|Hr]; [|by rewrite !decide_False by naive_solver].
    destruct (decide (c' = k)) as [->|Hk].
    { rewrite decide_False, decide_True, decide_True by lia. rewrite Nat.sub_diag. simpl. unfold shown. by rewrite Hsp. }
    destruct (decide (w = 2%nat /\ c' = S k)) as [[-> ->]|Hk2].
    { rewrite decide_False, decide_False, decide_True, decide_True by lia.
      replace (S k - k)%nat with 1%nat by lia. destruct sp as [|d [|? ?]]; simplify_eq/=. apply Forall_cons in Hsps as [Hd _].
      unfold shown. by rewrite Hd. }
    destruct (decide (k + w <= c' < k + w + length l2)%nat) as [Hin|Hout].
    + rewrite decide_True, decide_True by lia.
      replace (c' - k)%nat with (S (length sp + (c' - (k + w))))%nat by lia. simpl. rewrite lookup_app_r by lia. by replace (length sp + (c' - (k + w)) - length sp)%nat with (c' - (k + w))%nat by lia.
    + by rewrite !decide_False by lia.
Qed.

Lemma paint_row n : forall l last, (length l <= n)%nat -> wf_cells false l ->
  exists ts, whole (paint false last l) ts /\
    forall t r k, ready_at t r k -> (k + length l <= r_cols t)%nat -> (forall a, last = Some a -> pen t = pen_attrs a) ->
      painted t (fold_left exec ts t) r k l.
Proof.
  induction n as [|n IH]; intros l last Hn Hwf.
  { destruct l; [|simpl in Hn; lia]. exists []. split; [done|]. intros t r k Hr _ _. split; simpl; [by rewrite Nat.add_0_r|apply same_frame_refl|done|].
    intros r' c'. rewrite decide_False by lia. done. }
  destruct l as [|c l].
  { exists []. split; [done|]. intros t r k Hr _ _. split; simpl; [by rewrite Nat.add_0_r|apply same_frame_refl|done|].
    intros r' c'. rewrite decide_False by lia. done. }
  destruct Hwf as (Hsp & Hc & Hwf). destruct (Hc eq_refl) as (Hv & He & Hw). cbn [paint]. rewrite Hsp.
  destruct (paint_cell c last Hv He) as (ts1 & Hts1 & Hex1).
  change (cell_c c :: ?p) with ([cell_c c] ++ p). rewrite (app_assoc _ [cell_c c]).
  set (w := if f_wide (cell_flags c) then 2%nat else 1%nat) in Hw.
  (* what is left after the cell and, if it is wide, its spacer *)
  assert (exists l2 sp, l = sp ++ l2 /\ length sp = (w - 1)%nat /\ Forall (fun d => f_spacer (cell_flags d) = true) sp /\
            wf_cells false l2 /\ paint (f_wide (cell_flags c)) (Some (attrs c)) l = paint false (Some (attrs c)) l2)
    as (l2 & sp & -> & Hlsp & Hsps & Hwf2 & ->).
  { unfold w. destruct (f_wide (cell_flags c)); cbn in Hwf.
    - destruct l as [|d l]; [done|]. destruct Hwf as (Hd & _ & Hwf). exists l, [d]. split_and!; try done. by constructor.
    - exists l, []. by split_and!. }
  destruct (IH l2 (Some (attrs c))) as (ts2 & Hts2 & Hex2); [simpl in Hn; rewrite length_app in Hn; lia|done|].
  exists (ts1 ++ ts2). split; [by apply whole_app|]. intros t r k Hr Hlen Hlast. rewrite fold_left_app, Hex1 by done.
  simpl in Hlen. rewrite length_app, Hlsp in Hlen. assert (w = 1 \/ w = 2)%nat as Hw12 by (unfold w; destruct (f_wide _); auto).
  set (t1 := set_pen t (pen_attrs (attrs c))).
  destruct (put_char_ready t1 r k (cell_c c) w Hr Hw Hw12) as (R1 & F1 & P1 & C1); [cbn; lia|].
  destruct (Hex2 (put_char width t1 (cell_c c)) r (k + w)%nat R1) as [R2 F2 P2 C2].
  { destruct F1 as (_ & -> & _). cbn. lia. }
  { intros a [= <-]. by rewrite P1. }
  apply (painted_cons c w t r k sp l2 (put_char width t1 (cell_c c))); done.
Qed.

(** ** The rows *)
Definition cup (r c : Z) : token := TCsi None [r; c] 72.
Lemma exec_cup t r c : exec t (cup r c) =
  set_at t (Nat.min (Z.to_nat (Z.max 1 r - 1)) (r_rows t - 1)) (Nat.min (Z.to_nat (Z.max 1 c - 1)) (r_cols t - 1)) false.
Proof. done. Qed.
Lemma whole_cup r c : 0 <= r < 2 ^ 32 -> 0 <= c < 2 ^ 32 -> whole (csi None [r; c] 72) [cup r c].
Proof. intros Hr Hc. apply whole_csi; [by left| |done]. repeat constructor; lia. Qed.

(** The clipped row shown in row [i] of the viewport. *)
Record viewport := { v_off : nat; v_rows : nat; v_cols : nat; v_erase : bool }.
Definition clip (s : VtScreen) (v : viewport) (i : nat) : list Cell := take (v_cols v) (row_at s (i + v_off v)).
Definition row_text (s : VtScreen) (v : viewport) (i : nat) : text :=
  csi None [Z.of_nat i + 1; 1] 72 ++ paint false None (clip s v i) ++ (if v_erase v then csi None [] 75 else []).

(** What a row of the viewport shows after it was painted: its cells, and past them the
    background of the last one. *)
Definition row_shows (s : VtScreen) (v : viewport) (t : Recv) (i c : nat) : RCell :=
  match clip s v i !! c with
  | Some cell => shown cell
  | None => if v_erase v then erased (pen_after t (clip s v i)) else cells t i c
  end.

Lemma paint_line s v i :
  wf_cells false (clip s v i) -> length (clip s v i) = v_cols v -> Z.of_nat i < 2 ^ 16 ->
  exists ts, whole (row_text s v i) ts /\
    forall t, (i < r_rows t)%nat -> (0 < r_cols t)%nat -> (v_cols v + (if v_erase v then 1 else 0) <= r_cols t)%nat ->
      let t' := fold_left exec ts t in
      same_frame t t' /\ pen t' = pen_after t (clip s v i) /\
      forall r c, cells t' r c = if decide (r = i) then row_shows s v t i c else cells t r c.
Proof.
  intros Hwf Hlen Hi. destruct (paint_row (v_cols v) (clip s v i) None) as (ts & Hts & Hex); [lia|done|].
  exists ([cup (Z.of_nat i + 1) 1] ++ ts ++ (if v_erase v then [TCsi None [] 75] else [])). split.
  { unfold row_text. apply whole_app; [apply whole_cup; lia|]. apply whole_app; [done|].
    destruct (v_erase v); [|done]. apply whole_csi; [by left|constructor|done]. }
  intros t Hr Hc Hv. cbn zeta. rewrite fold_left_app. cbn [fold_left]. rewrite exec_cup.
  replace (Nat.min (Z.to_nat (Z.max 1 (Z.of_nat i + 1) - 1)) (r_rows t - 1)) with i by lia.
  replace (Nat.min (Z.to_nat (Z.max 1 1 - 1)) (r_cols t - 1)) with 0%nat by lia.
  rewrite fold_left_app. destruct (Hex (set_at t i 0 false) i 0%nat) as [R F P C]; [split; [done|left; done]|cbn; destruct (v_erase v); lia|done|].
  set (t1 := fold_left exec ts (set_at t i 0 false)) in *.
  assert (same_frame t t1) as F1 by exact F. assert (pen t1 = pen_after t (clip s v i)) as P1 by exact P.
  unfold row_shows. destruct (v_erase v) eqn:Ev.
  - cbn [fold_left Vt.exec]. split; [exact F1|]. split; [exact P1|]. intros r c. cbn.
    destruct R as [Rr Rc]. destruct F1 as (_ & Fc & _). rewrite Hlen in Rc. simpl in Rc. rewrite Fc in Rc.
    destruct Rc as [(Rk & Rat & _)|(Rk & _)]; [|lia]. rewrite Rr, Rat, P1. cbn in C.
    destruct (decide (r = i)) as [->|Hne]; [|rewrite C; by rewrite decide_False by naive_solver].
    destruct (Nat.leb_spec (v_cols v) c).
    + by rewrite lookup_ge_None_2 by lia.
    + rewrite C, decide_True by lia. rewrite Nat.sub_0_r.
      destruct (lookup_lt_is_Some_2 (clip s v i) c) as [x ->]; [lia|done].
  - cbn [fold_left]. split; [exact F1|]. split; [exact P1|]. intros r c. rewrite C. cbn.
    destruct (decide (r = i)) as [->|Hne]; [|by rewrite decide_False by naive_solver].
    destruct (clip s v i !! c) as [x|] eqn:E.
    + apply lookup_lt_Some in E as Hlt. rewrite decide_True by lia. by rewrite Nat.sub_0_r, E.
    + apply lookup_ge_None in E. by rewrite decide_False by lia.
Qed.

Lemma wf_drawn l : wf_cells false l -> l <> [] -> is_Some (last_drawn l).
Proof. destruct l as [|c l]; [done|]. intros (Hs & _) _. simpl. rewrite Hs. destruct (last_drawn l); by eexists. Qed.

Lemma row_shows_ext s v t t' i c :
  is_Some (last_drawn (clip s v i)) -> cells t' i c = cells t i c -> row_shows s v t' i c = row_shows s v t i c.
Proof. intros [d Hd] Hc. unfold row_shows, pen_after. rewrite Hd. destruct (clip s v i !! c); [done|]. by destruct (v_erase v). Qed.

Lemma paint_lines s v n :
  (forall i, (i < n)%nat -> wf_cells false (clip s v i) /\ length (clip s v i) = v_cols v) -> (0 < v_cols v)%nat -> Z.of_nat n <= 2 ^ 16 ->
  exists ts, whole (mjoin (row_text s v <$> seq 0 n)) ts /\
    forall t, (n <= r_rows t)%nat -> (v_cols v + (if v_erase v then 1 else 0) <= r_cols t)%nat ->
      let t' := fold_left exec ts t in
      same_frame t t' /\ forall r c, cells t' r c = if decide (r < n)%nat then row_shows s v t r c else cells t r c.
Proof.
  induction n as [|n IH]; intros Hrows Hv Hn.
  { exists []. split; [done|]. intros t _ _. split; [apply same_frame_refl|]. intros r c. by rewrite decide_False by lia. }
  destruct IH as (ts & Hts & Hex); [intros i Hi; apply Hrows; lia|done|lia|].
  destruct (Hrows n) as [Hwf Hlen]; [lia|]. destruct (paint_line s v n Hwf Hlen) as (us & Hus & Hex'); [lia|].
  exists (ts ++ us). split.
  { rewrite seq_S, fmap_app, join_app. apply whole_app; [done|]. cbn. by rewrite app_nil_r. }
  intros t Hr Hc. cbn zeta. rewrite fold_left_app. destruct (Hex t) as [F C]; [lia|done|].
  pose proof F as (Fr & Fc & _). destruct (Hex' (fold_left exec ts t)) as (F' & _ & C'); [rewrite Fr; lia|rewrite Fc; lia|rewrite Fc; lia|].
  split; [by eapply same_frame_trans|]. intros r c. rewrite C'. destruct (decide (r = n)) as [->|Hne].
  - rewrite decide_True by lia. apply row_shows_ext.
    + apply wf_drawn; [done|]. intros Hnil. rewrite Hnil in Hlen. simpl in Hlen. lia.
    + rewrite C. by rewrite decide_False by lia.
  - rewrite C. destruct (decide (r < n)%nat); [by rewrite decide_True by lia|by rewrite decide_False by lia].
Qed.

(** ** The prelude *)
Lemma whole_mode on code : 0 <= code < 2 ^ 32 -> whole (dec_mode on code) [TCsi (Some 63) [code] (if on then 104 else 108)].
Proof. intros Hc. apply whole_csi; [by right; left| |by destruct on]. repeat constructor; lia. Qed.
Lemma exec_mode t (on : bool) code : exec t (TCsi (Some 63) [code] (if on then 104 else 108)) = set_mode one_mouse_mode t code on.
Proof. by destruct on. Qed.
Lemma kitty_bounds m : 0 <= kitty_flags m < 32.
Proof. unfold kitty_flags. by destruct (disambiguate_esc_codes m), (report_event_types m), (report_alternate_keys m), (report_all_keys_as_esc m), (report_associated_text m). Qed.

(** The private modes as captured, by their codes. *)
Definition captured (m : TermMode) : list (Z * bool) :=
  [(25, show_cursor m); (1, app_cursor m); (2004, bracketed_paste m); (1004, focus_in_out m);
   (1000, mouse_report_click m); (1002, mouse_drag m); (1003, mouse_motion m); (1006, sgr_mouse m)].
Definition mode_tokens (m : TermMode) : list token :=
  ((fun p : Z * bool => TCsi (Some 63) [p.1] (if p.2 then 104 else 108)) <$> captured m) ++
  [TEsc (if app_keypad m then 61 else 62); TCsi (Some 61) [kitty_flags m; 1] 117].
Definition set_all (t : Recv) (l : list (Z * bool)) : Recv := fold_left (fun t p => set_mode one_mouse_mode t p.1 p.2) l t.

Lemma whole_private_modes m : whole (emit_private_modes m) (mode_tokens m).
Proof.
  unfold emit_private_modes, mode_tokens, captured. cbn [fmap list_fmap fst snd app].
  do 8 (apply (whole_app _ _ [_]); [apply whole_mode; lia|]).
  apply (whole_app [ESC; if app_keypad m then 61 else 62] _ [_] [_]); [by destruct (app_keypad m)|].
  apply whole_csi; [by right; right| |done]. pose proof (kitty_bounds m). repeat constructor; lia.
Qed.
Lemma exec_private_modes m t : fold_left exec (mode_tokens m) t = set_keys (set_all t (captured m)) (app_keypad m) (kitty_flags m).
Proof.
  unfold mode_tokens. rewrite fold_left_app. unfold set_all, captured. cbn [fmap list_fmap fst snd fold_left]. rewrite !exec_mode.
  by destruct (app_keypad m).
Qed.

Definition prelude_tokens (s : VtScreen) (p : Prelude) : list token :=
  match p with
  | Live => [TCsi None [] 72; TCsi None [0] 109]
  | _ => [TCsi None [0] 109; TCsi (Some 63) [1049] (if is_alt_screen s then 104 else 108)] ++
         (match p with Resize => [TCsi None [] 114] | _ => [] end) ++ [TCsi None [2] 74; TCsi None [] 72] ++ mode_tokens (mode (term s))
  end.
Lemma whole_prelude s p : whole (emit_prelude s p) (prelude_tokens s p).
Proof.
  assert (forall ps f, Forall (fun n => 0 <= n < 10 ^ 20) ps -> plain_final f -> whole (csi None ps f) [TCsi None ps f]) as Hc
    by (intros; apply whole_csi; auto; by left).
  unfold emit_prelude, prelude_tokens. destruct p.
  - apply (whole_app _ _ [_]); [by apply Hc; repeat constructor|]. apply (whole_app _ _ [_]); [by apply whole_mode|].
    apply (whole_app _ _ []); [done|]. apply (whole_app _ _ [_]); [by apply Hc; repeat constructor|].
    apply (whole_app _ _ [_]); [by apply Hc; repeat constructor|]. apply whole_private_modes.
  - apply (whole_app _ _ [_]); [by apply Hc; repeat constructor|]. apply (whole_app _ _ [_]); [by apply whole_mode|].
    apply (whole_app _ _ [_]); [by apply Hc; repeat constructor|]. apply (whole_app _ _ [_]); [by apply Hc; repeat constructor|].
    apply (whole_app _ _ [_]); [by apply Hc; repeat constructor|]. apply whole_private_modes.
  - apply (whole_app _ _ [_] [_]); by apply Hc; repeat constructor.
Qed.

(** The modes the receiver should end up with. *)
Definition modes_restored (m : TermMode) (before after : Z -> bool) : Prop :=
  Forall (fun p => after p.1 = p.2) (captured m) /\ forall k, k ∉ (captured m).*1 -> after k = before k.

Lemma set_all_frame t m :
  let t' := set_all t (captured m) in
  r_rows t' = r_rows t /\ r_cols t' = r_cols t /\ cells t' = cells t /\ on_alt t' = on_alt t /\ pen t' = pen t /\ region t' = region t.
Proof. unfold set_all, captured. cbn. unfold set_mode. cbn. destruct one_mouse_mode; cbn; done. Qed.

Lemma set_all_modes t m : one_mouse_mode = false -> modes_restored m (modes t) (modes (set_all t (captured m))).
Proof.
  intros Ho. unfold set_all, captured. cbn. unfold set_mode. rewrite Ho. cbn. split.
  - repeat constructor.
  - intros k Hk. cbn in Hk. rewrite !not_elem_of_cons in Hk.
    repeat (case_match; [exfalso; naive_solver lia|]). done.
Qed.

(** Where the mouse modes share one setting, the last one written wins: motion or nothing. *)
Definition mouse_after (m : TermMode) (after : Z -> bool) : Prop :=
  forall k, is_mouse k = true -> after k = mouse_motion m && (k =? 1003).
Lemma set_all_mouse t m : one_mouse_mode = true -> mouse_after m (modes (set_all t (captured m))).
Proof.
  intros Ho k Hk. unfold set_all, captured. cbn. unfold set_mode. rewrite Ho. cbn. rewrite Hk.
  destruct (Z.eqb_spec k 1006) as [->|_]; [done|by destruct (mouse_motion m)].
Qed.

Record prepared (s : VtScreen) (p : Prelude) (t t' : Recv) : Prop := {
  pr_size : r_rows t' = r_rows t /\ r_cols t' = r_cols t;
  pr_cells : forall r c, cells t' r c = match p with Live => cells t r c | _ => erased default_pen end;
  pr_alt : on_alt t' = match p with Live => on_alt t | _ => is_alt_screen s end;
  pr_keys : (keypad t', kitty t') = match p with Live => (keypad t, kitty t) | _ => (app_keypad (mode (term s)), kitty_flags (mode (term s))) end;
  pr_modes : match p with Live => modes t' = modes t | _ => (one_mouse_mode = false -> modes_restored (mode (term s)) (modes t) (modes t')) /\ (one_mouse_mode = true -> mouse_after (mode (term s)) (modes t')) end;
  pr_region : region t' = match p with Resize => None | _ => region t end;
}.

Lemma prepared_clear s p t u : p <> Live ->
  r_rows u = r_rows t -> r_cols u = r_cols t -> on_alt u = is_alt_screen s -> pen u = default_pen -> modes u = modes t ->
  region u = (match p with Resize => None | _ => region t end) ->
  prepared s p t (fold_left exec ([TCsi None [2] 74; TCsi None [] 72] ++ mode_tokens (mode (term s))) u).
Proof.
  intros Hp H1 H2 H3 H4 H5 H6. rewrite fold_left_app, exec_private_modes. cbn [fold_left].
  set (v := exec (exec u (TCsi None [2] 74)) (TCsi None [] 72)).
  destruct (set_all_frame v (mode (term s))) as (S1 & S2 & S3 & S4 & S5 & S6).
  assert (match p with Live => False | _ => True end) as HL by by destruct p.
  split; cbn [set_keys r_rows r_cols cells on_alt keypad kitty modes region].
  - rewrite S1, S2. done.
  - intros r c. rewrite S3. change (erased (pen u) = match p with Live => cells t r c | _ => erased default_pen end). rewrite H4. by destruct p.
  - rewrite S4. change (on_alt u = match p with Live => on_alt t | _ => is_alt_screen s end). rewrite H3. by destruct p.
  - by destruct p.
  - rewrite <-H5. change (modes u) with (modes v). pose proof (set_all_modes v (mode (term s))). pose proof (set_all_mouse v (mode (term s))). by destruct p.
  - rewrite S6. done.
Qed.

Lemma exec_prelude s p t : prepared s p t (fold_left exec (prelude_tokens s p) t).
Proof.
  set (u := set_mode one_mouse_mode (exec t (TCsi None [0] 109)) 1049 (is_alt_screen s)).
  assert (r_rows u = r_rows t /\ r_cols u = r_cols t /\ on_alt u = is_alt_screen s /\ pen u = default_pen /\ region u = region t /\ modes u = modes t)
    as (A1 & A2 & A3 & A4 & A5 & A6).
  { unfold u, set_mode. cbn. destruct (is_alt_screen s), (on_alt t) eqn:E; cbn; split_and!; done. }
  assert (forall a b l, fold_left exec ([a; b] ++ l) t = fold_left exec l (exec (exec t a) b)) as Hfold by done.
  destruct p; [| |by split]; unfold prelude_tokens; rewrite Hfold, exec_mode; fold u.
  - rewrite app_nil_l. apply prepared_clear; done.
  - rewrite fold_left_app. apply prepared_clear; done.
Qed.

(** ** The repaint *)
Definition view_of (s : VtScreen) (vp_rows vp_cols : nat) : viewport :=
  let rows := Nat.min (d_lines (dims s)) (Nat.max vp_rows 1) in
  let cols := Nat.min (d_cols (dims s)) (Nat.max vp_cols 1) in
  {| v_off := d_lines (dims s) - rows; v_rows := rows; v_cols := cols; v_erase := (cols <? Nat.max vp_cols 1)%nat |}.
(** The grid has its dimensions, a [u16] each and not zero, and no wide character is cut
    by the viewport's right edge. *)
Record paintable (s : VtScreen) (v : viewport) : Prop := {
  pa_dims : (0 < d_lines (dims s))%nat /\ (0 < d_cols (dims s))%nat /\ Z.of_nat (d_lines (dims s)) < 2 ^ 16 /\ Z.of_nat (d_cols (dims s)) < 2 ^ 16;
  pa_rows : forall i, (i < v_rows v)%nat -> wf_cells false (clip s v i) /\ length (clip s v i) = v_cols v;
}.
Definition cursor_in (s : VtScreen) (v : viewport) : nat * nat :=
  let '(l, c) := cursor (term s) in
  if (v_off v <=? l)%nat && (l - v_off v <? v_rows v)%nat && (c <? v_cols v)%nat then ((l - v_off v)%nat, c) else (0%nat, 0%nat).

Lemma render_split s vp_rows vp_cols p :
  let v := view_of s vp_rows vp_cols in
  render s vp_rows vp_cols p = emit_prelude s p ++ mjoin (row_text s v <$> seq 0 (v_rows v)) ++ csi None [0] 109 ++
    csi None [Z.of_nat (cursor_in s v).1 + 1; Z.of_nat (cursor_in s v).2 + 1] 72.
Proof.
  intros v. unfold render, cursor_in. destruct (cursor (term s)) as [l c]. cbn [v v_off v_rows v_cols view_of].
  by destruct (_ && _ && _).
Qed.
Lemma cursor_in_bounds s v : (0 < v_rows v)%nat -> (0 < v_cols v)%nat -> ((cursor_in s v).1 < v_rows v)%nat /\ ((cursor_in s v).2 < v_cols v)%nat.
Proof.
  intros Hr Hc. unfold cursor_in. destruct (cursor (term s)) as [l c].
  destruct ((v_off v <=? l)%nat && (l - v_off v <? v_rows v)%nat && (c <? v_cols v)%nat) eqn:E; [|done].
  apply andb_true_iff in E as [[_ E1]%andb_true_iff E2]. apply Nat.ltb_lt in E1, E2. done.
Qed.

End Receive.

(** ** A screen and a receiver *)
Module Sample.
Definition plain (c : Z) : Cell := {| cell_c := c; cell_fg := Named 256; cell_bg := Named 257; cell_flags := no_flags;
     cell_zerowidth := []; cell_underline_color := None |}.
Definition flagged (c : Z) (wide spacer : bool) : Cell :=
  {| cell_c := c; cell_fg := Indexed 200; cell_bg := Spec 1 2 3;
     cell_flags := {| f_bold := true; f_dim := false; f_italic := false; f_underline := false; f_double_underline := false; f_undercurl := false; f_dotted_underline := false;
     f_dashed_underline := false; f_inverse := false; f_hidden := false;
                      f_strikeout := false; f_wide := wide; f_spacer := spacer; f_rest := 0 |};
     cell_zerowidth := []; cell_underline_color := None |}.
(** ab_ / xW: a wide character at the end of the second row. *)
Definition rows : list (list Cell) := [[plain 97; plain 98; plain 32]; [plain 120; flagged 19968 true false; flagged 32 false true]].
Definition modes0 : TermMode :=
  {| alt_screen := true; show_cursor := true; app_cursor := true; bracketed_paste := true; focus_in_out := false;
     mouse_report_click := true; mouse_drag := false; mouse_motion := false; sgr_mouse := true; app_keypad := false;
     disambiguate_esc_codes := true; report_event_types := false; report_alternate_keys := false;
     report_all_keys_as_esc := false; report_associated_text := false |}.
Definition screen : VtScreen :=
  {| term := {| grid := rows; cursor := (1, 0)%nat; mode := modes0 |}; dims := {| d_cols := 3; d_lines := 2 |};
     events := {| ev_title := None; ev_bells := 0 |} |}.
Definition wcwidth (c : Z) : nat := if 4352 <=? c then 2 else 1.
Definition blank_recv (r c : nat) : Recv :=
  {| r_rows := r; r_cols := c; cells := fun _ _ => RChar 35 default_pen; saved := fun _ _ => RChar 35 default_pen; on_alt := false;
     at_row := 0; at_col := 0; wrap_next := false; pen := default_pen; modes := fun _ => false; keypad := true; kitty := 0; region := Some (0, 0)%nat |}.
End Sample.


(** ** What a repaint leaves out *)
Definition strip (c : Cell) : Cell :=
  {| cell_c := cell_c c; cell_fg := cell_fg c; cell_bg := cell_bg c; cell_flags := cell_flags c; cell_zerowidth := []; cell_underline_color := None |}.
Definition strip_screen (s : VtScreen) : VtScreen :=
  {| term := {| grid := map (map strip) (grid (term s)); cursor := cursor (term s); mode := mode (term s) |}; dims := dims s; events := events s |}.
Lemma paint_strip l : forall skip last, paint skip last (map strip l) = paint skip last l.
Proof. induction l as [|c l IH]; intros skip last; [done|]. cbn. by rewrite !IH. Qed.
Lemma row_strip s r : row_at (strip_screen s) r = map strip (row_at s r).
Proof.
  unfold row_at. cbn. change (map (map strip) (grid (term s))) with (map strip <$> grid (term s)). rewrite list_lookup_fmap.
  by destruct (grid (term s) !! r).
Qed.
(** Combining characters and the colour of underlines never reach the client: a repaint is the same as
    of the screen without them. *)
Theorem repaint_drops_marks s vp_rows vp_cols p : render s vp_rows vp_cols p = render (strip_screen s) vp_rows vp_cols p.
Proof.
  unfold render. cbv zeta. cbn [dims strip_screen cursor term].
  assert (forall n off cols l, (fun r => csi None [Z.of_nat r + 1; 1] 72 ++ paint false None (take cols (row_at s (r + off))) ++ l) <$> seq 0 n =
    (fun r => csi None [Z.of_nat r + 1; 1] 72 ++ paint false None (take cols (row_at (strip_screen s) (r + off))) ++ l) <$> seq 0 n) as Hrows.
  { intros n off cols l. apply list_fmap_ext. intros i r _. by rewrite row_strip, firstn_map, paint_strip. }
  rewrite Hrows. done.
Qed.
(** A letter with a combining accent is repainted as the letter. *)
Example accent_lost : render {| term := {| grid := [[{| cell_c := 101; cell_fg := Named 256; cell_bg := Named 257; cell_flags := no_flags;
      cell_zerowidth := [769]; cell_underline_color := None |}]]; cursor := (0, 0)%nat; mode := Sample.modes0 |};
    dims := {| d_cols := 1; d_lines := 1 |}; events := {| ev_title := None; ev_bells := 0 |} |} 1 1 Live =
  render {| term := {| grid := [[Sample.plain 101]]; cursor := (0, 0)%nat; mode := Sample.modes0 |};
    dims := {| d_cols := 1; d_lines := 1 |}; events := {| ev_title := None; ev_bells := 0 |} |} 1 1 Live.
Proof. apply repaint_drops_marks. Qed.

(** A viewport narrower than the grid can cut a wide character in half.  The repaint
    writes it anyway, so a terminal of the viewport's size wraps: here the captured screen
    is [ab] over [x] and a wide character, the viewport two columns wide, and after the
    repaint the row [ab] has scrolled away. *)
Theorem clipped_wide_scrolls :
  let t' := receive Sample.wcwidth false (Sample.blank_recv 2 2) (render Sample.screen 2 2 Initial) in
  (fun c => cell_c <$> (row_at Sample.screen 0 !! c)) <$> [0; 1]%nat = [Some 97; Some 98] /\
  cells t' 0%nat 0%nat = RChar 120 default_pen /\
  cells t' 1%nat 0%nat = RChar 19968 (pen_attrs (attrs (Sample.flagged 19968 true false))).
Proof. vm_compute. done. Qed.
