(* ===== verification/Extensions.v ===== *)
(** * Extensions: manifests, bootstrap files and the rendezvous (extensions/manifest.rs,
    extensions/bootstrap.rs, [connect_blocking] of extensions/registry.rs)

    An extension is a daemon beside the host.  An operator's manifest names it; on startup
    it writes a bootstrap file with the name of its ipc-channel server, which the host
    reads, checks and connects to.  TOML and ipc-channel are third-party code: parsing a
    table and opening channels are parameters. *)
From S2P Require Import Prelude Text.
From Stdlib Require Import Ascii.
Local Open Scope Z_scope.

(** ** Manifests *)
Record ExtensionManifest := {
  ext_id : string; description : string; bootstrap_path : string; required_role : string; expected_uid : Z; version : string;
}.
Definition default_required_role : string := "peer".
Definition default_version : string := "0.1.0".

(** Why loading, connecting or sending failed. *)
Inductive ext_error :=
| StatFailed | ReadFailed | ParseFailed | ReadDirFailed
| EmptyExtId | BadExtId | EmptyDescription | RelativeBootstrap | BadRole
| WrongOwner (owner : Z) | WorldAccessible (mode : Z) | GroupWritable (mode : Z)
| EmptyServerName | ZeroPid | EmptyVersion
| NotAlive (pid : Z) | VersionMismatch (found wanted : string)
| ConnectFailed | ReverseFailed | HelloFailed | AckFailed | NotHelloAck
| UnknownExtension | BackingOff (e : ext_error) | NotConnected | BridgeClosed | NoReceiver.

(** The table of a TOML file; a key may be missing. *)
Record ManifestTable := {
  t_ext_id : option string; t_description : option string; t_bootstrap_path : option string;
  t_required_role : option string; t_expected_uid : option Z; t_version : option string;
}.
Record BootstrapTable := { t_server_name : option string; t_pid : option Z; t_bversion : option string }.
Class Toml := { manifest_table : string -> option ManifestTable; bootstrap_table : string -> option BootstrapTable }.

(** A file as [stat] and [read_to_string] see it. *)
Record File := { f_uid : Z; f_mode : Z; f_text : option string }.
Abbreviation Files := (string -> option File).

Definition id_char (c : ascii) : bool :=
  in_range 48 57 (ord c) || in_range 65 90 (ord c) || in_range 97 122 (ord c) || (ord c =? 46) || (ord c =? 45) || (ord c =? 95).
Fixpoint all_chars (f : ascii -> bool) (s : string) : bool :=
  match s with EmptyString => true | String c s => f c && all_chars f s end.
Definition is_absolute (p : string) : bool := starts_with "/" p.
Definition is_empty_str (s : string) : bool := match s with EmptyString => true | _ => false end.

Definition validate (m : ExtensionManifest) : rust ext_error unit :=
  if is_empty_str (ext_id m) then Err EmptyExtId
  else if negb (all_chars id_char (ext_id m)) then Err BadExtId
  else if is_empty_str (description m) then Err EmptyDescription
  else if negb (is_absolute (bootstrap_path m)) then Err RelativeBootstrap
  else if bool_decide (required_role m = "peer" \/ required_role m = "creator") then Ok tt
  else Err BadRole.

Section Load.
Context `{!Toml}.

(** [toml::from_str], with the defaults of the optional fields. *)
Definition manifest_from_str (raw : string) : option ExtensionManifest :=
  t ← manifest_table raw; i ← t_ext_id t; d ← t_description t; b ← t_bootstrap_path t;
  Some {| ext_id := i; description := d; bootstrap_path := b; required_role := default default_required_role (t_required_role t);
          expected_uid := default 0 (t_expected_uid t); version := default default_version (t_version t) |}.

Definition or_err {A} (o : option A) (e : ext_error) : rust ext_error A := match o with Some a => Ok a | None => Err e end.

Definition load (fs : Files) (path : string) : rust ext_error ExtensionManifest :=
  raw ← or_err (fs path ≫= f_text) ReadFailed;
  manifest ← or_err (manifest_from_str raw) ParseFailed;
  _ ← validate manifest;
  Ok manifest.

(** An entry of a directory: its name when it is UTF-8, and whether it is a plain file;
    [None] where reading the entry or its type fails. *)
Record Dirent := { d_name : option string; d_is_file : bool }.
Definition manifest_name (name : string) : bool := negb (starts_with "." name) && ends_with ".toml" name.
Definition entry_manifest (fs : Files) (dir : string) (d : Dirent) : option ExtensionManifest :=
  if d_is_file d then
    name ← d_name d;
    if manifest_name name then match load fs (dir +:+ "/" +:+ name) with Ok m => Some m | _ => None end else None
  else None.
Fixpoint discover_entries (fs : Files) (dir : string) (l : list (option Dirent)) : rust ext_error (list ExtensionManifest) :=
  match l with
  | [] => Ok []
  | None :: _ => Err ReadDirFailed
  | Some d :: l =>
      rest ← discover_entries fs dir l;
      Ok (match entry_manifest fs dir d with Some m => m :: rest | None => rest end)
  end.
Fixpoint insert_by_id (m : ExtensionManifest) (l : list ExtensionManifest) : list ExtensionManifest :=
  match l with [] => [m] | x :: l => if str_leb (ext_id m) (ext_id x) then m :: x :: l else x :: insert_by_id m l end.
(** [sort_by], which is stable. *)
Definition sort_by_id (l : list ExtensionManifest) : list ExtensionManifest := foldr insert_by_id [] l.
(** [dir] is what [read_dir] yields: [None] when the directory does not exist, [Some None]
    when it cannot be read. *)
Definition discover (fs : Files) (dir : string) (listing : option (option (list (option Dirent)))) : rust ext_error (list ExtensionManifest) :=
  match listing with
  | None => Ok []
  | Some None => Err ReadDirFailed
  | Some (Some entries) => out ← discover_entries fs dir entries; Ok (sort_by_id out)
  end.

(** ** Bootstrap files *)
Record Bootstrap := { server_name : string; pid : Z; b_version : string }.
Definition bootstrap_from_str (raw : string) : option Bootstrap :=
  t ← bootstrap_table raw; s ← t_server_name t; p ← t_pid t; v ← t_bversion t;
  Some {| server_name := s; pid := p; b_version := v |}.
Definition validate_bootstrap (b : Bootstrap) : rust ext_error unit :=
  if is_empty_str (server_name b) then Err EmptyServerName
  else if pid b =? 0 then Err ZeroPid
  else if is_empty_str (b_version b) then Err EmptyVersion
  else Ok tt.
Definition load_bootstrap (fs : Files) (path : string) (uid : Z) : rust ext_error Bootstrap :=
  meta ← or_err (fs path) StatFailed;
  if negb (f_uid meta =? uid) then Err (WrongOwner (f_uid meta))
  else
    let mode := f_mode meta .& 511 in
    if negb (mode .& 7 =? 0) then Err (WorldAccessible mode)
    else if negb (mode .& 16 =? 0) then Err (GroupWritable mode)
    else
      raw ← or_err (fs path ≫= f_text) ReadFailed;
      bs ← or_err (bootstrap_from_str raw) ParseFailed;
      _ ← validate_bootstrap bs;
      Ok bs.

(** ** The rendezvous *)
Inductive ExtMessage :=
| Hello (hop_version reverse_name : string)
| HelloAck (ext_version : string)
| Request (request_id : Z) (peer_id : string) (peer_username : option string) (peer_role : string) (payload : bytes)
| StreamOpen (request_id : Z) (peer_id : string) (peer_username : option string) (peer_role : string) (payload : bytes)
| StreamInput (stream_id : Z) (payload : bytes)
| StreamClose (stream_id : Z)
| Response (request_id : Z) (ok : bool) (payload : bytes)
| StreamOpened (request_id stream_id : Z)
| StreamFrame (stream_id : Z) (payload : bytes)
| StreamClosed (stream_id : Z) (reason : option string).

(** What the system says while connecting: the files, which processes live, whether a
    server of that name accepts, the reverse server's name, whether Hello went out, and the
    first message that came back. *)
Record ConnectEnv := {
  e_files : Files; e_alive : Z -> bool; e_connect : string -> bool; e_reverse : option string;
  e_hello : bool; e_ack : option ExtMessage;
}.
Definition hop_version : string := "0.9.42".
(** The server connected to and what was sent there. *)
Definition connect_blocking (e : ConnectEnv) (m : ExtensionManifest) : rust ext_error (string * list ExtMessage) :=
  bs ← load_bootstrap (e_files e) (bootstrap_path m) (expected_uid m);
  if negb (e_alive e (pid bs)) then Err (NotAlive (pid bs))
  else if negb (bool_decide (b_version bs = version m)) then Err (VersionMismatch (b_version bs) (version m))
  else if negb (e_connect e (server_name bs)) then Err ConnectFailed
  else
    rev_name ← or_err (e_reverse e) ReverseFailed;
    if negb (e_hello e) then Err HelloFailed
    else
      ack ← or_err (e_ack e) AckFailed;
      match ack with
      | HelloAck _ => Ok (server_name bs, [Hello hop_version rev_name])
      | _ => Err NotHelloAck
      end.
End Load.

(** ** What is trusted *)
Section Trusted.
Context `{!Toml}.

Lemma or_err_Ok {A} (o : option A) e a : or_err o e = Ok a <-> o = Some a.
Proof. destruct o; simpl; split; intros; by simplify_eq. Qed.
Lemma bind_Ok {A B} (m : rust ext_error A) (f : A -> rust ext_error B) b : m ≫= f = Ok b <-> exists a, m = Ok a /\ f a = Ok b.
Proof. destruct m; simpl; naive_solver. Qed.
Lemma is_empty_str_false s : is_empty_str s = false <-> s <> EmptyString.
Proof. by destruct s. Qed.

Lemma land_pow2_testbit x n : 0 <= n -> (x .& 2 ^ n = 0 <-> Z.testbit x n = false).
Proof.
  intros Hn. split.
  - intros Hx. apply (f_equal (fun y => Z.testbit y n)) in Hx. rewrite Z.land_spec, Z.pow2_bits_true, andb_true_r, Z.bits_0 in Hx by done. done.
  - intros Hx. apply Z.bits_inj'. intros k Hk. rewrite Z.land_spec, Z.bits_0. destruct (decide (k = n)) as [->|Hne].
    + by rewrite Hx.
    + rewrite Z.pow2_bits_false by lia. apply andb_false_r.
Qed.
(** No access for others, and none to write for the group. *)
Definition private_mode (mode : Z) : Prop :=
  Z.testbit mode 0 = false /\ Z.testbit mode 1 = false /\ Z.testbit mode 2 = false /\ Z.testbit mode 4 = false.
Lemma land7_zero x : x .& 7 = 0 <-> Z.testbit x 0 = false /\ Z.testbit x 1 = false /\ Z.testbit x 2 = false.
Proof.
  change 7 with (Z.lor (2 ^ 0) (Z.lor (2 ^ 1) (2 ^ 2))). rewrite !Z.land_lor_distr_r, !Z.lor_eq_0_iff, !land_pow2_testbit by done. done.
Qed.
Lemma private_mode_spec mode : private_mode mode <-> (mode .& 511) .& 7 = 0 /\ (mode .& 511) .& 16 = 0.
Proof.
  rewrite <-!Z.land_assoc. change (511 .& 7) with 7. change (511 .& 16) with (2 ^ 4).
  rewrite land7_zero, land_pow2_testbit by done. unfold private_mode. naive_solver.
Qed.

Definition complete (b : Bootstrap) : Prop := server_name b <> EmptyString /\ pid b <> 0 /\ b_version b <> EmptyString.
Lemma validate_bootstrap_Ok b : validate_bootstrap b = Ok tt <-> complete b.
Proof.
  unfold validate_bootstrap, complete. rewrite <-!is_empty_str_false, <-Z.eqb_neq.
  destruct (is_empty_str (server_name b)), (pid b =? 0), (is_empty_str (b_version b)); naive_solver.
Qed.

Definition trusted_bootstrap (fs : Files) (path : string) (uid : Z) (b : Bootstrap) : Prop :=
  exists f raw, fs path = Some f /\ f_uid f = uid /\ private_mode (f_mode f) /\ f_text f = Some raw /\ bootstrap_from_str raw = Some b /\ complete b.
Lemma load_bootstrap_Ok fs path uid b : load_bootstrap fs path uid = Ok b <-> trusted_bootstrap fs path uid b.
Proof.
  unfold load_bootstrap, trusted_bootstrap. rewrite bind_Ok. setoid_rewrite or_err_Ok. split.
  - intros (f & Hf & Hl). rewrite Hf in Hl. simpl in Hl.
    destruct (Z.eqb_spec (f_uid f) uid) as [Hu|]; [|done]. simpl in Hl.
    destruct (Z.eqb_spec ((f_mode f .& 511) .& 7) 0) as [H7|]; [|done].
    destruct (Z.eqb_spec ((f_mode f .& 511) .& 16) 0) as [H16|]; [|done]. simpl in Hl.
    apply bind_Ok in Hl as (raw & Hraw%or_err_Ok & Hl). apply bind_Ok in Hl as (bs & Hbs%or_err_Ok & Hl).
    apply bind_Ok in Hl as ([] & Hv%validate_bootstrap_Ok & [= ->]).
    exists f, raw. split_and!; try done. by apply private_mode_spec.
  - intros (f & raw & Hf & Hu & [H7 H16]%private_mode_spec & Hraw & Hb & Hc%validate_bootstrap_Ok).
    exists f. split; [done|]. rewrite Hf, H7, H16, Hu, Z.eqb_refl. simpl. rewrite Hraw. simpl. rewrite Hb. simpl. by rewrite Hc.
Qed.

Lemma connect_hello e m server sent : connect_blocking e m = Ok (server, sent) -> exists rev, sent = [Hello hop_version rev].
Proof.
  unfold connect_blocking. intros (b & _ & Hc)%bind_Ok. repeat (case_match; [done|]). apply bind_Ok in Hc as (rev & _ & Hc).
  case_match; [done|]. apply bind_Ok in Hc as ([] & _ & Hc); simplify_eq. eauto.
Qed.

(** The host connects to an extension exactly when the bootstrap file its manifest
    names is owned by the user the manifest expects, closed to others and not writable by
    the group, names a server, a live process and the manifest's protocol version, the
    server accepts, and the first message that comes back is the acknowledgement; it then
    talks to the server of that file, and has told it nothing but its Hello. *)
Theorem connect_trusted e m server sent :
  connect_blocking e m = Ok (server, sent) <->
  exists b rev ack,
    trusted_bootstrap (e_files e) (bootstrap_path m) (expected_uid m) b /\
    e_alive e (pid b) = true /\ b_version b = version m /\ e_connect e (server_name b) = true /\
    e_reverse e = Some rev /\ e_hello e = true /\ e_ack e = Some (HelloAck ack) /\
    server = server_name b /\ sent = [Hello hop_version rev].
Proof.
  unfold connect_blocking. rewrite bind_Ok. setoid_rewrite load_bootstrap_Ok. split.
  - intros (b & Hb & Hc). destruct (e_alive e (pid b)) eqn:Ea; [|done]. case_bool_decide as Hv; [|done].
    destruct (e_connect e (server_name b)) eqn:Ec; [|done]. simpl in Hc.
    apply bind_Ok in Hc as (rev & Hrev%or_err_Ok & Hc). destruct (e_hello e) eqn:Eh; [|done]. simpl in Hc.
    apply bind_Ok in Hc as ([] & Hack%or_err_Ok & Hc); simplify_eq. naive_solver.
  - intros (b & rev & ack & Hb & Ha & Hv & Hc & Hr & Hh & Hk & -> & ->). exists b. split; [done|].
    rewrite Ha, bool_decide_true, Hc, Hr, Hh, Hk by done. done.
Qed.

(** ** Discovery *)
Definition well_formed (m : ExtensionManifest) : Prop :=
  ext_id m <> EmptyString /\ all_chars id_char (ext_id m) = true /\ description m <> EmptyString /\ is_absolute (bootstrap_path m) = true /\
  (required_role m = "peer" \/ required_role m = "creator").
Lemma validate_Ok m : validate m = Ok tt <-> well_formed m.
Proof.
  unfold validate, well_formed. rewrite <-!is_empty_str_false.
  destruct (is_empty_str (ext_id m)), (all_chars id_char (ext_id m)), (is_empty_str (description m)), (is_absolute (bootstrap_path m)); simpl; try naive_solver.
  case_bool_decide; naive_solver.
Qed.
Lemma load_Ok fs path m : load fs path = Ok m <-> exists f raw, fs path = Some f /\ f_text f = Some raw /\ manifest_from_str raw = Some m /\ well_formed m.
Proof.
  unfold load. rewrite bind_Ok. split.
  - intros (raw & Hr%or_err_Ok & Hl). apply bind_Some in Hr as (f & Hf & Hraw). apply bind_Ok in Hl as (m' & Hm%or_err_Ok & Hl).
    apply bind_Ok in Hl as ([] & Hv%validate_Ok & [= ->]). exists f, raw. by split_and!.
  - intros (f & raw & Hf & Hraw & Hm & Hv%validate_Ok). exists raw. rewrite Hf. simpl. rewrite Hraw. split; [done|]. rewrite Hm. simpl. by rewrite Hv.
Qed.

Lemma insert_by_id_perm m l : insert_by_id m l ≡ₚ m :: l.
Proof. induction l as [|x l IH]; simpl; [done|]. case_match; [done|]. rewrite IH. constructor. Qed.
Lemma sort_by_id_perm l : sort_by_id l ≡ₚ l.
Proof. induction l as [|m l IH]; simpl; [done|]. by rewrite insert_by_id_perm, IH. Qed.
Definition id_le (a b : ExtensionManifest) : Prop := str_leb (ext_id a) (ext_id b) = true.
Lemma insert_by_id_sorted m l : Sorted id_le l -> Sorted id_le (insert_by_id m l).
Proof.
  induction 1 as [|x l Hl IH Hx]; simpl; [by repeat constructor|].
  destruct (str_leb (ext_id m) (ext_id x)) eqn:E; [by repeat constructor|].
  constructor; [done|]. assert (id_le x m) as Hxm by (destruct (lex_leb_total (str_bytes (ext_id m)) (str_bytes (ext_id x))) as [Ht|Ht]; [unfold str_leb in E; congruence|exact Ht]).
  destruct Hx as [|y l Hxy]; simpl; [by constructor|]. case_match; by constructor.
Qed.
Lemma sort_by_id_sorted l : Sorted id_le (sort_by_id l).
Proof. induction l; simpl; [constructor|by apply insert_by_id_sorted]. Qed.

Lemma discover_entries_Ok fs dir l out : discover_entries fs dir l = Ok out ->
  exists ds, l = Some <$> ds /\ out = omap (entry_manifest fs dir) ds.
Proof.
  revert out. induction l as [|[d|] l IH]; intros out Hd; simpl in Hd; simplify_eq; [by exists []|].
  apply bind_Ok in Hd as (rest & Hr & [= <-]). destruct (IH rest Hr) as (ds & -> & ->). exists (d :: ds). split; [done|]. simpl. by case_match.
Qed.

(** Discovery yields, in the order of their ids, exactly the manifests that parse and
    are valid among the directory's plain, visible files named [.toml]: one bad manifest
    never hides another. *)
Theorem discover_correct fs dir entries out :
  discover fs dir (Some (Some (Some <$> entries))) = Ok out ->
  Sorted id_le out /\ out ≡ₚ omap (entry_manifest fs dir) entries /\
  forall m, m ∈ out <-> exists d name f raw, d ∈ entries /\ d_is_file d = true /\ d_name d = Some name /\ manifest_name name = true /\
    fs (dir +:+ "/" +:+ name) = Some f /\ f_text f = Some raw /\ manifest_from_str raw = Some m /\ well_formed m.
Proof.
  intros Hd. simpl in Hd. apply bind_Ok in Hd as (l & Hl & [= <-]). destruct (discover_entries_Ok _ _ _ _ Hl) as (ds & Hds & ->).
  apply (inj (fmap Some)) in Hds as <-. split; [apply sort_by_id_sorted|]. split; [apply sort_by_id_perm|].
  intros m. rewrite sort_by_id_perm, list_elem_of_omap. unfold entry_manifest. split.
  - intros (d & Hin & Hm). destruct (d_is_file d) eqn:Ef; [|done]. apply bind_Some in Hm as (name & Hn & Hm).
    destruct (manifest_name name) eqn:En; [|done]. destruct (load fs _) eqn:El; simplify_eq.
    apply load_Ok in El as (f & raw & ?). exists d, name, f, raw. naive_solver.
  - intros (d & name & f & raw & Hin & Hf & Hn & Hmn & Hrest). exists d. split; [done|]. rewrite Hf, Hn. simpl. rewrite Hmn.
    assert (load fs (dir +:+ "/" +:+ name) = Ok m) as -> by (apply load_Ok; naive_solver). done.
Qed.
End Trusted.
