(* ===== verification/ExtDispatch.v ===== *)
(** * ExtDispatch: routing peers' requests to extensions (extensions/registry.rs,
    extensions/dispatcher.rs, the extension requests of [handle_session] in main.rs, and the
    reference extension hop-ext-echo)

    Every peer's request is a task of the host.  The tasks, one demultiplexer per
    connection, the dials and the extensions themselves interleave at the points where the
    code awaits a lock, a dial or a channel: a step of [step] is what happens between two
    of them.  A oneshot or frame channel is its receiver's index among the tasks; dropping
    the sender is removing the map entry that holds it. *)
From S2P Require Import Prelude Text Config Extensions.
Local Open Scope Z_scope.

(** ** The registry *)
Definition RETRY_BACKOFF : Z := 5000.
Inductive ExtensionStatus := Discovered | Connecting | Available | Unavailable (error : ext_error).
Definition is_available (s : ExtensionStatus) : bool := match s with Available => true | _ => false end.
(** A connection, by the number of its channel pair; [recv_taken] once its inbound
    receiver has an owner. *)
Record ExtensionConnection := { link_no : nat; recv_taken : bool }.
Record ExtensionEntry := {
  manifest : ExtensionManifest; status : ExtensionStatus; connection : option ExtensionConnection; last_attempt : option Z;
}.
Definition new_entry (m : ExtensionManifest) : ExtensionEntry := {| manifest := m; status := Discovered; connection := None; last_attempt := None |}.
(** [ExtensionRegistry::discover]: a later manifest with the same id replaces an earlier one. *)
Definition registry_of (ms : list ExtensionManifest) : gmap string ExtensionEntry :=
  foldl (fun r m => <[ext_id m := new_entry m]> r) ∅ ms.

(** The first half of [ensure_connected], under the lock: connected already, backing off,
    or a dial to start. *)
Definition ensure_connected (now : Z) (en : ExtensionEntry) : rust ext_error bool * ExtensionEntry :=
  match connection en, status en, last_attempt en with
  | Some _, Available, _ => (Ok true, en)
  | _, Unavailable error, Some last =>
      if now - last <? RETRY_BACKOFF then (Err (BackingOff error), en)
      else (Ok false, {| manifest := manifest en; status := Connecting; connection := connection en; last_attempt := Some now |})
  | _, _, _ => (Ok false, {| manifest := manifest en; status := Connecting; connection := connection en; last_attempt := Some now |})
  end.
(** Its second half, with what the dial gave. *)
Definition dial_ended (r : rust ext_error nat) (en : ExtensionEntry) : ExtensionEntry :=
  match r with
  | Ok c => {| manifest := manifest en; status := Available; connection := Some {| link_no := c; recv_taken := false |}; last_attempt := last_attempt en |}
  | Err e => {| manifest := manifest en; status := Unavailable e; connection := None; last_attempt := last_attempt en |}
  | Panic => en
  end.
Definition take_recv (en : ExtensionEntry) : option nat * ExtensionEntry :=
  match connection en with
  | Some c =>
      if recv_taken c then (None, en)
      else (Some (link_no c), {| manifest := manifest en; status := status en; connection := Some {| link_no := link_no c; recv_taken := true |};
                                 last_attempt := last_attempt en |})
  | None => (None, en)
  end.

(** ** Requests and answers *)
Record PeerContext := { peer_id : string; peer_username : option string; peer_role : string }.
Definition peer_context (id : string) (user : option string) (role : PeerRole) : PeerContext :=
  {| peer_id := id; peer_username := user; peer_role := match role with RolePeer => "peer" | RoleCreator => "creator" end |}.
Inductive ExtRequest :=
| ExtensionList
| ExtensionCall (ext : string) (payload : bytes)
| ExtensionStreamOpen (ext : string) (payload : bytes)
| ExtensionStreamInput (stream : Z) (payload : bytes)
| ExtensionStreamClose (stream : Z).
Record ExtensionInfo := { i_ext_id : string; i_description : string; i_required_role : string; i_available : bool }.
Inductive why := Unreachable (e : ext_error) | NoDemux | SendFailed (e : ext_error) | Disconnected (request : Z) | NotImplemented.
Inductive PeerResponse :=
| PError (w : why)
| ExtensionEntries (l : list ExtensionInfo)
| ExtensionResult (ok : bool) (payload : bytes)
| ExtensionStreamOpened (stream : Z)
| ExtensionStreamFrame (stream : Z) (payload : bytes)
| ExtensionStreamClosed (stream : Z) (reason : option string).
Inductive StreamFrameKind := Frame (payload : bytes) | Closed (reason : option string).

Fixpoint insert_info (x : ExtensionInfo) (l : list ExtensionInfo) : list ExtensionInfo :=
  match l with [] => [x] | y :: l => if str_leb (i_ext_id x) (i_ext_id y) then x :: y :: l else y :: insert_info x l end.
(** [list] and the answer [handle_list] makes of it. *)
Definition info (en : ExtensionEntry) : ExtensionInfo :=
  {| i_ext_id := ext_id (manifest en); i_description := description (manifest en); i_required_role := required_role (manifest en);
     i_available := is_available (status en) |}.
Definition list_infos (r : gmap string ExtensionEntry) : list ExtensionInfo := foldr insert_info [] (info <$> (map_to_list r).*2).

(** ** Tasks *)
(** What a task does once the extension is connected: start the demultiplexer, send its
    request, or go on probing. *)
Inductive Cont := ToDemux | ToSend (rid : Z) | ToProbe (rest : list string).
Inductive Pc :=
| Ensure (ext : string) (k : Cont)
| Dialing (ext : string) (k : Cont)
| Listing
| CheckDemux (ext : string)
| TakeRecv (ext : string)
| MarkDemux (ext : string) (link : nat)
| Install (ext : string)
| SendMsg (ext : string) (rid : Z)
| Unsend (rid : Z) (w : why)
| Await (rid : Z)
| Pump (stream : Z)
| Finished.
Record Task := {
  peer : PeerContext; req : ExtRequest; pc : Pc;
  (** The request id it was given, the oneshot's value, the frames queued for it, and what
      was written to the peer. *)
  rid : option Z; reply : option (bool * bytes); opened : option Z; frames : list StreamFrameKind; written : list PeerResponse;
}.
(** A channel pair: all that was handed to the outbound bridge and whether it still takes
    messages; all that arrived, how much of it was read, and whether more can come. *)
Record Link := {
  link_ext : string; outbound : list ExtMessage; bridge_open : bool;
  arrived : list ExtMessage; taken : nat; inbound_open : bool;
}.
(** A demultiplexer: reading, or at one of the locks it takes when its channel closed. *)
Inductive DemuxPc := Reading | ClearPending | ClearOpens | ClearStreams | Unmark | Ended.
Record Demux := { dx_ext : string; dx_link : nat; dx_pc : DemuxPc }.

Record Sys := {
  now : Z;
  extensions : gmap string ExtensionEntry;
  links : list Link;
  next_request_id : Z;
  pending : gmap Z nat;
  pending_stream_open : gmap Z nat;
  streams : gmap Z nat;
  demux_started : gset string;
  demuxes : list Demux;
  tasks : list Task;
}.
Definition boot (ms : list ExtensionManifest) : Sys :=
  {| now := 0; extensions := registry_of ms; links := []; next_request_id := 1; pending := ∅; pending_stream_open := ∅; streams := ∅;
     demux_started := ∅; demuxes := []; tasks := [] |}.

Definition set_now s x := {| now := x; extensions := extensions s; links := links s; next_request_id := next_request_id s; pending := pending s;
  pending_stream_open := pending_stream_open s; streams := streams s; demux_started := demux_started s; demuxes := demuxes s; tasks := tasks s |}.
Definition set_ext s x := {| now := now s; extensions := x; links := links s; next_request_id := next_request_id s; pending := pending s;
  pending_stream_open := pending_stream_open s; streams := streams s; demux_started := demux_started s; demuxes := demuxes s; tasks := tasks s |}.
Definition set_links s x := {| now := now s; extensions := extensions s; links := x; next_request_id := next_request_id s; pending := pending s;
  pending_stream_open := pending_stream_open s; streams := streams s; demux_started := demux_started s; demuxes := demuxes s; tasks := tasks s |}.
Definition set_next s x := {| now := now s; extensions := extensions s; links := links s; next_request_id := x; pending := pending s;
  pending_stream_open := pending_stream_open s; streams := streams s; demux_started := demux_started s; demuxes := demuxes s; tasks := tasks s |}.
Definition set_pending s x := {| now := now s; extensions := extensions s; links := links s; next_request_id := next_request_id s; pending := x;
  pending_stream_open := pending_stream_open s; streams := streams s; demux_started := demux_started s; demuxes := demuxes s; tasks := tasks s |}.
Definition set_opens s x := {| now := now s; extensions := extensions s; links := links s; next_request_id := next_request_id s; pending := pending s;
  pending_stream_open := x; streams := streams s; demux_started := demux_started s; demuxes := demuxes s; tasks := tasks s |}.
Definition set_streams s x := {| now := now s; extensions := extensions s; links := links s; next_request_id := next_request_id s; pending := pending s;
  pending_stream_open := pending_stream_open s; streams := x; demux_started := demux_started s; demuxes := demuxes s; tasks := tasks s |}.
Definition set_demuxes s started x := {| now := now s; extensions := extensions s; links := links s; next_request_id := next_request_id s; pending := pending s;
  pending_stream_open := pending_stream_open s; streams := streams s; demux_started := started; demuxes := x; tasks := tasks s |}.
Definition set_tasks s x := {| now := now s; extensions := extensions s; links := links s; next_request_id := next_request_id s; pending := pending s;
  pending_stream_open := pending_stream_open s; streams := streams s; demux_started := demux_started s; demuxes := demuxes s; tasks := x |}.

Definition goto (t : Task) (p : Pc) : Task :=
  {| peer := peer t; req := req t; pc := p; rid := rid t; reply := reply t; opened := opened t; frames := frames t; written := written t |}.
Definition answer (t : Task) (r : PeerResponse) : Task :=
  {| peer := peer t; req := req t; pc := Finished; rid := rid t; reply := reply t; opened := opened t; frames := frames t; written := written t ++ [r] |}.
Definition give_rid (t : Task) (r : Z) (p : Pc) : Task :=
  {| peer := peer t; req := req t; pc := p; rid := Some r; reply := reply t; opened := opened t; frames := frames t; written := written t |}.
Definition set_reply (t : Task) (r : bool * bytes) : Task :=
  {| peer := peer t; req := req t; pc := pc t; rid := rid t; reply := Some r; opened := opened t; frames := frames t; written := written t |}.
Definition set_opened (t : Task) (sid : Z) : Task :=
  {| peer := peer t; req := req t; pc := pc t; rid := rid t; reply := reply t; opened := Some sid; frames := frames t; written := written t |}.
Definition push_frame (f : StreamFrameKind) (t : Task) : Task :=
  {| peer := peer t; req := req t; pc := pc t; rid := rid t; reply := reply t; opened := opened t; frames := frames t ++ [f]; written := written t |}.
Definition write_frame (t : Task) (r : PeerResponse) (rest : list StreamFrameKind) (p : Pc) : Task :=
  {| peer := peer t; req := req t; pc := p; rid := rid t; reply := reply t; opened := opened t; frames := rest; written := written t ++ [r] |}.

(** Where a request starts: what [handle_session] and [dispatch] route it to. *)
Definition new_task (p : PeerContext) (r : ExtRequest) (ids : list string) : Task :=
  let t pc w := {| peer := p; req := r; pc := pc; rid := None; reply := None; opened := None; frames := []; written := w |} in
  match r with
  | ExtensionList => match ids with [] => t Listing [] | x :: rest => t (Ensure x (ToProbe rest)) [] end
  | ExtensionCall ext _ | ExtensionStreamOpen ext _ => t (Ensure ext ToDemux) []
  | ExtensionStreamInput _ _ | ExtensionStreamClose _ => t Finished [PError NotImplemented]
  end.
Definition is_open (r : ExtRequest) : bool := match r with ExtensionStreamOpen _ _ => true | _ => false end.
Definition request_payload (r : ExtRequest) : bytes := match r with ExtensionCall _ p | ExtensionStreamOpen _ p => p | _ => [] end.
Definition message_of (t : Task) (rid : Z) : ExtMessage :=
  (if is_open (req t) then StreamOpen else Request) rid (peer_id (peer t)) (peer_username (peer t)) (peer_role (peer t)) (request_payload (req t)).

Definition put (s : Sys) (i : nat) (t : Task) : Sys := set_tasks s (<[i := t]> (tasks s)).

(** After [ensure_connected], by what it was called for. *)
Definition resume (s : Sys) (i : nat) (t : Task) (ext : string) (k : Cont) (r : rust ext_error bool) : Sys :=
  match k, r with
  | ToProbe (x :: rest), _ => put s i (goto t (Ensure x (ToProbe rest)))
  | ToProbe [], _ => put s i (goto t Listing)
  | ToDemux, Ok _ => put s i (goto t (CheckDemux ext))
  | ToDemux, Err e => put s i (answer t (PError (Unreachable e)))
  | ToSend rid, Ok _ => put s i (goto t (SendMsg ext rid))
  | ToSend rid, Err e => put s i (goto t (Unsend rid (SendFailed e)))
  | _, Panic => s
  end.

Definition set_entry (s : Sys) (ext : string) (en : ExtensionEntry) : Sys := set_ext s (<[ext := en]> (extensions s)).
Definition push_out (m : ExtMessage) (l : Link) : Link :=
  {| link_ext := link_ext l; outbound := outbound l ++ [m]; bridge_open := bridge_open l; arrived := arrived l; taken := taken l; inbound_open := inbound_open l |}.
(** The second half of [send_to]. *)
Definition send_to (s : Sys) (ext : string) (m : ExtMessage) : rust ext_error Sys :=
  en ← or_err (extensions s !! ext) UnknownExtension;
  c ← or_err (connection en) NotConnected;
  match links s !! link_no c with
  | Some l => if bridge_open l then Ok (set_links s (<[link_no c := push_out m l]> (links s))) else Err BridgeClosed
  | None => Err BridgeClosed
  end.
(** A frame channel is open while some map holds its sender. *)
Definition has_sender (s : Sys) (i : nat) : bool := existsb (fun p : Z * nat => (p.2 =? i)%nat) (map_to_list (streams s)).

(** One step of task [i]: [None] while it waits. *)
Definition run_task (s : Sys) (i : nat) (t : Task) : option Sys :=
  match pc t with
  | Ensure ext k =>
      match extensions s !! ext with
      | None => Some (resume s i t ext k (Err UnknownExtension))
      | Some en =>
          let '(r, en) := ensure_connected (now s) en in
          match r with
          | Ok false => Some (put (set_entry s ext en) i (goto t (Dialing ext k)))
          | r => Some (resume s i t ext k r)
          end
      end
  | Dialing _ _ => None
  | Listing => Some (put s i (answer t (ExtensionEntries (list_infos (extensions s)))))
  | CheckDemux ext => Some (put s i (goto t (if decide (ext ∈ demux_started s) then Install ext else TakeRecv ext)))
  | TakeRecv ext =>
      match extensions s !! ext with
      | None => Some (put s i (answer t (PError NoDemux)))
      | Some en =>
          match take_recv en with
          | (Some c, en) => Some (put (set_entry s ext en) i (goto t (MarkDemux ext c)))
          | (None, _) => Some (put s i (answer t (PError NoDemux)))
          end
      end
  | MarkDemux ext c =>
      Some (put (set_demuxes s ({[ext]} ∪ demux_started s) (demuxes s ++ [{| dx_ext := ext; dx_link := c; dx_pc := Reading |}])) i (goto t (Install ext)))
  | Install ext =>
      let r := next_request_id s in
      let s := set_next s (u64 (r + 1)) in
      let s := if is_open (req t) then set_opens s (<[r := i]> (pending_stream_open s)) else set_pending s (<[r := i]> (pending s)) in
      Some (put s i (give_rid t r (Ensure ext (ToSend r))))
  | SendMsg ext r =>
      match send_to s ext (message_of t r) with
      | Ok s => Some (put s i (goto t (Await r)))
      | Err e => Some (put s i (goto t (Unsend r (SendFailed e))))
      | Panic => None
      end
  | Unsend r w =>
      let s := if is_open (req t) then set_opens s (delete r (pending_stream_open s)) else set_pending s (delete r (pending s)) in
      Some (put s i (answer t (PError w)))
  | Await r =>
      if is_open (req t) then
        match opened t with
        | Some sid => Some (put s i (write_frame t (ExtensionStreamOpened sid) (frames t) (Pump sid)))
        | None => if decide (pending_stream_open s !! r = Some i) then None else Some (put s i (answer t (PError (Disconnected r))))
        end
      else
        match reply t with
        | Some (ok, p) => Some (put s i (answer t (ExtensionResult ok p)))
        | None => if decide (pending s !! r = Some i) then None else Some (put s i (answer t (PError (Disconnected r))))
        end
  | Pump sid =>
      match frames t with
      | Frame p :: rest => Some (put s i (write_frame t (ExtensionStreamFrame sid p) rest (Pump sid)))
      | Closed reason :: rest => Some (put s i (write_frame t (ExtensionStreamClosed sid reason) rest Finished))
      | [] => if has_sender s i then None else Some (put s i (goto t Finished))
      end
  | Finished => None
  end.

(** ** The demultiplexer *)
Definition on_task (s : Sys) (i : nat) (f : Task -> Task) : Sys := set_tasks s (alter f i (tasks s)).
Definition demux_message (s : Sys) (m : ExtMessage) : Sys :=
  match m with
  | Response r ok p =>
      match pending s !! r with
      | Some i => on_task (set_pending s (delete r (pending s))) i (fun t => set_reply t (ok, p))
      | None => s
      end
  | StreamOpened r sid =>
      match pending_stream_open s !! r with
      | Some i => on_task (set_streams (set_opens s (delete r (pending_stream_open s))) (<[sid := i]> (streams s))) i (fun t => set_opened t sid)
      | None => s
      end
  | StreamFrame sid p =>
      match streams s !! sid with Some i => on_task s i (push_frame (Frame p)) | None => s end
  | StreamClosed sid reason =>
      match streams s !! sid with
      | Some i => on_task (set_streams s (delete sid (streams s))) i (push_frame (Closed reason))
      | None => s
      end
  | _ => s
  end.
Definition read_one (l : Link) : Link :=
  {| link_ext := link_ext l; outbound := outbound l; bridge_open := bridge_open l; arrived := arrived l; taken := S (taken l); inbound_open := inbound_open l |}.
Definition demux_to (s : Sys) (d : nat) (x : Demux) (p : DemuxPc) : Sys :=
  set_demuxes s (demux_started s) (<[d := {| dx_ext := dx_ext x; dx_link := dx_link x; dx_pc := p |}]> (demuxes s)).
Definition run_demux (s : Sys) (d : nat) (x : Demux) : option Sys :=
  match dx_pc x with
  | Reading =>
      l ← links s !! dx_link x;
      match arrived l !! taken l with
      | Some m => Some (demux_message (set_links s (<[dx_link x := read_one l]> (links s))) m)
      | None => if inbound_open l then None else Some (demux_to s d x ClearPending)
      end
  | ClearPending => Some (demux_to (set_pending s ∅) d x ClearOpens)
  | ClearOpens => Some (demux_to (set_opens s ∅) d x ClearStreams)
  | ClearStreams => Some (demux_to (set_streams s ∅) d x Unmark)
  | Unmark =>
      let s := demux_to s d x Ended in
      Some (set_demuxes s (demux_started s ∖ {[dx_ext x]}) (demuxes s))
  | Ended => None
  end.

(** ** The system *)
Inductive event :=
| Arrive (p : PeerContext) (r : ExtRequest)
| Run (i : nat)
| WriteFails (i : nat)
| Dialed (i : nat) (e : ConnectEnv)
| Demultiplex (d : nat)
| Sends (c : nat) (m : ExtMessage)
| Dies (c : nat)
| BridgeFails (c : nat)
| Tick (t : Z).

Section Step.
Context `{!Toml}.

Definition dialed (s : Sys) (i : nat) (t : Task) (ext : string) (k : Cont) (e : ConnectEnv) : option Sys :=
  en ← extensions s !! ext;
  match connect_blocking e (manifest en) with
  | Ok (_, hello) =>
      let c := length (links s) in
      let s := set_links s (links s ++ [{| link_ext := ext; outbound := hello; bridge_open := true; arrived := []; taken := 0; inbound_open := true |}]) in
      Some (resume (set_entry s ext (dial_ended (Ok c) en)) i t ext k (Ok true))
  | Err x => Some (resume (set_entry s ext (dial_ended (Err x) en)) i t ext k (Err x))
  | Panic => None
  end.

Definition step (s : Sys) (e : event) : option Sys :=
  match e with
  | Arrive p r => Some (set_tasks s (tasks s ++ [new_task p r (map_to_list (extensions s)).*1]))
  | Run i => t ← tasks s !! i; run_task s i t
  | WriteFails i =>
      t ← tasks s !! i;
      match pc t with
      | Await _ => if is_open (req t) && bool_decide (is_Some (opened t)) then Some (put s i (goto t Finished)) else None
      | Pump _ => if bool_decide (frames t = []) then None else Some (put s i (goto t Finished))
      | _ => None
      end
  | Dialed i e => t ← tasks s !! i; match pc t with Dialing ext k => dialed s i t ext k e | _ => None end
  | Demultiplex d => x ← demuxes s !! d; run_demux s d x
  | Sends c m =>
      l ← links s !! c;
      if inbound_open l then
        Some (set_links s (<[c := {| link_ext := link_ext l; outbound := outbound l; bridge_open := bridge_open l; arrived := arrived l ++ [m];
                                     taken := taken l; inbound_open := true |}]> (links s)))
      else None
  | Dies c =>
      l ← links s !! c;
      Some (set_links s (<[c := {| link_ext := link_ext l; outbound := outbound l; bridge_open := bridge_open l; arrived := arrived l;
                                   taken := taken l; inbound_open := false |}]> (links s)))
  | BridgeFails c =>
      l ← links s !! c;
      Some (set_links s (<[c := {| link_ext := link_ext l; outbound := outbound l; bridge_open := false; arrived := arrived l;
                                   taken := taken l; inbound_open := inbound_open l |}]> (links s)))
  | Tick t => if now s <=? t then Some (set_now s t) else None
  end.
Fixpoint steps (s : Sys) (es : list event) : option Sys :=
  match es with [] => Some s | e :: es => s ← step s e; steps s es end.
End Step.

(** The reference extension's loop: its answer to a message. *)
Definition echo (m : ExtMessage) : list ExtMessage :=
  match m with
  | Request r _ _ _ p => [Response r true p]
  | StreamOpen _ _ _ _ _ => [StreamClosed 0 (Some "echo extension does not support streams")]
  | _ => []
  end.

(** ** Where answers come from *)
(** The extension a request is for. *)
Definition target (t : Task) : option string :=
  match req t with ExtensionCall ext _ | ExtensionStreamOpen ext _ => Some ext | _ => None end.
Definition frame_message (sid : Z) (f : StreamFrameKind) : ExtMessage :=
  match f with Frame p => StreamFrame sid p | Closed reason => StreamClosed sid reason end.
(** The message came from the extension on channel [c]. *)
Definition came_on (ls : list Link) (c : nat) (m : ExtMessage) : Prop := exists l, ls !! c = Some l /\ m ∈ arrived l.

(** An extension answers only requests it was sent, and only uses streams it opened. *)
Definition honest (s : Sys) (e : event) : Prop :=
  match e with
  | Sends c (Response r _ _) => exists l id u role p, links s !! c = Some l /\ Request r id u role p ∈ outbound l
  | Sends c (StreamOpened r _) => exists l id u role p, links s !! c = Some l /\ StreamOpen r id u role p ∈ outbound l
  | Sends c (StreamFrame sid _) | Sends c (StreamClosed sid _) => exists r, came_on (links s) c (StreamOpened r sid)
  | _ => True
  end.

Definition pc_ok (t : Task) : Prop :=
  match pc t with
  | Ensure ext (ToSend r) | Dialing ext (ToSend r) | SendMsg ext r => rid t = Some r /\ target t = Some ext
  | Ensure ext ToDemux | Dialing ext ToDemux | CheckDemux ext | TakeRecv ext | MarkDemux ext _ | Install ext => rid t = None /\ target t = Some ext
  | Unsend r _ | Await r => rid t = Some r
  | Pump sid => opened t = Some sid
  | _ => True
  end.
Definition written_ok (ls : list Link) (t : Task) (w : PeerResponse) : Prop :=
  match w with
  | ExtensionResult ok p => reply t = Some (ok, p)
  | ExtensionStreamOpened sid => opened t = Some sid
  | ExtensionStreamFrame sid p => opened t = Some sid /\ exists c, came_on ls c (StreamFrame sid p)
  | ExtensionStreamClosed sid reason => opened t = Some sid /\ exists c, came_on ls c (StreamClosed sid reason)
  | _ => True
  end.
Record task_ok (next : Z) (ls : list Link) (t : Task) : Prop := {
  ok_rid : forall r, rid t = Some r -> 1 <= r < next;
  ok_pc : pc_ok t;
  ok_reply : forall ok p, reply t = Some (ok, p) -> exists r c, rid t = Some r /\ came_on ls c (Response r ok p);
  ok_opened : forall sid, opened t = Some sid -> exists r c, rid t = Some r /\ came_on ls c (StreamOpened r sid);
  ok_frames : forall f, f ∈ frames t -> exists sid c, opened t = Some sid /\ came_on ls c (frame_message sid f);
  ok_written : forall w, w ∈ written t -> written_ok ls t w;
}.
(** What was sent on a channel are the Hello and the tasks' requests to its extension. *)
Definition link_ok (ts : list Task) (l : Link) : Prop :=
  (forall m, m ∈ outbound l -> (exists v n, m = Hello v n) \/
     exists i t r, ts !! i = Some t /\ rid t = Some r /\ m = message_of t r /\ target t = Some (link_ext l)) /\
  (forall m, m ∈ arrived l ->
     match m with
     | Response r _ _ => exists id u role p, Request r id u role p ∈ outbound l
     | StreamOpened r _ => exists id u role p, StreamOpen r id u role p ∈ outbound l
     | StreamFrame sid _ | StreamClosed sid _ => exists r, StreamOpened r sid ∈ arrived l
     | _ => True
     end).
Record Inv (n : nat) (s : Sys) : Prop := {
  i_next : 1 <= next_request_id s <= 1 + Z.of_nat n;
  i_task : forall i t, tasks s !! i = Some t -> task_ok (next_request_id s) (links s) t;
  i_uniq : forall i j t u r, tasks s !! i = Some t -> tasks s !! j = Some u -> rid t = Some r -> rid u = Some r -> i = j;
  i_pending : forall r i, pending s !! r = Some i -> exists t, tasks s !! i = Some t /\ rid t = Some r /\ is_open (req t) = false /\ reply t = None;
  i_opens : forall r i, pending_stream_open s !! r = Some i -> exists t, tasks s !! i = Some t /\ rid t = Some r /\ is_open (req t) = true /\ opened t = None;
  i_streams : forall sid i, streams s !! sid = Some i -> exists t, tasks s !! i = Some t /\ opened t = Some sid;
  i_links : forall c l, links s !! c = Some l -> link_ok (tasks s) l;
  i_conn : forall ext en c, extensions s !! ext = Some en -> connection en = Some c -> exists l, links s !! link_no c = Some l /\ link_ext l = ext;
}.

(** *** How a task and the channels change *)
Record evolves (t t' : Task) : Prop := {
  ev_peer : peer t' = peer t;
  ev_req : req t' = req t;
  ev_rid : rid t' = rid t;
  ev_opened : forall sid, opened t = Some sid -> opened t' = Some sid;
}.
Definition grows (ls ls' : list Link) : Prop :=
  forall c l, ls !! c = Some l -> exists l', ls' !! c = Some l' /\ link_ext l' = link_ext l /\ outbound l ⊆ outbound l' /\ arrived l ⊆ arrived l'.
Lemma grows_refl ls : grows ls ls.
Proof. intros c l Hl. by exists l. Qed.
Lemma grows_came ls ls' c m : grows ls ls' -> came_on ls c m -> came_on ls' c m.
Proof. intros Hg (l & Hl & Hm). destruct (Hg c l Hl) as (l' & Hl' & _ & _ & Ha). exists l'. split; [done|]. by apply Ha. Qed.
Lemma grows_insert ls c l l' : ls !! c = Some l -> link_ext l' = link_ext l -> outbound l ⊆ outbound l' -> arrived l ⊆ arrived l' -> grows ls (<[c := l']> ls).
Proof.
  intros Hl He Ho Ha d k Hk. destruct (decide (c = d)) as [->|Hne].
  - exists l'. simplify_eq. rewrite list_lookup_insert_eq by (by eapply lookup_lt_Some). done.
  - exists k. rewrite list_lookup_insert_ne by done. done.
Qed.
Lemma grows_app ls x : grows ls (ls ++ x).
Proof. intros c l Hl. exists l. split; [by apply lookup_app_l_Some|done]. Qed.

Lemma task_ok_mono next next' ls ls' t : next <= next' -> grows ls ls' -> task_ok next ls t -> task_ok next' ls' t.
Proof.
  intros Hn Hg [Hrid Hpc Hrep Hop Hfr Hw]. split; try done.
  - intros r Hr. specialize (Hrid r Hr). lia.
  - intros ok p Hp. destruct (Hrep ok p Hp) as (r & c & Hr & Hc). exists r, c. eauto using grows_came.
  - intros sid Hs. destruct (Hop sid Hs) as (r & c & Hr & Hc). exists r, c. eauto using grows_came.
  - intros f Hf. destruct (Hfr f Hf) as (sid & c & Hr & Hc). exists sid, c. eauto using grows_came.
  - intros w Hw'. specialize (Hw w Hw'). destruct w; try done; destruct Hw as (Ho & c & Hc); (split; [done|]); exists c; by eapply grows_came.
Qed.

Lemma lookup_insert_task (ts : list Task) i t t' j u : ts !! i = Some t -> <[i := t']> ts !! j = Some u -> j = i /\ u = t' \/ j <> i /\ ts !! j = Some u.
Proof. intros Hi Hj. apply list_lookup_insert_Some in Hj as [(<- & <- & _)|(Hne & Hj)]; auto. Qed.
Lemma message_of_evolves t t' r : evolves t t' -> message_of t' r = message_of t r /\ target t' = target t.
Proof. intros [Hp Hq _ _]. unfold message_of, target. by rewrite Hp, Hq. Qed.

Lemma link_ok_insert ts i t t' l : ts !! i = Some t -> evolves t t' -> link_ok ts l -> link_ok (<[i := t']> ts) l.
Proof.
  intros Hi He [Ho Ha]. split; [|done]. intros m Hm. destruct (Ho m Hm) as [Hh|(j & u & r & Hj & Hr & Hmsg & Ht)]; [by left|right].
  destruct (decide (j = i)) as [->|Hne].
  - simplify_eq. destruct (message_of_evolves t t' r He) as [Hm' Ht']. exists i, t', r. rewrite list_lookup_insert_eq by (by eapply lookup_lt_Some).
    split; [done|]. rewrite (ev_rid _ _ He), Hm', Ht'. done.
  - exists j, u, r. by rewrite list_lookup_insert_ne by done.
Qed.

(** Replacing a task by one it evolves to; its answer may arrive once it waits no more. *)
Lemma inv_set_task n s i t t' : Inv n s -> tasks s !! i = Some t -> evolves t t' -> task_ok (next_request_id s) (links s) t' ->
  (forall r, pending s !! r = Some i -> reply t' = reply t) -> (forall r, pending_stream_open s !! r = Some i -> opened t' = opened t) ->
  Inv n (put s i t').
Proof.
  intros [Hn Ht Hu Hp Ho Hs Hl Hc] Hi He Hok Hrep Hop. pose proof (lookup_lt_Some _ _ _ Hi) as Hlt.
  assert (forall P : Task -> Prop, (P t -> P t') -> forall j, (exists u, tasks s !! j = Some u /\ P u) -> exists u, <[i := t']> (tasks s) !! j = Some u /\ P u) as Hpt.
  { intros P HP j (u & Hj & HPu). destruct (decide (i = j)) as [->|Hne].
    - simplify_eq. exists t'. rewrite list_lookup_insert_eq by done. auto.
    - exists u. by rewrite list_lookup_insert_ne by done. }
  split; cbn; try done.
  - intros j u Hj. destruct (lookup_insert_task _ _ _ _ _ _ Hi Hj) as [[-> ->]|[_ Hj']]; eauto.
  - intros j k u v r Hj Hk Hru Hrv.
    assert (forall j u, <[i := t']> (tasks s) !! j = Some u -> rid u = Some r -> exists u0, tasks s !! j = Some u0 /\ rid u0 = Some r) as Hback.
    { intros j0 u0 Hj0 Hr0. destruct (lookup_insert_task _ _ _ _ _ _ Hi Hj0) as [[-> ->]|[_ Hj']]; [|eauto]. exists t. by rewrite <-(ev_rid _ _ He). }
    destruct (Hback _ _ Hj Hru) as (u0 & Hj0 & Hr0), (Hback _ _ Hk Hrv) as (v0 & Hk0 & Hr0'). eauto.
  - intros r j Hr. destruct (Hp r j Hr) as (u & Hj & Hru). destruct (decide (i = j)) as [->|Hne].
    + simplify_eq. exists t'. rewrite list_lookup_insert_eq, (ev_rid _ _ He), (ev_req _ _ He), (Hrep r Hr) by done. done.
    + exists u. by rewrite list_lookup_insert_ne by done.
  - intros r j Hr. destruct (Ho r j Hr) as (u & Hj & Hru). destruct (decide (i = j)) as [->|Hne].
    + simplify_eq. exists t'. rewrite list_lookup_insert_eq, (ev_rid _ _ He), (ev_req _ _ He), (Hop r Hr) by done. done.
    + exists u. by rewrite list_lookup_insert_ne by done.
  - intros sid j Hsid. apply (Hpt (fun u => opened u = Some sid)); [|eauto]. apply (ev_opened _ _ He).
  - intros c l Hcl. eapply link_ok_insert; eauto.
Qed.

Lemma inv_put n s i t t' : Inv n s -> tasks s !! i = Some t -> evolves t t' -> task_ok (next_request_id s) (links s) t' ->
  reply t' = reply t -> opened t' = opened t -> Inv n (put s i t').
Proof. intros. by eapply inv_set_task. Qed.

(** Entries leaving the maps, entries of the registry, and growing channels. *)
Lemma inv_shrink n s p o st started ds : Inv n s -> p ⊆ pending s -> o ⊆ pending_stream_open s -> st ⊆ streams s ->
  Inv n (set_demuxes (set_streams (set_opens (set_pending s p) o) st) started ds).
Proof.
  intros [Hn Ht Hu Hp Ho Hs Hl Hc] Hps Hos Hss. split; cbn; try done.
  - intros r i Hr. apply Hp. by eapply lookup_weaken.
  - intros r i Hr. apply Ho. by eapply lookup_weaken.
  - intros r i Hr. apply Hs. by eapply lookup_weaken.
Qed.
Lemma inv_entry n s ext en : Inv n s ->
  (forall c, connection en = Some c -> exists l, links s !! link_no c = Some l /\ link_ext l = ext) -> Inv n (set_entry s ext en).
Proof.
  intros [Hn Ht Hu Hp Ho Hs Hl Hc] Hen. split; cbn; try done.
  intros x e c He. apply lookup_insert_Some in He as [[<- <-]|[_ He]]; eauto.
Qed.
Lemma inv_links n s ls : Inv n s -> grows (links s) ls -> (forall c l, ls !! c = Some l -> link_ok (tasks s) l) -> Inv n (set_links s ls).
Proof.
  intros [Hn Ht Hu Hp Ho Hs Hl Hc] Hg Hls. split; cbn; try done.
  - intros i t Hi. eapply task_ok_mono; [reflexivity|done|eauto].
  - intros ext en c He Hcn. destruct (Hc ext en c He Hcn) as (l & Hl' & Hx). destruct (Hg _ _ Hl') as (l' & ? & ? & _). exists l'. split; congruence.
Qed.
Lemma inv_weaken n m s : (n <= m)%nat -> Inv n s -> Inv m s.
Proof. intros Hm [Hn Ht Hu Hp Ho Hs Hl Hc]. split; try done. lia. Qed.

(** *** Steps of a task *)
Lemma goto_evolves t p : evolves t (goto t p).
Proof. by split. Qed.
Lemma answer_evolves t w : evolves t (answer t w).
Proof. by split. Qed.
Lemma goto_ok next ls t p : task_ok next ls t -> pc_ok (goto t p) -> task_ok next ls (goto t p).
Proof. by intros [Hrid Hpc Hrep Hop Hfr Hw] Hp. Qed.
Lemma written_snoc ls (t t' : Task) w :
  reply t' = reply t -> opened t' = opened t -> (forall x, x ∈ written t -> written_ok ls t x) -> written_ok ls t w ->
  forall x, x ∈ written t ++ [w] -> written_ok ls t' x.
Proof. intros Hr Ho Hw H1 x [Hx|Hx%list_elem_of_singleton]%elem_of_app; [specialize (Hw x Hx)|subst x]; unfold written_ok in *; rewrite Hr, Ho; done. Qed.
Lemma answer_ok next ls t w : task_ok next ls t -> written_ok ls t w -> task_ok next ls (answer t w).
Proof. intros [Hrid Hpc Hrep Hop Hfr Hw] Hok. split; try done. cbn. by apply (written_snoc ls t). Qed.
Lemma write_frame_ok next ls t w rest p : task_ok next ls t -> written_ok ls t w -> rest ⊆ frames t -> pc_ok (goto t p) -> task_ok next ls (write_frame t w rest p).
Proof. intros [Hrid Hpc Hrep Hop Hfr Hw] Hok Hr Hp. split; try done; cbn; [intros f Hf; by apply Hfr, Hr|by apply (written_snoc ls t)]. Qed.

Definition cont_pc (ext : string) (k : Cont) (p : Pc) : Prop := p = Ensure ext k \/ p = Dialing ext k.
Lemma inv_goto n s i t p : Inv n s -> tasks s !! i = Some t -> pc_ok (goto t p) -> Inv n (put s i (goto t p)).
Proof. intros HI Hi Hp. eapply inv_put; eauto using goto_evolves, goto_ok, i_task. Qed.
Lemma inv_answer n s i t w : Inv n s -> tasks s !! i = Some t -> written_ok (links s) t w -> Inv n (put s i (answer t w)).
Proof. intros HI Hi Hw. eapply inv_put; eauto using answer_evolves, answer_ok, i_task. Qed.

Lemma inv_resume n s i t ext k r : Inv n s -> tasks s !! i = Some t -> cont_pc ext k (pc t) -> Inv n (resume s i t ext k r).
Proof.
  intros HI Hi Hk. pose proof (ok_pc _ _ _ (i_task _ _ HI i t Hi)) as Hpc. unfold pc_ok in Hpc.
  destruct k as [|rd|[|x rest]], r; simpl; try done; try (by apply inv_goto); try (by apply inv_answer);
    apply inv_goto; try done; unfold pc_ok; cbn; destruct Hk as [Hk|Hk]; rewrite Hk in Hpc; naive_solver.
Qed.

Lemma send_to_Ok s ext m s' : send_to s ext m = Ok s' ->
  exists en c l, extensions s !! ext = Some en /\ connection en = Some c /\ links s !! link_no c = Some l /\
    s' = set_links s (<[link_no c := push_out m l]> (links s)).
Proof.
  unfold send_to. destruct (extensions s !! ext) as [en|]; [|done]. simpl. destruct (connection en) as [c|] eqn:Ec; [|done]. simpl.
  destruct (links s !! link_no c) as [l|] eqn:El; [|done]. destruct (bridge_open l); [|done]. intros [= <-]. naive_solver.
Qed.

(** Channels that only grow keep what was said about the others. *)
Lemma link_ok_update (ls : list Link) (ts : list Task) c l l' : ls !! c = Some l -> (forall d k, ls !! d = Some k -> link_ok ts k) -> link_ok ts l' ->
  forall d k, <[c := l']> ls !! d = Some k -> link_ok ts k.
Proof. intros Hc Hall Hl' d k Hk. apply list_lookup_insert_Some in Hk as [(_ & <- & _)|[_ Hk]]; eauto. Qed.

Lemma inv_send n s ext i t r s' : Inv n s -> tasks s !! i = Some t -> rid t = Some r -> target t = Some ext ->
  send_to s ext (message_of t r) = Ok s' -> Inv n s' /\ tasks s' = tasks s.
Proof.
  intros HI Hi Hr Ht (en & c & l & He & Hc & Hl & ->)%send_to_Ok. split; [|done].
  destruct (i_conn _ _ HI ext en c He Hc) as (l0 & Hl0 & Hext). simplify_eq.
  apply inv_links; [done|apply (grows_insert _ _ _ _ Hl); [done| |done]; cbn; set_solver|].
  apply (link_ok_update _ _ _ _ _ Hl); [apply (i_links _ _ HI)|]. destruct (i_links _ _ HI _ _ Hl) as [Ho Ha]. split; cbn.
  - intros m [Hm|Hm%list_elem_of_singleton]%elem_of_app; [by apply Ho|subst m]. right. eauto 10.
  - intros m Hm. specialize (Ha m Hm). destruct m; try done; destruct Ha as (id & u & role & p & Hin); exists id, u, role, p; set_solver.
Qed.

(** Giving out a request id. *)
Lemma inv_install n s i t ext : Inv n s -> Z.of_nat n + 2 < 2 ^ 64 -> tasks s !! i = Some t -> pc t = Install ext ->
  forall s', run_task s i t = Some s' -> Inv (S n) s'.
Proof.
  intros HI Hn Hi Hpc s'. unfold run_task. rewrite Hpc. intros [= <-].
  pose proof (i_task _ _ HI i t Hi) as Hok. pose proof (ok_pc _ _ _ Hok) as Hp. unfold pc_ok in Hp. rewrite Hpc in Hp. destruct Hp as [Hr0 Ht0].
  destruct HI as [Hnx Ht Hu Hp Ho Hs Hl Hc]. set (r := next_request_id s) in *.
  assert (u64 (r + 1) = r + 1) as Hw by (unfold u64; rewrite Z.mod_small; lia).
  set (t' := give_rid t r (Ensure ext (ToSend r))).
  assert (forall j u q, <[i := t']> (tasks s) !! j = Some u -> rid u = Some q -> j = i /\ q = r \/ j <> i /\ tasks s !! j = Some u /\ q < r) as Hback.
  { intros j u q Hj Hq. destruct (lookup_insert_task _ _ _ _ _ _ Hi Hj) as [[-> ->]|[Hne Hj']]; [left; simplify_eq/=; done|right].
    split; [done|]. split; [done|]. apply (ok_rid _ _ _ (Ht j u Hj')) in Hq. lia. }
  assert (forall j u, tasks s !! j = Some u -> j = i /\ u = t \/ <[i := t']> (tasks s) !! j = Some u /\ j <> i) as Hfwd.
  { intros j u Hj. destruct (decide (i = j)) as [->|Hne]; [left; split; [done|congruence]|right]. by rewrite list_lookup_insert_ne by done. }
  assert (<[i := t']> (tasks s) !! i = Some t') as Hii by (rewrite list_lookup_insert_eq by (by eapply lookup_lt_Some); done).
  assert (task_ok (r + 1) (links s) t') as Hok'.
  { destruct (task_ok_mono r (r + 1) _ _ _ ltac:(lia) (grows_refl _) Hok) as [Hrid Hpc' Hrep Hop Hfr Hwr]. split; cbn; try done.
    - intros q [= <-]. lia.
    - intros ok p Hrp. destruct (Hrep ok p Hrp) as (q & c & Hq & _). congruence.
    - intros sid Hsd. destruct (Hop sid Hsd) as (q & c & Hq & _). congruence. }
  assert (forall (m : gmap Z nat) b (P : Task -> Prop), (forall q j, m !! q = Some j -> exists u, tasks s !! j = Some u /\ rid u = Some q /\ is_open (req u) = b /\ P u) ->
    forall q j, m !! q = Some j -> exists u, <[i := t']> (tasks s) !! j = Some u /\ rid u = Some q /\ is_open (req u) = b /\ P u) as Hmap.
  { intros m b P Hm q j Hq. destruct (Hm q j Hq) as (u & Hj & Hru & Hb). destruct (Hfwd j u Hj) as [[-> ->]|[Hj' _]]; [congruence|eauto]. }
  assert (forall (m : gmap Z nat) b (P : Task -> Prop), is_open (req t) = b -> P t' ->
    (forall q j, m !! q = Some j -> exists u, tasks s !! j = Some u /\ rid u = Some q /\ is_open (req u) = b /\ P u) ->
    forall q j, <[r := i]> m !! q = Some j -> exists u, <[i := t']> (tasks s) !! j = Some u /\ rid u = Some q /\ is_open (req u) = b /\ P u) as Hmap'.
  { intros m b P Hb HP Hm q j Hq. apply lookup_insert_Some in Hq as [[<- <-]|[_ Hq]]; [exists t'; done|by eapply Hmap]. }
  assert (reply t' = None /\ opened t' = None) as [Hrep0 Hop0].
  { split; [destruct (reply t) as [[ok p]|] eqn:E; [|done]|destruct (opened t) as [sid|] eqn:E; [|done]].
    - destruct (ok_reply _ _ _ Hok _ _ E) as (q & c & Hq & _). congruence.
    - destruct (ok_opened _ _ _ Hok _ E) as (q & c & Hq & _). congruence. }
  destruct (is_open (req t)) eqn:Eo; split; cbn; rewrite ?Hw; try done; try lia.
  all: try (intros j u Hj; destruct (lookup_insert_task _ _ _ _ _ _ Hi Hj) as [[-> ->]|[Hne Hj']]; [done|apply (task_ok_mono r (r + 1) (links s)); eauto using grows_refl; lia]).
  all: try (intros j k u v q Hj Hk Hru Hrv; destruct (Hback _ _ _ Hj Hru) as [[-> ?]|(? & ? & ?)], (Hback _ _ _ Hk Hrv) as [[-> ?]|(? & ? & ?)]; solve [done|lia|eauto]).
  all: try (by apply (Hmap _ _ (fun u => reply u = None))).
  all: try (by apply (Hmap _ _ (fun u => opened u = None))).
  all: try (by apply (Hmap' _ _ (fun u => reply u = None))).
  all: try (by apply (Hmap' _ _ (fun u => opened u = None))).
  all: try (intros sid j Hsid; destruct (Hs sid j Hsid) as (u & Hj & Hou); destruct (Hfwd j u Hj) as [[-> ->]|[Hj' _]]; eauto).
  all: intros c l Hcl; destruct (Hl c l Hcl) as [Hout Harr]; split; [|done]; intros m Hm; destruct (Hout m Hm) as [Hh|(j & u & q & Hj & Hru & Hmsg & Htg)]; [by left|right].
  all: destruct (Hfwd j u Hj) as [[-> ->]|[Hj' _]]; [congruence|eauto 10].
Qed.

Lemma ensure_connected_conn t en r en' : ensure_connected t en = (r, en') -> connection en' = connection en.
Proof. unfold ensure_connected. intros. repeat case_match; simplify_eq/=; congruence. Qed.
Lemma take_recv_conn en o en' c' : take_recv en = (o, en') -> connection en' = Some c' -> exists c, connection en = Some c /\ link_no c = link_no c'.
Proof. unfold take_recv. intros. repeat case_match; simplify_eq/=; eauto. Qed.
Lemma inv_demuxes n s started ds : Inv n s -> Inv n (set_demuxes s started ds).
Proof. intros HI. by apply (inv_shrink n s (pending s) (pending_stream_open s) (streams s) started ds HI). Qed.
Lemma inv_unpend n s r : Inv n s -> Inv n (set_pending s (delete r (pending s))).
Proof. intros HI. exact (inv_shrink n s (delete r (pending s)) (pending_stream_open s) (streams s) (demux_started s) (demuxes s) HI (delete_subseteq _ _) (reflexivity _) (reflexivity _)). Qed.
Lemma inv_unopen n s r : Inv n s -> Inv n (set_opens s (delete r (pending_stream_open s))).
Proof. intros HI. exact (inv_shrink n s (pending s) (delete r (pending_stream_open s)) (streams s) (demux_started s) (demuxes s) HI (reflexivity _) (delete_subseteq _ _) (reflexivity _)). Qed.
Lemma inv_unstream n s r : Inv n s -> Inv n (set_streams s (delete r (streams s))).
Proof. intros HI. exact (inv_shrink n s (pending s) (pending_stream_open s) (delete r (streams s)) (demux_started s) (demuxes s) HI (reflexivity _) (reflexivity _) (delete_subseteq _ _)). Qed.

Lemma inv_run_task n s i t s' : Inv n s -> Z.of_nat n + 2 < 2 ^ 64 -> tasks s !! i = Some t -> run_task s i t = Some s' -> Inv (S n) s'.
Proof.
  intros HI Hn Hi Hrun. pose proof (inv_install n s i t) as Hinst. apply (inv_weaken n (S n)) in HI as HI'; [|lia].
  pose proof (i_task _ _ HI i t Hi) as Hok. pose proof (ok_pc _ _ _ Hok) as Hp. pose proof Hrun as Hrun0. unfold pc_ok in Hp. unfold run_task in Hrun.
  destruct (pc t) as [ext k|ext k| |ext|ext|ext c|ext|ext r|r w|r|sid|] eqn:Epc; [| | | | | |by eapply Hinst| | | | |]; clear Hinst Hrun0.
  - destruct (extensions s !! ext) as [en|] eqn:Een; [|simplify_eq; apply inv_resume; [done|done|by left]].
    destruct (ensure_connected (now s) en) as [r en'] eqn:Ee. apply ensure_connected_conn in Ee.
    destruct r as [[]|e|]; simplify_eq; try (apply inv_resume; [done|done|by left]).
    apply inv_goto; [|done|]; [|unfold pc_ok; cbn; by destruct k].
    apply inv_entry; [done|]. intros c Hc. rewrite Ee in Hc. by apply (i_conn _ _ HI ext en c).
  - done.
  - simplify_eq. by apply inv_answer.
  - simplify_eq. apply inv_goto; [done|done|]. unfold pc_ok. cbn. by case_decide.
  - destruct (extensions s !! ext) as [en|] eqn:Een; [|simplify_eq; by apply inv_answer].
    destruct (take_recv en) as [[c|] en'] eqn:Et; simplify_eq; [|by apply inv_answer].
    apply inv_goto; [|done|done]. apply inv_entry; [done|]. intros c' Hc'. destruct (take_recv_conn _ _ _ _ Et Hc') as (c0 & Hc0 & <-).
    by apply (i_conn _ _ HI ext en c0).
  - simplify_eq. apply inv_goto; [by apply inv_demuxes|done|done].
  - destruct Hp as [Hr Ht]. destruct (send_to s ext (message_of t r)) as [s1|e|] eqn:Es; simplify_eq.
    + destruct (inv_send _ _ _ _ _ _ _ HI' Hi Hr Ht Es) as [HI1 Hts]. apply inv_goto; [done|by rewrite Hts|done].
    + by apply inv_goto.
  - simplify_eq. destruct (is_open (req t)); apply inv_answer; try done; [by apply inv_unopen|by apply inv_unpend].
  - destruct (is_open (req t)).
    + destruct (opened t) as [sid|] eqn:Eo.
      * simplify_eq. eapply inv_put; [done|done|by split| |done|done]. by apply write_frame_ok; [eapply i_task| | |].
      * case_decide; simplify_eq. by apply inv_answer.
    + destruct (reply t) as [[ok p]|] eqn:Er; [|case_decide]; simplify_eq; by apply inv_answer.
  - destruct (frames t) as [|f rest] eqn:Ef.
    { destruct (has_sender s i); simplify_eq. by apply inv_goto. }
    destruct (ok_frames _ _ _ Hok f) as (sid' & c & Ho & Hc); [rewrite Ef; left|]. rewrite Hp in Ho. simplify_eq.
    assert (rest ⊆ frames t) as Hsub by (rewrite Ef; intros ?; by right).
    destruct f; simplify_eq/=; (eapply inv_put; [done|done|by split| |done|done]); apply write_frame_ok; eauto using i_task; by split; eauto.
  - done.
Qed.

(** *** The demultiplexer and the extensions *)
Lemma on_task_put s i t f : tasks s !! i = Some t -> on_task s i f = put s i (f t).
Proof.
  intros Hi. unfold on_task, put. f_equal. apply list_eq. intros j. destruct (decide (i = j)) as [->|Hne].
  - by rewrite list_lookup_alter_eq, list_lookup_insert_eq, Hi by (by eapply lookup_lt_Some).
  - by rewrite list_lookup_alter_ne, list_lookup_insert_ne by done.
Qed.
(** A map entry just deleted pointed to a task with its own id. *)
Lemma deleted_not_pending n s i t r : Inv n s -> tasks s !! i = Some t -> rid t = Some r ->
  forall q, delete r (pending s) !! q <> Some i /\ delete r (pending_stream_open s) !! q <> Some i.
Proof.
  intros HI Hi Hr q. split; intros [Hne Hq]%lookup_delete_Some.
  - destruct (i_pending _ _ HI q i Hq) as (u & Hu & Hru & _). congruence.
  - destruct (i_opens _ _ HI q i Hq) as (u & Hu & Hru & _). congruence.
Qed.
Lemma push_frame_inv n s i t sid f c : Inv n s -> tasks s !! i = Some t -> opened t = Some sid -> came_on (links s) c (frame_message sid f) ->
  Inv n (on_task s i (push_frame f)).
Proof.
  intros HI Hi Ho Hc. rewrite (on_task_put _ _ t) by done. eapply inv_put; [done|done|by split| |done|done].
  destruct (i_task _ _ HI i t Hi) as [Hrid Hpc Hrep Hop Hfr Hw]. split; try done. cbn.
  intros g [Hg|Hg%list_elem_of_singleton]%elem_of_app; [by apply Hfr|subst g; eauto].
Qed.
Lemma inv_message n s c m : Inv n s -> came_on (links s) c m -> Inv n (demux_message s m).
Proof.
  intros HI Hm. destruct m as [| | | | | |r ok p|r sid|sid p|sid reason]; try done; simpl.
  - destruct (pending s !! r) as [i|] eqn:Ep; [|done]. destruct (i_pending _ _ HI r i Ep) as (t & Hi & Hr & Hb & Hn).
    rewrite (on_task_put _ _ t) by done. pose proof (deleted_not_pending _ _ _ _ _ HI Hi Hr) as Hd.
    apply (inv_set_task _ _ _ t); [by apply inv_unpend|done|by split| |intros q Hq; by destruct (Hd q)|done].
    destruct (i_task _ _ HI i t Hi) as [Hrid Hpc Hrep Hop Hfr Hw]. split; try done; cbn; [naive_solver|].
    intros w Hw'. specialize (Hw w Hw'). destruct w; try done. cbn in *. congruence.
  - destruct (pending_stream_open s !! r) as [i|] eqn:Ep; [|done]. destruct (i_opens _ _ HI r i Ep) as (t & Hi & Hr & Hb & Hn).
    rewrite (on_task_put _ _ t) by done. pose proof (deleted_not_pending _ _ _ _ _ HI Hi Hr) as Hd.
    assert (Inv n (put (set_opens s (delete r (pending_stream_open s))) i (set_opened t sid))) as HI1.
    { apply (inv_set_task _ _ _ t); [by apply inv_unopen|done|split; try done; congruence| |done|intros q Hq; by destruct (Hd q)].
      destruct (i_task _ _ HI i t Hi) as [Hrid Hpc Hrep Hop Hfr Hw]. split; try done; cbn.
      - unfold pc_ok in *. cbn. destruct (pc t); try done. congruence.
      - naive_solver.
      - intros f Hf. destruct (Hfr f Hf) as (? & ? & ? & _). congruence.
      - intros w Hw'. specialize (Hw w Hw'). destruct w; try done; cbn in *; naive_solver congruence. }
    destruct HI1 as [J1 J2 J3 J4 J5 J6 J7 J8]. split; try done. cbn in *.
    intros sd j Hsd. apply lookup_insert_Some in Hsd as [[<- <-]|[_ Hsd]]; [|by apply J6].
    exists (set_opened t sid). by rewrite list_lookup_insert_eq by (by eapply lookup_lt_Some).
  - destruct (streams s !! sid) as [i|] eqn:Es; [|done]. destruct (i_streams _ _ HI sid i Es) as (t & Hi & Ho). by eapply (push_frame_inv _ _ _ t sid (Frame p)).
  - destruct (streams s !! sid) as [i|] eqn:Es; [|done]. destruct (i_streams _ _ HI sid i Es) as (t & Hi & Ho).
    apply (push_frame_inv _ _ i t sid (Closed reason) c); [by apply inv_unstream|done|done|done].
Qed.
Lemma inv_demux n s d x s' : Inv n s -> run_demux s d x = Some s' -> Inv n s'.
Proof.
  intros HI Hrun. unfold run_demux in Hrun. destruct (dx_pc x); simplify_eq; try done.
  - apply bind_Some in Hrun as (l & Hl & Hrun). destruct (arrived l !! taken l) as [m|] eqn:Em.
    + simplify_eq. apply (inv_message _ _ (dx_link x)).
      * apply inv_links; [done|by apply (grows_insert _ _ _ _ Hl)|]. apply (link_ok_update _ _ _ _ _ Hl); [apply (i_links _ _ HI)|]. exact (i_links _ _ HI _ _ Hl).
      * exists (read_one l). cbn. rewrite list_lookup_insert_eq by (by eapply lookup_lt_Some). split; [done|by eapply list_elem_of_lookup_2].
    + destruct (inbound_open l); simplify_eq. by apply inv_demuxes.
  - apply (inv_demuxes _ (set_pending s ∅)). exact (inv_shrink n s ∅ (pending_stream_open s) (streams s) (demux_started s) (demuxes s) HI (map_empty_subseteq _) (reflexivity _) (reflexivity _)).
  - apply (inv_demuxes _ (set_opens s ∅)). exact (inv_shrink n s (pending s) ∅ (streams s) (demux_started s) (demuxes s) HI (reflexivity _) (map_empty_subseteq _) (reflexivity _)).
  - apply (inv_demuxes _ (set_streams s ∅)). exact (inv_shrink n s (pending s) (pending_stream_open s) ∅ (demux_started s) (demuxes s) HI (reflexivity _) (reflexivity _) (map_empty_subseteq _)).
  - by apply inv_demuxes, inv_demuxes.
Qed.

Lemma new_task_ok next ls p r ids : task_ok next ls (new_task p r ids) /\ rid (new_task p r ids) = None.
Proof.
  destruct r; try destruct ids; (split; [split|]); cbn; try done; try set_solver.
  all: intros w Hw; apply list_elem_of_singleton in Hw; by subst w.
Qed.
Lemma inv_arrive n s p r ids : Inv n s -> Inv n (set_tasks s (tasks s ++ [new_task p r ids])).
Proof.
  intros [Hn Ht Hu Hp Ho Hs Hl Hc]. destruct (new_task_ok (next_request_id s) (links s) p r ids) as [Hok Hr].
  assert (forall j u, tasks s !! j = Some u -> (tasks s ++ [new_task p r ids]) !! j = Some u) as Hfwd by (intros; by apply lookup_app_l_Some).
  assert (forall j u, (tasks s ++ [new_task p r ids]) !! j = Some u -> tasks s !! j = Some u \/ u = new_task p r ids) as Hback.
  { intros j u [Hj|[_ Hj]]%lookup_app_Some; [by left|right]. by apply list_lookup_singleton_Some in Hj as [_ ->]. }
  split; cbn; try done.
  - intros j u Hj. destruct (Hback j u Hj) as [Hj'| ->]; eauto.
  - intros j k u v q Hj Hk Hru Hrv. destruct (Hback j u Hj) as [Hj'| ->], (Hback k v Hk) as [Hk'| ->]; [by eauto|congruence..].
  - intros q j Hq. destruct (Hp q j Hq) as (u & ? & ?). eauto.
  - intros q j Hq. destruct (Ho q j Hq) as (u & ? & ?). eauto.
  - intros q j Hq. destruct (Hs q j Hq) as (u & ? & ?). eauto.
  - intros c l Hcl. destruct (Hl c l Hcl) as [Hout Harr]. split; [|done]. intros m Hm. destruct (Hout m Hm) as [?|(j & u & q & Hj & ?)]; [by left|right]. eauto 10.
Qed.
Lemma inv_link_same n s c l l' : Inv n s -> links s !! c = Some l -> link_ext l' = link_ext l -> outbound l' = outbound l -> arrived l' = arrived l ->
  Inv n (set_links s (<[c := l']> (links s))).
Proof.
  intros HI Hl He Ho Ha. apply inv_links; [done|apply (grows_insert _ _ _ _ Hl); [done|by rewrite Ho|by rewrite Ha]|].
  apply (link_ok_update _ _ _ _ _ Hl); [apply (i_links _ _ HI)|]. pose proof (i_links _ _ HI _ _ Hl) as Hok. unfold link_ok. by rewrite Ho, Ha, He.
Qed.
Lemma inv_sends n s c l l' m : Inv n s -> honest s (Sends c m) -> links s !! c = Some l ->
  link_ext l' = link_ext l -> outbound l' = outbound l -> arrived l' = arrived l ++ [m] -> Inv n (set_links s (<[c := l']> (links s))).
Proof.
  intros HI Hh Hl He Ho Ha. apply inv_links; [done|apply (grows_insert _ _ _ _ Hl); [done|by rewrite Ho|rewrite Ha; set_solver]|].
  apply (link_ok_update _ _ _ _ _ Hl); [apply (i_links _ _ HI)|]. destruct (i_links _ _ HI _ _ Hl) as [Hout Harr]. unfold link_ok. rewrite Ho, Ha, He. split; [done|].
  intros x [Hx|Hx%list_elem_of_singleton]%elem_of_app.
  - specialize (Harr x Hx). destruct x; try done; destruct Harr as [q Hq]; exists q; set_solver.
  - subst x. destruct m; try done; cbn in Hh; [destruct Hh as (l0 & Hh)..| |]; [naive_solver|naive_solver| |];
      destruct Hh as (q & l0 & Hl0 & Hin); exists q; set_solver.
Qed.

Section Invariant.
Context `{!Toml}.

Lemma inv_dialed n s i t ext k e s' : Inv n s -> tasks s !! i = Some t -> pc t = Dialing ext k -> dialed s i t ext k e = Some s' -> Inv n s'.
Proof.
  intros HI Hi Hpc Hd. unfold dialed in Hd. apply bind_Some in Hd as (en & Hen & Hd).
  destruct (connect_blocking e (manifest en)) as [[srv hello]|x|] eqn:Ec; simplify_eq.
  - apply inv_resume; [|done|by right]. apply inv_entry.
    + apply inv_links; [done|apply grows_app|]. intros c l [Hl|[_ Hl]]%lookup_app_Some; [by apply (i_links _ _ HI c)|].
      apply list_lookup_singleton_Some in Hl as [_ <-]. split; cbn; [|set_solver]. intros m Hm. left.
      destruct (connect_hello _ _ _ _ Ec) as (rev & ->). apply list_elem_of_singleton in Hm. eauto.
    + cbn. intros c [= <-]. cbn. rewrite lookup_app_r by done. rewrite Nat.sub_diag. by eexists.
  - apply inv_resume; [|done|by right]. by apply inv_entry.
Qed.

Lemma inv_step n s e s' : Inv n s -> Z.of_nat n + 2 < 2 ^ 64 -> honest s e -> step s e = Some s' -> Inv (S n) s'.
Proof.
  intros HI Hn Hh Hs. assert (Inv (S n) s) as HI' by (apply (inv_weaken n); [lia|done]). destruct e as [p r|i|i|i e|d|c m|c|c|t]; simpl in Hs.
  - simplify_eq. by apply inv_arrive.
  - apply bind_Some in Hs as (t & Hi & Hs). by eapply inv_run_task.
  - apply bind_Some in Hs as (t & Hi & Hs). repeat case_match; simplify_eq; by apply inv_goto.
  - apply bind_Some in Hs as (t & Hi & Hs). case_match; simplify_eq. by eapply inv_dialed.
  - apply bind_Some in Hs as (x & Hx & Hs). by eapply inv_demux.
  - apply bind_Some in Hs as (l & Hl & Hs). case_match; simplify_eq. by eapply inv_sends.
  - apply bind_Some in Hs as (l & Hl & Hs). simplify_eq. by eapply inv_link_same.
  - apply bind_Some in Hs as (l & Hl & Hs). simplify_eq. by eapply inv_link_same.
  - case_match; simplify_eq. by destruct HI'.
Qed.

(** Every event of the run is one an honest extension could cause. *)
Fixpoint honest_run (s : Sys) (es : list event) : Prop :=
  match es with [] => True | e :: es => honest s e /\ match step s e with Some s => honest_run s es | None => True end end.
Lemma inv_steps es : forall n s s', Inv n s -> Z.of_nat n + Z.of_nat (length es) + 1 < 2 ^ 64 -> honest_run s es -> steps s es = Some s' -> Inv (n + length es) s'.
Proof.
  induction es as [|e es IH]; intros n s s' HI Hn Hh Hs; simpl in *.
  { simplify_eq. by rewrite Nat.add_0_r. }
  destruct (step s e) as [s1|] eqn:E; [|done]. destruct Hh as [Hh Hrest]. simpl in Hs.
  replace (n + S (length es))%nat with (S n + length es)%nat by lia. eapply (IH (S n) s1); [|lia|done|done]. eapply inv_step; eauto. lia.
Qed.
Lemma inv_boot ms : Inv 0 (boot ms).
Proof.
  split; cbn; try done; try set_solver. intros ext en c He Hc. exfalso. revert He. unfold registry_of. clear -Hc.
  assert (forall (r : gmap string ExtensionEntry), (forall ext en, r !! ext = Some en -> connection en = None) ->
    forall ext en, foldl (fun r m => <[ext_id m := new_entry m]> r) r ms !! ext = Some en -> connection en = None) as Hall.
  { induction ms as [|m ms IH]; intros r Hr; simpl; [done|]. apply IH. intros x y Hy. apply lookup_insert_Some in Hy as [[_ <-]|[_ Hy]]; [done|eauto]. }
  intros He. specialize (Hall ∅ ltac:(set_solver) ext en He). congruence.
Qed.
End Invariant.

(** A request's answer names its sender. *)
Lemma answered_by n s i t r m c : Inv n s -> tasks s !! i = Some t -> rid t = Some r -> came_on (links s) c m ->
  (exists ok p, m = Response r ok p) \/ (exists sid, m = StreamOpened r sid) ->
  exists l, links s !! c = Some l /\ m ∈ arrived l /\ target t = Some (link_ext l) /\ message_of t r ∈ outbound l.
Proof.
  intros HI Hi Hr (l & Hl & Hm) Hk. exists l. split; [done|]. split; [done|]. destruct (i_links _ _ HI c l Hl) as [Hout Harr].
  assert (exists x, x ∈ outbound l /\ (exists id u role p, x = Request r id u role p \/ x = StreamOpen r id u role p)) as (x & Hx & id & u & role & p & Hxe).
  { specialize (Harr m Hm). destruct Hk as [(ok & p & ->)|(sid & ->)]; destruct Harr as (id & u & role & p' & Hin); eauto 10. }
  destruct (Hout x Hx) as [(v & k & ->)|(j & t' & q & Hj & Hq & -> & Ht)]; [by destruct Hxe|].
  assert (q = r) as -> by (unfold message_of in Hxe; destruct (is_open (req t')), Hxe; congruence).
  rewrite (i_uniq _ _ HI i j t t' r Hi Hj Hr Hq) in Hi. by simplify_eq.
Qed.

(** No two extensions use the same number for a stream. *)
Definition distinct_streams (s : Sys) : Prop :=
  forall c d r q sid, came_on (links s) c (StreamOpened r sid) -> came_on (links s) d (StreamOpened q sid) -> c = d.

Section Routing.
Context `{!Toml}.

(** C30.  With extensions that answer only what they were sent, a peer is never given
    another request's answer: the result written to a peer is the response, on a channel of
    the extension it asked for, to the very message sent there for it, with its identity
    and payload, however requests, dials, disconnects and restarts interleave.  As long as
    no two extensions number a stream alike, the frames a peer gets are those its extension
    sent on the stream opened for its own request. *)
Theorem answers_routed ms es s i t :
  honest_run (boot ms) es -> Z.of_nat (length es) + 1 < 2 ^ 64 -> steps (boot ms) es = Some s -> tasks s !! i = Some t ->
  (forall ok p, ExtensionResult ok p ∈ written t ->
     exists c l r, links s !! c = Some l /\ target t = Some (link_ext l) /\ message_of t r ∈ outbound l /\ Response r ok p ∈ arrived l) /\
  (distinct_streams s -> forall sid p, ExtensionStreamFrame sid p ∈ written t ->
     exists c l r, links s !! c = Some l /\ target t = Some (link_ext l) /\ message_of t r ∈ outbound l /\ StreamOpened r sid ∈ arrived l /\ StreamFrame sid p ∈ arrived l).
Proof.
  intros Hh Hlen Hs Hi. assert (Inv (0 + length es) s) as HI by (apply (inv_steps es 0 (boot ms)); [apply inv_boot|simpl; lia|done|done]).
  pose proof (i_task _ _ HI i t Hi) as Hok. split.
  - intros ok p Hw. apply (ok_written _ _ _ Hok) in Hw. destruct (ok_reply _ _ _ Hok _ _ Hw) as (r & c & Hr & Hc).
    destruct (answered_by _ _ _ _ r _ c HI Hi Hr Hc) as (l & Hl & Ha & Ht & Ho); [by eauto|]. eauto 10.
  - intros Hd sid p Hw. apply (ok_written _ _ _ Hok) in Hw as (Hop & d & (k & Hk & Hf)).
    destruct (ok_opened _ _ _ Hok _ Hop) as (r & c & Hr & Hc).
    destruct (answered_by _ _ _ _ r _ c HI Hi Hr Hc) as (l & Hl & Ha & Ht & Ho); [by eauto|].
    destruct (i_links _ _ HI d k Hk) as [_ Harr]. destruct (Harr _ Hf) as (q & Hq).
    assert (c = d) as <- by (apply (Hd c d r q sid); [done|by exists k]). simplify_eq. eauto 10.
Qed.
End Routing.

(** ** Concrete systems *)
Module Sample.
Definition toml : Toml :=
  {| manifest_table := fun _ => None;
     bootstrap_table := fun _ => Some {| t_server_name := Some "/tmp/s"; t_pid := Some 7; t_bversion := Some "0.1.0" |} |}.
Definition ext (name role : string) : ExtensionManifest :=
  {| ext_id := name; description := "x"; bootstrap_path := "/run/x"; required_role := role; expected_uid := 0; version := "0.1.0" |}.
Definition up : ConnectEnv :=
  {| e_files := fun _ => Some {| f_uid := 0; f_mode := 384; f_text := Some EmptyString |}; e_alive := fun _ => true; e_connect := fun _ => true;
     e_reverse := Some "/tmp/r"; e_hello := true; e_ack := Some (HelloAck "0.1.0") |}.
Definition alice : PeerContext := peer_context "alice" (Some "alice") RolePeer.
Definition bob : PeerContext := peer_context "bob" (Some "bob") RolePeer.
(** The steps of task [i] up to its wait for an answer: the first one dials. *)
Definition first_call (i : nat) : list event := [Run i; Dialed i up; Run i; Run i; Run i; Run i; Run i; Run i].
Definition next_call (i : nat) : list event := [Run i; Run i; Run i; Run i; Run i].
Definition echo_run : list event :=
  [Arrive alice (ExtensionCall "echo" [1; 2])] ++ first_call 0 ++ [Sends 0 (Response 1 true [1; 2]); Demultiplex 0; Run 0].
End Sample.
#[local] Existing Instance Sample.toml.

(** [honest], decided. *)
Definition honestb (s : Sys) (e : event) : bool :=
  match e with
  | Sends c (Response r _ _) => match links s !! c with Some l => existsb (fun m => match m with Request q _ _ _ _ => q =? r | _ => false end) (outbound l) | None => false end
  | Sends c (StreamOpened r _) => match links s !! c with Some l => existsb (fun m => match m with StreamOpen q _ _ _ _ => q =? r | _ => false end) (outbound l) | None => false end
  | Sends c (StreamFrame sid _) | Sends c (StreamClosed sid _) =>
      match links s !! c with Some l => existsb (fun m => match m with StreamOpened _ q => q =? sid | _ => false end) (arrived l) | None => false end
  | _ => true
  end.
Lemma honestb_sound s e : honestb s e = true -> honest s e.
Proof.
  assert (forall (l : list ExtMessage) f, existsb f l = true -> exists m, m ∈ l /\ f m = true) as Hex.
  { intros l f (m & Hm & Hf)%existsb_exists. exists m. split; [by apply list_elem_of_In|done]. }
  destruct e as [| | | | |c m| | |]; try done. unfold honestb, honest. destruct m; try done; (destruct (links s !! c) as [l|] eqn:El; [|done]);
    intros (x & Hx & Hf)%Hex; destruct x; try done; apply Z.eqb_eq in Hf; subst; try (by eauto 10); eexists; by exists l.
Qed.
Fixpoint honest_runb (s : Sys) (es : list event) : bool :=
  match es with [] => true | e :: es => honestb s e && match step s e with Some s => honest_runb s es | None => true end end.
Lemma honest_runb_sound es : forall s, honest_runb s es = true -> honest_run s es.
Proof.
  induction es as [|e es IH]; intros s Hs; simpl in *; [done|]. apply andb_true_iff in Hs as [He Hs].
  split; [by apply honestb_sound|]. destruct (step s e); [by apply IH|done].
Qed.

Definition echo_final : Sys := default (boot []) (steps (boot [Sample.ext "echo" "peer"]) Sample.echo_run).
Definition echo_task : Task := default (new_task Sample.bob ExtensionList []) (tasks echo_final !! 0%nat).
Lemma answers_routed_witness : steps (boot [Sample.ext "echo" "peer"]) Sample.echo_run = Some echo_final /\ tasks echo_final !! 0%nat = Some echo_task /\
  exists c l r, links echo_final !! c = Some l /\ target echo_task = Some (link_ext l) /\ message_of echo_task r ∈ outbound l /\ Response r true [1; 2] ∈ arrived l.
Proof.
  assert (steps (boot [Sample.ext "echo" "peer"]) Sample.echo_run = Some echo_final) as Hs by (by vm_compute).
  assert (tasks echo_final !! 0%nat = Some echo_task) as Ht by (by vm_compute).
  split; [exact Hs|]. split; [exact Ht|].
  assert (honest_run (boot [Sample.ext "echo" "peer"]) Sample.echo_run) as Hh by (apply honest_runb_sound; by vm_compute).
  destruct (answers_routed [Sample.ext "echo" "peer"] Sample.echo_run echo_final 0 echo_task Hh ltac:(by vm_compute) Hs Ht) as [Hr _].
  apply Hr. change (written echo_task) with [ExtensionResult true [1; 2]]. left.
Defined.

(** The role a manifest requires is never compared with the peer's: a plain peer's
    request to an extension for creators is delivered and answered. *)
Theorem role_not_enforced :
  (exists s t, steps (boot [Sample.ext "echo" "creator"]) Sample.echo_run = Some s /\ tasks s !! 0%nat = Some t /\
     peer t = Sample.alice /\ written t = [ExtensionResult true [1; 2]]) /\
  peer_role Sample.alice = "peer" /\ required_role (Sample.ext "echo" "creator") = "creator".
Proof. split; [|done]. eexists _, _. split; [vm_compute; reflexivity|]. by vm_compute. Qed.

(** Two extensions that both number their streams from 100. *)
Definition two_streams : list event :=
  [Arrive Sample.alice (ExtensionStreamOpen "tap" [])] ++ Sample.first_call 0 ++ [Sends 0 (StreamOpened 1 100); Demultiplex 0; Run 0] ++
  [Arrive Sample.bob (ExtensionStreamOpen "screen" [])] ++ Sample.first_call 1 ++ [Sends 1 (StreamOpened 2 100); Demultiplex 1; Run 1] ++
  [Sends 0 (StreamFrame 100 [42]); Demultiplex 0; Run 1; Run 0].
(** Streams are told apart by the number their extension gave them, whichever extension
    that is.  When two honest extensions use the same number, the frames of one peer's
    stream are written to another peer, and the first one's stream just ends. *)
Theorem stream_frames_misrouted :
  honest_run (boot [Sample.ext "tap" "peer"; Sample.ext "screen" "peer"]) two_streams /\
  exists s a b, steps (boot [Sample.ext "tap" "peer"; Sample.ext "screen" "peer"]) two_streams = Some s /\ tasks s = [a; b] /\
    peer a = Sample.alice /\ req a = ExtensionStreamOpen "tap" [] /\ pc a = Finished /\ written a = [ExtensionStreamOpened 100] /\
    peer b = Sample.bob /\ req b = ExtensionStreamOpen "screen" [] /\ written b = [ExtensionStreamOpened 100; ExtensionStreamFrame 100 [42]].
Proof.
  split; [apply honest_runb_sound; by vm_compute|]. eexists _, _, _. split; [vm_compute; reflexivity|]. by vm_compute.
Qed.

(** When one extension goes away, its demultiplexer empties the tables of all of them:
    a request that another, healthy extension is still working on is answered with a
    disconnection the next time it runs. *)
Theorem disconnect_cancels_others `{!Toml} s d x i t r :
  demuxes s !! d = Some x -> dx_pc x = ClearPending -> tasks s !! i = Some t -> pc t = Await r -> is_open (req t) = false -> reply t = None ->
  exists s1 s2, step s (Demultiplex d) = Some s1 /\ step s1 (Run i) = Some s2 /\ tasks s2 !! i = Some (answer t (PError (Disconnected r))).
Proof.
  intros Hd Hx Hi Hpc Ho Hr. eexists _, _. split; [simpl; rewrite Hd; simpl; unfold run_demux; by rewrite Hx|].
  split; [simpl; rewrite Hi; simpl; unfold run_task; rewrite Hpc, Ho, Hr; by rewrite decide_False by done|].
  cbn. by rewrite list_lookup_insert_eq by (by eapply lookup_lt_Some).
Qed.

(** ** A connection that died *)
(** The registry still holds a connection whose receiver was taken, and nobody reads it. *)
Record dead (s : Sys) (ext : string) (en : ExtensionEntry) : Prop := {
  de_entry : extensions s !! ext = Some en;
  de_status : status en = Available;
  de_conn : exists c, connection en = Some c /\ recv_taken c = true;
  de_started : ext ∉ demux_started s;
  de_demuxes : forall d x, demuxes s !! d = Some x -> dx_ext x = ext -> dx_pc x = Ended;
  de_tasks : forall i t, tasks s !! i = Some t -> (forall c, pc t <> MarkDemux ext c) /\ (forall k, pc t <> Dialing ext k);
}.
(** Where a request that came later can be. *)
Definition refused (ext : string) (t : Task) : Prop :=
  target t = Some ext ->
  written t = [] /\ (pc t = Ensure ext ToDemux \/ pc t = CheckDemux ext \/ pc t = TakeRecv ext) \/ written t = [PError NoDemux] /\ pc t = Finished.
Definition stuck (n : nat) (s : Sys) (ext : string) (en : ExtensionEntry) : Prop :=
  dead s ext en /\ forall i t, (n <= i)%nat -> tasks s !! i = Some t -> refused ext t.

Lemma dead_ensure t en : status en = Available -> (exists c, connection en = Some c /\ recv_taken c = true) ->
  ensure_connected t en = (Ok true, en) /\ take_recv en = (None, en).
Proof. intros Hs (c & Hc & Ht). unfold ensure_connected, take_recv. by rewrite Hc, Hs, Ht. Qed.

Lemma stuck_put n s i t t' ext en : stuck n s ext en -> tasks s !! i = Some t ->
  (forall c, pc t' <> MarkDemux ext c) -> (forall k, pc t' <> Dialing ext k) ->
  ((n <= i)%nat -> refused ext t -> refused ext t') -> stuck n (put s i t') ext en.
Proof.
  intros [[He Hs Hc Hst Hd Ht] Hr] Hi Hm Hdl Hok. split; [split; try done|]; cbn.
  - intros j u Hj. destruct (lookup_insert_task _ _ _ _ _ _ Hi Hj) as [[-> ->]|[_ Hj']]; [done|by eapply Ht].
  - intros j u Hn Hj. destruct (lookup_insert_task _ _ _ _ _ _ Hi Hj) as [[-> ->]|[_ Hj']]; [apply Hok; eauto|by eapply Hr].
Qed.
Lemma stuck_frame n s s' ext en : stuck n s ext en -> extensions s' !! ext = extensions s !! ext -> (ext ∈ demux_started s' -> ext ∈ demux_started s) ->
  (forall d x, demuxes s' !! d = Some x -> dx_ext x = ext -> dx_pc x = Ended) -> tasks s' = tasks s -> stuck n s' ext en.
Proof. intros [[He Hs Hc Hst Hd Ht] Hr] Hx Hi Hd' Htk. split; [split|]; rewrite ?Htk; try done; [congruence|auto]. Qed.
Lemma stuck_entry n s ext en ext' en' : ext' <> ext -> stuck n s ext en -> stuck n (set_entry s ext' en') ext en.
Proof. intros Hne Hs. apply (stuck_frame _ s); try done; [|apply Hs]. cbn. by rewrite lookup_insert_ne. Qed.
Lemma stuck_goto n s i t p ext en : stuck n s ext en -> tasks s !! i = Some t -> (forall c, p <> MarkDemux ext c) -> (forall k, p <> Dialing ext k) ->
  ((n <= i)%nat -> target t = Some ext -> written t = [] -> p = Ensure ext ToDemux \/ p = CheckDemux ext \/ p = TakeRecv ext) ->
  (pc t <> Finished) -> stuck n (put s i (goto t p)) ext en.
Proof. intros Hs Hi Hm Hd Hok Hf. eapply stuck_put; try done. intros Hn Hr Ht. destruct (Hr Ht) as [[Hw Hp]|[Hw Hp]]; [left; split; [done|]; auto|done]. Qed.

(** Every other task: not one of the requests that are refused. *)
Lemma stuck_other n s i t t' ext en : stuck n s ext en -> tasks s !! i = Some t -> pc t <> Finished ->
  (forall c, pc t' <> MarkDemux ext c) -> (forall k, pc t' <> Dialing ext k) -> target t' = target t ->
  ~ (pc t = Ensure ext ToDemux \/ pc t = CheckDemux ext \/ pc t = TakeRecv ext) -> stuck n (put s i t') ext en.
Proof. intros Hs Hi Hf Hm Hd Ht Hno. eapply stuck_put; try done. intros Hn Hr Htg. rewrite Ht in Htg. destruct (Hr Htg) as [[_ Hp]|[_ Hp]]; done. Qed.

Lemma stuck_resume n s i t ext' k r ext en : stuck n s ext en -> tasks s !! i = Some t -> cont_pc ext' k (pc t) -> (ext' = ext -> r = Ok true) -> stuck n (resume s i t ext' k r) ext en.
Proof.
  intros Hs Hi Hk Hr. assert (pc t <> Finished) as Hf by (destruct Hk as [-> | ->]; done).
  destruct k as [|rd|[|x rest]], r as [b|e|]; simpl; try done.
  all: try (apply (stuck_other _ _ _ t); try done; destruct Hk as [-> | ->]; naive_solver).
  destruct (decide (ext' = ext)) as [->|Hne]; [apply stuck_goto; try done; auto|].
  apply (stuck_other _ _ _ t); try done. destruct Hk as [-> | ->]; naive_solver.
Qed.

Ltac solve_pc := cbn; repeat match goal with Hp : pc _ = _ |- _ => rewrite Hp in *; clear Hp end; intros; intuition congruence.
Lemma stuck_run_task n s i t s' ext en : stuck n s ext en -> tasks s !! i = Some t -> run_task s i t = Some s' -> stuck n s' ext en.
Proof.
  intros Hs Hi Hrun. pose proof Hs as [[He Hst Hc Hns Hd Ht] _]. destruct (dead_ensure (now s) en Hst Hc) as [Hens Htr]. unfold run_task in Hrun.
  destruct (pc t) as [x k|x k| |x|x|x c|x|x r|r w|r|sid|] eqn:Epc; simplify_eq.
  - destruct (decide (x = ext)) as [->|Hne].
    + rewrite He, Hens in Hrun. simplify_eq. apply stuck_resume; try done. by left.
    + destruct (extensions s !! x) as [en'|]; [|simplify_eq; apply stuck_resume; [done|done|by left|done]].
      destruct (ensure_connected (now s) en') as [[[]|e|] en2]; simplify_eq; try (apply stuck_resume; [done|done|by left|done]).
      apply (stuck_other _ _ _ t); try (by rewrite ?Epc); try (by apply stuck_entry); solve_pc.
  - apply (stuck_other _ _ _ t); try done; solve_pc.
  - destruct (decide (x = ext)) as [->|Hne].
    + rewrite decide_False by done. apply stuck_goto; try done; [auto|by rewrite Epc].
    + apply (stuck_other _ _ _ t); try done; cbn; try case_decide; solve_pc.
  - destruct (decide (x = ext)) as [->|Hne].
    + rewrite He, Htr in Hrun. simplify_eq. eapply stuck_put; try done. intros _ Hr Htg. right. destruct (Hr Htg) as [[Hw _]|[_ Hp]]; [|congruence]. cbn. by rewrite Hw.
    + destruct (extensions s !! x) as [en'|]; [destruct (take_recv en') as [[c|] en2]|]; simplify_eq;
        (apply (stuck_other _ _ _ t); try (by rewrite ?Epc); try (by apply stuck_entry); solve_pc).
  - assert (x <> ext) as Hne by (intros ->; destruct (Ht i t Hi) as [Hm _]; by apply (Hm c)).
    apply (stuck_other _ _ _ t); try (by rewrite ?Epc); [|solve_pc]. apply (stuck_frame _ s); try done; cbn; [set_solver|].
    intros d y [Hy|[_ Hy]]%lookup_app_Some Hyx; [by eapply Hd|]. apply list_lookup_singleton_Some in Hy as [_ <-]. done.
  - destruct (is_open (req t)); apply (stuck_other _ _ _ t); try (by rewrite ?Epc); try solve_pc; apply (stuck_frame _ s); try done; apply Hs.
  - destruct (send_to s x (message_of t r)) as [s1|e|] eqn:Es; simplify_eq; (apply (stuck_other _ _ _ t); try (by rewrite ?Epc); try solve_pc).
    + apply send_to_Ok in Es as (? & ? & ? & _ & _ & _ & ->). by apply (stuck_frame _ s).
    + apply send_to_Ok in Es as (? & ? & ? & _ & _ & _ & ->). done.
  - destruct (is_open (req t)); apply (stuck_other _ _ _ t); try (by rewrite ?Epc); try solve_pc; apply (stuck_frame _ s); try done; apply Hs.
  - repeat case_match; simplify_eq; apply (stuck_other _ _ _ t); try (by rewrite ?Epc); solve_pc.
  - repeat case_match; simplify_eq; apply (stuck_other _ _ _ t); try (by rewrite ?Epc); solve_pc.
Qed.
Lemma stuck_message n s m ext en : stuck n s ext en -> stuck n (demux_message s m) ext en.
Proof.
  assert (forall s0 i f, stuck n s0 ext en -> (forall t, pc (f t) = pc t /\ written (f t) = written t /\ req (f t) = req t) -> stuck n (on_task s0 i f) ext en) as Hon.
  { intros s0 i f Hs Hf. destruct (tasks s0 !! i) as [t|] eqn:Hi.
    - rewrite (on_task_put _ _ t) by done. destruct (Hf t) as (Hp & Hw & Hq). pose proof Hs as [[_ _ _ _ _ Ht] _]. destruct (Ht i t Hi) as [Hm Hd].
      eapply stuck_put; try done; [by rewrite Hp|by rewrite Hp|]. unfold refused, target. by rewrite Hp, Hw, Hq.
    - unfold on_task. assert (alter f i (tasks s0) = tasks s0) as ->; [|by apply (stuck_frame _ s0); try done; apply Hs].
      apply list_eq. intros j. destruct (decide (i = j)) as [->|]; [by rewrite list_lookup_alter_eq, Hi|by rewrite list_lookup_alter_ne]. }
  intros Hs. pose proof (de_demuxes _ _ _ (proj1 Hs)) as Hd.
  destruct m; simpl; try done; (case_match; [|done]); apply Hon; try done; by apply (stuck_frame _ s).
Qed.

Lemma stuck_demux n s d x s' ext en : stuck n s ext en -> demuxes s !! d = Some x -> run_demux s d x = Some s' -> stuck n s' ext en.
Proof.
  intros Hs Hx Hrun. pose proof (de_demuxes _ _ _ (proj1 Hs)) as Hd. unfold run_demux in Hrun.
  assert (forall s0 p, tasks s0 = tasks s -> extensions s0 = extensions s -> demux_started s0 = demux_started s -> demuxes s0 = demuxes s ->
    dx_pc x <> Ended -> stuck n (demux_to s0 d x p) ext en) as Hto.
  { intros s0 p E1 E2 E3 E4 Hp. apply (stuck_frame _ s); cbn; rewrite ?E1, ?E2, ?E3, ?E4; try done.
    intros d' y Hy Hyx. apply list_lookup_insert_Some in Hy as [(_ & <- & _)|[_ Hy]]; [|by eapply Hd]. cbn in Hyx. by specialize (Hd d x Hx Hyx). }
  destruct (dx_pc x) eqn:Ep; simplify_eq; try (by apply Hto).
  - apply bind_Some in Hrun as (l & Hl & Hrun). case_match; [|case_match]; simplify_eq; [|by apply Hto]. apply stuck_message. by apply (stuck_frame _ s).
  - assert (stuck n (demux_to s d x Ended) ext en) as Hs' by (by apply Hto). apply (stuck_frame _ (demux_to s d x Ended)); try done; [cbn; set_solver|].
    apply (de_demuxes _ _ _ (proj1 Hs')).
Qed.

Section Dead.
Context `{!Toml}.

Lemma stuck_step n s e s' ext en : stuck n s ext en -> step s e = Some s' -> stuck n s' ext en.
Proof.
  intros Hs Hst. pose proof (de_demuxes _ _ _ (proj1 Hs)) as Hd. destruct e as [p r|i|i|i e|d|c m|c|c|t]; simpl in Hst.
  - simplify_eq. destruct Hs as [[He Ha Hc Hns _ Ht] Hr]. set (ids := (map_to_list (extensions s)).*1).
    assert (forall j u, (tasks s ++ [new_task p r ids]) !! j = Some u -> tasks s !! j = Some u \/ u = new_task p r ids) as Hback.
    { intros j u [Hj|[_ Hj]]%lookup_app_Some; [by left|right]. by apply list_lookup_singleton_Some in Hj as [_ ->]. }
    split; [split; try done|]; cbn.
    + intros j u Hj. destruct (Hback j u Hj) as [Hj'| ->]; [by eapply Ht|]. destruct r; try destruct ids; done.
    + intros j u Hn Hj. destruct (Hback j u Hj) as [Hj'| ->]; [by eapply Hr|]. intros Htg. left.
      destruct r; try destruct ids; cbn in *; simplify_eq; auto.
  - apply bind_Some in Hst as (t & Hi & Hst). by eapply stuck_run_task.
  - apply bind_Some in Hst as (t & Hi & Hst). repeat case_match; simplify_eq; apply (stuck_other _ _ _ t); try done; solve_pc.
  - apply bind_Some in Hst as (t & Hi & Hst). case_match; simplify_eq. destruct (de_tasks _ _ _ (proj1 Hs) i t Hi) as [_ Hdl].
    assert (ext0 <> ext) as Hne by (intros ->; by eapply Hdl). unfold dialed in Hst. apply bind_Some in Hst as (en' & _ & Hst).
    repeat case_match; simplify_eq; (apply stuck_resume; [|done|by right|done]); apply stuck_entry; try done. by apply (stuck_frame _ s).
  - apply bind_Some in Hst as (x & Hx & Hst). by eapply stuck_demux.
  - apply bind_Some in Hst as (l & Hl & Hst). case_match; simplify_eq. by apply (stuck_frame _ s).
  - apply bind_Some in Hst as (l & Hl & Hst). simplify_eq. by apply (stuck_frame _ s).
  - apply bind_Some in Hst as (l & Hl & Hst). simplify_eq. by apply (stuck_frame _ s).
  - case_match; simplify_eq. by apply (stuck_frame _ s).
Qed.

Lemma stuck_steps n es : forall s s' ext en, stuck n s ext en -> steps s es = Some s' -> stuck n s' ext en.
Proof.
  induction es as [|e es IH]; intros s s' ext en Hs Hst; simpl in Hst; [by simplify_eq|].
  apply bind_Some in Hst as (s1 & H1 & Hst). by eapply IH; [eapply stuck_step|].
Qed.

(** A request on its way to being refused gets there. *)
Definition is_refused (s : Sys) (i : nat) : Prop := written <$> tasks s !! i = Some [PError NoDemux].
Lemma refused_soon s i t ext en : dead s ext en -> tasks s !! i = Some t -> written t = [] ->
  pc t = Ensure ext ToDemux \/ pc t = CheckDemux ext \/ pc t = TakeRecv ext ->
  exists k s1, (k <= 3)%nat /\ steps s (replicate k (Run i)) = Some s1 /\ is_refused s1 i.
Proof.
  assert (forall (s : Sys) t', tasks s !! i = Some t -> tasks (put s i t') !! i = Some t') as Hput.
  { intros s0 t' Hi. cbn. by rewrite list_lookup_insert_eq by (by eapply lookup_lt_Some). }
  intros [He Ha Hc Hns _ _] Hi Hw Hpc. destruct (dead_ensure (now s) en Ha Hc) as [Hens Htr].
  assert (forall u, pc u = TakeRecv ext -> written u = [] -> exists s1, run_task (put s i u) i u = Some s1 /\ is_refused s1 i) as Htake.
  { intros u Hu Hwu. unfold run_task. rewrite Hu. cbn [put set_tasks extensions]. rewrite He, Htr. eexists. split; [done|]. unfold is_refused.
    cbn. rewrite list_lookup_insert_eq by (rewrite length_insert; by eapply lookup_lt_Some). cbn. by rewrite Hwu. }
  assert (forall u, pc u = CheckDemux ext -> run_task (put s i u) i u = Some (put (put s i u) i (goto u (TakeRecv ext)))) as Hcheck.
  { intros u Hu. unfold run_task. rewrite Hu. by rewrite decide_False by done. }
  assert (forall u v, put (put s i u) i v = put s i v) as Hpp by (intros; unfold put, set_tasks; cbn; by rewrite list_insert_insert_eq).
  assert (s = put s i t) as Hst by (unfold put, set_tasks; rewrite list_insert_id by done; by destruct s).
  assert (forall u, step (put s i u) (Run i) = run_task (put s i u) i u) as Hstep.
  { intros u. unfold step. rewrite (Hput s) by done. done. }
  destruct Hpc as [Hpc|[Hpc|Hpc]].
  - set (u := goto t (CheckDemux ext)). destruct (Htake (goto u (TakeRecv ext)) eq_refl Hw) as (s1 & H1 & Hr). exists 3%nat, s1. split; [lia|]. split; [|done].
    cbn [replicate steps]. assert (step s (Run i) = Some (put s i u)) as ->.
    { unfold step. rewrite Hi. simpl. unfold run_task. rewrite Hpc, He, Hens. done. }
    cbn [mbind option_bind]. rewrite Hstep, Hcheck by done. cbn [mbind option_bind]. rewrite Hpp, Hstep, H1. done.
  - destruct (Htake (goto t (TakeRecv ext)) eq_refl Hw) as (s1 & H1 & Hr). exists 2%nat, s1. split; [lia|]. split; [|done].
    cbn [replicate steps]. rewrite Hst at 1. rewrite Hstep, Hcheck by done. cbn [mbind option_bind]. rewrite Hpp, Hstep, H1. done.
  - destruct (Htake t Hpc Hw) as (s1 & H1 & Hr). exists 1%nat, s1. split; [lia|]. split; [|done].
    cbn [replicate steps]. rewrite Hst at 1. rewrite Hstep, H1. done.
Qed.

(** Once an extension's connection has died and its demultiplexer has ended, the
    registry goes on taking it for connected: whatever happens afterwards, restarts of the
    extension included, it is never dialed again and is listed as available, while every
    later request to it is refused within three steps. *)
Theorem dead_extension_stays_dead s ext en es s' :
  dead s ext en -> steps s es = Some s' ->
  extensions s' !! ext = Some en /\ i_available (info en) = true /\
  forall i t, (length (tasks s) <= i)%nat -> tasks s' !! i = Some t -> target t = Some ext ->
    exists k s1, (k <= 3)%nat /\ steps s' (replicate k (Run i)) = Some s1 /\ is_refused s1 i.
Proof.
  intros Hd Hst. assert (stuck (length (tasks s)) s ext en) as Hs.
  { split; [done|]. intros i t Hi Ht. apply lookup_lt_Some in Ht. lia. }
  destruct (stuck_steps _ _ _ _ _ _ Hs Hst) as [Hd' Hr]. split; [apply Hd'|]. split; [unfold info; cbn; by rewrite (de_status _ _ _ Hd')|].
  intros i t Hn Hi Ht. destruct (Hr i t Hn Hi Ht) as [[Hw Hpc]|[Hw Hpc]]; [by eapply refused_soon|].
  exists 0%nat, s'. split; [lia|]. split; [done|]. unfold is_refused. rewrite Hi. simpl. by rewrite Hw.
Qed.
End Dead.

(** After its first call the echo extension dies; then the host has read its last message. *)
Definition died_run : list event := Sample.echo_run ++ [Dies 0; Demultiplex 0; Demultiplex 0; Demultiplex 0; Demultiplex 0; Demultiplex 0].
Definition died : Sys := default (boot []) (steps (boot [Sample.ext "echo" "peer"]) died_run).
Definition died_entry : ExtensionEntry :=
  {| manifest := Sample.ext "echo" "peer"; status := Available; connection := Some {| link_no := 0; recv_taken := true |}; last_attempt := Some 0 |}.
Definition after_restart : list event := [Tick 60000; Arrive Sample.bob (ExtensionCall "echo" [3])].
Definition restarted : Sys := default (boot []) (steps died after_restart).
Lemma dead_extension_stays_dead_witness :
  steps (boot [Sample.ext "echo" "peer"]) died_run = Some died /\ dead died "echo" died_entry /\ steps died after_restart = Some restarted /\
  exists k s1, (k <= 3)%nat /\ steps restarted (replicate k (Run 1)) = Some s1 /\ is_refused s1 1.
Proof.
  assert (dead died "echo" died_entry) as Hd.
  { split; [by vm_compute|done|by eexists|by vm_compute| |].
    - assert (demuxes died = [{| dx_ext := "echo"; dx_link := 0; dx_pc := Ended |}]) as -> by (by vm_compute).
      intros [|d] x; [|done]. intros [= <-]. done.
    - assert (pc <$> tasks died = [Finished]) as Hp by (by vm_compute). intros i t Hi.
      assert (pc t ∈ pc <$> tasks died) as Hin by (eapply list_elem_of_fmap_2, list_elem_of_lookup_2, Hi).
      rewrite Hp in Hin. apply list_elem_of_singleton in Hin. rewrite Hin. by split. }
  assert (steps died after_restart = Some restarted) as Hs by (by vm_compute).
  split; [by vm_compute|]. split; [exact Hd|]. split; [exact Hs|].
  destruct (dead_extension_stays_dead died "echo" died_entry after_restart restarted Hd Hs) as (_ & _ & Hr).
  eapply (Hr 1%nat); [by vm_compute|by vm_compute|done].
Defined.

(** ** Requests nobody answers *)
(** Nothing the host does by itself can happen any more. *)
Definition at_rest (s : Sys) : Prop := (forall i, step s (Run i) = None) /\ (forall d, step s (Demultiplex d) = None) /\ Forall (fun t => forall x k, pc t <> Dialing x k) (tasks s).
Definition echo_open : list event :=
  [Arrive Sample.alice (ExtensionStreamOpen "echo" [])] ++ Sample.first_call 0 ++ [Sends 0 (StreamClosed 0 (Some "echo extension does not support streams")); Demultiplex 0].
Definition lost_call : list event :=
  Sample.echo_run ++ [Arrive Sample.bob (ExtensionCall "echo" [3]); Run 1; Run 1] ++
  [Dies 0; Demultiplex 0; Demultiplex 0; Demultiplex 0; Demultiplex 0; Demultiplex 0] ++ [Run 1; Run 1; Run 1; BridgeFails 0].
(** A request can wait for ever.  Opening a stream on the reference extension does: it
    has answered all it was sent, closing a stream that has no number yet, and the host is
    at rest with the task waiting.  So does a call that passed the demultiplexer check just
    before the connection died: it is sent into a bridge nobody serves, and no one is left
    to drop its reply channel. *)
Theorem requests_left_waiting :
  (exists s t l, steps (boot [Sample.ext "echo" "peer"]) echo_open = Some s /\ tasks s = [t] /\ links s = [l] /\
     arrived l = mjoin (echo <$> outbound l) /\ written t = [] /\ pc t = Await 1 /\ at_rest s) /\
  (exists s a b l, steps (boot [Sample.ext "echo" "peer"]) lost_call = Some s /\ tasks s = [a; b] /\ links s = [l] /\
     inbound_open l = false /\ written b = [] /\ pc b = Await 2 /\ at_rest s).
Proof.
  split.
  - eexists _, _, _. split; [vm_compute; reflexivity|]. split_and!; [reflexivity|reflexivity|by vm_compute|done|done|].
    split_and!; [intros [|i]; reflexivity|intros [|d]; reflexivity|by repeat constructor].
  - eexists _, _, _, _. split; [vm_compute; reflexivity|]. split_and!; [reflexivity|reflexivity|done|done|done|].
    split_and!; [intros [|[|i]]; reflexivity|intros [|d]; reflexivity|by repeat constructor].
Qed.

Definition refusing : ConnectEnv :=
  {| e_files := e_files Sample.up; e_alive := e_alive Sample.up; e_connect := fun _ => false; e_reverse := e_reverse Sample.up; e_hello := true; e_ack := e_ack Sample.up |}.
(** Two peers whose first calls reach a healthy extension together are both refused:
    nothing keeps the second from dialing too, its dial fails, since the extension accepts
    one connection, and the failure throws away the connection the first one made. *)
Theorem concurrent_first_calls_fail :
  exists s a b, steps (boot [Sample.ext "echo" "peer"])
    [Arrive Sample.alice (ExtensionCall "echo" [1]); Arrive Sample.bob (ExtensionCall "echo" [2]); Run 0; Run 1;
     Dialed 0 Sample.up; Dialed 1 refusing; Run 0; Run 0] = Some s /\ tasks s = [a; b] /\
    written a = [PError NoDemux] /\ written b = [PError (Unreachable ConnectFailed)] /\ connection <$> extensions s !! "echo" = Some None.
Proof. eexists _, _, _. split; [vm_compute; reflexivity|]. by vm_compute. Qed.
