(* ===== verification/Enforce.v ===== *)
(** * Enforce: the kernel sandboxes a session runs in (sandbox/mod.rs, sandbox/linux.rs,
    sandbox/macos.rs, [cmd_sandbox_shell] of main.rs)

    What a policy becomes: the command to spawn, the Landlock ruleset or the Seatbelt
    profile.  Landlock and Seatbelt themselves are specified as they document themselves: a
    Landlock domain denies the rights its ruleset handles except beneath the paths whose
    rules grant them; in a Seatbelt profile the last rule that applies decides. *)
From S2P Require Import Prelude Text Policy Fs Privsep.
From Stdlib Require Import Ascii.
Local Open Scope Z_scope.

Inductive Os := Macos | Linux | OtherUnix.
#[export] Instance Os_eq : EqDecision Os.
Proof. solve_decision. Defined.

(** ** Landlock *)
Inductive AccessFs :=
| Execute | WriteFile | ReadFile | ReadDir | RemoveDir | RemoveFile | MakeChar | MakeDir | MakeReg | MakeSock | MakeFifo | MakeBlock | MakeSym
| Refer | Truncate | IoctlDev.
#[export] Instance AccessFs_eq : EqDecision AccessFs.
Proof. solve_decision. Defined.
Definition read_access : list AccessFs := [Execute; ReadFile; ReadDir].
Definition write_access : list AccessFs :=
  [WriteFile; RemoveDir; RemoveFile; MakeChar; MakeDir; MakeReg; MakeSock; MakeFifo; MakeBlock; MakeSym].
Definition all_access : list AccessFs := read_access ++ write_access.
(** [AccessFs::from_all(ABI::V1)]: later ABIs added the last three rights. *)
Definition abi_v1 : list AccessFs := all_access.

Record Ruleset := { handled : list AccessFs; rules : list (Path * list AccessFs) }.
(** Whether a domain lets an access pass. *)
Definition permits (rs : Ruleset) (p : Path) (a : AccessFs) : bool :=
  negb (bool_decide (a ∈ handled rs)) || existsb (fun r => path_starts_with p r.1 && bool_decide (a ∈ r.2)) (rules rs).

(** The kernel and the file system while a sandbox is applied: the directory an existing
    path opens, and which calls succeed. *)
Record Kernel := {
  open_path : Path -> option Path;
  create_ok : bool;
  rule_ok : Path -> bool;
  (** [restrict_self]: an error, or whether the ruleset is enforced. *)
  restrict_self : option bool;
  nnp_ok : bool;
  net_ok : bool;
}.

Definition abs (names : list string) : Path := RootDir :: map Normal names.
Definition system_paths : list Path :=
  [abs ["usr"]; abs ["bin"]; abs ["sbin"]; abs ["lib"]; abs ["lib64"]; abs ["dev"]; abs ["proc"]; abs ["sys"]; abs ["etc"]; abs ["tmp"];
   abs ["run"]; abs ["var"; "run"]; abs ["var"; "lib"]]%string.

Definition add_rule (k : Kernel) (path : Path) (access : list AccessFs) (rs : Ruleset) : rust string Ruleset :=
  match open_path k path with
  | None => Ok rs
  | Some d => if rule_ok k d then Ok {| handled := handled rs; rules := rules rs ++ [(d, access)] |} else Err "landlock add_rule"%string
  end.
(** [let _ = add_rule(..)]. *)
Definition try_rule (k : Kernel) (path : Path) (access : list AccessFs) (rs : Ruleset) : Ruleset :=
  match add_rule k path access rs with Ok rs => rs | _ => rs end.
Fixpoint add_rules (k : Kernel) (paths : list Path) (access : list AccessFs) (rs : Ruleset) : rust string Ruleset :=
  match paths with [] => Ok rs | p :: ps => rs ← add_rule k p access rs; add_rules k ps access rs end.

Definition apply_landlock (k : Kernel) (policy : SandboxPolicy) : rust string (option Ruleset) :=
  if negb (read_only policy) && is_empty (allowed_paths policy) then Ok None
  else if negb (create_ok k) then Err "landlock create"%string
  else
    let rs := {| handled := abi_v1; rules := [] |} in
    let rs := foldl (fun rs p => try_rule k p read_access rs) rs system_paths in
    rs ← (if read_only policy then
            rs ← (if is_empty (allowed_paths policy) then add_rule k (abs []) read_access rs else add_rules k (allowed_paths policy) read_access rs);
            let rs := try_rule k (abs ["tmp"]%string) all_access rs in
            Ok (try_rule k (abs ["var"; "tmp"]%string) all_access rs)
          else if is_empty (allowed_paths policy) then add_rule k (abs []) all_access rs
          else
            rs ← add_rule k (abs []) read_access rs;
            add_rules k (allowed_paths policy) all_access rs);
    match restrict_self k with
    | None => Err "landlock restrict_self"%string
    | Some false => Err "Landlock unavailable (kernel < 5.13); refusing restricted session"%string
    | Some true => Ok (Some rs)
    end.

(** What holds of a process afterwards. *)
Record Confinement := { no_new_privs : bool; domain : option Ruleset; tcp_denied : bool }.
Definition apply_sandbox (k : Kernel) (policy : SandboxPolicy) : rust string Confinement :=
  d ← apply_landlock k policy;
  Ok {| no_new_privs := nnp_ok k; domain := d; tcp_denied := no_network policy && net_ok k |}.

(** ** Seatbelt *)
Inductive Op := FileRead | FileWrite | NetworkOutbound | NetworkInbound.
#[export] Instance Op_eq : EqDecision Op.
Proof. solve_decision. Defined.
Inductive Filter := Everything | Subpath (text : string) | Literal (text : string) | Regex (text : string) | RemoteIp | LocalIp.
Record Rule := { allow : bool; op : Op; filter : Filter }.

Definition is_control_byte (b : Z) : bool := (b <? 32) || (b =? 127).
(** Control characters: the ASCII ones, and U+0080 to U+009F in UTF-8. *)
Fixpoint has_control (l : bytes) : bool :=
  match l with
  | [] => false
  | b :: l' => is_control_byte b || (b =? 194) && match l' with c :: _ => in_range 128 159 c | [] => false end || has_control l'
  end.
Fixpoint escape_chars (s : string) : string :=
  match s with
  | EmptyString => EmptyString
  | String c s => if (ord c =? 92) || (ord c =? 34) then String (chr 92) (String c (escape_chars s)) else String c (escape_chars s)
  end.
Definition sbpl_escape (path : string) : option string :=
  if has_control (str_bytes path) then None else Some (escape_chars path).

(** [Path::display]. *)
Definition path_text (p : Path) : string :=
  let piece c := match c with RootDir => EmptyString | CurDir => "."%string | ParentDir => ".."%string | Normal n => n end in
  match p with
  | RootDir :: [] => "/"%string
  | _ => String.concat "/" (map piece p)
  end.

Definition op_text (o : Op) : string :=
  match o with FileRead => "file-read*" | FileWrite => "file-write*" | NetworkOutbound => "network-outbound" | NetworkInbound => "network-inbound" end.
Definition dq : string := String (chr 34) EmptyString.
Definition filter_text (f : Filter) : string :=
  match f with
  | Everything => ""
  | Subpath t => " (subpath " +:+ dq +:+ t +:+ dq +:+ ")"
  | Literal t => " (literal " +:+ dq +:+ t +:+ dq +:+ ")"
  | Regex t => " (regex #" +:+ dq +:+ t +:+ dq +:+ ")"
  | RemoteIp => " (remote ip " +:+ dq +:+ "*:*" +:+ dq +:+ ")"
  | LocalIp => " (local ip " +:+ dq +:+ "*:*" +:+ dq +:+ ")"
  end%string.
Definition rule_text (r : Rule) : string :=
  ((if allow r then "(allow " else "(deny ") +:+ op_text (op r) +:+ filter_text (filter r) +:+ ")" +:+ nl)%string.

Definition sbpl_system_paths : list string :=
  ["/usr"; "/bin"; "/sbin"; "/lib"; "/dev"; "/private/var/db"; "/private/var/run"; "/private/var/folders"; "/private/etc"; "/System";
   "/Applications/Utilities"; "/Library/Preferences"; "/var/select"; "/var/db"; "/etc"; "/private/tmp"; "/tmp"]%string.
Definition writable_filters : list Filter :=
  [Literal "/dev/null"; Literal "/dev/dfd"; Regex "^/dev/ttys[0-9]+$"; Regex "^/dev/pty[a-z][0-9a-f]$"; Subpath "/private/var/folders";
   Subpath "/private/tmp"; Subpath "/tmp"]%string.

Section Seatbelt.
Context `{!FileSystem}.

Definition allowed_rule (p : Path) : option Rule :=
  t ← sbpl_escape (path_text (default p (canonicalize p)));
  Some {| allow := true; op := FileRead; filter := Subpath t |}.
Definition profile_rules (policy : SandboxPolicy) (broker_config_dir : option Path) : list Rule :=
  (if is_empty (allowed_paths policy) then [] else
     [{| allow := false; op := FileRead; filter := Everything |}] ++
     map (fun t => {| allow := true; op := FileRead; filter := Subpath t |}) sbpl_system_paths ++
     omap allowed_rule (allowed_paths policy) ++
     match broker_config_dir with
     | Some d => [{| allow := true; op := FileRead; filter := Subpath (path_text (path_join d [Normal "broker"%string])) |}]
     | None => []
     end) ++
  (if read_only policy then
     {| allow := false; op := FileWrite; filter := Everything |} :: map (fun f => {| allow := true; op := FileWrite; filter := f |}) writable_filters
   else []) ++
  (if no_network policy then
     [{| allow := false; op := NetworkOutbound; filter := RemoteIp |}; {| allow := false; op := NetworkInbound; filter := LocalIp |}]
   else []).
Definition generate_sbpl_profile_with_broker (policy : SandboxPolicy) (broker_config_dir : option Path) : string :=
  ("(version 1)" +:+ nl +:+ "(allow default)" +:+ nl +:+ String.concat "" (map rule_text (profile_rules policy broker_config_dir)))%string.
Definition generate_sbpl_profile (policy : SandboxPolicy) : string := generate_sbpl_profile_with_broker policy None.
End Seatbelt.

(** ** The commands *)
(** A program to spawn; [hook] is the policy applied between fork and exec. *)
Record Command := { program : string; args : list string; hook : option SandboxPolicy }.

(** What the builders read of the system. *)
Class Accounts := {
  login_shell : string -> string;
  shell_var : option string;
  exe : option string;
}.
Class PolicyJson := { to_json : SandboxPolicy -> option string; from_json : string -> option SandboxPolicy }.
Class PolicyJsonLaws `{!PolicyJson} : Prop := { from_to_json : forall p, exists j, to_json p = Some j /\ from_json j = Some p }.

Definition BROKER_SAFE_COMMANDS : list string :=
  ["ps"; "w"; "who"; "last"; "lastlog"; "uptime"; "netstat"; "lsof"; "iostat"; "vm_stat"; "sysctl"; "sw_vers"; "system_profiler"; "diskutil";
   "ifconfig"; "finger"; "top"]%string.
Definition to_lower (c : ascii) : ascii := if in_range 65 90 (ord c) then chr (ord c + 32) else c.
Fixpoint lower (s : string) : string := match s with EmptyString => EmptyString | String c s => String (to_lower c) (lower s) end.
Definition eq_ignore_ascii_case (a b : string) : bool := bool_decide (lower a = lower b).
Definition is_broker_safe (name : string) : bool := existsb (fun c => eq_ignore_ascii_case c name) BROKER_SAFE_COMMANDS.

(** [split_whitespace().next()]. *)
Definition first_word (cmd : string) : string := until_ws (trim_start cmd).
Definition command_name (cmd : string) : string := default (first_word cmd) (file_name (components (first_word cmd))).

Section Commands.
Context `{!FileSystem, !Accounts, !PolicyJson}.

Definition plain (p : string) (a : list string) : Command := {| program := p; args := a; hook := None |}.
Definition hooked (p : string) (a : list string) (policy : SandboxPolicy) : Command := {| program := p; args := a; hook := Some policy |}.

Definition build_unsandboxed_exec (os : Os) (cmd : string) (username : option string) : Command :=
  match username with
  | Some user =>
      let wrapped := with_rc_source cmd (login_shell user) in
      match os with
      | Macos => plain "login" ["-fpq"; user; login_shell user; "-lc"; wrapped]
      | _ => plain "su" ["-"; user; "-s"; login_shell user; "-c"; wrapped]
      end
  | None => plain (default "/bin/sh" shell_var) ["-lc"; cmd]
  end%string.

(** [macos::sandboxed_command] and [linux::sandboxed_command]. *)
Definition macos_sandboxed_command (cmd : string) (policy : SandboxPolicy) : Command :=
  plain "/usr/bin/sandbox-exec" ["-p"; generate_sbpl_profile policy; "/bin/sh"; "-c"; cmd]%string.
Definition linux_sandboxed_command (cmd : string) (policy : SandboxPolicy) : Command :=
  {| program := "/bin/sh"; args := ["-c"; cmd]%string; hook := if is_restricted policy then Some policy else None |}.

Definition build_exec_command (os : Os) (cmd : string) (policy : SandboxPolicy) (username : option string) : Command :=
  if negb (is_restricted policy) then build_unsandboxed_exec os cmd username
  else
    match os with
    | Macos =>
        if is_broker_safe (command_name cmd) then build_unsandboxed_exec os cmd username
        else
          match username with
          | Some user =>
              plain "login" ["-fpq"; user; "/usr/bin/sandbox-exec"; "-p"; generate_sbpl_profile policy; login_shell user; "-lc";
                             with_rc_source cmd (login_shell user)]
          | None => macos_sandboxed_command cmd policy
          end
    | Linux =>
        match username with
        | Some user => hooked "su" ["-"; user; "-c"; cmd] policy
        | None => linux_sandboxed_command cmd policy
        end
    | OtherUnix => build_unsandboxed_exec os cmd username
    end%string.

Definition spawn_sandboxed_command (os : Os) (cmd : string) (policy : SandboxPolicy) (username : option string) : rust string Command :=
  if is_restricted policy && match validate_command cmd policy with Ok _ => false | _ => true end then Err "empty command"%string
  else Ok (build_exec_command os cmd policy username).

(** [macos::sandboxed_shell_command_with_broker]. *)
Definition macos_shell (policy : SandboxPolicy) (shell : string) (username : option string) (broker : option Path) : Command :=
  let profile := generate_sbpl_profile_with_broker policy broker in
  match username with
  | Some user => plain "login" ["-fp"; user; "/usr/bin/sandbox-exec"; "-p"; profile; shell; "-l"]
  | None => plain "/usr/bin/sandbox-exec" ["-p"; profile; shell; "-l"]
  end%string.
(** [linux::sandboxed_shell_command]. *)
Definition linux_shell (policy : SandboxPolicy) (shell : string) (username : option string) : Command :=
  plain (default "hop" exe)%string
    (["__sandbox-shell"; "--policy"; default EmptyString (to_json policy); "--"]%string ++
     match username with Some user => ["su"; "-"; user]%string | None => [shell; "-l"]%string end).
Definition plain_shell (os : Os) (shell : string) (username : option string) : Command :=
  match username with
  | Some user => match os with Macos => plain "login" ["-fp"; user] | _ => plain "su" ["-"; user] end
  | None => plain shell ["-l"]
  end%string.
Definition sandboxed_shell (os : Os) (policy : SandboxPolicy) (shell : string) (username : option string) (broker : option Path) : Command :=
  if negb (is_restricted policy) then plain_shell os shell username
  else
    match os with
    | Macos => macos_shell policy shell username broker
    | Linux => linux_shell policy shell username
    | OtherUnix => plain_shell os shell username
    end.

(** The wrapper a Linux shell starts in: the process's confinement and what it becomes. *)
Definition cmd_sandbox_shell (k : Kernel) (policy_json : string) (shell_args : list string) : rust string (Confinement * string * list string) :=
  match from_json policy_json with
  | None => Err "invalid sandbox policy JSON"%string
  | Some policy =>
      c ← apply_sandbox k policy;
      match shell_args with
      | [] => Err "no shell specified"%string
      | shell :: rest => Ok (c, shell, rest)
      end
  end.
(** Starting a command on Linux: its hook runs in the new process before the program and refuses it on an
    error; the daemon's own binary, started as the wrapper, applies the policy and becomes what it wraps. *)
Definition start_linux (k : Kernel) (c : Command) : rust string (option Confinement * string * list string) :=
  match hook c with
  | Some policy => conf ← apply_sandbox k policy; Ok (Some conf, program c, args c)
  | None =>
      if bool_decide (program c = default "hop"%string exe) then
        match args c with
        | name :: flag :: policy_json :: dashes :: shell_args =>
            if bool_decide ([name; flag; dashes] = ["__sandbox-shell"; "--policy"; "--"])%string then
              '(conf, shell, rest) ← cmd_sandbox_shell k policy_json shell_args; Ok (Some conf, shell, rest)
            else Ok (None, program c, args c)
        | _ => Ok (None, program c, args c)
        end
      else Ok (None, program c, args c)
  end.
End Commands.

(** ** What Landlock enforces *)
Section Landlock.
Implicit Types (k : Kernel) (policy : SandboxPolicy) (rs : Ruleset).

(** The rules a policy asks for, in order. *)
Definition granted policy : list (Path * list AccessFs) :=
  map (fun p => (p, read_access)) system_paths ++
  if read_only policy then
    (if is_empty (allowed_paths policy) then [(abs [], read_access)] else map (fun p => (p, read_access)) (allowed_paths policy)) ++
    [(abs ["tmp"]%string, all_access); (abs ["var"; "tmp"]%string, all_access)]
  else if is_empty (allowed_paths policy) then [(abs [], all_access)]
  else (abs [], read_access) :: map (fun p => (p, all_access)) (allowed_paths policy).
(** The rule made of one, for a path that exists. *)
Definition rule_for k (g : Path * list AccessFs) : option (Path * list AccessFs) :=
  d ← open_path k g.1; if rule_ok k d then Some (d, g.2) else None.

Definition extends k rs (gs : list (Path * list AccessFs)) rs' : Prop := handled rs' = handled rs /\ rules rs' = rules rs ++ omap (rule_for k) gs.
Lemma extends_app k rs gs rs1 gs' rs2 : extends k rs gs rs1 -> extends k rs1 gs' rs2 -> extends k rs (gs ++ gs') rs2.
Proof. intros [H1 R1] [H2 R2]. split; [congruence|]. by rewrite R2, R1, omap_app, (assoc (++)). Qed.
Lemma add_rule_extends k p a rs rs' : add_rule k p a rs = Ok rs' -> extends k rs [(p, a)] rs'.
Proof.
  unfold add_rule, extends, rule_for. simpl. destruct (open_path k p) as [d|]; simpl; [|intros [= <-]; by rewrite app_nil_r].
  destruct (rule_ok k d); [|done]. by intros [= <-].
Qed.
Lemma try_rule_extends k p a rs : extends k rs [(p, a)] (try_rule k p a rs).
Proof.
  unfold try_rule. destruct (add_rule k p a rs) eqn:E; [by apply add_rule_extends| |]; unfold add_rule in E; unfold extends, rule_for; simpl;
    (destruct (open_path k p) as [d|]; [|done]); simpl in *; (destruct (rule_ok k d); [done|]); by rewrite app_nil_r.
Qed.
Lemma add_rules_extends k ps a : forall rs rs', add_rules k ps a rs = Ok rs' -> extends k rs (map (fun p => (p, a)) ps) rs'.
Proof.
  induction ps as [|p ps IH]; intros rs rs' Hr; simpl in Hr; [simplify_eq; split; [done|by rewrite app_nil_r]|].
  destruct (add_rule k p a rs) as [rs1| |] eqn:E; simpl in Hr; try done.
  apply (extends_app _ _ [(p, a)] rs1 (map (fun p => (p, a)) ps)); [by apply add_rule_extends|by apply IH].
Qed.
Lemma try_rules_extends k ps a : forall rs, extends k rs (map (fun p => (p, a)) ps) (foldl (fun rs p => try_rule k p a rs) rs ps).
Proof.
  induction ps as [|p ps IH]; intros rs; simpl; [split; [done|by rewrite app_nil_r]|].
  apply (extends_app _ _ [(p, a)] (try_rule k p a rs) (map (fun p => (p, a)) ps)); [apply try_rule_extends|apply IH].
Qed.

(** An enforced ruleset holds exactly the rules asked for whose paths exist. *)
Lemma apply_landlock_rules k policy rs : apply_landlock k policy = Ok (Some rs) -> handled rs = abi_v1 /\ rules rs = omap (rule_for k) (granted policy).
Proof.
  unfold apply_landlock. case_match; [done|]. case_match; [done|].
  set (rs0 := {| handled := abi_v1; rules := [] |}). pose proof (try_rules_extends k system_paths read_access rs0) as Hsys.
  set (rs1 := foldl _ rs0 system_paths) in *. intros Hok.
  enough (exists gs, granted policy = map (fun p => (p, read_access)) system_paths ++ gs /\ extends k rs1 gs rs) as (gs & Hg & He).
  { rewrite Hg. apply (extends_app _ _ _ _ _ _ Hsys He). }
  assert (forall A (m : rust string A) f, (m ≫= f) = Ok (Some rs) -> exists a : A, m = Ok a /\ f a = Ok (Some rs)) as Hbind.
  { intros A m f Hf. destruct m; [eauto|done|done]. }
  apply Hbind in Hok as (rs2 & Hrs2 & Hr). destruct (restrict_self k) as [[]|]; [|done|done]. injection Hr as ->.
  eexists. split; [reflexivity|]. destruct (read_only policy).
  - destruct (is_empty (allowed_paths policy)).
    + destruct (add_rule k (abs []) read_access rs1) as [rs3| |] eqn:E; simpl in Hrs2; try done. injection Hrs2 as <-.
      apply (extends_app _ _ _ rs3 [_; _]); [by apply add_rule_extends|]. eapply (extends_app _ _ [_] _ [_]); apply try_rule_extends.
    + destruct (add_rules k (allowed_paths policy) read_access rs1) as [rs3| |] eqn:E; simpl in Hrs2; try done. injection Hrs2 as <-.
      apply (extends_app _ _ _ rs3 [_; _]); [by apply add_rules_extends|]. eapply (extends_app _ _ [_] _ [_]); apply try_rule_extends.
  - destruct (is_empty (allowed_paths policy)); [by apply add_rule_extends|].
    destruct (add_rule k (abs []) read_access rs1) as [rs3| |] eqn:E; simpl in Hrs2; try done.
    apply (extends_app _ _ [_] rs3); [by apply add_rule_extends|by apply add_rules_extends].
Qed.

(** [q] lies in a directory that one of the paths opens. *)
Definition beneath k (ps : list Path) (q : Path) : Prop := exists p d, p ∈ ps /\ open_path k p = Some d /\ d `prefix_of` q.
Lemma permits_granted k policy rs q a : apply_landlock k policy = Ok (Some rs) -> a ∈ all_access -> permits rs q a = true ->
  exists p acc d, (p, acc) ∈ granted policy /\ open_path k p = Some d /\ d `prefix_of` q /\ a ∈ acc.
Proof.
  intros [Hh Hr]%apply_landlock_rules Ha Hp. unfold permits in Hp. rewrite Hh, Hr, bool_decide_true in Hp by done. cbn [negb orb] in Hp.
  apply existsb_exists in Hp as ((d & acc) & Hin & [Hpre Hacc]%andb_true_iff). apply list_elem_of_In, list_elem_of_omap in Hin as ((p & acc') & Hg & Hf).
  unfold rule_for in Hf. simpl in Hf. destruct (open_path k p) as [d'|] eqn:Eo; [|done]. simpl in Hf. destruct (rule_ok k d'); simplify_eq.
  unfold path_starts_with in Hpre. apply bool_decide_eq_true in Hpre, Hacc. by exists p, acc, d.
Qed.
Lemma granted_permits k policy rs p acc d q a : apply_landlock k policy = Ok (Some rs) -> (p, acc) ∈ granted policy -> open_path k p = Some d -> rule_ok k d = true ->
  d `prefix_of` q -> a ∈ acc -> permits rs q a = true.
Proof.
  intros [Hh Hr]%apply_landlock_rules Hg Ho Hk Hq Ha. unfold permits. apply orb_true_iff. right. apply existsb_exists. exists (d, acc). split.
  - apply list_elem_of_In. rewrite Hr. apply list_elem_of_omap. exists (p, acc). split; [done|]. unfold rule_for. simpl. rewrite Ho. simpl. by rewrite Hk.
  - unfold path_starts_with. by rewrite !bool_decide_true.
Qed.
Lemma write_not_read a : a ∈ write_access -> a ∉ read_access.
Proof. intros Ha. assert (forallb (fun x => negb (bool_decide (x ∈ read_access))) write_access = true) as Hall by done. rewrite forallb_forall in Hall.
  apply list_elem_of_In in Ha. specialize (Hall a Ha). apply negb_true_iff, bool_decide_eq_false in Hall. done. Qed.

Definition scratch : list Path := [abs ["tmp"]; abs ["var"; "tmp"]]%string.
Lemma granted_cases policy p acc : (p, acc) ∈ granted policy ->
  acc = read_access /\ (p ∈ system_paths \/ p ∈ allowed_paths policy \/ p = abs [] /\ (allowed_paths policy = [] \/ read_only policy = false)) \/
  acc = all_access /\ (read_only policy = true /\ p ∈ scratch \/ read_only policy = false /\ (p ∈ allowed_paths policy \/ p = abs [] /\ allowed_paths policy = [])).
Proof.
  unfold granted. rewrite elem_of_app, list_elem_of_fmap. intros [(x & [= -> ->] & Hx)|Hg]; [left; auto|].
  destruct (read_only policy) eqn:Er.
  - apply elem_of_app in Hg as [Hg|Hg].
    + left. destruct (allowed_paths policy) as [|x l]; simpl is_empty in Hg; cbv iota in Hg.
      * apply list_elem_of_singleton in Hg as [= -> ->]. auto 6.
      * apply list_elem_of_fmap in Hg as (y & [= -> ->] & Hy). auto.
    + right. split; [set_solver|]. left. split; [done|]. unfold scratch. set_solver.
  - destruct (allowed_paths policy) as [|x l]; simpl is_empty in Hg; cbv iota in Hg.
    + apply list_elem_of_singleton in Hg as [= -> ->]. right. auto 6.
    + apply elem_of_cons in Hg as [[= -> ->]|Hg]; [left; auto 6|]. apply list_elem_of_fmap in Hg as (y & [= -> ->] & Hy). right. auto 6.
Qed.

(** Where Landlock confines a session, a read-only one can write beneath the scratch
    directories only, and if it is scoped it can read only there, beneath the system
    directories and in its scope; a scoped session that may write writes beneath its scope
    only.  What the policy allows is allowed: every path of the scope that exists can be
    read, and written unless the policy is read-only.  No domain is set up only when the
    policy restricts neither writes nor paths. *)
Theorem landlock_enforces k policy :
  match apply_landlock k policy with
  | Ok None => read_only policy = false /\ allowed_paths policy = []
  | Ok (Some rs) =>
      (forall q a, permits rs q a = true ->
         (a ∈ write_access -> read_only policy = true -> beneath k scratch q) /\
         (a ∈ write_access -> read_only policy = false -> beneath k (allowed_paths policy) q) /\
         (a ∈ read_access -> read_only policy = true -> allowed_paths policy <> [] -> beneath k (system_paths ++ allowed_paths policy ++ scratch) q)) /\
      (forall p d q a, p ∈ allowed_paths policy -> open_path k p = Some d -> rule_ok k d = true -> d `prefix_of` q ->
         a ∈ read_access \/ a ∈ write_access /\ read_only policy = false -> permits rs q a = true)
  | _ => True
  end.
Proof.
  destruct (apply_landlock k policy) as [[rs|]| |] eqn:E; [| |done|done].
  - assert (read_only policy = false -> allowed_paths policy <> []) as Hscoped.
    { intros Hro He. unfold apply_landlock in E. by rewrite Hro, He in E. }
    split.
    + intros q a Hp.
      assert (a ∈ all_access -> exists p acc d, (p, acc) ∈ granted policy /\ open_path k p = Some d /\ d `prefix_of` q /\ a ∈ acc) as Hg by (intros; by eapply permits_granted).
      assert (forall ps p d, p ∈ ps -> open_path k p = Some d -> d `prefix_of` q -> beneath k ps q) as Hb by (intros ps p d ???; by exists p, d).
      split_and!.
      * intros Ha Hro. destruct Hg as (p & acc & d & Hg & Ho & Hd & Hin); [apply elem_of_app; by right|].
        destruct (granted_cases _ _ _ Hg) as [[-> _]|[_ [[_ Hc]|[Hf _]]]]; [by apply write_not_read in Ha|by eapply Hb|congruence].
      * intros Ha Hro. destruct Hg as (p & acc & d & Hg & Ho & Hd & Hin); [apply elem_of_app; by right|].
        destruct (granted_cases _ _ _ Hg) as [[-> _]|[_ [[Ht _]|[_ [Hc|[_ He]]]]]]; [by apply write_not_read in Ha|congruence|by eapply Hb|by destruct (Hscoped Hro)].
      * intros Ha Hro Hne. destruct Hg as (p & acc & d & Hg & Ho & Hd & Hin); [apply elem_of_app; by left|]. apply (Hb _ p d); [|done|done]. rewrite !elem_of_app.
        destruct (granted_cases _ _ _ Hg) as [[_ [Hc|[Hc|[_ [He|Hf]]]]]|[_ [[_ Hc]|[Hf _]]]]; [by left|by right; left|done|congruence|by right; right|congruence].
    + intros p d q a Hp Ho Hk Hd Ha. apply (granted_permits k policy rs p (if read_only policy then read_access else all_access) d); try done.
      * unfold granted. apply elem_of_app. right. destruct (allowed_paths policy) as [|x l] eqn:El; [by apply elem_of_nil in Hp|]. simpl is_empty. cbv iota.
        destruct (read_only policy); [apply elem_of_app; left|right]; apply list_elem_of_fmap; by exists p.
      * unfold all_access. destruct (read_only policy); [naive_solver|]. apply elem_of_app. naive_solver.
  - unfold apply_landlock in E. destruct (read_only policy), (is_empty (allowed_paths policy)) eqn:Ee; simpl in E.
    all: try (by repeat (case_match; simplify_eq/=)). all: try (destruct (create_ok k); simpl in E; [|done]).
    3: by destruct (allowed_paths policy).
    all: repeat match type of E with (?m ≫= _) = _ => destruct m; simpl in E end; destruct (restrict_self k) as [[]|]; done.
Qed.
End Landlock.

(** A right the ruleset does not handle is never denied.  The ruleset is of the first
    Landlock ABI, which has no right to truncate, so a read-only session can still empty
    every file its user may write. *)
Theorem read_only_can_truncate k policy rs q : apply_landlock k policy = Ok (Some rs) -> permits rs q Truncate = true.
Proof. intros [Hh _]%apply_landlock_rules. unfold permits. by rewrite Hh. Qed.
Lemma read_only_can_truncate_witness :
  let k := {| open_path := Some; create_ok := true; rule_ok := fun _ => true; restrict_self := Some true; nnp_ok := true; net_ok := true |} in
  exists rs, apply_landlock k preset_audit = Ok (Some rs) /\ permits rs (abs ["etc"; "passwd"]%string) WriteFile = false /\
    permits rs (abs ["etc"; "passwd"]%string) Truncate = true.
Proof. intros k. eexists. split; [vm_compute; reflexivity|]. split; [by vm_compute|]. by apply (read_only_can_truncate k preset_audit). Defined.

(** ** What Seatbelt enforces *)
Fixpoint unescape (s : string) : string :=
  match s with
  | EmptyString => EmptyString
  | String c r =>
      if ord c =? 92 then match r with String d r' => String d (unescape r') | EmptyString => EmptyString end
      else String c (unescape r)
  end.
(** A string literal of a profile, after its opening quote: its value and what follows. *)
Fixpoint read_literal (s : string) : option (string * string) :=
  match s with
  | EmptyString => None
  | String c r =>
      if ord c =? 34 then Some (EmptyString, r)
      else if ord c =? 92 then match r with String d r' => (fun x => (String d x.1, x.2)) <$> read_literal r' | EmptyString => None end
      else (fun x => (String c x.1, x.2)) <$> read_literal r
  end.
Lemma unescape_escape s : unescape (escape_chars s) = s.
Proof.
  induction s as [|c s IH]; [done|]. simpl. destruct (Z.eqb_spec (ord c) 92) as [E|E]; simpl; [by rewrite IH|].
  destruct (Z.eqb_spec (ord c) 34); simpl; [by rewrite IH|]. destruct (Z.eqb_spec (ord c) 92); [done|]. by rewrite IH.
Qed.
(** An escaped path is one literal, whatever follows it: no path can add to the profile. *)
Lemma read_escaped s rest : read_literal (escape_chars s +:+ dq +:+ rest) = Some (s, rest).
Proof.
  induction s as [|c s IH]; [done|]. cbn [escape_chars]. destruct ((ord c =? 92) || (ord c =? 34)) eqn:E.
  - change (fmap (fun x : string * string => (String c x.1, x.2)) (read_literal (escape_chars s +:+ dq +:+ rest)) = Some (String c s, rest)). by rewrite IH.
  - apply orb_false_iff in E as [E1 E2]. change (String c (escape_chars s) +:+ dq +:+ rest) with (String c (escape_chars s +:+ dq +:+ rest)).
    cbn [read_literal]. by rewrite E1, E2, IH.
Qed.

Section SeatbeltSpec.
Context `{!FileSystem} (regex : string -> Path -> bool).

Definition filter_matches (p : Path) (f : Filter) : bool :=
  match f with
  | Everything => true
  | Subpath t => path_starts_with p (components (unescape t))
  | Literal t => bool_decide (p = components (unescape t))
  | Regex t => regex t p
  | RemoteIp | LocalIp => false
  end.
(** The last rule that applies to the operation decides; by default it is allowed. *)
Definition verdict_from (start : bool) (rs : list Rule) (o : Op) (p : Path) : bool :=
  foldl (fun v r => if bool_decide (op r = o) && filter_matches p (filter r) then allow r else v) start rs.
Definition verdict : list Rule -> Op -> Path -> bool := verdict_from true.

Lemma verdict_app start a b o p : verdict_from start (a ++ b) o p = verdict_from (verdict_from start a o p) b o p.
Proof. apply foldl_app. Qed.
Lemma verdict_other start rs o p : Forall (fun r => op r <> o) rs -> verdict_from start rs o p = start.
Proof. unfold verdict_from. intros Hrs. revert start. induction Hrs as [|r rs Hr _ IH]; intros start; simpl; [done|]. rewrite bool_decide_false by done. apply IH. Qed.
Lemma verdict_allows start rs o p : Forall (fun r => op r = o /\ allow r = true) rs ->
  verdict_from start rs o p = start || existsb (fun r => filter_matches p (filter r)) rs.
Proof.
  unfold verdict_from. intros Hrs. revert start. induction Hrs as [|r rs [Hr Ha] _ IH]; intros start; simpl; [by rewrite orb_false_r|].
  rewrite bool_decide_true, Ha, IH by done. simpl. destruct (filter_matches p (filter r)), start; done.
Qed.

(** Where a path of the scope lies for the profile. *)
Definition scope_root (x : Path) : Path := components (path_text (default x (canonicalize x))).
Definition in_scope_of (policy : SandboxPolicy) (broker : option Path) (p : Path) : Prop :=
  (exists t, t ∈ sbpl_system_paths /\ components (unescape t) `prefix_of` p) \/
  (exists x, x ∈ allowed_paths policy /\ has_control (str_bytes (path_text (default x (canonicalize x)))) = false /\ scope_root x `prefix_of` p) \/
  (exists d, broker = Some d /\ components (unescape (path_text (path_join d [Normal "broker"%string]))) `prefix_of` p).

Definition read_rules (policy : SandboxPolicy) (broker : option Path) : list Rule :=
  map (fun t => {| allow := true; op := FileRead; filter := Subpath t |}) sbpl_system_paths ++ omap allowed_rule (allowed_paths policy) ++
  match broker with
  | Some d => [{| allow := true; op := FileRead; filter := Subpath (path_text (path_join d [Normal "broker"%string])) |}]
  | None => []
  end.
Lemma read_rules_allow policy broker : Forall (fun r => op r = FileRead /\ allow r = true) (read_rules policy broker).
Proof.
  unfold read_rules. apply Forall_app. split; [by repeat constructor|]. apply Forall_app. split; [|destruct broker; by repeat constructor].
  apply Forall_forall. intros r (x & _ & Hx)%list_elem_of_omap. unfold allowed_rule in Hx. destruct (sbpl_escape _); by simplify_eq/=.
Qed.
Lemma read_rules_match policy broker p : existsb (fun r => filter_matches p (filter r)) (read_rules policy broker) = true <-> in_scope_of policy broker p.
Proof.
  unfold read_rules. rewrite !existsb_app, !orb_true_iff. unfold in_scope_of. f_equiv; [|f_equiv].
  - rewrite existsb_exists. split.
    + intros (r & (t & <- & Ht)%in_map_iff & Hm). exists t. split; [by apply list_elem_of_In|]. by apply bool_decide_eq_true in Hm.
    + intros (t & Ht & Hp). eexists. split; [apply in_map_iff; exists t; split; [done|by apply list_elem_of_In]|]. by apply bool_decide_eq_true.
  - rewrite existsb_exists. split.
    + intros (r & (x & Hx & Hr)%list_elem_of_In%list_elem_of_omap & Hm). exists x. split; [done|]. unfold allowed_rule, sbpl_escape in Hr.
      destruct (has_control _) eqn:Ec; [done|]. simplify_eq/=. rewrite unescape_escape in Hm. by apply bool_decide_eq_true in Hm.
    + intros (x & Hx & Hc & Hp). eexists. split; [apply list_elem_of_In, list_elem_of_omap; exists x; split; [done|]; unfold allowed_rule, sbpl_escape; by rewrite Hc|].
      cbn. rewrite unescape_escape. by apply bool_decide_eq_true.
  - destruct broker as [d|]; simpl; [|naive_solver]. rewrite orb_false_r. unfold path_starts_with. rewrite bool_decide_eq_true. naive_solver.
Qed.
Lemma profile_split policy broker : profile_rules policy broker =
  (if is_empty (allowed_paths policy) then [] else {| allow := false; op := FileRead; filter := Everything |} :: read_rules policy broker) ++
  (if read_only policy then {| allow := false; op := FileWrite; filter := Everything |} :: map (fun f => {| allow := true; op := FileWrite; filter := f |}) writable_filters else []) ++
  (if no_network policy then [{| allow := false; op := NetworkOutbound; filter := RemoteIp |}; {| allow := false; op := NetworkInbound; filter := LocalIp |}] else []).
Proof. unfold profile_rules, read_rules. by destruct (is_empty (allowed_paths policy)), broker. Qed.

(** Under the generated profile a session may write to a file exactly when the policy
    is not read-only or the file is a terminal, the null device or in a temporary
    directory; and it may read one exactly when the policy has no scope or the file lies in
    a system directory, in the scope, or in the broker's directory.  The path of a scope
    stays inside its string whatever characters it has, or the path is left out. *)
Theorem seatbelt_enforces policy broker p :
  let rs := profile_rules policy broker in
  verdict rs FileWrite p = negb (read_only policy) || existsb (filter_matches p) writable_filters /\
  (verdict rs FileRead p = true <-> allowed_paths policy = [] \/ in_scope_of policy broker p) /\
  (forall x t rest, sbpl_escape x = Some t -> read_literal (t +:+ dq +:+ rest) = Some (x, rest)).
Proof.
  intros rs. subst rs. rewrite profile_split. split_and!.
  - unfold verdict. rewrite verdict_app, verdict_app, (verdict_other _ (if no_network policy then _ else _)) by (destruct (no_network policy); by repeat constructor).
    rewrite (verdict_other true (if is_empty (allowed_paths policy) then _ else _)).
    + destruct (read_only policy); [|done]. change (verdict_from true (?d :: ?l) FileWrite p) with (verdict_from false l FileWrite p).
      rewrite verdict_allows by (by repeat constructor). done.
    + destruct (is_empty _); [done|]. constructor; [done|]. eapply Forall_impl; [apply read_rules_allow|]. intros r [Hr _]. by rewrite Hr.
  - unfold verdict. rewrite verdict_app, (verdict_other _ ((if read_only policy then _ else _) ++ _)).
    + destruct (allowed_paths policy) as [|x l] eqn:El; simpl is_empty; cbv iota; [split; [by left|done]|].
      change (verdict_from true (?d :: ?l) FileRead p) with (verdict_from false l FileRead p).
      rewrite verdict_allows by apply read_rules_allow. cbn [orb]. rewrite read_rules_match. split; [by right|]. by intros [?|].
    + apply Forall_app. split; [destruct (read_only policy); by repeat constructor|destruct (no_network policy); by repeat constructor].
  - intros x t rest. unfold sbpl_escape. destruct (has_control _); [done|]. intros [= <-]. apply read_escaped.
Qed.

(** A scope without read-only means different things on the two systems.  On Linux,
    where the root directory is granted for reading, such a session can read every file;
    on macOS, where writes are not denied, it can write every file.  Neither keeps it
    inside its scope. *)
Theorem scope_kept_by_neither k rs policy broker q a p :
  read_only policy = false -> apply_landlock k policy = Ok (Some rs) -> open_path k (abs []) = Some (abs []) -> rule_ok k (abs []) = true ->
  allowed_paths policy <> [] -> Policy.absolute q -> a ∈ read_access ->
  permits rs q a = true /\ verdict (profile_rules policy broker) FileWrite p = true.
Proof.
  intros Hro Hap Ho Hk Hne (names & ->) Ha. split.
  - apply (granted_permits k policy rs (abs []) read_access (abs [])); try done; [|by exists (map Normal names)].
    unfold granted. rewrite Hro. destruct (allowed_paths policy); [done|]. apply elem_of_app. right. left.
  - rewrite profile_split, Hro. unfold verdict. rewrite app_nil_l, verdict_app, (verdict_other _ (if no_network policy then _ else _)) by (destruct (no_network policy); by repeat constructor).
    apply verdict_other. destruct (is_empty _); [done|]. constructor; [done|]. eapply Forall_impl; [apply read_rules_allow|]. intros r [Hr _]. by rewrite Hr.
Qed.
End SeatbeltSpec.

(** ** What runs where *)
(** A byte no white space has survives trimming. *)
Lemma str_bytes_cat a b : str_bytes (a +:+ b) = str_bytes a ++ str_bytes b.
Proof. induction a as [|c a IH]; [done|]. change (String c a +:+ b) with (String c (a +:+ b)). cbn [str_bytes]. by rewrite IH. Qed.
Lemma str_bytes_srev s : str_bytes (srev s) = rev (str_bytes s).
Proof. induction s as [|c s IH]; [done|]. by rewrite srev_cons, str_bytes_cat, IH. Qed.
Lemma elem_of_srev b s : b ∈ str_bytes (srev s) <-> b ∈ str_bytes s.
Proof. by rewrite str_bytes_srev, !list_elem_of_In, <-in_rev. Qed.
Lemma trim_start_keeps b ws fuel : Forall (fun w => b ∉ str_bytes w) ws -> forall s, b ∈ str_bytes s -> b ∈ str_bytes (trim_start_with ws fuel s).
Proof.
  intros Hws. induction fuel as [|fuel IH]; intros s Hs; simpl; [done|]. destruct (find _ ws) as [w|] eqn:Ef; [|done].
  apply find_some in Ef as [Hin Hw]. apply starts_with_spec in Hw as (t & ->). rewrite sdrop_app. apply IH.
  rewrite str_bytes_cat in Hs. apply elem_of_app in Hs as [Hs|Hs]; [|done]. rewrite Forall_forall in Hws. apply list_elem_of_In in Hin. by destruct (Hws w Hin).
Qed.
Lemma trim_keeps b s : Forall (fun w => b ∉ str_bytes w) whitespace -> b ∈ str_bytes s -> b ∈ str_bytes (trim s).
Proof.
  intros Hws Hs. unfold trim, trim_end. rewrite elem_of_srev. apply trim_start_keeps.
  - apply Forall_map. eapply Forall_impl; [exact Hws|]. intros w Hw. cbn. by rewrite elem_of_srev.
  - rewrite elem_of_srev. by apply trim_start_keeps.
Qed.
Lemma first_word_ps rest : command_name ("ps " +:+ rest) = "ps"%string.
Proof.
  unfold command_name, first_word. assert (trim_start ("ps " +:+ rest) = "ps " +:+ rest) as -> by reflexivity.
  assert (until_ws (" " +:+ rest) = EmptyString) as Hs.
  { change (" " +:+ rest) with (String " " rest). cbn [until_ws]. assert (existsb (fun w => starts_with w (String " " rest)) whitespace = true) as ->; [|done].
    apply existsb_exists. exists " "%string. split; [vm_compute; tauto|apply (starts_with_sapp " " rest)]. }
  assert (until_ws ("ps " +:+ rest) = "ps" +:+ until_ws (" " +:+ rest)) as -> by reflexivity. by rewrite Hs.
Qed.

Section Confined.
Context `{!FileSystem, !Accounts, !PolicyJson, !PolicyJsonLaws}.

(** ** What a session runs, and under what *)
Inductive SessionRun := RunCommand (cmd : string) | RunShell (shell : string).
(** The command lines sessions are meant to run. *)
Definition linux_line (r : SessionRun) (user : option string) : list string :=
  match r, user with
  | RunCommand cmd, Some u => ["su"; "-"; u; "-c"; cmd]
  | RunCommand cmd, None => ["/bin/sh"; "-c"; cmd]
  | RunShell _, Some u => ["su"; "-"; u]
  | RunShell shell, None => [shell; "-l"]
  end%string.
Definition macos_line (r : SessionRun) (user : option string) : list string :=
  match r, user with
  | RunCommand cmd, Some u => [login_shell u; "-lc"; with_rc_source cmd (login_shell u)]
  | RunCommand cmd, None => ["/bin/sh"; "-c"; cmd]
  | RunShell shell, _ => [shell; "-l"]
  end%string.
(** What the daemon starts for it. *)
Definition starts (os : Os) (policy : SandboxPolicy) (user : option string) (broker : option Path) (r : SessionRun) (c : Command) : Prop :=
  match r with
  | RunCommand cmd => spawn_sandboxed_command os cmd policy user = Ok c
  | RunShell shell => sandboxed_shell os policy shell user broker = c
  end.
(** [line] starts under the profile, as the user if there is one. *)
Definition under_profile (c : Command) (profile : string) (line : list string) : Prop :=
  exists pre, program c :: args c = pre ++ ["/usr/bin/sandbox-exec"; "-p"; profile]%string ++ line /\
    (pre = [] \/ exists flag user, pre = ["login"; flag; user]%string).
(** The policy restricts the file system. *)
Definition restricts_files (policy : SandboxPolicy) : Prop := read_only policy = true \/ allowed_paths policy <> [].
(** What a process may do whose policy took effect. *)
Definition confines (k : Kernel) (policy : SandboxPolicy) (x : Confinement) : Prop :=
  (restricts_files policy -> exists rs, domain x = Some rs /\ forall q a, permits rs q a = true ->
     (a ∈ write_access -> beneath k (if read_only policy then scratch else allowed_paths policy) q) /\
     (a ∈ read_access -> read_only policy = true -> allowed_paths policy <> [] -> beneath k (system_paths ++ allowed_paths policy ++ scratch) q)) /\
  (no_network policy = true -> net_ok k = true -> tcp_denied x = true).

Lemma apply_sandbox_confines k policy x : apply_sandbox k policy = Ok x -> confines k policy x.
Proof.
  unfold apply_sandbox. intros Ha. destruct (apply_landlock k policy) as [d| |] eqn:E; cbn in Ha; [|done..].
  injection Ha as <-. pose proof (landlock_enforces k policy) as Hl. rewrite E in Hl. split; cbn [domain tcp_denied]; [|by intros -> ->].
  intros Hr. destruct d as [rs|]; [|destruct Hl as [Hro Hne]; destruct Hr as [Hr|Hr]; [congruence|done]].
  exists rs. split; [done|]. intros q a Hp. destruct (proj1 Hl q a Hp) as (Q1 & Q2 & Q3). split; [|done].
  destruct (read_only policy); auto.
Qed.
(** Without Landlock in effect a policy that needs it is refused. *)
Lemma apply_sandbox_refuses k policy : restricts_files policy -> restrict_self k <> Some true -> exists e, apply_sandbox k policy = Err e.
Proof.
  intros Hr Hk. unfold apply_sandbox, apply_landlock. destruct (negb (read_only policy) && is_empty (allowed_paths policy)) eqn:E.
  { apply andb_true_iff in E as [Hro%negb_true_iff He]. destruct Hr as [Hr|Hr]; [congruence|]. by destruct (allowed_paths policy). }
  destruct (create_ok k); cbn [negb]; [|by eexists].
  destruct (if read_only policy then _ else _) as [rs|e|] eqn:Er; cbn [mbind rust_bind]; [|by eexists|].
  - destruct (restrict_self k) as [[]|]; [done|by eexists..].
  - exfalso. revert Er. assert (forall p a rs, add_rule k p a rs <> Panic) as Q1 by (intros; unfold add_rule; by repeat case_match).
    assert (forall ps a rs, add_rules k ps a rs <> Panic) as Q2.
    { induction ps as [|p ps IH]; intros a rs; cbn [add_rules]; [done|]. destruct (add_rule k p a rs) eqn:Ep; cbn [mbind rust_bind];
        [apply IH|done|by apply Q1 in Ep]. }
    repeat case_match; try apply Q1; try apply Q2; match goal with |- context [add_rule k ?p ?a ?rs] => destruct (add_rule k p a rs) eqn:Ep
      | |- context [add_rules k ?p ?a ?rs] => destruct (add_rules k p a rs) eqn:Ep end; cbn [mbind rust_bind]; try done;
      try apply Q2; first [by apply Q1 in Ep|by apply Q2 in Ep].
Qed.
(** Starting what the daemon starts for a restricted session applies the policy, then runs the line. *)
Lemma start_linux_applies k policy user broker r c : is_restricted policy = true -> starts Linux policy user broker r c ->
  start_linux k c = (x ← apply_sandbox k policy; match linux_line r user with p :: a => Ok (Some x, p, a) | [] => Err "no shell specified"%string end).
Proof.
  intros Hr. destruct r as [cmd|shell]; cbn [starts].
  - unfold spawn_sandboxed_command. case_match; [done|]. intros [= <-]. unfold build_exec_command, linux_sandboxed_command. rewrite Hr. by destruct user.
  - intros <-. unfold sandboxed_shell, linux_shell, plain. rewrite Hr. cbn [negb]. destruct (from_to_json policy) as (j & Hj & Hp).
    rewrite Hj. unfold start_linux, cmd_sandbox_shell. cbn [hook program args default app].
    rewrite bool_decide_eq_true_2 by done. rewrite bool_decide_eq_true_2 by done. change (from_json (id j)) with (from_json j). rewrite Hp.
    destruct (apply_sandbox k policy), user; done.
Qed.


(** On macOS a restricted session that starts its command line with [ps], or another
    of the broker's commands, runs the whole line, whatever follows, in an ordinary login
    shell with no sandbox at all. *)
Theorem broker_safe_exec_escapes policy user rest :
  is_restricted policy = true ->
  spawn_sandboxed_command Macos ("ps " +:+ rest) policy (Some user) =
    Ok {| program := "login"; args := ["-fpq"; user; login_shell user; "-lc"; with_rc_source ("ps " +:+ rest) (login_shell user)]; hook := None |}.
Proof.
  intros Hr. unfold spawn_sandboxed_command, build_exec_command, validate_command. rewrite Hr. cbn [andb negb].
  rewrite first_word_ps, bool_decide_false; [done|]. intros He.
  assert (112 ∈ str_bytes (trim ("ps " +:+ rest))) as Hp; [|rewrite He in Hp; by apply elem_of_nil in Hp].
  apply trim_keeps; [|by left]. apply Forall_forall. intros w Hw. assert (forallb (fun w => negb (bool_decide (112 ∈ str_bytes w))) whitespace = true) as Hall by (by vm_compute).
  rewrite forallb_forall in Hall. apply list_elem_of_In in Hw. apply Hall, negb_true_iff, bool_decide_eq_false in Hw. done.
Qed.

(** The monitor's builder and the host's agree for a bound user on Linux. *)
Lemma std_mirrors `{!System} cmd policy user : (forall u, user_login_shell u = login_shell u) ->
  let c := build_exec_command Linux cmd policy (Some user) in build_exec_command_std cmd policy user = (program c :: args c, hook c).
Proof. intros Hs. unfold build_exec_command, build_exec_command_std. rewrite Hs. by destruct (is_restricted policy). Qed.
End Confined.

(** ** Concrete systems *)
Module Sample.
Fixpoint bits (p : positive) : string := match p with xH => EmptyString | xO p => String "0" (bits p) | xI p => String "1" (bits p) end.
Fixpoint of_bits (s : string) : positive :=
  match s with EmptyString => xH | String c s => if bool_decide (c = "1"%char) then xI (of_bits s) else xO (of_bits s) end.
Lemma of_bits_bits p : of_bits (bits p) = p.
Proof. induction p as [p IH|p IH|]; simpl; [by rewrite IH|by rewrite IH|done]. Qed.
Definition fs : FileSystem.
Proof. refine {| canonicalize := fun _ => None |}. done. Defined.
Definition accounts : Accounts := {| login_shell := fun _ => "/bin/zsh"%string; shell_var := None; exe := Some "/usr/local/bin/hop"%string |}.
Definition json : PolicyJson := {| to_json := fun p => Some (bits (encode p)); from_json := fun s => decode (of_bits s) |}.
Lemma json_laws : @PolicyJsonLaws json.
Proof. split. intros p. eexists. split; [done|]. cbn. by rewrite of_bits_bits, decode_encode. Qed.
Definition kernel : Kernel := {| open_path := Some; create_ok := true; rule_ok := fun _ => true; restrict_self := Some true; nnp_ok := true; net_ok := true |}.
(** Scoped to a directory, with writes. *)
Definition scoped : SandboxPolicy :=
  {| read_only := false; no_network := false; allowed_paths := [abs ["srv"]%string]; allowed_commands := []; denied_commands := [] |}.
End Sample.

Lemma broker_safe_exec_escapes_witness :
  is_restricted preset_audit = true /\
  hook <$> (match @spawn_sandboxed_command Sample.fs Sample.accounts Macos ("ps " +:+ "&& rm -rf /srv") preset_audit (Some "ann"%string) with Ok c => Some c | _ => None end) = Some None.
Proof. split; [done|]. by rewrite (@broker_safe_exec_escapes Sample.fs Sample.accounts preset_audit "ann" "&& rm -rf /srv" eq_refl). Defined.
Lemma scope_kept_by_neither_witness :
  exists rs, apply_landlock Sample.kernel Sample.scoped = Ok (Some rs) /\ permits rs (abs ["etc"; "shadow"]%string) ReadFile = true /\
    @verdict (fun _ _ => false) (@profile_rules Sample.fs Sample.scoped None) FileWrite (abs ["etc"; "hosts"]%string) = true.
Proof.
  eexists. split; [vm_compute; reflexivity|].
  apply (@scope_kept_by_neither Sample.fs (fun _ _ => false) Sample.kernel _ Sample.scoped None (abs ["etc"; "shadow"]%string) ReadFile (abs ["etc"; "hosts"]%string) eq_refl);
    [by vm_compute|done|done|done|by exists ["etc"; "shadow"]%string|by right; left].
Defined.
