(* ===== verification/Broker.v ===== *)
(** * Broker: commands a sandboxed shell runs outside its sandbox (sandbox/broker.rs)

    The server decides on a request, starts the command on a terminal and relays its output
    and the client's input; the client, the shim a sandboxed shell finds in its path, writes
    the output and returns the exit code.  Messages are frames of bincode, an interface.
    The server's loop is a machine whose steps are the branches its [select!] takes; the
    client's is one whose steps are the returns of [poll]. *)
From S2P Require Import Prelude Text Policy Fs Privsep Frame Enforce.
From Stdlib Require Import Ascii.
Local Open Scope Z_scope.

Inductive BrokerRequest := Exec (command : string) (args : list string) (rows cols : Z) | Input (data : bytes) | Resize (rows cols : Z).
Inductive BrokerResponse := Output (data : bytes) | Exit (code : Z) | Denied (why : string).

(** ** Frames *)
Section Frames.
Context {T : Type} `{!Bincode T}.

Definition write_broker_message (msg : T) : rust frame_error bytes :=
  match encode_to_vec msg with
  | None => Err EncodeFailed
  | Some payload => Ok (to_be32 (u32 (Z.of_nat (length payload))) ++ payload)
  end.
Definition read_broker_message (stream : bytes) : rust frame_error (T * bytes) :=
  '(len_buf, stream) ← read_exact ReadLength stream 4;
  let len := from_be32_bytes len_buf in
  if MAX_FRAME_LEN <? len then Err (FrameTooLarge len) else
  '(payload, stream) ← read_exact ReadPayload stream (Z.to_nat len);
  match decode_from_slice payload with Some msg => Ok (msg, stream) | None => Err DecodeFailed end.
(** A complete message at the front of the buffer and the bytes it takes. *)
Definition try_decode_broker_message (buf : bytes) : option (T * nat) :=
  if (length buf <? 4)%nat then None
  else
    let len := from_be32_bytes buf in
    if MAX_FRAME_LEN <? len then None
    else
      let total := (4 + Z.to_nat len)%nat in
      if (length buf <? total)%nat then None
      else msg ← decode_from_slice (take (total - 4) (drop 4 buf)); Some (msg, total).
End Frames.

(** ** The decision *)
Definition broker_dir (config_dir : Path) (session_id : string) : Path := path_join (path_join config_dir [Normal "broker"%string]) [Normal session_id].
Definition broker_sock_path (config_dir : Path) (session_id : string) : Path := path_join (broker_dir config_dir session_id) [Normal "broker.sock"%string].
Definition shim_bin_dir (config_dir : Path) (session_id : string) : Path := path_join (broker_dir config_dir session_id) [Normal "bin"%string].

Definition search_dirs : list string := ["/usr/bin"; "/bin"; "/usr/sbin"; "/sbin"; "/usr/local/bin"]%string.
Definition resolve_real_binary (exists_ : string -> bool) (command : string) : option string :=
  find exists_ (map (fun d => d +:+ "/" +:+ command) search_dirs).
(** The program, its arguments and the environment it gets. *)
Definition build_broker_pty_command (os : Os) (real_bin : string) (args : list string) (username : option string) : string * list string * list (string * string) :=
  let '(p, a) :=
    match username with
    | Some user =>
        match os with
        | Macos => ("login"%string, ["-fp"%string; user; real_bin] ++ args)
        | _ => ("su"%string, ["-"%string; user; "-c"%string; String.concat " " (real_bin :: args)])
        end
    | None => (real_bin, args)
    end in
  (p, a, [("TERM", "xterm-256color")]%string).

Inductive Decision := Refuse (r : BrokerResponse) | Hangup | Spawn (program : string) (args : list string) (env : list (string * string)) (rows cols : Z).
Definition decide_request (os : Os) (exists_ : string -> bool) (policy : SandboxPolicy) (username : option string) (r : BrokerRequest) : Decision :=
  match r with
  | Exec command args rows cols =>
      if negb (is_broker_safe command) then Refuse (Denied ("command '" +:+ command +:+ "' is not on the broker-safe list"))
      else
        let full_cmd := match args with [] => command | _ => command +:+ " " +:+ String.concat " " args end in
        match validate_command full_cmd policy with
        | Ok _ =>
            match resolve_real_binary exists_ command with
            | None => Refuse (Denied ("command '" +:+ command +:+ "' not found"))
            | Some real_bin => let '(p, a, e) := build_broker_pty_command os real_bin args username in Spawn p a e rows cols
            end
        | _ => Refuse (Denied "policy denied: empty command")
        end
  | _ => Hangup
  end%string.

(** ** The relay *)
Inductive PtyCmd := Write (data : bytes) | PtyResize (rows cols : Z) | Shutdown.
Inductive Phase := Looping | Finished | Dropped.
(** [socket] has arrived and not been read; [partial] is what the current read has taken so
    far; [channel] is the output the reader thread handed over, [channel_open] while more
    can come; [sent] are the responses written. *)
Record Relay := {
  socket : bytes; socket_open : bool; partial : bytes;
  channel : list bytes; channel_open : bool; exited : option Z;
  sent : list BrokerResponse; to_pty : list PtyCmd; phase : Phase;
}.
Definition relay_start : Relay :=
  {| socket := []; socket_open := true; partial := []; channel := []; channel_open := true; exited := None; sent := []; to_pty := []; phase := Looping |}.

Inductive relay_event :=
| Arrives (b : bytes)
| ClientGone
| PtyOutput (b : bytes)
| PtyClosed
| ChildExits (code : Z)
(** Branches: an output chunk, or the channel's end; the read makes progress by [n] bytes
    or completes; the exit code. *)
| TakeOutput
| TakeClosed
| ReadSome (n : nat)
| TakeMessage
| TakeExit.

Definition with_partial (s : Relay) (sock part : bytes) : Relay :=
  {| socket := sock; socket_open := socket_open s; partial := part; channel := channel s; channel_open := channel_open s; exited := exited s;
     sent := sent s; to_pty := to_pty s; phase := phase s |}.
(** Another branch won: the read that was under way is dropped with what it had taken. *)
Definition restart_read (s : Relay) : Relay := with_partial s (socket s) [].
Definition with_channel (s : Relay) (c : list bytes) (out : list BrokerResponse) : Relay :=
  {| socket := socket s; socket_open := socket_open s; partial := partial s; channel := c; channel_open := channel_open s; exited := exited s;
     sent := out; to_pty := to_pty s; phase := phase s |}.
Definition pty_cmds (s : Relay) (l : list PtyCmd) (p : Phase) : Relay :=
  {| socket := socket s; socket_open := socket_open s; partial := partial s; channel := channel s; channel_open := channel_open s; exited := exited s;
     sent := sent s; to_pty := to_pty s ++ l; phase := p |}.

Section Relay.
Context `{!Bincode BrokerRequest}.

(** How many bytes the read still wants: the length word, then the payload. *)
Definition wanted (part : bytes) : nat :=
  if (length part <? 4)%nat then (4 - length part)%nat else (4 + Z.to_nat (from_be32_bytes part) - length part)%nat.

Definition relay_step (s : Relay) (e : relay_event) : option Relay :=
  match phase s with
  | Looping =>
      match e with
      | Arrives b => if socket_open s then Some (with_partial s (socket s ++ b) (partial s)) else None
      | ClientGone =>
          Some {| socket := socket s; socket_open := false; partial := partial s; channel := channel s; channel_open := channel_open s; exited := exited s;
                  sent := sent s; to_pty := to_pty s; phase := phase s |}
      | PtyOutput b => if channel_open s then Some (with_channel s (channel s ++ [b]) (sent s)) else None
      | PtyClosed =>
          Some {| socket := socket s; socket_open := socket_open s; partial := partial s; channel := channel s; channel_open := false; exited := exited s;
                  sent := sent s; to_pty := to_pty s; phase := phase s |}
      | ChildExits c =>
          Some {| socket := socket s; socket_open := socket_open s; partial := partial s; channel := channel s; channel_open := channel_open s; exited := Some c;
                  sent := sent s; to_pty := to_pty s; phase := phase s |}
      | TakeOutput =>
          match channel s with
          | d :: rest =>
              let s := restart_read s in
              if socket_open s then Some (with_channel s rest (sent s ++ [Output d])) else Some (pty_cmds (with_channel s rest (sent s)) [Shutdown] Dropped)
          | [] => None
          end
      | TakeClosed => match channel s with [] => if channel_open s then None else Some (restart_read s) | _ => None end
      | ReadSome n =>
          let n := Nat.min n (Nat.min (wanted (partial s)) (length (socket s))) in
          if (4 <=? length (partial s))%nat && (MAX_FRAME_LEN <? from_be32_bytes (partial s)) then None
          else Some (with_partial s (drop n (socket s)) (partial s ++ take n (socket s)))
      | TakeMessage =>
          match read_broker_message (partial s ++ socket s) with
          | Ok (Input data, rest) => Some (pty_cmds (with_partial s rest []) [Write data] Looping)
          | Ok (Resize r c, rest) => Some (pty_cmds (with_partial s rest []) [PtyResize r c] Looping)
          | Ok (Exec _ _ _ _, rest) => Some (with_partial s rest [])
          | Err ReadLength | Err ReadPayload => if socket_open s then None else Some (pty_cmds s [Shutdown] Dropped)
          | _ => Some (pty_cmds s [Shutdown] Dropped)
          end
      | TakeExit =>
          match exited s with
          | Some c => Some (pty_cmds (with_channel s [] (sent s ++ (if socket_open s then map Output (channel s) ++ [Exit c] else []))) [Shutdown] Finished)
          | None => None
          end
      end
  | _ => match e with PtyOutput _ => Some s | _ => None end
  end.
Fixpoint relay (s : Relay) (es : list relay_event) : option Relay :=
  match es with [] => Some s | e :: es => s ← relay_step s e; relay s es end.
End Relay.

(** ** The client *)
(** What the shim has written, what it sent, the bytes it holds, and its exit code. *)
Record Client := { sock_buf : bytes; stdout : bytes; requests : list BrokerRequest; result : option Z }.
Section Client.
Context `{!Bincode BrokerResponse}.

(** Decode and act on the complete messages of the buffer. *)
Fixpoint drain_messages (fuel : nat) (c : Client) : Client :=
  match fuel with
  | O => c
  | S f =>
      match try_decode_broker_message (sock_buf c) with
      | None => c
      | Some (msg, consumed) =>
          let buf := drop consumed (sock_buf c) in
          match msg with
          | Output data => drain_messages f {| sock_buf := buf; stdout := stdout c ++ data; requests := requests c; result := None |}
          | Exit code => {| sock_buf := buf; stdout := stdout c; requests := requests c; result := Some code |}
          | Denied _ => {| sock_buf := buf; stdout := stdout c; requests := requests c; result := Some 126 |}
          end
      end
  end.
(** One return of [poll]: what standard input gave, what the socket reported and gave, and
    whether the window changed. *)
Record Polled := { p_stdin : bytes; p_in : bool; p_hup : bool; p_data : bytes; p_winch : option (Z * Z) }.
Definition send_request (c : Client) (r : BrokerRequest) : Client :=
  {| sock_buf := sock_buf c; stdout := stdout c; requests := requests c ++ [r]; result := result c |}.
Definition poll_turn (c : Client) (p : Polled) : Client :=
  let c := match p_stdin p with [] => c | d => send_request c (Input d) end in
  let c :=
    if p_in p then
      let buf := sock_buf c ++ p_data p in
      drain_messages (S (length buf)) {| sock_buf := buf; stdout := stdout c; requests := requests c; result := None |}
    else c in
  match result c with
  | Some _ => c
  | None =>
      if p_hup p && negb (p_in p) then {| sock_buf := sock_buf c; stdout := stdout c; requests := requests c; result := Some 1 |}
      else match p_winch p with Some (r, k) => send_request c (Resize r k) | None => c end
  end.
Fixpoint poll_loop (c : Client) (ps : list Polled) : Client :=
  match ps with
  | [] => c
  | p :: ps => match result c with Some _ => c | None => poll_loop (poll_turn c p) ps end
  end.

(** Without a terminal: read message after message. *)
Fixpoint broker_client_pipe_loop (fuel : nat) (stream out : bytes) : rust frame_error (bytes * Z) :=
  match fuel with
  | O => Err ReadLength
  | S f =>
      '(r, stream) ← read_broker_message stream;
      match r with
      | Output data => broker_client_pipe_loop f stream (out ++ data)
      | Exit code => Ok (out, code)
      | Denied _ => Ok (out, 126)
      end
  end.
(** [broker_client_sync] up to its loops: the first response decides. *)
Definition first_response (stream : bytes) : rust frame_error (bytes * option Z * bytes) :=
  '(r, stream) ← read_broker_message stream;
  match r with
  | Denied _ => Ok ([], Some 126, stream)
  | Exit code => Ok ([], Some code, stream)
  | Output data => Ok (data, None, stream)
  end.
End Client.

(** ** Frames are read back *)
Section FramesBack.
Context {T : Type} `{!Bincode T}.

(** The frame of a message that fits the reader's limit. *)
Definition is_frame (m : T) (f : bytes) : Prop :=
  exists p, encode_to_vec m = Some p /\ Z.of_nat (length p) <= MAX_FRAME_LEN /\ f = to_be32 (u32 (Z.of_nat (length p))) ++ p.
(** The frames of some messages, one after the other. *)
Inductive framed : list T -> bytes -> Prop :=
| framed_nil : framed [] []
| framed_cons m f ms b : is_frame m f -> framed ms b -> framed (m :: ms) (f ++ b).

Lemma is_frame_shape m f : is_frame m f -> exists p, decode_from_slice p = Some m /\ Z.of_nat (length p) <= MAX_FRAME_LEN /\ f = to_be32 (Z.of_nat (length p)) ++ p.
Proof.
  intros (p & He & Hl & ->). exists p. split; [by apply bincode_roundtrip|]. split; [done|]. unfold u32. rewrite Z.mod_small; [done|]. unfold MAX_FRAME_LEN in Hl. lia.
Qed.
Lemma be32_prefix n (p : bytes) : is_u32 n -> from_be32_bytes (to_be32 n ++ p) = n.
Proof. intros Hn. rewrite <-(from_to_be32_bytes n Hn) at 2. done. Qed.
Lemma max_u32 (p : bytes) : Z.of_nat (length p) <= MAX_FRAME_LEN -> is_u32 (Z.of_nat (length p)).
Proof. unfold MAX_FRAME_LEN, is_u32. lia. Qed.
Lemma write_is_frame m f : write_broker_message m = Ok f -> Z.of_nat (length f) <= MAX_FRAME_LEN -> is_frame m f.
Proof. unfold write_broker_message. destruct (encode_to_vec m) as [p|] eqn:E; [|done]. intros [= <-] Hl. exists p. split; [done|]. split; [|done]. cbn in Hl. lia. Qed.

Lemma read_exact_app e (a b : bytes) n : length a = n -> read_exact e (a ++ b) n = Ok (a, b).
Proof.
  intros <-. unfold read_exact. rewrite length_app. destruct (Nat.ltb_spec (length a + length b) (length a)); [lia|].
  by rewrite take_app_length, drop_app_length.
Qed.
Lemma read_framed m f rest : is_frame m f -> read_broker_message (f ++ rest) = Ok (m, rest).
Proof.
  intros (p & Hd & Hl & ->)%is_frame_shape. unfold read_broker_message. rewrite <-app_assoc, read_exact_app by done. cbn [mbind rust_bind].
  rewrite from_to_be32_bytes by (by apply max_u32). destruct (Z.ltb_spec MAX_FRAME_LEN (Z.of_nat (length p))); [lia|].
  rewrite Nat2Z.id, read_exact_app by done. cbn [mbind rust_bind]. by rewrite Hd.
Qed.
Lemma try_decode_whole m f rest : is_frame m f -> try_decode_broker_message (f ++ rest) = Some (m, length f).
Proof.
  intros (p & Hd & Hl & ->)%is_frame_shape. unfold try_decode_broker_message. rewrite <-app_assoc, be32_prefix by (by apply max_u32).
  set (h := to_be32 (Z.of_nat (length p))). assert (length h = 4%nat) as Hh by done. rewrite !length_app, Hh.
  destruct (Nat.ltb_spec (4 + (length p + length rest)) 4); [lia|]. destruct (Z.ltb_spec MAX_FRAME_LEN (Z.of_nat (length p))); [lia|]. rewrite Nat2Z.id.
  destruct (Nat.ltb_spec (4 + (length p + length rest)) (4 + length p)); [lia|].
  rewrite (drop_app_length' h _ 4) by done. replace (4 + length p - 4)%nat with (length p) by lia. by rewrite take_app_length, Hd.
Qed.
Lemma try_decode_part m f x y : is_frame m f -> f = x ++ y -> y <> [] -> try_decode_broker_message x = None.
Proof.
  intros (p & Hd & Hl & ->)%is_frame_shape Hf Hy. unfold try_decode_broker_message. destruct (Nat.ltb_spec (length x) 4); [done|].
  assert (exists p1, x = to_be32 (Z.of_nat (length p)) ++ p1 /\ p = p1 ++ y) as (p1 & -> & Hp).
  { exists (drop 4 x). assert (take 4 x = to_be32 (Z.of_nat (length p))) as Ht.
    { apply (f_equal (take 4)) in Hf. rewrite (take_app_length' _ _ 4), take_app_le in Hf by done. done. }
    rewrite <-Ht, take_drop. split; [done|]. apply (f_equal (drop 4)) in Hf. rewrite (drop_app_length' _ _ 4), drop_app_le in Hf by done. done. }
  rewrite be32_prefix by (by apply max_u32). destruct (Z.ltb_spec MAX_FRAME_LEN (Z.of_nat (length p))); [done|]. rewrite Nat2Z.id, length_app.
  change (length (to_be32 (Z.of_nat (length p)))) with 4%nat. destruct (Nat.ltb_spec (4 + length p1) (4 + length p)); [done|].
  apply (f_equal length) in Hp. rewrite length_app in Hp. destruct y; [done|]. simpl in Hp. lia.
Qed.
Lemma is_frame_length m f : is_frame m f -> (4 <= length f)%nat.
Proof. intros (p & _ & _ & ->). rewrite length_app. change (length (to_be32 _)) with 4%nat. lia. Qed.
End FramesBack.

(** ** What the client reports *)
(** What a run of responses means: what is printed, and the exit code. *)
Fixpoint outcome (rs : list BrokerResponse) : bytes * option Z :=
  match rs with
  | [] => ([], None)
  | Output d :: rs => (d ++ (outcome rs).1, (outcome rs).2)
  | Exit code :: _ => ([], Some code)
  | Denied _ :: _ => ([], Some 126)
  end.

Section ClientReports.
Context `{!Bincode BrokerResponse}.

(** Draining a buffer [x] of a stream [x ++ y]: what was printed and what is left. *)
Record drained (c c' : Client) (rs : list BrokerResponse) (y : bytes) : Prop := {
  dr_requests : requests c' = requests c;
  dr_outcome : exists d, stdout c' = stdout c ++ d /\
    match result c' with
    | Some code => outcome rs = (d, Some code)
    | None => exists rs', framed rs' (sock_buf c' ++ y) /\ (outcome rs).1 = d ++ (outcome rs').1 /\ (outcome rs).2 = (outcome rs').2 /\ (y = [] -> rs' = [])
    end;
}.
Lemma drain_spec fuel : forall c rs y, framed rs (sock_buf c ++ y) -> result c = None -> (length (sock_buf c) < fuel)%nat -> drained c (drain_messages fuel c) rs y.
Proof.
  induction fuel as [|fuel IH]; intros c rs y Hf Hr Hl; [lia|]. cbn [drain_messages].
  assert ((y = [] -> rs = []) -> drained c c rs y) as Hstop.
  { intros Hy. split; [done|]. exists []. rewrite app_nil_r, Hr. split; [done|]. exists rs. auto. }
  remember (sock_buf c ++ y) as b eqn:Eb. destruct Hf as [|m f rs b Hm Hb].
  { symmetry in Eb. apply app_eq_nil in Eb as [Ex ->]. assert (try_decode_broker_message (T := BrokerResponse) (sock_buf c) = None) as -> by (by rewrite Ex). by apply Hstop. }
  destruct (decide (length f <= length (sock_buf c))%nat) as [Hle|Hgt].
  - assert (sock_buf c = f ++ drop (length f) (sock_buf c) /\ b = drop (length f) (sock_buf c) ++ y) as [Hx Hb'].
    { assert (take (length f) (sock_buf c) = f) as Ht.
      { apply (f_equal (take (length f))) in Eb. rewrite take_app_length, take_app_le in Eb by done. done. }
      split; [by rewrite <-Ht at 1; rewrite take_drop|]. apply (f_equal (drop (length f))) in Eb. rewrite drop_app_length, drop_app_le in Eb by done. done. }
    rewrite Hx at 1. rewrite (try_decode_whole m f) by done. set (rest := drop (length f) (sock_buf c)) in *.
    pose proof (is_frame_length _ _ Hm) as H4. destruct m as [d|code|why].
    + destruct (IH {| sock_buf := rest; stdout := stdout c ++ d; requests := requests c; result := None |} rs y) as [Hq (d' & Hd' & Hres)]; [by cbn; rewrite <-Hb'|done|cbn; apply (f_equal length) in Hx; rewrite length_app in Hx; lia|].
      split; [done|]. exists (d ++ d'). cbn in Hd'. rewrite (assoc (++)). split; [done|]. cbn [outcome fst snd].
      destruct (result (drain_messages _ _)); [by rewrite Hres|]. destruct Hres as (rs' & Hf' & H1 & H2 & H3). exists rs'. rewrite H1, <-(assoc (++)). auto.
    + split; [done|]. exists []. cbn. by rewrite app_nil_r.
    + split; [done|]. exists []. cbn. by rewrite app_nil_r.
  - assert (exists y1, f = sock_buf c ++ y1 /\ y1 <> []) as (y1 & Hf & Hy1).
    { exists (drop (length (sock_buf c)) f). assert (take (length (sock_buf c)) f = sock_buf c) as Ht.
      { apply (f_equal (take (length (sock_buf c)))) in Eb. rewrite take_app_length, take_app_le in Eb by lia. done. }
      split; [by rewrite <-Ht at 1; rewrite take_drop|]. intros Hn. apply (f_equal length) in Hn. rewrite length_drop in Hn. simpl in Hn. lia. }
    assert (try_decode_broker_message (sock_buf c) = None) as Hnone by (eapply (try_decode_part _ f); eauto).
    rewrite Hnone. apply Hstop. intros ->. rewrite app_nil_r in Eb. apply (f_equal length) in Eb. rewrite length_app in Eb. lia.
Qed.

(** The bytes [poll] handed over. *)
Definition chunks (ps : list Polled) : bytes := mjoin ((fun p => if p_in p then p_data p else []) <$> ps).
(** The server's end stays open, or there is still something to read. *)
Definition no_hangup (p : Polled) : Prop := p_hup p && negb (p_in p) = false.

Lemma poll_turn_spec c p rs y : framed rs (sock_buf c ++ (if p_in p then p_data p else []) ++ y) -> result c = None -> no_hangup p ->
  (p_in p = false -> y = [] -> rs = []) ->
  exists d, stdout (poll_turn c p) = stdout c ++ d /\
    match result (poll_turn c p) with
    | Some code => outcome rs = (d, Some code)
    | None => exists rs', framed rs' (sock_buf (poll_turn c p) ++ y) /\ (outcome rs).1 = d ++ (outcome rs').1 /\ (outcome rs).2 = (outcome rs').2 /\ (y = [] -> rs' = [])
    end.
Proof.
  intros Hf Hr Hn Hy. unfold poll_turn, no_hangup in *.
  set (c1 := match p_stdin p with [] => c | d => send_request c (Input d) end).
  assert (sock_buf c1 = sock_buf c /\ stdout c1 = stdout c /\ result c1 = None) as (E1 & E2 & E3) by (unfold c1; by destruct (p_stdin p)).
  destruct (p_in p).
  - set (c2 := {| sock_buf := sock_buf c1 ++ p_data p; stdout := stdout c1; requests := requests c1; result := None |}).
    destruct (drain_spec (S (length (sock_buf c1 ++ p_data p))) c2 rs y) as [_ (d & Hd & Hres)]; [cbn; by rewrite E1, <-(assoc (++))|done|cbn; lia|].
    set (c3 := drain_messages _ c2) in *. rewrite andb_false_r in *. exists d. change (stdout c2) with (stdout c1) in Hd. rewrite E2 in Hd.
    destruct (result c3) eqn:Er3; [by rewrite Er3|]. 
    destruct (p_winch p) as [[r k]|]; cbn [send_request stdout result sock_buf]; rewrite Er3; by split.
  - rewrite E3, Hn. exists []. rewrite app_nil_r. rewrite app_nil_l in Hf.
    destruct (p_winch p) as [[r k]|]; cbn [send_request stdout result sock_buf]; rewrite E3, ?E1, E2; (split; [done|]); exists rs; auto.
Qed.

Lemma poll_loop_spec ps : forall c rs, framed rs (sock_buf c ++ chunks ps) -> result c = None -> Forall no_hangup ps -> (chunks ps = [] -> rs = []) ->
  forall out code, outcome rs = (out, Some code) -> result (poll_loop c ps) = Some code /\ stdout (poll_loop c ps) = stdout c ++ out.
Proof.
  induction ps as [|p ps IH]; intros c rs Hf Hr Hn Hy out code Ho; [by rewrite (Hy eq_refl) in Ho|].
  apply Forall_cons in Hn as [Hp Hn]. cbn [poll_loop]. rewrite Hr.
  destruct (poll_turn_spec c p rs (chunks ps)) as (d & Hd & Hres); [done|done|done|intros Hin Hc; apply Hy; unfold chunks; cbn; by rewrite Hin|].
  destruct (result (poll_turn c p)) as [code'|] eqn:Er.
  - rewrite Hres in Ho. injection Ho as -> ->. destruct ps; cbn [poll_loop]; [done|]. by rewrite Er.
  - destruct Hres as (rs' & Hf' & H1 & H2 & H3). destruct (IH (poll_turn c p) rs' Hf' Er Hn H3 (outcome rs').1 code) as [R S].
    { rewrite Ho in H2. simpl in H2. by destruct (outcome rs') as [? [?|]]; simplify_eq/=. }
    split; [done|]. rewrite S, Hd, <-(assoc (++)), <-H1, Ho. done.
Qed.

Lemma pipe_loop_spec rs : forall b fuel acc out code, framed rs b -> (length rs < fuel)%nat -> outcome rs = (out, Some code) ->
  broker_client_pipe_loop fuel b acc = Ok (acc ++ out, code).
Proof.
  induction rs as [|m rs IH]; intros b fuel acc out code Hf Hl Ho; [done|]. inversion Hf as [|? f ? b' Hm Hb]; subst.
  destruct fuel as [|fuel]; [simpl in Hl; lia|]. cbn [broker_client_pipe_loop]. rewrite (read_framed m f b') by done. cbn [mbind rust_bind].
  destruct m as [d|c|w]; cbn in Ho; [|by simplify_eq; rewrite app_nil_r..].
  destruct (outcome rs) as [o c] eqn:Eo. simplify_eq/=. rewrite (IH b' fuel (acc ++ d) o code) by (done || (simpl in Hl; lia)). by rewrite <-(assoc (++)).
Qed.
End ClientReports.

(** ** What the relay sends *)
Section RelaySends.
Context `{!Bincode BrokerRequest}.

(** The output that reached the channel while the loop ran. *)
Fixpoint produced (s : Relay) (es : list relay_event) : list bytes :=
  match es with
  | [] => []
  | e :: es =>
      match relay_step s e with
      | Some s' => (match e, phase s with PtyOutput b, Looping => [b] | _, _ => [] end) ++ produced s' es
      | None => []
      end
  end.
(** So far [made] was produced. *)
Definition relayed (made : list bytes) (s : Relay) : Prop :=
  match phase s with
  | Looping => exists k, sent s = map Output k /\ made = k ++ channel s
  | Finished => socket_open s = true -> exists code, exited s = Some code /\ sent s = map Output made ++ [Exit code]
  | Dropped => True
  end.
Lemma relay_step_relayed made s e s' : relayed made s -> relay_step s e = Some s' ->
  relayed (made ++ match e, phase s with PtyOutput b, Looping => [b] | _, _ => [] end) s'.
Proof.
  unfold relayed, relay_step. destruct (phase s) eqn:Ep; intros Hr Hs.
  - destruct Hr as (k & Hsent & Hmade). destruct e; simplify_eq/=; rewrite ?app_nil_r.
    + destruct (socket_open s); simplify_eq/=. rewrite ?Ep. by exists k.
    + rewrite ?Ep. by exists k.
    + destruct (channel_open s); simplify_eq/=. rewrite ?Ep. exists k. by rewrite (assoc (++)).
    + rewrite ?Ep. by exists k.
    + rewrite ?Ep. by exists k.
    + destruct (channel s) as [|d rest] eqn:Ec; [done|]. destruct (socket_open s); simplify_eq/=; [|done]. rewrite ?Ep.
      exists (k ++ [d]). rewrite map_app, Hsent, <-(assoc (++)). done.
    + destruct (channel s) eqn:Ec; [|done]. destruct (channel_open s); simplify_eq/=. rewrite ?Ep. exists k. by rewrite Ec, app_nil_r.
    + case_match; simplify_eq/=. rewrite ?Ep. by exists k.
    + destruct (read_broker_message (partial s ++ socket s)) as [[[] rest]|[]|]; simplify_eq/=; rewrite ?Ep; try (by exists k); try done;
        destruct (socket_open s); simplify_eq/=; done.
    + destruct (exited s) as [c|] eqn:Ex; simplify_eq/=. intros Ho. exists c. rewrite Ho, Hsent, map_app, <-(assoc (++)). done.
  - destruct e; simplify_eq/=; rewrite ?app_nil_r, ?Ep; done.
  - destruct e; simplify_eq/=; rewrite ?app_nil_r, ?Ep; done.
Qed.
Lemma relay_relayed es : forall made s s', relayed made s -> relay s es = Some s' -> relayed (made ++ produced s es) s'.
Proof.
  induction es as [|e es IH]; intros made s s' Hr Hs; simpl in Hs; [simplify_eq; by rewrite app_nil_r|].
  apply bind_Some in Hs as (s1 & H1 & Hs). cbn [produced]. rewrite H1, (assoc (++)). eapply IH; [|done]. by eapply relay_step_relayed.
Qed.
End RelaySends.

Lemma outcome_outputs l code : outcome (map Output l ++ [Exit code]) = (mjoin l, Some code).
Proof. induction l as [|d l IH]; [done|]. cbn [map app outcome]. by rewrite IH. Qed.

Section Faithful.
Context `{!Bincode BrokerRequest, !Bincode BrokerResponse}.

Lemma framed_empty (rs : list BrokerResponse) : framed rs [] -> rs = [].
Proof. intros Hf. inversion Hf as [|m f ms b Hm Hb Hx Hy]; [done|]. apply app_eq_nil in Hy as [-> _]. by apply is_frame_length in Hm; simpl in Hm; lia. Qed.

(** C32.  When the relay ends with its client still there, that client prints exactly the
    output that had reached the relay's channel, in order, and returns the command's exit
    code: whether it reads message by message or takes the bytes of the frames in chunks
    of any size, with input and window changes in between. *)
Theorem brokered_command_faithful es s b :
  relay relay_start es = Some s -> phase s = Finished -> socket_open s = true -> framed (sent s) b ->
  exists code d res rest, exited s = Some code /\ first_response b = Ok (d, res, rest) /\
    match res with
    | Some c => c = code /\ d = mjoin (produced relay_start es)
    | None =>
        (forall fuel, (length (sent s) <= fuel)%nat -> broker_client_pipe_loop fuel rest d = Ok (mjoin (produced relay_start es), code)) /\
        (forall ps, chunks ps = rest -> Forall no_hangup ps ->
           let c := poll_loop {| sock_buf := []; stdout := d; requests := []; result := None |} ps in
           result c = Some code /\ stdout c = mjoin (produced relay_start es))
    end.
Proof.
  intros Hrun Hp Ho Hf. assert (relayed ([] ++ produced relay_start es) s) as Hr by (eapply relay_relayed; [|done]; by exists []).
  unfold relayed in Hr. rewrite Hp in Hr. destruct (Hr Ho) as (code & Hx & Hs). rewrite app_nil_l in Hs. set (made := produced relay_start es) in *.
  rewrite Hs in Hf |- *. destruct made as [|d made]; cbn [map app] in Hf; inversion Hf as [|m f ms rest Hm Hrest]; subst; unfold first_response;
    rewrite (read_framed _ f rest) by done; cbn [mbind rust_bind].
  - by exists code, [], (Some code), rest.
  - exists code, d, None, rest. split; [done|]. split; [done|]. pose proof (outcome_outputs made code) as Hout. split.
    + intros fuel Hl. rewrite (pipe_loop_spec _ rest fuel d (mjoin made) code Hrest); [done| |done]. cbn in Hl. lia.
    + intros ps Hc Hn. set (c0 := {| sock_buf := []; stdout := d; requests := []; result := None |}).
      apply (poll_loop_spec ps c0 (map Output made ++ [Exit code])); try done; [cbn; by rewrite Hc|rewrite Hc; intros ->; by apply framed_empty].
Qed.
End Faithful.

(** ** What the server starts *)
Lemma no_char_lower s : no_char "/"%char (lower s) = no_char "/"%char s.
Proof.
  induction s as [|c s IH]; [done|]. cbn [lower no_char]. rewrite IH. f_equal. f_equal. destruct c as [[] [] [] [] [] [] [] []]; by vm_compute.
Qed.
(** The broker starts a command only if its name, in any case, is one of the listed
    ones, and then the file of that name in a system directory, with the arguments as they
    were sent: as itself without a bound user, and on macOS as the bound user through
    [login]. *)
Theorem broker_starts_only_listed os ex policy user command args rows cols p a e r k :
  decide_request os ex policy user (Exec command args rows cols) = Spawn p a e r k ->
  (exists name, name ∈ BROKER_SAFE_COMMANDS /\ lower name = lower command) /\ no_char "/"%char command = true /\ r = rows /\ k = cols /\
  exists dir, dir ∈ search_dirs /\ let bin := dir +:+ "/" +:+ command in ex bin = true /\
    match user, os with
    | None, _ => p = bin /\ a = args
    | Some u, Macos => p = "login"%string /\ a = ["-fp"%string; u; bin] ++ args
    | Some u, _ => p = "su"%string /\ a = ["-"%string; u; "-c"%string; String.concat " " (bin :: args)]
    end.
Proof.
  unfold decide_request. destruct (is_broker_safe command) eqn:Es; [|done]. cbn [negb].
  set (full := match args with [] => command | _ => command +:+ " " +:+ String.concat " " args end).
  destruct (validate_command full policy); [|done|done]. unfold resolve_real_binary. destruct (find ex _) as [bin|] eqn:Ef; [|done].
  destruct (build_broker_pty_command os bin args user) as [[prog argl] env] eqn:Eb. intros Hsp. injection Hsp as <- <- <- <- <-.
  unfold is_broker_safe in Es. apply existsb_exists in Es as (name & Hin%list_elem_of_In & He). apply bool_decide_eq_true in He.
  apply find_some in Ef as [Hb Hex]. apply in_map_iff in Hb as (dir & <- & Hdir%list_elem_of_In).
  split; [by exists name|]. split.
  { rewrite <-no_char_lower, <-He, no_char_lower. assert (forallb (no_char "/"%char) BROKER_SAFE_COMMANDS = true) as Hall by (by vm_compute).
    rewrite forallb_forall in Hall. by apply Hall, list_elem_of_In. }
  split; [done|]. split; [done|]. exists dir. split; [done|]. split; [done|]. unfold build_broker_pty_command in Eb. destruct user as [u|], os; by simplify_eq.
Qed.

(** ** Concrete messages *)
Module Sample.
Definition req : Bincode BrokerRequest.
Proof.
  refine {| encode_to_vec := fun m => match m with Input d => Some (1 :: d) | Resize r c => Some [2; r; c] | Exec _ _ _ _ => None end;
            decode_from_slice := fun b => match b with 1 :: d => Some (Input d) | [2; r; c] => Some (Resize r c) | _ => None end |}.
  by intros [] p [= <-].
Defined.
Definition resp : Bincode BrokerResponse.
Proof.
  refine {| encode_to_vec := fun m => match m with Output d => Some (0 :: d) | Exit c => Some [1; c] | Denied _ => None end;
            decode_from_slice := fun b => match b with 0 :: d => Some (Output d) | [1; c] => Some (Exit c) | _ => None end |}.
  by intros [] p [= <-].
Defined.
Definition ps_run : list relay_event := [PtyOutput [80; 73; 68]; TakeOutput; PtyOutput [10]; PtyClosed; ChildExits 0; TakeExit].
Definition hello : bytes := [104; 101; 108; 108; 111].
End Sample.
#[local] Existing Instance Sample.req.
#[local] Existing Instance Sample.resp.

Definition ps_final : Relay := default relay_start (relay relay_start Sample.ps_run).
Definition ps_frames : bytes := [0; 0; 0; 4; 0; 80; 73; 68; 0; 0; 0; 2; 0; 10; 0; 0; 0; 2; 1; 0].
Lemma brokered_command_faithful_witness :
  relay relay_start Sample.ps_run = Some ps_final /\ framed (sent ps_final) ps_frames /\
  exists code d res rest, exited ps_final = Some code /\ first_response ps_frames = Ok (d, res, rest) /\ res = None /\
    broker_client_pipe_loop 9 rest d = Ok ([80; 73; 68; 10], 0).
Proof.
  assert (relay relay_start Sample.ps_run = Some ps_final) as Hr by done.
  assert (framed (sent ps_final) ps_frames) as Hf.
  { change (framed [Output [80; 73; 68]; Output [10]; Exit 0] ([0; 0; 0; 4; 0; 80; 73; 68] ++ [0; 0; 0; 2; 0; 10] ++ [0; 0; 0; 2; 1; 0] ++ [])).
    repeat (constructor; [eexists; split; [reflexivity|done]|]). constructor. }
  split; [exact Hr|]. split; [exact Hf|].
  destruct (brokered_command_faithful Sample.ps_run ps_final ps_frames Hr eq_refl eq_refl Hf) as (code & d & res & rest & Hx & Hfr & Hm).
  exists code, d, res, rest. split; [exact Hx|]. split; [exact Hfr|]. vm_compute in Hfr. injection Hfr as <- <- <-. split; [done|].
  destruct Hm as [Hpipe _]. vm_compute in Hx. injection Hx as <-. apply (Hpipe 9%nat). vm_compute. lia.
Defined.
Definition ps_dirs (b : string) : bool := bool_decide (b = "/bin/ps"%string).
Definition ps_spawn := decide_request Macos ps_dirs preset_audit (Some "ann"%string) (Exec "ps" ["aux"%string] 24 80).
Lemma broker_starts_only_listed_witness : exists p a e, ps_spawn = Spawn p a e 24 80 /\
  exists dir, dir ∈ search_dirs /\ p = "login"%string /\ a = ["-fp"%string; "ann"%string; dir +:+ "/" +:+ "ps"] ++ ["aux"%string].
Proof.
  assert (exists p a e, ps_spawn = Spawn p a e 24 80) as (p & a & e & Hs) by (eexists _, _, _; vm_compute; reflexivity).
  exists p, a, e. split; [exact Hs|].
  destruct (broker_starts_only_listed _ _ _ _ _ _ _ _ _ _ _ _ _ Hs) as (_ & _ & _ & _ & dir & Hd & _ & Hp).
  exists dir. split; [exact Hd|exact Hp].
Defined.

(** The relay's read is dropped whenever output arrives first, with the part of a
    message it had already taken.  Here the client's keystrokes arrive in two pieces with
    output in between: the length word is lost, the rest is taken for the next one, and
    the relay drops the client and hangs up the command. *)
Theorem cancelled_read_drops_client :
  exists frame s, write_broker_message (Input Sample.hello) = Ok frame /\
    relay relay_start [Arrives (take 4 frame); ReadSome 4; PtyOutput [36]; TakeOutput; Arrives (drop 4 frame); TakeMessage] = Some s /\
    phase s = Dropped /\ to_pty s = [Shutdown] /\ exited s = None.
Proof. eexists _, _. split; [vm_compute; reflexivity|]. split; [vm_compute; reflexivity|]. by vm_compute. Qed.

(** Output that the reader thread hands over after the exit code was taken is lost, and
    the client of a relay that hangs up without an exit code never notices: at the end of
    its stream the socket reports data to read for ever, and the client polls for ever. *)
Theorem broker_loses_ends :
  (exists s, relay relay_start [PtyOutput [1]; ChildExits 0; TakeExit; PtyOutput [2]] = Some s /\ sent s = [Output [1]; Exit 0]) /\
  (forall n, let eof := {| p_stdin := []; p_in := true; p_hup := true; p_data := []; p_winch := None |} in
     result (poll_loop {| sock_buf := []; stdout := []; requests := []; result := None |} (replicate n eof)) = None).
Proof.
  split; [eexists; split; [vm_compute; reflexivity|done]|]. intros n eof. induction n as [|n IH]; [done|]. cbn [replicate poll_loop result].
  assert (poll_turn {| sock_buf := []; stdout := []; requests := []; result := None |} eof = {| sock_buf := []; stdout := []; requests := []; result := None |}) as -> by done.
  exact IH.
Qed.
