(* ===== verification/Paste.v ===== *)
(** * Paste: keystrokes that survive a reconnect (shell/mod.rs, hop-cli reconnect.rs)

    A client follows the bracketed pastes in the bytes it sends ([InputReplay]) and, when a
    connection is lost, sorts the keys typed while it reconnects ([classify_chunk]) and
    decides which of them the host still gets ([filter_replay]).  The reference is a
    property of the whole stream, [open_paste]: a start marker with no end marker after
    it; the code reads the stream in chunks of any size. *)
From S2P Require Import Prelude.
Local Open Scope Z_scope.

Definition PASTE_START : bytes := [27; 91; 50; 48; 48; 126].
Definition PASTE_END : bytes := [27; 91; 50; 48; 49; 126].

(** The window of [mlen] bytes at the front. *)
Definition window_is (needle s : bytes) : bool := bool_decide (take (length needle) s = needle).

(** [windows(n).position(..)]. *)
Fixpoint position (needle haystack : bytes) : option nat :=
  if window_is needle haystack then Some O
  else match haystack with [] => None | _ :: t => S <$> position needle t end.
Definition find_subslice (haystack needle : bytes) : option nat :=
  if bool_decide (needle = []) || (length haystack <? length needle)%nat then None else position needle haystack.

(** ** The client's record *)
Record InputReplay := { in_paste : bool; tail : bytes; unsent : bytes }.
Definition InputReplay_default : InputReplay := {| in_paste := false; tail := []; unsent := [] |}.

(** The loop over the buffer from index [i]; [s] is the buffer from there on. *)
Fixpoint scan (fuel : nat) (p : bool) (s : bytes) : bool :=
  match fuel with
  | O => p
  | S f =>
      if (length s <? length PASTE_START)%nat then p
      else if window_is PASTE_START s then scan f true (drop (length PASTE_START) s)
      else if window_is PASTE_END s then scan f false (drop (length PASTE_START) s)
      else scan f p (drop 1 s)
  end.
Definition observe (r : InputReplay) (chunk : bytes) : InputReplay :=
  match chunk with
  | [] => r
  | _ =>
      let buf := tail r ++ chunk in
      let keep := Nat.min (length buf) (length PASTE_START - 1) in
      {| in_paste := scan (S (length buf)) (in_paste r) buf; tail := drop (length buf - keep) buf; unsent := unsent r |}
  end.
Definition take_unsent (r : InputReplay) : bytes * InputReplay :=
  (unsent r, {| in_paste := in_paste r; tail := tail r; unsent := [] |}).
Definition filter_replay (r : InputReplay) (stream : bytes) : bytes :=
  if negb (in_paste r) then []
  else match find_subslice stream PASTE_END with
       | Some i => take (i + length PASTE_END) stream
       | None => stream
       end.

(** ** Keys typed while reconnecting *)
Inductive PollAction := Quit | RetryNow | NoAction.
#[export] Instance PollAction_eq : EqDecision PollAction.
Proof. solve_decision. Defined.

Definition find_last (pending needle : bytes) : option nat :=
  if (length pending <? length needle)%nat then None
  else find (fun i => window_is needle (drop i pending)) (rev (seq 0 (S (length pending - length needle)))).
Definition inside_bracketed_paste (pending : bytes) : bool :=
  match find_last pending PASTE_START, find_last pending PASTE_END with
  | Some o, Some c => (c <? o)%nat
  | Some _, None => true
  | _, _ => false
  end.
Definition classify_chunk (data pending_input : bytes) : PollAction * bytes :=
  match data with
  | [b] =>
      if b =? 3 then (Quit, pending_input)
      else if negb (inside_bracketed_paste pending_input) then
        if b =? 113 then (Quit, pending_input)
        else if (b =? 13) || (b =? 10) then (RetryNow, pending_input)
        else (NoAction, pending_input ++ data)
      else (NoAction, pending_input ++ data)
  | _ => (NoAction, pending_input ++ data)
  end.
(** The chunks waiting in the channel when the poll starts; the rest stays there. *)
Fixpoint drain_chunks (action : PollAction) (chunks : list bytes) (pending_input : bytes) : PollAction * list bytes * bytes :=
  match chunks with
  | [] => (action, [], pending_input)
  | data :: rest =>
      match classify_chunk data pending_input with
      | (Quit, p) => (Quit, rest, p)
      | (RetryNow, p) => drain_chunks RetryNow rest p
      | (NoAction, p) => drain_chunks action rest p
      end
  end.
Definition poll_user_action (chunks : list bytes) (pending_input : bytes) : PollAction * list bytes * bytes :=
  drain_chunks NoAction chunks pending_input.

(** [1u64.checked_shl(n)]. *)
Definition checked_shl_one (n : Z) : option Z := if n <? 64 then Some (u64 (1 .<< n)) else None.
Definition backoff_secs (attempt : Z) : Z :=
  if attempt <=? 2 then 0 else Z.min (default 2 (checked_shl_one (Z.max 0 (attempt - 3)))) 2.

(** ** What the stream says *)
Definition occurs (needle s : bytes) : Prop := exists x y, s = x ++ needle ++ y.
Definition open_paste (s : bytes) : Prop := exists a b, s = a ++ PASTE_START ++ b /\ ~ occurs PASTE_END b.
Definition marker (m : bytes) : Prop := m = PASTE_START \/ m = PASTE_END.

(** The scan without its jumps: a marker starts with the only escape in it, so none starts
    inside another. *)
Definition at_front (p : bool) (s : bytes) : bool :=
  if window_is PASTE_START s then true else if window_is PASTE_END s then false else p.
Fixpoint last_marker (p : bool) (s : bytes) : bool :=
  match s with [] => p | _ :: t => last_marker (at_front p s) t end.

Lemma window_spec m s : window_is m s = true <-> exists y, s = m ++ y.
Proof.
  unfold window_is. rewrite bool_decide_eq_true. split.
  - intros H. exists (drop (length m) s). rewrite <-H at 1. by rewrite take_drop.
  - intros (y & ->). apply take_app_length.
Qed.
Lemma window_short m s : (length s < length m)%nat -> window_is m s = false.
Proof. intros Hl. apply not_true_iff_false. intros (y & ->)%window_spec. rewrite length_app in Hl. lia. Qed.
Lemma not_at_front m p b t : marker m -> b <> 27 -> at_front p (b :: t) = p.
Proof.
  intros _ Hb. unfold at_front. assert (forall m, marker m -> window_is m (b :: t) = false) as Hm; [|rewrite !Hm; [done|by right|by left]].
  intros n Hn. apply not_true_iff_false. intros (y & E)%window_spec. destruct Hn as [-> | ->]; cbn in E; by simplify_eq.
Qed.
Lemma last_marker_jump m p y : marker m -> last_marker p (m ++ y) = last_marker (at_front p (m ++ y)) y.
Proof.
  intros Hm. assert (exists t, m = 27 :: t /\ Forall (fun b => b <> 27) t) as (t & -> & Ht).
  { destruct Hm as [-> | ->]; eexists; (split; [reflexivity|]); repeat constructor; done. }
  cbn [app last_marker]. generalize (at_front p (27 :: t ++ y)). clear Hm. induction Ht as [|b t Hb Ht IH]; intros q; [done|].
  cbn [app last_marker]. by rewrite (not_at_front PASTE_START q b) by (done || by left).
Qed.
Lemma scan_last_marker fuel : forall p s, (length s < fuel)%nat -> scan fuel p s = last_marker p s.
Proof.
  induction fuel as [|f IH]; intros p s Hl; [lia|]. cbn [scan].
  destruct (Nat.ltb_spec (length s) (length PASTE_START)) as [Hs|Hs].
  - clear IH Hl. revert p. induction s as [|b t IH]; intros p; [done|]. cbn [last_marker]. unfold at_front.
    rewrite (window_short PASTE_START), (window_short PASTE_END) by exact Hs. apply IH. cbn in *. lia.
  - destruct (window_is PASTE_START s) eqn:E1; [|destruct (window_is PASTE_END s) eqn:E2].
    + apply window_spec in E1 as (y & ->). rewrite drop_app_length, (last_marker_jump PASTE_START) by (by left).
      unfold at_front. assert (window_is PASTE_START (PASTE_START ++ y) = true) as -> by (apply window_spec; eauto).
      apply IH. rewrite length_app in Hl. cbn in *. lia.
    + apply window_spec in E2 as (y & ->). change (length PASTE_START) with (length PASTE_END). rewrite drop_app_length, (last_marker_jump PASTE_END) by (by right).
      unfold at_front. rewrite E1. assert (window_is PASTE_END (PASTE_END ++ y) = true) as -> by (apply window_spec; eauto).
      apply IH. rewrite length_app in Hl. cbn in *. lia.
    + destruct s as [|b t]; [cbn in Hs; lia|]. cbn [drop last_marker]. unfold at_front. rewrite E1, E2. apply IH. cbn in *. lia.
Qed.

(** ** The scan finds open pastes *)
Lemma occurs_cons m b t : window_is m (b :: t) = false -> occurs m (b :: t) <-> occurs m t.
Proof.
  intros Hw. split.
  - intros ([|c x] & y & E).
    + exfalso. apply not_true_iff_false in Hw. apply Hw, window_spec. exists y. by rewrite E.
    + exists x, y. by simplify_eq/=.
  - intros (x & y & ->). by exists (b :: x), y.
Qed.
Lemma open_cons b t : window_is PASTE_START (b :: t) = false -> open_paste (b :: t) <-> open_paste t.
Proof.
  intros Hw. split.
  - intros ([|c a] & y & E & Hn).
    + exfalso. apply not_true_iff_false in Hw. apply Hw, window_spec. exists y. by rewrite E.
    + exists a, y. by simplify_eq/=.
  - intros (a & y & -> & Hn). by exists (b :: a), y.
Qed.
Lemma occurs_marker m y : marker m -> m <> PASTE_END -> occurs PASTE_END (m ++ y) <-> occurs PASTE_END y.
Proof.
  intros [-> | ->] Hne; [|done]. unfold PASTE_START. cbn [app].
  rewrite !occurs_cons; [done|..]; apply not_true_iff_false; intros (z & E)%window_spec; cbn in E; by simplify_eq.
Qed.
Lemma last_marker_spec s : forall p, last_marker p s = true <-> open_paste s \/ p = true /\ ~ occurs PASTE_END s.
Proof.
  induction s as [|b t IH]; intros p.
  - cbn. split.
    + intros ->. right. split; [done|]. intros ([|? ?] & y & E); by cbn in E.
    + intros [([|? ?] & y & E & _)|[? _]]; [by cbn in E..|done].
  - cbn [last_marker]. rewrite IH. unfold at_front.
    destruct (window_is PASTE_START (b :: t)) eqn:E1; [|rewrite (open_cons b t) by done; destruct (window_is PASTE_END (b :: t)) eqn:E2].
    + apply window_spec in E1 as (y & E). assert (occurs PASTE_END (b :: t) <-> occurs PASTE_END y) as Hy by (rewrite E; apply occurs_marker; [by left|done]).
      assert (occurs PASTE_END t <-> occurs PASTE_END y) as Ht.
      { rewrite <-Hy. symmetry. apply occurs_cons, not_true_iff_false. intros (z & E')%window_spec. rewrite E in E'. by cbn in E'; simplify_eq. }
      split.
      * intros [(a & z & -> & Hz)|[_ Hn]]; [left; by exists (b :: a), z|]. left. exists [], y. rewrite E. split; [done|]. by rewrite <-Ht.
      * intros [([|c a] & z & E' & Hz)|[_ Hn]].
        -- right. split; [done|]. rewrite Ht. rewrite E in E'. cbn in E'. by simplify_eq.
        -- left. exists a, z. by simplify_eq/=.
        -- right. split; [done|]. by rewrite Ht, <-Hy.
    + split; [intros [?|[? _]]; [by left|done]|]. intros [?|[_ Hn]]; [by left|]. exfalso. apply Hn. apply window_spec in E2 as (y & ->). by exists [], y.
    + by rewrite (occurs_cons PASTE_END b t).
Qed.

(** ** Chunks of any size *)
(** The state after the windows that start in [x], with [z] behind it. *)
Fixpoint scan_ctx (p : bool) (x z : bytes) : bool := match x with [] => p | b :: t => scan_ctx (at_front p (b :: t ++ z)) t z end.
Lemma last_marker_app x : forall p z, last_marker p (x ++ z) = last_marker (scan_ctx p x z) z.
Proof. induction x as [|b x IH]; intros p z; [done|]. cbn [app last_marker scan_ctx]. apply IH. Qed.
Lemma at_front_take p s s' : take 6 s = take 6 s' -> at_front p s = at_front p s'.
Proof. unfold at_front, window_is. change (length PASTE_START) with 6%nat. change (length PASTE_END) with 6%nat. by intros ->. Qed.
Lemma scan_ctx_far x : forall p y z, (5 <= length y)%nat -> scan_ctx p x (y ++ z) = scan_ctx p x y.
Proof.
  induction x as [|b x IH]; intros p y z Hy; [done|]. cbn [scan_ctx]. rewrite (at_front_take p (b :: x ++ y ++ z) (b :: x ++ y)).
  - by apply IH.
  - rewrite (assoc (++)). change (b :: (x ++ y) ++ z) with ((b :: x ++ y) ++ z). rewrite take_app_le; [done|]. cbn. rewrite length_app. lia.
Qed.
Lemma last_marker_short p y : (length y < 6)%nat -> last_marker p y = p.
Proof.
  revert p. induction y as [|b y IH]; intros p Hl; [done|]. cbn [last_marker]. unfold at_front.
  rewrite (window_short PASTE_START), (window_short PASTE_END) by exact Hl. apply IH. cbn in Hl. lia.
Qed.
(** What [tail] holds after the bytes [s]. *)
Definition last5 (s : bytes) : bytes := drop (length s - Nat.min (length s) 5) s.
Lemma last5_length s : length (last5 s) = Nat.min (length s) 5.
Proof. unfold last5. rewrite length_drop. lia. Qed.
Lemma last_marker_chunk p a c : last_marker (last_marker p a) (last5 a ++ c) = last_marker p (a ++ c).
Proof.
  set (y := last5 a). destruct (Nat.le_gt_cases 5 (length a)) as [H5|H5].
  - assert (length y = 5%nat) as Hy by (unfold y; rewrite last5_length; lia).
    assert (a = take (length a - 5) a ++ y) as Ea by (unfold y, last5; rewrite Nat.min_r by lia; by rewrite take_drop).
    set (x := take (length a - 5) a) in Ea. clearbody x y. subst a. rewrite <-(assoc (++)), !last_marker_app, (last_marker_short _ y) by lia.
    by rewrite (scan_ctx_far x p y c) by lia.
  - assert (y = a) as -> by (unfold y, last5; rewrite Nat.min_l, Nat.sub_diag by lia; done). by rewrite (last_marker_short p a) by lia.
Qed.
Lemma last5_app a c : last5 (last5 a ++ c) = last5 (a ++ c).
Proof.
  unfold last5 at 1 3. rewrite !length_app, last5_length. unfold last5. rewrite !drop_app, drop_drop, length_drop.
  f_equal; f_equal; lia.
Qed.
(** The record follows the stream [s]. *)
Definition follows (r : InputReplay) (s : bytes) : Prop := in_paste r = last_marker false s /\ tail r = last5 s.
Lemma follows_default : follows InputReplay_default [].
Proof. done. Qed.
Lemma observe_follows r s c : follows r s -> follows (observe r c) (s ++ c).
Proof.
  intros [Hp Ht]. destruct c as [|b c]; [by rewrite app_nil_r|]. unfold observe. cbv zeta. split; cbn [in_paste tail].
  - rewrite scan_last_marker by lia. rewrite Hp, Ht. apply last_marker_chunk.
  - rewrite Ht. change (length PASTE_START - 1)%nat with 5%nat. apply last5_app.
Qed.
Lemma follows_open r s : follows r s -> in_paste r = true <-> open_paste s.
Proof. intros [-> _]. rewrite last_marker_spec. naive_solver. Qed.
Lemma observed cs : forall r s, follows r s -> follows (foldl observe r cs) (s ++ mjoin cs).
Proof.
  induction cs as [|c cs IH]; intros r s Hf; [by rewrite app_nil_r|]. cbn [foldl mjoin list_join]. rewrite (assoc (++)). by apply IH, observe_follows.
Qed.
Lemma observe_unsent r c : unsent (observe r c) = unsent r.
Proof. by destruct c. Qed.

(** ** The last marker of a buffer *)
Lemma window_lookup m i s k : window_is m (drop i s) = true -> (k < length m)%nat -> s !! (i + k)%nat = m !! k.
Proof. intros (y & E)%window_spec Hk. rewrite <-lookup_drop, E. by apply lookup_app_l. Qed.
Lemma find_last_spec s m : m <> [] ->
  match find_last s m with
  | Some i => window_is m (drop i s) = true /\ forall j, window_is m (drop j s) = true -> (j <= i)%nat
  | None => forall j, window_is m (drop j s) = false
  end.
Proof.
  intros Hm. assert (forall j, window_is m (drop j s) = true -> (j + length m <= length s)%nat) as Hw.
  { intros j (y & E)%window_spec. apply (f_equal length) in E. rewrite length_drop, length_app in E. destruct m; [done|]. cbn in *. lia. }
  unfold find_last. destruct (Nat.ltb_spec (length s) (length m)) as [Hs|Hs].
  { intros j. apply not_true_iff_false. intros H%Hw. lia. }
  assert (forall n, match find (fun i => window_is m (drop i s)) (rev (seq 0 n)) with
    | Some i => window_is m (drop i s) = true /\ forall j, (j < n)%nat -> window_is m (drop j s) = true -> (j <= i)%nat
    | None => forall j, (j < n)%nat -> window_is m (drop j s) = false end) as Hn.
  { induction n as [|n IH]; [cbn; intros; lia|]. rewrite seq_S, rev_app_distr. cbn [rev app find Nat.add].
    destruct (window_is m (drop n s)) eqn:En; [split; [done|intros; lia]|]. destruct (find _ _) as [i|].
    - destruct IH as [Hi IH]. split; [done|]. intros j Hj Hjw. destruct (decide (j = n)) as [->|]; [congruence|apply IH; [lia|done]].
    - intros j Hj. destruct (decide (j = n)) as [->|]; [done|]. apply IH. lia. }
  specialize (Hn (S (length s - length m))). destruct (find _ _) as [i|].
  - destruct Hn as [Hi Hn]. split; [done|]. intros j Hj. apply Hn; [|done]. apply Hw in Hj. lia.
  - intros j. apply not_true_iff_false. intros Hj. rewrite Hn in Hj; [done|]. apply Hw in Hj. lia.
Qed.
Lemma occurs_window m s : occurs m s <-> exists i, window_is m (drop i s) = true.
Proof.
  split.
  - intros (x & y & ->). exists (length x). rewrite drop_app_length. apply window_spec. eauto.
  - intros (i & (y & E)%window_spec). exists (take i s), y. rewrite <-E. by rewrite take_drop.
Qed.
Lemma open_window s : open_paste s <-> exists i, window_is PASTE_START (drop i s) = true /\ forall j, window_is PASTE_END (drop j s) = true -> (j < i)%nat.
Proof.
  assert (forall i j, window_is PASTE_START (drop i s) = true -> window_is PASTE_END (drop j s) = true -> (i <= j)%nat -> (i + 6 <= j)%nat) as Hno.
  { intros i j Hi Hj Hle. apply dec_stable. intros Hlt.
    pose proof (window_lookup _ _ _ 0 Hj) as H0. pose proof (window_lookup _ _ _ (j - i) Hi) as H1.
    replace (i + (j - i))%nat with (j + 0)%nat in H1 by lia. rewrite H0 in H1 by (cbn; lia). cbn [length PASTE_START PASTE_END] in H1.
    destruct (j - i)%nat as [|[|[|[|[|[|k]]]]]] eqn:Ek; cbn in H1; try (by specialize (H1 ltac:(lia))).
    assert (j = i) as -> by lia. pose proof (window_lookup _ _ _ 4 Hi) as H2. pose proof (window_lookup _ _ _ 4 Hj) as H3.
    rewrite H2 in H3 by (cbn; lia). cbn in H3. by specialize (H3 ltac:(lia)). }
  split.
  - intros (a & b & -> & Hn). assert (window_is PASTE_START (drop (length a) (a ++ PASTE_START ++ b)) = true) as Ha by (rewrite drop_app_length; apply window_spec; eauto).
    exists (length a). split; [done|]. intros j Hj. apply dec_stable. intros Hge. apply Hn, occurs_window.
    specialize (Hno _ _ Ha Hj ltac:(lia)). exists (j - (length a + 6))%nat. rewrite <-Hj. f_equal.
    replace j with (length a + (6 + (j - (length a + 6))))%nat at 2 by lia. by rewrite <-drop_drop, drop_app_length, <-drop_drop.
  - intros (i & (b & E)%window_spec & Hj). exists (take i s), b. rewrite <-E, take_drop. split; [done|].
    intros (j & Hb)%occurs_window. assert (i + 6 + j < i)%nat; [|lia]. apply Hj. by rewrite <-drop_drop, <-drop_drop, E.
Qed.
Lemma inside_open s : inside_bracketed_paste s = true <-> open_paste s.
Proof.
  rewrite open_window. unfold inside_bracketed_paste.
  pose proof (find_last_spec s PASTE_START ltac:(done)) as Ho. pose proof (find_last_spec s PASTE_END ltac:(done)) as Hc.
  destruct (find_last s PASTE_START) as [o|]; [|split; [done|intros (i & Hi & _); by rewrite Ho in Hi]].
  destruct Ho as [Hw Ho]. destruct (find_last s PASTE_END) as [c|].
  - destruct Hc as [Hcw Hc]. rewrite Nat.ltb_lt. split.
    + intros Hlt. exists o. split; [done|]. intros j Hj. apply Hc in Hj. lia.
    + intros (i & Hi & Hn). apply Hn in Hcw. apply Ho in Hi. lia.
  - split; [intros _|done]. exists o. split; [done|]. intros j Hj. by rewrite Hc in Hj.
Qed.

(** ** What is replayed *)
Lemma position_spec m s : m <> [] ->
  match position m s with
  | Some i => exists x y, s = x ++ m ++ y /\ length x = i /\ forall j, (j < i)%nat -> window_is m (drop j s) = false
  | None => ~ occurs m s
  end.
Proof.
  intros Hm. induction s as [|b t IH]; cbn [position].
  - rewrite window_short by (destruct m; [done|cbn; lia]). intros ([|] & y & E); destruct m; by cbn in E.
  - destruct (window_is m (b :: t)) eqn:Ew; [apply window_spec in Ew as (y & ->); exists [], y; split_and!; [done|done|intros; lia]|].
    destruct (position m t) as [i|]; cbn.
    + destruct IH as (x & y & -> & <- & Hj). exists (b :: x), y. split_and!; [done|done|]. intros [|j] Hlt; [done|]. apply Hj. lia.
    + by rewrite occurs_cons.
Qed.
Lemma find_subslice_spec s m : m <> [] ->
  match find_subslice s m with
  | Some i => exists x y, s = x ++ m ++ y /\ length x = i /\ forall j, (j < i)%nat -> window_is m (drop j s) = false
  | None => ~ occurs m s
  end.
Proof.
  intros Hm. unfold find_subslice. rewrite bool_decide_false by done. cbn [orb]. destruct (Nat.ltb_spec (length s) (length m)); [|by apply position_spec].
  intros (x & y & ->). rewrite !length_app in *. lia.
Qed.
Lemma ends_closed x : ~ open_paste (x ++ PASTE_END).
Proof.
  assert (last_marker false (x ++ PASTE_END) = false) as Hl; [rewrite last_marker_app; by destruct (scan_ctx _ _ _)|].
  intros Ho. assert (last_marker false (x ++ PASTE_END) = true); [|congruence]. apply last_marker_spec. by left.
Qed.

(** However the input is cut into chunks, the client knows whether it ends inside a
    bracketed paste, and the reconnect dialog knows it of the keys it holds.  After a
    reconnect through the dialog nothing is replayed outside a paste; inside one, what
    was held back up to the paste's end marker, so that the paste is closed and nothing
    typed after it is delivered, or all of it when the marker is not among it. *)
Theorem paste_tracking_exact cs held :
  let r := foldl observe InputReplay_default cs in
  let sent := filter_replay r held in
  (in_paste r = true <-> open_paste (mjoin cs)) /\ (inside_bracketed_paste held = true <-> open_paste held) /\
  (~ open_paste (mjoin cs) -> sent = []) /\
  (open_paste (mjoin cs) ->
     (occurs PASTE_END held -> ~ open_paste (mjoin cs ++ sent) /\ exists x y, held = sent ++ y /\ sent = x ++ PASTE_END /\ ~ occurs PASTE_END (removelast sent)) /\
     (~ occurs PASTE_END held -> sent = held)).
Proof.
  intros r sent. assert (in_paste r = true <-> open_paste (mjoin cs)) as Hr by (apply follows_open; apply (observed cs _ [] follows_default)).
  split; [done|]. split; [apply inside_open|]. unfold sent, filter_replay.
  pose proof (find_subslice_spec held PASTE_END ltac:(done)) as Hf. split.
  { intros Hn. by destruct (in_paste r); [destruct Hn; apply Hr|]. }
  intros Ho%Hr. rewrite Ho. cbn [negb]. destruct (find_subslice held PASTE_END) as [i|].
  - destruct Hf as (x & y & -> & <- & Hj). split; [|by intros []; exists x, y].
    intros _. assert (take (length x + length PASTE_END) (x ++ PASTE_END ++ y) = x ++ PASTE_END) as -> by (by rewrite (assoc (++)), <-length_app, take_app_length).
    split; [rewrite (assoc (++)); apply ends_closed|].
    exists x, y. split_and!; [by rewrite <-(assoc (++))|done|]. intros (j & Hw)%occurs_window.
    assert (removelast (x ++ PASTE_END) = x ++ removelast PASTE_END) as Hrl by (by rewrite removelast_app).
    rewrite Hrl in Hw. assert (j < length x)%nat as Hlt.
    { apply window_spec in Hw as (z & E). apply (f_equal length) in E. rewrite length_drop, !length_app in E. cbn in E. lia. }
    specialize (Hj j Hlt). apply not_true_iff_false in Hj. apply Hj. apply window_spec in Hw as (z & E). apply window_spec.
    exists (z ++ [126] ++ y). change (PASTE_END ++ y) with (removelast PASTE_END ++ [126] ++ y). rewrite (assoc (++) x), drop_app_le by (rewrite length_app; lia).
    by rewrite E, <-(assoc (++)).
  - split; [by intros|done].
Qed.

(** A chunk that arrives during a reconnect is a command only when it is a single
    byte: an interrupt, or a [q] or newline outside the pastes buffered so far.  Every
    other chunk is kept whole, so whatever is buffered is a sequence of chunks in the
    order they came, and the commands are all that is taken out. *)
Theorem dialog_keeps_input chunks pending :
  let '(action, rest, kept) := poll_user_action chunks pending in
  exists taken, chunks = taken ++ rest /\ (action <> Quit -> rest = []) /\
  exists sifted : list (bytes * bool), sifted.*1 = taken /\ kept = pending ++ mjoin (omap (fun x : bytes * bool => if x.2 then Some x.1 else None) sifted) /\
    Forall (fun x : bytes * bool => x.2 = false -> x.1 = [3] \/ x.1 = [113] \/ x.1 = [13] \/ x.1 = [10]) sifted /\
    (action = NoAction -> Forall (fun x : bytes * bool => x.2 = true) sifted).
Proof.
  unfold poll_user_action.
  assert (forall a, let '(action, rest, kept) := drain_chunks a chunks pending in
    exists taken, chunks = taken ++ rest /\ (action <> Quit -> rest = []) /\
    exists sifted : list (bytes * bool), sifted.*1 = taken /\ kept = pending ++ mjoin (omap (fun x : bytes * bool => if x.2 then Some x.1 else None) sifted) /\
      Forall (fun x : bytes * bool => x.2 = false -> x.1 = [3] \/ x.1 = [113] \/ x.1 = [13] \/ x.1 = [10]) sifted /\
      (action = NoAction -> a = NoAction /\ Forall (fun x : bytes * bool => x.2 = true) sifted)) as H.
  2: { specialize (H NoAction). destruct (drain_chunks _ _ _) as [[action rest] kept]. destruct H as (t & ? & ? & s & ? & ? & ? & Ha). exists t. split_and!; [done..|]. exists s. naive_solver. }
  revert pending. induction chunks as [|data chunks IH]; intros pending a; cbn [drain_chunks].
  - exists []. split_and!; [done|done|]. exists []. by rewrite app_nil_r.
  - destruct (classify_chunk data pending) as [act p] eqn:Ec.
    assert (match act with NoAction => p = pending ++ data | _ => p = pending /\ (data = [3] \/ data = [113] \/ data = [13] \/ data = [10]) end) as Hc.
    { revert Ec. unfold classify_chunk. repeat case_match; intros; simplify_eq; try done;
      repeat match goal with H : (_ =? _) = true |- _ => apply Z.eqb_eq in H; subst | H : _ || _ = true |- _ => apply orb_true_iff in H as [H|H] end; naive_solver. }
    destruct act.
    + destruct Hc as [-> Hd]. exists [data]. split_and!; [done|done|]. exists [(data, false)]. cbn. rewrite app_nil_r. split_and!; [done|done| |done].
      constructor; [by intros|constructor].
    + destruct Hc as [-> Hd]. specialize (IH pending RetryNow). destruct (drain_chunks _ _ _) as [[action rest] kept].
      destruct IH as (t & -> & Hr & s & <- & -> & Hs & Ha). exists (data :: s.*1). split_and!; [done|done|]. exists ((data, false) :: s). cbn.
      split_and!; [done|done|by constructor|]. intros E. by destruct (Ha E).
    + subst p. specialize (IH (pending ++ data) a). destruct (drain_chunks _ _ _) as [[action rest] kept].
      destruct IH as (t & -> & Hr & s & <- & -> & Hs & Ha). exists (data :: s.*1). split_and!; [done|done|]. exists ((data, true) :: s). cbn.
      rewrite (assoc (++)). split_and!; [done|done|by constructor|]. intros E. destruct (Ha E). split; [done|by constructor].
Qed.

(** The pause before a reconnect attempt is at most two seconds, whatever the number
    of the attempt; the first two attempts follow at once, the third after one second. *)
Theorem backoff_bounded attempt : 0 <= attempt < 2 ^ 32 ->
  0 <= backoff_secs attempt <= 2 /\ (backoff_secs attempt = 0 <-> attempt <= 2) /\ (backoff_secs attempt = 1 <-> attempt = 3).
Proof.
  intros Ha. unfold backoff_secs. destruct (Z.leb_spec attempt 2) as [H|H]; [lia|]. rewrite Z.max_r by lia.
  assert (forall n, 0 <= n -> default 2 (checked_shl_one n) = (if n <? 64 then 2 ^ n else 2)) as Hs.
  { intros n Hn. unfold checked_shl_one. destruct (Z.ltb_spec n 64) as [Hl|]; [|done]. cbn. rewrite Z.shiftl_1_l. unfold u64. apply Z.mod_small.
    split; [lia|]. apply Z.pow_lt_mono_r; lia. }
  rewrite Hs by lia. destruct (Z.ltb_spec (attempt - 3) 64) as [Hl|Hl]; [|lia].
  destruct (decide (attempt = 3)) as [->|Hne]; [cbn; lia|]. assert (2 ^ 1 <= 2 ^ (attempt - 3)) as Hp by (apply Z.pow_le_mono_r; lia). lia.
Qed.
Lemma backoff_bounded_witness : 0 <= 100 < 2 ^ 32 /\ backoff_secs 100 <= 2.
Proof. split; [lia|]. apply (backoff_bounded 100). lia. Defined.

(** A marker cut by the disconnect is not found: everything typed afterwards is replayed. *)
Lemma split_end_marker_replays_typing typed :
  ~ occurs PASTE_END ([49; 126] ++ typed) ->
  filter_replay (observe InputReplay_default (PASTE_START ++ [27; 91; 50; 48])) ([49; 126] ++ typed) = [49; 126] ++ typed /\
  ~ open_paste ((PASTE_START ++ [27; 91; 50; 48]) ++ [49; 126]).
Proof.
  intros Hn. split.
  - unfold filter_replay. replace (in_paste _) with true by done. cbn [negb]. pose proof (find_subslice_spec ([49; 126] ++ typed) PASTE_END ltac:(done)) as Hf.
    destruct (find_subslice _ _); [|done]. destruct Hf as (x & y & E & _). destruct Hn. by exists x, y.
  - apply (ends_closed PASTE_START).
Qed.
