(* ===== verification/Shell.v ===== *)
(** * Shell: the two loops of a shell session (shell/mod.rs)

    Both ends of a session are [select!] loops: [client_branch_step] and
    [host_branch_step] take one branch each, at a given time in seconds.  A branch that is
    not enabled gives [None]; a branch that ends the loop gives its outcome.  Messages
    reach the loops whole, through the cancellable reader of Frame.v.  The file also has
    the setup messages, the session's environment and terminal, and the clients of
    commands run without a terminal. *)
From S2P Require Import Prelude Text Policy Fs Privsep Auth Registry Enforce Datastore Paste.
Local Open Scope Z_scope.

(** Payloads the loops do not look at stay encoded. *)
Inductive HostMessage :=
| Output (data : bytes)
| Exit (code : Z)
| WindowSizeAck
| AuthResult (authorized : bool)
| SessionInfo (session_id : string) (resumed : bool)
| AdminResponse (r : bytes)
| SessionError (msg : string)
| PeerResponse (r : bytes)
| NetdocAuthorAck (recorded : bool)
| AuthResultV2 (authorized : bool) (rest : bytes)
| Attention (session_id : string) (title username host_name : option string)
| Pong.

(** ** Setting a session up *)
Definition ENV_ALLOWLIST : list string :=
  ["TERM"; "LANG"; "LC_ALL"; "LC_CTYPE"; "LC_COLLATE"; "LC_MESSAGES"; "LC_MONETARY"; "LC_NUMERIC"; "LC_TIME"; "COLORTERM"]%string.
Definition session_env_pairs (env_vars : gmap string string) : list (string * string) :=
  omap (fun k => pair k <$> env_vars !! k) ENV_ALLOWLIST ++
  (if bool_decide (is_Some (env_vars !! "TERM"%string)) then [] else [("TERM", "xterm-256color")]%string).

(** The size and environment of a new terminal, and the message that ended the setup if it
    was another one.  [incoming] are the messages that arrive before the deadline; [None]
    is the deadline or an error. *)
Definition default_size : PtySize := {| pty_rows := 24; pty_cols := 80; pixel_width := 0; pixel_height := 0 |}.
Fixpoint read_setup (n : nat) (incoming : list ClientMessage) (size : PtySize) (vars : list (string * string))
    : PtySize * list (string * string) * option ClientMessage * list ClientMessage :=
  match n, incoming with
  | S n, WindowSize cols rows pw ph :: rest =>
      read_setup n rest {| pty_rows := rows; pty_cols := cols; pixel_width := pw; pixel_height := ph |} vars
  | S n, SetEnv vs :: rest => read_setup n rest size vs
  | S n, other :: rest => (size, vars, Some other, rest)
  | _, _ => (size, vars, None, incoming)
  end.
Definition read_setup_messages (incoming : list ClientMessage) : PtySize * list (string * string) * option ClientMessage * list ClientMessage :=
  read_setup 2 incoming default_size [].

(** Where a session's terminal comes from: the root monitor, which is sent the command, or
    this process. *)
Inductive PtySource := FromMonitor (argv : list string) (env : list (string * string)) (user : option string) | Local (c : Command) (env : list (string * string)).
Definition acquire_session_pty `{!FileSystem, !Accounts, !PolicyJson} (os : Os) (root worker keeps_sessions : bool) (sandbox : SandboxPolicy)
    (shell : string) (user : option string) (env : list (string * string)) (broker : option Path) : PtySource :=
  let c := sandboxed_shell os sandbox shell user broker in
  let via_monitor := worker && (bool_decide (is_Some user) && negb root || keeps_sessions) in
  if via_monitor then FromMonitor (program c :: args c) env user else Local c env.

(** Write all of [data] to a terminal that takes what it can; [answers] are the results of
    the writes: bytes taken, [Busy] for a full buffer or a signal, or an error. *)
Inductive write_answer := Takes (n : nat) | Busy | Fails.
Fixpoint pty_write_all_blocking (answers : list write_answer) (data : bytes) : bytes :=
  match data, answers with
  | [], _ | _, [] => []
  | _, Takes O :: _ | _, Fails :: _ => []
  | _, Takes n :: rest => take n data ++ pty_write_all_blocking rest (drop n data)
  | _, Busy :: rest => pty_write_all_blocking rest data
  end.

(** ** Attention events *)
Definition COOLDOWN : Z := 30.
Definition attention_due (last : option Z) (now : Z) : option Z * bool :=
  match last with
  | Some t => if now - t <? COOLDOWN then (last, false) else (Some now, true)
  | None => (Some now, true)
  end.
(** Drop the control characters of a UTF-8 text: C0, DEL and C1. *)
Fixpoint strip_control (l : bytes) : bytes :=
  match l with
  | [] => []
  | b :: rest =>
      if (b <? 32) || (b =? 127) then strip_control rest
      else match rest with
           | c :: rest' => if (b =? 194) && in_range 128 159 c then strip_control rest' else b :: strip_control rest
           | [] => [b]
           end
  end.
Definition notification (clean : bytes) : bytes :=
  [27; 93] ++ str_bytes "9;WireHop: " ++ clean ++ [7; 27; 93] ++ str_bytes "777;notify;WireHop;" ++ clean ++ [7].
Definition attention_notification_bytes (host title : option string) (session_id : string) : rust unit bytes :=
  let by_id := id8 ← str_slice_to session_id (Nat.min 8 (String.length session_id)); Ok ("session " +:+ id8) in
  what ← match title with Some t => if bool_decide (t = EmptyString) then by_id else Ok t | None => by_id end;
  let body := what +:+ " on " +:+ default "a host"%string host +:+ " wants attention" in
  Ok (notification (strip_control (str_bytes body))).

(** ** The client's loop *)
Inductive SessionOutcome := Exited (code : Z) | Disconnected.
(** How the loop ends: it returns, or a slice of a text inside a character panics. *)
Inductive LoopEnd := Returns (o : SessionOutcome) | Panics.
Definition CLIENT_READ_DEADLINE : Z := 30.
Definition ONE_WAY_STALL : Z := 12.
Definition FIRST_ECHO : Z := 4.
(** [send_q] is what the writer task has not taken yet and [writer_open] whether it still
    runs; [host_echoes] is shared by the sessions of the process. *)
Record ClientLoop := {
  replay : InputReplay; send_q : list ClientMessage; writer_open : bool; stdout_q : list bytes;
  host_echoes : bool; echo_armed : bool; echoed_since_attach : bool; echo_probes_left : Z;
  last_pong : Z; last_host_msg : Z; read_deadline : Z; first_echo : Z;
}.
Definition client_start (now : Z) (view_only echoes : bool) (r : InputReplay) (replay_first : bytes) : ClientLoop :=
  let replays := negb (bool_decide (replay_first = [])) && negb view_only in
  {| replay := if replays then observe r replay_first else r;
     send_q := (if echoes then [Ping] else []) ++ (if replays then [Input replay_first] else []);
     writer_open := true; stdout_q := []; host_echoes := echoes; echo_armed := echoes; echoed_since_attach := false; echo_probes_left := 3;
     last_pong := now; last_host_msg := now; read_deadline := now + CLIENT_READ_DEADLINE; first_echo := now + FIRST_ECHO |}.

Definition with_replay (s : ClientLoop) (r : InputReplay) (q : list ClientMessage) : ClientLoop :=
  {| replay := r; send_q := q; writer_open := writer_open s; stdout_q := stdout_q s;
     host_echoes := host_echoes s; echo_armed := echo_armed s; echoed_since_attach := echoed_since_attach s; echo_probes_left := echo_probes_left s;
     last_pong := last_pong s; last_host_msg := last_host_msg s; read_deadline := read_deadline s; first_echo := first_echo s |}.
(** [send_tx.send]: nothing is queued once the writer has gone. *)
Definition enqueue (s : ClientLoop) (m : ClientMessage) : ClientLoop :=
  with_replay s (replay s) (if writer_open s then send_q s ++ [m] else send_q s).
Definition with_stdout (s : ClientLoop) (data : bytes) : ClientLoop :=
  {| replay := replay s; send_q := send_q s; writer_open := writer_open s; stdout_q := stdout_q s ++ [data];
     host_echoes := host_echoes s; echo_armed := echo_armed s; echoed_since_attach := echoed_since_attach s; echo_probes_left := echo_probes_left s;
     last_pong := last_pong s; last_host_msg := last_host_msg s; read_deadline := read_deadline s; first_echo := first_echo s |}.
Definition heard_host (s : ClientLoop) (now : Z) : ClientLoop :=
  {| replay := replay s; send_q := send_q s; writer_open := writer_open s; stdout_q := stdout_q s;
     host_echoes := host_echoes s; echo_armed := echo_armed s; echoed_since_attach := echoed_since_attach s; echo_probes_left := echo_probes_left s;
     last_pong := last_pong s; last_host_msg := now; read_deadline := now + CLIENT_READ_DEADLINE; first_echo := first_echo s |}.
Definition got_pong (s : ClientLoop) (now : Z) : ClientLoop :=
  {| replay := replay s; send_q := send_q s; writer_open := writer_open s; stdout_q := stdout_q s;
     host_echoes := true; echo_armed := true; echoed_since_attach := true; echo_probes_left := echo_probes_left s;
     last_pong := now; last_host_msg := last_host_msg s; read_deadline := read_deadline s; first_echo := first_echo s |}.
Definition spend_probe (s : ClientLoop) : ClientLoop :=
  {| replay := replay s; send_q := send_q s; writer_open := writer_open s; stdout_q := stdout_q s;
     host_echoes := host_echoes s; echo_armed := echo_armed s; echoed_since_attach := echoed_since_attach s; echo_probes_left := echo_probes_left s - 1;
     last_pong := last_pong s; last_host_msg := last_host_msg s; read_deadline := read_deadline s; first_echo := first_echo s |}.
Definition record_unsent (r : InputReplay) (chunk : bytes) : InputReplay := {| in_paste := in_paste r; tail := tail r; unsent := chunk |}.

Definition view_quit_key (data : bytes) : bool := existsb (Z.eqb 113) data || existsb (Z.eqb 3) data.

Inductive client_branch :=
| Stdin (data : bytes)
| WriterError (chunk : bytes)
| FromHost (msg : option HostMessage)
| WindowChanged (size : option (Z * Z * Z * Z))
| HeartbeatTick
| EchoTick
| FirstEchoElapsed
| DeadlineElapsed
| WakeDetected (slept : Z).

(** [notify] is whether HOP_NOTIFY leaves attention events on. *)
Definition from_host (notify : bool) (now : Z) (s : ClientLoop) (msg : option HostMessage) : ClientLoop * option LoopEnd :=
  let s := heard_host s now in
  match msg with
  | Some (Output data) => (with_stdout s data, None)
  | Some (Exit code) => (s, Some (Returns (Exited code)))
  | Some (Attention sid title _ host) =>
      if notify then match attention_notification_bytes host title sid with Ok b => (with_stdout s b, None) | _ => (s, Some Panics) end
      else (s, None)
  | Some Pong => (got_pong s now, None)
  | Some (SessionError _) | None => (s, Some (Returns Disconnected))
  | Some _ => (s, None)
  end.
Definition client_branch_step (view_only notify : bool) (now : Z) (s : ClientLoop) (b : client_branch) : option (ClientLoop * option LoopEnd) :=
  match b with
  | Stdin data =>
      if view_only then Some (s, if view_quit_key data then Some (Returns (Exited 0)) else None)
      else
        let s' := with_replay s (observe (replay s) data) (send_q s) in
        Some (if writer_open s then (enqueue s' (Input data), None) else (s', Some (Returns Disconnected)))
  | WriterError chunk => Some (with_replay s (record_unsent (replay s) chunk) (send_q s), Some (Returns Disconnected))
  | FromHost msg => Some (from_host notify now s msg)
  | WindowChanged (Some (cols, rows, pw, ph)) => Some (enqueue s (WindowSize cols rows pw ph), None)
  | WindowChanged None => Some (s, None)
  | HeartbeatTick =>
      let s := enqueue s (Input []) in
      Some (if negb (echo_armed s) && (0 <? echo_probes_left s) then enqueue (spend_probe s) Ping else s, None)
  | EchoTick =>
      if negb (echo_armed s) then None
      else if (ONE_WAY_STALL <=? now - last_pong s) && (now - last_host_msg s <? ONE_WAY_STALL) then Some (s, Some (Returns Disconnected))
      else Some (enqueue s Ping, None)
  | FirstEchoElapsed =>
      if echo_armed s && negb (echoed_since_attach s) && (first_echo s <=? now) then Some (s, Some (Returns Disconnected)) else None
  | DeadlineElapsed => if read_deadline s <=? now then Some (s, Some (Returns Disconnected)) else None
  | WakeDetected slept => if 10 <? slept then Some (s, Some (Returns Disconnected)) else None
  end.
(** The writer task: it takes the head of its queue and writes it, or fails, reports the
    bytes of an input message and ends. *)
Definition writer_takes (s : ClientLoop) : option (ClientMessage * ClientLoop) :=
  if writer_open s then match send_q s with m :: q => Some (m, with_replay s (replay s) q) | [] => None end else None.
Definition unsent_of (m : ClientMessage) : bytes := match m with Input data => data | _ => [] end.
Definition writer_ends (s : ClientLoop) : ClientLoop :=
  {| replay := replay s; send_q := []; writer_open := false; stdout_q := stdout_q s;
     host_echoes := host_echoes s; echo_armed := echo_armed s; echoed_since_attach := echoed_since_attach s; echo_probes_left := echo_probes_left s;
     last_pong := last_pong s; last_host_msg := last_host_msg s; read_deadline := read_deadline s; first_echo := first_echo s |}.

(** A run: timed branches until one ends the loop. *)
Fixpoint client_run (view_only notify : bool) (s : ClientLoop) (es : list (Z * client_branch)) : option (ClientLoop * option LoopEnd) :=
  match es with
  | [] => Some (s, None)
  | (now, b) :: es =>
      '(s', o) ← client_branch_step view_only notify now s b;
      match o with Some _ => match es with [] => Some (s', o) | _ => None end | None => client_run view_only notify s' es end
  end.

(** ** The host's loop *)
Inductive AttachOutcome := AttachExited | AttachDisconnected.
Definition HOST_READ_DEADLINE : Z := 75.
Record AttentionEvent := { ev_session_id : string; ev_title : option string; ev_username : option string }.
(** [host_q] goes to the writer task; [pty_input] and [pty_size] are shared with the
    session's tasks. *)
Record HostLoop := { host_q : list HostMessage; pty_input : list bytes; pty_size : PtySize; host_deadline : Z }.
Definition host_send (h : HostLoop) (m : HostMessage) : HostLoop :=
  {| host_q := host_q h ++ [m]; pty_input := pty_input h; pty_size := pty_size h; host_deadline := host_deadline h |}.
(** What the loop does with a client's message; the same for the one the setup left over. *)
Definition client_message (h : HostLoop) (m : ClientMessage) : HostLoop :=
  match m with
  | Input data => {| host_q := host_q h; pty_input := pty_input h ++ [data]; pty_size := pty_size h; host_deadline := host_deadline h |}
  | WindowSize cols rows pw ph =>
      host_send {| host_q := host_q h; pty_input := pty_input h;
                   pty_size := {| pty_rows := rows; pty_cols := cols; pixel_width := pw; pixel_height := ph |}; host_deadline := host_deadline h |} WindowSizeAck
  | Ping => host_send h Pong
  | _ => h
  end.
Inductive host_branch :=
| AttentionRaised (ev : option AttentionEvent)
| PtyOutput (data : bytes)
| HostWriterError
| FromClient (msg : option ClientMessage)
| HostHeartbeat
| HostDeadline
| ExitChanged (code : option Z) (queued : list bytes).
Definition host_branch_step (version : Z) (own_id : string) (host_name : option string) (now : Z) (h : HostLoop) (b : host_branch) : option (HostLoop * option AttachOutcome) :=
  match b with
  | AttentionRaised (Some ev) =>
      Some (if negb (bool_decide (ev_session_id ev = own_id)) && (4 <=? version)
            then host_send h (Attention (ev_session_id ev) (ev_title ev) (ev_username ev) host_name) else h, None)
  | AttentionRaised None => Some (h, None)
  | PtyOutput data => Some (host_send h (Output data), None)
  | HostWriterError => Some (h, Some AttachDisconnected)
  | FromClient msg =>
      let h := {| host_q := host_q h; pty_input := pty_input h; pty_size := pty_size h; host_deadline := now + HOST_READ_DEADLINE |} in
      match msg with Some m => Some (client_message h m, None) | None => Some (h, Some AttachDisconnected) end
  | HostHeartbeat => Some (host_send h (Output []), None)
  | HostDeadline => if host_deadline h <=? now then Some (h, Some AttachDisconnected) else None
  | ExitChanged None _ => Some (h, None)
  | ExitChanged (Some code) queued => Some (foldl host_send h (map Output queued ++ [Exit code]), Some AttachExited)
  end.

(** ** Commands without a terminal *)
(** The host forwards what the command writes and then its exit code, until a write fails;
    [ok] is how many writes succeed. *)
Definition host_exec_loop (ok : nat) (chunks : list bytes) (code : Z) : list HostMessage := take ok (map Output chunks ++ [Exit code]).
(** [ExecExit::code]: the monitor's status pipe carries a little-endian [i32]. *)
Definition exec_status (pipe : bytes) : Z :=
  match pipe with
  | a :: b :: c :: d :: _ => wrap_i32 (a + 256 * b + 65536 * c + 16777216 * d)
  | _ => 1
  end.
Definition lossy (l : bytes) : bytes := from_utf8_lossy (length l) l.
Fixpoint client_exec_capture (incoming : list HostMessage) (buf : bytes) : bytes * Z :=
  match incoming with
  | Output data :: rest => client_exec_capture rest (buf ++ data)
  | Exit code :: _ => (lossy buf, code)
  | _ :: rest => client_exec_capture rest buf
  | [] => (lossy buf, -1)
  end.
(** The complete lines at the front of the buffer, each without its newline and one
    carriage return, and what is left. *)
Definition pop_cr (line : bytes) : bytes := match rev line with 13 :: l => rev l | _ => line end.
Fixpoint split_line (buf : bytes) : option (bytes * bytes) :=
  match buf with
  | [] => None
  | b :: t => if b =? 10 then Some ([], t) else '(l, r) ← split_line t; Some (b :: l, r)
  end.
Fixpoint flush_lines (fuel : nat) (buf : bytes) : list bytes * bytes :=
  match fuel with
  | O => ([], buf)
  | S f =>
      match split_line buf with
      | None => ([], buf)
      | Some (line, rest) => let '(ls, remain) := flush_lines f rest in (lossy (pop_cr line) :: ls, remain)
      end
  end.
Fixpoint client_exec_stream (incoming : list HostMessage) (buf : bytes) (on_line : list bytes) : list bytes * Z :=
  let flushed := match buf with [] => on_line | _ => on_line ++ [lossy buf] end in
  match incoming with
  | Output data :: rest =>
      let buf := buf ++ data in
      let '(ls, remain) := flush_lines (S (length buf)) buf in client_exec_stream rest remain (on_line ++ ls)
  | Exit code :: _ => (flushed, code)
  | _ :: rest => client_exec_stream rest buf on_line
  | [] => (flushed, -1)
  end.

(** ** What the client's timers see *)
Definition is_host (b : client_branch) : bool := match b with FromHost _ => true | _ => false end.
Definition is_pong (b : client_branch) : bool := match b with FromHost (Some Pong) => true | _ => false end.
(** When the last such branch was taken, or the start. *)
Definition last_time (sel : client_branch -> bool) (t0 : Z) (es : list (Z * client_branch)) : Z :=
  foldl (fun t e => if sel e.2 then e.1 else t) t0 es.

Record timed (t0 : Z) (echoes : bool) (es : list (Z * client_branch)) (s : ClientLoop) : Prop := {
  timed_pong : last_pong s = last_time is_pong t0 es;
  timed_host : last_host_msg s = last_time is_host t0 es;
  timed_deadline : read_deadline s = last_time is_host t0 es + CLIENT_READ_DEADLINE;
  timed_echoed : echoed_since_attach s = existsb (fun e => is_pong e.2) es;
  timed_armed : echo_armed s = echoes || existsb (fun e => is_pong e.2) es;
  timed_first : first_echo s = t0 + FIRST_ECHO;
  timed_open : writer_open s = true;
}.
Lemma timed_start t0 view echoes r first : timed t0 echoes [] (client_start t0 view echoes r first).
Proof. split; try done. cbn. by rewrite orb_false_r. Qed.
Lemma timed_step t0 echoes view notify es s now b s' :
  timed t0 echoes es s -> client_branch_step view notify now s b = Some (s', None) -> timed t0 echoes (es ++ [(now, b)]) s'.
Proof.
  intros [Hp Hh Hd He Ha Hf Ho] Hs.
  assert (forall sel, last_time sel t0 (es ++ [(now, b)]) = if sel b then now else last_time sel t0 es) as Hl by (intros sel; unfold last_time; by rewrite foldl_app).
  assert (existsb (fun e => is_pong e.2) (es ++ [(now, b)]) = existsb (fun e => is_pong e.2) es || is_pong b) as Hx by (rewrite existsb_app; cbn; by rewrite orb_false_r).
  split; rewrite ?Hl, ?Hx; destruct b as [| |[[]|]|[[[[]]]|]| | | | |]; cbn in Hs |- *; rewrite ?Ho in Hs; try discriminate Hs;
    repeat case_match; simplify_eq/=; rewrite ?orb_false_r, ?orb_true_r; done.
Qed.
Lemma timed_run t0 echoes view notify es : forall done_ s s', timed t0 echoes done_ s -> client_run view notify s es = Some (s', None) -> timed t0 echoes (done_ ++ es) s'.
Proof.
  induction es as [|[now b] es IH]; intros done_ s s' Ht Hr; cbn [client_run] in Hr; [simplify_eq; by rewrite app_nil_r|].
  apply bind_Some in Hr as ([s1 o] & Hs & Hr). destruct o; [by destruct es|].
  replace (done_ ++ (now, b) :: es) with ((done_ ++ [(now, b)]) ++ es) by (by rewrite <-(assoc (++))). eapply IH; [|done]. by eapply timed_step.
Qed.

(** The client's timers go by what it has seen, whatever it did in between: the read
    deadline ends the session exactly when nothing came from the host for thirty seconds;
    the first-echo timer exactly when an earlier session's host answered pings and this
    one has not within four seconds; a tick of the echo exactly when no answer came for
    twelve seconds while the host was still heard within them, and otherwise it sends the
    next ping. *)
Theorem client_timers_exact t0 view notify echoes r first es s now :
  client_run view notify (client_start t0 view echoes r first) es = Some (s, None) ->
  let heard := last_time is_host t0 es in let answered := last_time is_pong t0 es in
  let echoed := existsb (fun e => is_pong e.2) es in
  client_branch_step view notify now s DeadlineElapsed = (if heard + 30 <=? now then Some (s, Some (Returns Disconnected)) else None) /\
  client_branch_step view notify now s FirstEchoElapsed = (if echoes && negb echoed && (t0 + 4 <=? now) then Some (s, Some (Returns Disconnected)) else None) /\
  client_branch_step view notify now s EchoTick =
    (if negb (echoes || echoed) then None
     else if (12 <=? now - answered) && (now - heard <? 12) then Some (s, Some (Returns Disconnected))
     else Some (with_replay s (replay s) (send_q s ++ [Ping]), None)).
Proof.
  intros Hr. destruct (timed_run t0 echoes view notify es [] _ s (timed_start t0 view echoes r first) Hr) as [Hp Hh Hd He Ha Hf Ho].
  cbn [app] in *. cbn. unfold enqueue. rewrite Hp, Hh, Hd, He, Ha, Hf, Ho. split_and!; [done| |done].
  by destruct echoes, (existsb _ es); cbn.
Qed.

(** A host that answered one ping and then only sends output. *)
Definition one_way : list (Z * client_branch) := [(1, HeartbeatTick); (2, FromHost (Some Pong)); (7, EchoTick); (12, FromHost (Some (Output [36])))].
Lemma client_timers_exact_witness :
  exists s, client_run false true (client_start 0 false false InputReplay_default []) one_way = Some (s, None) /\
    client_branch_step false true 17 s EchoTick = Some (s, Some (Returns Disconnected)) /\ client_branch_step false true 41 s DeadlineElapsed = None.
Proof.
  eexists. split; [vm_compute; reflexivity|].
  destruct (client_timers_exact 0 false true false InputReplay_default [] one_way _ 17 eq_refl) as (_ & _ & He).
  destruct (client_timers_exact 0 false true false InputReplay_default [] one_way _ 41 eq_refl) as (Hd & _ & _).
  split; [exact He|exact Hd].
Defined.

(** ** Lines do not depend on chunks *)
(** The lines of a text; [cur] is the one being read. *)
Fixpoint lines_of (cur text : bytes) : list bytes :=
  match text with
  | [] => match cur with [] => [] | _ => [lossy cur] end
  | b :: t => if b =? 10 then lossy (pop_cr cur) :: lines_of [] t else lines_of (cur ++ [b]) t
  end.
Lemma split_line_spec buf :
  match split_line buf with
  | Some (l, r) => (length r < length buf)%nat /\ forall cur rest, lines_of cur (buf ++ rest) = lossy (pop_cr (cur ++ l)) :: lines_of [] (r ++ rest)
  | None => forall cur rest, lines_of cur (buf ++ rest) = lines_of (cur ++ buf) rest
  end.
Proof.
  induction buf as [|b t IH]; cbn [split_line]; [intros cur rest; by rewrite app_nil_r|].
  destruct (b =? 10) eqn:Eb; [split; [cbn; lia|]; intros cur rest; cbn [lines_of app]; by rewrite Eb, app_nil_r|].
  destruct (split_line t) as [[l r]|]; cbn.
  - destruct IH as [Hl IH]. split; [lia|]. intros cur rest. rewrite Eb, IH. by rewrite <-(assoc (++)).
  - intros cur rest. rewrite Eb, IH. by rewrite <-(assoc (++)).
Qed.
Lemma flush_lines_spec fuel : forall buf, (length buf < fuel)%nat ->
  let '(ls, remain) := flush_lines fuel buf in forall rest, lines_of [] (buf ++ rest) = ls ++ lines_of remain rest.
Proof.
  induction fuel as [|f IH]; intros buf Hl; [lia|]. cbn [flush_lines]. pose proof (split_line_spec buf) as Hs. destruct (split_line buf) as [[l r]|].
  - destruct Hs as [Hr Hs]. specialize (IH r ltac:(lia)). destruct (flush_lines f r) as [ls remain]. intros rest. rewrite Hs, IH. done.
  - intros rest. rewrite Hs. done.
Qed.
(** What has been read and not given out yet is part of one line. *)
Definition no_newline (l : bytes) : Prop := split_line l = None.
Lemma flush_lines_rest fuel : forall buf, (length buf < fuel)%nat -> no_newline (flush_lines fuel buf).2.
Proof.
  induction fuel as [|f IH]; intros buf Hl; [lia|]. cbn [flush_lines]. pose proof (split_line_spec buf) as Hs. unfold no_newline in *. destruct (split_line buf) as [[l r]|] eqn:E; [|done].
  destruct Hs as [Hr _]. specialize (IH r ltac:(lia)). by destruct (flush_lines f r).
Qed.
Lemma exec_stream_outputs chunks : forall buf acc tl code, no_newline buf ->
  (tl = [] /\ code = -1 \/ tl = [Exit code]) ->
  client_exec_stream (map Output chunks ++ tl) buf acc = (acc ++ lines_of buf (mjoin chunks), code).
Proof.
  induction chunks as [|d chunks IH]; intros buf acc tl code Hn Ht.
  - destruct Ht as [[-> ->] | ->]; cbn; destruct buf; by rewrite ?app_nil_r.
  - cbn [map app client_exec_stream mjoin list_join]. pose proof (flush_lines_spec (S (length (buf ++ d))) (buf ++ d) ltac:(lia)) as Hf.
    pose proof (flush_lines_rest (S (length (buf ++ d))) (buf ++ d) ltac:(lia)) as Hr. destruct (flush_lines _ _) as [ls remain]. cbn [snd] in Hr.
    rewrite (IH remain (acc ++ ls) tl code Hr Ht). f_equal. rewrite <-(assoc (++)). f_equal. rewrite <-Hf, <-(assoc (++)).
    pose proof (split_line_spec buf) as Hb. unfold no_newline in Hn. rewrite Hn in Hb. by rewrite Hb.
Qed.
Lemma exec_capture_outputs chunks : forall buf tl code, (tl = [] /\ code = -1 \/ tl = [Exit code]) ->
  client_exec_capture (map Output chunks ++ tl) buf = (lossy (buf ++ mjoin chunks), code).
Proof.
  induction chunks as [|d chunks IH]; intros buf tl code Ht; [destruct Ht as [[-> ->] | ->]; cbn; by rewrite app_nil_r|].
  cbn [map app client_exec_capture mjoin list_join]. rewrite (IH _ tl code Ht). by rewrite (assoc (++)).
Qed.

(** A command's client gets what the host wrote before a write failed, all of it when
    none did: the captured output is the text of the chunks and the streamed lines are the
    lines of that text, however it was cut into chunks; the exit code is the command's, or
    -1 when the connection was lost before it. *)
Theorem exec_output_faithful ok chunks code :
  let text := mjoin (take ok chunks) in let status := if (length chunks <? ok)%nat then code else -1 in
  client_exec_capture (host_exec_loop ok chunks code) [] = (lossy text, status) /\
  client_exec_stream (host_exec_loop ok chunks code) [] [] = (lines_of [] text, status).
Proof.
  intros text status. assert (exists tl, host_exec_loop ok chunks code = map Output (take ok chunks) ++ tl /\ (tl = [] /\ status = -1 \/ tl = [Exit status])) as (tl & -> & Ht).
  { unfold host_exec_loop, status. destruct (Nat.ltb_spec (length chunks) ok) as [H|H].
    - exists [Exit code]. split; [|by right]. rewrite (take_ge chunks) by lia. apply take_ge. rewrite length_app, length_map. cbn. lia.
    - exists []. split; [|by left]. rewrite app_nil_r, take_app_le by (rewrite length_map; lia). by rewrite firstn_map. }
  split; [by rewrite (exec_capture_outputs _ [] tl status)|by rewrite (exec_stream_outputs _ [] [] tl status)].
Qed.

(** ** Environment, terminal and notifications *)
(** A session's environment has only allowed variables, each at most once and with
    the value the client gave, and always a terminal type. *)
Theorem session_env_allowlisted vars :
  let e := session_env_pairs vars in
  NoDup e.*1 /\ "TERM"%string ∈ e.*1 /\
  forall k v, (k, v) ∈ e -> k ∈ ENV_ALLOWLIST /\ (vars !! k = Some v \/ k = "TERM"%string /\ vars !! k = None /\ v = "xterm-256color"%string).
Proof.
  intros e. assert (forall l : list string, (omap (fun k => pair k <$> vars !! k) l).*1 = List.filter (fun k => bool_decide (is_Some (vars !! k))) l) as Hk.
  { induction l as [|k l IH]; [done|]. cbn. destruct (vars !! k) as [v|] eqn:E; cbn; [by rewrite IH|exact IH]. }
  assert (NoDup ENV_ALLOWLIST) as Hnd by (apply (bool_decide_unpack _); by vm_compute).
  unfold e, session_env_pairs. rewrite fmap_app, Hk. assert (forall k, k ∈ List.filter (fun k => bool_decide (is_Some (vars !! k))) ENV_ALLOWLIST <-> k ∈ ENV_ALLOWLIST /\ is_Some (vars !! k)) as Hf.
  { intros k. rewrite !list_elem_of_In, filter_In, bool_decide_eq_true. done. }
  split_and!.
  - apply NoDup_app. split_and!.
    + apply NoDup_ListNoDup, List.NoDup_filter. by apply NoDup_ListNoDup.
    + intros k [_ Hs]%Hf Hk'. case_bool_decide as Ht; [by apply elem_of_nil in Hk'|]. cbn in Hk'. apply list_elem_of_singleton in Hk' as ->. done.
    + case_bool_decide; cbn; [constructor|apply NoDup_singleton].
  - apply elem_of_app. case_bool_decide as Ht; [left; apply Hf; split; [left|done]|right; left].
  - intros k v [Ho|Ht]%elem_of_app.
    + apply list_elem_of_omap in Ho as (k' & Hin & Hv). destruct (vars !! k') as [v'|] eqn:E; [|done]. cbn in Hv. simplify_eq. auto.
    + case_bool_decide as Hn; [by apply elem_of_nil in Ht|]. apply list_elem_of_singleton in Ht as [= -> ->]. split; [left|]. right. split_and!; [done| |done].
      apply eq_None_not_Some, Hn.
Qed.

Lemma strip_control_clean l : Forall (fun b => 32 <= b /\ b <> 127) (strip_control l).
Proof.
  induction l as [l IH] using (induction_ltof1 _ (@length Z)). destruct l as [|b rest]; [constructor|]. cbn [strip_control].
  destruct ((b <? 32) || (b =? 127)) eqn:Eb; [apply IH; unfold ltof; cbn; lia|]. apply orb_false_iff in Eb as [E1%Z.ltb_ge E2%Z.eqb_neq].
  destruct rest as [|c rest]; [by repeat constructor|]. case_match; [apply IH; unfold ltof; cbn; lia|]. constructor; [done|]. apply IH. unfold ltof. cbn. lia.
Qed.
