(* ===== verification/ShellInput.v ===== *)
(** * ShellInput: keystrokes from the client's terminal to the shell

    The client's loop and writer, the streams of its attachments, the host's loops and the
    task that feeds the shell's terminal, as one machine whose steps interleave in any
    order: shell/mod.rs on both sides and the reconnecting loop of cmd_connect
    (hop-cli/src/main.rs).  The session stays the same across reconnects. *)
From S2P Require Import Prelude Text Auth Registry Paste Shell.
Local Open Scope Z_scope.

(** The host's side of an attachment: reading the setup messages, in its loop, or over. *)
Inductive host_side := Setting | Serving (q : list HostMessage) (deadline : Z) | Over.
(** [wire] is what the client's writer has written and the host has not read. *)
Record Attachment := { wire : list ClientMessage; side : host_side }.
Inductive Phase := Online (c : ClientLoop) (errs : list bytes) | Reconnecting (r : InputReplay) (pending : bytes) | Ended.
(** [stdin] holds the chunks read from the terminal, [atts] the attachments, newest first;
    [input_q], [size] and [written] belong to the session. *)
Record Sys := {
  stdin : list bytes; phase : Phase; echoes : bool; atts : list Attachment;
  input_q : list bytes; size : PtySize; written : bytes;
}.

Inductive event :=
| Types (data : bytes)
| TakeStdin (now : Z)
| TakeError (now : Z)
| Branch (now : Z) (b : client_branch)
| WriterWrites
| WriterDies
| Attaches (i : nat) (seen : nat) (now : Z)
| HostReads (i : nat) (now : Z)
| HostEnds (i : nat)
| PtyTakes
| DialogTakes
| Reconnects (quick : bool) (now : Z) (setup : list ClientMessage).

Definition set_stdin (s : Sys) (q : list bytes) : Sys :=
  {| stdin := q; phase := phase s; echoes := echoes s; atts := atts s; input_q := input_q s; size := size s; written := written s |}.
Definition set_phase (s : Sys) (p : Phase) : Sys :=
  {| stdin := stdin s; phase := p; echoes := echoes s; atts := atts s; input_q := input_q s; size := size s; written := written s |}.
Definition set_atts (s : Sys) (l : list Attachment) : Sys :=
  {| stdin := stdin s; phase := phase s; echoes := echoes s; atts := l; input_q := input_q s; size := size s; written := written s |}.
Definition set_att (s : Sys) (i : nat) (a : Attachment) : Sys := set_atts s (<[i := a]> (atts s)).

(** The client's loop took a branch: it goes on, or the session is given up or ends. *)
Definition after_branch (s : Sys) (errs : list bytes) (r : ClientLoop * option LoopEnd) : Sys :=
  let '(c, o) := r in
  {| stdin := stdin s;
     phase := match o with
              | None => Online c errs
              | Some (Returns Disconnected) => Reconnecting (replay c) []
              | Some (Returns (Exited _)) | Some Panics => Ended
              end;
     echoes := host_echoes c; atts := atts s; input_q := input_q s; size := size s; written := written s |}.
(** The host's loop of attachment [i] handles a message. *)
Definition host_handles (s : Sys) (i : nat) (a : Attachment) (q : list HostMessage) (deadline : Z) (m : option ClientMessage) : Sys :=
  let h := {| host_q := q; pty_input := input_q s; Shell.pty_size := size s; host_deadline := deadline |} in
  let h := match m with Some m => client_message h m | None => h end in
  let s := set_att s i {| wire := wire a; side := Serving (host_q h) (host_deadline h) |} in
  {| stdin := stdin s; phase := phase s; echoes := echoes s; atts := atts s; input_q := pty_input h; size := Shell.pty_size h; written := written s |}.
(** What a reconnect sends first: everything held back after a quick one, what the paste
    filter lets through after the dialog. *)
Definition to_send (quick : bool) (r : InputReplay) (pending : bytes) : InputReplay * bytes :=
  let '(lost, r) := take_unsent r in
  let stream := lost ++ pending in
  (r, if quick then stream else filter_replay r stream).

Definition step (s : Sys) (e : event) : option Sys :=
  match e with
  | Types data => Some (set_stdin s (stdin s ++ [data]))
  | TakeStdin now =>
      match phase s, stdin s with
      | Online c errs, data :: q => after_branch (set_stdin s q) errs <$> client_branch_step false true now c (Stdin data)
      | _, _ => None
      end
  | TakeError now =>
      match phase s with Online c (chunk :: errs) => after_branch s errs <$> client_branch_step false true now c (WriterError chunk) | _ => None end
  | Branch now b =>
      match phase s, b with
      | _, Stdin _ | _, WriterError _ => None
      | Online c errs, _ => after_branch s errs <$> client_branch_step false true now c b
      | _, _ => None
      end
  | WriterWrites =>
      match phase s, atts s with
      | Online c errs, a :: l => '(m, c) ← writer_takes c; Some (set_atts (set_phase s (Online c errs)) ({| wire := wire a ++ [m]; side := side a |} :: l))
      | _, _ => None
      end
  | WriterDies =>
      match phase s with
      | Online c errs => '(m, c) ← writer_takes c; Some (set_phase s (Online (writer_ends c) (errs ++ [unsent_of m])))
      | _ => None
      end
  | Attaches i seen now =>
      match atts s !! i with
      | Some a =>
          match side a with
          | Setting =>
              let '(_, _, left_over, rest) := read_setup_messages (take seen (wire a)) in
              Some (host_handles s i {| wire := rest ++ drop seen (wire a); side := Setting |} [] (now + HOST_READ_DEADLINE) left_over)
          | _ => None
          end
      | None => None
      end
  | HostReads i now =>
      match atts s !! i with
      | Some a =>
          match side a, wire a with
          | Serving q _, m :: rest => Some (host_handles s i {| wire := rest; side := side a |} q (now + HOST_READ_DEADLINE) (Some m))
          | _, _ => None
          end
      | None => None
      end
  | HostEnds i => a ← atts s !! i; Some (set_att s i {| wire := wire a; side := Over |})
  | PtyTakes =>
      match input_q s with
      | data :: q => Some {| stdin := stdin s; phase := phase s; echoes := echoes s; atts := atts s; input_q := q; size := size s; written := written s ++ data |}
      | [] => None
      end
  | DialogTakes =>
      match phase s, stdin s with
      | Reconnecting r p, data :: q =>
          match classify_chunk data p with
          | (Quit, _) => Some (set_phase (set_stdin s q) Ended)
          | (_, p) => Some (set_phase (set_stdin s q) (Reconnecting r p))
          end
      | _, _ => None
      end
  | Reconnects quick now setup =>
      match phase s with
      | Reconnecting r p =>
          let p := if quick then p else p ++ mjoin (stdin s) in
          let '(r, first) := to_send quick r p in
          Some {| stdin := if quick then stdin s else []; phase := Online (client_start now false (echoes s) r first) []; echoes := echoes s;
                  atts := {| wire := setup; side := Setting |} :: atts s; input_q := input_q s; size := size s; written := written s |}
      | _ => None
      end
  end.
Fixpoint steps (s : Sys) (es : list event) : option Sys := match es with [] => Some s | e :: es => s ← step s e; steps s es end.

Definition boot (t0 : Z) (setup : list ClientMessage) : Sys :=
  {| stdin := []; phase := Online (client_start t0 false false InputReplay_default []) []; echoes := false;
     atts := [{| wire := setup; side := Setting |}]; input_q := []; size := default_size; written := [] |}.
Fixpoint typed (es : list event) : bytes := match es with [] => [] | Types d :: es => d ++ typed es | _ :: es => typed es end.

(** ** Where the bytes are *)
Definition ins (ms : list ClientMessage) : bytes := mjoin (map unsent_of ms).
Definition newest_wire (s : Sys) : list ClientMessage := match atts s with a :: _ => wire a | [] => [] end.
Definition held (p : Phase) : bytes :=
  match p with Online c errs => mjoin errs ++ ins (send_q c) | Reconnecting r pending => unsent r ++ pending | Ended => [] end.
Definition flight (s : Sys) : bytes := written s ++ mjoin (input_q s) ++ ins (newest_wire s) ++ held (phase s) ++ mjoin (stdin s).
(** The host reads from the newest attachment only. *)
Definition current (e : event) : Prop := match e with Attaches i _ _ | HostReads i _ => i = 0%nat | _ => True end.
(** Setup messages carry no keystrokes; nothing is held twice. *)
Definition plain_setup (e : event) : Prop := match e with Reconnects _ _ setup => ins setup = [] | _ => True end.
Definition tidy (s : Sys) : Prop :=
  match phase s with Online c errs => unsent (replay c) = [] /\ (errs <> [] -> writer_open c = false) /\ (writer_open c = false -> send_q c = []) | _ => True end.

Lemma ins_app a b : ins (a ++ b) = ins a ++ ins b.
Proof. unfold ins. by rewrite map_app, join_app. Qed.
Lemma ins_cons m l : ins (m :: l) = unsent_of m ++ ins l.
Proof. done. Qed.
Lemma ins_nil : ins [] = [].
Proof. done. Qed.

(** What a branch that goes on adds to the queue. *)
Lemma branch_goes_on now c b c' :
  client_branch_step false true now c b = Some (c', None) -> unsent (replay c) = [] -> (writer_open c = false -> send_q c = []) ->
  match b with WriterError _ => False | _ => True end ->
  ins (send_q c') = ins (send_q c) ++ (match b with Stdin d => d | _ => [] end) /\ unsent (replay c') = [] /\ writer_open c' = writer_open c /\ (writer_open c' = false -> send_q c' = []).
Proof.
  intros Hs Hu Hq Hb. destruct b as [d| |m|sz| | | | |sl]; cbn in Hs |- *; try done.
  - destruct (writer_open c) eqn:Ew; [|done]. simplify_eq/=. rewrite Ew, ins_app. split_and!; [cbn; by rewrite app_nil_r|by rewrite observe_unsent|done|done].
  - assert (send_q c' = send_q c /\ replay c' = replay c /\ writer_open c' = writer_open c) as (-> & -> & ->); [|by rewrite app_nil_r].
    unfold from_host in Hs. destruct m as [[]|]; cbn in Hs; repeat case_match; by simplify_eq/=.
  - destruct sz as [[[[? ?] ?] ?]|]; simplify_eq/=; [|by rewrite app_nil_r]. destruct (writer_open c) eqn:Ew; cbn; rewrite ?ins_app, ?app_nil_r; cbn; rewrite ?app_nil_r; split_and!; (done || auto).
  - assert (exists q, send_q c' = (if writer_open c then send_q c ++ q else send_q c) /\ ins q = [] /\ replay c' = replay c /\ writer_open c' = writer_open c) as (q & -> & Hi & -> & ->).
    { unfold enqueue in Hs. cbn in Hs. destruct (negb _ && _); simplify_eq/=; [exists [Input []; Ping]|exists [Input []]]; destruct (writer_open c); (split; [by rewrite <-?(assoc (++))|done]). }
    destruct (writer_open c); rewrite ?ins_app, ?Hi, ?app_nil_r; split_and!; (done || auto).
  - case_match; [done|]. case_match; [done|]. simplify_eq/=. destruct (writer_open c) eqn:Ew; cbn; rewrite ?ins_app, ?app_nil_r; cbn; rewrite ?app_nil_r; split_and!; (done || auto).
  - by case_match.
  - by case_match.
  - by case_match.
Qed.

(** ** Every step keeps the order *)
Definition new_bytes (e : event) : bytes := match e with Types d => d | _ => [] end.
Definition is_online (p : Phase) : bool := match p with Online _ _ => true | _ => false end.
Definition lossless (e : event) : Prop := match e with WriterDies | Reconnects _ _ _ => False | _ => True end.
Record kept (s : Sys) (e : event) (s' : Sys) : Prop := {
  kept_tidy : tidy s';
  kept_order : flight s' `sublist_of` flight s ++ new_bytes e;
  kept_all : lossless e -> is_online (phase s') = true -> flight s' = flight s ++ new_bytes e;
}.
Lemma kept_same s e s' : tidy s' -> flight s' = flight s ++ new_bytes e -> kept s e s'.
Proof. intros Ht He. split; [done|by rewrite He|done]. Qed.
Lemma held_sub (a b c d d' e : bytes) : d' `sublist_of` d -> a ++ b ++ c ++ d' ++ e `sublist_of` a ++ b ++ c ++ d ++ e.
Proof. intros. repeat apply sublist_app; done. Qed.

(** The client's loop: a branch that goes on hands its chunk to the queue; one that ends
    the loop leaves at most the chunk the writer reported. *)
Lemma kept_branch s s0 errs errs' c b now r e data :
  phase s = Online c errs -> tidy s -> client_branch_step false true now c b = Some r ->
  (b = Stdin data /\ errs' = errs /\ stdin s = data :: stdin s0 \/ (exists chunk, b = WriterError chunk /\ errs = chunk :: errs' /\ stdin s0 = stdin s /\ data = []) \/
   (match b with Stdin _ | WriterError _ => False | _ => True end /\ errs' = errs /\ stdin s0 = stdin s /\ data = [])) ->
  written s0 = written s -> input_q s0 = input_q s -> atts s0 = atts s -> new_bytes e = [] ->
  kept s e (after_branch s0 errs' r).
Proof.
  intros Hp Ht Hs Hb Hw Hi Hat Hn. unfold tidy in Ht. rewrite Hp in Ht. destruct Ht as (Hu & Hopen & Hq). destruct r as [c' o].
  assert (flight s = written s0 ++ mjoin (input_q s0) ++ ins (newest_wire s0) ++ (mjoin errs ++ ins (send_q c)) ++ data ++ mjoin (stdin s0)) as Hf.
  { unfold flight, newest_wire. rewrite Hp, Hw, Hi, Hat. cbn [held]. do 4 f_equal. destruct Hb as [(-> & -> & ->)|[(ch & -> & -> & -> & ->)|(_ & -> & -> & ->)]]; done. }
  destruct o as [o|].
  - assert (held match o with Returns Disconnected => Reconnecting (replay c') [] | _ => Ended end `sublist_of` (mjoin errs ++ ins (send_q c)) ++ data) as Hh.
    { destruct o as [[|]|]; cbn [held]; try apply sublist_nil_l. rewrite app_nil_r.
      assert (unsent (replay c') = [] \/ exists chunk, b = WriterError chunk /\ unsent (replay c') = chunk) as [->|(ch & -> & ->)]; [|apply sublist_nil_l|].
      - destruct b as [d| |m|[[[[]]]|]| | | | |]; cbn in Hs; simplify_eq/=; try (right; eauto; fail); left; repeat case_match; simplify_eq/=; rewrite ?observe_unsent; try done.
        unfold from_host in Hs. destruct m as [[]|]; cbn in Hs; repeat case_match; by simplify_eq/=.
      - destruct Hb as [(? & _)|[(ch' & [= ->] & -> & _)|(? & _)]]; [done| |done]. cbn. rewrite <-!(assoc (++)). by apply sublist_inserts_r. }
    split; cbn [after_branch phase].
    + by destruct o as [[|]|].
    + rewrite Hn, app_nil_r, Hf. unfold flight, newest_wire. cbn [after_branch written input_q atts stdin phase].
      rewrite (assoc (++) (mjoin errs ++ _)). replace (match o with Returns (Exited _) => Ended | Returns Disconnected => Reconnecting (replay c') [] | Panics => Ended end)
        with (match o with Returns Disconnected => Reconnecting (replay c') [] | _ => Ended end) by (by destruct o as [[]|]). by apply held_sub.
    + by destruct o as [[|]|].
  - assert (match b with WriterError _ => False | _ => True end) as Hnw by (by destruct b).
    destruct (branch_goes_on _ _ _ _ Hs Hu Hq Hnw) as (Hin & Hu' & Hwo & Hq'). apply kept_same.
    + unfold tidy. cbn. split_and!; [done| |done]. rewrite Hwo. intros He. apply Hopen. destruct Hb as [(_ & -> & _)|[(? & -> & _)|(_ & -> & _)]]; done.
    + rewrite Hn, app_nil_r, Hf. unfold flight, newest_wire. cbn [after_branch written input_q atts stdin phase held]. rewrite Hin. do 3 f_equal.
      destruct Hb as [(-> & -> & _)|[(? & -> & _)|(Hb & -> & _ & ->)]]; [by rewrite <-!(assoc (++))|done|]. destruct b; by rewrite ?app_nil_r.
Qed.

Lemma client_message_input h m : mjoin (pty_input (client_message h m)) = mjoin (pty_input h) ++ unsent_of m.
Proof. destruct m; cbn; rewrite ?app_nil_r; try done. by rewrite join_app; cbn; rewrite app_nil_r. Qed.
Lemma host_handles_flight s a l w q d m :
  atts s = a :: l -> flight (host_handles s 0 {| wire := w; side := side a |} q d m) =
    written s ++ mjoin (input_q s) ++ (match m with Some m => unsent_of m | None => [] end) ++ ins w ++ held (phase s) ++ mjoin (stdin s).
Proof.
  intros Ha. unfold flight, newest_wire, host_handles. cbn [written input_q atts phase stdin set_att set_atts]. rewrite Ha. cbn [insert list_insert wire].
  destruct m as [m|]; [rewrite client_message_input|]; cbn [pty_input]; by rewrite <-?(assoc (++)).
Qed.
Lemma read_setup_ins n : forall w sz vs, let '(_, _, lo, rest) := read_setup n w sz vs in ins w = (match lo with Some m => unsent_of m | None => [] end) ++ ins rest.
Proof. induction n as [|n IH]; intros w sz vs; [done|]. destruct w as [|[] w]; cbn [read_setup]; try done; rewrite ins_cons; apply IH. Qed.
Lemma filter_replay_sub r l : filter_replay r l `sublist_of` l.
Proof. unfold filter_replay. destruct (negb _); [apply sublist_nil_l|]. destruct (find_subslice _ _); [apply sublist_take|done]. Qed.

Lemma step_kept s e s' : tidy s -> current e -> plain_setup e -> step s e = Some s' -> kept s e s'.
Proof.
  intros Ht Hc Hps Hs. destruct e as [d|now|now|now b| | |i seen now|i now|i| | |quick now setup]; cbn [step] in Hs.
  - simplify_eq. apply kept_same; [done|]. unfold flight. cbn. rewrite join_app. cbn. rewrite app_nil_r. by rewrite <-!(assoc (++)).
  - destruct (phase s) as [c errs| |] eqn:Ep; [|done|done]. destruct (stdin s) as [|data q] eqn:Eq; [done|]. apply fmap_Some in Hs as (r & Eb & ->).
    eapply kept_branch; try done. left. by rewrite Eq.
  - destruct (phase s) as [c [|chunk errs]| |] eqn:Ep; [done| |done|done]. apply fmap_Some in Hs as (r & Eb & ->).
    eapply (kept_branch s s _ errs); try done. right; left. by exists chunk.
  - destruct (phase s) as [c errs| |] eqn:Ep; [|by destruct b|by destruct b].
    assert (match b with Stdin _ | WriterError _ => False | _ => True end) as Hb by (by destruct b).
    assert (after_branch s errs <$> client_branch_step false true now c b = Some s') as Hs' by (by destruct b).
    apply fmap_Some in Hs' as (r & Eb & ->). eapply kept_branch; try done. by right; right.
  - destruct (phase s) as [c errs| |] eqn:Ep; [|done|done]. destruct (atts s) as [|a l] eqn:Ea; [done|]. unfold writer_takes in Hs.
    destruct (writer_open c) eqn:Ew; [|done]. destruct (send_q c) as [|m q] eqn:Eq; [done|]. simplify_eq/=. unfold tidy in Ht. rewrite Ep in Ht. destruct Ht as (Hu & Ho & Hq). apply kept_same.
    + unfold tidy. cbn. rewrite Ew. split_and!; try done. intros He. by rewrite (Ho He) in Ew.
    + assert (errs = []) as -> by (destruct errs; [done|]; by rewrite Ho in Ew).
      unfold flight, newest_wire. rewrite Ep, Ea, app_nil_r. cbn -[ins]. rewrite Eq, ins_app, !ins_cons, ins_nil, app_nil_r. by rewrite <-!(assoc (++)).
  - destruct (phase s) as [c errs| |] eqn:Ep; [|done|done]. unfold writer_takes in Hs. destruct (writer_open c) eqn:Ew; [|done]. destruct (send_q c) as [|m q] eqn:Eq; [done|]. simplify_eq/=.
    unfold tidy in Ht. rewrite Ep in Ht. destruct Ht as (Hu & Ho & Hq). split; [unfold tidy; cbn; done| |done].
    unfold flight, newest_wire. rewrite Ep, app_nil_r. cbn [set_phase written input_q atts phase stdin held writer_ends send_q]. rewrite Eq, join_app, ins_cons. cbn. rewrite !app_nil_r. apply held_sub.
    apply sublist_app; [done|]. by apply sublist_inserts_r.
  - cbn in Hc. subst i. destruct (atts s) as [|a l] eqn:Ea; [done|]. cbn [lookup list_lookup] in Hs. destruct (side a) eqn:Esd; [|done|done].
    pose proof (read_setup_ins 2 (take seen (wire a)) default_size []) as Hr. unfold read_setup_messages in Hs. destruct (read_setup _ _ _ _) as [[[sz vs] lo] rest]. injection Hs as <-.
    apply kept_same; [done|]. rewrite <-Esd, (host_handles_flight s a l _ _ _ lo Ea). unfold flight, newest_wire. rewrite Ea, app_nil_r.
    rewrite <-(take_drop seen (wire a)) at 2. rewrite !ins_app, Hr. by rewrite <-!(assoc (++)).
  - cbn in Hc. subst i. destruct (atts s) as [|a l] eqn:Ea; [done|]. cbn [lookup list_lookup] in Hs. destruct (side a) as [|q dl|] eqn:Esd; [done| |done]. destruct (wire a) as [|m w] eqn:Ew; [done|]. injection Hs as <-.
    apply kept_same; [done|]. rewrite <-Esd, (host_handles_flight s a l _ _ _ (Some m) Ea). unfold flight, newest_wire. by rewrite Ea, app_nil_r, Ew, ins_cons, <-!(assoc (++)).
  - apply bind_Some in Hs as (a & Ha & Hs). simplify_eq/=. apply kept_same; [done|]. rewrite app_nil_r. unfold flight. do 3 f_equal. unfold newest_wire, set_att, set_atts. cbn [atts].
    destruct (atts s) as [|a0 l]; [done|]. destruct i; [by cbn in Ha |- *; simplify_eq|done].
  - destruct (input_q s) as [|d q] eqn:Eq; [done|]. simplify_eq/=. apply kept_same; [done|]. unfold flight, newest_wire. cbn. rewrite Eq, app_nil_r. cbn. by rewrite <-!(assoc (++)).
  - destruct (phase s) as [|r p|] eqn:Ep; [done| |done]. destruct (stdin s) as [|d q] eqn:Eq; [done|].
    assert (exists p' act, classify_chunk d p = (act, p') /\ p' `sublist_of` p ++ d) as (p' & act & Ecl & Hp').
    { unfold classify_chunk. repeat case_match; eexists _, _; (split; [reflexivity|]); try done; by apply sublist_inserts_r. }
    rewrite Ecl in Hs. assert (flight s' `sublist_of` flight s) as Hsub; [|split; [|by rewrite app_nil_r|]; by destruct act; simplify_eq/=].
    unfold flight, newest_wire. rewrite Ep, Eq. cbn [mjoin list_join]. destruct act; simplify_eq/=; rewrite (assoc (++) (unsent r ++ p)).
    + apply (held_sub _ _ _ _ []), sublist_nil_l.
    + apply held_sub. rewrite <-(assoc (++)). by apply sublist_app.
    + apply held_sub. rewrite <-(assoc (++)). by apply sublist_app.
  - destruct (phase s) as [|r p|] eqn:Ep; [done| |done]. cbv zeta in Hs. unfold to_send in Hs. destruct (take_unsent r) as [lost r'] eqn:Et. unfold take_unsent in Et. simplify_eq/=. split; [| |done].
    + unfold tidy. cbn. split_and!; [|done|done]. case_match; by rewrite ?observe_unsent.
    + unfold flight, newest_wire. rewrite Ep, app_nil_r. cbn [written input_q atts phase stdin held client_start send_q wire mjoin list_join]. rewrite Hps.
      set (p' := if quick then p else p ++ mjoin (stdin s)). set (first := if quick then unsent r ++ p' else _).
      assert (first ++ mjoin (if quick then stdin s else []) `sublist_of` (unsent r ++ p) ++ mjoin (stdin s)) as Hfirst.
      { unfold first, p'. destruct quick; [done|]. cbn [mjoin list_join]. rewrite app_nil_r, <-(assoc (++)). apply filter_replay_sub. }
      assert (forall b : bool, ins ((if echoes s then [Ping] else []) ++ (if b then [Input first] else [])) = if b then first else []) as Hi.
      { intros b. destruct (echoes s), b; cbn; by rewrite ?app_nil_r. }
      rewrite Hi. apply sublist_app; [done|]. apply sublist_app; [done|]. cbn [app]. apply sublist_inserts_l.
      etrans; [|exact Hfirst]. apply sublist_app; [|done]. clearbody first. destruct (_ && _); [done|apply sublist_nil_l].
Qed.

Lemma steps_kept es : forall s s' sofar, tidy s -> Forall current es -> Forall plain_setup es -> steps s es = Some s' ->
  (flight s `sublist_of` sofar -> flight s' `sublist_of` sofar ++ typed es) /\
  (Forall lossless es -> is_online (phase s') = true -> is_online (phase s) = true /\ flight s' = flight s ++ typed es).
Proof.
  induction es as [|e es IH]; intros s s' sofar Ht Hc Hp Hs; [cbn in Hs; simplify_eq; by rewrite !app_nil_r|].
  inversion Hc as [|?? Hce Hces]; inversion Hp as [|?? Hpe Hpes]; subst. cbn [steps] in Hs. apply bind_Some in Hs as (s1 & H1 & Hs).
  destruct (step_kept _ _ _ Ht Hce Hpe H1) as [Ht1 Ho1 Ha1].
  assert (typed (e :: es) = new_bytes e ++ typed es) as -> by (by destruct e). rewrite (assoc (++)). split.
  - intros Hsub. apply (IH s1 s' _ Ht1 Hces Hpes Hs). etrans; [exact Ho1|]. by apply sublist_app.
  - intros Hl Hon. inversion Hl as [|?? Hle Hles]; subst. destruct (IH s1 s' [] Ht1 Hces Hpes Hs) as [_ IHa]. destruct (IHa Hles Hon) as [Hon1 Hf1].
    rewrite Hf1, (Ha1 Hle Hon1), <-(assoc (++)). split; [|done]. destruct e; cbn in H1; try (by destruct (phase s)); try done.
    + by simplify_eq/=.
    + destruct (phase s) eqn:Ep; [done|by destruct b|by destruct b].
    + repeat case_match; by simplify_eq/=.
    + repeat case_match; by simplify_eq/=.
    + apply bind_Some in H1 as (a & _ & H1). by simplify_eq/=.
    + case_match; [done|]. by simplify_eq/=.
    + repeat case_match; by simplify_eq/=.
Qed.

(** C33.  Whatever the two loops, the writers and the terminals do, and through any number of
    reconnects, the shell is given keystrokes in the order they were typed and none twice,
    as long as the host reads from the newest attachment only.  As long as no writer fails,
    no reconnect happens and the client is online, none is lost: what was typed is what the shell was given
    followed by what waits in the queues on the way. *)
Theorem keystrokes_in_order t0 setup es s :
  ins setup = [] -> Forall current es -> Forall plain_setup es -> steps (boot t0 setup) es = Some s ->
  written s `sublist_of` typed es /\
  (Forall lossless es -> is_online (phase s) = true ->
   typed es = written s ++ mjoin (input_q s) ++ ins (newest_wire s) ++ held (phase s) ++ mjoin (stdin s)).
Proof.
  intros Hi Hc Hp Hs. assert (flight (boot t0 setup) = []) as H0 by (unfold flight, newest_wire; cbn -[ins]; by rewrite Hi).
  assert (tidy (boot t0 setup)) as Ht0 by (unfold tidy; cbn; split_and!; done).
  destruct (steps_kept es (boot t0 setup) s [] Ht0 Hc Hp Hs) as [Hsub Hall]. split.
  - etrans; [|apply Hsub; by rewrite H0]. unfold flight. by apply sublist_inserts_r.
  - intros Hl Hon. destruct (Hall Hl Hon) as [_ Hf]. by rewrite H0 in Hf.
Qed.

(** Types, sends and delivers one chunk. *)
Definition deliver (now : Z) (d : bytes) : list event := [Types d; TakeStdin now; WriterWrites; HostReads 0 now; PtyTakes].
Definition setup_messages : list ClientMessage := [WindowSize 80 24 0 0; SetEnv []].
Definition typed_twice : list event := Attaches 0 2 0 :: deliver 1 [108; 115] ++ deliver 2 [13].
Lemma keystrokes_in_order_witness : exists s, steps (boot 0 setup_messages) typed_twice = Some s /\ written s = [108; 115; 13] /\
  written s `sublist_of` typed typed_twice /\ typed typed_twice = written s ++ mjoin (input_q s) ++ ins (newest_wire s) ++ held (phase s) ++ mjoin (stdin s).
Proof.
  assert (exists s, steps (boot 0 setup_messages) typed_twice = Some s /\ written s = [108; 115; 13] /\ is_online (phase s) = true) as (s & Hs & Hw & Ho).
  { eexists. split; [vm_compute; reflexivity|]. by vm_compute. }
  assert (Forall current typed_twice) as Hc by (repeat constructor). assert (Forall plain_setup typed_twice) as Hp by (repeat constructor).
  assert (Forall lossless typed_twice) as Hl by (repeat constructor).
  exists s. split; [exact Hs|]. split; [exact Hw|].
  destruct (keystrokes_in_order 0 setup_messages typed_twice s eq_refl Hc Hp Hs) as [H1 H2]. split; [exact H1|exact (H2 Hl Ho)].
Defined.

(** ** What a reconnect loses *)
(** The chunk that could not be sent is the one the dialog's replay was made for, but it
    has been counted as sent: when it closes the paste the host is in, the record says the
    paste is over, and nothing is replayed, neither the chunk with the end marker nor
    anything typed since.  The host stays inside the paste. *)
Theorem closing_chunk_never_replayed r delivered chunk pending :
  follows r delivered -> open_paste delivered -> ~ open_paste (delivered ++ chunk) ->
  (to_send false (record_unsent (observe r chunk) chunk) pending).2 = [].
Proof.
  intros Hf Ho Hn. pose proof (observe_follows r delivered chunk Hf) as Hf'. unfold to_send, filter_replay. cbn [take_unsent record_unsent in_paste snd].
  destruct (in_paste (observe r chunk)) eqn:E; [|done]. destruct Hn. by apply (follows_open (observe r chunk)).
Qed.
(** A paste whose end marker is not sent, and a reconnect through the dialog. *)
Definition cut_paste : list event :=
  Attaches 0 2 0 :: deliver 1 (PASTE_START ++ [97]) ++ [Types PASTE_END; TakeStdin 2; WriterDies; TakeError 2; Reconnects false 20 setup_messages; Attaches 0 2 20] ++ deliver 21 [27].
Lemma closing_chunk_never_replayed_witness :
  (to_send false (record_unsent (observe (observe InputReplay_default (PASTE_START ++ [97])) PASTE_END) PASTE_END) [120]).2 = [] /\
  exists s, steps (boot 0 setup_messages) cut_paste = Some s /\ written s = PASTE_START ++ [97] ++ [27] /\ inside_bracketed_paste (written s) = true /\
    inside_bracketed_paste (typed cut_paste) = false.
Proof.
  split.
  - apply (closing_chunk_never_replayed (observe InputReplay_default (PASTE_START ++ [97])) (PASTE_START ++ [97]) PASTE_END [120]).
    + apply (observe_follows InputReplay_default []). exact follows_default.
    + exists [], [97]. split; [done|]. intros (x & y & E). apply (f_equal length) in E. rewrite !length_app in E. cbn in E. lia.
    + apply ends_closed.
  - eexists. split; [vm_compute; reflexivity|]. by vm_compute.
Defined.

(** Only one chunk is carried over: when a write fails, what was typed behind it and
    already queued is lost, even by a quick reconnect, which promises to deliver
    everything; and when the session is given up for another reason than a failed write
    the chunk being written is lost as well. *)
Theorem queued_keystrokes_lost :
  (exists s, steps (boot 0 setup_messages)
     [Attaches 0 2 0; Types [97]; TakeStdin 1; Types [98]; TakeStdin 1; WriterDies; TakeError 2; Reconnects true 3 setup_messages; Attaches 0 2 3; WriterWrites; HostReads 0 4; PtyTakes] = Some s /\
     flight s = [97] /\ written s = [97]) /\
  (exists s, steps (boot 0 setup_messages)
     [Attaches 0 2 0; Types [97]; TakeStdin 1; Branch 31 DeadlineElapsed; Reconnects true 32 setup_messages; Attaches 0 2 32] = Some s /\ flight s = []).
Proof. split; (eexists; split; [vm_compute; reflexivity|]; by vm_compute). Qed.

(** An attachment that was replaced still feeds the shell: its loop goes on reading for
    up to 75 seconds, so a keystroke delayed on the old stream arrives after later ones. *)
Theorem replaced_attachment_types :
  exists s, steps (boot 0 setup_messages)
    ([Attaches 0 2 0; Types [97]; TakeStdin 1; WriterWrites; Branch 40 DeadlineElapsed; Reconnects true 41 setup_messages; Attaches 0 2 41] ++
     deliver 42 [98] ++ [HostReads 1 43; PtyTakes]) = Some s /\ written s = [98; 97].
Proof. eexists. split; [vm_compute; reflexivity|]. by vm_compute. Qed.

(** ** The first protocol's loop *)
(** [host_shell_session] hands every input message to a blocking task of its own; the tasks
    run when the pool gets to them. *)
Inductive legacy_event := LegacyInput (data : bytes) | TaskRuns (i : nat).
Fixpoint legacy_run (tasks : list bytes) (out : bytes) (es : list legacy_event) : option (list bytes * bytes) :=
  match es with
  | [] => Some (tasks, out)
  | LegacyInput d :: es => legacy_run (tasks ++ [d]) out es
  | TaskRuns i :: es => d ← tasks !! i; legacy_run (delete i tasks) (out ++ d) es
  end.
(** Two keystrokes can swap. *)
Lemma legacy_input_reordered : legacy_run [] [] [LegacyInput [97]; LegacyInput [98]; TaskRuns 1; TaskRuns 0] = Some ([], [98; 97]).
Proof. done. Qed.
