(* ===== verification/ShellOutput.v ===== *)
(** * ShellOutput: from the shell's terminal to the attached client (shell/mod.rs)

    The task that reads the terminal feeds the screen and then the channel of whoever is
    attached at that moment; an attachment takes over the route, repaints from the screen
    if it resumes, and forwards what its channel holds.  A session starts with nobody on
    the route: its terminal's reader is running before its first client is routed.  The steps are the points between
    which the tasks can interleave.  [render] is what a repaint writes for a screen that
    was fed the given chunks (Vt.v). *)
From S2P Require Import Prelude.
Local Open Scope Z_scope.

Definition CHANNEL : nat := 64.
(** The reader between two of its awaits: it has fed the chunk to the screen and not yet
    looked at the route, or is waiting for room in a channel. *)
Inductive Reader := Idle | Routing (d : bytes) | Sending (d : bytes) (i : nat).
(** [painted] and [forwarded] are the outputs sent to the client; [basis] is how much of the
    output the repaint shows, once there was one. *)
Record Att := { painted : list bytes; forwarded : list bytes; chan : list bytes; rx_open : bool; basis : option nat }.
Record Sys := { history : list bytes; reader : Reader; route : option nat; atts : list Att }.

Inductive event :=
| ReadChunk (d : bytes)
| LookUpRoute
| SendChunk
| FirstAttach
| Attach
| Repaint (i : nat)
| Forward (i : nat)
| Detach (i : nat)
| ExitSeen (i : nat).

Definition set_reader (s : Sys) (r : Reader) : Sys := {| history := history s; reader := r; route := route s; atts := atts s |}.
Definition set_att (s : Sys) (i : nat) (a : Att) : Sys := {| history := history s; reader := reader s; route := route s; atts := <[i := a]> (atts s) |}.
Definition push_chunk (a : Att) (d : bytes) : Att := {| painted := painted a; forwarded := forwarded a; chan := chan a ++ [d]; rx_open := rx_open a; basis := basis a |}.
Definition new_att : Att := {| painted := []; forwarded := []; chan := []; rx_open := true; basis := None |}.
(** The client a session was started for gets no repaint. *)
Definition first_att : Att := {| painted := []; forwarded := []; chan := []; rx_open := true; basis := Some 0%nat |}.

Section Machine.
Context (render : list bytes -> bytes).

Definition step (s : Sys) (e : event) : option Sys :=
  match e with
  | ReadChunk d =>
      match reader s with Idle => Some {| history := history s ++ [d]; reader := Routing d; route := route s; atts := atts s |} | _ => None end
  | LookUpRoute =>
      match reader s with Routing d => Some (set_reader s (match route s with Some i => Sending d i | None => Idle end)) | _ => None end
  | SendChunk =>
      match reader s with
      | Sending d i =>
          match atts s !! i with
          | Some a =>
              if rx_open a then if (length (chan a) <? CHANNEL)%nat then Some (set_reader (set_att s i (push_chunk a d)) Idle) else None
              else Some (set_reader s Idle)
          | None => None
          end
      | _ => None
      end
  | FirstAttach =>
      match atts s with
      | [] => Some {| history := history s; reader := reader s; route := Some 0%nat; atts := [first_att] |}
      | _ => None
      end
  | Attach =>
      if bool_decide (atts s = []) then None
      else Some {| history := history s; reader := reader s; route := Some (length (atts s)); atts := atts s ++ [new_att] |}
  | Repaint i =>
      match atts s !! i with
      | Some a =>
          match basis a with
          | None => Some (set_att s i {| painted := [render (history s)]; forwarded := forwarded a; chan := chan a; rx_open := rx_open a; basis := Some (length (history s)) |})
          | Some _ => None
          end
      | None => None
      end
  | Forward i =>
      match atts s !! i with
      | Some a =>
          match basis a, chan a with
          | Some n, d :: q => if rx_open a then Some (set_att s i {| painted := painted a; forwarded := forwarded a ++ [d]; chan := q; rx_open := true; basis := Some n |}) else None
          | _, _ => None
          end
      | None => None
      end
  | Detach i =>
      match atts s !! i with
      | Some a =>
          Some {| history := history s; reader := reader s; route := if bool_decide (route s = Some i) then None else route s;
                  atts := <[i := {| painted := painted a; forwarded := forwarded a; chan := []; rx_open := false; basis := basis a |}]> (atts s) |}
      | None => None
      end
  | ExitSeen i =>
      match atts s !! i with
      | Some a => if rx_open a then Some (set_att s i {| painted := painted a; forwarded := forwarded a ++ chan a; chan := []; rx_open := false; basis := basis a |}) else None
      | None => None
      end
  end.
Fixpoint steps (s : Sys) (es : list event) : option Sys := match es with [] => Some s | e :: es => s ← step s e; steps s es end.
(** A new session: the terminal's reader runs and the route is empty. *)
Definition boot : Sys := {| history := []; reader := Idle; route := None; atts := [] |}.
(** The chunks that were dropped before the first client was routed. *)
Fixpoint early (es : list event) : nat :=
  match es with [] | FirstAttach :: _ => 0%nat | LookUpRoute :: es => S (early es) | _ :: es => early es end.

Section Served.
(** ** Nothing is missing *)
(** The chunk the reader holds that attachment [i] will get. *)
Definition in_hand (s : Sys) (i : nat) : list bytes :=
  match reader s with Routing d => [d] | Sending d j => if bool_decide (j = i) then [d] else [] | Idle => [] end.
Definition owed (s : Sys) (i : nat) (a : Att) : list bytes := forwarded a ++ chan a ++ in_hand s i.
(** Attachment [i] gets everything from chunk [m] on, and its repaint shows at least the
    chunks before; the first client, which gets none, is missing the [lost] chunks. *)
Context (lost : nat).
Record served (s : Sys) (i : nat) (a : Att) (m : nat) : Prop := {
  served_owed : owed s i a = drop m (history s);
  served_from : (m <= length (history s))%nat;
  served_basis : match basis a with
                 | Some n => painted a = [] /\ m = lost \/ painted a <> [] /\ (m <= n <= length (history s))%nat
                 | None => forwarded a = [] end;
}.
Definition well_routed (s : Sys) : Prop :=
  match reader s with Idle => True | Routing d => exists h, history s = h ++ [d] | Sending _ i => (i < length (atts s))%nat end /\
  match route s with Some i => exists a, atts s !! i = Some a /\ (rx_open a = true -> exists m, served s i a m) | None => True end.
Lemma set_reader_served s i a m r : served s i a m -> in_hand (set_reader s r) i = in_hand s i -> served (set_reader s r) i a m.
Proof. intros [H1 H2 H3] Hi. split; [|done|done]. unfold owed. by rewrite Hi. Qed.

Lemma read_well_routed s d : reader s = Idle -> well_routed s ->
  well_routed {| history := history s ++ [d]; reader := Routing d; route := route s; atts := atts s |}.
Proof.
  intros Er [_ Hro]. split; [cbn; eauto|]. cbn [route atts]. destruct (route s) as [i|]; [|done]. destruct Hro as (a & Ha & Hm).
  exists a. split; [done|]. intros Ho. destruct (Hm Ho) as (m & [H1 H2 H3]). exists m. split; cbn [history].
  - unfold owed, in_hand in *. rewrite Er, app_nil_r in H1. cbn [reader]. rewrite drop_app_le by done. by rewrite <-H1, <-(assoc (++)).
  - rewrite length_app. cbn. lia.
  - rewrite length_app. destruct (basis a); [destruct H3 as [?|[? ?]]; [by left|right; split; [done|lia]]|done].
Qed.
Lemma look_up_well_routed s d : reader s = Routing d -> well_routed s ->
  well_routed (set_reader s (match route s with Some i => Sending d i | None => Idle end)).
Proof.
  intros Er [_ Hro]. destruct (route s) as [i|] eqn:Ert; [|split; [done|]; cbn; by rewrite Ert]. destruct Hro as (a & Ha & Hm).
  split; [by eapply lookup_lt_Some|]. cbn. rewrite Ert. exists a. split; [done|]. intros Ho. destruct (Hm Ho) as (m & Hv). exists m.
  apply set_reader_served; [done|]. unfold in_hand. cbn. by rewrite Er, bool_decide_true.
Qed.
Lemma send_well_routed s d i a : reader s = Sending d i -> atts s !! i = Some a -> well_routed s ->
  well_routed (if rx_open a then set_reader (set_att s i (push_chunk a d)) Idle else set_reader s Idle).
Proof.
  intros Er Ea [_ Hro].
  assert (forall j a' m, i <> j -> served s j a' m -> served (set_reader s Idle) j a' m) as Hother.
  { intros j a' m Hne Hv. apply set_reader_served; [done|]. unfold in_hand. cbn. by rewrite Er, bool_decide_false. }
  destruct (rx_open a) eqn:Eo; (split; [done|]); cbn [set_reader set_att route atts]; (destruct (route s) as [j|] eqn:Ert; [|done]); destruct Hro as (a' & Ha' & Hm).
  - destruct (decide (i = j)) as [->|Hne].
    + rewrite Ea in Ha'. simplify_eq. exists (push_chunk a' d). rewrite list_lookup_insert_eq by (by eapply lookup_lt_Some). split; [done|]. intros _.
      destruct (Hm Eo) as (m & [H1 H2 H3]). exists m. split; [|done|done]. cbn [history set_reader set_att]. rewrite <-H1. unfold owed, in_hand. cbn. rewrite Er, bool_decide_true by done.
      by rewrite app_nil_r.
    + exists a'. rewrite list_lookup_insert_ne by done. split; [done|]. intros Ho. destruct (Hm Ho) as (m & Hv). destruct (Hother j a' m Hne Hv) as [H1 H2 H3]. by exists m.
  - exists a'. split; [done|]. intros Ho. destruct (decide (i = j)) as [->|Hne]; [rewrite Ea in Ha'; simplify_eq; congruence|].
    destruct (Hm Ho) as (m & Hv). exists m. by apply Hother.
Qed.
Lemma first_well_routed s : match reader s with Idle => lost = length (history s) | Routing d => exists h, history s = h ++ [d] /\ lost = length h | Sending _ _ => False end ->
  well_routed {| history := history s; reader := reader s; route := Some 0%nat; atts := [first_att] |}.
Proof.
  intros Hr. split; cbn [reader history atts route].
  - destruct (reader s); [done|destruct Hr as (h & ? & _); by exists h|done].
  - exists first_att. split; [done|]. intros _. exists lost. destruct (reader s) as [|d|] eqn:Er; [| |done].
    + split; [|cbn; lia|by left]. unfold owed, in_hand. cbn. by rewrite Hr, drop_all.
    + destruct Hr as (h & Hh & ->). split; [|cbn; rewrite Hh, length_app; lia|by left].
      unfold owed, in_hand. cbn. by rewrite Hh, drop_app_length.
Qed.
Lemma attach_well_routed s : well_routed s ->
  well_routed {| history := history s; reader := reader s; route := Some (length (atts s)); atts := atts s ++ [new_att] |}.
Proof.
  intros [Hrd _]. split; cbn [reader history atts route].
  - destruct (reader s); [done|done|]. rewrite length_app. lia.
  - exists new_att. rewrite lookup_app_r, Nat.sub_diag by done. split; [done|]. intros _. destruct (reader s) as [|d|d j] eqn:Er.
    + exists (length (history s)). split; [|done|done]. unfold owed, in_hand. cbn. by rewrite drop_all.
    + destruct Hrd as (h & Hh). exists (length h). split; cbn; rewrite ?Hh, ?length_app; [|lia|done]. unfold owed, in_hand. cbn. by rewrite ?Hh, drop_app_length.
    + exists (length (history s)). split; [|done|done]. unfold owed, in_hand. cbn. rewrite bool_decide_false by lia. by rewrite drop_all.
Qed.
(** Replacing attachment [i] by one that is owed the same keeps what everybody is owed. *)
Lemma set_att_well_routed s i a a' : atts s !! i = Some a -> well_routed s ->
  (rx_open a' = true -> rx_open a = true) -> (forall m, served s i a m -> rx_open a' = true -> served s i a' m) -> well_routed (set_att s i a').
Proof.
  intros Ea [Hrd Hro] Ho Hs. split; cbn [set_att reader history atts route].
  - destruct (reader s); [done|done|]. by rewrite length_insert.
  - destruct (route s) as [j|]; [|done]. destruct Hro as (b & Hb & Hm). destruct (decide (i = j)) as [->|Hne].
    + rewrite Ea in Hb. simplify_eq. exists a'. rewrite list_lookup_insert_eq by (by eapply lookup_lt_Some). split; [done|]. intros Ho'. destruct (Hm (Ho Ho')) as (m & Hv).
      destruct (Hs m Hv Ho') as [H1 H2 H3]. by exists m.
    + exists b. rewrite list_lookup_insert_ne by done. split; [done|]. intros Hob. destruct (Hm Hob) as (m & [H1 H2 H3]). by exists m.
Qed.
Lemma step_well_routed s e s' : atts s <> [] -> well_routed s -> step s e = Some s' -> well_routed s'.
Proof.
  intros Hne Hw Hs. destruct e as [d| | | | |i|i|i|i]; cbn [step] in Hs.
  - destruct (reader s) eqn:Er; [|done|done]. injection Hs as <-. by apply read_well_routed.
  - destruct (reader s) as [|d|] eqn:Er; [done| |done]. injection Hs as <-. by apply look_up_well_routed.
  - destruct (reader s) as [| |d i] eqn:Er; [done|done|]. destruct (atts s !! i) as [a|] eqn:Ea; [|done].
    pose proof (send_well_routed s d i a Er Ea Hw) as Hv. destruct (rx_open a); [destruct (_ <? _)%nat; [|done]|]; by injection Hs as <-.
  - by destruct (atts s).
  - rewrite bool_decide_eq_false_2 in Hs by done. injection Hs as <-. by apply attach_well_routed.
  - destruct (atts s !! i) as [a|] eqn:Ea; [|done]. destruct (basis a) eqn:Eb; [done|]. injection Hs as <-. eapply set_att_well_routed; [done..|]. cbn. intros m [H1 H2 H3] _.
    split; [done|done|]. cbn. right. split; [done|lia].
  - destruct (atts s !! i) as [a|] eqn:Ea; [|done]. destruct (basis a) as [n|] eqn:Eb; [|done]. destruct (chan a) as [|d q] eqn:Eq; [done|]. destruct (rx_open a) eqn:Eo; [|done]. injection Hs as <-.
    eapply set_att_well_routed; [done..|]. cbn. intros m [H1 H2 H3] _. split; [|done|by rewrite Eb in H3]. rewrite <-H1. unfold owed. cbn. rewrite Eq. by rewrite <-(assoc (++)).
  - destruct (atts s !! i) as [a|] eqn:Ea; [|done]. injection Hs as <-. destruct Hw as [Hrd Hro].
    assert (well_routed (set_att s i {| painted := painted a; forwarded := forwarded a; chan := []; rx_open := false; basis := basis a |})) as [Hr' Ht'] by (by eapply set_att_well_routed; [done|split|..]).
    split; [exact Hr'|]. cbn [route atts]. case_bool_decide; [done|exact Ht'].
  - destruct (atts s !! i) as [a|] eqn:Ea; [|done]. destruct (rx_open a) eqn:Eo; [|done]. injection Hs as <-. by eapply set_att_well_routed.
Qed.
Lemma step_keeps_atts s e s' : atts s <> [] -> step s e = Some s' -> atts s' <> [].
Proof.
  intros Hne Hs. assert (forall i a, <[i := a]> (atts s) <> []) as Hi.
  { intros i a E. apply (f_equal length) in E. rewrite length_insert in E. by destruct (atts s). }
  destruct e as [d| | | | |i|i|i|i]; cbn [step] in Hs; repeat (case_match; try done); simplify_eq/=; try done; try apply Hi.
  intros E. by apply app_eq_nil in E as [_ ?].
Qed.
Lemma steps_well_routed es : forall s s', atts s <> [] -> well_routed s -> steps s es = Some s' -> well_routed s'.
Proof.
  induction es as [|e es IH]; intros s s' Hne Hw Hs; cbn [steps] in Hs; [by simplify_eq|]. apply bind_Some in Hs as (s1 & H1 & Hs).
  eapply IH; [by eapply step_keeps_atts|by eapply step_well_routed|done].
Qed.
(** Before the first client: [k] chunks have been dropped. *)
Definition starting (s : Sys) (k : nat) : Prop :=
  atts s = [] /\ route s = None /\
  match reader s with Idle => k = length (history s) | Routing d => exists h, history s = h ++ [d] /\ k = length h | Sending _ _ => False end.
Lemma start_well_routed es : forall s s' k, starting s k -> lost = (k + early es)%nat -> steps s es = Some s' -> well_routed s'.
Proof.
  induction es as [|e es IH]; intros s s' k (Ha & Hr & Hk) Hl Hs; cbn [steps] in Hs.
  { simplify_eq. unfold well_routed. rewrite Hr. split; [|done]. destruct (reader s'); [done|destruct Hk as (h & ? & _); by exists h|done]. }
  apply bind_Some in Hs as (s1 & H1 & Hs). destruct e as [d| | | | |i|i|i|i]; cbn [step early] in H1, Hl.
  - destruct (reader s) eqn:Er; [|done|done]. injection H1 as <-. eapply (IH _ _ k); [|done|done]. split_and!; [done|done|]. cbn. by exists (history s).
  - destruct (reader s) as [|d|] eqn:Er; [done| |done]. rewrite Hr in H1. injection H1 as <-.
    destruct Hk as (h & Hh & ->). eapply (IH _ _ (S (length h))); [|lia|done]. split_and!; [done|done|]. cbn. rewrite Hh, length_app. cbn. lia.
  - destruct (reader s); done.
  - rewrite Ha in H1. injection H1 as <-. refine (steps_well_routed es _ _ _ _ Hs); [done|]. apply first_well_routed.
    replace (k + 0)%nat with k in Hl by lia. by rewrite Hl.
  - by rewrite Ha, bool_decide_eq_true_2 in H1.
  - by rewrite Ha in H1.
  - by rewrite Ha in H1.
  - by rewrite Ha in H1.
  - by rewrite Ha in H1.
Qed.

(** What a repaint shows is what was read by then. *)
Definition painted_ok (s : Sys) : Prop :=
  forall i a, atts s !! i = Some a ->
    match basis a with
    | Some n => i = 0%nat /\ painted a = [] \/ (n <= length (history s))%nat /\ painted a = [render (take n (history s))]
    | None => painted a = []
    end.
Lemma painted_insert s i a0 a' : painted_ok s -> atts s !! i = Some a0 ->
  match basis a' with
  | Some n => i = 0%nat /\ painted a' = [] \/ (n <= length (history s))%nat /\ painted a' = [render (take n (history s))]
  | None => painted a' = []
  end -> painted_ok (set_att s i a').
Proof.
  intros Hp Ha Ha' j a. cbn [set_att atts history]. rewrite list_lookup_insert_Some. intros [(-> & -> & _)|[_ Hj]]; [done|by apply Hp].
Qed.
Lemma step_painted s e s' : painted_ok s -> step s e = Some s' -> painted_ok s'.
Proof.
  intros Hp Hs. destruct e as [d| | | | |i|i|i|i]; cbn [step] in Hs.
  - destruct (reader s); [|done|done]. injection Hs as <-. intros i a Ha. specialize (Hp i a Ha). cbn [history]. destruct (basis a) as [n|]; [|done].
    destruct Hp as [?|[Hn Hp]]; [by left|right]. rewrite length_app, take_app_le by done. split; [lia|done].
  - destruct (reader s); [done| |done]. by injection Hs as <-.
  - destruct (reader s) as [| |d i]; [done|done|]. destruct (atts s !! i) as [a|] eqn:Ea; [|done]. destruct (rx_open a); [destruct (_ <? _)%nat; [|done]|]; injection Hs as <-; [|done].
    exact (painted_insert s i a (push_chunk a d) Hp Ea (Hp i a Ea)).
  - destruct (atts s); [|done]. injection Hs as <-. intros i a [-> <-]%list_lookup_singleton_Some. by left.
  - case_bool_decide; [done|]. injection Hs as <-. intros i a [Ha|[_ [_ <-]%list_lookup_singleton_Some]]%lookup_app_Some; [by apply Hp|done].
  - destruct (atts s !! i) as [a|] eqn:Ea; [|done]. destruct (basis a); [done|]. injection Hs as <-. eapply painted_insert; [done..|]. cbn. right. by rewrite firstn_all.
  - destruct (atts s !! i) as [a|] eqn:Ea; [|done]. pose proof (Hp i a Ea) as Ha. destruct (basis a) as [n|] eqn:Eb; [|done]. destruct (chan a); [done|]. destruct (rx_open a); [|done]. injection Hs as <-.
    by eapply painted_insert.
  - destruct (atts s !! i) as [a|] eqn:Ea; [|done]. injection Hs as <-.
    exact (painted_insert s i a {| painted := painted a; forwarded := forwarded a; chan := []; rx_open := false; basis := basis a |} Hp Ea (Hp i a Ea)).
  - destruct (atts s !! i) as [a|] eqn:Ea; [|done]. destruct (rx_open a); [|done]. injection Hs as <-.
    exact (painted_insert s i a {| painted := painted a; forwarded := forwarded a ++ chan a; chan := []; rx_open := false; basis := basis a |} Hp Ea (Hp i a Ea)).
Qed.
Lemma steps_painted es : forall s s', painted_ok s -> steps s es = Some s' -> painted_ok s'.
Proof.
  induction es as [|e es IH]; intros s s' Hw Hs; cbn [steps] in Hs; [by simplify_eq|]. apply bind_Some in Hs as (s1 & H1 & Hs). eapply IH; [|done]. by eapply step_painted.
Qed.

End Served.

(** C34.  However the reader, the attachments and their repaints interleave, a client that holds the route and
    whose loop has not seen the shell's exit misses nothing from its attachment on: if it resumed, its
    repaint shows the output up to some chunk [n], and what it was forwarded, what waits for it
    and what the reader holds for it are all the chunks from some [m] on, with [m] at most [n].  The client
    the session was started for gets no repaint and all but the chunks read and
    routed before it was put on the route. *)
Theorem resume_misses_nothing es s i a n :
  steps boot es = Some s -> route s = Some i -> atts s !! i = Some a -> rx_open a = true -> basis a = Some n ->
  painted a = [render (take n (history s))] /\
    (exists m, (m <= n <= length (history s))%nat /\ forwarded a ++ chan a ++ in_hand s i = drop m (history s)) \/
  i = 0%nat /\ painted a = [] /\ forwarded a ++ chan a ++ in_hand s i = drop (early es) (history s).
Proof.
  intros Hs Hr Ha Ho Hb.
  assert (painted_ok s) as Hp by (eapply (steps_painted es boot s); [by intros ? ? ?|done]). pose proof (Hp i a Ha) as Hpa. rewrite Hb in Hpa.
  destruct (start_well_routed (early es) es boot s 0) as [_ Hw]; [done|done|done|]. rewrite Hr in Hw. destruct Hw as (a' & Ha' & Hm). rewrite Ha in Ha'. simplify_eq.
  destruct (Hm Ho) as (m & [H1 H2 H3]). rewrite Hb in H3. destruct Hpa as [[-> Hn]|[Hle Hpt]].
  - right. destruct H3 as [[_ ->]|[? _]]; [|done]. by split_and!.
  - left. destruct H3 as [[Hx _]|[_ H3]]; [by rewrite Hx in Hpt|]. split; [done|]. by exists m.
Qed.

(** Output read before the first client is routed never reaches it: it gets no repaint either. *)
Theorem first_output_lost d :
  exists s a, steps boot [ReadChunk d; LookUpRoute; FirstAttach] = Some s /\ atts s !! 0%nat = Some a /\
    painted a = [] /\ forwarded a ++ chan a ++ in_hand s 0 = [] /\ history s = [d].
Proof. eexists _, _. split; [reflexivity|]. by split_and!. Qed.

(** A chunk that arrives between the attachment and its repaint is shown twice: it is
    part of the screen the repaint draws and is forwarded after it. *)
Theorem resume_repeats_output d :
  exists s a, steps boot [FirstAttach; Detach 0; Attach; ReadChunk d; LookUpRoute; SendChunk; Repaint 1; Forward 1] = Some s /\    atts s !! 1%nat = Some a /\ painted a ++ forwarded a = [render [d]; d] /\ history s = [d].
Proof. eexists _, _. split; [reflexivity|]. by split_and!. Qed.

(** The loop ends the session when the shell's exit is reported and sends what its
    channel holds by then: output the reader still has, or has not read yet, is lost. *)
Theorem exit_loses_output d :
  exists s a, steps boot [FirstAttach; ReadChunk d; LookUpRoute; ExitSeen 0; SendChunk] = Some s /\ atts s !! 0%nat = Some a /\ forwarded a = [] /\ chan a = [] /\ history s = [d] /\ reader s = Idle.
Proof. eexists _, _. split; [reflexivity|]. by split_and!. Qed.
End Machine.

Lemma resume_misses_nothing_witness :
  exists s a, steps mjoin boot [FirstAttach; ReadChunk [1]; LookUpRoute; SendChunk; Detach 0; Attach; Repaint 1; ReadChunk [2]; LookUpRoute; SendChunk; Forward 1] = Some s /\    atts s !! 1%nat = Some a /\ painted a = [mjoin [[1]]] /\ exists m, (m <= 1 <= length (history s))%nat /\ forwarded a ++ chan a ++ in_hand s 1 = drop m (history s).
Proof.
  assert (exists s a, steps mjoin boot [FirstAttach; ReadChunk [1]; LookUpRoute; SendChunk; Detach 0; Attach; Repaint 1; ReadChunk [2]; LookUpRoute; SendChunk; Forward 1] = Some s /\    atts s !! 1%nat = Some a /\ painted a = [mjoin [[1]]] /\ route s = Some 1%nat /\ rx_open a = true /\ basis a = Some 1%nat) as (s & a & Hs & Ha & Hp & Hr & Ho & Hb).
  { eexists _, _. split; [vm_compute; reflexivity|]. by split_and!. }
  exists s, a. split; [exact Hs|]. split; [exact Ha|]. split; [exact Hp|].
  destruct (resume_misses_nothing mjoin _ s 1 a 1 Hs Hr Ha Ho Hb) as [[_ H]|[Hx _]]; [exact H|discriminate Hx].
Defined.
