(* ===== verification/Directory.v ===== *)
(** * Directory: where members are (hop-core/src/netdoc/mod.rs)

    What a node reads out of the network document and out of the members' own
    documents to move packets: who owns a virtual address, at which endpoint it is,
    which endpoint may send from it, what a name stands for, which routes are
    offered.  A node holds several replicas, one per namespace, and one store of
    contents: [Node] is the network document of Netdoc.v with the other namespaces,
    the members' documents imported so far and the tables the data plane reads.
    Replication is not a step of the node: theorems quantify over the replicas. *)
From S2P Require Import Prelude Addr Text Vpn Dns Policy Config DocStore Acl Netdoc.
From Stdlib Require Import Ascii.
Local Open Scope Z_scope.

Abbreviation PublicKey := bytes (only parsing).
Abbreviation RelayUrl := string (only parsing).
Abbreviation NamespaceId := Z (only parsing).
Definition Endpoint : Type := PublicKey * option RelayUrl.

Inductive RouteKind := Subnet | ExitRoute.
Record RouteAdvert := { cidr : string; ra_tags : list string; snat : bool; kind : RouteKind; advertised_at : string }.

(** iroh's keys, relay urls and tickets, serde_json on what members publish, and the
    document engine: the namespace a creation yields and whether an import succeeds. *)
Class NetCrates := {
  parse_public_key : string -> option PublicKey;
  print_public_key : PublicKey -> string;
  parse_relay_url : string -> option RelayUrl;
  parse_ticket : string -> option (NamespaceId * list string);
  tags_json : list string -> string;
  parse_tags : string -> option (list string);
  posture_json : gmap string string -> string;
  parse_posture : string -> option (gmap string string);
  route_json : RouteAdvert -> string;
  parse_route : string -> option RouteAdvert;
  create_namespace : gmap NamespaceId Replica -> option NamespaceId;
  create_fresh m id : create_namespace m = Some id -> m !! id = None;
  import_succeeds : NamespaceId -> bool;
}.

(** The orders two of the node's hash maps iterate in. *)
Class DirectoryOrder := {
  iter_docs : gmap string (NamespaceId * list string) -> list (string * (NamespaceId * list string));
  iter_docs_perm m : iter_docs m ≡ₚ map_to_list m;
  iter_owners : gmap Ipv4Addr string -> list (Ipv4Addr * string);
  iter_owners_perm m : iter_owners m ≡ₚ map_to_list m;
  iter_tags : gmap string (list string) -> list (string * list string);
  iter_tags_perm m : iter_tags m ≡ₚ map_to_list m;
}.

Record Node := {
  net : Netdoc;
  endpoint_id : PublicKey;
  spaces : gmap NamespaceId Replica;
  self_ns : option NamespaceId;
  member_docs : gmap string (NamespaceId * list string);
  vpn_local_ip : option Ipv4Addr;
  vpn_peer_ips : gmap string Ipv4Addr;
  vpn_fwd : gmap Ipv4Addr Endpoint;
  vpn_vip_owner : gmap Ipv4Addr string;
  vpn_gateway_cidrs : list GatewayRouteEntry;
  vpn_refresh : bool;
}.
Definition set_net (d : Netdoc) (n : Node) : Node :=
  {| net := d; endpoint_id := endpoint_id n; spaces := spaces n; self_ns := self_ns n; member_docs := member_docs n;
     vpn_local_ip := vpn_local_ip n; vpn_peer_ips := vpn_peer_ips n; vpn_fwd := vpn_fwd n;
     vpn_vip_owner := vpn_vip_owner n; vpn_gateway_cidrs := vpn_gateway_cidrs n; vpn_refresh := vpn_refresh n |}.
Definition set_spaces (m : gmap NamespaceId Replica) (s : option NamespaceId)
    (docs : gmap string (NamespaceId * list string)) (n : Node) : Node :=
  {| net := net n; endpoint_id := endpoint_id n; spaces := m; self_ns := s; member_docs := docs;
     vpn_local_ip := vpn_local_ip n; vpn_peer_ips := vpn_peer_ips n; vpn_fwd := vpn_fwd n;
     vpn_vip_owner := vpn_vip_owner n; vpn_gateway_cidrs := vpn_gateway_cidrs n; vpn_refresh := vpn_refresh n |}.
Definition set_tables (ips : gmap string Ipv4Addr) (fwd : gmap Ipv4Addr Endpoint) (owners : gmap Ipv4Addr string)
    (routes : list GatewayRouteEntry) (n : Node) : Node :=
  {| net := net n; endpoint_id := endpoint_id n; spaces := spaces n; self_ns := self_ns n; member_docs := member_docs n;
     vpn_local_ip := vpn_local_ip n; vpn_peer_ips := ips; vpn_fwd := fwd; vpn_vip_owner := owners;
     vpn_gateway_cidrs := routes; vpn_refresh := vpn_refresh n |}.
Definition notify_refresh (n : Node) : Node :=
  {| net := net n; endpoint_id := endpoint_id n; spaces := spaces n; self_ns := self_ns n; member_docs := member_docs n;
     vpn_local_ip := vpn_local_ip n; vpn_peer_ips := vpn_peer_ips n; vpn_fwd := vpn_fwd n;
     vpn_vip_owner := vpn_vip_owner n; vpn_gateway_cidrs := vpn_gateway_cidrs n; vpn_refresh := true |}.

(** Operations: the state they leave and a value, an error or a panic. *)
Inductive NodeErr := NetError (e : NetErr) | NoSelfDoc | BadTicket | BadEndpoint.
Definition N (A : Type) : Type := Node -> Node * rust NodeErr A.
#[export] Instance N_ret : MRet N := fun A a n => (n, Ok a).
#[export] Instance N_bind : MBind N := fun A B f m n =>
  match m n with (n', Ok a) => f a n' | (n', Err e) => (n', Err e) | (n', Panic) => (n', Panic) end.
Definition nfail {A} (e : NodeErr) : N A := fun n => (n, Err e).
Definition asks {A} (f : Node -> A) : N A := fun n => (n, Ok (f n)).
Definition nmodify (f : Node -> Node) : N unit := fun n => (f n, Ok tt).
Definition lift {A} (r : rust NodeErr A) : N A := fun n => (n, r).
(** An operation on the network document. *)
Definition on_net {A} (m : M A) : N A := fun n =>
  match m (net n) with (d, inr a) => (set_net d n, Ok a) | (d, inl e) => (set_net d n, Err (NetError e)) end.
(** [.ok()] on a result: an error is absence, a panic stays one. *)
Definition ok {A} (m : N A) : N (option A) := fun n =>
  match m n with (n', Ok a) => (n', Ok (Some a)) | (n', Err _) => (n', Ok None) | (n', Panic) => (n', Panic) end.

Definition KEY_VPN_PREFIX : string := "vpn/".
Definition KEY_ROUTE_PREFIX : string := "route/".
Definition HOP_RELAY_URL : string := "https://relay.keik.ai".

(** Associations inserted in order, a later one replacing an earlier. *)
Definition collect_map {K V} `{Countable K} (l : list (K * V)) (m : gmap K V) : gmap K V :=
  foldl (fun m e => <[e.1 := e.2]> m) m l.

Section Directory.
Context `{!ContentHash, !DocCrates, !Clock, !NetCrates, !DirectoryOrder, !UnicodeText, !Cedar}.

(** ** The members' own documents *)
Definition content (n : Node) (r : Rec) : option string := blobs (net n) !! r_hash r.
(** [get_peer(id).await.ok().flatten()]. *)
Definition peer_of (n : Node) (id : string) : option Peer :=
  match (get_peer id (net n)).2 with inr o => o | inl _ => None end.
Definition is_admin_author (n : Node) (a : AuthorId) : bool := bool_decide (a ∈ admin_authors (net n)).

(** [self_doc]: opened, or created and remembered. *)
Definition own_self_doc : N NamespaceId := fun n =>
  match self_ns n with
  | Some id => match spaces n !! id with Some _ => (n, Ok id) | None => (n, Err NoSelfDoc) end
  | None => match create_namespace (spaces n) with
            | Some id => (set_spaces (<[id := ∅]> (spaces n)) (Some id) (member_docs n) n, Ok id)
            | None => (n, Err NoSelfDoc)
            end
  end.

(** [Doc::set_bytes] on a namespace this node can write. *)
Definition put_space (ns : NamespaceId) (k v : string) : N unit := fun n =>
  if decide (v = EmptyString) then (n, Err (NetError EntryIsEmpty)) else
  let d := net n in
  let r := {| r_ts := system_time_now (writes d); r_hash := content_hash v; r_len := Z.of_nat (String.length v) |} in
  let n' := set_net (set_doc (doc d) (<[content_hash v := v]> (blobs d)) (S (writes d)) d) n in
  match doc_put (default ∅ (spaces n !! ns)) (author d) k r with
  | Some m => (set_spaces (<[ns := m]> (spaces n)) (self_ns n) (member_docs n) n', Ok tt)
  | None => (n', Err (NetError NewerEntryExists))
  end.
(** Both documents; failing to write the shared one is only logged. *)
Definition put_self (k v : string) : N unit :=
  ns ← own_self_doc; _ ← put_space ns k v; _ ← ok (on_net (set_bytes k v)); mret tt.

Definition own_vpn_endpoint_value (relay : option RelayUrl) (n : Node) : string :=
  (print_public_key (endpoint_id n) +:+ " " +:+ default EmptyString relay)%string.
Definition register_vpn_endpoint (relay : option RelayUrl) (addr : Ipv4Addr) : N unit :=
  v ← asks (own_vpn_endpoint_value relay);
  ns ← own_self_doc; put_space ns (KEY_VPN_PREFIX +:+ print_ipv4 addr) v.
Definition lowercase (s : string) : string := bytes_str (to_lowercase (str_bytes s)).
Definition register_name (name : string) (addr : Ipv4Addr) : N unit :=
  put_self ("name/" +:+ lowercase name) (print_ipv4 addr).
Definition register_host_tags (id : string) (tags : list string) : N unit :=
  _ ← put_self ("tag/" +:+ id) (tags_json tags); on_net invalidate_reach_cache.
Definition register_posture (id : string) (attrs : gmap string string) : N unit :=
  _ ← put_self ("posture/" +:+ id) (posture_json attrs); on_net invalidate_reach_cache.

(** [cidr.replace('/', "-")]. *)
Fixpoint dash_slashes (s : string) : string :=
  match s with
  | EmptyString => EmptyString
  | String c r => String (if decide (c = "/"%char) then "-"%char else c) (dash_slashes r)
  end.
Definition route_key (id cidr : string) : string := (KEY_ROUTE_PREFIX +:+ id +:+ "/" +:+ dash_slashes cidr)%string.
Definition advertise_route (id : string) (a : RouteAdvert) : N unit :=
  _ ← put_self (route_key id (cidr a)) (route_json a); on_net invalidate_reach_cache.
Definition withdraw_route (id cidr : string) : N unit :=
  _ ← put_self (route_key id cidr) EmptyString; on_net invalidate_reach_cache.

(** [&node_id[..8.min(node_id.len())]]. *)
Definition short_id (id : string) : rust NodeErr string := str_slice_to id (8 `min` String.length id)%nat.

Definition ticket_of (n : Node) (id : string) : option (NamespaceId * list string) :=
  p ← peer_of n id; t ← self_doc p; parse_ticket t.
(** [member_self_doc]: the cached document, or the one the roster's ticket names,
    opened or imported (an imported namespace starts empty and fills by synchronising). *)
Definition member_self_doc (id : string) : N (option NamespaceId) :=
  _ ← lift (short_id id);
  n ← asks (fun n => n);
  match member_docs n !! id with
  | Some (ns, _) => mret (Some ns)
  | None =>
      match ticket_of n id with
      | None => mret None
      | Some (ns, addrs) =>
          match spaces n !! ns with
          | Some _ =>
              _ ← nmodify (fun n => set_spaces (spaces n) (self_ns n) (<[id := (ns, addrs)]> (member_docs n)) n);
              mret (Some ns)
          | None =>
              if import_succeeds ns then
                _ ← nmodify (fun n => set_spaces (<[ns := ∅]> (spaces n)) (self_ns n)
                                        (<[id := (ns, addrs)]> (member_docs n)) n);
                mret (Some ns)
              else mret None
          end
      end
  end.
Definition evict_member_self_doc (id : string) : N unit :=
  nmodify (fun n => set_spaces (spaces n) (self_ns n) (delete id (member_docs n)) n).

(** ** What the trust anchor records of a member's announcement *)
Definition with_self_doc (p : Peer) (t : string) : Peer :=
  {| node_id := node_id p; name := name p; authorized_at := authorized_at p; last_seen := last_seen p;
     username := username p; role := role p; role_name := role_name p; netdoc_author := netdoc_author p;
     self_doc := Some t; vip := vip p; vpn_endpoint := vpn_endpoint p; site_id := site_id p; sandbox := sandbox p |}.
Definition with_vpn_endpoint (p : Peer) (v : string) : Peer :=
  {| node_id := node_id p; name := name p; authorized_at := authorized_at p; last_seen := last_seen p;
     username := username p; role := role p; role_name := role_name p; netdoc_author := netdoc_author p;
     self_doc := self_doc p; vip := vip p; vpn_endpoint := Some v; site_id := site_id p; sandbox := sandbox p |}.

(** ["<endpoint id> <relay>"]. *)
Definition parse_vpn_endpoint_value (v : string) : option Endpoint :=
  match split_whitespace (utf8_lossy v) with
  | [] => None
  | w :: rest => pk ← parse_public_key w; Some (pk, head rest ≫= parse_relay_url)
  end.

Definition record_field (valid : bool) (bad : NodeErr) (id v : string) (field : Peer -> option string)
    (set : Peer -> string -> Peer) : N bool :=
  n ← asks (fun n => n);
  if negb (is_trust_anchor (net n)) then mret false else
  if negb valid then nfail bad else
  o ← on_net (get_peer id);
  match o with
  | None => mret false
  | Some p => if decide (field p = Some v) then mret true else _ ← on_net (put_peer (set p v)); mret true
  end.
Definition record_peer_self_doc (id t : string) : N bool :=
  record_field (bool_decide (is_Some (parse_ticket t))) BadTicket id t self_doc with_self_doc.
Definition record_peer_vpn_endpoint (id v : string) : N bool :=
  record_field (bool_decide (is_Some (parse_vpn_endpoint_value v))) BadEndpoint id v vpn_endpoint with_vpn_endpoint.

(** ** Owners and endpoints *)
Definition claim_honored (n : Node) (node : string) (a : AuthorId) : bool :=
  self_entry_author_ok (Some node) a (vouched_authors (net n)) (validation_mode (net n)) || is_admin_author n a.

Definition vip_owner (addr : Ipv4Addr) (n : Node) : option string :=
  match find (fun p => bool_decide (vip p = Some (print_ipv4 addr))) (list_peers (net n)) with
  | Some p => Some (node_id p)
  | None =>
      '(a, r) ← get_latest (doc (net n)) (KEY_IP_PREFIX +:+ print_ipv4 addr);
      if rec_empty r then None else
      v ← content n r;
      let node := trim (utf8_lossy v) in
      if claim_honored n node a then Some node else None
  end.

(** The endpoint a replica's newest record at [vpn/<addr>] holds. *)
Definition endpoint_in (m : Replica) (addr : Ipv4Addr) (n : Node) : option Endpoint :=
  '(_, r) ← get_latest m (KEY_VPN_PREFIX +:+ print_ipv4 addr);
  if rec_empty r then None else v ← content n r; parse_vpn_endpoint_value v.
Definition roster_endpoint (id : string) (n : Node) : option Endpoint :=
  p ← peer_of n id; v ← vpn_endpoint p; parse_vpn_endpoint_value v.
Definition node_id_endpoint (id : string) : option Endpoint :=
  pk ← parse_public_key id; Some (pk, parse_relay_url HOP_RELAY_URL).

Definition resolve_endpoint_for (addr : Ipv4Addr) (owner : option string) : N (option Endpoint) :=
  n ← asks (fun n => n);
  match owner ≫= (fun o => roster_endpoint o n) with
  | Some e => mret (Some e)
  | None =>
      sd ← match owner with Some o => member_self_doc o | None => mret None end;
      n ← asks (fun n => n);
      match sd ≫= (fun ns => endpoint_in (default ∅ (spaces n !! ns)) addr n) with
      | Some e => mret (Some e)
      | None =>
          match endpoint_in (doc (net n)) addr n with
          | Some e => mret (Some e)
          | None => mret (owner ≫= node_id_endpoint)
          end
      end
  end.
Definition lookup_vpn_endpoint (addr : Ipv4Addr) : N (option Endpoint) :=
  n ← asks (fun n => n);
  match vpn_fwd n !! addr with
  | Some e => mret (Some e)
  | None => _ ← nmodify notify_refresh; owner ← asks (vip_owner addr); resolve_endpoint_for addr owner
  end.
Definition lookup_endpoint_for_node (id : string) (n : Node) : option Endpoint :=
  match roster_endpoint id n with Some e => Some e | None => node_id_endpoint id end.
Definition resolve_site_endpoint (site : Z) : N (option Endpoint) :=
  o ← ok (on_net (resolve_site_gateway site));
  n ← asks (fun n => n);
  match (node ← mjoin o; p ← peer_of n node; v ← vip p; parse_ipv4 v) with
  | Some addr => o' ← ok (lookup_vpn_endpoint addr); mret (mjoin o')
  | None => mret None
  end.

(** ** The refresh of the data plane's tables *)
Definition owner_claim (n : Node) (e : (AuthorId * string) * Rec) : option (Ipv4Addr * string) :=
  addr ← strip_prefix KEY_IP_PREFIX (utf8_lossy e.1.2) ≫= parse_ipv4;
  v ← content n e.2;
  let node := trim (utf8_lossy v) in
  if claim_honored n node e.1.1 then Some (addr, node) else None.
Definition peer_vip (p : Peer) : option Ipv4Addr := vip p ≫= parse_ipv4.
Definition ip_owners (n : Node) : gmap Ipv4Addr string :=
  collect_map (omap (fun p => a ← peer_vip p; Some (a, node_id p)) (list_peers (net n)))
    (collect_map (omap (owner_claim n) (get_prefix (doc (net n)) KEY_IP_PREFIX)) ∅).
Definition roster_endpoints (n : Node) : list (string * Ipv4Addr) :=
  omap (fun p => a ← peer_vip p; v ← vpn_endpoint p; id ← head (split_whitespace v); Some (id, a)) (list_peers (net n)).
Definition shared_endpoint (n : Node) (e : (AuthorId * string) * Rec) : option (string * Ipv4Addr) :=
  addr ← strip_prefix KEY_VPN_PREFIX (utf8_lossy e.1.2) ≫= parse_ipv4;
  if self_entry_author_ok (ip_owners n !! addr) e.1.1 (vouched_authors (net n)) (validation_mode (net n)) then
    v ← content n e.2; id ← head (split_whitespace (utf8_lossy v)); Some (id, addr)
  else None.
Definition base_ingress (n : Node) : gmap string Ipv4Addr :=
  collect_map (omap (shared_endpoint n) (get_prefix (doc (net n)) KEY_VPN_PREFIX))
    (collect_map (roster_endpoints n) ∅).

(** The id a member's own document gives for its address. *)
Definition self_doc_id (m : Replica) (addr : Ipv4Addr) (n : Node) : option string :=
  '(_, r) ← get_latest m (KEY_VPN_PREFIX +:+ print_ipv4 addr);
  if rec_empty r then None else v ← content n r; head (split_whitespace (utf8_lossy v)).
Definition self_doc_for (addr : Ipv4Addr) (owner : string) : N (option NamespaceId) := fun n =>
  if bool_decide (Some addr = vpn_local_ip n) then ok own_self_doc n else member_self_doc owner n.
Fixpoint override_ingress (l : list (Ipv4Addr * string)) (map : gmap string Ipv4Addr) : N (gmap string Ipv4Addr) :=
  match l with
  | [] => mret map
  | (addr, owner) :: l' =>
      sd ← self_doc_for addr owner;
      n ← asks (fun n => n);
      override_ingress l'
        match sd ≫= (fun ns => self_doc_id (default ∅ (spaces n !! ns)) addr n) with
        | Some id => <[id := addr]> (base.filter (fun e => e.2 <> addr) map)
        | None => map
        end
  end.
Fixpoint resolve_all (l : list (Ipv4Addr * string)) (fwd : gmap Ipv4Addr Endpoint) : N (gmap Ipv4Addr Endpoint) :=
  match l with
  | [] => mret fwd
  | (addr, owner) :: l' =>
      e ← resolve_endpoint_for addr (Some owner);
      resolve_all l' match e with Some e => <[addr := e]> fwd | None => fwd end
  end.

(** ** Tags, posture and the engine of the reach policy *)
Fixpoint list_published {T} (p : string) (parse : string -> T) (l : list ((AuthorId * string) * Rec))
    (out : gmap string T) : N (gmap string T) :=
  match l with
  | [] => mret out
  | e :: l' =>
      match strip_prefix p (utf8_lossy e.1.2) with
      | None => list_published p parse l' out
      | Some node => v ← on_net (get_bytes (r_hash e.2)); list_published p parse l' (<[node := parse v]> out)
      end
  end.
Definition list_host_tags : N (gmap string (list string)) :=
  n ← asks (fun n => n);
  list_published "tag/" (fun v => default [] (parse_tags v)) (get_prefix (doc (net n)) "tag/") ∅.
Definition list_posture : N (gmap string (gmap string string)) :=
  n ← asks (fun n => n);
  list_published "posture/" (fun v => default ∅ (parse_posture v)) (get_prefix (doc (net n)) "posture/") ∅.
Definition get_authored_policy (n : Node) : option string :=
  '(a, r) ← get_latest (doc (net n)) "acl/cedar";
  if (0 <? r_len r) && validate_entry (net n) "acl/cedar" a then utf8_lossy <$> content n r else None.
(** The cached engine and when it was built; it is rebuilt once it is three seconds old (nanoseconds). *)
Definition REACH_CACHE_TTL : Z := 3 * 10 ^ 9.
Definition reach_engine (now : Z) (cache : option (Z * AclEngine)) : N (option (Z * AclEngine) * option AclEngine) :=
  match (x ← cache; if sat_sub now x.1 <? REACH_CACHE_TTL then Some x.2 else None) with
  | Some e => mret (cache, Some e)
  | None =>
      n ← asks (fun n => n);
      tags ← ok list_host_tags;
      posture ← ok list_posture;
      match acl_build (list_peers (net n)) (list_roles (net n)) (iter_tags (default ∅ tags)) (default ∅ posture)
              (get_authored_policy n) with
      | Some e => mret (Some (now, e), Some e)
      | None => mret (cache, None)
      end
  end.

Definition route_allow (eng : AclEngine) (vips : list (Ipv4Addr * string)) (tags : list string) : gset Ipv4Addr :=
  list_to_set (omap (fun x => if reaches_tags eng x.2 tags then Some x.1 else None) vips).
(** One entry of the routes being updated; an allowance is taken by the first route of its CIDR. *)
Fixpoint take_allowances (allow : gmap string (gset Ipv4Addr)) (l : list GatewayRouteEntry) : list GatewayRouteEntry :=
  match l with
  | [] => []
  | r :: l' =>
      match allow !! gr_cidr r with
      | Some s => {| gr_cidr := gr_cidr r; gr_tags := gr_tags r; gr_allowed_vips := s |}
                  :: take_allowances (delete (gr_cidr r) allow) l'
      | None => r :: take_allowances allow l'
      end
  end.
(** [eng] is what [reach_engine] returned. *)
Definition refresh_gateway_acl (eng : option AclEngine) : N unit :=
  n ← asks (fun n => n);
  if negb (existsb (fun r => negb (bool_decide (gr_tags r = []))) (vpn_gateway_cidrs n)) then mret tt else
  vips ← ok (on_net list_virtual_ips);
  let allow := match eng with
               | Some e => collect_map (omap (fun r => if decide (gr_tags r = []) then None
                                                else Some (gr_cidr r, route_allow e (default [] vips) (gr_tags r)))
                             (vpn_gateway_cidrs n)) ∅
               | None => ∅
               end in
  nmodify (fun n => set_tables (vpn_peer_ips n) (vpn_fwd n) (vpn_vip_owner n)
                      (take_allowances allow (vpn_gateway_cidrs n)) n).
Definition set_gateway_routes (routes : list (string * list string)) : N unit :=
  nmodify (fun n => set_tables (vpn_peer_ips n) (vpn_fwd n) (vpn_vip_owner n)
    (map (fun r => {| gr_cidr := r.1; gr_tags := r.2; gr_allowed_vips := ∅ |}) routes) n).

(** The forwarding tables, from the owners just read; kept when there are none. *)
Definition rebuild_forwarding (owners : gmap Ipv4Addr string) : N unit :=
  if bool_decide (owners = ∅) then mret tt else
  fwd ← resolve_all (iter_owners owners) ∅;
  nmodify (fun n => set_tables (vpn_peer_ips n) fwd owners (vpn_gateway_cidrs n) n).
Definition refresh_vpn_peer_ips (eng : option AclEngine) : N unit :=
  owners ← asks ip_owners;
  base ← asks base_ingress;
  ips ← override_ingress (iter_owners owners) base;
  n ← asks (fun n => n);
  if bool_decide (ips = ∅) && negb (bool_decide (vpn_peer_ips n = ∅)) then mret tt else
  _ ← nmodify (fun n => set_tables ips (vpn_fwd n) (vpn_vip_owner n) (vpn_gateway_cidrs n) n);
  _ ← rebuild_forwarding owners;
  refresh_gateway_acl eng.

(** One configured route with the networks it expands to; [gc_app] for a route to a domain. *)
Record GatewayConfig := { gc_cidrs : list string; gc_tags : list string; gc_snat : bool; gc_exit : bool; gc_app : bool }.
Definition adverts (now : string) (c : GatewayConfig) : list RouteAdvert :=
  map (fun x => {| cidr := x; ra_tags := gc_tags c; snat := gc_snat c;
                   kind := if gc_exit c && negb (gc_app c) then ExitRoute else Subnet; advertised_at := now |}) (gc_cidrs c).
(** Those whose advertising succeeded. *)
Fixpoint advertise_all (id : string) (l : list RouteAdvert) : N (list RouteAdvert) :=
  match l with
  | [] => mret []
  | a :: l' => o ← ok (advertise_route id a); rest ← advertise_all id l';
               mret (match o with Some _ => a :: rest | None => rest end)
  end.
(** What the kernel is set up with, if the device is up. *)
Definition setup_gateway_routes (id now : string) (tun_up : bool) (routes : list GatewayConfig) : N (option (list (string * bool))) :=
  if decide (length routes = 0%nat) then mret None else
  advertised ← advertise_all id (List.concat (map (adverts now) routes));
  _ ← set_gateway_routes (map (fun a => (cidr a, ra_tags a)) advertised);
  mret (if tun_up then Some (map (fun a => (cidr a, snat a)) advertised) else None).

(** The domain names are served under. *)
Definition network_domain (n : Node) : string :=
  default "hop"%string
    ('(_, r) ← get_latest (doc (net n)) "network/domain";
     if rec_empty r then None else
     v ← content n r;
     let d := trim (utf8_lossy v) in if decide (d = EmptyString) then None else Some d).
Definition set_network_domain (d : string) : N unit := on_net (set_bytes "network/domain" d).
Definition set_authored_policy (p : string) : N unit :=
  _ ← on_net (set_bytes "acl/cedar" p); on_net invalidate_reach_cache.

(** ** Names *)
Definition name_author_ok (addr : Ipv4Addr) (a : AuthorId) (n : Node) : bool :=
  let bindings := vouched_authors (net n) in
  let owner := '(a', r) ← get_latest (doc (net n)) (KEY_IP_PREFIX +:+ print_ipv4 addr);
               if rec_empty r then None else
               v ← content n r;
               let node := trim (utf8_lossy v) in
               if self_entry_author_ok (Some node) a' bindings Enforce then Some node else None in
  self_entry_author_ok owner a bindings Enforce.
(** The replicas searched: the network document, then the imported documents. *)
Definition searched (n : Node) : list Replica :=
  doc (net n) :: map (fun e => default ∅ (spaces n !! e.2.1)) (iter_docs (member_docs n)).
Fixpoint search_name (k : string) (docs : list Replica) : N (option Ipv4Addr) :=
  match docs with
  | [] => mret None
  | m :: docs' =>
      match get_latest m k with
      | None => search_name k docs'
      | Some (a, r) =>
          if rec_empty r then search_name k docs' else
          v ← on_net (get_bytes (r_hash r));
          match parse_ipv4 (trim (utf8_lossy v)) with
          | None => search_name k docs'
          | Some addr =>
              n ← asks (fun n => n);
              if bool_decide (validation_mode (net n) = Enforce) && negb (name_author_ok addr a n)
              then search_name k docs' else mret (Some addr)
          end
      end
  end.
Definition first_label (s : string) : string := default s (head (split_char "." s)).
Definition roster_name (q : string) (n : Node) : option Ipv4Addr :=
  head (omap (fun p => if decide (lowercase (first_label (name p)) = q) then peer_vip p else None) (list_peers (net n))).
Definition lookup_name (name : string) : N (option Ipv4Addr) :=
  let q := lowercase name in
  n ← asks (fun n => n);
  match roster_name q n with
  | Some vip => mret (Some vip)
  | None => search_name ("name/" +:+ q) (searched n)
  end.
Definition resolve_magicdns (host : string) : N (option IpAddr) :=
  match parse_via_name host with
  | Some (site, ip) =>
      o ← ok (on_net (resolve_site_gateway site));
      match mjoin o with Some _ => mret (Some (IpV6 (via6_encode site ip))) | None => mret None end
  | None => o ← ok (lookup_name host); mret (IpV4 <$> mjoin o)
  end.

(** Published names by address, the first found for an address staying. *)
Definition named_entry (n : Node) (e : (AuthorId * string) * Rec) : option (Ipv4Addr * string) :=
  label ← strip_prefix "name/" (utf8_lossy e.1.2);
  v ← content n e.2;
  addr ← parse_ipv4 (trim (utf8_lossy v));
  if bool_decide (validation_mode (net n) = Enforce) && negb (name_author_ok addr e.1.1 n) then None
  else Some (addr, label).
Fixpoint import_all (l : list Peer) : N unit :=
  match l with
  | [] => mret tt
  | p :: l' => _ ← (if bool_decide (is_Some (self_doc p)) then _ ← member_self_doc (node_id p); mret tt else mret tt);
               import_all l'
  end.
Definition names_by_vip : N (gmap Ipv4Addr string) :=
  n ← asks (fun n => n);
  _ ← import_all (list_peers (net n));
  n ← asks (fun n => n);
  mret (foldl (fun out (e : Ipv4Addr * string) => if decide (is_Some (out !! e.1)) then out else <[e.1 := e.2]> out) ∅
          (List.concat (map (fun m => omap (named_entry n) (get_prefix m "name/")) (searched n)))).
Definition with_name (p : Peer) (s : string) : Peer :=
  {| node_id := node_id p; name := s; authorized_at := authorized_at p; last_seen := last_seen p;
     username := username p; role := role p; role_name := role_name p; netdoc_author := netdoc_author p;
     self_doc := self_doc p; vip := vip p; vpn_endpoint := vpn_endpoint p; site_id := site_id p; sandbox := sandbox p |}.
Definition opaque_name (s : string) : bool := starts_with "peer-" s || starts_with "creator-" s.
Fixpoint rename_peers (by_vip : gmap Ipv4Addr string) (ips : gmap string Ipv4Addr) (l : list Peer) (k : nat) : N nat :=
  match l with
  | [] => mret k
  | p :: l' =>
      match (if opaque_name (name p) then
               a ← match peer_vip p with Some a => Some a | None => ips !! node_id p end;
               h ← by_vip !! a; if decide (h = name p) then None else Some h
             else None) with
      | None => rename_peers by_vip ips l' k
      | Some h => o ← ok (on_net (put_peer (with_name p h)));
                  rename_peers by_vip ips l' (match o with Some _ => S k | None => k end)
      end
  end.
Definition backfill_peer_names : N nat :=
  by_vip ← names_by_vip;
  if decide (by_vip = ∅) then mret 0%nat else
  vips ← ok (on_net list_virtual_ips);
  n ← asks (fun n => n);
  rename_peers by_vip (collect_map (map (fun x => (x.2, x.1)) (default [] vips)) ∅) (list_peers (net n)) 0%nat.

(** ** Routes *)
Fixpoint routes_in (l : list ((AuthorId * string) * Rec)) (out : list (string * RouteAdvert)) :
    N (list (string * RouteAdvert)) :=
  match l with
  | [] => mret out
  | e :: l' =>
      match (rest ← strip_prefix KEY_ROUTE_PREFIX (utf8_lossy e.1.2); split_once "/" rest) with
      | None => routes_in l' out
      | Some (id, _) =>
          v ← on_net (get_bytes (r_hash e.2));
          match parse_route v with
          | None => routes_in l' out
          | Some a => routes_in l' (if existsb (fun x => bool_decide ((x.1, cidr x.2) = (id, cidr a))) out then out
                                    else out ++ [(id, a)])
          end
      end
  end.
Fixpoint routes_of (docs : list Replica) (out : list (string * RouteAdvert)) : N (list (string * RouteAdvert)) :=
  match docs with
  | [] => mret out
  | m :: docs' => out ← routes_in (get_prefix m KEY_ROUTE_PREFIX) out; routes_of docs' out
  end.
Definition list_routes : N (list (string * RouteAdvert)) := n ← asks (fun n => n); routes_of (searched n) [].

(** [HOP_ACCEPT_ROUTES] and [HOP_EXIT_NODE] (non-empty). *)
Definition EXIT_CIDR : string := "0.0.0.0/0".
Fixpoint accept_routes (accept_subnets : bool) (exit_pref : option string) (n : Node) (took_exit : bool)
    (l : list (string * RouteAdvert)) : list (string * Endpoint) :=
  match l with
  | [] => []
  | (gw, a) :: l' =>
      let is_exit := bool_decide (cidr a = EXIT_CIDR) in
      let accept := if is_exit then negb took_exit &&
                        match exit_pref with Some p => bool_decide (p = "auto"%string) || starts_with p gw | None => false end
                    else accept_subnets in
      if bool_decide (gw = print_public_key (endpoint_id n)) || negb accept then
        accept_routes accept_subnets exit_pref n took_exit l'
      else match lookup_endpoint_for_node gw n with
           | Some e => (cidr a, e) :: accept_routes accept_subnets exit_pref n (took_exit || is_exit) l'
           | None => accept_routes accept_subnets exit_pref n took_exit l'
           end
  end.
Definition accepted_route_endpoints (accept_subnets : bool) (exit_pref : option string) : N (list (string * Endpoint)) :=
  if negb accept_subnets && negb (bool_decide (is_Some exit_pref)) then mret [] else
  l ← ok list_routes;
  n ← asks (fun n => n);
  mret (accept_routes accept_subnets exit_pref n false (default [] l)).
End Directory.

(** ** What only grows

    Looking members up imports documents: nothing else of the node changes, and no document
    that was there does. *)
Record extends (n n' : Node) : Prop := {
  ext_net : net n' = net n;
  ext_local : vpn_local_ip n' = vpn_local_ip n;
  ext_spaces : spaces n ⊆ spaces n';
  ext_docs : member_docs n ⊆ member_docs n';
  ext_self ns : self_ns n = Some ns -> self_ns n' = Some ns;
}.
Record grows (n n' : Node) : Prop := {
  grows_ext : extends n n';
  grows_ips : vpn_peer_ips n' = vpn_peer_ips n;
  grows_fwd : vpn_fwd n' = vpn_fwd n;
  grows_owner : vpn_vip_owner n' = vpn_vip_owner n;
  grows_routes : vpn_gateway_cidrs n' = vpn_gateway_cidrs n;
}.
#[export] Instance extends_preorder : PreOrder extends.
Proof.
  split; [intros n; by split|]. intros n1 n2 n3 [] []. split; try congruence; try (by etransitivity); by auto.
Qed.
#[export] Instance grows_preorder : PreOrder grows.
Proof.
  split; [intros n; by split|]. intros n1 n2 n3 [] []. split; try congruence. by etransitivity.
Qed.
Lemma extends_content n n' r : extends n n' -> content n' r = content n r.
Proof. intros He. unfold content. by rewrite (ext_net _ _ He). Qed.
Lemma extends_tables ips fwd owners routes n : extends n (set_tables ips fwd owners routes n).
Proof. by split. Qed.
Create HintDb directory.
#[export] Hint Resolve grows_ext extends_tables : directory.
#[export] Hint Extern 1 (grows ?n ?n) => reflexivity : directory.
#[export] Hint Extern 1 (extends ?n ?n) => reflexivity : directory.

Section Lemmas.
Context `{!ContentHash, !DocCrates, !Clock, !NetCrates, !DirectoryOrder, !UnicodeText, !Cedar}.

Lemma own_self_doc_grows n : grows n (own_self_doc n).1.
Proof.
  unfold own_self_doc. destruct (self_ns n) as [id|] eqn:E; [by destruct (spaces n !! id)|].
  destruct (create_namespace (spaces n)) as [id|] eqn:Ec; [|done]. split; [split|..]; try done; cbn; [|by rewrite E].
  by apply insert_subseteq, create_fresh.
Qed.
Lemma member_self_doc_grows id n : grows n (member_self_doc id n).1.
Proof.
  unfold member_self_doc, mbind, N_bind, lift. destruct (short_id id); [|done..]. cbn [asks].
  destruct (member_docs n !! id) as [[ns addrs]|] eqn:E; [done|].
  destruct (ticket_of n id) as [[ns addrs]|]; [|done]. destruct (spaces n !! ns) eqn:Es.
  - split; [split|..]; try done; cbn. by apply insert_subseteq.
  - destruct (import_succeeds ns); [|done]. split; [split|..]; try done; cbn; by apply insert_subseteq.
Qed.
Lemma member_self_doc_cached id n n' ns : member_self_doc id n = (n', Ok (Some ns)) ->
  exists addrs, member_docs n' !! id = Some (ns, addrs).
Proof.
  unfold member_self_doc, mbind, N_bind, lift. destruct (short_id id); [|done..]. cbn [asks].
  destruct (member_docs n !! id) as [[ns' addrs]|] eqn:E; [intros [= <- <-]; by exists addrs|].
  destruct (ticket_of n id) as [[ns' addrs]|]; [|done].
  destruct (spaces n !! ns') eqn:Es; [|destruct (import_succeeds ns'); [|done]]; intros [= <- <-]; exists addrs; apply lookup_insert_eq.
Qed.
Lemma member_self_doc_ok id n : (member_self_doc id n).2 = Panic \/ exists o, (member_self_doc id n).2 = Ok o.
Proof.
  unfold member_self_doc, mbind, N_bind, lift, short_id, str_slice_to. destruct (is_char_boundary _ _); [right|by left]. cbn [asks].
  destruct (member_docs n !! id) as [[ns addrs]|]; [by eexists|]. destruct (ticket_of n id) as [[ns addrs]|]; [|by eexists].
  destruct (spaces n !! ns); [by eexists|]. destruct (import_succeeds ns); by eexists.
Qed.
Lemma ok_grows {A} (m : N A) n : grows n (m n).1 -> grows n (ok m n).1.
Proof. unfold ok. by destruct (m n) as [n' []]. Qed.

Lemma resolve_endpoint_grows addr owner n : grows n (resolve_endpoint_for addr owner n).1.
Proof.
  unfold resolve_endpoint_for, mbind, N_bind. cbn [asks]. destruct (option_bind _ _ _ owner); [done|].
  destruct owner as [o|]; cbn.
  - pose proof (member_self_doc_grows o n) as Hg. destruct (member_self_doc o n) as [n' [sd| |]]; [|done..]. cbn in Hg |- *.
    destruct (option_bind _ _ _ sd); [done|]. by destruct (endpoint_in _ _ _).
  - by destruct (endpoint_in _ _ _).
Qed.
Lemma resolve_all_grows l fwd n : grows n (resolve_all l fwd n).1.
Proof.
  revert fwd n. induction l as [|[addr owner] l IH]; intros fwd n; [done|]. cbn [resolve_all]. unfold mbind, N_bind.
  pose proof (resolve_endpoint_grows addr (Some owner) n) as Hg.
  destruct (resolve_endpoint_for addr (Some owner) n) as [n' [e| |]]; [|done..]. etransitivity; [exact Hg|apply IH].
Qed.

Lemma collect_map_lookup {K V} `{Countable K} (l : list (K * V)) m k v :
  collect_map l m !! k = Some v -> (k, v) ∈ l \/ m !! k = Some v.
Proof.
  unfold collect_map. revert m. induction l as [|[k' v'] l IH]; intros m; [by right|]. intros [Hl|Hm]%IH; [by left; right|].
  cbn in Hm. destruct (decide (k' = k)) as [->|Hne].
  - rewrite lookup_insert_eq in Hm. injection Hm as ->. by left; left.
  - rewrite lookup_insert_ne in Hm by done. by right.
Qed.
Lemma collect_map_other {K V} `{Countable K} (l : list (K * V)) m k :
  (forall v, (k, v) ∉ l) -> collect_map l m !! k = m !! k.
Proof.
  unfold collect_map. revert m. induction l as [|[k' v'] l IH]; intros m Hn; [done|]. cbn. rewrite IH.
  - apply lookup_insert_ne. intros ->. by apply (Hn v'); left.
  - intros v Hv. by apply (Hn v); right.
Qed.
Lemma collect_map_in {K V} `{Countable K} (l : list (K * V)) m k v :
  (k, v) ∈ l -> exists v', (k, v') ∈ l /\ collect_map l m !! k = Some v'.
Proof.
  unfold collect_map. revert m. induction l as [|[k' v'] l IH] using rev_ind; intros m; [by intros ?%elem_of_nil|].
  rewrite elem_of_app, list_elem_of_singleton, foldl_app. cbn. destruct (decide (k' = k)) as [->|Hne].
  - intros _. exists v'. rewrite lookup_insert_eq. set_solver.
  - intros [Hin|[= -> ->]]; [|done]. destruct (IH m Hin) as (w & Hw & Hl). exists w. rewrite lookup_insert_ne by done. set_solver.
Qed.

(** ** Who may send from an address *)
(** A roster entry, and the trusted author who wrote it. *)
Definition on_roster (n : Node) (p : Peer) : Prop :=
  exists a k r v, doc (net n) !! (a, k) = Some r /\ starts_with KEY_PEER_PREFIX k = true /\ rec_empty r = false /\
    a ∈ admin_authors (net n) /\ content n r = Some v /\ parse_peer v = Some p.
(** The author the roster vouches for as this owner's wrote the record, or it vouches for none. *)
Definition author_of (n : Node) (owner : option string) (a : AuthorId) : Prop :=
  forall b, owner ≫= (fun o => vouched_authors (net n) !! o) = Some b -> a = b.

Inductive owns (n : Node) (addr : Ipv4Addr) (owner : string) : Prop :=
| owns_roster p : on_roster n p -> peer_vip p = Some addr -> node_id p = owner -> owns n addr owner
| owns_claim a k r v s : (forall p, on_roster n p -> peer_vip p <> Some addr) ->
    doc (net n) !! (a, k) = Some r -> rec_empty r = false ->
    utf8_lossy k = (KEY_IP_PREFIX +:+ s)%string -> parse_ipv4 s = Some addr ->
    content n r = Some v -> owner = trim (utf8_lossy v) ->
    author_of n (Some owner) a \/ a ∈ admin_authors (net n) -> owns n addr owner.

(** The owner's own document, or this node's for its own address, names the endpoint. *)
Definition from_self_doc (n : Node) (addr : Ipv4Addr) (owner id : string) : Prop :=
  exists ns, (Some addr = vpn_local_ip n /\ self_ns n = Some ns \/ exists addrs, member_docs n !! owner = Some (ns, addrs)) /\
    self_doc_id (default ∅ (spaces n !! ns)) addr n = Some id.
Inductive may_send (n n' : Node) (id : string) (addr : Ipv4Addr) : Prop :=
| send_roster p v : on_roster n p -> peer_vip p = Some addr -> vpn_endpoint p = Some v ->
    head (split_whitespace v) = Some id -> may_send n n' id addr
| send_shared a k r v s : doc (net n) !! (a, k) = Some r -> rec_empty r = false ->
    utf8_lossy k = (KEY_VPN_PREFIX +:+ s)%string -> parse_ipv4 s = Some addr ->
    content n r = Some v -> head (split_whitespace (utf8_lossy v)) = Some id ->
    author_of n (ip_owners n !! addr) a -> may_send n n' id addr
| send_self_doc owner : ip_owners n !! addr = Some owner -> from_self_doc n' addr owner id -> may_send n n' id addr.

Lemma list_peers_roster n p : enforced (net n) -> p ∈ list_peers (net n) <-> on_roster n p.
Proof.
  intros He. unfold list_peers. rewrite elem_of_list_prefix. unfold on_roster, content.
  split; intros (a & k & r & v & Hm & Hk & Hr & Hv & Hb & Hp); exists a, k, r, v; split_and!; try done.
  - rewrite validate_enforced in Hv; [by apply bool_decide_eq_true in Hv|done|]. by apply (admin_prefix "peer/"); [set_solver|].
  - rewrite validate_enforced; [by apply bool_decide_eq_true|done|]. by apply (admin_prefix "peer/"); [set_solver|].
Qed.
Lemma author_ok_enforce n owner a : validation_mode (net n) = Enforce ->
  self_entry_author_ok owner a (vouched_authors (net n)) (validation_mode (net n)) = true -> author_of n owner a.
Proof.
  intros -> Hok b Hb. unfold self_entry_author_ok in Hok. cbn in Hok. rewrite Hb in Hok. by apply bool_decide_eq_true in Hok.
Qed.

Lemma ip_owners_owns n addr owner : enforced (net n) -> ip_owners n !! addr = Some owner -> owns n addr owner.
Proof.
  intros He. unfold ip_owners. set (claims := collect_map _ ∅). set (roster := omap _ (list_peers (net n))). intros Hl.
  destruct (decide (Exists (fun p => peer_vip p = Some addr) (list_peers (net n)))) as [(p & Hp & Hv)%Exists_exists|Hn].
  - destruct (collect_map_in roster claims addr (node_id p)) as (o & Ho & Hl').
    { apply list_elem_of_omap. exists p. split; [done|]. by rewrite Hv. }
    rewrite Hl' in Hl. injection Hl as ->. apply list_elem_of_omap in Ho as (q & Hq & Hs).
    apply bind_Some in Hs as (a & Ha & [= -> <-]). apply list_peers_roster in Hq; [|done]. by eapply owns_roster.
  - assert (forall p, on_roster n p -> peer_vip p <> Some addr) as Hno.
    { intros p Hp Hv. apply Hn, Exists_exists. exists p. split; [|done]. by apply list_peers_roster. }
    rewrite collect_map_other in Hl.
    2:{ intros o (p & Hp & (a & Ha & [= -> <-])%bind_Some)%list_elem_of_omap. apply (Hno p); [|done]. by apply list_peers_roster. }
    destruct (collect_map_lookup _ _ _ _ Hl) as [Hc|Hc]; [|by rewrite lookup_empty in Hc].
    apply list_elem_of_omap in Hc as ([[a k] r] & (Hm & Hk & Hr)%elem_of_get_prefix & Hs). unfold owner_claim in Hs. cbn in Hs.
    apply bind_Some in Hs as (x & (s & Hs & Hx)%bind_Some & (v & Hv & Hs2)%bind_Some).
    destruct (claim_honored n _ a) eqn:Eh; [|done]. injection Hs2 as -> <-. apply strip_prefix_spec in Hs.
    eapply owns_claim; [done..|]. unfold claim_honored in Eh. apply orb_true_iff in Eh as [Eh|Eh].
    + left. apply author_ok_enforce; [apply He|done].
    + right. by apply bool_decide_eq_true in Eh.
Qed.

Lemma base_ingress_may_send n n' id addr : enforced (net n) -> base_ingress n !! id = Some addr -> may_send n n' id addr.
Proof.
  intros He [Hs|Hr]%collect_map_lookup.
  - apply list_elem_of_omap in Hs as ([[a k] r] & (Hm & Hk & Hr)%elem_of_get_prefix & Hs). unfold shared_endpoint in Hs. cbn in Hs.
    apply bind_Some in Hs as (x & (s & Hs & Hx)%bind_Some & Hs2). destruct (self_entry_author_ok _ _ _ _) eqn:Ea; [|done].
    apply bind_Some in Hs2 as (v & Hv & (i & Hi & [= -> ->])%bind_Some). apply strip_prefix_spec in Hs.
    eapply send_shared; [done..|]. apply author_ok_enforce; [apply He|done].
  - apply collect_map_lookup in Hr as [Hr|Hr]; [|by rewrite lookup_empty in Hr].
    apply list_elem_of_omap in Hr as (p & Hp & (a & Ha & (v & Hv & (i & Hi & [= -> ->])%bind_Some)%bind_Some)%bind_Some).
    apply list_peers_roster in Hp; [|done]. by eapply send_roster.
Qed.

Lemma from_self_doc_extends n n' addr owner id : extends n n' -> from_self_doc n addr owner id -> from_self_doc n' addr owner id.
Proof.
  intros Hg (ns & Hns & Hid). exists ns. split.
  - rewrite (ext_local _ _ Hg). destruct Hns as [[? ?]|[addrs ?]]; [left; split; [done|by apply (ext_self _ _ Hg)]|].
    right. exists addrs. by eapply lookup_weaken; [|apply (ext_docs _ _ Hg)].
  - assert (is_Some (spaces n !! ns)) as [m Hm].
    { destruct (spaces n !! ns) eqn:E; [by eexists|]. unfold self_doc_id in Hid. cbn in Hid. by vm_compute in Hid. }
    rewrite (lookup_weaken _ _ _ _ Hm (ext_spaces _ _ Hg)). rewrite Hm in Hid. cbn in Hid |- *.
    unfold self_doc_id in Hid |- *. destruct (get_latest _ _) as [[a r]|]; [|done]. cbn in Hid |- *.
    destruct (rec_empty r); [done|]. by rewrite (extends_content _ _ _ Hg).
Qed.
Lemma self_doc_lookup addr owner n n' ns :
  self_doc_for addr owner n = (n', Ok (Some ns)) ->
  Some addr = vpn_local_ip n' /\ self_ns n' = Some ns \/ exists addrs, member_docs n' !! owner = Some (ns, addrs).
Proof.
  unfold self_doc_for. case_bool_decide as Hl; [|intros Hs; right; by eapply member_self_doc_cached].
  pose proof (own_self_doc_grows n) as Hg. unfold ok, own_self_doc in Hg |- *. intros Hs. left.
  destruct (self_ns n) as [i|] eqn:E.
  - destruct (spaces n !! i); [|done]. injection Hs as <- <-. done.
  - destruct (create_namespace (spaces n)) as [i|]; [|done]. injection Hs as <- <-. done.
Qed.
Lemma self_doc_lookup_grows addr owner n :
  grows n (self_doc_for addr owner n).1.
Proof. unfold self_doc_for. case_bool_decide; [apply ok_grows, own_self_doc_grows|apply member_self_doc_grows]. Qed.

Lemma override_spec l map n n' r : override_ingress l map n = (n', r) -> grows n n' /\
  forall ips, r = Ok ips -> forall id addr, ips !! id = Some addr ->
    map !! id = Some addr \/ exists owner, (addr, owner) ∈ l /\ from_self_doc n' addr owner id.
Proof.
  revert map n. induction l as [|[a o] l IH]; intros map n.
  - intros [= <- <-]. split; [done|]. intros ips [= ->] id addr Hi. by left.
  - cbn [override_ingress]. unfold mbind at 1, N_bind at 1.
    pose proof (self_doc_lookup_grows a o n) as Hg. pose proof (self_doc_lookup a o n) as Hs.
    destruct (self_doc_for a o n) as [n1 [sd| |]].
    2,3: intros [= <- <-]; split; [exact Hg|done].
    unfold mbind at 1, N_bind at 1. cbn [asks fst] in Hg |- *. intros He. apply IH in He as [Hg' Hips].
    split; [by etransitivity|]. intros ips -> id addr Hi. destruct (Hips _ eq_refl _ _ Hi) as [Hm|(w & Hw & Hf)].
    2:{ right. exists w. split; [by right|done]. }
    destruct (sd ≫= _) as [i|] eqn:Ei; [|by left]. apply bind_Some in Ei as (ns & -> & Ei).
    destruct (decide (i = id)) as [->|Hne].
    + rewrite lookup_insert_eq in Hm. injection Hm as ->. right. exists o. split; [by left|].
      eapply from_self_doc_extends; [apply grows_ext, Hg'|]. exists ns. split; [by eapply Hs|done].
    + rewrite lookup_insert_ne in Hm by done. apply map_lookup_filter_Some in Hm as [Hm _]. by left.
Qed.

(** ** The refresh *)
Lemma bind_asks {A B} (f : Node -> A) (k : A -> N B) n : (asks f ≫= k) n = k (f n) n.
Proof. done. Qed.
Lemma bind_modify {B} (f : Node -> Node) (k : unit -> N B) n : (nmodify f ≫= k) n = k tt (f n).
Proof. done. Qed.
Lemma bind_mret {A B} (a : A) (k : A -> N B) n : (mret a ≫= k) n = k a n.
Proof. done. Qed.
Lemma bind_inv {A B} (m : N A) (k : A -> N B) n n' r : (m ≫= k) n = (n', r) ->
  (exists n1 a, m n = (n1, Ok a) /\ k a n1 = (n', r)) \/ ((m n).1 = n' /\ (forall a, (m n).2 <> Ok a) /\ forall b, r <> Ok b).
Proof. unfold mbind, N_bind. destruct (m n) as [n1 [a|e|]]; [left; by eauto|right..]; by simplify_eq. Qed.
Lemma collect_reads {A} p (parse : string -> option A) l d : (collect p parse l d).1 = d.
Proof.
  induction l as [|e l IH]; [done|]. cbn [collect]. unfold mbind, M_bind. cbn [gets].
  destruct (if validate_entry _ _ _ then _ else None); [|done]. unfold get_bytes. destruct (blobs d !! _); [|done].
  destruct (collect p parse l d) as [d' [?|?]]; exact IH.
Qed.
Lemma on_net_reads {A} (m : M A) n : (m (net n)).1 = net n -> (on_net m n).1 = n.
Proof. unfold on_net. destruct (m (net n)) as [d [?|?]]; cbn; intros ->; by destruct n. Qed.
Lemma on_net_not_panic {A} (m : M A) n : (on_net m n).2 <> Panic.
Proof. unfold on_net. by destruct (m (net n)) as [d [?|?]]. Qed.

Lemma refresh_gateway_acl_routes eng n : exists routes,
  refresh_gateway_acl eng n = (set_tables (vpn_peer_ips n) (vpn_fwd n) (vpn_vip_owner n) routes n, Ok tt).
Proof.
  unfold refresh_gateway_acl, mbind, N_bind. cbn [asks]. destruct (negb _).
  { exists (vpn_gateway_cidrs n). by destruct n. }
  unfold ok. pose proof (on_net_reads list_virtual_ips n ltac:(apply collect_reads)) as Hr.
  pose proof (on_net_not_panic list_virtual_ips n) as Hp.
  destruct (on_net list_virtual_ips n) as [n' [v|e|]]; cbn in Hr; subst n'; [..|done]; cbn; by eexists.
Qed.

Definition refresh_done (n n' : Node) (ips : gmap string Ipv4Addr) (owners : gmap Ipv4Addr string) : Prop :=
  extends n n' /\ vpn_peer_ips n' = ips /\ (vpn_vip_owner n' = vpn_vip_owner n \/ vpn_vip_owner n' = owners).
Lemma rebuild_forwarding_done owners n : refresh_done n (rebuild_forwarding owners n).1 (vpn_peer_ips n) owners.
Proof.
  unfold rebuild_forwarding, refresh_done. case_bool_decide; [split_and!; [reflexivity|done|by left]|].
  pose proof (resolve_all_grows (iter_owners owners) ∅ n) as [Hx Hi _ Ho _]. unfold mbind, N_bind.
  destruct (resolve_all _ _ n) as [n1 [fwd| |]]; cbn in Hx, Hi, Ho |- *; [|by auto..].
  split_and!; [etransitivity; [exact Hx|apply extends_tables]|done|by right].
Qed.
Lemma refresh_spec eng n n' r : refresh_vpn_peer_ips eng n = (n', r) ->
  exists n1 r1, override_ingress (iter_owners (ip_owners n)) (base_ingress n) n = (n1, r1) /\
    (grows n n' \/ exists ips, r1 = Ok ips /\ refresh_done n1 n' ips (ip_owners n)).
Proof.
  unfold refresh_vpn_peer_ips. rewrite !bind_asks. intros Hr.
  destruct (override_ingress (iter_owners (ip_owners n)) (base_ingress n) n) as [n1 r1] eqn:E. exists n1, r1. split; [done|].
  destruct (override_spec _ _ _ _ _ E) as [Hg _].
  apply bind_inv in Hr as [(n2 & ips & E2 & Hr)|(Ha & _)]; [|left; by rewrite <-Ha, E].
  rewrite E in E2. injection E2 as <- ->. rewrite bind_asks in Hr.
  destruct (bool_decide (ips = ∅) && _); [left; by injection Hr as <- _|].
  rewrite bind_modify in Hr. right. exists ips. split; [done|]. set (n3 := set_tables ips _ _ _ n1) in Hr.
  pose proof (rebuild_forwarding_done (ip_owners n) n3) as (Hx3 & Hi3 & Ho3).
  assert (refresh_done n1 (rebuild_forwarding (ip_owners n) n3).1 ips (ip_owners n)) as Hd.
  { split_and!; [etransitivity; [apply extends_tables|exact Hx3]|done|done]. }
  apply bind_inv in Hr as [(n4 & u & E4 & Hr)|(Ha & _)]; [|by rewrite <-Ha].
  destruct (refresh_gateway_acl_routes eng n4) as (routes & E6). rewrite E6 in Hr. injection Hr as <- _.
  rewrite E4 in Hd. destruct Hd as (Hx & Hi & Ho). split_and!; [etransitivity; [exact Hx|apply extends_tables]|done|done].
Qed.
End Lemmas.

(** C21.  Who may send from an address is vouched for: under enforcement, a refresh of the tables either
    keeps the previous table of senders, or every endpoint the new one lets send from an address was
    named for it by a roster entry a trusted author wrote, by a shared record whose author the roster
    vouches for as the owner's (or for whose owner it vouches for nobody), or by the owner's own
    document; and every owner it goes by holds the address in such a roster entry, or, where the
    roster gives it to nobody, by a claim of its own vouched author or of an administrator. *)
Theorem ingress_map_vouched `{!ContentHash, !DocCrates, !Clock, !NetCrates, !DirectoryOrder, !UnicodeText, !Cedar}
    eng n n' r : enforced (net n) -> refresh_vpn_peer_ips eng n = (n', r) ->
  (vpn_peer_ips n' = vpn_peer_ips n \/ forall id addr, vpn_peer_ips n' !! id = Some addr -> may_send n n' id addr) /\
  (vpn_vip_owner n' = vpn_vip_owner n \/ vpn_vip_owner n' = ip_owners n) /\
  forall addr owner, ip_owners n !! addr = Some owner -> owns n addr owner.
Proof.
  intros He (n1 & r1 & Ho & Hd)%refresh_spec. split; [|split; [|intros; by apply ip_owners_owns]].
  - destruct Hd as [Hg|(ips & -> & Hx & Hi & _)]; [left; apply (grows_ips _ _ Hg)|right]. rewrite Hi.
    apply override_spec in Ho as [_ Ho]. intros id addr [Hb|(o & Hin & Hf)]%(Ho _ eq_refl).
    + by apply base_ingress_may_send.
    + rewrite iter_owners_perm, elem_of_map_to_list in Hin. eapply send_self_doc; [done|]. by eapply from_self_doc_extends.
  - destruct Hd as [Hg|(ips & -> & _ & _ & Hv)]; [left; apply (grows_owner _ _ Hg)|].
    apply override_spec in Ho as [Hg _]. destruct Hv as [Hv|Hv]; [left|by right]. by rewrite Hv, (grows_owner _ _ Hg).
Qed.

(** ** One record against every node *)
Section Crash.
Context `{!ContentHash, !DocCrates, !Clock, !NetCrates, !DirectoryOrder, !UnicodeText, !Cedar}.

Lemma self_doc_for_ok addr owner n : (self_doc_for addr owner n).2 = Panic \/ exists o, (self_doc_for addr owner n).2 = Ok o.
Proof.
  unfold self_doc_for. case_bool_decide; [|apply member_self_doc_ok]. right. unfold ok, own_self_doc.
  destruct (self_ns n) as [i|]; [destruct (spaces n !! i)|destruct (create_namespace _)]; by eexists.
Qed.
Lemma override_panics l map n addr owner : (addr, owner) ∈ l -> Some addr <> vpn_local_ip n ->
  is_char_boundary owner (8 `min` String.length owner) = false -> (override_ingress l map n).2 = Panic.
Proof.
  intros Hin Hl Hb. revert map n Hin Hl. induction l as [|[a o] l IH]; intros map n; [by intros ?%elem_of_nil|].
  intros [[= -> ->]|Hin]%elem_of_cons Hl; cbn [override_ingress]; unfold mbind at 1, N_bind at 1.
  - unfold self_doc_for. rewrite bool_decide_eq_false_2 by done. unfold member_self_doc, mbind at 1, N_bind at 1, lift, short_id, str_slice_to.
    by rewrite Hb.
  - pose proof (self_doc_for_ok a o n) as Hok. pose proof (self_doc_lookup_grows a o n) as Hg.
    destruct (self_doc_for a o n) as [n1 r1]. cbn in Hok, Hg. destruct Hok as [->|[x ->]]; [done|].
    rewrite bind_asks. apply IH; [done|]. by rewrite (ext_local _ _ (grows_ext _ _ Hg)).
Qed.
Lemma refresh_panics eng n addr owner : ip_owners n !! addr = Some owner -> Some addr <> vpn_local_ip n ->
  is_char_boundary owner (8 `min` String.length owner) = false -> (refresh_vpn_peer_ips eng n).2 = Panic.
Proof.
  intros Ho Hl Hb. unfold refresh_vpn_peer_ips. rewrite !bind_asks. unfold mbind at 1, N_bind at 1.
  assert ((addr, owner) ∈ iter_owners (ip_owners n)) as Hin by (by rewrite iter_owners_perm, elem_of_map_to_list).
  pose proof (override_panics (iter_owners (ip_owners n)) (base_ingress n) n addr owner Hin Hl Hb) as Hp.
  destruct (override_ingress _ _ n) as [n1 r1]. cbn in Hp. by subst r1.
Qed.

(** A node whose replica has received one more record. *)
Definition receives (e : foreign) (n : Node) : Node :=
  set_net (set_doc (receive (doc (net n)) e) (blobs (net n)) (writes (net n)) (net n)) n.
Lemma get_prefix_receive m e p : (forall k, starts_with p k = true -> starts_with e.1.2 k = false) ->
  get_prefix (receive m e) p = get_prefix m p.
Proof.
  intros Hd. assert (forall l : list ((AuthorId * string) * Rec), base.filter (fun _ => True) l = l) as Hid.
  { intros l. induction l as [|x l IH]; [done|]. rewrite filter_cons_True by done. by rewrite IH. }
  rewrite <-(Hid (get_prefix (receive m e) p)), <-(Hid (get_prefix m p)). apply filter_get_prefix_ext.
  intros a k r _ Hk _. unfold receive. destruct (doc_put m e.1.1 e.1.2 e.2) as [m'|] eqn:E; [|done]. cbn.
  rewrite (doc_put_Some _ _ _ _ _ E). rewrite !decide_False; [done|..].
  - intros [_ Hs]. by rewrite Hd in Hs.
  - intros [= -> ->]. specialize (Hd _ Hk). by rewrite starts_with_refl in Hd.
Qed.
Lemma starts_with_first c p c' p' k : c <> c' -> starts_with (String c p) k = true -> starts_with (String c' p') k = false.
Proof.
  intros Hne Hs. apply not_true_iff_false. intros (t & ->)%starts_with_spec. apply starts_with_spec in Hs as (u & [= -> _]). done.
Qed.
Lemma list_peers_receives c k a r n : c <> "p"%char ->
  list_peers (net (receives ((a, String c k), r) n)) = list_peers (net n).
Proof.
  intros Hc. unfold list_peers, list_prefix. cbn [net receives set_net doc set_doc]. rewrite get_prefix_receive; [done|].
  intros k' Hk. by eapply starts_with_first.
Qed.
Lemma receive_lookup m a k r a' k' : (forall k, m !! (a, k) = None) ->
  receive m ((a, k), r) !! (a', k') = if decide ((a', k') = (a, k)) then Some r else m !! (a', k').
Proof.
  intros Hn. unfold receive. cbn [fst snd]. destruct (doc_put_fresh m a k r) as [m' E]; [intros p r' _ Hp; by rewrite Hn in Hp|].
  rewrite E. cbn. rewrite (doc_put_Some _ _ _ _ _ E). case_decide; [done|]. case_decide as Hk; [|done].
  destruct Hk as [-> _]. by rewrite Hn.
Qed.
End Crash.

(** C40.  A record that claims an address for an owner whose name has a character across its eighth byte
    stops every node that receives it: whoever wrote it, and under enforcement too, the claim is
    honored when the roster has no such owner, and the next refresh of the tables slices the name
    there and panics. *)
Theorem forged_claim_crashes `{!ContentHash, !DocCrates, !Clock, !NetCrates, !DirectoryOrder, !UnicodeText, !Cedar}
    eng n a s addr r v :
  parse_ipv4 s = Some addr -> utf8_valid (str_bytes (KEY_IP_PREFIX +:+ s)) = true ->
  ip_owners n !! addr = None -> Some addr <> vpn_local_ip n ->
  (forall k, doc (net n) !! (a, k) = None) -> rec_empty r = false -> content n r = Some v ->
  let owner := trim (utf8_lossy v) in
  vouched_authors (net n) !! owner = None -> is_char_boundary owner (8 `min` String.length owner) = false ->
  (refresh_vpn_peer_ips eng (receives ((a, (KEY_IP_PREFIX +:+ s)%string), r) n)).2 = Panic.
Proof.
  intros Hs Hu Hno Hl Hfresh Hr Hv owner Hvo Hb. set (n' := receives _ n).
  eapply (refresh_panics eng n' addr owner); [|done|done].
  assert (list_peers (net n') = list_peers (net n)) as Hp by (by apply list_peers_receives).
  assert (vouched_authors (net n') = vouched_authors (net n)) as Hva by (unfold vouched_authors; by rewrite Hp).
  assert (forall e, owner_claim n' e = owner_claim n e) as Hoc.
  { intros e. unfold owner_claim, claim_honored, is_admin_author. by rewrite Hva. }
  assert (owner_claim n ((a, (KEY_IP_PREFIX +:+ s)%string), r) = Some (addr, owner)) as Hclaim.
  { unfold owner_claim. cbn [fst snd]. rewrite (utf8_lossy_valid _ Hu), (proj2 (strip_prefix_spec _ _ s) eq_refl).
    cbn [mbind option_bind]. rewrite Hs. cbn [option_bind]. rewrite Hv. cbn [option_bind]. fold owner.
    unfold claim_honored, self_entry_author_ok. cbn [mbind option_bind]. unfold owner in Hvo |- *. rewrite Hvo. by destruct (negb _). }
  unfold ip_owners in Hno |- *. rewrite Hp. set (roster := omap _ (list_peers _)) in Hno |- *.
  set (claims := omap (owner_claim n) _) in Hno. set (claims' := omap (owner_claim n') _).
  assert (forall o, (addr, o) ∉ roster) as Hnr.
  { intros o Ho. destruct (collect_map_in roster (collect_map claims ∅) addr o Ho) as (o' & _ & E). by rewrite E in Hno. }
  assert (forall o, (addr, o) ∉ claims) as Hnc.
  { intros o Ho. rewrite collect_map_other in Hno by done.
    destruct (collect_map_in claims ∅ addr o Ho) as (o' & _ & E). by rewrite E in Hno. }
  rewrite collect_map_other by done.
  assert ((addr, owner) ∈ claims') as Hin.
  { apply list_elem_of_omap. exists ((a, (KEY_IP_PREFIX +:+ s)%string), r). split.
    - apply elem_of_get_prefix. split_and!; [|apply starts_with_sapp|done]. cbn. rewrite receive_lookup by done. by rewrite decide_True.
    - by rewrite Hoc. }
  destruct (collect_map_in claims' ∅ addr owner Hin) as (o & Ho & ->). f_equal.
  apply list_elem_of_omap in Ho as ([[a' k'] r'] & (Hm & Hk & Hr')%elem_of_get_prefix & Ho). rewrite Hoc in Ho.
  cbn in Hm. rewrite receive_lookup in Hm by done. case_decide as E.
  - injection E as -> ->. injection Hm as <-. rewrite Hclaim in Ho. by injection Ho.
  - destruct (Hnc o). apply list_elem_of_omap. exists ((a', k'), r'). split; [by apply elem_of_get_prefix|done].
Qed.

Section Endpoints.
Context `{!ContentHash, !DocCrates, !Clock, !NetCrates, !DirectoryOrder, !UnicodeText, !Cedar}.

Lemma peer_of_trusted n o a r : enforced (net n) -> get_latest (doc (net n)) (KEY_PEER_PREFIX +:+ o) = Some (a, r) ->
  a ∉ admin_authors (net n) -> peer_of n o = None.
Proof.
  intros He Hl Ha. unfold peer_of, get_peer, mbind, M_bind. cbn [gets]. rewrite Hl.
  rewrite validate_enforced; [|done|apply (admin_prefix "peer/"); [set_solver|apply starts_with_sapp]].
  by rewrite bool_decide_eq_false_2.
Qed.
(** Without the roster's endpoint and without a document of the owner's, the shared table decides. *)
Lemma resolve_shared n addr o e : peer_of n o = None -> member_docs n !! o = None ->
  is_char_boundary o (8 `min` String.length o) = true -> endpoint_in (doc (net n)) addr n = Some e ->
  resolve_endpoint_for addr (Some o) n = (n, Ok (Some e)).
Proof.
  intros Hp Hd Hb He. unfold resolve_endpoint_for. rewrite bind_asks. cbn [mbind option_bind].
  unfold roster_endpoint at 1. rewrite Hp. cbn [mbind option_bind]. unfold mbind at 1, N_bind at 1.
  assert (member_self_doc o n = (n, Ok None)) as ->.
  { unfold member_self_doc, mbind, N_bind, lift, short_id, str_slice_to. rewrite Hb. cbn [asks]. rewrite Hd.
    unfold ticket_of. by rewrite Hp. }
  rewrite bind_asks. cbn [mbind option_bind]. by rewrite He.
Qed.
Lemma endpoint_in_newest m addr n a r v e : m !! (a, (KEY_VPN_PREFIX +:+ print_ipv4 addr)%string) = Some r ->
  (forall a' r', a' <> a -> m !! (a', (KEY_VPN_PREFIX +:+ print_ipv4 addr)%string) = Some r' -> r_ts r' < r_ts r) ->
  rec_empty r = false -> content n r = Some v -> parse_vpn_endpoint_value v = Some e -> endpoint_in m addr n = Some e.
Proof.
  intros Hm Hn Hr Hv He. unfold endpoint_in. rewrite (get_latest_newest _ _ _ _ Hm Hn), Hr. cbn [mbind option_bind].
  rewrite Hr, Hv. done.
Qed.
End Endpoints.

(** A member's traffic can be taken over by whoever may write the shared document.  Two records of an
    untrusted author, newer than what is there, suffice under enforcement: one at the member's roster
    key, which is rejected but hides the trusted one from the lookup of a single peer, and one at its
    address in the endpoint table, whose author the lookup does not check.  The roster still lists the
    member; its address resolves to the endpoint the intruder named. *)
Theorem shared_record_intercepts `{!ContentHash, !DocCrates, !Clock, !NetCrates, !DirectoryOrder, !UnicodeText, !Cedar}
    n addr p a r1 r2 v e :
  enforced (net n) -> a ∉ admin_authors (net n) -> (forall k, doc (net n) !! (a, k) = None) ->
  p ∈ list_peers (net n) -> vip_owner addr n = Some (node_id p) -> vip p = Some (print_ipv4 addr) ->
  is_char_boundary (node_id p) (8 `min` String.length (node_id p)) = true ->
  vpn_fwd n !! addr = None -> member_docs n !! node_id p = None ->
  rec_empty r1 = false -> rec_empty r2 = false ->
  (forall a' r', doc (net n) !! (a', (KEY_PEER_PREFIX +:+ node_id p)%string) = Some r' -> r_ts r' < r_ts r1) ->
  (forall a' r', doc (net n) !! (a', (KEY_VPN_PREFIX +:+ print_ipv4 addr)%string) = Some r' -> r_ts r' < r_ts r2) ->
  content n r2 = Some v -> parse_vpn_endpoint_value v = Some e ->
  let n' := receives ((a, (KEY_VPN_PREFIX +:+ print_ipv4 addr)%string), r2)
              (receives ((a, (KEY_PEER_PREFIX +:+ node_id p)%string), r1) n) in
  p ∈ list_peers (net n') /\ (lookup_vpn_endpoint addr n').2 = Ok (Some e).
Proof.
  intros He Ha Hfresh Hp Hown Hvip Hb Hfwd Hdoc Hr1 Hr2 Hn1 Hn2 Hv Hpv n'.
  set (n1 := receives ((a, (KEY_PEER_PREFIX +:+ node_id p)%string), r1) n) in n'.
  assert (list_peers (net n1) = list_peers (net n)) as Hl1.
  { apply list_prefix_ext; [done|set_solver|]. intros a' k Ha'. rewrite receive_lookup by done. rewrite decide_False; [done|congruence]. }
  assert (list_peers (net n') = list_peers (net n)) as Hl' by (etransitivity; [by apply list_peers_receives|done]).
  assert (forall a' k, doc (net n1) !! (a', k) = if decide ((a', k) = (a, (KEY_PEER_PREFIX +:+ node_id p)%string)) then Some r1 else doc (net n) !! (a', k)) as Hd1
    by (intros; by apply receive_lookup).
  assert (is_Some (doc_put (doc (net n1)) a (KEY_VPN_PREFIX +:+ print_ipv4 addr) r2)) as [m Hm].
  { apply doc_put_fresh. intros q r' Hq Hr'. rewrite Hd1 in Hr'. case_decide as E; [|by rewrite Hfresh in Hr'].
    injection E as ->. by apply starts_with_spec in Hq as (t & ?). }
  assert (doc (net n') = m) as Hd' by (unfold n', receives, receive; cbn [net set_net doc set_doc fst snd]; by rewrite Hm).
  assert (forall a' k, m !! (a', k) = if decide ((a', k) = (a, (KEY_VPN_PREFIX +:+ print_ipv4 addr)%string)) then Some r2 else
     doc (net n1) !! (a', k)) as Hml.
  { intros a' k. rewrite (doc_put_Some _ _ _ _ _ Hm). case_decide; [done|]. case_decide as Hk; [|done]. destruct Hk as [-> Hk].
    rewrite Hd1. case_decide as E; [|by rewrite Hfresh]. injection E as ->. by apply starts_with_spec in Hk as (t & ?). }
  split; [by rewrite Hl'|]. unfold lookup_vpn_endpoint. rewrite bind_asks. change (vpn_fwd n') with (vpn_fwd n). rewrite Hfwd.
  rewrite bind_modify, bind_asks.
  assert (vip_owner addr (notify_refresh n') = Some (node_id p)) as ->.
  { unfold vip_owner in Hown |- *. change (net (notify_refresh n')) with (net n'). rewrite Hl'.
    destruct (find _ _) as [q|] eqn:Ef; [done|]. apply list_elem_of_In in Hp.
    pose proof (find_none _ _ Ef p Hp) as Hf. cbn in Hf. by rewrite bool_decide_eq_true_2 in Hf. }
  rewrite (resolve_shared _ _ _ e); [done|..].
  - apply (peer_of_trusted _ _ a r1); [done| |done]. cbn [net notify_refresh]. rewrite Hd'.
    rewrite (get_latest_newest _ _ a r1), Hr1; [done|..].
    + rewrite Hml, Hd1, decide_False, decide_True; [done|done|]. intros [=].
    + intros a' r' Hne. rewrite Hml, Hd1, !decide_False by (intros [=]; congruence). apply Hn1.
  - done.
  - done.
  - cbn [net notify_refresh]. rewrite Hd'. eapply (endpoint_in_newest _ _ _ a r2 v); [| |done|done|done].
    + by rewrite Hml, decide_True.
    + intros a' r' Hne. rewrite Hml, Hd1, !decide_False by (intros [=]; congruence). apply Hn2.
Qed.

(** ** Names *)
Section Names.
Context `{!ContentHash, !DocCrates, !Clock, !NetCrates, !DirectoryOrder, !UnicodeText, !Cedar}.

Lemma set_net_self n : set_net (net n) n = n.
Proof. by destruct n. Qed.
Lemma search_first k m docs n a r v addr : get_latest m k = Some (a, r) -> content n r = Some v ->
  parse_ipv4 (trim (utf8_lossy v)) = Some addr -> name_author_ok addr a n = true ->
  (search_name k (m :: docs) n).2 = Ok (Some addr).
Proof.
  intros Hl Hv Hp Hok. cbn [search_name]. rewrite Hl, (proj2 (get_latest_Some _ _ _ _ Hl)). unfold mbind at 1, N_bind at 1.
  unfold on_net, get_bytes. unfold content in Hv. rewrite Hv, set_net_self, Hp, bind_asks.
  by rewrite Hok, andb_false_r.
Qed.
End Names.

(** A name the roster carries cannot be taken: under enforcement, whatever records untrusted authors
    have written, a name that is a roster entry's label resolves as it did. *)
Theorem roster_names_unforgeable `{!ContentHash, !DocCrates, !Clock, !NetCrates, !DirectoryOrder, !UnicodeText, !Cedar}
    n q addr l : enforced (net n) -> Forall (fun e : foreign => e.1.1 ∉ admin_authors (net n)) l ->
  roster_name (lowercase q) n = Some addr ->
  let n' := set_net (set_doc (receive_all (doc (net n)) l) (blobs (net n)) (writes (net n)) (net n)) n in
  lookup_name q n' = (n', Ok (Some addr)).
Proof.
  intros He Hl Hq n'. unfold lookup_name. rewrite bind_asks.
  assert (roster_name (lowercase q) n' = Some addr) as ->; [|done]. rewrite <-Hq. unfold roster_name. f_equal. f_equal.
  apply list_prefix_ext; [done|set_solver|]. intros a k Ha. apply receive_all_other. eapply Forall_impl; [exact Hl|].
  cbn. intros e Hn E. by rewrite E in Hn.
Qed.

(** Any other name can: under enforcement too, a member may bind a name the roster does not carry, such
    as one another member registered, to its own address, since what is checked is who owns the address
    the name is bound to; and an address an administrator allocated, whose claim is then not the owner's
    own, may be bound to by any author at all. *)
Theorem names_unprotected `{!ContentHash, !DocCrates, !Clock, !NetCrates, !DirectoryOrder, !UnicodeText, !Cedar}
    n q a r v addr a0 r0 v0 b :
  roster_name (lowercase q) n = None ->
  get_latest (doc (net n)) ("name/" +:+ lowercase q) = Some (a, r) -> content n r = Some v ->
  parse_ipv4 (trim (utf8_lossy v)) = Some addr ->
  get_latest (doc (net n)) (KEY_IP_PREFIX +:+ print_ipv4 addr) = Some (a0, r0) -> content n r0 = Some v0 ->
  vouched_authors (net n) !! trim (utf8_lossy v0) = Some b -> a = b \/ a0 <> b ->
  (lookup_name q n).2 = Ok (Some addr).
Proof.
  intros Hq Hl Hv Hp Hip Hv0 Hb Hor. unfold lookup_name. rewrite bind_asks, Hq. unfold searched.
  apply (search_first _ _ _ _ a r v); [done..|]. unfold name_author_ok. rewrite Hip. cbn [mbind option_bind].
  rewrite (proj2 (get_latest_Some _ _ _ _ Hip)), Hv0. cbn [mbind option_bind]. unfold self_entry_author_ok.
  rewrite (bool_decide_eq_true_2 (Enforce = Enforce)) by done. cbn. rewrite Hb.
  destruct (decide (a0 = b)) as [->|Hn]; [|by rewrite (bool_decide_eq_false_2 (a0 = b))].
  rewrite (bool_decide_eq_true_2 (b = b)) by done. cbn. rewrite Hb.
  apply bool_decide_eq_true. destruct Hor; congruence.
Qed.

(** ** Routes *)
(** A route is never withdrawn: withdrawing writes an empty value, which the store refuses, so the call
    fails, and every record of the network document stays. *)
Theorem withdraw_route_fails `{!ContentHash, !DocCrates, !Clock, !NetCrates, !DirectoryOrder, !UnicodeText, !Cedar} id c n :
  ((withdraw_route id c n).2 = Err (NetError EntryIsEmpty) \/ (withdraw_route id c n).2 = Err NoSelfDoc) /\
  net (withdraw_route id c n).1 = net n /\ spaces n ⊆ spaces (withdraw_route id c n).1.
Proof.
  unfold withdraw_route, put_self. pose proof (own_self_doc_grows n) as [Hx _ _ _ _]. unfold mbind, N_bind.
  assert ((own_self_doc n).2 = Err NoSelfDoc \/ exists ns, (own_self_doc n).2 = Ok ns) as Hr.
  { unfold own_self_doc. destruct (self_ns n) as [i|]; [destruct (spaces n !! i)|destruct (create_namespace _)]; by eauto. }
  destruct (own_self_doc n) as [n1 r1]. cbn in Hr, Hx. destruct Hr as [->|[ns ->]]; cbn.
  - split_and!; [by right|apply (ext_net _ _ Hx)|apply (ext_spaces _ _ Hx)].
  - split_and!; [by left|apply (ext_net _ _ Hx)|apply (ext_spaces _ _ Hx)].
Qed.

Lemma take_allowances_spec allow l : NoDup (map gr_cidr l) ->
  take_allowances allow l = map (fun r => match allow !! gr_cidr r with
    | Some a => {| gr_cidr := gr_cidr r; gr_tags := gr_tags r; gr_allowed_vips := a |} | None => r end) l.
Proof.
  revert allow. induction l as [|r l IH]; intros allow; [done|]. cbn [map]. intros [Hr Hl]%NoDup_cons. cbn [take_allowances].
  destruct (allow !! gr_cidr r) as [a|]; f_equal; rewrite IH by done; [|done]. apply map_ext_in. intros x Hx.
  rewrite lookup_delete_ne; [done|]. intros E. apply Hr. rewrite E. apply list_elem_of_fmap. exists x. by split; [|apply list_elem_of_In].
Qed.
(** The gateway's allowances are exact: after a refresh with an engine, a tagged route lets in exactly
    the addresses of the members whose role reaches its tags, and untagged routes are as they were. *)
Theorem gateway_allowance_exact `{!ContentHash, !DocCrates, !Clock, !NetCrates, !DirectoryOrder, !UnicodeText, !Cedar}
    e n vips r : NoDup (map gr_cidr (vpn_gateway_cidrs n)) -> (list_virtual_ips (net n)).2 = inr vips ->
  r ∈ vpn_gateway_cidrs (refresh_gateway_acl (Some e) n).1 ->
  exists r0, r0 ∈ vpn_gateway_cidrs n /\ gr_cidr r = gr_cidr r0 /\ gr_tags r = gr_tags r0 /\
    if decide (gr_tags r = []) then r = r0
    else forall a, a ∈ gr_allowed_vips r <-> exists node, (a, node) ∈ vips /\ reaches_tags e node (gr_tags r) = true.
Proof.
  intros Hnd Hv. unfold refresh_gateway_acl. rewrite bind_asks.
  destruct (existsb (fun r => negb (bool_decide (gr_tags r = []))) (vpn_gateway_cidrs n)) eqn:Ex; cbn [negb].
  2:{ cbn. intros Hr. exists r. split_and!; [done|done|done|]. rewrite decide_True; [done|].
      apply list_elem_of_In in Hr. destruct (decide (gr_tags r = [])) as [|Hne]; [done|].
      rewrite <-not_true_iff_false in Ex. destruct Ex. apply existsb_exists. exists r. split; [done|].
      by rewrite bool_decide_eq_false_2. }
  unfold mbind at 1, N_bind at 1, ok, on_net.
  pose proof (collect_reads KEY_IP_PREFIX parse_ipv4 (get_prefix (doc (net n)) KEY_IP_PREFIX) (net n)) as Hc.
  change (collect KEY_IP_PREFIX parse_ipv4 (get_prefix (doc (net n)) KEY_IP_PREFIX) (net n)) with (list_virtual_ips (net n)) in Hc.
  destruct (list_virtual_ips (net n)) as [d o]. cbn in Hc, Hv. subst d o. cbn [default from_option].
  set (allow := collect_map _ ∅). cbn. rewrite take_allowances_spec by done. intros (r0 & -> & Hr0)%list_elem_of_fmap. exists r0.
  split; [done|]. destruct (allow !! gr_cidr r0) as [a0|] eqn:Ea.
  - cbn. split_and!; [done|done|]. subst allow. destruct (collect_map_lookup _ _ _ _ Ea) as [Hin|Hin]; [|by rewrite lookup_empty in Hin].
    apply list_elem_of_omap in Hin as (r1 & Hr1 & Hs). case_decide as Ht; [done|]. injection Hs as E <-.
    assert (r1 = r0) as ->.
    { apply list_elem_of_lookup in Hr0 as [i Hi], Hr1 as [j Hj].
      assert (i = j) as <-; [|congruence]. eapply (NoDup_lookup (map gr_cidr (vpn_gateway_cidrs n)) i j (gr_cidr r0)); [done|..];
        apply list_lookup_fmap_Some; eauto. }
    rewrite decide_False by done. intros a. unfold route_allow. rewrite elem_of_list_to_set, list_elem_of_omap. split.
    + intros ([x node] & Hx & Hs). cbn in Hs. destruct (reaches_tags _ _ _) eqn:Er; [|done]. injection Hs as ->. by exists node.
    + intros (node & Hx & Hr). exists (a, node). cbn. by rewrite Hr.
  - split_and!; [done|done|]. rewrite decide_True; [done|]. destruct (decide (gr_tags r0 = [])) as [|Hne]; [done|].
    exfalso. destruct (collect_map_in (omap (fun r => if decide (gr_tags r = []) then None
      else Some (gr_cidr r, route_allow e vips (gr_tags r))) (vpn_gateway_cidrs n)) ∅ (gr_cidr r0)
      (route_allow e vips (gr_tags r0))) as (x & _ & E); [|change (allow !! gr_cidr r0 = Some x) in E; congruence].
    apply list_elem_of_omap. exists r0. by rewrite decide_False.
Qed.

(** ** Witnesses *)
Definition demo_net_crates : NetCrates.
Proof.
  refine {| parse_public_key := fun s => Some (str_bytes s); print_public_key := bytes_str; parse_relay_url := Some;
            parse_ticket := fun _ => None; tags_json := fun _ => "t"%string; parse_tags := fun s => Some [s];
            posture_json := fun _ => "p"%string; parse_posture := fun _ => None; route_json := cidr;
            parse_route := fun s => Some {| cidr := s; ra_tags := []; snat := true; kind := Subnet; advertised_at := "0" |};
            create_namespace := fun m => if decide (m = ∅) then Some 1 else None; import_succeeds := fun _ => true |}.
  intros m i. case_decide as E; [|done]. intros _. rewrite E. apply lookup_empty.
Defined.
Definition demo_order : DirectoryOrder.
Proof. by refine {| iter_docs := map_to_list; iter_owners := map_to_list; iter_tags := map_to_list |}. Defined.
#[local] Existing Instances demo_net_crates demo_order demo_doc_crates demo_content_hash demo_clock demo_cedar.

Definition victim : Peer := with_vpn_endpoint
  {| node_id := "victim"; name := "files"; authorized_at := "0"; last_seen := None; username := None; role := RolePeer;
     role_name := None; netdoc_author := None; self_doc := None; vip := Some "100.64.0.7"; vpn_endpoint := None;
     site_id := None; sandbox := unrestricted |}%string "vkey"%string.
(** Seven letters, and a two-byte character across the eighth byte. *)
Definition odd_owner : string := bytes_str [97; 97; 97; 97; 97; 97; 97; 195; 169; 97].
Definition founder : Netdoc :=
  let d := (put_peer victim (founding [1])).1 in
  set_doc (doc d) (<[content_hash "mkey" := "mkey"%string]> (<[content_hash odd_owner := odd_owner]> (blobs d))) (writes d) d.
Definition demo_node : Node :=
  {| net := founder; endpoint_id := str_bytes "fkey"; spaces := {[1 := ∅]}; self_ns := Some 1; member_docs := ∅;
     vpn_local_ip := Some (V4 100 64 0 1); vpn_peer_ips := ∅; vpn_fwd := ∅; vpn_vip_owner := ∅; vpn_gateway_cidrs := [];
     vpn_refresh := false |}.
Lemma demo_enforced : enforced (net demo_node).
Proof. split; [by vm_compute|]. exists [1]. by vm_compute. Qed.
Lemma demo_records a k r : doc (net demo_node) !! (a, k) = Some r -> a = [1] /\ r_ts r < 9.
Proof.
  intros E. apply elem_of_map_to_list, list_elem_of_In in E.
  assert (forallb (fun e => bool_decide (e.1.1 = [1]) && (r_ts e.2 <? 9)) (map_to_list (doc (net demo_node))) = true) as H
    by (by vm_compute).
  rewrite forallb_forall in H. apply H, andb_true_iff in E as [?%bool_decide_eq_true ?%Z.ltb_lt]. done.
Qed.
Lemma demo_no_mallory k : doc (net demo_node) !! (mallory, k) = None.
Proof. destruct (doc (net demo_node) !! (mallory, k)) as [r|] eqn:E; [|done]. by apply demo_records in E as [? _]. Qed.

Lemma ingress_map_vouched_witness :
  exists n', refresh_vpn_peer_ips None demo_node = (n', Ok tt) /\ vpn_peer_ips n' !! "vkey"%string = Some (V4 100 64 0 7) /\
    may_send demo_node n' "vkey" (V4 100 64 0 7).
Proof.
  exists (refresh_vpn_peer_ips None demo_node).1.
  assert ((refresh_vpn_peer_ips None demo_node).2 = Ok tt) as Hok by (by vm_compute).
  assert (vpn_peer_ips (refresh_vpn_peer_ips None demo_node).1 !! "vkey"%string = Some (V4 100 64 0 7)) as Hk by (by vm_compute).
  split; [rewrite <-Hok; apply surjective_pairing|]. split; [exact Hk|].
  destruct (ingress_map_vouched None demo_node _ _ demo_enforced (surjective_pairing (refresh_vpn_peer_ips None demo_node)))
    as [[He|Hm] _].
  - rewrite He in Hk. cbn [vpn_peer_ips demo_node] in Hk. rewrite lookup_empty in Hk. discriminate Hk.
  - apply Hm, Hk.
Defined.

Lemma forged_claim_crashes_witness :
  (refresh_vpn_peer_ips None (receives ((mallory, "ip/100.64.9.9"%string), demo_rec 9 odd_owner) demo_node)).2 = Panic.
Proof.
  apply (forged_claim_crashes None demo_node mallory "100.64.9.9" (V4 100 64 9 9) (demo_rec 9 odd_owner) odd_owner).
  1-4: by vm_compute.
  - apply demo_no_mallory.
  - by vm_compute.
  - by vm_compute.
  - by vm_compute.
  - by vm_compute.
Defined.

Lemma shared_record_intercepts_witness :
  (lookup_vpn_endpoint (V4 100 64 0 7) demo_node).2 = Ok (Some (str_bytes "vkey", None)) /\
  (lookup_vpn_endpoint (V4 100 64 0 7) (receives ((mallory, "vpn/100.64.0.7"%string), demo_rec 9 "mkey")
     (receives ((mallory, "peer/victim"%string), demo_rec 9 "x") demo_node))).2 = Ok (Some (str_bytes "mkey", None)).
Proof.
  split; [by vm_compute|].
  apply (shared_record_intercepts demo_node (V4 100 64 0 7) victim mallory (demo_rec 9 "x") (demo_rec 9 "mkey") "mkey"%string
    (str_bytes "mkey", None)).
  - apply demo_enforced.
  - apply (bool_decide_unpack _). by vm_compute.
  - apply demo_no_mallory.
  - replace (list_peers (net demo_node)) with [victim] by (by vm_compute). by left.
  - by vm_compute.
  - by vm_compute.
  - by vm_compute.
  - by vm_compute.
  - by vm_compute.
  - by vm_compute.
  - by vm_compute.
  - intros a' r' E. by apply demo_records in E as [_ ?].
  - intros a' r' E. by apply demo_records in E as [_ ?].
  - by vm_compute.
  - by vm_compute.
Defined.

(** Tags and posture are honored whoever wrote them.  A developer whose role reaches web hosts does not
    reach a database host under enforcement, until any author writes a tag record for that host. *)
Definition tagged_node : Node :=
  let d := (_ ← put_role (demo_role "developer" ["web"]); _ ← put_peer (demo_member "dev" "developer");
            set_bytes "tag/files" "db")%string founder in
  set_net (set_doc (doc d.1) (<[content_hash "web" := "web"%string]> (blobs d.1)) (writes d.1) d.1) demo_node.
Definition reaches_files (n : Node) : option bool :=
  match (reach_engine 0 None n).2 with
  | Ok (_, Some e) => Some (is_reach_allowed e "dev" "files" None)
  | _ => None
  end.
Theorem forged_tags_grant_reach :
  validation_mode (net tagged_node) = Enforce /\ reaches_files tagged_node = Some false /\
  reaches_files (receives ((mallory, "tag/files"%string), demo_rec 1 "web") tagged_node) = Some true.
Proof. by vm_compute. Qed.
