(* ===== verification/Egress.v ===== *)
(** * Egress: the way out of the tunnel device (hop-core/src/netdoc/mod.rs)

    [vpn_outbound_loop]: packets read off the device are routed to the endpoint of a
    member, of a gateway or of a 4via6 client, over a connection that is known to be
    live or is dialed anew; keepalives and the refresh of accepted routes share the
    loop.  A connection is its stable id; [remote] is who is at its other end.  Each
    packet comes with what its handling reads: the clock, the times of the last
    datagrams received, the translation state, the policy engine, which connections
    have closed, and how dialing and sending turn out.  Health notes and logging are
    left out. *)
From S2P Require Import Prelude Addr Text Siit Vpn Dns Policy Config DocStore Acl Netdoc NetStats Directory.
Local Open Scope Z_scope.

(** Durations in nanoseconds. *)
Definition STALE_AFTER : Z := 12 * 10 ^ 9.
Definition DIAL_GRACE : Z := 12 * 10 ^ 9.
Definition PATH_RESET_COOLDOWN : Z := 12 * 10 ^ 9.
Definition SEND_TIMEOUT : Z := 100 * 10 ^ 6.
Definition BACKPRESSURE_MIN : Z := 200 * 10 ^ 3.

Inductive Effect :=
| InstallExit | InstallClient (cidr : string) | UninstallExit | UninstallClient (cidr : string)
| Heartbeats (conns : gset Z)
| CloseConn (c : Z)
| ResetNode (pk : PublicKey)
| Dial (pk : PublicKey) (relay : option RelayUrl)
| SpawnPump (c : Z)
| Send (c : Z) (pkt : bytes).

(** [send_datagram_wait] under its time limit; a failure says whether the connection is closed. *)
Inductive SendOutcome := SendOk (waited : Z) | SendFailed (closed : bool) | SendTimedOut.

Section World.
Context `{!Cedar}.
Record PacketEnv := {
  pe_now : Z;                             (* the clock as the packet is handled *)
  pe_dialed : Z;                          (* and when a dial has returned *)
  pe_last_rx : gmap string Z;
  pe_siit : option SiitState;             (* [None]: the lock is poisoned *)
  pe_engine : option AclEngine;
  pe_closed : gset Z;
  pe_wedged : bool;                       (* the test-only fault *)
  pe_dial : PublicKey -> option Z;
  pe_send : SendOutcome;
  pe_elapsed : Z;
}.
End World.

Record Egress := {
  dir : Node;
  conns : gmap PublicKey (Z * Z);         (* dialed connections, and when *)
  vpn_conns : gmap string Z;              (* connections accepted from peers *)
  path_resets : gmap PublicKey Z;
  accepted_routes : list (string * Endpoint);
  stats : NetStats;
  closed : gset Z;                        (* connections this loop has closed *)
  effects : list Effect;
}.
Definition set_dir (n : Node) (s : Egress) : Egress :=
  {| dir := n; conns := conns s; vpn_conns := vpn_conns s; path_resets := path_resets s; accepted_routes := accepted_routes s;
     stats := stats s; closed := closed s; effects := effects s |}.
Definition set_conns (c : gmap PublicKey (Z * Z)) (v : gmap string Z) (s : Egress) : Egress :=
  {| dir := dir s; conns := c; vpn_conns := v; path_resets := path_resets s; accepted_routes := accepted_routes s;
     stats := stats s; closed := closed s; effects := effects s |}.
Definition set_resets (r : gmap PublicKey Z) (s : Egress) : Egress :=
  {| dir := dir s; conns := conns s; vpn_conns := vpn_conns s; path_resets := r; accepted_routes := accepted_routes s;
     stats := stats s; closed := closed s; effects := effects s |}.
Definition set_routes (r : list (string * Endpoint)) (s : Egress) : Egress :=
  {| dir := dir s; conns := conns s; vpn_conns := vpn_conns s; path_resets := path_resets s; accepted_routes := r;
     stats := stats s; closed := closed s; effects := effects s |}.
Definition set_stats (st : NetStats) (s : Egress) : Egress :=
  {| dir := dir s; conns := conns s; vpn_conns := vpn_conns s; path_resets := path_resets s; accepted_routes := accepted_routes s;
     stats := st; closed := closed s; effects := effects s |}.
Definition emit (e : list Effect) (s : Egress) : Egress :=
  {| dir := dir s; conns := conns s; vpn_conns := vpn_conns s; path_resets := path_resets s; accepted_routes := accepted_routes s;
     stats := stats s; closed := closed s; effects := effects s ++ e |}.
Definition close_conn (c : Z) (s : Egress) : Egress :=
  {| dir := dir s; conns := conns s; vpn_conns := vpn_conns s; path_resets := path_resets s; accepted_routes := accepted_routes s;
     stats := stats s; closed := {[c]} ∪ closed s; effects := effects s ++ [CloseConn c] |}.
Definition bump (c : counter) (n : Z) (s : Egress) : Egress := set_stats (fetch_add c n (stats s)) s.

(** ** Routing *)
Inductive Decision := Forward (e : Endpoint) (out : bytes) | DropPacket (c : option counter).

Section Egress.
Context `{!ContentHash, !DocCrates, !Clock, !NetCrates, !DirectoryOrder, !UnicodeText, !Cedar}.

(** An [Option]-returning call whose result is matched. *)
Definition parsed {A} (r : ropt A) : N (option A) := fun n =>
  match r with Ok a => (n, Ok (Some a)) | Err _ => (n, Ok None) | Panic => (n, Panic) end.
(** [match lookup { Ok(Some(e)) => .., _ => count and drop }]. *)
Definition forward_or_drop (e : option Endpoint) (out : bytes) : Decision :=
  match e with Some e => Forward e out | None => DropPacket (Some eg_drop_noroute) end.

Definition route_via6 (pkt : bytes) : N Decision :=
  dst ← parsed (parse_dest_ipv6 pkt);
  match dst ≫= via6_decode with
  | None => mret (DropPacket None)
  | Some (site, _) => e ← resolve_site_endpoint site; mret (forward_or_drop e pkt)
  end.

(** The address embedded in a client's 4via6 source address. *)
Definition vip_of_client (v6 : Ipv6Addr) : Ipv4Addr :=
  let o := octets6 v6 in V4 (o !!! 12%nat) (o !!! 13%nat) (o !!! 14%nat) (o !!! 15%nat).
Definition route_reply (env : PacketEnv) (pkt : bytes) (dst : Ipv4Addr) : N Decision :=
  match (st ← pe_siit env; client_for_pool st dst), (st ← pe_siit env; my_site st) with
  | Some client, Some site =>
      src ← parsed (parse_src_ipv4 pkt);
      match src with
      | None => mret (DropPacket None)
      | Some real =>
          out ← parsed (translate_v4_to_v6 pkt (via6_encode site real) client);
          match out with
          | None => mret (DropPacket None)
          | Some v6pkt => e ← ok (lookup_vpn_endpoint (vip_of_client client)); mret (forward_or_drop (mjoin e) v6pkt)
          end
      end
  | _, _ => mret (DropPacket None)
  end.

(** The reach policy, between members only. *)
Definition reach_gate (env : PacketEnv) (pkt : bytes) (src dst : Ipv4Addr) : N bool :=
  if negb (is_virtual_addr src) then mret true else
  port ← parsed (parse_dest_port pkt);
  n ← asks (fun n => n);
  let '(allow, refresh) := vpn_reach_allowed (vpn_vip_owner n) (pe_engine env) src dst port in
  _ ← (if refresh : bool then nmodify notify_refresh else mret tt);
  mret allow.
Definition route_member (env : PacketEnv) (pkt : bytes) (dst : Ipv4Addr) : N Decision :=
  src ← parsed (parse_src_ipv4 pkt);
  match src with
  | None => mret (DropPacket None)
  | Some src =>
      allow ← reach_gate env pkt src dst;
      if (allow : bool) then e ← ok (lookup_vpn_endpoint dst); mret (forward_or_drop (mjoin e) pkt)
      else mret (DropPacket (Some eg_drop_reach))
  end.

(** Gateways covering [dst] with the longest prefix seen so far, in table order. *)
Definition candidate_step (dst : Ipv4Addr) (acc : option Z * list Endpoint) (route : string * Endpoint) :
    option Z * list Endpoint :=
  match parse_cidr_v4 route.1 with
  | Some (_, len) =>
      if cidr_contains_v4 route.1 dst then
        match acc.1 with
        | Some bl => if len <? bl then acc else if len =? bl then (acc.1, acc.2 ++ [route.2]) else (Some len, [route.2])
        | None => (Some len, [route.2])
        end
      else acc
  | None => acc
  end.
Definition candidates (routes : list (string * Endpoint)) (dst : Ipv4Addr) : list Endpoint :=
  (foldl (candidate_step dst) (None, []) routes).2.
(** [last_rx.get(..).map(|t| t.elapsed() < STALE_AFTER).unwrap_or(false)]. *)
Definition rx_fresh (env : PacketEnv) (pk : PublicKey) : bool :=
  match pe_last_rx env !! print_public_key pk with Some t => sat_sub (pe_now env) t <? STALE_AFTER | None => false end.
Definition route_gateway (env : PacketEnv) (routes : list (string * Endpoint)) (pkt : bytes) (dst : Ipv4Addr) : N Decision :=
  let cs := candidates routes dst in
  if decide (cs = []) then mret (DropPacket (Some eg_drop_noroute)) else
  chosen ← lift (idx cs (select_live cs (fun e => rx_fresh env e.1)));
  mret (Forward chosen pkt).

Definition route_packet (env : PacketEnv) (routes : list (string * Endpoint)) (pkt : bytes) : N Decision :=
  if match head pkt with Some b => (b .>> 4) =? 6 | None => false end then route_via6 pkt else
  dst ← parsed (parse_dest_ipv4 pkt);
  match dst with
  | None => mret (DropPacket None)
  | Some dst => if is_siit_pool_addr dst then route_reply env pkt dst
                else if is_virtual_addr dst then route_member env pkt dst
                else route_gateway env routes pkt dst
  end.

(** ** The connection to send on *)
Definition conn_open (env : PacketEnv) (s : Egress) (c : Z) : bool :=
  negb (bool_decide (c ∈ pe_closed env)) && negb (bool_decide (c ∈ closed s)).
Definition lower_id (a b : PublicKey) : bool := lex_leb a b && negb (bool_decide (a = b)).

Definition drop_dial (pk : PublicKey) (s : Egress) : Egress :=
  match conns s !! pk with
  | Some (c, _) => close_conn c (set_conns (delete pk (conns s)) (vpn_conns s) s)
  | None => s
  end.
Definition drop_inbound (pk : PublicKey) (s : Egress) : Egress :=
  match vpn_conns s !! print_public_key pk with
  | Some c => close_conn c (set_conns (conns s) (delete (print_public_key pk) (vpn_conns s)) s)
  | None => s
  end.
Definition reset_path (env : PacketEnv) (pk : PublicKey) (s : Egress) : Egress :=
  let due := match path_resets s !! pk with Some t => PATH_RESET_COOLDOWN <=? sat_sub (pe_now env) t | None => true end in
  if due then emit [ResetNode pk] (set_resets (<[pk := pe_now env]> (path_resets s)) s) else s.
Definition redial (env : PacketEnv) (e : Endpoint) (s : Egress) : Egress * option Z :=
  let s := reset_path env e.1 (drop_inbound e.1 (drop_dial e.1 s)) in
  if pe_wedged env then (bump eg_drop_noroute 1 s, None) else
  let s := emit [Dial e.1 e.2] s in
  match pe_dial env e.1 with
  | Some c => (emit [SpawnPump c] (set_conns (<[e.1 := (c, pe_dialed env)]> (conns s)) (vpn_conns s) s), Some c)
  | None => (bump eg_drop_noroute 1 s, None)
  end.
Definition choose_conn (env : PacketEnv) (e : Endpoint) (s : Egress) : Egress * option Z :=
  let fresh := rx_fresh env e.1 in
  let dialed := match conns s !! e.1 with
                | Some (c, at_) => if conn_open env s c && (fresh || (sat_sub (pe_now env) at_ <? DIAL_GRACE)) then (s, Some c)
                                   else redial env e s
                | None => redial env e s
                end in
  match vpn_conns s !! print_public_key e.1 with
  | Some c => if conn_open env s c && fresh then
                (if lower_id (endpoint_id (dir s)) e.1 then drop_dial e.1 s else s, Some c)
              else dialed
  | None => dialed
  end.

(** ** Sending *)
Definition send_packet (env : PacketEnv) (pk : PublicKey) (c : Z) (out : bytes) (s : Egress) : rust NodeErr Egress :=
  if pe_wedged env then Ok s else
  match pe_send env with
  | SendOk waited =>
      let s := bump eg_sent_ok 1 (emit [Send c out] s) in
      let s := if BACKPRESSURE_MIN <=? waited
               then bump eg_backpressure_nanos (u64 waited) (bump eg_backpressure_waits 1 s) else s in
      st ← record_egress_latency (pe_elapsed env) (stats s);
      Ok (set_stats st s)
  | SendFailed true =>
      let s := bump eg_drop_send_closed 1 s in
      let shared := if bool_decide (vpn_conns s !! print_public_key pk = Some c)
                    then delete (print_public_key pk) (vpn_conns s) else vpn_conns s in
      Ok (set_conns (delete pk (conns s)) shared s)
  | SendFailed false => Ok (bump eg_send_transient 1 s)
  | SendTimedOut =>
      Ok (bump eg_drop_send_timeout 1 (bump eg_backpressure_nanos SEND_TIMEOUT (bump eg_backpressure_waits 1 s)))
  end.

(** One packet off the device. *)
Definition handle_packet (env : PacketEnv) (pkt : bytes) (s : Egress) : rust NodeErr Egress :=
  let s := bump eg_tun_bytes (Z.of_nat (length pkt)) (bump eg_tun_pkts 1 s) in
  match route_packet env (accepted_routes s) pkt (dir s) with
  | (n, Ok (DropPacket c)) => Ok (match c with Some c => bump c 1 (set_dir n s) | None => set_dir n s end)
  | (n, Ok (Forward e out)) =>
      let '(s, c) := choose_conn env e (set_dir n s) in
      match c with Some c => send_packet env e.1 c out s | None => Ok s end
  | (_, Err e) => Err e
  | (_, Panic) => Panic
  end.

(** ** The other branches of the loop *)
Definition keepalive (env_closed : gset Z) (s : Egress) : Egress :=
  let alive := fun c => negb (bool_decide (c ∈ env_closed)) && negb (bool_decide (c ∈ closed s)) in
  let cs := base.filter (fun x : PublicKey * (Z * Z) => alive x.2.1 = true) (conns s) in
  let vs := base.filter (fun x : string * Z => alive x.2 = true) (vpn_conns s) in
  emit [Heartbeats (list_to_set (map (fun x => x.2.1) (map_to_list cs)));
        Heartbeats (list_to_set (map snd (map_to_list vs)))] (set_conns cs vs s).

Definition install (c : string) : Effect := if decide (c = EXIT_CIDR) then InstallExit else InstallClient c.
Definition uninstall (c : string) : Effect := if decide (c = EXIT_CIDR) then UninstallExit else UninstallClient c.
Definition has_route (l : list (string * Endpoint)) (c : string) : bool := existsb (fun r => bool_decide (r.1 = c)) l.
Definition refresh_routes (fresh : list (string * Endpoint)) (s : Egress) : Egress :=
  let old := accepted_routes s in
  set_routes fresh
    (emit (map install (base.filter (fun c => has_route old c = false) (map fst fresh)) ++
           map uninstall (base.filter (fun c => has_route fresh c = false) (map fst old))) s).
Definition route_tick (accept_subnets : bool) (exit_pref : option string) (s : Egress) : rust NodeErr Egress :=
  match accepted_route_endpoints accept_subnets exit_pref (dir s) with
  | (n, Ok fresh) => Ok (refresh_routes fresh (set_dir n s))
  | (_, Err e) => Err e
  | (_, Panic) => Panic
  end.

(** What wakes the loop; between two turns other tasks change what they share with it. *)
Inductive Event :=
| Keepalive (env_closed : gset Z)
| RouteTick (accept_subnets : bool) (exit_pref : option string)
| Packet (env : PacketEnv) (pkt : bytes)
| Others (n : Node) (inbound : gmap string Z).
Definition turn (ev : Event) (s : Egress) : rust NodeErr Egress :=
  match ev with
  | Keepalive c => Ok (keepalive c s)
  | RouteTick a x => route_tick a x s
  | Packet env pkt => handle_packet env pkt s
  | Others n inbound => Ok (set_conns (conns s) inbound (set_dir n s))
  end.
(** The loop, up to the device's end. *)
Fixpoint outbound (evs : list Event) (s : Egress) : rust NodeErr Egress :=
  match evs with [] => Ok s | ev :: evs' => s ← turn ev s; outbound evs' s end.
Definition outbound_start (n : Node) (inbound : gmap string Z) (routes : list (string * Endpoint)) (st : NetStats) : Egress :=
  {| dir := n; conns := ∅; vpn_conns := inbound; path_resets := ∅; accepted_routes := routes; stats := st; closed := ∅;
     effects := map install (map fst routes) |}.
End Egress.

(** ** Gateways *)
Section Gateways.
Context `{!ContentHash, !DocCrates, !Clock, !NetCrates, !DirectoryOrder, !UnicodeText, !Cedar}.

(** What the scan holds: the longest prefix covering [dst] so far and all its gateways in order. *)
Definition best_gateways (routes : list (string * Endpoint)) (dst : Ipv4Addr) (acc : option Z * list Endpoint) : Prop :=
  match acc.1 with
  | None => acc.2 = [] /\ forall c e, (c, e) ∈ routes -> match_len c dst = None
  | Some len => acc.2 = omap (fun r => if decide (match_len r.1 dst = Some len) then Some r.2 else None) routes /\
                acc.2 <> [] /\ forall c e l, (c, e) ∈ routes -> match_len c dst = Some l -> l <= len
  end.

Lemma candidate_step_match_len dst acc c e : candidate_step dst acc (c, e) =
  match match_len c dst with
  | Some len => match acc.1 with
                | Some bl => if len <? bl then acc else if len =? bl then (acc.1, acc.2 ++ [e]) else (Some len, [e])
                | None => (Some len, [e])
                end
  | None => acc
  end.
Proof.
  unfold candidate_step, match_len, cidr_contains_v4. cbn [fst snd]. destruct (parse_cidr_v4 c) as [[net len]|]; cbn; [|done].
  by destruct (_ =? _).
Qed.
Lemma omap_none {A B} (f : A -> option B) l : (forall x, x ∈ l -> f x = None) -> omap f l = [].
Proof. induction l as [|x l IH]; intros Hf; [done|]. cbn. rewrite (Hf x) by (by left). apply IH. intros y Hy. apply Hf. by right. Qed.
Lemma candidates_best routes dst : best_gateways routes dst (foldl (candidate_step dst) (None, []) routes).
Proof.
  induction routes as [|[c e] routes IH] using rev_ind; [split; [done|by intros c e ?%elem_of_nil]|].
  rewrite foldl_app. cbn [foldl]. rewrite candidate_step_match_len. set (acc := foldl _ _ routes) in *.
  assert (forall c' e', (c', e') ∈ routes ++ [(c, e)] -> (c', e') ∈ routes \/ c' = c) as Hin by set_solver.
  unfold best_gateways in IH |- *. destruct (match_len c dst) as [len|] eqn:Em, acc as [[bl|] cs]; cbn [fst snd] in IH |- *.
  - destruct IH as (-> & Hne & Hmax). destruct (Z.ltb_spec len bl); [|destruct (Z.eqb_spec len bl) as [->|]]; cbn [fst snd].
    + rewrite omap_app. cbn. rewrite Em, decide_False, app_nil_r by (intros [=]; lia). split_and!; [done|done|].
      intros c' e' l [?| ->]%Hin Hl; [by eauto|]. rewrite Em in Hl. injection Hl as <-. lia.
    + rewrite omap_app. cbn. rewrite Em, decide_True by done. split_and!; [done|by destruct (omap _ routes)|].
      intros c' e' l [?| ->]%Hin Hl; [by eauto|]. rewrite Em in Hl. injection Hl as <-. lia.
    + rewrite omap_app. cbn. rewrite Em, decide_True by done. split_and!; [|done|].
      * rewrite omap_none; [done|]. intros [c' e'] Hr. apply decide_False. cbn. intros Hl. specialize (Hmax _ _ _ Hr Hl). lia.
      * intros c' e' l [Hr| ->]%Hin Hl; [|rewrite Em in Hl; injection Hl as <-; lia]. specialize (Hmax _ _ _ Hr Hl). lia.
  - destruct IH as (-> & Hnone). rewrite omap_app. cbn. rewrite Em, decide_True by done. split_and!; [|done|].
    + rewrite omap_none; [done|]. intros [c' e'] Hr. apply decide_False. cbn. by rewrite (Hnone _ _ Hr).
    + intros c' e' l [Hr| ->]%Hin Hl; [by rewrite (Hnone _ _ Hr) in Hl|rewrite Em in Hl; injection Hl as <-; lia].
  - destruct IH as (-> & Hne & Hmax). rewrite omap_app. cbn. rewrite Em, decide_False, app_nil_r by done. split_and!; [done|done|].
    intros c' e' l [Hr| ->]%Hin Hl; [by eauto|congruence].
  - destruct IH as (-> & Hnone). split; [done|]. intros c' e' [Hr| ->]%Hin; [by eauto|done].
Qed.
(** The first gateway the scan keeps is the one longest-prefix matching selects. *)
Lemma candidates_head routes dst : head (candidates routes dst) = longest_prefix_match routes dst.
Proof.
  unfold candidates, longest_prefix_match.
  assert (match foldl (lpm_step dst) None routes, foldl (candidate_step dst) (None, []) routes with
          | None, (None, []) => True
          | Some (l, v), (Some l', v' :: _) => l = l' /\ v = v'
          | _, _ => False
          end) as Hinv.
  { induction routes as [|[c e] routes IH] using rev_ind; [done|]. rewrite !foldl_app. cbn [foldl].
    rewrite candidate_step_match_len, lpm_step_match_len.
    destruct (match_len c dst) as [len|]; [|done].
    destruct (foldl (lpm_step dst) None routes) as [[l v]|], (foldl (candidate_step dst) _ routes) as [[l'|] [|v' vs]]; try done.
    destruct IH as [-> ->]. cbn [fst snd]. destruct (Z.ltb_spec len l'), (Z.ltb_spec l' len); try lia; [done|..].
    - destruct (Z.eqb_spec len l'); [lia|done].
    - by destruct (Z.eqb_spec len l'); [|lia]. }
  destruct (foldl (lpm_step dst) None routes) as [[l v]|], (foldl (candidate_step dst) _ routes) as [[l'|] [|v' vs]]; try done.
  by destruct Hinv as [-> ->].
Qed.
Lemma select_live_spec {T} (live : T -> bool) (cs : list T) x : head cs = Some x ->
  exists e, cs !! select_live cs live = Some e /\ e ∈ cs /\
    if existsb live cs then live e = true else e = x.
Proof.
  intros Hh. unfold select_live. destruct (list_find _ cs) as [[i e]|] eqn:E.
  - apply list_find_Some in E as (Hi & Hl & _). exists e. split_and!; [done|by eapply list_elem_of_lookup_2|].
    assert (existsb live cs = true) as ->; [|done]. apply existsb_exists. exists e. split; [|done].
    apply list_elem_of_In. by eapply list_elem_of_lookup_2.
  - apply list_find_None in E. exists x. destruct cs as [|y cs]; [done|]. injection Hh as ->. split_and!; [done|by left|].
    destruct (existsb live (x :: cs)) eqn:Ex; [|done]. apply existsb_exists in Ex as (y & Hy & Hl).
    apply list_elem_of_In in Hy. rewrite Forall_forall in E. by destruct (E y Hy).
Qed.
End Gateways.

(** A packet for a gatewayed network goes to a gateway of the most specific route that covers its
    address: to one heard from in the last twelve seconds if there is any such, and otherwise to the one
    longest-prefix matching over the accepted routes selects; it is dropped, and counted, exactly when
    that finds none. *)
Theorem gateway_failover `{!ContentHash, !DocCrates, !Clock, !NetCrates, !DirectoryOrder, !UnicodeText, !Cedar}
    env routes pkt dst n :
  match longest_prefix_match routes dst with
  | None => route_gateway env routes pkt dst n = (n, Ok (DropPacket (Some eg_drop_noroute)))
  | Some first => exists e c len, route_gateway env routes pkt dst n = (n, Ok (Forward e pkt)) /\
      (c, e) ∈ routes /\ match_len c dst = Some len /\
      (forall c' e' len', (c', e') ∈ routes -> match_len c' dst = Some len' -> len' <= len) /\
      (e = first \/ rx_fresh env e.1 = true) /\
      ((exists c' e', (c', e') ∈ routes /\ match_len c' dst = Some len /\ rx_fresh env e'.1 = true) -> rx_fresh env e.1 = true)
  end.
Proof.
  pose proof (candidates_head routes dst) as Hh. pose proof (candidates_best routes dst) as Hb.
  unfold route_gateway. unfold candidates in *. destruct (foldl _ _ routes) as [o cs]. cbn [snd] in *.
  destruct (longest_prefix_match routes dst) as [first|]; [|by destruct cs].
  destruct (select_live_spec (fun e : Endpoint => rx_fresh env e.1) cs first Hh) as (e & He & Hin & Hl).
  rewrite decide_False by (by intros ->). unfold mbind, N_bind, lift, idx. rewrite He.
  unfold best_gateways in Hb. cbn [fst snd] in Hb. destruct o as [len|]; [|destruct Hb as [-> _]; done].
  destruct Hb as (Hcs & _ & Hmax). rewrite Hcs in Hin. apply list_elem_of_omap in Hin as ([c e'] & Hr & Hs). cbn in Hs.
  case_decide as Hm; [|done]. injection Hs as ->. exists e, c, len. split_and!; [done|done|done|done|..].
  - destruct (existsb _ cs); [by right|by left].
  - intros (c' & e' & Hr' & Hm' & Hf). assert (existsb (fun e : Endpoint => rx_fresh env e.1) cs = true) as Hx; [|by rewrite Hx in Hl].
    apply existsb_exists. exists e'. split; [|done]. rewrite Hcs. apply list_elem_of_In, list_elem_of_omap. exists (c', e').
    by rewrite decide_True.
Qed.

(** ** What leaves, and on which connection *)
Definition is_v6 (pkt : bytes) : bool := match head pkt with Some b => (b .>> 4) =? 6 | None => false end.
(** The packets sent so far and the connections they went out on. *)
Definition sent (s : Egress) : list (Z * bytes) :=
  omap (fun e => match e with Send c p => Some (c, p) | _ => None end) (effects s).

Section Sending.
Context `{!ContentHash, !DocCrates, !Clock, !NetCrates, !DirectoryOrder, !UnicodeText, !Cedar}.
(** Who is at the other end of a connection. *)
Context (remote : Z -> PublicKey).

Inductive routed (env : PacketEnv) (routes : list (string * Endpoint)) (n : Node) (pkt : bytes) : Endpoint -> bytes -> Prop :=
| routed_via6 dst site ip n' e : is_v6 pkt = true -> parse_dest_ipv6 pkt = Ok dst -> via6_decode dst = Some (site, ip) ->
    resolve_site_endpoint site n = (n', Ok (Some e)) -> routed env routes n pkt e pkt
| routed_reply dst st client site real out n' e : is_v6 pkt = false -> parse_dest_ipv4 pkt = Ok dst ->
    is_siit_pool_addr dst = true -> pe_siit env = Some st -> client_for_pool st dst = Some client -> my_site st = Some site ->
    parse_src_ipv4 pkt = Ok real -> translate_v4_to_v6 pkt (via6_encode site real) client = Ok out ->
    lookup_vpn_endpoint (vip_of_client client) n = (n', Ok (Some e)) -> routed env routes n pkt e out
| routed_member dst src n1 n' e : is_v6 pkt = false -> parse_dest_ipv4 pkt = Ok dst -> is_siit_pool_addr dst = false ->
    is_virtual_addr dst = true -> parse_src_ipv4 pkt = Ok src ->
    reach_gate env pkt src dst n = (n1, Ok true) ->
    lookup_vpn_endpoint dst n1 = (n', Ok (Some e)) -> routed env routes n pkt e pkt
| routed_gateway dst e : is_v6 pkt = false -> parse_dest_ipv4 pkt = Ok dst -> is_siit_pool_addr dst = false ->
    is_virtual_addr dst = false ->
    candidates routes dst !! select_live (candidates routes dst) (fun e => rx_fresh env e.1) = Some e ->
    routed env routes n pkt e pkt.

Lemma bind_parsed {A B} (r : ropt A) (k : option A -> N B) n n' (b : B) : (parsed r ≫= k) n = (n', Ok b) ->
  exists o, k o n = (n', Ok b) /\ (o = None \/ exists a, o = Some a /\ r = Ok a).
Proof. unfold mbind, N_bind, parsed. destruct r; [eauto 6|eauto|done]. Qed.
Lemma bind_ok_inv {A B} (m : N A) (k : A -> N B) n n' b : (m ≫= k) n = (n', Ok b) -> exists n1 a, m n = (n1, Ok a) /\ k a n1 = (n', Ok b).
Proof. unfold mbind, N_bind. destruct (m n) as [n1 [a| |]]; [eauto|done..]. Qed.
Lemma forward_inv o out e out' : forward_or_drop o out = Forward e out' -> o = Some e /\ out' = out.
Proof. destruct o; [by intros [= -> ->]|done]. Qed.
Lemma ok_join {A} (m : N (option A)) n n' o a : ok m n = (n', Ok o) -> mjoin o = Some a -> m n = (n', Ok (Some a)).
Proof. unfold ok. destruct (m n) as [n1 [x| |]]; [|by intros [= <- <-]..|done]. intros [= <- <-]. cbn. by intros ->. Qed.

Lemma route_packet_routed env routes pkt n n' e out :
  route_packet env routes pkt n = (n', Ok (Forward e out)) -> routed env routes n pkt e out.
Proof.
  unfold route_packet. fold (is_v6 pkt). destruct (is_v6 pkt) eqn:E6.
  - unfold route_via6. intros (o & Hk & Ho)%bind_parsed. destruct Ho as [->|(dst & -> & Hd)]; [done|]. cbn in Hk.
    destruct (via6_decode dst) as [[site ip]|] eqn:Ev; [|done]. apply bind_ok_inv in Hk as (n1 & o & Hr & [= -> Hf]).
    apply forward_inv in Hf as [-> ->]. by eapply routed_via6.
  - intros (o & Hk & Ho)%bind_parsed. destruct Ho as [->|(dst & -> & Hd)]; [done|].
    destruct (is_siit_pool_addr dst) eqn:Ep; [|destruct (is_virtual_addr dst) eqn:Ev].
    + unfold route_reply in Hk. destruct (pe_siit env) as [st|] eqn:Es; [|done]. cbn in Hk.
      destruct (client_for_pool st dst) as [client|] eqn:Ec; [|done]. destruct (my_site st) as [site|] eqn:Em; [|done].
      apply bind_parsed in Hk as (o & Hk & Ho). destruct Ho as [->|(real & -> & Hr)]; [done|].
      apply bind_parsed in Hk as (o & Hk & Ho). destruct Ho as [->|(v6 & -> & Ht)]; [done|].
      apply bind_ok_inv in Hk as (n1 & o & Hl & [= -> Hf]). apply forward_inv in Hf as [Hj ->]. eapply routed_reply; try done. by eapply ok_join.
    + unfold route_member in Hk. apply bind_parsed in Hk as (o & Hk & Ho). destruct Ho as [->|(src & -> & Hs)]; [done|].
      apply bind_ok_inv in Hk as (n1 & allow & Hg & Hk). destruct allow; [|done].
      apply bind_ok_inv in Hk as (n2 & o & Hl & [= -> Hf]). apply forward_inv in Hf as [Hj ->]. eapply routed_member; try done. by eapply ok_join.
    + unfold route_gateway in Hk. case_decide; [done|]. apply bind_ok_inv in Hk as (n1 & o & Hl & [= -> -> ->]).
      unfold lift, idx in Hl. eapply routed_gateway; try done. destruct (_ !! _); [|done]. by injection Hl as _ ->.
Qed.

Definition conns_ok (s : Egress) : Prop :=
  (forall pk c at_, conns s !! pk = Some (c, at_) -> remote c = pk) /\
  (forall pk c, vpn_conns s !! print_public_key pk = Some c -> remote c = pk).
(** A connection the loop may send on: open, and heard from or just dialed; or dialed for this packet. *)
Definition usable (env : PacketEnv) (s : Egress) (pk : PublicKey) (c : Z) : Prop :=
  conn_open env s c = true /\ (rx_fresh env pk = true \/
     exists at_, conns s !! pk = Some (c, at_) /\ sat_sub (pe_now env) at_ < DIAL_GRACE) \/
  pe_wedged env = false /\ pe_dial env pk = Some c.
Definition dials_right (env : PacketEnv) : Prop := forall pk c, pe_dial env pk = Some c -> remote c = pk.

Lemma sent_emit l s : sent (emit l s) = sent s ++ omap (fun e => match e with Send c p => Some (c, p) | _ => None end) l.
Proof. unfold sent. cbn. apply omap_app. Qed.
Lemma sent_close c s : sent (close_conn c s) = sent s.
Proof. unfold sent. cbn. by rewrite omap_app, app_nil_r. Qed.

Lemma drop_dial_keeps pk s : conns_ok s -> conns_ok (drop_dial pk s) /\ sent (drop_dial pk s) = sent s /\
  vpn_conns (drop_dial pk s) = vpn_conns s /\ conns (drop_dial pk s) = delete pk (conns s).
Proof.
  intros [Hc Hv]. unfold drop_dial. destruct (conns s !! pk) as [[c t]|] eqn:E.
  - split_and!; [split; [|done]|etransitivity; [apply sent_close|done]|done|done]. cbn. intros pk' c' t' Hl. apply lookup_delete_Some in Hl as [_ Hl]. by eapply Hc.
  - split_and!; [done|done|done|]. by rewrite delete_id.
Qed.
Lemma drop_inbound_keeps pk s : conns_ok s -> conns_ok (drop_inbound pk s) /\ sent (drop_inbound pk s) = sent s /\
  vpn_conns (drop_inbound pk s) = delete (print_public_key pk) (vpn_conns s) /\ conns (drop_inbound pk s) = conns s.
Proof.
  intros [Hc Hv]. unfold drop_inbound. destruct (vpn_conns s !! print_public_key pk) as [c|] eqn:E.
  - split_and!; [split; [done|]|etransitivity; [apply sent_close|done]|done|done]. cbn. intros pk' c' Hl. apply lookup_delete_Some in Hl as [_ Hl]. by eapply Hv.
  - split_and!; [done|done| |done]. by rewrite delete_id.
Qed.
Lemma reset_path_keeps env pk s : conns_ok s -> conns_ok (reset_path env pk s) /\ sent (reset_path env pk s) = sent s /\
  vpn_conns (reset_path env pk s) = vpn_conns s /\ conns (reset_path env pk s) = conns s.
Proof. intros Hok. unfold reset_path. case_match; [|done]. split_and!; [done| |done|done]. rewrite sent_emit. cbn. by rewrite app_nil_r. Qed.

(** Giving up the connections to a peer and dialing it anew. *)
Lemma redial_spec env e s s' oc : conns_ok s -> dials_right env -> redial env e s = (s', oc) ->
  conns_ok s' /\ sent s' = sent s /\ oc = (if pe_wedged env then None else pe_dial env e.1) /\
  (forall c t, conns s' !! e.1 = Some (c, t) -> oc = Some c) /\ vpn_conns s' !! print_public_key e.1 = None.
Proof.
  intros Hok Hd. unfold redial.
  destruct (drop_dial_keeps e.1 s Hok) as (Hk1 & Hs1 & Hv1 & Hc1).
  destruct (drop_inbound_keeps e.1 _ Hk1) as (Hk2 & Hs2 & Hv2 & Hc2).
  destruct (reset_path_keeps env e.1 _ Hk2) as (Hk3 & Hs3 & Hv3 & Hc3).
  set (s3 := reset_path _ _ _) in *. rewrite Hc2, Hc1 in Hc3. rewrite Hv2 in Hv3. rewrite Hs2, Hs1 in Hs3.
  destruct (pe_wedged env).
  { intros [= <- <-]. cbn. split_and!; [done|done|done| |]; [rewrite Hc3|rewrite Hv3]; by rewrite lookup_delete_eq. }
  assert (sent (emit [Dial e.1 e.2] s3) = sent s) as Hs4 by (rewrite sent_emit; cbn; by rewrite app_nil_r).
  destruct (pe_dial env e.1) as [c|] eqn:E; intros [= <- <-]; cbn [conns vpn_conns emit set_conns bump set_stats].
  - split_and!; [|etransitivity; [apply sent_emit|cbn; by rewrite app_nil_r]|done| |].
    + destruct Hk3 as [Hc Hv]. split; [|exact Hv]. cbn. intros pk c' t'. destruct (decide (pk = e.1)) as [->|Hne].
      * rewrite lookup_insert_eq. intros [= <- <-]. by apply Hd.
      * rewrite lookup_insert_ne by done. apply Hc.
    + intros c' t'. rewrite lookup_insert_eq. by intros [= <- _].
    + by rewrite Hv3, lookup_delete_eq.
  - split_and!; [done|done|done| |]; [rewrite Hc3|rewrite Hv3]; by rewrite lookup_delete_eq.
Qed.
Lemma choose_conn_spec env e s s' oc : conns_ok s -> dials_right env -> choose_conn env e s = (s', oc) ->
  conns_ok s' /\ sent s' = sent s /\ forall c, oc = Some c -> remote c = e.1 /\ usable env s e.1 c.
Proof.
  intros Hok Hd. unfold choose_conn.
  assert (forall s1 o1, redial env e s = (s1, o1) -> conns_ok s1 /\ sent s1 = sent s /\
    forall c, o1 = Some c -> remote c = e.1 /\ usable env s e.1 c) as Hre.
  { intros s1 o1 Hr. destruct (redial_spec _ _ _ _ _ Hok Hd Hr) as (H1' & H2' & -> & _). split_and!; [done|done|].
    intros c Hc. destruct (pe_wedged env) eqn:Ew; [done|]. split; [by apply Hd|by right]. }
  assert (forall s1 o1, match conns s !! e.1 with
      | Some (c, at_) => if conn_open env s c && (rx_fresh env e.1 || (sat_sub (pe_now env) at_ <? DIAL_GRACE)) then (s, Some c) else redial env e s
      | None => redial env e s end = (s1, o1) -> conns_ok s1 /\ sent s1 = sent s /\
    forall c, o1 = Some c -> remote c = e.1 /\ usable env s e.1 c) as Hdial.
  { intros s1 o1. destruct (conns s !! e.1) as [[c t]|] eqn:Ec; [|apply Hre]. destruct (_ && _) eqn:Eo; [|apply Hre].
    intros [= <- <-]. split_and!; [done|done|]. intros c' [= <-]. destruct Hok as [Hc _]. split; [exact (Hc _ _ _ Ec)|]. left.
    apply andb_true_iff in Eo as [Eo [Ef|Ef]%orb_true_iff]; (split; [done|]); [by left|right]. exists t. split; [done|]. by apply Z.ltb_lt. }
  destruct (vpn_conns s !! print_public_key e.1) as [c|] eqn:Ev; [|apply Hdial].
  destruct (conn_open env s c && rx_fresh env e.1) eqn:Eo; [|apply Hdial]. intros [= <- <-].
  assert (remote c = e.1 /\ usable env s e.1 c) as Hu.
  { destruct Hok as [_ Hv]. split; [exact (Hv _ _ Ev)|]. apply andb_true_iff in Eo as [Eo Ef]. left. split; [done|by left]. }
  destruct (lower_id _ _).
  - destruct (drop_dial_keeps e.1 s Hok) as (Hk & Hs & _). split_and!; [done|done|]. by intros c' [= <-].
  - split_and!; [done|done|]. by intros c' [= <-].
Qed.
Lemma send_packet_spec env pk c out s s' : conns_ok s -> send_packet env pk c out s = Ok s' ->
  conns_ok s' /\ (sent s' = sent s \/ pe_wedged env = false /\ sent s' = sent s ++ [(c, out)]).
Proof.
  intros Hok. unfold send_packet. destruct (pe_wedged env); [by intros [= <-]; auto|].
  destruct (pe_send env) as [w|[]|].
  - assert (sent (emit [Send c out] s) = sent s ++ [(c, out)]) as Hs by (by rewrite sent_emit).
    intros Hr. destruct (BACKPRESSURE_MIN <=? w); cbn in Hr;
      (destruct (record_egress_latency _ _) as [st| |]; [|done..]); injection Hr as <-; (split; [exact Hok|by right]).
  - intros [= <-]. cbn. split; [|by left]. destruct Hok as [Hc Hv]. split; cbn.
    + intros pk' c' t Hl. apply lookup_delete_Some in Hl as [_ Hl]. by eapply Hc.
    + intros pk' c'. case_bool_decide; [|apply Hv]. intros Hl. apply lookup_delete_Some in Hl as [_ Hl]. by eapply Hv.
  - intros [= <-]. by auto.
  - intros [= <-]. by auto.
Qed.
End Sending.

(** C22.  What leaves is justified: handling a packet sends at most one datagram; it is what the packet routes
    to (between members only what the reach policy lets through, a 4via6 reply translated for its
    client, otherwise the packet as it is), it goes to the endpoint the directory gives for the
    destination and to no other node, and on a connection that was dialed for it, or that is open and
    was heard from in the last twelve seconds or dialed within them.  Connections stay filed under the
    node at their other end. *)
Theorem egress_justified `{!ContentHash, !DocCrates, !Clock, !NetCrates, !DirectoryOrder, !UnicodeText, !Cedar}
    (remote : Z -> PublicKey) env pkt s s' :
  conns_ok remote s -> dials_right remote env -> handle_packet env pkt s = Ok s' ->
  conns_ok remote s' /\
  (sent s' = sent s \/ exists c e out, sent s' = sent s ++ [(c, out)] /\ pe_wedged env = false /\
     routed env (accepted_routes s) (dir s) pkt e out /\ remote c = e.1 /\ usable env s e.1 c).
Proof.
  intros Hok Hd. unfold handle_packet. cbn [accepted_routes dir bump set_stats].
  destruct (route_packet env (accepted_routes s) pkt (dir s)) as [n [[e out|c]| |]] eqn:Er; [| |done..].
  - set (s0 := set_dir n _). destruct (choose_conn env e s0) as [s1 oc] eqn:Ec.
    destruct (choose_conn_spec remote env e s0 s1 oc Hok Hd Ec) as (Hok1 & Hs1 & Hoc).
    destruct oc as [c|]; [|intros [= <-]; split; [done|by left]].
    intros Hsend. destruct (send_packet_spec remote _ _ _ _ _ _ Hok1 Hsend) as [Hok2 Hs2]. split; [done|].
    destruct Hs2 as [Hs2|[Hw Hs2]]; [left; by rewrite Hs2, Hs1|right]. destruct (Hoc c eq_refl) as [Hr Hu].
    exists c, e, out. split_and!; [by rewrite Hs2, Hs1|done|by eapply route_packet_routed|done|exact Hu].
  - intros [= <-]. destruct c; (split; [exact Hok|by left]).
Qed.

(** ** Dead paths *)
Section Paths.
Context `{!ContentHash, !DocCrates, !Clock, !NetCrates, !DirectoryOrder, !UnicodeText, !Cedar}.

Lemma drop_dial_closes pk s c t : conns s !! pk = Some (c, t) -> c ∈ closed (drop_dial pk s).
Proof. intros E. unfold drop_dial. rewrite E. cbn. set_solver. Qed.
Lemma drop_dial_closed pk s : closed s ⊆ closed (drop_dial pk s).
Proof. unfold drop_dial. destruct (conns s !! pk) as [[c t]|]; [cbn; set_solver|done]. Qed.
Lemma drop_inbound_closes pk s c : vpn_conns s !! print_public_key pk = Some c -> c ∈ closed (drop_inbound pk s).
Proof. intros E. unfold drop_inbound. rewrite E. cbn. set_solver. Qed.
Lemma drop_inbound_closed pk s : closed s ⊆ closed (drop_inbound pk s).
Proof. unfold drop_inbound. destruct (vpn_conns s !! _); [cbn; set_solver|done]. Qed.
Lemma reset_path_fields env pk s : closed (reset_path env pk s) = closed s /\ conns (reset_path env pk s) = conns s /\
  vpn_conns (reset_path env pk s) = vpn_conns s /\ stats (reset_path env pk s) = stats s /\ sent (reset_path env pk s) = sent s.
Proof. unfold reset_path. case_match; [|done]. split_and!; try done. rewrite sent_emit. cbn. by rewrite app_nil_r. Qed.
Lemma drop_dial_fields pk s : stats (drop_dial pk s) = stats s /\ sent (drop_dial pk s) = sent s /\
  vpn_conns (drop_dial pk s) = vpn_conns s.
Proof.
  unfold drop_dial. destruct (conns s !! pk) as [[c t]|]; [|done]. split_and!; [done| |done]. by etransitivity; [apply sent_close|].
Qed.
Lemma drop_inbound_fields pk s : stats (drop_inbound pk s) = stats s /\ sent (drop_inbound pk s) = sent s /\
  vpn_conns (drop_inbound pk s) = delete (print_public_key pk) (vpn_conns s).
Proof.
  unfold drop_inbound. destruct (vpn_conns s !! print_public_key pk) as [c|] eqn:E.
  - split_and!; [done| |done]. by etransitivity; [apply sent_close|].
  - split_and!; [done|done|]. by rewrite delete_id.
Qed.
(** No connection to the peer has a sign of life. *)
Definition path_dead (env : PacketEnv) (s : Egress) (pk : PublicKey) : Prop :=
  rx_fresh env pk = false /\
  forall c t, conns s !! pk = Some (c, t) -> conn_open env s c = false \/ DIAL_GRACE <= sat_sub (pe_now env) t.
Lemma choose_dead env e s : path_dead env s e.1 -> choose_conn env e s = redial env e s.
Proof.
  intros [Hf Hd]. unfold choose_conn. rewrite Hf.
  assert (match conns s !! e.1 with
      | Some (c, at_) => if conn_open env s c && (false || (sat_sub (pe_now env) at_ <? DIAL_GRACE)) then (s, Some c) else redial env e s
      | None => redial env e s end = redial env e s) as Hr.
  { destruct (conns s !! e.1) as [[c t]|] eqn:E; [|done]. destruct (Hd _ _ eq_refl) as [->|Hg]; [done|].
    rewrite (proj2 (Z.ltb_ge _ _) Hg). by rewrite andb_false_r. }
  destruct (vpn_conns s !! _); [|exact Hr]. by rewrite andb_false_r.
Qed.
Lemma redial_fresh env e s c : pe_wedged env = false -> pe_dial env e.1 = Some c ->
  exists s', redial env e s = (s', Some c) /\ conns s' !! e.1 = Some (c, pe_dialed env) /\
    vpn_conns s' !! print_public_key e.1 = None /\ sent s' = sent s /\ stats s' = stats s /\
    (forall c' t, conns s !! e.1 = Some (c', t) -> c' ∈ closed s') /\
    (forall c', vpn_conns s !! print_public_key e.1 = Some c' -> c' ∈ closed s').
Proof.
  intros Hw Hd. unfold redial. rewrite Hw, Hd. eexists. split; [reflexivity|]. cbn [conns vpn_conns stats closed emit set_conns].
  destruct (reset_path_fields env e.1 (drop_inbound e.1 (drop_dial e.1 s))) as (Ec & _ & Ev & Es & Et).
  destruct (drop_inbound_fields e.1 (drop_dial e.1 s)) as (Es2 & Et2 & Ev2). destruct (drop_dial_fields e.1 s) as (Es1 & Et1 & Ev1).
  split_and!.
  - apply lookup_insert_eq.
  - rewrite Ev, Ev2. apply lookup_delete_eq.
  - etransitivity; [apply sent_emit|]. cbn. rewrite app_nil_r. etransitivity; [apply sent_emit|]. cbn. by rewrite app_nil_r, Et, Et2.
  - by rewrite Es, Es2.
  - intros c' t E. rewrite Ec. apply drop_inbound_closed. by eapply drop_dial_closes.
  - intros c' E. rewrite Ec. apply drop_inbound_closes. by rewrite Ev1.
Qed.
End Paths.

(** C23.  A dead path is replaced: when nothing was heard from a peer for twelve seconds and the connection to
    it, if any, is closed or was dialed that long ago, the next packet for it gives up what was there,
    closing it, dials anew, and once the dial succeeds goes out on the new connection; and as long as that
    one is open and no inbound connection replaces it, packets of the next twelve seconds reuse it. *)
Theorem dead_path_replaced `{!ContentHash, !DocCrates, !Clock, !NetCrates, !DirectoryOrder, !UnicodeText, !Cedar}
    env pkt s n e out c waited :
  route_packet env (accepted_routes s) pkt (dir s) = (n, Ok (Forward e out)) ->
  path_dead env s e.1 -> pe_wedged env = false -> pe_dial env e.1 = Some c -> pe_send env = SendOk waited ->
  stats_ok (stats s) ->
  exists s', handle_packet env pkt s = Ok s' /\ sent s' = sent s ++ [(c, out)] /\
    (forall c' t, conns s !! e.1 = Some (c', t) -> c' ∈ closed s') /\
    (forall c', vpn_conns s !! print_public_key e.1 = Some c' -> c' ∈ closed s') /\
    (forall env', conn_open env' s' c = true -> sat_sub (pe_now env') (pe_dialed env) < DIAL_GRACE ->
       choose_conn env' e s' = (s', Some c)).
Proof.
  intros Hr Hdead Hw Hd Hs Hst. unfold handle_packet. cbn [accepted_routes dir bump set_stats]. rewrite Hr.
  set (s0 := set_dir n _). rewrite (choose_dead env e s0) by exact Hdead.
  destruct (redial_fresh env e s0 c Hw Hd) as (s1 & -> & Hc & Hv & Hsent & Hstat & Hcl1 & Hcl2).
  unfold send_packet. rewrite Hw, Hs. set (s2 := if BACKPRESSURE_MIN <=? waited then _ else _).
  assert (stats_ok (stats s2)) as Hst2.
  { unfold s2. destruct (BACKPRESSURE_MIN <=? waited); cbn; rewrite Hstat; exact Hst. }
  assert (dir s2 = dir s1 /\ conns s2 = conns s1 /\ vpn_conns s2 = vpn_conns s1 /\ closed s2 = closed s1 /\ sent s2 = sent s1 ++ [(c, out)]) as (_ & Ec & Ev & Ecl & Es).
  { assert (sent (emit [Send c out] s1) = sent s1 ++ [(c, out)]) as Hx by (by rewrite sent_emit).
    unfold s2. destruct (BACKPRESSURE_MIN <=? waited); split_and!; try done; exact Hx. }
  destruct (record_egress_ok (E := NodeErr) (pe_elapsed env) _ Hst2) as (st & ->). cbn [mbind rust_bind].
  eexists. split; [reflexivity|]. cbn [closed set_stats]. rewrite Ecl.
  split_and!; [etransitivity; [exact Es|by rewrite Hsent]|exact Hcl1|exact Hcl2|].
  intros env' Ho Hg. unfold choose_conn. cbn [conns vpn_conns set_stats]. rewrite Ec, Ev, Hv, Hc, Ho.
  rewrite (proj2 (Z.ltb_lt _ _) Hg). by rewrite orb_true_r.
Qed.

(** ** The kernel's routes *)
(** The routes asked for and not withdrawn. *)
Definition route_effect (r : gset string) (e : Effect) : gset string :=
  match e with
  | InstallExit => {[EXIT_CIDR]} ∪ r
  | InstallClient c => {[c]} ∪ r
  | UninstallExit => r ∖ {[EXIT_CIDR]}
  | UninstallClient c => r ∖ {[c]}
  | _ => r
  end.
Definition installed (l : list Effect) : gset string := foldl route_effect ∅ l.
Definition cidrs (l : list (string * Endpoint)) : gset string := list_to_set (map fst l).

Section KernelRoutes.
Context `{!ContentHash, !DocCrates, !Clock, !NetCrates, !DirectoryOrder, !UnicodeText, !Cedar}.
Implicit Types s : Egress.

Lemma foldl_install l r : foldl route_effect r (map install l) = list_to_set l ∪ r.
Proof.
  revert r. induction l as [|c l IH]; intros r; cbn; [set_solver|]. rewrite IH. unfold install. case_decide as E; cbn; [subst|]; set_solver.
Qed.
Lemma foldl_uninstall l r : foldl route_effect r (map uninstall l) = r ∖ list_to_set l.
Proof.
  revert r. induction l as [|c l IH]; intros r; cbn; [set_solver|]. rewrite IH. unfold uninstall. case_decide as E; cbn; [subst|]; set_solver.
Qed.
Lemma has_route_cidrs l c : has_route l c = true <-> c ∈ cidrs l.
Proof.
  unfold has_route, cidrs. rewrite elem_of_list_to_set, list_elem_of_fmap, existsb_exists. split.
  - intros (r & Hr%list_elem_of_In & E%bool_decide_eq_true). by exists r.
  - intros (r & -> & Hr%list_elem_of_In). exists r. split; [done|]. by apply bool_decide_eq_true.
Qed.

(** The routes the loop goes by are those it asked the kernel for. *)
Definition routes_ok s : Prop := installed (effects s) = cidrs (accepted_routes s).
Lemma refresh_routes_ok fresh s : routes_ok s -> routes_ok (refresh_routes fresh s).
Proof.
  unfold routes_ok. intros Hok. unfold refresh_routes, installed. cbn [effects accepted_routes set_routes emit].
  rewrite !foldl_app, foldl_install, foldl_uninstall. fold (installed (effects s)). rewrite Hok.
  apply set_eq. intros c. rewrite elem_of_difference, elem_of_union, !elem_of_list_to_set, !list_elem_of_filter.
  pose proof (has_route_cidrs fresh c) as Hf. pose proof (has_route_cidrs (accepted_routes s) c) as Ho.
  unfold cidrs in Hf, Ho |- *. rewrite elem_of_list_to_set in Hf, Ho |- *. rewrite elem_of_list_to_set.
  destruct (has_route fresh c), (has_route (accepted_routes s) c); naive_solver.
Qed.

(** Nothing else touches them. *)
Definition routes_kept s s' : Prop := accepted_routes s' = accepted_routes s /\ installed (effects s') = installed (effects s).
#[local] Instance routes_kept_preorder : PreOrder routes_kept.
Proof. split; [done|]. intros a b c [] []. split; congruence. Qed.
Lemma kept_ok s s' : routes_kept s s' -> routes_ok s -> routes_ok s'.
Proof. unfold routes_ok. by intros [-> ->]. Qed.
Lemma emit_kept l s : Forall (fun e => forall r, route_effect r e = r) l -> routes_kept s (emit l s).
Proof.
  intros Hl. split; [done|]. unfold installed. cbn. rewrite foldl_app. generalize (foldl route_effect ∅ (effects s)). clear s.
  induction Hl as [|e l He Hl IH]; intros r; [done|]. cbn. by rewrite He.
Qed.
Lemma close_kept c s s0 : routes_kept s0 s -> routes_kept s0 (close_conn c s).
Proof. intros Hk. etransitivity; [exact Hk|]. split; [done|]. unfold installed. cbn. by rewrite foldl_app. Qed.
Lemma emitted_kept l s s0 : routes_kept s0 s -> Forall (fun e => forall r, route_effect r e = r) l -> routes_kept s0 (emit l s).
Proof. intros Hk Hl. etransitivity; [exact Hk|by apply emit_kept]. Qed.
Lemma drop_dial_kept pk s : routes_kept s (drop_dial pk s).
Proof. unfold drop_dial. destruct (conns s !! pk) as [[c t]|]; [|done]. by apply close_kept. Qed.
Lemma drop_inbound_kept pk s : routes_kept s (drop_inbound pk s).
Proof. unfold drop_inbound. destruct (vpn_conns s !! _); [|done]. by apply close_kept. Qed.
Lemma redial_kept env e s : routes_kept s (redial env e s).1.
Proof.
  assert (routes_kept s (reset_path env e.1 (drop_inbound e.1 (drop_dial e.1 s)))) as Hk.
  { etransitivity; [apply drop_dial_kept|]. etransitivity; [apply drop_inbound_kept|]. unfold reset_path. case_match; [|done].
    apply emitted_kept; [done|by repeat constructor]. }
  unfold redial. destruct (pe_wedged env); [exact Hk|]. apply (emitted_kept [Dial e.1 e.2]) in Hk; [|by repeat constructor].
  destruct (pe_dial env e.1) as [c|]; [|exact Hk]. apply emitted_kept; [exact Hk|by repeat constructor].
Qed.
Lemma choose_conn_kept env e s : routes_kept s (choose_conn env e s).1.
Proof.
  unfold choose_conn.
  assert (routes_kept s (match conns s !! e.1 with
      | Some (c, at_) => if conn_open env s c && (rx_fresh env e.1 || (sat_sub (pe_now env) at_ <? DIAL_GRACE)) then (s, Some c) else redial env e s
      | None => redial env e s end).1) as Hd.
  { destruct (conns s !! e.1) as [[c t]|]; [|apply redial_kept]. destruct (_ && _); [done|apply redial_kept]. }
  destruct (vpn_conns s !! _); [|exact Hd]. destruct (_ && _); [|exact Hd]. cbn. destruct (lower_id _ _); [apply drop_dial_kept|done].
Qed.
Lemma send_packet_kept env pk c out s s' : send_packet env pk c out s = Ok s' -> routes_kept s s'.
Proof.
  unfold send_packet. destruct (pe_wedged env); [by intros [= <-]|]. destruct (pe_send env) as [w|[]|]; [|by intros [= <-]..].
  assert (routes_kept s (emit [Send c out] s)) as Hk by (apply emit_kept; by repeat constructor).
  intros Hr. destruct (BACKPRESSURE_MIN <=? w); cbn in Hr;
    (destruct (record_egress_latency _ _) as [st| |]; [|done..]); injection Hr as <-; exact Hk.
Qed.
Lemma turn_routes_ok ev s s' : routes_ok s -> turn ev s = Ok s' -> routes_ok s'.
Proof.
  intros Hok. destruct ev as [cl|a x|env pkt|n inbound]; cbn [turn].
  - intros [= <-]. eapply kept_ok; [|exact Hok]. apply emitted_kept; [done|by repeat constructor].
  - unfold route_tick. destruct (accepted_route_endpoints _ _ _) as [n [fresh| |]]; [|done..]. intros [= <-]. by apply refresh_routes_ok.
  - unfold handle_packet. cbn [accepted_routes dir bump set_stats].
    destruct (route_packet _ _ _ _) as [n [[e out|c]| |]]; [| |done..].
    + set (s0 := set_dir n _). pose proof (choose_conn_kept env e s0) as Hk. destruct (choose_conn env e s0) as [s1 [c|]].
      * intros Hs%send_packet_kept. eapply kept_ok; [|exact Hok]. etransitivity; [exact Hk|exact Hs].
      * intros [= <-]. eapply kept_ok; [exact Hk|exact Hok].
    + intros [= <-]. by destruct c.
  - by intros [= <-].
Qed.
End KernelRoutes.

(** C24.  The kernel is asked for exactly the routes accepted: whatever wakes the loop and in whatever order,
    the routes it has asked for and not withdrawn are the networks of the routes it goes by. *)
Theorem kernel_routes_follow `{!ContentHash, !DocCrates, !Clock, !NetCrates, !DirectoryOrder, !UnicodeText, !Cedar}
    n inbound routes st evs s :
  outbound evs (outbound_start n inbound routes st) = Ok s -> installed (effects s) = cidrs (accepted_routes s).
Proof.
  assert (routes_ok (outbound_start n inbound routes st)) as Hok.
  { unfold routes_ok, installed. cbn. rewrite foldl_install. unfold cidrs. set_solver. }
  revert Hok. generalize (outbound_start n inbound routes st). induction evs as [|ev evs IH]; intros s0 Hok.
  - by intros [= <-].
  - cbn [outbound]. destruct (turn ev s0) as [s1| |] eqn:E; [|done..]. cbn. apply IH. by eapply turn_routes_ok.
Qed.

(** ** Counting *)
(** What becomes of a packet, one counter each. *)
Definition fates : list counter :=
  [eg_drop_reach; eg_drop_noroute; eg_sent_ok; eg_drop_send_closed; eg_send_transient; eg_drop_send_timeout].
Definition fate_total (st : NetStats) : Z := foldr Z.add 0 (map (count st) fates).

Section Counting.
Context `{!ContentHash, !DocCrates, !Clock, !NetCrates, !DirectoryOrder, !UnicodeText, !Cedar}.

Lemma fate_add c n st : c ∉ fates -> fate_total (fetch_add c n st) = fate_total st.
Proof.
  intros Hc. unfold fate_total. f_equal. apply map_ext_in. intros x Hx%list_elem_of_In. rewrite count_fetch_add.
  rewrite decide_False; [done|]. by intros ->.
Qed.
Lemma fate_incr c st : c ∈ fates -> 0 <= count st c < 2 ^ 64 - 1 -> fate_total (fetch_add c 1 st) = fate_total st + 1.
Proof.
  intros Hc Hr. unfold fate_total, fates. cbn [map foldr]. rewrite !count_fetch_add.
  assert (u64 (count st c + 1) = count st c + 1) as Hu by (unfold u64; apply Z.mod_small; lia).
  unfold fates in Hc. repeat (apply elem_of_cons in Hc as [->|Hc]; [rewrite Hu; repeat ((rewrite decide_True by done) || (rewrite decide_False by done)); lia|]). by apply elem_of_nil in Hc.
Qed.
Lemma forward_drop o out c : forward_or_drop o out = DropPacket (Some c) -> c ∈ fates.
Proof. destruct o; [done|]. intros [= <-]. set_solver. Qed.
Lemma route_drop_fate env routes pkt n n' c : route_packet env routes pkt n = (n', Ok (DropPacket (Some c))) -> c ∈ fates.
Proof.
  unfold route_packet. destruct (match head pkt with Some b => _ | None => false end).
  - unfold route_via6. intros (o & Hk & _)%bind_parsed. destruct (o ≫= via6_decode) as [[site ip]|]; [|done].
    apply bind_ok_inv in Hk as (n1 & e & _ & [= -> Hf]). by eapply forward_drop.
  - intros (o & Hk & _)%bind_parsed. destruct o as [dst|]; [|done]. destruct (is_siit_pool_addr dst); [|destruct (is_virtual_addr dst)].
    + unfold route_reply in Hk. destruct (pe_siit env) as [st|]; [|done]. cbn in Hk. destruct (client_for_pool st dst); [|done].
      destruct (my_site st); [|done]. apply bind_parsed in Hk as (o & Hk & _). destruct o as [real|]; [|done].
      apply bind_parsed in Hk as (o & Hk & _). destruct o as [v6|]; [|done].
      apply bind_ok_inv in Hk as (n1 & e & _ & [= -> Hf]). by eapply forward_drop.
    + unfold route_member in Hk. apply bind_parsed in Hk as (o & Hk & _). destruct o as [src|]; [|done].
      apply bind_ok_inv in Hk as (n1 & [] & _ & Hk); [|injection Hk as _ <-; set_solver].
      apply bind_ok_inv in Hk as (n2 & e & _ & [= -> Hf]). by eapply forward_drop.
    + unfold route_gateway in Hk. case_decide; [injection Hk as _ <-; set_solver|]. by apply bind_ok_inv in Hk as (n1 & e & _ & [=]).
Qed.
Lemma record_latency_count {E} d st st' : record_egress_latency (E := E) d st = Ok st' -> count st' = count st.
Proof. unfold record_egress_latency. destruct (bump_bucket _ _); [|done..]. by intros [= <-]. Qed.
Lemma redial_stats env e s s' oc : redial env e s = (s', oc) ->
  oc = None /\ stats s' = fetch_add eg_drop_noroute 1 (stats s) \/ is_Some oc /\ stats s' = stats s.
Proof.
  unfold redial. destruct (reset_path_fields env e.1 (drop_inbound e.1 (drop_dial e.1 s))) as (_ & _ & _ & Es & _).
  destruct (drop_inbound_fields e.1 (drop_dial e.1 s)) as (Es2 & _). destruct (drop_dial_fields e.1 s) as (Es1 & _).
  rewrite Es2, Es1 in Es. destruct (pe_wedged env); [intros [= <- <-]; left; cbn; by rewrite Es|].
  destruct (pe_dial env e.1); intros [= <- <-]; [right; split; [by eexists|exact Es]|left; cbn; by rewrite Es].
Qed.
Lemma choose_stats env e s s' oc : choose_conn env e s = (s', oc) ->
  oc = None /\ stats s' = fetch_add eg_drop_noroute 1 (stats s) \/ is_Some oc /\ stats s' = stats s.
Proof.
  unfold choose_conn.
  assert (forall s1 o1, match conns s !! e.1 with
      | Some (c, at_) => if conn_open env s c && (rx_fresh env e.1 || (sat_sub (pe_now env) at_ <? DIAL_GRACE)) then (s, Some c) else redial env e s
      | None => redial env e s end = (s1, o1) ->
    o1 = None /\ stats s1 = fetch_add eg_drop_noroute 1 (stats s) \/ is_Some o1 /\ stats s1 = stats s) as Hd.
  { intros s1 o1. destruct (conns s !! e.1) as [[c t]|]; [|apply redial_stats]. destruct (_ && _); [|apply redial_stats].
    intros [= <- <-]. by right; split; [eexists|]. }
  destruct (vpn_conns s !! _); [|apply Hd]. destruct (_ && _); [|apply Hd]. intros [= <- <-]. right. split; [by eexists|].
  destruct (lower_id _ _); [apply drop_dial_fields|done].
Qed.
Lemma send_counted env pk c out s s' : (forall f, f ∈ fates -> 0 <= count (stats s) f < 2 ^ 64 - 1) -> pe_wedged env = false ->
  send_packet env pk c out s = Ok s' -> fate_total (stats s') = fate_total (stats s) + 1.
Proof.
  intros Hb Hw. unfold send_packet. rewrite Hw. destruct (pe_send env) as [w|[]|].
  - intros Hr. assert (fate_total (stats (bump eg_sent_ok 1 (emit [Send c out] s))) = fate_total (stats s) + 1) as Hf
      by (apply fate_incr; [set_solver|apply Hb; set_solver]).
    destruct (BACKPRESSURE_MIN <=? w); cbn -[fetch_add] in Hr;
      (destruct (record_egress_latency _ _) as [st| |] eqn:El; [|done..]); injection Hr as <-; apply record_latency_count in El;
      (etransitivity; [|exact Hf]); unfold fate_total; cbn [stats set_stats]; rewrite El; [|done].
    fold (fate_total (fetch_add eg_backpressure_nanos (u64 w) (fetch_add eg_backpressure_waits 1 (fetch_add eg_sent_ok 1 (stats s))))).
    rewrite !fate_add by set_solver. done.
  - intros [= <-]. cbn [stats set_conns bump set_stats]. apply fate_incr; [set_solver|apply Hb; set_solver].
  - intros [= <-]. cbn [stats bump set_stats]. apply fate_incr; [set_solver|apply Hb; set_solver].
  - intros [= <-]. cbn [stats bump set_stats]. rewrite fate_incr; [by rewrite !fate_add by set_solver|set_solver|].
    rewrite !count_fetch_add, !decide_False by done. apply Hb. set_solver.
Qed.
End Counting.

(** Every packet that is routed somewhere is accounted for once: short of wrap-around, one and only one of
    the counters of what became of it goes up, by one; a packet the policy refuses or for which there is
    no route likewise; one that is malformed or has no translation changes none of them. *)
Theorem egress_counted `{!ContentHash, !DocCrates, !Clock, !NetCrates, !DirectoryOrder, !UnicodeText, !Cedar}
    env pkt s s' n d :
  (forall f, f ∈ fates -> 0 <= count (stats s) f < 2 ^ 64 - 1) -> pe_wedged env = false ->
  route_packet env (accepted_routes s) pkt (dir s) = (n, Ok d) -> handle_packet env pkt s = Ok s' ->
  fate_total (stats s') = fate_total (stats s) + match d with DropPacket None => 0 | _ => 1 end.
Proof.
  intros Hb Hw Hr. unfold handle_packet. cbn [accepted_routes dir bump set_stats]. rewrite Hr.
  set (s0 := set_dir n _). assert (fate_total (stats s0) = fate_total (stats s)) as H0'.
  { unfold s0. cbn [stats set_dir bump set_stats]. rewrite !fate_add by set_solver. done. }
  assert (forall f, f ∈ fates -> 0 <= count (stats s0) f < 2 ^ 64 - 1) as Hb0.
  { intros f Hf. unfold s0. cbn [stats set_dir bump set_stats]. rewrite !count_fetch_add.
    rewrite !decide_False by (intros ->; revert Hf; set_solver). by apply Hb. }
  destruct d as [e out|c].
  - destruct (choose_conn env e s0) as [s1 oc] eqn:Ec. destruct (choose_stats _ _ _ _ _ Ec) as [[-> Hs]|[[c ->] Hs]].
    + intros [= <-]. rewrite Hs, fate_incr; [lia|set_solver|apply Hb0; set_solver].
    + intros Hsend%send_counted; [|by rewrite Hs|done]. rewrite Hsend, Hs. lia.
  - intros [= <-]. destruct c as [c|]; [|lia].
    cbn [stats bump set_stats]. apply route_drop_fate in Hr. rewrite fate_incr; [lia|done|by apply Hb0].
Qed.

(** ** Witnesses *)
#[local] Existing Instances demo_net_crates demo_order demo_doc_crates demo_content_hash demo_clock demo_cedar.

(** From this node to the member at 100.64.0.7, whose connection was dialed thirteen seconds ago. *)
Definition demo_packet : bytes := [69; 0; 0; 20; 0; 0; 0; 0; 64; 17; 0; 0; 100; 64; 0; 1; 100; 64; 0; 7].
Definition demo_remote (c : Z) : PublicKey := str_bytes (if decide (c = 7) then "lan" else "vkey").
Definition demo_env : PacketEnv :=
  {| pe_now := 20 * 10 ^ 9; pe_dialed := 21 * 10 ^ 9; pe_last_rx := ∅; pe_siit := None; pe_engine := None; pe_closed := ∅;
     pe_wedged := false; pe_dial := fun pk => if decide (pk = str_bytes "vkey") then Some 2 else None; pe_send := SendOk 0;
     pe_elapsed := 5 |}.
Definition demo_egress : Egress :=
  {| dir := demo_node; conns := {[str_bytes "vkey" := (1, 7 * 10 ^ 9)]}; vpn_conns := ∅; path_resets := ∅; accepted_routes := [];
     stats := net_stats_default; closed := ∅; effects := [] |}.
Lemma demo_routed :
  (route_packet demo_env [] demo_packet demo_node).2 = Ok (Forward (str_bytes "vkey", None) demo_packet).
Proof. by vm_compute. Qed.

Lemma egress_justified_witness : exists s', handle_packet demo_env demo_packet demo_egress = Ok s' /\
  sent s' = [(2, demo_packet)] /\ conns_ok demo_remote s' /\ demo_remote 2 = str_bytes "vkey".
Proof.
  assert (match handle_packet demo_env demo_packet demo_egress with Ok s => sent s | _ => [] end = [(2, demo_packet)]) as Hs by (by vm_compute).
  destruct (handle_packet demo_env demo_packet demo_egress) as [s'| |] eqn:E; [|discriminate Hs..].
  exists s'. split; [done|]. split; [exact Hs|].
  destruct (egress_justified demo_remote demo_env demo_packet demo_egress s') as [Hok _]; [| |exact E|].
  - split; [|intros pk c; cbn; by rewrite lookup_empty]. cbn. intros pk c t Hl. apply lookup_singleton_Some in Hl as [<- [= <- <-]]. by vm_compute.
  - intros pk c. cbn. case_decide as Ek; [|done]. intros [= <-]. rewrite Ek. by vm_compute.
  - split; [exact Hok|by vm_compute].
Defined.

Lemma dead_path_replaced_witness : exists s', handle_packet demo_env demo_packet demo_egress = Ok s' /\
  sent s' = [(2, demo_packet)] /\ 1 ∈ closed s'.
Proof.
  destruct (dead_path_replaced demo_env demo_packet demo_egress (route_packet demo_env [] demo_packet demo_node).1
    (str_bytes "vkey", None) demo_packet 2 0) as (s' & E & Hs & Hc & _).
  - rewrite <-demo_routed. apply surjective_pairing.
  - split; [by vm_compute|]. cbn. intros c t Hl. apply lookup_singleton_Some in Hl as [_ [= <- <-]]. right. by vm_compute.
  - done.
  - by vm_compute.
  - done.
  - done.
  - exists s'. split_and!; [exact E|exact Hs|]. apply (Hc 1 (7 * 10 ^ 9)). by vm_compute.
Defined.

Lemma kernel_routes_follow_witness : exists s,
  outbound [Packet demo_env demo_packet; RouteTick true None]
    (outbound_start demo_node ∅ [("10.0.0.0/8", (str_bytes "lan", None))]%string net_stats_default) = Ok s /\
  installed (effects s) = ∅.
Proof.
  assert (match outbound [Packet demo_env demo_packet; RouteTick true None]
      (outbound_start demo_node ∅ [("10.0.0.0/8", (str_bytes "lan", None))]%string net_stats_default) with
    | Ok s => bool_decide (cidrs (accepted_routes s) = ∅) | _ => false end = true) as Hs by (by vm_compute).
  destruct (outbound _ _) as [s| |] eqn:E; [|discriminate Hs..].
  exists s. split; [done|]. rewrite (kernel_routes_follow _ _ _ _ _ _ E). by apply bool_decide_eq_true in Hs.
Defined.
