(* ===== verification/Import.v ===== *)
(** * Import: Tailscale policies as roles (hop-core/src/vpn/tailscale_import.rs)

    The stripping of comments and trailing commas, byte by byte as the code does it,
    and the translation of a policy's groups, rules and grants into roles, with the
    command that applies them (hop-cli/src/main.rs).  Parsing the stripped text is
    serde_json's and a parameter; the texts of notes and of skipped features are
    constructors.  Ordered maps are finite maps listed by key. *)
From S2P Require Import Prelude Text Policy Config Acl.
From Stdlib Require Import Ascii.
Local Open Scope Z_scope.

(** ** JSON with comments and commas *)
Definition QUOTE : Z := 34.
Definition BACKSLASH : Z := 92.
Definition SLASH : Z := 47.
Definition STAR : Z := 42.
Definition NEWLINE : Z := 10.
Definition COMMA : Z := 44.

(** [out.push(b as char)]: the byte as a Latin-1 character, in UTF-8. *)
Definition push (b : Z) : bytes := if b <? 128 then [b] else [192 + b / 64; 128 + b mod 64].

Inductive strip_state := Plain | InString (escaped : bool) | LineComment | BlockComment.
Fixpoint strip_comments (st : strip_state) (l : bytes) : bytes :=
  match l with
  | [] => []
  | c :: r =>
      match st with
      | InString escaped =>
          push c ++ strip_comments (if escaped then InString false else if c =? BACKSLASH then InString true
                                    else if c =? QUOTE then Plain else InString false) r
      | LineComment => if c =? NEWLINE then push c ++ strip_comments Plain r else strip_comments LineComment r
      | BlockComment =>
          match r with
          | d :: r' => if (c =? STAR) && (d =? SLASH) then strip_comments Plain r' else strip_comments BlockComment r
          | [] => []
          end
      | Plain =>
          if c =? QUOTE then push c ++ strip_comments (InString false) r else
          match r with
          | d :: r' => if (c =? SLASH) && (d =? SLASH) then strip_comments LineComment r
                       else if (c =? SLASH) && (d =? STAR) then strip_comments BlockComment r'
                       else push c ++ strip_comments Plain r
          | [] => push c
          end
      end
  end.

(** [(b as char).is_whitespace()]. *)
Definition is_ws (b : Z) : bool := in_range 9 13 b || (b =? 32) || (b =? 133) || (b =? 160).
Fixpoint skip_ws (l : bytes) : bytes := match l with [] => [] | b :: r => if is_ws b then skip_ws r else l end.
Definition closes (l : bytes) : bool := match skip_ws l with b :: _ => (b =? 125) || (b =? 93) | [] => false end.
Fixpoint drop_commas (l : bytes) : bytes :=
  match l with
  | [] => []
  | b :: r => if (b =? COMMA) && closes r then drop_commas r else push b ++ drop_commas r
  end.
Definition strip_jwcc (input : bytes) : bytes := drop_commas (strip_comments Plain input).

(** ** Policies *)
Record TsAcl := { action : string; acl_src : list string; acl_dst : list string }.
(** The [app] block: absent, of another shape, or capabilities. *)
Record TsGrant := { grant_src : list string; grant_dst : list string; grant_ip : nat;
                    grant_app : option (option (gmap string (list string))) }.
Record TsPolicy := { acls : list TsAcl; grants : list TsGrant; ts_groups : list string; tag_owners : nat; ssh : nat;
                     postures : nat; node_attrs : nat }.
Inductive Note := SrcIsMember (s : string) | SrcNotMapped (s : string) | UserRole (s local : string) | DstNotMapped (d : string)
  | CapsImported (n : nat) | PortsFlattened.
Inductive Skipped := NotAccept (action : string) | AppShape | TagOwners (n : nat) | SshRules (n : nat) | Postures (n : nat)
  | NodeAttrs (n : nat).
Record ImportResult := { roles : list RoleDefinition; tags_seen : list string; notes : list Note; skipped : list Skipped }.

Inductive DstTag := Tag (t : string) | Wildcard | Unsupported (d : string).
Definition src_to_role (src : string) : option string * list Note :=
  match strip_prefix "group:" src with
  | Some g => (Some g, [])
  | None =>
      if bool_decide (src = "*"%string) || bool_decide (src = "autogroup:members"%string) then (Some "member"%string, [SrcIsMember src])
      else if bool_decide (src = "autogroup:admin"%string) then (Some "admin"%string, [])
      else if starts_with "autogroup:" src || starts_with "tag:" src then (None, [SrcNotMapped src])
      else let local := default src (head (split_char "@"%char src)) in (Some local, [UserRole src local])
  end.
Definition dst_to_tag (dst : string) : DstTag :=
  if bool_decide (dst = "*"%string) || starts_with "*:" dst then Wildcard else
  match strip_prefix "tag:" dst with
  | Some rest => Tag (default rest (head (split_char ":"%char rest)))
  | None => Unsupported dst
  end.
Definition role_name_of (group : string) : string := default group (strip_prefix "group:" group).

(** Reach by role, tags seen, notes. *)
Record Acc := { reach : gmap string (list string); seen : list string; acc_notes : list Note }.
Definition add_once (t : string) (l : list string) : list string := if decide (t ∈ l) then l else l ++ [t].
Definition add_dst (role : string) (a : Acc) (d : string) : Acc :=
  let r := default [] (reach a !! role) in
  match dst_to_tag d with
  | Tag t => {| reach := <[role := add_once t r]> (reach a); seen := add_once t (seen a); acc_notes := acc_notes a |}
  | Wildcard => {| reach := <[role := add_once "*" r]> (reach a); seen := seen a; acc_notes := acc_notes a |}
  | Unsupported x => {| reach := reach a; seen := seen a; acc_notes := acc_notes a ++ [DstNotMapped x] |}
  end.
Definition add_src (dsts : list string) (a : Acc) (src : string) : Acc :=
  let '(role, ns) := src_to_role src in
  let a := {| reach := reach a; seen := seen a; acc_notes := acc_notes a ++ ns |} in
  match role with
  | None => a
  | Some role => foldl (add_dst role)
      {| reach := <[role := default [] (reach a !! role)]> (reach a); seen := seen a; acc_notes := acc_notes a |} dsts
  end.
Definition add_reach (srcs dsts : list string) (a : Acc) : Acc := foldl (add_src dsts) a srcs.

(** [BTreeMap] iteration. *)
Definition key_le {V} (x y : string * V) : Prop := str_leb x.1 y.1 = true.
#[export] Instance key_le_dec {V} : RelDecision (@key_le V).
Proof. intros x y. unfold key_le. apply _. Defined.
Definition by_key {V} (m : gmap string V) : list (string * V) := merge_sort key_le (map_to_list m).
Definition str_le (x y : string) : Prop := str_leb x y = true.
#[export] Instance str_le_dec : RelDecision str_le.
Proof. intros x y. unfold str_le. apply _. Defined.
(** [Vec::dedup]. *)
Fixpoint dedup (l : list string) : list string :=
  match l with
  | [] => []
  | x :: r => match dedup r with (y :: _) as d => if decide (x = y) then d else x :: d | [] => [x] end
  end.
Definition sorted_tags (l : list string) : list string := dedup (merge_sort str_le l).

Definition Caps : Type := gmap string (gmap string (list string)).
Definition extend_caps (caps have : gmap string (list string)) : gmap string (list string) :=
  foldl (fun m x => <[x.1 := default [] (m !! x.1) ++ x.2]> m) have (by_key caps).
Definition grant_caps (g : TsGrant) (caps : gmap string (list string)) (st : Caps * list Note) : Caps * list Note :=
  let st := foldl (fun (st : Caps * list Note) src =>
    let '(role, ns) := src_to_role src in
    match role with
    | Some role => (<[role := extend_caps caps (default ∅ (st.1 !! role))]> st.1, st.2 ++ ns)
    | None => (st.1, st.2 ++ ns)
    end) st (grant_src g) in
  (st.1, st.2 ++ [CapsImported (size caps)]).

Definition acl_step (st : Acc * list Skipped) (r : TsAcl) : Acc * list Skipped :=
  if bool_decide (action r = "accept"%string) then (add_reach (acl_src r) (acl_dst r) st.1, st.2)
  else (st.1, st.2 ++ [NotAccept (action r)]).
Definition set_notes (n : list Note) (a : Acc) : Acc := {| reach := reach a; seen := seen a; acc_notes := n |}.
Definition grant_step (st : Acc * Caps * list Skipped) (g : TsGrant) : Acc * Caps * list Skipped :=
  let '(a, caps, sk) := st in
  let a := add_reach (grant_src g) (grant_dst g) a in
  let '(a, caps, sk) := match grant_app g with
    | Some (Some c) => let '(caps, ns) := grant_caps g c (caps, acc_notes a) in (set_notes ns a, caps, sk)
    | Some None => (a, caps, sk ++ [AppShape])
    | None => (a, caps, sk)
    end in
  (if decide (grant_ip g = 0%nat) then a else set_notes (acc_notes a ++ [PortsFlattened]) a, caps, sk).

Definition imported_role (caps : Caps) (x : string * list string) : RoleDefinition :=
  {| rd_name := x.1; host_tags := sorted_tags x.2; user_mode := Individual; sudo := false; admin := false; groups := [];
     shell := None; network_only := false; rd_sandbox := unrestricted; capabilities := by_key (default ∅ (caps !! x.1));
     exec_tags := []; search_tags := [] |}.
Definition unmapped (p : TsPolicy) : list Skipped :=
  (if decide (tag_owners p = 0%nat) then [] else [TagOwners (tag_owners p)]) ++
  (if decide (ssh p = 0%nat) then [] else [SshRules (ssh p)]) ++
  (if decide (postures p = 0%nat) then [] else [Postures (postures p)]) ++
  (if decide (node_attrs p = 0%nat) then [] else [NodeAttrs (node_attrs p)]).
(** A role for every declared group. *)
Definition seed (l : list string) : gmap string (list string) :=
  foldl (fun m g => <[role_name_of g := default [] (m !! role_name_of g)]> m) ∅ l.
Definition translate (p : TsPolicy) : ImportResult :=
  let seeded := {| reach := seed (ts_groups p); seen := []; acc_notes := [] |} in
  let '(a, sk) := foldl acl_step (seeded, []) (acls p) in
  let '(a, caps, sk) := foldl grant_step (a, ∅, sk) (grants p) in
  {| roles := map (imported_role caps) (by_key (reach a)); tags_seen := sorted_tags (seen a); notes := acc_notes a;
     skipped := sk ++ unmapped p |}.
(** The whole import; [parse] is serde_json on the policy's shape. *)
Definition import_tailscale_policy (parse : bytes -> option TsPolicy) (hujson : bytes) : option ImportResult :=
  translate <$> parse (strip_jwcc hujson).

(** [hop acl import --apply]: a role of the same name is replaced. *)
Definition apply_role (store : list RoleDefinition) (r : RoleDefinition) : list RoleDefinition :=
  if existsb (fun x => bool_decide (rd_name x = rd_name r)) store
  then update_first (fun x => bool_decide (rd_name x = rd_name r)) (fun _ => r) store
  else store ++ [r].
Definition apply_import (store : list RoleDefinition) (r : ImportResult) : list RoleDefinition :=
  foldl apply_role store (roles r).

(** ** Lemmas on tags *)
Definition dst_reach (d : string) : option string :=
  match dst_to_tag d with Tag t => Some t | Wildcard => Some "*"%string | Unsupported _ => None end.
Definition reaches (a : Acc) (role t : string) : Prop := exists l, reach a !! role = Some l /\ t ∈ l.
Definition has_role (a : Acc) (role : string) : Prop := is_Some (reach a !! role).

Lemma elem_of_add_once t x l : t ∈ add_once x l <-> t = x \/ t ∈ l.
Proof. unfold add_once. case_decide; set_solver. Qed.
Lemma reaches_insert role l a r t s n :
  reaches {| reach := <[role := l]> (reach a); seen := s; acc_notes := n |} r t <->
  (if decide (r = role) then t ∈ l else reaches a r t).
Proof.
  unfold reaches. cbn. case_decide as E.
  - rewrite E, lookup_insert_eq. split; [by intros (? & [= <-] & ?)|by eauto].
  - by rewrite lookup_insert_ne by congruence.
Qed.
Lemma reaches_default a r t : reaches a r t <-> t ∈ default [] (reach a !! r).
Proof. unfold reaches. destruct (reach a !! r) as [l|]; cbn; set_solver. Qed.
Lemma add_dst_reaches role a d r t : reaches (add_dst role a d) r t <-> reaches a r t \/ r = role /\ dst_reach d = Some t.
Proof.
  unfold add_dst, dst_reach. destruct (dst_to_tag d) as [x| |x].
  - rewrite reaches_insert. case_decide as E; [rewrite E, elem_of_add_once, reaches_default|]; intuition congruence.
  - rewrite reaches_insert. case_decide as E; [rewrite E, elem_of_add_once, reaches_default|]; intuition congruence.
  - unfold reaches. cbn. naive_solver.
Qed.
Lemma add_dst_role role a d r : has_role a role -> has_role (add_dst role a d) r <-> has_role a r.
Proof.
  unfold has_role. intros Hr. unfold add_dst. destruct (dst_to_tag d); cbn; try done;
    (destruct (decide (r = role)) as [->|Hne]; [rewrite lookup_insert_eq; naive_solver|by rewrite lookup_insert_ne by congruence]).
Qed.
Lemma foldl_add_dst role dsts a : has_role a role ->
  (forall r t, reaches (foldl (add_dst role) a dsts) r t <-> reaches a r t \/ r = role /\ exists d, d ∈ dsts /\ dst_reach d = Some t) /\
  (forall r, has_role (foldl (add_dst role) a dsts) r <-> has_role a r).
Proof.
  revert a. induction dsts as [|d dsts IH]; intros a Hr; cbn [foldl]; [split; [set_solver|done]|].
  destruct (IH (add_dst role a d)) as [H1 H2]; [by apply add_dst_role|]. split.
  - intros r t. rewrite H1, add_dst_reaches. setoid_rewrite elem_of_cons. naive_solver.
  - intros r. by rewrite H2, add_dst_role.
Qed.
Lemma add_src_spec dsts a s :
  (forall r t, reaches (add_src dsts a s) r t <->
     reaches a r t \/ (src_to_role s).1 = Some r /\ exists d, d ∈ dsts /\ dst_reach d = Some t) /\
  (forall r, has_role (add_src dsts a s) r <-> has_role a r \/ (src_to_role s).1 = Some r).
Proof.
  unfold add_src. destruct (src_to_role s) as [[role|] ns]; cbn [fst snd].
  2:{ split; intros; [unfold reaches|unfold has_role]; cbn; naive_solver. }
  set (b := {| reach := <[role := _]> _; seen := _; acc_notes := _ |}).
  assert (has_role b role) as Hb by (unfold has_role, b; cbn; by rewrite lookup_insert_eq).
  destruct (foldl_add_dst role dsts b Hb) as [H1 H2].
  assert (forall r t, reaches b r t <-> reaches a r t) as Hbr.
  { intros r t. unfold b. cbn [reach seen acc_notes]. rewrite reaches_insert. case_decide as E; [|done]. by rewrite E, reaches_default. }
  assert (forall r, has_role b r <-> has_role a r \/ Some role = Some r) as Hbh.
  { intros r. unfold has_role, b. cbn. destruct (decide (role = r)) as [->|Hne]; [rewrite lookup_insert_eq; naive_solver|].
    rewrite lookup_insert_ne by done. naive_solver. }
  split; [|intros r; by rewrite H2, Hbh]. intros r t. rewrite H1, Hbr. naive_solver.
Qed.
Lemma add_reach_spec srcs dsts a :
  (forall r t, reaches (add_reach srcs dsts a) r t <-> reaches a r t \/
     exists s, s ∈ srcs /\ (src_to_role s).1 = Some r /\ exists d, d ∈ dsts /\ dst_reach d = Some t) /\
  (forall r, has_role (add_reach srcs dsts a) r <-> has_role a r \/ exists s, s ∈ srcs /\ (src_to_role s).1 = Some r).
Proof.
  unfold add_reach. revert a. induction srcs as [|s srcs IH]; intros a; cbn [foldl]; [set_solver|].
  destruct (IH (add_src dsts a s)) as [H1 H2], (add_src_spec dsts a s) as [H3 H4]. split.
  - intros r t. rewrite H1, H3. setoid_rewrite elem_of_cons. naive_solver.
  - intros r. rewrite H2, H4. setoid_rewrite elem_of_cons. naive_solver.
Qed.

(** The sources and destinations of the rules that grant something. *)
Definition Rule : Type := list string * list string.
Definition acl_rule (r : TsAcl) : list Rule := if decide (action r = "accept"%string) then [(acl_src r, acl_dst r)] else [].
Definition grant_rule (g : TsGrant) : list Rule := [(grant_src g, grant_dst g)].
Definition rules (p : TsPolicy) : list Rule := List.concat (map acl_rule (acls p)) ++ List.concat (map grant_rule (grants p)).
(** A rule among [rs] lets a role reach a tag, or names it as a source. *)
Definition granted (rs : list Rule) (r t : string) : Prop :=
  exists srcs dsts s d, (srcs, dsts) ∈ rs /\ s ∈ srcs /\ d ∈ dsts /\ (src_to_role s).1 = Some r /\ dst_reach d = Some t.
Definition named (rs : list Rule) (r : string) : Prop :=
  exists srcs dsts s, (srcs, dsts) ∈ rs /\ s ∈ srcs /\ (src_to_role s).1 = Some r.

Lemma granted_app a b r t : granted (a ++ b) r t <-> granted a r t \/ granted b r t.
Proof. unfold granted. setoid_rewrite elem_of_app. naive_solver. Qed.
Lemma named_app a b r : named (a ++ b) r <-> named a r \/ named b r.
Proof. unfold named. setoid_rewrite elem_of_app. naive_solver. Qed.
Lemma granted_nil r t : ~ granted [] r t.
Proof. intros (? & ? & ? & ? & ?%elem_of_nil & _). done. Qed.
Lemma named_nil r : ~ named [] r.
Proof. intros (? & ? & ? & ?%elem_of_nil & _). done. Qed.

(** A step that adds what some rules grant, and so the loop over such steps. *)
Definition adds (a a' : Acc) (rs : list Rule) : Prop :=
  (forall r t, reaches a' r t <-> reaches a r t \/ granted rs r t) /\ (forall r, has_role a' r <-> has_role a r \/ named rs r).
Lemma adds_fold {S A} (acc : S -> Acc) (step : S -> A -> S) (rule : A -> list Rule) l st :
  (forall st x, adds (acc st) (acc (step st x)) (rule x)) ->
  adds (acc st) (acc (foldl step st l)) (List.concat (map rule l)).
Proof.
  intros Hs. revert st. induction l as [|x l IH]; intros st; cbn [foldl map List.concat].
  - split; intros; pose proof granted_nil; pose proof named_nil; naive_solver.
  - destruct (IH (step st x)) as [H1 H2], (Hs st x) as [H3 H4]. split; intros.
    + rewrite H1, H3, granted_app. tauto.
    + rewrite H2, H4, named_app. tauto.
Qed.
Lemma add_reach_adds srcs dsts a : adds a (add_reach srcs dsts a) [(srcs, dsts)].
Proof.
  destruct (add_reach_spec srcs dsts a) as [H1 H2]. split; intros.
  - rewrite H1. unfold granted. setoid_rewrite list_elem_of_singleton. split.
    + intros [?|(s & ? & ? & d & ? & ?)]; [by left|right; by exists srcs, dsts, s, d].
    + intros [?|(? & ? & s & d & [= -> ->] & ? & ? & ? & ?)]; [by left|right; eauto 8].
  - rewrite H2. unfold named. setoid_rewrite list_elem_of_singleton. split.
    + intros [?|(s & ? & ?)]; [by left|right; by exists srcs, dsts, s].
    + intros [?|(? & ? & s & [= -> ->] & ? & ?)]; [by left|right; eauto].
Qed.
Lemma acl_step_adds st x : adds st.1 (acl_step st x).1 (acl_rule x).
Proof.
  unfold acl_step, acl_rule. case_bool_decide as E; [rewrite decide_True by done; apply add_reach_adds|].
  rewrite decide_False by done. split; intros; pose proof granted_nil; pose proof named_nil; naive_solver.
Qed.
Lemma grant_step_adds st g : adds st.1.1 (grant_step st g).1.1 (grant_rule g).
Proof.
  destruct st as [[a caps] sk]. unfold grant_step, grant_rule. cbn [fst].
  pose proof (add_reach_adds (grant_src g) (grant_dst g) a) as Ha. set (b := add_reach _ _ a) in *.
  assert (forall b', reach b' = reach b -> adds a b' [(grant_src g, grant_dst g)]) as Hb.
  { intros b' E. unfold adds, reaches, has_role in *. by rewrite E. }
  destruct (grant_app g) as [[c|]|].
  - destruct (grant_caps g c _) as [caps' ns]. case_decide; by apply Hb.
  - case_decide; by apply Hb.
  - case_decide; by apply Hb.
Qed.
Lemma seed_spec l r : (seed l !! r = Some [] /\ (exists g, g ∈ l /\ role_name_of g = r)) \/
  (seed l !! r = None /\ ~ exists g, g ∈ l /\ role_name_of g = r).
Proof.
  induction l as [|g l IH] using rev_ind; [right; split; [apply lookup_empty|set_solver]|].
  unfold seed in *. rewrite foldl_app. cbn [foldl]. set (m := foldl _ ∅ l) in *. destruct (decide (role_name_of g = r)) as [E|Hne].
  - left. split; [|exists g; set_solver]. rewrite E, lookup_insert_eq. by destruct IH as [[-> _]|[-> _]].
  - rewrite lookup_insert_ne by done. setoid_rewrite elem_of_app. setoid_rewrite list_elem_of_singleton.
    destruct IH as [[-> (x & ? & ?)]|[-> Hn]]; [left; split; [done|eauto]|right; split; [done|naive_solver]].
Qed.

Lemma elem_of_dedup x l : x ∈ dedup l <-> x ∈ l.
Proof.
  induction l as [|y l IH]; [done|]. cbn. destruct (dedup l) as [|z d].
  - set_solver.
  - case_decide as Ey; rewrite elem_of_cons in IH; rewrite !elem_of_cons; intuition congruence.
Qed.
Lemma elem_of_sorted_tags x l : x ∈ sorted_tags l <-> x ∈ l.
Proof. unfold sorted_tags. by rewrite elem_of_dedup, merge_sort_Permutation. Qed.
Lemma elem_of_by_key {V} (m : gmap string V) k v : (k, v) ∈ by_key m <-> m !! k = Some v.
Proof. unfold by_key. by rewrite merge_sort_Permutation, elem_of_map_to_list. Qed.
Lemma by_key_NoDup {V} (m : gmap string V) : NoDup (by_key m).*1.
Proof. unfold by_key. rewrite merge_sort_Permutation. apply NoDup_fst_map_to_list. Qed.

(** An imported role reaches exactly what the policy grants its sources: a tag is among a role's tags if
    and only if an accept rule or a grant has a source that stands for the role and a destination that
    stands for the tag, wildcards included; there is one role for every group the policy declares and
    every source a rule names, and no other. *)
Theorem import_reach_exact p :
  (forall r, r ∈ roles (translate p) -> forall t, t ∈ host_tags r <-> granted (rules p) (rd_name r) t) /\
  (forall n, n ∈ map rd_name (roles (translate p)) <-> (exists g, g ∈ ts_groups p /\ role_name_of g = n) \/ named (rules p) n) /\
  NoDup (map rd_name (roles (translate p))).
Proof.
  unfold translate. set (seeded := {| reach := _; seen := []; acc_notes := [] |}).
  pose proof (adds_fold fst acl_step acl_rule (acls p) (seeded, []) acl_step_adds) as Ha.
  destruct (foldl acl_step (seeded, []) (acls p)) as [a sk]. cbn [fst] in Ha.
  pose proof (adds_fold (fun st => st.1.1) grant_step grant_rule (grants p) (a, ∅, sk) grant_step_adds) as Hg.
  destruct (foldl grant_step (a, ∅, sk) (grants p)) as [[b caps] sk']. cbn [fst] in Hg. cbn [roles].
  destruct Ha as [Ha1 Ha2], Hg as [Hg1 Hg2].
  assert (forall r t, ~ reaches seeded r t) as Hs.
  { intros r t (l & Hl & Ht). cbn in Hl. destruct (seed_spec (ts_groups p) r) as [[E _]|[E _]]; rewrite E in Hl; [|done].
    injection Hl as <-. by apply elem_of_nil in Ht. }
  assert (forall r, has_role seeded r <-> exists g, g ∈ ts_groups p /\ role_name_of g = r) as Hh.
  { intros r. unfold has_role. cbn. destruct (seed_spec (ts_groups p) r) as [[-> E]|[-> E]]; [by split; [|eexists]|].
    split; [by intros [? [=]]|done]. }
  split_and!.
  - intros r ([n l] & -> & Hr%elem_of_by_key)%list_elem_of_fmap t. cbn [host_tags imported_role rd_name fst snd]. rewrite elem_of_sorted_tags. unfold rules. rewrite granted_app.
    assert (t ∈ l <-> reaches b n t) as -> by (unfold reaches; rewrite Hr; naive_solver). rewrite Hg1, Ha1. specialize (Hs n t). tauto.
  - intros n. unfold rules. rewrite named_app. rewrite <-Hh. transitivity (has_role b n); [|rewrite Hg2, Ha2; tauto].
    rewrite list_elem_of_fmap. split.
    + intros (r & -> & ([n' l] & -> & Hr%elem_of_by_key)%list_elem_of_fmap). by eexists.
    + intros [l Hl]. exists (imported_role caps (n, l)). split; [done|]. apply list_elem_of_fmap. exists (n, l). split; [done|]. by apply elem_of_by_key.
  - rewrite map_map. apply by_key_NoDup.
Qed.

(** ** Applying *)
Lemma find_app_last {A} (f : A -> bool) l x : existsb f l = false -> f x = true -> find f (l ++ [x]) = Some x.
Proof. intros He Hx. induction l as [|y l IH]; cbn in *; [by rewrite Hx|]. apply orb_false_iff in He as [-> He]. by apply IH. Qed.
Lemma find_update_same {A} (f : A -> bool) l x : existsb f l = true -> f x = true -> find f (update_first f (fun _ => x) l) = Some x.
Proof.
  intros He Hx. induction l as [|y l IH]; cbn in *; [done|]. destruct (f y) eqn:E; cbn; [by rewrite Hx|]. rewrite E. by apply IH.
Qed.
Lemma find_update_other {A} (f g : A -> bool) l x : (forall y, f y = true -> g y = false) -> g x = false ->
  find g (update_first f (fun _ => x) l) = find g l.
Proof.
  intros Hfg Hx. induction l as [|y l IH]; [done|]. cbn. destruct (f y) eqn:E; cbn; [by rewrite Hx, (Hfg _ E)|]. by rewrite IH.
Qed.
Definition role_named (n : string) (l : list RoleDefinition) : option RoleDefinition :=
  find (fun x => bool_decide (rd_name x = n)) l.
Lemma apply_role_spec store r n : role_named n (apply_role store r) = if decide (n = rd_name r) then Some r else role_named n store.
Proof.
  unfold role_named, apply_role. case_decide as E.
  - subst n. destruct (existsb _ store) eqn:Ex; [apply find_update_same|apply find_app_last]; try done; by apply bool_decide_eq_true.
  - destruct (existsb _ store) eqn:Ex.
    + apply find_update_other; [|by apply bool_decide_eq_false].
      intros y Hy%bool_decide_eq_true. apply bool_decide_eq_false. congruence.
    + clear Ex. induction store as [|y l IH]; cbn; [by rewrite bool_decide_eq_false_2 by congruence|]. by rewrite IH.
Qed.

(** Applying an import makes every imported role what the import says and leaves every other role: what
    an existing role of the same name allowed, its administration, its sandbox and its groups, is lost. *)
Theorem apply_import_overwrites p store n :
  role_named n (apply_import store (translate p)) =
  match role_named n (roles (translate p)) with
  | Some r => Some r
  | None => role_named n store
  end /\
  (forall r, role_named n (roles (translate p)) = Some r -> admin r = false /\ sudo r = false /\ rd_sandbox r = unrestricted).
Proof.
  split.
  - unfold apply_import. destruct (import_reach_exact p) as (_ & _ & Hnd). revert Hnd. generalize (roles (translate p)).
    intros l. induction l as [|r l IH] using rev_ind; intros Hnd; [done|]. rewrite foldl_app. cbn [foldl]. rewrite apply_role_spec.
    rewrite map_app in Hnd. apply NoDup_app in Hnd as (Hnd & Hdis & _).
    unfold role_named in *. case_decide as E.
    + rewrite find_app_last; [done| |by apply bool_decide_eq_true]. apply not_true_iff_false. intros (x & Hx & Ex%bool_decide_eq_true)%existsb_exists.
      eapply (Hdis (rd_name x)); [apply list_elem_of_fmap; exists x; split; [done|by apply list_elem_of_In]|]. cbn. rewrite Ex, E. set_solver.
    + rewrite IH by done. clear IH Hnd Hdis. induction l as [|y l IHl]; cbn; [by rewrite bool_decide_eq_false_2 by congruence|].
      case_bool_decide; [done|]. apply IHl.
  - intros r Hr. apply find_some in Hr as [Hin _]. apply list_elem_of_In in Hin. unfold translate in Hin.
    destruct (foldl acl_step _ _) as [a sk]. destruct (foldl grant_step _ _) as [[b caps] sk'].
    by apply list_elem_of_fmap in Hin as (x & -> & _).
Qed.

(** ** Comments *)
(** A policy's text as string literals, comments and other bytes. *)
Inductive Piece := Literal (body : bytes) | Line (body : bytes) | Block (body : bytes) | Other (b : Z).
Definition written (p : Piece) : bytes :=
  match p with
  | Literal body => QUOTE :: body ++ [QUOTE]
  | Line body => SLASH :: SLASH :: body ++ [NEWLINE]
  | Block body => SLASH :: STAR :: body ++ [STAR; SLASH]
  | Other b => [b]
  end.
Definition without_comment (p : Piece) : bytes :=
  match p with Literal body => QUOTE :: body ++ [QUOTE] | Line _ => [NEWLINE] | Block _ => [] | Other b => [b] end.
Fixpoint literal_body (escaped : bool) (l : bytes) : bool :=
  match l with
  | [] => negb escaped
  | c :: r => (c <? 128) && if escaped then literal_body false r else if c =? BACKSLASH then literal_body true r
                            else negb (c =? QUOTE) && literal_body false r
  end.
Fixpoint no_close (l : bytes) : bool :=
  match l with
  | c :: r => negb ((c =? STAR) && match r with d :: _ => d =? SLASH | [] => false end) && no_close r
  | [] => true
  end.
Definition piece_ok (p : Piece) : bool :=
  match p with
  | Literal body => literal_body false body
  | Line body => forallb (fun c => negb (c =? NEWLINE)) body
  | Block body => no_close body
  | Other b => (b <? 128) && negb (b =? QUOTE) && negb (b =? SLASH)
  end.

Lemma push_ascii b : (b <? 128) = true -> push b = [b].
Proof. unfold push. by intros ->. Qed.
Lemma strip_literal body esc rest : literal_body esc body = true ->
  strip_comments (InString esc) (body ++ QUOTE :: rest) = body ++ QUOTE :: strip_comments Plain rest.
Proof.
  revert esc. induction body as [|c body IH]; intros esc Hb; cbn [literal_body app strip_comments] in *.
  - apply negb_true_iff in Hb as ->. done.
  - apply andb_true_iff in Hb as [Ha Hb]. rewrite push_ascii by done. cbn [app]. f_equal.
    destruct esc; [by apply IH|]. destruct (c =? BACKSLASH); [by apply IH|].
    apply andb_true_iff in Hb as [Hq%negb_true_iff Hb]. rewrite Hq. by apply IH.
Qed.
Lemma strip_line body rest : forallb (fun c => negb (c =? NEWLINE)) body = true ->
  strip_comments LineComment (body ++ NEWLINE :: rest) = NEWLINE :: strip_comments Plain rest.
Proof.
  induction body as [|c body IH]; cbn [forallb app strip_comments]; [done|].
  intros [Hc%negb_true_iff Hb]%andb_true_iff. rewrite Hc. by apply IH.
Qed.
Lemma strip_block_step c r : strip_comments BlockComment (c :: r) =
  match r with d :: r' => if (c =? STAR) && (d =? SLASH) then strip_comments Plain r' else strip_comments BlockComment r | [] => [] end.
Proof. done. Qed.
Lemma strip_block body rest : no_close body = true ->
  strip_comments BlockComment (body ++ STAR :: SLASH :: rest) = strip_comments Plain rest.
Proof.
  induction body as [|c body IH]; intros Hb; [done|]. cbn [no_close] in Hb. apply andb_true_iff in Hb as [Hc%negb_true_iff Hb].
  specialize (IH Hb). cbn [app]. rewrite strip_block_step. destruct body as [|d body]; cbn [app] in *.
  - replace ((c =? STAR) && (STAR =? SLASH)) with false by (symmetry; apply andb_false_r). done.
  - by rewrite Hc.
Qed.
Lemma strip_plain c r : strip_comments Plain (c :: r) =
  if c =? QUOTE then push c ++ strip_comments (InString false) r else
  match r with
  | d :: r' => if (c =? SLASH) && (d =? SLASH) then strip_comments LineComment r
               else if (c =? SLASH) && (d =? STAR) then strip_comments BlockComment r'
               else push c ++ strip_comments Plain r
  | [] => push c
  end.
Proof. done. Qed.
Lemma strip_piece p rest : piece_ok p = true ->
  strip_comments Plain (written p ++ rest) = without_comment p ++ strip_comments Plain rest.
Proof.
  destruct p as [body|body|body|b]; cbn [piece_ok written without_comment app]; intros Hp.
  - rewrite <-!app_assoc. cbn [app]. rewrite strip_plain. cbn [app]. rewrite <-(strip_literal body false) by done. done.
  - rewrite <-app_assoc. cbn [app]. change (strip_comments Plain (SLASH :: SLASH :: body ++ NEWLINE :: rest))
      with (strip_comments LineComment (body ++ NEWLINE :: rest)). by rewrite strip_line.
  - rewrite <-app_assoc. cbn [app]. change (strip_comments Plain (SLASH :: STAR :: body ++ STAR :: SLASH :: rest))
      with (strip_comments BlockComment (body ++ STAR :: SLASH :: rest)). by apply strip_block.
  - rewrite !andb_true_iff, !negb_true_iff in Hp. destruct Hp as [[Ha Hq] Hs]. rewrite strip_plain, Hq, Hs, push_ascii by done.
    by destruct rest.
Qed.

(** Comments go and nothing else: a policy of string literals, line and block comments and other bytes is
    left with its literals, comment markers inside them included, its other bytes and the line ends. *)
Theorem comments_stripped ps : forallb piece_ok ps = true ->
  strip_comments Plain (concat (map written ps)) = concat (map without_comment ps).
Proof.
  induction ps as [|p ps IH]; cbn [forallb map concat]; [done|]. intros [Hp Hps]%andb_true_iff.
  by rewrite strip_piece, IH.
Qed.

(** The second pass does not look at literals: in a policy with the grant source [a,] ] the comma inside
    the literal is dropped, and a non-ASCII letter becomes four Latin-1 ones. *)
Example literal_comma_lost :
  strip_jwcc [91; QUOTE; 97; COMMA; 93; QUOTE; 93] = [91; QUOTE; 97; 93; QUOTE; 93] /\
  strip_jwcc [QUOTE; 195; 169; QUOTE] = [QUOTE; 195; 131; 194; 131; 195; 130; 194; 169; QUOTE].
Proof. split; vm_compute; reflexivity. Qed.
