(* ===== verification/Checkpoint.v ===== *)
(** * Checkpoint: sessions across restarts (hop-core/src/shell/checkpoint.rs)

    What a daemon records of its sessions and how a later one starts them again.
    The process table is a class: the bytes of a process's command line, its
    working directory and the entries of /proc, as on Linux; what [ps] prints on
    macOS is used as it is.  The checkpoint file is absent, unreadable or the value
    last saved.  Starting a terminal and the broker are results of the environment
    in the order they are asked for.  A small lexer says what a POSIX shell reads
    in the line that is typed into a restored session. *)
From S2P Require Import Prelude Text Policy Config Registry Datastore.
From Stdlib Require Import Ascii.
Local Open Scope Z_scope.

(** ** The process table *)
Class Procs := {
  cmdline_bytes : Z -> option bytes;
  process_cwd : Z -> option string;
  proc_entries : list (string * option string);
}.

Definition safe_char (c : ascii) : bool :=
  let n := ord c in
  in_range 48 57 n || in_range 65 90 n || in_range 97 122 n ||
  existsb (Ascii.eqb c) ["-"; "_"; "."; "/"; "="; ":"; "@"; "%"; "+"; ","]%char.
Fixpoint all_safe (s : string) : bool :=
  match s with EmptyString => true | String c r => safe_char c && all_safe r end.
(** [s.replace('\'', "'\\''")]. *)
Fixpoint escape_quotes (s : string) : string :=
  match s with
  | EmptyString => EmptyString
  | String c r => (if Ascii.eqb c "'"%char then "'\''"%string else String c EmptyString) +:+ escape_quotes r
  end.
Definition shell_quote (s : string) : string :=
  if negb (bool_decide (s = ""%string)) && all_safe s then s else "'" +:+ escape_quotes s +:+ "'".

Fixpoint split_nul (l : bytes) : list bytes :=
  match l with
  | [] => [[]]
  | b :: r => if b =? 0 then [] :: split_nul r
              else match split_nul r with p :: ps => (b :: p) :: ps | [] => [[b]] end
  end.
(** The arguments of a process: the parts between NULs that are not empty. *)
Definition arguments (raw : bytes) : list string :=
  map utf8_lossy (base.filter (fun p : bytes => p <> []) (split_nul raw)).
Definition process_cmdline `{!Procs} (pid : Z) : option string :=
  match cmdline_bytes pid with
  | None => None
  | Some raw => match arguments raw with [] => None | parts => Some (join " " (map shell_quote parts)) end
  end.

Definition parent_of (stat : string) : option Z :=
  match rsplit_once ")" stat with
  | None => None
  | Some (_, rest) => match split_whitespace rest !! 1%nat with Some f => parse_u32 f | None => None end
  end.
Definition is_child (pid : Z) (e : string * option string) : option Z :=
  match parse_u32 e.1, e.2 with
  | Some child, Some stat => if decide (parent_of stat = Some pid) then Some child else None
  | _, _ => None
  end.
Definition child_pids `{!Procs} (pid : Z) : list Z := merge_sort Z.le (omap (is_child pid) proc_entries).

(** ** What a session was doing *)
Fixpoint trim_dashes (s : string) : string :=
  match s with String c r => if Ascii.eqb c "-"%char then trim_dashes r else s | EmptyString => s end.
(** [rsplit('/').next()]: there is always a last part. *)
Definition base_name (s : string) : string := default ""%string (last (split_char "/"%char s)).
Definition first_word (s : string) : string := default ""%string (head (split_whitespace s)).
Definition argv0_name (cmdline : string) : string := base_name (trim_dashes (first_word cmdline)).
Definition is_one_of (l : list string) (s : string) : bool := existsb (String.eqb s) l.
Definition is_shell (cmdline : string) : bool :=
  is_one_of ["sh"; "bash"; "zsh"; "fish"; "dash"; "ksh"; "tcsh"; "csh"]%string (argv0_name cmdline).
Definition is_launcher (cmdline : string) : bool := is_one_of ["su"; "login"; "sudo"; "doas"]%string (argv0_name cmdline).
Definition keep_if (f : string -> bool) (o : option string) : option string :=
  match o with Some c => if f c then Some c else None | None => None end.

Definition inspect_process `{!Procs} (pid : Z) : option string * option string :=
  match last (child_pids pid) with
  | Some fg => (match process_cwd fg with Some d => Some d | None => process_cwd pid end,
                keep_if (fun c => negb (bool_decide (trim c = ""%string)) && negb (is_shell c)) (process_cmdline fg))
  | None => (process_cwd pid, None)
  end.
Definition inspect_child `{!Procs} (child : option Z) : option string * option string :=
  match child with Some pid => inspect_process pid | None => (None, None) end.
Definition inspect `{!Procs} (fg child : option Z) : option string * option string :=
  match fg with
  | Some fg =>
      let cmdline := process_cmdline fg in
      if match cmdline with Some c => is_launcher c | None => false end then (None, None) else
      let cwd := process_cwd fg in
      let cmd := keep_if (fun c => negb (is_shell c)) cmdline in
      match cwd, cmd with
      | None, None => inspect_child child
      | _, _ => (cwd, cmd)
      end
  | None => inspect_child child
  end.

Record SessionCheckpoint := {
  cp_session_id : string; cp_peer_id : string; cp_username : option string; cp_cwd : option string;
  cp_command : option string; cp_fg_pid : option Z; cp_child_pid : option Z; cp_title : option string;
}.
Definition build_one `{!Procs} (i : CheckpointInput) : SessionCheckpoint :=
  let '(cwd, command) := inspect (ck_fg_pid i) (ck_child_pid i) in
  {| cp_session_id := ck_session_id i; cp_peer_id := ck_peer_id i; cp_username := ck_username i; cp_cwd := cwd;
     cp_command := command; cp_fg_pid := ck_fg_pid i; cp_child_pid := ck_child_pid i; cp_title := ck_title i |}.
Definition build `{!Procs} (inputs : list CheckpointInput) : list SessionCheckpoint := map build_one inputs.

(** ** The file *)
Record CheckpointFile := { saved_ms : Z; daemon_boot : Z; cp_sessions : list SessionCheckpoint; ttys : gmap string string }.
Inductive Disk := Absent | Unreadable | Present (f : CheckpointFile).
Definition load (d : Disk) : option (option CheckpointFile) :=
  match d with Absent => Some None | Unreadable => None | Present f => Some (Some f) end.

(** A daemon process: its start time, and the time. *)
Record Daemon := { boot : Z; now_ms : Z; now : Z }.
Definition tty_map (inputs : list CheckpointInput) : gmap string string :=
  foldl (fun m i => match ck_tty i with Some t => <[ck_session_id i := t]> m | None => m end) ∅ inputs.
(** The file afterwards and how many sessions were recorded; [None]: an error. *)
Definition write `{!Procs, !Host, !HashIter} (d : Daemon) (saves : bool) (r : SessionRegistry) (disk : Disk) : Disk * option nat :=
  let inputs := checkpoint_inputs r in
  let l := build inputs in
  let save := if saves then (Present {| saved_ms := now_ms d; daemon_boot := boot d; cp_sessions := l; ttys := tty_map inputs |},
                             Some (length l)) else (disk, None) in
  match l with
  | [] => match load disk with
          | None => (disk, None)
          | Some (Some prev) => if negb (bool_decide (cp_sessions prev = [])) && negb (daemon_boot prev =? boot d)
                                then (disk, Some 0%nat) else save
          | Some None => save
          end
  | _ => save
  end.

(** ** The line *)
Definition survivor_pid `{!Procs} (cp : SessionCheckpoint) : option Z :=
  match cp_command cp with
  | None => None
  | Some want =>
      find (fun pid => match process_cmdline pid with
                       | Some cur => String.eqb cur want || String.eqb (base_name (first_word cur)) (base_name (first_word want))
                       | None => false
                       end) (omap id [cp_fg_pid cp; cp_child_pid cp])
  end.

Definition CONTINUE : string := "--continue".
Definition agent_script (script : string) (prog : string) : string :=
  if ends_with "claude-code/cli.js" script then "claude"%string
  else if ends_with "/pi" script || ends_with "pi/cli.js" script || String.eqb (base_name script) "pi.js" then "pi"%string
  else prog.
Definition program (parts : list string) (first : string) : string :=
  let prog := base_name first in
  if is_one_of ["node"; "bun"; "deno"]%string prog
  then match parts !! 1%nat with Some script => agent_script script prog | None => prog end else prog.
Fixpoint position (f : string -> bool) (l : list string) : option nat :=
  match l with [] => None | x :: r => if f x then Some O else S <$> position f r end.
Definition resume_parts (parts : list string) : list string :=
  match position (is_one_of ["--resume"; "-r"]%string) parts with
  | Some i => let has_id := match parts !! S i with Some n => negb (starts_with "-" n) | None => false end in
              if has_id then parts else <[i := CONTINUE]> parts
  | None => if existsb (is_one_of [CONTINUE; "-c"]%string) parts then parts else parts ++ [CONTINUE]
  end.
Definition restore_command (cmd : string) : string :=
  let parts := split_whitespace cmd in
  match parts with
  | [] => cmd
  | first :: _ => if is_one_of ["claude"; "pi"]%string (program parts first) then join " " (resume_parts parts) else cmd
  end.
Fixpoint trim_end_matches (fuel : nat) (pat s : string) : string :=
  match fuel with
  | O => s
  | S f => match strip_suffix pat s with Some h => trim_end_matches f pat h | None => s end
  end.
Definition newline : string := String (chr 10) EmptyString.
Definition restore_line (cp : SessionCheckpoint) : option string :=
  let cd := match cp_cwd cp with Some d => "cd " +:+ shell_quote d +:+ " && " | None => ""%string end in
  match cp_command cp with
  | Some c => Some (cd +:+ restore_command c +:+ newline)
  | None => if bool_decide (cd = ""%string) then None
            else Some (trim_end_matches (String.length cd) " && " cd +:+ newline)
  end.

(** ** Restoring *)
Inductive SkipReason := StillRunning | ProcessRunning | CouldNotStart | OwnerUnknown.
Record RestoreOutcome := { o_session_id : string; o_username : option string; o_line : option string;
                           new_session_id : option string; o_skipped : option SkipReason }.
(** A terminal that was started: what [spawn_persistent_pty] returns, and the
    broker's handle where one is asked for. *)
Record Spawned := { sp_id : string; sp_input : Z; sp_route : watch (option Z); sp_resize : watch PtySize; sp_child : option Z;
                    sp_cancel : Z; sp_viewers : mutex (list Z); sp_master : option Z; sp_screen : mutex VtScreen;
                    sp_exit : option Z; sp_broker : option Z }.
Class RestoreEnv := {
  macos : bool;
  parse_public_key : string -> option string;
  spawn_persistent_pty : nat -> SessionCheckpoint -> SandboxPolicy -> option Spawned;
  channel_closed : Z -> bool;
}.
(** The registry, how many terminals were asked for, the lines typed, and the
    policy each session was started under. *)
Record World := { reg : SessionRegistry; spawns : nat; typed : list (Z * string);
                  launched : list (string * string * SandboxPolicy); signals : list Effect }.
Definition detached_session (d : Daemon) (cp : SessionCheckpoint) (s : Spawned) : DetachedSession :=
  {| session_id := sp_id s; peer_id := cp_peer_id cp; username := cp_username cp; child_pid := sp_child s;
     reader_cancel := sp_cancel s; input_tx := sp_input s; output_route := sp_route s; resize_tx := sp_resize s;
     exit_rx := sp_exit s; detached_at := Some (now d); attached := false; started_unix_ms := now_ms d;
     pty_master := sp_master s; attach_epoch := 1; broker_handle := None; viewers := sp_viewers s; screen := sp_screen s |}.
(** [rust unit]: a panic of the registry's actor; [None]: [start_detached] failed. *)
Definition start_detached `{!Host, !HashIter, !RestoreEnv} (d : Daemon) (cp : SessionCheckpoint) (sandbox : SandboxPolicy)
    (line : option string) (w : World) : rust unit (option string * World) :=
  let asked r l e := {| reg := r; spawns := S (spawns w); typed := typed w;
                        launched := launched w ++ l; signals := signals w ++ e |} in
  match spawn_persistent_pty (spawns w) cp sandbox with
  | None => Ok (None, asked (reg w) [] [])
  | Some s =>
      '(r, e) ← insert_session (detached_session d cp s) (reg w);
      let w := asked r [(sp_id s, cp_peer_id cp, sandbox)] e in
      let typed_in w := match line with
                        | Some l => {| reg := reg w; spawns := spawns w; typed := typed w ++ [(sp_input s, l)];
                                       launched := launched w; signals := signals w |}
                        | None => w
                        end in
      if macos && is_restricted sandbox then
        match sp_broker s with
        | None => Ok (None, w)
        | Some h => Ok (Some (sp_id s), typed_in {| reg := set_broker_handle (sp_id s) h (reg w); spawns := spawns w;
                          typed := typed w; launched := launched w; signals := signals w |})
        end
      else Ok (Some (sp_id s), typed_in w)
  end.

Definition known_peer `{!RestoreEnv} (peers : PeersStore) (cp : SessionCheckpoint) : option string :=
  match parse_public_key (cp_peer_id cp) with
  | Some p => if existsb (has_id p) peers then Some p else None
  | None => None
  end.
Definition with_id (id : string) (cp : SessionCheckpoint) : SessionCheckpoint :=
  {| cp_session_id := id; cp_peer_id := cp_peer_id cp; cp_username := cp_username cp; cp_cwd := cp_cwd cp;
     cp_command := cp_command cp; cp_fg_pid := cp_fg_pid cp; cp_child_pid := cp_child_pid cp; cp_title := cp_title cp |}.
Definition restore_one `{!Procs, !Host, !HashIter, !RestoreEnv} (d : Daemon) (peers : PeersStore) (live : list string)
    (dry_run : bool) (cp : SessionCheckpoint) (w : World) : rust unit (RestoreOutcome * SessionCheckpoint * World) :=
  let line := restore_line cp in
  let done new skipped w :=
    Ok ({| o_session_id := cp_session_id cp; o_username := cp_username cp; o_line := line; new_session_id := new; o_skipped := skipped |},
        with_id (default (cp_session_id cp) new) cp, w) in
  if decide (cp_session_id cp ∈ live) then done None (Some StillRunning) w else
  match survivor_pid cp with
  | Some _ => done None (Some ProcessRunning) w
  | None =>
      match known_peer peers cp with
      | None => done None (Some OwnerUnknown) w
      | Some peer =>
          if dry_run then done None None w else
          '(started, w) ← start_detached d cp (peer_sandbox peers peer) line w;
          match started with
          | Some id => done (Some id) None w
          | None => done None (Some CouldNotStart) w
          end
      end
  end.
Fixpoint restore_all `{!Procs, !Host, !HashIter, !RestoreEnv} (d : Daemon) (peers : PeersStore) (live : list string)
    (dry_run : bool) (l : list SessionCheckpoint) (w : World) : rust unit (list RestoreOutcome * list SessionCheckpoint * World) :=
  match l with
  | [] => Ok ([], [], w)
  | cp :: l =>
      '(o, n, w) ← restore_one d peers live dry_run cp w;
      '(os, ns, w) ← restore_all d peers live dry_run l w;
      Ok (o :: os, n :: ns, w)
  end.
Definition live_ids `{!Host, !HashIter, !RestoreEnv} (d : Daemon) (r : SessionRegistry) : list string :=
  map sum_session_id (summaries channel_closed (now d) r).
(** The outcomes ([None]: an error), the registry and the file afterwards. *)
Definition restore `{!Procs, !Host, !HashIter, !RestoreEnv} (d : Daemon) (peers : option PeersStore) (saves dry_run : bool)
    (w : World) (disk : Disk) : rust unit (option (list RestoreOutcome) * World * Disk) :=
  match load disk with
  | None => Ok (None, w, disk)
  | Some None => Ok (Some [], w, disk)
  | Some (Some file) =>
      match peers with
      | None => Ok (None, w, disk)
      | Some peers =>
          '(out, next, w) ← restore_all d peers (live_ids d (reg w)) dry_run (cp_sessions file) w;
          if dry_run then Ok (Some out, w, disk)
          else if saves then
            Ok (Some out, w, Present {| saved_ms := now_ms d; daemon_boot := boot d; cp_sessions := next; ttys := ∅ |})
          else Ok (None, w, disk)
      end
  end.

(** ** What a shell reads *)
Inductive Token := Word (w : string) | AndIf | NewLine.
Inductive LexState := Between | InWord (w : string) | InQuote (w : string).
Definition end_word (st : LexState) (l : list Token) : list Token := match st with InWord w => Word w :: l | _ => l end.
Definition extend (st : LexState) (c : ascii) : LexState :=
  match st with Between => InWord (String c EmptyString) | InWord w => InWord (w +:+ String c EmptyString)
              | InQuote w => InQuote (w +:+ String c EmptyString) end.
(** Words of unquoted plain characters, single quotes and escaped characters,
    [&&] and line ends; [None] where the shell would read anything else. *)
Fixpoint sh_lex (st : LexState) (s : string) : option (list Token) :=
  match s with
  | EmptyString => match st with InQuote _ => None | _ => Some (end_word st []) end
  | String c r =>
      match st with
      | InQuote w => if Ascii.eqb c "'"%char then sh_lex (InWord w) r else sh_lex (extend st c) r
      | _ =>
          if Ascii.eqb c "'"%char then sh_lex (InQuote (match st with InWord w => w | _ => ""%string end)) r
          else if Ascii.eqb c "\"%char then match r with String e r' => sh_lex (extend st e) r' | EmptyString => None end
          else if Ascii.eqb c " "%char then end_word st <$> sh_lex Between r
          else if ord c =? 10 then (fun l => end_word st (NewLine :: l)) <$> sh_lex Between r
          else if Ascii.eqb c "&"%char then
            match r with String e r' => if Ascii.eqb e "&"%char then (fun l => end_word st (AndIf :: l)) <$> sh_lex Between r' else None
                       | EmptyString => None end
          else if safe_char c then sh_lex (extend st c) r else None
      end
  end.
Definition sh_tokens (s : string) : option (list Token) := sh_lex Between s.

Lemma sh_lex_safe st c r : safe_char c = true -> match st with InQuote _ => False | _ => True end ->
  sh_lex st (String c r) = sh_lex (extend st c) r.
Proof.
  intros Hc Hst. destruct c as [[] [] [] [] [] [] [] []]; try discriminate Hc; destruct st; done.
Qed.
Lemma sh_lex_safe_word w s rest : all_safe s = true -> sh_lex (InWord w) (s +:+ rest) = sh_lex (InWord (w +:+ s)) rest.
Proof.
  revert w. induction s as [|c s IH]; intros w Hs; [by rewrite sapp_nil_r|]. cbn [all_safe] in Hs.
  apply andb_true_iff in Hs as [Hc Hs]. change (String c s +:+ rest) with (String c (s +:+ rest)).
  rewrite sh_lex_safe by done. cbn [extend]. rewrite IH by done. by rewrite sapp_assoc.
Qed.
Lemma sh_lex_quoted w s rest : sh_lex (InQuote w) (escape_quotes s +:+ "'" +:+ rest) = sh_lex (InWord (w +:+ s)) rest.
Proof.
  revert w. induction s as [|c s IH]; intros w; [by rewrite sapp_nil_r|]. cbn [escape_quotes].
  replace (w +:+ String c s) with ((w +:+ String c EmptyString) +:+ s) by apply sapp_assoc.
  rewrite <-IH. destruct (Ascii.eqb c "'") eqn:E; [apply Ascii.eqb_eq in E as ->; done|].
  change ((String c EmptyString +:+ escape_quotes s) +:+ "'" +:+ rest) with (String c (escape_quotes s +:+ "'" +:+ rest)).
  cbn [sh_lex]. by rewrite E.
Qed.
Lemma sh_lex_word s rest : sh_lex Between (shell_quote s +:+ rest) = sh_lex (InWord s) rest.
Proof.
  unfold shell_quote. destruct (negb _ && _) eqn:E.
  - apply andb_true_iff in E as [Hne Hs]. apply negb_true_iff, bool_decide_eq_false in Hne. destruct s as [|c s]; [done|].
    cbn [all_safe] in Hs. apply andb_true_iff in Hs as [Hc Hs].
    change (String c s +:+ rest) with (String c (s +:+ rest)). rewrite sh_lex_safe by done. cbn [extend].
    rewrite sh_lex_safe_word by done. done.
  - rewrite !sapp_assoc. change (sh_lex Between ("'" +:+ escape_quotes s +:+ "'" +:+ rest))
      with (sh_lex (InQuote "") (escape_quotes s +:+ "'" +:+ rest)). by rewrite sh_lex_quoted.
Qed.
Lemma join_cons2 sep x y l : join sep (x :: y :: l) = x +:+ sep +:+ join sep (y :: l).
Proof. done. Qed.
(** What follows a quoted word: nothing, or a break. *)
Definition breaks (rest : string) : bool :=
  match rest with EmptyString => true | String c _ => Ascii.eqb c " " || (ord c =? 10) end.
Lemma sh_lex_break w rest : breaks rest = true -> sh_lex (InWord w) rest = cons (Word w) <$> sh_lex Between rest.
Proof.
  destruct rest as [|c r]; [done|]. cbn [breaks]. intros Hc. apply orb_true_iff in Hc as [->%Ascii.eqb_eq|Hc].
  - change (sh_lex (InWord w) (String " " r)) with (end_word (InWord w) <$> sh_lex Between r).
    change (sh_lex Between (String " " r)) with (end_word Between <$> sh_lex Between r). by destruct (sh_lex Between r).
  - assert (c = chr 10) as -> by (apply Z.eqb_eq in Hc; by rewrite <-Hc, chr_ord).
    change (sh_lex (InWord w) (String (chr 10) r)) with ((fun l => end_word (InWord w) (NewLine :: l)) <$> sh_lex Between r).
    change (sh_lex Between (String (chr 10) r)) with ((fun l => end_word Between (NewLine :: l)) <$> sh_lex Between r).
    by destruct (sh_lex Between r).
Qed.
Lemma sh_lex_words l rest : l <> [] -> breaks rest = true ->
  sh_lex Between (join " " (map shell_quote l) +:+ rest) = app (map Word l) <$> sh_lex Between rest.
Proof.
  intros Hne Hb. induction l as [|x l IH]; [done|]. destruct l as [|y l].
  - cbn. rewrite sh_lex_word, sh_lex_break by done. by destruct (sh_lex Between rest).
  - cbn [map]. rewrite join_cons2, !sapp_assoc, sh_lex_word, sh_lex_break by done.
    change (sh_lex Between (" " +:+ ?s)) with (end_word Between <$> sh_lex Between s).
    cbn [map] in IH. rewrite IH by done. by destruct (sh_lex Between rest).
Qed.

(** ** Words without quotes *)
Definition plain_word (s : string) : bool := negb (bool_decide (s = ""%string)) && all_safe s.
Lemma plain_quote s : plain_word s = true -> shell_quote s = s.
Proof. unfold shell_quote, plain_word. by intros ->. Qed.
Lemma plain_cons s : plain_word s = true -> exists c r, s = String c r /\ safe_char c = true /\ all_safe r = true.
Proof.
  unfold plain_word. intros [Hne Hs]%andb_true_iff. apply negb_true_iff, bool_decide_eq_false in Hne. destruct s as [|c r]; [done|].
  cbn [all_safe] in Hs. apply andb_true_iff in Hs as [Hc Hr]. eauto.
Qed.
Lemma safe_not_ws c r : safe_char c = true -> existsb (fun w => starts_with w (String c r)) whitespace = false.
Proof. intros Hc. destruct c as [[] [] [] [] [] [] [] []]; try discriminate Hc; vm_compute; reflexivity. Qed.
Lemma find_existsb {A} (f : A -> bool) l : existsb f l = false -> find f l = None.
Proof. induction l as [|x l IH]; cbn; [done|]. destruct (f x); [done|]. apply IH. Qed.
Lemma trim_start_safe c r : safe_char c = true -> trim_start (String c r) = String c r.
Proof. intros Hc. unfold trim_start. cbn [String.length trim_start_with]. by rewrite find_existsb by by apply safe_not_ws. Qed.
Lemma find_space s : find (fun w => starts_with w (String " " s)) whitespace = Some " "%string.
Proof. unfold starts_with. vm_compute. by destruct s. Qed.
Lemma trim_start_space s : trim_start (String " " s) = trim_start s.
Proof. unfold trim_start at 1. cbn [String.length trim_start_with]. by rewrite find_space. Qed.
Lemma until_ws_space s : until_ws (" " +:+ s) = ""%string.
Proof.
  change (" " +:+ s) with (String " " s). cbn [until_ws]. pose proof (find_some _ _ (find_space s)) as [Hin Hs].
  assert (existsb (fun w => starts_with w (String " " s)) whitespace = true) as -> by (apply existsb_exists; eauto). done.
Qed.
Lemma until_ws_safe w rest : all_safe w = true -> until_ws (w +:+ rest) = w +:+ until_ws rest.
Proof.
  induction w as [|c w IH]; [done|]. cbn [all_safe]. intros [Hc Hw]%andb_true_iff.
  change (String c w +:+ rest) with (String c (w +:+ rest)). cbn [until_ws]. rewrite safe_not_ws by done. by rewrite IH.
Qed.
Lemma split_ws_step fuel w rest : plain_word w = true -> until_ws rest = ""%string ->
  split_ws (S fuel) (w +:+ rest) = w :: split_ws fuel rest.
Proof.
  intros Hw Hr. destruct (plain_cons w Hw) as (c & r & -> & Hc & Hs). cbn [split_ws].
  change (String c r +:+ rest) with (String c (r +:+ rest)). rewrite trim_start_safe by done.
  assert (until_ws (String c (r +:+ rest)) = String c r) as ->.
  { change (String c (r +:+ rest)) with (String c r +:+ rest). rewrite until_ws_safe, Hr, sapp_nil_r; [done|]. cbn. by rewrite Hc. }
  f_equal. by change (String c (r +:+ rest)) with (String c r +:+ rest); rewrite sdrop_app.
Qed.
Lemma split_ws_space fuel s : split_ws fuel (String " " s) = split_ws fuel s.
Proof. destruct fuel as [|f]; [done|]. cbn [split_ws]. by rewrite trim_start_space. Qed.
Lemma split_ws_join fuel l : (length l < fuel)%nat -> Forall (fun w => plain_word w = true) l -> split_ws fuel (join " " l) = l.
Proof.
  revert l. induction fuel as [|fuel IH]; intros l Hlen Hl; [lia|]. destruct l as [|w [|v l]].
  - done.
  - inversion_clear Hl. change (join " " [w]) with w. rewrite <-(sapp_nil_r w) at 1. rewrite split_ws_step by done.
    by destruct fuel.
  - inversion_clear Hl. rewrite join_cons2, split_ws_step by (done || apply until_ws_space). f_equal.
    change (" " +:+ join " " (v :: l)) with (String " " (join " " (v :: l))). rewrite split_ws_space. apply IH; [cbn in *; lia|done].
Qed.
Lemma plain_length w : plain_word w = true -> (1 <= String.length w)%nat.
Proof. intros (c & r & -> & _)%plain_cons. cbn. lia. Qed.
Lemma length_join_plain l : Forall (fun w => plain_word w = true) l -> (length l <= String.length (join " " l))%nat.
Proof.
  induction 1 as [|w l Hw Hl IH]; [done|]. apply plain_length in Hw. destruct l as [|v l]; [cbn in *; lia|].
  rewrite join_cons2, !length_sapp. cbn [length String.length] in *. lia.
Qed.
Lemma split_whitespace_join l : Forall (fun w => plain_word w = true) l -> split_whitespace (join " " l) = l.
Proof. intros Hl. apply split_ws_join; [|done]. apply length_join_plain in Hl. lia. Qed.
Lemma map_plain_quote l : Forall (fun w => plain_word w = true) l -> map shell_quote l = l.
Proof. induction 1 as [|w l Hw Hl IH]; cbn; [done|]. by rewrite plain_quote, IH. Qed.

(** ** Agents resume *)
Lemma position_some f l i : position f l = Some i -> exists x, l !! i = Some x /\ f x = true.
Proof.
  revert i. induction l as [|x l IH]; intros i; cbn; [done|]. destruct (f x) eqn:E; [intros [= <-]; eauto|].
  destruct (position f l) as [j|]; [|done]. intros [= <-]. by apply IH.
Qed.
Lemma is_one_of_spec l s : is_one_of l s = true <-> s ∈ l.
Proof.
  unfold is_one_of. rewrite existsb_exists. setoid_rewrite String.eqb_eq. setoid_rewrite <-list_elem_of_In. naive_solver.
Qed.
Lemma Forall_resume (P : string -> Prop) l : P CONTINUE -> Forall P l -> Forall P (resume_parts l).
Proof.
  intros Hc Hl. unfold resume_parts. destruct (position _ l) as [i|].
  - destruct (match l !! S i with Some n => _ | None => _ end); [done|]. by apply Forall_insert.
  - destruct (existsb _ l); [done|]. apply Forall_app. by repeat constructor.
Qed.
(** A line that resumes: it asks for the latest conversation, or names one. *)
Definition resumes (l : list string) : Prop :=
  CONTINUE ∈ l \/ "-c"%string ∈ l \/
  exists i o n, l !! i = Some o /\ (o = "--resume" \/ o = "-r")%string /\ l !! S i = Some n /\ starts_with "-" n = false.
Definition selects (w : string) : bool := is_one_of ["--resume"; "-r"; CONTINUE]%string w.
Lemma filter_insert_selects (l : list string) i o : l !! i = Some o -> selects o = true ->
  List.filter (fun w => negb (selects w)) (<[i := CONTINUE]> l) = List.filter (fun w => negb (selects w)) l.
Proof.
  intros Hi Ho. rewrite <-(take_drop_middle l i o Hi) at 2. rewrite (insert_take_drop l i CONTINUE) by by eapply lookup_lt_Some.
  rewrite !List.filter_app. cbn [List.filter]. by rewrite Ho.
Qed.
Lemma resume_parts_resumes l : resumes (resume_parts l).
Proof.
  unfold resume_parts. destruct (position _ l) as [i|] eqn:Ep.
  - apply position_some in Ep as (o & Hi & Ho). apply is_one_of_spec in Ho.
    destruct (l !! S i) as [n|] eqn:En; [destruct (starts_with "-" n) eqn:Es|]; cbn [negb].
    + left. eapply list_elem_of_lookup_2, list_lookup_insert_eq. by eapply lookup_lt_Some.
    + right; right. exists i, o, n. set_solver.
    + left. eapply list_elem_of_lookup_2, list_lookup_insert_eq. by eapply lookup_lt_Some.
  - destruct (existsb _ l) eqn:Ee; [|left; set_solver].
    apply existsb_exists in Ee as (x & Hx%list_elem_of_In & Ho%is_one_of_spec). unfold resumes. set_solver.
Qed.
Lemma resume_parts_keeps l : List.filter (fun w => negb (selects w)) (resume_parts l) = List.filter (fun w => negb (selects w)) l.
Proof.
  unfold resume_parts. destruct (position _ l) as [i|] eqn:Ep.
  - apply position_some in Ep as (o & Hi & Ho). destruct (match l !! S i with Some n => _ | None => _ end); [done|].
    eapply filter_insert_selects; [done|]. apply is_one_of_spec in Ho. apply is_one_of_spec. set_solver.
  - destruct (existsb _ l); [done|]. rewrite List.filter_app. cbn. apply app_nil_r.
Qed.

(** ** The typed line *)
Lemma process_cmdline_spec `{!Procs} pid c : process_cmdline pid = Some c ->
  exists raw, cmdline_bytes pid = Some raw /\ arguments raw <> [] /\ c = join " " (map shell_quote (arguments raw)).
Proof.
  unfold process_cmdline. destruct (cmdline_bytes pid) as [raw|]; [|done]. destruct (arguments raw) as [|a l] eqn:E; [done|].
  intros [= <-]. exists raw. by rewrite E.
Qed.
Lemma keep_if_some f o c : keep_if f o = Some c -> o = Some c.
Proof. unfold keep_if. destruct o as [x|]; [|done]. destruct (f x); [by intros [= ->]|done]. Qed.
(** The process whose command a session's checkpoint records. *)
Definition foreground `{!Procs} (i : CheckpointInput) (pid : Z) : Prop :=
  ck_fg_pid i = Some pid \/ exists child, ck_child_pid i = Some child /\ last (child_pids child) = Some pid.
Lemma build_command `{!Procs} i c : cp_command (build_one i) = Some c -> exists pid, foreground i pid /\ process_cmdline pid = Some c.
Proof.
  unfold build_one, foreground. assert (forall ch, (inspect_child ch).2 = Some c -> exists child pid, ch = Some child /\
    last (child_pids child) = Some pid /\ process_cmdline pid = Some c) as Hch.
  { intros [child|]; [|done]. cbn. unfold inspect_process. destruct (last (child_pids child)) as [pid|] eqn:El; [|done].
    intros Hk%keep_if_some. by exists child, pid. }
  destruct (inspect _ _) as [cwd cmd] eqn:E. cbn [cp_command]. intros ->.
  unfold inspect in E. destruct (ck_fg_pid i) as [fg|].
  - destruct (match process_cmdline fg with Some _ => _ | None => _ end); [done|].
    destruct (keep_if _ (process_cmdline fg)) as [x|] eqn:Ek.
    + apply keep_if_some in Ek. exists fg. split; [by left|]. destruct (process_cwd fg); congruence.
    + destruct (process_cwd fg); [done|]. destruct (Hch (ck_child_pid i)) as (child & pid & -> & Hl & Hp); [by rewrite E|].
      exists pid. eauto.
  - destruct (Hch (ck_child_pid i)) as (child & pid & -> & Hl & Hp); [by rewrite E|]. exists pid. eauto.
Qed.

Lemma lex_cd d rest : breaks rest = true ->
  sh_tokens ("cd " +:+ shell_quote d +:+ rest) = (fun l => Word "cd" :: Word d :: l) <$> sh_lex Between rest.
Proof.
  intros Hb. change (sh_tokens ("cd " +:+ shell_quote d +:+ rest))
    with (end_word (InWord "cd") <$> sh_lex Between (shell_quote d +:+ rest)).
  rewrite sh_lex_word, sh_lex_break by done. by destruct (sh_lex Between rest).
Qed.
Lemma lex_and rest : sh_lex Between (" && " +:+ rest) = cons AndIf <$> sh_lex Between rest.
Proof.
  change (sh_lex Between (" && " +:+ rest))
    with (end_word Between <$> ((fun l => end_word Between (AndIf :: l)) <$> (end_word Between <$> sh_lex Between rest))).
  by destruct (sh_lex Between rest).
Qed.
Lemma lex_newline : sh_lex Between newline = Some [NewLine].
Proof. done. Qed.
Lemma all_safe_app a b : all_safe (a +:+ b) = all_safe a && all_safe b.
Proof. induction a as [|c a IH]; [done|]. change (String c a +:+ b) with (String c (a +:+ b)). cbn. by rewrite IH, andb_assoc. Qed.
Lemma all_safe_srev s : all_safe (srev s) = all_safe s.
Proof. induction s as [|c s IH]; [done|]. rewrite srev_cons, all_safe_app, IH. cbn. by rewrite andb_true_r, andb_comm. Qed.
(** A quoted word does not end with a space. *)
Lemma quote_last d x h : x +:+ shell_quote d <> h +:+ " && ".
Proof.
  intros E. apply (f_equal srev) in E. rewrite !srev_sapp in E. change (srev " && ") with " && "%string in E.
  unfold shell_quote in E. destruct (negb _ && _) eqn:Eq.
  - apply andb_true_iff in Eq as [Hne Hs]. rewrite <-all_safe_srev in Hs. destruct (srev d) as [|c r] eqn:Er.
    + apply negb_true_iff, bool_decide_eq_false in Hne. apply Hne. by rewrite <-(srev_involutive d), Er.
    + cbn [all_safe] in Hs. apply andb_true_iff in Hs as [Hc _].
      change (String c r +:+ srev x) with (String c (r +:+ srev x)) in E. injection E as -> _. done.
  - rewrite !srev_sapp in E. discriminate E.
Qed.
Lemma trim_and d n : trim_end_matches (S n) " && " ("cd " +:+ shell_quote d +:+ " && ") = "cd " +:+ shell_quote d.
Proof.
  cbn [trim_end_matches]. assert (strip_suffix " && " ("cd " +:+ shell_quote d +:+ " && ") = Some ("cd " +:+ shell_quote d)) as ->
    by (apply strip_suffix_spec; by rewrite sapp_assoc).
  destruct n as [|n]; [done|]. cbn [trim_end_matches]. destruct (strip_suffix _ _) as [h|] eqn:E; [|done].
  apply strip_suffix_spec, quote_last in E. done.
Qed.

Lemma line_idle cp d : cp_command cp = None -> cp_cwd cp = Some d -> exists l, restore_line cp = Some l /\ sh_tokens l = Some [Word "cd"; Word d; NewLine].
Proof.
  intros Hc Hd. unfold restore_line. rewrite Hc, Hd. eexists. split; [by rewrite bool_decide_eq_false_2|].
  rewrite length_sapp. change (String.length "cd " + ?n)%nat with (S (2 + n)). rewrite trim_and, sapp_assoc, lex_cd by done. done.
Qed.
Lemma line_command cp c argv : cp_command cp = Some c -> restore_command c = join " " (map shell_quote argv) -> argv <> [] ->
  exists l, restore_line cp = Some l /\
    sh_tokens l = Some (match cp_cwd cp with Some d => [Word "cd"; Word d; AndIf] | None => [] end ++ map Word argv ++ [NewLine]).
Proof.
  intros Hc Hr Hne. unfold restore_line. rewrite Hc, Hr. eexists. split; [done|]. destruct (cp_cwd cp) as [d|].
  - rewrite !sapp_assoc, lex_cd, lex_and, sh_lex_words, lex_newline by done. done.
  - change (sh_tokens ("" +:+ join " " (map shell_quote argv) +:+ newline)) with (sh_lex Between (join " " (map shell_quote argv) +:+ newline)).
    rewrite sh_lex_words, lex_newline by done. done.
Qed.

(** ** What a process was started with *)
(** The kernel's [/proc/<pid>/cmdline] of a process started with [argv]. *)
Definition kernel_cmdline (argv : list string) : bytes := List.concat (map (fun a => str_bytes a ++ [0]) argv).
(** Arguments that are not empty, hold no NUL (no argument can) and are UTF-8. *)
Definition text_arg (a : string) : Prop := a <> ""%string /\ (0 ∉ str_bytes a) /\ utf8_valid (str_bytes a) = true.

Lemma split_nul_arg l rest : (0 ∉ l) -> split_nul (l ++ 0 :: rest) = l :: split_nul rest.
Proof.
  induction l as [|b l IH]; intros Hl; [done|]. cbn [app split_nul]. apply not_elem_of_cons in Hl as [Hb Hl].
  rewrite IH by done. assert ((b =? 0) = false) as -> by lia. done.
Qed.
Lemma arguments_exact argv : Forall text_arg argv -> arguments (kernel_cmdline argv) = argv.
Proof.
  unfold arguments, kernel_cmdline. induction 1 as [|a argv (Hne & H0 & Hv) _ IH]; [done|]. cbn [map List.concat].
  rewrite <-app_assoc. cbn [app]. rewrite split_nul_arg by done.
  rewrite filter_cons_True by (destruct a; [done|by cbn]). cbn [map]. rewrite IH. f_equal.
  unfold utf8_lossy. rewrite lossy_valid by done. apply bytes_str_bytes.
Qed.
Lemma kernel_cmdline_inj argv argv' : Forall text_arg argv -> Forall text_arg argv' ->
  kernel_cmdline argv = kernel_cmdline argv' -> argv = argv'.
Proof. intros Ha Ha' E. by rewrite <-(arguments_exact argv Ha), E, arguments_exact. Qed.

(** Whether the daemon takes a recorded command for a coding agent, which it resumes. *)
Definition runs_agent (cmd : string) : bool :=
  match split_whitespace cmd with [] => false | first :: _ => is_one_of ["claude"; "pi"]%string (program (split_whitespace cmd) first) end.
Lemma restore_command_same cmd : runs_agent cmd = false -> restore_command cmd = cmd.
Proof. unfold runs_agent, restore_command. destruct (split_whitespace cmd); [done|]. by intros ->. Qed.


(** A session that ran an agent, with arguments that need no quotes, is restored so that the agent resumes:
    the shell reads the same words in the same order but for the words that select a conversation, and the
    line asks for the latest one or names one. *)
Theorem agent_line_resumes argv first rest : argv = first :: rest -> Forall (fun w => plain_word w = true) argv ->
  is_one_of ["claude"; "pi"]%string (program argv first) = true ->
  exists argv', sh_tokens (restore_command (join " " (map shell_quote argv))) = Some (map Word argv') /\ resumes argv' /\
    List.filter (fun w => negb (selects w)) argv' = List.filter (fun w => negb (selects w)) argv.
Proof.
  intros Ha Hp Hag. exists (resume_parts argv). split; [|split; [apply resume_parts_resumes|apply resume_parts_keeps]].
  assert (Forall (fun w => plain_word w = true) (resume_parts argv)) as Hr by by apply Forall_resume.
  rewrite map_plain_quote by done. unfold restore_command. rewrite split_whitespace_join by done.
  cbv zeta. subst argv. cbv iota. rewrite Hag. rewrite <-(map_plain_quote _ Hr) at 1. rewrite <-(sapp_nil_r (join _ _)). unfold sh_tokens.
  rewrite sh_lex_words; [|intros E; pose proof (resume_parts_resumes (first :: rest)) as Hq; rewrite E in Hq|done].
  - cbn. by rewrite app_nil_r.
  - unfold resumes in Hq. destruct Hq as [?|[?|(i & o & n & Hi & _)]]; [set_solver..|done].
Qed.

(** ** Restoring, once *)
Section Restore.
Context `{!Procs, !Host, !HashIter, !RestoreEnv}.
(** Room for [n] more sessions. *)
Definition room (n : nat) (r : SessionRegistry) : Prop := max_sessions r <= 0 \/ registry_len r + Z.of_nat n <= max_sessions r.
(** Session ids are drawn at random: no two terminals get the same one, nor one
    that is in the registry. *)
Definition fresh_spawns (w : World) : Prop :=
  (forall k cp sb s, (spawns w <= k)%nat -> spawn_persistent_pty k cp sb = Some s -> sessions (reg w) !! sp_id s = None) /\
  (forall k k' cp cp' sb sb' s s', (k < k')%nat -> spawn_persistent_pty k cp sb = Some s -> spawn_persistent_pty k' cp' sb' = Some s' ->
    sp_id s <> sp_id s').
(** Where a session needs a broker, the broker starts. *)
Definition brokers_start : Prop :=
  forall k cp sb s, spawn_persistent_pty k cp sb = Some s -> macos = true -> is_restricted sb = true -> is_Some (sp_broker s).

Definition listed (r : SessionRegistry) (id owner : string) : Prop :=
  exists s, sessions r !! id = Some s /\ session_id s = id /\ peer_id s = owner.
Lemma elem_of_live_ids d r id : id ∈ live_ids d r <-> exists k s, sessions r !! k = Some s /\ session_id s = id.
Proof.
  assert (forall s, sum_session_id (summary channel_closed (now d) s) = session_id s) as Hs.
  { intros s. unfold summary. by destruct (lock (screen s)). }
  unfold live_ids, summaries. split.
  - intros (x & -> & Hx)%list_elem_of_fmap. rewrite sort_desc_perm in Hx. apply list_elem_of_fmap in Hx as (s & -> & Hx).
    apply list_elem_of_fmap in Hx as ([k s'] & -> & Hx). rewrite hash_iter_perm in Hx. apply elem_of_map_to_list in Hx.
    exists k, s'. by rewrite Hs.
  - intros (k & s & Hk & <-). apply list_elem_of_fmap. exists (summary channel_closed (now d) s). rewrite Hs. split; [done|].
    rewrite sort_desc_perm. apply list_elem_of_fmap. exists s. split; [done|]. apply list_elem_of_fmap. exists (k, s). split; [done|].
    rewrite hash_iter_perm. by apply elem_of_map_to_list.
Qed.
Lemma listed_live d r id owner : listed r id owner -> id ∈ live_ids d r.
Proof. intros (s & Hs & Hid & _). apply elem_of_live_ids. eauto. Qed.

Lemma insert_room s r n : room (S n) r -> sessions r !! session_id s = None ->
  exists r', insert_session s r = Ok (r', []) /\ sessions r' = <[session_id s := s]> (sessions r) /\ room n r'.
Proof.
  intros Hroom Hf. unfold insert_session. destruct (_ && _) eqn:E.
  - apply andb_true_iff in E as [K1%Z.ltb_lt K2%Z.leb_le]. destruct Hroom; lia.
  - cbn. eexists. split_and!; [done|done|]. unfold room, registry_len in *. cbn. rewrite map_size_insert_None by done. lia.
Qed.
(** What starting an entry does when there is room. *)
Lemma start_room d cp sb line w n : room (S n) (reg w) -> fresh_spawns w -> brokers_start ->
  exists res w', start_detached d cp sb line w = Ok (res, w') /\ sessions (reg w) ⊆ sessions (reg w') /\ room n (reg w') /\
    fresh_spawns w' /\
    launched w' = launched w ++ match res with Some id => [(id, cp_peer_id cp, sb)] | None => [] end /\
    (forall id, res = Some id -> sessions (reg w) !! id = None /\ listed (reg w') id (cp_peer_id cp)).
Proof.
  intros Hroom [Hf Hd] Hb. unfold start_detached. destruct (spawn_persistent_pty _ cp sb) as [s|] eqn:Es.
  2:{ eexists None, _. split; [done|]. cbn. rewrite app_nil_r. split_and!; [done| |split|done|done].
      - destruct Hroom; [by left|right; lia].
      - cbn. intros k cp' sb' s' Hk. apply Hf. lia.
      - exact Hd. }
  pose proof (Hf _ _ _ _ (le_n _) Es) as Hnew.
  destruct (insert_room (detached_session d cp s) (reg w) n Hroom Hnew) as (r' & Hi & Hs & Hr). rewrite Hi. cbn [mbind rust_bind].
  cbn [session_id detached_session] in Hs.
  assert (forall r2 m, sessions r2 = <[sp_id s := m]> (sessions r') -> session_id m = sp_id s -> peer_id m = cp_peer_id cp -> max_sessions r2 = max_sessions r' ->
    sessions (reg w) ⊆ sessions r2 /\ room n r2 /\ listed r2 (sp_id s) (cp_peer_id cp) /\
    forall k cp' sb' s', (S (spawns w) <= k)%nat -> spawn_persistent_pty k cp' sb' = Some s' -> sessions r2 !! sp_id s' = None) as Hgen.
  { intros r2 m E2 Hid Hown Hmax. rewrite Hs, insert_insert_eq in E2. split_and!.
    - rewrite E2. by apply insert_subseteq.
    - unfold room, registry_len in *. rewrite E2, Hmax. rewrite Hs in Hr. rewrite map_size_insert_None in * by done. done.
    - exists m. by rewrite E2, lookup_insert_eq.
    - intros k cp' sb' s' Hk Es'. rewrite E2, lookup_insert_ne by (by eapply (Hd (spawns w) k)). eapply Hf; [|done]. lia. }
  destruct (macos && is_restricted sb) eqn:Em.
  - apply andb_true_iff in Em as [Hm Hre]. destruct (Hb _ _ _ _ Es Hm Hre) as [h Eh]. rewrite Eh.
    destruct (Hgen (set_broker_handle (sp_id s) h r') (with_cells (resize_tx (detached_session d cp s)) (exit_rx (detached_session d cp s)) (Some h) (viewers (detached_session d cp s)) (screen (detached_session d cp s)) (detached_session d cp s))) as (K1 & K2 & K3 & K4);
      [unfold set_broker_handle; by rewrite Hs, lookup_insert_eq|done|done|unfold set_broker_handle; by rewrite Hs, lookup_insert_eq|].
    eexists (Some _), _. split; [done|]. destruct line; cbn; (split_and!; [done|done|split; [exact K4|exact Hd]|done|intros ? [= <-]; done]).
  - destruct (Hgen r' (detached_session d cp s)) as (K1 & K2 & K3 & K4); [by rewrite Hs, insert_insert_eq|done|done|done|].
    eexists (Some _), _. split; [done|]. destruct line; cbn; (split_and!; [done|done|split; [exact K4|exact Hd]|done|intros ? [= <-]; done]).
Qed.

Definition next_entry (cp : SessionCheckpoint) (o : RestoreOutcome) : SessionCheckpoint :=
  with_id (default (cp_session_id cp) (new_session_id o)) cp.
(** A session is started only if it is gone and its owner still a peer. *)
Definition justified (peers : PeersStore) (live : list string) (cp : SessionCheckpoint) (o : RestoreOutcome) : Prop :=
  o_session_id o = cp_session_id cp /\ o_line o = restore_line cp /\
  (is_Some (new_session_id o) -> (cp_session_id cp ∉ live) /\ survivor_pid cp = None /\ is_Some (known_peer peers cp)).
Definition started_as (peers : PeersStore) (cp : SessionCheckpoint) (o : RestoreOutcome) : list (string * string * SandboxPolicy) :=
  match new_session_id o, known_peer peers cp with
  | Some id, Some p => [(id, cp_peer_id cp, peer_sandbox peers p)]
  | _, _ => []
  end.
Definition now_listed (r r' : SessionRegistry) (cp : SessionCheckpoint) (o : RestoreOutcome) : Prop :=
  forall id, new_session_id o = Some id -> sessions r !! id = None /\ listed r' id (cp_peer_id cp).

Lemma restore_one_room d peers live cp w n : room (S n) (reg w) -> fresh_spawns w -> brokers_start ->
  exists o w', restore_one d peers live false cp w = Ok (o, next_entry cp o, w') /\ justified peers live cp o /\
    sessions (reg w) ⊆ sessions (reg w') /\ room n (reg w') /\ fresh_spawns w' /\
    launched w' = launched w ++ started_as peers cp o /\ now_listed (reg w) (reg w') cp o.
Proof.
  intros Hroom Hf Hb. unfold restore_one. assert (room n (reg w)) as Hroom' by (destruct Hroom; [by left|right; lia]).
  case_decide as Hl; [|destruct (survivor_pid cp) as [pid|] eqn:Es; [|destruct (known_peer peers cp) as [p|] eqn:Ek]].
  3:{ destruct (start_room d cp (peer_sandbox peers p) (restore_line cp) w n Hroom Hf Hb) as (res & w' & -> & Hs & Hr & Hf' & Hla & Hli).
      cbn [mbind rust_bind]. destruct res as [id|]; (eexists (Build_RestoreOutcome _ _ _ _ _), w'; split; [reflexivity|]); unfold justified, started_as, now_listed; cbn; rewrite Ek.
      - split_and!; [done|done|by eauto|done|done|done|done|by intros ? [= <-]; apply Hli].
      - split_and!; [done|done|by intros [? [=]]|done|done|done|done|done]. }
  all: eexists (Build_RestoreOutcome _ _ _ _ _), w; split; [reflexivity|]; unfold justified, started_as, now_listed; cbn; rewrite app_nil_r;
    split_and!; [done|done|by intros [? [=]]|done|done|done|done|done].
Qed.
Lemma now_listed_mono r0 r1 r2 cp o : sessions r1 ⊆ sessions r2 -> now_listed r0 r1 cp o -> now_listed r0 r2 cp o.
Proof.
  intros Hs Hn id Hid. destruct (Hn id Hid) as [Hz (s & Hk & Ho)]. split; [done|]. exists s. split; [|done]. by eapply lookup_weaken.
Qed.
Lemma now_listed_anti r0 r1 r2 cp o : sessions r0 ⊆ sessions r1 -> now_listed r1 r2 cp o -> now_listed r0 r2 cp o.
Proof. intros Hs Hn id Hid. destruct (Hn id Hid) as [Hz Hl]. split; [|done]. by eapply lookup_weaken_None. Qed.
Lemma restore_all_room d peers live l w : room (length l) (reg w) -> fresh_spawns w -> brokers_start ->
  exists out w', restore_all d peers live false l w = Ok (out, zip_with next_entry l out, w') /\ Forall2 (justified peers live) l out /\
    sessions (reg w) ⊆ sessions (reg w') /\ launched w' = launched w ++ concat (zip_with (started_as peers) l out) /\
    Forall2 (now_listed (reg w) (reg w')) l out.
Proof.
  intros Hroom Hf Hb. revert w Hroom Hf. induction l as [|cp l IH]; intros w Hroom Hf.
  - exists [], w. cbn. rewrite app_nil_r. split_and!; [done|constructor|done|done|constructor].
  - destruct (restore_one_room d peers live cp w (length l) Hroom Hf Hb) as (o & w1 & K1 & Kj & Ks & Kr & Kf & Kl & Kn).
    destruct (IH w1 Kr Kf) as (out & w' & K2 & Kj2 & Ks2 & Kl2 & Kn2).
    exists (o :: out), w'. cbn. rewrite K1. cbn. rewrite K2. cbn. split_and!; [done|by constructor|by etrans|by rewrite Kl2, Kl, <-app_assoc|].
    constructor; [by eapply now_listed_mono|]. eapply Forall2_impl; [done|]. intros x y. by apply now_listed_anti.
Qed.
Lemma restore_all_live d peers live l w out next w' : restore_all d peers live false l w = Ok (out, next, w') ->
  Forall2 (fun cp o => cp_session_id cp ∈ live -> o_session_id o = cp_session_id cp /\ o_skipped o = Some StillRunning /\ new_session_id o = None) l out.
Proof.
  revert w out next w'. induction l as [|cp l IH]; intros w out next w'; cbn; [intros [= <- <- <-]; constructor|].
  destruct (restore_one d peers live false cp w) as [[[o n] w1]| |] eqn:E1; cbn; [|done..].
  destruct (restore_all d peers live false l w1) as [[[os ns] w2]| |] eqn:E2; cbn; [|done..].
  intros [= <- <- <-]. constructor; [|by eapply IH]. intros Hl. unfold restore_one in E1. rewrite decide_True in E1 by done.
  by injection E1 as <- <- <-.
Qed.
End Restore.

(** C19.  Let the registry have room for every entry of the checkpoint, brokers start where sessions need
    them, session ids be drawn afresh, the peers load and the checkpoint be saved.  Then restoring starts a
    session for an entry only if its session is gone, its owner is still a peer and, where the entry records
    a command, neither of the recorded processes runs that command or program any more; it runs under the
    owner's current policy, and no session of the registry ends.  Nothing is started twice: a later
    restore under the same conditions on peers and file, with whatever else has been started since, finds
    every restored session running. *)
Theorem restore_once `{!Procs, !Host, !HashIter, !RestoreEnv} d peers w file :
  room (length (cp_sessions file)) (reg w) -> fresh_spawns w -> brokers_start ->
  exists out w' file', restore d (Some peers) true false w (Present file) = Ok (Some out, w', Present file') /\
    sessions (reg w) ⊆ sessions (reg w') /\
    Forall2 (justified peers (live_ids d (reg w))) (cp_sessions file) out /\
    launched w' = launched w ++ concat (zip_with (started_as peers) (cp_sessions file) out) /\
    forall d2 peers2 w2 out2 w3 disk3, sessions (reg w') ⊆ sessions (reg w2) ->
      restore d2 (Some peers2) true false w2 (Present file') = Ok (Some out2, w3, disk3) ->
      Forall2 (fun o o2 => forall id, new_session_id o = Some id ->
        o_session_id o2 = id /\ o_skipped o2 = Some StillRunning /\ new_session_id o2 = None) out out2.
Proof.
  intros Hroom Hf Hb. destruct (restore_all_room d peers (live_ids d (reg w)) (cp_sessions file) w Hroom Hf Hb) as (out & w' & Hr & Hj & Hs & Hl & Hn).
  exists out, w', {| saved_ms := now_ms d; daemon_boot := boot d; cp_sessions := zip_with next_entry (cp_sessions file) out; ttys := ∅ |}.
  split; [unfold restore; cbn [load]; by rewrite Hr|]. split_and!; [done..|]. intros d2 peers2 w2 out2 w3 disk3 Hs2 Hr2.
  unfold restore in Hr2. cbn [load cp_sessions] in Hr2. destruct (restore_all d2 _ _ _ _ w2) as [[[o2 n2] w4]| |] eqn:E2; cbn in Hr2; [|done..].
  injection Hr2 as <- <- _. apply restore_all_live in E2. clear - Hn Hs2 E2. revert o2 E2.
  induction Hn as [|cp o l out Hn Hns IH]; intros o2 E2; inversion_clear E2 as [|? y ? ys K1 K2]; constructor; [|by apply IH].
  intros id Hid. unfold next_entry in K1. rewrite Hid in K1. cbn in K1. apply K1.
  destruct (now_listed_mono _ _ _ _ _ Hs2 Hn id Hid) as [_ Hli]. by eapply listed_live.
Qed.

(** A daemon that has no sessions does not overwrite what another one left to restore; one that has recorded
    sessions does, whatever was left. *)
Theorem write_keeps_unrestored `{!Procs, !Host, !HashIter} d saves r prev :
  daemon_boot prev <> boot d -> cp_sessions prev <> [] ->
  ((forall k s, sessions r !! k = Some s -> has_exited s = true) -> write d saves r (Present prev) = (Present prev, Some 0%nat)) /\
  ((exists k s, sessions r !! k = Some s /\ has_exited s = false) -> exists file n, write d true r (Present prev) = (Present file, Some (S n)) /\
     daemon_boot file = boot d /\ map cp_session_id (cp_sessions file) = map ck_session_id (checkpoint_inputs r)).
Proof.
  intros Hboot Hne. unfold write. split.
  - intros Hall. assert (checkpoint_inputs r = []) as ->.
    { unfold checkpoint_inputs. destruct (base.filter _ _) as [|s l] eqn:E; [done|]. exfalso.
      assert (s ∈ s :: l) as Hin by set_solver. rewrite <-E in Hin. apply list_elem_of_filter in Hin as [Hx Hin].
      apply list_elem_of_fmap in Hin as ([k s'] & -> & Hin). rewrite hash_iter_perm in Hin. apply elem_of_map_to_list, Hall in Hin.
      unfold has_exited in Hin. cbn in Hx. by rewrite Hx in Hin. }
    cbn. by rewrite bool_decide_eq_false_2, (proj2 (Z.eqb_neq _ _) Hboot).
  - intros (k & s & Hk & Hx). destruct (checkpoint_inputs r) as [|i l] eqn:E.
    { exfalso. assert (checkpoint_input s ∈ checkpoint_inputs r) as Hin; [|rewrite E in Hin; set_solver].
      unfold checkpoint_inputs. apply list_elem_of_fmap. exists s. split; [done|]. apply list_elem_of_filter.
      split; [unfold has_exited in Hx; by destruct (exit_rx s)|]. apply list_elem_of_fmap. exists (k, s). split; [done|].
      rewrite hash_iter_perm. by apply elem_of_map_to_list. }
    cbn [build map]. eexists _, _. split; [done|]. cbn [daemon_boot cp_sessions]. split; [done|].
    assert (forall j, cp_session_id (build_one j) = ck_session_id j) as Hid by (intros j; unfold build_one; by destruct (inspect _ _)).
    cbn. rewrite Hid. f_equal. unfold build. rewrite map_map. by apply map_ext.
Qed.

(** ** Concrete runs *)
Module Sample.
(** Process 7 edits two files in a directory with a space; nothing else runs. *)
Definition vim_line : bytes := str_bytes "vim" ++ [0] ++ str_bytes "it's" ++ [0] ++ str_bytes "a;b" ++ [0].
Definition procs : Procs :=
  {| cmdline_bytes := fun p => if p =? 7 then Some vim_line else None;
     process_cwd := fun p => if p =? 7 then Some "/tmp/my proj"%string else None; proc_entries := [] |}.
Definition input : CheckpointInput :=
  {| ck_session_id := "s1"; ck_peer_id := "k"; ck_username := None; ck_child_pid := None; ck_fg_pid := Some 7; ck_title := None; ck_tty := None |}.
Definition idle_procs : Procs := {| cmdline_bytes := fun _ => None; process_cwd := fun _ => None; proc_entries := [] |}.
Definition peer : Peer :=
  {| node_id := "k"; name := "laptop"; authorized_at := "0"; last_seen := None; Config.username := None; role := RolePeer;
     role_name := None; netdoc_author := None; self_doc := None; vip := None; vpn_endpoint := None; site_id := None;
     sandbox := unrestricted |}.
Definition spawned (k : nat) : Spawned :=
  {| sp_id := "n" +:+ print_uint (Z.of_nat k); sp_input := 0; sp_route := {| w_val := None; w_open := true |};
     sp_resize := {| w_val := {| pty_rows := 24; pty_cols := 80; pixel_width := 0; pixel_height := 0 |}; w_open := true |};
     sp_child := Some 9; sp_cancel := 0; sp_viewers := {| poisoned := false; contents := [] |}; sp_master := None;
     sp_screen := {| poisoned := false; contents := {| events := {| poisoned := false; contents := (None, 0) |}; dims := (24, 80) |} |};
     sp_exit := None; sp_broker := None |}.
(** Two terminals can be started. *)
Definition env (mac : bool) : RestoreEnv :=
  {| macos := mac; parse_public_key := Some; spawn_persistent_pty := fun k _ _ => if (k <? 2)%nat then Some (spawned k) else None;
     channel_closed := fun _ => false |}.
Definition registry (max : Z) : SessionRegistry := {| sessions := ∅; timeout := 10 ^ 12; max_sessions := max |}.
Definition world (max : Z) : World := {| reg := registry max; spawns := 0; typed := []; launched := []; signals := [] |}.
Definition entry (id : string) : SessionCheckpoint :=
  {| cp_session_id := id; cp_peer_id := "k"; cp_username := None; cp_cwd := Some "/srv"%string; cp_command := None; cp_fg_pid := None;
     cp_child_pid := None; cp_title := None |}.
Definition file : CheckpointFile := {| saved_ms := 0; daemon_boot := 1; cp_sessions := [entry "s1"; entry "s2"]; ttys := ∅ |}.
Definition daemon : Daemon := {| boot := 2; now_ms := 3; now := 4 |}.
End Sample.


Lemma restore_once_witness :
  exists out w' file', @restore Sample.idle_procs demo_host key_order (Sample.env false) Sample.daemon (Some [Sample.peer]) true false
                         (Sample.world 0) (Present Sample.file) = Ok (Some out, w', Present file') /\
    launched w' = concat (zip_with (@started_as (Sample.env false) [Sample.peer]) (cp_sessions Sample.file) out).
Proof.
  destruct (@restore_once Sample.idle_procs demo_host key_order (Sample.env false) Sample.daemon [Sample.peer] (Sample.world 0) Sample.file)
    as (out & w' & file' & Hr & _ & _ & Hl & _).
  - left. cbn. lia.
  - split.
    + intros k cp sb s _ _. apply lookup_empty.
    + intros k k' cp cp' sb sb' s s' Hk Hs Hs'. cbn [spawn_persistent_pty Sample.env] in Hs, Hs'.
      destruct k as [|[|k]], k' as [|[|k']]; try lia; try discriminate Hs'; try discriminate Hs. injection Hs as <-. injection Hs' as <-. done.
  - intros k cp sb s _ [=].
  - exists out, w', file'. split; [exact Hr|exact Hl].
Defined.

(** What a restore reports for two entries: the new ids, the sessions the registry has, the signals sent. *)
Definition report (mac : bool) (max : Z) (peer : Peer) : list (option string * option SkipReason) * list string * list Effect :=
  match @restore Sample.idle_procs demo_host key_order (Sample.env mac) Sample.daemon (Some [peer]) true false (Sample.world max) (Present Sample.file) with
  | Ok (Some out, w, _) => (map (fun o => (new_session_id o, o_skipped o)) out, (map_to_list (sessions (reg w))).*1, signals w)
  | _ => ([], [], [])
  end.
Definition scoped_peer : Peer :=
  {| node_id := "k"; name := "laptop"; authorized_at := "0"; last_seen := None; Config.username := None; role := RolePeer;
     role_name := None; netdoc_author := None; self_doc := None; vip := None; vpn_endpoint := None; site_id := None;
     sandbox := {| read_only := true; no_network := false; allowed_paths := []; allowed_commands := []; denied_commands := [] |} |}.

(** The room is needed: in a registry for one session a restore of two reports both as restored and kills
    the first with the second. *)
Example restore_evicts_restored :
  report false 1 Sample.peer = ([(Some "n0"%string, None); (Some "n1"%string, None)], ["n1"%string],
                                [NotifyReader 0; Kill (-9) SIGHUP; Kill (-9) SIGKILL]).
Proof. vm_compute. reflexivity. Qed.
(** So is the broker: where it cannot start, on macOS under a restricted policy, the sessions run, although
    they are reported as not started and a later restore starts them again. *)
Example failed_broker_leaves_sessions :
  (report true 0 scoped_peer).1.1 = [(None, Some CouldNotStart); (None, Some CouldNotStart)] /\
  length (report true 0 scoped_peer).1.2 = 2%nat.
Proof. split; vm_compute; reflexivity. Qed.
(** A directory with two spaces in an agent's argument comes back with one: the agent's line is split at
    white space and joined again, quotes or not. *)
Example agent_argument_altered :
  sh_tokens (restore_command (join " " (map shell_quote ["claude"; "a  b"]%string))) = Some [Word "claude"; Word "a b"; Word CONTINUE].
Proof. vm_compute. reflexivity. Qed.
(** Another process of the same program under the recorded pid counts as the session's own. *)
Example same_program_survives : let procs := {| cmdline_bytes := fun p => if p =? 7 then Some (str_bytes "node" ++ [0] ++ str_bytes "x.js") else None;
                                                process_cwd := fun _ => None; proc_entries := [] |} in
  survivor_pid {| cp_session_id := "s"; cp_peer_id := "k"; cp_username := None; cp_cwd := None; cp_command := Some "node server.js"%string;
                  cp_fg_pid := Some 7; cp_child_pid := None; cp_title := None |} = Some 7.
Proof. vm_compute. reflexivity. Qed.
