(* ===== verification/Health.v ===== *)
(** * Health: dial records and the watchdogs
    (hop-core/src/health.rs, net/health.rs, net/netmon.rs, net/mod.rs)

    What the daemon records of its dials and its memory, the probe that dials the
    host through its own relay and restarts the daemon when that keeps failing, the
    watchers of the relay and of the interfaces, and the last direct paths.  Times
    are nanoseconds of a monotone clock, or Unix milliseconds where the code uses
    those.  The result of a probe, a relay's answer and the addresses of the
    interfaces are inputs of a round. *)
From S2P Require Import Prelude Addr Text.
Local Open Scope Z_scope.

Definition secs (n : Z) : Z := n * 10 ^ 9.

(** ** Dials *)
Definition DIAL_WARN_EVERY : Z := secs 300.
Record PeerDial := {
  consecutive_failures : Z; total_failures : Z; last_error : option string; last_failure_ms : option Z;
  last_success_ms : option Z; failing_since_ms : option Z; failing_since : option Z; last_warn : option Z;
}.
Definition no_dials : PeerDial :=
  {| consecutive_failures := 0; total_failures := 0; last_error := None; last_failure_ms := None; last_success_ms := None;
     failing_since_ms := None; failing_since := None; last_warn := None |}.
(** One dial: its end on both clocks, and the error if it failed. *)
Record Dial := { at_ns : Z; at_ms : Z; error : option string }.
(** What is logged: a warning, or that a streak of failures ended. *)
Inductive Log := Warn (at_ns in_a_row : Z) | Recovered (after : Z).
Definition dial_ok (d : Dial) (p : PeerDial) : PeerDial * list Log :=
  ({| consecutive_failures := 0; total_failures := total_failures p; last_error := last_error p; last_failure_ms := last_failure_ms p;
      last_success_ms := Some (at_ms d); failing_since_ms := None; failing_since := None; last_warn := None |},
   if 0 <? consecutive_failures p then [Recovered (consecutive_failures p)] else []).
Definition warn_due (now : Z) (p : PeerDial) : bool :=
  match last_warn p with None => true | Some t => DIAL_WARN_EVERY <=? sat_sub now t end.
Definition dial_failed (d : Dial) (err : string) (p : PeerDial) : PeerDial * list Log :=
  let due := warn_due (at_ns d) p in
  let n := consecutive_failures p + 1 in
  ({| consecutive_failures := n; total_failures := total_failures p + 1; last_error := Some err; last_failure_ms := Some (at_ms d);
      last_success_ms := last_success_ms p;
      failing_since_ms := match failing_since p with None => Some (at_ms d) | Some _ => failing_since_ms p end;
      failing_since := match failing_since p with None => Some (at_ns d) | t => t end;
      last_warn := if due then Some (at_ns d) else last_warn p |},
   if due then [Warn (at_ns d) n] else []).
Definition note_dial (d : Dial) (p : PeerDial) : PeerDial * list Log :=
  match error d with None => dial_ok d p | Some e => dial_failed d e p end.

Record Dials := { vpn_dial_ok : Z; vpn_dial_failed : Z; vpn_peers : gmap string PeerDial }.
Definition peer_dial (peer : string) (r : Dials) : PeerDial := default no_dials (vpn_peers r !! peer).
Definition note_vpn_dial (x : string * Dial) (r : Dials) : Dials * list Log :=
  let '(p, l) := note_dial x.2 (peer_dial x.1 r) in
  ({| vpn_dial_ok := vpn_dial_ok r + (match error x.2 with None => 1 | Some _ => 0 end);
      vpn_dial_failed := vpn_dial_failed r + (match error x.2 with None => 0 | Some _ => 1 end);
      vpn_peers := <[x.1 := p]> (vpn_peers r) |}, l).
Fixpoint note_dials (l : list (string * Dial)) (r : Dials) : Dials * list (string * Log) :=
  match l with
  | [] => (r, [])
  | x :: l => let '(r, a) := note_vpn_dial x r in let '(r, b) := note_dials l r in (r, map (pair x.1) a ++ b)
  end.
Definition no_registry : Dials := {| vpn_dial_ok := 0; vpn_dial_failed := 0; vpn_peers := ∅ |}.

(** ** Memory *)
Definition RSS_SAMPLES : nat := 288.
(** [while len > RSS_SAMPLES { pop_front }]. *)
Fixpoint pop_to (fuel : nat) (l : list (Z * Z)) : list (Z * Z) :=
  match fuel with
  | O => l
  | S f => if (RSS_SAMPLES <? length l)%nat then pop_to f (tail l) else l
  end.
Definition sample_rss (mono_ms : Z) (resident : option Z) (rss : list (Z * Z)) : list (Z * Z) :=
  match resident with
  | None => rss
  | Some b => let l := rss ++ [(mono_ms, b)] in pop_to (length l) l
  end.

(** ** The inbound probe *)
Definition PROBE_INTERVAL : Z := secs 300.
Definition REDISCOVER_AFTER : Z := 2.
Definition RESTART_AFTER : Z := 4.
(** The restart channel holds one message; without a handle there is none. *)
Inductive Restart := NoHandle | Empty | Requested.
Definition request_restart (c : Restart) : Restart * bool :=
  match c with Empty => (Requested, true) | c => (c, false) end.
Inductive Probe := Reached | NoRelay | RelayDown | Failed.
Inductive Action := NetworkChange | AskRestart.
(** [None]: the watchdog has returned. *)
Record Watchdog := { failures : Z; channel : Restart; running : bool }.
(** One turn: the age of the last completed inbound handshake, and what a probe
    would give.  The actions, and how long it sleeps. *)
Record Round := { last_inbound : option Z; probe : Probe }.
Definition probe_failed (w : Watchdog) : Watchdog * list Action :=
  let n := failures w + 1 in
  let change := if n =? REDISCOVER_AFTER then [NetworkChange] else [] in
  if RESTART_AFTER <=? n then
    let '(c, ok) := request_restart (channel w) in
    if ok then ({| failures := n; channel := c; running := false |}, change ++ [AskRestart])
    else ({| failures := 0; channel := c; running := true |}, change)
  else ({| failures := n; channel := channel w; running := true |}, change).
Definition reset (w : Watchdog) : Watchdog := {| failures := 0; channel := channel w; running := true |}.
(** A handshake within the interval. *)
Definition recent (interval : Z) (x : Round) : option Z :=
  match last_inbound x with Some age => if age <? interval then Some age else None | None => None end.
Definition probe_round (interval : Z) (x : Round) (w : Watchdog) : Watchdog * list Action * Z :=
  match recent interval x with
  | Some age => (reset w, [], interval - age)
  | None =>
      match probe x with
      | Reached => (reset w, [], interval)
      | NoRelay | RelayDown => (w, [], interval)
      | Failed => let '(w, a) := probe_failed w in (w, a, interval)
      end
  end.
Fixpoint inbound_probe (interval : Z) (l : list Round) (w : Watchdog) : Watchdog * list Action :=
  match l with
  | [] => (w, [])
  | x :: l => if running w then let '(w, a, _) := probe_round interval x w in
                                let '(w, b) := inbound_probe interval l w in (w, a ++ b)
              else (w, [])
  end.
Definition watchdog (c : Restart) : Watchdog := {| failures := 0; channel := c; running := true |}.
(** [HOP_INBOUND_PROBE_SECS]. *)
Definition probe_interval (var : option string) : Z :=
  match var with
  | None => PROBE_INTERVAL
  | Some s => match parse_uint (2 ^ 64 - 1) (trim s) with
              | Some n => if 10 <=? n then secs n else PROBE_INTERVAL
              | None => PROBE_INTERVAL
              end
  end.
Definition PROBE_INITIAL_DELAY : Z := secs 120.
Definition probe_initial_delay (var : option string) : Z :=
  match var with Some _ => probe_interval var | None => PROBE_INITIAL_DELAY end.

(** ** The relay's watcher *)
Definition RELAY_FAILURE_THRESHOLD : Z := 3.
(** [None]: no home relay; otherwise whether any answer came. *)
Definition relay_round (flush : bool) (answer : option bool) (n : Z) : Z * list bool :=
  match answer with
  | None => (n, [])
  | Some ok => let n := if ok then 0 else n + 1 in
               if RELAY_FAILURE_THRESHOLD <=? n then (0, [flush]) else (n, [])
  end.
(** The re-discoveries, each with whether the pool was flushed. *)
Fixpoint relay_watcher (flush : bool) (l : list (option bool)) (n : Z) : Z * list bool :=
  match l with
  | [] => (n, [])
  | x :: l => let '(n, a) := relay_round flush x n in let '(n, b) := relay_watcher flush l n in (n, a ++ b)
  end.

(** ** Interfaces *)
Definition is_loopback4 (a : Ipv4Addr) : bool := let '(V4 a _ _ _) := a in a =? 127.
Definition is_link_local4 (a : Ipv4Addr) : bool := let '(V4 a b _ _) := a in (a =? 169) && (b =? 254).
Definition is_loopback6 (a : Ipv6Addr) : bool := bool_decide (octets6 a = replicate 15 0 ++ [1]).
(** [segments()[0] & 0xffc0 == 0xfe80]. *)
Definition is_link_local6 (a : Ipv6Addr) : bool :=
  (Z.land (nth 0 (octets6 a) 0 * 256 + nth 1 (octets6 a) 0) 65472) =? 65152.
#[export] Instance IpAddr_countable : Countable IpAddr.
Proof.
  by apply (inj_countable' (fun a => match a with IpV4 a => inl a | IpV6 a => inr a end)
    (fun x => match x with inl a => IpV4 a | inr a => IpV6 a end)); intros [].
Defined.
(** What [getifaddrs] lists, and the addresses the system is rotating. *)
Record Interfaces := { addresses : list (option IpAddr); transient : gset Ipv6Addr }.
Definition skip_addr (tr : gset Ipv6Addr) (ip : IpAddr) : bool :=
  match ip with
  | IpV4 a => is_loopback4 a || is_link_local4 a
  | IpV6 a => is_loopback6 a || is_link_local6 a || bool_decide (a ∈ tr)
  end.
Definition current_interface_addrs (i : option Interfaces) : gset IpAddr :=
  match i with
  | None => ∅
  | Some i => list_to_set (List.filter (fun ip => negb (skip_addr (transient i) ip)) (omap id (addresses i)))
  end.
(** One poll: the addresses to compare with next time, and the re-discovery. *)
Definition interface_round (flush : bool) (i : option Interfaces) (prev : gset IpAddr) : gset IpAddr * list bool :=
  let curr := current_interface_addrs i in
  if bool_decide (curr = prev) then (prev, []) else (curr, [flush]).
Fixpoint interface_watcher (flush : bool) (l : list (option Interfaces)) (prev : gset IpAddr) : list bool :=
  match l with
  | [] => []
  | i :: l => let '(prev, a) := interface_round flush i prev in a ++ interface_watcher flush l prev
  end.

(** ** Paths *)
Definition is_vpn_overlay_addr (ip : IpAddr) : bool :=
  match ip with
  | IpV4 (V4 a b _ _) => (a =? 100) && (64 <=? b) && (b <=? 127)
  | IpV6 a => Z.land (nth 0 (octets6 a) 0) 254 =? 252
  end.
Inductive TransportAddr := Relay (url : string) | Ip (a : IpAddr) (port : Z) | Custom.
Definition hop_addr_filter (l : list TransportAddr) : list TransportAddr :=
  List.filter (fun a => match a with Ip ip _ => negb (is_vpn_overlay_addr ip) | _ => true end) l.
Definition LAST_DIRECT_MAX : nat := 1024.
Definition remember_direct (id : string) (addr : IpAddr * Z) (m : gmap string (IpAddr * Z)) : gmap string (IpAddr * Z) :=
  let m := if (LAST_DIRECT_MAX <=? size m)%nat && negb (bool_decide (is_Some (m !! id))) then ∅ else m in
  <[id := addr]> m.
Definition note_direct_path (id : string) (selected : option TransportAddr) (m : gmap string (IpAddr * Z)) : gmap string (IpAddr * Z) :=
  match selected with Some (Ip a port) => remember_direct id (a, port) m | _ => m end.
(** What a dial is given besides the key. *)
Definition dial_addr (id : string) (relay : option string) (m : gmap string (IpAddr * Z)) : list TransportAddr :=
  match relay with Some r => [Relay r] | None => [] end ++ match m !! id with Some (a, port) => [Ip a port] | None => [] end.
Definition hop_relay_url (var : option string) (builtin : string) : string :=
  match var with Some s => if bool_decide (trim s = ""%string) then builtin else s | None => builtin end.

(** ** Counting failures *)
(** What a round says: it is reachable, nothing, or it failed. *)
Inductive Kind := Alive | Unjudged | Failing.
Definition nfail (l : list Kind) : nat := length (List.filter (fun k => match k with Failing => true | _ => false end) l).
Definition silent (l : list Kind) : Prop := Forall (fun k => k <> Alive) l.
(** [k] failures without a sign of life between them, after [n] earlier ones. *)
Definition reaches_from (k n : nat) (l : list Kind) : Prop :=
  (exists seg post, l = seg ++ post /\ silent seg /\ (k <= n + nfail seg)%nat) \/
  (exists pre seg post, l = pre ++ seg ++ post /\ silent seg /\ (k <= nfail seg)%nat).
Definition unreachable (k : nat) (l : list Kind) : Prop :=
  exists pre seg post, l = pre ++ seg ++ post /\ silent seg /\ (k <= nfail seg)%nat.
Lemma reaches_0 k l : reaches_from k 0 l <-> unreachable k l.
Proof. split; [intros [(seg & post & E)|E]; [by exists [], seg, post|done]|by right]. Qed.
Lemma reaches_nil k n : (n < k)%nat -> ~ reaches_from k n [].
Proof.
  intros Hn [(seg & post & E & _ & Hk)|(pre & seg & post & E & _ & Hk)].
  - symmetry in E. apply app_nil in E as [-> _]. unfold nfail in Hk. cbn in Hk. lia.
  - symmetry in E. apply app_nil in E as [_ E]. apply app_nil in E as [-> _]. unfold nfail in Hk. cbn in Hk. lia.
Qed.
Lemma reaches_alive k n l : (n < k)%nat -> reaches_from k n (Alive :: l) <-> reaches_from k 0 l.
Proof.
  intros Hn. rewrite reaches_0. split.
  - intros [(seg & post & E & Hs & Hk)|(pre & seg & post & E & Hs & Hk)].
    + destruct seg as [|x seg]; [unfold nfail in Hk; cbn in Hk; lia|]. injection E as <- _. by inversion_clear Hs.
    + destruct pre as [|y pre]; cbn in E; [|injection E as _ ->; by exists pre, seg, post].
      destruct seg as [|x seg]; [unfold nfail in Hk; cbn in Hk; lia|]. injection E as <- _. by inversion_clear Hs.
  - intros (pre & seg & post & -> & Hs & Hk). right. by exists (Alive :: pre), seg, post.
Qed.
Lemma nfail_unjudged l : nfail (Unjudged :: l) = nfail l.
Proof. done. Qed.
Lemma nfail_failing l : nfail (Failing :: l) = S (nfail l).
Proof. done. Qed.
Lemma reaches_step k n x l : (n < k)%nat -> x <> Alive ->
  reaches_from k n (x :: l) <-> reaches_from k (match x with Failing => S n | _ => n end) l.
Proof.
  intros Hn Hx. split.
  - intros [(seg & post & E & Hs & Hk)|(pre & seg & post & E & Hs & Hk)].
    + destruct seg as [|y seg]; [unfold nfail in Hk; cbn in Hk; lia|]. injection E as <- ->. inversion_clear Hs.
      left. exists seg, post. split_and!; [done..|]. destruct x; [done|by rewrite nfail_unjudged in Hk|rewrite nfail_failing in Hk; lia].
    + destruct pre as [|y pre]; cbn in E; [|injection E as _ ->; right; by exists pre, seg, post].
      destruct seg as [|y seg]; [unfold nfail in Hk; cbn in Hk; lia|]. injection E as <- ->. inversion_clear Hs.
      left. exists seg, post. split_and!; [done..|]. destruct x; [done|rewrite nfail_unjudged in Hk; lia|rewrite nfail_failing in Hk; lia].
  - intros [(seg & post & -> & Hs & Hk)|(pre & seg & post & -> & Hs & Hk)].
    + left. exists (x :: seg), post. split_and!; [done|by constructor|]. destruct x; [done|by rewrite nfail_unjudged|rewrite nfail_failing; lia].
    + right. by exists (x :: pre), seg, post.
Qed.
Lemma reaches_unjudged k n l : (n < k)%nat -> reaches_from k n (Unjudged :: l) <-> reaches_from k n l.
Proof. intros Hn. by apply (reaches_step k n Unjudged). Qed.
Lemma reaches_failing k n l : (n < k)%nat -> reaches_from k n (Failing :: l) <-> reaches_from k (S n) l.
Proof. intros Hn. by apply (reaches_step k n Failing). Qed.
Lemma reaches_now k n l : (k <= n)%nat -> reaches_from k n l.
Proof. intros Hk. left. exists [], l. split_and!; [done|constructor|lia]. Qed.

(** ** Restarting *)
Definition kind_of (interval : Z) (x : Round) : Kind :=
  match recent interval x, probe x with
  | Some _, _ => Alive
  | None, Reached => Alive
  | None, Failed => Failing
  | None, _ => Unjudged
  end.
Lemma snd_app {A B} (p : A * list B) a : (let '(w, b) := p in (w, a ++ b)).2 = a ++ p.2.
Proof. by destruct p. Qed.
Lemma probe_asks interval l n : (n < 4)%nat ->
  AskRestart ∈ (inbound_probe interval l {| failures := Z.of_nat n; channel := Empty; running := true |}).2 <->
  reaches_from 4 n (map (kind_of interval) l).
Proof.
  revert n. induction l as [|x l IH]; intros n Hn; [split; [set_solver|by intros []%reaches_nil]|].
  cbn [inbound_probe running map]. unfold probe_round, kind_of at 1. specialize (IH O ltac:(lia)) as IH0.
  destruct (recent interval x) as [age|]; [|destruct (probe x)].
  - rewrite reaches_alive by done. rewrite <-IH0. unfold reset. cbn [channel].
    by rewrite snd_app.
  - rewrite reaches_alive by done. rewrite <-IH0. unfold reset. cbn [channel]. by rewrite snd_app.
  - rewrite reaches_unjudged by done. rewrite <-IH by done. by rewrite snd_app.
  - rewrite reaches_unjudged by done. rewrite <-IH by done. by rewrite snd_app.
  - rewrite reaches_failing by done. unfold probe_failed, RESTART_AFTER. cbn [failures channel request_restart].
    destruct (4 <=? Z.of_nat n + 1) eqn:E.
    + apply Z.leb_le in E. rewrite snd_app.
      split; [intros _; apply reaches_now; lia|]. intros _. apply elem_of_app. left. apply elem_of_app. right. by left.
    + apply Z.leb_gt in E. replace (Z.of_nat n + 1) with (Z.of_nat (S n)) by lia. rewrite <-IH by lia.
      rewrite snd_app, elem_of_app. split; [|by right].
      intros [Ha|Hb]; [|done]. destruct (_ =? _); set_solver.
Qed.
Lemma no_channel_no_restart interval l n c : c <> Empty ->
  (AskRestart ∉ (inbound_probe interval l {| failures := n; channel := c; running := true |}).2) /\
  running (inbound_probe interval l {| failures := n; channel := c; running := true |}).1 = true.
Proof.
  intros Hc. revert n. induction l as [|x l IH]; intros n; [split; [set_solver|done]|].
  cbn [inbound_probe running]. unfold probe_round, reset. cbn [channel].
  assert (forall n a, AskRestart ∉ a -> (AskRestart ∉ (let '(w, b) := inbound_probe interval l {| failures := n; channel := c; running := true |} in (w, a ++ b)).2) /\
    running (let '(w, b) := inbound_probe interval l {| failures := n; channel := c; running := true |} in (w, a ++ b)).1 = true) as Hgen.
  { intros m a Ha. destruct (IH m) as [K1 K2]. destruct (inbound_probe interval l _) as [w b]. cbn in *. set_solver. }
  destruct (recent interval x) as [age|]; [apply Hgen; set_solver|]. destruct (probe x); try (apply Hgen; set_solver).
  unfold probe_failed. cbn [failures channel]. destruct (RESTART_AFTER <=? n + 1).
  - destruct c; [|done|]; apply Hgen; destruct (_ =? _); set_solver.
  - apply Hgen. destruct (_ =? _); set_solver.
Qed.

(** C20.  The watchdog restarts the daemon exactly when it was unreachable: it asks for a restart if and only if
    a handle is installed and some four probes failed with neither a successful one nor a handshake of a
    real client between them; without a handle it never asks and never stops probing. *)
Theorem restart_iff_unreachable interval l c :
  (AskRestart ∈ (inbound_probe interval l (watchdog c)).2 <-> c = Empty /\ unreachable 4 (map (kind_of interval) l)) /\
  (c <> Empty -> running (inbound_probe interval l (watchdog c)).1 = true).
Proof.
  unfold watchdog. split; [|intros Hc; by apply no_channel_no_restart].
  destruct c; [|rewrite (probe_asks interval l O), reaches_0 by lia; naive_solver|].
  - split; [by intros []%no_channel_no_restart|naive_solver].
  - split; [by intros []%no_channel_no_restart|naive_solver].
Qed.

(** ** Re-discovery *)
Definition relay_kind (x : option bool) : Kind := match x with None => Unjudged | Some true => Alive | Some false => Failing end.
Lemma relay_asks flush l n : (n < 3)%nat ->
  (relay_watcher flush l (Z.of_nat n)).2 <> [] <-> reaches_from 3 n (map relay_kind l).
Proof.
  revert n. induction l as [|x l IH]; intros n Hn; [split; [done|by intros []%reaches_nil]|].
  cbn [relay_watcher map]. specialize (IH O ltac:(lia)) as IH0. change (Z.of_nat 0) with 0 in IH0.
  destruct x as [[]|]; cbn [relay_kind].
  - rewrite reaches_alive by done. rewrite <-IH0. change (relay_round flush (Some true) (Z.of_nat n)) with (0, @nil bool). cbv iota beta. by rewrite snd_app.
  - rewrite reaches_failing by done. unfold relay_round, RELAY_FAILURE_THRESHOLD. destruct (3 <=? Z.of_nat n + 1) eqn:E.
    + apply Z.leb_le in E. rewrite snd_app. split; [intros _; apply reaches_now; lia|done].
    + apply Z.leb_gt in E. replace (Z.of_nat n + 1) with (Z.of_nat (S n)) by lia. rewrite <-IH by lia.
      by rewrite snd_app.
  - rewrite reaches_unjudged by done. rewrite <-IH by done. unfold relay_round. cbv iota beta. by rewrite snd_app.
Qed.
(** Re-discovery is forced exactly when three probes of the relay got no answer with none answered between. *)
Theorem relay_rediscovery_exact flush l : (relay_watcher flush l 0).2 <> [] <-> unreachable 3 (map relay_kind l).
Proof. rewrite <-reaches_0. apply (relay_asks flush l O). lia. Qed.

(** ** Dials of a peer *)
Fixpoint run_peer (l : list Dial) (p : PeerDial) : PeerDial * list Log :=
  match l with
  | [] => (p, [])
  | d :: l => let '(p, a) := note_dial d p in let '(p, b) := run_peer l p in (p, a ++ b)
  end.
Definition history (peer : string) (l : list (string * Dial)) : list Dial :=
  map snd (List.filter (fun x => bool_decide (x.1 = peer)) l).
Definition logged (peer : string) (l : list (string * Log)) : list Log :=
  map snd (List.filter (fun x => bool_decide (x.1 = peer)) l).
Lemma logged_app peer a b : logged peer (a ++ b) = logged peer a ++ logged peer b.
Proof. unfold logged. by rewrite List.filter_app, map_app. Qed.
Lemma logged_pair peer q a : logged peer (map (pair q) a) = if decide (q = peer) then a else [].
Proof.
  unfold logged. induction a as [|x a IH]; cbn; [by case_decide|]. case_decide as E.
  - rewrite bool_decide_eq_true_2 by done. cbn. by rewrite IH.
  - by rewrite bool_decide_eq_false_2.
Qed.
(** Every peer's record and log are those of its own dials. *)
Lemma peer_alone peer l r :
  peer_dial peer (note_dials l r).1 = (run_peer (history peer l) (peer_dial peer r)).1 /\
  logged peer (note_dials l r).2 = (run_peer (history peer l) (peer_dial peer r)).2.
Proof.
  revert r. induction l as [|[q d] l IH]; intros r; [done|]. cbn [note_dials]. unfold note_vpn_dial. cbn [fst snd].
  destruct (note_dial d (peer_dial q r)) as [p a] eqn:E.
  set (r1 := {| vpn_dial_ok := _; vpn_dial_failed := _; vpn_peers := _ |}). specialize (IH r1).
  destruct (note_dials l r1) as [r2 b]. cbn [fst snd] in *. rewrite logged_app, logged_pair.
  assert (history peer ((q, d) :: l) = if decide (q = peer) then d :: history peer l else history peer l) as ->.
  { unfold history. cbn. case_decide; [rewrite bool_decide_eq_true_2 by done|rewrite bool_decide_eq_false_2 by done]; done. }
  destruct IH as [K1 K2]. assert (peer_dial peer r1 = if decide (q = peer) then p else peer_dial peer r) as Ep.
  { unfold peer_dial, r1. cbn. case_decide as Eq; [by rewrite Eq, lookup_insert_eq|by rewrite lookup_insert_ne]. }
  rewrite Ep in K1, K2. case_decide as Eq; [|done]. subst q. cbn [run_peer]. rewrite E.
  destruct (run_peer (history peer l) p) as [p2 c]. cbn [fst snd] in *. by rewrite K1, K2.
Qed.

Definition failed (d : Dial) : bool := match error d with Some _ => true | None => false end.
(** The failures since the last success. *)
Fixpoint streak (acc : list Dial) (l : list Dial) : list Dial :=
  match l with [] => acc | d :: l => streak (if failed d then acc ++ [d] else []) l end.
Fixpoint timely (last : Z) (l : list Dial) : Prop := match l with [] => True | d :: l => last <= at_ns d /\ timely (at_ns d) l end.
(** Warnings of one streak are [DIAL_WARN_EVERY] apart. *)
Fixpoint spaced (last : option Z) (l : list Log) : Prop :=
  match l with
  | [] => True
  | Recovered _ :: l => spaced None l
  | Warn t _ :: l => match last with None => True | Some t0 => DIAL_WARN_EVERY <= t - t0 end /\ spaced (Some t) l
  end.
Definition tracks (acc : list Dial) (p : PeerDial) : Prop :=
  consecutive_failures p = Z.of_nat (length acc) /\ failing_since p = at_ns <$> head acc /\ failing_since_ms p = at_ms <$> head acc /\
  match list.last acc with
  | None => last_warn p = None
  | Some d => exists t, last_warn p = Some t /\ at_ns d - t < DIAL_WARN_EVERY /\ t <= at_ns d
  end.
Lemma dial_tracks d acc p now : tracks acc p -> match list.last acc with Some x => at_ns x | None => now end <= at_ns d ->
  tracks (if failed d then acc ++ [d] else []) (note_dial d p).1 /\ total_failures (note_dial d p).1 = total_failures p + (if failed d then 1 else 0).
Proof.
  intros (Hc & Hf & Hm & Hl) Ht. unfold note_dial, failed. destruct (error d) as [e|]; cbn.
  - split; [|done]. unfold tracks. cbn. rewrite length_app, last_snoc, Hc, Hf, Hm. split_and!; [cbn; lia|by destruct acc|by destruct acc|].
    unfold warn_due. destruct (list.last acc) as [x|] eqn:El.
    + destruct Hl as (t & -> & Hlt & Hle). unfold sat_sub. destruct (DIAL_WARN_EVERY <=? Z.max 0 (at_ns d - t)) eqn:E.
      * exists (at_ns d). split; [done|]. unfold DIAL_WARN_EVERY, secs. lia.
      * apply Z.leb_gt in E. exists t. split; [done|]. lia.
    + rewrite Hl. exists (at_ns d). split; [done|]. unfold DIAL_WARN_EVERY, secs. lia.
  - split; [done|]. lia.
Qed.
Lemma dial_spaced d p l : match last_warn p with Some t => 0 < consecutive_failures p | None => True end ->
  spaced (last_warn (note_dial d p).1) l -> spaced (last_warn p) ((note_dial d p).2 ++ l).
Proof.
  intros Hw Hl. unfold note_dial in *. destruct (error d) as [e|]; cbn in *.
  - unfold warn_due in *. destruct (last_warn p) as [t|]; [destruct (DIAL_WARN_EVERY <=? sat_sub (at_ns d) t) eqn:E|]; cbn in *; [|done|done].
    split; [|done]. apply Z.leb_le in E. unfold sat_sub, DIAL_WARN_EVERY, secs in *. lia.
  - destruct (last_warn p) as [t|]; [by rewrite (proj2 (Z.ltb_lt _ _) Hw)|]. by destruct (_ <? _).
Qed.
Lemma tracks_warned acc p : tracks acc p -> match last_warn p with Some t => 0 < consecutive_failures p | None => True end.
Proof.
  intros (Hc & _ & _ & Hl). destruct (last_warn p); [|done]. rewrite Hc. destruct acc; [done|]. cbn. lia.
Qed.
Lemma run_tracks l acc p now : tracks acc p -> timely (match list.last acc with Some x => at_ns x | None => now end) l ->
  tracks (streak acc l) (run_peer l p).1 /\
  total_failures (run_peer l p).1 = total_failures p + Z.of_nat (length (List.filter failed l)) /\ spaced (last_warn p) (run_peer l p).2.
Proof.
  revert acc p now. induction l as [|d l IH]; intros acc p now Hp Ht; [cbn; split_and!; [done|lia|done]|].
  destruct Ht as [Ht Hl]. destruct (dial_tracks d acc p now Hp Ht) as [Hp1 Htot]. cbn [streak run_peer].
  destruct (IH (if failed d then acc ++ [d] else []) (note_dial d p).1 (at_ns d) Hp1) as (K1 & K2 & K3).
  { destruct (failed d); [by rewrite last_snoc|done]. }
  pose proof (dial_spaced d p (run_peer l (note_dial d p).1).2 (tracks_warned acc p Hp) K3) as Hs.
  destruct (note_dial d p) as [p1 a]. cbn [fst snd] in *. destruct (run_peer l p1) as [p2 b]. cbn [fst snd] in *.
  split_and!; [done| |done]. rewrite K2, Htot. cbn [List.filter]. destruct (failed d); cbn; lia.
Qed.

(** What the health record says of a peer is its history: the failures in a row are those since the last
    successful dial and the streak starts with the first of them; while it lasts, warnings are at least
    five minutes apart and no failure is later than five minutes after a warning; the other peers' dials
    do not matter. *)
Theorem dials_reported peer l start :
  timely start (history peer l) ->
  let p := peer_dial peer (note_dials l no_registry).1 in
  let st := streak [] (history peer l) in
  consecutive_failures p = Z.of_nat (length st) /\ failing_since p = at_ns <$> head st /\
  total_failures p = Z.of_nat (length (List.filter failed (history peer l))) /\
  spaced None (logged peer (note_dials l no_registry).2) /\
  (forall d, list.last st = Some d -> exists t, last_warn p = Some t /\ t <= at_ns d < t + DIAL_WARN_EVERY).
Proof.
  intros Ht. destruct (peer_alone peer l no_registry) as [-> ->]. change (peer_dial peer no_registry) with no_dials.
  destruct (run_tracks (history peer l) [] no_dials start) as ((K1 & K2 & K3 & K4) & K5 & K6); [by split_and!|done|].
  split_and!; [done|done|rewrite K5; done|done|]. intros d Hd. rewrite Hd in K4. destruct K4 as (t & ? & ? & ?). exists t. split; [done|lia].
Qed.

(** ** Memory samples *)
Definition taken (l : list (Z * option Z)) : list (Z * Z) := omap (fun x => pair x.1 <$> x.2) l.
Lemma pop_to_spec fuel l : (length l - RSS_SAMPLES <= fuel)%nat -> pop_to fuel l = drop (length l - RSS_SAMPLES) l.
Proof.
  revert l. induction fuel as [|f IH]; intros l Hf; cbn [pop_to].
  - by replace (length l - RSS_SAMPLES)%nat with O by lia.
  - destruct (RSS_SAMPLES <? length l)%nat eqn:E.
    + apply Nat.ltb_lt in E. destruct l as [|x l]; [cbn [length] in E; lia|]. cbn [tail]. rewrite IH by (cbn [length] in *; lia).
      replace (length (x :: l) - RSS_SAMPLES)%nat with (S (length l - RSS_SAMPLES)) by (cbn [length] in *; lia). done.
    + apply Nat.ltb_ge in E. by replace (length l - RSS_SAMPLES)%nat with O by lia.
Qed.
(** The memory trend is over the newest samples, 288 at most. *)
Theorem rss_newest l :
  foldl (fun rss x => sample_rss x.1 x.2 rss) [] l = drop (length (taken l) - RSS_SAMPLES) (taken l).
Proof.
  induction l as [|x l IH] using rev_ind; [done|]. rewrite foldl_app. cbn [foldl]. rewrite IH. unfold taken. rewrite omap_app.
  fold (taken l). set (h := taken l). destruct x as [t [b|]]; cbn; [|by rewrite app_nil_r].
  rewrite pop_to_spec by lia. rewrite !length_app, length_drop. cbn [length].
  rewrite !drop_app, length_drop, drop_drop. f_equal; [f_equal; lia|]. f_equal. lia.
Qed.

(** ** Direct paths *)
(** The table of direct paths never has more than 1024 entries, and a path that was noted is there. *)
Theorem direct_paths_bounded id addr m : (size m <= LAST_DIRECT_MAX)%nat ->
  (size (remember_direct id addr m) <= LAST_DIRECT_MAX)%nat /\ remember_direct id addr m !! id = Some addr.
Proof.
  intros Hm. unfold remember_direct. set (m1 := if _ && _ then _ else m). split; [|apply lookup_insert_eq].
  destruct (m !! id) as [x|] eqn:E.
  - assert (m1 = m) as -> by (unfold m1; rewrite bool_decide_eq_true_2 by done; by rewrite andb_false_r).
    by rewrite map_size_insert_Some.
  - unfold m1. rewrite bool_decide_eq_false_2 by (by intros [? [=]]). rewrite andb_true_r.
    destruct (LAST_DIRECT_MAX <=? size m)%nat eqn:El; [rewrite map_size_insert_None, map_size_empty by apply lookup_empty; unfold LAST_DIRECT_MAX; lia|].
    apply Nat.leb_gt in El. rewrite map_size_insert_None by done. lia.
Qed.
