(* ===== verification/LogSearch.v ===== *)
(** * LogSearch: searching the logs of a node (hop-core/src/logsearch/mod.rs)

    Where a source's lines come from, which of them are matched and what is
    emitted.  A log is its bytes; [BufRead::lines] cuts them at line feeds and gives
    an error for a line that is not UTF-8.  Which files and programs exist and what
    a program prints are the environment. *)
From S2P Require Import Prelude Text Enforce Datastore Privsep.
From Stdlib Require Import Ascii.
Local Open Scope Z_scope.

Inductive Access := ACommand (argv : list string) | AFile (path : string) | AAudit.
Record LogSource := { ls_id : string; ls_label : string; ls_kind : string; ls_detail : string; available : bool }.
Record LogLine := { ts : option string; source : string; line : string }.

Class Node := {
  macos : bool;
  file_bytes : string -> option bytes;
  exists_path : string -> bool;
  (** What a started program writes; [None]: it cannot be started. *)
  program_output : list string -> option bytes;
}.

Definition MACOS_LOG : string := "/usr/bin/log".
Definition well_known_files : list (string * string) :=
  [("nginx", "/var/log/nginx/access.log"); ("nginx-error", "/var/log/nginx/error.log"); ("apache", "/var/log/apache2/access.log");
   ("auth", "/var/log/auth.log"); ("kern", "/var/log/kern.log"); ("dpkg", "/var/log/dpkg.log"); ("install", "/var/log/install.log")]%string.

Section Search.
Context `{!Node}.
Definition readable (path : string) : bool := bool_decide (is_Some (file_bytes path)).
Definition linux_journalctl : bool := existsb exists_path ["/usr/bin/journalctl"; "/bin/journalctl"]%string.
Definition resolve_system (since : string) (line_cap : Z) : Access * string :=
  if macos then (ACommand [MACOS_LOG; "show"; "--style"; "compact"; "--last"; since]%string, "log show (unified log)"%string)
  else if linux_journalctl then (ACommand ["journalctl"; "--no-pager"; "-n"; print_uint line_cap]%string, "journalctl"%string)
  else if readable "/var/log/syslog" then (AFile "/var/log/syslog", "/var/log/syslog"%string)
  else if readable "/var/log/messages" then (AFile "/var/log/messages", "/var/log/messages"%string)
  else if readable "/var/log/system.log" then (AFile "/var/log/system.log", "/var/log/system.log"%string)
  else (AFile "/dev/null", "(no system log)"%string).
Definition discover_sources : list LogSource :=
  let '(sys, detail) := resolve_system "1h" 1 in
  [{| ls_id := "audit"; ls_label := "hop audit log"; ls_kind := "audit"; ls_detail := "structured auth/connection/exec events"; available := true |};
   {| ls_id := "system"; ls_label := if macos then "macOS unified log" else "system log"; ls_kind := "system"; ls_detail := detail;
      available := match sys with ACommand argv => exists_path (default ""%string (head argv)) | AFile p => readable p | AAudit => true end |}] ++
  map (fun x => {| ls_id := x.1; ls_label := x.1 +:+ " log"; ls_kind := "file"; ls_detail := x.2; available := true |})
    (List.filter (fun x => readable x.2) well_known_files).
Definition resolve (src since : string) (line_cap : Z) : Access * string :=
  if bool_decide (src = "audit"%string) then (AAudit, "hop audit log"%string)
  else if bool_decide (src = "system"%string) then resolve_system since line_cap
  else if existsb (Ascii.eqb "/"%char) (String.list_ascii_of_string src) then (AFile src, src)
  else match find (fun x => bool_decide (x.1 = src)) well_known_files with
       | Some (_, path) => (AFile path, path)
       | None => let guess := "/var/log/" +:+ src +:+ ".log" in (AFile guess, guess)
       end.

(** ** Lines *)
(** [BufRead::lines] without the conversion: a line end is a line feed with a
    carriage return before it, and the last line may lack one. *)
Fixpoint cut_lines (cur : bytes) (l : bytes) : list bytes :=
  match l with
  | [] => match cur with [] => [] | _ => [rev cur] end
  | b :: r => if b =? 10 then rev (match cur with c :: cur' => if c =? 13 then cur' else cur | [] => [] end) :: cut_lines [] r
              else cut_lines (b :: cur) r
  end.
(** [map_while(Result::ok)]: the first line that is not UTF-8 ends the iteration. *)
Fixpoint while_utf8 (l : list bytes) : list string :=
  match l with [] => [] | x :: r => match from_utf8 x with Some s => s :: while_utf8 r | None => [] end end.
Definition read_lines (l : bytes) : list string := while_utf8 (cut_lines [] l).

(** ** Matching *)
Definition is_upper (c : ascii) : bool := in_range 65 90 (ord c).
Definition has_upper (s : string) : bool := existsb is_upper (String.list_ascii_of_string s).
Definition smart_match (haystack needle : string) (needle_has_upper : bool) : bool :=
  if bool_decide (needle = ""%string) then true
  else if needle_has_upper then contains needle haystack else contains needle (lower haystack).
Definition parse_ts (l : string) (macos_sys : bool) : option string :=
  let trimmed := trim_start l in
  if macos_sys then
    match split_whitespace trimmed with
    | _ :: time :: _ => Some (default time (head (split_char "."%char time)))
    | _ => None
    end
  else match take 3 (split_whitespace trimmed) with
       | [a; b; c] => Some (join " " [a; b; c])
       | _ => None
       end.

(** ** The search *)
Definition log_line (src : string) (macos_sys : bool) (raw : string) : LogLine :=
  {| ts := parse_ts raw macos_sys; source := src; line := raw |}.
(** The lines after [emitted] ones were emitted. *)
Fixpoint consume_all (needle : option string) (upper : bool) (src : string) (macos_sys : bool) (limit emitted : nat) (l : list string)
    : list LogLine :=
  match l with
  | [] => []
  | raw :: r =>
      if (limit <=? emitted)%nat then [] else
      let matched := match needle with Some g => smart_match raw g upper | None => true end in
      let emitted' := if matched then S emitted else emitted in
      (if matched then [log_line src macos_sys raw] else []) ++
      if (emitted' <? limit)%nat then consume_all needle upper src macos_sys limit emitted' r else []
  end.
Definition skip_old (cap : nat) (l : list string) : list string := drop (length l - cap) l.
(** [None]: a program could not be started. *)
Definition search (src since : string) (grep : option string) (limit line_cap : nat) : option (list LogLine) :=
  let cap := Z.of_nat line_cap in
  let access := (resolve src since cap).1 in
  let upper := match grep with Some g => has_upper g | None => false end in
  let needle := match grep with Some g => Some (if upper then g else lower g) | None => None end in
  let macos_sys := macos && bool_decide (src = "system"%string) in
  let consume := consume_all needle upper src macos_sys limit 0 in
  match access with
  | AAudit => (fun out => consume (read_lines out)) <$>
              program_output ["hop"; "audit"; "--json"; "--since"; since; "--limit"; print_uint cap]%string
  | ACommand argv => (fun out => consume (take line_cap (read_lines out))) <$> program_output argv
  | AFile path => match file_bytes path with
                  | None => Some []
                  | Some b => Some (consume (skip_old line_cap (read_lines b)))
                  end
  end.

(** ** What is found *)
(** The lines a search looks at. *)
Definition window (src since : string) (line_cap : nat) : option (list string) :=
  match (resolve src since (Z.of_nat line_cap)).1 with
  | AAudit => read_lines <$> program_output ["hop"; "audit"; "--json"; "--since"; since; "--limit"; print_uint (Z.of_nat line_cap)]%string
  | ACommand argv => (fun out => take line_cap (read_lines out)) <$> program_output argv
  | AFile path => Some (match file_bytes path with None => [] | Some b => skip_old line_cap (read_lines b) end)
  end.
(** Smart case: letters of either case, unless the pattern has a capital. *)
Definition matches (grep : option string) (raw : string) : bool :=
  match grep with
  | None => true
  | Some g => if has_upper g then contains g raw else contains (lower g) (lower raw)
  end.
Lemma contains_nil s : contains "" s = true.
Proof. by destruct s. Qed.
Lemma smart_match_matches raw g : smart_match raw (if has_upper g then g else lower g) (has_upper g) = matches (Some g) raw.
Proof.
  unfold smart_match, matches. destruct (has_upper g); case_bool_decide as E; rewrite ?E, ?contains_nil; done.
Qed.
Lemma consume_all_spec needle upper src mac limit emitted l :
  (emitted <= limit)%nat ->
  consume_all needle upper src mac limit emitted l =
  map (log_line src mac) (take (limit - emitted)
    (List.filter (fun raw => match needle with Some g => smart_match raw g upper | None => true end) l)).
Proof.
  revert emitted. induction l as [|raw l IH]; intros emitted Hle; cbn [consume_all List.filter]; [by rewrite take_nil|].
  destruct (limit <=? emitted)%nat eqn:El.
  { apply Nat.leb_le in El. by replace (limit - emitted)%nat with O by lia. }
  apply Nat.leb_gt in El. destruct (match needle with Some g => _ | None => true end).
  - replace (limit - emitted)%nat with (S (limit - S emitted)) by lia. cbn [take map app]. f_equal.
    destruct (S emitted <? limit)%nat eqn:E; [apply IH; lia|]. apply Nat.ltb_ge in E. by replace (limit - S emitted)%nat with O by lia.
  - cbn [app]. rewrite (proj2 (Nat.ltb_lt _ _) El). by apply IH.
Qed.

(** A search emits exactly the first matches of the lines it looks at, at most as many as asked for, in
    their order: the oldest ones where there are more; a file that cannot be read gives none. *)
Theorem search_exact src since grep limit line_cap :
  search src since grep limit line_cap =
  (fun ls => map (log_line src (macos && bool_decide (src = "system"%string))) (take limit (List.filter (matches grep) ls))) <$>
  window src since line_cap.
Proof.
  assert (forall l, consume_all (match grep with Some g => Some (if has_upper g then g else lower g) | None => None end)
      (match grep with Some g => has_upper g | None => false end) src (macos && bool_decide (src = "system"%string)) limit 0 l =
    map (log_line src (macos && bool_decide (src = "system"%string))) (take limit (List.filter (matches grep) l))) as Hc.
  { intros l. rewrite consume_all_spec, Nat.sub_0_r by lia. do 2 f_equal. apply List.filter_ext. intros raw.
    destruct grep as [g|]; [apply smart_match_matches|done]. }
  unfold search, window. destruct (resolve src since (Z.of_nat line_cap)).1 as [argv|path|].
  - destruct (program_output argv); cbn; [|done]. f_equal. destruct grep; apply Hc.
  - destruct (file_bytes path); cbn; [f_equal; destruct grep; apply Hc|]. by rewrite take_nil.
  - destruct (program_output _); cbn; [|done]. f_equal. destruct grep; apply Hc.
Qed.

Lemma cut_lines_app cur a b : cut_lines cur (a ++ 10 :: b) = cut_lines cur (a ++ [10]) ++ cut_lines [] b.
Proof.
  revert cur. induction a as [|x a IH]; intros cur; cbn [app cut_lines].
  - change (10 =? 10) with true. cbn. by destruct b.
  - destruct (x =? 10); [|apply IH]. by rewrite IH.
Qed.
Lemma while_utf8_stop a x b : from_utf8 x = None -> while_utf8 (a ++ x :: b) = while_utf8 a.
Proof.
  intros Hx. induction a as [|y a IH]; cbn; [by rewrite Hx|]. destruct (from_utf8 y); [|done]. by rewrite IH.
Qed.
Lemma cut_one x cur : 10 ∉ x -> cut_lines cur (x ++ [10]) = [rev (match rev x ++ cur with c :: cur' => if c =? 13 then cur' else c :: cur' | [] => [] end)].
Proof.
  revert cur. induction x as [|c x IH]; intros cur Hx; cbn [app cut_lines rev]; [by destruct cur|].
  destruct (c =? 10) eqn:E; [apply Z.eqb_eq in E as ->; set_solver|]. rewrite IH by set_solver. by rewrite <-app_assoc.
Qed.

(** One line that is not UTF-8 hides everything after it: whatever a file has behind such a line, a search
    of it is the search of what is before. *)
Theorem invalid_line_hides src since grep limit line_cap path before x after :
  (resolve src since (Z.of_nat line_cap)).1 = AFile path ->
  file_bytes path = Some (before ++ 10 :: x ++ 10 :: after) -> (10 ∉ x) -> last x <> Some 13 -> utf8_valid x = false ->
  search src since grep limit line_cap =
  Some (map (log_line src (macos && bool_decide (src = "system"%string)))
         (take limit (List.filter (matches grep) (skip_old line_cap (read_lines (before ++ [10])))))).
Proof.
  intros Hr Hf Hx Hcr Hu. rewrite search_exact. unfold window. rewrite Hr, Hf. cbn. do 3 f_equal.
  unfold read_lines. rewrite cut_lines_app, (cut_lines_app [] x after), (cut_one x) by done. rewrite app_nil_r. cbn [app].
  assert (rev (match rev x with c :: cur' => if c =? 13 then cur' else c :: cur' | [] => [] end) = x) as ->.
  { destruct x as [|c x _] using rev_ind; [done|]. rewrite rev_app_distr. cbn. rewrite last_snoc in Hcr.
    destruct (c =? 13) eqn:E; [apply Z.eqb_eq in E as ->; done|]. cbn. by rewrite rev_involutive. }
  rewrite while_utf8_stop; [done|]. unfold from_utf8. by rewrite Hu.
Qed.
End Search.

(** An attacker who gets one byte into a log is not found in it. *)
Module Sample.
Definition log : bytes := str_bytes "ok" ++ [10] ++ [255] ++ [10] ++ str_bytes "Failed password for root" ++ [10].
Definition node : Node :=
  {| macos := false; file_bytes := fun p => if bool_decide (p = "/var/log/auth.log"%string) then Some log else None;
     exists_path := fun _ => false; program_output := fun _ => None |}.
End Sample.
Lemma invalid_line_hides_witness :
  @search Sample.node "auth" "1h" (Some "failed"%string) 100 1000 = Some [].
Proof.
  rewrite (@invalid_line_hides Sample.node "auth" "1h" (Some "failed"%string) 100 1000 "/var/log/auth.log" (str_bytes "ok") [255]
    (str_bytes "Failed password for root" ++ [10])); [vm_compute; reflexivity|reflexivity|reflexivity| |discriminate|reflexivity].
  intros Hin. apply list_elem_of_singleton in Hin. discriminate Hin.
Defined.
