(* ===== verification/Socket.v ===== *)
(** * Socket: the daemon's local socket (hop-core/src/datastore/socket.rs, protocol.rs)

    The requests local programs send the daemon, how a connection serves them over
    the datastore, the administrative handlers, the session registry with its
    checkpoints and the network document, and the client that keeps one connection.
    bincode on requests and responses is an interface; a connection is the bytes
    the client has not read.  One request is served at a time; statistics and health
    are values the daemon reports. *)
From S2P Require Import Prelude Addr Text Policy Config Invite Auth Acl DocStore Netdoc NetAuth Table Datastore Cron Fleet Admin.
From S2P Require Import Registry Scheduler Checkpoint Health.
From Stdlib Require Import Ascii.
Local Open Scope Z_scope.

Definition MAX_FRAME : Z := 16 * 1024 * 1024.

Inductive DsRequest :=
| KvGet (ns key : string) | KvSet (ns key : string) (entry : KvEntry) | KvDelete (ns key : string) | KvList (ns prefix : string)
| TsInsert (metric : string) (point : MetricPoint) | TsInsertAt (metric : string) (ts : Z) (point : MetricPoint)
| TsQuery (query : TimeSeriesQuery) | TsLatest (metric : string)
| CronAdd (job : CronJob) | CronRemove (jid : string) | CronList | CronGet (jid : string) | CronFindByCatalogId (cid : string)
| CronGetDue (now_ms : Z) | CronUpdateLastRun (jid : string) (ts nxt : Z) | CronPurgeCorrupt
| SecretsGet (user nm : string) | SecretsSet (user nm : string) (value : bytes) | SecretsDelete (user nm : string) | SecretsList (user : string)
| AdminReq (r : AdminRequest) | NetStatsReq | AuditAppend (event : AuditEvent) | AuditQueryReq (query : AuditQuery)
| CronRunsReq (jid : string) (limit : Z) | Restart | HealthReq.
(** An administrative answer, or one only the daemon gives. *)
Inductive AdminReply :=
| Reply (r : AdminResponse) | Sessions (l : list SessionSummary) | Checkpointed (l : list SessionCheckpoint) | Restored (l : list RestoreOutcome)
| NoSessionRegistry | CheckpointFailed | RestoreFailed | NoNetdoc | ReadmitFailed (e : NetErr).
Inductive DsResponse :=
| ROk | RBool (b : bool) | RError (msg : string) | RKvEntry (e : option KvEntry) | RKvEntries (l : list (string * KvEntry))
| RTsPoints (l : list (Z * MetricPoint)) | RTsLatest (p : option (Z * MetricPoint)) | RCronJob (j : option CronJob) | RCronJobs (l : list CronJob)
| RSecretValue (v : option bytes) | RSecretNames (l : list string) | RStringList (l : list string) | RAdmin (r : AdminReply)
| RNetStats (counters : list Z) | RAuditEvents (l : list AuditEvent) | RCronRuns (l : list CronRun) | RHealth (json : string).

(** ** The daemon *)
Record Daemon := { admin_state : AdminState; sessions_of : option World; ck_disk : Disk; restart_channel : Health.Restart }.
(** What serving a request reads: the clocks, randomness, and the answers of the
    statistics; whether the checkpoint file can be written; when endpoints were last
    heard. *)
Record ServeEnv := {
  admin_env : AdminEnv; stamp : string; daemon_env : Checkpoint.Daemon; secret_nonce : bytes; counters : list Z; health_json : string;
  file_saves : bool; vpn_seen : string -> option Z;
}.

Section Serve.
Context `{!InviteCrates, !Argon2, !Commands, !Bincode KvEntry, !Bincode MetricPoint, !Bincode SealedSecret, !AuditJson, !Aead,
  !CronCodec, !CronCrate, !ContentHash, !DocCrates, !Clock, !Procs, !Host, !HashIter, !RestoreEnv}.
Variable debug_opt : option string -> string.

(** [dispatch_request] on the requests of the datastore. *)
Definition dispatch_store (e : ServeEnv) (d : Datastore) (req : DsRequest) : ds (Datastore * DsResponse) :=
  match req with
  | KvGet ns key => x ← kv_get d ns key; Ok (d, RKvEntry x)
  | KvSet ns key entry => Ok (kv_set d ns key entry, ROk)
  | KvDelete ns key => let '(d, b) := kv_delete d ns key in Ok (d, RBool b)
  | KvList ns prefix => l ← kv_list d ns prefix; Ok (d, RKvEntries l)
  | TsInsert metric point => Ok (ts_insert d (now_millis (admin_env e)) metric point, ROk)
  | TsInsertAt metric ts point => Ok (ts_insert_at d metric ts point, ROk)
  | TsQuery q => l ← ts_query d q; Ok (d, RTsPoints l)
  | TsLatest metric => p ← ts_latest d metric; Ok (d, RTsLatest p)
  | CronAdd job => d ← cron_add d job; Ok (d, ROk)
  | CronRemove jid => let '(d, b) := cron_remove d jid in Ok (d, RBool b)
  | CronList => Ok (d, RCronJobs (cron_list d))
  | CronGet jid => j ← cron_get d jid; Ok (d, RCronJob j)
  | CronFindByCatalogId cid => Ok (d, RCronJob (cron_find_by_catalog_id d cid))
  | CronGetDue now => Ok (d, RCronJobs (cron_get_due d now))
  | CronUpdateLastRun jid ts nxt => d ← cron_update_last_run d jid ts nxt; Ok (d, ROk)
  | CronPurgeCorrupt => let '(d, l) := cron_purge_corrupt d in Ok (d, RStringList l)
  | CronRunsReq jid limit => Ok (d, RCronRuns (cron_runs d jid (Z.to_nat limit)))
  | SecretsGet user nm => v ← secrets_get d user nm; Ok (d, RSecretValue v)
  | SecretsSet user nm value => d ← secrets_set d (secret_nonce e) (now_millis (admin_env e)) user nm value; Ok (d, ROk)
  | SecretsDelete user nm => let '(d, b) := secrets_delete d user nm in Ok (d, RBool b)
  | SecretsList user => Ok (d, RSecretNames (secrets_list d user))
  | HealthReq => Ok (d, RHealth (health_json e))
  | NetStatsReq => Ok (d, RNetStats (counters e))
  | AuditAppend event => Ok (audit_append d event, ROk)
  | AuditQueryReq q => l ← audit_query d q; Ok (d, RAuditEvents l)
  | Restart | AdminReq _ => Ok (d, ROk)
  end.

Definition with_admin (a : AdminState) (s : Daemon) : Daemon :=
  {| admin_state := a; sessions_of := sessions_of s; ck_disk := ck_disk s; restart_channel := restart_channel s |}.
Definition with_warren (nd : Netdoc) (a : AdminState) : AdminState := {| dir := dir a; metrics := metrics a; warren := Some nd |}.
Definition reply_error (r : AdminReply) : bool :=
  match r with
  | Reply r => is_error r
  | NoSessionRegistry | CheckpointFailed | RestoreFailed | NoNetdoc | ReadmitFailed _ => true
  | _ => false
  end.

(** Listing, writing and restoring sessions; [None]: the registry's actor is gone. *)
Definition serve_sessions (e : ServeEnv) (r : AdminRequest) (s : Daemon) : option (Daemon * AdminReply) :=
  match sessions_of s with
  | None => Some (s, NoSessionRegistry)
  | Some w =>
      match r with
      | CheckpointSessions =>
          let '(disk, n) := Checkpoint.write (daemon_env e) (file_saves e) (reg w) (ck_disk s) in
          let s := {| admin_state := admin_state s; sessions_of := sessions_of s; ck_disk := disk; restart_channel := restart_channel s |} in
          Some (s, match n, Checkpoint.load disk with
                   | Some _, Some f => Checkpointed (match f with Some f => cp_sessions f | None => [] end)
                   | _, _ => CheckpointFailed
                   end)
      | RestoreSessions dry_run =>
          match Checkpoint.restore (daemon_env e) (Invite.load (peers_file (dir (admin_state s)))) (file_saves e) dry_run w (ck_disk s) with
          | Ok (out, w, disk) =>
              Some ({| admin_state := admin_state s; sessions_of := Some w; ck_disk := disk; restart_channel := restart_channel s |},
                    match out with Some l => Restored l | None => RestoreFailed end)
          | _ => None
          end
      | _ => Some (s, Sessions (summaries channel_closed (now (daemon_env e)) (reg w)))
      end
  end.
Definition serve_prune (e : ServeEnv) (older : Z) (dry_run : bool) (s : Daemon) : Daemon * AdminReply :=
  match warren (admin_state s) with
  | None => (s, NoNetdoc)
  | Some nd =>
      if dry_run then (s, Reply (Pruned (map fst (stale_members nd (vpn_seen e) older (now_secs (admin_env e))))))
      else let '(nd, l) := prune_stale_members (stamp e) (vpn_seen e) older (now_secs (admin_env e)) nd in
           (with_admin (with_warren nd (admin_state s)) s, Reply (Pruned l))
  end.
Definition serve_readmit (e : ServeEnv) (prefix : string) (s : Daemon) : Daemon * AdminReply :=
  match warren (admin_state s) with
  | None => (s, NoNetdoc)
  | Some nd =>
      let a := admin_state s in
      match readmit_member (default [] (Invite.load (peers_file (dir a)))) prefix nd with
      | (nd, inr (node, nm)) =>
          (with_admin {| dir := log_admin_action (admin_env e) "readmit_peer" node (dir a); metrics := metrics a; warren := Some nd |} s,
           Reply (PeerReadmitted node nm))
      | (nd, inl x) => (with_admin (with_warren nd a) s, ReadmitFailed x)
      end
  end.
(** The other administrative requests: handled, then propagated to the document. *)
Definition serve_dir (e : ServeEnv) (r : AdminRequest) (s : Daemon) : Daemon * AdminReply :=
  let a := admin_state s in
  let revoke_id := removed_peer_full_id (dir a) r in
  let upsert_id := upserted_peer_full_id (dir a) r in
  let '(h, d, resp) := handle_admin_request debug_opt (dir a) (metrics a) (admin_env e) r in
  (with_admin {| dir := h; metrics := d;
                 warren := if is_error resp then warren a else propagate (stamp e) h revoke_id upsert_id <$> warren a |} s, Reply resp).
(** After a session request too the document is brought up to date. *)
Definition propagate_sessions (e : ServeEnv) (x : Daemon * AdminReply) : Daemon * AdminReply :=
  let a := admin_state x.1 in
  (if reply_error x.2 then x.1
   else with_admin {| dir := dir a; metrics := metrics a; warren := propagate (stamp e) (dir a) None None <$> warren a |} x.1, x.2).
Definition serve_admin_req (e : ServeEnv) (r : AdminRequest) (s : Daemon) : option (Daemon * AdminReply) :=
  match r with
  | Admin.ListSessions | CheckpointSessions | RestoreSessions _ => propagate_sessions e <$> serve_sessions e r s
  | PruneMembers older dry_run => Some (serve_prune e older dry_run s)
  | ReadmitPeer prefix => Some (serve_readmit e prefix s)
  | _ => Some (serve_dir e r s)
  end.
(** One request: the daemon afterwards, and the response, unless the connection ends. *)
Definition serve (e : ServeEnv) (req : DsRequest) (s : Daemon) : Daemon * option DsResponse :=
  match req with
  | Restart => (s, Some ROk)
  | AdminReq r => match serve_admin_req e r s with Some (s, x) => (s, Some (RAdmin x)) | None => (s, None) end
  | _ =>
      let a := admin_state s in
      match metrics a with
      | None => (s, None)
      | Some d =>
          match dispatch_store e d req with
          | Ok (d, resp) => (with_admin {| dir := dir a; metrics := Some d; warren := warren a |} s, Some resp)
          | _ => (s, None)
          end
      end
  end.
Definition after_reply (req : DsRequest) (s : Daemon) : Daemon * bool :=
  match req with
  | Restart => ({| admin_state := admin_state s; sessions_of := sessions_of s; ck_disk := ck_disk s;
                   restart_channel := (request_restart (restart_channel s)).1 |}, false)
  | _ => (s, true)
  end.

(** ** Frames *)
Context `{!Bincode DsRequest, !Bincode DsResponse}.
Definition frame (payload : bytes) : bytes := to_be32 (u32 (Z.of_nat (length payload))) ++ payload.
Inductive ReadResult := Payload (p : bytes) | TooLarge | Closed.
(** What is read, and what is left of the stream. *)
Definition read_frame (l : bytes) : ReadResult * bytes :=
  match l with
  | a :: b :: c :: d :: r =>
      let len := from_be32 a b c d in
      if MAX_FRAME <? len then (TooLarge, r)
      else if (Z.to_nat len <=? length r)%nat then (Payload (take (Z.to_nat len) r), drop (Z.to_nat len) r) else (Closed, [])
  | _ => (Closed, [])
  end.
(** A client's connection: responses it has not read, and whether the daemon still reads. *)
Record Conn := { unread : bytes; serving : bool }.
(** The daemon reads one request: its answer goes to the client, or the connection ends. *)
Definition handle_frame (e : ServeEnv) (bytes_in : bytes) (s : Daemon) : Daemon * option bytes * bool :=
  match (read_frame bytes_in).1 with
  | Payload p =>
      match dec p with
      | Some (req, _) =>
          let '(s, resp) := serve e req s in
          match resp with
          | Some resp => let '(s, go_on) := after_reply req s in (s, Some (frame (enc resp)), go_on)
          | None => (s, None, false)
          end
      | None => (s, None, false)
      end
  | _ => (s, None, false)
  end.
(** [DaemonConnection::request]; [None]: an error. *)
Definition request (e : ServeEnv) (req : DsRequest) (st : Conn * Daemon) : option DsResponse * (Conn * Daemon) :=
  let '(c, s) := st in
  if negb (serving c) then (None, st) else
  let '(s, out, go_on) := handle_frame e (frame (enc req)) s in
  let '(res, rest) := read_frame (unread c ++ default [] out) in
  (match res with Payload p => fst <$> dec p | _ => None end, ({| unread := rest; serving := go_on |}, s)).
End Serve.

(** ** Answers *)
(** The response a request expects ([remote_dispatch!] of the client's methods). *)
Definition answers (req : DsRequest) (resp : DsResponse) : bool :=
  match req, resp with
  | KvGet _ _, RKvEntry _ | KvSet _ _ _, ROk | KvDelete _ _, RBool _ | KvList _ _, RKvEntries _ | TsInsert _ _, ROk | TsInsertAt _ _ _, ROk
  | TsQuery _, RTsPoints _ | TsLatest _, RTsLatest _ | CronAdd _, ROk | CronRemove _, RBool _ | CronList, RCronJobs _ | CronGet _, RCronJob _
  | CronFindByCatalogId _, RCronJob _ | CronGetDue _, RCronJobs _ | CronUpdateLastRun _ _ _, ROk | CronPurgeCorrupt, RStringList _
  | SecretsGet _ _, RSecretValue _ | SecretsSet _ _ _, ROk | SecretsDelete _ _, RBool _ | SecretsList _, RSecretNames _ | AdminReq _, RAdmin _
  | NetStatsReq, RNetStats _ | AuditAppend _, ROk | AuditQueryReq _, RAuditEvents _ | CronRunsReq _ _, RCronRuns _ | Restart, ROk
  | HealthReq, RHealth _ => true
  | _, _ => false
  end.

Section Exact.
Context `{!InviteCrates, !Argon2, !Commands, !Bincode KvEntry, !Bincode MetricPoint, !Bincode SealedSecret, !AuditJson, !Aead,
  !CronCodec, !CronCrate, !ContentHash, !DocCrates, !Clock, !Procs, !Host, !HashIter, !RestoreEnv}.
Variable debug_opt : option string -> string.

Lemma dispatch_answers e d req d' resp : dispatch_store e d req = Ok (d', resp) ->
  match req with Restart | AdminReq _ => True | _ => answers req resp = true end.
Proof.
  destruct req; cbn [dispatch_store]; intros Hd; try exact I;
    try (by injection Hd as <- <-);
    try (match type of Hd with context [let '(_, _) := ?x in _] => destruct x end; by injection Hd as <- <-);
    match type of Hd with (mbind _ ?x = _) => destruct x eqn:?; cbn in Hd; [|done..] end; by injection Hd as <- <-.
Qed.
(** A response is always of the kind its request expects. *)
Theorem responses_expected e req s s' resp : serve debug_opt e req s = (s', Some resp) -> answers req resp = true.
Proof.
  unfold serve. intros Hs.
  destruct req; try (destruct (metrics (admin_state s)) as [d|]; [|done];
    match type of Hs with context [dispatch_store ?e ?d ?r] => destruct (dispatch_store e d r) as [[d' r']| |] eqn:Ed end; [|done..];
    injection Hs as _ <-; by apply dispatch_answers in Ed).
  - destruct (serve_admin_req _ _ _ _) as [[s1 x]|]; [|done]. by injection Hs as _ <-.
  - by injection Hs as _ <-.
Qed.

(** The local socket administers like the network: a request that is not about sessions or the roster's
    hygiene does to the stores, the metrics and the document what the same request of an authenticated
    administrator does, and is answered alike. *)
Theorem local_admin_like_network e r s :
  match r with Admin.ListSessions | CheckpointSessions | RestoreSessions _ | PruneMembers _ _ | ReadmitPeer _ => False | _ => True end ->
  serve debug_opt e (AdminReq r) s =
  let '(a, resp) := serve_admin debug_opt (admin_state s) (admin_env e) (stamp e) RoleCreator r in
  (with_admin a s, Some (RAdmin (Reply resp))).
Proof.
  intros Hr. assert (serve_admin_req debug_opt e r s = Some (serve_dir debug_opt e r s)) as E by by destruct r.
  cbn [serve]. rewrite E. unfold serve_dir, serve_admin. cbn [negb bool_decide].
  change (negb (bool_decide (RoleCreator = RoleCreator))) with false. cbv iota.
  by destruct (handle_admin_request _ _ _ _ _) as [[h d] resp].
Qed.

(** ** Framing *)
Context `{!Bincode DsRequest, !Bincode DsResponse}.
Definition fits {T} `{Bincode T} (x : T) : Prop := Z.of_nat (length (enc x)) <= MAX_FRAME /\ fst <$> dec (enc x) = Some x.
Lemma read_frame_head p rest : Z.of_nat (length p) < 2 ^ 32 ->
  read_frame (frame p ++ rest) =
  if MAX_FRAME <? Z.of_nat (length p) then (TooLarge, p ++ rest) else (Payload p, rest).
Proof.
  intros Hp. assert (is_u32 (Z.of_nat (length p))) as Hu by (unfold is_u32; lia).
  unfold frame. rewrite u32_small by done. unfold to_be32. cbn [app read_frame]. rewrite from_to_be32 by done.
  destruct (MAX_FRAME <? _); [done|]. rewrite Nat2Z.id, length_app.
  rewrite (proj2 (Nat.leb_le _ _)) by lia. by rewrite take_app_length, drop_app_length.
Qed.
Lemma read_frame_small p rest : Z.of_nat (length p) <= MAX_FRAME -> read_frame (frame p ++ rest) = (Payload p, rest).
Proof.
  intros Hp. rewrite read_frame_head by (unfold MAX_FRAME in *; lia). by rewrite (proj2 (Z.ltb_ge _ _)).
Qed.
Lemma handle_frame_exact e req s : fits req ->
  handle_frame debug_opt e (frame (enc req)) s =
  match serve debug_opt e req s with
  | (s, Some resp) => ((after_reply req s).1, Some (frame (enc resp)), (after_reply req s).2)
  | (s, None) => (s, None, false)
  end.
Proof.
  intros [Hl Hd]. unfold handle_frame. rewrite <-(app_nil_r (frame _)), read_frame_small by done. cbn [fst].
  destruct (dec (enc req)) as [[x n]|]; [|done]. injection Hd as ->. destruct (serve debug_opt e req s) as [s1 [resp|]]; [|done].
  by destruct (after_reply req s1).
Qed.

(** A client's requests, one after another. *)
Fixpoint client_run (l : list (ServeEnv * DsRequest)) (st : Conn * Daemon) : list (option DsResponse) * (Conn * Daemon) :=
  match l with
  | [] => ([], st)
  | (e, req) :: l => let '(r, st) := request debug_opt e req st in let '(rs, st) := client_run l st in (r :: rs, st)
  end.
(** What the daemon does with them: a request it refuses ends the connection, and so does a restart. *)
Fixpoint direct_run (l : list (ServeEnv * DsRequest)) (open : bool) (s : Daemon) : list (option DsResponse) * Daemon :=
  match l with
  | [] => ([], s)
  | (e, req) :: l =>
      if open then
        let '(s, resp) := serve debug_opt e req s in
        let '(s, go_on) := match resp with Some _ => after_reply req s | None => (s, false) end in
        let '(rs, s) := direct_run l go_on s in (resp :: rs, s)
      else let '(rs, s) := direct_run l false s in (None :: rs, s)
  end.
Definition connected (open : bool) : Conn := {| unread := []; serving := open |}.
Definition responses_fit (l : list (option DsResponse)) : Prop := forall r, Some r ∈ l -> fits r.

Lemma request_closed e req s : request debug_opt e req (connected false, s) = (None, (connected false, s)).
Proof. done. Qed.
Lemma request_open e req s : fits req -> (forall resp, (serve debug_opt e req s).2 = Some resp -> fits resp) ->
  request debug_opt e req (connected true, s) =
  match serve debug_opt e req s with
  | (s, Some resp) => (Some resp, (connected (after_reply req s).2, (after_reply req s).1))
  | (s, None) => (None, (connected false, s))
  end.
Proof.
  intros Hq Hr. unfold request. cbn [connected serving negb]. rewrite handle_frame_exact by done.
  destruct (serve debug_opt e req s) as [s1 [resp|]]; [|done]. destruct (Hr resp eq_refl) as [Hl Hd].
  cbn [unread connected app default from_option Datatypes.id]. rewrite <-(app_nil_r (frame _)), read_frame_small by done. cbn [fst snd]. by rewrite Hd.
Qed.

(** C17.  A program that talks to the daemon sees the daemon: as long as its requests and their answers fit a
    frame, every answer it gets is the daemon's own to that request, in the order the requests were made,
    and the daemon's stores are as if it had been asked directly; from the first request the daemon
    refuses on, it gets none. *)
Theorem client_sees_daemon l s :
  Forall (fun x => fits x.2) l -> responses_fit (direct_run l true s).1 ->
  (client_run l (connected true, s)).1 = (direct_run l true s).1 /\ (client_run l (connected true, s)).2.2 = (direct_run l true s).2 /\
  unread (client_run l (connected true, s)).2.1 = [].
Proof.
  intros Hl. assert (forall open s, responses_fit (direct_run l open s).1 ->
    (client_run l (connected open, s)).1 = (direct_run l open s).1 /\ (client_run l (connected open, s)).2.2 = (direct_run l open s).2 /\
    unread (client_run l (connected open, s)).2.1 = []) as Hgen; [|by apply Hgen].
  clear s. induction Hl as [|[e req] l Hq Hl IH]; intros open s Hr; [done|]. cbn [client_run direct_run] in *. destruct open.
  - destruct (serve debug_opt e req s) as [s1 resp] eqn:Es.
    set (go := match resp with Some _ => after_reply req s1 | None => (s1, false) end) in *.
    destruct go as [s2 go_on] eqn:Eg. destruct (direct_run l go_on s2) as [rs s3] eqn:Ed. cbn [fst snd] in *.
    rewrite request_open; [|done|].
    2:{ rewrite Es. cbn [snd]. intros r ->. apply Hr. by left. }
    rewrite Es. specialize (IH go_on s2). rewrite Ed in IH. cbn [fst snd] in IH.
    destruct IH as (K1 & K2 & K3); [intros r Hin; apply Hr; by right|].
    destruct resp as [resp|]; unfold go in Eg; [rewrite Eg|injection Eg as <- <-]; cbn [fst snd];
      (destruct (client_run l _) as [rs' st'] eqn:Ec; cbn [fst snd] in *; by rewrite K1).
  - specialize (IH false s). destruct (direct_run l false s) as [rs s3]. cbn [fst snd] in *. rewrite request_closed.
    destruct IH as (K1 & K2 & K3); [intros r Hin; apply Hr; by right|].
    destruct (client_run l _) as [rs' st']. cbn [fst snd] in *. by rewrite K1.
Qed.

(** ** Answers that do not fit *)
(** The frames one reads off a stream; [None] once one is cut short. *)
Fixpoint frames_of (n : nat) (u : bytes) : option (list (option DsResponse)) :=
  match n with
  | O => Some []
  | S n => match read_frame u with
           | (Payload p, r) => cons (fst <$> dec p) <$> frames_of n r
           | (TooLarge, r) => cons None <$> frames_of n r
           | (Closed, _) => None
           end
  end.
Lemma read_frame_app u x : (read_frame u).1 <> Closed -> read_frame (u ++ x) = ((read_frame u).1, (read_frame u).2 ++ x).
Proof.
  destruct u as [|a [|b [|c [|d r]]]]; cbn [read_frame app]; try done. destruct (MAX_FRAME <? _); [done|].
  destruct (Nat.leb_spec (Z.to_nat (from_be32 a b c d)) (length r)); [|done]. intros _.
  rewrite length_app, (proj2 (Nat.leb_le _ _)) by lia. cbn. by rewrite take_app_le, drop_app_le.
Qed.
Lemma frames_of_app n u x rs : frames_of n u = Some rs -> frames_of n (u ++ x) = Some rs.
Proof.
  revert u rs. induction n as [|n IH]; intros u rs Hf; [done|]. cbn [frames_of] in *.
  destruct (read_frame u) as [[q| |] r] eqn:E; [| |done]; rewrite read_frame_app by (by rewrite E); rewrite E; cbn [fst snd];
    (destruct (frames_of n r) eqn:E3; [|done]); by rewrite (IH _ _ E3).
Qed.
Lemma stale_run l u s rs : frames_of (length l) u = Some rs -> Forall (fun x => forall s, (serve debug_opt x.1 x.2 s).2 <> None) l ->
  Forall (fun x => fits x.2 /\ x.2 <> Restart) l -> (client_run l ({| unread := u; serving := true |}, s)).1 = rs.
Proof.
  revert u s rs. induction l as [|[e req] l IH]; intros u s rs Hf Hs Hq; [by injection Hf as <-|].
  inversion_clear Hs as [|? ? Hs1 Hs2]. inversion_clear Hq as [|? ? [Hq1 Hq1'] Hq2]. cbn [fst snd] in *.
  cbn [client_run]. unfold request. cbn [serving negb]. rewrite handle_frame_exact by done. specialize (Hs1 s).
  destruct (serve debug_opt e req s) as [s1 [resp|]]; [|done]. assert (after_reply req s1 = (s1, true)) as -> by by destruct req.
  cbn [fst snd unread default from_option Datatypes.id]. cbn [length frames_of] in Hf.
  destruct (read_frame u) as [[p| |] r] eqn:Er; [| |done]; rewrite read_frame_app by (by rewrite Er); rewrite Er; cbn [fst snd];
    (destruct (frames_of (length l) r) as [rs'|] eqn:Ef; [|done]); injection Hf as <-.
  all: specialize (IH (r ++ frame (enc resp)) s1 rs' (frames_of_app _ _ _ _ Ef) Hs2 Hq2);
    destruct (client_run l _) as [rs2 st2]; cbn [fst snd] in *; by rewrite IH.
Qed.
(** An answer larger than a frame is not skipped: the client fails that request and from then on reads the
    answers to its next ones out of the bytes of the large one, whatever it asks and the daemon says. *)
Theorem large_answer_desyncs e req s s1 resp l rs :
  serve debug_opt e req s = (s1, Some resp) -> req <> Restart -> fits req -> MAX_FRAME < Z.of_nat (length (enc resp)) < 2 ^ 32 ->
  frames_of (length l) (enc resp) = Some rs -> Forall (fun x => forall s, (serve debug_opt x.1 x.2 s).2 <> None) l ->
  Forall (fun x => fits x.2 /\ x.2 <> Restart) l ->
  (client_run ((e, req) :: l) (connected true, s)).1 = None :: rs.
Proof.
  intros Hs Hreq Hq Hlen Hf Hl1 Hl2. cbn [client_run]. unfold request. cbn [connected serving negb]. rewrite handle_frame_exact by done.
  rewrite Hs. assert (after_reply req s1 = (s1, true)) as -> by by destruct req. cbn [fst snd unread connected default from_option Datatypes.id app].
  rewrite <-(app_nil_r (frame _)), read_frame_head by lia. rewrite (proj2 (Z.ltb_lt _ _)) by lia. cbv iota beta.
  rewrite app_nil_r. pose proof (stale_run l (enc resp) s1 rs Hf Hl1 Hl2) as Hr. destruct (client_run l _) as [rs' st']. cbn in *. by rewrite Hr.
Qed.
End Exact.

(** ** A concrete client *)
#[export] Instance SealedSecret_eq_dec : EqDecision SealedSecret.
Proof. solve_decision. Defined.
#[export] Instance SealedSecret_countable : Countable SealedSecret.
Proof.
  refine (inj_countable' (fun x => (ciphertext x, nonce x, sealed_at x)) (fun '(a, b, c) => {| ciphertext := a; nonce := b; sealed_at := c |}) _).
  by intros [].
Defined.
Module Sample.
Definition store : AdminState := {| dir := dir two_peers; metrics := Some empty_store; warren := None |}.
Definition daemon : Daemon := {| admin_state := store; sessions_of := None; ck_disk := Absent; restart_channel := Empty |}.
Definition env : ServeEnv :=
  {| admin_env := demo_env; stamp := "0"; daemon_env := Checkpoint.Sample.daemon; secret_nonce := []; counters := []; health_json := "{}";
     file_saves := true; vpn_seen := fun _ => None |}.
Definition requests : Bincode DsRequest :=
  {| enc := fun r => match r with KvSet _ _ _ => [1] | KvGet _ _ => [2] | _ => [3] end;
     dec := fun b => match b with
                     | 1 :: _ => Some (KvSet "ns" "k" demo_entry, 1%nat)
                     | 2 :: _ => Some (KvGet "ns" "k", 1%nat)
                     | 3 :: _ => Some (SecretsSet "u" "n" [], 1%nat)
                     | _ => None
                     end |}.
Definition responses : Bincode DsResponse :=
  {| enc := fun r => match r with ROk => [1] | RKvEntry _ => [2] | _ => [] end;
     dec := fun b => match b with 1 :: _ => Some (ROk, 1%nat) | 2 :: _ => Some (RKvEntry (Some demo_entry), 1%nat) | _ => None end |}.
Definition plain_aead : Aead := {| aead_seal := fun _ _ p => p; aead_open := fun _ _ c => Some c; aead_roundtrip := fun _ _ _ => eq_refl |}.
(** A value is stored and read; then the daemon, which has no key for secrets, is asked to keep one. *)
Definition asked : list (ServeEnv * DsRequest) :=
  map (pair env) [KvSet "ns" "k" demo_entry; KvGet "ns" "k"; SecretsSet "u" "n" []; KvGet "ns" "k"].
End Sample.
#[local] Existing Instances Sample.requests Sample.responses Sample.plain_aead demo_crates plain_argon demo_commands demo_audit_json
  demo_cron_codec demo_cron_crate demo_content_hash demo_doc_crates demo_clock Checkpoint.Sample.procs Registry.demo_host key_order.
#[local] Instance kv_codec : Bincode KvEntry := demo_bincode KvEntry.
#[local] Instance metric_codec : Bincode MetricPoint := demo_bincode MetricPoint.
#[local] Instance secret_codec : Bincode SealedSecret := demo_bincode SealedSecret.
#[local] Instance restore_env : RestoreEnv := Checkpoint.Sample.env false.

Lemma client_sees_daemon_witness :
  (client_run (fun _ => EmptyString) Sample.asked (connected true, Sample.daemon)).1 =
  [Some ROk; Some (RKvEntry (Some demo_entry)); None; None].
Proof.
  assert ((direct_run (fun _ => EmptyString) Sample.asked true Sample.daemon).1 =
    [Some ROk; Some (RKvEntry (Some demo_entry)); None; None]) as E by (vm_compute; reflexivity).
  assert (Forall (fun x => fits x.2) Sample.asked) as Hq.
  { unfold Sample.asked. cbn [map]. repeat (apply Forall_cons; split; [split; [unfold MAX_FRAME; cbn; lia|reflexivity]|]).
    apply Forall_nil. exact I. }
  assert (responses_fit (direct_run (fun _ => EmptyString) Sample.asked true Sample.daemon).1) as Hr.
  { rewrite E. intros r Hr. apply elem_of_cons in Hr as [[= ->]|Hr]; [split; [unfold MAX_FRAME; cbn; lia|reflexivity]|].
    apply elem_of_cons in Hr as [[= ->]|Hr]; [split; [unfold MAX_FRAME; cbn; lia|reflexivity]|].
    apply elem_of_cons in Hr as [Hr|Hr]; [discriminate Hr|]. apply elem_of_cons in Hr as [Hr|Hr]; [discriminate Hr|]. apply elem_of_nil in Hr. destruct Hr. }
  destruct (client_sees_daemon (fun _ => EmptyString) Sample.asked Sample.daemon Hq Hr) as [K _]. exact (eq_trans K E).
Defined.
